(* ===== verification/_CoqProject ===== *)
-Q . S2P
Prelude.v
MemStructs.v
RBTree.v
FrameAlloc.v
FrameAllocLemmas.v
FrameAllocSafety.v
FrameAllocInit.v
FrameAllocSpec.v
PageAlloc.v
PageAllocSafety.v
PageAllocSpec.v
BTree.v
SchedTask.v
Eevdf.v
RealTime.v
Topology.v
RunQueue.v
Mks.v
EpochSched.v
PrioritySched.v
PteFlags.v
PageTable.v
PageWalk.v
PageTree.v
PageMap.v
PageUnmap.v
MapperSpec.v
Sources.v
MappedAccess.v
NewTable.v
Swap.v
SwapSpec.v
MapperDemo.v
SwapDemo.v
Io.v
IoSpec.v
BlockCache.v
BlockCacheSpec.v
StorageProps.v
Paths.v
PathSpec.v
PathProps.v
Files.v
FileProps.v
Vfs.v
VfsProps.v
SysTables.v
SysState.v
SysFileIo.v
SysMemory.v
SysMisc.v
SysDispatch.v
SysNt.v
SysProps.v
SysFileProps.v
SysDemo.v
Slab.v
SlabBits.v
SlabList.v
SlabSpec.v
SlabAlloc.v
SlabZone.v
Heaps.v
HeapProps.v
HeapBlocks.v
HeapInit.v
HeapClaims.v
MpmcQueue.v
SchedulerApi.v
SchedulerProps.v
TaskState.v
TaskProps.v
WaitQueues.v
Rendezvous.v
RendezvousProps.v
SyncChannel.v
SyncChannelProps.v
Sleep.v
Partitions.v
Plugins.v
