(* ===== verification/Prelude.v ===== *)
(** * MaiOS verification library

    MaiOS is a Rust operating system derived from Theseus: single address space, safe
    language, memory and CPU time managed by ordinary crates.  This library models the
    crates that carry the kernel's own resource management and proves the properties
    that make them correct.

    ** Parts of the system and the files that model them

    Memory (requests flow down, frames and pages are returned by drop handlers):
    - addresses, pages, frames and ranges: [MemStructs] models
      [kernel/memory_structs/src/lib.rs], the ranges of [libs/range_inclusive] and the
      constants of [kernel_config/src/memory.rs].  An address or chunk number is a [Z]
      in [0, 2^64); a page or frame number counts 4K chunks whatever the page size, as
      in the source.  The virtual and the physical instance of the address macro, and
      the aarch64 one, are instances of the class [AddressOps] with laws [AddressLaws].
    - the collection of chunks: [RBTree] models
      [kernel/frame_allocator/src/static_array_rb_tree.rs].  The red-black tree itself
      is the third-party crate intrusive_collections; it enters as the class
      [RBTreeOps] with the documented laws [RBTreeLaws], which the sorted lists of
      [ListTree] satisfy.
    - the frame allocator: [FrameAlloc] (data and operations of
      [kernel/frame_allocator/src/lib.rs]), [FrameAllocLemmas] (conservation of frames),
      [FrameAllocSafety] (the allocator and its clients as a transition system, the
      ownership invariant), [FrameAllocInit] ([init] and
      [check_and_add_free_region]), [FrameAllocSpec] (behaviour of the entry points).
      The four static lists are the record [FrameAllocator]; a [Frames] object is a
      record with its type and range, its state ([Allocated], [Unmapped], ...) an
      argument of the drop handler.
    - the page allocator: [PageAlloc] (data and operations of
      [kernel/page_allocator/src/lib.rs], over the same collection), [PageAllocSafety]
      (counting, the transition system and its invariant), [PageAllocSpec] (behaviour
      of the entry points).  [DESIGNATED_PAGES_LOW_END] and [FREE_PAGE_LIST] are the
      record [PageAllocator].

    - page-table entries: [PteFlags] models [kernel/pte_flags] and
      [kernel/page_table_entry]; the bitflags crate enters as the class [Bitflags] with
      the laws [BitflagsLaws].
    - page tables and mapped pages: [PageTable] models [paging/table.rs], [mapper.rs],
      [temporary_page.rs] and the [PageTable] of [paging/mod.rs] in [kernel/memory/src],
      over the memory of the tables and the processor's page walk; it is written against
      the interfaces [FrameSource] and [PageSource], which [Sources] discharges with the
      two allocators.  [PageWalk], [PageTree], [PageMap] and [PageUnmap] hold the lemmas
      on walks, on the tree of tables and on the loops; [MapperSpec], [MappedAccess] and
      [NewTable] the theorems; [MapperDemo] a concrete kernel.
    - address spaces and swapping: [Swap] models [paging/address_space.rs], the raw
      access to entries, [kernel/memory_swap] and the swap branch of the page-fault
      handler; [SwapSpec] and [SwapDemo] the theorems and a concrete run.
    - the slab allocator: [Slab] models [kernel/slabmalloc/src] over an explicit memory of
      object pages that raw pointers link; [SlabBits] (the allocation bitfield),
      [SlabList] (the linked lists as lists), [SlabSpec] and [SlabAlloc] (a size class) and
      [SlabZone] (the classes together) hold its contract.
    - the kernel heap: [Heaps] models [kernel/block_allocator], [kernel/multiple_heaps] and
      [kernel/heap]; the linked-list allocator behind the first is the class
      [FallbackHeap] with the laws [FallbackLaws], the pages come through [KernelMemory]
      and [HeapPages] (laws [HeapPagesLaws]).  [HeapProps], [HeapBlocks] and [HeapInit]
      hold the lemmas, [HeapClaims] the theorems and a concrete machine.

    CPU time (a timer tick charges the running task and may request a reschedule; the
    scheduler picks the next task from the queues of its CPU or steals one):
    - tasks: [SchedTask] models the scheduling fields of [kernel/task_struct] and the
      weight tables.  [TaskRef] is a shared pointer, so the queues hold references into
      one store of tasks and every operation that writes a task returns the new store.
    - ordered maps: [BTree] models [BTreeMap] with pair keys.
    - the Mai Kernel Scheduler [kernel/mks]: [Eevdf] (eevdf.rs), [RealTime]
      (realtime.rs and deadline.rs), [Topology] (topology.rs), [RunQueue] (runqueue.rs
      and stats.rs) and [Mks] (lib.rs), each using the ones before it; [Plugins]
      (plugin.rs).
    - the schedulers behind [task::scheduler]: [EpochSched] ([kernel/scheduler_epoch]),
      [PrioritySched] ([kernel/scheduler_priority]) and, with the trait itself, the list of
      all schedulers and the kernel's operations on it ([kernel/task/src/scheduler.rs]),
      [SchedulerApi], which also has the round-robin policy.  The trait is the class
      [Scheduler] with the laws [SchedulerLaws]; schedulers are shared between the list and
      the variable of their CPU, so they live in a store.  [SchedulerProps] discharges the
      laws for the three policies and proves the operations from them.

    Tasks and communication (a task that has to wait blocks itself, the event unblocks it):
    - run states: [TaskState] models [kernel/task/src/lib.rs] and [joinable.rs]: blocking,
      unblocking, killing, exiting, the list of tasks and the switch of the current task;
      [TaskProps] has the theorems and concrete machines.
    - the queue under the wait queues: [MpmcQueue] models [libs/mpmc_queue] over a store of
      linked nodes.
    - waiting: [WaitQueues] models [kernel/wait_queue] and [kernel/wait_guard] as atomic
      steps on run states, which it relates to [TaskState].
    - channels: [Rendezvous] models [kernel/rendezvous], [SyncChannel] models
      [kernel/sync_channel] and [kernel/simple_ipc].  Any number of tasks run calls whose
      state is a program point; a step is what happens under one lock or on one atomic cell,
      and the reachable states are those of all interleavings, with tasks killed and woken
      at any moment.  Histories record what was exchanged.  The bounded queue
      of the crate mpmc is the class [BoundedQueue] with [BoundedQueueLaws].
      [RendezvousProps] and [SyncChannelProps] have the theorems.
    - sleeping: [Sleep] models [kernel/sleep], the wakers of [kernel/waker_generic] and
      [kernel/waker], and the tick time of [kernel/scheduler], with the theorems on them.

    Storage and files (a file or the swap manager asks a block device, mostly through
    the cache; names lead through directories to files):
    - block and byte I/O: [Io] models [kernel/io/src/lib.rs] and the traits of
      [kernel/storage_device]: [BlockIO] and [ByteIO] are classes, the wrappers and the
      streams are written over them.  [IoSpec] states what devices and
      byte streams promise ([BlockIOLaws], [HealthyIO], [ByteIOLaws]) and proves it of the
      wrappers.
    - the block cache: [BlockCache] models [kernel/block_cache] over any device, with the
      order in which a hash map is iterated as a parameter; [BlockCacheSpec] shows that it
      keeps the laws of a device.  [StorageProps] has the
      theorems on the whole stack and a concrete device, [RamDisk].
    - partitions: [Partitions] models [kernel/partition_table] and [kernel/partition_device]
      over any block device, with the theorems on them.
    - paths: [Paths] models [kernel/path/src], strings being lists of bytes; [PathSpec]
      gives the reference meaning of a path, [PathProps] the theorems.
    - files in memory: [Files] models [kernel/heapfile] and [kernel/memfs]; the memory
      that holds mapped files, with its page allocator and page table, is the class
      [KernelMemory] with the laws [KernelMemoryLaws].  [FileProps] has the theorems and a
      concrete memory.
    - the virtual file system: [Vfs] models [kernel/fs_node], [kernel/vfs_node],
      [kernel/root] and the look-up of [kernel/path], with all nodes in one store because
      references are shared; [VfsProps] has the theorems.

    System calls (a Linux or Windows program's call is translated to a native number,
    which the table of handlers serves):
    - [SysTables] models [error.rs] and [resource.rs] of [kernel/maios_syscall/src],
      [SysState] the state the handlers share, [SysFileIo] [file_io.rs], [SysMemory]
      [memory.rs], [SysMisc] [process.rs], [time.rs], [system.rs], [signals.rs],
      [event_io.rs], [extended.rs], [futex.rs] and [socket.rs]; [SysDispatch] the table of
      [lib.rs] and the Linux translation of [kernel/linux_syscall], [SysNt] the Windows
      translation of [kernel/windows_syscall].  Standard streams, the processor, other
      tasks and the loaders of executables are the classes [AppIo], [Machine] and
      [Loader].  [SysProps] and [SysFileProps] have the theorems, [SysDemo] a concrete
      system.

    ** What the theorems show

    - Frames: no physical frame has two owners, in every state that is reached by
      requests whose address, if they have one, is not below all known regions; [init]
      hands out exactly the free frames that are not reserved and establishes the
      invariant;
      allocation succeeds exactly when a large enough chunk exists; drop returns all
      frames; splitting and merging are inverse.
    - Pages: from [init] on, no virtual page has two owners and every page number is one
      that [init] made free, for all requests but those that make
      [find_specific_chunk] merge free chunks; requests without an address fail
      only when no free chunk has room, requests at an address exactly when no free
      chunk contains them; drop returns all pages.
    - Addresses and ranges: canonical addresses are closed under the operations, the
      page-table indices identify an address, conversions between page sizes and
      between offsets and addresses are inverse, iteration yields every chunk.
    - Page tables: the kernel's translation agrees with the processor's walk; mapping a
      range makes exactly its pages translate to its frames, unmapping releases them,
      mapping and dropping restores the tables; mappings of owned frames are injective;
      a new table is empty; accessors stay within their mapping; a page that is swapped
      out comes back with its contents, where the tables are mapped at their physical
      addresses.
    - Heap: the page lists refine lists; an allocation returns an object that overlaps no
      object in use in any heap, or null when the kernel does not give its pages; a deallocation
      takes exactly its object out of the heap that owns it; a class is out of memory only
      when it is full; large objects and the blocks of the initial allocator come back.
    - Storage: byte ranges are split into transfers that cover them exactly; what is
      written is read back through wrappers, streams and the cache, which refines the
      array of the device's blocks; a flush makes it durable.  Partitions of one disk do not
      interfere, and the tables written on a disk are the ones that are detected.
    - Paths and directories: the component iterator yields the components of the path
      from both ends; joining, printing and relative paths mean what they say; the
      absolute path of a node leads back to it, creation and removal change one entry and
      keep the tree well-formed; files return what was written to them.
    - System calls: the numbers of the Linux ABI run its calls, on their arguments; bytes
      written through a descriptor are read back, created files are found, an open
      descriptor is not given to anything else, futex waits end, and the clock's calendar arithmetic is right.
    - Scheduling: the bookkeeping invariants of the queues hold in every reachable
      state; the fair queue picks the eligible task with the earliest virtual deadline,
      the real-time queue the highest priority, the deadline queue the earliest
      deadline within an admitted bandwidth of 95 percent; the queues of the classes are
      looked at in order, the deadline queue only at its head; placement and stealing follow their policies; the epoch scheduler
      serves a task with tokens within its turn and deals tokens in proportion to
      priority; the priority scheduler picks the maximal candidate.
    - Tasks: run states and run queues stay consistent under every sequence of operations
      on any mixture of policies; a change of policy moves every task; the round-robin
      policy is fair.  The queue of nodes refines a list.
    - Channels: a message is delivered once and in order, and what a call reports is what
      happened to its message; the branches of the rendezvous channel that report a bug are
      unreachable, its slot has one holder on each side, and the partner of an exchange is
      woken; the buffered channel keeps its capacity; the one-byte channel is a queue of
      one place.
    - Sleep: the timer wakes exactly the sleepers whose time has come and ends; a blocker
      does not miss its waker.
    - Departures: the theorems named after a failure state where the code does not do
      what its documentation says; each is a closed computation or a general statement.

    ** Conventions

    Unchecked arithmetic wraps around at 64 bits ([wrap64]): the kernel is built
    without overflow checks.  A panic, an index out of range or a lock taken twice is
    [Panic] in the type [outcome]; theorems that claim a result prove it is [Done].
    Fuel is an argument of the loops that are not structural: the recursion of
    [check_and_add_free_region] and the merging of reserved regions, for which the number
    of reserved regions plus one is proved sufficient; the walks along a tree, a range or
    a path, where its length plus one is; the walks along the linked page lists, given the
    number of pages in memory plus one, which a list without a cycle does not exceed; the
    search for a temporary page, bounded by the number of pages; the splitting of a byte range, which takes at most three rounds and
    is given four; [get_absolute_path], for which the depth of the node plus one is
    proved sufficient; and the waiting loops of system calls, where the ticks up to the
    deadline are, if the clock advances; the steps of [notify_one], three per waiting task and
    one more, and the rounds of the timer, one per sleeper and one more, both proved
    sufficient; and a call on the buffered channel that runs alone, given three steps per
    waiting task and eight.  [wait_until], [join], [send] and [receive] wait for other tasks
    and are step relations instead.  Accesses to atomic cells and the critical sections of
    locks are single steps in a sequentially consistent order.  Log output is left out.

    ** Not modelled

    The set-up of paging at boot, the translation look-aside buffer and the aarch64
    mapper; the lockable wrapper of the I/O traits; FAT32 and the task file system; the alternative slab allocators, and what the kernel's own collections
    allocate while a heap grows; the switch of registers, spawning and the entry into
    system calls, which are assembly or close to it; wait conditions and the lock flavours;
    weak memory orderings; the module loader, drivers and interrupts; networking, graphics and applications; third-party
    and ported code ([ports], [libs/core2] and the like). *)

From stdpp Require Export base tactics decidable list numbers option strings relations.
From Stdlib Require Export ZArith Lia Permutation.

#[global] Open Scope Z_scope.

(** ** Machine integers

    A [usize] or [u64] is a [Z] in [0, 2^64).  The kernel is built in the
    release profile, so an unchecked [+], [-] or [*] wraps around;
    [saturating_*] operations clamp. *)

Definition U64_MAX : Z := 18446744073709551615.

Definition wrap64 (x : Z) : Z := x mod 18446744073709551616.

Definition in_u64 (x : Z) : Prop := 0 <= x <= U64_MAX.

Definition sat_add (a b : Z) : Z := Z.min U64_MAX (a + b).

Definition sat_sub (a b : Z) : Z := Z.max 0 (a - b).

Definition sat_mul (a b : Z) : Z := Z.min U64_MAX (a * b).

(** [Ord::clamp]. *)
Definition clamp (x lo hi : Z) : Z := if x <? lo then lo else if hi <? x then hi else x.

(** ** Results and panics *)

(** [Result<A, E>]. *)
Inductive result (A E : Type) : Type :=
| Ok (a : A)
| Err (e : E).
Arguments Ok {A E} a.
Arguments Err {A E} e.

(** A computation that either finishes or reaches a panic ([panic!],
    [todo!], [expect], [unwrap], an out-of-range index) or never returns (taking a
    lock it already holds).  *)
Inductive outcome (A : Type) : Type :=
| Done (a : A)
| Panic.
Arguments Done {A} a.
Arguments Panic {A}.

Definition outcome_bind {A B} (m : outcome A) (k : A -> outcome B) : outcome B :=
  match m with Done a => k a | Panic => Panic end.

Declare Scope kernel_scope.
Delimit Scope kernel_scope with kernel.

Notation "'let*' p ':=' m 'in' k" := (outcome_bind m (fun p => k))
  (at level 10, p pattern, m at level 100, k at level 200)
  : kernel_scope.
#[global] Open Scope kernel_scope.

(** [Option::expect] / [Result::unwrap]. *)
Definition expect {A} (o : option A) : outcome A :=
  match o with Some a => Done a | None => Panic end.

Definition unwrap {A E} (r : result A E) : outcome A :=
  match r with Ok a => Done a | Err _ => Panic end.

Definition is_done {A} (m : outcome A) : bool :=
  match m with Done _ => true | Panic => false end.

(** ** Tactics and hints *)

Create HintDb maios.
Create Rewrite HintDb maios.

(** Turn the boolean tests in the context and in the goal into facts [lia]
    uses. *)
Ltac bool_to_prop :=
  repeat match goal with
  | H : (_ && _)%bool = true |- _ => apply andb_prop in H as [? ?]
  | H : (_ || _)%bool = false |- _ => apply orb_false_elim in H as [? ?]
  | H : negb _ = true |- _ => apply negb_true_iff in H
  | H : negb _ = false |- _ => apply negb_false_iff in H
  | H : (_ <=? _) = true |- _ => apply Z.leb_le in H
  | H : (_ <=? _) = false |- _ => apply Z.leb_gt in H
  | H : (_ <? _) = true |- _ => apply Z.ltb_lt in H
  | H : (_ <? _) = false |- _ => apply Z.ltb_ge in H
  | H : (_ =? _) = true |- _ => apply Z.eqb_eq in H
  | H : (_ =? _) = false |- _ => apply Z.eqb_neq in H
  | H : bool_decide _ = true |- _ => apply bool_decide_eq_true_1 in H
  | H : bool_decide _ = false |- _ => apply bool_decide_eq_false_1 in H
  end.

(** Case analysis on every integer comparison of the goal. *)
Ltac case_cmp :=
  repeat match goal with
  | |- context [?a <=? ?b] => destruct (Z.leb_spec a b)
  | |- context [?a <? ?b] => destruct (Z.ltb_spec a b)
  | |- context [?a =? ?b] => destruct (Z.eqb_spec a b)
  end.

(** Destruct the scrutinee of a [match] or [if] in hypothesis [H]. *)
Ltac case_in H :=
  match type of H with
  | context [match ?x with _ => _ end] => let E := fresh "E" in destruct x eqn:E
  end.

Ltac destruct_ex :=
  repeat match goal with
  | H : exists x, _ |- _ => let y := fresh x in destruct H as [y H]
  | H : _ /\ _ |- _ => destruct H
  end.

(** ** Integers *)

Lemma wrap64_id (x : Z) : in_u64 x -> wrap64 x = x.
Proof. unfold in_u64, U64_MAX, wrap64. intros. apply Z.mod_small. lia. Qed.

Lemma wrap64_in (x : Z) : in_u64 (wrap64 x).
Proof.
  unfold in_u64, U64_MAX, wrap64.
  pose proof (Z.mod_pos_bound x 18446744073709551616). lia.
Qed.

Lemma clamp_bounds (x lo hi : Z) : lo <= hi -> lo <= clamp x lo hi <= hi.
Proof. unfold clamp. case_cmp; lia. Qed.

Lemma clamp_id (x lo hi : Z) : lo <= x <= hi -> clamp x lo hi = x.
Proof. unfold clamp. case_cmp; lia. Qed.

#[export] Hint Resolve wrap64_in clamp_bounds : maios.
#[export] Hint Rewrite wrap64_id using (unfold in_u64, U64_MAX in *; lia) : maios.

(** ** Sums over lists *)

(** The sum of [w] over a list: the counting arguments of the allocators and
    of the run queues are equalities between such sums. *)
Fixpoint sum_of {A} (w : A -> Z) (l : list A) : Z :=
  match l with [] => 0 | x :: l' => w x + sum_of w l' end.

Section sum_of.
Context {A : Type} (w : A -> Z).

Lemma sum_of_app (l1 l2 : list A) : sum_of w (l1 ++ l2) = sum_of w l1 + sum_of w l2.
Proof. induction l1; simpl; lia. Qed.

#[export] Instance sum_of_Permutation : Proper (Permutation ==> eq) (sum_of w).
Proof. induction 1; simpl; lia. Qed.

Lemma sum_of_nonneg (l : list A) : (forall x, 0 <= w x) -> 0 <= sum_of w l.
Proof. intros Hw. induction l as [|x l IH]; simpl; [lia|]. specialize (Hw x). lia. Qed.

Lemma sum_of_elem (l : list A) (x : A) :
  (forall y, 0 <= w y) -> x ∈ l -> w x <= sum_of w l.
Proof.
  intros Hw Hin. induction Hin as [y l|z y l Hin IH]; simpl.
  - pose proof (sum_of_nonneg l Hw). lia.
  - specialize (Hw y). lia.
Qed.

Lemma sum_of_zero (l : list A) :
  (forall y, 0 <= w y) -> sum_of w l = 0 -> Forall (fun x => w x = 0) l.
Proof.
  intros Hw. induction l as [|x l IH]; simpl; intros H; constructor.
  - pose proof (Hw x). pose proof (sum_of_nonneg l Hw). lia.
  - apply IH. pose proof (Hw x). pose proof (sum_of_nonneg l Hw). lia.
Qed.

Lemma sum_of_all_zero (l : list A) : Forall (fun x => w x = 0) l -> sum_of w l = 0.
Proof. induction 1; simpl; lia. Qed.

Lemma sum_of_pos (l : list A) :
  0 < sum_of w l -> exists x, x ∈ l /\ 0 < w x.
Proof.
  induction l as [|x l IH]; simpl; intros H; [lia|].
  destruct (decide (0 < w x)) as [Hx|Hx].
  - exists x. split; [left|done].
  - destruct IH as (y & Hy & ?); [lia|]. exists y. split; [by right|done].
Qed.

End sum_of.

Lemma sum_of_ext {A} (w1 w2 : A -> Z) (l : list A) :
  Forall (fun x => w1 x = w2 x) l -> sum_of w1 l = sum_of w2 l.
Proof. induction 1; simpl; lia. Qed.

(** ** Lists *)

(** [omap id] of an array of [Option]s is what [.iter().flatten()] visits. *)
Definition flatten_opts {A} (l : list (option A)) : list A := omap id l.

Lemma flatten_opts_app {A} (l1 l2 : list (option A)) :
  flatten_opts (l1 ++ l2) = flatten_opts l1 ++ flatten_opts l2.
Proof. apply omap_app. Qed.

Lemma flatten_opts_insert_None {A} (l : list (option A)) (i : nat) (x : A) :
  l !! i = Some None ->
  Permutation (flatten_opts (<[i := Some x]> l)) (x :: flatten_opts l).
Proof.
  intros Hi. apply list_elem_of_split_length in Hi as (l1 & l2 & -> & ->).
  rewrite insert_app_r_alt by lia. rewrite Nat.sub_diag. simpl.
  rewrite !flatten_opts_app. simpl. symmetry. apply Permutation_middle.
Qed.

Lemma flatten_opts_take {A} (l : list (option A)) (i : nat) (x : A) :
  l !! i = Some (Some x) ->
  Permutation (flatten_opts l) (x :: flatten_opts (<[i := None]> l)).
Proof.
  intros Hi. apply list_elem_of_split_length in Hi as (l1 & l2 & -> & ->).
  rewrite insert_app_r_alt by lia. rewrite Nat.sub_diag. simpl.
  rewrite !flatten_opts_app. simpl. symmetry. apply Permutation_middle.
Qed.

(** The index of the first element that satisfies [f]. *)
Fixpoint find_index {A} (f : A -> bool) (l : list A) : option nat :=
  match l with
  | [] => None
  | x :: l' => if f x then Some 0%nat else S <$> find_index f l'
  end.

Lemma find_index_Some {A} (f : A -> bool) (l : list A) (i : nat) :
  find_index f l = Some i ->
  (exists x, l !! i = Some x /\ f x = true) /\
  (forall j y, (j < i)%nat -> l !! j = Some y -> f y = false).
Proof.
  revert i. induction l as [|x l IH]; intros i H; simpl in H; [done|].
  destruct (f x) eqn:Ef.
  - simplify_eq. split; [eauto|]. intros; lia.
  - destruct (find_index f l) as [k|] eqn:Ek; simplify_eq/=.
    destruct (IH k eq_refl) as [(y & Hy & Hfy) Hlt]. split; [eauto|].
    intros [|j] z Hj Hz; simplify_eq/=; [done|]. eapply Hlt; [|done]. lia.
Qed.

Lemma find_index_None {A} (f : A -> bool) (l : list A) :
  find_index f l = None -> Forall (fun x => f x = false) l.
Proof.
  induction l as [|x l IH]; simpl; [done|].
  destruct (f x) eqn:Ef; [done|]. destruct (find_index f l); [done|].
  intros _. constructor; auto.
Qed.

Lemma lookup_split_delete {A} (l : list A) (i : nat) (x : A) :
  l !! i = Some x -> Permutation l (x :: delete i l).
Proof. apply delete_Permutation. Qed.

Lemma delete_out_of_range {A} (l : list A) (i : nat) : (length l <= i)%nat -> delete i l = l.
Proof.
  revert i. induction l as [|x l IH]; intros [|i] Hi; simpl in *; try done; [lia|].
  change (x :: delete i l = x :: l). rewrite IH by lia. done.
Qed.

(** Two different positions of a list contribute separately to a sum. *)
Lemma sum_of_two {A} (w : A -> Z) (l : list A) (i j : nat) (x y : A) :
  (forall z, 0 <= w z) -> i <> j -> l !! i = Some x -> l !! j = Some y ->
  w x + w y <= sum_of w l.
Proof.
  intros Hw Hij Hi Hj. rewrite (delete_Permutation l i x Hi). simpl.
  enough (w y <= sum_of w (delete i l)) by lia. apply sum_of_elem; [done|].
  apply list_elem_of_lookup. destruct (decide (j < i)%nat).
  - exists j. by rewrite list_lookup_delete_lt.
  - exists (pred j). rewrite list_lookup_delete_ge by lia. by replace (S (pred j)) with j by lia.
Qed.

(** ** Little-endian integers *)

Fixpoint le_bytes (n : nat) (x : Z) : list Z :=
  match n with
  | O => []
  | S n => x mod 256 :: le_bytes n (x / 256)
  end.

Fixpoint le_value (l : list Z) : Z :=
  match l with
  | [] => 0
  | b :: l => b + 256 * le_value l
  end.

Lemma le_bytes_length (n : nat) (x : Z) : length (le_bytes n x) = n.
Proof. revert x. induction n as [| n IH]; intros x; cbn; [done |]. by rewrite IH. Qed.

Lemma le_value_bytes (n : nat) (x : Z) : le_value (le_bytes n x) = x mod 256 ^ Z.of_nat n.
Proof.
  revert x. induction n as [| n IH]; intros x; cbn [le_bytes le_value]; [by rewrite Z.mod_1_r |].
  rewrite IH. rewrite Nat2Z.inj_succ, Z.pow_succ_r by lia.
  rewrite Z.rem_mul_r; [lia | lia | apply Z.pow_pos_nonneg; lia].
Qed.
