(* ===== verification/MemStructs.v ===== *)
(** * Addresses, pages, frames and their ranges

    Models kernel/memory_structs/src/lib.rs, libs/range_inclusive/src/lib.rs and
    the constants of kernel/kernel_config/src/memory.rs (x86_64 values).

    The source defines [VirtualAddress]/[PhysicalAddress], [Page]/[Frame] and
    [PageRange]/[FrameRange] by three macros, each instantiated twice; the two
    instantiations differ in the canonical-address functions.  Here the macros
    are modelled once, over the class [AddressOps], and the instances are the
    canonical-address modules of x86_64 and aarch64.  A [Page<P>] or [Frame<P>]
    is its 4K number, a [Z]; the page size [P] is an argument of the operations
    that use it. *)

From S2P Require Import Prelude.

(** ** kernel_config *)

Definition PAGE_SHIFT : Z := 12.
Definition PAGE_SIZE : Z := Z.shiftl 1 PAGE_SHIFT.
Definition ENTRIES_PER_PAGE_TABLE : Z := PAGE_SIZE / 8.
Definition canonicalize_config (addr : Z) : Z := Z.lor addr 0xFFFF000000000000.
Definition MAX_VIRTUAL_ADDRESS : Z := canonicalize_config U64_MAX.
Definition MAX_PAGE_NUMBER : Z := MAX_VIRTUAL_ADDRESS / PAGE_SIZE.

Definition P1_INDEX_SHIFT : Z := 0.
Definition P2_INDEX_SHIFT : Z := P1_INDEX_SHIFT + 9.
Definition P3_INDEX_SHIFT : Z := P2_INDEX_SHIFT + 9.
Definition P4_INDEX_SHIFT : Z := P3_INDEX_SHIFT + 9.

Definition KERNEL_TEXT_P4_INDEX : Z := ENTRIES_PER_PAGE_TABLE - 1.
Definition RECURSIVE_P4_INDEX : Z := ENTRIES_PER_PAGE_TABLE - 2.
Definition KERNEL_HEAP_P4_INDEX : Z := ENTRIES_PER_PAGE_TABLE - 3.
Definition UPCOMING_PAGE_TABLE_RECURSIVE_P4_INDEX : Z := ENTRIES_PER_PAGE_TABLE - 4.

(** The first address of an entry of the top-level page table. *)
Definition p4_entry_start (index : Z) : Z :=
  canonicalize_config (Z.shiftl index (P4_INDEX_SHIFT + PAGE_SHIFT)).

Definition KERNEL_TEXT_START : Z := p4_entry_start KERNEL_TEXT_P4_INDEX.
Definition RECURSIVE_P4_START : Z := p4_entry_start RECURSIVE_P4_INDEX.
Definition KERNEL_HEAP_START : Z := p4_entry_start KERNEL_HEAP_P4_INDEX.
Definition UPCOMING_PAGE_TABLE_RECURSIVE_P4_START : Z :=
  p4_entry_start UPCOMING_PAGE_TABLE_RECURSIVE_P4_INDEX.

(** ** Page sizes *)

Inductive PageSize : Type := Page4K | Page2M | Page1G.

#[export] Instance PageSize_eq_dec : EqDecision PageSize.
Proof. solve_decision. Defined.

Definition NUM_4K_PAGES (P : PageSize) : Z :=
  match P with
  | Page4K => 1
  | Page2M => 1 * ENTRIES_PER_PAGE_TABLE
  | Page1G => (1 * ENTRIES_PER_PAGE_TABLE) * ENTRIES_PER_PAGE_TABLE
  end.

Definition SIZE_IN_BYTES (P : PageSize) : Z :=
  match P with
  | Page4K => PAGE_SIZE
  | Page2M => NUM_4K_PAGES Page2M * PAGE_SIZE
  | Page1G => NUM_4K_PAGES Page1G * PAGE_SIZE
  end.

Inductive MemoryState : Type := StFree | StAllocated | StMapped | StUnmapped.

(** ** Canonical addresses *)

Definition not64 (x : Z) : Z := Z.lxor x U64_MAX.

Definition as_isize (x : Z) : Z := if x <? 2 ^ 63 then x else x - 2 ^ 64.

Definition VIRT_MASK_X86 : Z := 0x00007FFFFFFFFFFF.
Definition PHYS_MASK_X86 : Z := 0x000FFFFFFFFFFFFF.
Definition MASK_AARCH64 : Z := 0x0000FFFFFFFFFFFF.

Definition is_canonical_virtual_address (virt_addr : Z) : bool :=
  let upper17 := Z.land virt_addr (not64 VIRT_MASK_X86) in
  (upper17 =? 0) || (upper17 =? not64 VIRT_MASK_X86).

Definition canonicalize_virtual_address (virt_addr : Z) : Z :=
  wrap64 (Z.shiftr (as_isize (wrap64 (Z.shiftl virt_addr 16))) 16).

Definition is_canonical_physical_address (phys_addr : Z) : bool :=
  Z.land phys_addr (not64 PHYS_MASK_X86) =? 0.

Definition canonicalize_physical_address (phys_addr : Z) : Z :=
  Z.land phys_addr PHYS_MASK_X86.

Definition is_canonical_address_aarch64 (addr : Z) : bool :=
  Z.land addr (not64 MASK_AARCH64) =? 0.

Definition canonicalize_address_aarch64 (addr : Z) : Z :=
  Z.land addr MASK_AARCH64.

(** What the [implement_address!] macro receives. *)
Class AddressOps := {
  is_canonical : Z -> bool;
  canonicalize : Z -> Z;
}.

(** What [Page], [Frame] and the ranges rely on. *)
Class AddressLaws (ops : AddressOps) := {
  canonicalize_in : forall a, in_u64 a -> in_u64 (canonicalize a);
  canonicalize_canonical : forall a, in_u64 a -> is_canonical (canonicalize a) = true;
  canonicalize_id : forall a, in_u64 a -> is_canonical a = true -> canonicalize a = a;
  canonical_low : forall a, 0 <= a < 2 ^ 47 -> is_canonical a = true;
}.

Definition virtual_ops : AddressOps :=
  {| is_canonical := is_canonical_virtual_address;
     canonicalize := canonicalize_virtual_address |}.

Definition physical_ops : AddressOps :=
  {| is_canonical := is_canonical_physical_address;
     canonicalize := canonicalize_physical_address |}.

Definition aarch64_ops : AddressOps :=
  {| is_canonical := is_canonical_address_aarch64;
     canonicalize := canonicalize_address_aarch64 |}.

(** ** Addresses, pages and frames *)

Section Chunk.
Context {ops : AddressOps}.

(** [VirtualAddress::new] / [PhysicalAddress::new]. *)
Definition addr_new (a : Z) : option Z := if is_canonical a then Some a else None.

Definition addr_new_canonical (a : Z) : Z := canonicalize a.

Definition addr_page_offset (a : Z) : Z := Z.land a (SIZE_IN_BYTES Page4K - 1).

Definition addr_add (a rhs : Z) : Z := addr_new_canonical (sat_add a rhs).

Definition addr_sub (a rhs : Z) : Z := addr_new_canonical (sat_sub a rhs).

Definition containing_address (a : Z) : Z := a / SIZE_IN_BYTES Page4K.

(** [usize::next_multiple_of], which divides by its argument. *)
Definition align_up (n alignment_4k_pages : Z) : outcome Z :=
  if alignment_4k_pages =? 0 then Panic
  else let r := n mod alignment_4k_pages in
       Done (if r =? 0 then n else wrap64 (n + (alignment_4k_pages - r))).

Definition containing_address_2mb (a : Z) : Z :=
  (a / SIZE_IN_BYTES Page2M) * NUM_4K_PAGES Page2M.

Definition containing_address_1gb (a : Z) : Z :=
  (a / SIZE_IN_BYTES Page1G) * NUM_4K_PAGES Page1G.

Definition chunk_MIN : Z := 0.

Definition chunk_MAX (P : PageSize) : Z :=
  (MAX_VIRTUAL_ADDRESS / SIZE_IN_BYTES P) * NUM_4K_PAGES P.

Definition start_address (n : Z) : Z :=
  addr_new_canonical (wrap64 (n * SIZE_IN_BYTES Page4K)).

Definition chunk_add (P : PageSize) (n rhs : Z) : Z :=
  Z.min MAX_PAGE_NUMBER (sat_add n (sat_mul rhs (NUM_4K_PAGES P))).

Definition chunk_sub (P : PageSize) (n rhs : Z) : Z :=
  sat_sub n (sat_mul rhs (NUM_4K_PAGES P)).

Definition steps_between (P : PageSize) (s e : Z) : option Z :=
  if s <=? e then Some ((e - s) / NUM_4K_PAGES P) else None.

Definition forward_checked (P : PageSize) (s count : Z) : option Z :=
  let n := s + wrap64 (count * NUM_4K_PAGES P) in
  if n <=? U64_MAX then Some n else None.

Definition backward_checked (P : PageSize) (s count : Z) : option Z :=
  let n := s - wrap64 (count * NUM_4K_PAGES P) in
  if 0 <=? n then Some n else None.

(** [TryFrom<Page<Page4K>>] for [Page<P>], [P] a huge page size. *)
Definition chunk_try_from_4k (P : PageSize) (n : Z) : result Z string :=
  if n mod NUM_4K_PAGES P =? 0 then Ok n
  else Err (match P with
            | Page1G => "Could not convert 4KiB to 1GiB page."
            | _ => "Could not convert 4KiB to 2MiB page."
            end).

Definition p4_index (n : Z) : Z := Z.land (Z.shiftr n 27) 0x1FF.
Definition p3_index (n : Z) : Z := Z.land (Z.shiftr n 18) 0x1FF.
Definition p2_index (n : Z) : Z := Z.land (Z.shiftr n 9) 0x1FF.
Definition p1_index (n : Z) : Z := Z.land n 0x1FF.

(** ** Ranges *)

(** [RangeInclusive<Idx>] and the [PageRange]/[FrameRange] wrappers. *)
Record ChunkRange := mkRange { r_start : Z; r_end : Z }.

Definition range_empty : ChunkRange := mkRange 1 0.

Definition is_empty (r : ChunkRange) : bool := negb (r_start r <=? r_end r).

Definition contains (r : ChunkRange) (x : Z) : bool :=
  (r_start r <=? x) && (x <=? r_end r).

Definition from_addr (starting_addr size_in_bytes : Z) : ChunkRange :=
  if size_in_bytes =? 0 then range_empty
  else mkRange (containing_address starting_addr)
         (containing_address (addr_new_canonical (wrap64 (starting_addr + (size_in_bytes - 1))))).

Definition range_start_address (r : ChunkRange) : Z := start_address (r_start r).

Definition size_in_chunks (P : PageSize) (r : ChunkRange) : Z :=
  sat_sub (wrap64 (r_end r + 1 * NUM_4K_PAGES P)) (r_start r) / NUM_4K_PAGES P.

Definition size_in_bytes (P : PageSize) (r : ChunkRange) : Z :=
  wrap64 (size_in_chunks P r * SIZE_IN_BYTES P).

Definition contains_address (r : ChunkRange) (addr : Z) : bool :=
  let c := containing_address addr in
  (r_start r <=? c) && (c <=? r_end r).

Definition offset_of_address (r : ChunkRange) (addr : Z) : option Z :=
  if contains_address r addr then Some (wrap64 (addr - range_start_address r)) else None.

Definition address_at_offset (P : PageSize) (r : ChunkRange) (offset : Z) : option Z :=
  if offset <? size_in_bytes P r
  then Some (addr_new_canonical (wrap64 (range_start_address r + offset)))
  else None.

Definition to_extended (r : ChunkRange) (to_include : Z) : ChunkRange :=
  if is_empty r then mkRange to_include to_include
  else mkRange (Z.min (r_start r) to_include) (Z.max (r_end r) to_include).

Definition contains_range (r other : ChunkRange) : bool :=
  negb (is_empty other) && (r_start r <=? r_start other) && (r_end other <=? r_end r).

Definition overlap (r other : ChunkRange) : option ChunkRange :=
  let starts := Z.max (r_start r) (r_start other) in
  let ends := Z.min (r_end r) (r_end other) in
  if starts <=? ends then Some (mkRange starts ends) else None.

Definition into_4k (P : PageSize) (r : ChunkRange) : ChunkRange :=
  mkRange (r_start r) (wrap64 (r_end r + 1 * NUM_4K_PAGES P - 1)).

Definition range_try_from_4k (P : PageSize) (r : ChunkRange) : result ChunkRange string :=
  match chunk_try_from_4k P (chunk_add Page4K (r_end r) 1) with
  | Ok aligned_upper_bound =>
      match chunk_try_from_4k P (r_start r) with
      | Ok s => Ok (mkRange s (chunk_sub P aligned_upper_bound 1))
      | Err e => Err e
      end
  | Err _ =>
      Err (match P with
           | Page1G => "Could not convert 4KiB page range into 1GiB page range."
           | _ => "Could not convert 4KiB page range into 2MiB page range."
           end)
  end.

(** ** Iteration *)

Record RangeIter := mkIter { it_current : Z; it_end : Z }.

Definition range_iter (r : ChunkRange) : RangeIter := mkIter (r_start r) (r_end r).

Definition iter_next (P : PageSize) (it : RangeIter) : outcome (option Z * RangeIter) :=
  if it_end it <? it_current it then Done (None, it)
  else let* n := expect (forward_checked P (it_current it) 1) in
       Done (Some (it_current it), mkIter n (it_end it)).

Definition iter_next_back (P : PageSize) (it : RangeIter) : outcome (option Z * RangeIter) :=
  if it_end it <? it_current it then Done (None, it)
  else let* n := expect (backward_checked P (it_end it) 1) in
       Done (Some (it_end it), mkIter (it_current it) n).

Definition iter_len (P : PageSize) (it : RangeIter) : Z :=
  match steps_between P (it_current it) (it_end it) with Some x => wrap64 (x + 1) | None => 0 end.

(** A [for] loop over the range: the chunks [next] yields until [None]. *)
Fixpoint iter_collect (fuel : nat) (P : PageSize) (it : RangeIter) : outcome (list Z) :=
  match fuel with
  | O => Panic
  | S fuel' =>
      let* (o, it') := iter_next P it in
      match o with
      | None => Done []
      | Some x => let* xs := iter_collect fuel' P it' in Done (x :: xs)
      end
  end.

End Chunk.

#[export] Instance ChunkRange_eq_dec : EqDecision ChunkRange.
Proof. solve_decision. Defined.

(** A chunk number that [Page]/[Frame] arithmetic can produce. *)
Definition valid_chunk (n : Z) : Prop := 0 <= n <= MAX_PAGE_NUMBER.

(** A nonempty range of valid chunks. *)
Definition wf_range (r : ChunkRange) : Prop :=
  0 <= r_start r <= r_end r /\ r_end r <= MAX_PAGE_NUMBER.

#[export] Instance wf_range_dec (r : ChunkRange) : Decision (wf_range r).
Proof. unfold wf_range. solve_decision. Defined.

(** [x] is one of the 4K chunks of [r]. *)
Definition in_range (x : Z) (r : ChunkRange) : Prop := r_start r <= x <= r_end r.

(** ** Constants *)

Lemma PAGE_SIZE_val : PAGE_SIZE = 4096. Proof. reflexivity. Qed.
Lemma SIZE_4K_val : SIZE_IN_BYTES Page4K = 4096. Proof. reflexivity. Qed.
Lemma MAX_PAGE_NUMBER_val : MAX_PAGE_NUMBER = 4503599627370495. Proof. reflexivity. Qed.

Ltac mem_consts :=
  rewrite ?PAGE_SIZE_val, ?SIZE_4K_val, ?MAX_PAGE_NUMBER_val in *;
  unfold in_u64, sat_sub, sat_add, sat_mul, U64_MAX in *.

Lemma NUM_4K_PAGES_pos (P : PageSize) : 0 < NUM_4K_PAGES P <= 262144.
Proof. destruct P; vm_compute; split; congruence. Qed.

Lemma SIZE_IN_BYTES_NUM (P : PageSize) : SIZE_IN_BYTES P = NUM_4K_PAGES P * 4096.
Proof. destruct P; reflexivity. Qed.

(** ** Canonical addresses *)

Lemma land_high_mask (a n : Z) :
  in_u64 a -> 0 <= n <= 64 ->
  Z.land a (Z.ldiff (Z.ones 64) (Z.ones n)) = (a / 2 ^ n) * 2 ^ n.
Proof.
  intros Ha Hn.
  rewrite <- Z.shiftr_div_pow2, <- Z.shiftl_mul_pow2, <- Z.ldiff_ones_r by lia.
  rewrite Z.ldiff_land, Z.land_assoc, Z.land_ones by lia.
  rewrite Z.mod_small by (unfold in_u64, U64_MAX in *; lia).
  symmetry. apply Z.ldiff_land.
Qed.

Lemma canonicalize_virtual_eq (a : Z) :
  in_u64 a ->
  canonicalize_virtual_address a =
    if a mod 2 ^ 48 <? 2 ^ 47 then a mod 2 ^ 48 else 2 ^ 64 - 2 ^ 48 + a mod 2 ^ 48.
Proof.
  intros Ha. unfold canonicalize_virtual_address.
  assert (wrap64 (Z.shiftl a 16) = (a mod 2 ^ 48) * 2 ^ 16) as ->.
  { unfold wrap64. rewrite Z.shiftl_mul_pow2 by lia.
    change 18446744073709551616 with (2 ^ 48 * 2 ^ 16).
    rewrite Z.mul_mod_distr_r by lia. done. }
  pose proof (Z.mod_pos_bound a (2 ^ 48)). unfold as_isize.
  destruct (Z.ltb_spec (a mod 2 ^ 48) (2 ^ 47)); case_cmp; try lia;
    rewrite Z.shiftr_div_pow2 by lia.
  - rewrite Z.div_mul by lia. apply wrap64_id. unfold in_u64, U64_MAX. lia.
  - replace (a mod 2 ^ 48 * 2 ^ 16 - 2 ^ 64) with ((a mod 2 ^ 48 - 2 ^ 48) * 2 ^ 16) by lia.
    rewrite Z.div_mul by lia. unfold wrap64.
    symmetry. apply (Z.mod_unique _ _ (-1)); lia.
Qed.

Lemma is_canonical_virtual_iff (a : Z) :
  in_u64 a ->
  is_canonical_virtual_address a = true <-> a < 2 ^ 47 \/ 2 ^ 64 - 2 ^ 47 <= a.
Proof.
  intros Ha. unfold is_canonical_virtual_address.
  change (not64 VIRT_MASK_X86) with (Z.ldiff (Z.ones 64) (Z.ones 47)).
  rewrite land_high_mask by (done || lia).
  change (Z.ldiff (Z.ones 64) (Z.ones 47)) with (131071 * 2 ^ 47).
  unfold in_u64, U64_MAX in Ha.
  pose proof (Z.div_mod a (2 ^ 47)). pose proof (Z.mod_pos_bound a (2 ^ 47)).
  rewrite orb_true_iff, !Z.eqb_eq. lia.
Qed.

#[export] Instance virtual_laws : AddressLaws virtual_ops.
Proof.
  split; unfold virtual_ops, is_canonical, canonicalize; intros a Ha.
  - apply wrap64_in.
  - assert (in_u64 (canonicalize_virtual_address a)) as H by apply wrap64_in.
    apply is_canonical_virtual_iff; [done|].
    rewrite canonicalize_virtual_eq in * by done.
    pose proof (Z.mod_pos_bound a (2 ^ 48)). case_cmp; lia.
  - intros Hc. apply is_canonical_virtual_iff in Hc; [|done].
    rewrite canonicalize_virtual_eq by done. unfold in_u64, U64_MAX in Ha.
    destruct Hc.
    + rewrite Z.mod_small by lia. case_cmp; lia.
    + replace (a mod 2 ^ 48) with (a - (2 ^ 64 - 2 ^ 48))
        by (apply (Z.mod_unique _ _ 65535); lia).
      case_cmp; lia.
  - apply is_canonical_virtual_iff; unfold in_u64, U64_MAX; lia.
Qed.

Section low_mask.
Context (n : Z) (Hn : 47 <= n <= 64).

Lemma low_mask_laws (ops : AddressOps) :
  (forall a, is_canonical a = (Z.land a (Z.ldiff (Z.ones 64) (Z.ones n)) =? 0)) ->
  (forall a, canonicalize a = Z.land a (Z.ones n)) ->
  AddressLaws ops.
Proof.
  intros Hi Hc.
  assert (0 < 2 ^ 47 <= 2 ^ n) as Hp by (split; [lia|apply Z.pow_le_mono_r; lia]).
  assert (2 ^ n <= 2 ^ 64) by (apply Z.pow_le_mono_r; lia).
  assert (forall a, in_u64 a -> (is_canonical a = true <-> a < 2 ^ n)) as Hiff.
  { intros a Ha. rewrite Hi, Z.eqb_eq, land_high_mask by (done || lia).
    unfold in_u64, U64_MAX in Ha.
    pose proof (Z.div_mod a (2 ^ n)). pose proof (Z.mod_pos_bound a (2 ^ n)).
    split; intros; [nia|]. rewrite Z.div_small; lia. }
  split; intros a Ha; rewrite ?Hc, ?Z.land_ones by lia.
  - unfold in_u64, U64_MAX. pose proof (Z.mod_pos_bound a (2 ^ n)). lia.
  - pose proof (Z.mod_pos_bound a (2 ^ n)).
    apply Hiff; unfold in_u64, U64_MAX; lia.
  - rewrite Hiff by done. intros. apply Z.mod_small. unfold in_u64 in Ha. lia.
  - apply Hiff; unfold in_u64, U64_MAX; lia.
Qed.

End low_mask.

#[export] Instance physical_laws : AddressLaws physical_ops.
Proof. apply (low_mask_laws 52); [lia| |]; reflexivity. Qed.

#[export] Instance aarch64_laws : AddressLaws aarch64_ops.
Proof. apply (low_mask_laws 48); [lia| |]; reflexivity. Qed.

(** ** Addresses *)

Section Address.
Context {ops : AddressOps} {laws : AddressLaws ops}.

Lemma sat_add_in (a b : Z) : in_u64 a -> 0 <= b -> in_u64 (sat_add a b).
Proof. unfold in_u64, sat_add, U64_MAX. lia. Qed.

Lemma sat_sub_in (a b : Z) : in_u64 a -> 0 <= b -> in_u64 (sat_sub a b).
Proof. unfold in_u64, sat_sub, U64_MAX. lia. Qed.

(** Every way of building an address yields a canonical one.  [new_canonical]
    returns a canonical address that it leaves unchanged when applied again and that
    [new] accepts, [new] only accepts addresses on which [new_canonical] is the
    identity, and the saturating [+] and [-] stay canonical.  This holds for the
    virtual and the physical addresses of x86_64 and of aarch64. *)
Theorem addresses_stay_canonical (a rhs : Z) :
  in_u64 a -> 0 <= rhs ->
  addr_new (addr_new_canonical a) = Some (addr_new_canonical a) /\
  addr_new_canonical (addr_new_canonical a) = addr_new_canonical a /\
  (forall b, addr_new a = Some b -> b = a /\ addr_new_canonical a = a) /\
  is_canonical (addr_add a rhs) = true /\
  is_canonical (addr_sub a rhs) = true.
Proof.
  intros Ha Hr. unfold addr_new, addr_add, addr_sub, addr_new_canonical.
  assert (is_canonical (canonicalize a) = true) as Hc by (apply canonicalize_canonical; done).
  rewrite Hc. repeat split.
  - apply canonicalize_id; [by apply canonicalize_in|done].
  - case_match; congruence.
  - apply canonicalize_id; [done|]. case_match; congruence.
  - apply canonicalize_canonical, sat_add_in; done.
  - apply canonicalize_canonical, sat_sub_in; done.
Qed.

End Address.

Lemma addresses_stay_canonical_witness :
  addr_new (ops := virtual_ops) (addr_new_canonical (ops := virtual_ops) 0x0000800000000123)
  = Some 0xFFFF800000000123.
Proof.
  destruct (addresses_stay_canonical (ops := virtual_ops) 0x0000800000000123 1) as [H _].
  - vm_compute. split; congruence.
  - lia.
  - exact H.
Defined.

(** ** Page-table indices *)

Lemma land_1FF (x : Z) : Z.land x 0x1FF = x mod 512.
Proof. change 0x1FF with (Z.ones 9). apply Z.land_ones. lia. Qed.

Lemma mod_split (n a b : Z) : 0 < a -> 0 < b -> n mod (a * b) = a * ((n / a) mod b) + n mod a.
Proof. intros. rewrite Z.rem_mul_r by lia. lia. Qed.

Lemma page_index_decompose (n : Z) :
  n mod 2 ^ 36 = p4_index n * 2 ^ 27 + p3_index n * 2 ^ 18 + p2_index n * 2 ^ 9 + p1_index n.
Proof.
  unfold p4_index, p3_index, p2_index, p1_index.
  rewrite !land_1FF, !Z.shiftr_div_pow2 by lia.
  change (2 ^ 36) with (512 * (512 * (512 * 512))).
  rewrite !mod_split by lia.
  rewrite !Z.div_div by lia.
  change (2 ^ 27) with (512 * 512 * 512). change (2 ^ 18) with (512 * 512).
  change (2 ^ 9) with 512. rewrite !Z.mul_assoc. lia.
Qed.

Lemma page_index_bounds (n : Z) :
  0 <= p4_index n < ENTRIES_PER_PAGE_TABLE /\ 0 <= p3_index n < ENTRIES_PER_PAGE_TABLE /\
  0 <= p2_index n < ENTRIES_PER_PAGE_TABLE /\ 0 <= p1_index n < ENTRIES_PER_PAGE_TABLE.
Proof.
  unfold p4_index, p3_index, p2_index, p1_index. rewrite !land_1FF.
  change ENTRIES_PER_PAGE_TABLE with 512.
  repeat split; apply Z.mod_pos_bound; lia.
Qed.

Lemma virtual_canonical_mod48 (a b : Z) :
  in_u64 a -> in_u64 b ->
  is_canonical_virtual_address a = true -> is_canonical_virtual_address b = true ->
  a mod 2 ^ 48 = b mod 2 ^ 48 -> a = b.
Proof.
  intros Ha Hb Ca Cb E.
  pose proof (canonicalize_id (ops := virtual_ops) a Ha Ca) as Ia.
  pose proof (canonicalize_id (ops := virtual_ops) b Hb Cb) as Ib.
  simpl in Ia, Ib. rewrite canonicalize_virtual_eq in Ia, Ib by done.
  rewrite <- Ia, <- Ib, E. done.
Qed.

Lemma page_offset_mod (a : Z) : addr_page_offset a = a mod 4096.
Proof.
  unfold addr_page_offset. rewrite SIZE_4K_val. change (4096 - 1) with (Z.ones 12).
  apply Z.land_ones. lia.
Qed.

(** The page-table walk is a faithful decomposition of a virtual address.  The
    four indices of a page fit their 512-entry tables, and two canonical virtual
    addresses with the same P4, P3, P2 and P1 indices and the same page offset are
    equal, so no two addresses share a page-table entry and an offset. *)
Theorem page_table_indices_injective (a b : Z) :
  in_u64 a -> in_u64 b ->
  is_canonical_virtual_address a = true -> is_canonical_virtual_address b = true ->
  let pa := containing_address a in
  let pb := containing_address b in
  (0 <= p4_index pa < ENTRIES_PER_PAGE_TABLE /\ 0 <= p3_index pa < ENTRIES_PER_PAGE_TABLE /\
   0 <= p2_index pa < ENTRIES_PER_PAGE_TABLE /\ 0 <= p1_index pa < ENTRIES_PER_PAGE_TABLE) /\
  (p4_index pa = p4_index pb -> p3_index pa = p3_index pb ->
   p2_index pa = p2_index pb -> p1_index pa = p1_index pb ->
   addr_page_offset a = addr_page_offset b -> a = b).
Proof.
  intros Ha Hb Ca Cb pa pb. split; [apply page_index_bounds|].
  intros E4 E3 E2 E1 Eo. apply virtual_canonical_mod48; try done.
  rewrite !page_offset_mod in Eo.
  assert (pa mod 2 ^ 36 = pb mod 2 ^ 36) as E.
  { rewrite !page_index_decompose. congruence. }
  unfold pa, pb, containing_address in E. rewrite SIZE_4K_val in E.
  change (2 ^ 48) with (4096 * 2 ^ 36). rewrite !mod_split by lia. lia.
Qed.

Lemma page_table_indices_injective_witness :
  0 <= p4_index (containing_address 0xFFFFFFFF80000000) < ENTRIES_PER_PAGE_TABLE /\
  p4_index (containing_address 0xFFFFFFFF80000000) = 511.
Proof.
  split; [|reflexivity].
  refine (proj1 (proj1 (page_table_indices_injective
    0xFFFFFFFF80000000 0xFFFFFFFF80000000 _ _ eq_refl eq_refl)));
    vm_compute; split; congruence.
Defined.

(** ** Ranges *)

Section Ranges.
Context {ops : AddressOps} {laws : AddressLaws ops}.

Lemma is_empty_iff (r : ChunkRange) : is_empty r = true <-> r_end r < r_start r.
Proof. unfold is_empty. rewrite negb_true_iff, Z.leb_gt. done. Qed.

Lemma contains_iff (r : ChunkRange) (x : Z) : contains r x = true <-> in_range x r.
Proof. unfold contains, in_range. rewrite andb_true_iff, !Z.leb_le. done. Qed.

Lemma contains_range_iff (r o : ChunkRange) :
  contains_range r o = true <->
  r_start o <= r_end o /\ r_start r <= r_start o /\ r_end o <= r_end r.
Proof.
  unfold contains_range, is_empty.
  rewrite !andb_true_iff, negb_true_iff, negb_false_iff, !Z.leb_le. lia.
Qed.

Lemma overlap_Some (r o x : ChunkRange) :
  overlap r o = Some x ->
  r_start x = Z.max (r_start r) (r_start o) /\ r_end x = Z.min (r_end r) (r_end o) /\
  r_start x <= r_end x.
Proof. unfold overlap. case_cmp; intros; simplify_eq/=; lia. Qed.

Lemma overlap_None (r o : ChunkRange) :
  overlap r o = None -> forall f, in_range f r -> in_range f o -> False.
Proof. unfold overlap, in_range. case_cmp; intros; simplify_eq/=; lia. Qed.

(** [overlap] computes the intersection of two ranges and [contains_range] decides
    inclusion: [overlap] returns [None] exactly when no chunk is in both ranges, and
    otherwise the range of all common chunks; [contains_range] holds exactly when the
    other range is nonempty and all its chunks are in this one. *)
Theorem overlap_is_intersection (r o : ChunkRange) :
  match overlap r o with
  | Some x => (exists f, in_range f x) /\ (forall f, in_range f x <-> in_range f r /\ in_range f o)
  | None => forall f, ~ (in_range f r /\ in_range f o)
  end /\
  (contains_range r o = true <->
   (exists f, in_range f o) /\ (forall f, in_range f o -> in_range f r)).
Proof.
  split.
  - destruct (overlap r o) as [x|] eqn:E.
    + apply overlap_Some in E. unfold in_range. split; [exists (r_start x); lia|].
      intros f. lia.
    + intros f [H1 H2]. eapply overlap_None; eauto.
  - rewrite contains_range_iff. unfold in_range. split.
    + intros. split; [exists (r_start o); lia|]. intros; lia.
    + intros [[f Hf] H]. pose proof (H (r_start o)). pose proof (H (r_end o)). lia.
Qed.

Lemma size_4k (r : ChunkRange) :
  0 <= r_start r -> 0 <= r_end r <= MAX_PAGE_NUMBER ->
  size_in_chunks Page4K r = Z.max 0 (r_end r + 1 - r_start r).
Proof.
  intros. unfold size_in_chunks. change (1 * NUM_4K_PAGES Page4K) with 1.
  change (NUM_4K_PAGES Page4K) with 1. rewrite Z.div_1_r.
  rewrite wrap64_id by (mem_consts; lia). mem_consts. lia.
Qed.

Lemma size_in_chunks_eq (P : PageSize) (r : ChunkRange) :
  wf_range r -> size_in_chunks P r = (r_end r - r_start r) / NUM_4K_PAGES P + 1.
Proof.
  intros [? ?]. pose proof (NUM_4K_PAGES_pos P). unfold size_in_chunks.
  rewrite Z.mul_1_l, wrap64_id by (mem_consts; lia).
  replace (sat_sub (r_end r + NUM_4K_PAGES P) (r_start r))
    with (r_end r - r_start r + 1 * NUM_4K_PAGES P) by (mem_consts; lia).
  rewrite Z.div_add by lia. done.
Qed.

(** [from_virt_addr]/[from_phys_addr] returns exactly the 4K chunks that the byte
    range touches: for a nonempty byte range that stays within one canonical half, a
    chunk is in the result iff one of the bytes lies in it; an empty byte range gives
    an empty range. *)
Theorem from_addr_covers_bytes (addr size : Z) :
  in_u64 addr -> 0 <= size -> addr + size <= 2 ^ 64 ->
  is_canonical (addr + (size - 1)) = true \/ size = 0 ->
  (forall f, in_range f (from_addr addr size) <->
     exists b, addr <= b < addr + size /\ containing_address b = f) /\
  (size = 0 <-> is_empty (from_addr addr size) = true).
Proof.
  intros Ha Hs Hb Hc. unfold from_addr, containing_address, in_range. mem_consts.
  destruct (Z.eqb_spec size 0) as [->|Hz].
  { split; [|by split]. intros f. simpl. split; [lia|]. intros (b & ? & _). lia. }
  destruct Hc as [Hc|]; [|lia].
  unfold addr_new_canonical. rewrite wrap64_id by (mem_consts; lia).
  rewrite canonicalize_id by (done || mem_consts; lia). cbn [r_start r_end].
  assert (addr / 4096 <= (addr + (size - 1)) / 4096) by (apply Z.div_le_mono; lia).
  split.
  - intros f. split.
    + intros Hf. exists (Z.max addr (f * 4096)).
      pose proof (Z.div_mod (addr + (size - 1)) 4096). pose proof (Z.mod_pos_bound (addr + (size - 1)) 4096).
      split; [lia|].
      destruct (Z.max_spec addr (f * 4096)) as [[? ->]|[? ->]].
      * apply Z.div_mul. lia.
      * assert (f <= addr / 4096) by (apply Z.div_le_lower_bound; lia). lia.
    + intros (b & Hb' & <-). split; apply Z.div_le_mono; lia.
  - rewrite is_empty_iff. simpl. lia.
Qed.

Lemma start_address_low (n : Z) :
  0 <= n * 4096 < 2 ^ 47 -> start_address n = n * 4096.
Proof.
  intros. unfold start_address, addr_new_canonical. rewrite SIZE_4K_val.
  rewrite wrap64_id by (mem_consts; lia).
  apply canonicalize_id; [mem_consts; lia|]. apply canonical_low. lia.
Qed.

(** [offset_of_address] and [address_at_offset] are inverse to each other on a
    range of 4K chunks in the lower canonical half: the offset of an address of the
    range leads back to the address, every offset below the size of the range has an
    address in the range whose offset it is, and other offsets and addresses give
    [None]. *)
Theorem offset_address_roundtrip (r : ChunkRange) :
  wf_range r -> (r_end r + 1) * 4096 <= 2 ^ 47 ->
  (forall a, in_u64 a ->
     match offset_of_address r a with
     | Some off => 0 <= off < size_in_bytes Page4K r /\ address_at_offset Page4K r off = Some a
     | None => ~ in_range (containing_address a) r
     end) /\
  (forall off, 0 <= off ->
     match address_at_offset Page4K r off with
     | Some a => in_range (containing_address a) r /\ offset_of_address r a = Some off
     | None => size_in_bytes Page4K r <= off
     end).
Proof.
  intros [Hr Hm] Hlow.
  assert (size_in_bytes Page4K r = (r_end r + 1 - r_start r) * 4096) as Hsz.
  { unfold size_in_bytes. rewrite size_4k by lia. rewrite SIZE_4K_val.
    rewrite wrap64_id by (mem_consts; lia). lia. }
  assert (range_start_address r = r_start r * 4096) as Hst.
  { apply start_address_low. lia. }
  assert (forall a, contains_address r a = true <-> r_start r * 4096 <= a < (r_end r + 1) * 4096) as Hc.
  { intros a. unfold contains_address, containing_address. rewrite SIZE_4K_val.
    rewrite andb_true_iff, !Z.leb_le. pose proof (Z.div_mod a 4096). pose proof (Z.mod_pos_bound a 4096).
    lia. }
  unfold offset_of_address, address_at_offset, addr_new_canonical. rewrite Hsz, Hst. split.
  - intros a Ha. destruct (contains_address r a) eqn:E.
    + apply Hc in E. rewrite wrap64_id by (mem_consts; lia). split; [lia|].
      destruct (Z.ltb_spec (a - r_start r * 4096) ((r_end r + 1 - r_start r) * 4096)); [|lia].
      rewrite wrap64_id by (mem_consts; lia).
      rewrite canonicalize_id; [f_equal; lia|mem_consts; lia|apply canonical_low; lia].
    + unfold contains_address, in_range in *. rewrite andb_false_iff, !Z.leb_gt in E. lia.
  - intros off Ho. destruct (Z.ltb_spec off ((r_end r + 1 - r_start r) * 4096)); [|lia].
    rewrite wrap64_id by (mem_consts; lia).
    rewrite canonicalize_id by (mem_consts; lia) || (apply canonical_low; lia).
    assert (contains_address r (r_start r * 4096 + off) = true) as E by (apply Hc; lia).
    rewrite E. split.
    + unfold contains_address, in_range in *. bool_to_prop. lia.
    + f_equal. rewrite wrap64_id by (mem_consts; lia). lia.
Qed.

(** Huge-page conversion loses nothing: a range of 4K chunks is accepted by
    [TryFrom] for 2M or 1G pages exactly when it starts and ends on huge-page
    boundaries, and then [into_4k_pages] of the result is the original range, with
    the same number of 4K chunks. *)
Theorem huge_range_roundtrip (P : PageSize) (r : ChunkRange) :
  wf_range r -> r_end r < MAX_PAGE_NUMBER ->
  match range_try_from_4k P r with
  | Ok h => r_start r mod NUM_4K_PAGES P = 0 /\ (r_end r + 1) mod NUM_4K_PAGES P = 0 /\
            into_4k P h = r /\ size_in_chunks P h * NUM_4K_PAGES P = size_in_chunks Page4K r
  | Err _ => r_start r mod NUM_4K_PAGES P <> 0 \/ (r_end r + 1) mod NUM_4K_PAGES P <> 0
  end.
Proof.
  intros [Hr Hm] Hlt. pose proof (NUM_4K_PAGES_pos P) as HP.
  unfold range_try_from_4k, chunk_try_from_4k.
  replace (chunk_add Page4K (r_end r) 1) with (r_end r + 1)
    by (unfold chunk_add; change (NUM_4K_PAGES Page4K) with 1; mem_consts; lia).
  destruct (Z.eqb_spec ((r_end r + 1) mod NUM_4K_PAGES P) 0) as [He|He]; [|by right].
  destruct (Z.eqb_spec (r_start r mod NUM_4K_PAGES P) 0) as [Hs|Hs]; [|by left].
  apply Z.mod_divide in He as [q Hq]; [|lia]. apply Z.mod_divide in Hs as [p Hp]; [|lia].
  assert (p < q) by nia.
  replace (chunk_sub P (r_end r + 1) 1) with (r_end r + 1 - NUM_4K_PAGES P)
    by (unfold chunk_sub; mem_consts; nia).
  split; [rewrite Hp; apply Z.mod_mul; lia|].
  split; [rewrite Hq; apply Z.mod_mul; lia|].
  split.
  - destruct r as [s e]. unfold into_4k. simpl in *. f_equal.
    rewrite wrap64_id by (mem_consts; lia). lia.
  - rewrite size_4k by (simpl; lia). unfold size_in_chunks; simpl.
    rewrite Z.mul_1_l, wrap64_id by (mem_consts; lia).
    replace (sat_sub (r_end r + 1 - NUM_4K_PAGES P + NUM_4K_PAGES P) (r_start r))
      with ((q - p) * NUM_4K_PAGES P) by (mem_consts; lia).
    rewrite Z.div_mul by lia. lia.
Qed.

(** ** Iteration *)

Lemma iter_next_step (P : PageSize) (c e : Z) :
  0 <= c <= e -> e <= MAX_PAGE_NUMBER ->
  iter_next P (mkIter c e) = Done (Some c, mkIter (c + NUM_4K_PAGES P) e).
Proof.
  intros. pose proof (NUM_4K_PAGES_pos P). unfold iter_next, forward_checked. simpl.
  rewrite (Z.mul_1_l (NUM_4K_PAGES P)), wrap64_id by (mem_consts; lia).
  rewrite (proj2 (Z.ltb_ge e c)), (proj2 (Z.leb_le _ _)) by (mem_consts; lia). done.
Qed.

Lemma iter_collect_spec (P : PageSize) (k : nat) (c e : Z) (fuel : nat) :
  0 <= c -> e <= MAX_PAGE_NUMBER -> (k < fuel)%nat ->
  (c <= e -> Z.of_nat k = (e - c) / NUM_4K_PAGES P + 1) -> (e < c -> k = 0%nat) ->
  iter_collect fuel P (mkIter c e) =
    Done ((fun i => c + Z.of_nat i * NUM_4K_PAGES P) <$> seq 0 k).
Proof.
  pose proof (NUM_4K_PAGES_pos P) as HP.
  revert c fuel. induction k as [|k IH]; intros c fuel Hc He Hf Hk Hn.
  - destruct fuel as [|fuel]; [lia|]. simpl. unfold iter_next. simpl.
    assert (e < c) by (pose proof (Z.div_pos (e - c) (NUM_4K_PAGES P)); lia).
    rewrite (proj2 (Z.ltb_lt e c)) by done. done.
  - destruct fuel as [|fuel]; [lia|]. cbn [iter_collect].
    assert (c <= e) by (destruct (decide (e < c)); [specialize (Hn ltac:(done)); lia|lia]).
    rewrite iter_next_step by lia. cbn [outcome_bind].
    specialize (Hk ltac:(done)).
    pose proof (Z.div_mod (e - c) (NUM_4K_PAGES P)) as Hd.
    pose proof (Z.mod_pos_bound (e - c) (NUM_4K_PAGES P)) as Hmb.
    rewrite IH; [| lia | lia | lia | |].
    + cbn [outcome_bind seq fmap list_fmap]. f_equal. f_equal; [lia|].
      rewrite <- fmap_S_seq, <- list_fmap_compose.
      apply list_fmap_ext. intros i x Hx. cbn [compose]. lia.
    + intros. replace (e - (c + NUM_4K_PAGES P)) with (e - c + (-1) * NUM_4K_PAGES P) by lia.
      rewrite Z.div_add by lia. lia.
    + intros. assert ((e - c) / NUM_4K_PAGES P = 0) by (apply Z.div_small; lia). lia.
Qed.

(** Iterating over a range terminates without a panic and yields its chunks in
    ascending order: with [NUM_4K_PAGES] as the stride, starting from [start], exactly
    [size_in_pages] of them, which is also what [ExactSizeIterator::len] reports. *)
Theorem range_iteration_complete (P : PageSize) (r : ChunkRange) (fuel : nat) :
  wf_range r -> (Z.to_nat (size_in_chunks P r) < fuel)%nat ->
  iter_collect fuel P (range_iter r) =
    Done ((fun i => r_start r + Z.of_nat i * NUM_4K_PAGES P) <$> seq 0 (Z.to_nat (size_in_chunks P r)))
  /\ iter_len P (range_iter r) = size_in_chunks P r.
Proof.
  intros Hwf Hf. pose proof (size_in_chunks_eq P r Hwf) as Hs. destruct Hwf as [Hr Hm].
  pose proof (NUM_4K_PAGES_pos P) as HP.
  assert (0 <= (r_end r - r_start r) / NUM_4K_PAGES P) by (apply Z.div_pos; lia).
  assert ((r_end r - r_start r) / NUM_4K_PAGES P <= r_end r - r_start r)
    by (apply Z.div_le_upper_bound; nia).
  split.
  - apply iter_collect_spec; lia.
  - unfold iter_len, range_iter, steps_between. simpl.
    rewrite (proj2 (Z.leb_le _ _)) by lia. rewrite wrap64_id by (mem_consts; lia). lia.
Qed.

End Ranges.

(** ** 4K arithmetic without page sizes *)

Ltac alloc_consts :=
  change (NUM_4K_PAGES Page4K) with 1 in *; mem_consts; rewrite ?Z.mul_1_r in *.

Lemma chunk_add_4k (n k : Z) :
  0 <= n <= MAX_PAGE_NUMBER -> 0 <= k <= U64_MAX ->
  chunk_add Page4K n k = Z.min MAX_PAGE_NUMBER (n + k).
Proof. intros. unfold chunk_add. alloc_consts. lia. Qed.

Lemma chunk_sub_4k (n : Z) : chunk_sub Page4K n 1 = Z.max 0 (n - 1).
Proof. unfold chunk_sub. alloc_consts. lia. Qed.

Lemma chunk_MAX_4k : chunk_MAX Page4K = MAX_PAGE_NUMBER.
Proof. reflexivity. Qed.

Lemma into_4k_4k (r : ChunkRange) : wf_range r -> into_4k Page4K r = r.
Proof.
  intros [? ?]. destruct r as [s e]. unfold into_4k. simpl in *. f_equal.
  change (NUM_4K_PAGES Page4K) with 1. rewrite wrap64_id by (mem_consts; lia). lia.
Qed.

Lemma containing_address_valid (p : Z) : in_u64 p -> valid_chunk (containing_address p).
Proof.
  intros Hp. unfold valid_chunk, containing_address. mem_consts.
  split; [apply Z.div_pos; lia|]. apply Z.lt_succ_r, Z.div_lt_upper_bound; lia.
Qed.

(** ** Witnesses *)

Lemma from_addr_covers_bytes_witness :
  in_range 2 (from_addr (ops := physical_ops) 0x1FFF 2) /\
  from_addr (ops := physical_ops) 0x1FFF 2 = mkRange 1 2.
Proof.
  split; [|reflexivity].
  apply (from_addr_covers_bytes (ops := physical_ops) 0x1FFF 2); try lia.
  - vm_compute. split; congruence.
  - left. reflexivity.
  - exists 0x2000. split; [lia|reflexivity].
Defined.

Lemma offset_address_roundtrip_witness :
  address_at_offset (ops := virtual_ops) Page4K (mkRange 2 3) 0x1500 = Some 0x3500.
Proof.
  assert (H : wf_range (mkRange 2 3)) by (vm_compute; repeat split; congruence).
  destruct (offset_address_roundtrip (ops := virtual_ops) (mkRange 2 3) H
              ltac:(simpl; lia)) as [Ha _].
  destruct (Ha 0x3500 ltac:(vm_compute; split; congruence)) as [_ E]. exact E.
Defined.

Lemma huge_range_roundtrip_witness :
  range_try_from_4k Page2M (mkRange 512 1535) = Ok (mkRange 512 1024) /\
  into_4k Page2M (mkRange 512 1024) = mkRange 512 1535.
Proof.
  split; [reflexivity|].
  assert (H : wf_range (mkRange 512 1535)) by (vm_compute; repeat split; congruence).
  destruct (huge_range_roundtrip Page2M (mkRange 512 1535) H ltac:(reflexivity)) as (_ & _ & E & _).
  exact E.
Defined.

Lemma range_iteration_complete_witness :
  iter_collect 4 Page2M (range_iter (mkRange 512 1535)) = Done [512; 1024].
Proof.
  assert (H : wf_range (mkRange 512 1535)) by (vm_compute; repeat split; congruence).
  destruct (range_iteration_complete Page2M (mkRange 512 1535) 4 H ltac:(vm_compute; lia)) as [E _].
  exact E.
Defined.
