(* ===== verification/RBTree.v ===== *)
(** * The red-black tree interface and [StaticArrayRBTree]

    The allocators keep their chunks in the [RBTree] of the third-party crate
    intrusive_collections 0.9, whose source is not part of the repository.  It is
    a parameter here: [RBTreeOps] lists the operations the allocators call and
    [RBTreeLaws] their documented behaviour, stated over the in-order list of the
    elements and, for a cursor, the position it points to (the length of the list
    stands for the null object; moving past either end goes through it).
    [ListTree] shows that the laws can hold: a tree that is its in-order list.

    [StaticArrayRBTree] (kernel/frame_allocator/src/static_array_rb_tree.rs, also
    a copy in kernel/page_allocator) is either an array of 32 slots, before the
    heap exists, or such a tree. *)

From S2P Require Import Prelude.

(** ** The interface *)

(** [impl Ord]: elements are ordered by a number, the start of their range. *)
Class Keyed (A : Type) := key : A -> Z.

Class RBTreeOps (A : Type) := {
  tree : Type;
  cursor : Type;
  rb_new : tree;
  rb_iter : tree -> list A;
  rb_insert : A -> tree -> tree;
  rb_lower_bound : Z -> tree -> cursor;
  rb_upper_bound : Z -> tree -> cursor;
  rb_last : tree -> cursor;
  c_get : cursor -> option A;
  c_next : cursor -> cursor;
  c_prev : cursor -> cursor;
  c_remove : cursor -> option A * cursor;
  c_insert_before : A -> cursor -> cursor;
  c_insert : A -> cursor -> cursor;
  c_replace_with : A -> cursor -> result A A * cursor;
  c_tree : cursor -> tree;
}.
Arguments tree A {_}.
Arguments cursor A {_}.

(** Sorted by key. *)
Definition sorted {A} `{Keyed A} (l : list A) : Prop :=
  forall i j x y, (i < j)%nat -> l !! i = Some x -> l !! j = Some y -> key x <= key y.

(** Position of the last element with key at most [k]; [length l] if none. *)
Fixpoint upper_pos {A} `{Keyed A} (k : Z) (l : list A) : option nat :=
  match l with
  | [] => None
  | x :: l' =>
      match upper_pos k l' with
      | Some i => Some (S i)
      | None => if key x <=? k then Some 0%nat else None
      end
  end.

Definition upper_position {A} `{Keyed A} (k : Z) (l : list A) : nat :=
  default (length l) (upper_pos k l).

(** Position of the first element with key at least [k]; [length l] if none. *)
Definition lower_position {A} `{Keyed A} (k : Z) (l : list A) : nat :=
  default (length l) (find_index (fun x => k <=? key x) l).

(** Insertion at the position given by the key, after the elements with a smaller or
    equal key. *)
Definition sorted_insertion {A} `{Keyed A} (x : A) (l l' : list A) : Prop :=
  exists l1 l2, l = l1 ++ l2 /\ l' = l1 ++ x :: l2 /\
    Forall (fun y => key y <= key x) l1 /\ Forall (fun y => key x <= key y) l2.

Class RBTreeLaws (A : Type) `{Keyed A} (ops : RBTreeOps A) := {
  c_pos : cursor A -> nat;
  rb_iter_new : rb_iter rb_new = [];
  rb_iter_insert : forall x t,
    sorted (rb_iter t) -> sorted_insertion x (rb_iter t) (rb_iter (rb_insert x t));
  rb_insert_perm : forall x t, Permutation (rb_iter (rb_insert x t)) (x :: rb_iter t);
  lower_bound_tree : forall k t, rb_iter (c_tree (rb_lower_bound k t)) = rb_iter t;
  lower_bound_pos : forall k t,
    sorted (rb_iter t) -> c_pos (rb_lower_bound k t) = lower_position k (rb_iter t);
  upper_bound_tree : forall k t, rb_iter (c_tree (rb_upper_bound k t)) = rb_iter t;
  upper_bound_pos : forall k t,
    sorted (rb_iter t) -> c_pos (rb_upper_bound k t) = upper_position k (rb_iter t);
  last_tree : forall t, rb_iter (c_tree (rb_last t)) = rb_iter t;
  last_pos : forall t, c_pos (rb_last t) = pred (length (rb_iter t));
  c_pos_le : forall c, (c_pos c <= length (rb_iter (c_tree c)))%nat;
  get_spec : forall c, c_get c = rb_iter (c_tree c) !! c_pos c;
  next_tree : forall c, rb_iter (c_tree (c_next c)) = rb_iter (c_tree c);
  next_pos : forall c,
    c_pos (c_next c) =
      if decide (c_pos c = length (rb_iter (c_tree c))) then 0%nat else S (c_pos c);
  prev_tree : forall c, rb_iter (c_tree (c_prev c)) = rb_iter (c_tree c);
  prev_pos : forall c,
    c_pos (c_prev c) =
      match c_pos c with O => length (rb_iter (c_tree c)) | S i => i end;
  remove_value : forall c, fst (c_remove c) = c_get c;
  remove_tree : forall c,
    rb_iter (c_tree (snd (c_remove c))) = delete (c_pos c) (rb_iter (c_tree c));
  remove_pos : forall c, c_pos (snd (c_remove c)) = c_pos c;
  insert_before_tree : forall x c,
    rb_iter (c_tree (c_insert_before x c)) =
      take (c_pos c) (rb_iter (c_tree c)) ++ x :: drop (c_pos c) (rb_iter (c_tree c));
  insert_tree : forall x c, c_tree (c_insert x c) = rb_insert x (c_tree c);
  replace_value : forall x c,
    fst (c_replace_with x c) = match c_get c with Some y => Ok y | None => Err x end;
  replace_tree : forall x c,
    rb_iter (c_tree (snd (c_replace_with x c))) = <[c_pos c := x]> (rb_iter (c_tree c));
  replace_pos : forall x c, c_pos (snd (c_replace_with x c)) = c_pos c;
}.

(** ** The list instance *)

Module ListTree.
Section ListTree.
Context {A : Type} `{Keyed A}.

(** Insert after the elements with a smaller or equal key. *)
Fixpoint insert_sorted (x : A) (l : list A) : list A :=
  match l with
  | [] => [x]
  | y :: l' => if key y <=? key x then y :: insert_sorted x l' else x :: y :: l'
  end.

Definition list_ops : RBTreeOps A := {|
  tree := list A;
  cursor := list A * nat;
  rb_new := [];
  rb_iter t := t;
  rb_insert := insert_sorted;
  rb_lower_bound k t := (t, lower_position k t);
  rb_upper_bound k t := (t, upper_position k t);
  rb_last t := (t, pred (length t));
  c_get c := fst c !! snd c;
  c_next c := (fst c, if decide (length (fst c) <= snd c)%nat then 0%nat else S (snd c));
  c_prev c := (fst c, match Nat.min (snd c) (length (fst c)) with
                      | O => length (fst c)
                      | S i => i
                      end);
  c_remove c := (fst c !! snd c, (delete (snd c) (fst c), snd c));
  c_insert_before x c := (take (snd c) (fst c) ++ x :: drop (snd c) (fst c), S (snd c));
  c_insert x c := (insert_sorted x (fst c), snd c);
  c_replace_with x c :=
    (match fst c !! snd c with Some y => Ok y | None => Err x end,
     (<[snd c := x]> (fst c), snd c));
  c_tree c := fst c;
|}.

Lemma insert_sorted_split (x : A) (l : list A) :
  exists l1 l2, l = l1 ++ l2 /\ insert_sorted x l = l1 ++ x :: l2 /\
    Forall (fun y => key y <= key x) l1 /\
    (forall y, head l2 = Some y -> key x < key y).
Proof.
  induction l as [|y l (l1 & l2 & -> & E & H1 & H2)].
  - exists [], []. split_and!; auto. intros; simplify_eq/=.
  - simpl. destruct (Z.leb_spec (key y) (key x)).
    + exists (y :: l1), l2. rewrite E. split_and!; auto.
    + exists [], (y :: l1 ++ l2). split_and!; auto. intros; simplify_eq/=. lia.
Qed.

Lemma sorted_tail_ge (l : list A) (y : A) :
  sorted (y :: l) -> Forall (fun z => key y <= key z) l.
Proof.
  intros Hs. apply Forall_lookup_2. intros i z Hz. apply (Hs 0%nat (S i)); [lia|done|done].
Qed.

Lemma sorted_app_r (l1 l2 : list A) : sorted (l1 ++ l2) -> sorted l2.
Proof.
  intros Hs i j x y Hij Hx Hy. apply (Hs (length l1 + i)%nat (length l1 + j)%nat); [lia| |];
    rewrite lookup_app_r by lia; (replace (_ - _)%nat with i by lia) || (replace (_ - _)%nat with j by lia); done.
Qed.

#[local] Obligation Tactic := idtac.

Program Definition list_laws : RBTreeLaws A list_ops :=
  {| c_pos (c : list A * nat) := Nat.min (snd c) (length (fst c)) |}.
Next Obligation. reflexivity. Qed.
Next Obligation.
  intros x t Hs. simpl in *. destruct (insert_sorted_split x t) as (l1 & l2 & -> & E & H1 & H2).
  exists l1, l2. split_and!; auto. apply sorted_app_r in Hs.
  destruct l2 as [|y l2]; constructor.
  - specialize (H2 y eq_refl). lia.
  - specialize (H2 y eq_refl). eapply Forall_impl; [apply sorted_tail_ge, Hs|]. simpl. lia.
Qed.
Next Obligation.
  intros x t. simpl. destruct (insert_sorted_split x t) as (l1 & l2 & -> & -> & _).
  symmetry. apply Permutation_middle.
Qed.
Next Obligation. reflexivity. Qed.
Next Obligation.
  intros k t _. simpl. unfold lower_position.
  destruct (find_index _ t) as [i|] eqn:E; simpl; [|lia].
  apply find_index_Some in E as [(x & Hx & _) _]. apply lookup_lt_Some in Hx. lia.
Qed.
Next Obligation. reflexivity. Qed.
Next Obligation.
  intros k t _. simpl. unfold upper_position.
  assert (forall i, upper_pos k t = Some i -> (i < length t)%nat) as Hu.
  { induction t as [|y t IH]; intros i Hi; simplify_eq/=.
    destruct (upper_pos k t) as [m|]; simplify_eq/=; [specialize (IH m eq_refl); lia|].
    destruct (key y <=? k); simplify_eq/=. lia. }
  destruct (upper_pos k t) as [i|] eqn:E; simpl; [|lia]. specialize (Hu i eq_refl). lia.
Qed.
Next Obligation. reflexivity. Qed.
Next Obligation. intros t. simpl. lia. Qed.
Next Obligation. intros c. simpl. lia. Qed.
Next Obligation.
  intros [l i]. simpl. destruct (decide (i < length l)%nat).
  - by rewrite Nat.min_l by lia.
  - rewrite Nat.min_r by lia. rewrite !lookup_ge_None_2 by lia. done.
Qed.
Next Obligation. reflexivity. Qed.
Next Obligation. intros [l i]. simpl. repeat case_decide; lia. Qed.
Next Obligation. reflexivity. Qed.
Next Obligation.
  intros [l i]. simpl. destruct (Nat.min i (length l)) eqn:E; lia.
Qed.
Next Obligation. reflexivity. Qed.
Next Obligation.
  intros [l i]. simpl. destruct (decide (i < length l)%nat).
  - by rewrite Nat.min_l by lia.
  - rewrite Nat.min_r by lia. rewrite !delete_out_of_range by lia. done.
Qed.
Next Obligation.
  intros [l i]. simpl. destruct (decide (i < length l)%nat).
  - rewrite length_delete by (apply lookup_lt_is_Some_2; lia). lia.
  - rewrite delete_out_of_range by lia. done.
Qed.
Next Obligation.
  intros x [l i]. simpl. destruct (decide (i < length l)%nat).
  - by rewrite Nat.min_l by lia.
  - rewrite Nat.min_r by lia. rewrite !take_ge, !drop_ge by lia. done.
Qed.
Next Obligation. reflexivity. Qed.
Next Obligation. reflexivity. Qed.
Next Obligation.
  intros x [l i]. simpl. destruct (decide (i < length l)%nat).
  - by rewrite Nat.min_l by lia.
  - rewrite Nat.min_r by lia. rewrite !list_insert_ge by lia. done.
Qed.
Next Obligation. intros x [l i]. simpl. by rewrite length_insert. Qed.
End ListTree.
End ListTree.

(** ** StaticArrayRBTree *)

Section StaticArrayRBTree.
Context {A : Type} `{Keyed A} {ops : RBTreeOps A}.

Inductive StaticArrayRBTree : Type :=
| ArrayInner (arr : list (option A))
| TreeInner (t : tree A).

Definition sa_empty : StaticArrayRBTree := ArrayInner (replicate 32 None).

Definition sa_new (arr : list (option A)) : StaticArrayRBTree := ArrayInner arr.

Definition is_none_b (o : option A) : bool := match o with None => true | Some _ => false end.

(** [insert]: the first empty slot of the array, or the tree.  On failure the value is
    handed back. *)
Definition sa_insert (value : A) (s : StaticArrayRBTree) : result StaticArrayRBTree A :=
  match s with
  | ArrayInner arr =>
      match find_index is_none_b arr with
      | Some i => Ok (ArrayInner (<[i := Some value]> arr))
      | None => Err value
      end
  | TreeInner t => Ok (TreeInner (rb_insert value t))
  end.

Definition insert_opt (t : tree A) (o : option A) : tree A :=
  match o with Some e => rb_insert e t | None => t end.

Definition convert_to_heap_allocated (s : StaticArrayRBTree) : StaticArrayRBTree :=
  match s with
  | ArrayInner arr => TreeInner (foldl insert_opt rb_new arr)
  | TreeInner t => TreeInner t
  end.

Definition sa_iter (s : StaticArrayRBTree) : list A :=
  match s with
  | ArrayInner arr => flatten_opts arr
  | TreeInner t => rb_iter t
  end.

Definition sa_len (s : StaticArrayRBTree) : nat :=
  match s with
  | ArrayInner arr => length (filter (fun o => is_none_b o = false) arr)
  | TreeInner t => length (rb_iter t)
  end.

(** [ValueRefMut]: a slot of the array or a cursor of the tree. *)
Inductive ValueRefMut : Type :=
| RefArray (arr : list (option A)) (i : nat)
| RefTree (c : cursor A).

(** [ValueRefMut::remove], with the collection it leaves behind. *)
Definition ref_remove (r : ValueRefMut) : option A * StaticArrayRBTree :=
  match r with
  | RefArray arr i => (mjoin (arr !! i), ArrayInner (<[i := None]> arr))
  | RefTree c => let '(o, c') := c_remove c in (o, TreeInner (c_tree c'))
  end.

(** In the tree form the elements are ordered. *)
Definition sa_sorted (s : StaticArrayRBTree) : Prop :=
  match s with ArrayInner _ => True | TreeInner t => sorted (rb_iter t) end.

End StaticArrayRBTree.
Arguments StaticArrayRBTree A {ops}.
Arguments ValueRefMut A {ops}.

(** ** Lemmas *)

Section SortedLists.
Context {A : Type} `{Keyed A}.

Lemma sorted_nil : sorted (A := A) [].
Proof. intros i j x y _ Hx. done. Qed.

Lemma sorted_cons (x : A) (l : list A) :
  sorted (x :: l) <-> Forall (fun y => key x <= key y) l /\ sorted l.
Proof.
  split.
  - intros Hs. split.
    + apply Forall_lookup_2. intros i z Hz. apply (Hs 0%nat (S i)); [lia|done|done].
    + intros i j y z Hij Hy Hz. apply (Hs (S i) (S j)); [lia|done|done].
  - intros [Hx Hs] [|i] [|j] y z Hij Hy Hz; simplify_eq/=; [lia| |lia|].
    + rewrite Forall_lookup in Hx. eauto.
    + apply (Hs i j); [lia|done|done].
Qed.

Lemma sorted_app (l1 l2 : list A) :
  sorted (l1 ++ l2) <->
  sorted l1 /\ sorted l2 /\ forall x y, x ∈ l1 -> y ∈ l2 -> key x <= key y.
Proof.
  induction l1 as [|z l1 IH]; simpl.
  - split; [|tauto]. intros Hs. split_and!; [apply sorted_nil|done|]. intros x y Hx. by inversion Hx.
  - rewrite !sorted_cons, Forall_app, IH, !Forall_forall. split.
    + intros [[Hz1 Hz2] (H1 & H2 & H3)]. split_and!; auto.
      intros x y [->|Hx]%elem_of_cons Hy; auto.
    + intros ([Hz H1] & H2 & H3). split_and!; auto.
      * intros y Hy. apply H3; [left|done].
      * intros x y Hx Hy. apply H3; [by right|done].
Qed.

Lemma sorted_insertion_sorted (x : A) (l l' : list A) :
  sorted l -> sorted_insertion x l l' -> sorted l'.
Proof.
  intros Hs (l1 & l2 & -> & -> & H1 & H2). rewrite Forall_forall in H1, H2.
  apply sorted_app in Hs as (S1 & S2 & S12). apply sorted_app. split_and!; [done| |].
  - apply sorted_cons. rewrite Forall_forall. auto.
  - intros a b Ha [->|Hb]%elem_of_cons; auto.
Qed.

Lemma sorted_delete (l : list A) (i : nat) : sorted l -> sorted (delete i l).
Proof.
  intros Hs. destruct (l !! i) as [x|] eqn:E.
  - apply list_elem_of_split_length in E as (l1 & l2 & -> & ->).
    rewrite delete_middle. apply sorted_app in Hs as (S1 & S2 & S12).
    apply sorted_cons in S2 as [_ S2]. apply sorted_app. split_and!; auto.
    intros a b Ha Hb. apply S12; [done|by right].
  - rewrite delete_out_of_range by (by apply lookup_ge_None). done.
Qed.

Lemma upper_pos_Some (k : Z) (l : list A) (i : nat) :
  upper_pos k l = Some i ->
  (exists x, l !! i = Some x /\ key x <= k) /\
  (forall j y, (i < j)%nat -> l !! j = Some y -> k < key y).
Proof.
  revert i. induction l as [|x l IH]; intros i Hi; simplify_eq/=.
  destruct (upper_pos k l) as [m|] eqn:Em; simplify_eq/=.
  - destruct (IH m eq_refl) as [Hx Hj]. split; [done|].
    intros [|j] y Hij Hy; [lia|]. apply (Hj j); [lia|done].
  - destruct (Z.leb_spec (key x) k); simplify_eq/=. split; [eauto|].
    intros [|j] y Hij Hy; [lia|]. simpl in Hy. clear -Em Hy.
    revert j Hy. induction l as [|z l IH]; intros j Hy; [done|]. simpl in Em.
    destruct (upper_pos k l); [done|]. destruct (Z.leb_spec (key z) k); [done|].
    destruct j; simplify_eq/=; [done|]. eapply IH; eauto.
Qed.

Lemma upper_pos_None (k : Z) (l : list A) :
  upper_pos k l = None -> Forall (fun y => k < key y) l.
Proof.
  induction l as [|z l IH]; simpl; [done|].
  destruct (upper_pos k l); [done|]. destruct (Z.leb_spec (key z) k); [done|].
  intros _. constructor; auto.
Qed.

Lemma sorted_replace (l1 l2 : list A) (a b : A) :
  sorted (l1 ++ a :: l2) -> (forall y, y ∈ l1 -> key y <= key b) ->
  (forall y, y ∈ l2 -> key b <= key y) -> sorted (l1 ++ b :: l2).
Proof.
  intros Hs H1 H2. apply sorted_app in Hs as (S1 & S2 & S12).
  apply sorted_cons in S2 as [Sa S2]. apply sorted_app. split_and!; [done| |].
  - apply sorted_cons. rewrite Forall_forall. auto.
  - intros x y Hx [->|Hy]%elem_of_cons; auto. apply S12; [done|by right].
Qed.

Lemma lower_position_lt (k : Z) (l : list A) (j : nat) (y : A) :
  (j < lower_position k l)%nat -> l !! j = Some y -> key y < k.
Proof.
  unfold lower_position. intros Hj Hy.
  destruct (find_index _ l) as [i|] eqn:E; simpl in Hj.
  - apply find_index_Some in E as [_ Hlt]. specialize (Hlt j y Hj Hy). simpl in Hlt. bool_to_prop. done.
  - apply find_index_None in E. rewrite Forall_lookup in E. specialize (E j y Hy). simpl in E.
    bool_to_prop. done.
Qed.

End SortedLists.

Section StaticArrayLemmas.
Context {A : Type} `{Keyed A} {ops : RBTreeOps A} {laws : RBTreeLaws A ops}.

Lemma rb_insert_sorted (x : A) (t : tree A) :
  sorted (rb_iter t) -> sorted (rb_iter (rb_insert x t)).
Proof. intros Hs. eapply sorted_insertion_sorted; [done|]. by apply rb_iter_insert. Qed.

Lemma sa_insert_Ok (x : A) (s s' : StaticArrayRBTree A) :
  sa_insert x s = Ok s' ->
  Permutation (sa_iter s') (x :: sa_iter s) /\ (sa_sorted s -> sa_sorted s').
Proof.
  destruct s as [arr|t]; simpl; intros Hi.
  - destruct (find_index is_none_b arr) as [i|] eqn:E; simplify_eq. simpl. split; [|done].
    apply find_index_Some in E as [(o & Ho & Hn) _]. destruct o; [done|].
    by apply flatten_opts_insert_None.
  - simplify_eq. simpl. split; [apply rb_insert_perm|]. apply rb_insert_sorted.
Qed.

(** Only a full array refuses an element. *)
Lemma sa_insert_Err (x y : A) (s : StaticArrayRBTree A) :
  sa_insert x s = Err y ->
  y = x /\ exists arr, s = ArrayInner arr /\ Forall (fun o => o <> None) arr.
Proof.
  destruct s as [arr|t]; simpl; intros Hi; [|done].
  destruct (find_index is_none_b arr) eqn:E; simplify_eq. split; [done|].
  exists arr. split; [done|]. apply find_index_None in E.
  eapply Forall_impl; [exact E|]. intros [z|]; simpl; congruence.
Qed.

(** A list into which elements can always be put: the tree, or an array with an empty
    slot. *)
Definition has_room (s : StaticArrayRBTree A) : Prop :=
  match s with ArrayInner arr => None ∈ arr | TreeInner _ => True end.

Lemma sa_insert_room (x : A) (s : StaticArrayRBTree A) :
  has_room s -> exists s', sa_insert x s = Ok s'.
Proof.
  destruct s as [arr|t]; simpl; [|eauto]. intros Hn.
  destruct (find_index is_none_b arr) eqn:E; [eauto|].
  apply find_index_None in E. rewrite Forall_forall in E. by specialize (E None Hn).
Qed.

Lemma foldl_insert_opt (arr : list (option A)) (t : tree A) :
  Permutation (rb_iter (foldl insert_opt t arr)) (rb_iter t ++ flatten_opts arr) /\
  (sorted (rb_iter t) -> sorted (rb_iter (foldl insert_opt t arr))).
Proof.
  revert t. induction arr as [|o arr IH]; intros t; simpl.
  - rewrite app_nil_r. done.
  - destruct (IH (insert_opt t o)) as [HP HS]. destruct o as [e|]; simpl in *.
    + split; [|auto using rb_insert_sorted]. rewrite HP, (rb_insert_perm e t). simpl.
      change (flatten_opts (Some e :: arr)) with (e :: flatten_opts arr).
      apply Permutation_middle.
    + done.
Qed.

Lemma ref_remove_spec (r : ValueRefMut A) (l : list A) (x : A) :
  match r with
  | RefArray arr j => flatten_opts arr = l /\ arr !! j = Some (Some x)
  | RefTree c => rb_iter (c_tree c) = l /\ l !! c_pos c = Some x
  end ->
  fst (ref_remove r) = Some x /\
  Permutation l (x :: sa_iter (snd (ref_remove r))) /\
  (match r with RefArray _ _ => True | RefTree c => sorted (rb_iter (c_tree c)) end ->
   sa_sorted (snd (ref_remove r))).
Proof.
  destruct r as [arr j|c]; simpl.
  - intros [<- Hj]. rewrite Hj. simpl. split_and!; [done|by apply flatten_opts_take|done].
  - intros [<- Hc]. pose proof (remove_value c) as Hv. pose proof (remove_tree c) as Ht.
    destruct (c_remove c) as [o c']. simpl in *. rewrite get_spec in Hv.
    split_and!; [congruence| |]; rewrite Ht; [by apply delete_Permutation|apply sorted_delete].
Qed.

Lemma convert_spec (s : StaticArrayRBTree A) :
  sa_sorted s ->
  Permutation (sa_iter (convert_to_heap_allocated s)) (sa_iter s) /\
  sa_sorted (convert_to_heap_allocated s).
Proof.
  intros Hs. destruct s as [arr|t]; simpl; [|done].
  destruct (foldl_insert_opt arr rb_new) as [HP HS].
  rewrite rb_iter_new in *. split; [exact HP|]. apply HS, sorted_nil.
Qed.

End StaticArrayLemmas.
