(* ===== verification/FrameAlloc.v ===== *)
(** * The physical frame allocator: data and operations

    Models kernel/frame_allocator/src/lib.rs.  The four global lists behind mutexes
    are the fields of [FrameAllocator], which every operation takes and returns; an
    operation that would take a lock it holds is a [Panic].  The state parameter of
    [Frames<S, P>] is a type-level tag: a [Frames] here is its [typ] and range, and
    the drop handler of each state is a function of its own.  Log messages are not
    modelled. *)

From S2P Require Import Prelude MemStructs RBTree.

(** ** Data *)

Inductive MemoryRegionType : Type := TyFree | TyReserved | TyUnknown.

#[export] Instance MemoryRegionType_eq_dec : EqDecision MemoryRegionType.
Proof. solve_decision. Defined.

Record PhysicalMemoryRegion := mkRegion {
  pr_frames : ChunkRange;
  pr_typ : MemoryRegionType;
}.

Record Frames := mkFrames {
  typ : MemoryRegionType;
  frame_range : ChunkRange;
}.

#[export] Instance Frames_eq_dec : EqDecision Frames.
Proof. solve_decision. Defined.

(** [Ord] compares the starting frames. *)
#[export] Instance Frames_keyed : Keyed Frames := fun f => r_start (frame_range f).
#[export] Instance Region_keyed : Keyed PhysicalMemoryRegion := fun r => r_start (pr_frames r).

Definition fstart (f : Frames) : Z := r_start (frame_range f).
Definition fend (f : Frames) : Z := r_end (frame_range f).
Definition fsize (f : Frames) : Z := size_in_chunks Page4K (frame_range f).

(** [Frames::empty]. *)
Definition frames_empty : Frames := mkFrames TyUnknown range_empty.

Record SplitFrames := mkSplit {
  before_start : option Frames;
  start_to_end : Frames;
  after_end : option Frames;
}.

(** The pending insertions of [DeferredAllocAction]. *)
Record DeferredAllocAction := mkDeferred { free1 : Frames; free2 : Frames }.

Inductive AllocationError : Type :=
| AddressNotFree (frame num : Z)
| AddressNotFound (frame num : Z)
| OutOfAddressSpace (num : Z)
| ContiguousChunkNotFound (frame num : Z).

Definition alloc_err_str (e : AllocationError) : string :=
  match e with
  | AddressNotFree _ _ => "requested address was in use"
  | AddressNotFound _ _ => "requested address was outside of this frame allocator's range"
  | OutOfAddressSpace _ => "out of physical address space"
  | ContiguousChunkNotFound _ _ => "only some of the requested frames were available"
  end.

(** ** Merging and splitting *)

(** [Frames::merge]: the merged [self], or [other] handed back. *)
Definition merge (P : PageSize) (self other : Frames) : result Frames Frames :=
  if is_empty (frame_range self) || is_empty (frame_range other) then Err other
  else if fstart self =? chunk_add P (fend other) 1
  then Ok (mkFrames (typ self) (mkRange (fstart other) (fend self)))
  else if chunk_add P (fend self) 1 =? fstart other
  then Ok (mkFrames (typ self) (mkRange (fstart self) (fend other)))
  else Err other.

Definition split_range (P : PageSize) (self : Frames) (frames_to_extract : ChunkRange)
  : result SplitFrames Frames :=
  if negb (contains_range (frame_range self) frames_to_extract) then Err self
  else
    let s := r_start frames_to_extract in
    let e := r_end frames_to_extract in
    let before := if (s =? chunk_MIN) || (s =? fstart self) then None
                  else Some (mkRange (fstart self) (chunk_sub P s 1)) in
    let after := if (e =? chunk_MAX P) || (e =? fend self) then None
                 else Some (mkRange (chunk_add P e 1) (fend self)) in
    Ok (mkSplit (mkFrames (typ self) <$> before)
                (mkFrames (typ self) frames_to_extract)
                (mkFrames (typ self) <$> after)).

Definition split_at (P : PageSize) (self : Frames) (at_frame : Z)
  : result (Frames * Frames) Frames :=
  if is_empty (frame_range self) then Err self
  else
    let end_of_first := chunk_sub P at_frame 1 in
    let mk a b := Ok (mkFrames (typ self) a, mkFrames (typ self) b) in
    if (at_frame =? fstart self) && (at_frame <=? fend self)
    then mk range_empty (mkRange at_frame (fend self))
    else if (at_frame =? chunk_add P (fend self) 1) && (fstart self <=? end_of_first)
    then mk (mkRange (fstart self) (fend self)) range_empty
    else if (fstart self <? at_frame) && (end_of_first <=? fend self)
    then mk (mkRange (fstart self) end_of_first) (mkRange at_frame (fend self))
    else Err self.

Definition deferred_new (f1 f2 : option Frames) : DeferredAllocAction :=
  mkDeferred (default frames_empty f1) (default frames_empty f2).

(** ** The allocator *)

Section Allocator.
Context {fops : RBTreeOps Frames} {rops : RBTreeOps PhysicalMemoryRegion}.

Record FrameAllocator := mkAllocator {
  free_general : StaticArrayRBTree Frames;
  free_reserved : StaticArrayRBTree Frames;
  general_regions : StaticArrayRBTree PhysicalMemoryRegion;
  reserved_regions : StaticArrayRBTree PhysicalMemoryRegion;
}.

Definition set_free_general (l : StaticArrayRBTree Frames) (st : FrameAllocator) :=
  mkAllocator l (free_reserved st) (general_regions st) (reserved_regions st).

Definition set_free_reserved (l : StaticArrayRBTree Frames) (st : FrameAllocator) :=
  mkAllocator (free_general st) l (general_regions st) (reserved_regions st).

(** *** Allocation from a chosen chunk *)

Definition allocate_from_chosen_chunk
    (frames_to_allocate : ChunkRange) (initial_chunk_ref : ValueRefMut Frames)
    (next_chunk : option Frames)
  : outcome ((Frames * DeferredAllocAction) * StaticArrayRBTree Frames) :=
  let '(removed, list') := ref_remove initial_chunk_ref in
  let* chosen := expect removed in
  let* chosen := match next_chunk with
                 | Some chunk => unwrap (merge Page4K chosen chunk)
                 | None => Done chosen
                 end in
  let* sp := unwrap (split_range Page4K chosen frames_to_allocate) in
  Done ((start_to_end sp, deferred_new (before_start sp) (after_end sp)), list').

(** The frames to allocate: [requested_frame ..= requested_frame + num_frames - 1]. *)
Definition alloc_range (requested_frame num_frames : Z) : ChunkRange :=
  mkRange requested_frame (chunk_sub Page4K (chunk_add Page4K requested_frame num_frames) 1).

Definition covers_request (rf re : Z) (elem : option Frames) : bool :=
  match elem with
  | Some chunk => (fstart chunk <=? rf) && (re <=? fend chunk)
  | None => false
  end.

(** The result of a search, with the list it leaves: an error leaves it unchanged. *)
Definition AllocResult : Type :=
  outcome (result (Frames * DeferredAllocAction) AllocationError * StaticArrayRBTree Frames).

Definition alloc_done (m : outcome ((Frames * DeferredAllocAction) * StaticArrayRBTree Frames))
  : AllocResult := let* (r, l) := m in Done (Ok r, l).

Definition find_specific_chunk (list : StaticArrayRBTree Frames)
    (requested_frame num_frames : Z) : AllocResult :=
  let requested_end_frame := chunk_add Page4K requested_frame (wrap64 (num_frames - 1)) in
  let range := alloc_range requested_frame num_frames in
  let not_found := Done (Err (AddressNotFound requested_frame num_frames), list) in
  match list with
  | ArrayInner arr =>
      match find_index (covers_request requested_frame requested_end_frame) arr with
      | Some i => alloc_done (allocate_from_chosen_chunk range (RefArray arr i) None)
      | None => not_found
      end
  | TreeInner t =>
      let cur := rb_upper_bound requested_frame t in
      match c_get cur with
      | None => not_found
      | Some chunk =>
          if contains (frame_range chunk) requested_frame then
            if requested_end_frame <=? fend chunk
            then alloc_done (allocate_from_chosen_chunk range (RefTree cur) None)
            else
              let cur := c_next cur in
              match c_get cur with
              | Some next_chunk =>
                  if chunk_add Page4K (fend chunk) 1 =? fstart next_chunk then
                    if requested_end_frame <=? fend next_chunk then
                      let '(next, cur) := c_remove cur in
                      let cur := c_prev cur in
                      match next with
                      | Some nc => alloc_done (allocate_from_chosen_chunk range (RefTree cur) (Some nc))
                      | None => not_found
                      end
                    else Panic
                  else not_found
              | None =>
                  Done (Err (ContiguousChunkNotFound (chunk_add Page4K (fend chunk) 1)
                               (wrap64 (requested_end_frame - fend chunk))), list)
              end
          else not_found
      end
  end.

Definition big_enough_free (num_frames : Z) (chunk : Frames) : bool :=
  (num_frames <=? fsize chunk) && bool_decide (typ chunk = TyFree).

(** The [while let] loop of [find_any_chunk], from higher addresses moving down. *)
Fixpoint find_any_loop (fuel : nat) (num_frames : Z) (cur : cursor Frames)
  : outcome (option (Frames * cursor Frames)) :=
  match fuel with
  | O => Panic
  | S fuel' =>
      match c_get cur with
      | None => Done None
      | Some chunk =>
          if big_enough_free num_frames chunk then Done (Some (chunk, cur))
          else find_any_loop fuel' num_frames (c_prev cur)
      end
  end.

Definition find_any_chunk (list : StaticArrayRBTree Frames) (num_frames : Z) : AllocResult :=
  let failed := Done (Err (OutOfAddressSpace num_frames), list) in
  match list with
  | ArrayInner arr =>
      match find_index (fun e => match e with
                                 | Some c => big_enough_free num_frames c
                                 | None => false
                                 end) arr with
      | Some i =>
          match arr !! i with
          | Some (Some chunk) =>
              alloc_done (allocate_from_chosen_chunk (alloc_range (fstart chunk) num_frames)
                            (RefArray arr i) None)
          | _ => failed
          end
      | None => failed
      end
  | TreeInner t =>
      let* r := find_any_loop (S (length (rb_iter t))) num_frames (rb_last t) in
      match r with
      | Some (chunk, cur) =>
          alloc_done (allocate_from_chosen_chunk (alloc_range (fstart chunk) num_frames)
                        (RefTree cur) None)
      | None => failed
      end
  end.

(** *** Reserved regions *)

(** The ascending scan of [contains_any] and of [add_reserved_region_to_lists]. *)
Fixpoint scan_overlap {A} {aops : RBTreeOps A} (rng : A -> ChunkRange)
    (fuel : nat) (frames : ChunkRange) (cur : cursor A) : outcome bool :=
  match fuel with
  | O => Panic
  | S fuel' =>
      match c_get cur with
      | None => Done false
      | Some chunk =>
          if r_end frames <? r_start (rng chunk) then Done false
          else match overlap (rng chunk) frames with
               | Some _ => Done true
               | None => scan_overlap rng fuel' frames (c_next cur)
               end
      end
  end.

Definition overlaps_any {A} {aops : RBTreeOps A} (rng : A -> ChunkRange)
    (s : StaticArrayRBTree A) (frames : ChunkRange) : outcome bool :=
  match s with
  | ArrayInner arr =>
      Done (existsb (fun c => match overlap (rng c) frames with Some _ => true | None => false end)
              (flatten_opts arr))
  | TreeInner t =>
      scan_overlap rng (S (length (rb_iter t))) frames (rb_upper_bound (r_start frames) t)
  end.

Definition contains_any (s : StaticArrayRBTree PhysicalMemoryRegion) (frames : ChunkRange)
  : outcome bool := overlaps_any pr_frames s frames.

Definition add_reserved_region_to_lists
    (regions_list : StaticArrayRBTree PhysicalMemoryRegion)
    (frames_list : StaticArrayRBTree Frames) (frames : ChunkRange)
  : outcome (result ChunkRange string *
             (StaticArrayRBTree PhysicalMemoryRegion * StaticArrayRBTree Frames)) :=
  let* in_regions := contains_any regions_list frames in
  if in_regions : bool then
    Done (Err "Failed to add reserved region that overlapped with existing reserved regions.",
          (regions_list, frames_list))
  else
    let* in_frames := overlaps_any frame_range frames_list frames in
    if in_frames : bool then
      Done (Err (match frames_list with
                 | ArrayInner _ => "Failed to add free frames that overlapped with existing frames (array)."
                 | TreeInner _ => "Failed to add free frames that overlapped with existing frames (RBTree)."
                 end), (regions_list, frames_list))
    else
      match sa_insert (mkRegion frames TyReserved) regions_list with
      | Err _ => Done (Err "BUG: Failed to insert non-overlapping physical memory region into reserved regions list.",
                       (regions_list, frames_list))
      | Ok regions_list' =>
          match sa_insert (mkFrames TyReserved frames) frames_list with
          | Err _ => Panic
          | Ok frames_list' => Done (Ok frames, (regions_list', frames_list'))
          end
      end.

(** *** The allocation routine *)

Definition str_result (r : result (Frames * DeferredAllocAction) AllocationError)
  : result (Frames * DeferredAllocAction) string :=
  match r with Ok x => Ok x | Err e => Err (alloc_err_str e) end.

(** The part of [allocate_frames_deferred] that adds a reserved region for frames that
    neither list contains and then allocates from it. *)
Definition allocate_new_reserved (start_frame num_frames rs rn : Z) (st : FrameAllocator)
  : outcome (result (Frames * DeferredAllocAction) string * FrameAllocator) :=
  let requested_frames := mkRange rs (chunk_add Page4K rs (wrap64 (rn - 1))) in
  let* general := contains_any (general_regions st) requested_frames in
  if general : bool then
    Done (Err (alloc_err_str (AddressNotFree start_frame num_frames)), st)
  else
    let* (added, lists) :=
      add_reserved_region_to_lists (reserved_regions st) (free_reserved st) requested_frames in
    let st' := mkAllocator (free_general st) (snd lists) (general_regions st) (fst lists) in
    match added with
    | Err e => Done (Err e, st')
    | Ok _ =>
        let* (r, l) := find_specific_chunk (free_reserved st') start_frame num_frames in
        Done (str_result r, set_free_reserved l st')
    end.

Definition allocate_frames_deferred (requested_paddr : option Z) (num_frames : Z)
    (st : FrameAllocator)
  : outcome (result (Frames * DeferredAllocAction) string * FrameAllocator) :=
  if num_frames =? 0 then Done (Err "cannot allocate zero frames", st)
  else
    match requested_paddr with
    | Some paddr =>
        let start_frame := containing_address paddr in
        let* (first, rl) := find_specific_chunk (free_reserved st) start_frame num_frames in
        let st := set_free_reserved rl st in
        match first with
        | Ok success => Done (Ok success, st)
        | Err (AddressNotFound _ _ as alloc_err) =>
            let* (second, gl) := find_specific_chunk (free_general st) start_frame num_frames in
            let st := set_free_general gl st in
            match second with
            | Ok r => Done (Ok r, st)
            | Err (AddressNotFound _ _) =>
                allocate_new_reserved start_frame num_frames start_frame num_frames st
            | Err _ => Done (Err (alloc_err_str alloc_err), st)
            end
        | Err (ContiguousChunkNotFound f numf) =>
            allocate_new_reserved start_frame num_frames f numf st
        | Err alloc_err => Done (Err (alloc_err_str alloc_err), st)
        end
    | None =>
        let* (r, gl) := find_any_chunk (free_general st) num_frames in
        Done (str_result r, set_free_general gl st)
    end.

Definition allocate_frames_by_bytes_deferred (requested_paddr : option Z) (num_bytes : Z)
    (st : FrameAllocator) :=
  let actual_num_bytes := match requested_paddr with
                          | Some paddr => wrap64 (num_bytes + paddr mod PAGE_SIZE)
                          | None => num_bytes
                          end in
  let num_frames := wrap64 (actual_num_bytes + PAGE_SIZE - 1) / PAGE_SIZE in
  allocate_frames_deferred requested_paddr num_frames st.

(** *** Deallocation *)

(** Replace the chunk under the cursor by its merge with the freed frames. *)
Definition merge_at (free_frames : Frames) (cur : cursor Frames) : outcome (tree Frames) :=
  let '(removed, cur') := c_remove cur in
  let* neighbour := expect removed in
  let* merged := unwrap (merge Page4K neighbour free_frames) in
  Done (c_tree (c_insert_before merged cur')).

(** Append the freed frames to the chunk before the cursor, or insert them as a new
    chunk. *)
Definition free_after_prev (free_frames : Frames) (cur : cursor Frames) : outcome (tree Frames) :=
  match c_get (c_prev cur) with
  | Some prev_frames =>
      if chunk_add Page4K (fend prev_frames) 1 =? fstart free_frames
      then merge_at free_frames (c_prev cur)
      else Done (c_tree (c_insert free_frames cur))
  | None => Done (c_tree (c_insert free_frames cur))
  end.

(** The insertion of the drop handler into the tree: prepend the freed frames to the
    next chunk if it is contiguous, else try the previous one. *)
Definition free_into_tree (free_frames : Frames) (t : tree Frames) : outcome (tree Frames) :=
  let cur := rb_lower_bound (fstart free_frames) t in
  match c_get cur with
  | Some next_frames =>
      if chunk_add Page4K (fend free_frames) 1 =? fstart next_frames
      then merge_at free_frames cur
      else free_after_prev free_frames cur
  | None => free_after_prev free_frames cur
  end.

Definition free_into_list (free_frames : Frames) (list : StaticArrayRBTree Frames)
  : outcome (StaticArrayRBTree Frames) :=
  match list with
  | ArrayInner _ => unwrap (sa_insert free_frames list)
  | TreeInner t => let* t' := free_into_tree free_frames t in Done (TreeInner t')
  end.

(** [Drop] of a [Frames] in the [Free] state. *)
Definition drop_free (P : PageSize) (f : Frames) (st : FrameAllocator) : outcome FrameAllocator :=
  if size_in_chunks P (frame_range f) =? 0 then Done st
  else
    let free_frames := mkFrames (typ f) (into_4k P (frame_range f)) in
    if bool_decide (typ free_frames = TyReserved)
    then let* l := free_into_list free_frames (free_reserved st) in Done (set_free_reserved l st)
    else let* l := free_into_list free_frames (free_general st) in Done (set_free_general l st).

(** [Drop] in the [Allocated] and [Unmapped] states: the frames move to the next
    state, which is dropped in turn; a mapped [Frames] is never dropped. *)
Definition drop_frames (S : MemoryState) (P : PageSize) (f : Frames) (st : FrameAllocator)
  : outcome FrameAllocator :=
  match S with
  | StFree | StAllocated | StUnmapped => drop_free P f st
  | StMapped => Panic
  end.

Definition insert_deferred (f : Frames) (st : FrameAllocator) : outcome FrameAllocator :=
  if 0 <? fsize f then
    match typ f with
    | TyFree => let* l := unwrap (sa_insert f (free_general st)) in Done (set_free_general l st)
    | TyReserved => let* l := unwrap (sa_insert f (free_reserved st)) in Done (set_free_reserved l st)
    | TyUnknown => drop_free Page4K f st
    end
  else Done st.

(** [Drop] of a [DeferredAllocAction]. *)
Definition drop_deferred (d : DeferredAllocAction) (st : FrameAllocator) : outcome FrameAllocator :=
  let* st := insert_deferred (free1 d) st in
  insert_deferred (free2 d) st.

(** [allocate_frames], [allocate_frames_at] and their [_by_bytes] variants: the
    deferred action is dropped as soon as the allocation has returned. *)
Definition allocate_frames_at (requested_paddr : option Z) (num_frames : Z) (st : FrameAllocator)
  : outcome (result Frames string * FrameAllocator) :=
  let* (r, st) := allocate_frames_deferred requested_paddr num_frames st in
  match r with
  | Ok (af, action) => let* st := drop_deferred action st in Done (Ok af, st)
  | Err e => Done (Err e, st)
  end.

Definition allocate_frames_by_bytes_at (requested_paddr : option Z) (num_bytes : Z)
    (st : FrameAllocator) : outcome (result Frames string * FrameAllocator) :=
  let* (r, st) := allocate_frames_by_bytes_deferred requested_paddr num_bytes st in
  match r with
  | Ok (af, action) => let* st := drop_deferred action st in Done (Ok af, st)
  | Err e => Done (Err e, st)
  end.

(** [into_unmapped_frames]: the region a range belongs to decides its type. *)
Definition into_unmapped_frames (r : ChunkRange) (st : FrameAllocator) : outcome Frames :=
  let* reserved := contains_any (reserved_regions st) r in
  Done (mkFrames (if reserved : bool then TyReserved else TyFree) r).

Definition convert_frame_allocator_to_heap_based (st : FrameAllocator) : FrameAllocator :=
  mkAllocator (convert_to_heap_allocated (free_general st))
    (convert_to_heap_allocated (free_reserved st))
    (convert_to_heap_allocated (general_regions st))
    (convert_to_heap_allocated (reserved_regions st)).

(** *** [inspect_then_allocate_free_frames] *)

Inductive FramesIteratorRequest : Type :=
| ReqNext
| ReqStop
| ReqAllocateAt (requested_frame num_frames : Z).

(** [func] is an [FnMut]: it may change its own state [S] at each call. *)
Fixpoint inspect_loop {S} (func : S -> Frames -> S * FramesIteratorRequest) (s : S)
    (l : list Frames) : S * option (Z * Z) :=
  match l with
  | [] => (s, None)
  | f :: l' =>
      let '(s', req) := func s f in
      match req with
      | ReqNext => inspect_loop func s' l'
      | ReqStop => (s', None)
      | ReqAllocateAt rf n => (s', Some (rf, n))
      end
  end.

Definition inspect_then_allocate_free_frames {S}
    (func : S -> Frames -> S * FramesIteratorRequest) (s : S) (st : FrameAllocator)
  : outcome (result (option Frames) string * S * FrameAllocator) :=
  match inspect_loop func s (sa_iter (free_general st)) with
  | (s', None) => Done (Ok None, s', st)
  | (s', Some (rf, n)) =>
      let* (r, gl) := find_specific_chunk (free_general st) rf n in
      let st := set_free_general gl st in
      match r with
      | Ok (af, action) => let* st := drop_deferred action st in Done (Ok (Some af), s', st)
      | Err e => Done (Err (alloc_err_str e), s', st)
      end
  end.

End Allocator.
Arguments FrameAllocator {fops rops}.
