(* ===== verification/FrameAllocLemmas.v ===== *)
(** * The physical frame allocator: conservation of frames

    How many chunks of a list contain a frame ([occ]) is the measure all the
    allocator's properties are stated with: merging, splitting, searching, allocating
    and freeing move chunks around without changing the sum of these counts. *)

From S2P Require Import Prelude MemStructs RBTree FrameAlloc.

(** ** Counting *)

(** 1 if the chunk contains the frame, 0 otherwise. *)
Definition cin (f : Z) (c : Frames) : Z := Z.b2z (contains (frame_range c) f).

(** The number of chunks of the list that contain the frame. *)
Definition occ (f : Z) (l : list Frames) : Z := sum_of (cin f) l.

Definition frames_wf (c : Frames) : Prop := wf_range (frame_range c).

(** A chunk, or nothing: the parts of a [DeferredAllocAction]. *)
Definition piece_ok (t : MemoryRegionType) (c : Frames) : Prop :=
  c = frames_empty \/ (frames_wf c /\ typ c = t).

Lemma cin_bound (f : Z) (c : Frames) : 0 <= cin f c <= 1.
Proof. unfold cin. destruct (contains _ _); simpl; lia. Qed.

Lemma cin_true (f : Z) (c : Frames) : cin f c = 1 <-> in_range f (frame_range c).
Proof. unfold cin. rewrite <- contains_iff. destruct (contains _ _); simpl; split; congruence. Qed.

Lemma cin_empty (f : Z) : cin f frames_empty = 0.
Proof. unfold cin, contains; simpl. case_cmp; simpl; lia. Qed.

Lemma occ_nonneg (f : Z) (l : list Frames) : 0 <= occ f l.
Proof. apply sum_of_nonneg. intros c. pose proof (cin_bound f c). lia. Qed.

Lemma occ_app (f : Z) (l1 l2 : list Frames) : occ f (l1 ++ l2) = occ f l1 + occ f l2.
Proof. apply sum_of_app. Qed.

Lemma occ_cons (f : Z) (c : Frames) (l : list Frames) : occ f (c :: l) = cin f c + occ f l.
Proof. done. Qed.

#[export] Instance occ_Permutation (f : Z) : Proper (Permutation ==> eq) (occ f).
Proof. apply sum_of_Permutation. Qed.

Lemma occ_elem (f : Z) (c : Frames) (l : list Frames) : c ∈ l -> cin f c <= occ f l.
Proof. apply sum_of_elem. intros d. pose proof (cin_bound f d). lia. Qed.

#[export] Hint Rewrite occ_app occ_cons cin_empty : maios.
#[export] Hint Resolve occ_nonneg : maios.

(** Split the membership counts of a goal into comparisons. *)
Ltac count_frames :=
  unfold cin, contains, fstart, fend in *; simpl in *; case_cmp; simpl in *; try lia.

(** ** Merging and splitting *)

Lemma merge_Ok (a b m : Frames) :
  merge Page4K a b = Ok m -> frames_wf a -> frames_wf b ->
  (forall f, cin f a + cin f b <= 1) ->
  frames_wf m /\ typ m = typ a /\ (forall f, cin f m = cin f a + cin f b) /\
  fstart m = Z.min (fstart a) (fstart b) /\ fend m = Z.max (fend a) (fend b).
Proof.
  intros Hm [Ha1 Ha2] [Hb1 Hb2] Hd. unfold merge in Hm.
  specialize (Hd MAX_PAGE_NUMBER) as Hmax.
  rewrite !chunk_add_4k in Hm by (unfold fend; alloc_consts; lia).
  destruct (is_empty _ || is_empty _); [done|].
  destruct (Z.eqb_spec (fstart a) (Z.min MAX_PAGE_NUMBER (fend b + 1))) as [E|E].
  - simplify_eq. assert (fstart a = fend b + 1) by (revert E Hmax; count_frames).
    unfold frames_wf, wf_range, fstart, fend in *; simpl. split_and!; try lia; try done.
    intros f. unfold cin, contains; simpl. case_cmp; simpl; lia.
  - destruct (Z.eqb_spec (Z.min MAX_PAGE_NUMBER (fend a + 1)) (fstart b)) as [E'|]; simplify_eq.
    assert (fstart b = fend a + 1) by (revert E' Hmax; count_frames).
    unfold frames_wf, wf_range, fstart, fend in *; simpl. split_and!; try lia; try done.
    intros f. unfold cin, contains; simpl. case_cmp; simpl; lia.
Qed.

(** Adjacent chunks always merge. *)
Lemma merge_adjacent (a b : Frames) :
  frames_wf a -> frames_wf b ->
  chunk_add Page4K (fend b) 1 = fstart a \/ chunk_add Page4K (fend a) 1 = fstart b ->
  exists m, merge Page4K a b = Ok m.
Proof.
  intros [Ha1 Ha2] [Hb1 Hb2] Hadj. unfold merge, is_empty, fstart, fend in *.
  rewrite (proj2 (Z.leb_le _ _)), (proj2 (Z.leb_le _ _)) by lia. simpl.
  case_cmp; eauto. lia.
Qed.

Lemma split_range_Ok (c : Frames) (r : ChunkRange) (sp : SplitFrames) :
  split_range Page4K c r = Ok sp -> frames_wf c ->
  frame_range (start_to_end sp) = r /\ typ (start_to_end sp) = typ c /\
  frames_wf (start_to_end sp) /\
  piece_ok (typ c) (default frames_empty (before_start sp)) /\
  piece_ok (typ c) (default frames_empty (after_end sp)) /\
  (forall f, cin f c = cin f (start_to_end sp) +
     cin f (default frames_empty (before_start sp)) + cin f (default frames_empty (after_end sp))).
Proof.
  intros Hs [Hc1 Hc2]. unfold split_range in Hs.
  destruct (contains_range (frame_range c) r) eqn:E; [|done].
  apply contains_range_iff in E. simpl in Hs.
  rewrite chunk_sub_4k, chunk_add_4k, chunk_MAX_4k in Hs by (alloc_consts; lia).
  destruct sp as [b m a]. simplify_eq/=. unfold chunk_MIN, fstart, fend.
  split; [done|]. split; [done|]. split; [unfold frames_wf, wf_range; simpl; lia|].
  unfold piece_ok, frames_wf, wf_range, cin.
  split_and!.
  - case_cmp; simpl; auto. right. split; [lia|done].
  - case_cmp; simpl; auto. right. split; [lia|done].
  - intros f. destruct (_ || _) eqn:E1 at 1; destruct (_ || _) eqn:E2 at 1;
      rewrite ?orb_true_iff, ?orb_false_iff, ?Z.eqb_eq, ?Z.eqb_neq in *;
      unfold contains; simpl; case_cmp; simpl; lia.
Qed.

(** ** Allocating from a list *)

(** What an allocation from list [l] that leaves [l'] promises: the allocated frames
    and the deferred pieces are chunks of type [ty], they and [l'] contain every frame
    exactly as often as [l] did, and [l'] has only chunks of [l]. *)
Record alloc_ok (ty : MemoryRegionType) (l l' : list Frames)
    (af : Frames) (d : DeferredAllocAction) : Prop := {
  ao_wf : frames_wf af;
  ao_typ : typ af = ty;
  ao_free1 : piece_ok ty (free1 d);
  ao_free2 : piece_ok ty (free2 d);
  ao_occ : forall f, occ f l = cin f af + cin f (free1 d) + cin f (free2 d) + occ f l';
  ao_incl : forall c, c ∈ l' -> c ∈ l;
}.

Section Conservation.
Context {fops : RBTreeOps Frames} {flaws : RBTreeLaws Frames fops}.
Context {rops : RBTreeOps PhysicalMemoryRegion} {rlaws : RBTreeLaws PhysicalMemoryRegion rops}.

(** The reference points to the chunk [x] of the list [l]. *)
Definition ref_at (r : ValueRefMut Frames) (l : list Frames) (x : Frames) : Prop :=
  match r with
  | RefArray arr j => flatten_opts arr = l /\ arr !! j = Some (Some x)
  | RefTree c => rb_iter (c_tree c) = l /\ l !! c_pos c = Some x
  end.

Definition ref_sorted (r : ValueRefMut Frames) : Prop :=
  match r with RefArray _ _ => True | RefTree c => sorted (rb_iter (c_tree c)) end.

Lemma chosen_chunk_Done (range : ChunkRange) (r : ValueRefMut Frames) (next : option Frames)
    (l : list Frames) (x : Frames) (af : Frames) (d : DeferredAllocAction)
    (list' : StaticArrayRBTree Frames) :
  allocate_from_chosen_chunk range r next = Done ((af, d), list') ->
  ref_at r l x -> frames_wf x ->
  (forall nc, next = Some nc -> frames_wf nc /\ forall f, cin f x + cin f nc <= 1) ->
  frame_range af = range /\ (ref_sorted r -> sa_sorted list') /\
  alloc_ok (typ x) (option_list next ++ l) (sa_iter list') af d.
Proof.
  intros Ha Hr Hx Hn. unfold allocate_from_chosen_chunk in Ha.
  destruct (ref_remove_spec r l x Hr) as (Hrem & HP & Hs).
  destruct (ref_remove r) as [o l']. simpl in Hrem, HP, Hs. subst o. simpl in Ha.
  set (m := match next with Some chunk => unwrap (merge Page4K x chunk) | None => Done x end) in Ha.
  assert (forall y, m = Done y -> frames_wf y /\ typ y = typ x /\
            forall f, cin f y = cin f x + occ f (option_list next)) as Hy.
  { intros y Hy. unfold m in Hy. destruct next as [nc|]; simplify_eq/=.
    - destruct (Hn nc eq_refl) as [Hw Hd].
      destruct (merge Page4K x nc) as [z|] eqn:E; simplify_eq/=.
      destruct (merge_Ok x nc y E Hx Hw Hd) as (? & ? & Hc & _). split_and!; auto.
      intros f. rewrite Hc. unfold occ; simpl. lia.
    - split_and!; auto. intros f. unfold occ; simpl. lia. }
  destruct m as [y|]; [|done]. simpl in Ha. destruct (Hy y eq_refl) as (Hyw & Hyt & Hyc).
  destruct (split_range Page4K y range) as [sp|] eqn:E; simplify_eq/=.
  destruct (split_range_Ok y range sp E Hyw) as (? & ? & ? & ? & ? & Hc).
  split_and!; auto. rewrite Hyt in *. split; auto; simpl.
  - intros f. rewrite occ_app, HP, occ_cons. specialize (Hyc f). specialize (Hc f). lia.
  - intros c Hin. apply elem_of_app. right. rewrite HP. by right.
Qed.

Lemma alloc_done_Done (m : outcome ((Frames * DeferredAllocAction) * StaticArrayRBTree Frames)) r l :
  alloc_done m = Done (r, l) -> exists x, r = Ok x /\ m = Done (x, l).
Proof. destruct m as [[x l']|]; simpl; intros; simplify_eq. eauto. Qed.

(** The specification of a search in a list whose chunks are disjoint and of type
    [ty]: success allocates [range] from it, an error leaves it unchanged. *)
Definition search_ok (ty : MemoryRegionType) (range : ChunkRange -> Prop)
    (list : StaticArrayRBTree Frames)
    (r : result (Frames * DeferredAllocAction) AllocationError) (list' : StaticArrayRBTree Frames)
  : Prop :=
  match r with
  | Ok (af, d) =>
      range (frame_range af) /\ alloc_ok ty (sa_iter list) (sa_iter list') af d /\
      (sa_sorted list -> sa_sorted list')
  | Err _ => list' = list
  end.

Lemma chosen_search_ok (ty : MemoryRegionType) (rg : ChunkRange) (ref : ValueRefMut Frames)
    (next : option Frames) (l : list Frames) (x : Frames) (list : StaticArrayRBTree Frames)
    (range : ChunkRange -> Prop) r list' :
  alloc_done (allocate_from_chosen_chunk rg ref next) = Done (r, list') ->
  range rg -> ref_at ref l x -> (sa_sorted list -> ref_sorted ref) ->
  Permutation (sa_iter list) (option_list next ++ l) ->
  Forall (fun c => frames_wf c /\ typ c = ty) (sa_iter list) ->
  (forall f, occ f (sa_iter list) <= 1) ->
  search_ok ty range list r list'.
Proof.
  intros Ha Hrg Href Hs HP Hall Hocc.
  apply alloc_done_Done in Ha as ([af d] & -> & Ha).
  rewrite Forall_forall in Hall.
  assert (x ∈ l) as Hxl.
  { destruct ref; simpl in Href; destruct Href as [E1 E2].
    - subst l. apply list_elem_of_omap. exists (Some x). split; [|done].
      eapply list_elem_of_lookup_2; eauto.
    - eapply list_elem_of_lookup_2; eauto. }
  destruct (Hall x) as [Hxw Hxt]. { rewrite HP. apply elem_of_app. by right. }
  eapply chosen_chunk_Done in Ha as (E & Hso & Hok); eauto.
  - simpl. rewrite E, <- Hxt. split_and!; auto. destruct Hok. split; auto.
    + intros f. rewrite HP. auto.
    + intros c Hc. rewrite HP. auto.
  - intros nc ->. split; [apply Hall; rewrite HP; apply elem_of_app; left; simpl; by left|].
    intros f. specialize (Hocc f). rewrite HP in Hocc. simpl in Hocc. rewrite occ_cons in Hocc.
    pose proof (occ_elem f x l Hxl). lia.
Qed.

Lemma find_specific_chunk_ok (ty : MemoryRegionType) (list : StaticArrayRBTree Frames)
    (rf nf : Z) r list' :
  find_specific_chunk list rf nf = Done (r, list') ->
  Forall (fun c => frames_wf c /\ typ c = ty) (sa_iter list) ->
  (forall f, occ f (sa_iter list) <= 1) ->
  search_ok ty (fun rg => rg = alloc_range rf nf) list r list'.
Proof.
  intros Hf Hall Hocc. unfold find_specific_chunk in Hf.
  destruct list as [arr|t].
  - destruct (find_index _ arr) as [i|] eqn:E; [|by simplify_eq/=].
    apply find_index_Some in E as [([c|] & Hc & Hcov) _]; [|done].
    eapply chosen_search_ok; try done.
  - set (cur := rb_upper_bound rf t) in *.
    destruct (c_get cur) as [chunk|] eqn:E; [|by simplify_eq/=].
    rewrite get_spec in E. assert (rb_iter (c_tree cur) = rb_iter t) as Ht by apply upper_bound_tree.
    destruct (contains _ _); [|by simplify_eq/=].
    destruct (_ <=? fend chunk) in Hf.
    { eapply (chosen_search_ok _ _ _ _ (rb_iter (c_tree cur)) chunk); try done; simpl; rewrite Ht; done. }
    destruct (c_get (c_next cur)) as [nx|] eqn:En; [|by simplify_eq/=].
    destruct (_ =? fstart nx) in Hf; [|by simplify_eq/=].
    destruct (_ <=? fend nx) in Hf; [|done].
    pose proof (remove_value (c_next cur)) as Hrv. pose proof (remove_tree (c_next cur)) as Hrt.
    pose proof (remove_pos (c_next cur)) as Hrp.
    rewrite get_spec in En. rewrite next_tree in En, Hrt. rewrite get_spec, next_tree in Hrv.
    rewrite En in Hrv. destruct (c_remove (c_next cur)) as [o c']. simpl in *. subst o.
    assert (c_pos (c_next cur) = S (c_pos cur)) as Hnp.
    { rewrite next_pos. apply lookup_lt_Some in E. case_decide; lia. }
    rewrite Hnp in *.
    assert (c_pos (c_prev c') = c_pos cur) as Hpp by (rewrite prev_pos, Hrp; done).
    eapply chosen_search_ok with (x := chunk); [exact Hf|done| | | |done|done].
    + simpl. split; [done|]. rewrite prev_tree, Hrt, Hpp. rewrite list_lookup_delete_lt by lia. done.
    + simpl. rewrite prev_tree, Hrt, Ht. apply sorted_delete.
    + simpl. rewrite prev_tree, Hrt, <- Ht. by apply delete_Permutation.
Qed.

(** *** [find_any_chunk] *)

Lemma find_any_loop_Done (n : Z) (l : list Frames) (fuel : nat) (c : cursor Frames) :
  rb_iter (c_tree c) = l ->
  (if decide (c_pos c < length l)%nat then S (c_pos c) < fuel else 0 < fuel)%nat ->
  exists r, find_any_loop fuel n c = Done r /\
    match r with
    | Some (ch, cu) =>
        rb_iter (c_tree cu) = l /\ l !! c_pos cu = Some ch /\ big_enough_free n ch = true
    | None => forall j y, (j <= c_pos c)%nat -> (c_pos c < length l)%nat ->
                l !! j = Some y -> big_enough_free n y = false
    end.
Proof.
  revert c. induction fuel as [|fuel IH]; intros c Hl Hf; [case_decide; lia|]. simpl.
  rewrite get_spec, Hl. case_decide as Hd.
  - destruct (lookup_lt_is_Some_2 l (c_pos c) Hd) as [ch Hch]. rewrite Hch.
    destruct (big_enough_free n ch) eqn:Eb; [eexists; split; [done|]; simpl; by rewrite Hl|].
    destruct (IH (c_prev c)) as (r & Hr & Hspec).
    + by rewrite prev_tree.
    + rewrite prev_pos, Hl. destruct (c_pos c) as [|p]; case_decide; lia.
    + exists r. split; [done|]. destruct r as [[ch' cu']|]; [done|].
      intros j y Hj _ Hy. destruct (decide (j = c_pos c)) as [->|]; [congruence|].
      rewrite prev_pos, Hl in Hspec. destruct (c_pos c) as [|p]; [lia|].
      apply (Hspec j y); [lia|lia|done].
  - rewrite lookup_ge_None_2 by lia. eexists; split; [done|]. simpl. intros; lia.
Qed.

Lemma find_any_chunk_ok (ty : MemoryRegionType) (list : StaticArrayRBTree Frames) (nf : Z) r list' :
  find_any_chunk list nf = Done (r, list') ->
  Forall (fun c => frames_wf c /\ typ c = ty) (sa_iter list) ->
  (forall f, occ f (sa_iter list) <= 1) ->
  search_ok ty (fun rg => exists s, rg = alloc_range s nf) list r list'.
Proof.
  intros Hf Hall Hocc. unfold find_any_chunk in Hf. destruct list as [arr|t].
  - destruct (find_index _ arr) as [i|] eqn:E; [|by simplify_eq/=].
    apply find_index_Some in E as [([c|] & Hc & Hcov) _]; [|done]. rewrite Hc in Hf.
    eapply chosen_search_ok; try done. eauto.
  - destruct (find_any_loop_Done nf (rb_iter t) (S (length (rb_iter t))) (rb_last t))
      as (o & Ho & Hspec); [apply last_tree|rewrite last_pos; case_decide; lia|].
    rewrite Ho in Hf. simpl in Hf. destruct o as [[ch cu]|]; [|by simplify_eq/=].
    destruct Hspec as (Hit & Hch & _).
    eapply (chosen_search_ok _ _ _ _ (rb_iter t) ch); try done; [eauto|simpl; by rewrite Hit].
Qed.

(** *** Overlap scans *)

Section Scan.
Context {A : Type} `{KA : Keyed A} {aops : RBTreeOps A} {alaws : RBTreeLaws A aops}.
Context (rng : A -> ChunkRange) (Hkey : forall x, key x = r_start (rng x)).

Definition hits (frames : ChunkRange) (x : A) : Prop := overlap (rng x) frames <> None.

Lemma hits_iff (frames : ChunkRange) (x : A) :
  hits frames x <-> exists f, in_range f (rng x) /\ in_range f frames.
Proof.
  unfold hits. destruct (overlap (rng x) frames) as [o|] eqn:E.
  - apply overlap_Some in E. split; [|done]. intros _. exists (r_start o). unfold in_range. lia.
  - split; [done|]. intros (f & H1 & H2). exfalso. eapply overlap_None; eauto.
Qed.

Lemma scan_overlap_Done (frames : ChunkRange) (fuel : nat) (c : cursor A) :
  sorted (rb_iter (c_tree c)) ->
  (length (rb_iter (c_tree c)) - c_pos c < fuel)%nat ->
  exists b, scan_overlap rng fuel frames c = Done b /\
    (b = true <-> exists x, x ∈ drop (c_pos c) (rb_iter (c_tree c)) /\ hits frames x).
Proof.
  revert c. induction fuel as [|fuel IH]; intros c Hs Hf; [lia|]. simpl. rewrite get_spec.
  destruct (rb_iter (c_tree c) !! c_pos c) as [x|] eqn:E.
  - rewrite (drop_S _ _ _ E).
    destruct (Z.ltb_spec (r_end frames) (r_start (rng x))) as [Hlt|Hge].
    + exists false. split; [done|]. split; [done|]. intros (y & Hy & Hh). exfalso.
      assert (key x <= key y) as Hxy.
      { apply elem_of_cons in Hy as [->|Hy]; [done|].
        apply list_elem_of_lookup in Hy as [j Hj]. rewrite lookup_drop in Hj.
        eapply Hs; [|exact E|exact Hj]. lia. }
      rewrite !Hkey in Hxy. apply hits_iff in Hh as (f & H1 & H2). unfold in_range in *. lia.
    + destruct (overlap (rng x) frames) as [o|] eqn:Eo.
      * exists true. split; [done|]. split; [|done]. intros _. exists x.
        split; [left|]. unfold hits. by rewrite Eo.
      * destruct (IH (c_next c)) as (b & Hb & Hbs).
        { by rewrite next_tree. }
        { rewrite next_tree, next_pos. apply lookup_lt_Some in E. case_decide; lia. }
        exists b. split; [done|]. rewrite Hbs, next_tree, next_pos.
        apply lookup_lt_Some in E. rewrite decide_False by lia.
        split; intros (y & Hy & Hh); exists y; split; auto; [by right|].
        apply elem_of_cons in Hy as [->|Hy]; [|done]. unfold hits in Hh. by rewrite Eo in Hh.
  - exists false. split; [done|]. split; [done|].
    rewrite drop_ge by (by apply lookup_ge_None). intros (y & Hy & _). by inversion Hy.
Qed.

(** The chunks are nonempty and pairwise disjoint. *)
Definition separated (l : list A) : Prop :=
  Forall (fun x => wf_range (rng x)) l /\
  forall f, sum_of (fun x => Z.b2z (contains (rng x) f)) l <= 1.

Lemma separated_disjoint (l : list A) (i j : nat) (x y : A) (f : Z) :
  separated l -> i <> j -> l !! i = Some x -> l !! j = Some y ->
  in_range f (rng x) -> in_range f (rng y) -> False.
Proof.
  intros [_ Hd] Hij Hx Hy Hfx Hfy. specialize (Hd f).
  pose proof (sum_of_two (fun x => Z.b2z (contains (rng x) f)) l i j x y) as H. simpl in H.
  apply contains_iff in Hfx, Hfy. rewrite Hfx, Hfy in H.
  assert (forall z, 0 <= Z.b2z (contains (rng z) f)) as Hz
    by (intros z; destruct (contains (rng z) f); unfold Z.b2z; lia).
  specialize (H Hz Hij Hx Hy). change (Z.b2z true) with 1 in H. lia.
Qed.

(** The condition under which the tree scan looks at every chunk that could overlap:
    some chunk starts at or below the first frame. *)
Definition scan_covers (s : StaticArrayRBTree A) (start : Z) : Prop :=
  match s with
  | ArrayInner _ => True
  | TreeInner t => exists x, x ∈ rb_iter t /\ r_start (rng x) <= start
  end.

Lemma overlaps_any_Done (s : StaticArrayRBTree A) (frames : ChunkRange) :
  sa_sorted s -> exists b, overlaps_any rng s frames = Done b.
Proof.
  intros Hs. destruct s as [arr|t]; simpl; [eauto|].
  destruct (scan_overlap_Done frames (S (length (rb_iter t))) (rb_upper_bound (r_start frames) t))
    as (b & Hb & _); rewrite ?upper_bound_tree; eauto. lia.
Qed.

Lemma overlaps_any_spec (s : StaticArrayRBTree A) (frames : ChunkRange) (b : bool) :
  overlaps_any rng s frames = Done b ->
  sa_sorted s -> separated (sa_iter s) -> scan_covers s (r_start frames) ->
  b = true <-> exists x, x ∈ sa_iter s /\ hits frames x.
Proof.
  intros Hb Hs Hsep Hc.
  destruct s as [arr|t]; cbn [overlaps_any sa_sorted sa_iter scan_covers] in *.
  - simplify_eq. rewrite existsb_exists. setoid_rewrite <- list_elem_of_In. unfold hits.
    split; intros (x & Hx & Ho); exists x; (split; [done|]); destruct (overlap _ _); congruence.
  - destruct (scan_overlap_Done frames (S (length (rb_iter t))) (rb_upper_bound (r_start frames) t))
      as (b' & Hb' & Hspec); rewrite ?upper_bound_tree in *; [done|lia|].
    rewrite Hb' in Hb. simplify_eq. rewrite Hspec, upper_bound_pos by done.
    unfold upper_position. destruct (upper_pos (r_start frames) (rb_iter t)) as [i|] eqn:Ei; simpl.
    + destruct (upper_pos_Some _ _ _ Ei) as [(x & Hx & Hk) _].
      split; intros (y & Hy & Hh); exists y; split; auto.
      * apply list_elem_of_lookup in Hy as [j Hj]. rewrite lookup_drop in Hj.
        apply list_elem_of_lookup. eauto.
      * apply list_elem_of_lookup in Hy as [j Hj]. destruct (decide (i <= j)%nat) as [Hij|Hij].
        { apply list_elem_of_lookup. exists (j - i)%nat. rewrite lookup_drop.
          by replace (i + (j - i))%nat with j by lia. }
        exfalso. apply hits_iff in Hh as (f & H1 & H2).
        assert (key y <= key x) as Hyx by (eapply (Hs j i); eauto; lia).
        pose proof Hsep as [Hw _]. rewrite Forall_lookup in Hw. pose proof (Hw j y Hj) as [Hwy _]. pose proof (Hw i x Hx) as [Hwx _].
        rewrite !Hkey in *. unfold in_range in *.
        eapply (separated_disjoint _ j i y x (r_start (rng x)) Hsep); eauto;
          unfold in_range; lia.
    + exfalso. destruct Hc as (x & Hx & Hle). apply upper_pos_None in Ei.
      rewrite Forall_forall in Ei. specialize (Ei x Hx). simpl in Ei. rewrite Hkey in Ei. lia.
Qed.

End Scan.

(** *** Freeing *)

(** Freeing [x] into the sorted list [l] of disjoint chunks of type [ty] ... *)
Definition free_pre (ty : MemoryRegionType) (x : Frames) (l : list Frames) : Prop :=
  sorted l /\ Forall (fun c => frames_wf c /\ typ c = ty) l /\
  frames_wf x /\ typ x = ty /\ forall f, cin f x + occ f l <= 1.

(** ... gives [l']. *)
Definition freed (ty : MemoryRegionType) (x : Frames) (l l' : list Frames) : Prop :=
  sorted l' /\ Forall (fun c => frames_wf c /\ typ c = ty) l' /\
  forall f, occ f l' = cin f x + occ f l.

Lemma freed_insert (ty : MemoryRegionType) (x : Frames) (c : cursor Frames) :
  free_pre ty x (rb_iter (c_tree c)) ->
  freed ty x (rb_iter (c_tree c)) (rb_iter (c_tree (c_insert x c))).
Proof.
  intros (Hs & Hall & Hx & Hxt & Hocc). rewrite insert_tree.
  pose proof (rb_insert_perm x (c_tree c)) as HP. split_and!.
  - by apply rb_insert_sorted.
  - rewrite HP. by constructor.
  - intros f. rewrite HP. done.
Qed.

(** Merging with an adjacent chunk [nb] keeps the list sorted when the chunks before
    [nb] start at or below [x]. *)
Lemma freed_merge_list (ty : MemoryRegionType) (x nb : Frames) (l1 l2 : list Frames) :
  free_pre ty x (l1 ++ nb :: l2) ->
  chunk_add Page4K (fend x) 1 = fstart nb \/ chunk_add Page4K (fend nb) 1 = fstart x ->
  (forall y, y ∈ l1 -> key y <= fstart x) ->
  exists m, merge Page4K nb x = Ok m /\ freed ty x (l1 ++ nb :: l2) (l1 ++ m :: l2).
Proof.
  intros (Hs & Hall & Hx & Hxt & Hocc) Hadj Hl1.
  apply Forall_app in Hall as [F1 F2]. apply Forall_cons in F2 as [[Hnw Hnt] F2].
  assert (forall f, cin f nb + cin f x <= 1) as Hd.
  { intros f. specialize (Hocc f). autorewrite with maios in Hocc.
    pose proof (occ_nonneg f l1). pose proof (occ_nonneg f l2). lia. }
  destruct (merge_adjacent nb x Hnw Hx) as [m Hm]; [tauto|]. exists m. split; [done|].
  destruct (merge_Ok nb x m Hm Hnw Hx Hd) as (Hmw & Hmt & Hmc & Hms & _). split_and!.
  - pose proof Hs as Hs'. apply sorted_app in Hs' as (_ & Hc & H12).
    apply sorted_cons in Hc as [Hl2 _]. rewrite Forall_forall in Hl2.
    assert (key m = Z.min (key nb) (fstart x)) as Hk by exact Hms.
    eapply sorted_replace; [done| |]; intros y Hy; rewrite Hk.
    + specialize (Hl1 y Hy). specialize (H12 y nb Hy ltac:(left)). lia.
    + specialize (Hl2 y Hy). simpl in Hl2. lia.
  - apply Forall_app. split; [done|]. constructor; [|done]. split; congruence.
  - intros f. autorewrite with maios. rewrite Hmc. lia.
Qed.

Lemma freed_merge (ty : MemoryRegionType) (x nb : Frames) (c : cursor Frames) :
  free_pre ty x (rb_iter (c_tree c)) -> c_get c = Some nb ->
  chunk_add Page4K (fend x) 1 = fstart nb \/ chunk_add Page4K (fend nb) 1 = fstart x ->
  (forall j y, (j < c_pos c)%nat -> rb_iter (c_tree c) !! j = Some y -> key y <= fstart x) ->
  exists t', merge_at x c = Done t' /\ freed ty x (rb_iter (c_tree c)) (rb_iter t').
Proof.
  intros Hpre Hg Hadj Hlow. unfold merge_at.
  pose proof (remove_value c) as Hv. pose proof (remove_tree c) as Ht. pose proof (remove_pos c) as Hp.
  destruct (c_remove c) as [o c']. simpl in *. rewrite Hg in Hv. subst o. simpl.
  rewrite get_spec in Hg. apply list_elem_of_split_length in Hg as (l1 & l2 & El & Elen).
  rewrite El in *.
  destruct (freed_merge_list ty x nb l1 l2 Hpre Hadj) as (m & -> & Hfr).
  { intros y Hy. apply list_elem_of_lookup in Hy as [j Hj]. apply (Hlow j).
    - apply lookup_lt_Some in Hj. lia.
    - by apply lookup_app_l_Some. }
  eexists. split; [done|].
  rewrite insert_before_tree, Ht, Hp, Elen, delete_middle, take_app_length, drop_app_length. done.
Qed.

Lemma free_into_tree_Done (ty : MemoryRegionType) (x : Frames) (t : tree Frames) :
  free_pre ty x (rb_iter t) ->
  exists t', free_into_tree x t = Done t' /\ freed ty x (rb_iter t) (rb_iter t').
Proof.
  intros Hpre. unfold free_into_tree. set (cur := rb_lower_bound (fstart x) t).
  assert (rb_iter (c_tree cur) = rb_iter t) as Ht by apply lower_bound_tree.
  assert (c_pos cur = lower_position (fstart x) (rb_iter t)) as Hp
    by (apply lower_bound_pos; apply Hpre).
  assert (forall j y, (j < c_pos cur)%nat -> rb_iter t !! j = Some y -> key y <= fstart x) as Hlow.
  { intros j y Hj Hy. rewrite Hp in Hj. pose proof (lower_position_lt _ _ _ _ Hj Hy). lia. }
  rewrite <- Ht in *.
  assert (exists t', free_after_prev x cur = Done t' /\
            freed ty x (rb_iter (c_tree cur)) (rb_iter t')) as Hprev.
  { unfold free_after_prev.
    destruct (c_get (c_prev cur)) as [pv|] eqn:Epv; [|eauto using freed_insert].
    case_cmp; [|eauto using freed_insert].
    rewrite <- (prev_tree cur) in Hpre |- *. eapply freed_merge; eauto.
    intros j y Hj Hy. rewrite prev_tree in Hy. apply (Hlow j); [|done].
    rewrite prev_pos in Hj. destruct (c_pos cur) eqn:Ec; [|lia].
    rewrite get_spec, prev_tree, prev_pos, Ec in Epv. by rewrite lookup_ge_None_2 in Epv by lia. }
  destruct (c_get cur) as [nx|] eqn:Enx; [|done]. case_cmp; [|done].
  eapply freed_merge; eauto.
Qed.

Lemma free_into_list_ok (ty : MemoryRegionType) (x : Frames) (s : StaticArrayRBTree Frames) :
  sa_sorted s -> Forall (fun c => frames_wf c /\ typ c = ty) (sa_iter s) ->
  frames_wf x -> typ x = ty -> (forall f, cin f x + occ f (sa_iter s) <= 1) ->
  (has_room s -> is_done (free_into_list x s) = true) /\
  forall s', free_into_list x s = Done s' ->
    sa_sorted s' /\ Forall (fun c => frames_wf c /\ typ c = ty) (sa_iter s') /\
    forall f, occ f (sa_iter s') = cin f x + occ f (sa_iter s).
Proof.
  intros Hs Hall Hx Hxt Hocc. unfold free_into_list. destruct s as [arr|t].
  - split.
    + intros Hr. destruct (sa_insert_room x (ArrayInner arr) Hr) as [s' ->]. done.
    + intros s' Hs'. destruct (sa_insert x (ArrayInner arr)) as [z|] eqn:E; [|done].
      cbn [unwrap] in Hs'. injection Hs' as ->. apply sa_insert_Ok in E as [HP Hso]. split_and!; [auto| |].
      * rewrite HP. by constructor.
      * intros f. rewrite HP. done.
  - destruct (free_into_tree_Done ty x t) as (t' & -> & Hfr); [done|]. split; [done|].
    intros s' Hs'. simplify_eq/=. done.
Qed.

End Conservation.

(** *** Splitting owned frames *)

(** A chunk or an empty range, of any type: what an owner of frames can hold. *)
Definition owned_ok (c : Frames) : Prop := frame_range c = range_empty \/ frames_wf c.

Lemma cin_range_empty (f : Z) (c : Frames) : frame_range c = range_empty -> cin f c = 0.
Proof. intros H. unfold cin. rewrite H. apply (cin_empty f). Qed.

Lemma split_at_Ok (c a b : Frames) (at_frame : Z) :
  split_at Page4K c at_frame = Ok (a, b) -> owned_ok c -> valid_chunk at_frame ->
  owned_ok a /\ owned_ok b /\ typ a = typ c /\ typ b = typ c /\
  forall f, cin f c = cin f a + cin f b.
Proof.
  intros Hs Hc Hat. unfold split_at in Hs.
  destruct (is_empty (frame_range c)) eqn:Ee; [done|]. simpl in Hs.
  destruct Hc as [Hc|[Hc1 Hc2]]; [by rewrite Hc in Ee|].
  unfold valid_chunk in Hat. rewrite chunk_sub_4k, chunk_add_4k in Hs by (unfold fend; alloc_consts; lia).
  unfold owned_ok, frames_wf, wf_range, cin, contains, fstart, fend in *.
  repeat match type of Hs with
  | (if ?b then _ else _) = _ => destruct b eqn:?; simplify_eq/=; bool_to_prop
  end; split_and!; auto; try (right; lia); intros f; case_cmp; simpl; lia.
Qed.
