(* ===== verification/FrameAllocSafety.v ===== *)
(** * The physical frame allocator: exclusive ownership

    The allocator and its clients as a transition system: the allocator's lists, the
    [Frames] objects handed out, and the deferred actions not yet dropped.  The steps
    are the allocator's entry points and what an owner can do with its frames, in any
    order.  The invariant says that no frame is in two places; it is proved to hold in
    every reachable state. *)

From S2P Require Import Prelude MemStructs RBTree FrameAlloc FrameAllocLemmas.

Section Safety.
Context {fops : RBTreeOps Frames} {flaws : RBTreeLaws Frames fops}.
Context {rops : RBTreeOps PhysicalMemoryRegion} {rlaws : RBTreeLaws PhysicalMemoryRegion rops}.

(** ** The transition system *)

Record Config := mkConfig {
  c_alloc : FrameAllocator;
  c_out : list Frames;
  c_pend : list DeferredAllocAction;
}.

Definition pieces (l : list DeferredAllocAction) : list Frames :=
  flat_map (fun d => [free1 d; free2 d]) l.
Arguments pieces : simpl never.

(** Every place a frame can be in. *)
Definition all_chunks (c : Config) : list Frames :=
  sa_iter (free_general (c_alloc c)) ++ sa_iter (free_reserved (c_alloc c)) ++
  c_out c ++ pieces (c_pend c).

(** The requests for which the region check of [contains_any] is complete.  The allocator
    has no such guard: see [contains_any_blind] and [low_request_double_allocates] for
    what happens otherwise. *)
Definition request_ok (paddr : option Z) (num : Z) (st : FrameAllocator) : Prop :=
  0 <= num <= U64_MAX /\
  match paddr with
  | None => True
  | Some p => in_u64 p /\
      scan_covers pr_frames (general_regions st) (containing_address p) /\
      scan_covers pr_frames (reserved_regions st) (containing_address p)
  end.

Inductive step : Config -> Config -> Prop :=
| step_alloc paddr num st out pend af d st' :
    request_ok paddr num st ->
    allocate_frames_deferred paddr num st = Done (Ok (af, d), st') ->
    step (mkConfig st out pend) (mkConfig st' (af :: out) (d :: pend))
| step_alloc_fail paddr num st out pend e st' :
    request_ok paddr num st ->
    allocate_frames_deferred paddr num st = Done (Err e, st') ->
    step (mkConfig st out pend) (mkConfig st' out pend)
| step_deferred st out p1 d p2 st' :
    drop_deferred d st = Done st' ->
    step (mkConfig st out (p1 ++ d :: p2)) (mkConfig st' out (p1 ++ p2))
| step_drop S st o1 af o2 pend st' :
    drop_frames S Page4K af st = Done st' ->
    step (mkConfig st (o1 ++ af :: o2) pend) (mkConfig st' (o1 ++ o2) pend)
| step_split st o1 af o2 pend at_frame a b :
    valid_chunk at_frame -> split_at Page4K af at_frame = Ok (a, b) ->
    step (mkConfig st (o1 ++ af :: o2) pend) (mkConfig st (o1 ++ a :: b :: o2) pend)
| step_merge st o1 af bf o2 pend m :
    merge Page4K af bf = Ok m ->
    step (mkConfig st (af :: o1 ++ bf :: o2) pend) (mkConfig st (m :: o1 ++ o2) pend)
| step_convert st out pend :
    step (mkConfig st out pend)
         (mkConfig (convert_frame_allocator_to_heap_based st) out pend).

(** ** The invariant *)

Definition covered (f : Z) (regions : list PhysicalMemoryRegion) : Prop :=
  exists r, r ∈ regions /\ in_range f (pr_frames r).

Definition chunks_of (ty : MemoryRegionType) (l : list Frames) : Prop :=
  Forall (fun c => frames_wf c /\ typ c = ty) l.

(** What an owner holds: a chunk or an empty range of a known type. *)
Definition held_ok (c : Frames) : Prop := owned_ok c /\ typ c <> TyUnknown.

Record lists_ok (st : FrameAllocator) : Prop := {
  lo_general : chunks_of TyFree (sa_iter (free_general st));
  lo_reserved : chunks_of TyReserved (sa_iter (free_reserved st));
  lo_sorted_general : sa_sorted (free_general st);
  lo_sorted_reserved : sa_sorted (free_reserved st);
  lo_sorted_gregions : sa_sorted (general_regions st);
  lo_sorted_rregions : sa_sorted (reserved_regions st);
  lo_gregions : separated pr_frames (sa_iter (general_regions st));
  lo_rregions : separated pr_frames (sa_iter (reserved_regions st));
}.

Record inv (c : Config) : Prop := {
  inv_lists : lists_ok (c_alloc c);
  inv_out : Forall held_ok (c_out c);
  inv_pend : Forall (fun p => piece_ok TyFree p \/ piece_ok TyReserved p) (pieces (c_pend c));
  inv_occ : forall f, occ f (all_chunks c) <= 1;
  inv_cover : forall f, 0 < occ f (all_chunks c) ->
    covered f (sa_iter (general_regions (c_alloc c))) \/
    covered f (sa_iter (reserved_regions (c_alloc c)));
}.

(** ** Preservation *)

Lemma pieces_cons (d : DeferredAllocAction) (l : list DeferredAllocAction) :
  pieces (d :: l) = free1 d :: free2 d :: pieces l.
Proof. done. Qed.

Lemma pieces_app (l1 l2 : list DeferredAllocAction) : pieces (l1 ++ l2) = pieces l1 ++ pieces l2.
Proof. apply flat_map_app. Qed.

Lemma occ_all (f : Z) (c : Config) :
  occ f (all_chunks c) =
    occ f (sa_iter (free_general (c_alloc c))) + occ f (sa_iter (free_reserved (c_alloc c))) +
    occ f (c_out c) + occ f (pieces (c_pend c)).
Proof. unfold all_chunks. autorewrite with maios. lia. Qed.

Lemma chunks_of_incl (ty : MemoryRegionType) (l l' : list Frames) :
  chunks_of ty l -> (forall c, c ∈ l' -> c ∈ l) -> chunks_of ty l'.
Proof. unfold chunks_of. rewrite !Forall_forall. auto. Qed.

(** Both free lists have at most one chunk for a frame. *)
Lemma inv_occ_lists (c : Config) :
  inv c ->
  (forall f, occ f (sa_iter (free_general (c_alloc c))) <= 1) /\
  (forall f, occ f (sa_iter (free_reserved (c_alloc c))) <= 1).
Proof.
  intros Hi. split; intros f; pose proof (inv_occ c Hi f) as H; rewrite occ_all in H;
    pose proof (occ_nonneg f (sa_iter (free_general (c_alloc c))));
    pose proof (occ_nonneg f (sa_iter (free_reserved (c_alloc c))));
    pose proof (occ_nonneg f (c_out c)); pose proof (occ_nonneg f (pieces (c_pend c))); lia.
Qed.

(** The counting part of the invariant only depends on the total count and on the
    regions. *)
Lemma inv_intro (c c' : Config) :
  inv c -> lists_ok (c_alloc c') -> Forall held_ok (c_out c') ->
  Forall (fun p => piece_ok TyFree p \/ piece_ok TyReserved p) (pieces (c_pend c')) ->
  (forall r, r ∈ sa_iter (general_regions (c_alloc c)) ->
     r ∈ sa_iter (general_regions (c_alloc c'))) ->
  (forall r, r ∈ sa_iter (reserved_regions (c_alloc c)) ->
     r ∈ sa_iter (reserved_regions (c_alloc c'))) ->
  (forall f, occ f (all_chunks c') = occ f (all_chunks c)) -> inv c'.
Proof.
  intros Hi Hl Ho Hp Hg Hr Hocc. split; auto.
  - intros f. rewrite Hocc. by apply inv_occ.
  - intros f Hf. rewrite Hocc in Hf. destruct (inv_cover c Hi f Hf) as [(r & ? & ?)|(r & ? & ?)].
    + left. exists r. auto.
    + right. exists r. auto.
Qed.

Lemma alloc_ok_held (ty : MemoryRegionType) l l' af d :
  alloc_ok ty l l' af d -> ty <> TyUnknown -> held_ok af.
Proof. intros [] Hty. split; [by right|congruence]. Qed.

(** Allocating from the general list. *)
Lemma inv_alloc_general (st : FrameAllocator) out pend r gl range :
  inv (mkConfig st out pend) ->
  search_ok TyFree range (free_general st) r gl ->
  match r with
  | Ok (af, d) => inv (mkConfig (set_free_general gl st) (af :: out) (d :: pend))
  | Err _ => inv (mkConfig (set_free_general gl st) out pend)
  end.
Proof.
  intros Hi Hs. destruct r as [[af d]|e]; simpl in Hs.
  - destruct Hs as (_ & Hok & Hso). destruct Hi as [[] Ho Hp Hocc Hcov] eqn:Ei. clear Ei.
    eapply (inv_intro (mkConfig st out pend)); simpl; auto.
    + split; simpl; auto. eapply chunks_of_incl; [done|]. apply Hok.
    + constructor; [|done]. by eapply alloc_ok_held.
    + rewrite pieces_cons. constructor; [left; apply Hok|]. constructor; [left; apply Hok|done].
    + intros f. rewrite !occ_all. simpl. rewrite pieces_cons. autorewrite with maios.
      pose proof (ao_occ _ _ _ _ _ Hok f). lia.
  - subst gl. destruct st; done.
Qed.

(** Allocating from the reserved list. *)
Lemma inv_alloc_reserved (st : FrameAllocator) out pend r rl range :
  inv (mkConfig st out pend) ->
  search_ok TyReserved range (free_reserved st) r rl ->
  match r with
  | Ok (af, d) => inv (mkConfig (set_free_reserved rl st) (af :: out) (d :: pend))
  | Err _ => inv (mkConfig (set_free_reserved rl st) out pend)
  end.
Proof.
  intros Hi Hs. destruct r as [[af d]|e]; simpl in Hs.
  - destruct Hs as (_ & Hok & Hso). destruct Hi as [[] Ho Hp Hocc Hcov] eqn:Ei. clear Ei.
    eapply (inv_intro (mkConfig st out pend)); simpl; auto.
    + split; simpl; auto. eapply chunks_of_incl; [done|]. apply Hok.
    + constructor; [|done]. by eapply alloc_ok_held.
    + rewrite pieces_cons. constructor; [right; apply Hok|]. constructor; [right; apply Hok|done].
    + intros f. rewrite !occ_all. simpl. rewrite pieces_cons. autorewrite with maios.
      pose proof (ao_occ _ _ _ _ _ Hok f). lia.
  - subst rl. destruct st; done.
Qed.

(** *** Adding a reserved region *)

Lemma region_key (r : PhysicalMemoryRegion) : key r = r_start (pr_frames r).
Proof. done. Qed.

Lemma contains_any_false (s : StaticArrayRBTree PhysicalMemoryRegion) (frames : ChunkRange) (f : Z) :
  contains_any s frames = Done false ->
  sa_sorted s -> separated pr_frames (sa_iter s) -> scan_covers pr_frames s (r_start frames) ->
  in_range f frames -> ~ covered f (sa_iter s).
Proof.
  intros Hc Hs Hsep Hsc Hf (r & Hr & Hfr).
  pose proof (overlaps_any_spec pr_frames region_key _ _ _ Hc Hs Hsep Hsc) as [_ H].
  discriminate H. exists r. split; [done|]. apply hits_iff. eauto.
Qed.

Lemma separated_Permutation {A} (rng : A -> ChunkRange) (l l' : list A) :
  Permutation l l' -> separated rng l -> separated rng l'.
Proof.
  intros HP [Hw Hd]. split; [by rewrite <- HP|]. intros f. rewrite <- HP. auto.
Qed.

Lemma separated_add (regions : list PhysicalMemoryRegion) (x : PhysicalMemoryRegion) :
  separated pr_frames regions -> wf_range (pr_frames x) ->
  (forall f, in_range f (pr_frames x) -> ~ covered f regions) ->
  separated pr_frames (x :: regions).
Proof.
  intros [Hw Hd] Hx Hn. split; [by constructor|]. intros f. simpl. specialize (Hd f).
  destruct (contains (pr_frames x) f) eqn:E; simpl; [|lia].
  rewrite sum_of_all_zero; [lia|]. apply Forall_forall. intros r Hr.
  destruct (contains (pr_frames r) f) eqn:E'; [|done]. exfalso.
  apply contains_iff in E, E'. apply (Hn f E). by exists r.
Qed.

Lemma scan_covers_mono (s : StaticArrayRBTree PhysicalMemoryRegion) (a b : Z) :
  scan_covers pr_frames s a -> a <= b -> scan_covers pr_frames s b.
Proof. destruct s as [arr|t]; simpl; [done|]. intros (x & Hx & ?) ?. exists x. split; [done|lia]. Qed.

(** [add_reserved_region_to_lists] extends both lists, or changes nothing. *)
Lemma add_reserved_Done regions fl frames res regions' fl' :
  add_reserved_region_to_lists regions fl frames = Done (res, (regions', fl')) ->
  match res with
  | Err _ => regions' = regions /\ fl' = fl
  | Ok r => r = frames /\ contains_any regions frames = Done false /\
      Permutation (sa_iter regions') (mkRegion frames TyReserved :: sa_iter regions) /\
      (sa_sorted regions -> sa_sorted regions') /\
      Permutation (sa_iter fl') (mkFrames TyReserved frames :: sa_iter fl) /\
      (sa_sorted fl -> sa_sorted fl')
  end.
Proof.
  unfold add_reserved_region_to_lists. intros H.
  destruct (contains_any regions frames) as [b|]; [|done]. simpl in H.
  destruct b; [by simplify_eq|].
  destruct (overlaps_any frame_range fl frames) as [b|]; [|done]. simpl in H.
  destruct b; [by simplify_eq|].
  destruct (sa_insert (mkRegion frames TyReserved) regions) as [rs|] eqn:E1; [|by simplify_eq].
  destruct (sa_insert (mkFrames TyReserved frames) fl) as [fs|] eqn:E2; simplify_eq.
  apply sa_insert_Ok in E1 as [? ?]. apply sa_insert_Ok in E2 as [? ?]. done.
Qed.

Lemma inv_add_reserved (st : FrameAllocator) out pend frames r regions' fl' :
  inv (mkConfig st out pend) -> wf_range frames ->
  contains_any (general_regions st) frames = Done false ->
  scan_covers pr_frames (general_regions st) (r_start frames) ->
  scan_covers pr_frames (reserved_regions st) (r_start frames) ->
  add_reserved_region_to_lists (reserved_regions st) (free_reserved st) frames =
    Done (r, (regions', fl')) ->
  inv (mkConfig (mkAllocator (free_general st) fl' (general_regions st) regions') out pend).
Proof.
  intros Hi Hw Hg Hsg Hsr Ha. pose proof Hi as [[] Ho Hp Hocc Hcov]. simpl in *.
  apply add_reserved_Done in Ha. destruct r as [x|e].
  - destruct Ha as (-> & Hr & HPr & Hsr' & HPf & Hsf').
    assert (forall f, in_range f frames -> occ f (all_chunks (mkConfig st out pend)) = 0) as Hz.
    { intros f Hf. pose proof (occ_nonneg f (all_chunks (mkConfig st out pend))).
      destruct (decide (0 < occ f (all_chunks (mkConfig st out pend)))) as [Hpos|]; [|lia].
      destruct (Hcov f Hpos) as [Hc|Hc]; exfalso.
      - by eapply (contains_any_false _ _ f Hg).
      - by eapply (contains_any_false _ _ f Hr). }
    assert (forall f, occ f (all_chunks (mkConfig (mkAllocator (free_general st) fl'
               (general_regions st) regions') out pend)) =
             Z.b2z (contains frames f) + occ f (all_chunks (mkConfig st out pend))) as Hocc'.
    { intros f. rewrite !occ_all. simpl. rewrite HPf. autorewrite with maios.
      unfold cin; simpl. lia. }
    split; simpl; auto.
    + split; simpl; auto.
      * unfold chunks_of. rewrite HPf. by constructor.
      * eapply separated_Permutation; [by symmetry|]. apply separated_add; [done|done|].
        intros f Hf. by apply (contains_any_false _ _ f Hr).
    + intros f. rewrite Hocc'. destruct (contains frames f) eqn:E; simpl; [|apply Hocc].
      apply contains_iff in E. rewrite Hz by done. lia.
    + intros f Hf. rewrite Hocc' in Hf. destruct (contains frames f) eqn:E.
      * right. exists (mkRegion frames TyReserved). split; [rewrite HPr; left|].
        by apply contains_iff in E.
      * simpl in Hf. destruct (Hcov f Hf) as [|(y & Hy & ?)]; [by left|].
        right. exists y. split; [rewrite HPr; by right|done].
  - destruct Ha as [-> ->]. destruct st; done.
Qed.

(** *** Allocation *)

(** The result of an allocation step applied to a configuration. *)
Definition after_alloc {E} (r : result (Frames * DeferredAllocAction) E) (st : FrameAllocator)
    out pend : Config :=
  match r with
  | Ok (af, d) => mkConfig st (af :: out) (d :: pend)
  | Err _ => mkConfig st out pend
  end.

Lemma inv_find_reserved (st : FrameAllocator) out pend rf nf r rl :
  inv (mkConfig st out pend) ->
  find_specific_chunk (free_reserved st) rf nf = Done (r, rl) ->
  inv (after_alloc r (set_free_reserved rl st) out pend).
Proof.
  intros Hi Hf. pose proof (inv_occ_lists _ Hi) as [_ Ho].
  eapply find_specific_chunk_ok in Hf; [|apply Hi|done].
  pose proof (inv_alloc_reserved st out pend r rl _ Hi Hf) as H. by destruct r as [[]|].
Qed.

Lemma inv_find_general (st : FrameAllocator) out pend rf nf r gl :
  inv (mkConfig st out pend) ->
  find_specific_chunk (free_general st) rf nf = Done (r, gl) ->
  inv (after_alloc r (set_free_general gl st) out pend).
Proof.
  intros Hi Hf. pose proof (inv_occ_lists _ Hi) as [Ho _].
  eapply find_specific_chunk_ok in Hf; [|apply Hi|done].
  pose proof (inv_alloc_general st out pend r gl _ Hi Hf) as H. by destruct r as [[]|].
Qed.

Lemma inv_allocate_new_reserved (st : FrameAllocator) out pend sf nf rs rn r st' :
  inv (mkConfig st out pend) -> valid_chunk rs ->
  scan_covers pr_frames (general_regions st) rs -> scan_covers pr_frames (reserved_regions st) rs ->
  allocate_new_reserved sf nf rs rn st = Done (r, st') ->
  inv (after_alloc r st' out pend).
Proof.
  intros Hi Hrs Hsg Hsr Ha. unfold allocate_new_reserved in Ha.
  pose proof (wrap64_in (rn - 1)) as Hwn.
  set (frames := mkRange rs (chunk_add Page4K rs (wrap64 (rn - 1)))) in *.
  assert (wf_range frames) as Hw.
  { unfold valid_chunk in Hrs. unfold wf_range, frames; simpl.
    rewrite chunk_add_4k by (unfold in_u64 in Hwn; lia). unfold in_u64 in Hwn. lia. }
  destruct (contains_any (general_regions st) frames) as [b|] eqn:Eg; [|done]. simpl in Ha.
  destruct b; [by simplify_eq|].
  destruct (add_reserved_region_to_lists _ _ frames) as [[added [regions' fl']]|] eqn:Ea; [|done].
  simpl in Ha. pose proof (inv_add_reserved st out pend frames added regions' fl' Hi Hw Eg Hsg Hsr Ea) as Hi'.
  destruct added as [x|e]; [|by simplify_eq].
  destruct (find_specific_chunk fl' sf nf) as [[r' l']|] eqn:Ef; [|done]. simplify_eq/=.
  pose proof (inv_find_reserved _ out pend sf nf r' l' Hi' Ef) as H. by destruct r' as [[]|].
Qed.

(** A [ContiguousChunkNotFound] error names the frame after a chunk that contains the
    requested one. *)
Lemma find_specific_contiguous (l : StaticArrayRBTree Frames) (rf nf f n : Z) l' :
  find_specific_chunk l rf nf = Done (Err (ContiguousChunkNotFound f n), l') ->
  Forall frames_wf (sa_iter l) -> rf <= f <= MAX_PAGE_NUMBER /\ 0 <= f.
Proof.
  intros Hf Hw. unfold find_specific_chunk in Hf. destruct l as [arr|t].
  - destruct (find_index _ arr); [|by simplify_eq].
    apply alloc_done_Done in Hf as (? & ? & _). done.
  - destruct (c_get _) as [chunk|] eqn:Eg in Hf; [|by simplify_eq].
    rewrite get_spec, upper_bound_tree in Eg.
    destruct (contains _ _) eqn:Ec in Hf; [|by simplify_eq].
    destruct (_ <=? _) in Hf; [apply alloc_done_Done in Hf as (? & ? & _); done|].
    destruct (c_get _) as [nx|] in Hf.
    + destruct (_ =? _) in Hf; [|by simplify_eq]. destruct (_ <=? _) in Hf; [|done].
      destruct (c_remove _) as [[nc|] ?] in Hf; [|by simplify_eq].
      apply alloc_done_Done in Hf as (? & ? & _). done.
    + simplify_eq. rewrite Forall_lookup in Hw. destruct (Hw _ _ Eg) as [? ?].
      apply contains_iff in Ec. unfold in_range in Ec.
      rewrite chunk_add_4k by (unfold fend, U64_MAX; lia). unfold fend. lia.
Qed.

Lemma chunks_of_wf (ty : MemoryRegionType) (l : list Frames) :
  chunks_of ty l -> Forall frames_wf l.
Proof. intros H. eapply Forall_impl; [exact H|]. by intros ? [? _]. Qed.

Lemma inv_allocate (st : FrameAllocator) out pend paddr num r st' :
  inv (mkConfig st out pend) -> request_ok paddr num st ->
  allocate_frames_deferred paddr num st = Done (r, st') ->
  inv (after_alloc r st' out pend).
Proof.
  intros Hi [Hn Hreq] Ha. unfold allocate_frames_deferred in Ha.
  destruct (num =? 0); [by simplify_eq|]. destruct paddr as [p|].
  - destruct Hreq as (Hp & Hsg & Hsr). apply containing_address_valid in Hp as Hv.
    set (sf := containing_address p) in *.
    destruct (find_specific_chunk (free_reserved st) sf num) as [[r1 rl]|] eqn:E1; [|done].
    cbn [outcome_bind] in Ha. pose proof (inv_find_reserved _ out pend _ _ _ _ Hi E1) as Hi1.
    destruct r1 as [[af d]|[| | |f n]]; [by simplify_eq|by simplify_eq| |by simplify_eq|].
    + cbn [after_alloc] in Hi1. set (st1 := set_free_reserved rl st) in *.
      destruct (find_specific_chunk (free_general st1) sf num) as [[r2 gl]|] eqn:E2; [|done].
      cbn [outcome_bind] in Ha. pose proof (inv_find_general _ out pend _ _ _ _ Hi1 E2) as Hi2.
      destruct r2 as [[af d]|[| | |]]; try by simplify_eq.
      eapply inv_allocate_new_reserved in Ha; eauto.
    + cbn [after_alloc] in Hi1.
      eapply find_specific_contiguous in E1 as [Hrf Hf0]; [|eapply chunks_of_wf, Hi].
      eapply inv_allocate_new_reserved in Ha; eauto; [unfold valid_chunk; lia| |];
        eapply scan_covers_mono; eauto; simpl; lia.
  - destruct (find_any_chunk (free_general st) num) as [[r1 gl]|] eqn:E1; [|done].
    simplify_eq/=. pose proof (inv_occ_lists _ Hi) as [Ho _].
    eapply find_any_chunk_ok in E1; [|apply Hi|done].
    pose proof (inv_alloc_general st out pend r1 gl _ Hi E1) as H. by destruct r1 as [[]|].
Qed.

(** *** Deallocation *)

Lemma lists_ok_general (st : FrameAllocator) (l : StaticArrayRBTree Frames) :
  lists_ok st -> sa_sorted l -> chunks_of TyFree (sa_iter l) -> lists_ok (set_free_general l st).
Proof. intros [] ? ?. split; auto. Qed.

Lemma lists_ok_reserved (st : FrameAllocator) (l : StaticArrayRBTree Frames) :
  lists_ok st -> sa_sorted l -> chunks_of TyReserved (sa_iter l) -> lists_ok (set_free_reserved l st).
Proof. intros [] ? ?. split; auto. Qed.

(** What putting the frames [x] back into the allocator promises. *)
Record returned (x : Frames) (st st' : FrameAllocator) : Prop := {
  rt_lists : lists_ok st';
  rt_gregions : general_regions st' = general_regions st;
  rt_rregions : reserved_regions st' = reserved_regions st;
  rt_occ : forall f, occ f (sa_iter (free_general st')) + occ f (sa_iter (free_reserved st')) =
    cin f x + occ f (sa_iter (free_general st)) + occ f (sa_iter (free_reserved st));
}.

Lemma returned_nothing (x : Frames) (st : FrameAllocator) :
  lists_ok st -> (forall f, cin f x = 0) -> returned x st st.
Proof. intros H Hz. split; auto. intros f. rewrite Hz. lia. Qed.

Lemma empty_size_zero (r : ChunkRange) : r = range_empty -> size_in_chunks Page4K r = 0.
Proof. intros ->. reflexivity. Qed.

Lemma free_list_ok (ty : MemoryRegionType) (x : Frames) (l l' : StaticArrayRBTree Frames) :
  free_into_list x l = Done l' -> sa_sorted l -> chunks_of ty (sa_iter l) ->
  frames_wf x -> typ x = ty -> (forall f, cin f x + occ f (sa_iter l) <= 1) ->
  sa_sorted l' /\ chunks_of ty (sa_iter l') /\
  forall f, occ f (sa_iter l') = cin f x + occ f (sa_iter l).
Proof. intros Hf ? ? ? ? ?. eapply free_into_list_ok; eauto. Qed.

Lemma drop_free_ok (x : Frames) (st st' : FrameAllocator) :
  drop_free Page4K x st = Done st' -> lists_ok st -> held_ok x ->
  (forall f, cin f x + occ f (sa_iter (free_general st)) + occ f (sa_iter (free_reserved st)) <= 1) ->
  returned x st st'.
Proof.
  intros Hd Hl [[He|Hw] Ht] Hocc; unfold drop_free in Hd.
  { rewrite (empty_size_zero _ He) in Hd. simpl in Hd. simplify_eq.
    apply returned_nothing; [done|]. intros f. by apply cin_range_empty. }
  destruct (_ =? 0) eqn:E.
  { rewrite size_4k in E by (destruct Hw; lia). bool_to_prop. destruct Hw; lia. }
  rewrite into_4k_4k in Hd by done. cbn [typ] in Hd.
  replace (mkFrames (typ x) (frame_range x)) with x in Hd by (by destruct x).
  pose proof (fun f => occ_nonneg f (sa_iter (free_general st))) as Hg0.
  pose proof (fun f => occ_nonneg f (sa_iter (free_reserved st))) as Hr0.
  destruct (bool_decide (typ x = TyReserved)) eqn:Ety; bool_to_prop.
  - destruct (free_into_list x (free_reserved st)) as [l|] eqn:El; [|done]. simplify_eq/=.
    eapply (free_list_ok TyReserved) in El as (Hs & Hc & Ho); [|apply Hl|apply Hl|done|done|].
    + split; auto using lists_ok_reserved. intros f. simpl. rewrite Ho. lia.
    + intros f. specialize (Hocc f). specialize (Hg0 f). lia.
  - assert (typ x = TyFree) by (destruct (typ x); congruence).
    destruct (free_into_list x (free_general st)) as [l|] eqn:El; [|done]. simplify_eq/=.
    eapply (free_list_ok TyFree) in El as (Hs & Hc & Ho); [|apply Hl|apply Hl|done|done|].
    + split; auto using lists_ok_general. intros f. simpl. rewrite Ho. lia.
    + intros f. specialize (Hocc f). specialize (Hr0 f). lia.
Qed.

Lemma insert_deferred_ok (x : Frames) (st st' : FrameAllocator) :
  insert_deferred x st = Done st' -> lists_ok st ->
  piece_ok TyFree x \/ piece_ok TyReserved x -> returned x st st'.
Proof.
  intros Hd Hl Hp. unfold insert_deferred in Hd.
  assert (x = frames_empty \/ (frames_wf x /\ (typ x = TyFree \/ typ x = TyReserved))) as [->|[Hw Ht]].
  { unfold piece_ok in Hp. destruct Hp as [[|[]]|[|[]]]; auto. }
  { simpl in Hd. simplify_eq. apply returned_nothing; [done|]. apply cin_empty. }
  destruct (0 <? fsize x) eqn:E.
  2:{ unfold fsize in E. rewrite size_4k in E by (destruct Hw; lia). bool_to_prop. destruct Hw; lia. }
  destruct Ht as [Ht|Ht]; rewrite Ht in Hd.
  - destruct (sa_insert x (free_general st)) as [l|] eqn:El; [|done]. simplify_eq/=.
    apply sa_insert_Ok in El as [HP Hs]. split; simpl; auto.
    + apply lists_ok_general; [done|apply Hs, Hl|]. unfold chunks_of. rewrite HP.
      constructor; [done|apply Hl].
    + intros f. rewrite HP, occ_cons. lia.
  - destruct (sa_insert x (free_reserved st)) as [l|] eqn:El; [|done]. simplify_eq/=.
    apply sa_insert_Ok in El as [HP Hs]. split; simpl; auto.
    + apply lists_ok_reserved; [done|apply Hs, Hl|]. unfold chunks_of. rewrite HP.
      constructor; [done|apply Hl].
    + intros f. rewrite HP, occ_cons. lia.
Qed.

(** *** The steps preserve the invariant *)

Lemma inv_returned (st st' : FrameAllocator) out pend out' pend' x :
  inv (mkConfig st out pend) -> returned x st st' ->
  Forall held_ok out' ->
  Forall (fun p => piece_ok TyFree p \/ piece_ok TyReserved p) (pieces pend') ->
  (forall f, occ f out + occ f (pieces pend) = cin f x + occ f out' + occ f (pieces pend')) ->
  inv (mkConfig st' out' pend').
Proof.
  intros Hi [Hl Hg Hr Ho] Hout Hpend Hocc.
  eapply (inv_intro (mkConfig st out pend)); simpl; auto; rewrite ?Hg, ?Hr; auto.
  intros f. rewrite !occ_all. simpl. specialize (Ho f). specialize (Hocc f). lia.
Qed.

Lemma convert_ok (st : FrameAllocator) :
  lists_ok st ->
  lists_ok (convert_frame_allocator_to_heap_based st) /\
  Permutation (sa_iter (free_general (convert_frame_allocator_to_heap_based st)))
    (sa_iter (free_general st)) /\
  Permutation (sa_iter (free_reserved (convert_frame_allocator_to_heap_based st)))
    (sa_iter (free_reserved st)) /\
  Permutation (sa_iter (general_regions (convert_frame_allocator_to_heap_based st)))
    (sa_iter (general_regions st)) /\
  Permutation (sa_iter (reserved_regions (convert_frame_allocator_to_heap_based st)))
    (sa_iter (reserved_regions st)).
Proof.
  intros []. unfold convert_frame_allocator_to_heap_based; simpl.
  destruct (convert_spec _ lo_sorted_general0) as [P1 S1].
  destruct (convert_spec _ lo_sorted_reserved0) as [P2 S2].
  destruct (convert_spec _ lo_sorted_gregions0) as [P3 S3].
  destruct (convert_spec _ lo_sorted_rregions0) as [P4 S4].
  split; [|done]. unfold chunks_of in *. split; simpl; unfold chunks_of; rewrite ?P1, ?P2; auto.
  - eapply separated_Permutation; [by symmetry|done].
  - eapply separated_Permutation; [by symmetry|done].
Qed.

Lemma occ_middle (f : Z) (x : Frames) (l1 l2 : list Frames) :
  occ f (l1 ++ x :: l2) = cin f x + occ f (l1 ++ l2).
Proof. autorewrite with maios. lia. Qed.

Lemma inv_occ_held (st : FrameAllocator) out pend x :
  inv (mkConfig st out pend) -> (forall f, cin f x <= occ f out + occ f (pieces pend)) ->
  forall f, cin f x + occ f (sa_iter (free_general st)) + occ f (sa_iter (free_reserved st)) <= 1.
Proof.
  intros Hi Hx f. pose proof (inv_occ _ Hi f) as H. rewrite occ_all in H. simpl in H.
  specialize (Hx f). lia.
Qed.

Lemma step_drop_inv S (st : FrameAllocator) o1 af o2 pend st' :
  inv (mkConfig st (o1 ++ af :: o2) pend) -> drop_frames S Page4K af st = Done st' ->
  inv (mkConfig st' (o1 ++ o2) pend).
Proof.
  intros Hi Hd. pose proof (inv_out _ Hi) as Ho. simpl in Ho.
  apply Forall_app in Ho as [Ho1 Ho2]. apply Forall_cons in Ho2 as [Haf Ho2].
  assert (returned af st st') as Hret.
  { assert (drop_free Page4K af st = Done st') as Hdf by (destruct S; done).
    apply drop_free_ok; [done|apply Hi|done|].
    eapply (inv_occ_held st (o1 ++ af :: o2) pend); [done|].
    intros f. rewrite occ_middle. pose proof (occ_nonneg f (o1 ++ o2)).
    pose proof (occ_nonneg f (pieces pend)). lia. }
  eapply inv_returned; eauto; [by apply Forall_app|apply Hi|].
  intros f. rewrite occ_middle. lia.
Qed.

Lemma step_deferred_inv (st : FrameAllocator) out p1 d p2 st' :
  inv (mkConfig st out (p1 ++ d :: p2)) -> drop_deferred d st = Done st' ->
  inv (mkConfig st' out (p1 ++ p2)).
Proof.
  intros Hi Hd. unfold drop_deferred in Hd.
  destruct (insert_deferred (free1 d) st) as [st1|] eqn:E1; [|done]. cbn [outcome_bind] in Hd.
  pose proof (inv_pend _ Hi) as Hp. simpl in Hp. rewrite pieces_app, pieces_cons in Hp.
  apply Forall_app in Hp as [Hp1 Hp]. apply Forall_cons in Hp as [Hf1 Hp].
  apply Forall_cons in Hp as [Hf2 Hp2].
  apply insert_deferred_ok in E1; [|apply Hi|done].
  apply insert_deferred_ok in Hd; [|apply E1|done].
  eapply (inv_intro (mkConfig st out (p1 ++ d :: p2))); simpl; auto.
  - apply Hd.
  - apply Hi.
  - rewrite pieces_app. by apply Forall_app.
  - by rewrite (rt_gregions _ _ _ Hd), (rt_gregions _ _ _ E1).
  - by rewrite (rt_rregions _ _ _ Hd), (rt_rregions _ _ _ E1).
  - intros f. rewrite !occ_all. simpl. rewrite !pieces_app, pieces_cons. autorewrite with maios.
    pose proof (rt_occ _ _ _ Hd f). pose proof (rt_occ _ _ _ E1 f). lia.
Qed.

Lemma step_split_inv (st : FrameAllocator) o1 af o2 pend at_frame a b :
  inv (mkConfig st (o1 ++ af :: o2) pend) -> valid_chunk at_frame ->
  split_at Page4K af at_frame = Ok (a, b) -> inv (mkConfig st (o1 ++ a :: b :: o2) pend).
Proof.
  intros Hi Hv Hs. pose proof (inv_out _ Hi) as Ho. simpl in Ho.
  apply Forall_app in Ho as [Ho1 Ho2]. apply Forall_cons in Ho2 as [[Haf Ht] Ho2].
  destruct (split_at_Ok _ _ _ _ Hs Haf Hv) as (Ha & Hb & Hta & Htb & Hc).
  eapply (inv_intro (mkConfig st (o1 ++ af :: o2) pend)); simpl; auto; try apply Hi.
  - apply Forall_app. split; [done|]. constructor; [split; [done|congruence]|].
    constructor; [split; [done|congruence]|done].
  - intros f. rewrite !occ_all. simpl. autorewrite with maios. rewrite Hc. lia.
Qed.

Lemma step_merge_inv (st : FrameAllocator) o1 af bf o2 pend m :
  inv (mkConfig st (af :: o1 ++ bf :: o2) pend) -> merge Page4K af bf = Ok m ->
  inv (mkConfig st (m :: o1 ++ o2) pend).
Proof.
  intros Hi Hm. pose proof (inv_out _ Hi) as Ho. simpl in Ho.
  apply Forall_cons in Ho as [[Haf Hta] Ho]. apply Forall_app in Ho as [Ho1 Ho2].
  apply Forall_cons in Ho2 as [[Hbf Htb] Ho2].
  assert (frames_wf af /\ frames_wf bf) as [Hwa Hwb].
  { unfold merge in Hm. destruct Haf as [Haf|]; [by rewrite Haf in Hm|].
    destruct Hbf as [Hbf|]; [|done]. rewrite Hbf in Hm. by rewrite orb_true_r in Hm. }
  assert (forall f, cin f af + cin f bf <= 1) as Hd.
  { intros f. pose proof (inv_occ _ Hi f) as H. rewrite occ_all in H. simpl in H.
    rewrite occ_cons, occ_middle in H. pose proof (occ_nonneg f (o1 ++ o2)).
    pose proof (occ_nonneg f (pieces pend)). pose proof (occ_nonneg f (sa_iter (free_general st))).
    pose proof (occ_nonneg f (sa_iter (free_reserved st))). lia. }
  destruct (merge_Ok _ _ _ Hm Hwa Hwb Hd) as (Hmw & Hmt & Hc & _).
  eapply (inv_intro (mkConfig st (af :: o1 ++ bf :: o2) pend)); simpl; auto; try apply Hi.
  - constructor; [split; [by right|congruence]|]. by apply Forall_app.
  - intros f. rewrite !occ_all. simpl. rewrite !occ_cons, occ_middle, Hc. lia.
Qed.

Lemma step_preserves_inv (c c' : Config) : step c c' -> inv c -> inv c'.
Proof.
  intros Hs Hi. destruct Hs.
  - by apply (inv_allocate _ _ _ _ _ _ _ Hi) in H0.
  - by apply (inv_allocate _ _ _ _ _ _ _ Hi) in H0.
  - by eapply step_deferred_inv.
  - by eapply step_drop_inv.
  - by eapply step_split_inv.
  - by eapply step_merge_inv.
  - destruct (convert_ok st) as (Hl & P1 & P2 & P3 & P4); [apply Hi|].
    eapply (inv_intro (mkConfig st out pend)); simpl; auto; try apply Hi.
    + intros r. by rewrite P3.
    + intros r. by rewrite P4.
    + intros f. rewrite !occ_all. simpl. rewrite P1, P2. lia.
Qed.

Lemma reachable_inv (c c' : Config) : rtc step c c' -> inv c -> inv c'.
Proof. induction 1; eauto using step_preserves_inv. Qed.


End Safety.
