(* ===== verification/FrameAllocInit.v ===== *)
(** * The physical frame allocator: initialization

    [init] turns the boot loader's lists of free and reserved physical memory into the
    allocator's four lists.  [check_and_add_free_region] cuts the reserved regions out
    of one free area; the reserved regions are merged until none overlap; a final
    check panics if any two of the resulting regions overlap. *)

From stdpp Require Import sorting.
From S2P Require Import Prelude MemStructs RBTree FrameAlloc FrameAllocLemmas FrameAllocSafety.

(** ** Cutting reserved regions out of a free area *)

(** [free_list[*free_list_idx] = Some(..); *free_list_idx += 1] on the 32-entry array:
    the entries below the index, in order. *)
Definition push_free (r : ChunkRange) (free_list : list PhysicalMemoryRegion)
    : outcome (list PhysicalMemoryRegion) :=
  if decide (length free_list < 32)%nat then Done (free_list ++ [mkRegion r TyFree]) else Panic.

Section RegionLoop.
Variable recurse :
  ChunkRange -> list PhysicalMemoryRegion -> outcome (list PhysicalMemoryRegion).

(** The [for reserved in ..] loop: [cs] and [ce] are [current_start] and
    [current_end], [area_end] is the end of the (shrinking) area. *)
Fixpoint region_loop (reserved : list PhysicalMemoryRegion) (cs ce area_end : Z)
    (free_list : list PhysicalMemoryRegion)
    : outcome (Z * Z * list PhysicalMemoryRegion) :=
  match reserved with
  | [] => Done (cs, ce, free_list)
  | r :: rest =>
      let rs := r_start (pr_frames r) in
      let re := r_end (pr_frames r) in
      let cs := if contains (pr_frames r) cs then chunk_add Page4K re 1 else cs in
      if (cs <=? rs) && (rs <=? ce) then
        let ce := Z.min ce (chunk_sub Page4K rs 1) in
        if area_end <=? re then Done (cs, ce, free_list)
        else
          let* free_list := recurse (mkRange (chunk_add Page4K re 1) area_end) free_list in
          region_loop rest cs ce ce free_list
      else region_loop rest cs ce area_end free_list
  end.
End RegionLoop.

(** The recursion consumes a reserved region each time (see [region_fuel]); [Panic]
    when the fuel is used up. *)
Fixpoint check_and_add_free_region (fuel : nat) (reserved : list PhysicalMemoryRegion)
    (area : ChunkRange) (free_list : list PhysicalMemoryRegion)
    : outcome (list PhysicalMemoryRegion) :=
  match fuel with
  | O => Panic
  | S fuel' =>
      let* (cs, ce, free_list) :=
        region_loop (check_and_add_free_region fuel' reserved) reserved
          (r_start area) (r_end area) (r_end area) free_list in
      if 0 <? size_in_chunks Page4K (mkRange cs ce) then push_free (mkRange cs ce) free_list
      else Done free_list
  end.

Fixpoint add_free_areas (fuel : nat) (reserved free_areas : list PhysicalMemoryRegion)
    (free_list : list PhysicalMemoryRegion) : outcome (list PhysicalMemoryRegion) :=
  match free_areas with
  | [] => Done free_list
  | a :: rest =>
      let* free_list := check_and_add_free_region fuel reserved (pr_frames a) free_list in
      add_free_areas fuel reserved rest free_list
  end.

(** ** Merging the reserved regions *)

(** The inner loop over [reserved_list[i + 1..]]: regions that overlap [current] are
    absorbed and their slots cleared. *)
Fixpoint absorb (current : PhysicalMemoryRegion) (rest : list (option PhysicalMemoryRegion))
    : PhysicalMemoryRegion * list (option PhysicalMemoryRegion) * bool :=
  match rest with
  | [] => (current, [], false)
  | None :: rest' =>
      let '(c, l, ch) := absorb current rest' in (c, None :: l, ch)
  | Some other :: rest' =>
      match overlap (pr_frames current) (pr_frames other) with
      | Some _ =>
          let merged := mkRegion (mkRange (Z.min (r_start (pr_frames current)) (r_start (pr_frames other)))
                                          (Z.max (r_end (pr_frames current)) (r_end (pr_frames other))))
                                 (pr_typ current) in
          let '(c, l, _) := absorb merged rest' in (c, None :: l, true)
      | None => let '(c, l, ch) := absorb current rest' in (c, Some other :: l, ch)
      end
  end.

(** One pass of the outer [for i in 0..32] loop, [n] slots of which are left: the
    entries pushed onto [temp_reserved_list], and whether anything was merged. *)
Fixpoint merge_pass (n : nat) (slots : list (option PhysicalMemoryRegion))
    : list PhysicalMemoryRegion * bool :=
  match n, slots with
  | S n', Some current :: rest =>
      let '(c, rest', ch) := absorb current rest in
      let '(out, ch') := merge_pass n' rest' in (c :: out, ch || ch')
  | S n', None :: rest => merge_pass n' rest
  | _, _ => ([], false)
  end.

(** A 32-entry array that holds the given entries first. *)
Definition array32 {A} (l : list A) : list (option A) :=
  (Some <$> l) ++ replicate (32 - length l) None.

(** [while changed { .. }]. *)
Fixpoint merge_reserved (fuel : nat) (l : list PhysicalMemoryRegion)
    : outcome (list PhysicalMemoryRegion) :=
  match fuel with
  | O => Panic
  | S fuel' =>
      let '(l', changed) := merge_pass 32 (array32 l) in
      if changed then merge_reserved fuel' l' else Done l'
  end.

(** ** The final check and the lists *)

Fixpoint any_overlap (l : list PhysicalMemoryRegion) : bool :=
  match l with
  | [] => false
  | x :: l' =>
      existsb (fun y => match overlap (pr_frames x) (pr_frames y) with Some _ => true | None => false end) l'
      || any_overlap l'
  end.

Definition frames_of (ty : MemoryRegionType) (r : PhysicalMemoryRegion) : Frames :=
  mkFrames ty (pr_frames r).

Definition reserved_copy (r : PhysicalMemoryRegion) : PhysicalMemoryRegion :=
  mkRegion (pr_frames r) TyReserved.

Definition already_initialized : string :=
  "BUG: Frame allocator was already initialized, cannot be initialized twice.".

Section Init.
Context {fops : RBTreeOps Frames} {rops : RBTreeOps PhysicalMemoryRegion}.

Definition init (fuel : nat) (free_areas reserved : list PhysicalMemoryRegion) (st : FrameAllocator)
    : outcome (result unit string * FrameAllocator) :=
  if negb (Nat.eqb (sa_len (free_general st)) 0) || negb (Nat.eqb (sa_len (free_reserved st)) 0)
     || negb (Nat.eqb (sa_len (general_regions st)) 0) || negb (Nat.eqb (sa_len (reserved_regions st)) 0)
  then Done (Err already_initialized, st)
  else
    let* free_list := add_free_areas fuel reserved free_areas [] in
    if decide (32 < length reserved)%nat then Panic
    else
      let* reserved_list := merge_reserved fuel (reserved_copy <$> reserved) in
      if any_overlap (free_list ++ reserved_list) then Panic
      else
        Done (Ok tt, mkAllocator (sa_new (array32 (frames_of TyFree <$> free_list)))
                                 (sa_new (array32 (frames_of TyReserved <$> reserved_list)))
                                 (sa_new (array32 free_list))
                                 (sa_new (array32 reserved_list))).
End Init.

(** ** Lemmas *)

(** The number of regions of the list that contain the frame. *)
Definition rocc (f : Z) (l : list PhysicalMemoryRegion) : Z :=
  sum_of (fun r => Z.b2z (contains (pr_frames r) f)) l.

(** The frame is in one of the regions. *)
Definition in_regions (f : Z) (l : list PhysicalMemoryRegion) : bool :=
  existsb (fun r => contains (pr_frames r) f) l.

(** A nonempty range of frames below the last frame number. *)
Definition region_wf (r : PhysicalMemoryRegion) : Prop :=
  wf_range (pr_frames r) /\ r_end (pr_frames r) < MAX_PAGE_NUMBER.

(** The order of the regions by their first frame. *)
Definition by_start (l : list PhysicalMemoryRegion) : Prop :=
  StronglySorted (fun a b => r_start (pr_frames a) <= r_start (pr_frames b)) l.

Lemma rocc_app (f : Z) (l1 l2 : list PhysicalMemoryRegion) : rocc f (l1 ++ l2) = rocc f l1 + rocc f l2.
Proof. apply sum_of_app. Qed.

Lemma rocc_cons (f : Z) (r : PhysicalMemoryRegion) (l : list PhysicalMemoryRegion) :
  rocc f (r :: l) = Z.b2z (contains (pr_frames r) f) + rocc f l.
Proof. done. Qed.

Lemma rocc_nil (f : Z) : rocc f [] = 0.
Proof. done. Qed.

Lemma in_regions_app (f : Z) (l1 l2 : list PhysicalMemoryRegion) :
  in_regions f (l1 ++ l2) = in_regions f l1 || in_regions f l2.
Proof. apply existsb_app. Qed.

Lemma in_regions_cons (f : Z) (r : PhysicalMemoryRegion) (l : list PhysicalMemoryRegion) :
  in_regions f (r :: l) = contains (pr_frames r) f || in_regions f l.
Proof. done. Qed.

#[local] Hint Rewrite rocc_app rocc_cons rocc_nil in_regions_app in_regions_cons : maios.

Lemma in_regions_below (f : Z) (l : list PhysicalMemoryRegion) :
  Forall (fun r => f < r_start (pr_frames r)) l -> in_regions f l = false.
Proof.
  induction 1 as [|r l Hr _ IH]; [done|]. rewrite in_regions_cons, IH.
  unfold contains. case_cmp; simpl; lia.
Qed.

(** How many reserved regions start in an area: what the recursion of
    [check_and_add_free_region] consumes. *)
Definition region_fuel (area : ChunkRange) (reserved : list PhysicalMemoryRegion) : nat :=
  length (filter (fun r => r_start area <= r_start (pr_frames r) <= r_end area) reserved).

Lemma region_fuel_le (area : ChunkRange) (l : list PhysicalMemoryRegion) :
  (region_fuel area l <= length l)%nat.
Proof. apply length_filter. Qed.

Lemma region_fuel_mono (s s' e : Z) (l : list PhysicalMemoryRegion) :
  s <= s' -> (region_fuel (mkRange s' e) l <= region_fuel (mkRange s e) l)%nat.
Proof.
  intros Hs. unfold region_fuel. simpl. induction l as [|r l IH]; [done|].
  rewrite !filter_cons. case_decide; case_decide; simpl; lia.
Qed.

Lemma region_fuel_lt (s s' e : Z) (r : PhysicalMemoryRegion) (l1 l2 : list PhysicalMemoryRegion) :
  s <= r_start (pr_frames r) < s' -> r_start (pr_frames r) <= e ->
  (region_fuel (mkRange s' e) (l1 ++ r :: l2) < region_fuel (mkRange s e) (l1 ++ r :: l2))%nat.
Proof.
  intros Hs He. pose proof (region_fuel_mono s s' e l1). pose proof (region_fuel_mono s s' e l2).
  unfold region_fuel in *. simpl in *. rewrite !filter_app, !filter_cons, !length_app.
  case_decide; case_decide; simpl in *; lia.
Qed.

(** What a call contributes: regions of type [Free] that contain each frame of the
    area outside of the reserved regions once, and no other frame. *)
Record cut_out (reserved : list PhysicalMemoryRegion) (area : ChunkRange)
    (new : list PhysicalMemoryRegion) : Prop := {
  cut_wf : Forall (fun r => region_wf r /\ pr_typ r = TyFree) new;
  cut_len : (length new <= region_fuel area reserved + 1)%nat;
  cut_occ : forall f, rocc f new = Z.b2z (contains area f && negb (in_regions f reserved));
}.

Section Cut.
Context (reserved : list PhysicalMemoryRegion) (Hwf : Forall region_wf reserved).
Context (Hsorted : by_start reserved).

(** What holds of [current_start] after the regions [pre] were looked at. *)
Record start_ok (pre : list PhysicalMemoryRegion) (s e cs : Z) : Prop := {
  so_range : s <= cs <= MAX_PAGE_NUMBER;
  so_below : forall f, s <= f < cs -> in_regions f pre = true;
  so_above : forall f, cs <= f <= e -> in_regions f pre = false;
}.

Lemma region_loop_stable recurse (rest : list PhysicalMemoryRegion) (cs ce : Z) fl :
  cs <= ce -> Forall (fun r => ce < r_start (pr_frames r)) rest ->
  region_loop recurse rest cs ce ce fl = Done (cs, ce, fl).
Proof.
  intros Hc Hr. induction Hr as [|r rest Hr _ IH]; [done|]. simpl.
  replace (contains (pr_frames r) cs) with false by (unfold contains; case_cmp; simpl; lia).
  replace (r_start (pr_frames r) <=? ce) with false by (case_cmp; lia).
  by rewrite andb_false_r.
Qed.

Lemma start_ok_step (pre : list PhysicalMemoryRegion) (r : PhysicalMemoryRegion) (s e cs : Z) :
  region_wf r -> 0 <= s -> start_ok pre s e cs ->
  let cs' := if contains (pr_frames r) cs then chunk_add Page4K (r_end (pr_frames r)) 1 else cs in
  s <= cs' <= MAX_PAGE_NUMBER /\
  (forall f, s <= f < cs' -> in_regions f (pre ++ [r]) = true) /\
  (forall f, cs' <= f <= e -> in_regions f pre = false) /\
  cs' <> r_start (pr_frames r) /\
  (forall f, r_start (pr_frames r) < cs' <= f -> contains (pr_frames r) f = false).
Proof.
  intros [[Hr1 Hr2] Hr3] Hs [Hc Hb Ha]. simpl. unfold valid_chunk in *.
  rewrite chunk_add_4k by (unfold U64_MAX; lia). rewrite Z.min_r by lia.
  destruct (contains (pr_frames r) cs) eqn:Ec; unfold contains in Ec; bool_to_prop.
  - repeat split; try lia.
    + intros f Hf. rewrite in_regions_app. destruct (decide (f < cs)).
      * by rewrite Hb by lia.
      * simpl. unfold contains. case_cmp; simpl; lia.
    + intros f Hf. apply Ha. lia.
    + intros f Hf. unfold contains. case_cmp; simpl; lia.
  - apply andb_false_iff in Ec. repeat split; try lia.
    + intros f Hf. by rewrite in_regions_app, Hb by lia.
    + intros f Hf. by apply Ha.
    + intros f Hf. unfold contains. destruct Ec; bool_to_prop; case_cmp; simpl; lia.
Qed.

(** How the frames of an area divide when [r] is the first region that cuts it. *)
Lemma cut_occ_split (pre rest : list PhysicalMemoryRegion) (r : PhysicalMemoryRegion) (s e cs f : Z) :
  let rs := r_start (pr_frames r) in
  let re := r_end (pr_frames r) in
  s <= cs < rs -> rs <= e -> rs <= re ->
  Forall (fun x => rs <= r_start (pr_frames x)) rest ->
  (forall f, s <= f < cs -> in_regions f (pre ++ [r]) = true) ->
  (forall f, cs <= f <= e -> in_regions f pre = false) ->
  Z.b2z (contains (mkRange cs (rs - 1)) f) +
    Z.b2z (contains (mkRange (re + 1) e) f && negb (in_regions f (pre ++ r :: rest))) =
  Z.b2z (contains (mkRange s e) f && negb (in_regions f (pre ++ r :: rest))).
Proof.
  intros rs re Hcs He Hr Hrest Hb Ha. rewrite in_regions_app, in_regions_cons.
  specialize (Hb f). specialize (Ha f). rewrite in_regions_app in Hb. cbn in Hb.
  rewrite orb_false_r in Hb. unfold contains in *. fold rs re in Hb |- *. simpl.
  destruct (decide (s <= f < cs)) as [Hf|Hf].
  { specialize (Hb Hf). destruct (in_regions f pre); simpl in Hb.
    - simpl. case_cmp; simpl; lia.
    - revert Hb. case_cmp; simpl; lia. }
  destruct (decide (cs <= f < rs)) as [Hf'|Hf'].
  { rewrite Ha by lia. rewrite in_regions_below; [case_cmp; simpl; lia|].
    eapply Forall_impl; [done|]. simpl. lia. }
  case_cmp; simpl; try lia. destruct (in_regions f pre); simpl; lia.
Qed.

(** What the recursive call is required to do. *)
Definition recurse_ok (s e : Z)
    (recurse : ChunkRange -> list PhysicalMemoryRegion -> outcome (list PhysicalMemoryRegion)) : Prop :=
  forall area fl, wf_range area -> r_end area = e ->
    (region_fuel area reserved < region_fuel (mkRange s e) reserved)%nat ->
    (length fl + region_fuel area reserved + 1 <= 32)%nat ->
    exists new, recurse area fl = Done (fl ++ new) /\ cut_out reserved area new.

(** The outcome of the loop: the rest of the area after [ce] was handled by the
    recursive call, which contributed [new]. *)
Record loop_ok (s e cs ce : Z) (new : list PhysicalMemoryRegion) : Prop := {
  lp_range : s <= cs <= MAX_PAGE_NUMBER /\ s <= ce <= e;
  lp_wf : Forall (fun r => region_wf r /\ pr_typ r = TyFree) new;
  lp_len : (length new <= region_fuel (mkRange s e) reserved)%nat;
  lp_occ : forall f, Z.b2z (contains (mkRange cs ce) f) + rocc f new =
             Z.b2z (contains (mkRange s e) f && negb (in_regions f reserved));
}.

Lemma region_loop_ok recurse (pre rest : list PhysicalMemoryRegion) (s e cs : Z) fl :
  reserved = pre ++ rest -> recurse_ok s e recurse ->
  0 <= s <= e -> e < MAX_PAGE_NUMBER -> start_ok pre s e cs ->
  (length fl + region_fuel (mkRange s e) reserved + 1 <= 32)%nat ->
  exists cs' ce' new, region_loop recurse rest cs e e fl = Done (cs', ce', fl ++ new) /\
    loop_ok s e cs' ce' new.
Proof.
  intros Heq Hrec Hse He Hok Hlen. revert pre cs Heq Hok.
  induction rest as [|r rest IH]; intros pre cs Heq Hok; simpl.
  - exists cs, e, []. rewrite app_nil_r in *. subst pre. split; [done|].
    destruct Hok as [Hc Hb Ha]. split; simpl; try lia; [constructor|].
    intros f. unfold contains; simpl. rewrite rocc_nil, Z.add_0_r.
    destruct (decide (cs <= f <= e)) as [Hf|Hf].
    + rewrite Ha by lia. case_cmp; simpl; lia.
    + destruct (decide (s <= f < cs)) as [Hf'|Hf']; [rewrite Hb by lia|]; case_cmp; simpl; lia.
  - assert (region_wf r) as Hr.
    { rewrite Heq in Hwf. apply Forall_app in Hwf as [_ Hw]. by inversion Hw. }
    destruct (start_ok_step pre r s e cs Hr ltac:(lia) Hok) as (Hc & Hb & Ha & Hne & Hpast).
    set (cs' := if contains (pr_frames r) cs then _ else cs) in *. clearbody cs'.
    set (rs := r_start (pr_frames r)) in *. set (re := r_end (pr_frames r)) in *.
    destruct ((cs' <=? rs) && (rs <=? e)) eqn:Econd.
    2:{ apply (IH (pre ++ [r])); [by rewrite <- app_assoc|]. split; [lia|done|].
        intros f Hf. rewrite in_regions_app, Ha by lia. cbn. rewrite orb_false_r.
        apply andb_false_iff in Econd as [E|E]; bool_to_prop; [apply Hpast; lia|].
        unfold contains. fold rs. case_cmp; simpl; lia. }
    bool_to_prop. destruct Hr as [[Hr1 Hr2] Hr3]. fold rs re in Hr1, Hr2, Hr3.
    assert (Forall (fun x => rs <= r_start (pr_frames x)) rest) as Hlater.
    { unfold by_start in Hsorted. rewrite Heq in Hsorted.
      apply StronglySorted_app_1_r in Hsorted. by inversion Hsorted. }
    rewrite !chunk_add_4k, chunk_sub_4k by (unfold U64_MAX; lia).
    replace (Z.min e (Z.max 0 (rs - 1))) with (rs - 1) by lia.
    rewrite (Z.min_r _ (re + 1)) by lia.
    destruct (Z.leb_spec e re) as [Hbrk|Hcont].
    + exists cs', (rs - 1), []. rewrite app_nil_r. split; [done|].
      split; simpl; try lia; [constructor|]. intros f. rewrite rocc_nil, Heq.
      rewrite <- (cut_occ_split pre rest r s e cs' f) by (fold rs re; auto; lia).
      fold rs re. f_equal. unfold contains; simpl. case_cmp; simpl; lia.
    + destruct (Hrec (mkRange (re + 1) e) fl) as (new & -> & [Hnwf Hnlen Hnocc]);
        [split; simpl; lia|done| | |]; simpl.
      1-2: pose proof (region_fuel_lt s (re + 1) e r pre rest ltac:(fold rs; lia) ltac:(fold rs; lia)); rewrite Heq in *; lia.
      rewrite region_loop_stable; [|lia|eapply Forall_impl; [done|]; simpl; lia].
      exists cs', (rs - 1), new. split; [done|]. split; simpl; try lia; [done| |].
      * pose proof (region_fuel_lt s (re + 1) e r pre rest ltac:(fold rs; lia) ltac:(fold rs; lia)). rewrite Heq in *.
        simpl in Hnlen. lia.
      * intros f. rewrite Hnocc, Heq. apply (cut_occ_split pre rest r s e cs' f); auto; lia.
Qed.

Lemma check_and_add_ok (fuel : nat) (area : ChunkRange) (fl : list PhysicalMemoryRegion) :
  (region_fuel area reserved < fuel)%nat ->
  wf_range area -> r_end area < MAX_PAGE_NUMBER ->
  (length fl + region_fuel area reserved + 1 <= 32)%nat ->
  exists new, check_and_add_free_region fuel reserved area fl = Done (fl ++ new) /\
    cut_out reserved area new.
Proof.
  revert area fl. induction fuel as [|fuel IH]; intros area fl Hfuel [Ha1 Ha2] Ha3 Hlen; [lia|].
  destruct area as [s e]. simpl in Ha1, Ha2, Ha3.
  destruct (region_loop_ok (check_and_add_free_region fuel reserved) [] reserved
              s e s fl)
    as (cs & ce & new & Hloop & [[Hcs Hce] Hnwf Hnlen Hocc]); [done| | | | |done|].
  { intros a fl' Hw He Hlt Hl. apply IH; [lia|done|lia|done]. }
  { lia. }
  { lia. }
  { split; [lia| |done]. intros; lia. }
  simpl. rewrite Hloop. simpl.
  assert (wf_range (mkRange cs ce) \/ ce < cs) as Hr by (unfold wf_range; simpl; lia).
  unfold size_in_chunks. simpl. change (NUM_4K_PAGES Page4K) with 1.
  rewrite Z.div_1_r. rewrite wrap64_id by (mem_consts; unfold in_u64, U64_MAX; lia).
  unfold sat_sub. destruct Hr as [Hr|Hr].
  - destruct (Z.ltb_spec 0 (Z.max 0 (ce + 1 * 1 - cs))); [|unfold wf_range in Hr; simpl in Hr; lia].
    unfold push_free. rewrite length_app. rewrite decide_True by lia.
    exists (new ++ [mkRegion (mkRange cs ce) TyFree]). split; [by rewrite app_assoc|]. split.
    + apply Forall_app. split; [done|]. repeat constructor; simpl; unfold wf_range in *; simpl in *; lia.
    + rewrite length_app. simpl. lia.
    + intros f. rewrite rocc_app, rocc_cons, rocc_nil, Z.add_0_r, Z.add_comm.
      apply Hocc.
  - destruct (Z.ltb_spec 0 (Z.max 0 (ce + 1 * 1 - cs))); [lia|].
    exists new. split; [done|]. split; [done|lia|]. intros f. specialize (Hocc f).
    rewrite <- Hocc. unfold contains at 1; simpl. case_cmp; simpl; lia.
Qed.

End Cut.

Definition disjoint_regions (l : list PhysicalMemoryRegion) : Prop := forall f, rocc f l <= 1.

Lemma b2z_nonneg (b : bool) : 0 <= Z.b2z b.
Proof. destruct b; simpl; lia. Qed.

Lemma rocc_nonneg (f : Z) (l : list PhysicalMemoryRegion) : 0 <= rocc f l.
Proof. apply sum_of_nonneg. intros r. apply b2z_nonneg. Qed.

(** Each reserved region starts in at most one of the disjoint areas. *)
Lemma region_fuel_total (areas reserved : list PhysicalMemoryRegion) :
  disjoint_regions areas ->
  sum_of (fun a => Z.of_nat (region_fuel (pr_frames a) reserved)) areas <= Z.of_nat (length reserved).
Proof.
  intros Hd. induction reserved as [|r l IH].
  - rewrite sum_of_all_zero; [simpl; lia|]. by apply Forall_true.
  - assert (sum_of (fun a => Z.of_nat (region_fuel (pr_frames a) (r :: l))) areas =
            rocc (r_start (pr_frames r)) areas +
            sum_of (fun a => Z.of_nat (region_fuel (pr_frames a) l)) areas) as ->.
    { clear. induction areas as [|a areas IH]; simpl; [done|].
      rewrite IH, rocc_cons. unfold region_fuel at 1, contains. rewrite filter_cons.
      case_decide; case_cmp; simpl; unfold region_fuel; lia. }
    specialize (Hd (r_start (pr_frames r))). simpl. lia.
Qed.

Lemma add_free_areas_ok (fuel : nat) (reserved areas fl : list PhysicalMemoryRegion) :
  Forall region_wf reserved -> by_start reserved -> (length reserved < fuel)%nat ->
  Forall region_wf areas ->
  Z.of_nat (length fl) + Z.of_nat (length areas) +
    sum_of (fun a => Z.of_nat (region_fuel (pr_frames a) reserved)) areas <= 32 ->
  exists new, add_free_areas fuel reserved areas fl = Done (fl ++ new) /\
    Forall (fun r => region_wf r /\ pr_typ r = TyFree) new /\
    Z.of_nat (length new) <= Z.of_nat (length areas) +
      sum_of (fun a => Z.of_nat (region_fuel (pr_frames a) reserved)) areas /\
    forall f, rocc f new = rocc f areas * Z.b2z (negb (in_regions f reserved)).
Proof.
  intros Hwf Hs Hfuel Ha. revert fl. induction Ha as [|a areas [Ha1 Ha2] _ IH]; intros fl Hlen; simpl.
  - exists []. rewrite app_nil_r. repeat split; auto; simpl; lia.
  - pose proof (region_fuel_le (pr_frames a) reserved).
    assert (0 <= sum_of (fun a => Z.of_nat (region_fuel (pr_frames a) reserved)) areas)
      by (apply sum_of_nonneg; lia).
    simpl in Hlen.
    destruct (check_and_add_ok reserved Hwf Hs fuel (pr_frames a) fl) as (n1 & -> & [Hn1 Hl1 Ho1]);
      [lia|done|done|lia|]. simpl.
    destruct (IH (fl ++ n1)) as (n2 & -> & Hn2 & Hl2 & Ho2); [rewrite length_app; lia|].
    exists (n1 ++ n2). rewrite app_assoc. split; [done|]. split; [by apply Forall_app|].
    split; [rewrite length_app; lia|]. intros f. rewrite rocc_app, rocc_cons, Ho1, Ho2.
    destruct (contains _ f), (in_regions f reserved); simpl; lia.
Qed.

(** *** Overlap and disjointness *)

Lemma overlap_contains (a b : ChunkRange) (f : Z) :
  overlap a b = None -> contains a f = true -> contains b f = false.
Proof.
  unfold overlap, contains. intros H Hf. case_in H; [done|]. bool_to_prop. case_cmp; simpl; lia.
Qed.

Lemma overlap_witness (a b : ChunkRange) (o : ChunkRange) :
  overlap a b = Some o -> contains a (r_start o) = true /\ contains b (r_start o) = true.
Proof.
  unfold overlap, contains. intros H. case_in H; [|done]. simplify_eq/=. bool_to_prop.
  split; case_cmp; simpl; lia.
Qed.

Lemma rocc_zero (f : Z) (l : list PhysicalMemoryRegion) :
  Forall (fun r => contains (pr_frames r) f = false) l -> rocc f l = 0.
Proof. intros Hl. apply sum_of_all_zero. eapply Forall_impl; [done|]. by intros r ->. Qed.

Lemma rocc_elem (f : Z) (r : PhysicalMemoryRegion) (l : list PhysicalMemoryRegion) :
  r ∈ l -> contains (pr_frames r) f = true -> 1 <= rocc f l.
Proof.
  intros Hr Hc. pose proof (sum_of_elem (fun r => Z.b2z (contains (pr_frames r) f)) l r) as H.
  simpl in H. rewrite Hc in H. apply H; [|done]. intros y. apply b2z_nonneg.
Qed.

Lemma any_overlap_iff (l : list PhysicalMemoryRegion) :
  any_overlap l = false <-> disjoint_regions l.
Proof.
  unfold disjoint_regions. induction l as [|x l IH]; simpl.
  { split; [|done]. intros _ f. rewrite rocc_nil. lia. }
  rewrite orb_false_iff, IH. split.
  - intros [Hx Hl] f. rewrite rocc_cons. specialize (Hl f).
    destruct (contains (pr_frames x) f) eqn:Ex; simpl; [|lia].
    rewrite rocc_zero; [lia|]. apply Forall_forall. intros y Hy.
    apply (overlap_contains (pr_frames x)); [|done].
    destruct (overlap (pr_frames x) (pr_frames y)) eqn:Eo; [|done]. exfalso.
    apply not_true_iff_false in Hx. apply Hx, existsb_exists. exists y. rewrite Eo.
    split; [by apply list_elem_of_In|done].
  - intros H. split.
    + apply not_true_iff_false. intros Hx. apply existsb_exists in Hx as (y & Hy & Ho).
      destruct (overlap _ _) as [o|] eqn:Eo; [|done]. apply overlap_witness in Eo as [H1 H2].
      specialize (H (r_start o)). rewrite rocc_cons, H1 in H. simpl in H.
      apply list_elem_of_In in Hy. pose proof (rocc_elem _ _ _ Hy H2). lia.
    + intros f. specialize (H f). rewrite rocc_cons in H.
      destruct (contains (pr_frames x) f); simpl in H; lia.
Qed.

(** *** Merging the reserved regions *)

Definition slots_wf (ty : MemoryRegionType) (l : list PhysicalMemoryRegion) : Prop :=
  Forall (fun r => region_wf r /\ pr_typ r = ty) l.

Lemma merged_region (a b : PhysicalMemoryRegion) (o : ChunkRange) :
  region_wf a -> region_wf b -> overlap (pr_frames a) (pr_frames b) = Some o ->
  let m := mkRegion (mkRange (Z.min (r_start (pr_frames a)) (r_start (pr_frames b)))
                             (Z.max (r_end (pr_frames a)) (r_end (pr_frames b)))) (pr_typ a) in
  region_wf m /\
  forall f, contains (pr_frames m) f = contains (pr_frames a) f || contains (pr_frames b) f.
Proof.
  intros [[Ha1 Ha2] Ha3] [[Hb1 Hb2] Hb3] Ho. unfold overlap in Ho. case_in Ho; [|done].
  bool_to_prop. simpl. split.
  - unfold region_wf, wf_range; simpl. lia.
  - intros f. unfold contains; simpl. case_cmp; simpl; lia.
Qed.

Lemma absorb_ok (ty : MemoryRegionType) (rest : list (option PhysicalMemoryRegion)) current c l ch :
  region_wf current -> slots_wf ty (flatten_opts rest) -> absorb current rest = (c, l, ch) ->
  region_wf c /\ pr_typ c = pr_typ current /\ slots_wf ty (flatten_opts l) /\ length l = length rest /\
  (length (flatten_opts l) + (if ch then 1 else 0) <= length (flatten_opts rest))%nat /\
  (forall f, in_regions f (c :: flatten_opts l) = in_regions f (current :: flatten_opts rest)) /\
  (ch = false -> c = current /\ l = rest /\
     Forall (fun r => overlap (pr_frames current) (pr_frames r) = None) (flatten_opts rest)).
Proof.
  revert current c l ch. induction rest as [|[other|] rest IH]; intros current c l ch Hc Hr H; simpl in H.
  - simplify_eq. split_and!; auto; simpl; lia.
  - inversion Hr as [|? ? [Ho Hot] Hr']; subst.
    destruct (overlap (pr_frames current) (pr_frames other)) as [o|] eqn:Eo.
    + destruct (merged_region _ _ _ Hc Ho Eo) as [Hm Hmc]. simpl in Hmc.
      destruct (absorb _ rest) as [[c' l'] ch'] eqn:Ea. simplify_eq.
      edestruct IH as (H1 & H2 & H3 & H4 & H5 & H6 & H7); [exact Hm|exact Hr'|exact Ea|].
      split_and!; auto; simpl in *; try lia.
      intros f. rewrite H6, Hmc. by rewrite orb_assoc.
    + destruct (absorb current rest) as [[c' l'] ch'] eqn:Ea. simplify_eq.
      edestruct IH as (H1 & H2 & H3 & H4 & H5 & H6 & H7); [exact Hc|exact Hr'|exact Ea|].
      split_and!; auto; simpl in *; try lia.
      * by constructor.
      * intros f. specialize (H6 f). simpl in H6.
        destruct (contains (pr_frames c) f), (contains (pr_frames other) f),
          (contains (pr_frames current) f); simpl in *; auto.
      * intros Hch. destruct (H7 Hch) as (-> & -> & ?). by repeat constructor.
  - destruct (absorb current rest) as [[c' l'] ch'] eqn:Ea. simplify_eq.
    edestruct IH as (H1 & H2 & H3 & H4 & H5 & H6 & H7); [exact Hc|exact Hr|exact Ea|].
    split_and!; auto; simpl in *; try lia.
    intros Hch. by destruct (H7 Hch) as (-> & -> & ?).
Qed.

Lemma overlap_none_exists (x : PhysicalMemoryRegion) (l : list PhysicalMemoryRegion) :
  Forall (fun r => overlap (pr_frames x) (pr_frames r) = None) l ->
  existsb (fun y => match overlap (pr_frames x) (pr_frames y) with Some _ => true | None => false end) l
  = false.
Proof. induction 1 as [|y l Hy _ IH]; simpl; [done|]. by rewrite Hy. Qed.

Lemma merge_pass_ok (ty : MemoryRegionType) (n : nat) (slots : list (option PhysicalMemoryRegion)) out ch :
  (length slots <= n)%nat -> slots_wf ty (flatten_opts slots) -> merge_pass n slots = (out, ch) ->
  slots_wf ty out /\ (length out + (if ch then 1 else 0) <= length (flatten_opts slots))%nat /\
  (forall f, in_regions f out = in_regions f (flatten_opts slots)) /\
  (ch = false -> out = flatten_opts slots /\ any_overlap out = false).
Proof.
  revert slots out ch. induction n as [|n IH]; intros [|[x|] slots] out ch Hn Hwf H; simpl in *;
    try (simplify_eq; split_and!; auto; simpl; lia).
  - inversion Hwf as [|? ? [Hx Ht] Hwf']; subst.
    destruct (absorb x slots) as [[c l] ch1] eqn:Ea.
    destruct (absorb_ok _ _ _ _ _ _ Hx Hwf' Ea) as (H1 & H2 & H3 & H4 & H5 & H6 & H7).
    destruct (merge_pass n l) as [o ch2] eqn:Em. simplify_eq.
    destruct (IH l o ch2) as (I1 & I2 & I3 & I4); [lia|done|done|].
    split_and!.
    + constructor; [by rewrite H2|done].
    + simpl. destruct ch1, ch2; simpl in *; lia.
    + intros f. specialize (H6 f). specialize (I3 f). simpl in *. by rewrite I3.
    + intros Hch. apply orb_false_iff in Hch as [E1 E2].
      destruct (H7 E1) as (-> & -> & Hno). destruct (I4 E2) as [-> Hov].
      split; [done|]. simpl. by rewrite Hov, overlap_none_exists.
  - destruct (IH slots out ch) as (I1 & I2 & I3 & I4); [lia|done|done|]. done.
Qed.

Lemma flatten_array32 {A} (l : list A) : flatten_opts (array32 l) = l.
Proof.
  unfold array32, flatten_opts. rewrite omap_app.
  assert (omap id (replicate (32 - length l) (None : option A)) = []) as ->
    by (induction (32 - length l)%nat; done).
  rewrite app_nil_r. induction l as [|x l IH]; [done|]. simpl. by f_equal.
Qed.

Lemma length_array32 {A} (l : list A) : (length l <= 32)%nat -> length (array32 l) = 32%nat.
Proof. intros. unfold array32. rewrite length_app, length_fmap, length_replicate. lia. Qed.

(** The merging loop ends, keeps the reserved frames and leaves disjoint regions. *)
Lemma merge_reserved_ok (ty : MemoryRegionType) (fuel : nat) (l : list PhysicalMemoryRegion) :
  (length l < fuel)%nat -> (length l <= 32)%nat -> slots_wf ty l ->
  exists l', merge_reserved fuel l = Done l' /\ slots_wf ty l' /\ (length l' <= length l)%nat /\
    disjoint_regions l' /\ forall f, in_regions f l' = in_regions f l.
Proof.
  revert l. induction fuel as [|fuel IH]; intros l Hf Hl Hwf; [lia|].
  cbn [merge_reserved]. destruct (merge_pass 32 (array32 l)) as [out ch] eqn:Em.
  destruct (merge_pass_ok ty 32 (array32 l) out ch) as (H1 & H2 & H3 & H4);
    [by rewrite length_array32|by rewrite flatten_array32|done|].
  rewrite flatten_array32 in *. destruct ch.
  - destruct (IH out) as (l' & -> & H5 & H6 & H7 & H8); [lia|lia|done|].
    exists l'. split_and!; auto; [lia|]. intros f. rewrite H8. apply H3.
  - destruct (H4 eq_refl) as [-> Hov]. exists l. split_and!; auto. by apply any_overlap_iff.
Qed.

(** *** The invariant after [init] *)

Lemma rocc_le_regions (f : Z) (l : list PhysicalMemoryRegion) :
  disjoint_regions l -> rocc f l = Z.b2z (in_regions f l).
Proof.
  intros Hd. specialize (Hd f). induction l as [|x l IH]; [done|].
  rewrite rocc_cons in *. rewrite in_regions_cons. pose proof (rocc_nonneg f l).
  destruct (contains (pr_frames x) f); simpl in *; [lia|]. apply IH. lia.
Qed.

Lemma occ_frames_of (f : Z) (ty : MemoryRegionType) (l : list PhysicalMemoryRegion) :
  occ f (frames_of ty <$> l) = rocc f l.
Proof. induction l as [|x l IH]; [done|]. rewrite fmap_cons, occ_cons, rocc_cons, IH. done. Qed.

Lemma in_regions_covered (f : Z) (l : list PhysicalMemoryRegion) :
  in_regions f l = true -> covered f l.
Proof.
  intros H. apply existsb_exists in H as (r & Hr & Hc). exists r.
  split; [by apply list_elem_of_In|by apply contains_iff].
Qed.

Lemma separated_regions (ty : MemoryRegionType) (l : list PhysicalMemoryRegion) :
  slots_wf ty l -> disjoint_regions l -> separated pr_frames l.
Proof.
  intros Hwf Hd. split; [|exact Hd]. eapply Forall_impl; [done|]. by intros r [[? _] _].
Qed.

Lemma chunks_of_regions (ty : MemoryRegionType) ty' (l : list PhysicalMemoryRegion) :
  slots_wf ty' l -> chunks_of ty (frames_of ty <$> l).
Proof.
  intros Hwf. apply Forall_fmap. eapply Forall_impl; [done|]. by intros r [[? _] _].
Qed.

Section InitTheorem.
Context {fops : RBTreeOps Frames} {rops : RBTreeOps PhysicalMemoryRegion}.

(** The values of the four static lists before [init]. *)
Definition boot_lists : FrameAllocator := mkAllocator sa_empty sa_empty sa_empty sa_empty.

(** The lists [init] builds satisfy the allocator's invariant. *)
Lemma init_lists_inv (free_list reserved_list : list PhysicalMemoryRegion) :
  slots_wf TyFree free_list -> slots_wf TyReserved reserved_list ->
  disjoint_regions (free_list ++ reserved_list) ->
  inv (mkConfig (mkAllocator (sa_new (array32 (frames_of TyFree <$> free_list)))
                             (sa_new (array32 (frames_of TyReserved <$> reserved_list)))
                             (sa_new (array32 free_list))
                             (sa_new (array32 reserved_list))) [] []).
Proof.
  intros Hf Hr Hd.
  assert (disjoint_regions free_list /\ disjoint_regions reserved_list) as [Hdf Hdr].
  { split; intros f; specialize (Hd f); rewrite rocc_app in Hd;
      pose proof (rocc_nonneg f free_list); pose proof (rocc_nonneg f reserved_list); lia. }
  assert (forall f, occ f (all_chunks (mkConfig (mkAllocator (sa_new (array32 (frames_of TyFree <$> free_list)))
                             (sa_new (array32 (frames_of TyReserved <$> reserved_list)))
                             (sa_new (array32 free_list))
                             (sa_new (array32 reserved_list))) [] [])) =
            rocc f (free_list ++ reserved_list)) as Hocc.
  { intros f. unfold all_chunks, sa_new. cbn [c_alloc c_out c_pend free_general free_reserved sa_iter].
    rewrite !flatten_array32, !occ_app, !occ_frames_of, rocc_app. cbn. lia. }
  unfold sa_new in *.
  split; [split|..]; cbn [c_alloc c_out c_pend free_general free_reserved general_regions
    reserved_regions sa_iter]; rewrite ?flatten_array32; auto; try by constructor.
  - by eapply chunks_of_regions.
  - by eapply chunks_of_regions.
  - by eapply separated_regions.
  - by eapply separated_regions.
  - intros f. rewrite Hocc. apply Hd.
  - intros f Hf'. rewrite Hocc, rocc_app, !rocc_le_regions in Hf' by done.
    destruct (in_regions f free_list) eqn:E1; [left; by apply in_regions_covered|].
    destruct (in_regions f reserved_list) eqn:E2; [right; by apply in_regions_covered|].
    simpl in Hf'. lia.
Qed.

(** C2: Initialization hands every usable frame to the allocator, once.  For nonempty
    free areas that do not overlap each other and nonempty reserved areas, which may
    overlap each other and the free ones but are listed by ascending first frame, at
    most 32 areas in all, [init] terminates without a panic, its final overlap check
    passes, the resulting lists satisfy the invariant on which exclusive ownership
    rests, the general free list holds exactly the frames of the free areas outside
    of the reserved ones, and the reserved list exactly the reserved frames. *)
Theorem init_establishes_invariant (fuel : nat) (free_areas reserved : list PhysicalMemoryRegion) :
  Forall region_wf free_areas -> disjoint_regions free_areas ->
  Forall region_wf reserved -> by_start reserved ->
  (length free_areas + length reserved <= 32)%nat -> (length reserved < fuel)%nat ->
  exists st, init fuel free_areas reserved boot_lists = Done (Ok tt, st) /\
    inv (mkConfig st [] []) /\
    forall f, occ f (sa_iter (free_general st)) =
                Z.b2z (in_regions f free_areas && negb (in_regions f reserved)) /\
              occ f (sa_iter (free_reserved st)) = Z.b2z (in_regions f reserved).
Proof.
  intros Hfw Hfd Hrw Hrs Hlen Hfuel. unfold init.
  change (_ || _ || _ || _)%bool with false. cbv iota.
  pose proof (region_fuel_total free_areas reserved Hfd) as Htot.
  destruct (add_free_areas_ok fuel reserved free_areas []) as (fl & -> & Hflw & Hfll & Hflo);
    [done|done|done|done|simpl; lia|]. simpl outcome_bind. simpl app.
  rewrite decide_False by lia.
  assert (slots_wf TyReserved (reserved_copy <$> reserved)) as Hcw.
  { apply Forall_fmap. eapply Forall_impl; [done|]. by intros r Hr. }
  assert (forall f, in_regions f (reserved_copy <$> reserved) = in_regions f reserved) as Hci.
  { intros f. clear. induction reserved as [|r l IH]; [done|]. rewrite fmap_cons, !in_regions_cons. by f_equal. }
  destruct (merge_reserved_ok TyReserved fuel (reserved_copy <$> reserved))
    as (rl & -> & Hrlw & Hrll & Hrld & Hrlo); [rewrite length_fmap; lia..|done|]. simpl outcome_bind.
  assert (forall f, rocc f fl = Z.b2z (in_regions f free_areas && negb (in_regions f reserved))) as Hfl.
  { intros f. rewrite Hflo, rocc_le_regions by done.
    destruct (in_regions f free_areas), (in_regions f reserved); done. }
  assert (forall f, rocc f rl = Z.b2z (in_regions f reserved)) as Hrl.
  { intros f. rewrite rocc_le_regions by done. by rewrite Hrlo, Hci. }
  assert (disjoint_regions (fl ++ rl)) as Hd.
  { intros f. rewrite rocc_app, Hfl, Hrl.
    destruct (in_regions f free_areas), (in_regions f reserved); simpl; lia. }
  rewrite (proj2 (any_overlap_iff _) Hd). eexists. split; [done|]. split; [by apply init_lists_inv|].
  intros f. cbn [free_general free_reserved sa_new sa_iter].
  by rewrite !flatten_array32, !occ_frames_of, Hfl, Hrl.
Qed.

End InitTheorem.

(** *** Examples *)

Module InitDemo.

Definition fl : RBTreeOps Frames := ListTree.list_ops.
Definition rl : RBTreeOps PhysicalMemoryRegion := ListTree.list_ops.

(** Two free areas and three reserved ones, the last two of which overlap. *)
Definition areas : list PhysicalMemoryRegion :=
  [mkRegion (mkRange 0 159) TyFree; mkRegion (mkRange 256 4096) TyFree].
Definition reserved : list PhysicalMemoryRegion :=
  [mkRegion (mkRange 0 9) TyReserved; mkRegion (mkRange 150 300) TyReserved;
   mkRegion (mkRange 290 310) TyReserved].

Lemma areas_disjoint : disjoint_regions areas.
Proof.
  intros f. unfold rocc, areas, contains; simpl. case_cmp; simpl; lia.
Qed.

End InitDemo.

Lemma init_establishes_invariant_witness :
  exists st, init (fops := InitDemo.fl) (rops := InitDemo.rl) 8 InitDemo.areas InitDemo.reserved boot_lists
             = Done (Ok tt, st) /\
    inv (mkConfig st [] []) /\
    forall f, occ f (sa_iter (free_general st)) =
                Z.b2z (in_regions f InitDemo.areas && negb (in_regions f InitDemo.reserved)) /\
              occ f (sa_iter (free_reserved st)) = Z.b2z (in_regions f InitDemo.reserved).
Proof.
  apply (init_establishes_invariant (fops := InitDemo.fl) (rops := InitDemo.rl) 8).
  - by repeat constructor.
  - apply InitDemo.areas_disjoint.
  - by repeat constructor.
  - by repeat constructor.
  - simpl. lia.
  - simpl. lia.
Defined.

(** The order of the reserved areas matters.  The loop stops at the first reserved
    area that reaches the end of the free area, so a reserved area listed later but
    starting earlier is not cut out: with memory in frames 1 to 99 and the reserved
    areas 50 to 99 and 20 to 30 in this order, the free list keeps frames 20 to 30
    and [init] panics in its final check, while the opposite order succeeds. *)
Theorem init_unsorted_reserved_panics :
  let area := mkRegion (mkRange 1 99) TyFree in
  let hi := mkRegion (mkRange 50 99) TyReserved in
  let lo := mkRegion (mkRange 20 30) TyReserved in
  add_free_areas 8 [hi; lo] [area] [] = Done [mkRegion (mkRange 1 49) TyFree] /\
  merge_reserved 8 [hi; lo] = Done [hi; lo] /\
  init (fops := InitDemo.fl) (rops := InitDemo.rl) 8 [area] [hi; lo] boot_lists = Panic /\
  is_done (init (fops := InitDemo.fl) (rops := InitDemo.rl) 8 [area] [lo; hi] boot_lists) = true.
Proof. repeat split; vm_compute; reflexivity. Qed.
