(* ===== verification/FrameAllocSpec.v ===== *)
(** * The physical frame allocator: what each operation does

    Functional behaviour of allocation and deallocation (success exactly when the
    frames are available, the range handed out, nothing lost or duplicated), and the
    inputs on which the code does not do what its comments say. *)

From S2P Require Import Prelude MemStructs RBTree FrameAlloc FrameAllocLemmas FrameAllocSafety.

Section Spec.
Context {fops : RBTreeOps Frames} {flaws : RBTreeLaws Frames fops}.
Context {rops : RBTreeOps PhysicalMemoryRegion} {rlaws : RBTreeLaws PhysicalMemoryRegion rops}.

(** ** Success *)

Lemma split_range_contained (c : Frames) (r : ChunkRange) :
  contains_range (frame_range c) r = true -> 
  exists sp, split_range Page4K c r = Ok sp /\ frame_range (start_to_end sp) = r.
Proof. intros H. unfold split_range. rewrite H. simpl. eauto. Qed.

Lemma chosen_chunk_succeeds (range : ChunkRange) (ref : ValueRefMut Frames) l x :
  ref_at ref l x -> contains_range (frame_range x) range = true ->
  exists af d l', allocate_from_chosen_chunk range ref None = Done ((af, d), l') /\
    frame_range af = range.
Proof.
  intros Hr Hc. destruct (ref_remove_spec ref l x Hr) as (Hrem & _ & _).
  unfold allocate_from_chosen_chunk. destruct (ref_remove ref) as [o l']. simpl in Hrem. subst o.
  simpl. destruct (split_range_contained x range Hc) as (sp & -> & Hsp). simpl.
  do 3 eexists. split; [done|]. exact Hsp.
Qed.

(** No saturation: the range of a request that stays below the last frame number. *)
Lemma alloc_range_exact (s n : Z) :
  0 <= s -> 0 < n -> s + n <= MAX_PAGE_NUMBER -> alloc_range s n = mkRange s (s + n - 1).
Proof.
  intros. unfold alloc_range. rewrite chunk_add_4k by (alloc_consts; lia).
  rewrite chunk_sub_4k. f_equal. lia.
Qed.

Lemma request_end_exact (s n : Z) :
  0 <= s -> 0 < n -> s + n <= MAX_PAGE_NUMBER -> chunk_add Page4K s (wrap64 (n - 1)) = s + n - 1.
Proof.
  intros. rewrite wrap64_id by (alloc_consts; lia).
  rewrite chunk_add_4k by (alloc_consts; lia). alloc_consts. lia.
Qed.

(** Every chunk stays below the last frame number (physical addresses have 52 bits). *)
Definition below_max (l : list Frames) : Prop := Forall (fun c => fend c < MAX_PAGE_NUMBER) l.

Lemma fsize_eq (c : Frames) : frames_wf c -> fsize c = fend c + 1 - fstart c.
Proof. intros [? ?]. unfold fsize, fend, fstart. rewrite size_4k by lia. lia. Qed.

Lemma big_chunk_range (c : Frames) (n : Z) :
  frames_wf c -> fend c < MAX_PAGE_NUMBER -> 0 < n -> big_enough_free n c = true ->
  alloc_range (fstart c) n = mkRange (fstart c) (fstart c + n - 1) /\
  contains_range (frame_range c) (alloc_range (fstart c) n) = true.
Proof.
  intros Hw Hm Hn Hb. unfold big_enough_free in Hb. bool_to_prop.
  rewrite fsize_eq in * by done. pose proof Hw as [? ?].
  rewrite alloc_range_exact by (unfold fstart, fend in *; lia). split; [done|].
  apply contains_range_iff. unfold fstart, fend in *. simpl. lia.
Qed.

Lemma elem_flatten_opts {A} (arr : list (option A)) (x : A) :
  x ∈ flatten_opts arr <-> Some x ∈ arr.
Proof.
  unfold flatten_opts. rewrite list_elem_of_omap. split.
  - intros (y & Hy & Hx). simpl in Hx. by subst y.
  - intros H. exists (Some x). done.
Qed.

Lemma find_any_chunk_complete (list : StaticArrayRBTree Frames) (n : Z) :
  chunks_of TyFree (sa_iter list) -> below_max (sa_iter list) -> 0 < n ->
  (exists c af d l', c ∈ sa_iter list /\ n <= fsize c /\
     find_any_chunk list n = Done (Ok (af, d), l') /\
     frame_range af = mkRange (fstart c) (fstart c + n - 1)) \/
  (find_any_chunk list n = Done (Err (OutOfAddressSpace n), list) /\
   Forall (fun c => fsize c < n) (sa_iter list)).
Proof.
  intros Hall Hm Hn. unfold chunks_of, below_max in *. rewrite Forall_forall in *.
  assert (forall c, c ∈ sa_iter list -> big_enough_free n c = false -> fsize c < n) as Hsmall.
  { intros c Hc Hb. destruct (Hall c Hc) as [_ Ht]. unfold big_enough_free in Hb.
    rewrite Ht, bool_decide_true, andb_true_r in Hb by done. bool_to_prop. done. }
  assert (forall ref c, ref_at ref (sa_iter list) c -> c ∈ sa_iter list -> big_enough_free n c = true ->
    exists af d l', n <= fsize c /\
      alloc_done (allocate_from_chosen_chunk (alloc_range (fstart c) n) ref None)
        = Done (Ok (af, d), l') /\
      frame_range af = mkRange (fstart c) (fstart c + n - 1)) as Hgo.
  { intros ref c Hr Hc Hb. destruct (big_chunk_range c n) as [Er Hcr]; auto; [by apply Hall|].
    destruct (chosen_chunk_succeeds _ ref _ c Hr Hcr) as (af & d & l' & E & Haf).
    exists af, d, l'. rewrite E. unfold big_enough_free in Hb. bool_to_prop.
    split_and!; auto. congruence. }
  unfold find_any_chunk. destruct list as [arr|t]; cbn [sa_iter] in *.
  - destruct (find_index _ arr) as [i|] eqn:E.
    + apply find_index_Some in E as [([c|] & Hc & Hb) _]; [|done]. rewrite Hc. left.
      assert (c ∈ flatten_opts arr) as Hin by (apply elem_flatten_opts; by eapply list_elem_of_lookup_2).
      destruct (Hgo (RefArray arr i) c) as (af & d & l' & ?); [done|done|done|].
      exists c, af, d, l'. tauto.
    + right. split; [done|]. apply find_index_None in E. rewrite Forall_forall in E.
      intros c Hc. apply Hsmall; [done|]. apply elem_flatten_opts in Hc. by apply (E (Some c)).
  - destruct (find_any_loop_Done n (rb_iter t) (S (length (rb_iter t))) (rb_last t))
      as (o & -> & Hspec); [apply last_tree|rewrite last_pos; case_decide; lia|].
    cbn [outcome_bind]. destruct o as [[c cu]|].
    + destruct Hspec as (Hit & Hc & Hb). left.
      assert (c ∈ rb_iter t) as Hin by (by eapply list_elem_of_lookup_2).
      destruct (Hgo (RefTree cu) c) as (af & d & l' & ?); [done|done|done|].
      exists c, af, d, l'. tauto.
    + right. split; [done|]. intros c Hc. apply Hsmall; [done|].
      apply list_elem_of_lookup in Hc as [j Hj]. apply lookup_lt_Some in Hj as Hlt.
      rewrite last_pos in Hspec. apply (Hspec j c); [lia|lia|done].
Qed.

(** C3: Allocating frames at any address succeeds exactly when a free chunk is large
    enough, and hands out exactly what was asked for.  If some chunk of the general
    free list has at least [num] frames, [allocate_frames_deferred None num] returns
    [num] consecutive frames of type [Free], all of them taken from the general list;
    otherwise it reports that the address space is exhausted and changes nothing. *)
Theorem allocate_any_complete (st : FrameAllocator) out pend (num : Z) :
  inv (mkConfig st out pend) -> below_max (sa_iter (free_general st)) -> 0 < num <= U64_MAX ->
  (Exists (fun c => num <= fsize c) (sa_iter (free_general st)) /\
   exists af d st', allocate_frames_deferred None num st = Done (Ok (af, d), st') /\
     frames_wf af /\ fsize af = num /\ typ af = TyFree /\
     forall f, occ f (sa_iter (free_general st)) =
       cin f af + cin f (free1 d) + cin f (free2 d) + occ f (sa_iter (free_general st'))) \/
  (Forall (fun c => fsize c < num) (sa_iter (free_general st)) /\
   allocate_frames_deferred None num st = Done (Err "out of physical address space", st)).
Proof.
  intros Hi Hm Hn. unfold allocate_frames_deferred.
  rewrite (proj2 (Z.eqb_neq num 0)) by lia.
  destruct (find_any_chunk_complete (free_general st) num) as [(c & af & d & gl & Hc & Hsz & E & Haf)|[E Hsm]];
    [apply Hi|done|lia| |]; rewrite E; cbn [outcome_bind str_result].
  - left. split; [apply Exists_exists; eauto|].
    pose proof (inv_occ_lists _ Hi) as [Ho _].
    eapply find_any_chunk_ok in E; [|apply Hi|done]. destruct E as (_ & Hok & _).
    exists af, d, (set_free_general gl st). split; [done|].
    split; [apply Hok|]. split; [|split; apply Hok].
    rewrite fsize_eq by apply Hok. unfold fend, fstart at 1. rewrite Haf. simpl. lia.
  - right. split; [done|]. by destruct st.
Qed.

(** *** Allocation at an address *)

Lemma occ_two_chunks (l : list Frames) (x y : Frames) (f : Z) :
  (forall f, occ f l <= 1) -> x ∈ l -> y ∈ l ->
  in_range f (frame_range x) -> in_range f (frame_range y) -> x = y.
Proof.
  intros Ho Hx Hy Hfx Hfy. apply list_elem_of_lookup in Hx as [i Hi], Hy as [j Hj].
  destruct (decide (i = j)) as [->|Hij]; [congruence|]. exfalso.
  pose proof (sum_of_two (cin f) l i j x y (fun z => proj1 (cin_bound f z)) Hij Hi Hj) as H.
  apply cin_true in Hfx, Hfy. specialize (Ho f). unfold occ in Ho. lia.
Qed.

(** In the tree, the last chunk that starts at or below a frame is the one that
    contains it, if any does. *)
Lemma upper_bound_finds (t : tree Frames) (c : Frames) (rf : Z) :
  sorted (rb_iter t) -> Forall frames_wf (rb_iter t) -> (forall f, occ f (rb_iter t) <= 1) ->
  c ∈ rb_iter t -> in_range rf (frame_range c) ->
  rb_iter t !! c_pos (rb_upper_bound rf t) = Some c.
Proof.
  intros Hs Hw Ho Hc Hf. rewrite upper_bound_pos by done. unfold upper_position.
  apply list_elem_of_lookup in Hc as [j Hj]. rewrite Forall_lookup in Hw.
  destruct (upper_pos rf (rb_iter t)) as [i|] eqn:Ei; simpl.
  - apply upper_pos_Some in Ei as [(x & Hx & Hk) Hgt].
    destruct (decide (i = j)) as [->|Hij]; [done|]. exfalso.
    destruct (decide (i < j)%nat) as [Hlt|Hge].
    + specialize (Hgt j c Hlt Hj). unfold in_range in Hf. unfold key, Frames_keyed in Hgt. lia.
    + assert (key c <= key x) as Hcx by (eapply (Hs j i); eauto; lia).
      pose proof (sum_of_two (cin (key x)) (rb_iter t) j i c x
        (fun z => proj1 (cin_bound _ z)) ltac:(lia) Hj Hx) as H2.
      specialize (Ho (key x)). unfold occ in Ho.
      assert (cin (key x) c = 1) as E1
        by (apply cin_true; unfold in_range, key, Frames_keyed in *; lia).
      assert (cin (key x) x = 1) as E2
        by (apply cin_true; destruct (Hw _ _ Hx) as [? _]; unfold in_range, key, Frames_keyed in *; lia).
      lia.
  - apply upper_pos_None in Ei. rewrite Forall_lookup in Ei. specialize (Ei j c Hj).
    unfold in_range in Hf. unfold key, Frames_keyed in Ei. simpl in Ei. lia.
Qed.

Lemma find_specific_complete (ty : MemoryRegionType) (list : StaticArrayRBTree Frames) (c : Frames)
    (rf n : Z) :
  sa_sorted list -> chunks_of ty (sa_iter list) -> (forall f, occ f (sa_iter list) <= 1) ->
  c ∈ sa_iter list -> 0 < n -> rf + n <= MAX_PAGE_NUMBER ->
  fstart c <= rf -> rf + n - 1 <= fend c ->
  exists af d l', find_specific_chunk list rf n = Done (Ok (af, d), l') /\
    frame_range af = mkRange rf (rf + n - 1).
Proof.
  intros Hs Hall Ho Hc Hn Hmax Hst Hend. apply chunks_of_wf in Hall as Hw.
  assert (frames_wf c) as [Hc1 Hc2] by (rewrite Forall_forall in Hw; auto).
  assert (contains_range (frame_range c) (mkRange rf (rf + n - 1)) = true) as Hcr.
  { apply contains_range_iff. unfold fstart, fend in *. simpl. lia. }
  unfold find_specific_chunk.
  rewrite request_end_exact, alloc_range_exact by (unfold fstart in *; lia).
  destruct list as [arr|t]; cbn [sa_iter sa_sorted] in *.
  - destruct (find_index _ arr) as [i|] eqn:E.
    + apply find_index_Some in E as [([x|] & Hx & Hcov) _]; [|done]. simpl in Hcov. bool_to_prop.
      assert (x ∈ flatten_opts arr) as Hxin by (apply elem_flatten_opts; by eapply list_elem_of_lookup_2).
      assert (x = c) as ->.
      { eapply (occ_two_chunks _ x c rf); eauto; unfold in_range, fstart, fend in *; lia. }
      destruct (chosen_chunk_succeeds (mkRange rf (rf + n - 1)) (RefArray arr i) (flatten_opts arr) c)
        as (af & d & l' & -> & Haf); [done|done|]. simpl. eauto.
    + apply find_index_None in E. rewrite Forall_forall in E. exfalso.
      specialize (E (Some c) (proj1 (elem_flatten_opts arr c) Hc)). simpl in E.
      apply andb_false_iff in E as [E|E]; bool_to_prop; lia.
  - pose proof (upper_bound_finds t c rf Hs Hw Ho Hc) as Hpos.
    rewrite get_spec, upper_bound_tree, Hpos by (unfold in_range, fstart, fend in *; lia).
    rewrite (proj2 (contains_iff (frame_range c) rf)) by (unfold in_range, fstart, fend in *; lia).
    rewrite (proj2 (Z.leb_le _ _)) by lia.
    destruct (chosen_chunk_succeeds (mkRange rf (rf + n - 1)) (RefTree (rb_upper_bound rf t))
      (rb_iter t) c) as (af & d & l' & -> & Haf); [|done|simpl; eauto].
    split; [apply upper_bound_tree|]. apply Hpos. unfold in_range, fstart, fend in *. lia.
Qed.

(** If no chunk of the list contains the first frame, the search reports
    [AddressNotFound] and leaves the list as it is. *)
Lemma find_specific_absent (list : StaticArrayRBTree Frames) (rf n : Z) :
  Forall (fun c => ~ in_range rf (frame_range c)) (sa_iter list) ->
  0 <= rf -> 0 < n -> rf + n <= MAX_PAGE_NUMBER ->
  find_specific_chunk list rf n = Done (Err (AddressNotFound rf n), list).
Proof.
  intros Hno Hrf Hn Hmax. unfold find_specific_chunk. rewrite request_end_exact by lia.
  rewrite Forall_forall in Hno. destruct list as [arr|t]; cbn [sa_iter] in *.
  - destruct (find_index _ arr) as [i|] eqn:E; [|done].
    apply find_index_Some in E as [([x|] & Hx & Hcov) _]; [|done]. simpl in Hcov. bool_to_prop.
    exfalso. apply (Hno x).
    + apply elem_flatten_opts. by eapply list_elem_of_lookup_2.
    + unfold in_range, fstart, fend in *. lia.
  - rewrite get_spec, upper_bound_tree. destruct (rb_iter t !! _) as [x|] eqn:Ex; [|done].
    destruct (contains _ _) eqn:Ec; [|done]. apply contains_iff in Ec.
    exfalso. eapply Hno; [by eapply list_elem_of_lookup_2|done].
Qed.

(** A request for specific frames succeeds whenever one free chunk covers them.  If
    a chunk of the reserved or of the general free list contains the frame of the
    requested physical address and the [num - 1] frames after it,
    [allocate_frames_deferred] returns exactly these frames. *)
Theorem allocate_at_complete (st : FrameAllocator) out pend (paddr num : Z) (c : Frames) :
  inv (mkConfig st out pend) -> in_u64 paddr -> 0 < num ->
  containing_address paddr + num <= MAX_PAGE_NUMBER ->
  c ∈ sa_iter (free_general st) ++ sa_iter (free_reserved st) ->
  fstart c <= containing_address paddr -> containing_address paddr + num - 1 <= fend c ->
  exists af d st', allocate_frames_deferred (Some paddr) num st = Done (Ok (af, d), st') /\
    frame_range af = mkRange (containing_address paddr) (containing_address paddr + num - 1).
Proof.
  intros Hi Hp Hn Hmax Hc Hst Hend. pose proof (containing_address_valid _ Hp) as [Hv _].
  pose proof (inv_occ_lists _ Hi) as [Hog Hor]. pose proof (inv_lists _ Hi) as Hl. simpl in *.
  unfold allocate_frames_deferred. rewrite (proj2 (Z.eqb_neq num 0)) by lia.
  set (sf := containing_address paddr) in *. apply elem_of_app in Hc as [Hc|Hc].
  - rewrite find_specific_absent; [|apply Forall_forall|lia|lia|lia].
    2:{ intros x Hx Hin.
        pose proof (inv_occ _ Hi sf) as H. rewrite occ_all in H. simpl in H.
        pose proof (occ_elem sf c _ Hc). pose proof (occ_elem sf x _ Hx).
        apply cin_true in Hin. assert (cin sf c = 1) by (apply cin_true; unfold in_range, fstart, fend in *; lia).
        pose proof (occ_nonneg sf out). pose proof (occ_nonneg sf (pieces pend)). lia. }
    cbn [outcome_bind].
    destruct (find_specific_complete TyFree (free_general st) c sf num) as (af & d & l' & E & Haf);
      auto; try apply Hl.
    change (free_general (set_free_reserved (free_reserved st) st)) with (free_general st).
    rewrite E. cbn [outcome_bind]. eauto.
  - destruct (find_specific_complete TyReserved (free_reserved st) c sf num) as (af & d & l' & E & Haf);
      auto; try apply Hl.
    rewrite E. cbn [outcome_bind]. eauto.
Qed.

(** ** Deallocation *)

Lemma drop_frames_total (S : MemoryState) (x : Frames) (st : FrameAllocator) :
  S <> StMapped -> lists_ok st -> held_ok x ->
  (forall f, cin f x + occ f (sa_iter (free_general st)) + occ f (sa_iter (free_reserved st)) <= 1) ->
  has_room (free_general st) -> has_room (free_reserved st) ->
  exists st', drop_frames S Page4K x st = Done st' /\ lists_ok st' /\
    (typ x = TyReserved -> free_general st' = free_general st /\
       forall f, occ f (sa_iter (free_reserved st')) = cin f x + occ f (sa_iter (free_reserved st))) /\
    (typ x = TyFree -> free_reserved st' = free_reserved st /\
       forall f, occ f (sa_iter (free_general st')) = cin f x + occ f (sa_iter (free_general st))).
Proof.
  intros HS Hl Hx Hocc Hrg Hrr.
  assert (drop_frames S Page4K x st = drop_free Page4K x st) as -> by (by destruct S).
  destruct Hx as [[He|Hw] Ht]; unfold drop_free.
  { rewrite (empty_size_zero _ He). simpl. exists st. split_and!; auto; intros _;
      (split; [done|]); intros f; rewrite (cin_range_empty f x He); lia. }
  rewrite size_4k by (destruct Hw; lia).
  rewrite (proj2 (Z.eqb_neq _ 0)) by (destruct Hw; lia).
  rewrite into_4k_4k by done. cbn [typ].
  replace (mkFrames (typ x) (frame_range x)) with x by (by destruct x).
  pose proof (fun f => occ_nonneg f (sa_iter (free_general st))) as Hg0.
  pose proof (fun f => occ_nonneg f (sa_iter (free_reserved st))) as Hr0.
  case_bool_decide as Ety.
  - destruct (free_into_list_ok TyReserved x (free_reserved st)) as [Hroom Hok]; try done; try apply Hl.
    { intros f. specialize (Hocc f). specialize (Hg0 f). lia. }
    specialize (Hroom Hrr). destruct (free_into_list x (free_reserved st)) as [l|]; [|done].
    destruct (Hok l eq_refl) as (? & ? & ?). simpl. eexists. split; [done|].
    split_and!; [by apply lists_ok_reserved|done|congruence].
  - assert (typ x = TyFree) as Ety' by (destruct (typ x); congruence).
    destruct (free_into_list_ok TyFree x (free_general st)) as [Hroom Hok]; try done; try apply Hl.
    { intros f. specialize (Hocc f). specialize (Hr0 f). lia. }
    specialize (Hroom Hrg). destruct (free_into_list x (free_general st)) as [l|]; [|done].
    destruct (Hok l eq_refl) as (? & ? & ?). simpl. eexists. split; [done|].
    split_and!; [by apply lists_ok_general|congruence|done].
Qed.

(** Dropping frames never loses memory and, once the heap is up, never panics.
    Dropping an [AllocatedFrames] (or [UnmappedFrames]) whose frames are not in the
    free lists succeeds whenever the list it belongs to has room (the tree always
    has), keeps the lists well formed, and adds exactly the dropped frames to the free
    frames, to the reserved list for frames of type [Reserved] and to the general list
    otherwise, leaving the other list as it was. *)
Theorem drop_returns_all_frames (S : MemoryState) (x : Frames) (st : FrameAllocator) :
  S <> StMapped -> lists_ok st -> held_ok x ->
  (forall f, cin f x + occ f (sa_iter (free_general st)) + occ f (sa_iter (free_reserved st)) <= 1) ->
  has_room (free_general st) -> has_room (free_reserved st) ->
  exists st', drop_frames S Page4K x st = Done st' /\ lists_ok st' /\
    (typ x = TyReserved -> free_general st' = free_general st /\
       forall f, occ f (sa_iter (free_reserved st')) = cin f x + occ f (sa_iter (free_reserved st))) /\
    (typ x = TyFree -> free_reserved st' = free_reserved st /\
       forall f, occ f (sa_iter (free_general st')) = cin f x + occ f (sa_iter (free_general st))).
Proof. apply drop_frames_total. Qed.

End Spec.

(** ** Splitting and merging *)

(** Splitting frames and merging the two parts again gives back the original
    object: whenever [split_at] cuts a chunk into two nonempty parts, they are
    adjacent, of the type of the original, and merging them in either order yields
    the original range. *)
Theorem split_merge_roundtrip (c a b : Frames) (at_frame : Z) :
  frames_wf c -> fend c < MAX_PAGE_NUMBER -> valid_chunk at_frame ->
  split_at Page4K c at_frame = Ok (a, b) ->
  is_empty (frame_range a) = false -> is_empty (frame_range b) = false ->
  fend a + 1 = at_frame /\ fstart b = at_frame /\
  merge Page4K a b = Ok c /\ merge Page4K b a = Ok c.
Proof.
  intros [Hc1 Hc2] Hm Hv Hs Ha Hb. unfold split_at in Hs. unfold valid_chunk in Hv.
  destruct c as [t [s e]]. unfold fstart, fend in *. simpl in *.
  destruct (is_empty (mkRange s e)); [done|].
  rewrite chunk_sub_4k, chunk_add_4k in Hs by (alloc_consts; lia).
  destruct ((at_frame =? s) && (at_frame <=? e)); [by simplify_eq/=|].
  destruct ((at_frame =? _) && (s <=? _)); [by simplify_eq/=|].
  destruct ((s <? at_frame) && (_ <=? e)) eqn:E; simplify_eq/=. bool_to_prop.
  unfold is_empty in *. simpl in *. bool_to_prop. split; [lia|]. split; [lia|].
  unfold merge, is_empty, fstart, fend. simpl.
  rewrite !chunk_add_4k by (alloc_consts; lia).
  rewrite !(proj2 (Z.leb_le _ _)) by lia. simpl. split; case_cmp; try done; alloc_consts; lia.
Qed.

(** ** Sizes in bytes *)

(** The [_by_bytes] requests ask for enough frames: with no wrap-around, the number
    of frames [allocate_frames_by_bytes_deferred] asks for, starting at the frame of
    [paddr], covers all the bytes from [paddr] to [paddr + num_bytes], and one frame
    fewer would not. *)
Theorem by_bytes_covers_request {fops : RBTreeOps Frames} {rops : RBTreeOps PhysicalMemoryRegion}
    (paddr num_bytes : Z) (st : FrameAllocator) :
  in_u64 paddr -> 0 < num_bytes -> num_bytes + 2 * PAGE_SIZE <= U64_MAX ->
  exists n, allocate_frames_by_bytes_deferred (Some paddr) num_bytes st =
              allocate_frames_deferred (Some paddr) n st /\
    (containing_address paddr + n) * PAGE_SIZE >= paddr + num_bytes /\
    (containing_address paddr + n - 1) * PAGE_SIZE < paddr + num_bytes.
Proof.
  intros Hp Hn Hb. unfold allocate_frames_by_bytes_deferred. eexists. split; [done|].
  unfold containing_address. mem_consts.
  pose proof (Z.mod_pos_bound paddr 4096). pose proof (Z.div_mod paddr 4096).
  rewrite (wrap64_id (num_bytes + _)) by (mem_consts; lia).
  rewrite wrap64_id by (mem_consts; lia).
  set (x := num_bytes + paddr mod 4096 + 4096 - 1) in *.
  pose proof (Z.div_mod x 4096). pose proof (Z.mod_pos_bound x 4096). lia.
Qed.

(** ** A concrete allocator *)

Module Demo.

Definition fl : RBTreeOps Frames := ListTree.list_ops.
Definition rl : RBTreeOps PhysicalMemoryRegion := ListTree.list_ops.

Definition gen : Frames := mkFrames TyFree (mkRange 10 100).
Definition res : Frames := mkFrames TyReserved (mkRange 200 210).

(** One general and one reserved region, all frames free, in the tree form. *)
Definition st : FrameAllocator (fops := fl) (rops := rl) :=
  mkAllocator (fops := fl) (rops := rl)
    (TreeInner (ops := fl) [gen]) (TreeInner (ops := fl) [res])
    (TreeInner (ops := rl) [mkRegion (mkRange 10 100) TyFree])
    (TreeInner (ops := rl) [mkRegion (mkRange 200 210) TyReserved]).

Definition cfg : Config (fops := fl) (rops := rl) := mkConfig (fops := fl) (rops := rl) st [] [].

Lemma sorted_single {A} `{Keyed A} (x : A) : sorted [x].
Proof. apply sorted_cons. split; [constructor|apply sorted_nil]. Qed.

Lemma lists : lists_ok (fops := fl) (rops := rl) st.
Proof.
  split; simpl; try apply sorted_single;
    try (repeat constructor; vm_compute; congruence);
    (split; [repeat constructor; vm_compute; congruence|];
     intros f; simpl; unfold contains; simpl; case_cmp; simpl; lia).
Qed.

Lemma demo_inv : inv (fops := fl) (rops := rl) cfg.
Proof.
  split; simpl; [apply lists|constructor|constructor| |].
  - intros f. unfold all_chunks, occ, cin, contains; simpl. case_cmp; simpl; lia.
  - intros f. unfold all_chunks, occ, cin, contains; simpl. intros Hf.
    destruct (decide (10 <= f <= 100)) as [Hg|Hg].
    + left. eexists. split; [by left|]. exact Hg.
    + right. eexists. split; [by left|]. unfold in_range; simpl. revert Hf. case_cmp; simpl; lia.
Qed.

End Demo.

(** ** Witnesses *)

Import Demo.

Lemma allocate_any_complete_witness :
  exists af d st', allocate_frames_deferred (fops := fl) (rops := rl) None 5 st = Done (Ok (af, d), st')
    /\ fsize af = 5.
Proof.
  destruct (allocate_any_complete (flaws := ListTree.list_laws)
              st [] [] 5 demo_inv) as [(_ & af & d & st' & E & _ & Hs & _)|[Hf _]].
  - repeat constructor.
  - vm_compute. split; congruence.
  - exists af, d, st'. split; [exact E|exact Hs].
  - exfalso. inversion Hf as [|x l Hx]. vm_compute in Hx. discriminate.
Defined.

Lemma allocate_at_complete_witness :
  exists af d st', allocate_frames_deferred (fops := fl) (rops := rl) (Some 0x14123) 3 st =
      Done (Ok (af, d), st') /\ frame_range af = mkRange 20 22.
Proof.
  apply (allocate_at_complete (flaws := ListTree.list_laws)
           st [] [] 0x14123 3 gen demo_inv); try (vm_compute; repeat split; congruence).
  by left.
Defined.

Lemma drop_returns_all_frames_witness :
  exists st', drop_frames (fops := fl) (rops := rl) StAllocated Page4K
                (mkFrames TyFree (mkRange 101 110)) st = Done st' /\
    sa_iter (free_general st') = [mkFrames TyFree (mkRange 10 110)].
Proof.
  destruct (drop_returns_all_frames (flaws := ListTree.list_laws)
              StAllocated (mkFrames TyFree (mkRange 101 110)) st) as (st' & E & _).
  - done.
  - apply Demo.lists.
  - split; [right; vm_compute; repeat split; congruence|done].
  - intros f. unfold occ, cin, contains; simpl. case_cmp; simpl; lia.
  - exact I.
  - exact I.
  - exists st'. split; [exact E|]. vm_compute in E. injection E as <-. reflexivity.
Defined.

Lemma split_merge_roundtrip_witness :
  split_at Page4K gen 50 = Ok (mkFrames TyFree (mkRange 10 49), mkFrames TyFree (mkRange 50 100)) /\
  merge Page4K (mkFrames TyFree (mkRange 50 100)) (mkFrames TyFree (mkRange 10 49)) = Ok gen.
Proof.
  split; [reflexivity|].
  apply (split_merge_roundtrip gen (mkFrames TyFree (mkRange 10 49)) (mkFrames TyFree (mkRange 50 100)) 50);
    try reflexivity; vm_compute; repeat split; congruence.
Defined.

Lemma by_bytes_covers_request_witness :
  exists n, allocate_frames_by_bytes_deferred (fops := fl) (rops := rl) (Some 0x14FFF) 2 st =
            allocate_frames_deferred (fops := fl) (rops := rl) (Some 0x14FFF) n st /\ n = 2.
Proof.
  destruct (by_bytes_covers_request (fops := fl) (rops := rl) 0x14FFF 2 st) as (n & E & H1 & H2).
  - vm_compute. split; congruence.
  - lia.
  - vm_compute. congruence.
  - exists n. split; [exact E|]. change (containing_address 0x14FFF) with 20 in *.
    change PAGE_SIZE with 4096 in *. lia.
Defined.

(** Five frames anywhere, then two reserved frames at an address. *)
Lemma demo_run :
  exists c', rtc (step (fops := fl) (rops := rl)) cfg c' /\ exists x y, c_out c' = [x; y].
Proof.
  eexists. split.
  - eapply rtc_l; [eapply (step_alloc (fops := fl) (rops := rl) None 5); [|vm_compute; reflexivity]|].
    { split; [vm_compute; split; congruence|exact I]. }
    eapply rtc_l; [eapply (step_alloc (fops := fl) (rops := rl) (Some 0xC8000) 2);
      [|vm_compute; reflexivity]|].
    { split; [vm_compute; split; congruence|]. split; [vm_compute; split; congruence|].
      split; eexists; (split; [by left|vm_compute; congruence]). }
    apply rtc_refl.
  - eexists _, _. reflexivity.
Qed.


(** ** Where the code departs from its comments *)

Section Departures.
Context {rops : RBTreeOps PhysicalMemoryRegion} {rlaws : RBTreeLaws PhysicalMemoryRegion rops}.

(** [contains_any] starts its scan at the last region that starts at or below the
    frames; if there is none, the cursor is null and it looks at no region. *)
Lemma contains_any_blind (t : tree PhysicalMemoryRegion) (frames : ChunkRange) :
  sorted (rb_iter t) -> Forall (fun r => r_start frames < r_start (pr_frames r)) (rb_iter t) ->
  contains_any (TreeInner t) frames = Done false.
Proof.
  intros Hs Hall. unfold contains_any, overlaps_any.
  destruct (scan_overlap_Done pr_frames region_key frames (S (length (rb_iter t)))
    (rb_upper_bound (r_start frames) t)) as (b & -> & Hb); rewrite ?upper_bound_tree; [done|lia|].
  f_equal. destruct b; [|done]. exfalso. destruct Hb as [Hb _].
  destruct (Hb eq_refl) as (x & Hx & _). rewrite upper_bound_tree, upper_bound_pos in Hx by done.
  unfold upper_position in Hx.
  destruct (upper_pos (r_start frames) (rb_iter t)) as [i|] eqn:E.
  - apply upper_pos_Some in E as [(y & Hy & Hk) _]. rewrite Forall_lookup in Hall.
    specialize (Hall i y Hy). unfold key, Region_keyed in Hk. simpl in Hall. lia.
  - simpl in Hx. rewrite drop_all in Hx. by inversion Hx.
Qed.

End Departures.

(** The check that keeps reserved regions apart from general memory misses a
    region that starts above the first requested frame, and a frame is then handed out
    twice.  With general memory in frames 10 to 100, a request for frames 5 to 14 in
    the tree form is taken to lie outside of it, so frames 5 to 14 become a reserved
    region and are allocated; the next request for general memory returns frames 10 to
    100, so frames 10 to 14 have two owners. *)
Theorem low_request_double_allocates :
  exists af st1 bf st2,
    allocate_frames_at (fops := fl) (rops := rl) (Some 0x5000) 10 st = Done (Ok af, st1) /\
    allocate_frames_at (fops := fl) (rops := rl) None 91 st1 = Done (Ok bf, st2) /\
    forall f, 10 <= f <= 14 -> in_range f (frame_range af) /\ in_range f (frame_range bf).
Proof.
  eexists _, _, _, _. split; [vm_compute; reflexivity|]. split; [vm_compute; reflexivity|].
  intros f Hf. unfold in_range; simpl. lia.
Qed.

(** A request that ends at the last frame number is cut short by the saturating
    [requested_frame + num_frames - 1]: asking for the last two frames of a chunk that
    reaches [MAX_PAGE_NUMBER] returns only one frame, and asking for the last frame
    alone panics in [allocate_from_chosen_chunk]. *)
Theorem last_frame_request_cut_short :
  let chunk := mkFrames TyFree (mkRange (MAX_PAGE_NUMBER - 9) MAX_PAGE_NUMBER) in
  let list : StaticArrayRBTree Frames (ops := fl) := ArrayInner (ops := fl) [Some chunk] in
  (exists af d l', find_specific_chunk (fops := fl) list (MAX_PAGE_NUMBER - 1) 2 = Done (Ok (af, d), l') /\
     fsize af = 1) /\
  find_specific_chunk (fops := fl) list MAX_PAGE_NUMBER 1 = Panic.
Proof.
  split; [|vm_compute; reflexivity].
  eexists _, _, _. split; [vm_compute; reflexivity|vm_compute; reflexivity].
Qed.

(** [merge] does not compare the types of the two chunks, so reserved memory can
    reach the general free list: an owner that merges reserved frames into adjacent
    general ones and drops the result adds the reserved frames to the general list. *)
Theorem merge_leaks_reserved_frames :
  let g := mkFrames TyFree (mkRange 190 199) in
  let r := mkFrames TyReserved (mkRange 200 210) in
  exists m st', merge Page4K g r = Ok m /\ typ m = TyFree /\
    drop_frames (fops := fl) (rops := rl) StAllocated Page4K m
      (set_free_reserved (TreeInner (ops := fl) []) st) = Done st' /\
    occ 200 (sa_iter (free_general st')) = 1 /\
    contains_any (rops := rl) (reserved_regions st') (mkRange 200 200) = Done true.
Proof.
  eexists _, _. split; [vm_compute; reflexivity|]. split; [reflexivity|].
  split; [vm_compute; reflexivity|]. split; [vm_compute; reflexivity|vm_compute; reflexivity].
Qed.
