(* ===== verification/PageAlloc.v ===== *)
(** * The virtual page allocator: data and operations

    Models kernel/page_allocator/src/lib.rs.  The two statics the operations change,
    [DESIGNATED_PAGES_LOW_END] (set once) and [FREE_PAGE_LIST], are the fields of
    [PageAllocator].  A [Chunk] is a free range, an [AllocatedPages] a range its
    holder owns; both are ordered and dropped as in the source.  Addresses are the
    virtual addresses of x86_64.  Log messages and [fmt] are not modelled. *)

From S2P Require Import Prelude MemStructs RBTree.

#[local] Existing Instance virtual_ops.

(** ** Data *)

Record Chunk := mkChunk { pages : ChunkRange }.

#[export] Instance Chunk_eq_dec : EqDecision Chunk.
Proof. solve_decision. Defined.

(** [Ord] and [PartialEq] only look at the starting page. *)
#[export] Instance Chunk_keyed : Keyed Chunk := fun c => r_start (pages c).

Definition cstart (c : Chunk) : Z := r_start (pages c).
Definition cend (c : Chunk) : Z := r_end (pages c).

Definition chunk_eqb (a b : Chunk) : bool := cstart a =? cstart b.

Definition chunk_empty : Chunk := mkChunk range_empty.

Record AllocatedPages := mkPages { ap_pages : ChunkRange }.

Definition pstart (p : AllocatedPages) : Z := r_start (ap_pages p).
Definition pend (p : AllocatedPages) : Z := r_end (ap_pages p).

Definition as_allocated_pages (c : Chunk) : AllocatedPages := mkPages (pages c).

(** The pending insertions of [DeferredAllocAction]. *)
Record PageDeferred := mkPageDeferred { pfree1 : Chunk; pfree2 : Chunk }.

Definition page_deferred_new (f1 f2 : option Chunk) : PageDeferred :=
  mkPageDeferred (default chunk_empty f1) (default chunk_empty f2).

Inductive PageAllocError : Type :=
| PageAddressNotFree (page num : Z)
| PageOutOfAddressSpace (num : Z) (range : option ChunkRange)
| PageNotInitialized.

Definition page_err_str (e : PageAllocError) : string :=
  match e with
  | PageAddressNotFree _ _ => "address was in use or outside of this page allocator's range"
  | PageOutOfAddressSpace _ (Some _) => "out of virtual address space in specified range"
  | PageOutOfAddressSpace _ None => "out of virtual address space"
  | PageNotInitialized => "the page allocator has not yet been initialized"
  end.

Inductive AllocationRequest : Type :=
| AtVirtualAddress (vaddr : Z)
| AlignedTo (alignment_4k_pages : Z)
| WithinRange (range : ChunkRange)
| AnyAddress.

Definition DESIGNATED_PAGES_HIGH_START : Z :=
  containing_address (addr_new_canonical UPCOMING_PAGE_TABLE_RECURSIVE_P4_START).

Definition MIN_PAGE : Z := containing_address 0.
Definition MAX_PAGE : Z := containing_address (addr_new_canonical MAX_VIRTUAL_ADDRESS).

(** ** Merging and splitting owned pages *)

Definition pages_merge (P : PageSize) (self ap : AllocatedPages)
  : result AllocatedPages AllocatedPages :=
  if negb (pstart ap =? chunk_add P (pend self) 1) then Err ap
  else Ok (mkPages (mkRange (pstart self) (pend ap))).

Definition pages_split (P : PageSize) (self : AllocatedPages) (at_page : Z)
  : result (AllocatedPages * AllocatedPages) AllocatedPages :=
  let end_of_first := chunk_sub P at_page 1 in
  let mk a b := Ok (mkPages a, mkPages b) in
  if (at_page =? pstart self) && (at_page <=? pend self)
  then mk range_empty (mkRange at_page (pend self))
  else if (at_page =? chunk_add P (pend self) 1) && (pstart self <=? end_of_first)
  then mk (mkRange (pstart self) (pend self)) range_empty
  else if (pstart self <? at_page) && (end_of_first <=? pend self)
  then mk (mkRange (pstart self) end_of_first) (mkRange at_page (pend self))
  else Err self.

(** ** The allocator *)

Section PageAllocator.
Context {cops : RBTreeOps Chunk}.

Record PageAllocator := mkPageAllocator {
  designated_low_end : option Z;
  free_page_list : StaticArrayRBTree Chunk;
}.

(** The statics before [init]. *)
Definition page_allocator_static : PageAllocator := mkPageAllocator None sa_empty.

Definition set_free_pages (l : StaticArrayRBTree Chunk) (st : PageAllocator) : PageAllocator :=
  mkPageAllocator (designated_low_end st) l.

(** The four chunks [init] puts into the array. *)
Definition initial_free_chunks (low_end : Z) : list Chunk :=
  [ mkChunk (mkRange (containing_address 0) low_end);
    mkChunk (mkRange (chunk_add Page4K low_end 1) (chunk_sub Page4K DESIGNATED_PAGES_HIGH_START 1));
    mkChunk (mkRange (containing_address (addr_new_canonical KERNEL_HEAP_START))
                     (containing_address (addr_new_canonical (RECURSIVE_P4_START - 1))));
    mkChunk (mkRange (containing_address (addr_new_canonical KERNEL_TEXT_START)) MAX_PAGE) ].

(** [DESIGNATED_PAGES_LOW_END] is a [Once]: a second call keeps the first value. *)
Definition page_init (end_vaddr_of_low_designated_region : Z) (st : PageAllocator)
  : outcome (result unit string * PageAllocator) :=
  if negb (end_vaddr_of_low_designated_region <? start_address DESIGNATED_PAGES_HIGH_START)
  then Panic
  else
    let low_end := default (containing_address end_vaddr_of_low_designated_region)
                     (designated_low_end st) in
    Done (Ok tt, mkPageAllocator (Some low_end)
                   (sa_new ((Some <$> initial_free_chunks low_end) ++ replicate 28 None))).

(** *** Allocation from a chosen chunk *)

Definition PageResult : Type :=
  outcome (result (AllocatedPages * PageDeferred) PageAllocError * StaticArrayRBTree Chunk).

Definition new_allocation (start_page num_pages : Z) : Chunk :=
  mkChunk (mkRange start_page (chunk_add Page4K start_page (wrap64 (num_pages - 1)))).

(** The two sanity checks on the piece before and the piece after the allocation. *)
Definition before_apart (na : Chunk) (before : option Chunk) : bool :=
  match before with
  | Some b => negb (contains (pages na) (cend b)) && negb (contains (pages b) (cstart na))
  | None => true
  end.

Definition after_apart (na : Chunk) (after : option Chunk) : bool :=
  match after with
  | Some a => negb (contains (pages na) (cstart a)) && negb (contains (pages a) (cend na))
  | None => true
  end.

Definition adjust_chosen_chunk (start_page num_pages : Z) (chosen_chunk : Chunk)
    (chosen_chunk_ref : ValueRefMut Chunk) : PageResult :=
  let na := new_allocation start_page num_pages in
  let before := if start_page =? MIN_PAGE then None
                else Some (mkChunk (mkRange (cstart chosen_chunk) (chunk_sub Page4K (cstart na) 1))) in
  let after := if cend na =? MAX_PAGE then None
               else Some (mkChunk (mkRange (chunk_add Page4K (cend na) 1) (cend chosen_chunk))) in
  if negb (before_apart na before) then Panic
  else if negb (after_apart na after) then Panic
  else
    let '(removed, list) := ref_remove chosen_chunk_ref in
    match removed with
    | Some c =>
        if chunk_eqb chosen_chunk c
        then Done (Ok (as_allocated_pages na, page_deferred_new before after), list)
        else Panic
    | None => Panic
    end.

(** *** Allocation at an address *)

(** The array loop of [find_specific_chunk] stops at the first chunk that covers the
    request. *)
Definition chunk_covers (requested_page requested_end_page : Z) (elem : option Chunk) : bool :=
  match elem with
  | Some chunk => (cstart chunk <=? requested_page) && (requested_end_page <=? cend chunk)
  | None => false
  end.

(** The loop that merges the contiguous next chunks: each one is removed and its end
    becomes the new end. *)
Fixpoint merge_next_chunks (fuel : nat) (new_end_page : Z) (cur : cursor Chunk)
  : outcome (Z * cursor Chunk) :=
  match fuel with
  | O => Panic
  | S fuel' =>
      match c_get cur with
      | Some next_chunk =>
          if chunk_sub Page4K (cstart next_chunk) 1 =? new_end_page then
            let '(removed, cur') := c_remove cur in
            let* _ := expect removed in
            merge_next_chunks fuel' (cend next_chunk) cur'
          else Done (new_end_page, cur)
      | None => Done (new_end_page, cur)
      end
  end.

Definition page_find_specific (list : StaticArrayRBTree Chunk) (requested_page num_pages : Z)
  : PageResult :=
  let requested_end_page := chunk_add Page4K requested_page (wrap64 (num_pages - 1)) in
  let not_free l := Done (Err (PageAddressNotFree requested_page num_pages), l) in
  match list with
  | ArrayInner arr =>
      match find_index (chunk_covers requested_page requested_end_page) arr with
      | Some i =>
          match arr !! i with
          | Some (Some chunk) =>
              adjust_chosen_chunk requested_page num_pages chunk (RefArray arr i)
          | _ => not_free list
          end
      | None => not_free list
      end
  | TreeInner t =>
      let cur := rb_upper_bound requested_page t in
      match c_get cur with
      | None => not_free list
      | Some chunk =>
          if cstart chunk <=? requested_page then
            if requested_end_page <=? cend chunk
            then adjust_chosen_chunk requested_page num_pages chunk (RefTree cur)
            else
              let* (new_end_page, cur) :=
                merge_next_chunks (S (length (rb_iter t))) (cend chunk) (c_next cur) in
              if cend chunk <? new_end_page then
                let cur := c_prev cur in
                match c_replace_with (mkChunk (mkRange (cstart chunk) new_end_page)) cur with
                | (Ok _, cur) => adjust_chosen_chunk requested_page num_pages chunk (RefTree cur)
                | (Err _, _) => Panic
                end
              else not_free (TreeInner (c_tree cur))
          else not_free list
      end
  end.

(** *** Allocation anywhere *)

(** The start of an aligned allocation of [num_pages] between two pages, if
    [lowest_possible_start_page + num_pages <= highest_possible_end_page]. *)
Definition try_fit (alignment num_pages low high : Z) : outcome (option Z) :=
  let* lowest_possible_start_page := align_up low alignment in
  Done (if chunk_add Page4K lowest_possible_start_page num_pages <=? high
        then Some lowest_possible_start_page else None).

(** The test of the first pass, within [range], and that of the designated regions. *)
Definition fit_in_range (alignment num_pages : Z) (range : ChunkRange) (chunk : Chunk)
  : outcome (option Z) :=
  try_fit alignment num_pages (Z.max (cstart chunk) (r_start range))
    (Z.min (cend chunk) (r_end range)).

Definition fit_in_chunk (alignment num_pages : Z) (chunk : Chunk) : outcome (option Z) :=
  try_fit alignment num_pages (cstart chunk) (cend chunk).

(** A chosen chunk: where it is, the chunk, and the start of the allocation. *)
Definition Choice : Type := option (ValueRefMut Chunk * Chunk * Z).

(** [for elem in arr.iter_mut()], from index [i] on. *)
Fixpoint search_array (fit : Chunk -> outcome (option Z)) (arr : list (option Chunk)) (i : nat)
    (rest : list (option Chunk)) : outcome Choice :=
  match rest with
  | [] => Done None
  | None :: rest' => search_array fit arr (S i) rest'
  | Some chunk :: rest' =>
      let* r := fit chunk in
      match r with
      | Some start_page => Done (Some (RefArray arr i, chunk, start_page))
      | None => search_array fit arr (S i) rest'
      end
  end.

(** [while let Some(chunk) = cursor.get()] with [cursor.move_prev()]: the loop leaves
    before looking at a chunk that satisfies [stop_at] and after one that satisfies
    [stop_after]. *)
Fixpoint search_tree (fuel : nat) (fit : Chunk -> outcome (option Z))
    (stop_at stop_after : Chunk -> bool) (cur : cursor Chunk) : outcome Choice :=
  match fuel with
  | O => Panic
  | S fuel' =>
      match c_get cur with
      | None => Done None
      | Some chunk =>
          if stop_at chunk then Done None
          else
            let* r := fit chunk in
            match r with
            | Some start_page => Done (Some (RefTree cur, chunk, start_page))
            | None => if stop_after chunk then Done None
                      else search_tree fuel' fit stop_at stop_after (c_prev cur)
            end
      end
  end.

Definition never (c : Chunk) : bool := false.

(** The first pass. *)
Definition search_range (list : StaticArrayRBTree Chunk) (num_pages : Z) (range : ChunkRange)
    (alignment : Z) : outcome Choice :=
  let fit := fit_in_range alignment num_pages range in
  match list with
  | ArrayInner arr => search_array fit arr 0 arr
  | TreeInner t =>
      search_tree (S (length (rb_iter t))) fit never (fun c => cstart c <=? r_start range)
        (rb_upper_bound (r_end range) t)
  end.

(** The second pass, over the designated regions. *)
Definition search_designated (list : StaticArrayRBTree Chunk) (num_pages low_end alignment : Z)
  : outcome Choice :=
  let fit := fit_in_chunk alignment num_pages in
  match list with
  | ArrayInner arr => search_array fit arr 0 arr
  | TreeInner t =>
      let fuel := S (length (rb_iter t)) in
      let* low := search_tree fuel fit never never (rb_upper_bound low_end t) in
      match low with
      | Some choice => Done (Some choice)
      | None => search_tree fuel fit (fun c => cstart c <? DESIGNATED_PAGES_HIGH_START) never
                  (rb_last t)
      end
  end.

Definition page_find_any (low_end_opt : option Z) (list : StaticArrayRBTree Chunk) (num_pages : Z)
    (within_range : option ChunkRange) (alignment : Z) : PageResult :=
  match low_end_opt with
  | None => Done (Err PageNotInitialized, list)
  | Some low_end =>
      let full_range := mkRange (chunk_add Page4K low_end 1)
                                (chunk_sub Page4K DESIGNATED_PAGES_HIGH_START 1) in
      let range := default full_range within_range in
      let* first := search_range list num_pages range alignment in
      match first with
      | Some (ref, chunk, start_page) => adjust_chosen_chunk start_page num_pages chunk ref
      | None =>
          match within_range with
          | Some r => Done (Err (PageOutOfAddressSpace num_pages (Some r)), list)
          | None =>
              let* second := search_designated list num_pages low_end alignment in
              match second with
              | Some (ref, chunk, start_page) => adjust_chosen_chunk start_page num_pages chunk ref
              | None => Done (Err (PageOutOfAddressSpace num_pages None), list)
              end
          end
      end
  end.

(** *** Entry points *)

Definition page_search (request : AllocationRequest) (num_pages : Z) (st : PageAllocator)
  : PageResult :=
  match request with
  | AtVirtualAddress vaddr =>
      page_find_specific (free_page_list st) (containing_address vaddr) num_pages
  | AlignedTo alignment =>
      page_find_any (designated_low_end st) (free_page_list st) num_pages None alignment
  | WithinRange range =>
      page_find_any (designated_low_end st) (free_page_list st) num_pages (Some range) 1
  | AnyAddress =>
      page_find_any (designated_low_end st) (free_page_list st) num_pages None 1
  end.

Definition allocate_pages_deferred (request : AllocationRequest) (num_pages : Z)
    (st : PageAllocator)
  : outcome (result (AllocatedPages * PageDeferred) string * PageAllocator) :=
  if num_pages =? 0 then Done (Err "cannot allocate zero pages", st)
  else
    let* (r, l) := page_search request num_pages st in
    Done (match r with Ok x => Ok x | Err e => Err (page_err_str e) end, set_free_pages l st).

Definition allocate_pages_by_bytes_deferred (request : AllocationRequest) (num_bytes : Z)
    (st : PageAllocator)
  : outcome (result (AllocatedPages * PageDeferred) string * PageAllocator) :=
  let actual_num_bytes := match request with
                          | AtVirtualAddress vaddr => wrap64 (num_bytes + vaddr mod PAGE_SIZE)
                          | _ => num_bytes
                          end in
  let num_pages := wrap64 (actual_num_bytes + PAGE_SIZE - 1) / PAGE_SIZE in
  allocate_pages_deferred request num_pages st.

(** [Drop] of a [DeferredAllocAction]. *)
Definition insert_piece (c : Chunk) (st : PageAllocator) : outcome PageAllocator :=
  if 0 <? size_in_chunks Page4K (pages c)
  then let* l := unwrap (sa_insert c (free_page_list st)) in Done (set_free_pages l st)
  else Done st.

Definition drop_page_deferred (d : PageDeferred) (st : PageAllocator) : outcome PageAllocator :=
  let* st := insert_piece (pfree1 d) st in
  insert_piece (pfree2 d) st.

(** [.map(|(ap, _action)| ap)]: the action is dropped as soon as the allocation has
    returned. *)
Definition drop_action
    (m : outcome (result (AllocatedPages * PageDeferred) string * PageAllocator))
  : outcome (result AllocatedPages string * PageAllocator) :=
  let* (r, st) := m in
  match r with
  | Ok (ap, action) => let* st := drop_page_deferred action st in Done (Ok ap, st)
  | Err e => Done (Err e, st)
  end.

Definition ok {A E} (r : result A E) : option A :=
  match r with Ok a => Some a | Err _ => None end.

Definition allocate_pages (num_pages : Z) (st : PageAllocator)
  : outcome (option AllocatedPages * PageAllocator) :=
  let* (r, st) := drop_action (allocate_pages_deferred AnyAddress num_pages st) in
  Done (ok r, st).

Definition allocate_pages_by_bytes (num_bytes : Z) (st : PageAllocator)
  : outcome (option AllocatedPages * PageAllocator) :=
  let* (r, st) := drop_action (allocate_pages_by_bytes_deferred AnyAddress num_bytes st) in
  Done (ok r, st).

Definition allocate_pages_by_bytes_at (vaddr num_bytes : Z) (st : PageAllocator) :=
  drop_action (allocate_pages_by_bytes_deferred (AtVirtualAddress vaddr) num_bytes st).

Definition allocate_pages_at (vaddr num_pages : Z) (st : PageAllocator) :=
  drop_action (allocate_pages_deferred (AtVirtualAddress vaddr) num_pages st).

Definition allocate_pages_in_range (num_pages : Z) (range : ChunkRange) (st : PageAllocator) :=
  drop_action (allocate_pages_deferred (WithinRange range) num_pages st).

Definition allocate_pages_by_bytes_in_range (num_bytes : Z) (range : ChunkRange)
    (st : PageAllocator) :=
  drop_action (allocate_pages_by_bytes_deferred (WithinRange range) num_bytes st).

(** *** Deallocation *)

(** [replace_with(..).is_ok()] at a neighbour. *)
Definition replace_neighbour (r : ChunkRange) (cur : cursor Chunk) : option (tree Chunk) :=
  match c_replace_with (mkChunk r) cur with
  | (Ok _, cur') => Some (c_tree cur')
  | (Err _, _) => None
  end.

(** Prepend the chunk onto the next one if that is contiguous. *)
Definition prepend_to_next (chunk : Chunk) (cur : cursor Chunk) : option (tree Chunk) :=
  match c_get cur with
  | Some next_chunk =>
      if chunk_add Page4K (cend chunk) 1 =? cstart next_chunk
      then replace_neighbour (mkRange (cstart chunk) (cend next_chunk)) cur
      else None
  | None => None
  end.

(** Append it onto the previous one. *)
Definition append_to_prev (chunk : Chunk) (cur : cursor Chunk) : option (tree Chunk) :=
  match c_get (c_prev cur) with
  | Some prev_chunk =>
      if chunk_add Page4K (cend prev_chunk) 1 =? cstart chunk
      then replace_neighbour (mkRange (cstart prev_chunk) (cend chunk)) (c_prev cur)
      else None
  | None => None
  end.

Definition free_pages_into_tree (chunk : Chunk) (t : tree Chunk) : tree Chunk :=
  let cur := rb_lower_bound (cstart chunk) t in
  match prepend_to_next chunk cur with
  | Some t' => t'
  | None =>
      match append_to_prev chunk cur with
      | Some t' => t'
      | None => c_tree (c_insert chunk cur)
      end
  end.

(** [Drop] of [AllocatedPages]: an array without an empty slot only logs an error. *)
Definition drop_pages (P : PageSize) (ap : AllocatedPages) (st : PageAllocator) : PageAllocator :=
  if size_in_chunks P (ap_pages ap) =? 0 then st
  else
    let chunk := mkChunk (into_4k P (ap_pages ap)) in
    match free_page_list st with
    | ArrayInner arr =>
        match sa_insert chunk (ArrayInner arr) with
        | Ok l => set_free_pages l st
        | Err _ => st
        end
    | TreeInner t => set_free_pages (TreeInner (free_pages_into_tree chunk t)) st
    end.

Definition convert_page_allocator_to_heap_based (st : PageAllocator) : PageAllocator :=
  set_free_pages (convert_to_heap_allocated (free_page_list st)) st.

End PageAllocator.
Arguments PageAllocator {cops}.
