(* ===== verification/PageAllocSafety.v ===== *)
(** * The virtual page allocator: exclusive ownership

    As for frames, the allocator and its clients form a transition system: the free
    list, the [AllocatedPages] objects handed out and the deferred actions not yet
    dropped.  Every place is a range, and the number of places that hold a page
    ([cnt]) never grows.  Requests at an address whose free chunk is too small make
    [find_specific_chunk] merge chunks; those are excluded here and treated in
    PageAllocSpec. *)

From S2P Require Import Prelude MemStructs RBTree PageAlloc.

(** ** Counting *)

(** 1 if the page is in the range, 0 otherwise. *)
Definition rin (f : Z) (r : ChunkRange) : Z := Z.b2z (contains r f).

(** The number of ranges that contain the page. *)
Definition cnt (f : Z) (l : list ChunkRange) : Z := sum_of (rin f) l.

(** A range of valid pages, possibly empty: what clients and deferred actions hold. *)
Definition range_ok (r : ChunkRange) : Prop :=
  0 <= r_start r /\ 0 <= r_end r <= MAX_PAGE_NUMBER.

Lemma rin_bound (f : Z) (r : ChunkRange) : 0 <= rin f r <= 1.
Proof. unfold rin. destruct (contains _ _); simpl; lia. Qed.

Lemma rin_true (f : Z) (r : ChunkRange) : rin f r = 1 <-> in_range f r.
Proof. unfold rin. rewrite <- contains_iff. destruct (contains _ _); simpl; split; congruence. Qed.

Lemma rin_empty (f : Z) (r : ChunkRange) : r_end r < r_start r -> rin f r = 0.
Proof. intros H. unfold rin, contains. case_cmp; simpl; lia. Qed.

Lemma cnt_nonneg (f : Z) (l : list ChunkRange) : 0 <= cnt f l.
Proof. apply sum_of_nonneg. intros c. pose proof (rin_bound f c). lia. Qed.

Lemma cnt_app (f : Z) (l1 l2 : list ChunkRange) : cnt f (l1 ++ l2) = cnt f l1 + cnt f l2.
Proof. apply sum_of_app. Qed.

Lemma cnt_cons (f : Z) (r : ChunkRange) (l : list ChunkRange) : cnt f (r :: l) = rin f r + cnt f l.
Proof. done. Qed.

#[export] Instance cnt_Permutation (f : Z) : Proper (Permutation ==> eq) (cnt f).
Proof. apply sum_of_Permutation. Qed.

Lemma cnt_elem (f : Z) (r : ChunkRange) (l : list ChunkRange) : r ∈ l -> rin f r <= cnt f l.
Proof. apply sum_of_elem. intros d. pose proof (rin_bound f d). lia. Qed.

Lemma range_ok_size (r : ChunkRange) :
  range_ok r -> size_in_chunks Page4K r = Z.max 0 (r_end r + 1 - r_start r).
Proof. intros [? ?]. by apply size_4k. Qed.

Lemma wf_range_ok (r : ChunkRange) : wf_range r -> range_ok r.
Proof. unfold wf_range, range_ok. lia. Qed.

(** Split the membership counts of a goal into comparisons. *)
Ltac count_pages :=
  unfold rin, contains, cstart, cend, pstart, pend in *; simpl in *; case_cmp; simpl in *; try lia.

#[export] Hint Rewrite cnt_app cnt_cons : maios.
#[export] Hint Resolve cnt_nonneg : maios.

Lemma MAX_PAGE_val : MAX_PAGE = MAX_PAGE_NUMBER. Proof. reflexivity. Qed.
Lemma MIN_PAGE_val : MIN_PAGE = 0. Proof. reflexivity. Qed.

(** ** The start of an aligned allocation *)

(** An alignment under which rounding up a page never leaves the address space by more
    than one page: the powers of two up to the number of pages. *)
Definition alignment_ok (a : Z) : Prop := 0 < a /\ (a | MAX_PAGE_NUMBER + 1).

Lemma alignment_ok_1 : alignment_ok 1.
Proof. split; [lia|]. apply Z.divide_1_l. Qed.

Lemma align_up_spec (n a : Z) :
  valid_chunk n -> alignment_ok a ->
  exists s, align_up n a = Done s /\ n <= s <= MAX_PAGE_NUMBER + 1 /\ (a | s) /\ s < n + a.
Proof.
  intros Hn [Ha Hd]. unfold valid_chunk in Hn. unfold align_up.
  assert (a <= MAX_PAGE_NUMBER + 1) as Hle by (apply Z.divide_pos_le; [mem_consts; lia|done]).
  rewrite (proj2 (Z.eqb_neq a 0)) by lia.
  pose proof (Z.mod_pos_bound n a Ha) as Hm. pose proof (Z.div_mod n a ltac:(lia)) as Hdm.
  destruct (Z.eqb_spec (n mod a) 0) as [E|E].
  - exists n. split; [done|]. split; [lia|]. split; [|lia]. by apply Z.mod_divide; [lia|].
  - assert (n + (a - n mod a) = (n / a + 1) * a) as Es by lia.
    assert (n + (a - n mod a) <= MAX_PAGE_NUMBER + 1) as Hs.
    { rewrite Es. destruct Hd as [q Hq]. rewrite Hq. apply Z.mul_le_mono_nonneg_r; [lia|].
      enough (n / a < q) by lia. apply Z.div_lt_upper_bound; lia. }
    rewrite wrap64_id by (mem_consts; lia).
    exists (n + (a - n mod a)). split; [done|]. split; [lia|]. split; [|lia].
    rewrite Es. apply Z.divide_factor_r.
Qed.

Lemma align_up_1 (n : Z) : align_up n 1 = Done n.
Proof. unfold align_up. simpl. by rewrite Z.mod_1_r. Qed.

(** The pages of an allocation. *)
Lemma new_allocation_range (s n : Z) :
  0 <= s <= MAX_PAGE_NUMBER + 1 -> 1 <= n <= U64_MAX ->
  pages (new_allocation s n) = mkRange s (Z.min MAX_PAGE_NUMBER (s + n - 1)).
Proof.
  intros Hs Hn. unfold new_allocation. simpl. rewrite wrap64_id by (mem_consts; lia).
  unfold chunk_add. alloc_consts. f_equal. lia.
Qed.

(** The test of the loops leaves room for the allocation inside the chunk. *)
Lemma fit_room (s n high : Z) :
  0 <= s <= MAX_PAGE_NUMBER + 1 -> 1 <= n <= U64_MAX -> chunk_add Page4K s n <= high ->
  Z.min MAX_PAGE_NUMBER (s + n - 1) <= high /\ Z.min MAX_PAGE_NUMBER (s + n) <= high.
Proof. intros Hs Hn. unfold chunk_add. alloc_consts. lia. Qed.

(** A start [s] at which [num] pages can be cut out of the chunk. *)
Definition cuts (c : Chunk) (s num : Z) : Prop :=
  cstart c <= s <= MAX_PAGE_NUMBER + 1 /\ Z.min MAX_PAGE_NUMBER (s + num - 1) <= cend c.

Lemma fit_in_range_Some (a n : Z) (range : ChunkRange) (c : Chunk) (s : Z) :
  fit_in_range a n range c = Done (Some s) -> wf_range (pages c) -> alignment_ok a ->
  1 <= n <= U64_MAX -> valid_chunk (r_start range) -> cuts c s n.
Proof.
  intros Hf [Hc1 Hc2] Ha Hn Hr. unfold fit_in_range, try_fit in Hf. unfold valid_chunk in *.
  destruct (align_up_spec (Z.max (cstart c) (r_start range)) a) as (s' & E & Hs & _);
    [unfold valid_chunk, cstart; lia|done|].
  rewrite E in Hf. cbn [outcome_bind] in Hf.
  destruct (Z.leb_spec (chunk_add Page4K s' n) (Z.min (cend c) (r_end range))) as [Hle|]; simplify_eq.
  unfold cstart, cend in *. apply fit_room in Hle; [|lia|lia]. unfold cuts, cstart, cend. lia.
Qed.

Lemma fit_in_chunk_Some (a n : Z) (c : Chunk) (s : Z) :
  fit_in_chunk a n c = Done (Some s) -> wf_range (pages c) -> alignment_ok a ->
  1 <= n <= U64_MAX -> cuts c s n.
Proof.
  intros Hf Hc Ha Hn. apply (fit_in_range_Some a n (pages c)); try done.
  - unfold fit_in_range. rewrite Z.max_id, Z.min_id. exact Hf.
  - unfold wf_range, valid_chunk in *. lia.
Qed.

(** ** Allocating from a list *)

Section PageConservation.
Context {cops : RBTreeOps Chunk} {claws : RBTreeLaws Chunk cops}.

(** The reference points to the chunk [x] of the list. *)
Definition page_ref_at (r : ValueRefMut Chunk) (s : StaticArrayRBTree Chunk) (x : Chunk) : Prop :=
  match r, s with
  | RefArray arr j, ArrayInner arr' => arr = arr' /\ arr !! j = Some (Some x)
  | RefTree c, TreeInner t => rb_iter (c_tree c) = rb_iter t /\ rb_iter t !! c_pos c = Some x
  | _, _ => False
  end.

(** What an allocation from [list] that leaves [list'] promises. *)
Record page_alloc_ok (list list' : StaticArrayRBTree Chunk) (ap : AllocatedPages)
    (d : PageDeferred) : Prop := {
  pao_out : range_ok (ap_pages ap);
  pao_free1 : range_ok (pages (pfree1 d));
  pao_free2 : range_ok (pages (pfree2 d));
  pao_cnt : forall f, cnt f (pages <$> sa_iter list) =
    rin f (ap_pages ap) + rin f (pages (pfree1 d)) + rin f (pages (pfree2 d)) +
    cnt f (pages <$> sa_iter list');
  pao_incl : forall c, c ∈ sa_iter list' -> c ∈ sa_iter list;
  pao_sorted : sa_sorted list -> sa_sorted list';
}.

Lemma page_ref_remove (r : ValueRefMut Chunk) (s : StaticArrayRBTree Chunk) (x : Chunk) :
  page_ref_at r s x ->
  exists s', ref_remove r = (Some x, s') /\ Permutation (sa_iter s) (x :: sa_iter s') /\
    (sa_sorted s -> sa_sorted s').
Proof.
  intros Hr. destruct (ref_remove_spec r (sa_iter s) x) as (E & HP & Hs).
  { destruct r, s; simpl in *; try done; destruct Hr as [-> ?] || destruct Hr as [E ?]; done. }
  destruct (ref_remove r) as [o s']. simpl in *. subst o. exists s'. split; [done|]. split; [done|].
  intros Hss. apply Hs. destruct r, s; simpl in *; try done. destruct Hr as [-> _]. done.
Qed.

(** The ranges of the pieces around an allocation that the chunk covers. *)
Lemma adjust_pieces (c : Chunk) (s n : Z) :
  wf_range (pages c) -> cuts c s n -> 1 <= n <= U64_MAX ->
  let e := Z.min MAX_PAGE_NUMBER (s + n - 1) in
  let before := if s =? 0 then None else Some (mkChunk (mkRange (cstart c) (s - 1))) in
  let after := if e =? MAX_PAGE_NUMBER then None else Some (mkChunk (mkRange (e + 1) (cend c))) in
  before_apart (mkChunk (mkRange s e)) before = true /\
  after_apart (mkChunk (mkRange s e)) after = true /\
  range_ok (pages (default chunk_empty before)) /\ range_ok (pages (default chunk_empty after)) /\
  forall f, rin f (pages c) = rin f (mkRange s e) + rin f (pages (default chunk_empty before)) +
    rin f (pages (default chunk_empty after)).
Proof.
  intros [Hc1 Hc2] [Hs He] Hn e before after. unfold cstart, cend in *.
  split_and!.
  - unfold before. destruct (Z.eqb_spec s 0); [done|].
    unfold before_apart, contains, cstart, cend; simpl. case_cmp; simpl; try done; lia.
  - unfold after. destruct (Z.eqb_spec e MAX_PAGE_NUMBER); [done|].
    unfold after_apart, contains, cstart, cend; simpl. unfold e in *. case_cmp; simpl; try done; lia.
  - unfold before, range_ok. destruct (Z.eqb_spec s 0); mem_consts; cbn; lia.
  - unfold after, range_ok. destruct (Z.eqb_spec e MAX_PAGE_NUMBER); unfold e in *;
      mem_consts; cbn; lia.
  - intros f. unfold before, after, rin, contains.
    destruct (Z.eqb_spec s 0), (Z.eqb_spec e MAX_PAGE_NUMBER); cbn; unfold e in *;
      mem_consts; case_cmp; cbn; lia.
Qed.

Lemma adjust_Done (s n : Z) (c : Chunk) (ref : ValueRefMut Chunk) (list : StaticArrayRBTree Chunk) :
  page_ref_at ref list c -> wf_range (pages c) -> cuts c s n -> 1 <= n <= U64_MAX ->
  exists ap d list', adjust_chosen_chunk s n c ref = Done (Ok (ap, d), list') /\
    ap_pages ap = mkRange s (Z.min MAX_PAGE_NUMBER (s + n - 1)) /\ page_alloc_ok list list' ap d.
Proof.
  intros Hr Hw Hc Hn. pose proof Hw as [Hw1 Hw2]. pose proof Hc as [Hs He]. unfold cstart, cend in *.
  unfold adjust_chosen_chunk. pose proof (new_allocation_range s n ltac:(lia) Hn) as Ena.
  destruct (new_allocation s n) as [r]. simpl in Ena. subst r.
  set (e := Z.min MAX_PAGE_NUMBER (s + n - 1)) in *.
  rewrite MAX_PAGE_val, MIN_PAGE_val. unfold cstart, cend. cbn [pages r_start r_end].
  destruct (adjust_pieces c s n Hw Hc Hn) as (Hb & Ha & Ok1 & Ok2 & Hcnt). fold e in Hb, Ha, Ok1, Ok2, Hcnt.
  unfold cstart, cend in *.
  replace (if s =? 0 then None else Some (mkChunk (mkRange (r_start (pages c)) (chunk_sub Page4K s 1))))
    with (if s =? 0 then None else Some (mkChunk (mkRange (r_start (pages c)) (s - 1)))).
  2:{ destruct (Z.eqb_spec s 0); [done|]. rewrite chunk_sub_4k. do 3 f_equal. lia. }
  replace (if e =? MAX_PAGE_NUMBER then None
           else Some (mkChunk (mkRange (chunk_add Page4K e 1) (r_end (pages c)))))
    with (if e =? MAX_PAGE_NUMBER then None else Some (mkChunk (mkRange (e + 1) (r_end (pages c))))).
  2:{ destruct (Z.eqb_spec e MAX_PAGE_NUMBER); [done|].
      rewrite chunk_add_4k by (unfold e; mem_consts; lia). do 3 f_equal. unfold e in *. lia. }
  rewrite Hb, Ha. cbn [negb].
  destruct (page_ref_remove ref list c Hr) as (list' & -> & HP & Hso).
  unfold chunk_eqb. rewrite Z.eqb_refl. do 3 eexists. split; [done|]. split; [done|].
  split; simpl; auto.
  - unfold range_ok. simpl. unfold e. mem_consts. lia.
  - intros f. rewrite HP, fmap_cons, cnt_cons, Hcnt. reflexivity.
  - intros x Hx. rewrite HP. by right.
Qed.

(** *** The search loops *)

Lemma search_array_Done (fit : Chunk -> outcome (option Z)) (arr rest : list (option Chunk)) (i : nat) :
  rest = drop i arr -> (forall c, Some c ∈ rest -> exists o, fit c = Done o) ->
  exists r, search_array fit arr i rest = Done r /\
    match r with
    | Some (ref, c, s) => page_ref_at ref (ArrayInner arr) c /\ fit c = Done (Some s)
    | None => forall c, Some c ∈ rest -> fit c = Done None
    end.
Proof.
  revert i. induction rest as [|o rest IH]; intros i Hd Hfit; simpl.
  { eexists. split; [done|]. intros c Hc. by inversion Hc. }
  assert (rest = drop (S i) arr) as Hd'.
  { replace (S i) with (i + 1)%nat by lia. rewrite <- drop_drop, <- Hd. done. }
  assert (arr !! i = Some o) as Ho.
  { rewrite <- (Nat.add_0_r i), <- lookup_drop, <- Hd. done. }
  destruct (IH (S i) Hd') as (r & Hr & Hspec); [intros; apply Hfit; by right|].
  destruct o as [c|].
  - destruct (Hfit c) as [[s|] E]; [by left| |]; rewrite E; cbn [outcome_bind].
    + eexists. split; [done|]. by split.
    + exists r. split; [done|]. destruct r as [[[ref c'] s']|]; [done|].
      intros c' [[= ->]|Hc]%elem_of_cons; auto.
  - exists r. split; [done|]. destruct r as [[[ref c'] s']|]; [done|].
    intros c' [|Hc]%elem_of_cons; [done|auto].
Qed.

(** A descending search that finds nothing has tried every chunk from the cursor down
    to the first one that stops it. *)
Lemma search_tree_Done (fit : Chunk -> outcome (option Z)) (stop_at stop_after : Chunk -> bool)
    (t : tree Chunk) (fuel : nat) (cur : cursor Chunk) :
  rb_iter (c_tree cur) = rb_iter t -> (forall c, c ∈ rb_iter t -> exists o, fit c = Done o) ->
  (if decide (c_pos cur < length (rb_iter t))%nat then S (c_pos cur) < fuel else 0 < fuel)%nat ->
  exists r, search_tree fuel fit stop_at stop_after cur = Done r /\
    match r with
    | Some (ref, c, s) => page_ref_at ref (TreeInner t) c /\ fit c = Done (Some s)
    | None => forall j c, (j <= c_pos cur < length (rb_iter t))%nat -> rb_iter t !! j = Some c ->
        fit c = Done None \/
        (exists k x, (j <= k)%nat /\ rb_iter t !! k = Some x /\ stop_at x = true) \/
        (exists k x, (j < k)%nat /\ rb_iter t !! k = Some x /\ stop_after x = true)
    end.
Proof.
  revert cur. induction fuel as [|fuel IH]; intros cur Ht Hfit Hf; [case_decide; lia|]. simpl.
  rewrite get_spec, Ht. case_decide as Hd.
  2:{ rewrite lookup_ge_None_2 by lia. eexists. split; [done|]. simpl. intros; lia. }
  destruct (lookup_lt_is_Some_2 (rb_iter t) (c_pos cur) Hd) as [c Hc]. rewrite Hc.
  destruct (stop_at c) eqn:Eat.
  { eexists. split; [done|]. intros j y Hj Hy. right. left. exists (c_pos cur), c. split_and!; [lia|done|done]. }
  destruct (Hfit c) as [[s|] E]; [by eapply list_elem_of_lookup_2| |]; rewrite E; cbn [outcome_bind].
  { eexists. split; [done|]. simpl. done. }
  destruct (stop_after c) eqn:Ea.
  { eexists. split; [done|]. intros j y Hj Hy. destruct (decide (j = c_pos cur)) as [->|].
    - left. congruence.
    - right. right. exists (c_pos cur), c. split_and!; [lia|done|done]. }
  destruct (IH (c_prev cur)) as (r & Hr & Hspec); [by rewrite prev_tree|done| |].
  { rewrite prev_pos, Ht. destruct (c_pos cur) as [|p]; case_decide; lia. }
  exists r. split; [done|]. destruct r as [[[ref c'] s']|]; [done|].
  intros j y Hj Hy. destruct (decide (j = c_pos cur)) as [->|]; [left; congruence|].
  apply Hspec; [|done]. rewrite prev_pos, Ht. destruct (c_pos cur); lia.
Qed.

(** The tests of the loops never panic when the alignment is not zero. *)
Lemma fit_in_range_Done (a n : Z) (range : ChunkRange) (c : Chunk) :
  a <> 0 -> exists o, fit_in_range a n range c = Done o.
Proof.
  intros Ha. unfold fit_in_range, try_fit, align_up.
  rewrite (proj2 (Z.eqb_neq a 0)) by done. cbn [outcome_bind]. eauto.
Qed.

Lemma fit_in_chunk_Done (a n : Z) (c : Chunk) :
  a <> 0 -> exists o, fit_in_chunk a n c = Done o.
Proof.
  intros Ha. unfold fit_in_chunk, try_fit, align_up.
  rewrite (proj2 (Z.eqb_neq a 0)) by done. cbn [outcome_bind]. eauto.
Qed.

(** The initial fuel and position of the searches. *)
Lemma tree_fuel (t : tree Chunk) (cur : cursor Chunk) :
  (if decide (c_pos cur < length (rb_iter t))%nat
   then S (c_pos cur) < S (length (rb_iter t)) else 0 < S (length (rb_iter t)))%nat.
Proof. case_decide; lia. Qed.

Lemma array_elem (arr : list (option Chunk)) (c : Chunk) :
  Some c ∈ arr <-> c ∈ sa_iter (ArrayInner arr).
Proof.
  simpl. unfold flatten_opts. rewrite list_elem_of_omap. split.
  - intros H. by exists (Some c).
  - intros ([y|] & Hy & E); simplify_eq/=. done.
Qed.

Lemma search_range_Done (list : StaticArrayRBTree Chunk) (n : Z) (range : ChunkRange) (a : Z) :
  a <> 0 -> exists r, search_range list n range a = Done r /\
    forall ref c s, r = Some (ref, c, s) ->
      page_ref_at ref list c /\ fit_in_range a n range c = Done (Some s).
Proof.
  intros Ha. pose proof (fun c => fit_in_range_Done a n range c Ha) as Hfit.
  unfold search_range. destruct list as [arr|t].
  - destruct (search_array_Done (fit_in_range a n range) arr arr 0) as (r & -> & Hr); [done|auto|].
    exists r. split; [done|]. intros ref c s ->. done.
  - destruct (search_tree_Done (fit_in_range a n range) never (fun c => cstart c <=? r_start range)
      t (S (length (rb_iter t))) (rb_upper_bound (r_end range) t)) as (r & -> & Hr);
      [apply upper_bound_tree|auto|apply tree_fuel|].
    exists r. split; [done|]. intros ref c s ->. done.
Qed.

Lemma search_designated_Done (list : StaticArrayRBTree Chunk) (n low_end a : Z) :
  a <> 0 -> exists r, search_designated list n low_end a = Done r /\
    forall ref c s, r = Some (ref, c, s) ->
      page_ref_at ref list c /\ fit_in_chunk a n c = Done (Some s).
Proof.
  intros Ha. pose proof (fun c => fit_in_chunk_Done a n c Ha) as Hfit.
  unfold search_designated. destruct list as [arr|t].
  - destruct (search_array_Done (fit_in_chunk a n) arr arr 0) as (r & -> & Hr); [done|auto|].
    exists r. split; [done|]. intros ref c s ->. done.
  - destruct (search_tree_Done (fit_in_chunk a n) never never
      t (S (length (rb_iter t))) (rb_upper_bound low_end t)) as (r & -> & Hr);
      [apply upper_bound_tree|auto|apply tree_fuel|]. cbn [outcome_bind].
    destruct r as [[[ref c] s]|].
    + eexists. split; [done|]. intros ? ? ? [= <- <- <-]. done.
    + destruct (search_tree_Done (fit_in_chunk a n) (fun c => cstart c <? DESIGNATED_PAGES_HIGH_START)
        never t (S (length (rb_iter t))) (rb_last t)) as (r & -> & Hr2);
        [apply last_tree|auto|apply tree_fuel|].
      exists r. split; [done|]. intros ref c s ->. done.
Qed.

(** *** The two finders *)

(** The outcome of a search in a list of well-formed chunks. *)
Definition page_search_ok (list : StaticArrayRBTree Chunk)
    (r : result (AllocatedPages * PageDeferred) PageAllocError) (list' : StaticArrayRBTree Chunk)
  : Prop :=
  match r with
  | Ok (ap, d) => page_alloc_ok list list' ap d
  | Err _ => sa_iter list' = sa_iter list /\ (sa_sorted list -> sa_sorted list')
  end.

Definition chunks_wf (list : StaticArrayRBTree Chunk) : Prop :=
  Forall (fun c => wf_range (pages c)) (sa_iter list).

Lemma page_ref_wf (ref : ValueRefMut Chunk) (list : StaticArrayRBTree Chunk) (c : Chunk) :
  page_ref_at ref list c -> c ∈ sa_iter list.
Proof.
  destruct ref, list; simpl; try done; intros [E H].
  - subst. apply array_elem. by eapply list_elem_of_lookup_2.
  - by eapply list_elem_of_lookup_2.
Qed.

Lemma adjust_search_ok (s n : Z) (c : Chunk) (ref : ValueRefMut Chunk)
    (list : StaticArrayRBTree Chunk) :
  page_ref_at ref list c -> chunks_wf list ->
  (wf_range (pages c) -> cuts c s n) -> 1 <= n <= U64_MAX ->
  exists r list', adjust_chosen_chunk s n c ref = Done (r, list') /\ page_search_ok list r list'.
Proof.
  intros Href Hw Hc Hn. unfold chunks_wf in Hw. rewrite Forall_forall in Hw.
  pose proof (Hw c (page_ref_wf _ _ _ Href)) as Hcw.
  destruct (adjust_Done s n c ref list Href Hcw (Hc Hcw) Hn) as (ap & d & list' & E & _ & H). eauto.
Qed.

Lemma page_find_any_ok (low : Z) (list : StaticArrayRBTree Chunk) (n : Z)
    (within : option ChunkRange) (a : Z) :
  chunks_wf list -> 1 <= n <= U64_MAX -> alignment_ok a -> valid_chunk low ->
  (forall r, within = Some r -> valid_chunk (r_start r)) ->
  exists r list', page_find_any (Some low) list n within a = Done (r, list') /\
    page_search_ok list r list'.
Proof.
  intros Hw Hn Ha Hlow Hr. unfold page_find_any.
  set (full := mkRange _ _). set (range := default full within).
  assert (valid_chunk (r_start range)) as Hv.
  { unfold range. destruct within; simpl; [auto|]. unfold valid_chunk in *.
    rewrite chunk_add_4k by (mem_consts; lia). mem_consts. lia. }
  destruct (search_range_Done list n range a) as (r1 & -> & H1); [destruct Ha; lia|].
  cbn [outcome_bind]. destruct r1 as [[[ref c] s]|].
  { destruct (H1 _ _ _ eq_refl) as [Href Hfit].
    apply adjust_search_ok; auto. intros Hcw. by eapply fit_in_range_Some. }
  destruct within as [r|]; [by eexists _, _|].
  destruct (search_designated_Done list n low a) as (r2 & -> & H2); [destruct Ha; lia|].
  cbn [outcome_bind]. destruct r2 as [[[ref c] s]|]; [|by eexists _, _].
  destruct (H2 _ _ _ eq_refl) as [Href Hfit].
  apply adjust_search_ok; auto. intros Hcw. by eapply fit_in_chunk_Some.
Qed.

(** A request at an address for which [find_specific_chunk] does not merge chunks: if
    the chunk that holds the first page is too small, no free chunk starts right
    after it. *)
Definition no_merge (l : list Chunk) (page num : Z) : Prop :=
  forall c c', c ∈ l -> c' ∈ l -> in_range page (pages c) ->
    cend c < Z.min MAX_PAGE_NUMBER (page + num - 1) -> cstart c' <> cend c + 1.

Lemma merge_nothing (fuel : nat) (e : Z) (cur : cursor Chunk) :
  (0 < fuel)%nat ->
  (forall nx, c_get cur = Some nx -> chunk_sub Page4K (cstart nx) 1 <> e) ->
  merge_next_chunks fuel e cur = Done (e, cur).
Proof.
  intros Hf Hn. destruct fuel as [|fuel]; [lia|]. simpl.
  destruct (c_get cur) as [nx|]; [|done]. by rewrite (proj2 (Z.eqb_neq _ _)) by auto.
Qed.

(** The merging loop ends: every round removes a chunk. *)
Lemma merge_next_chunks_Done (fuel : nat) (e : Z) (cur : cursor Chunk) :
  (length (rb_iter (c_tree cur)) < fuel)%nat -> exists r, merge_next_chunks fuel e cur = Done r.
Proof.
  revert e cur. induction fuel as [|fuel IH]; intros e cur Hf; [lia|]. simpl.
  destruct (c_get cur) as [nx|] eqn:Enx; [|eauto]. destruct (_ =? e); [|eauto].
  pose proof (remove_value cur) as Hv. pose proof (remove_tree cur) as Ht.
  destruct (c_remove cur) as [o cur']. simpl in *. rewrite Enx in Hv. subst o. simpl.
  apply IH. rewrite Ht. rewrite get_spec in Enx. rewrite length_delete by (by eexists).
  apply lookup_lt_Some in Enx. lia.
Qed.

(** The chunk after the one the cursor found starts above the requested page. *)
Lemma upper_next (t : tree Chunk) (k : Z) (c nx : Chunk) :
  sorted (rb_iter t) -> c_get (rb_upper_bound k t) = Some c ->
  c_get (c_next (rb_upper_bound k t)) = Some nx ->
  cstart c <= k < cstart nx /\ c ∈ rb_iter t /\ nx ∈ rb_iter t.
Proof.
  intros Hs Hc Hnx. rewrite get_spec in Hc, Hnx. rewrite next_tree in Hnx.
  rewrite upper_bound_tree, ?upper_bound_pos in * by done.
  rewrite next_pos, upper_bound_tree, upper_bound_pos in Hnx by done.
  pose proof (lookup_lt_Some _ _ _ Hc) as Hlt. rewrite decide_False in Hnx by lia.
  unfold upper_position in *. destruct (upper_pos k (rb_iter t)) as [i|] eqn:Ei; simpl in *; [|lia].
  apply upper_pos_Some in Ei as [(x & Hx & Hk) Hj]. rewrite Hc in Hx. simplify_eq.
  specialize (Hj (S i) nx ltac:(lia) Hnx).
  split; [unfold key, Chunk_keyed in *; unfold cstart; lia|].
  split; by eapply list_elem_of_lookup_2.
Qed.

Lemma page_find_specific_ok (list : StaticArrayRBTree Chunk) (page n : Z) :
  chunks_wf list -> sa_sorted list -> 1 <= n <= U64_MAX -> valid_chunk page ->
  no_merge (sa_iter list) page n ->
  exists r list', page_find_specific list page n = Done (r, list') /\ page_search_ok list r list'.
Proof.
  intros Hw Hs Hn Hp Hnm. unfold valid_chunk in Hp. unfold page_find_specific.
  assert (chunk_add Page4K page (wrap64 (n - 1)) = Z.min MAX_PAGE_NUMBER (page + n - 1)) as Eadd.
  { rewrite wrap64_id by (mem_consts; lia). rewrite chunk_add_4k by (mem_consts; lia). f_equal. lia. }
  rewrite Eadd. destruct list as [arr|t].
  - destruct (find_index _ arr) as [i|] eqn:Ei; [|by eexists _, _].
    apply find_index_Some in Ei as [([c|] & Hc & Hcov) _]; [|done]. rewrite Hc.
    apply adjust_search_ok; auto; [done|]. intros [? ?]. simpl in Hcov. bool_to_prop.
    unfold cuts, cstart, cend in *. lia.
  - set (cur := rb_upper_bound page t) in *.
    destruct (c_get cur) as [c|] eqn:Ec; [|by eexists _, _].
    assert (page_ref_at (RefTree cur) (TreeInner t) c) as Href.
    { simpl. rewrite get_spec in Ec. unfold cur in *. rewrite upper_bound_tree in *. done. }
    pose proof (page_ref_wf _ _ _ Href) as Hin.
    unfold chunks_wf in Hw. pose proof (proj1 (Forall_forall _ _) Hw c Hin) as [Hcw1 Hcw2].
    destruct (Z.leb_spec (cstart c) page); [|by eexists _, _].
    destruct (Z.leb_spec (Z.min MAX_PAGE_NUMBER (page + n - 1)) (cend c)).
    { apply adjust_search_ok; auto. intros _. unfold cuts. lia. }
    rewrite merge_nothing; [|lia|].
    + cbn [outcome_bind]. rewrite Z.ltb_irrefl. eexists _, _. split; [done|].
      simpl. unfold cur. rewrite next_tree, upper_bound_tree. done.
    + intros nx Hnx E. rewrite chunk_sub_4k in E.
      destruct (upper_next t page c nx Hs Ec Hnx) as (Hlt & _ & Hnin).
      apply (Hnm c nx Hin Hnin); [|lia|unfold cstart, cend in *; lia].
      unfold in_range, cstart, cend in *. lia.
Qed.

(** *** Freeing *)

(** Freeing the chunk [x] into the sorted list [l] of disjoint chunks ... *)
Definition page_free_pre (x : Chunk) (l : list Chunk) : Prop :=
  sorted l /\ Forall (fun c => wf_range (pages c)) l /\ wf_range (pages x) /\
  forall f, rin f (pages x) + cnt f (pages <$> l) <= 1.

(** ... gives [l']. *)
Definition page_freed (x : Chunk) (l l' : list Chunk) : Prop :=
  sorted l' /\ Forall (fun c => wf_range (pages c)) l' /\
  forall f, cnt f (pages <$> l') = rin f (pages x) + cnt f (pages <$> l).

(** Replacing a neighbour [nb] by the union [r] of [nb] and [x]. *)
Lemma page_freed_replace (x nb : Chunk) (r : ChunkRange) (l1 l2 : list Chunk) :
  page_free_pre x (l1 ++ nb :: l2) -> wf_range r -> r_start r <= cstart nb ->
  (forall f, rin f r = rin f (pages x) + rin f (pages nb)) ->
  (forall y, y ∈ l1 -> key y <= r_start r) ->
  page_freed x (l1 ++ nb :: l2) (l1 ++ mkChunk r :: l2).
Proof.
  intros (Hs & Hw & Hx & Hcnt) Hr Hle Hrin Hl1. split_and!.
  - pose proof Hs as Hs'. apply sorted_app in Hs' as (_ & Hc & _).
    apply sorted_cons in Hc as [Hl2 _]. rewrite Forall_forall in Hl2.
    eapply sorted_replace; [exact Hs|exact Hl1|]. intros y Hy. specialize (Hl2 y Hy).
    unfold key, Chunk_keyed, cstart in *. simpl in *. lia.
  - apply Forall_app in Hw as [Hw1 Hw2]. apply Forall_cons in Hw2 as [_ Hw2].
    apply Forall_app. split; [done|]. by constructor.
  - intros f. rewrite !fmap_app, !fmap_cons, !cnt_app, !cnt_cons, Hrin. simpl. lia.
Qed.

Lemma replace_neighbour_freed (x nb : Chunk) (r : ChunkRange) (cur : cursor Chunk) :
  page_free_pre x (rb_iter (c_tree cur)) -> c_get cur = Some nb ->
  wf_range r -> r_start r <= cstart nb ->
  (forall f, rin f r = rin f (pages x) + rin f (pages nb)) ->
  (forall j y, (j < c_pos cur)%nat -> rb_iter (c_tree cur) !! j = Some y -> key y <= r_start r) ->
  exists t', replace_neighbour r cur = Some t' /\ page_freed x (rb_iter (c_tree cur)) (rb_iter t').
Proof.
  intros Hpre Hg Hr Hle Hrin Hlow. unfold replace_neighbour.
  pose proof (replace_value (mkChunk r) cur) as Hv. pose proof (replace_tree (mkChunk r) cur) as Ht.
  destruct (c_replace_with (mkChunk r) cur) as [o cur']. simpl in *. rewrite Hg in Hv. subst o.
  eexists. split; [done|]. rewrite Ht.
  rewrite get_spec in Hg. apply list_elem_of_split_length in Hg as (l1 & l2 & El & Elen).
  rewrite El, Elen in *. rewrite insert_app_r_alt by lia. rewrite Nat.sub_diag. simpl.
  apply page_freed_replace; auto. intros y Hy. apply list_elem_of_lookup in Hy as [j Hj].
  apply (Hlow j); [by apply lookup_lt_Some in Hj|by apply lookup_app_l_Some].
Qed.

(** Two chunks of which the first ends where the second starts, one of them new. *)
Lemma adjacent_union (a b : Chunk) :
  wf_range (pages a) -> wf_range (pages b) ->
  (forall f, rin f (pages a) + rin f (pages b) <= 1) ->
  chunk_add Page4K (cend a) 1 = cstart b ->
  wf_range (mkRange (cstart a) (cend b)) /\
  forall f, rin f (mkRange (cstart a) (cend b)) = rin f (pages a) + rin f (pages b).
Proof.
  intros [Ha1 Ha2] [Hb1 Hb2] Hd Hadj. unfold cstart, cend in *.
  rewrite chunk_add_4k in Hadj by (mem_consts; lia).
  assert (r_end (pages a) + 1 = r_start (pages b)) as E.
  { specialize (Hd MAX_PAGE_NUMBER). revert Hadj Hd. count_pages. }
  split; [unfold wf_range; simpl; lia|]. intros f. count_pages.
Qed.

Lemma free_pre_pair (x nb : Chunk) (l : list Chunk) :
  page_free_pre x l -> nb ∈ l ->
  wf_range (pages nb) /\ forall f, rin f (pages x) + rin f (pages nb) <= 1.
Proof.
  intros (_ & Hw & _ & Hcnt) Hin. rewrite Forall_forall in Hw. split; [auto|].
  intros f. specialize (Hcnt f).
  pose proof (cnt_elem f (pages nb) (pages <$> l) (list_elem_of_fmap_2 pages l nb Hin)). lia.
Qed.

Lemma free_pages_into_tree_ok (x : Chunk) (t : tree Chunk) :
  page_free_pre x (rb_iter t) -> page_freed x (rb_iter t) (rb_iter (free_pages_into_tree x t)).
Proof.
  intros Hpre. unfold free_pages_into_tree. set (cur := rb_lower_bound (cstart x) t).
  assert (rb_iter (c_tree cur) = rb_iter t) as Ht by apply lower_bound_tree.
  assert (forall j y, (j < c_pos cur)%nat -> rb_iter t !! j = Some y -> key y <= cstart x) as Hlow.
  { intros j y Hj Hy. unfold cur in Hj. rewrite lower_bound_pos in Hj by apply Hpre.
    pose proof (lower_position_lt _ _ _ _ Hj Hy). lia. }
  rewrite <- Ht in *.
  assert (page_freed x (rb_iter (c_tree cur)) (rb_iter (c_tree (c_insert x cur)))) as Hins.
  { rewrite insert_tree. pose proof (rb_insert_perm x (c_tree cur)) as HP. split_and!.
    - apply rb_insert_sorted, Hpre.
    - rewrite HP. constructor; apply Hpre.
    - intros f. rewrite HP, fmap_cons, cnt_cons. done. }
  assert (forall o, append_to_prev x cur = o ->
    page_freed x (rb_iter (c_tree cur))
      (rb_iter (match o with Some t' => t' | None => c_tree (c_insert x cur) end))) as Hprev.
  { intros o <-. unfold append_to_prev.
    destruct (c_get (c_prev cur)) as [pv|] eqn:Epv; [|done]. case_cmp; [|done].
    assert (pv ∈ rb_iter (c_tree cur)) as Hin.
    { rewrite get_spec, prev_tree in Epv. by eapply list_elem_of_lookup_2. }
    destruct (free_pre_pair x pv _ Hpre Hin) as [Hpw Hd].
    destruct (adjacent_union pv x) as [Hr Hrin]; [done|apply Hpre| |done|].
    { intros f. specialize (Hd f). lia. }
    rewrite <- (prev_tree cur) in Hpre |- * at 1.
    destruct (replace_neighbour_freed x pv (mkRange (cstart pv) (cend x)) (c_prev cur))
      as (t' & -> & Hf); auto; [simpl; lia|intros f; rewrite Hrin; lia|].
    intros j y Hj Hy. simpl.
    pose proof Hpre as (Hso & _). rewrite get_spec in Epv. eapply (Hso j); eauto. }
  unfold prepend_to_next. destruct (c_get cur) as [nx|] eqn:Enx; [|by apply Hprev].
  case_cmp; [|by apply Hprev].
  assert (nx ∈ rb_iter (c_tree cur)) as Hin.
  { rewrite get_spec in Enx. by eapply list_elem_of_lookup_2. }
  destruct (free_pre_pair x nx _ Hpre Hin) as [Hnw Hd].
  destruct (adjacent_union x nx) as [Hr Hrin]; [apply Hpre|done|done|done|].
  destruct (replace_neighbour_freed x nx (mkRange (cstart x) (cend nx)) cur)
    as (t' & -> & Hf); auto.
  simpl. rewrite get_spec in Enx. destruct (decide (cstart x <= cstart nx)) as [|Hgt]; [done|].
  exfalso. destruct Hpre as (_ & _ & [Hx1 Hx2] & _). unfold cstart, cend in *.
  rewrite chunk_add_4k in e by (mem_consts; lia). lia.
Qed.

End PageConservation.

(** ** The transition system *)

Section PageSafety.
Context {cops : RBTreeOps Chunk} {claws : RBTreeLaws Chunk cops}.

Record PConfig := mkPConfig {
  pc_alloc : PageAllocator;
  pc_out : list AllocatedPages;
  pc_pend : list PageDeferred;
}.

Definition ppieces (l : list PageDeferred) : list Chunk :=
  flat_map (fun d => [pfree1 d; pfree2 d]) l.
Arguments ppieces : simpl never.

(** The ranges of every place a page can be in. *)
Definition free_ranges (st : PageAllocator) : list ChunkRange := pages <$> sa_iter (free_page_list st).
Definition places (c : PConfig) : list ChunkRange :=
  free_ranges (pc_alloc c) ++ (ap_pages <$> pc_out c) ++ (pages <$> ppieces (pc_pend c)).
Arguments free_ranges : simpl never.

Definition page_request_ok (req : AllocationRequest) (num : Z) (st : PageAllocator) : Prop :=
  0 <= num <= U64_MAX /\
  match req with
  | AtVirtualAddress v =>
      in_u64 v /\ no_merge (sa_iter (free_page_list st)) (containing_address v) num
  | AlignedTo a => alignment_ok a
  | WithinRange r => valid_chunk (r_start r)
  | AnyAddress => True
  end.

Inductive pstep : PConfig -> PConfig -> Prop :=
| pstep_alloc req num st out pend ap d st' :
    page_request_ok req num st ->
    allocate_pages_deferred req num st = Done (Ok (ap, d), st') ->
    pstep (mkPConfig st out pend) (mkPConfig st' (ap :: out) (d :: pend))
| pstep_alloc_fail req num st out pend e st' :
    page_request_ok req num st ->
    allocate_pages_deferred req num st = Done (Err e, st') ->
    pstep (mkPConfig st out pend) (mkPConfig st' out pend)
| pstep_deferred st out p1 d p2 st' :
    drop_page_deferred d st = Done st' ->
    pstep (mkPConfig st out (p1 ++ d :: p2)) (mkPConfig st' out (p1 ++ p2))
| pstep_drop st o1 ap o2 pend :
    pstep (mkPConfig st (o1 ++ ap :: o2) pend) (mkPConfig (drop_pages Page4K ap st) (o1 ++ o2) pend)
| pstep_split st o1 ap o2 pend at_page a b :
    valid_chunk at_page -> pages_split Page4K ap at_page = Ok (a, b) ->
    pstep (mkPConfig st (o1 ++ ap :: o2) pend) (mkPConfig st (o1 ++ a :: b :: o2) pend)
| pstep_merge st o1 ap bp o2 pend m :
    pages_merge Page4K ap bp = Ok m ->
    pstep (mkPConfig st (ap :: o1 ++ bp :: o2) pend) (mkPConfig st (m :: o1 ++ o2) pend)
| pstep_convert st out pend :
    pstep (mkPConfig st out pend)
          (mkPConfig (convert_page_allocator_to_heap_based st) out pend).

(** ** The invariant *)

Definition initial_ranges (low : Z) : list ChunkRange := pages <$> initial_free_chunks low.

(** The end of the low designated region, below the middle region. *)
Definition low_end_ok (low : Z) : Prop := 0 <= low /\ low + 1 < DESIGNATED_PAGES_HIGH_START.

Record palloc_ok (low : Z) (st : PageAllocator) : Prop := {
  po_low : designated_low_end st = Some low;
  po_wf : chunks_wf (free_page_list st);
  po_sorted : sa_sorted (free_page_list st);
}.

Record pinv (low : Z) (c : PConfig) : Prop := {
  pinv_low : low_end_ok low;
  pinv_alloc : palloc_ok low (pc_alloc c);
  pinv_out : Forall range_ok (ap_pages <$> pc_out c);
  pinv_pend : Forall range_ok (pages <$> ppieces (pc_pend c));
  pinv_cnt : forall f, cnt f (places c) <= cnt f (initial_ranges low);
}.

Lemma HIGH_START_val : DESIGNATED_PAGES_HIGH_START = 4503599090499584.
Proof. reflexivity. Qed.

Lemma initial_ranges_eq (low : Z) :
  low_end_ok low ->
  initial_ranges low =
    [mkRange 0 low; mkRange (low + 1) 4503599090499583;
     mkRange 4503599224717312 4503599358935039; mkRange 4503599493152768 4503599627370495].
Proof.
  intros [H1 H2]. rewrite HIGH_START_val in H2. unfold initial_ranges, initial_free_chunks.
  rewrite chunk_add_4k by (mem_consts; lia). cbn [fmap list_fmap pages].
  replace (Z.min MAX_PAGE_NUMBER (low + 1)) with (low + 1) by (mem_consts; lia). reflexivity.
Qed.

Lemma initial_disjoint (low f : Z) : low_end_ok low -> cnt f (initial_ranges low) <= 1.
Proof.
  intros Hl. rewrite initial_ranges_eq by done. destruct Hl as [H1 H2]. rewrite HIGH_START_val in H2.
  unfold cnt, rin, contains. simpl. case_cmp; simpl; lia.
Qed.

Lemma ppieces_cons (d : PageDeferred) (l : list PageDeferred) :
  ppieces (d :: l) = pfree1 d :: pfree2 d :: ppieces l.
Proof. done. Qed.

Lemma ppieces_app (l1 l2 : list PageDeferred) : ppieces (l1 ++ l2) = ppieces l1 ++ ppieces l2.
Proof. apply flat_map_app. Qed.

Lemma cnt_places (f : Z) (c : PConfig) :
  cnt f (places c) = cnt f (free_ranges (pc_alloc c)) + cnt f (ap_pages <$> pc_out c) +
    cnt f (pages <$> ppieces (pc_pend c)).
Proof. unfold places. rewrite !cnt_app. lia. Qed.

Lemma cnt_fmap_middle {A} (g : A -> ChunkRange) (f : Z) (x : A) (l1 l2 : list A) :
  cnt f (g <$> l1 ++ x :: l2) = rin f (g x) + cnt f (g <$> l1 ++ l2).
Proof. rewrite !fmap_app, fmap_cons. autorewrite with maios. lia. Qed.

End PageSafety.
Arguments PConfig {cops}.

(** Project out of a configuration. *)
Ltac pcfg :=
  cbn [pc_alloc pc_out pc_pend free_page_list designated_low_end set_free_pages
       convert_page_allocator_to_heap_based].
Ltac pcfg_in H := cbn [pc_alloc pc_out pc_pend free_page_list designated_low_end set_free_pages] in H.

(** ** Preservation *)

Section PagePreservation.
Context {cops : RBTreeOps Chunk} {claws : RBTreeLaws Chunk cops}.

(** A step that does not let the counts grow keeps the counting part. *)
Lemma pinv_intro (low : Z) (c c' : PConfig) :
  pinv low c -> palloc_ok low (pc_alloc c') -> Forall range_ok (ap_pages <$> pc_out c') ->
  Forall range_ok (pages <$> ppieces (pc_pend c')) ->
  (forall f, cnt f (places c') <= cnt f (places c)) -> pinv low c'.
Proof.
  intros [Hl _ _ _ Hc] Ha Ho Hp Hle. split; auto. intros f. specialize (Hc f). specialize (Hle f). lia.
Qed.

(** *** Allocation *)

Lemma page_search_Done (req : AllocationRequest) (num low : Z) (st : PageAllocator) :
  palloc_ok low st -> valid_chunk low -> page_request_ok req num st -> num <> 0 ->
  exists r l, page_search req num st = Done (r, l) /\ page_search_ok (free_page_list st) r l.
Proof.
  intros [Hlow Hw Hs] Hv [Hn Hreq] Hz. unfold page_search. rewrite Hlow.
  destruct req as [v|a|r|].
  - destruct Hreq as [Hu Hnm]. apply page_find_specific_ok; auto; [lia|].
    by apply containing_address_valid.
  - apply page_find_any_ok; auto; [lia|]. intros r H. discriminate H.
  - apply page_find_any_ok; auto; [lia|apply alignment_ok_1|]. by intros ? [= <-].
  - apply page_find_any_ok; auto; [lia|apply alignment_ok_1|]. intros r H. discriminate H.
Qed.

(** The configuration after an allocation. *)
Definition after_page_alloc (r : result (AllocatedPages * PageDeferred) string) (st : PageAllocator)
    out pend : PConfig :=
  match r with
  | Ok (ap, d) => mkPConfig st (ap :: out) (d :: pend)
  | Err _ => mkPConfig st out pend
  end.

Lemma low_end_valid (low : Z) : low_end_ok low -> valid_chunk low.
Proof. intros [? ?]. rewrite HIGH_START_val in *. unfold valid_chunk. mem_consts. lia. Qed.

Lemma palloc_ok_list (low : Z) (st : PageAllocator) (l : StaticArrayRBTree Chunk) :
  palloc_ok low st -> chunks_wf l -> sa_sorted l -> palloc_ok low (set_free_pages l st).
Proof. intros [] ? ?. split; auto. Qed.

Lemma pinv_allocate (low : Z) (st : PageAllocator) out pend req num r st' :
  pinv low (mkPConfig st out pend) -> page_request_ok req num st ->
  allocate_pages_deferred req num st = Done (r, st') ->
  pinv low (after_page_alloc r st' out pend).
Proof.
  intros Hi Hreq Ha. unfold allocate_pages_deferred in Ha.
  destruct (Z.eqb_spec num 0); [by simplify_eq/=|].
  pose proof (pinv_alloc _ _ Hi) as Hal. pcfg_in Hal.
  destruct (page_search_Done req num low st Hal) as (x & l & E & Hok);
    [apply low_end_valid, Hi|done|done|].
  rewrite E in Ha. cbn [outcome_bind] in Ha. simplify_eq. destruct Hal as [Hlow Hw Hs].
  destruct x as [[ap d]|e]; cbn [after_page_alloc].
  - destruct Hok as [O1 O2 O3 Hcnt Hin Hso].
    eapply (pinv_intro low (mkPConfig st out pend)); [done| | | |]; pcfg.
    + split; auto. unfold chunks_wf in *. rewrite Forall_forall in *. auto.
    + constructor; [done|apply Hi].
    + rewrite ppieces_cons. constructor; [done|]. constructor; [done|apply Hi].
    + intros f. rewrite !cnt_places. pcfg. rewrite ppieces_cons, !fmap_cons, !cnt_cons.
      specialize (Hcnt f). unfold free_ranges in *. pcfg. lia.
  - destruct Hok as [Eq Hso].
    eapply (pinv_intro low (mkPConfig st out pend)); [done| |apply Hi|apply Hi|]; pcfg.
    + split; auto. pcfg. unfold chunks_wf in *. by rewrite Eq.
    + intros f. rewrite !cnt_places. unfold free_ranges. pcfg. rewrite Eq. lia.
Qed.

(** *** Deallocation *)

(** What putting the range [r] back promises: it may be lost (a full array), never
    duplicated. *)
Record page_returned (low : Z) (r : ChunkRange) (st st' : PageAllocator) : Prop := {
  pr_ok : palloc_ok low st';
  pr_cnt : forall f, cnt f (free_ranges st') <= rin f r + cnt f (free_ranges st);
}.

Lemma page_returned_nothing (low : Z) (r : ChunkRange) (st : PageAllocator) :
  palloc_ok low st -> page_returned low r st st.
Proof. intros H. split; [done|]. intros f. pose proof (rin_bound f r). lia. Qed.

Lemma page_returned_insert (low : Z) (c : Chunk) (st : PageAllocator) l :
  palloc_ok low st -> wf_range (pages c) -> sa_insert c (free_page_list st) = Ok l ->
  page_returned low (pages c) st (set_free_pages l st).
Proof.
  intros [Hl Hw Hs] Hc Hi. apply sa_insert_Ok in Hi as [HP Hso]. split.
  - split; simpl; auto. unfold chunks_wf in *. rewrite HP. by constructor.
  - intros f. unfold free_ranges. pcfg. rewrite HP, fmap_cons, cnt_cons. lia.
Qed.

Lemma insert_piece_ok (low : Z) (c : Chunk) (st st' : PageAllocator) :
  insert_piece c st = Done st' -> palloc_ok low st -> range_ok (pages c) ->
  page_returned low (pages c) st st'.
Proof.
  intros Hd Hl Hr. unfold insert_piece in Hd. rewrite range_ok_size in Hd by done.
  destruct (Z.ltb_spec 0 (Z.max 0 (r_end (pages c) + 1 - r_start (pages c)))).
  - destruct (sa_insert c (free_page_list st)) as [l|] eqn:E; simplify_eq/=.
    apply page_returned_insert; auto. unfold range_ok, wf_range in *. lia.
  - simplify_eq. by apply page_returned_nothing.
Qed.

Lemma drop_pages_ok (low : Z) (ap : AllocatedPages) (st : PageAllocator) :
  palloc_ok low st -> range_ok (ap_pages ap) ->
  (forall f, rin f (ap_pages ap) + cnt f (free_ranges st) <= 1) ->
  page_returned low (ap_pages ap) st (drop_pages Page4K ap st).
Proof.
  intros Hl Hr Hcnt. unfold drop_pages. rewrite range_ok_size by done.
  destruct (Z.eqb_spec (Z.max 0 (r_end (ap_pages ap) + 1 - r_start (ap_pages ap))) 0);
    [by apply page_returned_nothing|].
  assert (wf_range (ap_pages ap)) as Hw by (unfold range_ok, wf_range in *; lia).
  rewrite into_4k_4k by done. unfold free_ranges in Hcnt.
  destruct (free_page_list st) as [arr|t] eqn:El.
  - destruct (sa_insert _ _) as [l|] eqn:Ei; [|by apply page_returned_nothing].
    rewrite <- El in Ei. by apply (page_returned_insert low (mkChunk (ap_pages ap))).
  - pose proof Hl as [Hlow Hcw Hs]. rewrite El in Hcw, Hs.
    destruct (free_pages_into_tree_ok (mkChunk (ap_pages ap)) t) as (Hs' & Hw' & Hc'); [done|].
    split; [by apply palloc_ok_list|]. intros f. unfold free_ranges. rewrite El. simpl. rewrite Hc'.
    simpl. lia.
Qed.

(** A returned range that was in [out] or [pend]. *)
Lemma pinv_returned (low : Z) (st st' : PageAllocator) out pend out' pend' r :
  pinv low (mkPConfig st out pend) -> page_returned low r st st' ->
  Forall range_ok (ap_pages <$> out') -> Forall range_ok (pages <$> ppieces pend') ->
  (forall f, cnt f (ap_pages <$> out) + cnt f (pages <$> ppieces pend) =
     rin f r + cnt f (ap_pages <$> out') + cnt f (pages <$> ppieces pend')) ->
  pinv low (mkPConfig st' out' pend').
Proof.
  intros Hi [Hok Hc] Ho Hp Heq. eapply (pinv_intro low (mkPConfig st out pend)); auto.
  intros f. rewrite !cnt_places. pcfg. specialize (Hc f). specialize (Heq f). lia.
Qed.

Lemma pinv_drop (low : Z) (st : PageAllocator) o1 ap o2 pend :
  pinv low (mkPConfig st (o1 ++ ap :: o2) pend) ->
  pinv low (mkPConfig (drop_pages Page4K ap st) (o1 ++ o2) pend).
Proof.
  intros Hi. pose proof (pinv_out _ _ Hi) as Ho. pcfg_in Ho. rewrite fmap_app, fmap_cons in Ho.
  apply Forall_app in Ho as [Ho1 Ho2]. apply Forall_cons in Ho2 as [Hap Ho2].
  eapply pinv_returned; [exact Hi|apply drop_pages_ok; [apply Hi|exact Hap|]| |apply Hi|].
  - intros f. pose proof (pinv_cnt _ _ Hi f) as H. rewrite cnt_places in H. pcfg_in H.
    rewrite cnt_fmap_middle in H. pose proof (initial_disjoint low f ltac:(apply Hi)).
    pose proof (cnt_nonneg f (ap_pages <$> o1 ++ o2)).
    pose proof (cnt_nonneg f (pages <$> ppieces pend)). lia.
  - rewrite fmap_app. by apply Forall_app.
  - intros f. rewrite cnt_fmap_middle. lia.
Qed.

Lemma pinv_deferred (low : Z) (st : PageAllocator) out p1 d p2 st' :
  pinv low (mkPConfig st out (p1 ++ d :: p2)) -> drop_page_deferred d st = Done st' ->
  pinv low (mkPConfig st' out (p1 ++ p2)).
Proof.
  intros Hi Hd. unfold drop_page_deferred in Hd.
  destruct (insert_piece (pfree1 d) st) as [st1|] eqn:E1; [|done]. cbn [outcome_bind] in Hd.
  pose proof (pinv_pend _ _ Hi) as Hp. pcfg_in Hp. rewrite ppieces_app, ppieces_cons, fmap_app, !fmap_cons in Hp.
  apply Forall_app in Hp as [Hp1 Hp]. apply Forall_cons in Hp as [Hf1 Hp].
  apply Forall_cons in Hp as [Hf2 Hp2].
  apply (insert_piece_ok low) in E1; [|apply Hi|done].
  apply (insert_piece_ok low) in Hd; [|apply E1|done].
  eapply (pinv_intro low (mkPConfig st out (p1 ++ d :: p2))); pcfg; auto; [apply Hd|apply Hi| |].
  - rewrite ppieces_app, fmap_app. by apply Forall_app.
  - intros f. rewrite !cnt_places. pcfg. rewrite !ppieces_app, ppieces_cons, !fmap_app, !fmap_cons.
    autorewrite with maios. pose proof (pr_cnt _ _ _ _ Hd f). pose proof (pr_cnt _ _ _ _ E1 f). lia.
Qed.

(** *** What owners do *)

Lemma pages_split_Ok (ap a b : AllocatedPages) (at_page : Z) :
  pages_split Page4K ap at_page = Ok (a, b) -> range_ok (ap_pages ap) -> valid_chunk at_page ->
  range_ok (ap_pages a) /\ range_ok (ap_pages b) /\
  forall f, rin f (ap_pages ap) = rin f (ap_pages a) + rin f (ap_pages b).
Proof.
  intros Hs [H1 H2] Hat. unfold pages_split, pstart, pend in Hs. unfold valid_chunk in Hat.
  rewrite chunk_sub_4k, chunk_add_4k in Hs by (mem_consts; lia).
  unfold range_ok, rin, contains in *. mem_consts.
  repeat match type of Hs with
  | (if ?b then _ else _) = _ => destruct b eqn:?; simplify_eq/=; bool_to_prop
  end; (split_and!; try lia); intros f; case_cmp; simpl; lia.
Qed.

Lemma pages_merge_Ok (a b m : AllocatedPages) :
  pages_merge Page4K a b = Ok m -> range_ok (ap_pages a) -> range_ok (ap_pages b) ->
  range_ok (ap_pages m) /\
  forall f, rin f (ap_pages m) <= rin f (ap_pages a) + rin f (ap_pages b).
Proof.
  intros Hm [Ha1 Ha2] [Hb1 Hb2]. unfold pages_merge, pstart, pend in Hm.
  rewrite chunk_add_4k in Hm by (mem_consts; lia).
  destruct (Z.eqb_spec (r_start (ap_pages b)) (Z.min MAX_PAGE_NUMBER (r_end (ap_pages a) + 1)));
    simplify_eq/=.
  unfold range_ok, rin, contains. simpl. split; [lia|]. intros f. case_cmp; simpl; lia.
Qed.

Lemma pinv_split (low : Z) (st : PageAllocator) o1 ap o2 pend at_page a b :
  pinv low (mkPConfig st (o1 ++ ap :: o2) pend) -> valid_chunk at_page ->
  pages_split Page4K ap at_page = Ok (a, b) -> pinv low (mkPConfig st (o1 ++ a :: b :: o2) pend).
Proof.
  intros Hi Hv Hs. pose proof (pinv_out _ _ Hi) as Ho. pcfg_in Ho. rewrite fmap_app, fmap_cons in Ho.
  apply Forall_app in Ho as [Ho1 Ho2]. apply Forall_cons in Ho2 as [Hap Ho2].
  destruct (pages_split_Ok _ _ _ _ Hs Hap Hv) as (Ha & Hb & Hc).
  eapply (pinv_intro low (mkPConfig st (o1 ++ ap :: o2) pend)); pcfg; auto; try apply Hi.
  - rewrite fmap_app, !fmap_cons. apply Forall_app. split; [done|]. rewrite !Forall_cons. done.
  - intros f. rewrite !cnt_places. pcfg. rewrite !cnt_fmap_middle, Hc. lia.
Qed.

Lemma pinv_merge (low : Z) (st : PageAllocator) o1 ap bp o2 pend m :
  pinv low (mkPConfig st (ap :: o1 ++ bp :: o2) pend) -> pages_merge Page4K ap bp = Ok m ->
  pinv low (mkPConfig st (m :: o1 ++ o2) pend).
Proof.
  intros Hi Hm. pose proof (pinv_out _ _ Hi) as Ho. pcfg_in Ho.
  rewrite fmap_cons, fmap_app, fmap_cons in Ho. apply Forall_cons in Ho as [Hap Ho].
  apply Forall_app in Ho as [Ho1 Ho2]. apply Forall_cons in Ho2 as [Hbp Ho2].
  destruct (pages_merge_Ok _ _ _ Hm Hap Hbp) as [Hmo Hc].
  eapply (pinv_intro low (mkPConfig st (ap :: o1 ++ bp :: o2) pend)); pcfg; auto; try apply Hi.
  - rewrite fmap_cons, fmap_app. constructor; [done|]. by apply Forall_app.
  - intros f. rewrite !cnt_places. pcfg. rewrite !fmap_cons, !cnt_cons, cnt_fmap_middle. specialize (Hc f). lia.
Qed.

Lemma pstep_preserves (low : Z) (c c' : PConfig) : pstep c c' -> pinv low c -> pinv low c'.
Proof.
  intros Hs Hi. destruct Hs.
  - by apply (pinv_allocate _ _ _ _ _ _ _ _ Hi) in H0.
  - by apply (pinv_allocate _ _ _ _ _ _ _ _ Hi) in H0.
  - by eapply pinv_deferred.
  - by apply pinv_drop.
  - by eapply pinv_split.
  - by eapply pinv_merge.
  - pose proof (pinv_alloc _ _ Hi) as [Hl Hw Hso]. simpl in *.
    destruct (convert_spec _ Hso) as [HP Hso'].
    eapply (pinv_intro low (mkPConfig st out pend)); pcfg; auto; try apply Hi.
    + split; simpl; auto. unfold chunks_wf in *. by rewrite HP.
    + intros f. rewrite !cnt_places. unfold free_ranges. pcfg. rewrite HP. lia.
Qed.

Lemma preachable_inv (low : Z) (c c' : PConfig) : rtc pstep c c' -> pinv low c -> pinv low c'.
Proof. induction 1; eauto using pstep_preserves. Qed.

Lemma page_init_inv (end_vaddr : Z) :
  0 <= end_vaddr -> low_end_ok (containing_address end_vaddr) ->
  exists st, page_init end_vaddr page_allocator_static = Done (Ok tt, st) /\
    pinv (containing_address end_vaddr) (mkPConfig st [] []).
Proof.
  intros Hp Hl. unfold page_init.
  assert (end_vaddr < start_address (ops := virtual_ops) DESIGNATED_PAGES_HIGH_START) as Hlt.
  { destruct Hl as [_ Hl]. rewrite HIGH_START_val in Hl.
    change (start_address (ops := virtual_ops) DESIGNATED_PAGES_HIGH_START) with 18446741874686296064.
    unfold containing_address in Hl. mem_consts.
    pose proof (Z.div_mod end_vaddr 4096). pose proof (Z.mod_pos_bound end_vaddr 4096). lia. }
  rewrite (proj2 (Z.ltb_lt _ _)) by done. cbn [negb designated_low_end page_allocator_static default].
  eexists. split; [done|].
  assert (sa_iter (sa_new ((Some <$> initial_free_chunks (containing_address end_vaddr)) ++
            replicate 28 None)) = initial_free_chunks (containing_address end_vaddr)) as E
    by reflexivity.
  split; pcfg; [done| |constructor|constructor|].
  - split; pcfg; [done| |done]. unfold chunks_wf. rewrite E, <- (Forall_fmap pages wf_range).
    fold (initial_ranges (containing_address end_vaddr)).
    rewrite initial_ranges_eq by done. destruct Hl as [H1 H2]. rewrite HIGH_START_val in H2.
    unfold wf_range. rewrite !Forall_cons. simpl. mem_consts. repeat split; try constructor; lia.
  - intros f. rewrite cnt_places. unfold free_ranges. pcfg. rewrite E. unfold initial_ranges.
    unfold cnt at 2 3. simpl. lia.
Qed.


End PagePreservation.
