(* ===== verification/PageAllocSpec.v ===== *)
(** * The virtual page allocator: behaviour of the entry points

    What the requests of [allocate_pages_deferred] return and when they fail, what
    dropping pages does, and where requests at an address go wrong. *)

From S2P Require Import Prelude MemStructs RBTree PageAlloc PageAllocSafety.

Section PageSpec.
Context {cops : RBTreeOps Chunk} {claws : RBTreeLaws Chunk cops}.

(** ** Requests anywhere *)

(** There is room for an aligned allocation that ends before [hi] (the code's test
    [start + num_pages <= end] keeps one page in reserve). *)
Definition room (a n lo hi : Z) : Prop := exists s, lo <= s /\ (a | s) /\ s + n <= hi.

Lemma align_up_least (n a s s' : Z) :
  valid_chunk n -> alignment_ok a -> align_up n a = Done s' -> n <= s -> (a | s) -> s' <= s.
Proof.
  intros Hn Ha E Hs Hd. destruct (align_up_spec n a Hn Ha) as (x & E' & _ & Hx & Hlt).
  rewrite E in E'. simplify_eq. destruct Hx as [p ->], Hd as [q ->]. destruct Ha as [Ha _].
  apply Z.mul_le_mono_nonneg_r; [lia|]. enough (p < q + 1) by lia.
  apply (Z.mul_lt_mono_pos_r a); lia.
Qed.

Lemma fit_None (a n : Z) (range : ChunkRange) (c : Chunk) :
  fit_in_range a n range c = Done None -> wf_range (pages c) -> alignment_ok a ->
  1 <= n <= U64_MAX -> valid_chunk (r_start range) ->
  ~ room a n (Z.max (cstart c) (r_start range)) (Z.min (cend c) (r_end range)).
Proof.
  intros Hf [Hw1 Hw2] Ha Hn Hv (s & Hs & Hd & Hle). unfold fit_in_range, try_fit in Hf.
  unfold valid_chunk in Hv.
  assert (valid_chunk (Z.max (cstart c) (r_start range))) as Hm by (unfold valid_chunk, cstart; lia).
  destruct (align_up_spec _ a Hm Ha) as (s' & E & Hs' & _).
  pose proof (align_up_least _ _ _ _ Hm Ha E Hs Hd) as Hmin. rewrite E in Hf. cbn [outcome_bind] in Hf.
  destruct (Z.leb_spec (chunk_add Page4K s' n) (Z.min (cend c) (r_end range))) as [|Hgt]; [done|].
  unfold cstart, cend in *. revert Hgt. unfold chunk_add. alloc_consts. lia.
Qed.

Lemma fit_in_chunk_None (a n : Z) (c : Chunk) :
  fit_in_chunk a n c = Done None -> wf_range (pages c) -> alignment_ok a ->
  1 <= n <= U64_MAX -> ~ room a n (cstart c) (cend c).
Proof.
  intros Hf Hc Ha Hn. pose proof (fit_None a n (pages c) c) as H. unfold fit_in_range in H.
  rewrite Z.max_id, Z.min_id in H. apply H; auto. unfold wf_range, valid_chunk in *. lia.
Qed.

(** The free chunks are in order and do not overlap. *)
Lemma free_chunks_order (low : Z) (st : PageAllocator) out pend (t : tree Chunk) (j k : nat) (x y : Chunk) :
  pinv low (mkPConfig st out pend) -> free_page_list st = TreeInner t -> (j < k)%nat ->
  rb_iter t !! j = Some x -> rb_iter t !! k = Some y -> cend x < cstart y.
Proof.
  intros Hi Et Hjk Hx Hy. pose proof (pinv_alloc _ _ Hi) as [_ Hw Hs]. pcfg_in Hw. pcfg_in Hs.
  rewrite Et in Hw, Hs. unfold chunks_wf in Hw. rewrite Forall_lookup in Hw.
  pose proof (Hw j x Hx) as [Hx1 Hx2]. pose proof (Hw k y Hy) as [Hy1 Hy2].
  pose proof (Hs j k x y Hjk Hx Hy) as Hle. unfold key, Chunk_keyed, cstart, cend in *.
  destruct (decide (r_end (pages x) < r_start (pages y))) as [|Hge]; [done|]. exfalso.
  pose proof (pinv_cnt _ _ Hi (r_start (pages y))) as H. rewrite cnt_places in H. pcfg_in H.
  pose proof (initial_disjoint low (r_start (pages y)) ltac:(apply Hi)).
  pose proof (cnt_nonneg (r_start (pages y)) (ap_pages <$> out)).
  pose proof (cnt_nonneg (r_start (pages y)) (pages <$> ppieces pend)).
  unfold free_ranges in H. rewrite Et in H.
  pose proof (sum_of_two (rin (r_start (pages y))) (pages <$> rb_iter t) j k (pages x) (pages y)
    (fun z => proj1 (rin_bound _ z)) ltac:(lia)) as Htwo. rewrite !list_lookup_fmap, Hx, Hy in Htwo.
  specialize (Htwo eq_refl eq_refl). fold (cnt (r_start (pages y)) (pages <$> rb_iter t)) in Htwo.
  assert (rin (r_start (pages y)) (pages x) = 1) by (apply rin_true; unfold in_range; lia).
  assert (rin (r_start (pages y)) (pages y) = 1) by (apply rin_true; unfold in_range; lia).
  cbn [sa_iter] in H. lia.
Qed.

(** No free chunk crosses the start of the high designated region. *)
Lemma free_chunk_below_high (low : Z) (st : PageAllocator) out pend (c : Chunk) :
  pinv low (mkPConfig st out pend) -> c ∈ sa_iter (free_page_list st) ->
  cstart c < DESIGNATED_PAGES_HIGH_START -> cend c < DESIGNATED_PAGES_HIGH_START.
Proof.
  intros Hi Hin Hlt. destruct (decide (cend c < DESIGNATED_PAGES_HIGH_START)) as [|Hge]; [done|].
  exfalso. pose proof (pinv_cnt _ _ Hi DESIGNATED_PAGES_HIGH_START) as H.
  rewrite cnt_places in H. pcfg_in H.
  pose proof (cnt_nonneg DESIGNATED_PAGES_HIGH_START (ap_pages <$> out)).
  pose proof (cnt_nonneg DESIGNATED_PAGES_HIGH_START (pages <$> ppieces pend)).
  pose proof (cnt_elem DESIGNATED_PAGES_HIGH_START _ _ (list_elem_of_fmap_2 pages _ c Hin)) as He.
  fold (free_ranges st) in He.
  assert (rin DESIGNATED_PAGES_HIGH_START (pages c) = 1) as E
    by (apply rin_true; unfold in_range, cstart, cend in *; lia).
  assert (cnt DESIGNATED_PAGES_HIGH_START (initial_ranges low) = 0) as E0.
  { pose proof (pinv_low _ _ Hi) as Hl. rewrite initial_ranges_eq by done. destruct Hl as [? Hl].
    rewrite HIGH_START_val in *. unfold cnt, rin, contains. simpl. case_cmp; simpl; lia. }
  lia.
Qed.

(** The position of an upper bound: what lies after it starts above the key. *)
Lemma upper_bound_after (t : tree Chunk) (k : Z) (j : nat) (c : Chunk) :
  sorted (rb_iter t) -> rb_iter t !! j = Some c ->
  (j <= c_pos (rb_upper_bound k t) < length (rb_iter t))%nat \/ k < cstart c.
Proof.
  intros Hs Hj. rewrite upper_bound_pos by done. unfold upper_position.
  destruct (upper_pos k (rb_iter t)) as [i|] eqn:Ei; simpl.
  - apply upper_pos_Some in Ei as [(x & Hx & _) Hlt]. apply lookup_lt_Some in Hx.
    destruct (decide (j <= i)%nat); [by left|]. right. apply (Hlt j); [lia|done].
  - apply upper_pos_None in Ei. right. rewrite Forall_lookup in Ei. by apply (Ei j).
Qed.

Lemma search_range_None (low : Z) (st : PageAllocator) out pend (n : Z) (range : ChunkRange) (a : Z) :
  pinv low (mkPConfig st out pend) -> alignment_ok a -> 1 <= n <= U64_MAX ->
  valid_chunk (r_start range) -> search_range (free_page_list st) n range a = Done None ->
  forall c, c ∈ sa_iter (free_page_list st) ->
    ~ room a n (Z.max (cstart c) (r_start range)) (Z.min (cend c) (r_end range)).
Proof.
  intros Hi Ha Hn Hv Hsr c Hin. pose proof (pinv_alloc _ _ Hi) as [_ Hw Hs]. pcfg_in Hw. pcfg_in Hs.
  unfold chunks_wf in Hw. pose proof (proj1 (Forall_forall _ _) Hw c Hin) as Hcw.
  assert (forall c, exists o, fit_in_range a n range c = Done o) as Hfit
    by (intros; apply fit_in_range_Done; destruct Ha; lia).
  unfold search_range in Hsr. destruct (free_page_list st) as [arr|t] eqn:Et.
  - destruct (search_array_Done (fit_in_range a n range) arr arr 0) as (r & Hr & Hspec); [done|auto|].
    rewrite Hr in Hsr. simplify_eq. apply fit_None; auto. apply Hspec. by apply array_elem.
  - destruct (search_tree_Done (fit_in_range a n range) never (fun c => cstart c <=? r_start range)
      t (S (length (rb_iter t))) (rb_upper_bound (r_end range) t)) as (r & Hr & Hspec);
      [apply upper_bound_tree|auto|apply tree_fuel|].
    rewrite Hr in Hsr. simplify_eq. simpl in Hin. apply list_elem_of_lookup in Hin as [j Hj].
    intros (s & Hs1 & Hsd & Hs2).
    destruct (upper_bound_after t (r_end range) j c Hs Hj) as [Hpos|Hgt]; [|lia].
    destruct (Hspec j c Hpos Hj) as [Hf|[(k & x & _ & _ & Hx)|(k & x & Hk & Hx & Hst)]].
    + apply (fit_None a n range c Hf Hcw Ha Hn Hv). exists s. auto.
    + discriminate Hx.
    + bool_to_prop. pose proof (free_chunks_order low st out pend t j k c x Hi Et Hk Hj Hx). lia.
Qed.

Lemma search_designated_None (low : Z) (st : PageAllocator) out pend (n a : Z) :
  pinv low (mkPConfig st out pend) -> alignment_ok a -> 1 <= n <= U64_MAX ->
  search_designated (free_page_list st) n low a = Done None ->
  forall c, c ∈ sa_iter (free_page_list st) ->
    ~ room a n (cstart c) (cend c) \/ low < cstart c < DESIGNATED_PAGES_HIGH_START.
Proof.
  intros Hi Ha Hn Hsr c Hin. pose proof (pinv_alloc _ _ Hi) as [_ Hw Hs]. pcfg_in Hw. pcfg_in Hs.
  unfold chunks_wf in Hw. pose proof (proj1 (Forall_forall _ _) Hw c Hin) as Hcw.
  assert (forall c, exists o, fit_in_chunk a n c = Done o) as Hfit
    by (intros; apply fit_in_chunk_Done; destruct Ha; lia).
  unfold search_designated in Hsr. destruct (free_page_list st) as [arr|t] eqn:Et.
  - destruct (search_array_Done (fit_in_chunk a n) arr arr 0) as (r & Hr & Hspec); [done|auto|].
    rewrite Hr in Hsr. simplify_eq. left. apply fit_in_chunk_None; auto. apply Hspec.
    by apply array_elem.
  - destruct (search_tree_Done (fit_in_chunk a n) never never
      t (S (length (rb_iter t))) (rb_upper_bound low t)) as (r & Hr & Hspec);
      [apply upper_bound_tree|auto|apply tree_fuel|].
    rewrite Hr in Hsr. cbn [outcome_bind] in Hsr. destruct r as [[[ref x] s]|]; [done|].
    destruct (search_tree_Done (fit_in_chunk a n) (fun c => cstart c <? DESIGNATED_PAGES_HIGH_START)
        never t (S (length (rb_iter t))) (rb_last t)) as (r & Hr2 & Hspec2);
        [apply last_tree|auto|apply tree_fuel|].
    rewrite Hr2 in Hsr. simplify_eq. simpl in Hin. apply list_elem_of_lookup in Hin as [j Hj].
    destruct (upper_bound_after t low j c Hs Hj) as [Hpos|Hgt].
    { destruct (Hspec j c Hpos Hj) as [Hf|[(k & x & _ & _ & Hx)|(k & x & _ & _ & Hx)]];
        [|discriminate Hx|discriminate Hx]. left. by apply fit_in_chunk_None. }
    pose proof (lookup_lt_Some _ _ _ Hj) as Hlt.
    destruct (Hspec2 j c) as [Hf|[(k & x & Hk & Hx & Hst)|(k & x & _ & _ & Hx)]];
      [rewrite last_pos; lia|done| | |discriminate Hx]; [left; by apply fit_in_chunk_None|].
    right. bool_to_prop. split; [done|]. destruct (decide (j = k)) as [->|Hne]; [congruence|].
    pose proof (free_chunks_order low st out pend t j k c x Hi Et ltac:(lia) Hj Hx).
    destruct Hcw. unfold cstart, cend in *. lia.
Qed.

Lemma fit_Some_bounds (a n : Z) (range : ChunkRange) (c : Chunk) (s : Z) :
  fit_in_range a n range c = Done (Some s) -> wf_range (pages c) -> alignment_ok a ->
  1 <= n <= U64_MAX -> valid_chunk (r_start range) ->
  (a | s) /\ Z.max (cstart c) (r_start range) <= s <= MAX_PAGE_NUMBER + 1 /\
  Z.min MAX_PAGE_NUMBER (s + n) <= Z.min (cend c) (r_end range).
Proof.
  intros Hf [Hw1 Hw2] Ha Hn Hv. unfold fit_in_range, try_fit in Hf. unfold valid_chunk in Hv.
  destruct (align_up_spec (Z.max (cstart c) (r_start range)) a) as (s' & E & Hs & Hd & _);
    [unfold valid_chunk, cstart; lia|done|].
  rewrite E in Hf. cbn [outcome_bind] in Hf.
  destruct (Z.leb_spec (chunk_add Page4K s' n) (Z.min (cend c) (r_end range))) as [Hle|]; simplify_eq.
  unfold cstart, cend in *. apply fit_room in Hle; [|lia|lia]. split; [done|]. lia.
Qed.

(** The allocation [ap] of [n] pages: aligned, of the requested size up to the end of
    the address space, and inside a free chunk. *)
Definition allocated_from (st : PageAllocator) (a n : Z) (ap : AllocatedPages) : Prop :=
  (a | pstart ap) /\ pend ap = Z.min MAX_PAGE_NUMBER (pstart ap + n - 1) /\
  exists c, c ∈ sa_iter (free_page_list st) /\ cstart c <= pstart ap /\ pend ap <= cend c.

(** What a chosen chunk leads to. *)
Lemma adjust_allocated (st : PageAllocator) (a n s : Z) (range : ChunkRange) (c : Chunk)
    (ref : ValueRefMut Chunk) :
  chunks_wf (free_page_list st) -> page_ref_at ref (free_page_list st) c ->
  fit_in_range a n range c = Done (Some s) -> alignment_ok a -> 1 <= n <= U64_MAX ->
  valid_chunk (r_start range) ->
  exists ap d l, adjust_chosen_chunk s n c ref = Done (Ok (ap, d), l) /\
    allocated_from st a n ap /\ r_start range <= pstart ap /\ pend ap <= r_end range /\
    Z.min MAX_PAGE_NUMBER (pstart ap + n) <= r_end range.
Proof.
  intros Hw Href Hfit Ha Hn Hv. pose proof (page_ref_wf _ _ _ Href) as Hin.
  unfold chunks_wf in Hw. pose proof (proj1 (Forall_forall _ _) Hw c Hin) as Hcw.
  destruct (fit_Some_bounds a n range c s Hfit Hcw Ha Hn Hv) as (Hd & Hs & Hle).
  destruct (adjust_Done s n c ref _ Href Hcw) as (ap & d & l & E & Er & _); [|done|].
  { by eapply fit_in_range_Some. }
  exists ap, d, l. split; [done|]. unfold allocated_from, pstart, pend. rewrite Er. simpl.
  split; [|lia]. split; [done|]. split; [lia|]. exists c. split; [done|]. lia.
Qed.

Definition full_range (low : Z) : ChunkRange := mkRange (low + 1) (DESIGNATED_PAGES_HIGH_START - 1).

(** No room in any free chunk, within the range if there is one. *)
Definition no_room (st : PageAllocator) (a n : Z) (within : option ChunkRange) : Prop :=
  forall c, c ∈ sa_iter (free_page_list st) ->
    match within with
    | Some r => ~ room a n (Z.max (cstart c) (r_start r)) (Z.min (cend c) (r_end r))
    | None => ~ room a n (cstart c) (cend c)
    end.

Lemma page_find_any_complete (low : Z) (st : PageAllocator) out pnd (n : Z)
    (within : option ChunkRange) (a : Z) :
  pinv low (mkPConfig st out pnd) -> 1 <= n <= U64_MAX -> alignment_ok a ->
  (forall r, within = Some r -> valid_chunk (r_start r)) ->
  exists r l, page_find_any (Some low) (free_page_list st) n within a = Done (r, l) /\
    match r with
    | Ok (ap, d) => allocated_from st a n ap /\
        match within with
        | Some r => r_start r <= pstart ap /\ pend ap <= r_end r
        | None => low < pstart ap < DESIGNATED_PAGES_HIGH_START \/
                  no_room st a n (Some (full_range low))
        end
    | Err _ => l = free_page_list st /\ no_room st a n within
    end.
Proof.
  intros Hi Hn Ha Hr. pose proof (pinv_low _ _ Hi) as Hlow.
  pose proof (pinv_alloc _ _ Hi) as [_ Hw _]. pcfg_in Hw.
  assert (mkRange (chunk_add Page4K low 1) (chunk_sub Page4K DESIGNATED_PAGES_HIGH_START 1) =
          full_range low) as Ef.
  { destruct Hlow as [? Hl]. rewrite HIGH_START_val in *.
    rewrite chunk_add_4k, chunk_sub_4k by (mem_consts; lia). unfold full_range. rewrite HIGH_START_val.
    f_equal; mem_consts; lia. }
  unfold page_find_any. rewrite Ef. set (range := default (full_range low) within).
  assert (valid_chunk (r_start range)) as Hv.
  { unfold range. destruct within; simpl; [auto|]. destruct Hlow as [? Hl]. rewrite HIGH_START_val in *.
    unfold valid_chunk. mem_consts. lia. }
  destruct (search_range_Done (free_page_list st) n range a) as (r1 & E1 & H1); [destruct Ha; lia|].
  rewrite E1. cbn [outcome_bind]. destruct r1 as [[[ref c] s]|].
  - destruct (H1 _ _ _ eq_refl) as [Href Hfit].
    destruct (adjust_allocated st a n s range c ref) as (ap & d & l & -> & Hal & B1 & B2 & B3); auto.
    do 2 eexists. split; [done|]. cbn beta iota. split; [done|].
    unfold range in *. destruct within as [r|]; [split; assumption|]. left. simpl in *.
    rewrite HIGH_START_val in *. mem_consts. lia.
  - pose proof (search_range_None low st out pnd n range a Hi Ha Hn Hv E1) as Hnr.
    destruct within as [r|].
    { do 2 eexists. split; [reflexivity|]. split; [reflexivity|exact Hnr]. }
    destruct (search_designated_Done (free_page_list st) n low a) as (r2 & E2 & H2); [destruct Ha; lia|].
    rewrite E2. cbn [outcome_bind]. destruct r2 as [[[ref c] s]|].
    + destruct (H2 _ _ _ eq_refl) as [Href Hfit].
      pose proof (proj1 (Forall_forall _ _) Hw c (page_ref_wf _ _ _ Href)) as Hcw.
      destruct (adjust_allocated st a n s (pages c) c ref) as (ap & d & l & -> & Hal & _); auto.
      { unfold fit_in_range. by rewrite Z.max_id, Z.min_id. }
      { unfold wf_range, valid_chunk in *. lia. }
      do 2 eexists. split; [done|]. cbn beta iota. split; [done|]. by right.
    + do 2 eexists. split; [done|]. split; [done|]. intros c Hin.
      destruct (search_designated_None low st out pnd n a Hi Ha Hn E2 c Hin) as [|[Hc1 Hc2]]; [done|].
      pose proof (free_chunk_below_high low st out pnd c Hi Hin Hc2).
      specialize (Hnr c Hin). simpl in Hnr.
      rewrite Z.max_l, Z.min_l in Hnr by lia. done.
Qed.

(** The alignment and the range a request asks for. *)
Definition req_alignment (req : AllocationRequest) : Z :=
  match req with AlignedTo a => a | _ => 1 end.

Definition req_within (req : AllocationRequest) : option ChunkRange :=
  match req with WithinRange r => Some r | _ => None end.

Definition at_address (req : AllocationRequest) : bool :=
  match req with AtVirtualAddress _ => true | _ => false end.

Lemma page_search_any (low : Z) (st : PageAllocator) (req : AllocationRequest) (num : Z) :
  palloc_ok low st -> page_request_ok req num st -> at_address req = false ->
  page_search req num st =
    page_find_any (Some low) (free_page_list st) num (req_within req) (req_alignment req) /\
  alignment_ok (req_alignment req) /\
  forall r, req_within req = Some r -> valid_chunk (r_start r).
Proof.
  intros [Hlow _ _] [_ Hreq] Hat. unfold page_search. rewrite Hlow.
  destruct req as [v|a|r|]; simpl in *; [done| | |]; split_and!; auto using alignment_ok_1;
    intros r' [= <-]; done.
Qed.

(** Requests without a fixed address are complete.  In every state that satisfies
    the invariant, a request for pages anywhere, aligned, or within a range returns.
    On success the pages start at a multiple of the alignment, are as many as
    requested (cut off only at the last page of the address space), lie inside one
    free chunk and inside the range; without a range they come from the designated
    regions only when the rest of the address space has no room.  On failure nothing
    changes and no free chunk has room for an aligned allocation followed by one more
    page. *)
Theorem allocate_pages_complete (low : Z) (st : PageAllocator) out pnd (req : AllocationRequest)
    (num : Z) :
  pinv low (mkPConfig st out pnd) -> page_request_ok req num st -> 1 <= num ->
  at_address req = false ->
  exists r st', allocate_pages_deferred req num st = Done (r, st') /\
    match r with
    | Ok (ap, d) => allocated_from st (req_alignment req) num ap /\
        match req_within req with
        | Some r => r_start r <= pstart ap /\ pend ap <= r_end r
        | None => low < pstart ap < DESIGNATED_PAGES_HIGH_START \/
                  no_room st (req_alignment req) num (Some (full_range low))
        end
    | Err _ => st' = st /\ no_room st (req_alignment req) num (req_within req)
    end.
Proof.
  intros Hi Hreq H1 Hat. pose proof Hreq as [Hn _].
  destruct (page_search_any low st req num) as (E & Ha & Hw); [apply (pinv_alloc _ _ Hi)|done|done|].
  unfold allocate_pages_deferred. rewrite (proj2 (Z.eqb_neq num 0)) by lia.
  destruct (page_find_any_complete low st out pnd num (req_within req) (req_alignment req)
              Hi ltac:(lia) Ha Hw) as (r & l & E2 & Hspec).
  rewrite E, E2. cbn [outcome_bind]. do 2 eexists. split; [done|].
  destruct r as [[ap d]|e]; [done|]. destruct Hspec as [-> ?]. split; [by destruct st|done].
Qed.

(** ** Requests at an address *)

(** In the tree, the chunk the cursor finds for a page that is free is the one that
    contains it. *)
Lemma upper_bound_containing (low : Z) (st : PageAllocator) out pnd (t : tree Chunk) (page : Z) (c : Chunk) :
  pinv low (mkPConfig st out pnd) -> free_page_list st = TreeInner t ->
  c ∈ rb_iter t -> in_range page (pages c) -> c_get (rb_upper_bound page t) = Some c.
Proof.
  intros Hi Et Hin [Hp1 Hp2]. pose proof (pinv_alloc _ _ Hi) as [_ _ Hs]. pcfg_in Hs.
  rewrite Et in Hs. simpl in Hs. rewrite get_spec, upper_bound_tree, upper_bound_pos by done.
  unfold upper_position. apply list_elem_of_lookup in Hin as [j Hj].
  destruct (upper_pos page (rb_iter t)) as [i|] eqn:Ei; simpl.
  - apply upper_pos_Some in Ei as [(x & Hx & Hk) Hlt]. rewrite Hx. f_equal.
    unfold key, Chunk_keyed in *. destruct (lt_eq_lt_dec i j) as [[Hij|Hij]|Hij].
    + specialize (Hlt j c Hij Hj). simpl in Hlt. lia.
    + subst. congruence.
    + pose proof (free_chunks_order low st out pnd t j i c x Hi Et Hij Hj Hx).
      unfold cstart, cend in *. lia.
  - apply upper_pos_None in Ei. rewrite Forall_lookup in Ei. specialize (Ei j c Hj).
    unfold key, Chunk_keyed in Ei. simpl in Ei. lia.
Qed.

(** The pages from [page] to [e] are inside the free chunk [c]. *)
Definition in_free_chunk (list : StaticArrayRBTree Chunk) (page e : Z) (c : Chunk) : Prop :=
  c ∈ sa_iter list /\ cstart c <= page /\ e <= cend c.

(** The result of a request for the pages from [page] to [e]. *)
Definition exact_result {E} (list : StaticArrayRBTree Chunk) (page e : Z)
    (r : result (AllocatedPages * PageDeferred) E) (list' : StaticArrayRBTree Chunk) : Prop :=
  match r with
  | Ok (ap, d) => ap_pages ap = mkRange page e /\ exists c, in_free_chunk list page e c
  | Err _ => sa_iter list' = sa_iter list /\ forall c, ~ in_free_chunk list page e c
  end.

Lemma adjust_exact (list : StaticArrayRBTree Chunk) (page n : Z) (c : Chunk) (ref : ValueRefMut Chunk) :
  chunks_wf list -> valid_chunk page -> 1 <= n <= U64_MAX -> page_ref_at ref list c ->
  cstart c <= page -> Z.min MAX_PAGE_NUMBER (page + n - 1) <= cend c ->
  exists r l, adjust_chosen_chunk page n c ref = Done (r, l) /\
    exact_result list page (Z.min MAX_PAGE_NUMBER (page + n - 1)) r l.
Proof.
  intros Hw Hp Hn Href Hc1 Hc2. pose proof (page_ref_wf _ _ _ Href) as Hin.
  unfold chunks_wf in Hw. rewrite Forall_forall in Hw. unfold valid_chunk in Hp.
  destruct (adjust_Done page n c ref _ Href (Hw c Hin)) as (ap & d & l' & Ea & Er & _);
    [split; lia|done|].
  do 2 eexists. split; [done|]. split; [done|]. exists c. by split.
Qed.

Lemma requested_end (page n : Z) :
  valid_chunk page -> 1 <= n <= U64_MAX ->
  chunk_add Page4K page (wrap64 (n - 1)) = Z.min MAX_PAGE_NUMBER (page + n - 1).
Proof.
  intros Hp Hn. unfold valid_chunk in Hp. rewrite wrap64_id by (mem_consts; lia).
  rewrite chunk_add_4k by (mem_consts; lia). f_equal. lia.
Qed.

Lemma find_specific_array (arr : list (option Chunk)) (page n : Z) :
  chunks_wf (ArrayInner arr) -> valid_chunk page -> 1 <= n <= U64_MAX ->
  exists r l, page_find_specific (ArrayInner arr) page n = Done (r, l) /\
    exact_result (ArrayInner arr) page (Z.min MAX_PAGE_NUMBER (page + n - 1)) r l.
Proof.
  intros Hw Hp Hn. unfold page_find_specific. rewrite requested_end by done.
  destruct (find_index _ arr) as [i|] eqn:Ei.
  - apply find_index_Some in Ei as [([c|] & Hc & Hcov) _]; [|done]. rewrite Hc.
    simpl in Hcov. bool_to_prop. by apply adjust_exact.
  - do 2 eexists. split; [done|]. split; [done|]. intros c (Hin & Hc1 & Hc2).
    apply array_elem in Hin. apply find_index_None in Ei. rewrite Forall_forall in Ei.
    specialize (Ei _ Hin). simpl in Ei. rewrite andb_false_iff, !Z.leb_gt in Ei. lia.
Qed.

Lemma find_specific_tree (low : Z) (st : PageAllocator) out pnd (t : tree Chunk) (page n : Z) :
  pinv low (mkPConfig st out pnd) -> free_page_list st = TreeInner t ->
  valid_chunk page -> 1 <= n <= U64_MAX -> no_merge (rb_iter t) page n ->
  exists r l, page_find_specific (TreeInner t) page n = Done (r, l) /\
    exact_result (TreeInner t) page (Z.min MAX_PAGE_NUMBER (page + n - 1)) r l.
Proof.
  intros Hi Et Hp Hn Hnm. pose proof (pinv_alloc _ _ Hi) as [_ Hw Hs]. pcfg_in Hw. pcfg_in Hs.
  rewrite Et in Hw, Hs. unfold page_find_specific. rewrite requested_end by done.
  set (e := Z.min _ _). unfold valid_chunk in Hp.
  assert (forall c, in_free_chunk (TreeInner t) page e c ->
            c_get (rb_upper_bound page t) = Some c) as Hub.
  { intros c (Hin & Hc1 & Hc2). eapply upper_bound_containing; eauto.
    pose proof (proj1 (Forall_forall _ _) Hw c Hin) as [? ?]. unfold in_range, cstart, cend, e in *. lia. }
  destruct (c_get (rb_upper_bound page t)) as [c|] eqn:Ec.
  2:{ do 2 eexists. split; [done|]. split; [done|]. intros c Hc. by specialize (Hub c Hc). }
  assert (page_ref_at (RefTree (rb_upper_bound page t)) (TreeInner t) c) as Href.
  { simpl. rewrite get_spec, upper_bound_tree in Ec. by rewrite upper_bound_tree. }
  pose proof (page_ref_wf _ _ _ Href) as Hin. pose proof (proj1 (Forall_forall _ _) Hw c Hin) as [? ?].
  destruct (Z.leb_spec (cstart c) page).
  2:{ do 2 eexists. split; [done|]. split; [done|]. intros x Hx. pose proof (Hub x Hx). simplify_eq.
      destruct Hx as (_ & ? & _). lia. }
  destruct (Z.leb_spec e (cend c)); [by apply adjust_exact|].
  rewrite merge_nothing; [|lia|].
  - cbn [outcome_bind]. rewrite Z.ltb_irrefl. do 2 eexists. split; [done|]. split.
    + simpl. by rewrite next_tree, upper_bound_tree.
    + intros x Hx. pose proof (Hub x Hx). simplify_eq. destruct Hx as (_ & _ & ?). lia.
  - intros nx Hnx Ex. rewrite chunk_sub_4k in Ex.
    destruct (upper_next t page c nx Hs Ec Hnx) as (Hlt & _ & Hnin).
    apply (Hnm c nx Hin Hnin); [|unfold e in *; lia|unfold cstart, cend in *; lia].
    unfold in_range, cstart, cend in *. lia.
Qed.

(** Requests at an address are exact.  In every state that satisfies the
    invariant, a request for pages at an address whose free chunk is large enough or
    has no free chunk right after it returns; it succeeds exactly when one free chunk
    contains all requested pages, and then the pages start at the page of the address
    and are as many as requested (up to the end of the address space).  A failed
    request leaves the free chunks as they were. *)
Theorem allocate_pages_at_exact (low : Z) (st : PageAllocator) out pnd (vaddr num : Z) :
  pinv low (mkPConfig st out pnd) -> page_request_ok (AtVirtualAddress vaddr) num st -> 1 <= num ->
  let page := containing_address vaddr in
  let e := Z.min MAX_PAGE_NUMBER (page + num - 1) in
  exists r st', allocate_pages_deferred (AtVirtualAddress vaddr) num st = Done (r, st') /\
    exact_result (free_page_list st) page e r (free_page_list st').
Proof.
  intros Hi [Hn [Hu Hnm]] H1 page e. unfold allocate_pages_deferred.
  rewrite (proj2 (Z.eqb_neq num 0)) by lia. cbn [page_search].
  assert (valid_chunk page) as Hp by (by apply containing_address_valid).
  assert (exists r l, page_find_specific (free_page_list st) page num = Done (r, l) /\
            exact_result (free_page_list st) page e r l) as (r & l & E & Hspec).
  { destruct (free_page_list st) as [arr|t] eqn:Et.
    - apply find_specific_array; [|done|lia].
      rewrite <- Et. apply (pinv_alloc _ _ Hi).
    - eapply find_specific_tree; eauto; lia. }
  unfold page in E. rewrite E. cbn [outcome_bind]. do 2 eexists. split; [done|].
  by destruct r as [[ap d]|err].
Qed.

(** ** Dropping pages *)

(** A page a client holds is not free. *)
Lemma held_not_free (low : Z) (st : PageAllocator) o1 ap o2 pnd (f : Z) :
  pinv low (mkPConfig st (o1 ++ ap :: o2) pnd) ->
  rin f (ap_pages ap) + cnt f (free_ranges st) <= 1.
Proof.
  intros Hi. pose proof (pinv_cnt _ _ Hi f) as H. rewrite cnt_places in H. pcfg_in H.
  rewrite cnt_fmap_middle in H. pose proof (initial_disjoint low f ltac:(apply Hi)).
  pose proof (cnt_nonneg f (ap_pages <$> o1 ++ o2)).
  pose proof (cnt_nonneg f (pages <$> ppieces pnd)). lia.
Qed.

(** Dropping pages returns all of them.  In a state that satisfies the invariant,
    dropping pages a client holds puts them into the free list whenever the list is in
    tree form or its array has an empty slot: afterwards every page is in exactly as
    many free chunks as it was in free chunks and in the dropped object before, and
    the free chunks are nonempty and ordered again. *)
Theorem drop_returns_all_pages (low : Z) (st : PageAllocator) o1 ap o2 pnd :
  pinv low (mkPConfig st (o1 ++ ap :: o2) pnd) -> has_room (free_page_list st) ->
  let st' := drop_pages Page4K ap st in
  (forall f, cnt f (free_ranges st') = rin f (ap_pages ap) + cnt f (free_ranges st)) /\
  chunks_wf (free_page_list st') /\ sa_sorted (free_page_list st').
Proof.
  intros Hi Hroom st'. pose proof (fun f => held_not_free low st o1 ap o2 pnd f Hi) as Hcnt.
  pose proof (pinv_out _ _ Hi) as Ho. pcfg_in Ho. rewrite fmap_app, fmap_cons in Ho.
  apply Forall_app in Ho as [_ Ho]. apply Forall_cons in Ho as [Hap _].
  pose proof (pinv_alloc _ _ Hi) as [_ Hw Hs]. pcfg_in Hw. pcfg_in Hs.
  unfold st', drop_pages. rewrite range_ok_size by done.
  destruct (Z.eqb_spec (Z.max 0 (r_end (ap_pages ap) + 1 - r_start (ap_pages ap))) 0).
  { split_and!; auto. intros f. rewrite rin_empty by lia. lia. }
  assert (wf_range (ap_pages ap)) as Hapw by (unfold range_ok, wf_range in *; lia).
  rewrite into_4k_4k by done. unfold free_ranges in *.
  destruct (free_page_list st) as [arr|t] eqn:Et.
  - destruct (sa_insert_room (mkChunk (ap_pages ap)) (ArrayInner arr) Hroom) as [l El]. rewrite El.
    apply sa_insert_Ok in El as [HP Hso]. pcfg. unfold chunks_wf in *. rewrite HP. split_and!; auto.
    intros f. by rewrite HP, fmap_cons, cnt_cons.
  - destruct (free_pages_into_tree_ok (mkChunk (ap_pages ap)) t) as (Hs' & Hw' & Hc'); [done|].
    pcfg. split_and!; [exact Hc'|exact Hw'|exact Hs'].
Qed.

End PageSpec.

(** ** A run *)

Module PageDemo.

Definition cl : RBTreeOps Chunk := ListTree.list_ops.

(** The kernel image ends at 16 MiB. *)
Definition image_end : Z := 0x1000000.

Definition initial : PageAllocator (cops := cl) :=
  match page_init (cops := cl) image_end page_allocator_static with
  | Done (_, st) => st
  | Panic => page_allocator_static
  end.

(** The heap-based form of the list. *)
Definition heap : PageAllocator (cops := cl) := convert_page_allocator_to_heap_based initial.

Lemma low_ok : low_end_ok (containing_address image_end).
Proof. split; vm_compute; congruence. Qed.

Lemma heap_inv : pinv (cops := cl) (containing_address image_end) (mkPConfig heap [] []).
Proof.
  destruct (page_init_inv (cops := cl) image_end) as (st & E & Hi); [done|apply low_ok|].
  assert (st = initial) as -> by (unfold initial; by rewrite E).
  eapply (pstep_preserves (cops := cl) (claws := ListTree.list_laws)); [apply pstep_convert|done].
Qed.

(** Three allocations of ten pages in a row; the second and then the first one are
    dropped, so that the free chunk that ends the low designated region and the
    returned one touch without being merged. *)
Definition fragmented : outcome (AllocatedPages * PageAllocator (cops := cl)) :=
  let* (x, st) := allocate_pages (cops := cl) 10 heap in
  let* (y, st) := allocate_pages 10 st in
  let* (z, st) := allocate_pages 10 st in
  let* x := expect x in
  let* y := expect y in
  let* z := expect z in
  Done (z, drop_pages Page4K x (drop_pages Page4K y st)).

End PageDemo.

Import PageDemo.

(** A request at an address can hand out pages that are in use.  When the free
    chunk of the requested page is too small, [find_specific_chunk] merges it with the
    free chunks right after it but neither checks that the merged chunk is large
    enough nor passes it on: with the kernel image ending at 16 MiB, after three
    allocations of ten pages and two drops, a request for 40 pages at page 4090
    succeeds with pages the third allocation still holds; and a request for 4 pages
    across the end of the low designated region in the initial heap-based state
    succeeds but loses the rest of the middle region, so that the next request for
    one page gets page 0 of a designated region. *)
Theorem address_request_double_allocates :
  (exists z st ap st', fragmented = Done (z, st) /\
     allocate_pages_at (cops := cl) (4090 * 4096) 40 st = Done (Ok ap, st') /\
     ap_pages z = mkRange 4117 4126 /\ ap_pages ap = mkRange 4090 4129) /\
  (exists ap st ap' st',
     allocate_pages_at (cops := cl) (4095 * 4096) 4 heap = Done (Ok ap, st) /\
     sa_iter (free_page_list heap) !! 1%nat = Some (mkChunk (mkRange 4097 4503599090499583)) /\
     cnt 1000000 (free_ranges heap) = 1 /\ cnt 1000000 (free_ranges st) = 0 /\
     ap_pages ap = mkRange 4095 4098 /\
     allocate_pages 1 st = Done (Some ap', st') /\ ap_pages ap' = mkRange 0 0).
Proof.
  split; eexists _, _, _, _; repeat (split; [vm_compute; reflexivity|]); vm_compute; reflexivity.
Qed.

(** ** Witnesses *)

(** Five pages anywhere, then two pages at an address. *)
Lemma page_demo_run :
  exists c, rtc (pstep (cops := cl)) (mkPConfig initial [] []) c /\ exists x y, pc_out c = [x; y].
Proof.
  eexists. split.
  {
  eapply rtc_l; [eapply (pstep_alloc (cops := cl) AnyAddress 5); [|vm_compute; reflexivity]|].
  { split; [vm_compute; split; congruence|exact I]. }
  eapply rtc_l; [eapply (pstep_deferred (cops := cl) _ _ []); vm_compute; reflexivity|].
  eapply rtc_l; [eapply (pstep_alloc (cops := cl) (AtVirtualAddress 0x4000000) 2);
    [|vm_compute; reflexivity]|].
  { split; [vm_compute; split; congruence|]. split; [vm_compute; split; congruence|].
    intros c c' Hc Hc' Hin Hlt. exfalso.
    change (containing_address 0x4000000) with 16384 in *.
    vm_compute in Hc. repeat (apply elem_of_cons in Hc as [->|Hc]); [..|by inversion Hc];
      unfold in_range, cend in *; simpl in *; revert Hlt; mem_consts; lia. }
  apply rtc_refl. }
  eexists _, _. reflexivity.
Qed.


Lemma allocate_pages_complete_witness :
  exists ap d st', allocate_pages_deferred (AlignedTo 512) 100 heap = Done (Ok (ap, d), st') /\
    allocated_from heap 512 100 ap.
Proof.
  destruct (allocate_pages_complete (cops := cl) (claws := ListTree.list_laws)
    (containing_address image_end) heap [] [] (AlignedTo 512) 100) as (r & st' & E & Hspec).
  - apply heap_inv.
  - split; [vm_compute; split; congruence|]. split; [lia|]. exists 8796093022208. reflexivity.
  - lia.
  - reflexivity.
  - destruct r as [[ap d]|e]; [|vm_compute in E; discriminate E].
    exists ap, d, st'. split; [exact E|apply Hspec].
Defined.

Lemma allocate_pages_at_exact_witness :
  exists ap d st', allocate_pages_deferred (AtVirtualAddress 0x4000123) 3 heap =
      Done (Ok (ap, d), st') /\ ap_pages ap = mkRange 16384 16386.
Proof.
  destruct (allocate_pages_at_exact (cops := cl) (claws := ListTree.list_laws)
    (containing_address image_end) heap [] [] 0x4000123 3) as (r & st' & E & Hspec).
  - apply heap_inv.
  - split; [vm_compute; split; congruence|]. split; [vm_compute; split; congruence|].
    intros c c' Hc Hc' Hin Hlt. exfalso. clear Hc'. change (containing_address 0x4000123) with 16384 in *.
    vm_compute in Hc. repeat (apply elem_of_cons in Hc as [->|Hc]); [..|by inversion Hc];
      unfold in_range, cend in *; simpl in *; revert Hlt; mem_consts; lia.
  - lia.
  - destruct r as [[ap d]|e]; [|vm_compute in E; discriminate E].
    exists ap, d, st'. split; [exact E|]. rewrite (proj1 Hspec). reflexivity.
Defined.

(** A client that holds the ten pages after the low designated region. *)
Lemma page_demo_held :
  exists ap st d, pinv (cops := cl) (containing_address image_end) (mkPConfig st ([] ++ ap :: []) [d]) /\
    ap_pages ap = mkRange 4097 4106 /\ has_room (free_page_list st).
Proof.
  destruct (allocate_pages_deferred (cops := cl) AnyAddress 10 heap) as [[[[ap d]|e] st]|] eqn:E;
    try (vm_compute in E; discriminate E).
  exists ap, st, d. split.
  - eapply (pstep_preserves (cops := cl) (claws := ListTree.list_laws));
      [eapply (pstep_alloc (cops := cl) AnyAddress 10)|apply heap_inv]; [|exact E].
    split; [vm_compute; split; congruence|exact I].
  - vm_compute in E. injection E as <- <- <-. split; [reflexivity|exact I].
Qed.

Lemma drop_returns_all_pages_witness :
  exists ap (st : PageAllocator (cops := cl)), ap_pages ap = mkRange 4097 4106 /\
    cnt 4100 (free_ranges (drop_pages Page4K ap st)) = 1 + cnt 4100 (free_ranges st).
Proof.
  destruct page_demo_held as (ap & st & d & Hi & E & Hroom). exists ap, st. split; [exact E|].
  rewrite (proj1 (drop_returns_all_pages (cops := cl) (claws := ListTree.list_laws)
    (containing_address image_end) st [] ap [] [d] Hi Hroom) 4100).
  rewrite E. reflexivity.
Defined.
