(* ===== verification/BTree.v ===== *)
(** * Ordered maps

    [alloc::collections::BTreeMap] keyed by pairs of unsigned integers, as the run
    queues use it ([VtKey(u64, usize)], [(u64, usize)]): the entries in strictly
    ascending lexicographic order of their keys. *)

From stdpp Require Import sorting.
From S2P Require Import Prelude.

Abbreviation vkey := (Z * Z)%type.

(** The derived [Ord] of the key pairs. *)
Definition klt (a b : vkey) : Prop := a.1 < b.1 \/ (a.1 = b.1 /\ a.2 < b.2).

Definition kltb (a b : vkey) : bool := (a.1 <? b.1) || ((a.1 =? b.1) && (a.2 <? b.2)).

Lemma kltb_spec (a b : vkey) : reflect (klt a b) (kltb a b).
Proof. unfold kltb, klt. apply iff_reflect. case_cmp; simpl; lia. Qed.

#[export] Instance klt_trans : Transitive klt.
Proof. intros [a1 a2] [b1 b2] [c1 c2]. unfold klt; simpl. lia. Qed.

#[export] Instance klt_irrefl : Irreflexive klt.
Proof. intros [a1 a2]. unfold klt, complement; simpl. lia. Qed.

Lemma klt_total (a b : vkey) : klt a b \/ a = b \/ klt b a.
Proof.
  destruct a as [a1 a2], b as [b1 b2]. unfold klt; simpl.
  destruct (Z.lt_total a1 b1) as [?|[->|?]]; [by left; left| |by right; right; left].
  destruct (Z.lt_total a2 b2) as [?|[->|?]]; [by left; right|by right; left|by right; right; right].
Qed.

Section BTree.
Context {V : Type}.
Implicit Types (m : list (vkey * V)) (k : vkey).

(** [insert]: an entry with the same key is replaced. *)
Fixpoint bt_insert (k : vkey) (v : V) (m : list (vkey * V)) : list (vkey * V) :=
  match m with
  | [] => [(k, v)]
  | (k', v') :: m' =>
      if kltb k k' then (k, v) :: m
      else if kltb k' k then (k', v') :: bt_insert k v m'
      else (k, v) :: m'
  end.

(** [remove]: the value of the entry, if there was one, and what is left. *)
Fixpoint bt_remove (k : vkey) (m : list (vkey * V)) : option V * list (vkey * V) :=
  match m with
  | [] => (None, [])
  | (k', v') :: m' =>
      if decide (k = k') then (Some v', m')
      else let '(o, r) := bt_remove k m' in (o, (k', v') :: r)
  end.

(** [iter().next()] and [iter().next_back()]. *)
Definition bt_first (m : list (vkey * V)) : option (vkey * V) := head m.
Definition bt_last (m : list (vkey * V)) : option (vkey * V) := last m.

(** [get_mut(&k)] used to change the value in place. *)
Fixpoint bt_update (k : vkey) (f : V -> V) (m : list (vkey * V)) : list (vkey * V) :=
  match m with
  | [] => []
  | (k', v') :: m' => if decide (k = k') then (k', f v') :: m' else (k', v') :: bt_update k f m'
  end.

Definition bt_sorted (m : list (vkey * V)) : Prop :=
  StronglySorted (fun a b => klt a.1 b.1) m.

Lemma bt_sorted_nil : bt_sorted [].
Proof. constructor. Qed.

Lemma bt_sorted_cons (k : vkey) (v : V) m :
  bt_sorted ((k, v) :: m) <-> bt_sorted m /\ Forall (fun e => klt k e.1) m.
Proof. split; [by inversion 1|]. intros [? ?]. by constructor. Qed.

Lemma elem_of_bt_insert (k : vkey) (v : V) m (e : vkey * V) :
  bt_sorted m -> e ∈ bt_insert k v m <-> e = (k, v) \/ (e ∈ m /\ e.1 <> k).
Proof.
  induction m as [|[k' v'] m IH]; intros Hs; simpl.
  - rewrite list_elem_of_singleton. set_solver.
  - apply bt_sorted_cons in Hs as [Hs Hk]. rewrite Forall_forall in Hk.
    assert (forall e, e ∈ m -> klt k' e.1) as Hk' by (intros; by apply Hk).
    destruct (kltb_spec k k') as [Hlt|Hn].
    + rewrite !elem_of_cons. split; [|naive_solver]. intros [->|[->|He]]; [by left| |].
      * right. split; [by left|]. simpl. intros ->. by apply (irreflexivity klt k).
      * right. split; [by right|]. intros <-. apply (irreflexivity klt k').
        etrans; [by apply Hk'|done].
    + destruct (kltb_spec k' k) as [Hlt|Hn'].
      * rewrite elem_of_cons, IH, elem_of_cons by done. split; [|naive_solver].
        intros [->|[->|[He Hne]]]; [|by left|by right; auto].
        right. split; [by left|]. simpl. intros ->. by apply (irreflexivity klt k).
      * destruct (klt_total k k') as [?|[->|?]]; [done| |done].
        rewrite !elem_of_cons. split; [|naive_solver]. intros [->|He]; [by left|].
        right. split; [by right|]. intros <-. apply (irreflexivity klt e.1). by apply Hk'.
Qed.

Lemma bt_insert_sorted (k : vkey) (v : V) m : bt_sorted m -> bt_sorted (bt_insert k v m).
Proof.
  induction m as [|[k' v'] m IH]; intros Hs; simpl.
  - by repeat constructor.
  - pose proof Hs as Hs0. apply bt_sorted_cons in Hs as [Hs Hk].
    destruct (kltb_spec k k') as [Hlt|Hn].
    + apply bt_sorted_cons. split; [done|]. constructor; [done|].
      eapply Forall_impl; [done|]. simpl. intros e ?. by etrans.
    + destruct (kltb_spec k' k) as [Hlt|Hn'].
      * apply bt_sorted_cons. split; [by apply IH|]. apply Forall_forall. intros e He.
        apply elem_of_bt_insert in He as [->|[He _]]; [done| |done]. rewrite Forall_forall in Hk. by apply Hk.
      * destruct (klt_total k k') as [?|[->|?]]; [done| |done]. by apply bt_sorted_cons.
Qed.

Lemma bt_insert_fresh (k : vkey) (v : V) m :
  k ∉ m.*1 -> Permutation (bt_insert k v m) ((k, v) :: m).
Proof.
  induction m as [|[k' v'] m IH]; intros Hk; simpl; [done|].
  rewrite fmap_cons in Hk. apply not_elem_of_cons in Hk as [Hne Hk]. simpl in Hne.
  destruct (kltb_spec k k') as [Hlt|Hn]; [done|].
  destruct (kltb_spec k' k) as [Hlt|Hn'].
  - rewrite IH by done. constructor.
  - by destruct (klt_total k k') as [?|[?|?]].
Qed.

Lemma bt_remove_Some (k : vkey) (v : V) m m' :
  bt_remove k m = (Some v, m') -> Permutation m ((k, v) :: m').
Proof.
  revert m'. induction m as [|[k' v'] m IH]; intros m' H; simpl in H; [done|].
  case_decide; [by simplify_eq|]. destruct (bt_remove k m) as [o r] eqn:E. simplify_eq.
  rewrite (IH r) by done. constructor.
Qed.

Lemma bt_remove_None (k : vkey) m m' : bt_remove k m = (None, m') -> m' = m /\ k ∉ m.*1.
Proof.
  revert m'. induction m as [|[k' v'] m IH]; intros m' H; simpl in H.
  - simplify_eq. split; [done|]. apply not_elem_of_nil.
  - case_decide; [done|]. destruct (bt_remove k m) as [o r] eqn:E. simplify_eq.
    destruct (IH r eq_refl) as [-> Hk]. split; [done|]. rewrite fmap_cons. by apply not_elem_of_cons.
Qed.

Lemma bt_remove_sublist (k : vkey) m : (bt_remove k m).2 `sublist_of` m.
Proof.
  induction m as [|[k' v'] m IH]; simpl; [done|]. case_decide; simpl; [by constructor|].
  destruct (bt_remove k m) as [o r]. simpl in *. by constructor.
Qed.

Lemma bt_remove_sorted (k : vkey) m : bt_sorted m -> bt_sorted (bt_remove k m).2.
Proof.
  induction m as [|[k' v'] m IH]; intros Hs; simpl; [done|].
  apply bt_sorted_cons in Hs as [Hs Hk]. case_decide; simpl; [done|].
  specialize (IH Hs). pose proof (bt_remove_sublist k m) as Hsub.
  destruct (bt_remove k m) as [o r]. simpl in *. apply bt_sorted_cons. split; [done|].
  apply Forall_forall. intros e He. rewrite Forall_forall in Hk. apply Hk.
  by eapply elem_of_sublist.
Qed.

(** The entries are found by their keys. *)
Lemma bt_sorted_unique (k : vkey) (v w : V) m :
  bt_sorted m -> (k, v) ∈ m -> (k, w) ∈ m -> v = w.
Proof.
  induction m as [|[k' v'] m IH]; intros Hs Hv Hw; [by inversion Hv|].
  apply bt_sorted_cons in Hs as [Hs Hk]. rewrite Forall_forall in Hk.
  apply elem_of_cons in Hv as [Hv|Hv], Hw as [Hw|Hw]; simplify_eq; try done.
  - exfalso. by apply (irreflexivity klt k'), (Hk _ Hw).
  - exfalso. by apply (irreflexivity klt k'), (Hk _ Hv).
  - by apply IH.
Qed.

Lemma bt_remove_elem (k : vkey) (v : V) m :
  bt_sorted m -> (k, v) ∈ m -> exists m', bt_remove k m = (Some v, m').
Proof.
  intros Hs Hin. destruct (bt_remove k m) as [[w|] m'] eqn:E.
  - assert (v = w) as <-; [|by eauto]. eapply bt_sorted_unique; [done|done|].
    rewrite (bt_remove_Some _ _ _ _ E). left.
  - apply bt_remove_None in E as [_ Hk]. exfalso. apply Hk.
    by apply (list_elem_of_fmap_2 fst) in Hin.
Qed.

Lemma bt_first_remove (k : vkey) (v : V) m : bt_remove k ((k, v) :: m) = (Some v, m).
Proof. simpl. by rewrite decide_True. Qed.

Lemma bt_first_min (k : vkey) (v : V) m (e : vkey * V) :
  bt_sorted m -> bt_first m = Some (k, v) -> e ∈ m -> k = e.1 \/ klt k e.1.
Proof.
  destruct m as [|[k' v'] m]; intros Hs Hf He; [done|]. simplify_eq/=.
  apply bt_sorted_cons in Hs as [_ Hk]. rewrite Forall_forall in Hk.
  apply elem_of_cons in He as [->|He]; [by left|right; by apply Hk].
Qed.

Lemma bt_last_max (k : vkey) (v : V) m (e : vkey * V) :
  bt_sorted m -> bt_last m = Some (k, v) -> e ∈ m -> k = e.1 \/ klt e.1 k.
Proof.
  unfold bt_last. intros Hs Hl He. apply last_Some in Hl as [m' ->].
  apply elem_of_app in He as [He|He].
  - right. eapply (StronglySorted_app_1_elem_of _ m' [(k, v)] e (k, v)) in Hs; [done|done|left].
  - apply list_elem_of_singleton in He as ->. by left.
Qed.

End BTree.

#[export] Hint Resolve bt_sorted_nil bt_insert_sorted bt_remove_sorted : maios.
