(* ===== verification/SchedTask.v ===== *)
(** * Scheduling metadata of tasks

    The part of [task_struct::Task] the schedulers read and write, and the store of
    tasks.  A [TaskRef] is a shared pointer to a lock-protected task: all queues that
    hold a reference see the same, mutable task.  Task ids are unique, so the
    reference is modelled by the id and the tasks by a store indexed by it. *)

From S2P Require Import Prelude.

Inductive SchedClass : Type :=
| Idle
| Batch
| Normal
| Compute
| RoundRobin (timeslice_ns : Z)
| Fifo
| Deadline (runtime deadline period : Z).

Inductive KillReason : Type := KRequested | KPanic | KException (code : Z).
Inductive ExitValue : Type := Completed (v : Z) | Killed (r : KillReason).
Inductive RunState : Type := Initing | Runnable | Blocked | Exited (v : ExitValue).

#[export] Instance KillReason_eq_dec : EqDecision KillReason.
Proof. solve_decision. Defined.
#[export] Instance ExitValue_eq_dec : EqDecision ExitValue.
Proof. solve_decision. Defined.
#[export] Instance RunState_eq_dec : EqDecision RunState.
Proof. solve_decision. Defined.
#[export] Instance SchedClass_eq_dec : EqDecision SchedClass.
Proof. solve_decision. Defined.

Record TaskSchedInfo := mkSched {
  vruntime : Z;
  ve : Z;
  vdeadline : Z;
  weight : Z;
  wmult : Z;
  nice : Z;
  rt_priority : Z;
  rr_timeslice_remaining : Z;
  pinned_cpu : option Z;
  policy : SchedClass;
  last_cpu : Z;
  wakeup_time_ns : Z;
  on_rq : bool;
  exec_runtime : Z;
}.

Definition sched_default : TaskSchedInfo :=
  mkSched 0 0 0 1024 4194304 0 0 100000000 None Normal 0 0 false 0.

Record Task := mkTask { runstate : RunState; sched : TaskSchedInfo }.

Definition task_new : Task := mkTask Runnable sched_default.

(** ** The store *)

Definition TaskRef : Type := Z.
Definition Tasks : Type := TaskRef -> Task.

Definition set_task (r : TaskRef) (t : Task) (ts : Tasks) : Tasks :=
  fun x => if decide (x = r) then t else ts x.

Definition set_sched (r : TaskRef) (s : TaskSchedInfo) (ts : Tasks) : Tasks :=
  set_task r (mkTask (runstate (ts r)) s) ts.

(** [task.read().sched]. *)
Definition sched_of (ts : Tasks) (r : TaskRef) : TaskSchedInfo := sched (ts r).

Lemma set_sched_eq (r : TaskRef) s (ts : Tasks) : sched_of (set_sched r s ts) r = s.
Proof. unfold sched_of, set_sched, set_task. by rewrite decide_True. Qed.

Lemma set_sched_ne (r x : TaskRef) s (ts : Tasks) :
  x <> r -> sched_of (set_sched r s ts) x = sched_of ts x.
Proof. intros. unfold sched_of, set_sched, set_task. by rewrite decide_False. Qed.

(** ** Nice values and weights *)

Definition wrap_i8 (x : Z) : Z := (x + 128) mod 256 - 128.

Definition NICE_TO_WEIGHT : list Z :=
  [88761; 71755; 56483; 46273; 36291; 29154; 23254; 18705; 14949; 11916;
   9548; 7620; 6100; 4904; 3906; 3121; 2501; 1991; 1586; 1277;
   1024; 820; 655; 526; 423; 335; 272; 215; 172; 137;
   110; 87; 70; 56; 45; 36; 29; 23; 18; 15].

Definition NICE_TO_WMULT : list Z :=
  [48388; 59856; 76040; 92818; 118348; 147320; 184698; 229616; 287308; 360437;
   449829; 563644; 704093; 875809; 1099582; 1376151; 1717300; 2157191; 2708050; 3363326;
   4194304; 5237765; 6557202; 8165337; 10153587; 12820798; 15790321; 19976592; 24970740; 31350126;
   39045157; 49367440; 61356676; 76695844; 95443717; 119304647; 148102320; 186737708; 238609294; 286331153].

(** [(nice + 20).clamp(0, 39)], in 8-bit arithmetic. *)
Definition nice_to_idx (n : Z) : nat := Z.to_nat (clamp (wrap_i8 (n + 20)) 0 39).

(** The index is below 40 whatever the nice value ([nice_to_idx_lt]), so the default
    is not used. *)
Definition weight_for_nice (n : Z) : Z := default 0 (NICE_TO_WEIGHT !! nice_to_idx n).
Definition wmult_for_nice (n : Z) : Z := default 0 (NICE_TO_WMULT !! nice_to_idx n).

(** [Task::update_weight] and [Task::set_nice]. *)
Definition update_weight (s : TaskSchedInfo) : TaskSchedInfo :=
  mkSched (vruntime s) (ve s) (vdeadline s) (weight_for_nice (nice s)) (wmult_for_nice (nice s))
    (nice s) (rt_priority s) (rr_timeslice_remaining s) (pinned_cpu s) (policy s) (last_cpu s)
    (wakeup_time_ns s) (on_rq s) (exec_runtime s).

Definition set_nice (n : Z) (s : TaskSchedInfo) : TaskSchedInfo :=
  update_weight
    (mkSched (vruntime s) (ve s) (vdeadline s) (weight s) (wmult s)
       (clamp n (-20) 19) (rt_priority s) (rr_timeslice_remaining s) (pinned_cpu s) (policy s)
       (last_cpu s) (wakeup_time_ns s) (on_rq s) (exec_runtime s)).

(** [scheduler::inherit_priority]: the child takes over nice value and policy. *)
Definition inherit_priority (child parent : TaskRef) (ts : Tasks) : Tasks :=
  let s := sched_of ts child in
  set_sched child
    (update_weight
       (mkSched (vruntime s) (ve s) (vdeadline s) (weight s) (wmult s)
          (nice (sched_of ts parent)) (rt_priority s) (rr_timeslice_remaining s) (pinned_cpu s)
          (policy (sched_of ts parent)) (last_cpu s) (wakeup_time_ns s) (on_rq s) (exec_runtime s))) ts.

(** [Task::block_initing_task] and [Task::make_inited_task_runnable]: a compare and
    exchange on the run state. *)
Definition from_initing (new : RunState) (t : Task) : result unit RunState * Task :=
  if decide (runstate t = Initing) then (Ok tt, mkTask new (sched t)) else (Err (runstate t), t).

Definition block_initing_task : Task -> result unit RunState * Task := from_initing Blocked.
Definition make_inited_task_runnable : Task -> result unit RunState * Task := from_initing Runnable.

(** ** Facts about the tables *)

Lemma nice_to_idx_lt (n : Z) : (nice_to_idx n < 40)%nat.
Proof. unfold nice_to_idx. pose proof (clamp_bounds (wrap_i8 (n + 20)) 0 39). lia. Qed.

(** A property of all entries of the tables holds for every nice value. *)
Lemma nice_tables_forall (P : Z -> Z -> bool) :
  forallb (fun i => P (default 0 (NICE_TO_WEIGHT !! i)) (default 0 (NICE_TO_WMULT !! i))) (seq 0 40) = true ->
  forall n, P (weight_for_nice n) (wmult_for_nice n) = true.
Proof.
  intros H n. rewrite forallb_forall in H. apply (H (nice_to_idx n)).
  apply in_seq. pose proof (nice_to_idx_lt n). lia.
Qed.

Lemma weight_for_nice_bounds (n : Z) : 15 <= weight_for_nice n <= 88761.
Proof.
  pose proof (nice_tables_forall (fun w _ => (15 <=? w) && (w <=? 88761)) eq_refl n) as H.
  simpl in H. bool_to_prop. lia.
Qed.

(** The inverse weight is [2^32 / weight], rounded. *)
Lemma wmult_inverse (n : Z) :
  2 ^ 32 - 40 <= weight_for_nice n * wmult_for_nice n <= 2 ^ 32 + 40.
Proof.
  pose proof (nice_tables_forall
    (fun w m => (2 ^ 32 - 40 <=? w * m) && (w * m <=? 2 ^ 32 + 40)) eq_refl n) as H.
  cbv beta in H. bool_to_prop. lia.
Qed.

Lemma wmult_for_nice_bounds (n : Z) : 0 < wmult_for_nice n < 2 ^ 29.
Proof.
  pose proof (nice_tables_forall (fun _ m => (0 <? m) && (m <? 2 ^ 29)) eq_refl n) as H.
  cbv beta in H. bool_to_prop. lia.
Qed.

#[export] Hint Resolve weight_for_nice_bounds : maios.
