(* ===== verification/Eevdf.v ===== *)
(** * The EEVDF run queue

    [kernel/mks/src/eevdf.rs]: earliest eligible virtual deadline first.  Runnable
    tasks wait in two ordered maps, the eligible ones by virtual deadline and the
    others by the virtual time at which they become eligible. *)

From stdpp Require Import sorting.
From S2P Require Import Prelude BTree SchedTask.

Definition SCHED_MIN_GRANULARITY_NS : Z := 750000.
Definition SCHED_LATENCY_NS : Z := 6000000.

Record EevdfRunQueue := mkEevdf {
  eligible : list (vkey * TaskRef);
  ineligible : list (vkey * TaskRef);
  min_vruntime : Z;
  total_weight : Z;
  e_nr_running : Z;
}.

Definition eevdf_new : EevdfRunQueue := mkEevdf [] [] 0 0 0.

Definition compute_slice (q : EevdfRunQueue) (task_weight : Z) : Z :=
  if total_weight q =? 0 then SCHED_LATENCY_NS
  else clamp (wrap64 (SCHED_LATENCY_NS * task_weight) / wrap64 (total_weight q + task_weight))
         SCHED_MIN_GRANULARITY_NS SCHED_LATENCY_NS.

(** What [enqueue] writes into the task: the new [TaskSchedInfo]. *)
Definition enqueue_sched (q : EevdfRunQueue) (is_wakeup : bool) (s : TaskSchedInfo) : TaskSchedInfo :=
  let vrt := if (vruntime s =? 0) || is_wakeup
             then Z.max (vruntime s) (sat_sub (min_vruntime q) (SCHED_LATENCY_NS / 2))
             else vruntime s in
  let w := weight_for_nice (nice s) in
  let slice := compute_slice q w in
  mkSched vrt vrt (wrap64 (vrt + slice)) w (wmult s) (nice s) (rt_priority s)
    (rr_timeslice_remaining s) (pinned_cpu s) (policy s) (last_cpu s) (wakeup_time_ns s)
    true (exec_runtime s).

Definition eevdf_enqueue (task : TaskRef) (is_wakeup : bool) (ts : Tasks) (q : EevdfRunQueue)
    : Tasks * EevdfRunQueue :=
  let s := enqueue_sched q is_wakeup (sched_of ts task) in
  let tw := wrap64 (total_weight q + weight s) in
  let nr := wrap64 (e_nr_running q + 1) in
  (set_sched task s ts,
   if ve s <=? min_vruntime q
   then mkEevdf (bt_insert (vdeadline s, task) task (eligible q)) (ineligible q)
                (min_vruntime q) tw nr
   else mkEevdf (eligible q) (bt_insert (ve s, task) task (ineligible q))
                (min_vruntime q) tw nr).

Definition clear_on_rq (s : TaskSchedInfo) : TaskSchedInfo :=
  mkSched (vruntime s) (ve s) (vdeadline s) (weight s) (wmult s) (nice s) (rt_priority s)
    (rr_timeslice_remaining s) (pinned_cpu s) (policy s) (last_cpu s) (wakeup_time_ns s)
    false (exec_runtime s).

Definition eevdf_dequeue (task : TaskRef) (ts : Tasks) (q : EevdfRunQueue) : Tasks * EevdfRunQueue :=
  let s := sched_of ts task in
  (set_sched task (clear_on_rq s) ts,
   if on_rq s then
     let '(o, el) := bt_remove (vdeadline s, task) (eligible q) in
     let inel := match o with
                 | Some _ => ineligible q
                 | None => (bt_remove (ve s, task) (ineligible q)).2
                 end in
     mkEevdf el inel (min_vruntime q) (sat_sub (total_weight q) (weight s))
             (sat_sub (e_nr_running q) 1)
   else q).

(** The keys [advance_eligibility] collects: the front of [ineligible]. *)
Fixpoint to_promote (mv : Z) (m : list (vkey * TaskRef)) : list vkey :=
  match m with
  | (k, _) :: m' => if k.1 <=? mv then k :: to_promote mv m' else []
  | [] => []
  end.

Definition promote (ts : Tasks) (q : EevdfRunQueue) (k : vkey) : EevdfRunQueue :=
  let '(o, inel) := bt_remove k (ineligible q) in
  match o with
  | Some task =>
      mkEevdf (bt_insert (vdeadline (sched_of ts task), task) task (eligible q)) inel
        (min_vruntime q) (total_weight q) (e_nr_running q)
  | None => mkEevdf (eligible q) inel (min_vruntime q) (total_weight q) (e_nr_running q)
  end.

Definition advance_eligibility (ts : Tasks) (q : EevdfRunQueue) : EevdfRunQueue :=
  foldl (promote ts) q (to_promote (min_vruntime q) (ineligible q)).

Definition eevdf_pick_next (ts : Tasks) (q : EevdfRunQueue) : option TaskRef * EevdfRunQueue :=
  let q := advance_eligibility ts q in
  match bt_first (eligible q) with
  | None => (None, q)
  | Some (k, _) =>
      let '(o, el) := bt_remove k (eligible q) in
      (o, mkEevdf el (ineligible q) (min_vruntime q) (total_weight q) (e_nr_running q))
  end.

Definition put_prev (task : TaskRef) (ts : Tasks) (q : EevdfRunQueue) : Tasks * EevdfRunQueue :=
  eevdf_enqueue task false ts q.

Definition update_min_vruntime (running_vruntime : Z) (q : EevdfRunQueue) : EevdfRunQueue :=
  let new_min := match bt_first (eligible q) with
                 | Some (k, _) => Z.min running_vruntime k.1
                 | None => running_vruntime
                 end in
  if min_vruntime q <? new_min
  then mkEevdf (eligible q) (ineligible q) new_min (total_weight q) (e_nr_running q)
  else q.

(** [elapsed * wmult >> 32]: the virtual time that passes for a task. *)
Definition delta_vt (elapsed_ns n : Z) : Z := Z.shiftr (wrap64 (elapsed_ns * wmult_for_nice n)) 32.

Definition account (elapsed_ns : Z) (s : TaskSchedInfo) : TaskSchedInfo :=
  mkSched (wrap64 (vruntime s + delta_vt elapsed_ns (nice s))) (ve s) (vdeadline s) (weight s)
    (wmult s) (nice s) (rt_priority s) (rr_timeslice_remaining s) (pinned_cpu s) (policy s)
    (last_cpu s) (wakeup_time_ns s) (on_rq s) (wrap64 (exec_runtime s + elapsed_ns)).

Definition eevdf_tick (current : TaskRef) (elapsed_ns : Z) (ts : Tasks) (q : EevdfRunQueue)
    : bool * Tasks * EevdfRunQueue :=
  let s := account elapsed_ns (sched_of ts current) in
  let q := update_min_vruntime (vruntime s) q in
  let overran := vdeadline s <=? vruntime s in
  let preempt_by_wakeup :=
    match bt_first (eligible q) with
    | Some (k, _) => wrap64 (k.1 + SCHED_MIN_GRANULARITY_NS) <? vdeadline s
    | None => false
    end in
  (overran || preempt_by_wakeup, set_sched current s ts, q).

Definition eevdf_steal_one (ts : Tasks) (q : EevdfRunQueue) : option TaskRef * EevdfRunQueue :=
  if e_nr_running q <=? 1 then (None, q)
  else
    match bt_last (ineligible q) with
    | Some (k, _) =>
        let '(o, inel) := bt_remove k (ineligible q) in
        (o, mkEevdf (eligible q) inel (min_vruntime q) (total_weight q) (e_nr_running q))
    | None =>
        match bt_last (eligible q) with
        | Some (k, _) =>
            match bt_remove k (eligible q) with
            | (Some task, el) =>
                (Some task, mkEevdf el (ineligible q) (min_vruntime q)
                              (sat_sub (total_weight q) (weight (sched_of ts task)))
                              (sat_sub (e_nr_running q) 1))
            | (None, el) => (None, mkEevdf el (ineligible q) (min_vruntime q) (total_weight q) (e_nr_running q))
            end
        | None => (None, q)
        end
    end.

(** ** The invariant *)

Definition tasks_of (m : list (vkey * TaskRef)) : list TaskRef := m.*2.

(** The tasks that wait in the queue. *)
Definition queued (q : EevdfRunQueue) : list TaskRef := tasks_of (eligible q) ++ tasks_of (ineligible q).

(** Both maps are ordered and keyed by what is stored in the tasks, no task waits
    twice, and the tasks of [eligible] are eligible. *)
Record eevdf_wf (ts : Tasks) (q : EevdfRunQueue) : Prop := {
  wf_el_sorted : bt_sorted (eligible q);
  wf_in_sorted : bt_sorted (ineligible q);
  wf_el_keys : Forall (fun e => e.1 = (vdeadline (sched_of ts e.2), e.2) /\
                                ve (sched_of ts e.2) <= min_vruntime q) (eligible q);
  wf_in_keys : Forall (fun e => e.1 = (ve (sched_of ts e.2), e.2)) (ineligible q);
  wf_nodup : NoDup (queued q);
}.

(** ** Lemmas *)

(** The map is keyed by [f] of the task and the task. *)
Definition keyed (f : TaskRef -> Z) (m : list (vkey * TaskRef)) : Prop :=
  Forall (fun e => e.1 = (f e.2, e.2)) m.

Lemma keyed_fresh (f : TaskRef -> Z) m (d : Z) (t : TaskRef) :
  keyed f m -> t ∉ tasks_of m -> (d, t) ∉ m.*1.
Proof.
  intros Hk Ht H. apply list_elem_of_fmap in H as (e & He & Hin). apply Ht.
  unfold keyed in Hk. rewrite Forall_forall in Hk. specialize (Hk e Hin).
  destruct e as [k x]. simpl in *. subst k. simplify_eq. by apply (list_elem_of_fmap_2 snd) in Hin.
Qed.

Lemma tasks_insert_fresh (f : TaskRef -> Z) m (d : Z) (t : TaskRef) :
  keyed f m -> t ∉ tasks_of m -> Permutation (tasks_of (bt_insert (d, t) t m)) (t :: tasks_of m).
Proof.
  intros Hk Ht. unfold tasks_of. rewrite (bt_insert_fresh (d, t) t m); [done|].
  by eapply keyed_fresh.
Qed.

Lemma tasks_remove (k : vkey) m (t : TaskRef) m' :
  bt_remove k m = (Some t, m') -> Permutation (tasks_of m) (t :: tasks_of m').
Proof. intros H. unfold tasks_of. rewrite (bt_remove_Some _ _ _ _ H). done. Qed.

Lemma keyed_remove (P : vkey * TaskRef -> Prop) (k : vkey) m :
  Forall P m -> Forall P (bt_remove k m).2.
Proof.
  intros H. apply Forall_forall. intros e He. rewrite Forall_forall in H. apply H.
  eapply elem_of_sublist; [done|apply bt_remove_sublist].
Qed.

Lemma forall_insert (P : vkey * TaskRef -> Prop) (k : vkey) (t : TaskRef) m :
  bt_sorted m -> P (k, t) -> Forall P m -> Forall P (bt_insert k t m).
Proof.
  intros Hs Hp Hm. apply Forall_forall. intros e He. rewrite Forall_forall in Hm.
  apply elem_of_bt_insert in He as [->|[He _]]; auto.
Qed.

Lemma wf_keyed_el (ts : Tasks) (q : EevdfRunQueue) :
  eevdf_wf ts q -> keyed (fun t => vdeadline (sched_of ts t)) (eligible q).
Proof. intros [_ _ H _ _]. eapply Forall_impl; [done|]. by intros e [? _]. Qed.

Lemma wf_keyed_in (ts : Tasks) (q : EevdfRunQueue) :
  eevdf_wf ts q -> keyed (fun t => ve (sched_of ts t)) (ineligible q).
Proof. by intros [_ _ _ H _]. Qed.

(** The invariant only looks at [ve] and [vdeadline] of the waiting tasks. *)
Lemma eevdf_wf_store (ts ts' : Tasks) (q : EevdfRunQueue) :
  (forall t, t ∈ queued q -> ve (sched_of ts' t) = ve (sched_of ts t) /\
                             vdeadline (sched_of ts' t) = vdeadline (sched_of ts t)) ->
  eevdf_wf ts q -> eevdf_wf ts' q.
Proof.
  intros Heq [H1 H2 H3 H4 H5]. split; try done.
  - apply Forall_forall. intros e He. rewrite Forall_forall in H3. specialize (H3 e He).
    destruct (Heq e.2) as [-> ->]; [|done]. apply elem_of_app. left. by apply (list_elem_of_fmap_2 snd).
  - apply Forall_forall. intros e He. rewrite Forall_forall in H4. specialize (H4 e He).
    destruct (Heq e.2) as [-> _]; [|done]. apply elem_of_app. right. by apply (list_elem_of_fmap_2 snd).
Qed.

(** The first entry has the smallest [f]. *)
Lemma keyed_first_min (f : TaskRef -> Z) m (k : vkey) (t u : TaskRef) :
  bt_sorted m -> keyed f m -> bt_first m = Some (k, t) -> u ∈ tasks_of m -> f t <= f u.
Proof.
  intros Hs Hk Hf Hu. apply list_elem_of_fmap in Hu as ([[a b] v] & -> & He).
  pose proof (bt_first_min k t m _ Hs Hf He) as Hmin.
  assert ((k, t) ∈ m) as Hin by (destruct m; simplify_eq/=; left).
  unfold keyed in Hk. rewrite Forall_forall in Hk.
  pose proof (Hk _ He) as H1. pose proof (Hk _ Hin) as H2. simpl in *. simplify_eq.
  unfold klt in Hmin. simpl in Hmin. destruct Hmin as [?|?]; [simplify_eq|]; lia.
Qed.

(** *** Promotion *)

Record promoted (ts : Tasks) (q q' : EevdfRunQueue) : Prop := {
  pr_wf : eevdf_wf ts q';
  pr_queued : Permutation (queued q') (queued q);
  pr_min : min_vruntime q' = min_vruntime q;
  pr_weight : total_weight q' = total_weight q;
  pr_nr : e_nr_running q' = e_nr_running q;
}.

Lemma promote_head (ts : Tasks) (q : EevdfRunQueue) (k : vkey) (t : TaskRef) m :
  eevdf_wf ts q -> ineligible q = (k, t) :: m -> k.1 <= min_vruntime q ->
  promoted ts q (promote ts q k) /\ ineligible (promote ts q k) = m.
Proof.
  intros Hwf Hin Hk. pose proof (wf_keyed_el _ _ Hwf) as Hel. destruct Hwf as [H1 H2 H3 H4 H5].
  unfold promote. rewrite Hin, bt_first_remove. split; [|done].
  unfold queued in H5. rewrite Hin in H2, H4, H5.
  apply bt_sorted_cons in H2 as [H2 _]. inversion H4 as [|? ? Hkey H4']; subst. simpl in Hkey.
  assert (t ∉ tasks_of (eligible q)) as Hfresh.
  { apply NoDup_app in H5 as (_ & Hd & _). intros Ht. apply (Hd t Ht). left. }
  assert (Permutation (tasks_of (bt_insert (vdeadline (sched_of ts t), t) t (eligible q)) ++ tasks_of m)
            (tasks_of (eligible q) ++ t :: tasks_of m)) as HP.
  { rewrite (tasks_insert_fresh _ _ _ _ Hel Hfresh). apply Permutation_middle. }
  split; try done; unfold queued; simpl.
  - split; simpl; auto with maios.
    + apply forall_insert; auto. simpl. split; [done|]. by rewrite Hkey in Hk.
    + unfold queued; simpl. by rewrite HP.
  - rewrite HP, Hin. done.
Qed.

Lemma promoted_refl (ts : Tasks) (q : EevdfRunQueue) : eevdf_wf ts q -> promoted ts q q.
Proof. by split. Qed.

Lemma promoted_trans (ts : Tasks) (q1 q2 q3 : EevdfRunQueue) :
  promoted ts q1 q2 -> promoted ts q2 q3 -> promoted ts q1 q3.
Proof. intros [? P1 ? ? ?] [? P2 ? ? ?]. split; [done|by rewrite P2, P1|congruence..]. Qed.

(** After the promotion exactly the tasks with [ve <= min_vruntime] are eligible. *)
Lemma advance_ok (ts : Tasks) (q : EevdfRunQueue) :
  eevdf_wf ts q ->
  promoted ts q (advance_eligibility ts q) /\
  Forall (fun e => min_vruntime q < e.1.1) (ineligible (advance_eligibility ts q)).
Proof.
  unfold advance_eligibility. intros Hwf.
  assert (exists m, ineligible q = m) as [m Hm] by eauto. rewrite Hm.
  revert q Hwf Hm. induction m as [|[k t] m IH]; intros q Hwf Hm; simpl.
  - rewrite Hm. split; [by apply promoted_refl|constructor].
  - destruct (Z.leb_spec k.1 (min_vruntime q)) as [Hle|Hgt].
    + destruct (promote_head _ _ _ _ _ Hwf Hm Hle) as [Hp Hin]. simpl.
      destruct (IH (promote ts q k)) as [Hp' Hall]; [apply Hp|done|].
      rewrite (pr_min _ _ _ Hp) in *. split; [by eapply promoted_trans|done].
    + simpl. rewrite Hm. split; [by apply promoted_refl|].
      pose proof (wf_in_sorted _ _ Hwf) as Hs. rewrite Hm in Hs.
      apply bt_sorted_cons in Hs as [_ Hs]. constructor; [done|].
      eapply Forall_impl; [done|]. unfold klt. simpl. intros; lia.
Qed.

(** *** The operations *)

Lemma queued_store_ne (ts : Tasks) (q : EevdfRunQueue) (t : TaskRef) (s : TaskSchedInfo) :
  t ∉ queued q -> eevdf_wf ts q -> eevdf_wf (set_sched t s ts) q.
Proof.
  intros Ht. apply eevdf_wf_store. intros x Hx. rewrite set_sched_ne; [done|]. by intros ->.
Qed.

(** Adding a waiting task under a key that agrees with the store. *)
Lemma wf_add_eligible (ts : Tasks) (q : EevdfRunQueue) (t : TaskRef) (tw nr : Z) :
  eevdf_wf ts q -> t ∉ queued q -> ve (sched_of ts t) <= min_vruntime q ->
  let q' := mkEevdf (bt_insert (vdeadline (sched_of ts t), t) t (eligible q)) (ineligible q)
              (min_vruntime q) tw nr in
  eevdf_wf ts q' /\ Permutation (queued q') (t :: queued q).
Proof.
  intros Hwf Ht Hve. pose proof (wf_keyed_el _ _ Hwf) as Hel. destruct Hwf as [H1 H2 H3 H4 H5].
  assert (t ∉ tasks_of (eligible q)) as Hf by (unfold queued in Ht; rewrite elem_of_app in Ht; tauto).
  assert (Permutation (tasks_of (bt_insert (vdeadline (sched_of ts t), t) t (eligible q)) ++
            tasks_of (ineligible q)) (t :: queued q)) as HP.
  { by rewrite (tasks_insert_fresh _ _ _ _ Hel Hf). }
  simpl. split; [|done]. split; simpl; auto with maios.
  - by apply forall_insert.
  - unfold queued; simpl. rewrite HP. by constructor.
Qed.

Lemma wf_add_ineligible (ts : Tasks) (q : EevdfRunQueue) (t : TaskRef) (tw nr : Z) :
  eevdf_wf ts q -> t ∉ queued q ->
  let q' := mkEevdf (eligible q) (bt_insert (ve (sched_of ts t), t) t (ineligible q))
              (min_vruntime q) tw nr in
  eevdf_wf ts q' /\ Permutation (queued q') (t :: queued q).
Proof.
  intros Hwf Ht. pose proof (wf_keyed_in _ _ Hwf) as Hin. destruct Hwf as [H1 H2 H3 H4 H5].
  assert (t ∉ tasks_of (ineligible q)) as Hf by (unfold queued in Ht; rewrite elem_of_app in Ht; tauto).
  assert (Permutation (tasks_of (eligible q) ++
            tasks_of (bt_insert (ve (sched_of ts t), t) t (ineligible q))) (t :: queued q)) as HP.
  { rewrite (tasks_insert_fresh _ _ _ _ Hin Hf). symmetry. apply Permutation_middle. }
  simpl. split; [|done]. split; simpl; auto with maios.
  - by apply forall_insert.
  - unfold queued; simpl. rewrite HP. by constructor.
Qed.

Lemma enqueue_wf (ts : Tasks) (q : EevdfRunQueue) (t : TaskRef) (w : bool) ts' q' :
  eevdf_wf ts q -> t ∉ queued q -> eevdf_enqueue t w ts q = (ts', q') ->
  eevdf_wf ts' q' /\ Permutation (queued q') (t :: queued q) /\ min_vruntime q' = min_vruntime q.
Proof.
  intros Hwf Ht H. unfold eevdf_enqueue in H.
  set (s := enqueue_sched q w (sched_of ts t)) in H. clearbody s. cbv zeta in H. injection H as <- <-.
  assert (eevdf_wf (set_sched t s ts) q) as Hwf' by (by apply queued_store_ne).
  assert (sched_of (set_sched t s ts) t = s) as Hs by apply set_sched_eq.
  pose proof (wf_add_eligible (set_sched t s ts) q t (wrap64 (total_weight q + weight s))
    (wrap64 (e_nr_running q + 1)) Hwf' Ht) as Hel.
  pose proof (wf_add_ineligible (set_sched t s ts) q t (wrap64 (total_weight q + weight s))
    (wrap64 (e_nr_running q + 1)) Hwf' Ht) as Hin.
  cbv zeta in Hel, Hin. rewrite Hs in Hel, Hin.
  destruct (Z.leb_spec (ve s) (min_vruntime q)) as [Hve|Hve].
  - by destruct (Hel Hve).
  - by destruct Hin.
Qed.

(** Removing waiting tasks keeps the invariant. *)
Lemma wf_sub (ts : Tasks) (q q' : EevdfRunQueue) :
  eevdf_wf ts q -> bt_sorted (eligible q') -> bt_sorted (ineligible q') ->
  eligible q' `sublist_of` eligible q -> ineligible q' `sublist_of` ineligible q ->
  min_vruntime q' = min_vruntime q -> eevdf_wf ts q'.
Proof.
  intros [H1 H2 H3 H4 H5] S1 S2 L1 L2 Hm. split; auto.
  - apply Forall_forall. intros e He. rewrite Hm. rewrite Forall_forall in H3. apply H3.
    by eapply elem_of_sublist.
  - apply Forall_forall. intros e He. rewrite Forall_forall in H4. apply H4.
    by eapply elem_of_sublist.
  - eapply sublist_NoDup; [done|]. unfold queued. apply sublist_app; by apply fmap_sublist.
Qed.

Lemma remove_eligible_wf (ts : Tasks) (q : EevdfRunQueue) (k : vkey) (o : option TaskRef) el tw nr :
  eevdf_wf ts q -> bt_remove k (eligible q) = (o, el) ->
  eevdf_wf ts (mkEevdf el (ineligible q) (min_vruntime q) tw nr).
Proof.
  intros Hwf E. replace el with (bt_remove k (eligible q)).2 by (by rewrite E).
  apply (wf_sub ts q); simpl; auto with maios; [apply bt_remove_sorted, Hwf|apply Hwf|apply bt_remove_sublist].
Qed.

Lemma remove_ineligible_wf (ts : Tasks) (q : EevdfRunQueue) (k : vkey) (o : option TaskRef) inel tw nr :
  eevdf_wf ts q -> bt_remove k (ineligible q) = (o, inel) ->
  eevdf_wf ts (mkEevdf (eligible q) inel (min_vruntime q) tw nr).
Proof.
  intros Hwf E. replace inel with (bt_remove k (ineligible q)).2 by (by rewrite E).
  apply (wf_sub ts q); simpl; auto with maios; [apply Hwf|apply bt_remove_sorted, Hwf|apply bt_remove_sublist].
Qed.

Lemma dequeue_wf (ts : Tasks) (q : EevdfRunQueue) (t : TaskRef) ts' q' :
  eevdf_wf ts q -> eevdf_dequeue t ts q = (ts', q') -> eevdf_wf ts' q'.
Proof.
  intros Hwf H. unfold eevdf_dequeue in H. simplify_eq/=.
  apply (eevdf_wf_store ts).
  { intros x _. destruct (decide (x = t)) as [->|]; [by rewrite set_sched_eq|by rewrite set_sched_ne]. }
  destruct (on_rq (sched_of ts t)); [|done].
  destruct (bt_remove _ (eligible q)) as [[x|] el] eqn:E; [by eapply remove_eligible_wf|].
  pose proof (bt_remove_None _ _ _ E) as [-> _].
  destruct (bt_remove _ (ineligible q)) as [o inel] eqn:E'. by eapply remove_ineligible_wf.
Qed.

Lemma steal_wf (ts : Tasks) (q : EevdfRunQueue) o q' :
  eevdf_wf ts q -> eevdf_steal_one ts q = (o, q') -> eevdf_wf ts q'.
Proof.
  intros Hwf H. unfold eevdf_steal_one in H. case_in H; [by simplify_eq|].
  destruct (bt_last (ineligible q)) as [[k t]|].
  { destruct (bt_remove k (ineligible q)) as [? inel] eqn:E'. simplify_eq. by eapply remove_ineligible_wf. }
  destruct (bt_last (eligible q)) as [[k t]|]; [|by simplify_eq].
  destruct (bt_remove k (eligible q)) as [[x|] el] eqn:E'; simplify_eq; by eapply remove_eligible_wf.
Qed.

Lemma update_min_wf (ts : Tasks) (q : EevdfRunQueue) (v : Z) :
  eevdf_wf ts q -> eevdf_wf ts (update_min_vruntime v q) /\
  min_vruntime q <= min_vruntime (update_min_vruntime v q).
Proof.
  intros Hwf. unfold update_min_vruntime. case_match eqn:E; bool_to_prop; [|split; [done|lia]].
  destruct Hwf as [H1 H2 H3 H4 H5]. simpl. split; [|lia]. split; try done.
  eapply Forall_impl; [done|]. simpl. intros e [? ?]. split; [done|lia].
Qed.

Lemma tick_wf (ts : Tasks) (q : EevdfRunQueue) (t : TaskRef) (el : Z) b ts' q' :
  eevdf_wf ts q -> eevdf_tick t el ts q = (b, ts', q') ->
  eevdf_wf ts' q' /\ min_vruntime q <= min_vruntime q'.
Proof.
  intros Hwf H. unfold eevdf_tick in H. simplify_eq.
  destruct (update_min_wf ts q (vruntime (account el (sched_of ts t))) Hwf) as [Hwf' Hm].
  split; [|done]. eapply eevdf_wf_store; [|done].
  intros x _. destruct (decide (x = t)) as [->|]; [by rewrite set_sched_eq|by rewrite set_sched_ne].
Qed.

(** [pick_next] removes the first eligible entry. *)
Lemma pick_next_cases (ts : Tasks) (q : EevdfRunQueue) :
  let a := advance_eligibility ts q in
  (eligible a = [] /\ eevdf_pick_next ts q = (None, a)) \/
  exists k t m, eligible a = (k, t) :: m /\
    eevdf_pick_next ts q =
      (Some t, mkEevdf m (ineligible a) (min_vruntime a) (total_weight a) (e_nr_running a)).
Proof.
  simpl. unfold eevdf_pick_next. destruct (eligible (advance_eligibility ts q)) as [|[k t] m] eqn:E.
  - left. done.
  - right. exists k, t, m. split; [done|]. cbn [bt_first head]. by rewrite bt_first_remove.
Qed.

Lemma pick_next_wf (ts : Tasks) (q : EevdfRunQueue) o q' :
  eevdf_wf ts q -> eevdf_pick_next ts q = (o, q') ->
  eevdf_wf ts q' /\ Permutation (queued q) (option_list o ++ queued q') /\
  min_vruntime q' = min_vruntime q.
Proof.
  intros Hwf H. destruct (advance_ok ts q Hwf) as [[Hw HP Hm _ _] _].
  destruct (pick_next_cases ts q) as [[E Hp]|(k & t & m & E & Hp)]; rewrite Hp in H; simplify_eq.
  - simpl. by rewrite HP.
  - simpl. split_and!; [|rewrite <- HP; unfold queued; by rewrite E|done].
    eapply (remove_eligible_wf _ _ k (Some t)); [done|]. by rewrite E, bt_first_remove.
Qed.

(** The task [pick_next] returns. *)
Lemma eevdf_pick_spec (ts : Tasks) (q : EevdfRunQueue) :
  eevdf_wf ts q ->
  match eevdf_pick_next ts q with
  | (Some t, q') =>
      t ∈ queued q /\ ve (sched_of ts t) <= min_vruntime q /\
      (forall u, u ∈ queued q -> ve (sched_of ts u) <= min_vruntime q ->
         vdeadline (sched_of ts t) <= vdeadline (sched_of ts u)) /\
      Permutation (queued q) (t :: queued q') /\ eevdf_wf ts q'
  | (None, q') =>
      (forall u, u ∈ queued q -> min_vruntime q < ve (sched_of ts u)) /\
      Permutation (queued q) (queued q') /\ eevdf_wf ts q'
  end.
Proof.
  intros Hwf. destruct (advance_ok ts q Hwf) as [[Hw HP Hm _ _] Hin].
  pose proof (wf_in_keys _ _ Hw) as Hik. pose proof (wf_el_keys _ _ Hw) as Hek.
  assert (forall u, u ∈ tasks_of (ineligible (advance_eligibility ts q)) -> min_vruntime q < ve (sched_of ts u)) as Hlate.
  { intros u Hu. apply list_elem_of_fmap in Hu as (e & -> & He).
    rewrite Forall_forall in Hin, Hik. specialize (Hin e He). specialize (Hik e He).
    destruct e as [[a b] u]. simpl in *. by simplify_eq. }
  destruct (eevdf_pick_next ts q) as [o q'] eqn:E. destruct (pick_next_wf _ _ _ _ Hwf E) as (Hw' & HP' & _).
  destruct (pick_next_cases ts q) as [[Ee Hp]|(k & t & m & Ee & Hp)]; rewrite Hp in E; simplify_eq.
  - split; [|done]. intros u Hu. rewrite <- HP in Hu. unfold queued in Hu. rewrite Ee in Hu. by apply Hlate.
  - rewrite Ee in Hek. inversion Hek as [|? ? [Hk Hve] Hek']; subst. simpl in *.
    split_and!; try done; [rewrite HP'; left|lia|]. intros u Hu Hue. rewrite <- HP in Hu.
    unfold queued in Hu. rewrite elem_of_app in Hu. destruct Hu as [Hu|Hu]; [|specialize (Hlate u Hu); lia].
    eapply (keyed_first_min (fun t => vdeadline (sched_of ts t))); [apply Hw|by apply wf_keyed_el| |done].
    by rewrite Ee.
Qed.

Lemma compute_slice_bounds (q : EevdfRunQueue) (w : Z) :
  SCHED_MIN_GRANULARITY_NS <= compute_slice q w <= SCHED_LATENCY_NS.
Proof.
  unfold compute_slice. destruct (total_weight q =? 0); [done|]. by apply clamp_bounds.
Qed.

(** ** The queue as a transition system *)

(** The operations of the queue, in any order, and changes to tasks made elsewhere
    that leave the virtual times alone.  [enqueue] is called for a task that is not
    waiting in this queue, which it does not check itself. *)
Inductive eevdf_step : Tasks * EevdfRunQueue -> Tasks * EevdfRunQueue -> Prop :=
| es_enqueue ts q t w : t ∉ queued q -> eevdf_step (ts, q) (eevdf_enqueue t w ts q)
| es_dequeue ts q t : eevdf_step (ts, q) (eevdf_dequeue t ts q)
| es_pick ts q : eevdf_step (ts, q) (ts, (eevdf_pick_next ts q).2)
| es_tick ts q t el b ts' q' :
    eevdf_tick t el ts q = (b, ts', q') -> eevdf_step (ts, q) (ts', q')
| es_steal ts q : eevdf_step (ts, q) (ts, (eevdf_steal_one ts q).2)
| es_other ts ts' q :
    (forall t, ve (sched_of ts' t) = ve (sched_of ts t) /\
               vdeadline (sched_of ts' t) = vdeadline (sched_of ts t)) ->
    eevdf_step (ts, q) (ts', q).

Lemma steal_min (ts : Tasks) (q : EevdfRunQueue) :
  min_vruntime (eevdf_steal_one ts q).2 = min_vruntime q.
Proof. unfold eevdf_steal_one. by repeat case_match. Qed.

Lemma eevdf_step_wf (c c' : Tasks * EevdfRunQueue) :
  eevdf_step c c' -> eevdf_wf c.1 c.2 ->
  eevdf_wf c'.1 c'.2 /\ min_vruntime c.2 <= min_vruntime c'.2.
Proof.
  intros Hst Hwf. destruct Hst as [ts q t w Ht|ts q t|ts q|ts q t el b ts' q' H|ts q|ts ts' q H]; cbn [fst snd] in *.
  - destruct (eevdf_enqueue t w ts q) as [ts' q'] eqn:E.
    destruct (enqueue_wf _ _ _ _ _ _ Hwf Ht E) as (? & _ & ?). cbn [fst snd]. split; [done|lia].
  - destruct (eevdf_dequeue t ts q) as [ts' q'] eqn:E. split; [by eapply dequeue_wf|].
    unfold eevdf_dequeue in E. injection E as <- <-. repeat case_match; simpl; lia.
  - destruct (eevdf_pick_next ts q) as [o q'] eqn:E.
    destruct (pick_next_wf _ _ _ _ Hwf E) as (? & _ & ?). cbn [fst snd]. split; [done|lia].
  - by eapply tick_wf.
  - pose proof (steal_min ts q). destruct (eevdf_steal_one ts q) as [o q'] eqn:E. cbn [fst snd] in *.
    split; [by eapply steal_wf|lia].
  - split; [|lia]. eapply eevdf_wf_store; [|done]. intros t _. apply H.
Qed.

Lemma eevdf_new_wf (ts : Tasks) : eevdf_wf ts eevdf_new.
Proof. split; simpl; auto with maios; constructor. Qed.

(** ** Theorems *)

(** C36: The order of a run queue stays consistent.  After any sequence of enqueues of tasks
    that are not waiting in the queue, dequeues, picks, ticks and steals from the empty queue,
    and of changes to tasks elsewhere that leave their virtual times alone, both maps are
    ordered and keyed by the virtual times stored in the tasks, no task is filed twice or in
    both maps, every task filed as eligible is eligible, and the queue clock has not gone
    backwards between any two states.  [enqueue] does not check that the task is not waiting
    ([enqueued_twice_waits_twice]), and nothing is said of the counters of tasks and of
    weights, which do drift ([pick_and_put_back_inflates_load]). *)
Theorem eevdf_queue_invariant (ts0 : Tasks) (c c' : Tasks * EevdfRunQueue) :
  rtc eevdf_step (ts0, eevdf_new) c -> rtc eevdf_step c c' ->
  eevdf_wf c'.1 c'.2 /\ min_vruntime c.2 <= min_vruntime c'.2.
Proof.
  intros H1 H2. assert (eevdf_wf c.1 c.2) as Hc.
  { assert (eevdf_wf (ts0, eevdf_new).1 (ts0, eevdf_new).2) as H0 by apply eevdf_new_wf.
    clear H2. induction H1; [done|]. apply IHrtc. by eapply eevdf_step_wf. }
  clear H1. induction H2 as [c|c1 c2 c3 Hs _ IH]; [split; [done|lia]|].
  destruct (eevdf_step_wf _ _ Hs Hc) as [Hw Hm]. destruct (IH Hw) as [? ?]. split; [done|lia].
Qed.

(** C37: [pick_next] is the EEVDF decision.  It returns the task with the earliest
    virtual deadline among the waiting tasks whose eligibility time has passed, takes
    exactly this task out of the queue and keeps the queue consistent; it returns
    nothing only if no waiting task is eligible. *)
Theorem eevdf_picks_earliest_eligible (ts : Tasks) (q : EevdfRunQueue) :
  eevdf_wf ts q ->
  match eevdf_pick_next ts q with
  | (Some t, q') =>
      t ∈ queued q /\ ve (sched_of ts t) <= min_vruntime q /\
      (forall u, u ∈ queued q -> ve (sched_of ts u) <= min_vruntime q ->
         vdeadline (sched_of ts t) <= vdeadline (sched_of ts u)) /\
      Permutation (queued q) (t :: queued q') /\ eevdf_wf ts q'
  | (None, q') =>
      (forall u, u ∈ queued q -> min_vruntime q < ve (sched_of ts u)) /\
      Permutation (queued q) (queued q') /\ eevdf_wf ts q'
  end.
Proof. apply eevdf_pick_spec. Qed.

(** An enqueued task gets a bounded slice and no more than a bounded sleep bonus.
    Short of wrap-around, [enqueue] files a task that was not waiting, leaves its
    virtual deadline between 0.75 ms and 6 ms of virtual time after its eligibility
    time, gives it the weight of its nice value, never moves its virtual runtime back,
    and on a wakeup moves it to within half a latency period of the queue clock. *)
Theorem eevdf_enqueue_slice (ts : Tasks) (q : EevdfRunQueue) (t : TaskRef) (w : bool) ts' q' :
  eevdf_wf ts q -> t ∉ queued q ->
  0 <= vruntime (sched_of ts t) < 2 ^ 63 -> 0 <= min_vruntime q < 2 ^ 63 ->
  0 <= total_weight q < 2 ^ 63 ->
  eevdf_enqueue t w ts q = (ts', q') ->
  let s := sched_of ts' t in
  eevdf_wf ts' q' /\ Permutation (queued q') (t :: queued q) /\
  SCHED_MIN_GRANULARITY_NS <= vdeadline s - ve s <= SCHED_LATENCY_NS /\
  vruntime (sched_of ts t) <= vruntime s /\ ve s = vruntime s /\
  (w = true -> min_vruntime q - SCHED_LATENCY_NS / 2 <= vruntime s) /\
  weight s = weight_for_nice (nice s) /\ total_weight q' = total_weight q + weight s /\
  on_rq s = true.
Proof.
  intros Hwf Ht Hv Hm Htw H. destruct (enqueue_wf _ _ _ _ _ _ Hwf Ht H) as (Hw & HP & _).
  unfold eevdf_enqueue in H. cbv zeta in H. injection H as <- <-. rewrite set_sched_eq.
  pose proof (weight_for_nice_bounds (nice (sched_of ts t))) as Hwb.
  assert (SCHED_MIN_GRANULARITY_NS <= compute_slice q (weight_for_nice (nice (sched_of ts t))) <= SCHED_LATENCY_NS) as Hsl by apply compute_slice_bounds.
  change (SCHED_LATENCY_NS / 2) with 3000000 in *.
  unfold SCHED_MIN_GRANULARITY_NS, SCHED_LATENCY_NS in Hsl.
  assert (0 <= vruntime (enqueue_sched q w (sched_of ts t)) < 2 ^ 63 /\
          vruntime (sched_of ts t) <= vruntime (enqueue_sched q w (sched_of ts t)) /\
          (w = true -> min_vruntime q - 3000000 <= vruntime (enqueue_sched q w (sched_of ts t)))) as (Hr & Hge & Hwk).
  { unfold enqueue_sched, sat_sub. change (SCHED_LATENCY_NS / 2) with 3000000. simpl.
    destruct (vruntime (sched_of ts t) =? 0), w; simpl; split_and!; try lia; done. }
  split_and!; try done.
  - change (vdeadline (enqueue_sched q w (sched_of ts t))) with
      (wrap64 (vruntime (enqueue_sched q w (sched_of ts t)) + compute_slice q (weight_for_nice (nice (sched_of ts t))))).
    change (ve (enqueue_sched q w (sched_of ts t))) with (vruntime (enqueue_sched q w (sched_of ts t))).
    rewrite wrap64_id by (unfold in_u64, U64_MAX; lia). unfold SCHED_MIN_GRANULARITY_NS. lia.
  - change (ve (enqueue_sched q w (sched_of ts t))) with (vruntime (enqueue_sched q w (sched_of ts t))).
    change (vdeadline (enqueue_sched q w (sched_of ts t))) with
      (wrap64 (vruntime (enqueue_sched q w (sched_of ts t)) + compute_slice q (weight_for_nice (nice (sched_of ts t))))).
    rewrite wrap64_id by (unfold in_u64, U64_MAX; lia). unfold SCHED_LATENCY_NS. lia.
  - case_match; simpl; apply wrap64_id; unfold in_u64, U64_MAX; lia.
Qed.

(** Virtual time passes in inverse proportion to the weight.  For ticks of up to
    100 ms and any nice value, the virtual time [tick] charges for [elapsed]
    nanoseconds is [elapsed / weight], rounded down by at most one unit. *)
Theorem virtual_time_inverse_to_weight (elapsed n : Z) :
  0 <= elapsed <= 100000000 ->
  elapsed - weight_for_nice n <= delta_vt elapsed n * weight_for_nice n <= elapsed.
Proof.
  intros He. unfold delta_vt. pose proof (wmult_inverse n) as Hi.
  pose proof (wmult_for_nice_bounds n) as Hm. pose proof (weight_for_nice_bounds n) as Hw.
  set (w := weight_for_nice n) in *. set (m := wmult_for_nice n) in *. clearbody w m.
  rewrite wrap64_id by (unfold in_u64, U64_MAX; nia). rewrite Z.shiftr_div_pow2 by lia.
  pose proof (Z.mul_div_le (elapsed * m) (2 ^ 32) ltac:(lia)) as H1.
  pose proof (Z.mul_succ_div_gt (elapsed * m) (2 ^ 32) ltac:(lia)) as H2.
  set (d := elapsed * m / 2 ^ 32) in *. clearbody d.
  assert (d * 2 ^ 32 * w <= elapsed * (2 ^ 32 + 40)) by nia.
  assert (elapsed * (2 ^ 32 - 40) < (d + 1) * 2 ^ 32 * w + 1) by nia.
  nia.
Qed.

(** No tick preempts a task early, but a slice lasts 1024 times longer than its
    name says.  The virtual time of a nice-0 task advances by [elapsed / 1024], so with
    nobody else eligible a task that was given the minimum slice of 750000 (called
    0.75 ms) is not preempted before 768 ms of real time have passed. *)
Theorem nice0_min_slice_is_768ms (ts : Tasks) (q : EevdfRunQueue) (t : TaskRef) (elapsed : Z) :
  nice (sched_of ts t) = 0 -> 0 <= vruntime (sched_of ts t) < 2 ^ 62 ->
  vruntime (sched_of ts t) + SCHED_MIN_GRANULARITY_NS <= vdeadline (sched_of ts t) ->
  eligible q = [] -> 0 <= elapsed < 768000000 ->
  exists ts' q', eevdf_tick t elapsed ts q = (false, ts', q') /\
    vruntime (sched_of ts' t) = vruntime (sched_of ts t) + elapsed / 1024.
Proof.
  intros Hn Hv Hd He Hel. unfold eevdf_tick.
  assert (delta_vt elapsed 0 = elapsed / 1024) as Hdv.
  { unfold delta_vt. change (wmult_for_nice 0) with (2 ^ 22).
    rewrite wrap64_id by (unfold in_u64, U64_MAX; lia). rewrite Z.shiftr_div_pow2 by lia.
    change (2 ^ 32) with (1024 * 2 ^ 22). by rewrite Z.div_mul_cancel_r by lia. }
  pose proof (Z.div_lt_upper_bound elapsed 1024 750000 ltac:(lia) ltac:(lia)).
  pose proof (Z.div_pos elapsed 1024 ltac:(lia) ltac:(lia)).
  assert (vruntime (account elapsed (sched_of ts t)) = vruntime (sched_of ts t) + elapsed / 1024) as Hvr.
  { unfold account. simpl. rewrite Hn, Hdv. apply wrap64_id. unfold in_u64, U64_MAX. lia. }
  eexists _, _. split; [|by rewrite set_sched_eq].
  assert (eligible (update_min_vruntime (vruntime (account elapsed (sched_of ts t))) q) = []) as ->.
  { unfold update_min_vruntime. rewrite He. simpl. by case_match. }
  simpl bt_first. cbv iota. rewrite orb_false_r. repeat f_equal.
  change (vdeadline (account elapsed (sched_of ts t))) with (vdeadline (sched_of ts t)).
  rewrite Hvr. unfold SCHED_MIN_GRANULARITY_NS in Hd. apply Z.leb_gt. lia.
Qed.

(** A task that arrives with more virtual runtime than the clock of an otherwise
    empty queue is never picked there.  [enqueue] files it as not yet eligible, and
    since only a tick of a running task moves the clock, [pick_next] returns nothing
    and leaves the queue as it is, so it does so for ever: the CPU idles with a
    runnable task in its queue. *)
Theorem migrated_task_stalls (ts : Tasks) (q : EevdfRunQueue) (t : TaskRef) (w : bool) :
  eevdf_wf ts q -> queued q = [] -> 0 <= min_vruntime q < vruntime (sched_of ts t) ->
  let '(ts', q') := eevdf_enqueue t w ts q in
  queued q' = [t] /\ eevdf_pick_next ts' q' = (None, q').
Proof.
  intros Hwf Hq Hv. unfold eevdf_enqueue. cbv zeta.
  assert (min_vruntime q < ve (enqueue_sched q w (sched_of ts t))) as Hve.
  { unfold enqueue_sched. simpl. case_match; lia. }
  set (s := enqueue_sched q w (sched_of ts t)) in *. clearbody s.
  apply Z.leb_gt in Hve as Hb. rewrite Hb.
  unfold queued in Hq. apply app_eq_nil in Hq as [He Hi].
  apply fmap_nil_inv in He, Hi. rewrite He, Hi. simpl bt_insert.
  split; [done|]. unfold eevdf_pick_next, advance_eligibility.
  cbn [ineligible min_vruntime to_promote fst]. by rewrite Hb.
Qed.

(** [pick_next] and [put_prev] do not balance.  Every time a task is picked and put
    back, [nr_running] and [total_weight] grow by one task, although the same tasks
    wait in the queue; the slices computed from the total weight shrink accordingly. *)
Theorem pick_and_put_back_inflates_load (ts : Tasks) (q q1 q2 : EevdfRunQueue) (t : TaskRef) ts' :
  eevdf_wf ts q -> eevdf_pick_next ts q = (Some t, q1) -> put_prev t ts q1 = (ts', q2) ->
  Permutation (queued q2) (queued q) /\
  e_nr_running q2 = wrap64 (e_nr_running q + 1) /\
  total_weight q2 = wrap64 (total_weight q + weight_for_nice (nice (sched_of ts t))).
Proof.
  intros Hwf Hp Hput. destruct (pick_next_wf _ _ _ _ Hwf Hp) as (Hw1 & HP & _). simpl in HP.
  assert (t ∉ queued q1) as Ht.
  { pose proof (wf_nodup _ _ Hwf) as Hnd. rewrite HP in Hnd. by inversion Hnd. }
  unfold put_prev in Hput. destruct (enqueue_wf _ _ _ _ _ _ Hw1 Ht Hput) as (_ & HP2 & _).
  split; [by rewrite HP2, HP|].
  destruct (advance_ok ts q Hwf) as [[_ _ _ Htw Hnr] _].
  destruct (pick_next_cases ts q) as [[_ E]|(k & x & m & _ & E)]; rewrite E in Hp; simplify_eq.
  unfold eevdf_enqueue in Hput. cbv zeta in Hput. injection Hput as <- <-.
  rewrite <- Hnr, <- Htw. case_match; done.
Qed.

(** ** Examples *)

Module EevdfDemo.

Definition ts0 : Tasks := fun _ => task_new.
(** Tasks 1 and 2 wait; 2 has the shorter slice. *)
Definition c1 : Tasks * EevdfRunQueue := eevdf_enqueue 1 true ts0 eevdf_new.
Definition c2 : Tasks * EevdfRunQueue := eevdf_enqueue 2 true c1.1 c1.2.

Lemma c1_wf : eevdf_wf c1.1 c1.2.
Proof.
  apply (enqueue_wf ts0 eevdf_new 1 true); [apply eevdf_new_wf|apply not_elem_of_nil|apply surjective_pairing].
Qed.

Lemma c1_queued : 2 ∉ queued c1.2.
Proof. by apply (bool_decide_unpack _). Qed.

Lemma c2_wf : eevdf_wf c2.1 c2.2.
Proof.
  apply (enqueue_wf c1.1 c1.2 2 true); [apply c1_wf|apply c1_queued|apply surjective_pairing].
Qed.

(** A task that ran elsewhere for a while. *)
Definition ts_moved : Tasks :=
  set_sched 7 (mkSched 5000000 0 0 1024 4194304 0 0 100000000 None Normal 1 0 false 0) ts0.

End EevdfDemo.

Lemma eevdf_queue_invariant_witness :
  eevdf_wf EevdfDemo.c2.1 EevdfDemo.c2.2 /\
  min_vruntime EevdfDemo.c1.2 <= min_vruntime EevdfDemo.c2.2.
Proof.
  apply (eevdf_queue_invariant EevdfDemo.ts0 EevdfDemo.c1 EevdfDemo.c2).
  - apply rtc_once. apply es_enqueue. apply not_elem_of_nil.
  - apply rtc_once. rewrite (surjective_pairing EevdfDemo.c1). apply es_enqueue, EevdfDemo.c1_queued.
Defined.

Lemma eevdf_picks_earliest_eligible_witness :
  eevdf_wf EevdfDemo.c2.1 EevdfDemo.c2.2 /\
  (eevdf_pick_next EevdfDemo.c2.1 EevdfDemo.c2.2).1 = Some 2 /\
  match eevdf_pick_next EevdfDemo.c2.1 EevdfDemo.c2.2 with
  | (Some t, q') => t ∈ queued EevdfDemo.c2.2
  | (None, q') => False
  end.
Proof.
  split; [apply EevdfDemo.c2_wf|]. split; [vm_compute; reflexivity|].
  pose proof (eevdf_picks_earliest_eligible EevdfDemo.c2.1 EevdfDemo.c2.2 EevdfDemo.c2_wf) as H.
  destruct (eevdf_pick_next EevdfDemo.c2.1 EevdfDemo.c2.2) as [[t|] q'] eqn:E.
  - exact (proj1 H).
  - vm_compute in E. discriminate E.
Defined.

Lemma eevdf_enqueue_slice_witness :
  SCHED_MIN_GRANULARITY_NS <= vdeadline (sched_of EevdfDemo.c2.1 2) - ve (sched_of EevdfDemo.c2.1 2)
    <= SCHED_LATENCY_NS.
Proof.
  refine (proj1 (proj2 (proj2 (eevdf_enqueue_slice EevdfDemo.c1.1 EevdfDemo.c1.2 2 true
    EevdfDemo.c2.1 EevdfDemo.c2.2 EevdfDemo.c1_wf EevdfDemo.c1_queued _ _ _ _)))).
  - vm_compute. split; [discriminate|reflexivity].
  - vm_compute. split; [discriminate|reflexivity].
  - vm_compute. split; [discriminate|reflexivity].
  - apply surjective_pairing.
Defined.

Lemma virtual_time_inverse_to_weight_witness :
  1000000 - weight_for_nice (-5) <= delta_vt 1000000 (-5) * weight_for_nice (-5) <= 1000000.
Proof. apply (virtual_time_inverse_to_weight 1000000 (-5)). lia. Defined.

Lemma nice0_min_slice_is_768ms_witness :
  exists ts' q', eevdf_tick 1 700000000 EevdfDemo.c1.1 eevdf_new = (false, ts', q') /\
    vruntime (sched_of ts' 1) = vruntime (sched_of EevdfDemo.c1.1 1) + 700000000 / 1024.
Proof.
  apply (nice0_min_slice_is_768ms EevdfDemo.c1.1 eevdf_new 1 700000000).
  - vm_compute. reflexivity.
  - vm_compute. split; [discriminate|reflexivity].
  - vm_compute. discriminate.
  - reflexivity.
  - lia.
Defined.

Lemma migrated_task_stalls_witness :
  let '(ts', q') := eevdf_enqueue 7 true EevdfDemo.ts_moved eevdf_new in
  queued q' = [7] /\ eevdf_pick_next ts' q' = (None, q').
Proof.
  apply (migrated_task_stalls EevdfDemo.ts_moved eevdf_new 7 true).
  - apply eevdf_new_wf.
  - reflexivity.
  - vm_compute. split; [discriminate|reflexivity].
Defined.

Lemma pick_and_put_back_inflates_load_witness :
  let p := eevdf_pick_next EevdfDemo.c2.1 EevdfDemo.c2.2 in
  let r := put_prev 2 EevdfDemo.c2.1 p.2 in
  e_nr_running EevdfDemo.c2.2 = 2 /\ length (queued r.2) = 2%nat /\
  e_nr_running r.2 = wrap64 (e_nr_running EevdfDemo.c2.2 + 1).
Proof.
  split; [vm_compute; reflexivity|]. split; [vm_compute; reflexivity|].
  refine (proj1 (proj2 (pick_and_put_back_inflates_load EevdfDemo.c2.1 EevdfDemo.c2.2
    (eevdf_pick_next EevdfDemo.c2.1 EevdfDemo.c2.2).2 _ 2 _ EevdfDemo.c2_wf _ (surjective_pairing _)))).
  vm_compute. reflexivity.
Defined.

(** A second [enqueue] of a waiting task is not detected: its slice is computed with the
    weight of the first time, so it gets another deadline and is filed twice. *)
Example enqueued_twice_waits_twice :
  queued EevdfDemo.c1.2 = [1] /\ queued (eevdf_enqueue 1 true EevdfDemo.c1.1 EevdfDemo.c1.2).2 = [1; 1].
Proof. vm_compute. auto. Qed.
