(* ===== verification/RealTime.v ===== *)
(** * The real-time and the deadline run queues

    [kernel/mks/src/realtime.rs] and [kernel/mks/src/deadline.rs]: an array of FIFO
    queues with a bitmap of the nonempty ones for the POSIX real-time classes, and an
    earliest-deadline-first queue with admission control for [SCHED_DEADLINE]. *)

From stdpp Require Import sorting.
From S2P Require Import Prelude BTree SchedTask.

(** ** The real-time queue *)

Definition RT_PRIO_LEVELS : nat := 100.
Definition RT_RR_TIMESLICE_NS : Z := 100000000.

Record RtRunQueue := mkRt {
  queues : list (list TaskRef);
  bitmap : Z;
  r_nr_running : Z;
}.

Definition rt_new : RtRunQueue := mkRt (replicate RT_PRIO_LEVELS []) 0 0.

(** [bitmap |= 1 << p] and [bitmap &= !(1 << p)] on a [u128]. *)
Definition bit_set (p : nat) (b : Z) : Z := Z.lor b (Z.shiftl 1 (Z.of_nat p)).
Definition bit_clear (p : nat) (b : Z) : Z := Z.land b (Z.lxor (Z.ones 128) (Z.shiftl 1 (Z.of_nat p))).

Definition rt_prio (s : TaskSchedInfo) : nat := Z.to_nat (clamp (rt_priority s) 0 99).

Definition rt_enqueue (task : TaskRef) (ts : Tasks) (q : RtRunQueue) : outcome RtRunQueue :=
  let prio := rt_prio (sched_of ts task) in
  let* l := expect (queues q !! prio) in
  Done (mkRt (<[prio := l ++ [task]]> (queues q)) (bit_set prio (bitmap q)) (wrap64 (r_nr_running q + 1))).

(** The [for prio in (0..100).rev()] loop of [dequeue], from priority [n - 1] down. *)
Fixpoint rt_dequeue_from (n : nat) (task : TaskRef) (q : RtRunQueue) : outcome RtRunQueue :=
  match n with
  | O => Done q
  | S p =>
      if Z.land (bitmap q) (Z.shiftl 1 (Z.of_nat p)) =? 0 then rt_dequeue_from p task q
      else
        let* l := expect (queues q !! p) in
        match find_index (fun t => bool_decide (t = task)) l with
        | Some pos =>
            let l' := delete pos l in
            Done (mkRt (<[p := l']> (queues q))
                    (match l' with [] => bit_clear p (bitmap q) | _ => bitmap q end)
                    (sat_sub (r_nr_running q) 1))
        | None => rt_dequeue_from p task q
        end
  end.

Definition rt_dequeue (task : TaskRef) (q : RtRunQueue) : outcome RtRunQueue :=
  rt_dequeue_from RT_PRIO_LEVELS task q.

Definition is_rr (c : SchedClass) : bool := match c with RoundRobin _ => true | _ => false end.

(** [127 - bitmap.leading_zeros()] is the index of the highest bit. *)
Definition rt_pick_next (ts : Tasks) (q : RtRunQueue) : outcome (option TaskRef * RtRunQueue) :=
  if bitmap q =? 0 then Done (None, q)
  else
    let top := Z.to_nat (Z.log2 (bitmap q)) in
    let* l := expect (queues q !! top) in
    match l with
    | [] => Done (None, q)
    | task :: l' =>
        if is_rr (policy (sched_of ts task))
        then Done (Some task, mkRt (<[top := l' ++ [task]]> (queues q)) (bitmap q) (r_nr_running q))
        else Done (Some task,
               mkRt (<[top := l']> (queues q))
                 (match l' with [] => bit_clear top (bitmap q) | _ => bitmap q end)
                 (sat_sub (r_nr_running q) 1))
    end.

Definition set_timeslice (v : Z) (s : TaskSchedInfo) : TaskSchedInfo :=
  mkSched (vruntime s) (ve s) (vdeadline s) (weight s) (wmult s) (nice s) (rt_priority s)
    v (pinned_cpu s) (policy s) (last_cpu s) (wakeup_time_ns s) (on_rq s) (exec_runtime s).

Definition rt_tick (task : TaskRef) (elapsed_ns : Z) (ts : Tasks) : bool * Tasks :=
  let s := sched_of ts task in
  match policy s with
  | RoundRobin _ =>
      if elapsed_ns <? rr_timeslice_remaining s
      then (false, set_sched task (set_timeslice (rr_timeslice_remaining s - elapsed_ns) s) ts)
      else (true, set_sched task (set_timeslice RT_RR_TIMESLICE_NS s) ts)
  | Fifo => (false, ts)
  | _ => (false, ts)
  end.

(** ** The deadline queue *)

Definition SCHED_DL_BANDWIDTH_NUM : Z := 95.
Definition SCHED_DL_BANDWIDTH_DEN : Z := 100.

Record DlTask := mkDl { dl_task : TaskRef; abs_deadline : Z; budget_remaining : Z }.

Record DeadlineRunQueue := mkDlq {
  dl_tasks : list (vkey * DlTask);
  admitted_bandwidth : Z;
  d_nr_running : Z;
}.

Definition dl_new : DeadlineRunQueue := mkDlq [] 0 0.

Definition dl_enqueue (task : TaskRef) (now_ns : Z) (ts : Tasks) (q : DeadlineRunQueue)
    : result unit string * DeadlineRunQueue :=
  match policy (sched_of ts task) with
  | Deadline runtime deadline period =>
      if period =? 0 then (Err "MKS/DL: period cannot be zero"%string, q)
      else
        let bw := wrap64 (runtime * 1000) / period in
        let new_bw := wrap64 (admitted_bandwidth q + bw) in
        if SCHED_DL_BANDWIDTH_NUM * 10 <? new_bw
        then (Err "MKS/DL: admission control: bandwidth exceeded"%string, q)
        else
          let abs := wrap64 (now_ns + deadline) in
          (Ok tt, mkDlq (bt_insert (abs, task) (mkDl task abs runtime) (dl_tasks q)) new_bw
                    (wrap64 (d_nr_running q + 1)))
  | _ => (Err "MKS/DL: task is not SCHED_DEADLINE"%string, q)
  end.

(** [keys().find(|k| k.1 == task_id)]. *)
Definition dl_find (task : TaskRef) (m : list (vkey * DlTask)) : option vkey :=
  fst <$> find (fun e => e.1.2 =? task) m.

Definition dl_dequeue (task : TaskRef) (ts : Tasks) (q : DeadlineRunQueue) : DeadlineRunQueue :=
  match dl_find task (dl_tasks q) with
  | None => q
  | Some k =>
      match bt_remove k (dl_tasks q) with
      | (Some entry, m) =>
          let '(runtime, period) := match policy (sched_of ts (dl_task entry)) with
                                    | Deadline r _ p => (r, p)
                                    | _ => (0, 1)
                                    end in
          let bw := wrap64 (runtime * 1000) / Z.max period 1 in
          mkDlq m (sat_sub (admitted_bandwidth q) bw) (sat_sub (d_nr_running q) 1)
      | (None, m) => mkDlq m (admitted_bandwidth q) (d_nr_running q)
      end
  end.

Definition dl_pick_next (ts : Tasks) (q : DeadlineRunQueue) : option TaskRef * DeadlineRunQueue :=
  match bt_first (dl_tasks q) with
  | None => (None, q)
  | Some (k, _) =>
      match bt_remove k (dl_tasks q) with
      | (None, m) => (None, mkDlq m (admitted_bandwidth q) (d_nr_running q))
      | (Some entry, m) =>
          if budget_remaining entry =? 0 then
            match policy (sched_of ts (dl_task entry)) with
            | Deadline runtime _ period =>
                let nd := wrap64 (abs_deadline entry + period) in
                (None, mkDlq (bt_insert (nd, dl_task entry) (mkDl (dl_task entry) nd runtime) m)
                         (admitted_bandwidth q) (d_nr_running q))
            | _ => (None, mkDlq m (admitted_bandwidth q) (d_nr_running q))
            end
          else (Some (dl_task entry), mkDlq m (admitted_bandwidth q) (sat_sub (d_nr_running q) 1))
      end
  end.

Definition dl_tick (task : TaskRef) (elapsed_ns : Z) (q : DeadlineRunQueue) : bool * DeadlineRunQueue :=
  match dl_find task (dl_tasks q) with
  | None => (false, q)
  | Some k =>
      match fst (bt_remove k (dl_tasks q)) with
      | None => (false, q)
      | Some entry =>
          let throttled := negb (elapsed_ns <? budget_remaining entry) in
          let left := if throttled then 0 else budget_remaining entry - elapsed_ns in
          (throttled,
           mkDlq (bt_update k (fun e => mkDl (dl_task e) (abs_deadline e) left) (dl_tasks q))
             (admitted_bandwidth q) (d_nr_running q))
      end
  end.

(** ** System-wide admission ([deadline.rs]) *)

Definition MAX_BW : Z := SCHED_DL_BANDWIDTH_NUM * 1000000 / SCHED_DL_BANDWIDTH_DEN.

Definition validate_dl_params (runtime deadline period : Z) : result unit string :=
  if period =? 0 then Err "SCHED_DEADLINE: period must be > 0"%string
  else if runtime =? 0 then Err "SCHED_DEADLINE: runtime must be > 0"%string
  else if period <? deadline then Err "SCHED_DEADLINE: deadline must be <= period"%string
  else if deadline <? runtime then Err "SCHED_DEADLINE: runtime must be <= deadline"%string
  else if period <? 1000000 then Err "SCHED_DEADLINE: period must be >= 1ms (1_000_000 ns)"%string
  else Ok tt.

(** [admit_bandwidth] on the global counter [g]; a division by zero panics.  The
    compare-and-exchange loop retries with a fresh value of the counter when another
    CPU changed it, so one call is atomic. *)
Definition admit_bandwidth (runtime period g : Z) : outcome (result Z string * Z) :=
  if period =? 0 then Panic
  else
    let contribution := wrap64 (runtime * 1000000) / period in
    if MAX_BW <? wrap64 (g + contribution)
    then Done (Err "SCHED_DEADLINE: global bandwidth limit exceeded"%string, g)
    else Done (Ok contribution, wrap64 (g + contribution)).

Definition release_bandwidth (contribution g : Z) : Z := wrap64 (g - contribution).

Definition bandwidth_utilization_permille (g : Z) : Z := wrap64 (g * 1000) / Z.max MAX_BW 1.

(** ** Lemmas: the real-time queue *)

Definition is_nil {A} (l : list A) : bool := match l with [] => true | _ => false end.

(** The tasks that wait, from priority 0 up. *)
Definition rt_queued (q : RtRunQueue) : list TaskRef := concat (queues q).

(** 100 queues, the bitmap tells which are nonempty, the counter is their total
    length. *)
Record rt_wf (q : RtRunQueue) : Prop := {
  rw_len : length (queues q) = RT_PRIO_LEVELS;
  rw_nonneg : 0 <= bitmap q;
  rw_bits : forall p l, queues q !! p = Some l ->
              Z.testbit (bitmap q) (Z.of_nat p) = negb (is_nil l);
  rw_high : forall n, 100 <= n -> Z.testbit (bitmap q) n = false;
  rw_count : r_nr_running q = Z.of_nat (length (rt_queued q));
}.

Lemma shiftl_1_testbit (p : nat) (n : Z) :
  0 <= n -> Z.testbit (Z.shiftl 1 (Z.of_nat p)) n = (n =? Z.of_nat p).
Proof.
  intros Hn. rewrite Z.shiftl_1_l. rewrite Z.pow2_bits_eqb by lia. apply Z.eqb_sym.
Qed.

Lemma bit_set_testbit (p : nat) (b n : Z) :
  0 <= n -> Z.testbit (bit_set p b) n = if n =? Z.of_nat p then true else Z.testbit b n.
Proof.
  intros Hn. unfold bit_set. rewrite Z.lor_spec, shiftl_1_testbit by done.
  destruct (n =? Z.of_nat p); [apply orb_true_r|apply orb_false_r].
Qed.

Lemma bit_clear_testbit (p : nat) (b n : Z) :
  (p < 128)%nat -> (forall m, 128 <= m -> Z.testbit b m = false) -> 0 <= n ->
  Z.testbit (bit_clear p b) n = if n =? Z.of_nat p then false else Z.testbit b n.
Proof.
  intros Hp Hb Hn. unfold bit_clear. rewrite Z.land_spec, Z.lxor_spec, shiftl_1_testbit by done.
  destruct (decide (n < 128)).
  - rewrite Z.ones_spec_low by lia. destruct (n =? Z.of_nat p); simpl; [apply andb_false_r|apply andb_true_r].
  - rewrite Hb by lia. by destruct (n =? Z.of_nat p).
Qed.

Lemma bit_test (p : nat) (b : Z) :
  (Z.land b (Z.shiftl 1 (Z.of_nat p)) =? 0) = negb (Z.testbit b (Z.of_nat p)).
Proof.
  destruct (Z.testbit b (Z.of_nat p)) eqn:E; simpl.
  - apply Z.eqb_neq. intros H0.
    assert (Z.testbit (Z.land b (Z.shiftl 1 (Z.of_nat p))) (Z.of_nat p) = false) as H1
      by (rewrite H0; apply Z.bits_0).
    rewrite Z.land_spec, shiftl_1_testbit, E, Z.eqb_refl in H1 by lia. done.
  - apply Z.eqb_eq. apply Z.bits_inj_0. intros n. destruct (decide (0 <= n)) as [Hn|Hn].
    + rewrite Z.land_spec, shiftl_1_testbit by done. destruct (Z.eqb_spec n (Z.of_nat p)) as [->|].
      * by rewrite E.
      * apply andb_false_r.
    + apply Z.testbit_neg_r. lia.
Qed.

Lemma length_concat_insert {A} (qs : list (list A)) (p : nat) (l l' : list A) :
  qs !! p = Some l ->
  (length (concat (<[p := l']> qs)) + length l = length (concat qs) + length l')%nat.
Proof.
  revert p. induction qs as [|x qs IH]; intros [|p] H; simplify_eq/=; rewrite !length_app; [lia|].
  specialize (IH p H). change (list_insert p l' qs) with (<[p := l']> qs). lia.
Qed.

(** Replacing one queue, with the bit of its priority kept in step. *)
Lemma rt_wf_update (q : RtRunQueue) (p : nat) (l l' : list TaskRef) (b' nr' : Z) :
  rt_wf q -> queues q !! p = Some l -> 0 <= b' ->
  (forall n, 0 <= n -> Z.testbit b' n = if n =? Z.of_nat p then negb (is_nil l') else Z.testbit (bitmap q) n) ->
  nr' + Z.of_nat (length l) = r_nr_running q + Z.of_nat (length l') ->
  rt_wf (mkRt (<[p := l']> (queues q)) b' nr').
Proof.
  intros [H1 H2 H3 H4 H5] Hl Hb' Hbits Hnr. pose proof (lookup_lt_Some _ _ _ Hl) as Hp. rewrite H1 in Hp.
  unfold RT_PRIO_LEVELS in Hp. split; simpl.
  - by rewrite length_insert.
  - done.
  - intros p0 l0 Hl0. rewrite Hbits by lia. destruct (Z.eqb_spec (Z.of_nat p0) (Z.of_nat p)) as [E|E].
    + apply Nat2Z.inj in E as ->. rewrite list_lookup_insert_eq in Hl0 by (rewrite H1; done). by simplify_eq.
    + apply H3. rewrite list_lookup_insert_ne in Hl0; [done|]. intros ->. lia.
  - intros n Hn. rewrite Hbits by lia. destruct (Z.eqb_spec n (Z.of_nat p)); [lia|]. by apply H4.
  - pose proof (length_concat_insert (queues q) p l l' Hl). unfold rt_queued in *. simpl. lia.
Qed.

Lemma rt_top (q : RtRunQueue) :
  rt_wf q -> bitmap q <> 0 ->
  exists t l, queues q !! Z.to_nat (Z.log2 (bitmap q)) = Some (t :: l) /\
    forall p l', (Z.to_nat (Z.log2 (bitmap q)) < p)%nat -> queues q !! p = Some l' -> l' = [].
Proof.
  intros Hwf Hb. destruct Hwf as [H1 H2 H3 H4 H5].
  pose proof (Z.log2_nonneg (bitmap q)) as Hlog. pose proof (Z.bit_log2 (bitmap q) ltac:(lia)) as Htop.
  assert (Z.log2 (bitmap q) < 100) as Hlt.
  { destruct (decide (100 <= Z.log2 (bitmap q))) as [Hge|]; [|lia]. rewrite H4 in Htop by done. done. }
  destruct (lookup_lt_is_Some_2 (queues q) (Z.to_nat (Z.log2 (bitmap q)))) as [l Hl].
  { rewrite H1. unfold RT_PRIO_LEVELS. lia. }
  pose proof (H3 _ _ Hl) as Hbit. rewrite Z2Nat.id, Htop in Hbit by done.
  destruct l as [|t l]; [done|]. exists t, l. split; [done|].
  intros p l' Hp Hl'. pose proof (H3 _ _ Hl') as Hb'. rewrite Z.bits_above_log2 in Hb' by lia.
  by destruct l'.
Qed.

Lemma rt_empty (q : RtRunQueue) : rt_wf q -> bitmap q = 0 -> rt_queued q = [].
Proof.
  intros [H1 H2 H3 H4 H5] Hb. unfold rt_queued. apply concat_nil_Forall, Forall_lookup.
  intros p l Hl. specialize (H3 p l Hl). rewrite Hb, Z.bits_0 in H3. by destruct l.
Qed.

Lemma bit_set_nonneg (p : nat) (b : Z) : 0 <= b -> 0 <= bit_set p b.
Proof. intros. unfold bit_set. apply Z.lor_nonneg. split; [done|]. apply Z.shiftl_nonneg. lia. Qed.

Lemma bit_clear_nonneg (p : nat) (b : Z) : 0 <= b -> 0 <= bit_clear p b.
Proof. intros. unfold bit_clear. apply Z.land_nonneg. by left. Qed.

Lemma queue_le_count (q : RtRunQueue) (p : nat) (l : list TaskRef) :
  rt_wf q -> queues q !! p = Some l -> Z.of_nat (length l) <= r_nr_running q.
Proof.
  intros Hwf Hl. rewrite (rw_count _ Hwf). pose proof (length_concat_insert (queues q) p l [] Hl) as H.
  unfold rt_queued. simpl in H. lia.
Qed.

(** Taking one task out of a queue. *)
Lemma rt_wf_shrink (q : RtRunQueue) (p : nat) (l l' : list TaskRef) :
  rt_wf q -> queues q !! p = Some l -> length l = S (length l') ->
  rt_wf (mkRt (<[p := l']> (queues q)) (match l' with [] => bit_clear p (bitmap q) | _ => bitmap q end)
           (sat_sub (r_nr_running q) 1)).
Proof.
  intros Hwf Hl Hlen. pose proof (lookup_lt_Some _ _ _ Hl) as Hp. rewrite (rw_len _ Hwf) in Hp.
  unfold RT_PRIO_LEVELS in Hp. pose proof (queue_le_count _ _ _ Hwf Hl) as Hc.
  pose proof (rw_bits _ Hwf _ _ Hl) as Hbit.
  eapply rt_wf_update; [done|done| | |unfold sat_sub; lia].
  - destruct l'; [apply bit_clear_nonneg|]; apply Hwf.
  - intros n Hn. destruct l' as [|x l'].
    + apply bit_clear_testbit; [lia| |done]. intros m Hm. apply (rw_high _ Hwf). lia.
    + destruct (Z.eqb_spec n (Z.of_nat p)) as [->|]; [|done]. rewrite Hbit. by destruct l.
Qed.

Lemma rt_enqueue_ok (q : RtRunQueue) (ts : Tasks) (t : TaskRef) :
  rt_wf q -> r_nr_running q < U64_MAX ->
  exists q' l, rt_enqueue t ts q = Done q' /\ rt_wf q' /\
    queues q !! rt_prio (sched_of ts t) = Some l /\
    queues q' = <[rt_prio (sched_of ts t) := l ++ [t]]> (queues q).
Proof.
  intros Hwf Hnr. unfold rt_enqueue.
  assert (rt_prio (sched_of ts t) < 100)%nat as Hp.
  { unfold rt_prio. pose proof (clamp_bounds (rt_priority (sched_of ts t)) 0 99). lia. }
  set (p := rt_prio (sched_of ts t)) in *. clearbody p.
  destruct (lookup_lt_is_Some_2 (queues q) p) as [l Hl].
  { rewrite (rw_len _ Hwf). unfold RT_PRIO_LEVELS. lia. }
  rewrite Hl. simpl. eexists _, l. split_and!; try done.
  pose proof (queue_le_count _ _ _ Hwf Hl) as Hc.
  eapply rt_wf_update; [done|done|apply bit_set_nonneg, Hwf| |].
  - intros n Hn. rewrite bit_set_testbit by done. destruct (n =? Z.of_nat p); [|done]. by destruct l.
  - rewrite wrap64_id by (unfold in_u64; lia). rewrite length_app. simpl. lia.
Qed.

Lemma rt_pick_ok (q : RtRunQueue) (ts : Tasks) :
  rt_wf q ->
  (rt_queued q = [] /\ rt_pick_next ts q = Done (None, q)) \/
  exists p t l q', queues q !! p = Some (t :: l) /\
    (forall p' l', (p < p')%nat -> queues q !! p' = Some l' -> l' = []) /\
    rt_pick_next ts q = Done (Some t, q') /\ rt_wf q' /\
    queues q' = <[p := if is_rr (policy (sched_of ts t)) then l ++ [t] else l]> (queues q).
Proof.
  intros Hwf. unfold rt_pick_next. destruct (Z.eqb_spec (bitmap q) 0) as [E|E].
  - left. split; [by apply rt_empty|done].
  - right. destruct (rt_top q Hwf E) as (t & l & Hl & Htop).
    exists (Z.to_nat (Z.log2 (bitmap q))), t, l. rewrite Hl. simpl.
    destruct (is_rr _); (eexists; split_and!; [done|done|done| |done]).
    + eapply rt_wf_update; [done|done|apply Hwf| |rewrite length_app; simpl; lia].
      intros n Hn. destruct (Z.eqb_spec n (Z.of_nat (Z.to_nat (Z.log2 (bitmap q))))) as [->|]; [|done].
      rewrite (rw_bits _ Hwf _ _ Hl). by destruct l.
    + by eapply rt_wf_shrink.
Qed.

Lemma concat_delete {A} (qs : list (list A)) (p pos : nat) (l : list A) (x : A) :
  qs !! p = Some l -> l !! pos = Some x ->
  Permutation (concat qs) (x :: concat (<[p := delete pos l]> qs)).
Proof.
  revert p. induction qs as [|y qs IH]; intros [|p] Hp Hx; simplify_eq/=.
  - rewrite (delete_Permutation l pos x Hx) at 1. done.
  - rewrite (IH p Hp Hx). change (list_insert p (delete pos l) qs) with (<[p := delete pos l]> qs).
    symmetry. apply Permutation_middle.
Qed.

Lemma rt_dequeue_from_ok (q : RtRunQueue) (t : TaskRef) (n : nat) :
  rt_wf q -> (n <= 100)%nat ->
  (rt_dequeue_from n t q = Done q /\ (forall p l, (p < n)%nat -> queues q !! p = Some l -> t ∉ l)) \/
  exists q', rt_dequeue_from n t q = Done q' /\ rt_wf q' /\ Permutation (rt_queued q) (t :: rt_queued q').
Proof.
  intros Hwf. induction n as [|p IH]; intros Hn; [left; split; [done|lia]|].
  destruct (lookup_lt_is_Some_2 (queues q) p) as [l Hl].
  { rewrite (rw_len _ Hwf). unfold RT_PRIO_LEVELS. lia. }
  assert (forall q0, rt_dequeue_from p t q = Done q0 -> t ∉ l ->
    (Done q0 = Done q /\ (forall p0 l, (p0 < S p)%nat -> queues q !! p0 = Some l -> t ∉ l)) \/
    exists q', Done q0 = Done q' /\ rt_wf q' /\ Permutation (rt_queued q) (t :: rt_queued q')) as Hskip.
  { intros q0 E Hno. destruct (IH ltac:(lia)) as [[E' Hall]|(q' & E' & Hq')]; rewrite E' in E; simplify_eq.
    - left. split; [done|]. intros p0 l0 Hp0 Hl0. destruct (decide (p0 = p)) as [->|]; [by simplify_eq|].
      apply (Hall p0); [lia|done].
    - right. eauto. }
  assert (exists q0, rt_dequeue_from p t q = Done q0) as [q0 Hq0].
  { destruct (IH ltac:(lia)) as [[E' _]|(q' & E' & _)]; eauto. }
  cbn [rt_dequeue_from]. rewrite bit_test, (rw_bits _ Hwf _ _ Hl), negb_involutive. rewrite Hq0.
  destruct (is_nil l) eqn:En.
  { apply Hskip; [done|]. destruct l; [apply not_elem_of_nil|done]. }
  rewrite Hl. simpl expect. simpl outcome_bind.
  destruct (find_index _ l) as [pos|] eqn:Ef.
  - right. apply find_index_Some in Ef as [(x & Hx & Hb) _]. apply bool_decide_eq_true_1 in Hb as ->.
    eexists. split; [done|]. split; [|unfold rt_queued; by apply concat_delete].
    eapply rt_wf_shrink; [done|done|]. apply (Permutation_length (delete_Permutation l pos t Hx)).
  - apply Hskip; [done|]. apply find_index_None in Ef. rewrite Forall_forall in Ef.
    intros Ht. specialize (Ef t Ht). by apply bool_decide_eq_false_1 in Ef.
Qed.

Lemma rt_dequeue_ok (q : RtRunQueue) (t : TaskRef) :
  rt_wf q ->
  exists q', rt_dequeue t q = Done q' /\ rt_wf q' /\
    ((t ∉ rt_queued q) /\ q' = q \/ Permutation (rt_queued q) (t :: rt_queued q')).
Proof.
  intros Hwf. unfold rt_dequeue, RT_PRIO_LEVELS.
  destruct (rt_dequeue_from_ok q t 100 Hwf ltac:(lia)) as [[E Hno]|(q' & E & Hq' & HP)].
  - exists q. split_and!; [done|done|]. left. split; [|done]. unfold rt_queued. intros Ht.
    apply list_elem_of_In, in_concat in Ht as (l & Hl & Htl). apply list_elem_of_In in Hl, Htl.
    apply list_elem_of_lookup in Hl as [p Hl].
    apply (Hno p l); [|done|done]. apply lookup_lt_Some in Hl. by rewrite (rw_len _ Hwf) in Hl.
  - exists q'. split_and!; auto.
Qed.

Lemma rt_new_wf : rt_wf rt_new.
Proof.
  split; try done; cbn [rt_new queues bitmap].
  - intros p l Hl. apply lookup_replicate in Hl as [-> _]. by rewrite Z.bits_0.
  - intros n _. apply Z.bits_0.
Qed.

(** The operations of the real-time queue, in any order, on fewer than [2^64] tasks. *)
Inductive rt_step (ts : Tasks) : RtRunQueue -> RtRunQueue -> Prop :=
| rs_enqueue q t q' : r_nr_running q < U64_MAX -> rt_enqueue t ts q = Done q' -> rt_step ts q q'
| rs_dequeue q t q' : rt_dequeue t q = Done q' -> rt_step ts q q'
| rs_pick q o q' : rt_pick_next ts q = Done (o, q') -> rt_step ts q q'.

Lemma rt_step_wf (ts : Tasks) (q q' : RtRunQueue) : rt_step ts q q' -> rt_wf q -> rt_wf q'.
Proof.
  intros Hst Hwf. destruct Hst as [q t q' Hnr H|q t q' H|q o q' H].
  - destruct (rt_enqueue_ok q ts t Hwf Hnr) as (q1 & l & E & Hq1 & _). rewrite E in H. by simplify_eq.
  - destruct (rt_dequeue_ok q t Hwf) as (q1 & E & Hq1 & _). rewrite E in H. by simplify_eq.
  - destruct (rt_pick_ok q ts Hwf) as [[_ E]|(p & t & l & q1 & _ & _ & E & Hq1 & _)];
      rewrite E in H; by simplify_eq.
Qed.

Lemma rt_reachable_wf (ts : Tasks) (q : RtRunQueue) : rtc (rt_step ts) rt_new q -> rt_wf q.
Proof.
  intros H. assert (forall q0 q1, rtc (rt_step ts) q0 q1 -> rt_wf q0 -> rt_wf q1) as Hinv.
  { induction 1; [done|]. intros. apply IHrtc. by eapply rt_step_wf. }
  eapply Hinv; [done|apply rt_new_wf].
Qed.

(** ** Lemmas: the deadline queue *)

(** The share of a deadline task in permille, as the queue accounts for it. *)
Definition dl_bw (ts : Tasks) (e : DlTask) : Z :=
  match policy (sched_of ts (dl_task e)) with
  | Deadline r _ p => wrap64 (r * 1000) / Z.max p 1
  | _ => 0
  end.

Definition dl_load (ts : Tasks) (m : list (vkey * DlTask)) : Z := sum_of (fun e => dl_bw ts e.2) m.

(** The share of a deadline task in whole permille. *)
Definition dl_share (ts : Tasks) (e : DlTask) : Z :=
  match policy (sched_of ts (dl_task e)) with
  | Deadline r _ p => r * 1000 / Z.max p 1
  | _ => 0
  end.

(** The parameters of the deadline tasks are unsigned, and a runtime is at most
    18446744073709550 ns (213 days), so that admission control does not wrap around: see
    [wrapping_runtime_is_admitted]. *)
Definition dl_params_ok (ts : Tasks) : Prop :=
  forall t, match policy (sched_of ts t) with
            | Deadline r d p => 0 <= r /\ r * 1000 + 950 <= U64_MAX /\ 0 <= d /\ 0 <= p
            | _ => True
            end.

Lemma dl_bw_share (ts : Tasks) (e : DlTask) : dl_params_ok ts -> dl_bw ts e = dl_share ts e.
Proof.
  intros Hp. specialize (Hp (dl_task e)). unfold dl_bw, dl_share. destruct (policy _); try done.
  rewrite wrap64_id; [done|]. unfold in_u64. lia.
Qed.

Record dl_wf (ts : Tasks) (q : DeadlineRunQueue) : Prop := {
  dw_sorted : bt_sorted (dl_tasks q);
  dw_keys : Forall (fun e => e.1 = (abs_deadline e.2, dl_task e.2)) (dl_tasks q);
  dw_load : dl_load ts (dl_tasks q) <= admitted_bandwidth q <= 950;
}.

Lemma dl_bw_nonneg (ts : Tasks) (e : DlTask) : 0 <= dl_bw ts e.
Proof.
  unfold dl_bw. destruct (policy _); try lia. pose proof (wrap64_in (runtime * 1000)) as [H _].
  apply Z.div_pos; lia.
Qed.

Lemma sum_bt_insert {V} (w : vkey * V -> Z) (k : vkey) (v : V) m :
  (forall e, 0 <= w e) -> sum_of w (bt_insert k v m) <= w (k, v) + sum_of w m.
Proof.
  intros Hw. induction m as [|[k' v'] m IH]; simpl; [lia|].
  destruct (kltb k k'); simpl; [lia|]. destruct (kltb k' k); simpl; [lia|]. specialize (Hw (k', v')). lia.
Qed.

Lemma dl_load_insert (ts : Tasks) (k : vkey) (e : DlTask) m :
  dl_load ts (bt_insert k e m) <= dl_bw ts e + dl_load ts m.
Proof. apply (sum_bt_insert (fun e => dl_bw ts e.2)). intros x. apply dl_bw_nonneg. Qed.

Lemma dl_load_remove (ts : Tasks) (k : vkey) (e : DlTask) m m' :
  bt_remove k m = (Some e, m') -> dl_load ts m = dl_bw ts e + dl_load ts m'.
Proof. intros H. unfold dl_load. rewrite (bt_remove_Some _ _ _ _ H). done. Qed.

Lemma forall_bt_insert {V} (P : vkey * V -> Prop) (k : vkey) (v : V) m :
  bt_sorted m -> P (k, v) -> Forall P m -> Forall P (bt_insert k v m).
Proof.
  intros Hs Hp Hm. apply Forall_forall. intros e He. rewrite Forall_forall in Hm.
  apply elem_of_bt_insert in He as [->|[He _]]; auto.
Qed.

Lemma forall_bt_remove {V} (P : vkey * V -> Prop) (k : vkey) m :
  Forall P m -> Forall P (bt_remove k m).2.
Proof.
  intros H. apply Forall_forall. intros e He. rewrite Forall_forall in H. apply H.
  eapply elem_of_sublist; [done|apply bt_remove_sublist].
Qed.

Lemma dl_wf_remove (ts : Tasks) (q : DeadlineRunQueue) (k : vkey) (e : DlTask) m (bw nr : Z) :
  dl_wf ts q -> bt_remove k (dl_tasks q) = (Some e, m) -> dl_load ts m <= bw <= 950 ->
  dl_wf ts (mkDlq m bw nr).
Proof.
  intros [H1 H2 H3] E Hb. pose proof (bt_remove_sorted k _ H1) as Hs.
  pose proof (forall_bt_remove _ k _ H2) as Hk. rewrite E in Hs, Hk. by split.
Qed.

Lemma bt_update_keys {V} (k : vkey) (f : V -> V) m : (bt_update k f m).*1 = m.*1.
Proof. induction m as [|[k' v'] m IH]; [done|]. simpl. case_decide; simpl; [done|]. by f_equal. Qed.

Lemma bt_update_sorted {V} (k : vkey) (f : V -> V) m : bt_sorted m -> bt_sorted (bt_update k f m).
Proof.
  induction m as [|[k' v'] m IH]; intros Hs; simpl; [done|].
  apply bt_sorted_cons in Hs as [Hs Hk]. case_decide; apply bt_sorted_cons; split; auto.
  assert (Forall (klt k') (bt_update k f m).*1) as Hu by (rewrite bt_update_keys; by apply Forall_fmap).
  exact (proj1 (Forall_fmap fst (klt k') _) Hu).
Qed.

Lemma dl_update_wf (ts : Tasks) (q : DeadlineRunQueue) (k : vkey) (left nr : Z) :
  dl_wf ts q ->
  dl_wf ts (mkDlq (bt_update k (fun e => mkDl (dl_task e) (abs_deadline e) left) (dl_tasks q))
              (admitted_bandwidth q) nr).
Proof.
  intros [H1 H2 H3]. split; simpl; [by apply bt_update_sorted| |].
  - clear H1 H3. induction H2 as [|[k' v'] m Hk Hm IH]; simpl; [constructor|].
    case_decide; constructor; auto.
  - assert (dl_load ts (bt_update k (fun e => mkDl (dl_task e) (abs_deadline e) left) (dl_tasks q)) =
            dl_load ts (dl_tasks q)) as ->; [|done].
    clear. unfold dl_load. induction (dl_tasks q) as [|[k' v'] m IH]; simpl; [done|].
    case_decide; simpl; [done|]. by rewrite IH.
Qed.

(** The operations of the deadline queue, in any order. *)
Inductive dl_step (ts : Tasks) : DeadlineRunQueue -> DeadlineRunQueue -> Prop :=
| ds_enqueue q t now : dl_step ts q (dl_enqueue t now ts q).2
| ds_dequeue q t : dl_step ts q (dl_dequeue t ts q)
| ds_pick q : dl_step ts q (dl_pick_next ts q).2
| ds_tick q t el : dl_step ts q (dl_tick t el q).2.

Lemma dl_enqueue_wf (ts : Tasks) (q : DeadlineRunQueue) (t : TaskRef) (now : Z) r q' :
  dl_params_ok ts -> dl_wf ts q -> dl_enqueue t now ts q = (r, q') -> dl_wf ts q'.
Proof.
  intros Hp Hwf H. specialize (Hp t). unfold dl_enqueue in H.
  destruct (policy (sched_of ts t)) as [| | | | | |r0 d p] eqn:Epol; simplify_eq; try done.
  destruct (Z.eqb_spec p 0); [by simplify_eq|]. destruct Hp as (Hr & Hr' & Hd & Hpp).
  assert (forall a, dl_bw ts (mkDl t a r0) = wrap64 (r0 * 1000) / p) as Hbw.
  { intros a. unfold dl_bw. simpl. rewrite Epol. by rewrite Z.max_l by lia. }
  assert (0 <= wrap64 (r0 * 1000) / p <= U64_MAX - 950) as Hb.
  { rewrite wrap64_id by (unfold in_u64; lia). split; [apply Z.div_pos; lia|].
    apply Z.div_le_upper_bound; [lia|]. unfold U64_MAX in *. nia. }
  destruct Hwf as [H1 H2 H3]. set (b := wrap64 (r0 * 1000) / p) in *.
  assert (0 <= dl_load ts (dl_tasks q)) by (apply sum_of_nonneg; intros; apply dl_bw_nonneg).
  rewrite (wrap64_id (admitted_bandwidth q + b)) in H by (unfold in_u64; lia).
  destruct (Z.ltb_spec (SCHED_DL_BANDWIDTH_NUM * 10) (admitted_bandwidth q + b)) as [|Hle]; simplify_eq; [done|].
  unfold SCHED_DL_BANDWIDTH_NUM in Hle. split; simpl.
  - by apply bt_insert_sorted.
  - by apply forall_bt_insert.
  - pose proof (dl_load_insert ts (wrap64 (now + d), t) (mkDl t (wrap64 (now + d)) r0) (dl_tasks q)) as Hl.
    rewrite Hbw in Hl. lia.
Qed.

Lemma dl_dequeue_wf (ts : Tasks) (q : DeadlineRunQueue) (t : TaskRef) :
  dl_wf ts q -> dl_wf ts (dl_dequeue t ts q).
Proof.
  intros Hwf. unfold dl_dequeue. destruct (dl_find t (dl_tasks q)) as [k|]; [|done].
  destruct (bt_remove k (dl_tasks q)) as [[e|] m] eqn:E.
  - assert (dl_load ts m <= sat_sub (admitted_bandwidth q) (dl_bw ts e) <= 950) as Hl.
    { pose proof (dw_load _ _ Hwf) as Hl. rewrite (dl_load_remove _ _ _ _ _ E) in Hl.
      pose proof (dl_bw_nonneg ts e). unfold sat_sub. lia. }
    unfold dl_bw in Hl. destruct (policy _); eapply dl_wf_remove; done.
  - apply bt_remove_None in E as [-> _]. by destruct q.
Qed.

(** The first entry is the one [pick_next] takes out. *)
Lemma dl_pick_cases (ts : Tasks) (q : DeadlineRunQueue) :
  (dl_tasks q = [] /\ dl_pick_next ts q = (None, q)) \/
  exists k e m, dl_tasks q = (k, e) :: m /\
    ((budget_remaining e <> 0 /\
      dl_pick_next ts q = (Some (dl_task e), mkDlq m (admitted_bandwidth q) (sat_sub (d_nr_running q) 1))) \/
     (budget_remaining e = 0 /\ exists q', dl_pick_next ts q = (None, q') /\
        match policy (sched_of ts (dl_task e)) with
        | Deadline r _ p =>
            let nd := wrap64 (abs_deadline e + p) in
            q' = mkDlq (bt_insert (nd, dl_task e) (mkDl (dl_task e) nd r) m)
                   (admitted_bandwidth q) (d_nr_running q)
        | _ => q' = mkDlq m (admitted_bandwidth q) (d_nr_running q)
        end)).
Proof.
  unfold dl_pick_next. destruct (dl_tasks q) as [|[k e] m] eqn:E; [by left|]. right.
  exists k, e, m. split; [done|]. cbn [bt_first head]. rewrite bt_first_remove.
  destruct (Z.eqb_spec (budget_remaining e) 0); [right|by left]. split; [done|].
  by destruct (policy _); eexists.
Qed.

Lemma dl_pick_wf (ts : Tasks) (q : DeadlineRunQueue) : dl_wf ts q -> dl_wf ts (dl_pick_next ts q).2.
Proof.
  intros Hwf. pose proof (dw_load _ _ Hwf) as Hl.
  destruct (dl_pick_cases ts q) as [[_ ->]|(k & e & m & E & [[_ ->]|(_ & q' & -> & Hq')])]; [done| |].
  - eapply (dl_wf_remove _ _ k e); [done|by rewrite E, bt_first_remove|].
    rewrite E in Hl. unfold dl_load in Hl. simpl in Hl. pose proof (dl_bw_nonneg ts e). unfold dl_load. lia.
  - assert (dl_wf ts (mkDlq m (admitted_bandwidth q) (d_nr_running q))) as [H1 H2 H3].
    { eapply (dl_wf_remove _ _ k e); [done|by rewrite E, bt_first_remove|].
      rewrite E in Hl. unfold dl_load in Hl. simpl in Hl. pose proof (dl_bw_nonneg ts e). unfold dl_load. lia. }
    cbn [snd]. destruct (policy _) as [| | | | | |r d p] eqn:Epol; cbv zeta in Hq'; rewrite Hq'; try done.
    simpl in *. split; simpl; [by apply bt_insert_sorted|by apply forall_bt_insert|].
    pose proof (dl_load_insert ts (wrap64 (abs_deadline e + p), dl_task e)
      (mkDl (dl_task e) (wrap64 (abs_deadline e + p)) r) m) as Hi.
    rewrite E in Hl. unfold dl_load in Hl. simpl in Hl. fold (dl_load ts m) in Hl.
    change (dl_bw ts (mkDl (dl_task e) (wrap64 (abs_deadline e + p)) r)) with (dl_bw ts e) in Hi. lia.
Qed.

Lemma dl_step_wf (ts : Tasks) (q q' : DeadlineRunQueue) :
  dl_params_ok ts -> dl_step ts q q' -> dl_wf ts q -> dl_wf ts q'.
Proof.
  intros Hp Hst Hwf. destruct Hst as [q t now|q t|q|q t el].
  - destruct (dl_enqueue t now ts q) as [r q'] eqn:E. by eapply dl_enqueue_wf.
  - by apply dl_dequeue_wf.
  - by apply dl_pick_wf.
  - unfold dl_tick. destruct (dl_find t (dl_tasks q)) as [k|]; [|done].
    destruct (bt_remove k (dl_tasks q)).1; [|done]. by apply dl_update_wf.
Qed.

Lemma dl_new_wf (ts : Tasks) : dl_wf ts dl_new.
Proof. split; simpl; [apply bt_sorted_nil|constructor|unfold dl_load; simpl; lia]. Qed.

(** ** Theorems *)

(** The real-time queue always runs the highest priority first.  In every state
    reachable by enqueues, dequeues and picks, [pick_next] does not panic; it returns
    nothing exactly when no task waits, and otherwise the task at the head of the
    nonempty queue of highest priority, which then leaves the queue if its policy is
    FIFO and goes to the back of it if its policy is round robin. *)
Theorem rt_picks_highest_priority (ts : Tasks) (q : RtRunQueue) :
  rtc (rt_step ts) rt_new q ->
  exists o q', rt_pick_next ts q = Done (o, q') /\ rt_wf q' /\
    match o with
    | None => rt_queued q = [] /\ q' = q
    | Some t =>
        exists p l, queues q !! p = Some (t :: l) /\
          (forall p' l', (p < p')%nat -> queues q !! p' = Some l' -> l' = []) /\
          queues q' = <[p := if is_rr (policy (sched_of ts t)) then l ++ [t] else l]> (queues q)
    end.
Proof.
  intros Hr. pose proof (rt_reachable_wf ts q Hr) as Hwf.
  destruct (rt_pick_ok q ts Hwf) as [[He E]|(p & t & l & q' & Hl & Htop & E & Hq' & Hqs)].
  - exists None, q. done.
  - exists (Some t), q'. split_and!; [done|done|]. exists p, l. done.
Qed.

(** C39: Admission control bounds the reserved bandwidth, for tasks whose runtime is at most
    18446744073709550 ns (213 days).  After any sequence of enqueues, dequeues, picks and
    ticks from the empty queue, the shares of the waiting deadline tasks, runtime over period
    in whole permille, add up to no more than the admitted bandwidth, which stays at or below
    950 permille.  The bound on the runtime is not checked by the queue, and nothing in the
    kernel calls [validate_dl_params]: [wrapping_runtime_is_admitted] shows that a longer
    runtime wraps around in the computation of the share. *)
Theorem deadline_admission_bound (ts : Tasks) (q : DeadlineRunQueue) :
  dl_params_ok ts -> rtc (dl_step ts) dl_new q ->
  sum_of (fun e => dl_share ts e.2) (dl_tasks q) <= admitted_bandwidth q <= 950.
Proof.
  intros Hp Hr. rewrite (sum_of_ext _ (fun e => dl_bw ts e.2)) by (apply Forall_forall; intros e _; symmetry; by apply dl_bw_share). assert (forall q0 q1, rtc (dl_step ts) q0 q1 -> dl_wf ts q0 -> dl_wf ts q1) as Hinv.
  { induction 1; [done|]. intros. apply IHrtc. by eapply dl_step_wf. }
  eapply Hinv; [done|apply dl_new_wf].
Qed.

(** The deadline queue is earliest-deadline-first.  If [pick_next] returns a task,
    its entry had budget left and the earliest absolute deadline of all entries, and it
    alone leaves the queue.  If it returns nothing, the queue was empty or the entry with
    the earliest deadline had used up its budget; that entry is postponed by one period
    with a fresh budget, the others stay. *)
Theorem deadline_picks_earliest (ts : Tasks) (q : DeadlineRunQueue) (o : option TaskRef) q' :
  dl_wf ts q -> dl_pick_next ts q = (o, q') ->
  dl_tasks q = [] /\ o = None /\ q' = q \/
  exists k e m, dl_tasks q = (k, e) :: m /\
    (forall e', e' ∈ (dl_tasks q).*2 -> abs_deadline e <= abs_deadline e') /\
    match o with
    | Some t => t = dl_task e /\ budget_remaining e <> 0 /\ dl_tasks q' = m
    | None => budget_remaining e = 0 /\
        forall r d p, policy (sched_of ts (dl_task e)) = Deadline r d p ->
          forall x, x ∈ dl_tasks q' ->
            x = ((wrap64 (abs_deadline e + p), dl_task e), mkDl (dl_task e) (wrap64 (abs_deadline e + p)) r)
            \/ x ∈ m
    end.
Proof.
  intros Hwf H.
  destruct (dl_pick_cases ts q) as [[E Hp]|(k & e & m & E & Hcase)]; [left; rewrite Hp in H; by simplify_eq|].
  right. exists k, e, m. split; [done|]. pose proof (dw_keys _ _ Hwf) as Hk.
  pose proof (dw_sorted _ _ Hwf) as Hs. split.
  { intros e' He'. apply list_elem_of_fmap in He' as ([k' x] & -> & Hx). simpl.
    destruct (bt_first_min k e (dl_tasks q) (k', x) Hs) as [Hf|Hf]; [by rewrite E|done| |];
      rewrite Forall_forall in Hk; pose proof (Hk _ Hx) as H1; pose proof (Hk (k, e)) as H2;
      rewrite E in H2; specialize (H2 ltac:(left)); simpl in *; simplify_eq; [|unfold klt in Hf; simpl in Hf]; lia. }
  destruct Hcase as [[Hb Hp]|(Hb & q1 & Hp & Hq1)]; rewrite Hp in H; simplify_eq; [done|].
  split; [done|]. intros r d p Epol. rewrite Epol in Hq1. cbv zeta in Hq1. rewrite Hq1. simpl.
  intros x Hx. rewrite E in Hs. apply bt_sorted_cons in Hs as [Hs _].
  apply elem_of_bt_insert in Hx as [->|[Hx _]]; [by left|by right|done].
Qed.

(** [pick_next] keeps the bandwidth of the task it hands out, and a later
    [dequeue] of the running task finds no entry and releases nothing.  A task with a
    share of 50 percent that was picked once, and even dequeued since, cannot be
    enqueued again although no deadline task is left: the queue is empty and
    admission control still refuses it. *)
Theorem deadline_bandwidth_leaks :
  let ts : Tasks := fun _ => mkTask Runnable
    (mkSched 0 0 0 1024 4194304 0 0 100000000 None (Deadline 5000000 10000000 10000000) 0 0 false 0) in
  let q1 := (dl_enqueue 1 0 ts dl_new).2 in
  let q2 := (dl_pick_next ts q1).2 in
  let q3 := dl_dequeue 1 ts q2 in
  (dl_pick_next ts q1).1 = Some 1 /\ dl_tasks q3 = [] /\ admitted_bandwidth q3 = 500 /\
  exists e, dl_enqueue 1 20000000 ts q3 = (Err e, q3).
Proof.
  simpl. split_and!; [vm_compute; reflexivity|vm_compute; reflexivity|vm_compute; reflexivity|].
  eexists. vm_compute. reflexivity.
Qed.

(** A runtime whose thousandfold exceeds 64 bits wraps around in admission control: a task
    that asks for 213 days of processor time in every nanosecond is admitted with a share of
    384 permille. *)
Theorem wrapping_runtime_is_admitted :
  let ts : Tasks := fun _ => mkTask Runnable
    (mkSched 0 0 0 1024 4194304 0 0 100000000 None (Deadline 18446744073709552 1 1) 0 0 false 0) in
  let '(r, q) := dl_enqueue 1 0 ts dl_new in
  r = Ok tt /\ admitted_bandwidth q = 384 /\ sum_of (fun e => dl_share ts e.2) (dl_tasks q) = 18446744073709552000.
Proof. vm_compute. auto. Qed.

(** ** Examples *)

Module RtDemo.

(** Task [t] is a FIFO task of priority [t]; deadline tasks have even numbers. *)
Definition ts : Tasks := fun t => mkTask Runnable
  (mkSched 0 0 0 1024 4194304 0 t 100000000 None
     (if Z.even t then Deadline 2000000 8000000 10000000 else Fifo) 0 0 false 0).

Definition q1 : RtRunQueue := match rt_enqueue 7 ts rt_new with Done q => q | Panic => rt_new end.

Lemma q1_reachable : rtc (rt_step ts) rt_new q1.
Proof. apply rtc_once. apply (rs_enqueue ts rt_new 7); [done|]. vm_compute. reflexivity. Qed.

Definition d1 : DeadlineRunQueue := (dl_enqueue 2 0 ts dl_new).2.

Lemma params_ok : dl_params_ok ts.
Proof. intros t. unfold sched_of, ts. simpl. destruct (Z.even t); [unfold U64_MAX; lia|done]. Qed.

Lemma d1_wf : dl_wf ts d1.
Proof. apply (dl_step_wf ts dl_new); [apply params_ok|apply ds_enqueue|apply dl_new_wf]. Qed.

End RtDemo.

Lemma rt_picks_highest_priority_witness :
  exists o q', rt_pick_next RtDemo.ts RtDemo.q1 = Done (o, q') /\ o = Some 7.
Proof.
  destruct (rt_picks_highest_priority RtDemo.ts RtDemo.q1 RtDemo.q1_reachable) as (o & q' & E & _ & H).
  exists o, q'. split; [exact E|]. destruct o as [t|].
  - destruct H as (p & l & _). vm_compute in E. injection E as <- _. reflexivity.
  - destruct H as [H _]. vm_compute in H. discriminate H.
Defined.

Lemma deadline_admission_bound_witness :
  length (dl_tasks RtDemo.d1) = 1%nat /\ sum_of (fun e => dl_share RtDemo.ts e.2) (dl_tasks RtDemo.d1) = 200 /\
  sum_of (fun e => dl_share RtDemo.ts e.2) (dl_tasks RtDemo.d1) <= admitted_bandwidth RtDemo.d1 <= 950.
Proof.
  split; [vm_compute; reflexivity|]. split; [vm_compute; reflexivity|].
  apply (deadline_admission_bound RtDemo.ts RtDemo.d1).
  - apply RtDemo.params_ok.
  - apply rtc_once, ds_enqueue.
Defined.

Lemma deadline_picks_earliest_witness :
  exists k e m, dl_tasks RtDemo.d1 = (k, e) :: m /\ dl_task e = 2.
Proof.
  destruct (deadline_picks_earliest RtDemo.ts RtDemo.d1 (dl_pick_next RtDemo.ts RtDemo.d1).1
    (dl_pick_next RtDemo.ts RtDemo.d1).2 RtDemo.d1_wf (surjective_pairing _)) as [[H _]|(k & e & m & E & _)].
  - vm_compute in H. discriminate H.
  - exists k, e, m. split; [exact E|]. vm_compute in E. injection E as _ <- _. reflexivity.
Defined.
