(* ===== verification/Topology.v ===== *)
(** * CPU topology

    [kernel/mks/src/topology.rs]: cache and NUMA distances between CPUs and the
    precomputed order in which an idle CPU looks for work to steal. *)

From stdpp Require Import sorting.
From S2P Require Import Prelude.

Inductive CacheDistance : Type := HyperThread | SameCore | SameL3 | CrossNuma.

(** The discriminants, which the derived [Ord] compares. *)
Definition dist_rank (d : CacheDistance) : Z :=
  match d with HyperThread => 0 | SameCore => 1 | SameL3 => 2 | CrossNuma => 3 end.

Record CpuInfo := mkCpu {
  logical_id : Z;
  core_id : Z;
  package_id : Z;
  numa_node : Z;
  l3_group : Z;
}.

(** [logical_id as u32]. *)
Definition cpu_unknown (id : Z) : CpuInfo := mkCpu id (id mod 2 ^ 32) 0 0 0.

Definition distance (a b : CpuInfo) : CacheDistance :=
  if negb (numa_node a =? numa_node b) then CrossNuma
  else if negb (l3_group a =? l3_group b) then CrossNuma
  else if negb (core_id a =? core_id b) then SameL3
  else if negb (logical_id a =? logical_id b) then HyperThread
  else HyperThread.

Record CpuTopology := mkTopo {
  cpus : list CpuInfo;
  steal_orders : list (list nat);
}.

(** The sort key [(dist, id)] with the lexicographic order of pairs. *)
Definition steal_le (a b : CacheDistance * nat) : Prop :=
  dist_rank a.1 < dist_rank b.1 \/ (dist_rank a.1 = dist_rank b.1 /\ (a.2 <= b.2)%nat).

#[export] Instance steal_le_dec : RelDecision steal_le.
Proof. intros a b. unfold steal_le. apply _. Defined.

#[export] Instance steal_le_total : Total steal_le.
Proof. intros a b. unfold steal_le. lia. Qed.

#[export] Instance steal_le_trans : Transitive steal_le.
Proof. intros a b c. unfold steal_le. lia. Qed.

(** [(0..num).filter(|&other| other != me).map(|other| (distance, other))]. *)
Definition other_cpus (cs : list CpuInfo) (me : nat) (info : CpuInfo) : list (CacheDistance * nat) :=
  omap (fun other => if decide (other = me) then None
                     else (fun o => (distance info o, other)) <$> cs !! other)
    (seq 0 (length cs)).

Definition steal_order_of (cs : list CpuInfo) (me : nat) (info : CpuInfo) : list nat :=
  (merge_sort steal_le (other_cpus cs me info)).*2.

Definition from_cpus (cs : list CpuInfo) : CpuTopology := mkTopo cs (imap (steal_order_of cs) cs).

Definition uniform (num_cpus : nat) : CpuTopology :=
  from_cpus ((fun i => mkCpu (Z.of_nat i) ((Z.of_nat i / 2) mod 2 ^ 32) 0 0 0) <$> seq 0 num_cpus).

Definition cpu_to_numa (topo : CpuTopology) (cpu : nat) : Z :=
  match cpus topo !! cpu with Some c => numa_node c | None => 0 end.

Definition steal_order (topo : CpuTopology) (cpu : nat) : list nat :=
  default [] (steal_orders topo !! cpu).

Definition cpus_in_numa (topo : CpuTopology) (node : Z) : list Z :=
  logical_id <$> filter (fun c => numa_node c = node) (cpus topo).

(** ** Lemmas *)

Lemma other_cpus_elem (cs : list CpuInfo) (me : nat) (info : CpuInfo) (d : CacheDistance) (i : nat) :
  (d, i) ∈ other_cpus cs me info <-> i <> me /\ exists c, cs !! i = Some c /\ d = distance info c.
Proof.
  unfold other_cpus. rewrite list_elem_of_omap. split.
  - intros (j & Hj & H). case_decide as Hd; [done|].
    destruct (cs !! j) as [c|] eqn:E; simplify_eq/=. eauto.
  - intros (Hne & c & Hc & ->). exists i. split.
    + apply elem_of_seq. apply lookup_lt_Some in Hc. lia.
    + rewrite decide_False by done. by rewrite Hc.
Qed.

Lemma other_cpus_ids (cs : list CpuInfo) (me : nat) (info : CpuInfo) :
  (other_cpus cs me info).*2 = filter (fun i => i <> me) (seq 0 (length cs)).
Proof.
  unfold other_cpus. assert (forall i, i ∈ seq 0 (length cs) -> (i < length cs)%nat) as Hlt.
  { intros i Hi. apply elem_of_seq in Hi. lia. }
  set (F := fun other : nat => _ : option (CacheDistance * nat)).
  induction (seq 0 (length cs)) as [|i l IH]; [done|].
  assert (i < length cs)%nat as Hi by (apply Hlt; left).
  destruct (lookup_lt_is_Some_2 cs i Hi) as [c Hc].
  specialize (IH ltac:(intros j Hj; apply Hlt; by right)).
  change (omap F (i :: l)) with (match F i with Some y => y :: omap F l | None => omap F l end).
  unfold F at 1. rewrite filter_cons, Hc, <- IH. simpl.
  by destruct (decide (i = me)); [rewrite decide_False by tauto|rewrite decide_True by done].
Qed.

Lemma steal_order_from_cpus (cs : list CpuInfo) (me : nat) (info : CpuInfo) :
  cs !! me = Some info -> steal_order (from_cpus cs) me = steal_order_of cs me info.
Proof. intros H. unfold steal_order, from_cpus. simpl. by rewrite list_lookup_imap, H. Qed.

(** ** Theorem *)

(** An idle CPU looks at every other CPU exactly once, nearest first.  The steal
    order of a CPU is a permutation of all the other CPUs, and whenever one victim
    comes before another, its cache distance from the thief is no larger, and among
    victims at the same distance the lower id comes first. *)
Theorem steal_order_nearest_first (cs : list CpuInfo) (me : nat) (info : CpuInfo) :
  cs !! me = Some info ->
  Permutation (steal_order (from_cpus cs) me) (filter (fun i => i <> me) (seq 0 (length cs))) /\
  forall i j a b ca cb, (i < j)%nat ->
    steal_order (from_cpus cs) me !! i = Some a -> steal_order (from_cpus cs) me !! j = Some b ->
    cs !! a = Some ca -> cs !! b = Some cb ->
    steal_le (distance info ca, a) (distance info cb, b).
Proof.
  intros Hme. rewrite (steal_order_from_cpus _ _ _ Hme). unfold steal_order_of. split.
  - rewrite merge_sort_Permutation. by rewrite other_cpus_ids.
  - intros i j a b ca cb Hij Ha Hb Hca Hcb.
    pose proof (StronglySorted_merge_sort steal_le (other_cpus cs me info)) as Hs.
    set (l := merge_sort steal_le (other_cpus cs me info)) in *.
    apply list_lookup_fmap_Some in Ha as ([d1 a'] & -> & Ha).
    apply list_lookup_fmap_Some in Hb as ([d2 b'] & -> & Hb). simpl in *.
    assert (forall k d x, l !! k = Some (d, x) -> exists c, cs !! x = Some c /\ d = distance info c) as Hd.
    { intros k d x Hk. apply list_elem_of_lookup_2 in Hk. unfold l in Hk.
      rewrite merge_sort_Permutation in Hk. by apply other_cpus_elem in Hk as [_ ?]. }
    destruct (Hd _ _ _ Ha) as (c1 & Hc1 & ->). destruct (Hd _ _ _ Hb) as (c2 & Hc2 & ->). simplify_eq.
    apply list_elem_of_split_length in Ha as (l1 & l2 & Hl & Hi).
    rewrite Hl in Hs, Hb. apply StronglySorted_app_1_r in Hs. inversion Hs as [|? ? _ Hall]; subst.
    rewrite lookup_app_r in Hb by lia. rewrite lookup_cons_ne_0 in Hb by lia.
    rewrite Forall_forall in Hall. apply Hall. by eapply list_elem_of_lookup_2.
Qed.

Lemma steal_order_nearest_first_witness :
  steal_order (uniform 4) 0 = [1; 2; 3]%nat /\
  Permutation (steal_order (uniform 4) 0) (filter (fun i => i <> 0%nat) (seq 0 4)).
Proof.
  split; [vm_compute; reflexivity|].
  exact (proj1 (steal_order_nearest_first (cpus (uniform 4)) 0 (mkCpu 0 0 0 0 0) eq_refl)).
Defined.
