(* ===== verification/RunQueue.v ===== *)
(** * Per-CPU run queues

    [kernel/mks/src/runqueue.rs] and [stats.rs]: the queues of all scheduling classes
    of one CPU.  The monotonic clock is read from the hardware and enters as the
    argument [now]. *)

From S2P Require Import Prelude BTree SchedTask Eevdf RealTime.

Inductive SchedClassId : Type := CDeadline | CCompute | CRealTime | CNormal | CBatch | CIdle.

Definition class (p : SchedClass) : SchedClassId :=
  match p with
  | Deadline _ _ _ => CDeadline
  | Compute => CCompute
  | Fifo | RoundRobin _ => CRealTime
  | Normal => CNormal
  | Batch => CBatch
  | Idle => CIdle
  end.

Record CpuStats := mkStats {
  st_cpu_id : Z;
  st_context_switches : Z;
  run_time_ns : Z;
  idle_time_ns : Z;
  tasks_stolen_out : Z;
  tasks_stolen_in : Z;
  avg_wakeup_latency_ns : Z;
  max_wakeup_latency_ns : Z;
  deadline_misses : Z;
}.

Definition stats_new (cpu_id : Z) : CpuStats := mkStats cpu_id 0 0 0 0 0 0 0 0.

(** [record_switch(from, to)]; [from] is not looked at. *)
Definition record_switch (now wakeup_ns : Z) (s : CpuStats) : CpuStats :=
  let hit := (0 <? wakeup_ns) && (wakeup_ns <=? now) in
  let latency := now - wakeup_ns in
  mkStats (st_cpu_id s) (wrap64 (st_context_switches s + 1)) (run_time_ns s) (idle_time_ns s)
    (tasks_stolen_out s) (tasks_stolen_in s)
    (if hit then wrap64 (wrap64 (avg_wakeup_latency_ns s * 7) + latency) / 8 else avg_wakeup_latency_ns s)
    (if hit && (max_wakeup_latency_ns s <? latency) then latency else max_wakeup_latency_ns s)
    (deadline_misses s).

Record PerCpuRunQueue := mkRq {
  cpu_id : Z;
  deadline_rq : DeadlineRunQueue;
  rt_rq : RtRunQueue;
  cfs_rq : EevdfRunQueue;
  idle_rq : option TaskRef;
  load_count : Z;
  stats : CpuStats;
  current : option TaskRef;
  need_resched : bool;
}.

Definition rq_new (id : Z) : PerCpuRunQueue :=
  mkRq id dl_new rt_new eevdf_new None 0 (stats_new id) None false.

(** Field updates. *)
Definition set_deadline (q : DeadlineRunQueue) (rq : PerCpuRunQueue) : PerCpuRunQueue :=
  mkRq (cpu_id rq) q (rt_rq rq) (cfs_rq rq) (idle_rq rq) (load_count rq) (stats rq) (current rq) (need_resched rq).
Definition set_rt (q : RtRunQueue) (rq : PerCpuRunQueue) : PerCpuRunQueue :=
  mkRq (cpu_id rq) (deadline_rq rq) q (cfs_rq rq) (idle_rq rq) (load_count rq) (stats rq) (current rq) (need_resched rq).
Definition set_cfs (q : EevdfRunQueue) (rq : PerCpuRunQueue) : PerCpuRunQueue :=
  mkRq (cpu_id rq) (deadline_rq rq) (rt_rq rq) q (idle_rq rq) (load_count rq) (stats rq) (current rq) (need_resched rq).
Definition set_idle_task (t : TaskRef) (rq : PerCpuRunQueue) : PerCpuRunQueue :=
  mkRq (cpu_id rq) (deadline_rq rq) (rt_rq rq) (cfs_rq rq) (Some t) (load_count rq) (stats rq) (current rq) (need_resched rq).
Definition set_load (n : Z) (rq : PerCpuRunQueue) : PerCpuRunQueue :=
  mkRq (cpu_id rq) (deadline_rq rq) (rt_rq rq) (cfs_rq rq) (idle_rq rq) n (stats rq) (current rq) (need_resched rq).
Definition set_stats (s : CpuStats) (rq : PerCpuRunQueue) : PerCpuRunQueue :=
  mkRq (cpu_id rq) (deadline_rq rq) (rt_rq rq) (cfs_rq rq) (idle_rq rq) (load_count rq) s (current rq) (need_resched rq).
Definition set_cur (c : option TaskRef) (b : bool) (rq : PerCpuRunQueue) : PerCpuRunQueue :=
  mkRq (cpu_id rq) (deadline_rq rq) (rt_rq rq) (cfs_rq rq) (idle_rq rq) (load_count rq) (stats rq) c b.

(** [load_count.fetch_add(1)] and [fetch_sub(1)]. *)
Definition load_inc (rq : PerCpuRunQueue) : PerCpuRunQueue := set_load (wrap64 (load_count rq + 1)) rq.
Definition load_dec (rq : PerCpuRunQueue) : PerCpuRunQueue := set_load (wrap64 (load_count rq - 1)) rq.

Definition rq_enqueue (now : Z) (task : TaskRef) (ts : Tasks) (rq : PerCpuRunQueue)
    : outcome (Tasks * PerCpuRunQueue) :=
  match class (policy (sched_of ts task)) with
  | CDeadline =>
      let q := (dl_enqueue task now ts (deadline_rq rq)).2 in
      Done (ts, load_inc (set_deadline q rq))
  | CRealTime =>
      let* q := rt_enqueue task ts (rt_rq rq) in
      Done (ts, load_inc (set_rt q rq))
  | CCompute | CNormal | CBatch =>
      let '(ts', q) := eevdf_enqueue task true ts (cfs_rq rq) in
      Done (ts', load_inc (set_cfs q rq))
  | CIdle => Done (ts, set_idle_task task rq)
  end.

Definition rq_dequeue (task : TaskRef) (ts : Tasks) (rq : PerCpuRunQueue)
    : outcome (Tasks * PerCpuRunQueue) :=
  match class (policy (sched_of ts task)) with
  | CDeadline => Done (ts, load_dec (set_deadline (dl_dequeue task ts (deadline_rq rq)) rq))
  | CRealTime =>
      let* q := rt_dequeue task (rt_rq rq) in
      Done (ts, load_dec (set_rt q rq))
  | CCompute | CNormal | CBatch =>
      let '(ts', q) := eevdf_dequeue task ts (cfs_rq rq) in
      Done (ts', load_dec (set_cfs q rq))
  | CIdle => Done (ts, rq)
  end.

Definition rq_tick (elapsed_ns : Z) (ts : Tasks) (rq : PerCpuRunQueue) : Tasks * PerCpuRunQueue :=
  match current rq with
  | None => (ts, rq)
  | Some c =>
      let '(preempt, ts', rq') :=
        match class (policy (sched_of ts c)) with
        | CDeadline =>
            let '(b, q) := dl_tick c elapsed_ns (deadline_rq rq) in (b, ts, set_deadline q rq)
        | CRealTime => let '(b, ts') := rt_tick c elapsed_ns ts in (b, ts', rq)
        | CCompute | CNormal | CBatch =>
            let '(b, ts', q) := eevdf_tick c elapsed_ns ts (cfs_rq rq) in (b, ts', set_cfs q rq)
        | CIdle => (false, ts, rq)
        end in
      (ts', if (preempt : bool) then set_cur (current rq') true rq' else rq')
  end.

Definition yield_current (now : Z) (ts : Tasks) (rq : PerCpuRunQueue)
    : outcome (Tasks * PerCpuRunQueue) :=
  let rq' := set_cur None (need_resched rq) rq in
  match current rq with
  | None => Done (ts, rq')
  | Some t =>
      if decide (runstate (ts t) = Runnable) then rq_enqueue now t ts rq' else Done (ts, rq')
  end.

Definition set_last_cpu (c : Z) (s : TaskSchedInfo) : TaskSchedInfo :=
  mkSched (vruntime s) (ve s) (vdeadline s) (weight s) (wmult s) (nice s) (rt_priority s)
    (rr_timeslice_remaining s) (pinned_cpu s) (policy s) c (wakeup_time_ns s) (on_rq s) (exec_runtime s).

Definition set_current (task : TaskRef) (ts : Tasks) (rq : PerCpuRunQueue) : Tasks * PerCpuRunQueue :=
  (set_sched task (set_last_cpu (cpu_id rq) (sched_of ts task)) ts, set_cur (Some task) false rq).

Definition rq_steal_one (ts : Tasks) (rq : PerCpuRunQueue) : option TaskRef * PerCpuRunQueue :=
  match eevdf_steal_one ts (cfs_rq rq) with
  | (Some t, q) => (Some t, load_dec (set_cfs q rq))
  | (None, q) => (None, set_cfs q rq)
  end.

(** ** Invariant *)

Record rq_wf (ts : Tasks) (rq : PerCpuRunQueue) : Prop := {
  rq_dl : dl_wf ts (deadline_rq rq);
  rq_rt : rt_wf (rt_rq rq);
  rq_cfs : eevdf_wf ts (cfs_rq rq);
}.

Lemma rq_new_wf (ts : Tasks) (id : Z) : rq_wf ts (rq_new id).
Proof. split; [apply dl_new_wf|apply rt_new_wf|apply eevdf_new_wf]. Qed.

(** All tasks that wait on this CPU. *)
Definition rq_waiting (rq : PerCpuRunQueue) : list TaskRef :=
  (dl_task <$> (dl_tasks (deadline_rq rq)).*2) ++ rt_queued (rt_rq rq) ++ queued (cfs_rq rq).

(** ** Departures *)

Definition dl_demo : Tasks := fun _ => mkTask Runnable
  (mkSched 0 0 0 1024 4194304 0 0 100000000 None (Deadline 5000000 10000000 10000000) 0 0 false 0).

(** A deadline task that yields can be lost.  [yield_current] takes the running
    task out of [current] and re-enqueues it, but the admission control of the deadline
    queue still counts its bandwidth and refuses it, and the error is ignored: a
    runnable task with a share of 50 percent that is picked and yields is afterwards
    neither current nor in any queue of the CPU, while the load counter went up. *)
Theorem yielding_deadline_task_is_lost :
  let ts := dl_demo in
  exists rq1 ts2 rq2 ts3 rq3,
    rq_enqueue 0 1 ts (rq_new 0) = Done (ts, rq1) /\
    (dl_pick_next ts (deadline_rq rq1)).1 = Some 1 /\
    set_current 1 ts (set_deadline (dl_pick_next ts (deadline_rq rq1)).2 rq1) = (ts2, rq2) /\
    yield_current 1000 ts2 rq2 = Done (ts3, rq3) /\
    runstate (ts3 1) = Runnable /\ current rq3 = None /\ rq_waiting rq3 = [] /\ load_count rq3 = 2.
Proof.
  eexists _, _, _, _, _. split; [vm_compute; reflexivity|]. split; [vm_compute; reflexivity|].
  split; [reflexivity|]. split; [vm_compute; reflexivity|].
  split_and!; vm_compute; reflexivity.
Qed.

Definition rr_demo : Tasks := fun _ => mkTask Runnable
  (mkSched 0 0 0 1024 4194304 0 50 100000000 None (RoundRobin 0) 0 0 false 0).

(** A round-robin task that yields is queued twice.  [pick_next] of the real-time
    queue keeps a round-robin task in its queue, and [yield_current] enqueues it
    again, so after one pick and yield the task waits twice on the same CPU. *)
Theorem yielding_round_robin_task_is_duplicated :
  let ts := rr_demo in
  exists rq1 q ts2 rq2 ts3 rq3,
    rq_enqueue 0 1 ts (rq_new 0) = Done (ts, rq1) /\
    rt_pick_next ts (rt_rq rq1) = Done (Some 1, q) /\
    set_current 1 ts (set_rt q rq1) = (ts2, rq2) /\
    yield_current 1000 ts2 rq2 = Done (ts3, rq3) /\
    rq_waiting rq3 = [1; 1].
Proof.
  eexists _, _, _, _, _, _. split; [vm_compute; reflexivity|]. split; [vm_compute; reflexivity|].
  split; [reflexivity|]. split; [vm_compute; reflexivity|]. vm_compute; reflexivity.
Qed.
