(* ===== verification/Mks.v ===== *)
(** * The scheduler

    [kernel/mks/src/lib.rs]: the run queues of all CPUs, placement of tasks on CPUs,
    the choice of the next task across scheduling classes, and work stealing. *)

From S2P Require Import Prelude BTree SchedTask Eevdf RealTime Topology RunQueue.

Record MaiScheduler := mkMks {
  rqs : list PerCpuRunQueue;
  topology_rw : CpuTopology;
  num_cpus : nat;
  global_task_count : Z;
  context_switches : Z;
}.

Definition mks_new (n : nat) (topo : CpuTopology) : MaiScheduler :=
  mkMks ((fun i => rq_new (Z.of_nat i)) <$> seq 0 n) topo n 0 0.

(** [expand]: run queues for the CPUs from the old count on. *)
Definition expand (n : nat) (topo : CpuTopology) (s : MaiScheduler) : MaiScheduler :=
  mkMks (rqs s ++ ((fun i => rq_new (Z.of_nat i)) <$> seq (length (rqs s)) (n - length (rqs s))))
    topo n (global_task_count s) (context_switches s).

Definition set_rqs (l : list PerCpuRunQueue) (s : MaiScheduler) : MaiScheduler :=
  mkMks l (topology_rw s) (num_cpus s) (global_task_count s) (context_switches s).

Definition set_task_count (n : Z) (s : MaiScheduler) : MaiScheduler :=
  mkMks (rqs s) (topology_rw s) (num_cpus s) n (context_switches s).

(** ** Placement *)

Definition total_load (l : list PerCpuRunQueue) : Z := wrap64 (sum_of load_count l).

Definition average_load_rqs (l : list PerCpuRunQueue) (nc : nat) : Z :=
  if decide (nc = 0)%nat then 0 else total_load l / Z.of_nat nc.

(** Same-node CPUs get a discount of 20 percent. *)
Definition adjusted_load (topo : CpuTopology) (preferred_node : Z) (cpu : nat) (rq : PerCpuRunQueue) : Z :=
  if cpu_to_numa topo cpu =? preferred_node then wrap64 (load_count rq * 4) / 5 else load_count rq.

(** One iteration of the [for cpu in 0..nc] loop. *)
Definition better_cpu (topo : CpuTopology) (node : Z) (l : list PerCpuRunQueue)
    (best : nat * Z) (cpu : nat) : nat * Z :=
  match l !! cpu with
  | Some rq => let a := adjusted_load topo node cpu rq in if a <? best.2 then (cpu, a) else best
  | None => best
  end.

Definition least_loaded (topo : CpuTopology) (node : Z) (l : list PerCpuRunQueue) (nc : nat) : nat :=
  (foldl (better_cpu topo node l) (0%nat, U64_MAX) (seq 0 nc)).1.

Definition select_cpu_for_task (task : TaskRef) (ts : Tasks) (s : MaiScheduler) : outcome nat :=
  let t := sched_of ts task in
  let nc := num_cpus s in
  match pinned_cpu t with
  | Some cpu => Done (Nat.min (Z.to_nat cpu) (nc - 1))
  | None =>
      let last := Z.to_nat (last_cpu t) in
      let fallback := least_loaded (topology_rw s) (cpu_to_numa (topology_rw s) last) (rqs s) nc in
      if decide (last < nc)%nat then
        let* rq := expect (rqs s !! last) in
        if load_count rq <=? wrap64 (average_load_rqs (rqs s) nc + 1) then Done last else Done fallback
      else Done fallback
  end.

Definition mks_enqueue (now : Z) (task : TaskRef) (ts : Tasks) (s : MaiScheduler)
    : outcome (Tasks * MaiScheduler) :=
  let* cpu := select_cpu_for_task task ts s in
  let* rq := expect (rqs s !! cpu) in
  let* (ts', rq') := rq_enqueue now task ts rq in
  Done (ts', set_task_count (wrap64 (global_task_count s + 1)) (set_rqs (<[cpu := rq']> (rqs s)) s)).

Definition mks_dequeue (task : TaskRef) (ts : Tasks) (s : MaiScheduler) : outcome (Tasks * MaiScheduler) :=
  let cpu := Z.to_nat (last_cpu (sched_of ts task)) in
  let* (ts', s') :=
    if decide (cpu < num_cpus s)%nat then
      let* rq := expect (rqs s !! cpu) in
      let* (ts', rq') := rq_dequeue task ts rq in
      Done (ts', set_rqs (<[cpu := rq']> (rqs s)) s)
    else Done (ts, s) in
  Done (ts', set_task_count (wrap64 (global_task_count s' - 1)) s').

(** ** Picking and stealing *)

Fixpoint steal_from (order : list nat) (thief : nat) (ts : Tasks) (l : list PerCpuRunQueue)
    : option TaskRef * list PerCpuRunQueue :=
  match order with
  | [] => (None, l)
  | victim :: rest =>
      if decide (victim = thief) then steal_from rest thief ts l
      else
        match l !! victim with
        | None => steal_from rest thief ts l
        | Some rq =>
            if 2 <=? load_count rq then
              match rq_steal_one ts rq with
              | (Some t, rq') => (Some t, <[victim := rq']> l)
              | (None, rq') => steal_from rest thief ts (<[victim := rq']> l)
              end
            else steal_from rest thief ts l
        end
  end.

Definition steal_task (thief : nat) (ts : Tasks) (s : MaiScheduler) : option TaskRef * MaiScheduler :=
  let '(o, l) := steal_from (steal_order (topology_rw s) thief) thief ts (rqs s) in (o, set_rqs l s).

Definition mks_pick_next (cpu : nat) (ts : Tasks) (s : MaiScheduler)
    : outcome (option TaskRef * MaiScheduler) :=
  let* rq := expect (rqs s !! cpu) in
  let '(od, dq) := dl_pick_next ts (deadline_rq rq) in
  let rq := set_deadline dq rq in
  match od with
  | Some t => Done (Some t, set_rqs (<[cpu := rq]> (rqs s)) s)
  | None =>
      let* (ort, rtq) := rt_pick_next ts (rt_rq rq) in
      let rq := set_rt rtq rq in
      match ort with
      | Some t => Done (Some t, set_rqs (<[cpu := rq]> (rqs s)) s)
      | None =>
          let '(oc, cq) := eevdf_pick_next ts (cfs_rq rq) in
          let rq := set_cfs cq rq in
          let s := set_rqs (<[cpu := rq]> (rqs s)) s in
          match oc with
          | Some t => Done (Some t, s)
          | None =>
              match steal_task cpu ts s with
              | (Some t, s') => Done (Some t, s')
              | (None, s') =>
                  let* rq := expect (rqs s' !! cpu) in
                  Done (idle_rq rq, s')
              end
          end
      end
  end.

(** ** Wakeups, ticks, statistics *)

Definition set_vruntime (v : Z) (s : TaskSchedInfo) : TaskSchedInfo :=
  mkSched v (ve s) (vdeadline s) (weight s) (wmult s) (nice s) (rt_priority s)
    (rr_timeslice_remaining s) (pinned_cpu s) (policy s) (last_cpu s) (wakeup_time_ns s)
    (on_rq s) (exec_runtime s).

Definition task_wakeup (now : Z) (task : TaskRef) (cpu : nat) (ts : Tasks) (s : MaiScheduler)
    : outcome (Tasks * MaiScheduler) :=
  let sc := sched_of ts task in
  let sc' := match rqs s !! cpu with
             | Some rq =>
                 let floor := sat_sub (min_vruntime (cfs_rq rq)) (SCHED_LATENCY_NS / 2) in
                 if vruntime sc <? floor then set_vruntime floor sc else sc
             | None => sc
             end in
  mks_enqueue now task (set_task task (mkTask Runnable sc') ts) s.

Definition mks_tick (cpu : nat) (elapsed_ns : Z) (ts : Tasks) (s : MaiScheduler) : Tasks * MaiScheduler :=
  match rqs s !! cpu with
  | Some rq => let '(ts', rq') := rq_tick elapsed_ns ts rq in (ts', set_rqs (<[cpu := rq']> (rqs s)) s)
  | None => (ts, s)
  end.

Definition record_context_switch (now : Z) (cpu : nat) (to : TaskRef) (ts : Tasks) (s : MaiScheduler)
    : MaiScheduler :=
  let l := match rqs s !! cpu with
           | Some rq => <[cpu := set_stats (record_switch now (wakeup_time_ns (sched_of ts to)) (stats rq)) rq]> (rqs s)
           | None => rqs s
           end in
  mkMks l (topology_rw s) (num_cpus s) (global_task_count s) (wrap64 (context_switches s + 1)).

(** ** Lemmas *)

(** The entry with the earliest deadline has budget left.  [pick_next] looks at no other
    entry. *)
Definition dl_ready (q : DeadlineRunQueue) : Prop :=
  exists k e m, dl_tasks q = (k, e) :: m /\ budget_remaining e <> 0.

Lemma steal_one_None (ts : Tasks) (q q' : EevdfRunQueue) :
  eevdf_wf ts q -> eevdf_steal_one ts q = (None, q') -> q' = q.
Proof.
  intros Hwf H. unfold eevdf_steal_one in H. case_in H; [by simplify_eq|].
  destruct (bt_last (ineligible q)) as [[k t]|] eqn:El.
  { destruct (bt_remove_elem k t (ineligible q)) as [m' Em]; [apply Hwf| |].
    - apply last_Some in El as [l ->]. apply elem_of_app. right. left.
    - rewrite Em in H. done. }
  destruct (bt_last (eligible q)) as [[k t]|] eqn:El'; [|by simplify_eq].
  destruct (bt_remove_elem k t (eligible q)) as [m' Em]; [apply Hwf| |].
  - apply last_Some in El' as [l ->]. apply elem_of_app. right. left.
  - rewrite Em in H. done.
Qed.

Lemma steal_one_Some (ts : Tasks) (q q' : EevdfRunQueue) (t : TaskRef) :
  eevdf_steal_one ts q = (Some t, q') -> t ∈ queued q.
Proof.
  intros H. unfold eevdf_steal_one in H. case_in H; [done|]. unfold queued. rewrite elem_of_app.
  destruct (bt_last (ineligible q)) as [[k x]|].
  { destruct (bt_remove k (ineligible q)) as [o m] eqn:Em. simplify_eq.
    right. rewrite (tasks_remove _ _ _ _ Em). left. }
  destruct (bt_last (eligible q)) as [[k x]|]; [|done].
  destruct (bt_remove k (eligible q)) as [[y|] m] eqn:Em; simplify_eq.
  left. rewrite (tasks_remove _ _ _ _ Em). left.
Qed.

(** Stealing takes a task from the fair queue of another CPU with at least two tasks,
    and changes nothing otherwise. *)
Lemma steal_from_ok (order : list nat) (thief : nat) (ts : Tasks) (l : list PerCpuRunQueue) o l' :
  (forall v rq, v <> thief -> l !! v = Some rq -> eevdf_wf ts (cfs_rq rq)) ->
  steal_from order thief ts l = (o, l') ->
  l' !! thief = l !! thief /\
  match o with
  | None => l' = l
  | Some t => exists v rq rq', v ∈ order /\ v <> thief /\ l !! v = Some rq /\ 2 <= load_count rq /\
      t ∈ queued (cfs_rq rq) /\ l' = <[v := rq']> l
  end.
Proof.
  intros Hwf. induction order as [|v order IH]; intros H; simpl in H; [by simplify_eq|].
  assert (steal_from order thief ts l = (o, l') ->
    l' !! thief = l !! thief /\
    match o with
    | None => l' = l
    | Some t => exists v0 rq rq', v0 ∈ v :: order /\ v0 <> thief /\ l !! v0 = Some rq /\ 2 <= load_count rq /\
        t ∈ queued (cfs_rq rq) /\ l' = <[v0 := rq']> l
    end) as Hnext.
  { intros E. destruct (IH E) as [H1 H2]. split; [done|]. destruct o as [t|]; [|done].
    destruct H2 as (v0 & rq & rq' & Hin & H2). exists v0, rq, rq'. split; [by right|done]. }
  case_decide as Hv; [by apply Hnext|]. destruct (l !! v) as [rq|] eqn:El; [|by apply Hnext].
  destruct (Z.leb_spec 2 (load_count rq)) as [Hload|]; [|by apply Hnext].
  unfold rq_steal_one in H. destruct (eevdf_steal_one ts (cfs_rq rq)) as [[t|] q] eqn:Es.
  - simplify_eq. split; [by apply list_lookup_insert_ne|].
    eexists v, rq, _. split_and!; [left|done|done|done|by eapply steal_one_Some|done].
  - apply steal_one_None in Es; [|by eapply Hwf]. subst q.
    assert (set_cfs (cfs_rq rq) rq = rq) as Hid by (by destruct rq). rewrite Hid in H.
    rewrite list_insert_id in H by done. by apply Hnext.
Qed.

(** The state of the search for the least loaded CPU after the CPUs [cs]. *)
Lemma better_cpu_ok (topo : CpuTopology) (node : Z) (l : list PerCpuRunQueue) (cs : list nat) (b0 : nat * Z) b :
  foldl (better_cpu topo node l) b0 cs = b ->
  (forall c rq, c ∈ cs -> l !! c = Some rq -> b.2 <= adjusted_load topo node c rq) /\ b.2 <= b0.2 /\
  (b = b0 \/ exists rq, b.1 ∈ cs /\ l !! b.1 = Some rq /\ b.2 = adjusted_load topo node b.1 rq).
Proof.
  revert b0. induction cs as [|c cs IH]; intros b0 H; simpl in H.
  - subst. split; [by intros c rq Hc; inversion Hc|]. split; [lia|by left].
  - destruct (IH _ H) as (H1 & H2 & H3). unfold better_cpu in H2, H3.
    destruct (l !! c) as [rq|] eqn:El.
    + destruct (Z.ltb_spec (adjusted_load topo node c rq) b0.2) as [Hlt|Hge]; simpl in H2, H3.
      * split; [|split; [lia|]].
        -- intros c' rq' Hc' Hrq'. apply elem_of_cons in Hc' as [->|Hc']; [simplify_eq; lia|by apply H1].
        -- right. destruct H3 as [->|(rq' & Hin & Hl & Ha)]; [exists rq; simpl; split; [left|done]|].
           exists rq'. split; [by right|done].
      * split; [|split; [lia|]].
        -- intros c' rq' Hc' Hrq'. apply elem_of_cons in Hc' as [->|Hc']; [simplify_eq; lia|by apply H1].
        -- destruct H3 as [->|(rq' & Hin & Hl & Ha)]; [by left|]. right. exists rq'. split; [by right|done].
    + split; [|split; [lia|]].
      * intros c' rq' Hc' Hrq'. apply elem_of_cons in Hc' as [->|Hc']; [by simplify_eq|by apply H1].
      * destruct H3 as [->|(rq' & Hin & Hl & Ha)]; [by left|]. right. exists rq'. split; [by right|done].
Qed.

Lemma adjusted_load_u64 (topo : CpuTopology) (node : Z) (c : nat) (rq : PerCpuRunQueue) :
  in_u64 (load_count rq) -> adjusted_load topo node c rq <= U64_MAX.
Proof.
  intros [H1 H2]. unfold adjusted_load. case_match; [|done].
  pose proof (wrap64_in (load_count rq * 4)) as [? ?]. apply Z.div_le_upper_bound; [lia|]. lia.
Qed.

Lemma least_loaded_ok (topo : CpuTopology) (node : Z) (l : list PerCpuRunQueue) (nc : nat) :
  (0 < nc <= length l)%nat -> Forall (fun rq => in_u64 (load_count rq)) l ->
  (least_loaded topo node l nc < nc)%nat /\
  forall c rq rqb, (c < nc)%nat -> l !! c = Some rq -> l !! least_loaded topo node l nc = Some rqb ->
    adjusted_load topo node (least_loaded topo node l nc) rqb <= adjusted_load topo node c rq.
Proof.
  intros Hnc Hu. unfold least_loaded.
  destruct (better_cpu_ok topo node l (seq 0 nc) (0%nat, U64_MAX) _ eq_refl) as (H1 & H2 & H3).
  set (b := foldl _ _ _) in *. clearbody b. split.
  - destruct H3 as [->|(rq & Hin & _)]; [simpl; lia|]. apply elem_of_seq in Hin. lia.
  - intros c rq rqb Hc Hrq Hb. assert (c ∈ seq 0 nc) as Hin by (apply elem_of_seq; lia).
    specialize (H1 c rq Hin Hrq). rewrite Forall_lookup in Hu. pose proof (Hu _ _ Hb) as Hbu.
    pose proof (adjusted_load_u64 topo node b.1 rqb Hbu).
    destruct H3 as [->|(rq' & _ & Hl & Ha)]; simpl in *; [lia|]. simplify_eq. lia.
Qed.

(** What a CPU may run when its own queues have nothing ready: a task of another CPU
    that has at least two, or the idle task. *)
Definition fallback (ts : Tasks) (s : MaiScheduler) (cpu : nat) (rq : PerCpuRunQueue) (o : option TaskRef) : Prop :=
  o = idle_rq rq \/
  exists v vrq t, v <> cpu /\ v ∈ steal_order (topology_rw s) cpu /\ rqs s !! v = Some vrq /\
    2 <= load_count vrq /\ o = Some t /\ t ∈ queued (cfs_rq vrq).

Lemma pick_fallback (ts : Tasks) (s : MaiScheduler) (cpu : nat) (rq rq' : PerCpuRunQueue) :
  rqs s !! cpu = Some rq -> Forall (rq_wf ts) (rqs s) -> idle_rq rq' = idle_rq rq ->
  exists o s',
    match steal_task cpu ts (set_rqs (<[cpu := rq']> (rqs s)) s) with
    | (Some t, s') => Done (Some t, s')
    | (None, s') => let* rq := expect (rqs s' !! cpu) in Done (idle_rq rq, s')
    end = Done (o, s') /\ fallback ts s cpu rq o.
Proof.
  intros Hrq Hwf Hidle. unfold steal_task. simpl rqs. simpl topology_rw.
  destruct (steal_from _ cpu ts (<[cpu := rq']> (rqs s))) as [o l] eqn:E.
  apply steal_from_ok in E as [Hth Ho].
  2:{ intros v vrq Hv Hl. rewrite list_lookup_insert_ne in Hl by done.
      rewrite Forall_lookup in Hwf. apply (Hwf _ _ Hl). }
  apply lookup_lt_Some in Hrq as Hlt. rewrite list_lookup_insert_eq in Hth by done.
  destruct o as [t|].
  - eexists _, _. split; [done|]. right. destruct Ho as (v & vrq & vrq' & Hin & Hv & Hl & Hld & Ht & _).
    rewrite list_lookup_insert_ne in Hl by done. exists v, vrq, t. done.
  - simpl rqs. rewrite Hth. simpl. eexists _, _. split; [done|]. by left.
Qed.


(** Tasks are placed on a CPU that exists, by the placement policy.  With at least
    one CPU and a run queue for each, [select_cpu_for_task] returns a valid CPU: the
    pinned CPU if the task has one (cut to the last CPU), otherwise the CPU the task last
    ran on if its load is at most one above the average, otherwise a CPU of minimal
    load, where CPUs of the task's NUMA node count for four fifths. *)
Theorem select_cpu_follows_policy (task : TaskRef) (ts : Tasks) (s : MaiScheduler) :
  (0 < num_cpus s <= length (rqs s))%nat -> Forall (fun rq => in_u64 (load_count rq)) (rqs s) ->
  let t := sched_of ts task in
  let last := Z.to_nat (last_cpu t) in
  let node := cpu_to_numa (topology_rw s) last in
  exists c, select_cpu_for_task task ts s = Done c /\ (c < num_cpus s)%nat /\
    match pinned_cpu t with
    | Some p => c = Nat.min (Z.to_nat p) (num_cpus s - 1)
    | None =>
        (exists rq, c = last /\ rqs s !! last = Some rq /\
           load_count rq <= wrap64 (average_load_rqs (rqs s) (num_cpus s) + 1)) \/
        (forall c' rq rqc, (c' < num_cpus s)%nat -> rqs s !! c' = Some rq -> rqs s !! c = Some rqc ->
           adjusted_load (topology_rw s) node c rqc <= adjusted_load (topology_rw s) node c' rq)
    end.
Proof.
  intros Hnc Hu t last node. unfold select_cpu_for_task. fold t. fold last. fold node.
  destruct (pinned_cpu t) as [p|] eqn:Ep.
  { eexists. split; [done|]. split; [lia|done]. }
  destruct (least_loaded_ok (topology_rw s) node (rqs s) (num_cpus s) Hnc Hu) as [Hlt Hmin].
  set (c0 := least_loaded _ _ _ _) in *. cbv zeta.
  destruct (decide (last < num_cpus s)%nat) as [Hlast|Hlast].
  - destruct (lookup_lt_is_Some_2 (rqs s) last) as [rq Hrq]; [lia|]. rewrite Hrq. simpl.
    destruct (Z.leb_spec (load_count rq) (wrap64 (average_load_rqs (rqs s) (num_cpus s) + 1))).
    + exists last. split_and!; [done|done|]. left. eauto.
    + exists c0. split_and!; [done|done|]. by right.
  - exists c0. split_and!; [done|done|]. by right.
Qed.

(** ** Examples *)

Module MksDemo.

Definition ts : Tasks := fun _ => task_new.

(** Two CPUs, nothing queued. *)
Definition s : MaiScheduler := mks_new 2 (uniform 2).

Lemma s_wf : Forall (rq_wf ts) (rqs s).
Proof. repeat (apply Forall_cons; split; [apply rq_new_wf|]). constructor. Qed.

Lemma s_loads : Forall (fun rq => in_u64 (load_count rq)) (rqs s).
Proof. repeat constructor; simpl; unfold U64_MAX; lia. Qed.

End MksDemo.

(** On CPU 1: the deadline task 10 has used up its budget, the deadline task 11 with a later
    deadline has not, the real-time task 20 and the normal task 30 wait. *)
Module ClassDemo.

Definition policy_of (t : TaskRef) : SchedClass :=
  if t <? 20 then Deadline 5 100 100 else if t <? 30 then Fifo else Normal.

Definition ts0 : Tasks := fun t => mkTask Runnable (mkSched 0 0 0 1024 4194304 0 7 100000000 None (policy_of t) 0 0 false 0).

Definition fair : Tasks * EevdfRunQueue := eevdf_enqueue 30 true ts0 eevdf_new.
Definition ts : Tasks := fair.1.

Definition dlq : DeadlineRunQueue := mkDlq [((100, 10), mkDl 10 100 0); ((150, 11), mkDl 11 150 5)] 100 2.
Definition rtq : RtRunQueue := match rt_enqueue 20 ts rt_new with Done q => q | Panic => rt_new end.

Definition rq : PerCpuRunQueue := set_deadline dlq (set_rt rtq (set_cfs fair.2 (rq_new 1))).
Definition s : MaiScheduler := mkMks [rq_new 0; rq] (uniform 2) 2 4 0.

Lemma rq_ok : rq_wf ts rq.
Proof.
  split.
  - split; [repeat constructor|repeat constructor|vm_compute; split; discriminate].
  - apply (rt_reachable_wf ts). apply rtc_once. apply (rs_enqueue ts rt_new 20); [done|]. vm_compute. reflexivity.
  - apply (enqueue_wf ts0 eevdf_new 30 true); [apply eevdf_new_wf|apply not_elem_of_nil|apply surjective_pairing].
Qed.

Lemma class_queues_wf : Forall (rq_wf ts) (rqs s).
Proof. apply Forall_cons. split; [apply rq_new_wf|]. apply Forall_cons. split; [apply rq_ok|constructor]. Qed.

End ClassDemo.


(** A deadline task with budget left is not run while the head of the deadline queue has
    none: the real-time task of lower class runs. *)
Example exhausted_head_hides_deadline_task :
  match mks_pick_next 1 ClassDemo.ts ClassDemo.s with
  | Done (o, s') => o = Some 20 /\
      option_map (fun rq => dl_task <$> (dl_tasks (deadline_rq rq)).*2) (rqs s' !! 1%nat) = Some [11; 10]
  | Panic => False
  end.
Proof. vm_compute. auto. Qed.

Lemma select_cpu_follows_policy_witness :
  exists c, select_cpu_for_task 5 MksDemo.ts MksDemo.s = Done c /\ (c < 2)%nat.
Proof.
  destruct (select_cpu_follows_policy 5 MksDemo.ts MksDemo.s) as (c & E & Hc & _).
  - simpl. lia.
  - apply MksDemo.s_loads.
  - exists c. split; [exact E|exact Hc].
Defined.
