(* ===== verification/EpochSched.v ===== *)
(** * The epoch scheduler

    [kernel/scheduler_epoch/src/lib.rs]: tokens are dealt out to the runnable tasks in
    proportion to their priorities; a pick costs a token and moves the task to the end
    of the queue; when no runnable task has a token left a new epoch begins. *)

From S2P Require Import Prelude SchedTask.

Definition MAX_PRIORITY : Z := 40.
Definition DEFAULT_PRIORITY : Z := 20.
Definition INITIAL_TOKENS : Z := 10.

Record EpochTaskRef := mkEpoch { ep_task : TaskRef; ep_priority : Z; tokens_remaining : Z }.

Definition epoch_task_new (t : TaskRef) : EpochTaskRef := mkEpoch t DEFAULT_PRIORITY INITIAL_TOKENS.

Record EpochScheduler := mkEpochSched { idle_task : TaskRef; queue : list EpochTaskRef }.

Definition epoch_new (idle : TaskRef) : EpochScheduler := mkEpochSched idle [].

(** [Task::is_runnable]. *)
Definition is_runnable (ts : Tasks) (t : TaskRef) : bool := bool_decide (runstate (ts t) = Runnable).

Definition set_queue (q : list EpochTaskRef) (s : EpochScheduler) : EpochScheduler :=
  mkEpochSched (idle_task s) q.

Definition update_and_move_to_end (index : nat) (tokens : Z) (s : EpochScheduler)
    : option TaskRef * EpochScheduler :=
  match queue s !! index with
  | Some e =>
      (Some (ep_task e),
       set_queue (delete index (queue s) ++ [mkEpoch (ep_task e) (ep_priority e) tokens]) s)
  | None => (None, s)
  end.

Definition has_turn (ts : Tasks) (e : EpochTaskRef) : bool :=
  is_runnable ts (ep_task e) && (0 <? tokens_remaining e).

Definition try_next (ts : Tasks) (s : EpochScheduler) : option TaskRef * EpochScheduler :=
  match find_index (has_turn ts) (queue s) with
  | Some i =>
      let tokens := match queue s !! i with Some e => tokens_remaining e | None => 0 end in
      update_and_move_to_end i (tokens - 1) s
  | None => (None, s)
  end.

(** The runnable tasks other than the idle task, and their weights. *)
Definition competes (ts : Tasks) (idle : TaskRef) (e : EpochTaskRef) : bool :=
  is_runnable ts (ep_task e) && negb (bool_decide (ep_task e = idle)).

Definition token_weight (e : EpochTaskRef) : Z := sat_add (ep_priority e) 1.

Definition epoch_weight (ts : Tasks) (idle : TaskRef) (q : list EpochTaskRef) : Z :=
  wrap64 (sum_of (fun e => if competes ts idle e then token_weight e else 0) q).

Definition deal (ts : Tasks) (idle : TaskRef) (epoch total : Z) (e : EpochTaskRef) : EpochTaskRef :=
  mkEpoch (ep_task e) (ep_priority e)
    (if competes ts idle e then sat_mul epoch (token_weight e) / total else 0).

Definition assign_tokens (ts : Tasks) (s : EpochScheduler) : EpochScheduler :=
  let total := epoch_weight ts (idle_task s) (queue s) in
  if total =? 0 then s
  else set_queue (deal ts (idle_task s) (Z.max total 100) total <$> queue s) s.

Definition epoch_next (ts : Tasks) (s : EpochScheduler) : TaskRef * EpochScheduler :=
  match try_next ts s with
  | (Some t, s') => (t, s')
  | (None, s') =>
      match try_next ts (assign_tokens ts s') with
      | (Some t, s'') => (t, s'')
      | (None, s'') => (idle_task s, s'')
      end
  end.

Definition epoch_add (t : TaskRef) (s : EpochScheduler) : EpochScheduler :=
  set_queue (queue s ++ [epoch_task_new t]) s.

Definition epoch_busyness (s : EpochScheduler) : nat := length (queue s).

Definition epoch_remove (t : TaskRef) (s : EpochScheduler) : bool * EpochScheduler :=
  match find_index (fun e => bool_decide (ep_task e = t)) (queue s) with
  | Some i => (true, set_queue (delete i (queue s)) s)
  | None => (false, s)
  end.

Definition epoch_tasks (s : EpochScheduler) : list TaskRef := ep_task <$> queue s.

Definition epoch_drain (s : EpochScheduler) : list TaskRef * EpochScheduler :=
  (epoch_tasks s, set_queue [] s).

Fixpoint set_first_priority (t : TaskRef) (p : Z) (q : list EpochTaskRef) : bool * list EpochTaskRef :=
  match q with
  | [] => (false, [])
  | e :: q' =>
      if bool_decide (ep_task e = t) then (true, mkEpoch (ep_task e) p (tokens_remaining e) :: q')
      else let '(b, r) := set_first_priority t p q' in (b, e :: r)
  end.

Definition epoch_set_priority (t : TaskRef) (priority : Z) (s : EpochScheduler) : bool * EpochScheduler :=
  let '(b, q) := set_first_priority t (Z.min priority MAX_PRIORITY) (queue s) in (b, set_queue q s).

Definition epoch_priority (t : TaskRef) (s : EpochScheduler) : option Z :=
  ep_priority <$> find (fun e => bool_decide (ep_task e = t)) (queue s).

(** ** Lemmas *)

Lemma try_next_cases (ts : Tasks) (s : EpochScheduler) :
  (try_next ts s = (None, s) /\ Forall (fun e => has_turn ts e = false) (queue s)) \/
  exists i e, queue s !! i = Some e /\ has_turn ts e = true /\
    (forall j e', (j < i)%nat -> queue s !! j = Some e' -> has_turn ts e' = false) /\
    try_next ts s = (Some (ep_task e),
      set_queue (delete i (queue s) ++ [mkEpoch (ep_task e) (ep_priority e) (tokens_remaining e - 1)]) s).
Proof.
  unfold try_next. destruct (find_index (has_turn ts) (queue s)) as [i|] eqn:E.
  - right. apply find_index_Some in E as [(e & He & Ht) Hlt]. exists i, e.
    split_and!; auto. unfold update_and_move_to_end. by rewrite He.
  - left. split; [done|]. by apply find_index_None.
Qed.

(** The tasks returned by [n] successive calls of [next]. *)
Fixpoint epoch_picks (n : nat) (ts : Tasks) (s : EpochScheduler) : list TaskRef :=
  match n with
  | O => []
  | S n' => let '(t, s') := epoch_next ts s in t :: epoch_picks n' ts s'
  end.

(** Priorities are 8-bit values, and the queue is short enough for the sums of the
    weights not to wrap around. *)
Definition epoch_ok (s : EpochScheduler) : Prop :=
  Forall (fun e => 0 <= ep_priority e <= 255) (queue s) /\ Z.of_nat (length (queue s)) < 2 ^ 32.

Lemma token_weight_bounds (e : EpochTaskRef) : 0 <= ep_priority e <= 255 -> 1 <= token_weight e <= 256.
Proof. unfold token_weight, sat_add, U64_MAX. lia. Qed.

Lemma weight_sum_bound (ts : Tasks) (idle : TaskRef) (q : list EpochTaskRef) :
  Forall (fun e => 0 <= ep_priority e <= 255) q ->
  0 <= sum_of (fun e => if competes ts idle e then token_weight e else 0) q <= 256 * Z.of_nat (length q).
Proof.
  induction 1 as [|e q He _ IH]; simpl; [lia|]. pose proof (token_weight_bounds e He).
  destruct (competes ts idle e); lia.
Qed.

Lemma epoch_weight_eq (ts : Tasks) (s : EpochScheduler) :
  epoch_ok s ->
  epoch_weight ts (idle_task s) (queue s) =
    sum_of (fun e => if competes ts (idle_task s) e then token_weight e else 0) (queue s).
Proof.
  intros [Hp Hl]. unfold epoch_weight. apply wrap64_id. unfold in_u64, U64_MAX.
  pose proof (weight_sum_bound ts (idle_task s) _ Hp). lia.
Qed.

Lemma weight_le_total (ts : Tasks) (idle : TaskRef) (q : list EpochTaskRef) (e : EpochTaskRef) :
  Forall (fun e => 0 <= ep_priority e <= 255) q -> e ∈ q -> competes ts idle e = true ->
  token_weight e <= sum_of (fun e => if competes ts idle e then token_weight e else 0) q.
Proof.
  intros Hp Hin Hc. induction Hp as [|x q Hx Hq IH]; [by inversion Hin|]. simpl.
  pose proof (token_weight_bounds x Hx). pose proof (weight_sum_bound ts idle q Hq).
  apply elem_of_cons in Hin as [->|Hin]; [rewrite Hc; lia|]. specialize (IH Hin).
  destruct (competes ts idle x); lia.
Qed.

(** Rounding down keeps the sum of proportional shares below the whole. *)
Lemma sum_div_le (l : list Z) (a t : Z) :
  0 < t -> 0 <= a -> Forall (fun w => 0 <= w) l ->
  sum_of (fun w => a * w / t) l <= a * sum_of (fun w => w) l / t.
Proof.
  intros Ht Ha Hl. induction Hl as [|w l Hw Hl IH]; simpl; [rewrite Z.mul_0_r, Z.div_0_l; lia|].
  rewrite Z.mul_add_distr_l.
  pose proof (Z.mul_div_le (a * w) t Ht). pose proof (Z.mul_div_le (a * sum_of (fun w => w) l) t Ht).
  assert (a * w / t + a * sum_of (fun w => w) l / t <= (a * w + a * sum_of (fun w => w) l) / t).
  { apply Z.div_le_lower_bound; lia. }
  lia.
Qed.

(** ** Theorems *)

(** C40: A runnable task with a token waits at most its turn.  As long as the run states
    do not change, a runnable task with at least one token at position [i] of the
    queue is returned by one of the next [i + 1] calls of [next]: every call either
    picks it or moves a task from before it to the end of the queue. *)
Theorem epoch_bounded_wait (ts : Tasks) (s : EpochScheduler) (i : nat) (e : EpochTaskRef) :
  queue s !! i = Some e -> has_turn ts e = true -> ep_task e ∈ epoch_picks (S i) ts s.
Proof.
  revert s. induction i as [|i IH]; intros s Hi Ht;
    (destruct (try_next_cases ts s) as [[_ Hno]|(j & x & Hj & Hx & Hlt & E)];
      [rewrite Forall_lookup in Hno; specialize (Hno _ _ Hi); congruence|]);
    cbn [epoch_picks]; unfold epoch_next; rewrite E.
  - destruct j as [|j]; [simplify_eq; left|]. specialize (Hlt 0%nat e ltac:(lia) Hi). congruence.
  - destruct (decide (j = S i)) as [->|Hne]; [simplify_eq; left|]. right.
    assert (j < S i)%nat as Hji.
    { destruct (decide (S i < j)%nat) as [Hgt|]; [|lia]. specialize (Hlt _ _ Hgt Hi). congruence. }
    apply IH; [|done]. simpl. apply lookup_app_l_Some. rewrite list_lookup_delete_ge by lia. done.
Qed.

(** A new epoch serves every runnable task, in proportion to its priority.  After
    [assign_tokens] each runnable task other than the idle task has at least one token
    and the share [epoch * (priority + 1) / total] rounded down, all other tasks have
    none, and the tokens of the epoch add up to at most [max(total, 100)]. *)
Theorem epoch_tokens_proportional (ts : Tasks) (s : EpochScheduler) :
  epoch_ok s -> Exists (fun e => competes ts (idle_task s) e = true) (queue s) ->
  let total := sum_of (fun e => if competes ts (idle_task s) e then token_weight e else 0) (queue s) in
  let q' := queue (assign_tokens ts s) in
  length q' = length (queue s) /\
  (forall i e e', queue s !! i = Some e -> q' !! i = Some e' ->
     ep_task e' = ep_task e /\ ep_priority e' = ep_priority e /\
     if competes ts (idle_task s) e
     then tokens_remaining e' = Z.max total 100 * (ep_priority e + 1) / total /\ 1 <= tokens_remaining e'
     else tokens_remaining e' = 0) /\
  sum_of tokens_remaining q' <= Z.max total 100.
Proof.
  intros Hok Hex total q'. pose proof Hok as [Hp Hl].
  assert (0 < total <= 2 ^ 40) as Htot.
  { apply Exists_exists in Hex as (e & He & Hc). rewrite Forall_forall in Hp.
    pose proof (token_weight_bounds e (Hp e He)). rewrite <- Forall_forall in Hp.
    pose proof (weight_le_total ts (idle_task s) _ e Hp He Hc).
    pose proof (weight_sum_bound ts (idle_task s) _ Hp). unfold total. lia. }
  assert (q' = deal ts (idle_task s) (Z.max total 100) total <$> queue s) as Hq'.
  { unfold q', assign_tokens. rewrite epoch_weight_eq by done. fold total.
    destruct (Z.eqb_spec total 0); [lia|done]. }
  assert (forall e, e ∈ queue s -> sat_mul (Z.max total 100) (token_weight e) = Z.max total 100 * token_weight e) as Hsat.
  { intros e He. rewrite Forall_forall in Hp. pose proof (token_weight_bounds e (Hp e He)).
    unfold sat_mul, U64_MAX. nia. }
  rewrite Hq'. split; [by rewrite length_fmap|]. split.
  - intros i e e' He He'. rewrite list_lookup_fmap, He in He'. simplify_eq/=. split_and!; [done|done|].
    destruct (competes ts (idle_task s) e) eqn:Ec; [|done].
    apply list_elem_of_lookup_2 in He. rewrite (Hsat e He).
    rewrite Forall_forall in Hp. pose proof (Hp e He) as Hpe. pose proof (token_weight_bounds e Hpe).
    assert (token_weight e = ep_priority e + 1) as Hw by (unfold token_weight, sat_add, U64_MAX; lia).
    split; [by rewrite Hw|]. apply Z.div_le_lower_bound; [lia|]. nia.
  - assert (sum_of tokens_remaining (deal ts (idle_task s) (Z.max total 100) total <$> queue s) <=
      sum_of (fun w => Z.max total 100 * w / total)
        ((fun e => if competes ts (idle_task s) e then token_weight e else 0) <$> queue s)) as Hle.
    { clearbody total. clear Hq' Hex Hok Hp Hl q'. induction (queue s) as [|e q IH]; [done|].
      specialize (IH ltac:(intros x Hx; apply Hsat; by right)).
      rewrite !fmap_cons. cbn [sum_of]. unfold deal at 1. cbn [tokens_remaining].
      rewrite (Hsat e ltac:(left)). destruct (competes ts (idle_task s) e); [lia|].
      rewrite Z.mul_0_r, Z.div_0_l by lia. lia. }
    etrans; [exact Hle|]. etrans; [apply sum_div_le; [lia|lia|]|].
    + apply Forall_fmap. eapply Forall_impl; [exact Hp|]. simpl. intros e He.
      pose proof (token_weight_bounds e He). destruct (competes ts (idle_task s) e); lia.
    + assert (sum_of (fun w => w) ((fun e => if competes ts (idle_task s) e then token_weight e else 0) <$> queue s) = total) as ->.
      { unfold total. clear. induction (queue s) as [|e q IH]; [done|]. rewrite fmap_cons. cbn [sum_of]. by rewrite IH. }
      rewrite Z.div_mul by lia. lia.
Qed.

(** ** Examples *)

Module EpochDemo.

(** Task 0 is the idle task, task 3 is blocked. *)
Definition ts : Tasks := fun t => mkTask (if decide (t = 3) then Blocked else Runnable) sched_default.
Definition s : EpochScheduler :=
  mkEpochSched 0 [mkEpoch 3 20 5; mkEpoch 1 20 0; mkEpoch 2 30 4].

End EpochDemo.

Lemma epoch_bounded_wait_witness : 2 ∈ epoch_picks 3 EpochDemo.ts EpochDemo.s.
Proof. exact (epoch_bounded_wait EpochDemo.ts EpochDemo.s 2 (mkEpoch 2 30 4) eq_refl eq_refl). Defined.

Lemma epoch_tokens_proportional_witness :
  sum_of tokens_remaining (queue (assign_tokens EpochDemo.ts EpochDemo.s)) <= 100.
Proof.
  refine (proj2 (proj2 (epoch_tokens_proportional EpochDemo.ts EpochDemo.s _ _))).
  - split; [|simpl; lia]. repeat (apply Forall_cons; split; [simpl; lia|]). constructor.
  - apply Exists_cons_tl, Exists_cons_hd. reflexivity.
Defined.
