(* ===== verification/PrioritySched.v ===== *)
(** * The priority scheduler

    [kernel/scheduler_priority/src/lib.rs]: the runnable task of highest priority, and
    among those of equal priority the one that ran longest ago.  The queue is a
    [BinaryHeap], whose internal order is not specified: rebuilding it from a vector is
    a parameter that permutes its elements. *)

From S2P Require Import Prelude SchedTask EpochSched.

Definition PRIO_DEFAULT : Z := 0.

Record PriorityTaskRef := mkPrio { pr_task : TaskRef; pr_priority : Z; last_ran : Z }.

Definition prio_task_new (t : TaskRef) (priority : Z) : PriorityTaskRef := mkPrio t priority 0.

Record PriorityScheduler := mkPrioSched { p_idle : TaskRef; p_queue : list PriorityTaskRef }.

(** [Ord for PriorityTaskRef]: [a >= b]. *)
Definition prio_ge (a b : PriorityTaskRef) : bool :=
  if pr_priority a =? pr_priority b then last_ran a <=? last_ran b else pr_priority b <? pr_priority a.

(** [iter().enumerate().filter(..).max_by(..)]: the last of the maximal candidates. *)
Fixpoint best_index (cand : PriorityTaskRef -> bool) (l : list PriorityTaskRef) (i : nat)
    (best : option (nat * PriorityTaskRef)) : option (nat * PriorityTaskRef) :=
  match l with
  | [] => best
  | x :: l' =>
      let best := if cand x then
                    match best with
                    | None => Some (i, x)
                    | Some (j, b) => if prio_ge x b then Some (i, x) else Some (j, b)
                    end
                  else best in
      best_index cand l' (S i) best
  end.

(** [Vec::swap_remove]. *)
Definition swap_remove {A} (i : nat) (l : list A) : list A :=
  match last l with
  | Some z => removelast (<[i := z]> l)
  | None => l
  end.

Section Heap.
Context (heap : list PriorityTaskRef -> list PriorityTaskRef).

Definition prio_next (ts : Tasks) (current_id : TaskRef) (now : Z) (s : PriorityScheduler)
    : TaskRef * PriorityScheduler :=
  let all := p_queue s in
  match best_index (fun t => is_runnable ts (pr_task t) && negb (pr_task t =? current_id)) all 0 None with
  | Some (idx, t) =>
      (pr_task t, mkPrioSched (p_idle s)
         (heap (swap_remove idx all ++ [mkPrio (pr_task t) (pr_priority t) now])))
  | None => (p_idle s, mkPrioSched (p_idle s) (heap all))
  end.

Definition prio_add (t : TaskRef) (s : PriorityScheduler) : PriorityScheduler :=
  mkPrioSched (p_idle s) (heap (p_queue s ++ [prio_task_new t PRIO_DEFAULT])).

Definition prio_busyness (s : PriorityScheduler) : nat := length (p_queue s).

Definition prio_retain (t : TaskRef) (s : PriorityScheduler) : list PriorityTaskRef :=
  heap (filter (fun x => pr_task x <> t) (p_queue s)).

Definition prio_remove (t : TaskRef) (s : PriorityScheduler) : bool * PriorityScheduler :=
  let q := prio_retain t s in
  (negb (Nat.eqb (length q) (length (p_queue s))), mkPrioSched (p_idle s) q).

Definition prio_set_priority (t : TaskRef) (priority : Z) (s : PriorityScheduler) : bool * PriorityScheduler :=
  let q := prio_retain t s in
  if Nat.eqb (length q) (length (p_queue s)) then (false, mkPrioSched (p_idle s) q)
  else (true, mkPrioSched (p_idle s) (heap (q ++ [mkPrio t priority 0]))).

Definition prio_priority (t : TaskRef) (s : PriorityScheduler) : option Z :=
  pr_priority <$> find (fun x => bool_decide (pr_task x = t)) (p_queue s).

End Heap.

(** ** Lemmas *)

Lemma prio_ge_trans (a b c : PriorityTaskRef) : prio_ge a b = true -> prio_ge b c = true -> prio_ge a c = true.
Proof.
  unfold prio_ge. destruct (Z.eqb_spec (pr_priority a) (pr_priority b)),
    (Z.eqb_spec (pr_priority b) (pr_priority c)), (Z.eqb_spec (pr_priority a) (pr_priority c));
    rewrite ?Z.leb_le, ?Z.ltb_lt; lia.
Qed.

Lemma prio_ge_total (a b : PriorityTaskRef) : prio_ge a b = false -> prio_ge b a = true.
Proof.
  unfold prio_ge. destruct (Z.eqb_spec (pr_priority a) (pr_priority b)), (Z.eqb_spec (pr_priority b) (pr_priority a));
    rewrite ?Z.leb_gt, ?Z.ltb_ge, ?Z.leb_le, ?Z.ltb_lt; lia.
Qed.

Lemma prio_ge_refl (a : PriorityTaskRef) : prio_ge a a = true.
Proof. unfold prio_ge. rewrite Z.eqb_refl. apply Z.leb_refl. Qed.

(** The best candidate of [pre ++ l] when [best] is the best one of [pre]. *)
Definition is_best (cand : PriorityTaskRef -> bool) (l : list PriorityTaskRef)
    (o : option (nat * PriorityTaskRef)) : Prop :=
  match o with
  | Some (i, x) => l !! i = Some x /\ cand x = true /\
      Forall (fun y => cand y = true -> prio_ge x y = true) l
  | None => Forall (fun y => cand y = false) l
  end.

Lemma best_index_ok (cand : PriorityTaskRef -> bool) (pre l : list PriorityTaskRef) best :
  is_best cand pre best -> is_best cand (pre ++ l) (best_index cand l (length pre) best).
Proof.
  revert pre best. induction l as [|x l IH]; intros pre best Hb; simpl; [by rewrite app_nil_r|].
  replace (S (length pre)) with (length (pre ++ [x])) by (rewrite length_app; simpl; lia).
  replace (pre ++ x :: l) with ((pre ++ [x]) ++ l) by (by rewrite <- app_assoc).
  apply IH. destruct best as [[j b]|]; simpl in Hb.
  - destruct Hb as (Hj & Hc & Hall). destruct (cand x) eqn:Ex.
    + destruct (prio_ge x b) eqn:Eg; simpl.
      * split; [by rewrite lookup_app_r, Nat.sub_diag by lia|]. split; [done|].
        apply Forall_app. split; [|repeat constructor; intros; apply prio_ge_refl].
        eapply Forall_impl; [done|]. simpl. intros y Hy Hcy. eapply prio_ge_trans; [done|auto].
      * split; [by apply lookup_app_l_Some|]. split; [done|]. apply Forall_app.
        split; [done|]. repeat constructor. intros _. by apply prio_ge_total.
    + simpl. split; [by apply lookup_app_l_Some|]. split; [done|]. apply Forall_app.
      split; [done|]. repeat constructor. congruence.
  - destruct (cand x) eqn:Ex; simpl.
    + split; [by rewrite lookup_app_r, Nat.sub_diag by lia|]. split; [done|].
      apply Forall_app. split; [|repeat constructor; intros; apply prio_ge_refl].
      eapply Forall_impl; [done|]. simpl. congruence.
    + apply Forall_app. split; [done|]. by repeat constructor.
Qed.

Lemma swap_remove_Permutation {A} (l : list A) (i : nat) (x : A) :
  l !! i = Some x -> Permutation l (x :: swap_remove i l).
Proof.
  intros Hi. unfold swap_remove. destruct (last l) as [z|] eqn:El.
  2:{ apply last_None in El as ->. done. }
  apply last_Some in El as [l0 ->]. destruct (decide (i < length l0)%nat) as [Hlt|Hge].
  - rewrite insert_app_l by done. rewrite lookup_app_l in Hi by done.
    rewrite removelast_last. apply list_elem_of_split_length in Hi as (l1 & l2 & -> & ->).
    rewrite insert_app_r_alt by lia. rewrite Nat.sub_diag. simpl.
    rewrite <- (app_assoc l1). simpl. rewrite <- Permutation_middle. constructor.
    apply Permutation_app_head. symmetry. apply Permutation_cons_append.
  - apply lookup_lt_Some in Hi as Hl. rewrite length_app in Hl. simpl in Hl.
    assert (i = length l0) as -> by lia. rewrite lookup_app_r, Nat.sub_diag in Hi by lia. simplify_eq/=.
    rewrite insert_app_r_alt, Nat.sub_diag by lia. simpl. rewrite removelast_last.
    symmetry. apply Permutation_cons_append.
Qed.

(** ** Theorem *)

(** The priority scheduler picks by priority, then by waiting time, and loses
    nothing.  [next] returns a runnable task other than the current one such that every
    other candidate has a lower priority, or the same priority and ran no earlier; it
    returns the idle task only if there is no candidate.  The queue keeps the same
    entries, except that the chosen one records the current time. *)
Theorem priority_next_is_maximal (heap : list PriorityTaskRef -> list PriorityTaskRef)
    (ts : Tasks) (current_id : TaskRef) (now : Z) (s : PriorityScheduler) :
  (forall l, Permutation (heap l) l) ->
  let cand := fun x => is_runnable ts (pr_task x) && negb (pr_task x =? current_id) in
  match prio_next heap ts current_id now s with
  | (t, s') =>
      (exists e rest, pr_task e = t /\ cand e = true /\ Permutation (p_queue s) (e :: rest) /\
         Permutation (p_queue s') (mkPrio t (pr_priority e) now :: rest) /\
         forall x, x ∈ p_queue s -> cand x = true ->
           pr_priority x < pr_priority e \/ (pr_priority x = pr_priority e /\ last_ran e <= last_ran x)) \/
      (t = p_idle s /\ Permutation (p_queue s') (p_queue s) /\
       forall x, x ∈ p_queue s -> cand x = false)
  end.
Proof.
  intros Hheap cand. unfold prio_next. fold cand.
  pose proof (best_index_ok cand [] (p_queue s) None ltac:(constructor)) as Hbest. simpl in Hbest.
  destruct (best_index cand (p_queue s) 0 None) as [[i e]|]; simpl in Hbest.
  - left. destruct Hbest as (Hi & Hc & Hall). exists e, (swap_remove i (p_queue s)).
    split_and!; [done|done|by apply swap_remove_Permutation| |].
    + cbn [p_queue]. rewrite Hheap. symmetry. apply Permutation_cons_append.
    + intros x Hx Hcx. rewrite Forall_forall in Hall. specialize (Hall x Hx Hcx). revert Hall.
      unfold prio_ge. destruct (Z.eqb_spec (pr_priority e) (pr_priority x)); rewrite ?Z.leb_le, ?Z.ltb_lt; lia.
  - right. split_and!; [done|apply Hheap|]. by apply Forall_forall.
Qed.

Lemma priority_next_is_maximal_witness :
  (forall l : list PriorityTaskRef, Permutation (id l) l) /\
  (prio_next id EpochDemo.ts 9 100
     (mkPrioSched 0 [mkPrio 1 5 40; mkPrio 3 9 0; mkPrio 2 5 20])).1 = 2 /\
  match prio_next id EpochDemo.ts 9 100 (mkPrioSched 0 [mkPrio 1 5 40; mkPrio 3 9 0; mkPrio 2 5 20]) with
  | (t, s') => t = 0 \/ length (p_queue s') = 3%nat
  end.
Proof.
  split; [reflexivity|]. split; [vm_compute; reflexivity|].
  pose proof (priority_next_is_maximal id EpochDemo.ts 9 100
    (mkPrioSched 0 [mkPrio 1 5 40; mkPrio 3 9 0; mkPrio 2 5 20]) (fun l => Permutation_refl l)) as H.
  destruct (prio_next _ _ _ _ _) as [t s']. destruct H as [(e & rest & _ & _ & H1 & H2 & _)|[H _]].
  - right. rewrite (Permutation_length H2). apply (Permutation_length (Permutation_sym H1)).
  - left. exact H.
Defined.
