(* ===== verification/PteFlags.v ===== *)
(** * Page table entry flags and page table entries

    Models kernel/pte_flags/src/lib.rs, pte_flags_x86_64.rs and
    pte_flags_aarch64.rs, and kernel/page_table_entry/src/lib.rs.

    A value of one of the three [bitflags!] types is its bits, a [Z].  The bitflags
    crate is not part of the repository: its operations are the class [Bitflags],
    and the laws of [BitflagsLaws] are their documented behaviour.  The names of the
    architecture-independent type carry the prefix [gen_], those of [PteFlagsX86_64]
    the prefix [x86_] and those of [PteFlagsAarch64] the prefix [a64_].  The bits of
    [PteFlags] are those of the architecture that is compiled for, the class
    [PteFlagsArch]. *)

From S2P Require Import Prelude MemStructs.

(** ** The bitflags crate *)

(** The operations the code calls.  [all] is the union of the flags a type
    declares. *)
Class Bitflags := {
  bf_from_bits_truncate : Z -> Z -> Z;
  bf_contains : Z -> Z -> bool;
  bf_set : Z -> Z -> bool -> Z;
  bf_insert : Z -> Z -> Z;
  bf_remove : Z -> Z -> Z;
  bf_toggle : Z -> Z -> Z;
  bf_bitor : Z -> Z -> Z;
  bf_bitand : Z -> Z -> Z;
  bf_not : Z -> Z -> Z;
}.

Class BitflagsLaws (bf : Bitflags) := {
  from_bits_truncate_law all bits : bf_from_bits_truncate all bits = Z.land bits all;
  contains_law s o : bf_contains s o = true <-> Z.land s o = o;
  set_law s o b : bf_set s o b = if b then bf_insert s o else bf_remove s o;
  insert_law s o : bf_insert s o = Z.lor s o;
  remove_law s o : bf_remove s o = Z.ldiff s o;
  toggle_law s o : bf_toggle s o = Z.lxor s o;
  bitor_law s o : bf_bitor s o = Z.lor s o;
  bitand_law s o : bf_bitand s o = Z.land s o;
  not_law all s : bf_not all s = Z.ldiff all s;
}.

(** The union of a list of flags: the [all()] of a type. *)
Definition flags_union (l : list Z) : Z := fold_right Z.lor 0 l.

(** ** PteFlagsX86_64 *)

Definition X86_PTE_FRAME_MASK : Z := 0x000FFFFFFFFFF000.

Definition X86_VALID : Z := Z.shiftl 1 0.
Definition X86_WRITABLE : Z := Z.shiftl 1 1.
Definition X86_USER_ACCESSIBLE : Z := Z.shiftl 1 2.
Definition X86_WRITE_THROUGH : Z := Z.shiftl 1 3.
Definition X86_PAT_BIT0 : Z := X86_WRITE_THROUGH.
Definition X86_CACHE_DISABLE : Z := Z.shiftl 1 4.
Definition X86_DEVICE_MEMORY : Z := X86_CACHE_DISABLE.
Definition X86_PAT_BIT1 : Z := X86_CACHE_DISABLE.
Definition X86_ACCESSED : Z := Z.shiftl 1 5.
Definition X86_DIRTY : Z := Z.shiftl 1 6.
Definition X86_HUGE_PAGE : Z := Z.shiftl 1 7.
Definition X86_PAT_BIT2_FOR_P1 : Z := Z.shiftl 1 7.
Definition X86_GLOBAL : Z := Z.shiftl 1 8.
Definition X86_EXCLUSIVE : Z := Z.shiftl 1 55.
Definition X86_NOT_EXECUTABLE : Z := Z.shiftl 1 63.

Definition X86_all : Z :=
  flags_union [X86_VALID; X86_WRITABLE; X86_USER_ACCESSIBLE; X86_WRITE_THROUGH; X86_PAT_BIT0;
    X86_CACHE_DISABLE; X86_DEVICE_MEMORY; X86_PAT_BIT1; X86_ACCESSED; X86_DIRTY; X86_HUGE_PAGE;
    X86_PAT_BIT2_FOR_P1; X86_GLOBAL; X86_EXCLUSIVE; X86_NOT_EXECUTABLE].

Definition BIT_0 : Z := Z.shiftl 1 0.
Definition BIT_1 : Z := Z.shiftl 1 1.
Definition BIT_2 : Z := Z.shiftl 1 2.

Section X86_64.
Context {bf : Bitflags}.

Definition x86_new : Z := X86_NOT_EXECUTABLE.
Definition x86_valid (f : Z) (enable : bool) : Z := bf_set f X86_VALID enable.
Definition x86_writable (f : Z) (enable : bool) : Z := bf_set f X86_WRITABLE enable.
Definition x86_executable (f : Z) (enable : bool) : Z := bf_set f X86_NOT_EXECUTABLE (negb enable).
Definition x86_device_memory (f : Z) (enable : bool) : Z := bf_set f X86_DEVICE_MEMORY enable.
Definition x86_exclusive (f : Z) (enable : bool) : Z := bf_set f X86_EXCLUSIVE enable.
Definition x86_accessed (f : Z) (enable : bool) : Z := bf_set f X86_ACCESSED enable.
Definition x86_dirty (f : Z) (enable : bool) : Z := bf_set f X86_DIRTY enable.
Definition x86_is_valid (f : Z) : bool := bf_contains f X86_VALID.
Definition x86_is_writable (f : Z) : bool := bf_contains f X86_WRITABLE.
Definition x86_is_executable (f : Z) : bool := negb (bf_contains f X86_NOT_EXECUTABLE).
Definition x86_is_device_memory (f : Z) : bool := bf_contains f X86_DEVICE_MEMORY.
Definition x86_is_dirty (f : Z) : bool := bf_contains f X86_DIRTY.
Definition x86_is_accessed (f : Z) : bool := bf_contains f X86_ACCESSED.
Definition x86_is_exclusive (f : Z) : bool := bf_contains f X86_EXCLUSIVE.

Definition x86_pat_index (f pat_slot : Z) : Z :=
  let f := bf_set f X86_PAT_BIT0 (Z.land pat_slot BIT_0 =? BIT_0) in
  let f := bf_set f X86_PAT_BIT1 (Z.land pat_slot BIT_1 =? BIT_1) in
  bf_set f X86_PAT_BIT2_FOR_P1 (Z.land pat_slot BIT_2 =? BIT_2).

Definition x86_get_pat_index (f : Z) : Z :=
  let pat_index := 0 in
  let pat_index := if bf_contains f X86_PAT_BIT0 then Z.lor pat_index BIT_0 else pat_index in
  let pat_index := if bf_contains f X86_PAT_BIT1 then Z.lor pat_index BIT_1 else pat_index in
  if bf_contains f X86_PAT_BIT2_FOR_P1 then Z.lor pat_index BIT_2 else pat_index.

Definition x86_adjust_for_higher_level_pte (f : Z) : Z :=
  x86_valid (x86_pat_index (x86_exclusive (x86_executable f true) false) 0) true.

Definition x86_is_huge (f : Z) : bool := bf_contains f X86_HUGE_PAGE.

End X86_64.

(** ** PteFlagsAarch64 *)

Definition A64_PTE_FRAME_MASK : Z := 0x0000FFFFFFFFF000.

Definition A64_VALID : Z := Z.shiftl 1 0.
Definition A64_PAGE_DESCRIPTOR : Z := Z.shiftl 1 1.
Definition A64_MAIR_INDEX (i : Z) : Z := Z.shiftl i 2.
Definition A64_NORMAL_MEMORY : Z := A64_MAIR_INDEX 0.
Definition A64_DEVICE_MEMORY : Z := A64_MAIR_INDEX 1.
Definition A64_NON_SECURE_ACCESS : Z := Z.shiftl 1 5.
Definition A64_USER_ACCESSIBLE : Z := Z.shiftl 1 6.
Definition A64_READ_ONLY : Z := Z.shiftl 1 7.
Definition A64_NON_SHAREABLE : Z := Z.shiftl 0 8.
Definition A64_OUTER_SHAREABLE : Z := Z.shiftl 2 8.
Definition A64_INNER_SHAREABLE : Z := Z.shiftl 3 8.
Definition A64_ACCESSED : Z := Z.shiftl 1 10.
Definition A64_NOT_GLOBAL : Z := Z.shiftl 1 11.
Definition A64_GUARDED_PAGE : Z := Z.shiftl 1 50.
Definition A64_DIRTY : Z := Z.shiftl 1 51.
Definition A64_CONTIGUOUS : Z := Z.shiftl 1 52.
Definition A64_PRIV_EXEC_NEVER : Z := Z.shiftl 1 53.
Definition A64_USER_EXEC_NEVER : Z := Z.shiftl 1 54.
Definition A64_NOT_EXECUTABLE : Z := Z.lor A64_PRIV_EXEC_NEVER A64_USER_EXEC_NEVER.
Definition A64_EXCLUSIVE : Z := Z.shiftl 1 55.

Definition A64_all : Z :=
  flags_union ([A64_VALID; A64_PAGE_DESCRIPTOR] ++ map A64_MAIR_INDEX [0; 1; 2; 3; 4; 5; 6; 7] ++
    [A64_NORMAL_MEMORY; A64_DEVICE_MEMORY; A64_NON_SECURE_ACCESS; A64_USER_ACCESSIBLE;
     A64_READ_ONLY; A64_NON_SHAREABLE; A64_OUTER_SHAREABLE; A64_INNER_SHAREABLE; A64_ACCESSED;
     A64_NOT_GLOBAL; A64_GUARDED_PAGE; A64_DIRTY; A64_CONTIGUOUS; A64_PRIV_EXEC_NEVER;
     A64_USER_EXEC_NEVER; A64_NOT_EXECUTABLE; A64_EXCLUSIVE]).

Definition SHAREABLE_BITS_MASK : Z := A64_INNER_SHAREABLE.
Definition MAIR_BITS_MASK : Z := A64_MAIR_INDEX 7.

(** ** PteFlags, over the bits of the architecture *)

Class PteFlagsArch := {
  ARCH_VALID : Z;
  WRITABLE_BIT : Z;
  ARCH_USER_ACCESSIBLE : Z;
  DEVICE_MEMORY_BITS : Z;
  ARCH_ACCESSED : Z;
  ARCH_DIRTY : Z;
  GLOBAL_BIT : Z;
  ARCH_NOT_EXECUTABLE : Z;
  ARCH_EXCLUSIVE : Z;
  ARCH_all : Z;
  PTE_FRAME_MASK : Z;
  ARCH_phys : AddressOps;
}.

Definition x86_arch : PteFlagsArch := {|
  ARCH_VALID := X86_VALID; WRITABLE_BIT := X86_WRITABLE;
  ARCH_USER_ACCESSIBLE := X86_USER_ACCESSIBLE; DEVICE_MEMORY_BITS := X86_DEVICE_MEMORY;
  ARCH_ACCESSED := X86_ACCESSED; ARCH_DIRTY := X86_DIRTY; GLOBAL_BIT := X86_GLOBAL;
  ARCH_NOT_EXECUTABLE := X86_NOT_EXECUTABLE; ARCH_EXCLUSIVE := X86_EXCLUSIVE;
  ARCH_all := X86_all; PTE_FRAME_MASK := X86_PTE_FRAME_MASK; ARCH_phys := physical_ops |}.

Definition aarch64_arch : PteFlagsArch := {|
  ARCH_VALID := A64_VALID; WRITABLE_BIT := A64_READ_ONLY;
  ARCH_USER_ACCESSIBLE := A64_USER_ACCESSIBLE; DEVICE_MEMORY_BITS := A64_DEVICE_MEMORY;
  ARCH_ACCESSED := A64_ACCESSED; ARCH_DIRTY := A64_DIRTY; GLOBAL_BIT := A64_NOT_GLOBAL;
  ARCH_NOT_EXECUTABLE := A64_NOT_EXECUTABLE; ARCH_EXCLUSIVE := A64_EXCLUSIVE;
  ARCH_all := A64_all; PTE_FRAME_MASK := A64_PTE_FRAME_MASK; ARCH_phys := aarch64_ops |}.

Section General.
Context {bf : Bitflags} {arch : PteFlagsArch}.

(** The flags [PteFlags] declares. *)
Definition gen_all : Z :=
  flags_union [ARCH_VALID; WRITABLE_BIT; ARCH_USER_ACCESSIBLE; DEVICE_MEMORY_BITS; ARCH_ACCESSED;
    ARCH_DIRTY; GLOBAL_BIT; ARCH_NOT_EXECUTABLE; ARCH_EXCLUSIVE].

Definition gen_new : Z := bf_from_bits_truncate gen_all (Z.lor ARCH_ACCESSED ARCH_NOT_EXECUTABLE).
Definition gen_valid (f : Z) (enable : bool) : Z := bf_set f ARCH_VALID enable.
Definition gen_writable (f : Z) (enable : bool) : Z := bf_set f WRITABLE_BIT enable.
Definition gen_executable (f : Z) (enable : bool) : Z := bf_set f ARCH_NOT_EXECUTABLE (negb enable).
Definition gen_device_memory (f : Z) (enable : bool) : Z := bf_set f DEVICE_MEMORY_BITS enable.
Definition gen_exclusive (f : Z) (enable : bool) : Z := bf_set f ARCH_EXCLUSIVE enable.
Definition gen_accessed (f : Z) (enable : bool) : Z := bf_set f ARCH_ACCESSED enable.
Definition gen_dirty (f : Z) (enable : bool) : Z := bf_set f ARCH_DIRTY enable.
Definition gen_is_valid (f : Z) : bool := bf_contains f ARCH_VALID.
Definition gen_is_writable (f : Z) : bool := bf_contains f WRITABLE_BIT.
Definition gen_is_executable (f : Z) : bool := negb (bf_contains f ARCH_NOT_EXECUTABLE).
Definition gen_is_device_memory (f : Z) : bool := bf_contains f DEVICE_MEMORY_BITS.
Definition gen_is_dirty (f : Z) : bool := bf_contains f ARCH_DIRTY.
Definition gen_is_accessed (f : Z) : bool := bf_contains f ARCH_ACCESSED.
Definition gen_is_exclusive (f : Z) : bool := bf_contains f ARCH_EXCLUSIVE.

End General.

(** ** The conversions of x86_64 *)

Section Conversions.
Context {bf : Bitflags}.

(** [From<PteFlags> for PteFlagsX86_64] and its inverse. *)
Definition x86_from_general (general : Z) : Z := bf_from_bits_truncate X86_all general.
Definition general_from_x86 (specific : Z) : Z :=
  bf_from_bits_truncate (gen_all (arch := x86_arch)) specific.

(** ** The operations and conversions of aarch64 *)

Definition a64_new : Z :=
  bf_from_bits_truncate A64_all
    (Z.lor (Z.lor (Z.lor (Z.lor (Z.lor (Z.lor A64_NORMAL_MEMORY A64_OUTER_SHAREABLE)
      A64_READ_ONLY) A64_PAGE_DESCRIPTOR) A64_ACCESSED) A64_NOT_GLOBAL) A64_NOT_EXECUTABLE).
Definition a64_valid (f : Z) (enable : bool) : Z := bf_set f A64_VALID enable.
Definition a64_writable (f : Z) (enable : bool) : Z := bf_set f A64_READ_ONLY (negb enable).
Definition a64_executable (f : Z) (enable : bool) : Z := bf_set f A64_NOT_EXECUTABLE (negb enable).

Definition a64_device_memory (f : Z) (enable : bool) : Z :=
  let f := bf_remove f (A64_MAIR_INDEX 7) in
  if enable then bf_insert f A64_DEVICE_MEMORY else bf_insert f A64_NORMAL_MEMORY.

Definition a64_exclusive (f : Z) (enable : bool) : Z := bf_set f A64_EXCLUSIVE enable.
Definition a64_accessed (f : Z) (enable : bool) : Z := bf_set f A64_ACCESSED enable.
Definition a64_dirty (f : Z) (enable : bool) : Z := bf_set f A64_DIRTY enable.
Definition a64_is_valid (f : Z) : bool := bf_contains f A64_VALID.
Definition a64_is_writable (f : Z) : bool := negb (bf_contains f A64_READ_ONLY).
Definition a64_is_executable (f : Z) : bool := negb (bf_contains f A64_NOT_EXECUTABLE).
Definition a64_is_device_memory (f : Z) : bool := bf_contains f A64_DEVICE_MEMORY.
Definition a64_is_dirty (f : Z) : bool := bf_contains f A64_DIRTY.
Definition a64_is_accessed (f : Z) : bool := bf_contains f A64_ACCESSED.
Definition a64_is_exclusive (f : Z) : bool := bf_contains f A64_EXCLUSIVE.
Definition a64_page_descriptor (f : Z) (enable : bool) : Z := bf_set f A64_PAGE_DESCRIPTOR enable.
Definition a64_is_page_descriptor (f : Z) : bool := bf_contains f A64_PAGE_DESCRIPTOR.

Definition MASKED_BITS_FOR_CONVERSION : Z :=
  bf_from_bits_truncate A64_all (Z.lor SHAREABLE_BITS_MASK MAIR_BITS_MASK).

Definition a64_adjust_for_higher_level_pte (f : Z) : Z :=
  a64_valid (a64_page_descriptor (a64_accessed (a64_exclusive (a64_executable f true) false) true)
    true) true.

(** [From<PteFlags> for PteFlagsAarch64]. *)
Definition a64_from_general (general : Z) : Z :=
  let specific := bf_from_bits_truncate A64_all general in
  let specific := bf_toggle specific (bf_bitor A64_READ_ONLY A64_NOT_GLOBAL) in
  let specific := bf_bitand specific (bf_not A64_all MASKED_BITS_FOR_CONVERSION) in
  let specific := bf_bitor specific A64_OUTER_SHAREABLE in
  let specific := bf_bitor specific (bf_bitor A64_PAGE_DESCRIPTOR A64_ACCESSED) in
  if bf_contains general A64_DEVICE_MEMORY
  then bf_bitor specific A64_DEVICE_MEMORY
  else bf_bitor specific A64_NORMAL_MEMORY.

(** [From<PteFlagsAarch64> for PteFlags]. *)
Definition general_from_a64 (specific : Z) : Z :=
  let specific := bf_toggle specific (bf_bitor A64_READ_ONLY A64_NOT_GLOBAL) in
  let specific := bf_bitand specific (bf_not A64_all A64_PAGE_DESCRIPTOR) in
  let general := bf_from_bits_truncate (gen_all (arch := aarch64_arch)) specific in
  if bf_bitand specific MAIR_BITS_MASK =? A64_DEVICE_MEMORY
  then bf_bitor general A64_DEVICE_MEMORY
  else general.

End Conversions.

(** ** Page table entries *)

(** [UnmapResult]: a range that was mapped exclusively can be deallocated. *)
Inductive UnmapResult : Type :=
| Exclusive (frames : ChunkRange)
| NonExclusive (frames : ChunkRange).

Section Entry.
Context {bf : Bitflags} {arch : PteFlagsArch}.

Definition is_unused (pte : Z) : bool := pte =? 0.

Definition pte_zero : Z := 0.

Definition pte_flags (pte : Z) : Z :=
  bf_from_bits_truncate ARCH_all (Z.land pte (not64 PTE_FRAME_MASK)).

Definition frame_value (pte : Z) : Z :=
  let frame_paddr := Z.land pte PTE_FRAME_MASK in
  containing_address (addr_new_canonical (ops := ARCH_phys) frame_paddr).

Definition pointed_frame (pte : Z) : option Z :=
  if bf_contains (pte_flags pte) ARCH_VALID then Some (frame_value pte) else None.

Definition set_entry (frame flags : Z) : Z := Z.lor (start_address (ops := ARCH_phys) frame) flags.

Definition set_flags (pte new_flags : Z) : Z :=
  let only_flag_bits := Z.land new_flags (not64 PTE_FRAME_MASK) in
  Z.lor (Z.land pte PTE_FRAME_MASK) only_flag_bits.

(** The result of the unmapping and the new value of the entry. *)
Definition set_unmapped (pte : Z) : UnmapResult * Z :=
  let frame := frame_value pte in
  let flags := pte_flags pte in
  let frame_range := mkRange frame frame in
  (if bf_contains flags ARCH_EXCLUSIVE then Exclusive frame_range else NonExclusive frame_range,
   pte_zero).

End Entry.

(** ** Bits *)

Section Bits.
Context {bf : Bitflags} {bl : BitflagsLaws bf}.

Lemma shiftl1_spec (k n : Z) : 0 <= k -> 0 <= n -> Z.testbit (Z.shiftl 1 k) n = (k =? n).
Proof. intros. rewrite Z.shiftl_1_l. by apply Z.pow2_bits_eqb. Qed.

(** Whether a single flag is contained is the value of its bit. *)
Lemma contains_bit (s k : Z) : 0 <= k -> bf_contains s (Z.shiftl 1 k) = Z.testbit s k.
Proof.
  intros Hk. apply eq_true_iff_eq. rewrite contains_law. split; intros H.
  - apply (f_equal (fun z => Z.testbit z k)) in H.
    rewrite Z.land_spec, shiftl1_spec, Z.eqb_refl, andb_true_r in H by lia. done.
  - apply Z.bits_inj'. intros n Hn. rewrite Z.land_spec, shiftl1_spec by lia.
    destruct (Z.eqb_spec k n) as [<-|]; [by rewrite H|apply andb_false_r].
Qed.

Lemma set_spec (s k : Z) (b : bool) (n : Z) :
  0 <= k -> 0 <= n ->
  Z.testbit (bf_set s (Z.shiftl 1 k) b) n = if k =? n then b else Z.testbit s n.
Proof.
  intros Hk Hn. rewrite set_law, insert_law, remove_law.
  destruct b; rewrite ?Z.lor_spec, ?Z.ldiff_spec, shiftl1_spec by lia;
    destruct (k =? n); by rewrite ?orb_true_r, ?orb_false_r, ?andb_true_r, ?andb_false_r.
Qed.

Lemma contains_lor (s a b : Z) : bf_contains s (Z.lor a b) = bf_contains s a && bf_contains s b.
Proof.
  apply eq_true_iff_eq. rewrite andb_true_iff, !contains_law. split.
  - intros H. split; apply Z.bits_inj'; intros n Hn;
      pose proof (f_equal (fun z => Z.testbit z n) H) as Hb; simpl in Hb;
      rewrite !Z.land_spec, !Z.lor_spec in *;
      destruct (Z.testbit s n), (Z.testbit a n), (Z.testbit b n); simpl in *; congruence.
  - intros [Ha Hb]. by rewrite Z.land_lor_distr_r, Ha, Hb.
Qed.

(** A set of flags of a type: none of the other bits is set. *)
Definition flags_in (all f : Z) : Prop := Z.land f all = f.

Lemma flags_in_bit (all f n : Z) :
  flags_in all f -> Z.testbit all n = false -> Z.testbit f n = false.
Proof. unfold flags_in. intros Hf Hn. rewrite <- Hf, Z.land_spec, Hn. apply andb_false_r. Qed.

Lemma flags_in_bits (all f : Z) :
  flags_in all f <-> forall n, 0 <= n -> Z.testbit all n = false -> Z.testbit f n = false.
Proof.
  split; [intros; by eapply flags_in_bit|]. intros H. apply Z.bits_inj'. intros n Hn.
  rewrite Z.land_spec. destruct (Z.testbit all n) eqn:E; [by rewrite andb_true_r|].
  by rewrite (H n Hn E).
Qed.

Lemma truncate_in (all b : Z) : flags_in all (bf_from_bits_truncate all b).
Proof.
  unfold flags_in. rewrite from_bits_truncate_law, <- Z.land_assoc, Z.land_diag. done.
Qed.

Lemma truncate_id (all f : Z) : flags_in all f -> bf_from_bits_truncate all f = f.
Proof. intros Hf. rewrite from_bits_truncate_law. exact Hf. Qed.

End Bits.

(** ** Laws of the two architectures *)

(** The frame mask is a field of [mask_width] bits above the page offset, the flags
    lie outside of it (the compile-time assertion of both files), and an address
    inside the field is canonical. *)
Class EntryLaws (arch : PteFlagsArch) := {
  mask_width : Z;
  mask_width_range : 0 <= mask_width <= 40;
  mask_eq : PTE_FRAME_MASK = Z.shiftl (Z.ones mask_width) 12;
  all_outside_mask : Z.land ARCH_all PTE_FRAME_MASK = 0;
  all_in_u64 : in_u64 ARCH_all;
  phys_masked a : 0 <= a < 2 ^ (12 + mask_width) -> @canonicalize ARCH_phys a = a;
}.

Lemma low_mask_id (k a : Z) : 0 <= k -> 0 <= a < 2 ^ k -> Z.land a (Z.ones k) = a.
Proof. intros Hk Ha. rewrite Z.land_ones by lia. by apply Z.mod_small. Qed.

#[export] Instance x86_entry_laws : EntryLaws x86_arch.
Proof.
  refine {| mask_width := 40 |}; [lia|done|done|done|].
  intros a Ha. exact (low_mask_id 52 a ltac:(lia) Ha).
Defined.

#[export] Instance aarch64_entry_laws : EntryLaws aarch64_arch.
Proof.
  refine {| mask_width := 36 |}; [lia|done|done|done|].
  intros a Ha. exact (low_mask_id 48 a ltac:(lia) Ha).
Defined.

(** ** Entries *)

Section EntryLemmas.
Context {bf : Bitflags} {bl : BitflagsLaws bf} {arch : PteFlagsArch} {el : EntryLaws arch}.

(** The frames an entry can hold. *)
Definition frame_fits (n : Z) : Prop := 0 <= n < 2 ^ mask_width.

Lemma land_mask (a : Z) :
  Z.land a PTE_FRAME_MASK = Z.shiftl ((a / 4096) mod 2 ^ mask_width) 12.
Proof.
  pose proof mask_width_range. rewrite mask_eq, <- Z.land_ones by lia.
  change 4096 with (2 ^ 12). rewrite <- Z.shiftr_div_pow2 by lia.
  apply Z.bits_inj'. intros n Hn. rewrite Z.land_spec, !Z.shiftl_spec, Z.land_spec by lia.
  destruct (Z.ltb_spec (n - 12) 0).
  - rewrite !(Z.testbit_neg_r _ (n - 12)) by lia. by rewrite andb_false_r.
  - rewrite Z.shiftr_spec by lia. f_equal. f_equal. lia.
Qed.

Lemma masked_bound (n : Z) : 0 <= n < 2 ^ mask_width -> 0 <= n * 4096 < 2 ^ (12 + mask_width).
Proof. pose proof mask_width_range. rewrite Z.pow_add_r by lia. change (2 ^ 12) with 4096. lia. Qed.

Lemma frame_value_eq (pte : Z) : frame_value pte = (pte / 4096) mod 2 ^ mask_width.
Proof.
  pose proof mask_width_range. unfold frame_value, addr_new_canonical, containing_address.
  rewrite land_mask, Z.shiftl_mul_pow2, SIZE_4K_val by lia. change (2 ^ 12) with 4096.
  pose proof (Z.mod_pos_bound (pte / 4096) (2 ^ mask_width) ltac:(apply Z.pow_pos_nonneg; lia)).
  rewrite phys_masked by (apply masked_bound; lia). apply Z.div_mul. lia.
Qed.

Lemma frame_value_fits (pte : Z) : frame_fits (frame_value pte).
Proof.
  pose proof mask_width_range. rewrite frame_value_eq. apply Z.mod_pos_bound.
  apply Z.pow_pos_nonneg; lia.
Qed.

Lemma start_address_fits (n : Z) :
  frame_fits n -> start_address (ops := ARCH_phys) n = n * 4096.
Proof.
  intros Hn. pose proof (masked_bound n Hn). pose proof mask_width_range.
  assert (2 ^ (12 + mask_width) <= 2 ^ 52) by (apply Z.pow_le_mono_r; lia).
  unfold start_address, addr_new_canonical. rewrite SIZE_4K_val.
  rewrite ?wrap64_id by (unfold in_u64, U64_MAX; lia). rewrite phys_masked; lia.
Qed.

Lemma frame_in_mask (n : Z) : frame_fits n -> Z.land (n * 4096) PTE_FRAME_MASK = n * 4096.
Proof.
  intros Hn. rewrite land_mask, Z.div_mul, Z.mod_small by (unfold frame_fits in *; lia).
  by rewrite Z.shiftl_mul_pow2 by lia.
Qed.

Lemma flags_outside_mask (f : Z) : flags_in ARCH_all f -> Z.land f PTE_FRAME_MASK = 0.
Proof. intros Hf. rewrite <- Hf, <- Z.land_assoc, all_outside_mask. apply Z.land_0_r. Qed.

Lemma all_in_not_mask : Z.land (not64 PTE_FRAME_MASK) ARCH_all = ARCH_all.
Proof.
  apply Z.bits_inj'. intros n Hn. unfold not64. rewrite Z.land_spec, Z.lxor_spec.
  pose proof (f_equal (fun z => Z.testbit z n) all_outside_mask) as Ho. simpl in Ho.
  rewrite Z.land_spec, Z.bits_0 in Ho. pose proof all_in_u64 as Hu.
  unfold in_u64, U64_MAX in *. change 18446744073709551615 with (Z.ones 64) in *.
  destruct (decide (n < 64)).
  - rewrite Z.ones_spec_low by lia. destruct (Z.testbit ARCH_all n), (Z.testbit PTE_FRAME_MASK n); done.
  - assert (Z.testbit ARCH_all n = false) as ->; [|apply andb_false_r].
    rewrite <- (Z.mod_small ARCH_all (2 ^ 64)) by (change (2 ^ 64) with (Z.ones 64 + 1); lia).
    apply Z.mod_pow2_bits_high. lia.
Qed.

Lemma pte_flags_eq (pte : Z) : pte_flags pte = Z.land pte ARCH_all.
Proof. unfold pte_flags. by rewrite from_bits_truncate_law, <- Z.land_assoc, all_in_not_mask. Qed.

Lemma frame_no_flags (n : Z) : frame_fits n -> Z.land (n * 4096) ARCH_all = 0.
Proof.
  intros Hn. rewrite <- (frame_in_mask n Hn), <- Z.land_assoc, (Z.land_comm PTE_FRAME_MASK).
  rewrite all_outside_mask. apply Z.land_0_r.
Qed.

Lemma set_entry_frame (n f : Z) :
  frame_fits n -> flags_in ARCH_all f -> frame_value (set_entry n f) = n.
Proof.
  intros Hn Hf. pose proof (flags_outside_mask f Hf) as H0.
  assert (Hm : Z.land (set_entry n f) PTE_FRAME_MASK = n * 4096).
  { unfold set_entry. by rewrite start_address_fits, Z.land_lor_distr_l, frame_in_mask, H0, Z.lor_0_r. }
  rewrite land_mask, <- frame_value_eq, Z.shiftl_mul_pow2 in Hm by lia.
  change (2 ^ 12) with 4096 in Hm. lia.
Qed.

Lemma set_entry_flags (n f : Z) :
  frame_fits n -> flags_in ARCH_all f -> pte_flags (set_entry n f) = f.
Proof.
  intros Hn Hf. rewrite pte_flags_eq. unfold set_entry.
  by rewrite start_address_fits, Z.land_lor_distr_l, frame_no_flags, Hf by done.
Qed.

Lemma pte_flags_in (pte : Z) : flags_in ARCH_all (pte_flags pte).
Proof. apply truncate_in. Qed.

End EntryLemmas.

(** ** Equality of 64-bit flag words, bit by bit *)

Lemma bits_below_64 (P : Z -> Prop) :
  Forall P (seqZ 0 64) -> forall n, 0 <= n < 64 -> P n.
Proof. intros HP n Hn. rewrite Forall_forall in HP. apply HP, elem_of_seqZ. lia. Qed.

Lemma in_u64_high (a n : Z) : in_u64 a -> 64 <= n -> Z.testbit a n = false.
Proof.
  unfold in_u64, U64_MAX. intros Ha Hn. rewrite <- (Z.mod_small a (2 ^ 64)) by lia.
  apply Z.mod_pow2_bits_high. lia.
Qed.

Lemma u64_bits_ext (a b : Z) :
  in_u64 a -> in_u64 b ->
  Forall (fun n => Z.testbit a n = Z.testbit b n) (seqZ 0 64) -> a = b.
Proof.
  intros Ha Hb H. apply Z.bits_inj'. intros n Hn. destruct (decide (n < 64)).
  - by apply (bits_below_64 _ H).
  - by rewrite !in_u64_high by (done || lia).
Qed.

Lemma flags_in_u64 (all f : Z) : in_u64 all -> flags_in all f -> in_u64 f.
Proof.
  intros Ha Hf. unfold in_u64, U64_MAX in *. rewrite <- Hf, Z.land_comm.
  assert (0 <= Z.land all f) by (apply Z.land_nonneg; lia). split; [done|].
  change 18446744073709551615 with (Z.pred (2 ^ 64)) in *. apply Z.lt_le_pred.
  destruct (decide (Z.land all f = 0)) as [->|]; [lia|]. apply Z.log2_lt_pow2; [lia|].
  assert (Z.log2 all < 64) by (destruct (decide (all = 0)) as [->|]; [done|apply Z.log2_lt_pow2; lia]).
  destruct (Z.lt_ge_cases (Z.log2 (Z.land all f)) 64) as [|Hge]; [done|].
  pose proof (Z.bit_log2 (Z.land all f) ltac:(lia)) as Hb.
  rewrite Z.land_spec, (in_u64_high all) in Hb by (unfold in_u64, U64_MAX; lia). done.
Qed.

(** Evaluate the bits of the constants, and case on those of the variables.  The
    bits outside the declared flags of a variable are the hypotheses [flags_in]. *)
Ltac eval_bits :=
  repeat progress rewrite ?Z.lor_spec, ?Z.land_spec, ?Z.ldiff_spec, ?Z.lxor_spec;
  repeat match goal with
  | |- context [Z.testbit ?c ?n] =>
      let v := eval vm_compute in (Z.testbit c n) in
      match v with
      | true => change (Z.testbit c n) with true
      | false => change (Z.testbit c n) with false
      end
  | H : Z.testbit ?f ?n = _ |- context [Z.testbit ?f ?n] => rewrite H
  | H : flags_in ?all ?f |- context [Z.testbit ?f ?n] =>
      rewrite (flags_in_bit all f n H eq_refl)
  end;
  repeat match goal with |- context [Z.testbit ?f ?n] => destruct (Z.testbit f n) end;
  reflexivity.

Ltac flag_bits :=
  apply u64_bits_ext;
  [ | | let l := eval vm_compute in (seqZ 0 64) in change (seqZ 0 64) with l;
        repeat (apply Forall_cons_2; [eval_bits|]); apply Forall_nil_2 ].

(** ** Properties *)

Section Properties.
Context {bf : Bitflags} {bl : BitflagsLaws bf}.

(** An entry written by [set_entry] reads back: its frame, its flags, whether it
    points to a frame, and what unmapping it returns, on both architectures. *)
Theorem page_table_entry_roundtrip {arch : PteFlagsArch} {el : EntryLaws arch} (frame flags : Z) :
  frame_fits frame -> flags_in ARCH_all flags ->
  let pte := set_entry frame flags in
  frame_value pte = frame /\ pte_flags pte = flags /\
  pointed_frame pte = (if bf_contains flags ARCH_VALID then Some frame else None) /\
  set_unmapped pte =
    (if bf_contains flags ARCH_EXCLUSIVE then Exclusive (mkRange frame frame)
     else NonExclusive (mkRange frame frame), 0).
Proof.
  intros Hn Hf pte. unfold pointed_frame, set_unmapped. subst pte.
  by rewrite set_entry_frame, set_entry_flags.
Qed.

(** [set_flags] replaces the flags of an entry and leaves the frame it maps,
    whatever the entry held before. *)
Theorem set_flags_keeps_frame {arch : PteFlagsArch} {el : EntryLaws arch} (pte new_flags : Z) :
  flags_in ARCH_all new_flags ->
  frame_value (set_flags pte new_flags) = frame_value pte /\
  pte_flags (set_flags pte new_flags) = new_flags.
Proof.
  intros Hf. pose proof (frame_value_fits pte) as Hfit.
  assert (Hs : set_flags pte new_flags = set_entry (frame_value pte) new_flags).
  { unfold set_flags, set_entry. rewrite start_address_fits, land_mask, <- frame_value_eq by done.
    rewrite Z.shiftl_mul_pow2 by lia. change (2 ^ 12) with 4096. f_equal.
    rewrite <- Hf, <- Z.land_assoc, (Z.land_comm ARCH_all), all_in_not_mask. done. }
  rewrite Hs. split; [by apply set_entry_frame|by apply set_entry_flags].
Qed.

Lemma bitand_all_u64 (all b : Z) : in_u64 all -> in_u64 (bf_from_bits_truncate all b).
Proof. intros. eapply flags_in_u64; [done|apply truncate_in]. Qed.

(** On x86_64 the conversion of [PteFlags] into [PteFlagsX86_64] loses nothing:
    converting back gives the same flags, and the queries answer the same. *)
Theorem general_x86_lossless (g : Z) :
  flags_in (gen_all (arch := x86_arch)) g ->
  general_from_x86 (x86_from_general g) = g /\
  x86_is_valid (x86_from_general g) = gen_is_valid (arch := x86_arch) g /\
  x86_is_writable (x86_from_general g) = gen_is_writable (arch := x86_arch) g /\
  x86_is_executable (x86_from_general g) = gen_is_executable (arch := x86_arch) g /\
  x86_is_device_memory (x86_from_general g) = gen_is_device_memory (arch := x86_arch) g /\
  x86_is_exclusive (x86_from_general g) = gen_is_exclusive (arch := x86_arch) g /\
  x86_is_huge (x86_from_general g) = false.
Proof.
  intros Hg. assert (Hx : x86_from_general g = g).
  { unfold x86_from_general. rewrite from_bits_truncate_law.
    assert (in_u64 g) by (by eapply flags_in_u64; [|done]). flag_bits; [|done].
    eapply (flags_in_u64 X86_all); [done|]. unfold flags_in.
    by rewrite <- Z.land_assoc, Z.land_diag. }
  rewrite Hx. repeat split; [by apply truncate_id|].
  unfold x86_is_huge, X86_HUGE_PAGE. rewrite contains_bit by lia.
  by apply (flags_in_bit _ _ _ Hg).
Qed.

(** [pat_index] stores the low three bits of the slot, [get_pat_index] reads them
    back, and every bit that is not a PAT bit is unchanged. *)
Theorem pat_index_roundtrip (f slot : Z) :
  0 <= slot ->
  x86_get_pat_index (x86_pat_index f slot) = slot mod 8 /\
  (forall n, 0 <= n -> n <> 3 -> n <> 4 -> n <> 7 ->
     Z.testbit (x86_pat_index f slot) n = Z.testbit f n).
Proof.
  intros Hs.
  assert (Hbit : forall k, 0 <= k -> (Z.land slot (Z.shiftl 1 k) =? Z.shiftl 1 k) = Z.testbit slot k).
  { intros k Hk. rewrite <- contains_bit by done. apply eq_true_iff_eq.
    by rewrite Z.eqb_eq, contains_law. }
  unfold x86_get_pat_index, x86_pat_index, X86_PAT_BIT0, X86_PAT_BIT1, X86_PAT_BIT2_FOR_P1,
    X86_WRITE_THROUGH, X86_CACHE_DISABLE, BIT_0, BIT_1, BIT_2.
  rewrite !Hbit, !contains_bit by lia. split.
  - rewrite !set_spec by lia. simpl (_ =? _). cbv iota.
    change 8 with (2 ^ 3). rewrite <- Z.land_ones by lia.
    apply Z.bits_inj'. intros n Hn. rewrite Z.land_spec.
    destruct (decide (n < 3)).
    + rewrite Z.ones_spec_low, andb_true_r by lia.
      assert (n = 0 \/ n = 1 \/ n = 2) as [->|[->| ->]] by lia;
        destruct (Z.testbit slot 0), (Z.testbit slot 1), (Z.testbit slot 2); done.
    + rewrite Z.ones_spec_high, andb_false_r by lia. apply Z.bits_above_log2.
      * destruct (Z.testbit slot 0), (Z.testbit slot 1), (Z.testbit slot 2); done.
      * apply (Z.le_lt_trans _ 2); [|lia].
        destruct (Z.testbit slot 0), (Z.testbit slot 1), (Z.testbit slot 2); done.
  - intros n Hn H3 H4 H7. rewrite !set_spec by lia. case_cmp; [lia..|done].
Qed.

End Properties.

Section Aarch64.
Context {bf : Bitflags} {bl : BitflagsLaws bf}.

(** The two conversions as bit arithmetic. *)
Definition a64_word (g : Z) : Z :=
  Z.lor (Z.lor (Z.lor (Z.land (Z.lxor (Z.land g A64_all) (Z.lor A64_READ_ONLY A64_NOT_GLOBAL))
      (Z.ldiff A64_all (Z.land (Z.lor SHAREABLE_BITS_MASK MAIR_BITS_MASK) A64_all)))
    A64_OUTER_SHAREABLE) (Z.lor A64_PAGE_DESCRIPTOR A64_ACCESSED))
    (if Z.testbit g 2 then A64_DEVICE_MEMORY else A64_NORMAL_MEMORY).

Lemma a64_from_general_eq (g : Z) : a64_from_general g = a64_word g.
Proof.
  unfold a64_from_general, a64_word, MASKED_BITS_FOR_CONVERSION.
  change A64_DEVICE_MEMORY with (Z.shiftl 1 2). rewrite contains_bit by lia.
  rewrite !from_bits_truncate_law, !toggle_law, !bitor_law, !bitand_law, !not_law.
  by destruct (Z.testbit g 2).
Qed.

(** The flags of [specific] with the inverted bits put right. *)
Definition general_word (s : Z) : Z :=
  Z.land (Z.lxor s (Z.lor A64_READ_ONLY A64_NOT_GLOBAL)) (Z.ldiff A64_all A64_PAGE_DESCRIPTOR).

Lemma general_from_a64_eq (s : Z) :
  general_from_a64 s =
  Z.lor (Z.land (general_word s) (gen_all (arch := aarch64_arch)))
    (if Z.land (general_word s) MAIR_BITS_MASK =? A64_DEVICE_MEMORY then A64_DEVICE_MEMORY else 0).
Proof.
  unfold general_from_a64, general_word. rewrite !toggle_law, !bitand_law, !not_law, !bitor_law.
  rewrite from_bits_truncate_law. destruct (_ =? _); [done|by rewrite Z.lor_0_r].
Qed.

Lemma lor_in_u64 (a b : Z) : in_u64 a -> in_u64 b -> in_u64 (Z.lor a b).
Proof.
  intros Ha Hb. apply (flags_in_u64 (Z.ones 64)); [done|]. apply flags_in_bits. intros n Hn Ho.
  assert (64 <= n) by (destruct (decide (n < 64)); [by rewrite Z.ones_spec_low in Ho by lia|lia]).
  by rewrite Z.lor_spec, !in_u64_high by done.
Qed.

Lemma land_l_in_u64 (a b : Z) : in_u64 b -> in_u64 (Z.land a b).
Proof.
  intros Hb. apply (flags_in_u64 b); [done|]. unfold flags_in. by rewrite <- Z.land_assoc, Z.land_diag.
Qed.

Ltac in_u64_tac :=
  repeat match goal with
  | H : in_u64 ?a |- in_u64 ?a => exact H
  | |- in_u64 (Z.lor _ _) => apply lor_in_u64
  | |- in_u64 (Z.land _ _) => apply land_l_in_u64
  | |- in_u64 _ => split; vm_compute; discriminate
  end.

(** On aarch64 the conversion of [PteFlags] and back returns the flags with
    [ACCESSED] set, the converted flags describe a page descriptor, and every query
    answers what it answered before although the writable and global bits have the
    opposite meaning there. *)
Theorem general_aarch64_roundtrip (g : Z) :
  flags_in (gen_all (arch := aarch64_arch)) g ->
  let s := a64_from_general g in
  general_from_a64 s = Z.lor g A64_ACCESSED /\
  a64_is_valid s = gen_is_valid (arch := aarch64_arch) g /\
  a64_is_writable s = gen_is_writable (arch := aarch64_arch) g /\
  a64_is_executable s = gen_is_executable (arch := aarch64_arch) g /\
  a64_is_device_memory s = gen_is_device_memory (arch := aarch64_arch) g /\
  a64_is_exclusive s = gen_is_exclusive (arch := aarch64_arch) g /\
  a64_is_accessed s = true /\ a64_is_page_descriptor s = true.
Proof.
  intros Hg s. assert (Hs : s = a64_word g) by apply a64_from_general_eq. clearbody s. subst s.
  assert (in_u64 g) by (by eapply flags_in_u64; [|done]).
  split.
  - rewrite general_from_a64_eq. destruct (Z.testbit g 2) eqn:E2.
    + assert (Z.land (general_word (a64_word g)) MAIR_BITS_MASK = A64_DEVICE_MEMORY) as ->.
      { unfold general_word, a64_word. rewrite E2. flag_bits; in_u64_tac. }
      rewrite Z.eqb_refl. unfold general_word, a64_word. rewrite E2. flag_bits; in_u64_tac.
    + assert (Z.land (general_word (a64_word g)) MAIR_BITS_MASK = 0) as ->.
      { unfold general_word, a64_word. rewrite E2. flag_bits; in_u64_tac. }
      change (0 =? A64_DEVICE_MEMORY) with false. cbv iota.
      unfold general_word, a64_word. rewrite E2. flag_bits; in_u64_tac.
  - unfold a64_is_valid, a64_is_writable, a64_is_executable, a64_is_device_memory, a64_is_exclusive,
      a64_is_accessed, a64_is_page_descriptor, gen_is_valid, gen_is_writable, gen_is_executable,
      gen_is_device_memory, gen_is_exclusive. cbn [aarch64_arch ARCH_VALID WRITABLE_BIT
      DEVICE_MEMORY_BITS ARCH_NOT_EXECUTABLE ARCH_EXCLUSIVE].
    unfold A64_VALID, A64_READ_ONLY, A64_NOT_EXECUTABLE, A64_PRIV_EXEC_NEVER, A64_USER_EXEC_NEVER,
      A64_EXCLUSIVE, A64_ACCESSED, A64_PAGE_DESCRIPTOR.
    change A64_DEVICE_MEMORY with (Z.shiftl 1 2). rewrite !contains_lor, !contains_bit by lia.
    unfold a64_word. destruct (Z.testbit g 2) eqn:E2; split_and!; eval_bits.
Qed.

(** The conversion from aarch64 reads every memory type whose MAIR index is odd
    as device memory, because the truncation keeps bit 2 of the index: the comparison
    with the whole index that follows it cannot take the flag away. *)
Theorem mair_index_misread (i : Z) :
  i ∈ [1; 3; 5; 7] ->
  gen_is_device_memory (arch := aarch64_arch) (general_from_a64 (A64_MAIR_INDEX i)) = true.
Proof.
  intros Hi. unfold gen_is_device_memory. rewrite general_from_a64_eq. cbn [aarch64_arch DEVICE_MEMORY_BITS].
  change A64_DEVICE_MEMORY with (Z.shiftl 1 2). rewrite contains_bit by lia.
  assert (i = 1 \/ i = 3 \/ i = 5 \/ i = 7) as Hc by set_solver. destruct_or! Hc; subst i; reflexivity.
Qed.

End Aarch64.

(** ** The flags the mapper derives from those it is given *)

Section Derived.
Context {bf : Bitflags} {bl : BitflagsLaws bf}.

Lemma x86_set_in (f k : Z) (b : bool) :
  0 <= k -> Z.testbit X86_all k = true -> flags_in X86_all f ->
  flags_in X86_all (bf_set f (Z.shiftl 1 k) b).
Proof.
  intros Hk Ha Hf. apply flags_in_bits. intros n Hn Hout. rewrite set_spec by lia.
  destruct (Z.eqb_spec k n) as [->|]; [congruence|]. by eapply flags_in_bit.
Qed.

Lemma x86_all_u64 : in_u64 X86_all.
Proof. done. Qed.

(** The flags of an entry that points to a lower-level table. *)
Lemma x86_adjust_bits (f n : Z) :
  0 <= n ->
  Z.testbit (x86_adjust_for_higher_level_pte f) n =
  if n =? 0 then true
  else if (n =? 3) || (n =? 4) || (n =? 7) || (n =? 55) || (n =? 63) then false
  else Z.testbit f n.
Proof.
  intros Hn. unfold x86_adjust_for_higher_level_pte, x86_valid, x86_pat_index, x86_exclusive,
    x86_executable, X86_VALID, X86_PAT_BIT0, X86_PAT_BIT1, X86_PAT_BIT2_FOR_P1, X86_WRITE_THROUGH,
    X86_CACHE_DISABLE, X86_EXCLUSIVE, X86_NOT_EXECUTABLE.
  rewrite !set_spec by lia. rewrite (Z.eqb_sym n 0), (Z.eqb_sym n 3), (Z.eqb_sym n 4),
    (Z.eqb_sym n 7), (Z.eqb_sym n 55), (Z.eqb_sym n 63). simpl (Z.land 0 _ =? _).
  by case_cmp.
Qed.

End Derived.

(** ** An implementation of the bitflags operations, and the witnesses *)

Module PteFlagsDemo.

Definition bits : Bitflags := {|
  bf_from_bits_truncate all b := Z.land b all;
  bf_contains s o := Z.land s o =? o;
  bf_set s o b := if b then Z.lor s o else Z.ldiff s o;
  bf_insert := Z.lor;
  bf_remove := Z.ldiff;
  bf_toggle := Z.lxor;
  bf_bitor := Z.lor;
  bf_bitand := Z.land;
  bf_not all s := Z.ldiff all s |}.

Lemma bits_laws : BitflagsLaws bits.
Proof. constructor; intros; try done. apply Z.eqb_eq. Qed.

(** A writable, valid, exclusive mapping of frame 0x12345. *)
Definition flags : Z := Z.lor X86_VALID (Z.lor X86_WRITABLE X86_EXCLUSIVE).

Lemma page_table_entry_roundtrip_witness :
  frame_fits (arch := x86_arch) 0x12345 /\
  pointed_frame (bf := bits) (arch := x86_arch) (set_entry (arch := x86_arch) 0x12345 flags) = Some 0x12345.
Proof.
  split; [split; [lia|reflexivity]|].
  destruct (page_table_entry_roundtrip (bl := bits_laws) (arch := x86_arch) 0x12345 flags) as (_ & _ & -> & _);
    [split; [lia|reflexivity]|reflexivity|reflexivity].
Defined.

Lemma set_flags_keeps_frame_witness :
  frame_value (arch := x86_arch) (set_flags (arch := x86_arch) 0x12345003 flags) = 0x12345.
Proof.
  destruct (set_flags_keeps_frame (bl := bits_laws) (arch := x86_arch) 0x12345003 flags) as [-> _];
    reflexivity.
Defined.

Lemma general_x86_lossless_witness :
  x86_is_huge (bf := bits) (x86_from_general (bf := bits) flags) = false.
Proof. apply (general_x86_lossless (bl := bits_laws) flags). reflexivity. Defined.

Lemma pat_index_roundtrip_witness :
  x86_get_pat_index (bf := bits) (x86_pat_index (bf := bits) flags 13) = 5.
Proof. apply (pat_index_roundtrip (bl := bits_laws) flags 13). lia. Defined.

(** Writable and valid general flags on aarch64. *)
Definition flags_a64 : Z := Z.lor A64_VALID A64_READ_ONLY.

Lemma general_aarch64_roundtrip_witness :
  general_from_a64 (bf := bits) (a64_from_general (bf := bits) flags_a64) = Z.lor flags_a64 A64_ACCESSED.
Proof. apply (general_aarch64_roundtrip (bl := bits_laws) flags_a64). reflexivity. Defined.

Lemma mair_index_misread_witness :
  gen_is_device_memory (bf := bits) (arch := aarch64_arch)
    (general_from_a64 (bf := bits) (A64_MAIR_INDEX 3)) = true.
Proof. apply (mair_index_misread (bl := bits_laws) 3). set_solver. Defined.

End PteFlagsDemo.
