(* ===== verification/PageTable.v ===== *)
(** * Page tables, the mapper and mapped pages: operations

    Models kernel/memory/src/paging/table.rs, mapper.rs, temporary_page.rs and the
    [PageTable] of paging/mod.rs, on x86_64.

    The kernel reads and writes page tables through recursive virtual addresses, so a
    reference to a [Table] is the virtual address it is at, and every access to an
    entry is translated by the processor's own page walk, [mmu_walk], over the memory
    of the tables; an access that the walk does not translate, or a store through an
    entry that is not writable, is a page fault, a [Panic].  The memory is a function
    from a frame and an index to the 64-bit entry there.  The TLB is not modelled: the
    flushes and the shootdown broadcast have no effect here.

    The frame allocator and the page allocator are the interfaces [FrameSource] and
    [PageSource]; file Sources.v discharges them with the allocators of FrameAlloc.v
    and PageAlloc.v.  A value that goes out of scope is dropped where the source drops
    it, which includes the frames and the pages of a mapping that failed. *)

From S2P Require Import Prelude MemStructs FrameAlloc PageAlloc PteFlags.

#[local] Existing Instance x86_arch.

(** ** The allocators the mapper calls *)

Class FrameSource (A : Type) := {
  (** [frame_allocator::allocate_frames(1)]. *)
  fs_allocate_one : A -> outcome (option Frames * A);
  (** The callback stored in [INTO_UNMAPPED_FRAMES_FUNC]. *)
  fs_into_unmapped : A -> ChunkRange -> outcome Frames;
  (** [Drop] of an [AllocatedFrames] or [UnmappedFrames]. *)
  fs_drop : A -> Frames -> outcome A;
}.

Class PageSource (B : Type) := {
  (** [page_allocator::allocate_pages(num_pages)]. *)
  ps_allocate : B -> Z -> outcome (option AllocatedPages * B);
  (** [page_allocator::allocate_pages_at(vaddr, 1)]. *)
  ps_allocate_one_at : B -> Z -> outcome (option AllocatedPages * B);
  (** [Drop] of an [AllocatedPages]. *)
  ps_drop : B -> AllocatedPages -> B;
}.

(** ** The page walk of the processor *)

Definition table_memory : Type := Z -> Z -> Z.

Definition hw_present (e : Z) : bool := Z.testbit e 0.
Definition hw_writable (e : Z) : bool := Z.testbit e 1.
Definition hw_page_size (e : Z) : bool := Z.testbit e 7.
Definition hw_frame (e : Z) : Z := (e / 4096) mod 2 ^ 40.

(** The frame a page is translated to by 4-level paging from the root [cr3], with
    whether it may be written; [None] is a page fault.  The reserved bits of a huge
    entry are taken to be zero. *)
Definition mmu_walk (m : table_memory) (cr3 page : Z) : option (Z * bool) :=
  let e4 := m cr3 (p4_index page) in
  if negb (hw_present e4) || hw_page_size e4 then None
  else
    let e3 := m (hw_frame e4) (p3_index page) in
    if negb (hw_present e3) then None
    else if hw_page_size e3 then
      Some (hw_frame e3 - hw_frame e3 mod 262144 + p2_index page * 512 + p1_index page,
            hw_writable e4 && hw_writable e3)
    else
      let e2 := m (hw_frame e3) (p2_index page) in
      if negb (hw_present e2) then None
      else if hw_page_size e2 then
        Some (hw_frame e2 - hw_frame e2 mod 512 + p1_index page,
              hw_writable e4 && hw_writable e3 && hw_writable e2)
      else
        let e1 := m (hw_frame e2) (p1_index page) in
        if negb (hw_present e1) then None
        else Some (hw_frame e1,
                   hw_writable e4 && hw_writable e3 && hw_writable e2 && hw_writable e1).

Definition upd (m : table_memory) (f i v : Z) : table_memory :=
  fun f' i' => if (f' =? f) && (i' =? i) then v else m f' i'.

Section PageTable.
Context {bf : Bitflags} {A B : Type} {fs : FrameSource A} {ps : PageSource B}.

Record Kernel := mkKernel {
  k_mem : table_memory;
  k_cr3 : Z;                 (* the frame of the active P4 table *)
  k_frames : A;
  k_pages : B;
  k_callback : bool;         (* INTO_UNMAPPED_FRAMES_FUNC is set *)
}.

Definition set_mem (m : table_memory) (k : Kernel) : Kernel :=
  mkKernel m (k_cr3 k) (k_frames k) (k_pages k) (k_callback k).
Definition set_frames (a : A) (k : Kernel) : Kernel :=
  mkKernel (k_mem k) (k_cr3 k) a (k_pages k) (k_callback k).
Definition set_pages (b : B) (k : Kernel) : Kernel :=
  mkKernel (k_mem k) (k_cr3 k) (k_frames k) b (k_callback k).

Definition drop_frames_k (f : Frames) (k : Kernel) : outcome Kernel :=
  let* a := fs_drop (k_frames k) f in Done (set_frames a k).
Definition drop_opt_frames (o : option Frames) (k : Kernel) : outcome Kernel :=
  match o with Some f => drop_frames_k f k | None => Done k end.
Definition drop_pages_k (p : AllocatedPages) (k : Kernel) : Kernel :=
  set_pages (ps_drop (k_pages k) p) k.

(** ** Tables *)

(** [Index] and [IndexMut] of the table at virtual address [table]. *)
Definition load_entry (k : Kernel) (table index : Z) : outcome Z :=
  match mmu_walk (k_mem k) (k_cr3 k) (containing_address table) with
  | Some (f, _) => if (0 <=? index) && (index <? ENTRIES_PER_PAGE_TABLE)
                   then Done (k_mem k f index) else Panic
  | None => Panic
  end.

Definition store_entry (k : Kernel) (table index pte : Z) : outcome Kernel :=
  match mmu_walk (k_mem k) (k_cr3 k) (containing_address table) with
  | Some (f, true) => if (0 <=? index) && (index <? ENTRIES_PER_PAGE_TABLE)
                      then Done (set_mem (upd (k_mem k) f index pte) k) else Panic
  | _ => Panic
  end.

(** [Table::zero]. *)
Fixpoint zero_entries (n : nat) (table : Z) (k : Kernel) : outcome Kernel :=
  match n with
  | O => Done k
  | S n' =>
      let* k := store_entry k table (ENTRIES_PER_PAGE_TABLE - Z.of_nat n) pte_zero in
      zero_entries n' table k
  end.

Definition table_zero (table : Z) (k : Kernel) : outcome Kernel :=
  zero_entries (Z.to_nat ENTRIES_PER_PAGE_TABLE) table k.

Definition recursive_address (index : Z) : Z :=
  addr_new_canonical (ops := virtual_ops)
    (Z.lor (Z.lor (Z.lor (Z.shiftl index (PAGE_SHIFT + P1_INDEX_SHIFT))
                         (Z.shiftl index (PAGE_SHIFT + P2_INDEX_SHIFT)))
                  (Z.shiftl index (PAGE_SHIFT + P3_INDEX_SHIFT)))
           (Z.shiftl index (PAGE_SHIFT + P4_INDEX_SHIFT))).

Definition P4 : Z := recursive_address RECURSIVE_P4_INDEX.
Definition UPCOMING_P4 : Z := recursive_address UPCOMING_PAGE_TABLE_RECURSIVE_P4_INDEX.

Definition next_table_address (k : Kernel) (table index : Z) : outcome (option Z) :=
  let* pte := load_entry k table index in
  let flags := pte_flags pte in
  if x86_is_valid flags && negb (x86_is_huge flags) then
    let next_table_vaddr := Z.lor (wrap64 (Z.shiftl table 9)) (Z.shiftl index PAGE_SHIFT) in
    Done (Some (addr_new_canonical (ops := virtual_ops) next_table_vaddr))
  else Done None.

(** [next_table] and [next_table_mut] turn the address back into a reference. *)
Definition next_table (k : Kernel) (table index : Z) : outcome (option Z) :=
  next_table_address k table index.

(** [AllocatedFrames::as_allocated_frame]. *)
Definition as_allocated_frame (af : Frames) : outcome Z :=
  if fsize af =? 1 then Done (fstart af) else Panic.

Definition next_table_create (k : Kernel) (table index flags : Z) : outcome (Z * Kernel) :=
  let* next := next_table k table index in
  let* k :=
    match next with
    | Some _ => Done k
    | None =>
        let* pte := load_entry k table index in
        if x86_is_huge (pte_flags pte) then Panic
        else
          let* (af, a) := fs_allocate_one (k_frames k) in
          let k := set_frames a k in
          let* af := expect af in
          let* frame := as_allocated_frame af in
          let* k := store_entry k table index
                      (set_entry frame (x86_writable (x86_valid flags true) true)) in
          let* created := next_table k table index in
          let* created := expect created in
          table_zero created k
    end in
  let* next := next_table k table index in
  let* next := expect next in
  Done (next, k).

(** ** The mapper *)

Record Mapper := mkMapper { m_p4 : Z; target_p4 : Z }.

Definition with_p4_frame (p4 : Z) : Mapper := mkMapper P4 p4.
Definition from_current (k : Kernel) : Mapper := with_p4_frame (k_cr3 k).
Definition upcoming (p4 : Z) : Mapper := mkMapper UPCOMING_P4 p4.

(** [o.and_then(f)] on references to tables. *)
Definition and_then {X Y} (o : outcome (option X)) (f : X -> outcome (option Y)) : outcome (option Y) :=
  let* x := o in match x with Some x => f x | None => Done None end.

Definition huge_page (k : Kernel) (p3 : option Z) (page : Z) : outcome (option Z) :=
  and_then (Done p3) (fun p3 =>
    let* p3_entry := load_entry k p3 (p3_index page) in
    let gib := match pointed_frame p3_entry with
               | Some start_frame => if x86_is_huge (pte_flags p3_entry) then Some start_frame else None
               | None => None
               end in
    match gib with
    | Some start_frame =>
        if negb (start_frame mod (ENTRIES_PER_PAGE_TABLE * ENTRIES_PER_PAGE_TABLE) =? 0) then Panic
        else Done (Some (containing_address (addr_new_canonical (ops := physical_ops)
               (PAGE_SIZE * (start_frame + p2_index page * ENTRIES_PER_PAGE_TABLE + p1_index page)))))
    | None =>
        and_then (next_table k p3 (p3_index page)) (fun p2 =>
          let* p2_entry := load_entry k p2 (p2_index page) in
          match pointed_frame p2_entry with
          | Some start_frame =>
              if x86_is_huge (pte_flags p2_entry) then
                if negb (start_frame mod ENTRIES_PER_PAGE_TABLE =? 0) then Panic
                else Done (Some (containing_address (addr_new_canonical (ops := physical_ops)
                       (PAGE_SIZE * (start_frame + p1_index page)))))
              else Done None
          | None => Done None
          end)
    end).

Definition translate_page (k : Kernel) (mp : Mapper) (page : Z) : outcome (option Z) :=
  let* p3 := next_table k (m_p4 mp) (p4_index page) in
  let* frame :=
    and_then (and_then (and_then (Done p3)
      (fun p3 => next_table k p3 (p3_index page)))
      (fun p2 => next_table k p2 (p2_index page)))
      (fun p1 => let* pte := load_entry k p1 (p1_index page) in Done (pointed_frame pte)) in
  match frame with
  | Some f => Done (Some f)
  | None => huge_page k p3 page
  end.

Definition translate (k : Kernel) (mp : Mapper) (virtual_address : Z) : outcome (option Z) :=
  let* frame := translate_page k mp (containing_address virtual_address) in
  Done ((fun f => addr_add (ops := physical_ops) (start_address (ops := physical_ops) f)
                    (addr_page_offset virtual_address)) <$> frame).

(** ** Mapping *)

(** [MappedPages]. *)
Record MappedPages := mkMapped { page_table_p4 : Z; mp_pages : AllocatedPages; mp_flags : Z }.

Definition mapped_empty : MappedPages :=
  mkMapped (containing_address 0) (mkPages range_empty) x86_new.

(** The chunks a [for] loop over a range visits. *)
Definition range_chunks (r : ChunkRange) : outcome (list Z) :=
  iter_collect (S (Z.to_nat (size_in_chunks Page4K r))) Page4K (range_iter r).

Definition size_in_pages (p : AllocatedPages) : Z := size_in_chunks Page4K (ap_pages p).

(** The P1 table of a page, creating the tables on the way to it. *)
Definition create_tables (k : Kernel) (mp : Mapper) (page higher_level_flags : Z)
  : outcome (Z * Kernel) :=
  let* (p3, k) := next_table_create k (m_p4 mp) (p4_index page) higher_level_flags in
  let* (p2, k) := next_table_create k p3 (p3_index page) higher_level_flags in
  next_table_create k p2 (p2_index page) higher_level_flags.

(** The loop of [internal_map_to]: [false] when a page was already in use. *)
Fixpoint map_loop (k : Kernel) (mp : Mapper) (higher_level_flags actual_flags : Z)
    (l : list (Z * Z)) : outcome (bool * Kernel) :=
  match l with
  | [] => Done (true, k)
  | (page, frame) :: l' =>
      let* (p1, k) := create_tables k mp page higher_level_flags in
      let* pte := load_entry k p1 (p1_index page) in
      if negb (is_unused pte) then Done (false, k)
      else
        let* k := store_entry k p1 (p1_index page) (set_entry frame actual_flags) in
        map_loop k mp higher_level_flags actual_flags l'
  end.

(** What an early return of [internal_map_to] drops: the frames when they are owned,
    and the pages. *)
Definition map_failed (owned : bool) (frames : Frames) (ap : AllocatedPages) (k : Kernel)
  : outcome Kernel :=
  let* k := if owned then drop_frames_k frames k else Done k in
  Done (drop_pages_k ap k).

Definition internal_map_to (k : Kernel) (mp : Mapper) (ap : AllocatedPages) (owned : bool)
    (frames : Frames) (flags : Z) : outcome (result (MappedPages * Frames) string * Kernel) :=
  let higher_level_flags := x86_adjust_for_higher_level_pte flags in
  let actual_flags := x86_exclusive (x86_valid flags true) owned in
  let pages_count := size_in_pages ap in
  let frames_count := fsize frames in
  if negb (pages_count =? frames_count) then
    let* k := map_failed owned frames ap k in
    Done (Err "map_allocated_pages_to(): page count must equal frame count", k)
  else
    let* ps := range_chunks (ap_pages ap) in
    let* fsl := range_chunks (frame_range frames) in
    let* (unused, k) := map_loop k mp higher_level_flags actual_flags (zip ps fsl) in
    if unused : bool then Done (Ok (mkMapped (target_p4 mp) ap actual_flags, frames), k)
    else
      let* k := map_failed owned frames ap k in
      Done (Err "map_allocated_pages_to(): page was already in use", k).

(** The frames are forgotten: the entries own them now. *)
Definition map_allocated_pages_to (k : Kernel) (mp : Mapper) (ap : AllocatedPages)
    (frames : Frames) (flags : Z) : outcome (result MappedPages string * Kernel) :=
  let* (r, k) := internal_map_to k mp ap true frames flags in
  match r with Ok (mapped, _) => Done (Ok mapped, k) | Err e => Done (Err e, k) end.

Definition map_to_non_exclusive (k : Kernel) (mp : Mapper) (ap : AllocatedPages)
    (frames : Frames) (flags : Z) : outcome (result MappedPages string * Kernel) :=
  let* (r, k) := internal_map_to k mp ap false frames flags in
  match r with Ok (mapped, _) => Done (Ok mapped, k) | Err e => Done (Err e, k) end.

(** The loop of [map_allocated_pages], which takes a frame for each page. *)
Fixpoint map_pages_loop (k : Kernel) (mp : Mapper) (higher_level_flags actual_flags : Z)
    (l : list Z) : outcome (result unit string * Kernel) :=
  match l with
  | [] => Done (Ok tt, k)
  | page :: l' =>
      let* (af, a) := fs_allocate_one (k_frames k) in
      let k := set_frames a k in
      match af with
      | None => Done (Err "map_allocated_pages(): couldn't allocate new frame, out of memory", k)
      | Some af =>
          let* (p1, k) := create_tables k mp page higher_level_flags in
          let* pte := load_entry k p1 (p1_index page) in
          if negb (is_unused pte) then
            let* k := drop_frames_k af k in
            Done (Err "map_allocated_pages(): page was already in use", k)
          else
            let* frame := as_allocated_frame af in
            let* k := store_entry k p1 (p1_index page) (set_entry frame actual_flags) in
            map_pages_loop k mp higher_level_flags actual_flags l'
      end
  end.

Definition map_allocated_pages (k : Kernel) (mp : Mapper) (ap : AllocatedPages) (flags : Z)
  : outcome (result MappedPages string * Kernel) :=
  let higher_level_flags := x86_adjust_for_higher_level_pte flags in
  let actual_flags := x86_exclusive (x86_valid flags true) true in
  let* ps := range_chunks (ap_pages ap) in
  let* (r, k) := map_pages_loop k mp higher_level_flags actual_flags ps in
  match r with
  | Ok _ => Done (Ok (mkMapped (target_p4 mp) ap actual_flags), k)
  | Err e => Done (Err e, drop_pages_k ap k)
  end.

(** ** Mapped pages *)

Definition mapped_merge (self mp : MappedPages)
  : result MappedPages (string * MappedPages) :=
  if negb (page_table_p4 mp =? page_table_p4 self) then
    Err ("failed to merge MappedPages that were mapped into different page tables", mp)
  else if negb (mp_flags mp =? mp_flags self) then
    Err ("failed to merge MappedPages that were mapped with different flags", mp)
  else
    match pages_merge Page4K (mp_pages self) (mp_pages mp) with
    | Ok merged => Ok (mkMapped (page_table_p4 self) merged (mp_flags self))
    | Err orig =>
        Err ("failed to merge MappedPages that weren't virtually contiguous",
             mkMapped (page_table_p4 mp) orig (mp_flags mp))
    end.

Definition mapped_split (self : MappedPages) (at_page : Z)
  : result (MappedPages * MappedPages) MappedPages :=
  match pages_split Page4K (mp_pages self) at_page with
  | Ok (first_ap, second_ap) =>
      Ok (mkMapped (page_table_p4 self) first_ap (mp_flags self),
          mkMapped (page_table_p4 self) second_ap (mp_flags self))
  | Err orig_ap => Err (mkMapped (page_table_p4 self) orig_ap (mp_flags self))
  end.

(** The P1 table of a page, without creating any. *)
Definition find_p1 (k : Kernel) (mp : Mapper) (page : Z) : outcome (option Z) :=
  and_then (and_then (next_table k (m_p4 mp) (p4_index page))
    (fun p3 => next_table k p3 (p3_index page)))
    (fun p2 => next_table k p2 (p2_index page)).

Fixpoint remap_loop (k : Kernel) (mp : Mapper) (new_flags : Z) (l : list Z)
  : outcome (result unit string * Kernel) :=
  match l with
  | [] => Done (Ok tt, k)
  | page :: l' =>
      let* p1 := find_p1 k mp page in
      match p1 with
      | None => Done (Err "mapping code does not support huge pages", k)
      | Some p1 =>
          let* pte := load_entry k p1 (p1_index page) in
          let* k := store_entry k p1 (p1_index page) (set_flags pte new_flags) in
          remap_loop k mp new_flags l'
      end
  end.

(** [MappedPages::remap]: the mapped pages with their new flags. *)
Definition remap (k : Kernel) (self : MappedPages) (mp : Mapper) (new_flags : Z)
  : outcome (result unit string * MappedPages * Kernel) :=
  if size_in_pages (mp_pages self) =? 0 then Done (Ok tt, self, k)
  else
    let new_flags := x86_valid (x86_exclusive new_flags (x86_is_exclusive (mp_flags self))) true in
    if new_flags =? mp_flags self then Done (Ok tt, self, k)
    else
      let* ps := range_chunks (ap_pages (mp_pages self)) in
      let* (r, k) := remap_loop k mp new_flags ps in
      match r with
      | Ok _ => Done (Ok tt, mkMapped (page_table_p4 self) (mp_pages self) new_flags, k)
      | Err e => Done (Err e, self, k)
      end.

(** The loop of [unmap] with its two frame ranges. *)
Fixpoint unmap_loop (k : Kernel) (mp : Mapper) (l : list Z) (first current : option Frames)
  : outcome (result (option Frames * option Frames) string * Kernel) :=
  let fail e k :=
    let* k := drop_opt_frames current k in
    let* k := drop_opt_frames first k in
    Done (Err e, k) in
  match l with
  | [] => Done (Ok (first, current), k)
  | page :: l' =>
      let* p1 := find_p1 k mp page in
      match p1 with
      | None => fail "mapping code does not support huge pages" k
      | Some p1 =>
          let* pte := load_entry k p1 (p1_index page) in
          if is_unused pte then fail "unmap(): page not mapped" k
          else
            let '(unmapped_frames, pte') := set_unmapped pte in
            let* k := store_entry k p1 (p1_index page) pte' in
            match unmapped_frames with
            | Exclusive r =>
                if negb (k_callback k) then
                  fail "BUG: Mapper::unmap(): the `INTO_UNMAPPED_FRAMES_FUNC` callback was not initialized" k
                else
                  let* newly := fs_into_unmapped (k_frames k) r in
                  match current with
                  | Some curr =>
                      match merge Page4K curr newly with
                      | Ok merged => unmap_loop k mp l' first (Some merged)
                      | Err newly =>
                          match first with
                          | None => unmap_loop k mp l' (Some curr) (Some newly)
                          | Some _ =>
                              let* k := drop_frames_k curr k in
                              unmap_loop k mp l' first (Some newly)
                          end
                      end
                  | None => unmap_loop k mp l' first (Some newly)
                  end
            | NonExclusive _ => unmap_loop k mp l' first current
            end
      end
  end.

Definition wrong_p4 : string :=
  "BUG: MappedPages::unmap(): current P4 must equal original P4, cannot unmap MappedPages from a different page table than they were originally mapped to!".

(** [MappedPages::unmap]: the first contiguous range; a later one is dropped. *)
Definition unmap (k : Kernel) (self : MappedPages) (mp : Mapper)
  : outcome (result (option Frames) string * Kernel) :=
  if size_in_pages (mp_pages self) =? 0 then Done (Ok None, k)
  else if negb (target_p4 mp =? page_table_p4 self) then Done (Err wrong_p4, k)
  else
    let* ps := range_chunks (ap_pages (mp_pages self)) in
    let* (r, k) := unmap_loop k mp ps None None in
    match r with
    | Err e => Done (Err e, k)
    | Ok (Some first, current) => let* k := drop_opt_frames current k in Done (Ok (Some first), k)
    | Ok (None, current) => Done (Ok current, k)
    end.

Definition unmap_into_parts (k : Kernel) (self : MappedPages) (mp : Mapper)
  : outcome (result (AllocatedPages * option Frames) MappedPages * Kernel) :=
  let* (r, k) := unmap k self mp in
  match r with
  | Ok first_frames => Done (Ok (mp_pages self, first_frames), k)
  | Err _ => Done (Err self, k)
  end.

(** [Drop] of [MappedPages]: the frames [unmap] returns are dropped, then the pages. *)
Definition drop_mapped (k : Kernel) (self : MappedPages) : outcome Kernel :=
  let* (r, k) := unmap k self (from_current k) in
  let* k := match r with Ok o => drop_opt_frames o k | Err _ => Done k end in
  Done (drop_pages_k (mp_pages self) k).

(** ** Access to the mapped memory

    A reference to a [T] is the address it is at; [size] and [align] are those of
    [T].  An offset that is not aligned is only logged. *)

Definition mapped_start (self : MappedPages) : Z :=
  range_start_address (ops := virtual_ops) (ap_pages (mp_pages self)).

Definition mapped_size_in_bytes (self : MappedPages) : Z :=
  size_in_bytes Page4K (ap_pages (mp_pages self)).

Definition checked_u64 (x : Z) : option Z := if x <=? U64_MAX then Some x else None.

(** The bounds check the four accessors share, with the messages of the caller. *)
Definition check_bounds (self : MappedPages) (byte_offset size : Z) (e_start e_end e_fit : string)
  : result Z string :=
  match checked_u64 (mapped_start self + byte_offset) with
  | None => Err e_start
  | Some start_vaddr =>
      match checked_u64 (byte_offset + size) with
      | None => Err e_end
      | Some end_bound => if mapped_size_in_bytes self <? end_bound then Err e_fit else Ok start_vaddr
      end
  end.

Definition as_type (self : MappedPages) (size align byte_offset : Z) : result Z string :=
  check_bounds self byte_offset size
    "MappedPages::as_type(): overflow: start_address + byte_offset"
    "MappedPages::as_type(): overflow: byte_offset + size_of::<T>())"
    "MappedPages::as_type(): requested type and byte_offset would not fit within the MappedPages bounds".

Definition as_type_mut (self : MappedPages) (size align byte_offset : Z) : result Z string :=
  if negb (x86_is_writable (mp_flags self)) then
    Err "MappedPages::as_type_mut(): MappedPages were not writable"
  else
    check_bounds self byte_offset size
      "MappedPages::as_type_mut(): overflow: start_address + byte_offset"
      "MappedPages::as_type_mut(): overflow: byte_offset + size_of::<T>())"
      "MappedPages::as_type_mut(): requested type and byte_offset would not fit within the MappedPages bounds".

Definition ISIZE_MAX : Z := 2 ^ 63 - 1.

(** A slice is its address and its length. *)
Definition as_slice (self : MappedPages) (size align byte_offset length : Z) : result (Z * Z) string :=
  match checked_u64 (length * size) with
  | None => Err "MappedPages::as_slice(): overflow: length * size_of::<T>()"
  | Some bytes =>
      if ISIZE_MAX <? bytes then
        Err "MappedPages::as_slice(): length * size_of::<T>() must be no larger than isize::MAX"
      else
        match check_bounds self byte_offset bytes
                "MappedPages::as_slice(): overflow: start_address + byte_offset"
                "MappedPages::as_slice_mut(): overflow: byte_offset + (length * size_of::<T>())"
                "MappedPages::as_slice(): requested slice length and byte_offset would not fit within the MappedPages bounds" with
        | Ok start_vaddr => Ok (start_vaddr, length)
        | Err e => Err e
        end
  end.

Definition as_slice_mut (self : MappedPages) (size align byte_offset length : Z) : result (Z * Z) string :=
  match checked_u64 (length * size) with
  | None => Err "MappedPages::as_slice_mut(): overflow: length * size_of::<T>()"
  | Some bytes =>
      if ISIZE_MAX <? bytes then
        Err "MappedPages::as_slice_mut(): length * size_of::<T>() must be no larger than isize::MAX"
      else if negb (x86_is_writable (mp_flags self)) then
        Err "MappedPages::as_slice_mut(): MappedPages were not writable"
      else
        match check_bounds self byte_offset bytes
                "MappedPages::as_slice_mut(): overflow: start_address + byte_offset"
                "MappedPages::as_slice_mut(): overflow: byte_offset + (length * size_of::<T>())"
                "MappedPages::as_slice_mut(): requested slice length and byte_offset would not fit within the MappedPages bounds" with
        | Ok start_vaddr => Ok (start_vaddr, length)
        | Err e => Err e
        end
  end.

(** [BorrowedMappedPages] and [BorrowedSliceMappedPages]: the pointer with the mapping
    it points into; a failed borrow hands the mapping back. *)
Record BorrowedMappedPages := mkBorrowed { bmp_ptr : Z; bmp_mp : MappedPages }.
Record BorrowedSliceMappedPages := mkBorrowedSlice { bsmp_ptr : Z * Z; bsmp_mp : MappedPages }.

Definition borrow_with {P X} (mk : P -> MappedPages -> X) (r : result P string) (mp : MappedPages)
  : result X (MappedPages * string) :=
  match r with Ok p => Ok (mk p mp) | Err e => Err (mp, e) end.

Definition borrowed_from (mp : MappedPages) (size align byte_offset : Z) :=
  borrow_with mkBorrowed (as_type mp size align byte_offset) mp.
Definition borrowed_from_mut (mp : MappedPages) (size align byte_offset : Z) :=
  borrow_with mkBorrowed (as_type_mut mp size align byte_offset) mp.
Definition borrowed_slice_from (mp : MappedPages) (size align byte_offset length : Z) :=
  borrow_with mkBorrowedSlice (as_slice mp size align byte_offset length) mp.
Definition borrowed_slice_from_mut (mp : MappedPages) (size align byte_offset length : Z) :=
  borrow_with mkBorrowedSlice (as_slice_mut mp size align byte_offset length) mp.

(** ** Copying *)

(** The words of a page are copied one by one, from the page at address [src] to the
    one at [dst]. *)
Fixpoint copy_words (n : nat) (src dst : Z) (k : Kernel) : outcome Kernel :=
  match n with
  | O => Done k
  | S n' =>
      let i := ENTRIES_PER_PAGE_TABLE - Z.of_nat n in
      let* w := load_entry k src i in
      let* k := store_entry k dst i w in
      copy_words n' src dst k
  end.

(** [dest.copy_from_slice(source)] on slices of whole pages. *)
Fixpoint copy_pages (n : nat) (src dst : Z) (k : Kernel) : outcome Kernel :=
  match n with
  | O => Done k
  | S n' =>
      let* k := copy_words (Z.to_nat ENTRIES_PER_PAGE_TABLE) src dst k in
      copy_pages n' (src + PAGE_SIZE) (dst + PAGE_SIZE) k
  end.

(** [MappedPages::deep_copy]; an error drops the new mapping. *)
Definition deep_copy (k : Kernel) (self : MappedPages) (mp : Mapper) (new_flags : option Z)
  : outcome (result MappedPages string * Kernel) :=
  let n := size_in_pages (mp_pages self) in
  let* (new_pages, b) := ps_allocate (k_pages k) n in
  let k := set_pages b k in
  match new_pages with
  | None => Done (Err "Couldn't allocate_pages()", k)
  | Some new_pages =>
      let new_flags := default (mp_flags self) new_flags in
      let needs_remapping := negb (x86_is_writable new_flags) in
      let* (r, k) := map_allocated_pages k mp new_pages (x86_writable new_flags true) in
      match r with
      | Err e => Done (Err e, k)
      | Ok copy =>
          match as_slice self PAGE_SIZE 1 0 n with
          | Err e => let* k := drop_mapped k copy in Done (Err e, k)
          | Ok (source, _) =>
              match as_slice_mut copy PAGE_SIZE 1 0 n with
              | Err e => let* k := drop_mapped k copy in Done (Err e, k)
              | Ok (dest, _) =>
                  let* k := copy_pages (Z.to_nat n) source dest k in
                  if needs_remapping then
                    let* (r, copy, k) := remap k copy mp new_flags in
                    match r with
                    | Ok _ => Done (Ok copy, k)
                    | Err e => let* k := drop_mapped k copy in Done (Err e, k)
                    end
                  else Done (Ok copy, k)
              end
          end
      end
  end.

(** ** Temporary pages *)

Record TemporaryPage := mkTemp { mapped_page : MappedPages; tp_frame : Frames }.

Record PageTableObj := mkPageTable { pt_mapper : Mapper; p4_table : Frames }.

Definition TEMPORARY_PAGE_VIRT_ADDR : Z := MAX_VIRTUAL_ADDRESS.

(** The search for a page, downwards from the highest address. *)
Fixpoint find_temporary_page (fuel : nat) (page : option AllocatedPages) (vaddr : Z) (k : Kernel)
  : outcome (option AllocatedPages * Kernel) :=
  match fuel with
  | O => Panic
  | S fuel' =>
      if bool_decide (page = None) && negb (vaddr =? 0) then
        let* (page, b) := ps_allocate_one_at (k_pages k) vaddr in
        find_temporary_page fuel' page (addr_sub (ops := virtual_ops) vaddr PAGE_SIZE) (set_pages b k)
      else Done (page, k)
  end.

Definition table_flags : Z := x86_writable (x86_valid x86_new true) true.

Definition create_and_map_table_frame (fuel : nat) (k : Kernel) (page : option AllocatedPages)
    (frame : Frames) (page_table : PageTableObj)
  : outcome (result TemporaryPage string * Kernel) :=
  let vaddr := addr_new_canonical (ops := virtual_ops) TEMPORARY_PAGE_VIRT_ADDR in
  let* (page, k) := find_temporary_page fuel page vaddr k in
  match page with
  | None =>
      let* k := drop_frames_k frame k in
      Done (Err "Couldn't allocate a new Page for the temporary P4 table frame", k)
  | Some page =>
      let* (r, k) := internal_map_to k (pt_mapper page_table) page true frame table_flags in
      match r with
      | Ok (mapped, frame) => Done (Ok (mkTemp mapped frame), k)
      | Err e => Done (Err e, k)
      end
  end.

(** A [Table] is 4096 bytes and 8-byte aligned. *)
Definition with_table_and_frame {R} (k : Kernel) (tp : TemporaryPage)
    (f : Z -> Frames -> Kernel -> outcome (R * Kernel)) : outcome (result R string * Kernel) :=
  match as_type_mut (mapped_page tp) 4096 8 0 with
  | Err e => Done (Err e, k)
  | Ok table => let* (r, k) := f table (tp_frame tp) k in Done (Ok r, k)
  end.

Definition temp_unmap_into_parts (k : Kernel) (tp : TemporaryPage) (page_table : PageTableObj)
  : outcome (result (AllocatedPages * option Frames) string * Kernel) :=
  let* (r, k) := unmap_into_parts k (mapped_page tp) (pt_mapper page_table) in
  match r with
  | Ok parts => Done (Ok parts, k)
  | Err e_mp =>
      let* k := drop_mapped k e_mp in
      Done (Err "BUG: TemporaryPage::unmap_into_parts(): failed to unmap internal MappedPages into its parts.", k)
  end.

(** ** Page tables *)

Definition page_table_switch (k : Kernel) (new_table : PageTableObj) : Kernel :=
  mkKernel (k_mem k) (fstart (p4_table new_table)) (k_frames k) (k_pages k) (k_callback k).

(** [PageTable::from_current], with [allocate_frames_at] as an argument. *)
Definition page_table_from_current (allocate_at : A -> Z -> outcome (option Frames * A)) (k : Kernel)
  : outcome (option PageTableObj * Kernel) :=
  let* (r, a) := allocate_at (k_frames k) (start_address (ops := physical_ops) (k_cr3 k)) in
  let k := set_frames a k in
  match r with
  | Some current_p4 => Done (Some (mkPageTable (with_p4_frame (fstart current_p4)) current_p4), k)
  | None => Done (None, k)
  end.

Definition physical_address (pt : PageTableObj) : Z := range_start_address (ops := physical_ops) (frame_range (p4_table pt)).

(** Write an entry that maps the table's own frame. *)
Definition set_table_entry (table index : Z) (frame : Frames) (k : Kernel) : outcome Kernel :=
  let* f := as_allocated_frame frame in
  store_entry k table index (set_entry f table_flags).

Definition new_table (fuel : nat) (k : Kernel) (current_page_table : PageTableObj)
    (new_p4_frame : Frames) (page : option AllocatedPages)
  : outcome (result PageTableObj string * Kernel) :=
  let p4_frame := fstart new_p4_frame in
  let* (r, k) := create_and_map_table_frame fuel k page new_p4_frame current_page_table in
  match r with
  | Err e => Done (Err e, k)
  | Ok temporary_page =>
      let* (r, k) := with_table_and_frame k temporary_page (fun new_table frame k =>
        let* k := table_zero new_table k in
        let* k := set_table_entry new_table RECURSIVE_P4_INDEX frame k in
        Done (tt, k)) in
      match r with
      | Err e => let* k := drop_mapped k (mapped_page temporary_page) in Done (Err e, k)
      | Ok _ =>
          let* (r, k) := temp_unmap_into_parts k temporary_page current_page_table in
          match r with
          | Err e => Done (Err e, k)
          | Ok (temp_page, inited) =>
              let k := drop_pages_k temp_page k in
              match inited with
              | Some f => Done (Ok (mkPageTable (with_p4_frame p4_frame) f), k)
              | None => Done (Err "BUG: PageTable::new_table(): failed to take back unmapped Frame for p4_table", k)
              end
          end
      end
  end.

(** [PageTable::with]: the result of the closure, the other page table, the kernel.
    Both entries are cleared through the mappers of the two tables. *)
Definition page_table_with {R} (fuel : nat) (k : Kernel) (self other_table : PageTableObj)
    (f : Mapper -> Mapper -> Kernel -> outcome (result R string * Kernel))
  : outcome (result R string * PageTableObj * Kernel) :=
  let active_p4_frame := k_cr3 k in
  if negb (fstart (p4_table self) =? active_p4_frame) || negb (fend (p4_table self) =? active_p4_frame)
  then Done (Err "PageTable::with(): this PageTable ('self') must be the currently active page table.",
             other_table, k)
  else
    let other_p4 := p4_table other_table in
    let other_taken := mkPageTable (pt_mapper other_table) frames_empty in
    let other_p4_frame := fstart other_p4 in
    let* (r, k) := create_and_map_table_frame fuel k None other_p4 self in
    match r with
    | Err e => Done (Err e, other_taken, k)
    | Ok temporary_page =>
        let* (r, k) := with_table_and_frame k temporary_page (fun table frame k =>
          let* k := set_table_entry (m_p4 (pt_mapper self)) UPCOMING_PAGE_TABLE_RECURSIVE_P4_INDEX frame k in
          let* k := set_table_entry table UPCOMING_PAGE_TABLE_RECURSIVE_P4_INDEX frame k in
          Done (tt, k)) in
        match r with
        | Err e => let* k := drop_mapped k (mapped_page temporary_page) in Done (Err e, other_taken, k)
        | Ok _ =>
            let mapper := upcoming other_p4_frame in
            let* (ret, k) := f mapper (pt_mapper self) k in
            let* k := store_entry k (m_p4 (pt_mapper self)) UPCOMING_PAGE_TABLE_RECURSIVE_P4_INDEX pte_zero in
            let* k := store_entry k (m_p4 (pt_mapper other_table)) UPCOMING_PAGE_TABLE_RECURSIVE_P4_INDEX pte_zero in
            let* (r, k) := temp_unmap_into_parts k temporary_page self in
            match r with
            | Err e => Done (Err e, other_taken, k)
            | Ok (temp_page, p4_frame) =>
                let k := drop_pages_k temp_page k in
                match p4_frame with
                | None => Done (Err "BUG: PageTable::with(): failed to take back unmapped Frame for p4_table",
                                other_taken, k)
                | Some p4_frame => Done (ret, mkPageTable (pt_mapper other_table) p4_frame, k)
                end
            end
        end
    end.

End PageTable.
Arguments Kernel : clear implicits.
