(* ===== verification/PageWalk.v ===== *)
(** * Page tables through recursive addresses

    The lemmas that relate the code of PageTable.v, which follows virtual addresses,
    to the tables in memory.  [follow m t p] is the table reached from table [t] along
    the indices [p]; [gwalk] is the processor's walk as a recursion over the indices.
    A reference to the table at path [p] is the recursive address whose four indices
    are the recursive index repeated and then [p]; the processor translates it to the
    frame [follow] gives. *)

From S2P Require Import Prelude MemStructs FrameAlloc PageAlloc PteFlags PageTable.

#[local] Existing Instance x86_arch.

(** ** Entries as the processor sees them *)

Section Entries.
Context {bf : Bitflags} {bl : BitflagsLaws bf}.

Lemma pte_flags_bit (e n : Z) : 0 <= n -> Z.testbit X86_all n = true ->
  Z.testbit (pte_flags e) n = Z.testbit e n.
Proof.
  intros Hn Ha. rewrite pte_flags_eq. cbn [ARCH_all x86_arch]. by rewrite Z.land_spec, Ha, andb_true_r.
Qed.

Lemma pte_is_valid (e : Z) : x86_is_valid (pte_flags e) = hw_present e.
Proof. unfold x86_is_valid, X86_VALID. by rewrite contains_bit, pte_flags_bit by done. Qed.

Lemma pte_is_huge (e : Z) : x86_is_huge (pte_flags e) = hw_page_size e.
Proof. unfold x86_is_huge, X86_HUGE_PAGE. by rewrite contains_bit, pte_flags_bit by done. Qed.

Lemma pte_frame (e : Z) : frame_value e = hw_frame e.
Proof. exact (frame_value_eq (arch := x86_arch) e). Qed.

Lemma pte_pointed (e : Z) : pointed_frame e = if hw_present e then Some (hw_frame e) else None.
Proof. unfold pointed_frame. rewrite <- pte_frame. by rewrite <- pte_is_valid. Qed.

Lemma hw_frame_fits (e : Z) : 0 <= hw_frame e < 2 ^ 40.
Proof. apply Z.mod_pos_bound. lia. Qed.

Lemma set_entry_bit (f flags n : Z) :
  frame_fits f -> flags_in X86_all flags -> 0 <= n -> Z.testbit X86_all n = true ->
  Z.testbit (set_entry f flags) n = Z.testbit flags n.
Proof.
  intros Hf Hfl Hn Ha. rewrite <- pte_flags_bit by done. by rewrite set_entry_flags.
Qed.

Lemma set_entry_hw_frame (f flags : Z) :
  frame_fits f -> flags_in X86_all flags -> hw_frame (set_entry f flags) = f.
Proof. intros. rewrite <- pte_frame. by apply set_entry_frame. Qed.

End Entries.

(** ** Indices of addresses *)

(** The four indices of a page. *)
Definition ix4 (page : Z) : list Z := [p4_index page; p3_index page; p2_index page; p1_index page].

Lemma ix4_mod (n : Z) : ix4 (n mod 2 ^ 36) = ix4 n.
Proof.
  pose proof (page_index_decompose (n mod 2 ^ 36)) as H1. rewrite Z.mod_mod in H1 by lia.
  pose proof (page_index_decompose n) as H2. pose proof (page_index_bounds n).
  pose proof (page_index_bounds (n mod 2 ^ 36)). change ENTRIES_PER_PAGE_TABLE with 512 in *.
  unfold ix4. set (m := n mod 2 ^ 36) in *.
  assert (p4_index m = p4_index n /\ p3_index m = p3_index n /\ p2_index m = p2_index n /\
          p1_index m = p1_index n) as (-> & -> & -> & ->) by lia. done.
Qed.

Lemma ix4_shift (n idx : Z) :
  0 <= idx < 512 -> ix4 (512 * n + idx) = [p3_index n; p2_index n; p1_index n; idx].
Proof.
  intros Hi. unfold ix4, p4_index, p3_index, p2_index, p1_index.
  rewrite !land_1FF, !Z.shiftr_div_pow2 by lia. change (2 ^ 27) with (512 * (512 * 512)).
  change (2 ^ 18) with (512 * 512). change (2 ^ 9) with 512.
  rewrite <- !(Z.div_div (512 * n + idx)) by lia.
  assert ((512 * n + idx) / 512 = n) as -> by (rewrite Z.mul_comm, Z.div_add_l by lia; rewrite Z.div_small; lia).
  do 4 f_equal.
  rewrite Z.add_comm, Z.mul_comm, Z.mod_add by lia. apply Z.mod_small. lia.
Qed.

Lemma lor_low (a b k : Z) : 0 <= k -> 0 <= b < 2 ^ k -> Z.lor (a * 2 ^ k) b = a * 2 ^ k + b.
Proof.
  intros Hk Hb. symmetry. apply Z.add_nocarry_lor. apply Z.bits_inj'. intros n Hn.
  rewrite Z.land_spec, Z.bits_0. destruct (decide (n < k)).
  - by rewrite Z.mul_pow2_bits_low.
  - rewrite <- (Z.mod_small b (2 ^ k)) by done. rewrite Z.mod_pow2_bits_high by lia. apply andb_false_r.
Qed.

(** A page-aligned virtual address. *)
Definition aligned (a : Z) : Prop := in_u64 a /\ a mod 4096 = 0.

(** The address [next_table_address] computes for the table at [a]. *)
Definition next_address (a index : Z) : Z :=
  addr_new_canonical (ops := virtual_ops)
    (Z.lor (wrap64 (Z.shiftl a 9)) (Z.shiftl index PAGE_SHIFT)).

Lemma canonical_aligned (n : Z) :
  in_u64 (4096 * n) ->
  let c := addr_new_canonical (ops := virtual_ops) (4096 * n) in
  aligned c /\ ix4 (containing_address c) = ix4 n.
Proof.
  intros Hu c. assert (in_u64 c) as Hc by (apply virtual_laws; done).
  assert (c mod 2 ^ 48 = (4096 * n) mod 2 ^ 48) as E.
  { unfold c, addr_new_canonical. simpl. rewrite canonicalize_virtual_eq by done.
    pose proof (Z.mod_pos_bound (4096 * n) (2 ^ 48) ltac:(lia)). destruct (_ <? _).
    - apply Z.mod_mod. lia.
    - replace (2 ^ 64 - 2 ^ 48) with (65535 * 2 ^ 48) by lia.
      rewrite Z.add_comm, Z.mod_add, Z.mod_mod by lia. done. }
  change (2 ^ 48) with (4096 * 2 ^ 36) in E. rewrite !mod_split in E by lia.
  assert ((4096 * n) mod 4096 = 0) as H0 by (rewrite Z.mul_comm; apply Z.mod_mul; lia).
  assert (4096 * n / 4096 = n) as Hd by (rewrite Z.mul_comm; apply Z.div_mul; lia).
  rewrite H0, Hd in E. pose proof (Z.mod_pos_bound c 4096 ltac:(lia)).
  split; [split; [done|lia]|]. unfold containing_address. rewrite SIZE_4K_val.
  rewrite <- (ix4_mod (c / 4096)), <- (ix4_mod n). f_equal. lia.
Qed.

Lemma next_address_spec (a index : Z) :
  aligned a -> 0 <= index < 512 ->
  aligned (next_address a index) /\
  ix4 (containing_address (next_address a index)) = tail (ix4 (containing_address a)) ++ [index].
Proof.
  intros [Hu Ha] Hi. unfold next_address.
  assert (a = 4096 * (a / 4096)) as Ea by (pose proof (Z.div_mod a 4096); lia).
  set (n := a / 4096) in *.
  assert (wrap64 (Z.shiftl a 9) = 4096 * (512 * (n mod 2 ^ 43))) as Hw.
  { unfold wrap64. rewrite Z.shiftl_mul_pow2, Ea by lia.
    replace (4096 * n * 2 ^ 9) with (n * 2 ^ 21) by lia.
    change 18446744073709551616 with (2 ^ 43 * 2 ^ 21). rewrite Z.mul_mod_distr_r by lia. lia. }
  rewrite Hw, Z.shiftl_mul_pow2 by (unfold PAGE_SHIFT; lia). change (2 ^ PAGE_SHIFT) with 4096.
  pose proof (Z.mod_pos_bound n (2 ^ 43) ltac:(lia)) as Hn.
  replace (4096 * (512 * (n mod 2 ^ 43))) with (n mod 2 ^ 43 * 2 ^ 21) by lia.
  rewrite lor_low by lia.
  replace (n mod 2 ^ 43 * 2 ^ 21 + index * 4096) with (4096 * (512 * (n mod 2 ^ 43) + index)) by lia.
  destruct (canonical_aligned (512 * (n mod 2 ^ 43) + index)) as [Hal Hix].
  { unfold in_u64, U64_MAX. lia. }
  split; [done|]. rewrite Hix, ix4_shift by done.
  assert (ix4 (n mod 2 ^ 43) = ix4 n) as Hm.
  { rewrite <- ix4_mod, <- (ix4_mod n). f_equal. change (2 ^ 43) with (2 ^ 36 * 2 ^ 7).
    rewrite mod_split by lia. rewrite Z.add_comm, Z.mul_comm, Z.mod_add, Z.mod_mod by lia. done. }
  unfold containing_address. rewrite SIZE_4K_val. fold n. unfold ix4 in Hm |- *. injection Hm as ? -> -> ->. done.
Qed.

Lemma recursive_address_spec (r : Z) :
  0 <= r < 512 ->
  aligned (recursive_address r) /\ ix4 (containing_address (recursive_address r)) = [r; r; r; r].
Proof.
  intros Hr. unfold recursive_address.
  change (PAGE_SHIFT + P1_INDEX_SHIFT) with 12. change (PAGE_SHIFT + P2_INDEX_SHIFT) with 21.
  change (PAGE_SHIFT + P3_INDEX_SHIFT) with 30. change (PAGE_SHIFT + P4_INDEX_SHIFT) with 39.
  rewrite !Z.shiftl_mul_pow2 by lia.
  rewrite (Z.lor_comm (r * 2 ^ 12)), lor_low by lia.
  rewrite (Z.lor_comm _ (r * 2 ^ 30)), lor_low by lia.
  rewrite (Z.lor_comm _ (r * 2 ^ 39)), lor_low by lia.
  replace (r * 2 ^ 39 + (r * 2 ^ 30 + (r * 2 ^ 21 + r * 2 ^ 12)))
    with (4096 * (512 * (512 * (512 * r + r) + r) + r)) by lia.
  destruct (canonical_aligned (512 * (512 * (512 * r + r) + r) + r)) as [? ->].
  { unfold in_u64, U64_MAX. lia. }
  split; [done|].
  pose proof (ix4_shift (512 * (512 * r + r) + r) r Hr) as E1.
  pose proof (ix4_shift (512 * r + r) r Hr) as E2. pose proof (ix4_shift r r Hr) as E3.
  unfold ix4 in *. simplify_eq.
  assert (p1_index r = r).
  { unfold p1_index. rewrite land_1FF. apply Z.mod_small. lia. }
  congruence.
Qed.

(** ** Tables along a path of indices *)

Section Follow.
Implicit Types (m : table_memory) (p q l : list Z).

(** The table an entry points to: it is present and does not map a huge page. *)
Definition d_next m (t i : Z) : option Z :=
  let e := m t i in if hw_present e && negb (hw_page_size e) then Some (hw_frame e) else None.

Fixpoint follow m (t : Z) p : option Z :=
  match p with
  | [] => Some t
  | i :: p' => match d_next m t i with Some t' => follow m t' p' | None => None end
  end.

(** Every entry along the path is writable. *)
Fixpoint writable_path m (t : Z) p : bool :=
  match p with
  | [] => true
  | i :: p' => hw_writable (m t i) &&
               match d_next m t i with Some t' => writable_path m t' p' | None => true end
  end.

(** The frame within a huge page; a huge entry of the P4 table does not translate. *)
Definition huge_frame (base : Z) (rest : list Z) : option Z :=
  match rest with
  | [i1] => Some (base - base mod 512 + i1)
  | [i2; i1] => Some (base - base mod 262144 + i2 * 512 + i1)
  | _ => None
  end.

Fixpoint gwalk m (t : Z) l : option Z :=
  match l with
  | [] => Some t
  | i :: l' =>
      let e := m t i in
      if negb (hw_present e) then None
      else match l' with
           | [] => Some (hw_frame e)
           | _ => if hw_page_size e then huge_frame (hw_frame e) l' else gwalk m (hw_frame e) l'
           end
  end.

Lemma mmu_gwalk m (cr3 page : Z) : fst <$> mmu_walk m cr3 page = gwalk m cr3 (ix4 page).
Proof.
  unfold mmu_walk, ix4. cbn [gwalk]. destruct (hw_present (m cr3 _)); [|done]. cbn [negb orb].
  destruct (hw_page_size (m cr3 _)); [done|]. destruct (hw_present (m (hw_frame _) (p3_index _))); [|done].
  cbn [negb]. destruct (hw_page_size (m (hw_frame _) (p3_index _))); [done|].
  destruct (hw_present (m (hw_frame _) (p2_index _))); [|done]. cbn [negb].
  destruct (hw_page_size (m (hw_frame _) (p2_index _))); [done|].
  by destruct (hw_present (m (hw_frame _) (p1_index _))).
Qed.

Lemma d_next_Some m (t i u : Z) :
  d_next m t i = Some u <->
  hw_present (m t i) = true /\ hw_page_size (m t i) = false /\ hw_frame (m t i) = u.
Proof.
  unfold d_next. destruct (hw_present (m t i)), (hw_page_size (m t i)); simpl;
    (split; [intros|intros (? & ? & ?)]; simplify_eq; auto).
Qed.

Lemma mmu_follow m (cr3 page t : Z) :
  follow m cr3 (ix4 page) = Some t ->
  mmu_walk m cr3 page = Some (t, writable_path m cr3 (ix4 page)).
Proof.
  unfold ix4, mmu_walk. cbn [follow writable_path]. intros H.
  destruct (d_next m cr3 _) as [t3|] eqn:E4; [|done]. apply d_next_Some in E4 as (-> & -> & ->).
  destruct (d_next m t3 _) as [t2|] eqn:E3; [|done]. apply d_next_Some in E3 as (-> & -> & ->).
  destruct (d_next m t2 _) as [t1|] eqn:E2; [|done]. apply d_next_Some in E2 as (-> & -> & ->).
  destruct (d_next m t1 _) as [t0|] eqn:E1; [|done]. apply d_next_Some in E1 as (-> & _ & ->).
  simplify_eq/=. by rewrite andb_true_r, !andb_assoc.
Qed.

Lemma follow_app m (t : Z) p q :
  follow m t (p ++ q) = match follow m t p with Some u => follow m u q | None => None end.
Proof. revert t. induction p as [|i p IH]; intros t; simpl; [done|]. by destruct (d_next m t i). Qed.

Lemma writable_app m (t u : Z) p q :
  follow m t p = Some u ->
  writable_path m t (p ++ q) = writable_path m t p && writable_path m u q.
Proof.
  revert t. induction p as [|i p IH]; intros t Hf; simpl in *; [by simplify_eq|].
  destruct (d_next m t i); [|done]. by rewrite IH, andb_assoc.
Qed.

(** The recursive slot [r]: in the active P4 table [A] and in the P4 table [R] that
    the mapper works on it points to [R]. *)
Record recursive m (A R r : Z) : Prop := {
  rec_A : d_next m A r = Some R;
  rec_R : d_next m R r = Some R;
  rec_A_w : hw_writable (m A r) = true;
  rec_R_w : hw_writable (m R r) = true;
}.

Lemma follow_recursive m (A R r : Z) (n : nat) p :
  recursive m A R r ->
  follow m A (replicate (S n) r ++ p) = follow m R p /\
  writable_path m A (replicate (S n) r ++ p) = writable_path m R p.
Proof.
  intros [HA HR HAw HRw].
  assert (H : follow m R (replicate n r ++ p) = follow m R p /\
              writable_path m R (replicate n r ++ p) = writable_path m R p).
  { induction n as [|n IH]; simpl; [done|]. by rewrite HR, HRw. }
  simpl. by rewrite HA, HAw.
Qed.

(** [a] is the address of the table at path [p] below [R], which is the frame [t]. *)
Record table_ref m (R r : Z) p (a t : Z) : Prop := {
  tr_aligned : aligned a;
  tr_ix : ix4 (containing_address a) = replicate (4 - length p) r ++ p;
  tr_len : (length p <= 3)%nat;
  tr_follow : follow m R p = Some t;
}.

Lemma table_ref_walk m (A R r : Z) p (a t : Z) :
  recursive m A R r -> table_ref m R r p a t ->
  mmu_walk m A (containing_address a) = Some (t, writable_path m R p).
Proof.
  intros Hr [Ha Hix Hl Hf]. replace (4 - length p)%nat with (S (3 - length p)) in Hix by lia.
  destruct (follow_recursive m A R r (3 - length p) p Hr) as [E1 E2].
  rewrite <- Hix in E1, E2. rewrite <- E2. apply mmu_follow. by rewrite E1.
Qed.

Lemma table_ref_root m (R r : Z) :
  0 <= r < 512 -> table_ref m R r [] (recursive_address r) R.
Proof. intros Hr. destruct (recursive_address_spec r Hr). split; [done|done|simpl; lia|done]. Qed.

Lemma table_ref_next m (R r i : Z) p (a t t' : Z) :
  table_ref m R r p a t -> (length p < 3)%nat -> 0 <= i < 512 -> d_next m t i = Some t' ->
  table_ref m R r (p ++ [i]) (next_address a i) t'.
Proof.
  intros [Ha Hix Hl Hf] Hlt Hi Hn. destruct (next_address_spec a i Ha Hi) as [Ha' Hix'].
  split; [done| |rewrite length_app; simpl; lia|].
  - rewrite Hix', Hix, length_app. simpl. replace (4 - length p)%nat with (S (3 - length p)) by lia.
    replace (4 - (length p + 1))%nat with (3 - length p)%nat by lia. simpl. by rewrite <- app_assoc.
  - rewrite follow_app, Hf. simpl. by rewrite Hn.
Qed.

End Follow.

(** ** The operations on tables, through references *)

Section Access.
Context {bf : Bitflags} {bl : BitflagsLaws bf} {FA PB : Type} {fs : FrameSource FA} {ps : PageSource PB}.
Implicit Types (k : Kernel FA PB) (p : list Z).
Context (R r : Z).

Lemma load_entry_ok k p a t i :
  recursive (k_mem k) (k_cr3 k) R r -> table_ref (k_mem k) R r p a t -> 0 <= i < 512 ->
  load_entry k a i = Done (k_mem k t i).
Proof.
  intros Hr Ht Hi. unfold load_entry. rewrite (table_ref_walk _ _ _ _ _ _ _ Hr Ht).
  change ENTRIES_PER_PAGE_TABLE with 512.
  by rewrite (proj2 (Z.leb_le 0 i)), (proj2 (Z.ltb_lt i 512)) by lia.
Qed.

Lemma store_entry_walk k a t i e :
  mmu_walk (k_mem k) (k_cr3 k) (containing_address a) = Some (t, true) -> 0 <= i < 512 ->
  store_entry k a i e = Done (set_mem (upd (k_mem k) t i e) k).
Proof.
  intros Hw Hi. unfold store_entry. rewrite Hw. change ENTRIES_PER_PAGE_TABLE with 512.
  by rewrite (proj2 (Z.leb_le 0 i)), (proj2 (Z.ltb_lt i 512)) by lia.
Qed.

Lemma store_entry_ok k p a t i e :
  recursive (k_mem k) (k_cr3 k) R r -> table_ref (k_mem k) R r p a t ->
  writable_path (k_mem k) R p = true -> 0 <= i < 512 ->
  store_entry k a i e = Done (set_mem (upd (k_mem k) t i e) k).
Proof.
  intros Hr Ht Hw Hi. apply store_entry_walk; [|done]. rewrite <- Hw. by apply (table_ref_walk _ _ _ r).
Qed.

Lemma next_table_ok k p a t i :
  recursive (k_mem k) (k_cr3 k) R r -> table_ref (k_mem k) R r p a t -> 0 <= i < 512 ->
  next_table k a i =
    Done (match d_next (k_mem k) t i with Some _ => Some (next_address a i) | None => None end).
Proof.
  intros Hr Ht Hi. unfold next_table, next_table_address.
  rewrite (load_entry_ok k p a t i Hr Ht Hi). cbn [outcome_bind].
  rewrite pte_is_valid, pte_is_huge. unfold d_next.
  by destruct (hw_present _), (hw_page_size _).
Qed.

End Access.

(** ** Translation *)

Section Translate.
Context {bf : Bitflags} {bl : BitflagsLaws bf} {FA PB : Type} {fs : FrameSource FA} {ps : PageSource PB}.
Implicit Types (k : Kernel FA PB).
Context (R r : Z) (Hr : 0 <= r < 512).

(** The huge entries on the way to a page map naturally aligned frames, which the
    processor requires and [translate_page] asserts. *)
Definition huge_aligned (m : table_memory) (page : Z) : Prop :=
  (forall t3, follow m R [p4_index page] = Some t3 ->
     hw_present (m t3 (p3_index page)) = true -> hw_page_size (m t3 (p3_index page)) = true ->
     hw_frame (m t3 (p3_index page)) mod 262144 = 0) /\
  (forall t2, follow m R [p4_index page; p3_index page] = Some t2 ->
     hw_present (m t2 (p2_index page)) = true -> hw_page_size (m t2 (p2_index page)) = true ->
     hw_frame (m t2 (p2_index page)) mod 512 = 0).

Lemma huge_address (n : Z) :
  0 <= n < 2 ^ 40 ->
  containing_address (addr_new_canonical (ops := physical_ops) (PAGE_SIZE * n)) = n.
Proof.
  intros Hn. change PAGE_SIZE with 4096.
  assert (addr_new_canonical (ops := physical_ops) (4096 * n) = 4096 * n) as ->.
  { apply (low_mask_id 52); lia. }
  unfold containing_address. rewrite SIZE_4K_val, Z.mul_comm. apply Z.div_mul. lia.
Qed.

Lemma huge_base (f w off : Z) :
  0 < w -> (2 ^ 40) mod w = 0 -> 0 <= f < 2 ^ 40 -> f mod w = 0 -> 0 <= off < w -> 0 <= f + off < 2 ^ 40.
Proof.
  intros Hw Hd Hf Hm Ho. pose proof (Z.div_mod f w). pose proof (Z.div_mod (2 ^ 40) w).
  assert (f / w < 2 ^ 40 / w) by (apply Z.mul_lt_mono_pos_l with w; lia).
  nia.
Qed.

Lemma translate_gwalk k (mp : Mapper) (page : Z) :
  recursive (k_mem k) (k_cr3 k) R r -> m_p4 mp = recursive_address r ->
  huge_aligned (k_mem k) page ->
  translate_page k mp page = Done (gwalk (k_mem k) R (ix4 page)).
Proof.
  intros Hrec Hmp [H3 H2]. set (m := k_mem k) in *.
  pose proof (page_index_bounds page) as (B4 & B3 & B2 & B1).
  change ENTRIES_PER_PAGE_TABLE with 512 in *.
  pose proof (table_ref_root m R r Hr) as T4. rewrite <- Hmp in T4.
  unfold translate_page, huge_page, and_then. change ENTRIES_PER_PAGE_TABLE with 512. rewrite (next_table_ok R r k [] _ _ _ Hrec T4 B4). fold m. cbn [outcome_bind].
  unfold ix4. cbn [gwalk]. destruct (d_next m R (p4_index page)) as [t3|] eqn:E4.
  2:{ cbn [outcome_bind].
      unfold d_next in E4. destruct (hw_present (m R _)); [|done].
      by destruct (hw_page_size (m R _)). }
  pose proof (table_ref_next _ _ _ _ _ _ _ _ T4 ltac:(simpl; lia) B4 E4) as T3.
  specialize (H3 t3). cbn [follow] in H3. rewrite E4 in H3. specialize (H3 eq_refl).
  specialize (fun t2 => H2 t2). cbn [follow] in H2. rewrite E4 in H2.
  apply d_next_Some in E4 as (-> & -> & ->). cbn [negb].
  set (a3 := next_address _ _) in *. cbn [outcome_bind].
  rewrite (load_entry_ok R r k _ _ _ _ Hrec T3 B3).
  rewrite (next_table_ok R r k _ _ _ _ Hrec T3 B3). fold m. cbn [outcome_bind].
  rewrite pte_pointed, pte_is_huge.
  destruct (d_next m t3 (p3_index page)) as [t2|] eqn:E3.
  2:{ cbn [outcome_bind]. unfold d_next in E3. destruct (hw_present (m t3 _)) eqn:Ep; [|done].
      destruct (hw_page_size (m t3 _)) eqn:Eh; [|done]. specialize (H3 eq_refl eq_refl).
      change (512 * 512) with 262144. rewrite H3. cbn [Z.eqb negb huge_frame].
      rewrite huge_address. { rewrite H3. do 2 f_equal. lia. }
      rewrite <- Z.add_assoc. apply (huge_base _ 262144); [lia|done|apply hw_frame_fits|done|lia]. }
  pose proof (table_ref_next _ _ _ _ _ _ _ _ T3 ltac:(simpl; lia) B3 E3) as T2.
  specialize (H2 t2 eq_refl). apply d_next_Some in E3 as (-> & -> & ->). cbn [negb].
  set (a2 := next_address _ _) in *. cbn [outcome_bind].
  rewrite (load_entry_ok R r k _ _ _ _ Hrec T2 B2).
  rewrite (next_table_ok R r k _ _ _ _ Hrec T2 B2). fold m. cbn [outcome_bind].
  rewrite pte_pointed, pte_is_huge.
  destruct (d_next m t2 (p2_index page)) as [t1|] eqn:E2.
  2:{ cbn [outcome_bind]. unfold d_next in E2. destruct (hw_present (m t2 _)) eqn:Ep; [|done].
      destruct (hw_page_size (m t2 _)) eqn:Eh; [|done]. specialize (H2 eq_refl eq_refl).
      rewrite H2. cbn [Z.eqb negb huge_frame]. rewrite huge_address. { rewrite H2. do 2 f_equal. lia. }
      apply (huge_base _ 512); [lia|done|apply hw_frame_fits|done|lia]. }
  pose proof (table_ref_next _ _ _ _ _ _ _ _ T2 ltac:(simpl; lia) B2 E2) as T1.
  apply d_next_Some in E2 as (-> & -> & ->). cbn [negb outcome_bind].
  rewrite (load_entry_ok R r k _ _ _ _ Hrec T1 B1). fold m. cbn [outcome_bind].
  rewrite pte_pointed. by destruct (hw_present (m t1 _)).
Qed.

End Translate.
