(* ===== verification/PageTree.v ===== *)
(** * The tree of page tables

    The invariant [tree_ok] of a root table: the tables below it, other than through
    the two recursive slots, are distinct frames that are in use, and every entry that
    points to one of them is writable.  Writing a lowest-level entry and adding a table
    preserve it and change the translation of exactly the page, respectively of no
    page. *)

From S2P Require Import Prelude MemStructs FrameAlloc PageAlloc PteFlags PageTable PageWalk.

#[local] Existing Instance x86_arch.

Section Tree.
Implicit Types (m : table_memory) (p q l : list Z).

Lemma rev_ind_inv p : p = [] \/ exists p' x, p = p' ++ [x].
Proof. destruct p as [|x p] using rev_ind; eauto. Qed.

(** ** Agreement of two memories along a path *)

Definition agree_along m m' (t : Z) p : Prop :=
  forall q i l u, p = q ++ i :: l -> follow m t q = Some u -> m' u i = m u i.

Lemma agree_cons m m' t i p :
  agree_along m m' t (i :: p) ->
  m' t i = m t i /\ (forall u, d_next m t i = Some u -> agree_along m m' u p).
Proof.
  intros H. split; [by apply (H [] i p)|]. intros u Hu q j l v -> Hq.
  apply (H (i :: q) j l); [done|]. simpl. by rewrite Hu.
Qed.

Lemma d_next_eq m m' t i : m' t i = m t i -> d_next m' t i = d_next m t i.
Proof. intros H. unfold d_next. by rewrite H. Qed.

Lemma follow_agree m m' t p : agree_along m m' t p -> follow m' t p = follow m t p.
Proof.
  revert t. induction p as [|i p IH]; intros t H; simpl; [done|].
  apply agree_cons in H as [Hi Hp]. rewrite (d_next_eq m m') by done.
  destruct (d_next m t i) as [u|] eqn:E; [|done]. by apply IH, Hp.
Qed.

Lemma writable_agree m m' t p : agree_along m m' t p -> writable_path m' t p = writable_path m t p.
Proof.
  revert t. induction p as [|i p IH]; intros t H; simpl; [done|].
  apply agree_cons in H as [Hi Hp]. rewrite (d_next_eq m m'), Hi by done.
  destruct (d_next m t i) as [u|] eqn:E; [|done]. f_equal. by apply IH, Hp.
Qed.

Lemma gwalk_agree m m' t l : agree_along m m' t l -> gwalk m' t l = gwalk m t l.
Proof.
  revert t. induction l as [|i l IH]; intros t H; [done|].
  apply agree_cons in H as [Hi Hp]. cbn [gwalk]. rewrite Hi.
  destruct (hw_present (m t i)) eqn:E; [|done]. cbn [negb]. destruct l as [|j l]; [done|].
  destruct (hw_page_size (m t i)) eqn:Eh; [done|]. apply IH, Hp.
  apply d_next_Some. done.
Qed.

(** A walk along tables ends at the entry of the last one. *)
Lemma gwalk_leaf m0 t0 p0 u0 j :
  follow m0 t0 p0 = Some u0 ->
  gwalk m0 t0 (p0 ++ [j]) = if hw_present (m0 u0 j) then Some (hw_frame (m0 u0 j)) else None.
Proof.
  revert t0. induction p0 as [|x p0 IH]; intros t0 H; simpl in H.
  - simplify_eq. simpl. by destruct (hw_present _).
  - destruct (d_next m0 t0 x) as [t1|] eqn:E; [|done]. apply d_next_Some in E as (E1 & E2 & E3).
    cbn [gwalk app]. rewrite E1, E2, E3. cbn [negb]. destruct (p0 ++ [j]) eqn:El; [by destruct p0|].
    by apply IH.
Qed.

(** ** The invariant *)

Definition reserved_slot (i : Z) : bool :=
  (i =? UPCOMING_PAGE_TABLE_RECURSIVE_P4_INDEX) || (i =? RECURSIVE_P4_INDEX).

(** Indices in range that do not start in a recursive slot. *)
Definition plain p : Prop :=
  Forall (fun i => 0 <= i < 512) p /\ match p with i :: _ => reserved_slot i = false | [] => True end.

Lemma plain_nil : plain [].
Proof. done. Qed.

Lemma plain_app_l p q : plain (p ++ q) -> plain p.
Proof.
  intros [Hf Hh]. apply Forall_app in Hf as [Hf _]. split; [done|]. by destruct p.
Qed.

Lemma plain_index p i l : plain (p ++ i :: l) -> 0 <= i < 512.
Proof. intros [Hf _]. apply Forall_app in Hf as [_ Hf]. by inversion Hf. Qed.

Record tree_ok m (A R : Z) (U : Z -> Prop) : Prop := {
  to_inj : forall p q t, plain p -> plain q -> (length p <= 3)%nat -> (length q <= 3)%nat ->
    follow m R p = Some t -> follow m R q = Some t -> p = q;
  to_used : forall p t, plain p -> (length p <= 3)%nat -> follow m R p = Some t -> U t;
  to_writable : forall p t, plain p -> (length p <= 3)%nat -> follow m R p = Some t ->
    writable_path m R p = true;
  to_active : forall p t, plain p -> (length p <= 3)%nat -> p <> [] -> follow m R p = Some t -> t <> A;
  to_used_active : U A;
}.

Lemma tree_used_root m A R U : tree_ok m A R U -> U R.
Proof. intros H. apply (to_used _ _ _ _ H [] R); [apply plain_nil|simpl; lia|done]. Qed.

(** The invariant only depends on the tables. *)
Lemma tree_ok_ext m m' A R (U U' : Z -> Prop) :
  tree_ok m A R U -> (forall t, U t -> U' t) ->
  (forall p, plain p -> (length p <= 3)%nat ->
     follow m' R p = follow m R p /\ writable_path m' R p = writable_path m R p) ->
  tree_ok m' A R U'.
Proof.
  intros Ht HU Hp. split.
  - intros p q t Pp Pq Lp Lq. destruct (Hp p Pp Lp) as [-> _]. destruct (Hp q Pq Lq) as [-> _].
    by apply (to_inj _ _ _ _ Ht).
  - intros p t Pp Lp. destruct (Hp p Pp Lp) as [-> _]. intros. apply HU. by apply (to_used _ _ _ _ Ht p).
  - intros p t Pp Lp. destruct (Hp p Pp Lp) as [-> ->]. by apply (to_writable _ _ _ _ Ht).
  - intros p t Pp Lp Hn. destruct (Hp p Pp Lp) as [-> _]. by apply (to_active _ _ _ _ Ht).
  - apply HU, (to_used_active _ _ _ _ Ht).
Qed.

(** A write below the tables named in the recursive slots keeps them. *)
Lemma recursive_agree m m' (A R r : Z) :
  recursive m A R r -> m' A r = m A r -> m' R r = m R r -> recursive m' A R r.
Proof.
  intros [HA HR HAw HRw] EA ER. split; [| |by rewrite EA|by rewrite ER].
  - by rewrite (d_next_eq m m').
  - by rewrite (d_next_eq m m').
Qed.

(** The entry at index [i] of the table at path [q]: zero where there is no table. *)
Definition entry_at m (R : Z) q (i : Z) : Z :=
  match follow m R q with Some u => m u i | None => 0 end.

Lemma entry_at_agree m m' R q i :
  agree_along m m' R (q ++ [i]) -> entry_at m' R q i = entry_at m R q i.
Proof.
  intros H. unfold entry_at. rewrite (follow_agree m m').
  - destruct (follow m R q) eqn:E; [|done]. by apply (H q i []).
  - intros q' j l u -> Hu. apply (H q' j (l ++ [i])); [|done]. by rewrite <- app_assoc.
Qed.

(** ** Writing a lowest-level entry *)

Section Leaf.
Context m m' (A R r : Z) (U : Z -> Prop) q (t i e : Z).
Context (Ht : tree_ok m A R U) (Hq : plain q) (Hlen : length q = 3%nat) (Hf : follow m R q = Some t).
Context (Hm' : forall f j, m' f j = upd m t i e f j).

Lemma leaf_agree l :
  plain l -> (length l <= 4)%nat -> l <> q ++ [i] -> agree_along m m' R l.
Proof.
  intros Pl Ll Hne q' j l' u -> Hu. rewrite Hm'. unfold upd.
  destruct (Z.eqb_spec u t) as [->|]; [|done]. destruct (Z.eqb_spec j i) as [->|]; [|done].
  exfalso. apply Hne. rewrite length_app in Ll. simpl in Ll.
  assert (q' = q) as ->.
  { eapply (to_inj _ _ _ _ Ht); eauto using plain_app_l; lia. }
  f_equal. f_equal. apply length_zero_iff_nil. lia.
Qed.

Lemma leaf_table p :
  plain p -> (length p <= 3)%nat ->
  follow m' R p = follow m R p /\ writable_path m' R p = writable_path m R p.
Proof.
  intros Pp Lp. assert (agree_along m m' R p) as Ha.
  { apply leaf_agree; [done|lia|]. intros ->. rewrite length_app in Lp. simpl in Lp. lia. }
  split; [by apply follow_agree|by apply writable_agree].
Qed.

Lemma leaf_tree : tree_ok m' A R U.
Proof. eapply tree_ok_ext; [done|done|]. apply leaf_table. Qed.

Lemma leaf_not_root : t <> A /\ t <> R.
Proof.
  split.
  - eapply (to_active _ _ _ _ Ht q); eauto; [lia|]. by destruct q.
  - intros ->. assert (q = []) as ->; [|done].
    eapply (to_inj _ _ _ _ Ht); eauto using plain_nil; simpl; lia.
Qed.

Lemma leaf_recursive : recursive m A R r -> recursive m' A R r.
Proof.
  intros Hr. pose proof leaf_not_root as [H1 H2].
  eapply recursive_agree; [done| |]; rewrite Hm'; unfold upd;
    destruct (Z.eqb_spec A t), (Z.eqb_spec R t); by try congruence.
Qed.

Lemma leaf_other l : plain l -> length l = 4%nat -> l <> q ++ [i] -> gwalk m' R l = gwalk m R l.
Proof. intros. apply gwalk_agree, leaf_agree; [done|lia|done]. Qed.

Lemma leaf_entry_other q' j :
  plain (q' ++ [j]) -> (length q' <= 3)%nat -> q' ++ [j] <> q ++ [i] ->
  entry_at m' R q' j = entry_at m R q' j.
Proof.
  intros P L Hne. apply entry_at_agree, leaf_agree; [done| |done]. rewrite length_app. simpl. lia.
Qed.

Lemma leaf_entry_self : entry_at m' R q i = e.
Proof.
  unfold entry_at. destruct (leaf_table q Hq ltac:(lia)) as [-> _]. rewrite Hf, Hm'.
  unfold upd. by rewrite !Z.eqb_refl.
Qed.

Lemma leaf_self : gwalk m' R (q ++ [i]) = if hw_present e then Some (hw_frame e) else None.
Proof.
  destruct (leaf_table q Hq ltac:(lia)) as [E _]. rewrite Hf in E.
  rewrite (gwalk_leaf _ _ _ _ _ E), Hm'. unfold upd. by rewrite !Z.eqb_refl.
Qed.

End Leaf.

(** ** Adding a table *)

Section Create.
Context m m' (A R r : Z) (U : Z -> Prop) p (t i e nf : Z).
Context (Ht : tree_ok m A R U) (Hp : plain (p ++ [i])) (Hlen : (length p <= 2)%nat).
Context (Hf : follow m R p = Some t) (Hfree : hw_present (m t i) = false) (Hnew : ~ U nf).
Context (He : hw_present e = true /\ hw_page_size e = false /\ hw_frame e = nf /\ hw_writable e = true).
(** The new entry is written, and the table it points to is cleared. *)
Context (Hm' : forall f j, f <> nf -> m' f j = upd m t i e f j).
Context (Hz : forall j, 0 <= j < 512 -> m' nf j = 0).

Lemma create_t_ne : t <> nf.
Proof.
  intros ->. apply Hnew. eapply (to_used _ _ _ _ Ht p); [by eapply plain_app_l|lia|done].
Qed.

Lemma create_agree l :
  plain l -> (length l <= 4)%nat -> (forall l2, l <> p ++ i :: l2) -> agree_along m m' R l.
Proof.
  intros Pl Ll Hne q j l' u -> Hu. rewrite length_app in Ll. simpl in Ll.
  assert (U u) by (eapply (to_used _ _ _ _ Ht q); [by eapply plain_app_l|lia|done]).
  rewrite Hm' by (intros ->; done). unfold upd.
  destruct (Z.eqb_spec u t) as [->|]; [|done]. destruct (Z.eqb_spec j i) as [->|]; [|done].
  exfalso. apply (Hne l'). f_equal.
  eapply (to_inj _ _ _ _ Ht); eauto using plain_app_l; lia.
Qed.

Lemma create_parent : agree_along m m' R p.
Proof.
  apply create_agree; [by eapply plain_app_l|lia|]. intros l2 E.
  apply (f_equal length) in E. rewrite length_app in E. simpl in E. lia.
Qed.

Lemma create_entry : m' t i = e.
Proof.
  rewrite Hm' by apply create_t_ne. unfold upd. by rewrite !Z.eqb_refl.
Qed.

Lemma create_new : follow m' R (p ++ [i]) = Some nf.
Proof.
  rewrite follow_app, (follow_agree _ _ _ _ create_parent), Hf. simpl.
  assert (d_next m' t i = Some nf) as ->; [|done]. apply d_next_Some. rewrite create_entry. tauto.
Qed.

(** What [follow] gives below the new entry: the new table and nothing under it. *)
Lemma create_below l : plain (p ++ i :: l) -> follow m R (p ++ i :: l) = None /\
  follow m' R (p ++ i :: l) = match l with [] => Some nf | _ => None end.
Proof.
  intros Pl. split.
  - rewrite follow_app, Hf. simpl. unfold d_next. by rewrite Hfree.
  - change (i :: l) with ([i] ++ l). rewrite app_assoc, follow_app, create_new.
    destruct l as [|j l]; [done|]. simpl. unfold d_next. rewrite Hz; [done|].
    change (i :: j :: l) with ([i] ++ j :: l) in Pl. rewrite app_assoc in Pl. by apply plain_index in Pl.
Qed.

(** Each path is below the new entry or as it was. *)
Lemma create_cases l :
  (exists l2, l = p ++ i :: l2) \/ (forall l2, l <> p ++ i :: l2).
Proof.
  destruct (decide (take (length p) l = p)) as [Ep|Hn].
  - destruct (drop (length p) l) as [|x l2] eqn:Ed.
    + right. intros l2 ->. rewrite drop_app_length in Ed. done.
    + destruct (decide (x = i)) as [->|Hx].
      * left. exists l2. by rewrite <- Ep at 1; rewrite <- Ed, take_drop.
      * right. intros l3 ->. rewrite drop_app_length in Ed. by simplify_eq.
  - right. intros l2 ->. by rewrite take_app_length in Hn.
Qed.

Lemma create_table l :
  plain l -> (length l <= 3)%nat ->
  (l = p ++ [i] /\ follow m' R l = Some nf) \/
  (follow m' R l = follow m R l /\ (forall u, follow m R l = Some u -> writable_path m' R l = writable_path m R l)).
Proof.
  intros Pl Ll. destruct (create_cases l) as [[l2 ->]|Hne].
  - destruct (create_below l2 Pl) as [E1 E2]. destruct l2; [by left|right].
    rewrite E1, E2. done.
  - right. pose proof (create_agree l Pl ltac:(lia) Hne). split; [by apply follow_agree|].
    intros. by apply writable_agree.
Qed.

(** No table is gone. *)
Lemma create_kept l u :
  plain l -> (length l <= 3)%nat -> follow m R l = Some u -> follow m' R l = Some u.
Proof.
  intros Pl Ll Hu. destruct (create_table l Pl Ll) as [[-> _]|[-> _]]; [|done].
  by rewrite (proj1 (create_below [] Pl)) in Hu.
Qed.

Lemma create_tree : tree_ok m' A R (fun f => U f \/ f = nf).
Proof.
  split.
  - intros l1 l2 u P1 P2 L1 L2 F1 F2.
    destruct (create_table l1 P1 L1) as [[-> E1]|[E1 _]], (create_table l2 P2 L2) as [[-> E2]|[E2 _]].
    + done.
    + rewrite E2 in F2. exfalso. apply Hnew. replace nf with u by congruence.
      by eapply (to_used _ _ _ _ Ht l2).
    + rewrite E1 in F1. exfalso. apply Hnew. replace nf with u by congruence.
      by eapply (to_used _ _ _ _ Ht l1).
    + rewrite E1 in F1. rewrite E2 in F2. by eapply (to_inj _ _ _ _ Ht).
  - intros l u Pl Ll F. destruct (create_table l Pl Ll) as [[-> E]|[E _]]; [right; congruence|].
    left. rewrite E in F. by eapply (to_used _ _ _ _ Ht l).
  - intros l u Pl Ll F. destruct (create_table l Pl Ll) as [[-> E]|[E Ew]].
    + rewrite (writable_app m' R t p [i]) by (by rewrite (follow_agree _ _ _ _ create_parent)).
      rewrite (writable_agree _ _ _ _ create_parent), (to_writable _ _ _ _ Ht p t);
        [|by eapply plain_app_l|lia|done].
      simpl. rewrite create_entry. destruct He as (_ & _ & _ & ->). by destruct (d_next _ _ _).
    + rewrite E in F. rewrite (Ew u F). by eapply (to_writable _ _ _ _ Ht).
  - intros l u Pl Ll Hn F -> . destruct (create_table l Pl Ll) as [[-> E]|[E _]].
    + apply Hnew. replace nf with A by congruence. apply (to_used_active _ _ _ _ Ht).
    + rewrite E in F. by eapply (to_active _ _ _ _ Ht l).
  - left. apply (to_used_active _ _ _ _ Ht).
Qed.

Lemma create_recursive : reserved_slot r = true -> recursive m A R r -> recursive m' A R r.
Proof.
  intros Hr Hrec. assert (Hkeep : forall f, U f -> (f = A \/ f = R) -> m' f r = m f r).
  { intros f Hf' HAR. rewrite Hm' by (intros ->; done). unfold upd.
    destruct (Z.eqb_spec f t) as [->|]; [|done]. destruct (Z.eqb_spec r i) as [->|]; [|done]. exfalso.
    assert (p = []) as ->.
    { destruct HAR as [->| ->].
      - destruct (decide (p = [])); [done|]. exfalso.
        eapply (to_active _ _ _ _ Ht p); [by eapply plain_app_l|lia|done|done|done].
      - eapply (to_inj _ _ _ _ Ht); eauto using plain_app_l, plain_nil; simpl; lia. }
    destruct Hp as [_ Hh]. simpl in Hh. congruence. }
  eapply recursive_agree; [done|apply Hkeep|apply Hkeep]; auto;
    [apply (to_used_active _ _ _ _ Ht)|by eapply tree_used_root].
Qed.

Lemma create_entry_other q j :
  plain (q ++ [j]) -> (length q <= 3)%nat -> q ++ [j] <> p ++ [i] ->
  entry_at m' R q j = entry_at m R q j.
Proof.
  intros P L Hne. destruct (create_cases (q ++ [j])) as [[l2 E]|Hn].
  - destruct (rev_ind_inv l2) as [->|(l3 & x & ->)]; [congruence|].
    replace (p ++ i :: l3 ++ [x]) with ((p ++ i :: l3) ++ [x]) in E by (by rewrite <- app_assoc).
    apply app_inj_tail in E as [-> ->]. pose proof (plain_app_l _ _ P) as P'.
    destruct (create_below l3 P') as [E1 E2]. unfold entry_at. rewrite E1, E2.
    destruct l3; [|done]. apply Hz. by apply plain_index in P.
  - apply entry_at_agree, create_agree; [done| |done]. rewrite length_app. simpl. lia.
Qed.

Lemma create_entry_self : entry_at m' R p i = e.
Proof.
  unfold entry_at. rewrite (follow_agree _ _ _ _ create_parent), Hf. apply create_entry.
Qed.

Lemma gwalk_below m0 t0 p0 u0 j l :
  follow m0 t0 p0 = Some u0 -> hw_present (m0 u0 j) = false -> gwalk m0 t0 (p0 ++ j :: l) = None.
Proof.
  revert t0. induction p0 as [|x p0 IH]; intros t0 H Hj; simpl in H.
  - simplify_eq. simpl. by rewrite Hj.
  - destruct (d_next m0 t0 x) as [t1|] eqn:E; [|done]. apply d_next_Some in E as (E1 & E2 & E3).
    cbn [gwalk app]. rewrite E1, E2, E3. cbn [negb]. destruct (p0 ++ j :: l) eqn:El; [by destruct p0|].
    by apply IH.
Qed.

Lemma create_walk l : plain l -> length l = 4%nat -> gwalk m' R l = gwalk m R l.
Proof.
  intros Pl Ll. destruct (create_cases l) as [[l2 ->]|Hne].
  - rewrite length_app in Ll. simpl in Ll. destruct l2 as [|j l2]; [simpl in Ll; lia|].
    rewrite (gwalk_below m R p t i) by done.
    change (i :: j :: l2) with ([i] ++ j :: l2) in *. rewrite app_assoc in *.
    apply (gwalk_below m' R _ nf j); [apply create_new|].
    rewrite Hz; [done|]. by eapply plain_index.
  - apply gwalk_agree, create_agree; [done|lia|done].
Qed.

End Create.
End Tree.

(** ** An empty root *)

Section Empty.
Context (m : table_memory) (R : Z).
Context (Hempty : forall i, 0 <= i < 512 -> reserved_slot i = false -> m R i = 0).

Lemma empty_follow (p : list Z) (t : Z) : plain p -> follow m R p = Some t -> p = [].
Proof.
  destruct p as [|i p]; [done|]. intros [Hf Hs] H. apply Forall_cons in Hf as [Hi _].
  simpl in H. unfold d_next in H. by rewrite Hempty in H.
Qed.

Lemma empty_tree : tree_ok m R R (fun f => f = R).
Proof.
  split; [| | | |done].
  - intros p q t Pp Pq _ _ Fp Fq. by rewrite (empty_follow p t), (empty_follow q t).
  - intros p t Pp _ F. rewrite (empty_follow p t) in F by done. by injection F.
  - intros p t Pp _ F. by rewrite (empty_follow p t).
  - intros p t Pp _ Hn F. by rewrite (empty_follow p t) in Hn.
Qed.

End Empty.
