(* ===== verification/PageMap.v ===== *)
(** * Mapping pages

    The laws the mapper needs of the frame allocator, the invariant of the kernel
    state, and what [next_table_create], the mapping loops and the mapping functions
    do to the page tables. *)

From S2P Require Import Prelude MemStructs FrameAlloc PageAlloc PteFlags PageTable PageWalk PageTree.

#[local] Existing Instance x86_arch.

(** ** What the frame allocator promises

    [fs_inv a U]: the allocator is consistent and does not own the frames [U];
    [fs_avail a n]: it has [n] frames left. *)
Class FrameSourceLaws (A : Type) {fs : FrameSource A} := {
  fs_inv : A -> (Z -> Prop) -> Prop;
  fs_avail : A -> nat -> Prop;
  fs_free : A -> Z -> Prop;
  fs_avail_mono a n : fs_avail a (S n) -> fs_avail a n;
  fs_inv_weaken a (U U' : Z -> Prop) : fs_inv a U -> (forall f, U' f -> U f) -> fs_inv a U';
  fs_allocate_law a U n :
    fs_inv a U -> fs_avail a (S n) ->
    exists ty f a', fs_allocate_one a = Done (Some (mkFrames ty (mkRange f f)), a') /\
      0 <= f < 2 ^ 40 /\ ~ U f /\ fs_inv a' (fun g => U g \/ g = f) /\ fs_avail a' n;
  fs_into_law a U r :
    fs_inv a U -> wf_range r -> (forall f, in_range f r -> U f) ->
    exists ty, ty <> TyUnknown /\ fs_into_unmapped a r = Done (mkFrames ty r);
  fs_drop_law a U x :
    fs_inv a U -> wf_range (frame_range x) -> typ x <> TyUnknown ->
    (forall f, in_range f (frame_range x) -> U f) ->
    exists a', fs_drop a x = Done a' /\ fs_inv a' (fun g => U g /\ ~ in_range g (frame_range x)) /\
      (forall g, fs_free a' g <-> fs_free a g \/ in_range g (frame_range x)) /\
      forall n, fs_avail a n -> fs_avail a' n;
  fs_free_law a U f : fs_inv a U -> U f -> ~ fs_free a f;
}.

Section Map.
Context {bf : Bitflags} {bl : BitflagsLaws bf} {FA PB : Type}.
Context {fs : FrameSource FA} {fl : FrameSourceLaws FA} {ps : PageSource PB}.
Implicit Types (k : Kernel FA PB) (p q l : list Z) (U F : Z -> Prop).

(** A mapper that works on the root [R] through the recursive slot [r]. *)
Context (R r : Z).

(** The frames [U] hold the tables; the frames [F] are owned by someone else, a
    mapping or a caller.  The allocator owns neither. *)
Record kinv F k U : Prop := {
  ki_slot : reserved_slot r = true;
  ki_rec : recursive (k_mem k) (k_cr3 k) R r;
  ki_tree : tree_ok (k_mem k) (k_cr3 k) R U;
  ki_frames : fs_inv (k_frames k) (fun g => U g \/ F g);
  ki_disjoint : forall g, F g -> ~ U g;
}.

(** What a sequence of mapper operations leaves alone: only the pages whose indices
    are in [L] may be translated differently or have another lowest-level entry; tables
    may have been added and none is gone, and no entry starts to map a huge page. *)
Record changed (L : list (list Z)) k k' : Prop := {
  ch_cr3 : k_cr3 k' = k_cr3 k;
  ch_pages : k_pages k' = k_pages k;
  ch_callback : k_callback k' = k_callback k;
  ch_walk : forall l, plain l -> length l = 4%nat -> l ∉ L ->
    gwalk (k_mem k') R l = gwalk (k_mem k) R l;
  ch_leaf : forall q i, plain (q ++ [i]) -> length q = 3%nat -> q ++ [i] ∉ L ->
    entry_at (k_mem k') R q i = entry_at (k_mem k) R q i;
  ch_size : forall q i, plain (q ++ [i]) -> (length q <= 2)%nat ->
    hw_page_size (entry_at (k_mem k') R q i) = hw_page_size (entry_at (k_mem k) R q i);
  ch_tables : forall q t, plain q -> (length q <= 3)%nat ->
    follow (k_mem k) R q = Some t -> follow (k_mem k') R q = Some t;
}.

(** The tables have grown and nothing else has changed. *)
Definition grown k k' : Prop := changed [] k k'.

Lemma changed_refl k : changed [] k k.
Proof. by split. Qed.

Lemma changed_trans L1 L2 k1 k2 k3 : changed L1 k1 k2 -> changed L2 k2 k3 -> changed (L1 ++ L2) k1 k3.
Proof.
  intros G1 G2. split.
  - by rewrite (ch_cr3 _ _ _ G2), (ch_cr3 _ _ _ G1).
  - by rewrite (ch_pages _ _ _ G2), (ch_pages _ _ _ G1).
  - by rewrite (ch_callback _ _ _ G2), (ch_callback _ _ _ G1).
  - intros l ? ? [? ?]%not_elem_of_app. by rewrite (ch_walk _ _ _ G2), (ch_walk _ _ _ G1).
  - intros q i ? ? [? ?]%not_elem_of_app. by rewrite (ch_leaf _ _ _ G2), (ch_leaf _ _ _ G1).
  - intros. by rewrite (ch_size _ _ _ G2), (ch_size _ _ _ G1).
  - intros. by apply (ch_tables _ _ _ G2), (ch_tables _ _ _ G1).
Qed.

(** ** Clearing a table *)

(** The table is at a virtual address that the walk translates to the frame [nf],
    whatever [nf] holds. *)
Lemma zero_entries_walk (n : nat) k a nf :
  (n <= 512)%nat ->
  (forall m, (forall f j, f <> nf -> m f j = k_mem k f j) ->
     mmu_walk m (k_cr3 k) (containing_address a) = Some (nf, true)) ->
  exists k', zero_entries n a k = Done k' /\ k_cr3 k' = k_cr3 k /\ k_frames k' = k_frames k /\
    k_pages k' = k_pages k /\ k_callback k' = k_callback k /\
    (forall f j, f <> nf -> k_mem k' f j = k_mem k f j) /\
    (forall j, 512 - Z.of_nat n <= j < 512 -> k_mem k' nf j = 0) /\
    (forall j, j < 512 - Z.of_nat n -> k_mem k' nf j = k_mem k nf j).
Proof.
  revert k. induction n as [|n IH]; intros k Hn Hsafe.
  { exists k. split_and!; try done. intros. lia. }
  cbn [zero_entries]. change ENTRIES_PER_PAGE_TABLE with 512.
  rewrite (store_entry_walk k a nf) by (lia || by apply Hsafe). cbn [outcome_bind].
  set (k1 := set_mem _ k). set (i := 512 - Z.of_nat (S n)).
  assert (Hk1 : forall f j, k_mem k1 f j = upd (k_mem k) nf i 0 f j) by done.
  assert (Hoff : forall f j, f <> nf -> k_mem k1 f j = k_mem k f j).
  { intros f j Hf. rewrite Hk1. unfold upd. by destruct (Z.eqb_spec f nf). }
  destruct (IH k1) as (k' & Hz & Hc & Hfr & Hp & Hcb & Ho & Hzero & Hlow); [lia| |].
  { intros m Hm. apply Hsafe. intros f j Hf. by rewrite Hm, Hoff. }
  exists k'. split_and!; try done.
  - intros f j Hf. by rewrite Ho, Hoff.
  - intros j Hj. destruct (decide (j = i)) as [->|Hne].
    + rewrite Hlow, Hk1 by (unfold i; lia). unfold upd. by rewrite !Z.eqb_refl.
    + apply Hzero. unfold i in Hne. lia.
  - intros j Hj. rewrite Hlow, Hk1 by lia. unfold upd. destruct (Z.eqb_spec j i); [unfold i in *; lia|].
    by rewrite andb_false_r.
Qed.

Lemma zero_entries_ok (n : nat) k p a nf :
  (n <= 512)%nat ->
  (forall m, (forall f j, f <> nf -> m f j = k_mem k f j) ->
     recursive m (k_cr3 k) R r /\ table_ref m R r p a nf /\ writable_path m R p = true) ->
  exists k', zero_entries n a k = Done k' /\ k_cr3 k' = k_cr3 k /\ k_frames k' = k_frames k /\
    k_pages k' = k_pages k /\ k_callback k' = k_callback k /\
    (forall f j, f <> nf -> k_mem k' f j = k_mem k f j) /\
    (forall j, 512 - Z.of_nat n <= j < 512 -> k_mem k' nf j = 0) /\
    (forall j, j < 512 - Z.of_nat n -> k_mem k' nf j = k_mem k nf j).
Proof.
  intros Hn Hsafe. apply zero_entries_walk; [done|]. intros m Hm. destruct (Hsafe m Hm) as (Hrec & Href & Hw).
  rewrite <- Hw. by apply (table_ref_walk m (k_cr3 k) R r).
Qed.

(** ** Creating a table *)

(** The flags of an entry that points to a table. *)
Definition table_entry_flags (flags : Z) : Z := x86_writable (x86_valid flags true) true.

Lemma table_entry_flags_ok (flags : Z) :
  flags_in X86_all flags -> Z.testbit flags 7 = false ->
  flags_in X86_all (table_entry_flags flags) /\
  Z.testbit (table_entry_flags flags) 0 = true /\ Z.testbit (table_entry_flags flags) 1 = true /\
  Z.testbit (table_entry_flags flags) 7 = false.
Proof.
  intros Hf H7. unfold table_entry_flags, x86_writable, x86_valid, X86_WRITABLE, X86_VALID.
  split; [by repeat apply x86_set_in|]. rewrite !set_spec by lia. done.
Qed.

Lemma table_entry_hw (f flags : Z) :
  0 <= f < 2 ^ 40 -> flags_in X86_all flags -> Z.testbit flags 7 = false ->
  let e := set_entry f (table_entry_flags flags) in
  hw_present e = true /\ hw_page_size e = false /\ hw_frame e = f /\ hw_writable e = true.
Proof.
  intros Hf Hfl H7 e. destruct (table_entry_flags_ok flags Hfl H7) as (Hin & H0 & H1 & H7').
  unfold hw_present, hw_page_size, hw_writable, e. rewrite !set_entry_bit by done.
  by rewrite set_entry_hw_frame.
Qed.

Lemma one_frame (ty : MemoryRegionType) (f : Z) :
  0 <= f < 2 ^ 40 -> as_allocated_frame (mkFrames ty (mkRange f f)) = Done f.
Proof.
  intros Hf. unfold as_allocated_frame, fsize, fstart. simpl frame_range.
  rewrite size_4k by (simpl; mem_consts; lia). simpl. by rewrite (proj2 (Z.eqb_eq _ _)) by lia.
Qed.

(** Installing the frame [f] as the table at path [p ++ [i]] of the tree of [k]. *)
Section Install.
Context F k U p (a t i e f : Z).
Context (Hk : kinv F k U) (Href : table_ref (k_mem k) R r p a t) (Hpl : plain (p ++ [i])).
Context (Hlen : (length p <= 2)%nat) (Hfree : hw_present (k_mem k t i) = false) (HnU : ~ U f) (HnF : ~ F f).
Context (He : hw_present e = true /\ hw_page_size e = false /\ hw_frame e = f /\ hw_writable e = true).

Let Hfol : follow (k_mem k) R p = Some t := tr_follow _ _ _ _ _ _ Href.
Let Htree := ki_tree _ _ _ Hk.

Lemma parent_writable : writable_path (k_mem k) R p = true.
Proof. eapply (to_writable _ _ _ _ Htree); [by eapply plain_app_l|lia|done]. Qed.

(** Once the entry is written, the new table and its parent are reachable whatever
    the new table holds. *)
Lemma install_refs (m : table_memory) :
  (forall g j, g <> f -> m g j = upd (k_mem k) t i e g j) ->
  recursive m (k_cr3 k) R r /\ table_ref m R r (p ++ [i]) (next_address a i) f /\
  writable_path m R (p ++ [i]) = true /\ table_ref m R r p a t /\ d_next m t i = Some f.
Proof.
  intros Hm. pose proof He as (He0 & He7 & Hef & Hew).
  assert (Hag : agree_along (k_mem k) m R p).
  { eapply (create_parent (k_mem k) m (k_cr3 k) R U p t i e f); eauto. }
  assert (Hreft : table_ref m R r p a t).
  { destruct Href. split; auto. by rewrite (follow_agree (k_mem k) m). }
  assert (Hme : m t i = e) by (eapply (create_entry (k_mem k) m (k_cr3 k) R U p t i e f); eauto).
  assert (Hdn : d_next m t i = Some f) by (apply d_next_Some; rewrite Hme; auto).
  split_and!; [| | |done|done].
  - eapply (create_recursive (k_mem k) m (k_cr3 k) R r U p t i e f); eauto; apply Hk.
  - eapply table_ref_next; eauto; [lia|]. by eapply plain_index.
  - rewrite (writable_app m R t p [i]) by (apply Hreft). rewrite (writable_agree (k_mem k) m) by done.
    rewrite parent_writable. simpl. rewrite Hme, Hew. by rewrite Hdn.
Qed.

Context k' (Hcr3 : k_cr3 k' = k_cr3 k) (Hkp : k_pages k' = k_pages k) (Hcb : k_callback k' = k_callback k).
Context (Hps : hw_page_size (k_mem k t i) = false).
Context (Hoff : forall g j, g <> f -> k_mem k' g j = upd (k_mem k) t i e g j).
Context (Hz : forall j, 0 <= j < 512 -> k_mem k' f j = 0).

Lemma install_grown : grown k k'.
Proof.
  split; [done|done|done| | | |].
  - intros. eapply (create_walk (k_mem k) (k_mem k') (k_cr3 k) R U p t i e f); eauto.
  - intros q j Pq Lq _. eapply (create_entry_other (k_mem k) (k_mem k') (k_cr3 k) R U p t i e f); eauto; [lia|].
    intros E. apply (f_equal length) in E. rewrite !length_app in E. simpl in E. lia.
  - intros q j Pq Lq. destruct (decide (q ++ [j] = p ++ [i])) as [E|Hne].
    + apply app_inj_tail in E as [-> ->].
      rewrite (create_entry_self (k_mem k) (k_mem k') (k_cr3 k) R U p t i e f) by eauto.
      unfold entry_at. rewrite Hfol, Hps. apply He.
    + f_equal. eapply (create_entry_other (k_mem k) (k_mem k') (k_cr3 k) R U p t i e f); eauto; lia.
  - intros. eapply (create_kept (k_mem k) (k_mem k') (k_cr3 k) R U p t i e f); eauto.
Qed.

Lemma install_kinv :
  fs_inv (k_frames k') (fun g => (U g \/ F g) \/ g = f) -> kinv F k' (fun g => U g \/ g = f).
Proof.
  intros Hfs. split; [apply Hk| | | |].
  3:{ eapply fs_inv_weaken; [exact Hfs|]. intros g. tauto. }
  3:{ intros g Hg [HU| ->]; [|done]. by eapply (ki_disjoint _ _ _ Hk). }
  all: rewrite Hcr3.
  - by apply install_refs.
  - eapply (create_tree (k_mem k) (k_mem k') (k_cr3 k) R U p t i e f); eauto.
Qed.

End Install.

Lemma next_table_create_ok F k U p a t i flags n :
  kinv F k U -> table_ref (k_mem k) R r p a t -> plain (p ++ [i]) -> (length p <= 2)%nat ->
  hw_page_size (k_mem k t i) = false -> flags_in X86_all flags -> Z.testbit flags 7 = false ->
  fs_avail (k_frames k) (S n) ->
  exists k' t' U', next_table_create k a i flags = Done (next_address a i, k') /\
    kinv F k' U' /\ (forall f, U f -> U' f) /\ grown k k' /\ fs_avail (k_frames k') n /\
    table_ref (k_mem k') R r (p ++ [i]) (next_address a i) t'.
Proof.
  intros Hk Href Hpl Hlen Hps Hfl H7 Hav. pose proof (ki_rec _ _ _ Hk) as Hrec.
  pose proof (plain_index p i [] Hpl) as Hi.
  unfold next_table_create. rewrite (next_table_ok R r k p a t i Hrec Href Hi). cbn [outcome_bind].
  destruct (d_next (k_mem k) t i) as [t'|] eqn:Ed.
  { cbn [outcome_bind]. rewrite (next_table_ok R r k p a t i Hrec Href Hi), Ed. cbn [outcome_bind expect].
    exists k, t', U. split_and!; [done|done|done|apply changed_refl|by apply fs_avail_mono|].
    eapply table_ref_next; eauto. lia. }
  rewrite (load_entry_ok R r k p a t i Hrec Href Hi). cbn [outcome_bind].
  rewrite pte_is_huge, Hps.
  destruct (fs_allocate_law _ _ n (ki_frames _ _ _ Hk) Hav) as
    (ty & f & fa & -> & Hf & HnUF & Hfs' & Hav').
  assert (HnU : ~ U f) by tauto. assert (HnF : ~ F f) by tauto.
  cbn [outcome_bind expect]. rewrite (one_frame ty f Hf). cbn [outcome_bind].
  set (k1 := set_frames fa k). set (e := set_entry f _).
  pose proof (table_entry_hw f flags Hf Hfl H7) as He. fold (table_entry_flags flags) in e. fold e in He.
  assert (Hwp : writable_path (k_mem k) R p = true) by (by eapply parent_writable).
  rewrite (store_entry_ok R r k1 p a t i e Hrec Href Hwp Hi).
  cbn [outcome_bind]. set (k2 := set_mem _ k1).
  assert (Hfree : hw_present (k_mem k t i) = false).
  { unfold d_next in Ed. rewrite Hps in Ed. by destruct (hw_present _). }
  pose proof (install_refs F k U p a t i e f Hk Href Hpl Hlen Hfree HnU He) as Hoff.
  destruct (Hoff (k_mem k2) ltac:(done)) as (Hrec2 & Hnew2 & Hw2 & Href2 & Hdn2).
  rewrite (next_table_ok R r k2 p a t i Hrec2 Href2 Hi), Hdn2.
  cbn [outcome_bind expect]. unfold table_zero. change (Z.to_nat ENTRIES_PER_PAGE_TABLE) with 512%nat.
  destruct (zero_entries_ok 512 k2 (p ++ [i]) (next_address a i) f) as
    (k3 & -> & Hc3 & Hf3 & Hp3 & Hcb3 & Ho3 & Hz3 & _); [lia| |].
  { intros m Hm. destruct (Hoff m) as (? & ? & ? & ? & ?); [|done]. intros. by rewrite Hm. }
  cbn [outcome_bind]. assert (Hm3 : forall g j, g <> f -> k_mem k3 g j = upd (k_mem k) t i e g j).
  { intros. by rewrite Ho3. }
  destruct (Hoff (k_mem k3) Hm3) as (Hrec3 & Hnew3 & Hw3 & Href3 & Hdn3).
  rewrite (next_table_ok R r k3 p a t i) by (try done; by rewrite Hc3). rewrite Hdn3.
  cbn [outcome_bind expect]. exists k3, f, (fun g => U g \/ g = f).
  assert (Hz : forall j, 0 <= j < 512 -> k_mem k3 f j = 0) by (intros; apply Hz3; lia).
  split_and!; [done| |by left| |by rewrite Hf3|done].
  - eapply install_kinv; eauto. by rewrite Hf3.
  - eapply install_grown; eauto.
Qed.

(** ** The tables of a page *)

Definition path3 (page : Z) : list Z := [p4_index page; p3_index page; p2_index page].

Lemma ix4_path3 (page : Z) : ix4 page = path3 page ++ [p1_index page].
Proof. done. Qed.

(** A page the mapper may work on: it is not translated through a recursive slot. *)
Definition tree_page (page : Z) : Prop := reserved_slot (p4_index page) = false.

Lemma tree_page_plain (page : Z) : tree_page page -> plain (ix4 page).
Proof.
  intros H. pose proof (page_index_bounds page) as (? & ? & ? & ?).
  change ENTRIES_PER_PAGE_TABLE with 512 in *. split; [|done].
  repeat (apply Forall_cons_2; [done|]). apply Forall_nil_2.
Qed.

Lemma path3_plain (page : Z) : tree_page page -> plain (path3 page).
Proof. intros Hp. eapply plain_app_l. rewrite <- ix4_path3. by apply tree_page_plain. Qed.

(** The lowest-level entry of a page. *)
Definition leaf k (page : Z) : Z := entry_at (k_mem k) R (path3 page) (p1_index page).

(** No entry above it maps a huge page. *)
Definition no_huge k (page : Z) : Prop :=
  hw_page_size (entry_at (k_mem k) R [] (p4_index page)) = false /\
  hw_page_size (entry_at (k_mem k) R [p4_index page] (p3_index page)) = false /\
  hw_page_size (entry_at (k_mem k) R [p4_index page; p3_index page] (p2_index page)) = false.

Lemma changed_no_huge L k k' page :
  changed L k k' -> tree_page page -> no_huge k page -> no_huge k' page.
Proof.
  intros Hc Hp (H4 & H3 & H2). pose proof (tree_page_plain page Hp) as Hpl.
  pose proof (plain_app_l [p4_index page; p3_index page; p2_index page] [p1_index page] Hpl) as P2.
  pose proof (plain_app_l [p4_index page; p3_index page] [p2_index page] P2) as P3.
  pose proof (plain_app_l [p4_index page] [p3_index page] P3) as P4.
  split_and!.
  - rewrite (ch_size _ _ _ Hc) by (done || simpl; lia). done.
  - rewrite (ch_size _ _ _ Hc) by (done || simpl; lia). done.
  - rewrite (ch_size _ _ _ Hc) by (done || simpl; lia). done.
Qed.

Lemma changed_leaf L k k' page :
  changed L k k' -> tree_page page -> ix4 page ∉ L -> leaf k' page = leaf k page.
Proof. intros Hc Hp Hn. by apply (ch_leaf _ _ _ Hc); [apply tree_page_plain| |]. Qed.

Lemma create_tables_ok F k U mp page flags n :
  kinv F k U -> 0 <= r < 512 -> m_p4 mp = recursive_address r -> tree_page page -> no_huge k page ->
  flags_in X86_all flags -> Z.testbit flags 7 = false -> fs_avail (k_frames k) (3 + n) ->
  exists k' a1 t1 U', create_tables k mp page flags = Done (a1, k') /\
    kinv F k' U' /\ (forall f, U f -> U' f) /\ grown k k' /\ fs_avail (k_frames k') n /\
    table_ref (k_mem k') R r (path3 page) a1 t1.
Proof.
  intros Hk Hr Hmp Hp Hh Hfl H7 Hav. pose proof (tree_page_plain page Hp) as Hpl.
  pose proof (plain_app_l [p4_index page; p3_index page; p2_index page] [p1_index page] Hpl) as P2.
  pose proof (plain_app_l [p4_index page; p3_index page] [p2_index page] P2) as P3.
  pose proof (plain_app_l [p4_index page] [p3_index page] P3) as P4.
  pose proof (table_ref_root (k_mem k) R r Hr) as T4. rewrite <- Hmp in T4.
  unfold create_tables.
  destruct (next_table_create_ok F k U [] _ _ (p4_index page) flags (2 + n) Hk T4) as
    (k3 & t3 & U3 & -> & Hk3 & HU3 & Hg3 & Hav3 & T3); [done|simpl; lia|apply Hh|done|done|done|].
  cbn [outcome_bind app] in *. pose proof (changed_no_huge _ _ _ _ Hg3 Hp Hh) as Hh3.
  destruct (next_table_create_ok F k3 U3 [p4_index page] _ _ (p3_index page) flags (1 + n) Hk3 T3) as
    (k2 & t2 & U2 & -> & Hk2 & HU2 & Hg2 & Hav2 & T2); [done|simpl; lia| |done|done|done|].
  { destruct Hh3 as (_ & H & _). unfold entry_at in H. by rewrite (tr_follow _ _ _ _ _ _ T3) in H. }
  cbn [outcome_bind app] in *. pose proof (changed_no_huge _ _ _ _ Hg2 Hp Hh3) as Hh2.
  destruct (next_table_create_ok F k2 U2 _ _ _ (p2_index page) flags n Hk2 T2) as
    (k1 & t1 & U1 & -> & Hk1 & HU1 & Hg1 & Hav1 & T1); [done|simpl; lia| |done|done|done|].
  { destruct Hh2 as (_ & _ & H). unfold entry_at in H. by rewrite (tr_follow _ _ _ _ _ _ T2) in H. }
  exists k1, (next_address (next_address (next_address (m_p4 mp) (p4_index page)) (p3_index page)) (p2_index page)), t1, U1.
  split_and!; try done; auto.
  eapply (changed_trans [] []); [|done]. by eapply (changed_trans [] []).
Qed.

(** ** Lowest-level entries *)

Lemma load_leaf F k U page a1 t1 :
  kinv F k U -> table_ref (k_mem k) R r (path3 page) a1 t1 ->
  load_entry k a1 (p1_index page) = Done (leaf k page).
Proof.
  intros Hk T1. pose proof (page_index_bounds page) as (_ & _ & _ & B1).
  rewrite (load_entry_ok R r k _ _ _ _ (ki_rec _ _ _ Hk) T1 B1).
  unfold leaf, entry_at. by rewrite (tr_follow _ _ _ _ _ _ T1).
Qed.

(** Writing the lowest-level entry of a page. *)
Lemma upd_leaf F k U page t1 e :
  kinv F k U -> tree_page page -> follow (k_mem k) R (path3 page) = Some t1 ->
  let k' := set_mem (upd (k_mem k) t1 (p1_index page) e) k in
  kinv F k' U /\ changed [ix4 page] k k' /\ leaf k' page = e /\
  gwalk (k_mem k') R (ix4 page) = (if hw_present e then Some (hw_frame e) else None).
Proof.
  intros Hk Hp Hf k'. pose proof (tree_page_plain page Hp) as Hpl. rewrite ix4_path3 in Hpl.
  pose proof (path3_plain page Hp) as P1. destruct Hk as [Hs Hrec Ht Hfs Hd].
  assert (Hm' : forall g j, k_mem k' g j = upd (k_mem k) t1 (p1_index page) e g j) by done.
  split_and!.
  - split; [done|by eapply leaf_recursive|by eapply leaf_tree|done|done].
  - split; [done|done|done| | | |].
    + intros l Pl Ll Hn. eapply (leaf_other (k_mem k) _ (k_cr3 k) R U (path3 page) t1 (p1_index page) e); eauto. intros ->. apply Hn. left.
    + intros q i Pq Lq Hn. eapply (leaf_entry_other (k_mem k) _ (k_cr3 k) R U (path3 page) t1 (p1_index page) e); eauto; [lia|]. intros E. apply Hn. rewrite E. left.
    + intros q i Pq Lq. f_equal. eapply (leaf_entry_other (k_mem k) _ (k_cr3 k) R U (path3 page) t1 (p1_index page) e); eauto.
      intros E. apply (f_equal length) in E. rewrite !length_app in E. simpl in E. lia.
    + intros q t Pq Lq Hq. rewrite <- Hq. by eapply (leaf_table (k_mem k) _ (k_cr3 k) R U (path3 page) t1 (p1_index page) e).
  - by eapply leaf_entry_self.
  - rewrite ix4_path3. by eapply leaf_self.
Qed.

Lemma store_leaf F k U page a1 t1 e :
  kinv F k U -> tree_page page -> table_ref (k_mem k) R r (path3 page) a1 t1 ->
  exists k', store_entry k a1 (p1_index page) e = Done k' /\ kinv F k' U /\
    changed [ix4 page] k k' /\ k_frames k' = k_frames k /\ leaf k' page = e /\
    gwalk (k_mem k') R (ix4 page) = (if hw_present e then Some (hw_frame e) else None).
Proof.
  intros Hk Hp T1. pose proof (page_index_bounds page) as (_ & _ & _ & B1).
  pose proof (path3_plain page Hp) as P1. pose proof (tr_follow _ _ _ _ _ _ T1) as Hf.
  rewrite (store_entry_ok R r k _ _ _ _ e (ki_rec _ _ _ Hk) T1) by
    (done || by eapply (to_writable _ _ _ _ (ki_tree _ _ _ Hk)); [|simpl; lia|]).
  destruct (upd_leaf F k U page t1 e Hk Hp Hf) as (? & ? & ? & ?). eexists. by split_and!.
Qed.

(** The P1 table of a page whose tables exist. *)
Lemma find_p1_ok F k U mp page :
  kinv F k U -> 0 <= r < 512 -> m_p4 mp = recursive_address r ->
  match follow (k_mem k) R (path3 page) with
  | Some t1 => exists a1, find_p1 k mp page = Done (Some a1) /\
      table_ref (k_mem k) R r (path3 page) a1 t1
  | None => find_p1 k mp page = Done None
  end.
Proof.
  intros Hk Hr Hmp. pose proof (page_index_bounds page) as (B4 & B3 & B2 & _).
  change ENTRIES_PER_PAGE_TABLE with 512 in *. pose proof (ki_rec _ _ _ Hk) as Hrec.
  pose proof (table_ref_root (k_mem k) R r Hr) as T4. rewrite <- Hmp in T4.
  unfold find_p1, and_then. rewrite (next_table_ok R r k [] _ _ _ Hrec T4 B4). cbn [outcome_bind].
  unfold path3. cbn [follow]. destruct (d_next (k_mem k) R _) as [t3|] eqn:E4; [|done].
  pose proof (table_ref_next _ _ _ _ _ _ _ _ T4 ltac:(simpl; lia) B4 E4) as T3. cbn [app] in T3.
  rewrite (next_table_ok R r k _ _ _ _ Hrec T3 B3). cbn [outcome_bind].
  destruct (d_next (k_mem k) t3 _) as [t2|] eqn:E3; [|done].
  pose proof (table_ref_next _ _ _ _ _ _ _ _ T3 ltac:(simpl; lia) B3 E3) as T2. cbn [app] in T2.
  rewrite (next_table_ok R r k _ _ _ _ Hrec T2 B2). cbn [outcome_bind].
  destruct (d_next (k_mem k) t2 _) as [t1|] eqn:E2; [|done].
  eexists. split; [done|]. by apply (table_ref_next _ _ _ _ _ _ _ _ T2 ltac:(simpl; lia) B2 E2).
Qed.

(** ** The mapping loops *)

(** A page that can be mapped: no huge page covers it and its entry is unused. *)
Definition mappable k (page : Z) : Prop := tree_page page /\ no_huge k page /\ leaf k page = 0.

Lemma mappable_changed L k k' page :
  changed L k k' -> ix4 page ∉ L -> mappable k page -> mappable k' page.
Proof.
  intros Hc Hn (Hp & Hh & Hl). split_and!; [done|by eapply changed_no_huge|].
  by rewrite (changed_leaf _ _ _ _ Hc).
Qed.

(** The page is mapped: its entry is the one written for this frame, and it is
    translated to the frame. *)
Definition is_mapped k (flags page frame : Z) : Prop :=
  leaf k page = set_entry frame flags /\ gwalk (k_mem k) R (ix4 page) = Some frame.

Lemma is_mapped_changed L k k' flags page frame :
  changed L k k' -> tree_page page -> ix4 page ∉ L ->
  is_mapped k flags page frame -> is_mapped k' flags page frame.
Proof.
  intros Hc Hp Hn [Hl Hw]. split; [by rewrite (changed_leaf _ _ _ _ Hc)|].
  by rewrite (ch_walk _ _ _ Hc); [|apply tree_page_plain| |].
Qed.

(** One turn of a mapping loop, after the tables exist. *)
Lemma map_one F k U page a1 t1 frame flags :
  kinv F k U -> tree_page page -> table_ref (k_mem k) R r (path3 page) a1 t1 ->
  0 <= frame < 2 ^ 40 -> flags_in X86_all flags -> Z.testbit flags 0 = true ->
  exists k', store_entry k a1 (p1_index page) (set_entry frame flags) = Done k' /\
    kinv F k' U /\ changed [ix4 page] k k' /\ k_frames k' = k_frames k /\ is_mapped k' flags page frame.
Proof.
  intros Hk Hp T1 Hf Hfl H0.
  destruct (store_leaf F k U page a1 t1 (set_entry frame flags) Hk Hp T1) as (k' & ? & ? & ? & ? & ? & Hw).
  exists k'. split_and!; [done|done|done|done|]. split; [done|]. rewrite Hw. unfold hw_present.
  by rewrite set_entry_bit, H0, set_entry_hw_frame.
Qed.

Lemma map_loop_ok mp hflags flags (l : list (Z * Z)) F k U n :
  0 <= r < 512 -> m_p4 mp = recursive_address r ->
  flags_in X86_all hflags -> Z.testbit hflags 7 = false ->
  flags_in X86_all flags -> Z.testbit flags 0 = true ->
  kinv F k U -> NoDup (ix4 <$> l.*1) -> Forall (mappable k) l.*1 -> Forall (fun f => 0 <= f < 2 ^ 40) l.*2 ->
  fs_avail (k_frames k) (3 * length l + n) ->
  exists k' U', map_loop k mp hflags flags l = Done (true, k') /\
    kinv F k' U' /\ (forall f, U f -> U' f) /\ changed (ix4 <$> l.*1) k k' /\
    fs_avail (k_frames k') n /\ Forall (fun pf => is_mapped k' flags pf.1 pf.2) l.
Proof.
  intros Hr Hmp Hhf Hh7 Hfl Hf0. revert k U. induction l as [|[page frame] l IH]; intros k U Hk Hnd Hm Hfr Hav.
  { exists k, U. split_and!; auto using changed_refl. }
  cbn [fmap list_fmap fst snd] in *. apply NoDup_cons in Hnd as [Hni Hnd].
  apply Forall_cons in Hm as [(Hp & Hh & Hl) Hm]. apply Forall_cons in Hfr as [Hf Hfr].
  cbn [map_loop]. destruct (create_tables_ok F k U mp page hflags (3 * length l + n) Hk Hr Hmp Hp Hh Hhf Hh7) as
    (k1 & a1 & t1 & U1 & -> & Hk1 & HU1 & Hg1 & Hav1 & T1).
  { replace (3 * length ((page, frame) :: l) + n)%nat with (3 + (3 * length l + n))%nat in Hav by (simpl; lia). done. }
  cbn [outcome_bind]. rewrite (load_leaf F k1 U1 page a1 t1 Hk1 T1). cbn [outcome_bind].
  rewrite (changed_leaf [] k k1), Hl by (done || apply not_elem_of_nil). cbn [is_unused negb Z.eqb].
  destruct (map_one F k1 U1 page a1 t1 frame flags Hk1 Hp T1 Hf Hfl Hf0) as (k2 & -> & Hk2 & Hc2 & Hfr2 & Hmap).
  cbn [outcome_bind]. pose proof (changed_trans _ _ _ _ _ Hg1 Hc2) as Hc. cbn [app] in Hc.
  destruct (IH k2 U1 Hk2 Hnd) as (k' & U' & -> & Hk' & HU' & Hc' & Hav' & Hall); [|done|by rewrite Hfr2|].
  { rewrite Forall_forall in Hm |- *. intros x Hx. eapply mappable_changed; [done| |by apply Hm].
    intros E%list_elem_of_singleton. apply Hni. rewrite <- E. apply list_elem_of_fmap. eauto. }
  exists k', U'. split_and!; [done|done|auto| |done|].
  - by apply (changed_trans [ix4 page] _ k k2 k').
  - constructor; [|done]. cbn [fst snd]. by eapply is_mapped_changed.
Qed.

Lemma kinv_ext F F' k U : kinv F k U -> (forall g, F' g <-> F g) -> kinv F' k U.
Proof.
  intros [Hs Hrec Ht Hfs Hd] HF. split; [done|done|done| |].
  - eapply fs_inv_weaken; [exact Hfs|]. intros g. rewrite HF. done.
  - intros g. rewrite HF. apply Hd.
Qed.

(** Taking a frame from the allocator. *)
Lemma kinv_allocate F k U a' f :
  kinv F k U -> ~ U f -> fs_inv a' (fun g => (U g \/ F g) \/ g = f) ->
  kinv (fun g => F g \/ g = f) (set_frames a' k) U.
Proof.
  intros [Hs Hrec Ht Hfs Hd] HnU Hfs'. split; [done|done|done| |].
  - eapply fs_inv_weaken; [exact Hfs'|]. intros g. tauto.
  - intros g [HF| ->]; [by apply Hd|done].
Qed.

Lemma map_pages_loop_ok mp hflags flags l F k U n :
  0 <= r < 512 -> m_p4 mp = recursive_address r ->
  flags_in X86_all hflags -> Z.testbit hflags 7 = false ->
  flags_in X86_all flags -> Z.testbit flags 0 = true ->
  kinv F k U -> NoDup (ix4 <$> l) -> Forall (mappable k) l -> fs_avail (k_frames k) (4 * length l + n) ->
  exists k' U' fl, map_pages_loop k mp hflags flags l = Done (Ok tt, k') /\
    kinv (fun g => F g \/ g ∈ fl) k' U' /\ (forall f, U f -> U' f) /\
    changed (ix4 <$> l) k k' /\ fs_avail (k_frames k') n /\
    Forall2 (is_mapped k' flags) l fl /\ NoDup fl /\ Forall (fun f => ~ U f /\ ~ F f /\ 0 <= f < 2 ^ 40) fl.
Proof.
  intros Hr Hmp Hhf Hh7 Hfl Hf0. revert F k U. induction l as [|page l IH]; intros F k U Hk Hnd Hm Hav.
  { exists k, U, []. split_and!; auto using changed_refl, NoDup_nil_2.
    eapply kinv_ext; [done|]. intros g. rewrite elem_of_nil. tauto. }
  cbn [fmap list_fmap] in *. apply NoDup_cons in Hnd as [Hni Hnd].
  apply Forall_cons in Hm as [(Hp & Hh & Hl) Hm]. cbn [map_pages_loop].
  replace (4 * length (page :: l) + n)%nat with (S (3 + (4 * length l + n))) in Hav by (simpl; lia).
  destruct (fs_allocate_law _ _ _ (ki_frames _ _ _ Hk) Hav) as (ty & f & fa & -> & Hf & HnUF & Hfs' & Hav0).
  cbn [outcome_bind]. set (k0 := set_frames fa k) in *. set (F0 := fun g => F g \/ g = f).
  assert (Hk0 : kinv F0 k0 U) by (apply kinv_allocate; [done|tauto|done]).
  destruct (create_tables_ok F0 k0 U mp page hflags (4 * length l + n) Hk0 Hr Hmp Hp Hh Hhf Hh7 Hav0) as
    (k1 & a1 & t1 & U1 & -> & Hk1 & HU1 & Hg1 & Hav1 & T1).
  cbn [outcome_bind]. rewrite (load_leaf F0 k1 U1 page a1 t1 Hk1 T1). cbn [outcome_bind].
  assert (Hl0 : leaf k0 page = 0) by exact Hl.
  rewrite (changed_leaf [] k0 k1), Hl0 by (done || apply not_elem_of_nil). cbn [is_unused negb Z.eqb].
  rewrite (one_frame ty f Hf). cbn [outcome_bind].
  destruct (map_one F0 k1 U1 page a1 t1 f flags Hk1 Hp T1 Hf Hfl Hf0) as (k2 & -> & Hk2 & Hc2 & Hfr2 & Hmap).
  cbn [outcome_bind]. pose proof (changed_trans _ _ _ _ _ Hg1 Hc2) as Hc. cbn [app] in Hc.
  assert (Hc0 : changed [ix4 page] k k2) by (destruct Hc; by split).
  destruct (IH F0 k2 U1 Hk2 Hnd) as (k' & U' & fl' & -> & Hk' & HU' & Hc' & Hav' & Hall & Hndf & Hfl');
    [|by rewrite Hfr2|].
  { rewrite Forall_forall in Hm |- *. intros x Hx. eapply mappable_changed; [done| |by apply Hm].
    intros E%list_elem_of_singleton. apply Hni. rewrite <- E. apply list_elem_of_fmap. eauto. }
  exists k', U', (f :: fl'). split_and!; [done| |auto| |done| | |].
  - eapply kinv_ext; [done|]. intros g. unfold F0. rewrite elem_of_cons. tauto.
  - by apply (changed_trans [ix4 page] _ k k2 k').
  - constructor; [|done]. by eapply is_mapped_changed.
  - constructor; [|done]. intros Hin. rewrite Forall_forall in Hfl'.
    destruct (Hfl' f Hin) as (_ & Hn & _). apply Hn. by right.
  - constructor; [split; [tauto|split; [tauto|done]]|]. eapply Forall_impl; [exact Hfl'|].
    intros g (Hg1' & Hg2 & ?). split; [auto|split; [unfold F0 in Hg2; tauto|done]].
Qed.

End Map.

(** ** Ranges of pages *)

Lemma range_chunks_ok (rg : ChunkRange) :
  wf_range rg -> range_chunks rg = Done (seqZ (r_start rg) (r_end rg - r_start rg + 1)).
Proof.
  intros [H1 H2]. unfold range_chunks, range_iter. rewrite size_4k by lia.
  rewrite (iter_collect_spec Page4K (Z.to_nat (r_end rg - r_start rg + 1)));
    change (NUM_4K_PAGES Page4K) with 1; rewrite ?Z.div_1_r; try lia.
  f_equal. unfold seqZ. apply list_fmap_ext. intros; lia.
Qed.

Lemma ix4_inj (a b : Z) : ix4 a = ix4 b -> a mod 2 ^ 36 = b mod 2 ^ 36.
Proof. unfold ix4. intros. simplify_eq. rewrite !page_index_decompose. congruence. Qed.

Lemma range_ix4_NoDup (s n : Z) : n <= 2 ^ 36 -> NoDup (ix4 <$> seqZ s n).
Proof.
  intros Hn. apply NoDup_fmap_2_strong; [|apply NoDup_seqZ].
  intros x y Hx%elem_of_seqZ Hy%elem_of_seqZ E%ix4_inj.
  pose proof (Z.div_mod x (2 ^ 36)). pose proof (Z.div_mod y (2 ^ 36)). nia.
Qed.

(** In an empty root every page can be mapped. *)
Lemma empty_mappable {FA PB} (k : Kernel FA PB) (R page : Z) :
  (forall i, 0 <= i < 512 -> reserved_slot i = false -> k_mem k R i = 0) -> tree_page page -> mappable R k page.
Proof.
  intros Hempty Hp. pose proof (page_index_bounds page) as (? & ? & ? & ?).
  change ENTRIES_PER_PAGE_TABLE with 512 in *.
  unfold mappable, no_huge, leaf, entry_at. simpl. unfold d_next.
  rewrite Hempty by done. done.
Qed.
