(* ===== verification/PageUnmap.v ===== *)
(** * Unmapping and remapping pages

    What the loops of [MappedPages::unmap] and [MappedPages::remap] do to the page
    tables and to the frames the entries own. *)

From S2P Require Import Prelude MemStructs FrameAlloc FrameAllocLemmas PageAlloc PteFlags PageTable PageWalk PageTree PageMap.

#[local] Existing Instance x86_arch.

(** ** Ranges of frames that are handed on *)

Lemma cin_range (f : Z) (x : Frames) : cin f x = 1 <-> in_range f (frame_range x).
Proof. apply cin_true. Qed.

Definition in_opt (f : Z) (o : option Frames) : Prop :=
  match o with Some x => in_range f (frame_range x) | None => False end.

#[export] Instance in_opt_dec (f : Z) (o : option Frames) : Decision (in_opt f o).
Proof. destruct o; simpl; unfold in_range; apply _. Defined.

(** A range that is held: it is nonempty, of a known type, and its frames are not
    owned by the allocator. *)
Definition held (F : Z -> Prop) (o : option Frames) : Prop :=
  match o with
  | Some x => wf_range (frame_range x) /\ typ x <> TyUnknown /\ forall f, in_range f (frame_range x) -> F f
  | None => True
  end.

Lemma merge_held (a b m : Frames) :
  merge Page4K a b = Ok m -> wf_range (frame_range a) -> wf_range (frame_range b) ->
  (forall f, in_range f (frame_range a) -> ~ in_range f (frame_range b)) ->
  wf_range (frame_range m) /\ typ m = typ a /\
  forall f, in_range f (frame_range m) <-> in_range f (frame_range a) \/ in_range f (frame_range b).
Proof.
  intros Hm Ha Hb Hd.
  assert (forall f, cin f a + cin f b <= 1) as Hc.
  { intros f. pose proof (cin_bound f a). pose proof (cin_bound f b).
    destruct (decide (cin f a = 1)) as [E1|]; [|lia]. destruct (decide (cin f b = 1)) as [E2|]; [|lia].
    apply cin_true in E1, E2. by destruct (Hd f E1). }
  destruct (merge_Ok a b m Hm Ha Hb Hc) as (Hw & Ht & Hcin & _). split_and!; [done|done|].
  intros f. rewrite <- !cin_true, Hcin. pose proof (cin_bound f a). pose proof (cin_bound f b).
  specialize (Hc f). lia.
Qed.

Lemma merge_Err (a b x : Frames) : merge Page4K a b = Err x -> x = b.
Proof.
  unfold merge. destruct (_ || _); [by intros [= <-]|]. destruct (_ =? _); [done|].
  destruct (_ =? _); [done|by intros [= <-]].
Qed.

Lemma one_frame_range (f g : Z) : in_range g (mkRange f f) <-> g = f.
Proof. unfold in_range. simpl. lia. Qed.

Section Unmap.
Context {bf : Bitflags} {bl : BitflagsLaws bf} {FA PB : Type}.
Context {fs : FrameSource FA} {fl : FrameSourceLaws FA} {ps : PageSource PB}.
Implicit Types (k : Kernel FA PB) (l : list Z) (U F : Z -> Prop).
Context (R r : Z) (Hr : 0 <= r < 512).
Context (mp : Mapper) (Hmp : m_p4 mp = recursive_address r).
Context (flags : Z) (Hfl : flags_in X86_all flags) (Hf0 : Z.testbit flags 0 = true).

(** ** One entry *)

Lemma mapped_entry_used (f : Z) : 0 <= f < 2 ^ 40 -> set_entry f flags <> 0.
Proof.
  intros Hf E. pose proof (set_entry_bit f flags 0 Hf Hfl ltac:(lia) eq_refl) as H.
  rewrite E, Hf0 in H. done.
Qed.

Lemma mapped_find F k U page f :
  kinv R r F k U -> is_mapped R k flags page f -> 0 <= f < 2 ^ 40 ->
  exists a1 t1, find_p1 k mp page = Done (Some a1) /\ table_ref (k_mem k) R r (path3 page) a1 t1 /\
    load_entry k a1 (p1_index page) = Done (set_entry f flags).
Proof.
  intros Hk [Hl _] Hf. pose proof (find_p1_ok R r F k U mp page Hk Hr Hmp) as H.
  pose proof (mapped_entry_used f Hf) as Hne. rewrite <- Hl in Hne. unfold leaf, entry_at in Hne.
  destruct (follow (k_mem k) R (path3 page)) as [t1|] eqn:E; [|done].
  destruct H as (a1 & Ha & Ht). exists a1, t1. split_and!; [done|done|].
  rewrite <- Hl. by eapply load_leaf.
Qed.

(** The page is no longer mapped. *)
Definition is_unmapped k (page : Z) : Prop := leaf R k page = 0 /\ gwalk (k_mem k) R (ix4 page) = None.

Lemma is_unmapped_changed L k k' page :
  changed R L k k' -> tree_page page -> ix4 page ∉ L -> is_unmapped k page -> is_unmapped k' page.
Proof.
  intros Hc Hp Hn [Hl Hw]. split; [by rewrite (changed_leaf R _ _ _ _ Hc)|].
  by rewrite (ch_walk _ _ _ _ Hc); [|apply tree_page_plain| |].
Qed.

Lemma unmap_one F k U page a1 t1 :
  kinv R r F k U -> tree_page page -> table_ref (k_mem k) R r (path3 page) a1 t1 ->
  exists k', store_entry k a1 (p1_index page) pte_zero = Done k' /\ kinv R r F k' U /\
    changed R [ix4 page] k k' /\ k_frames k' = k_frames k /\ is_unmapped k' page.
Proof.
  intros Hk Hp T1. destruct (store_leaf R r F k U page a1 t1 pte_zero Hk Hp T1) as (k' & ? & ? & ? & ? & ? & ?).
  exists k'. by split_and!.
Qed.

Lemma set_unmapped_entry (f : Z) :
  0 <= f < 2 ^ 40 ->
  set_unmapped (set_entry f flags) =
    (if Z.testbit flags 55 then Exclusive (mkRange f f) else NonExclusive (mkRange f f), pte_zero).
Proof.
  intros Hf. unfold set_unmapped. rewrite set_entry_frame, set_entry_flags by done.
  change ARCH_EXCLUSIVE with (Z.shiftl 1 55). by rewrite contains_bit by lia.
Qed.

(** The allocator has got the frames of [F] that are not in [F'], and no others. *)
Definition freed F F' k k' : Prop :=
  forall g, fs_free (k_frames k') g <-> fs_free (k_frames k) g \/ (F g /\ ~ F' g).

(** Dropping a held range gives its frames back to the allocator. *)
Lemma kinv_drop F k U x :
  kinv R r F k U -> held F (Some x) ->
  exists k', drop_frames_k x k = Done k' /\ changed R [] k k' /\ k_mem k' = k_mem k /\
    kinv R r (fun g => F g /\ ~ in_range g (frame_range x)) k' U /\
    freed F (fun g => F g /\ ~ in_range g (frame_range x)) k k'.
Proof.
  intros [Hs Hrec Ht Hfs Hd] (Hw & Hty & Hin). unfold drop_frames_k.
  destruct (fs_drop_law _ _ x Hfs Hw Hty) as (a' & -> & Hfs' & Hfree & _); [by right; apply Hin|].
  cbn [outcome_bind]. eexists. split_and!; [done|by split|done| |].
  2:{ intros g. cbn [k_frames set_frames]. rewrite Hfree. specialize (Hin g).
      destruct (decide (in_range g (frame_range x))); tauto. }
  split; [done|done|done| |].
  - eapply fs_inv_weaken; [exact Hfs'|]. intros g. simpl. intros [HU|[HF Hn]]; [|tauto].
    split; [by left|]. intros Hg. by apply (Hd g); [apply Hin|].
  - intros g [HF _]. by apply Hd.
Qed.

Lemma freed_trans F F' x k k1 k' :
  freed F (fun g => F g /\ ~ in_range g (frame_range x)) k k1 -> freed (fun g => F g /\ ~ in_range g (frame_range x)) F' k1 k' ->
  (forall g, F' g -> F g /\ ~ in_range g (frame_range x)) -> freed F F' k k'.
Proof.
  unfold freed. intros H1 H2 Hs g. rewrite H2, H1. specialize (Hs g). destruct (decide (in_range g (frame_range x))); tauto.
Qed.

(** ** The loop of [unmap], over exclusive entries *)

(** The two ranges the loop carries are disjoint, and the frames [frs] that are still
    mapped are in neither. *)
Record carried F (frs : list Z) (first current : option Frames) : Prop := {
  ca_first : held F first;
  ca_current : held F current;
  ca_apart : forall g, in_opt g first -> ~ in_opt g current;
  ca_frames : forall g, g ∈ frs -> F g /\ 0 <= g < 2 ^ 40 /\ ~ in_opt g first /\ ~ in_opt g current;
  ca_nodup : NoDup frs;
}.

(** The frames that the loop has not given back to the allocator are those it never
    had and those it returns. *)
Record accounted F F' (frs : list Z) (first current first' current' : option Frames) : Prop := {
  ac_kept : forall g, F' g <-> F g /\ (((g ∉ frs) /\ ~ in_opt g first /\ ~ in_opt g current) \/
                                      in_opt g first' \/ in_opt g current');
  ac_from : forall g, in_opt g first' \/ in_opt g current' -> g ∈ frs \/ in_opt g first \/ in_opt g current;
}.

Section Turn.
Context F (f : Z) (frs : list Z) (first current : option Frames) (newly : Frames).
Context (Hc : carried F (f :: frs) first current).
Context (Hty : typ newly <> TyUnknown) (Hrg : frame_range newly = mkRange f f).

Lemma newly_held F1 : F1 f -> held F1 (Some newly).
Proof.
  intros HF. destruct (ca_frames _ _ _ _ Hc f ltac:(left)) as (_ & Hf & _). unfold held. rewrite Hrg.
  split_and!; [split; mem_consts; simpl; lia..|done|]. intros g Hg%one_frame_range. by subst.
Qed.

Lemma newly_in g : in_opt g (Some newly) <-> g = f.
Proof. unfold in_opt. rewrite Hrg. apply one_frame_range. Qed.

Lemma rest_frames g : g ∈ frs -> F g /\ 0 <= g < 2 ^ 40 /\ ~ in_opt g first /\ ~ in_opt g current /\ g <> f.
Proof.
  intros Hg. destruct (ca_frames _ _ _ _ Hc g ltac:(by right)) as (? & ? & ? & ?).
  pose proof (ca_nodup _ _ _ _ Hc) as [Hn _]%NoDup_cons. split_and!; try done; try lia. by intros ->.
Qed.

Lemma carried_newly F1 first1 :
  held F1 first1 -> F1 f -> (forall g, g ∈ frs -> F1 g /\ ~ in_opt g first1) -> ~ in_opt f first1 ->
  carried F1 frs first1 (Some newly).
Proof.
  intros Hf HF Hrest Hn. split; [done|by apply newly_held| | |by eapply NoDup_cons_1_2, Hc].
  - intros g Hg ->%newly_in. done.
  - intros g Hg. rewrite newly_in. destruct (rest_frames g Hg) as (? & ? & ? & ? & ?).
    destruct (Hrest g Hg). done.
Qed.

(** The first frames the loop meets; a current range that is finished becomes the
    first one. *)
Lemma carried_start : carried F frs first (Some newly).
Proof.
  destruct (ca_frames _ _ _ _ Hc f ltac:(left)) as (? & _ & ? & ?).
  apply carried_newly; [apply Hc|done| |done]. intros g Hg. by destruct (rest_frames g Hg) as (? & ? & ? & ? & ?).
Qed.

Lemma carried_first : carried F frs current (Some newly).
Proof.
  destruct (ca_frames _ _ _ _ Hc f ltac:(left)) as (? & _ & ? & ?).
  apply carried_newly; [apply Hc|done| |done]. intros g Hg. by destruct (rest_frames g Hg) as (? & ? & ? & ? & ?).
Qed.

(** The new frames extend the current range. *)
Lemma carried_merge curr merged :
  current = Some curr -> merge Page4K curr newly = Ok merged ->
  carried F frs first (Some merged) /\
  forall g, in_opt g (Some merged) <-> in_opt g current \/ g = f.
Proof.
  intros Hcur Hm. destruct (ca_frames _ _ _ _ Hc f ltac:(left)) as (HF & _ & Hn1 & Hn2).
  destruct (newly_held F HF) as (Hw' & _ & _). pose proof (ca_current _ _ _ _ Hc) as Hh.
  rewrite Hcur in Hh. destruct Hh as (Hw & Ht & Hin).
  destruct (merge_held curr newly merged Hm Hw Hw') as (Hwm & Htm & Hinm).
  { intros g Hg Hg'. rewrite Hrg in Hg'. apply one_frame_range in Hg' as ->. rewrite Hcur in Hn2. done. }
  assert (forall g, in_opt g (Some merged) <-> in_opt g current \/ g = f) as Hio.
  { intros g. rewrite Hcur. cbn [in_opt]. rewrite Hinm, Hrg, one_frame_range. done. }
  split; [|done]. split; [apply Hc| | | |by eapply NoDup_cons_1_2, Hc].
  - split_and!; [done|congruence|]. intros g Hg. apply Hio in Hg as [Hg| ->]; [|done].
    rewrite Hcur in Hg. by apply Hin.
  - intros g Hg Hg'. apply Hio in Hg' as [Hg'| ->]; [by apply (ca_apart _ _ _ _ Hc g)|done].
  - intros g Hg. rewrite Hio. destruct (rest_frames g Hg) as (? & ? & ? & ? & ?). split; [done|split; [done|tauto]].
Qed.

(** The current range is finished and dropped. *)
Lemma carried_drop curr :
  current = Some curr ->
  carried (fun g => F g /\ ~ in_range g (frame_range curr)) frs first (Some newly).
Proof.
  intros Hcur. destruct (ca_frames _ _ _ _ Hc f ltac:(left)) as (HF & _ & Hn1 & Hn2).
  assert (Hio : forall g, in_opt g current <-> in_range g (frame_range curr)) by (by rewrite Hcur).
  apply carried_newly; [| | |done].
  - pose proof (ca_first _ _ _ _ Hc) as Hh. pose proof (ca_apart _ _ _ _ Hc) as Ha.
    destruct first as [x|]; [|done]. destruct Hh as (? & ? & Hin). split_and!; [done|done|].
    intros g Hg. split; [by apply Hin|]. rewrite <- Hio. by apply Ha.
  - split; [done|]. by rewrite <- Hio.
  - intros g Hg. rewrite <- Hio. by destruct (rest_frames g Hg) as (? & ? & ? & ? & ?).
Qed.

(** The accounting of the rest of the loop is that of the whole loop. *)
Lemma accounted_newly F' first1 current1 f' c' :
  (forall g, in_opt g first1 \/ in_opt g current1 <-> (in_opt g first \/ in_opt g current) \/ g = f) ->
  accounted F F' frs first1 current1 f' c' -> accounted F F' (f :: frs) first current f' c'.
Proof.
  intros Hio [Hkept Hfrom]. split; intros g; specialize (Hio g).
  - rewrite (Hkept g), elem_of_cons. tauto.
  - rewrite elem_of_cons. intros Hg. apply Hfrom in Hg. tauto.
Qed.

Lemma accounted_drop curr F' f' c' :
  current = Some curr -> held F' f' -> held F' c' ->
  accounted (fun g => F g /\ ~ in_range g (frame_range curr)) F' frs first (Some newly) f' c' ->
  accounted F F' (f :: frs) first current f' c'.
Proof.
  intros Hcur Hf' Hc' [Hkept Hfrom].
  assert (Hio : forall g, in_opt g current <-> in_range g (frame_range curr)) by (by rewrite Hcur).
  split; intros g; rewrite elem_of_cons; specialize (Hio g).
  - split.
    + intros Hg. apply Hkept in Hg. rewrite newly_in in Hg. tauto.
    + intros [HFg [Hout|[Hg|Hg]]].
      * apply Hkept. rewrite newly_in. tauto.
      * destruct f' as [x|]; [|done]. by apply Hf'.
      * destruct c' as [x|]; [|done]. by apply Hc'.
  - intros Hg. apply Hfrom in Hg. rewrite newly_in in Hg. tauto.
Qed.

End Turn.

Lemma mapped_rest k k2 page l frs :
  changed R [ix4 page] k k2 -> ix4 page ∉ ix4 <$> l -> Forall tree_page l ->
  Forall2 (is_mapped R k flags) l frs -> Forall2 (is_mapped R k2 flags) l frs.
Proof.
  intros Hc Hn Ht Hall. induction Hall as [|x f l frs Hx Hall IH]; [constructor|].
  apply Forall_cons in Ht as [Hx' Ht]. cbn [fmap list_fmap] in Hn. apply not_elem_of_cons in Hn as [Hne Hn].
  constructor; [|by apply IH]. eapply is_mapped_changed; [done|done| |done].
  intros E%list_elem_of_singleton. by apply Hne.
Qed.

(** What the loop does from a state it carries: it unmaps the pages and keeps account
    of their frames. *)
Definition unmap_spec U l : Prop :=
  forall frs F k first current,
  k_callback k = true -> kinv R r F k U -> Forall tree_page l -> NoDup (ix4 <$> l) ->
  Forall2 (is_mapped R k flags) l frs -> carried F frs first current ->
  exists k' F' first' current', unmap_loop k mp l first current = Done (Ok (first', current'), k') /\
    kinv R r F' k' U /\ carried F' [] first' current' /\ changed R (ix4 <$> l) k k' /\
    Forall (is_unmapped k') l /\ accounted F F' frs first current first' current' /\ freed F F' k k'.

(** The rest of the loop, once the first page is unmapped. *)
Lemma unmap_continue U page l frs F1 k k2 k3 first1 current1 :
  unmap_spec U l -> k_callback k = true -> Forall tree_page (page :: l) -> NoDup (ix4 <$> page :: l) ->
  changed R [ix4 page] k k2 -> is_unmapped k2 page -> Forall2 (is_mapped R k flags) l frs ->
  kinv R r F1 k3 U -> changed R [] k2 k3 -> k_mem k3 = k_mem k2 -> carried F1 frs first1 current1 ->
  exists k' F' first' current', unmap_loop k3 mp l first1 current1 = Done (Ok (first', current'), k') /\
    kinv R r F' k' U /\ carried F' [] first' current' /\ changed R (ix4 <$> page :: l) k k' /\
    Forall (is_unmapped k') (page :: l) /\ accounted F1 F' frs first1 current1 first' current' /\ freed F1 F' k3 k'.
Proof.
  intros IH Hcb [Hp Htp]%Forall_cons Hnd Hc2 Hun Hall Hk3 Hc3 Hm3 Hca. cbn [fmap list_fmap] in *.
  apply NoDup_cons in Hnd as [Hni Hnd]. pose proof (mapped_rest _ _ _ _ _ Hc2 Hni Htp Hall) as Hall2.
  destruct (IH frs F1 k3 first1 current1) as
    (k' & F' & first' & current' & E & Hk' & Hca' & Hc' & Hun' & Hacc & Hfree); try done.
  - by rewrite (ch_callback _ _ _ _ Hc3), (ch_callback _ _ _ _ Hc2).
  - eapply Forall2_impl; [exact Hall2|]. intros x g. unfold is_mapped, leaf. by rewrite Hm3.
  - exists k', F', first', current'. split_and!; try done.
    + eapply (changed_trans R [ix4 page] (ix4 <$> l) k k2 k'); [done|]. by eapply (changed_trans R [] _ k2 k3 k').
    + constructor; [|done]. eapply is_unmapped_changed; [exact Hc'|done|done|].
      unfold is_unmapped, leaf. by rewrite Hm3.
Qed.

Lemma unmap_loop_ok U l : Z.testbit flags 55 = true -> unmap_spec U l.
Proof.
  intros Hx. induction l as [|page l IH]; intros frs F k first current Hcb Hk Htp Hnd Hall Hc.
  { apply Forall2_nil_inv_l in Hall as ->. exists k, F, first, current.
    split_and!; auto using changed_refl; [|intros g; tauto]. split; intros g; rewrite elem_of_nil; [|tauto].
    destruct (decide (in_opt g first \/ in_opt g current)); tauto. }
  apply Forall2_cons_inv_l in Hall as (f & frs' & Hmap & Hall & ->). pose proof Htp as [Hp _]%Forall_cons.
  destruct (ca_frames _ _ _ _ Hc f ltac:(left)) as (HF & Hf & Hn1 & Hn2).
  destruct (mapped_find F k U page f Hk Hmap Hf) as (a1 & t1 & Hfind & T1 & Hload).
  destruct (unmap_one F k U page a1 t1 Hk Hp T1) as (k2 & Hst & Hk2 & Hc2 & Hfr2 & Hun).
  cbn [unmap_loop]. rewrite Hfind. cbn [outcome_bind]. rewrite Hload. cbn [outcome_bind].
  unfold is_unused. rewrite (proj2 (Z.eqb_neq _ 0)) by (by apply mapped_entry_used).
  rewrite set_unmapped_entry, Hx, Hst by done. cbn [outcome_bind].
  rewrite (ch_callback _ _ _ _ Hc2), Hcb. cbn [negb].
  destruct (fs_into_law _ _ (mkRange f f) (ki_frames _ _ _ _ _ Hk2)) as (ty & Hty & ->).
  { split; simpl; mem_consts; lia. } { intros g ->%one_frame_range. by right. }
  cbn [outcome_bind]. set (newly := mkFrames ty (mkRange f f)).
  pose proof (fun F1 k3 f1 c1 => unmap_continue U page l frs' F1 k k2 k3 f1 c1 IH Hcb Htp Hnd Hc2 Hun Hall) as Hgo.
  assert (Hk2r := changed_refl R k2). assert (Hin := newly_in f newly eq_refl).
  assert (Hsame : forall F1 F' k', freed F1 F' k2 k' <-> freed F1 F' k k') by (intros F1 F' k'; unfold freed; by rewrite Hfr2).
  destruct current as [curr|].
  2:{ destruct (Hgo F k2 first (Some newly) Hk2 Hk2r eq_refl) as (k' & F' & f' & c' & -> & ? & ? & ? & ? & Hacc & Hfree).
      { by eapply carried_start. }
      exists k', F', f', c'. split_and!; try done; [|by rewrite <- (Hsame F F')]. eapply accounted_newly; [|exact Hacc].
      intros g. rewrite Hin. simpl. tauto. }
  destruct (merge Page4K curr newly) as [merged|x] eqn:Em.
  { destruct (carried_merge F f frs' first (Some curr) newly Hc Hty eq_refl curr merged eq_refl Em) as [Hca Hio].
    destruct (Hgo F k2 first (Some merged) Hk2 Hk2r eq_refl Hca) as (k' & F' & f' & c' & -> & ? & ? & ? & ? & Hacc & Hfree).
    exists k', F', f', c'. split_and!; try done; [|by rewrite <- (Hsame F F')]. eapply accounted_newly; [|exact Hacc]. intros g. rewrite Hio. tauto. }
  apply merge_Err in Em as ->. destruct first as [fst0|].
  - destruct (kinv_drop F k2 U curr Hk2 (ca_current _ _ _ _ Hc)) as (k3 & -> & Hc3 & Hm3 & Hk3 & Hfree3).
    cbn [outcome_bind].
    destruct (Hgo _ k3 (Some fst0) (Some newly) Hk3 Hc3 Hm3) as (k' & F' & f' & c' & -> & ? & Hca' & ? & ? & Hacc & Hfree).
    { by eapply carried_drop. }
    exists k', F', f', c'. split_and!; try done.
    2:{ rewrite <- (Hsame F F'). eapply freed_trans; [exact Hfree3|exact Hfree|]. intros g Hg. by apply (ac_kept _ _ _ _ _ _ _ Hacc g). }
    eapply (accounted_drop F f frs' (Some fst0) (Some curr) newly eq_refl curr); [done|apply Hca'|apply Hca'|exact Hacc].
  - destruct (Hgo F k2 (Some curr) (Some newly) Hk2 Hk2r eq_refl) as (k' & F' & f' & c' & -> & ? & ? & ? & ? & Hacc & Hfree).
    { by eapply carried_first. }
    exists k', F', f', c'. split_and!; try done; [|by rewrite <- (Hsame F F')]. eapply accounted_newly; [|exact Hacc].
    intros g. rewrite Hin. simpl. tauto.
Qed.

(** ** The loop of [remap] *)

(** The entry of a page after [set_flags]. *)
Lemma set_flags_entry (f new_flags : Z) :
  0 <= f < 2 ^ 40 -> flags_in X86_all new_flags ->
  set_flags (set_entry f flags) new_flags = set_entry f new_flags.
Proof.
  intros Hf Hn. unfold set_flags. rewrite land_mask, <- frame_value_eq, set_entry_frame by done.
  unfold set_entry. rewrite start_address_fits by done. rewrite Z.shiftl_mul_pow2 by lia.
  change (2 ^ 12) with 4096. f_equal.
  change X86_all with ARCH_all in Hn. rewrite <- Hn, <- Z.land_assoc, (Z.land_comm ARCH_all), all_in_not_mask. done.
Qed.

Lemma remap_loop_ok new_flags l frs F k U :
  flags_in X86_all new_flags -> Z.testbit new_flags 0 = true ->
  kinv R r F k U -> Forall tree_page l -> NoDup (ix4 <$> l) ->
  Forall2 (is_mapped R k flags) l frs -> Forall (fun f => 0 <= f < 2 ^ 40) frs ->
  exists k', remap_loop k mp new_flags l = Done (Ok tt, k') /\ kinv R r F k' U /\
    changed R (ix4 <$> l) k k' /\ k_frames k' = k_frames k /\ Forall2 (is_mapped R k' new_flags) l frs.
Proof.
  intros Hnf Hn0. revert frs k. induction l as [|page l IH]; intros frs k Hk Htp Hnd Hall Hfit.
  { apply Forall2_nil_inv_l in Hall as ->. exists k. split_and!; auto using changed_refl. }
  apply Forall2_cons_inv_l in Hall as (f & frs' & Hmap & Hall & ->).
  apply Forall_cons in Htp as [Hp Htp]. apply Forall_cons in Hfit as [Hf Hfit].
  cbn [fmap list_fmap] in *. apply NoDup_cons in Hnd as [Hni Hnd].
  destruct (mapped_find F k U page f Hk Hmap Hf) as (a1 & t1 & Hfind & T1 & Hload).
  cbn [remap_loop]. rewrite Hfind. cbn [outcome_bind]. rewrite Hload. cbn [outcome_bind].
  rewrite set_flags_entry by done.
  destruct (map_one R r F k U page a1 t1 f new_flags Hk Hp T1 Hf Hnf Hn0) as (k2 & -> & Hk2 & Hc2 & Hfr2 & Hm2).
  cbn [outcome_bind]. destruct (IH frs' k2 Hk2 Htp Hnd) as (k' & -> & Hk' & Hc' & Hfr' & Hall');
    [by eapply mapped_rest|done|].
  exists k'. split_and!; [done|done| |congruence|].
  - by apply (changed_trans R [ix4 page] _ k k2 k').
  - constructor; [|done]. by eapply is_mapped_changed.
Qed.

End Unmap.
