(* ===== verification/MapperSpec.v ===== *)
(** * What the mapper promises

    The theorems about translation, mapping, unmapping and remapping: they are stated
    with [translate_page], the kernel's own translation, and with [mmu_walk], the
    translation of the processor. *)

From S2P Require Import Prelude MemStructs FrameAlloc PageAlloc PteFlags PageTable PageWalk PageTree PageMap PageUnmap.

#[local] Existing Instance x86_arch.

Section Spec.
Context {bf : Bitflags} {bl : BitflagsLaws bf} {FA PB : Type}.
Context {fs : FrameSource FA} {fl : FrameSourceLaws FA} {ps : PageSource PB}.
Implicit Types (k : Kernel FA PB) (U F : Z -> Prop).
Context (R r : Z) (Hr : 0 <= r < 512).
Context (mp : Mapper) (Hmp : m_p4 mp = recursive_address r).

(** ** Flags of the entries *)

Definition mapped_flags (flags : Z) (owned : bool) : Z := x86_exclusive (x86_valid flags true) owned.

Lemma mapped_flags_ok (flags : Z) (owned : bool) :
  flags_in X86_all flags ->
  flags_in X86_all (mapped_flags flags owned) /\ Z.testbit (mapped_flags flags owned) 0 = true /\
  Z.testbit (mapped_flags flags owned) 55 = owned.
Proof.
  intros Hf. unfold mapped_flags, x86_exclusive, x86_valid, X86_EXCLUSIVE, X86_VALID.
  split; [by repeat apply x86_set_in|]. rewrite !set_spec by lia. done.
Qed.

Lemma higher_flags_ok (flags : Z) :
  flags_in X86_all flags ->
  flags_in X86_all (x86_adjust_for_higher_level_pte flags) /\
  Z.testbit (x86_adjust_for_higher_level_pte flags) 7 = false.
Proof.
  intros Hf. split; [|by rewrite x86_adjust_bits by lia]. apply flags_in_bits. intros n Hn Ha.
  rewrite x86_adjust_bits by done. destruct (Z.eqb_spec n 0) as [->|]; [done|].
  destruct (_ || _); [done|]. by eapply flags_in_bit.
Qed.

(** ** Ranges of pages and frames *)

Definition chunks (rg : ChunkRange) : list Z := seqZ (r_start rg) (r_end rg - r_start rg + 1).

Lemma elem_of_chunks (rg : ChunkRange) (x : Z) : x ∈ chunks rg <-> in_range x rg.
Proof. unfold chunks, in_range. rewrite elem_of_seqZ. lia. Qed.

Lemma chunks_one (p : Z) : chunks (mkRange p p) = [p].
Proof.
  unfold chunks. simpl r_end. simpl r_start. replace (p - p + 1) with 1 by lia.
  change (seqZ p 1) with [0 + p]. by rewrite Z.add_0_l.
Qed.

Lemma length_chunks (rg : ChunkRange) : length (chunks rg) = Z.to_nat (r_end rg - r_start rg + 1).
Proof. apply length_seqZ. Qed.

Definition small_range (rg : ChunkRange) : Prop :=
  wf_range rg /\ r_end rg - r_start rg < 2 ^ 36.

Lemma chunks_NoDup (rg : ChunkRange) : small_range rg -> NoDup (ix4 <$> chunks rg).
Proof. intros [_ H]. apply range_ix4_NoDup. lia. Qed.

Lemma range_size (rg : ChunkRange) : wf_range rg -> size_in_chunks Page4K rg = r_end rg - r_start rg + 1.
Proof. intros [? ?]. rewrite size_4k by lia. lia. Qed.

Lemma zip_fst (l1 l2 : list Z) : length l1 = length l2 -> (zip l1 l2).*1 = l1.
Proof. intros. apply fst_zip. lia. Qed.

Lemma zip_snd (l1 l2 : list Z) : length l1 = length l2 -> (zip l1 l2).*2 = l2.
Proof. intros. apply snd_zip. lia. Qed.

Lemma Forall_zip {X Y} (P : X -> Y -> Prop) (l1 : list X) (l2 : list Y) :
  length l1 = length l2 -> Forall (fun xy => P xy.1 xy.2) (zip l1 l2) -> Forall2 P l1 l2.
Proof.
  revert l2. induction l1 as [|x l1 IH]; intros [|y l2] Hl H; simpl in *; try done.
  apply Forall_cons in H as [? ?]. constructor; [done|]. apply IH; [lia|done].
Qed.

(** ** From entries to translations *)

Lemma no_huge_aligned k page : no_huge R k page -> huge_aligned R (k_mem k) page.
Proof.
  intros (_ & H3 & H2). split; intros t Ht Hp Hs.
  - unfold entry_at in H3. rewrite Ht, Hs in H3. done.
  - unfold entry_at in H2. rewrite Ht, Hs in H2. done.
Qed.

Lemma translate_of_walk F k U page :
  kinv R r F k U -> no_huge R k page -> translate_page k mp page = Done (gwalk (k_mem k) R (ix4 page)).
Proof.
  intros Hk Hh. eapply translate_gwalk; eauto; [apply Hk|by apply no_huge_aligned].
Qed.

(** Two pages with the same indices are the same page for the processor. *)
Definition covers (rg : ChunkRange) (page : Z) : Prop := exists p, in_range p rg /\ ix4 p = ix4 page.

Lemma not_covered (rg : ChunkRange) (page : Z) : ~ covers rg page -> ix4 page ∉ ix4 <$> chunks rg.
Proof.
  intros H Hin. apply list_elem_of_fmap in Hin as (p & E & Hp). apply H. exists p.
  by rewrite <- elem_of_chunks.
Qed.

(** The pages outside of [rg] are translated as before. *)
Definition others_kept (rg : ChunkRange) k k' : Prop :=
  forall page, tree_page page -> ~ covers rg page ->
    fst <$> mmu_walk (k_mem k') R page = fst <$> mmu_walk (k_mem k) R page.

Lemma changed_others (rg : ChunkRange) k k' :
  changed R (ix4 <$> chunks rg) k k' -> others_kept rg k k'.
Proof.
  intros Hc page Hp Hn. rewrite !mmu_gwalk.
  apply (ch_walk _ _ _ _ Hc); [by apply tree_page_plain|done|by apply not_covered].
Qed.

(** A range of pages is mapped to the frames [frs], in order. *)
Definition range_mapped k (flags : Z) (rg : ChunkRange) (frs : list Z) : Prop :=
  Forall tree_page (chunks rg) /\ Forall (no_huge R k) (chunks rg) /\
  Forall2 (is_mapped R k flags) (chunks rg) frs.

Lemma range_mapped_translate F k U flags rg frs page f i :
  kinv R r F k U -> range_mapped k flags rg frs ->
  chunks rg !! i = Some page -> frs !! i = Some f -> translate_page k mp page = Done (Some f).
Proof.
  intros Hk (_ & Hh & Hall) Hi Hf. rewrite (translate_of_walk F k U).
  - f_equal. rewrite Forall2_lookup in Hall. specialize (Hall i). rewrite Hi, Hf in Hall.
    inversion Hall as [? ? [_ Hw]|]. by subst.
  - done.
  - rewrite Forall_forall in Hh. apply Hh. by eapply list_elem_of_lookup_2.
Qed.

Lemma range_mapped_leaf k flags rg frs page f i :
  range_mapped k flags rg frs -> chunks rg !! i = Some page -> frs !! i = Some f -> leaf R k page = set_entry f flags.
Proof.
  intros (_ & _ & Hall) Hi Hf. rewrite Forall2_lookup in Hall. specialize (Hall i). rewrite Hi, Hf in Hall.
  by inversion Hall as [? ? [? _]|].
Qed.

(** ** The mapping functions *)

Definition range_mappable k (rg : ChunkRange) : Prop := forall page, in_range page rg -> mappable R k page.

Lemma range_mappable_Forall k rg : range_mappable k rg -> Forall (mappable R k) (chunks rg).
Proof. intros H. apply Forall_forall. intros x Hx. by apply H, elem_of_chunks. Qed.

Lemma mapped_from_loop k k' flags rg frs :
  range_mappable k rg -> changed R (ix4 <$> chunks rg) k k' ->
  Forall2 (is_mapped R k' flags) (chunks rg) frs -> range_mapped k' flags rg frs.
Proof.
  intros Hm Hc Hall. split_and!; [| |done]; apply Forall_forall; intros x Hx%elem_of_chunks;
    destruct (Hm x Hx) as (Hp & Hh & _); [done|by eapply changed_no_huge].
Qed.

Lemma internal_map_to_ok F k U ap owned frames flags n :
  kinv R r F k U -> small_range (ap_pages ap) -> wf_range (frame_range frames) ->
  size_in_pages ap = fsize frames -> fend frames < 2 ^ 40 -> range_mappable k (ap_pages ap) ->
  flags_in X86_all flags -> fs_avail (k_frames k) (3 * Z.to_nat (size_in_pages ap) + n) ->
  exists k' U', internal_map_to k mp ap owned frames flags =
      Done (Ok (mkMapped (target_p4 mp) ap (mapped_flags flags owned), frames), k') /\
    kinv R r F k' U' /\ (forall f, U f -> U' f) /\ fs_avail (k_frames k') n /\
    changed R (ix4 <$> chunks (ap_pages ap)) k k' /\
    range_mapped k' (mapped_flags flags owned) (ap_pages ap) (chunks (frame_range frames)).
Proof.
  intros Hk Hs Hwf Hsz Hfit Hm Hfl Hav. pose proof Hs as [Hw _].
  destruct (mapped_flags_ok flags owned Hfl) as (Hin & H0 & _). destruct (higher_flags_ok flags Hfl) as (Hhin & H7).
  assert (Hlen : length (chunks (ap_pages ap)) = length (chunks (frame_range frames))).
  { unfold size_in_pages, fsize in Hsz. rewrite !range_size in Hsz by done. rewrite !length_chunks. lia. }
  unfold internal_map_to. rewrite Hsz, Z.eqb_refl. cbn [negb].
  rewrite !range_chunks_ok by done. cbn [outcome_bind]. fold (mapped_flags flags owned).
  fold (chunks (ap_pages ap)). fold (chunks (frame_range frames)).
  destruct (map_loop_ok R r mp (x86_adjust_for_higher_level_pte flags) (mapped_flags flags owned)
    (zip (chunks (ap_pages ap)) (chunks (frame_range frames))) F k U n)
    as (k' & U' & -> & Hk' & HU' & Hc' & Hav' & Hall); try done; rewrite ?zip_fst, ?zip_snd in * by done.
  - by apply chunks_NoDup.
  - by apply range_mappable_Forall.
  - apply Forall_forall. intros f Hf%elem_of_chunks. destruct Hwf. unfold in_range, fend in *. lia.
  - rewrite length_zip_with, <- Hlen, Nat.min_id, length_chunks. unfold size_in_pages in Hav.
    by rewrite range_size in Hav by done.
  - cbn [outcome_bind]. exists k', U'. split_and!; try done.
    eapply mapped_from_loop; [done|done|]. by apply Forall_zip.
Qed.

Lemma map_allocated_pages_ok F k U ap flags n :
  kinv R r F k U -> small_range (ap_pages ap) -> range_mappable k (ap_pages ap) ->
  flags_in X86_all flags -> fs_avail (k_frames k) (4 * Z.to_nat (size_in_pages ap) + n) ->
  exists k' U' frs, map_allocated_pages k mp ap flags =
      Done (Ok (mkMapped (target_p4 mp) ap (mapped_flags flags true)), k') /\
    kinv R r (fun g => F g \/ g ∈ frs) k' U' /\ (forall f, U f -> U' f) /\ fs_avail (k_frames k') n /\
    changed R (ix4 <$> chunks (ap_pages ap)) k k' /\
    range_mapped k' (mapped_flags flags true) (ap_pages ap) frs /\
    NoDup frs /\ Forall (fun f => ~ U f /\ ~ F f /\ 0 <= f < 2 ^ 40) frs.
Proof.
  intros Hk Hs Hm Hfl Hav. pose proof Hs as [Hw _].
  destruct (mapped_flags_ok flags true Hfl) as (Hin & H0 & _). destruct (higher_flags_ok flags Hfl) as (Hhin & H7).
  unfold map_allocated_pages. rewrite range_chunks_ok by done. cbn [outcome_bind].
  fold (mapped_flags flags true). fold (chunks (ap_pages ap)).
  destruct (map_pages_loop_ok R r mp (x86_adjust_for_higher_level_pte flags) (mapped_flags flags true)
    (chunks (ap_pages ap)) F k U n) as (k' & U' & frs & -> & Hk' & HU' & Hc' & Hav' & Hall & Hnd & Hfrs); try done.
  - by apply chunks_NoDup.
  - by apply range_mappable_Forall.
  - rewrite length_chunks. unfold size_in_pages in Hav. by rewrite range_size in Hav by done.
  - cbn [outcome_bind]. exists k', U', frs. split_and!; try done. by eapply mapped_from_loop.
Qed.

(** ** Unmapping *)

Definition owned_frames F (frs : list Z) : Prop :=
  NoDup frs /\ Forall (fun f => F f /\ 0 <= f < 2 ^ 40) frs.

Lemma carried_initial F frs : owned_frames F frs -> carried F frs None None.
Proof.
  intros [Hnd Hf]. split; try done. intros g Hg. rewrite Forall_forall in Hf.
  destruct (Hf g Hg). simpl. tauto.
Qed.

Lemma unmap_ok F k U mapped frs :
  kinv R r F k U -> k_callback k = true -> small_range (ap_pages (mp_pages mapped)) ->
  page_table_p4 mapped = target_p4 mp ->
  flags_in X86_all (mp_flags mapped) -> Z.testbit (mp_flags mapped) 0 = true ->
  Z.testbit (mp_flags mapped) 55 = true ->
  range_mapped k (mp_flags mapped) (ap_pages (mp_pages mapped)) frs -> owned_frames F frs ->
  exists k' F' fr, unmap k mapped mp = Done (Ok fr, k') /\ kinv R r F' k' U /\ held F' fr /\
    changed R (ix4 <$> chunks (ap_pages (mp_pages mapped))) k k' /\
    Forall (is_unmapped R k') (chunks (ap_pages (mp_pages mapped))) /\
    (forall g, in_opt g fr -> g ∈ frs) /\ (forall g, F' g <-> F g /\ (g ∉ frs \/ in_opt g fr)) /\ freed F F' k k'.
Proof.
  intros Hk Hcb Hs Ht Hfl H0 H55 (Htp & Hh & Hall) Hof. pose proof Hs as [Hw _].
  unfold unmap, size_in_pages. rewrite range_size by done.
  rewrite (proj2 (Z.eqb_neq _ 0)) by (destruct Hw; lia). rewrite Ht, Z.eqb_refl. cbn [negb].
  rewrite range_chunks_ok by done. cbn [outcome_bind]. fold (chunks (ap_pages (mp_pages mapped))).
  destruct (unmap_loop_ok R r Hr mp Hmp (mp_flags mapped) Hfl H0 U (chunks (ap_pages (mp_pages mapped))) H55
    frs F k None None) as (k' & F' & first & current & -> & Hk' & Hca & Hc' & Hun & [Hkept Hfrom] & Hfree); try done.
  { by apply chunks_NoDup. } { by apply carried_initial. }
  cbn [outcome_bind]. destruct first as [first|].
  - destruct current as [current|]; cbn [drop_opt_frames].
    2:{ exists k', F', (Some first). split_and!; try done; [apply Hca| |].
        - intros g Hg. destruct (Hfrom g); [by left|done|]. simpl in *. tauto.
        - intros g. rewrite Hkept. simpl. tauto. }
    destruct (kinv_drop R r Hr F' k' U current Hk' (ca_current _ _ _ _ Hca)) as (k2 & -> & Hc2 & Hm2 & Hk2 & Hfree2).
    cbn [outcome_bind]. eexists k2, _, (Some first). split_and!; [done|exact Hk2| | | | | |].
    + destruct (ca_first _ _ _ _ Hca) as (? & ? & Hin). split_and!; [done|done|].
      intros g Hg. split; [by apply Hin|]. by apply (ca_apart _ _ _ _ Hca).
    + rewrite <- (app_nil_r (ix4 <$> _)). by apply (changed_trans R _ [] k k' k2).
    + eapply Forall_impl; [exact Hun|]. intros x. unfold is_unmapped, leaf. by rewrite Hm2.
    + intros g Hg. destruct (Hfrom g); [by left|done|]. simpl in *. tauto.
    + intros g. cbv beta. rewrite Hkept. specialize (Hfrom g). pose proof (ca_apart _ _ _ _ Hca g). simpl in *. tauto.
    + intros g. unfold freed in Hfree, Hfree2. rewrite Hfree2, Hfree. specialize (Hkept g).
      destruct (decide (in_range g (frame_range current))); tauto.
  - exists k', F', current. split_and!; try done; [apply Hca| |].
    + intros g Hg. destruct (Hfrom g); [by right|done|]. simpl in *. tauto.
    + intros g. rewrite Hkept. simpl. tauto.
Qed.

(** ** Properties *)

(** C11: The kernel's translation is the processor's.  For a mapper whose recursive
    slot is set up, [translate_page], which reads the tables through their recursive
    virtual addresses, never faults and returns exactly the frame to which 4-level
    paging from the mapper's root translates the page, huge pages included. *)
Theorem translate_page_is_page_walk k page :
  recursive (k_mem k) (k_cr3 k) R r -> huge_aligned R (k_mem k) page ->
  translate_page k mp page = Done (fst <$> mmu_walk (k_mem k) R page).
Proof. intros Hrec Hh. rewrite mmu_gwalk. by apply (translate_gwalk R r Hr). Qed.

(** C12: Mapping pages to given frames.  If the pages are not yet mapped and the
    allocator can supply the page tables, [internal_map_to] (hence
    [map_allocated_pages_to] and [map_to_non_exclusive]) succeeds; the kernel then
    translates the i-th page to the i-th frame, and the lowest-level entry of that page in
    the tables holds that frame and the flags asked for, with the valid bit set and the
    exclusive bit set exactly when the frames were owned; every other page is translated
    as before, and no frame in use is taken for a table.  (There are
    as many pages as frames, at most 2^36, none of the pages lies in a recursive slot or in
    a huge page, the frame numbers have 40 bits, and the flags are known ones.) *)
Theorem mapping_translates_to_frames F k U ap owned frames flags :
  kinv R r F k U -> small_range (ap_pages ap) -> wf_range (frame_range frames) ->
  size_in_pages ap = fsize frames -> fend frames < 2 ^ 40 -> range_mappable k (ap_pages ap) ->
  flags_in X86_all flags -> fs_avail (k_frames k) (3 * Z.to_nat (size_in_pages ap)) ->
  exists k' U', internal_map_to k mp ap owned frames flags =
      Done (Ok (mkMapped (target_p4 mp) ap (mapped_flags flags owned), frames), k') /\
    kinv R r F k' U' /\ (forall f, U f -> U' f) /\
    (forall page, in_range page (ap_pages ap) ->
       let frame := fstart frames + (page - pstart ap) in
       translate_page k' mp page = Done (Some frame) /\
       frame_value (leaf R k' page) = frame /\
       x86_is_exclusive (pte_flags (leaf R k' page)) = owned /\
       forall b, 0 <= b -> b <> 0 -> b <> 55 -> Z.testbit (pte_flags (leaf R k' page)) b = Z.testbit flags b) /\
    others_kept (ap_pages ap) k k'.
Proof.
  intros Hk Hs Hwf Hsz Hfit Hm Hfl Hav. rewrite <- (Nat.add_0_r (3 * _)) in Hav.
  destruct (internal_map_to_ok F k U ap owned frames flags 0 Hk Hs Hwf Hsz Hfit Hm Hfl Hav)
    as (k' & U' & HE & Hk' & HU' & _ & Hc & Hrm).
  exists k', U'. split_and!; [done|done|done| |by apply changed_others].
  intros page Hp frame. pose proof Hs as [[? ?] _].
  unfold size_in_pages, fsize in Hsz. rewrite !range_size in Hsz by (done || apply Hs). unfold in_range in Hp.
  assert (chunks (ap_pages ap) !! Z.to_nat (page - pstart ap) = Some page) as Hi.
  { unfold chunks, pstart. rewrite lookup_seqZ_lt by lia. f_equal. lia. }
  assert (chunks (frame_range frames) !! Z.to_nat (page - pstart ap) = Some frame) as Hj.
  { unfold frame, chunks, pstart, fstart. rewrite lookup_seqZ_lt by lia. f_equal. lia. }
  split; [by eapply (range_mapped_translate F k' U')|].
  pose proof (range_mapped_leaf _ _ _ _ _ _ _ Hrm Hi Hj) as ->.
  destruct (mapped_flags_ok flags owned Hfl) as (Hin & _ & H55).
  assert (0 <= frame < 2 ^ 40) as Hfr by (unfold frame, fstart, fend, pstart in *; destruct Hwf; lia).
  rewrite set_entry_frame, set_entry_flags by done. split; [done|]. split.
  - unfold x86_is_exclusive, X86_EXCLUSIVE. by rewrite contains_bit by lia.
  - intros b H1 H2 H3. unfold mapped_flags, x86_exclusive, x86_valid, X86_EXCLUSIVE, X86_VALID. rewrite !set_spec by lia.
    by rewrite !(proj2 (Z.eqb_neq _ _)) by lia.
Qed.


(** C14: Unmapping.  Unmapping pages that are mapped exclusively to different frames
    succeeds, once the frame allocator has set its callback: none of the pages is
    translated any more, every other page is translated as before, the returned range
    holds only frames the pages were mapped to, and the frames that the allocator has free
    afterwards are those it had before and all frames of the mapping that are not in the
    returned range.  (The mapping is one of this table, of at most 2^36 pages, with the
    entries as [map_allocated_pages] writes them.) *)
Theorem unmap_releases_pages_and_frames F k U mapped frs :
  kinv R r F k U -> k_callback k = true -> small_range (ap_pages (mp_pages mapped)) ->
  page_table_p4 mapped = target_p4 mp -> flags_in X86_all (mp_flags mapped) ->
  x86_is_valid (mp_flags mapped) = true -> x86_is_exclusive (mp_flags mapped) = true ->
  range_mapped k (mp_flags mapped) (ap_pages (mp_pages mapped)) frs -> owned_frames F frs ->
  exists k' F' fr, unmap k mapped mp = Done (Ok fr, k') /\ kinv R r F' k' U /\
    (forall page, in_range page (ap_pages (mp_pages mapped)) -> translate_page k' mp page = Done None) /\
    others_kept (ap_pages (mp_pages mapped)) k k' /\
    (forall g, in_opt g fr -> g ∈ frs) /\
    (forall g, F' g <-> F g /\ (g ∉ frs \/ in_opt g fr)) /\
    (forall g, fs_free (k_frames k') g <-> fs_free (k_frames k) g \/ (g ∈ frs /\ ~ in_opt g fr)).
Proof.
  intros Hk Hcb Hs Ht Hfl H0 H55 Hrm Hof. unfold x86_is_valid, x86_is_exclusive, X86_VALID, X86_EXCLUSIVE in *.
  rewrite contains_bit in H0, H55 by lia.
  destruct (unmap_ok F k U mapped frs Hk Hcb Hs Ht Hfl H0 H55 Hrm Hof)
    as (k' & F' & fr & HE & Hk' & _ & Hc & Hun & Hsub & HF' & Hfree).
  exists k', F', fr. split_and!; [done|done| |by apply changed_others|done|done|].
  2:{ intros g. rewrite (Hfree g), HF'. destruct Hof as [_ Hof]. rewrite Forall_forall in Hof. specialize (Hof g).
      destruct (decide (g ∈ frs)), (decide (in_opt g fr)); tauto. }
  intros page Hp%elem_of_chunks. destruct Hrm as (Htp & Hh & _). rewrite Forall_forall in Hun, Htp, Hh.
  rewrite (translate_of_walk F' k' U) by (done || eapply changed_no_huge; eauto).
  by rewrite (proj2 (Hun page Hp)).
Qed.

(** Remapping.  [remap] gives every page the new flags, except that the pages stay
    valid and keep their exclusiveness, and it leaves the frames they are mapped to and
    the translation of every page as they were. *)
Theorem remap_keeps_translation F k U mapped new_flags frs :
  kinv R r F k U -> small_range (ap_pages (mp_pages mapped)) ->
  flags_in X86_all (mp_flags mapped) -> x86_is_valid (mp_flags mapped) = true ->
  flags_in X86_all new_flags -> range_mapped k (mp_flags mapped) (ap_pages (mp_pages mapped)) frs ->
  Forall (fun f => 0 <= f < 2 ^ 40) frs ->
  exists k' flags', remap k mapped mp new_flags =
      Done (Ok tt, mkMapped (page_table_p4 mapped) (mp_pages mapped) flags', k') /\
    flags' = x86_valid (x86_exclusive new_flags (x86_is_exclusive (mp_flags mapped))) true /\
    x86_is_exclusive flags' = x86_is_exclusive (mp_flags mapped) /\
    kinv R r F k' U /\ range_mapped k' flags' (ap_pages (mp_pages mapped)) frs /\
    others_kept (ap_pages (mp_pages mapped)) k k'.
Proof.
  intros Hk Hs Hfl H0 Hnf Hrm Hfit. pose proof Hs as [Hw _]. pose proof Hrm as (Htp & Hh & Hall).
  unfold x86_is_valid, X86_VALID in H0. rewrite contains_bit in H0 by lia.
  unfold remap, size_in_pages. rewrite range_size by done.
  rewrite (proj2 (Z.eqb_neq _ 0)) by (destruct Hw; lia).
  set (flags' := x86_valid _ true).
  assert (Hex : x86_is_exclusive flags' = x86_is_exclusive (mp_flags mapped)).
  { unfold flags', x86_is_exclusive at 1, x86_valid, x86_exclusive, X86_EXCLUSIVE, X86_VALID.
    rewrite contains_bit, !set_spec by lia. done. }
  assert (Hin' : flags_in X86_all flags') by (by repeat apply x86_set_in).
  assert (H0' : Z.testbit flags' 0 = true).
  { unfold flags', x86_valid, X86_VALID. by rewrite set_spec by lia. }
  destruct (Z.eqb_spec flags' (mp_flags mapped)) as [E|_].
  { exists k, flags'. split_and!; try done; [|by rewrite E]. rewrite E. by destruct mapped. }
  rewrite range_chunks_ok by done. cbn [outcome_bind]. fold (chunks (ap_pages (mp_pages mapped))).
  destruct (remap_loop_ok R r Hr mp Hmp (mp_flags mapped) Hfl H0 flags' (chunks (ap_pages (mp_pages mapped))) frs F k U)
    as (k' & -> & Hk' & Hc & _ & Hall'); try done; [by apply chunks_NoDup|].
  cbn [outcome_bind]. exists k', flags'. split_and!; try done; [|by apply changed_others].
  split_and!; [done| |done]. apply Forall_forall. intros x Hx. rewrite Forall_forall in Htp, Hh.
  eapply changed_no_huge; eauto.
Qed.

End Spec.

(** ** Mapping and dropping *)

Section Current.
Context {bf : Bitflags} {bl : BitflagsLaws bf} {FA PB : Type}.
Context {fs : FrameSource FA} {fl : FrameSourceLaws FA} {ps : PageSource PB}.
Implicit Types (k : Kernel FA PB) (U F : Z -> Prop).

(** The invariant of the active page table. *)
Definition active_inv F k U : Prop := kinv (k_cr3 k) RECURSIVE_P4_INDEX F k U.

Lemma kinv_drop_opt R r F k U o :
  0 <= r < 512 -> kinv R r F k U -> held F o ->
  exists k', drop_opt_frames o k = Done k' /\ changed R [] k k' /\ k_mem k' = k_mem k /\
    kinv R r (fun g => F g /\ ~ in_opt g o) k' U /\ freed F (fun g => F g /\ ~ in_opt g o) k k'.
Proof.
  intros Hr Hk Ho. destruct o as [x|]; [by apply kinv_drop|]. exists k.
  split_and!; [done|apply changed_refl|done| |intros g; simpl; tauto].
  eapply kinv_ext; [done|]. intros g. simpl. tauto.
Qed.

Lemma leaf_unmapped_translate F k U page :
  active_inv F k U -> no_huge (k_cr3 k) k page -> is_unmapped (k_cr3 k) k page ->
  translate_page k (from_current k) page = Done None.
Proof.
  intros Hk Hh [_ Hw]. rewrite (translate_of_walk (k_cr3 k) RECURSIVE_P4_INDEX ltac:(done) (from_current k) eq_refl F k U) by done.
  by rewrite Hw.
Qed.

(** C15: Mapping pages to new frames and dropping the mapping restores the kernel: the
    pages are not mapped, every other page is translated as it was, the frames the
    pages were mapped to are free in the allocator again (those that hold new page tables
    are not), and the pages have been returned to the page allocator.  (The pages, at most
    2^36, are not mapped before and lie in no recursive slot and in no huge page, the flags
    are known ones, the allocator has four frames for every page, and its callback is set.) *)
Theorem map_then_drop_restores F k U ap flags :
  active_inv F k U -> k_callback k = true -> small_range (ap_pages ap) ->
  range_mappable (k_cr3 k) k (ap_pages ap) -> flags_in X86_all flags ->
  fs_avail (k_frames k) (4 * Z.to_nat (size_in_pages ap)) ->
  exists mapped k1 k2 U' (frs : list Z), map_allocated_pages k (from_current k) ap flags = Done (Ok mapped, k1) /\
    (forall i page, chunks (ap_pages ap) !! i = Some page -> exists f, frs !! i = Some f /\
       translate_page k1 (from_current k) page = Done (Some f)) /\
    drop_mapped k1 mapped = Done k2 /\ active_inv F k2 U' /\ (forall f, f ∈ frs -> fs_free (k_frames k2) f) /\
    (forall page, in_range page (ap_pages ap) -> translate_page k2 (from_current k2) page = Done None) /\
    others_kept (k_cr3 k) (ap_pages ap) k k2 /\ k_pages k2 = ps_drop (k_pages k) ap.
Proof.
  intros Hk Hcb Hs Hm Hfl Hav. set (R := k_cr3 k) in *. rewrite <- (Nat.add_0_r (4 * _)) in Hav.
  assert (Hr : 0 <= RECURSIVE_P4_INDEX < 512) by done.
  destruct (map_allocated_pages_ok R RECURSIVE_P4_INDEX Hr (from_current k) eq_refl F k U ap flags 0 Hk Hs Hm Hfl Hav)
    as (k1 & U' & frs & HE & Hk1 & HU' & _ & Hc1 & Hrm & Hnd & Hfrs).
  destruct (mapped_flags_ok flags true Hfl) as (Hin & H0 & H55). set (mapped := mkMapped _ ap _) in HE.
  assert (Hcr1 : k_cr3 k1 = R) by apply (ch_cr3 _ _ _ _ Hc1).
  assert (Hof : owned_frames (fun g => F g \/ g ∈ frs) frs).
  { split; [done|]. rewrite Forall_forall in Hfrs |- *. intros f Hf. split; [by right|]. by apply Hfrs. }
  destruct (unmap_ok R RECURSIVE_P4_INDEX Hr (from_current k1) eq_refl _ k1 U' mapped frs Hk1)
    as (k2 & F' & fr & HE2 & Hk2 & Hh2 & Hc2 & Hun2 & Hsub & HF' & Hfree2); try done;
    [by rewrite (ch_callback _ _ _ _ Hc1)|].
  destruct (kinv_drop_opt R RECURSIVE_P4_INDEX F' k2 U' fr Hr Hk2 Hh2) as (k3 & HE3 & Hc3 & Hm3 & Hk3 & Hfree3).
  set (k4 := drop_pages_k ap k3). assert (Hcr4 : k_cr3 k4 = R).
  { simpl. by rewrite (ch_cr3 _ _ _ _ Hc3), (ch_cr3 _ _ _ _ Hc2). }
  assert (Hk4 : active_inv F k4 U').
  { unfold active_inv. rewrite Hcr4. rewrite Forall_forall in Hfrs.
    assert (Hk3' : kinv R RECURSIVE_P4_INDEX F k3 U').
    { eapply kinv_ext; [exact Hk3|]. intros g. cbv beta. rewrite HF'. specialize (Hsub g).
      destruct (decide (g ∈ frs)) as [Hg|]; [|tauto]. destruct (Hfrs g Hg) as (_ & Hn & _). tauto. }
    destruct Hk3'. by split. }
  exists mapped, k1, k4, U', frs. split_and!; [done| | |done| | | |].
  - intros i page Hi. pose proof Hrm as (_ & _ & Hall). apply Forall2_length in Hall as Hl.
    destruct (frs !! i) as [f|] eqn:Ef; [|apply lookup_ge_None in Ef; apply lookup_lt_Some in Hi; lia].
    exists f. split; [done|]. by eapply (range_mapped_translate R RECURSIVE_P4_INDEX Hr (from_current k) eq_refl _ k1 U').
  - unfold drop_mapped. rewrite HE2. cbn [outcome_bind]. rewrite HE3. done.
  - intros g Hg. change (fs_free (k_frames k3) g). apply Hfree3. rewrite (Hfree2 g), HF'.
    destruct (decide (in_opt g fr)); tauto.
  - intros page Hp. apply (leaf_unmapped_translate F k4 U'); [done| |]; rewrite Hcr4.
    + destruct (Hm page Hp) as (Htp & Hh & _).
      pose proof (changed_no_huge R _ _ _ _ Hc1 Htp Hh) as Hh1.
      pose proof (changed_no_huge R _ _ _ _ Hc2 Htp Hh1) as Hh2'.
      exact (changed_no_huge R _ _ _ _ Hc3 Htp Hh2').
    + apply elem_of_chunks in Hp. rewrite Forall_forall in Hun2. specialize (Hun2 page Hp).
      unfold is_unmapped, leaf in *. simpl. by rewrite Hm3.
  - intros page Hp Hn. simpl. rewrite Hm3. rewrite (changed_others R (ap_pages ap) k1 k2) by done.
    by apply (changed_others R (ap_pages ap) k k1).
  - simpl. by rewrite (ch_pages _ _ _ _ Hc3), (ch_pages _ _ _ _ Hc2), (ch_pages _ _ _ _ Hc1).
Qed.

End Current.
