(* ===== verification/Sources.v ===== *)
(** * The allocators behind the mapper

    The interface [FrameSource] that the mapper is written against, discharged by the
    frame allocator: what FrameAlloc*.v prove about it gives the laws
    [FrameSourceLaws], once the allocator's lists are on the heap; and [PageSource],
    given by the page allocator. *)

From S2P Require Import Prelude MemStructs RBTree FrameAlloc FrameAllocLemmas FrameAllocSafety FrameAllocSpec.
From S2P Require Import PageAlloc PteFlags PageTable PageMap.

Section Frames.
Context {fops : RBTreeOps Frames} {flaws : RBTreeLaws Frames fops}.
Context {rops : RBTreeOps PhysicalMemoryRegion} {rlaws : RBTreeLaws PhysicalMemoryRegion rops}.

#[export] Instance frame_source : FrameSource FrameAllocator := {|
  fs_allocate_one st :=
    let* (r, st) := allocate_frames_at None 1 st in
    Done (match r with Ok af => Some af | Err _ => None end, st);
  fs_into_unmapped st r := into_unmapped_frames r st;
  fs_drop st f := drop_frames StUnmapped Page4K f st |}.

(** ** The lists on the heap *)

Definition is_tree {A} {ops : RBTreeOps A} (s : StaticArrayRBTree A) : Prop :=
  match s with TreeInner _ => True | ArrayInner _ => False end.

Definition on_heap (st : FrameAllocator) : Prop := is_tree (free_general st) /\ is_tree (free_reserved st).

Lemma tree_has_room {A} {ops : RBTreeOps A} (s : StaticArrayRBTree A) : is_tree s -> has_room s.
Proof. by destruct s. Qed.

Lemma sa_insert_tree {A} {ops : RBTreeOps A} {K : Keyed A} (x : A) (s s' : StaticArrayRBTree A) :
  is_tree s -> sa_insert x s = Ok s' -> is_tree s'.
Proof. destruct s; [done|]. simpl. intros _ E. by simplify_eq. Qed.

Lemma free_into_list_tree (x : Frames) (s s' : StaticArrayRBTree Frames) :
  is_tree s -> free_into_list x s = Done s' -> is_tree s'.
Proof.
  destruct s as [|t]; [done|]. simpl. intros _. destruct (free_into_tree x t); simpl; [|done].
  intros E. by simplify_eq.
Qed.

Lemma drop_frames_heap (S : MemoryState) (x : Frames) (st st' : FrameAllocator) :
  on_heap st -> drop_frames S Page4K x st = Done st' -> on_heap st'.
Proof.
  intros [Hg Hr] H. assert (H' : drop_free Page4K x st = Done st') by (by destruct S).
  clear H. unfold drop_free in H'. destruct (_ =? 0); [by simplify_eq|].
  case_bool_decide.
  - destruct (free_into_list _ (free_reserved st)) as [l|] eqn:E; [|done]. cbn [outcome_bind] in H'.
    simplify_eq. split; [done|]. simpl. eapply free_into_list_tree; [exact Hr|exact E].
  - destruct (free_into_list _ (free_general st)) as [l|] eqn:E; [|done]. cbn [outcome_bind] in H'.
    simplify_eq. split; [|done]. simpl. eapply free_into_list_tree; [exact Hg|exact E].
Qed.

Lemma find_any_tree (list : StaticArrayRBTree Frames) (n : Z) r list' :
  is_tree list -> find_any_chunk list n = Done (r, list') -> is_tree list'.
Proof.
  destruct list as [|t]; [done|]. intros _ H. unfold find_any_chunk in H.
  destruct (find_any_loop _ _ _) as [o|]; [|done]. cbn [outcome_bind] in H.
  destruct o as [[chunk cur]|]; [|by simplify_eq].
  unfold alloc_done, allocate_from_chosen_chunk in H. simpl in H.
  destruct (c_remove cur) as [removed cur']. simpl in H. destruct removed as [x|]; simpl in H; [|done].
  destruct (split_range _ _ _); simpl in H; by simplify_eq.
Qed.

(** Reinserting a deferred piece of free memory. *)
Lemma insert_deferred_free (x : Frames) (st : FrameAllocator) :
  on_heap st -> piece_ok TyFree x ->
  exists st', insert_deferred x st = Done st' /\ on_heap st' /\ free_reserved st' = free_reserved st /\
    forall f, occ f (sa_iter (free_general st')) = cin f x + occ f (sa_iter (free_general st)).
Proof.
  intros [Hg Hr] [->|[Hw Ht]]; unfold insert_deferred.
  { exists st. split; [reflexivity|]. split; [done|]. split; [done|]. intros f. rewrite cin_empty. lia. }
  rewrite (proj2 (Z.ltb_lt 0 (fsize x))) by (unfold fsize; rewrite size_4k by (destruct Hw; lia); destruct Hw; lia).
  rewrite Ht. destruct (sa_insert_room x (free_general st) (tree_has_room _ Hg)) as [l E]. rewrite E.
  cbn [unwrap outcome_bind]. exists (set_free_general l st). split; [done|]. split; [|split; [done|]].
  - split; [|done]. simpl. exact (sa_insert_tree _ _ _ Hg E).
  - intros f. apply sa_insert_Ok in E as [HP _]. simpl. by rewrite HP, occ_cons.
Qed.

(** ** The invariant for a set of frames in use *)

Record frames_inv (st : FrameAllocator) (U : Z -> Prop) : Prop := {
  fi_inv : inv (mkConfig st [] []);
  fi_heap : on_heap st;
  fi_bound : forall f, 0 < occ f (sa_iter (free_general st)) + occ f (sa_iter (free_reserved st)) -> f < 2 ^ 40;
  fi_used : forall f, U f ->
    f < 2 ^ 40 /\ occ f (sa_iter (free_general st)) + occ f (sa_iter (free_reserved st)) = 0 /\
    (covered f (sa_iter (general_regions st)) \/ covered f (sa_iter (reserved_regions st)));
}.

Definition frames_avail (st : FrameAllocator) (n : nat) : Prop :=
  exists l, NoDup l /\ length l = n /\ Forall (fun f => 0 < occ f (sa_iter (free_general st))) l.

(** The frame is in one of the free lists. *)
Definition frame_free (st : FrameAllocator) (f : Z) : Prop :=
  0 < occ f (sa_iter (free_general st)) + occ f (sa_iter (free_reserved st)).

Lemma inv_forget (st : FrameAllocator) x out pend :
  inv (mkConfig st (x :: out) pend) -> inv (mkConfig st out pend).
Proof.
  intros [Hl Ho Hp Hocc Hcov]. assert (Hle : forall f, occ f (all_chunks (mkConfig st out pend)) <=
    occ f (all_chunks (mkConfig st (x :: out) pend))).
  { intros f. rewrite !occ_all. simpl. rewrite occ_cons. pose proof (cin_bound f x). lia. }
  split; [done|by apply Forall_cons in Ho as [_ ?]|done| |].
  - intros f. specialize (Hle f). specialize (Hocc f). lia.
  - intros f Hf. apply (Hcov f). specialize (Hle f). lia.
Qed.

(** Frames in use can be held by a caller. *)
Lemma inv_hold (st : FrameAllocator) (U : Z -> Prop) (x : Frames) :
  frames_inv st U -> held_ok x -> (forall f, in_range f (frame_range x) -> U f) ->
  inv (mkConfig st [x] []).
Proof.
  intros [Hi _ _ Hu] Hh Hin. destruct Hi as [Hl Ho Hp Hocc Hcov].
  assert (Hcin : forall f, cin f x = 0 \/ (cin f x = 1 /\ U f)).
  { intros f. pose proof (cin_bound f x). destruct (decide (cin f x = 1)) as [E|]; [|left; lia].
    right. split; [done|]. by apply Hin, cin_true. }
  split; [done|by constructor|done| |]; intros f; rewrite occ_all; specialize (Hocc f); specialize (Hcov f);
    rewrite occ_all in Hocc, Hcov; simpl in *; rewrite occ_cons; destruct (Hcin f) as [->|[-> HU]]; try (by auto).
  - destruct (Hu f HU) as (_ & Hz & _). change (occ f []) with 0. lia.
  - intros _. by apply Hu.
Qed.

(** ** Allocating one frame *)

Lemma free_chunk_wf (st : FrameAllocator) (U : Z -> Prop) (c : Frames) :
  frames_inv st U -> c ∈ sa_iter (free_general st) -> frames_wf c.
Proof.
  intros Hi Hc. exact (proj1 (proj1 (Forall_forall _ _) (lo_general _ (inv_lists _ (fi_inv _ _ Hi))) c Hc)).
Qed.

Lemma avail_chunk (st : FrameAllocator) (U : Z -> Prop) (n : nat) :
  frames_inv st U -> frames_avail st (S n) -> exists c, c ∈ sa_iter (free_general st) /\ 0 < fsize c.
Proof.
  intros Hi (l & _ & Hl & Hf). destruct l as [|f l]; [done|]. apply Forall_cons in Hf as [Hf _].
  apply sum_of_pos in Hf as (c & Hc & Hcf). exists c. split; [done|].
  destruct (free_chunk_wf st U c Hi Hc). unfold fsize. rewrite size_4k by lia. lia.
Qed.

Lemma below_max_of_bound (st : FrameAllocator) (U : Z -> Prop) :
  frames_inv st U -> below_max (sa_iter (free_general st)).
Proof.
  intros Hi. apply Forall_forall. intros c Hc.
  destruct (free_chunk_wf st U c Hi Hc) as [Hw1 Hw2].
  assert (cin (fend c) c = 1) as Hin by (apply cin_true; unfold in_range, fend; lia).
  pose proof (occ_elem (fend c) c _ Hc). pose proof (occ_nonneg (fend c) (sa_iter (free_reserved st))).
  pose proof (fi_bound _ _ Hi (fend c)). mem_consts. lia.
Qed.

(** What [allocate_frames(1)] gives when a frame is left. *)
Lemma allocate_one_ok (st : FrameAllocator) (U : Z -> Prop) (n : nat) :
  frames_inv st U -> frames_avail st (S n) ->
  exists af st', allocate_frames_at None 1 st = Done (Ok af, st') /\ frames_wf af /\
    (exists f, frame_range af = mkRange f f) /\ inv (mkConfig st' [af] []) /\ on_heap st' /\
    free_reserved st' = free_reserved st /\ general_regions st' = general_regions st /\
    reserved_regions st' = reserved_regions st /\
    forall f, occ f (sa_iter (free_general st)) = cin f af + occ f (sa_iter (free_general st')).
Proof.
  intros Hi Hav. pose proof (fi_inv _ _ Hi) as Hinv. pose proof (below_max_of_bound _ _ Hi) as Hm.
  unfold allocate_frames_at, allocate_frames_deferred. cbn [Z.eqb].
  destruct (find_any_chunk_complete (free_general st) 1) as [(c & af & d & gl & Hc & Hsz & E & Haf)|[_ Hsm]];
    [apply Hinv|done|lia| |].
  2:{ destruct (avail_chunk _ _ _ Hi Hav) as (c & Hc & Hsz). rewrite Forall_forall in Hsm.
      specialize (Hsm c Hc). lia. }
  rewrite E. cbn [outcome_bind str_result].
  pose proof (find_any_tree _ _ _ _ (proj1 (fi_heap _ _ Hi)) E) as Htr.
  eapply (find_any_chunk_ok TyFree) in E; [|apply Hinv|apply (inv_occ_lists _ Hinv)].
  pose proof (inv_alloc_general st [] [] _ gl _ Hinv E) as Hi1. cbn in Hi1. destruct E as (_ & Hok & _).
  set (st1 := set_free_general gl st) in *.
  assert (Hh1 : on_heap st1) by (split; [exact Htr|apply (fi_heap _ _ Hi)]).
  destruct (insert_deferred_free (free1 d) st1 Hh1) as (st2 & E2 & Hh2 & Hr2 & Ho2); [apply Hok|].
  destruct (insert_deferred_free (free2 d) st2 Hh2) as (st3 & E3 & Hh3 & Hr3 & Ho3); [apply Hok|].
  assert (Hd : drop_deferred d st1 = Done st3) by (unfold drop_deferred; by rewrite E2).
  rewrite Hd. cbn [outcome_bind]. exists af, st3.
  pose proof (step_deferred_inv st1 [af] [] d [] st3 Hi1 Hd) as Hi3.
  apply insert_deferred_ok in E2; [|apply Hi1|left; apply Hok]. apply insert_deferred_ok in E3; [|apply E2|left; apply Hok].
  split; [done|]. split; [apply Hok|]. split; [exists (fstart c); rewrite Haf; f_equal; lia|].
  split; [done|]. split; [done|]. split; [by rewrite Hr3, Hr2|].
  split; [by rewrite (rt_gregions _ _ _ E3), (rt_gregions _ _ _ E2)|].
  split; [by rewrite (rt_rregions _ _ _ E3), (rt_rregions _ _ _ E2)|].
  intros f. rewrite Ho3, Ho2. pose proof (ao_occ _ _ _ _ _ Hok f). subst st1. simpl. lia.
Qed.

Lemma avail_after (st st' : FrameAllocator) (f0 : Z) (n : nat) :
  (forall f, f <> f0 -> occ f (sa_iter (free_general st')) = occ f (sa_iter (free_general st))) ->
  frames_avail st (S n) -> frames_avail st' n.
Proof.
  intros Hocc (l & Hnd & Hl & Hf). destruct (decide (f0 ∈ l)) as [Hin|Hout].
  - apply list_elem_of_split in Hin as (l1 & l2 & ->). exists (l1 ++ l2).
    rewrite <- Permutation_middle in Hnd. rewrite <- Permutation_middle in Hf.
    apply NoDup_cons in Hnd as [Hn Hnd]. apply Forall_cons in Hf as [_ Hf].
    rewrite length_app in Hl. simpl in Hl. split_and!; [done|rewrite length_app; lia|].
    rewrite Forall_forall in Hf |- *. intros f Hin. rewrite Hocc by (by intros ->). by apply Hf.
  - exists (tail l). destruct l as [|x l]; [done|]. simpl in *. apply NoDup_cons in Hnd as [_ ?].
    apply Forall_cons in Hf as [_ Hf]. split_and!; [done|lia|].
    rewrite Forall_forall in Hf |- *. intros f Hin. rewrite Hocc; [by apply Hf|].
    intros ->. apply Hout. by right.
Qed.

(** ** The laws *)

Lemma frames_allocate_law (st : FrameAllocator) (U : Z -> Prop) (n : nat) :
  frames_inv st U -> frames_avail st (S n) ->
  exists ty f st', fs_allocate_one st = Done (Some (mkFrames ty (mkRange f f)), st') /\
    0 <= f < 2 ^ 40 /\ ~ U f /\ frames_inv st' (fun g => U g \/ g = f) /\ frames_avail st' n.
Proof.
  intros Hi Hav.
  destruct (allocate_one_ok st U n Hi Hav) as (af & st' & E & Hw & (f & Hrg) & Hi' & Hh' & Hr' & Hg' & Hrr' & Ho').
  assert (Hcin : forall g, cin g af = if decide (g = f) then 1 else 0).
  { intros g. unfold cin, contains. rewrite Hrg. simpl. destruct (decide (g = f)); case_cmp; simpl; lia. }
  assert (Hf1 : cin f af = 1) by (by rewrite Hcin, decide_True).
  pose proof (fun g => occ_nonneg g (sa_iter (free_reserved st))) as Hres0.
  pose proof (fun g => occ_nonneg g (sa_iter (free_general st'))) as Hgen0.
  assert (Hgf : forall g, occ g (sa_iter (free_general st')) <= occ g (sa_iter (free_general st))).
  { intros g. rewrite (Ho' g). pose proof (cin_bound g af). lia. }
  assert (Hpos : 0 < occ f (sa_iter (free_general st))) by (rewrite Ho', Hf1; specialize (Hgen0 f); lia).
  exists (typ af), f, st'. cbn. rewrite E. cbn [outcome_bind]. split_and!.
  - do 3 f_equal. destruct af. simpl in *. by subst.
  - destruct Hw as [Hw _]. rewrite Hrg in Hw. simpl in Hw. lia.
  - apply (fi_bound _ _ Hi). specialize (Hres0 f). lia.
  - intros HU. destruct (fi_used _ _ Hi f HU) as (_ & Hz & _). specialize (Hres0 f). lia.
  - split; [by eapply inv_forget|done| |].
    + intros g Hg. apply (fi_bound _ _ Hi). rewrite Hr' in Hg. specialize (Hgf g). lia.
    + intros g HU. rewrite Hr', Hg', Hrr'. destruct HU as [HU| ->].
      * destruct (fi_used _ _ Hi g HU) as (Hb & Hz & Hcv). split; [done|]. split; [|done].
        specialize (Hgf g). specialize (Hres0 g). specialize (Hgen0 g). lia.
      * pose proof (inv_occ _ Hi' f) as Ho. pose proof (inv_cover _ Hi' f) as Hcv. rewrite occ_all in Ho, Hcv.
        simpl in Ho, Hcv. rewrite Hr', occ_cons, Hf1 in *. change (occ f []) with 0 in *.
        rewrite Hg', Hrr' in Hcv. specialize (Hres0 f). specialize (Hgen0 f).
        split; [apply (fi_bound _ _ Hi); lia|]. split; [lia|]. apply Hcv. lia.
  - eapply (avail_after st st' f); [|done]. intros g Hg. rewrite Ho', Hcin, decide_False by done. lia.
Qed.

Lemma frames_drop_law (st : FrameAllocator) (U : Z -> Prop) (x : Frames) :
  frames_inv st U -> wf_range (frame_range x) -> typ x <> TyUnknown ->
  (forall f, in_range f (frame_range x) -> U f) ->
  exists st', fs_drop st x = Done st' /\ frames_inv st' (fun g => U g /\ ~ in_range g (frame_range x)) /\
    (forall g, frame_free st' g <-> frame_free st g \/ in_range g (frame_range x)) /\
    forall n, frames_avail st n -> frames_avail st' n.
Proof.
  intros Hi Hw Hty Hin. assert (Hh : held_ok x) by (split; [by right|done]).
  pose proof (inv_hold st U x Hi Hh Hin) as Hix.
  assert (Hocc : forall f, cin f x + occ f (sa_iter (free_general st)) + occ f (sa_iter (free_reserved st)) <= 1).
  { intros f. pose proof (inv_occ _ Hix f) as Ho. rewrite occ_all in Ho. simpl in Ho. rewrite occ_cons in Ho.
    change (occ f []) with 0 in Ho. lia. }
  pose proof (fi_heap _ _ Hi) as Hheap.
  destruct (drop_frames_total StUnmapped x st) as (st' & E & Hl' & Hres & Hfree); try done.
  { apply (fi_inv _ _ Hi). } { apply tree_has_room, Hheap. } { apply tree_has_room, Hheap. }
  pose proof (drop_free_ok x st st' E (inv_lists _ (fi_inv _ _ Hi)) Hh Hocc) as Hret.
  exists st'. split; [done|]. split; [|split].
  - split.
    + eapply (inv_returned st st' [x] [] [] []); [done|done|done|done|].
      intros f. rewrite occ_cons. change (occ f (pieces [])) with 0. change (occ f []) with 0. lia.
    + by eapply drop_frames_heap.
    + intros f Hf. rewrite (rt_occ _ _ _ Hret) in Hf. pose proof (cin_bound f x).
      destruct (decide (cin f x = 1)) as [Hc|]; [|apply (fi_bound _ _ Hi); lia].
      apply cin_true in Hc. apply (fi_used _ _ Hi f (Hin f Hc)).
    + intros f [HU Hn]. rewrite (rt_occ _ _ _ Hret), (rt_gregions _ _ _ Hret), (rt_rregions _ _ _ Hret).
      destruct (fi_used _ _ Hi f HU) as (Hb & Hz & Hcv). split; [done|]. split; [|done]. pose proof (cin_bound f x).
      assert (cin f x <> 1) by (by rewrite cin_true). lia.
  - intros g. unfold frame_free. rewrite (rt_occ _ _ _ Hret), <- cin_true. pose proof (cin_bound g x).
    pose proof (occ_nonneg g (sa_iter (free_general st))). pose proof (occ_nonneg g (sa_iter (free_reserved st))). lia.
  - intros n (l & Hnd & Hl & Hf). exists l. split_and!; [done|done|]. eapply Forall_impl; [exact Hf|].
    intros f Hpos. cbv beta in *. destruct (typ x) eqn:Et; [| |done].
    + destruct (Hfree eq_refl) as [_ Ho]. rewrite Ho. pose proof (cin_bound f x). lia.
    + destruct (Hres eq_refl) as [-> _]. done.
Qed.

#[export] Instance frame_source_laws : FrameSourceLaws FrameAllocator.
Proof.
  refine {| fs_inv := frames_inv; fs_avail := frames_avail; fs_free := frame_free;
            fs_allocate_law := frames_allocate_law; fs_drop_law := frames_drop_law |}.
  - intros st n (l & Hnd & Hl & Hf). destruct l as [|f l]; [done|]. exists l.
    apply NoDup_cons in Hnd as [_ ?]. apply Forall_cons in Hf as [_ ?]. simpl in Hl. split_and!; try done. lia.
  - intros st U U' [Hi Hh Hb Hu] HU. split; auto.
  - intros st U rg Hi Hw Hin. cbn. unfold into_unmapped_frames, contains_any.
    destruct (overlaps_any_Done pr_frames region_key (reserved_regions st) rg) as [b E]; [apply (fi_inv _ _ Hi)|].
    rewrite E. cbn [outcome_bind]. exists (if b then TyReserved else TyFree). by destruct b.
  - intros st U f Hi HU Hf. destruct (fi_used _ _ Hi f HU) as (_ & Hz & _). unfold frame_free in Hf. lia.
Defined.

End Frames.

(** ** The page allocator *)

Section Pages.
Context {cops : RBTreeOps Chunk}.

#[export] Instance page_source : PageSource PageAllocator := {|
  ps_allocate st n := allocate_pages n st;
  ps_allocate_one_at st vaddr := let* (r, st) := allocate_pages_at vaddr 1 st in Done (ok r, st);
  ps_drop st p := drop_pages Page4K p st |}.

End Pages.
