(* ===== verification/MappedAccess.v ===== *)
(** * Access to mapped memory, merging and splitting

    What the accessors of [MappedPages] return, and how mappings are merged and
    split. *)

From S2P Require Import Prelude MemStructs FrameAlloc PageAlloc PteFlags PageTable.

#[local] Existing Instance x86_arch.

Section Access.
Context {bf : Bitflags}.

(** The bytes of a mapping: from its first address, as many as its pages have. *)
Definition accessible (mp : MappedPages) (byte_offset size addr : Z) : Prop :=
  addr = mapped_start mp + byte_offset /\ addr <= U64_MAX /\
  byte_offset + size <= U64_MAX /\ byte_offset + size <= mapped_size_in_bytes mp.

Lemma check_bounds_iff (mp : MappedPages) (off size a : Z) e1 e2 e3 :
  check_bounds mp off size e1 e2 e3 = Ok a <-> accessible mp off size a.
Proof.
  unfold check_bounds, checked_u64, accessible. case_cmp; split; intros H'; try done; simplify_eq; try lia.
  destruct H' as (-> & _). done.
Qed.

Lemma accessors_iff (mp : MappedPages) (size align off length a : Z) :
  (as_type mp size align off = Ok a <-> accessible mp off size a) /\
  (as_type_mut mp size align off = Ok a <->
     x86_is_writable (mp_flags mp) = true /\ accessible mp off size a) /\
  (as_slice mp size align off length = Ok (a, length) <->
     length * size <= ISIZE_MAX /\ accessible mp off (length * size) a) /\
  (as_slice_mut mp size align off length = Ok (a, length) <->
     x86_is_writable (mp_flags mp) = true /\ length * size <= ISIZE_MAX /\
     accessible mp off (length * size) a).
Proof.
  unfold as_type, as_type_mut, as_slice, as_slice_mut. rewrite !check_bounds_iff.
  assert (HI : ISIZE_MAX <= U64_MAX) by done.
  split; [done|]. split; [|split].
  - destruct (x86_is_writable _); cbn [negb]; [rewrite check_bounds_iff; tauto|].
    split; [done|]. by intros [? _].
  - unfold checked_u64. case_cmp; try (split; [done|lia]).
    destruct (check_bounds _ _ _ _ _ _) as [x|x] eqn:E.
    + apply check_bounds_iff in E. split; intros H'; simplify_eq; [done|].
      destruct H' as [_ H']. destruct H' as (-> & _), E as (-> & _). done.
    + split; [done|]. intros [_ H']. eapply check_bounds_iff in H'. rewrite E in H'. done.
  - unfold checked_u64. case_cmp; try (split; [done|lia]).
    destruct (x86_is_writable _); cbn [negb]; [|split; [done|by intros [? _]]].
    destruct (check_bounds _ _ _ _ _ _) as [x|x] eqn:E.
    + apply check_bounds_iff in E. split; intros H'; simplify_eq; [done|].
      destruct H' as (_ & _ & H'). destruct H' as (-> & _), E as (-> & _). done.
    + split; [done|]. intros (_ & _ & H'). eapply check_bounds_iff in H'. rewrite E in H'. done.
Qed.

(** The accessors hand out memory of the mapping and nothing else.  A reference to
    a value, or a slice of [length] values, is returned exactly when all of its bytes
    lie inside the mapping and no address computation overflows, it starts at the
    requested offset, and the mutable accessors also require a writable mapping. *)
Theorem accessors_stay_in_bounds (mp : MappedPages) (size align off length a : Z) :
  (as_type mp size align off = Ok a <-> accessible mp off size a) /\
  (as_type_mut mp size align off = Ok a <->
     x86_is_writable (mp_flags mp) = true /\ accessible mp off size a) /\
  (as_slice mp size align off length = Ok (a, length) <->
     length * size <= ISIZE_MAX /\ accessible mp off (length * size) a) /\
  (as_slice_mut mp size align off length = Ok (a, length) <->
     x86_is_writable (mp_flags mp) = true /\ length * size <= ISIZE_MAX /\
     accessible mp off (length * size) a).
Proof. apply accessors_iff. Qed.

(** An offset that is not a multiple of the alignment is accepted like any other:
    the misalignment is only logged, although the documentation of [as_type] and
    [as_slice] says that an error is returned. *)
Theorem misaligned_offset_accepted (mp : MappedPages) (size off length : Z) (align align' : Z) :
  as_type mp size align off = as_type mp size align' off /\
  as_type_mut mp size align off = as_type_mut mp size align' off /\
  as_slice mp size align off length = as_slice mp size align' off length /\
  as_slice_mut mp size align off length = as_slice_mut mp size align' off length.
Proof. done. Qed.

End Access.

(** ** Merging and splitting mappings *)

(** Splitting a mapping and merging the two parts gives the mapping back, and both
    operations hand an object that they cannot merge or split back unchanged: a merge
    fails exactly when the page tables, the flags or the page ranges do not fit. *)
Theorem mapped_split_merge (mp other : MappedPages) (at_page : Z) :
  0 <= at_page <= MAX_PAGE_NUMBER -> wf_range (ap_pages (mp_pages mp)) ->
  (pstart (mp_pages mp) < at_page <= pend (mp_pages mp) -> pend (mp_pages mp) < MAX_PAGE_NUMBER ->
   exists a b, mapped_split mp at_page = Ok (a, b) /\ mapped_merge a b = Ok mp) /\
  (forall m, mapped_split mp at_page = Err m -> m = mp) /\
  (forall e m, mapped_merge mp other = Err (e, m) -> m = other) /\
  (forall m, mapped_merge mp other = Ok m ->
     page_table_p4 other = page_table_p4 mp /\ mp_flags other = mp_flags mp /\
     page_table_p4 m = page_table_p4 mp /\ mp_flags m = mp_flags mp /\
     mp_pages m = mkPages (mkRange (pstart (mp_pages mp)) (pend (mp_pages other)))).
Proof.
  intros Ha [Hw1 Hw2]. destruct mp as [p4 [rg] fl], other as [p4' [rg'] fl'].
  unfold mapped_split, mapped_merge, pages_split, pages_merge, pstart, pend in *. simpl in *.
  split_and!.
  - intros Hin Hmax. rewrite chunk_sub_4k, chunk_add_4k by (mem_consts; lia).
    rewrite (proj2 (Z.eqb_neq at_page (r_start rg))) by lia. cbn [andb].
    rewrite (proj2 (Z.eqb_neq at_page (Z.min MAX_PAGE_NUMBER (r_end rg + 1)))) by (mem_consts; lia). cbn [andb].
    rewrite (proj2 (Z.ltb_lt _ _)), (proj2 (Z.leb_le _ _)) by lia. cbn [andb].
    eexists _, _. split; [done|]. simpl. rewrite !Z.eqb_refl. cbn [negb].
    rewrite chunk_add_4k by (mem_consts; lia).
    rewrite (proj2 (Z.eqb_eq _ _)) by (mem_consts; lia). cbn [negb]. by destruct rg.
  - intros m. repeat (destruct (_ && _); [done|]). by intros [= <-].
  - intros e m. destruct (p4' =? p4); cbn [negb]; [|by intros [= _ <-]].
    destruct (fl' =? fl); cbn [negb]; [|by intros [= _ <-]]. destruct (negb _); [|done]. by intros [= _ <-].
  - intros m. destruct (Z.eqb_spec p4' p4) as [->|]; cbn [negb]; [|done].
    destruct (Z.eqb_spec fl' fl) as [->|]; cbn [negb]; [|done].
    destruct (negb _); [done|]. by intros [= <-].
Qed.
