(* ===== verification/NewTable.v ===== *)
(** * New page tables

    [PageTable::new_table]: the frame of the new table is mapped at a temporary page,
    cleared and given its recursive entry through that page, and unmapped again.  The
    memory behind a page that is not a table can be written without affecting the
    active tables. *)

From S2P Require Import Prelude MemStructs FrameAlloc PageAlloc PteFlags PageTable PageWalk PageTree PageMap PageUnmap MapperSpec.

#[local] Existing Instance x86_arch.

Section NewTable.
Context {bf : Bitflags} {bl : BitflagsLaws bf} {FA PB : Type}.
Context {fs : FrameSource FA} {fl : FrameSourceLaws FA} {ps : PageSource PB}.
Implicit Types (k : Kernel FA PB) (U F : Z -> Prop).

(** ** Memory that holds no table *)

Lemma tree_agree m m' A R U l :
  tree_ok m A R U -> (forall f j, U f -> m' f j = m f j) -> plain l -> (length l <= 4)%nat ->
  agree_along m m' R l.
Proof.
  intros Ht Hm Pl Ll q i l' u -> Hu. apply Hm. rewrite length_app in Ll. simpl in Ll.
  eapply (to_used _ _ _ _ Ht q); [by eapply plain_app_l|lia|done].
Qed.

Lemma kinv_foreign R r F k U m' :
  kinv R r F k U -> (forall f j, U f -> m' f j = k_mem k f j) ->
  kinv R r F (set_mem m' k) U /\ changed R [] k (set_mem m' k).
Proof.
  intros [Hs Hrec Ht Hfs Hd] Hm.
  assert (Ha : forall l, plain l -> (length l <= 4)%nat -> agree_along (k_mem k) m' R l).
  { intros l Pl Ll. by eapply tree_agree. }
  split.
  - split; [done| | |done|done].
    + eapply recursive_agree; [done| |]; apply Hm; [apply Ht|by eapply tree_used_root].
    + eapply tree_ok_ext; [done|done|]. intros p Pp Lp. simpl.
      by rewrite (follow_agree (k_mem k)), (writable_agree (k_mem k)) by (apply Ha; [done|lia]).
  - split; [done|done|done| | | |]; simpl.
    + intros l Pl Ll _. apply gwalk_agree, Ha; [done|lia].
    + intros q i Pq Lq _. apply entry_at_agree, Ha; [done|]. rewrite length_app. simpl. lia.
    + intros q i Pq Lq. f_equal. apply entry_at_agree, Ha; [done|]. rewrite length_app. simpl. lia.
    + intros q t Pq Lq Hq. rewrite (follow_agree (k_mem k)); [done|]. apply Ha; [done|lia].
Qed.

(** ** Access through a mapped page *)

Lemma mmu_walk_leaf m R page t :
  follow m R (path3 page) = Some t ->
  mmu_walk m R page = (if hw_present (m t (p1_index page))
    then Some (hw_frame (m t (p1_index page)), writable_path m R (path3 page) && hw_writable (m t (p1_index page)))
    else None).
Proof.
  unfold path3, mmu_walk. cbn [follow writable_path]. intros H.
  destruct (d_next m R _) as [t3|] eqn:E4; [|done]. apply d_next_Some in E4 as (-> & -> & ->).
  destruct (d_next m t3 _) as [t2|] eqn:E3; [|done]. apply d_next_Some in E3 as (-> & -> & ->).
  destruct (d_next m t2 _) as [t1|] eqn:E2; [|done]. apply d_next_Some in E2 as (-> & -> & ->).
  simplify_eq/=. rewrite andb_true_r, !andb_assoc. by destruct (hw_present _).
Qed.

(** A page whose entry is valid and writable can be written in the active table. *)
Lemma mapped_writable F k U flags page f :
  active_inv F k U -> tree_page page -> is_mapped (k_cr3 k) k flags page f -> 0 <= f < 2 ^ 40 ->
  flags_in X86_all flags -> Z.testbit flags 0 = true -> Z.testbit flags 1 = true ->
  mmu_walk (k_mem k) (k_cr3 k) page = Some (f, true).
Proof.
  intros Hk Hp [Hl _] Hf Hfl H0 H1. pose proof (mapped_entry_used flags Hfl H0 f Hf) as Hne.
  rewrite <- Hl in Hne. unfold leaf, entry_at in *.
  destruct (follow (k_mem k) (k_cr3 k) (path3 page)) as [t|] eqn:E; [|done].
  rewrite (mmu_walk_leaf _ _ _ t E), Hl. unfold hw_present, hw_writable.
  rewrite !set_entry_bit, set_entry_hw_frame, H0, H1 by done. rewrite (to_writable _ _ _ _ (ki_tree _ _ _ _ _ Hk) _ t); try done.
  by apply path3_plain.
Qed.

Lemma mmu_walk_ix4 m R p p' : ix4 p = ix4 p' -> mmu_walk m R p = mmu_walk m R p'.
Proof. unfold ix4. intros [= E1 E2 E3 E4]. unfold mmu_walk. by rewrite E1, E2, E3, E4. Qed.

Lemma page_address (p : Z) :
  0 <= p <= MAX_PAGE_NUMBER ->
  let a := start_address (ops := virtual_ops) p in
  in_u64 a /\ ix4 (containing_address a) = ix4 p.
Proof.
  intros Hp a. unfold a, start_address. rewrite SIZE_4K_val. mem_consts.
  rewrite wrap64_id by (mem_consts; lia). rewrite Z.mul_comm.
  destruct (canonical_aligned p) as [[Hu _] Hix]; [unfold in_u64; mem_consts; lia|]. done.
Qed.

(** ** The steps of [new_table] *)

(** The temporary page [p] over the frame [n], in the tables of [k0]. *)
Record temporary k0 (p n : Z) (flags : Z) F k U : Prop := {
  tm_inv : active_inv F k U;
  tm_cr3 : k_cr3 k = k_cr3 k0;
  tm_changed : changed (k_cr3 k0) [ix4 p] k0 k;
  tm_page : tree_page p;
  tm_no_huge : no_huge (k_cr3 k) k p;
  tm_mapped : is_mapped (k_cr3 k) k flags p n;
}.

Lemma changed_one R L p k1 k2 k3 :
  changed R [ix4 p] k1 k2 -> changed R L k2 k3 -> (forall l, l ∈ L -> l = ix4 p) -> changed R [ix4 p] k1 k3.
Proof.
  intros H1 H2 HL. destruct (changed_trans R _ _ _ _ _ H1 H2) as [? ? ? Hw Hl Hs Ht]. split; try done.
  - intros l ? ? Hn. apply Hw; [done|done|]. intros [?|Hin]%elem_of_app; [done|]. apply Hn. rewrite (HL l Hin). left.
  - intros q i ? ? Hn. apply Hl; [done|done|]. intros [?|Hin]%elem_of_app; [done|]. apply Hn. rewrite (HL _ Hin). left.
Qed.

Lemma temporary_write k0 p n flags F k U m' :
  temporary k0 p n flags F k U -> ~ U n -> (forall f j, f <> n -> m' f j = k_mem k f j) ->
  temporary k0 p n flags F (set_mem m' k) U.
Proof.
  intros [Hi Hc Hch Hp Hh Hm] Hn Hw.
  destruct (kinv_foreign (k_cr3 k) RECURSIVE_P4_INDEX F k U m' Hi) as [Hi' Hch'].
  { intros f j Hf. apply Hw. by intros ->. }
  split; [done|done| |done| |].
  - rewrite Hc in Hch'. eapply changed_one; [done|done|]. intros l Hl. by apply elem_of_nil in Hl.
  - by eapply changed_no_huge.
  - eapply is_mapped_changed; [done|done| |done]. apply not_elem_of_nil.
Qed.

Lemma temporary_walk k0 p n flags F k U a :
  temporary k0 p n flags F k U -> 0 <= n < 2 ^ 40 -> flags_in X86_all flags ->
  Z.testbit flags 0 = true -> Z.testbit flags 1 = true -> ix4 (containing_address a) = ix4 p ->
  mmu_walk (k_mem k) (k_cr3 k) (containing_address a) = Some (n, true).
Proof.
  intros [Hi Hc Hch Hp Hh Hm] Hn Hfl H0 H1 Hix. rewrite (mmu_walk_ix4 _ _ _ p Hix). by eapply mapped_writable.
Qed.

(** Clearing the frame and writing its recursive entry. *)
Lemma temporary_init k0 p n flags F k U a frame :
  temporary k0 p n flags F k U -> ~ U n -> 0 <= n < 2 ^ 40 -> flags_in X86_all flags ->
  Z.testbit flags 0 = true -> Z.testbit flags 1 = true -> ix4 (containing_address a) = ix4 p ->
  frame_range frame = mkRange n n ->
  exists k', (let* k := table_zero a k in set_table_entry a RECURSIVE_P4_INDEX frame k) = Done k' /\
    temporary k0 p n flags F k' U /\
    (forall i, 0 <= i < 512 -> k_mem k' n i = if i =? RECURSIVE_P4_INDEX then set_entry n table_flags else 0).
Proof.
  intros Ht Hu Hn Hfl H0 H1 Hix Hfr.
  destruct (zero_entries_walk 512 k a n) as (k1 & E1 & Hc1 & Hf1 & Hp1 & Hcb1 & Hoff & Hz & _); [lia| |].
  { intros m Hm. pose proof (temporary_write _ _ _ _ _ _ _ m Ht Hu Hm) as Ht'.
    by apply (temporary_walk k0 p n flags F _ U a Ht'). }
  unfold table_zero. change (Z.to_nat ENTRIES_PER_PAGE_TABLE) with 512%nat. rewrite E1. cbn [outcome_bind].
  assert (k1 = set_mem (k_mem k1) k) as Hk1.
  { unfold set_mem. rewrite <- Hc1, <- Hf1, <- Hp1, <- Hcb1. by destruct k1. }
  assert (Ht1 : temporary k0 p n flags F k1 U) by (rewrite Hk1; by apply temporary_write).
  unfold set_table_entry. destruct frame as [ty rg]. simpl in Hfr. subst rg. rewrite one_frame by done.
  cbn [outcome_bind]. rewrite (store_entry_walk k1 a n) by (done || by eapply temporary_walk).
  eexists. split; [done|]. split.
  - apply temporary_write; [done|done|]. intros f j Hf. unfold upd. by destruct (Z.eqb_spec f n).
  - intros i Hi. simpl. unfold upd. rewrite Z.eqb_refl. cbn [andb]. destruct (i =? RECURSIVE_P4_INDEX); [done|].
    apply Hz. lia.
Qed.

Lemma store_entry_other k k' a t i e w :
  mmu_walk (k_mem k) (k_cr3 k) (containing_address a) = Some (t, w) -> store_entry k a i e = Done k' ->
  forall f j, f <> t -> k_mem k' f j = k_mem k f j.
Proof.
  intros Hw Hs f j Hf. unfold store_entry in Hs. rewrite Hw in Hs. destruct w; [|done].
  destruct (_ && _); [|done].
  injection Hs as <-. simpl. unfold upd. by rewrite (proj2 (Z.eqb_neq _ _)) by done.
Qed.

(** Unmapping one page that is mapped exclusively gives its frame back. *)
Lemma unmap_one_page F k U mapped p n :
  active_inv F k U -> k_callback k = true -> ap_pages (mp_pages mapped) = mkRange p p ->
  0 <= p <= MAX_PAGE_NUMBER -> page_table_p4 mapped = k_cr3 k -> tree_page p -> F n -> 0 <= n < 2 ^ 40 ->
  flags_in X86_all (mp_flags mapped) -> Z.testbit (mp_flags mapped) 0 = true ->
  Z.testbit (mp_flags mapped) 55 = true -> is_mapped (k_cr3 k) k (mp_flags mapped) p n ->
  exists ty k', unmap k mapped (from_current k) = Done (Ok (Some (mkFrames ty (mkRange n n))), k') /\
    active_inv F k' U /\ k_cr3 k' = k_cr3 k /\ (forall j, k_mem k' n j = k_mem k n j) /\
    changed (k_cr3 k) [ix4 p] k k' /\
    is_unmapped (k_cr3 k) k' p.
Proof.
  intros Hi Hcb Hap Hp Ht4 Htp HF Hn Hfl H0 H55 Hm. set (R := k_cr3 k) in *.
  assert (Hw : wf_range (mkRange p p)) by (split; simpl; lia).
  destruct (mapped_find R RECURSIVE_P4_INDEX ltac:(done) (from_current k) eq_refl (mp_flags mapped) Hfl H0 F k U p n Hi Hm Hn)
    as (a1 & t1 & Ef & T1 & El).
  destruct (unmap_one R RECURSIVE_P4_INDEX F k U p a1 t1 Hi Htp T1) as (k' & Es & Hi' & Hc & Hfr & Hun).
  assert (Hnt : t1 <> n).
  { intros ->. apply (ki_disjoint _ _ _ _ _ Hi n HF). eapply (to_used _ _ _ _ (ki_tree _ _ _ _ _ Hi) (path3 p)); [by apply path3_plain|done|apply T1]. }
  destruct (fs_into_law _ _ (mkRange n n) (ki_frames _ _ _ _ _ Hi')) as (ty & Hty & Einto).
  { split; simpl; mem_consts; lia. } { intros f ->%one_frame_range. by right. }
  exists ty, k'. split_and!; try done.
  - unfold unmap, size_in_pages. rewrite Hap, range_size by done. simpl (_ - _ + 1).
    rewrite (proj2 (Z.eqb_neq _ 0)) by (simpl; lia). rewrite Ht4, Z.eqb_refl. cbn [negb].
    rewrite range_chunks_ok by done. cbn [outcome_bind]. fold (chunks (mkRange p p)). rewrite chunks_one.
    cbn [unmap_loop]. rewrite Ef. cbn [outcome_bind]. rewrite El. cbn [outcome_bind].
    rewrite set_unmapped_entry, H55 by done. unfold is_unused.
    rewrite (proj2 (Z.eqb_neq _ _)) by (by apply mapped_entry_used).
    rewrite Es. cbn [outcome_bind]. rewrite (ch_callback _ _ _ _ Hc), Hcb. cbn [negb]. by rewrite Einto.
  - unfold active_inv. by rewrite (ch_cr3 _ _ _ _ Hc).
  - apply (ch_cr3 _ _ _ _ Hc).
  - intros j. rewrite (store_entry_other k k' a1 t1 (p1_index p) pte_zero _ (table_ref_walk _ _ _ _ _ _ _ (ki_rec _ _ _ _ _ Hi) T1) Es);
      done.
Qed.

(** The flags of a temporary mapping. *)
Definition temporary_flags : Z := mapped_flags table_flags true.

Lemma table_flags_in : flags_in X86_all table_flags.
Proof. unfold table_flags, x86_writable, x86_valid. by repeat apply x86_set_in. Qed.

Lemma temporary_flags_ok :
  flags_in X86_all temporary_flags /\ Z.testbit temporary_flags 0 = true /\
  Z.testbit temporary_flags 1 = true /\ Z.testbit temporary_flags 55 = true.
Proof.
  destruct (mapped_flags_ok table_flags true table_flags_in) as (Hin & H0 & H55). split_and!; try done.
  unfold temporary_flags, mapped_flags, table_flags, x86_exclusive, x86_valid, x86_writable, X86_EXCLUSIVE, X86_VALID, X86_WRITABLE.
  by rewrite !set_spec by lia.
Qed.

Lemma map_temporary F k U frame p n :
  active_inv F k U -> 0 <= p <= MAX_PAGE_NUMBER -> mappable (k_cr3 k) k p ->
  frame_range frame = mkRange n n -> 0 <= n < 2 ^ 40 -> fs_avail (k_frames k) 3 ->
  exists k1 U', internal_map_to k (from_current k) (mkPages (mkRange p p)) true frame table_flags =
      Done (Ok (mkMapped (k_cr3 k) (mkPages (mkRange p p)) temporary_flags, frame), k1) /\
    (forall g, U g -> U' g) /\ temporary k p n temporary_flags F k1 U'.
Proof.
  intros Hi Hp Hmap Hfr Hn Hav. pose proof Hmap as (Htp & Hh & _).
  assert (Hw : wf_range (mkRange p p)) by (split; simpl; lia).
  assert (Hone : size_in_pages (mkPages (mkRange p p)) = 1).
  { unfold size_in_pages. rewrite range_size by done. simpl. lia. }
  destruct (internal_map_to_ok (k_cr3 k) RECURSIVE_P4_INDEX ltac:(done) (from_current k) eq_refl F k U
    (mkPages (mkRange p p)) true frame table_flags 0 Hi) as (k1 & U' & E1 & Hi1 & HU & _ & Hc1 & _ & Hh1 & Hm1).
  - split; [done|]. simpl. lia.
  - rewrite Hfr. split; simpl; mem_consts; lia.
  - rewrite Hone. unfold fsize. rewrite Hfr, range_size by (split; simpl; mem_consts; lia). simpl. lia.
  - unfold fend. rewrite Hfr. simpl. lia.
  - intros q ->%one_frame_range. done.
  - apply table_flags_in.
  - by rewrite Hone.
  - exists k1, U'. split; [done|]. split; [done|]. pose proof (ch_cr3 _ _ _ _ Hc1) as Hcr.
    simpl ap_pages in *. rewrite Hfr in Hm1. rewrite !chunks_one in *.
    apply Forall_cons in Hh1 as [Hh1 _]. apply Forall2_cons in Hm1 as [Hm1 _].
    split; [unfold active_inv|..]; rewrite ?Hcr; done.
Qed.

(** The reference to the table behind the page. *)
Lemma temporary_reference p4 p :
  0 <= p <= MAX_PAGE_NUMBER ->
  as_type_mut (mkMapped p4 (mkPages (mkRange p p)) temporary_flags) 4096 8 0 =
    Ok (start_address (ops := virtual_ops) p).
Proof.
  intros Hp. destruct (page_address p Hp) as [Hu _]. unfold as_type_mut, x86_is_writable, X86_WRITABLE.
  rewrite contains_bit by lia. destruct temporary_flags_ok as (_ & _ & Hb & _). simpl mp_flags. rewrite Hb. cbn [negb].
  unfold check_bounds, checked_u64, mapped_start, mapped_size_in_bytes, range_start_address, size_in_bytes. simpl r_start.
  rewrite Z.add_0_r. unfold in_u64 in Hu. rewrite (proj2 (Z.leb_le _ _)) by lia.
  simpl ap_pages. rewrite range_size by (split; simpl; lia). simpl r_end. simpl r_start.
  replace (p - p + 1) with 1 by lia. done.
Qed.

(** A table with nothing but its recursive entry can be made the active one. *)
Lemma switched_inv F k U n mapper ty :
  active_inv F k U -> F n -> 0 <= n < 2 ^ 40 ->
  (forall i, 0 <= i < 512 -> k_mem k n i = if i =? RECURSIVE_P4_INDEX then set_entry n table_flags else 0) ->
  active_inv (fun f => U f \/ F f /\ f <> n) (page_table_switch k (mkPageTable mapper (mkFrames ty (mkRange n n))))
    (fun f => f = n).
Proof.
  intros [Hs Hrec Ht Hfs Hd] HF Hn Hmem. unfold active_inv. simpl k_cr3. change (fstart _) with n.
  destruct (table_entry_hw n x86_new Hn) as (Hpr & Hps & Hfr & Hwr); [done|done|].
  change (table_entry_flags x86_new) with table_flags in *.
  assert (k_mem k n RECURSIVE_P4_INDEX = set_entry n table_flags) as Hslot by (by rewrite Hmem).
  assert (d_next (k_mem k) n RECURSIVE_P4_INDEX = Some n) by (apply d_next_Some; by rewrite Hslot).
  split; [done| | | |].
  - change (recursive (k_mem k) n n RECURSIVE_P4_INDEX). split; rewrite ?Hslot; done.
  - change (tree_ok (k_mem k) n n (fun f => f = n)). apply empty_tree. intros i Hi Hi'. rewrite Hmem by done.
    destruct (Z.eqb_spec i RECURSIVE_P4_INDEX); [by subst|done].
  - simpl. eapply fs_inv_weaken; [exact Hfs|]. simpl. intros f [->|[?|[? ?]]]; auto.
  - intros g [HU|[_ Hne]]; [|done]. intros ->. by apply (Hd n).
Qed.

(** ** Properties *)

(** A new page table is an empty page table.  Given a frame of the caller and a
    page that is not mapped, [new_table] succeeds: the new table holds nothing but its
    recursive entry, the caller gets the frame back inside of the table, and for the
    active table nothing has changed: the temporary page is unmapped again and returned,
    and every other page is translated as before.  The new table can be switched to:
    the invariant of the active table then holds for it. *)
Theorem new_table_is_empty fuel F k U cur frame p n :
  active_inv F k U -> k_callback k = true -> pt_mapper cur = from_current k ->
  0 <= p <= MAX_PAGE_NUMBER -> mappable (k_cr3 k) k p ->
  frame_range frame = mkRange n n -> F n -> 0 <= n < 2 ^ 40 -> fs_avail (k_frames k) 3 ->
  exists ty k' U', let pt := mkPageTable (with_p4_frame n) (mkFrames ty (mkRange n n)) in
    new_table (S fuel) k cur frame (Some (mkPages (mkRange p p))) = Done (Ok pt, k') /\
    (forall i, 0 <= i < 512 -> k_mem k' n i = if i =? RECURSIVE_P4_INDEX then set_entry n table_flags else 0) /\
    active_inv F k' U' /\ translate_page k' (from_current k') p = Done None /\
    others_kept (k_cr3 k) (mkRange p p) k k' /\ k_pages k' = ps_drop (k_pages k) (mkPages (mkRange p p)) /\
    active_inv (fun f => U' f \/ F f /\ f <> n) (page_table_switch k' pt) (fun f => f = n).
Proof.
  intros Hi Hcb Hcur Hp Hmap Hfr HF Hn Hav.
  destruct (map_temporary F k U frame p n Hi Hp Hmap Hfr Hn Hav) as (k1 & U' & E1 & _ & T1).
  destruct temporary_flags_ok as (Hfl & H0 & H1 & H55). destruct (page_address p Hp) as [_ Hix].
  destruct (temporary_init k p n temporary_flags F k1 U' (start_address (ops := virtual_ops) p) frame)
    as (k2 & E2 & T2 & Hmem); try done; [by apply (ki_disjoint _ _ _ _ _ (tm_inv _ _ _ _ _ _ _ T1))|].
  pose proof T2 as [Hi2 Hc2 Hch2 Htp Hh2 Hm2].
  destruct (unmap_one_page F k2 U' (mkMapped (k_cr3 k) (mkPages (mkRange p p)) temporary_flags) p n)
    as (ty & k3 & E3 & Hi3 & Hc3 & Hmem3 & Hch3 & Hun3); try done; [by rewrite (ch_callback _ _ _ _ Hch2)|].
  exists ty, (drop_pages_k (mkPages (mkRange p p)) k3), U'.
  assert (Hch : changed (k_cr3 k) [ix4 p] k k3).
  { rewrite Hc2 in Hch3. eapply changed_one; [done|done|]. by intros l ->%list_elem_of_singleton. }
  assert (Hmem' : forall i, 0 <= i < 512 -> k_mem k3 n i = if i =? RECURSIVE_P4_INDEX then set_entry n table_flags else 0).
  { intros i Hi'. by rewrite Hmem3, Hmem. }
  assert (Hkd : active_inv F (drop_pages_k (mkPages (mkRange p p)) k3) U') by (destruct Hi3; by split).
  cbv zeta. split_and!; [|done|done| | | |].
  - unfold new_table, create_and_map_table_frame. cbn [find_temporary_page].
    rewrite bool_decide_false by done. cbn [andb outcome_bind]. rewrite Hcur, E1. cbn [outcome_bind].
    unfold with_table_and_frame. simpl mapped_page. simpl tp_frame. rewrite temporary_reference by done.
    destruct (table_zero _ k1) as [kz|]; [|done]. cbn [outcome_bind] in E2 |- *. rewrite E2. cbn [outcome_bind].
    unfold temp_unmap_into_parts, unmap_into_parts. simpl mapped_page. rewrite Hcur.
    assert (from_current k = from_current k2) as -> by (unfold from_current; by rewrite Hc2).
    rewrite E3. cbn [outcome_bind]. unfold fstart. by rewrite Hfr.
  - apply (leaf_unmapped_translate F _ U' p Hkd); simpl; rewrite Hc3, Hc2.
    + exact (changed_no_huge _ _ _ _ _ Hch Htp (proj1 (proj2 Hmap))).
    + rewrite Hc2 in Hun3. exact Hun3.
  - apply (changed_others _ (mkRange p p) k k3). by rewrite chunks_one.
  - simpl. by rewrite (ch_pages _ _ _ _ Hch).
  - by apply switched_inv.
Qed.

End NewTable.
