(* ===== verification/Swap.v ===== *)
(** * Raw page-table access, address spaces and memory swapping: operations

    Models get_pte_raw and set_pte_raw of kernel/memory/src/paging/mapper.rs, all of
    kernel/memory/src/paging/address_space.rs and kernel/memory_swap/src/lib.rs, and the
    swap branch of [page_fault_handler] in kernel/exceptions_full/src/lib.rs.

    The raw functions use the physical address of a table as its virtual address; as
    everywhere else, an access is translated by the page walk of the active table.  The
    storage device is a trait object, the class [BlockDevice]; a buffer of 4096 bytes is
    the list of its 512 words of 64 bits. *)

From S2P Require Import Prelude MemStructs FrameAlloc PageAlloc PteFlags PageTable.

#[local] Existing Instance x86_arch.

(** ** The storage device *)

Class BlockDevice (D : Type) := {
  (** [BlockWriter::write_blocks]: the result and the device. *)
  bd_write : D -> list Z -> Z -> result Z string * D;
  (** [BlockReader::read_blocks] into a buffer of that many words. *)
  bd_read : D -> nat -> Z -> result (list Z) string * D;
}.

(** ** The swap manager *)

Record SwapManager (D : Type) := mkSwap {
  free_slots : list bool; used_slots : Z; total_slots : Z; sw_device : D }.
Arguments mkSwap {D}.
Arguments free_slots {D}.
Arguments used_slots {D}.
Arguments total_slots {D}.
Arguments sw_device {D}.

Definition WORDS_PER_PAGE : nat := 512.

Section Swap.
Context {bf : Bitflags} {A B : Type} {fs : FrameSource A} {ps : PageSource B}.

(** ** Raw access to entries *)

Definition raw_index (addr shift : Z) : Z := Z.land (Z.shiftr addr shift) 0x1FF.
Definition raw_table (entry : Z) : Z := Z.land entry 0x000FFFFFFFFFF000.

(** The address of the P1 table, [None] when an entry on the way is not present. *)
Definition raw_p1 (k : Kernel A B) (virtual_address : Z) : outcome (option Z) :=
  let* p4_entry := load_entry k (start_address (ops := physical_ops) (k_cr3 k)) (raw_index virtual_address 39) in
  if Z.land p4_entry 1 =? 0 then Done None
  else
    let* p3_entry := load_entry k (raw_table p4_entry) (raw_index virtual_address 30) in
    if Z.land p3_entry 1 =? 0 then Done None
    else
      let* p2_entry := load_entry k (raw_table p3_entry) (raw_index virtual_address 21) in
      if Z.land p2_entry 1 =? 0 then Done None
      else Done (Some (raw_table p2_entry)).

Definition get_pte_raw (k : Kernel A B) (virtual_address : Z) : outcome (option Z) :=
  let* p1 := raw_p1 k virtual_address in
  match p1 with
  | None => Done None
  | Some p1_addr =>
      let* p1_entry := load_entry k p1_addr (raw_index virtual_address 12) in
      Done (Some p1_entry)
  end.

Definition set_pte_raw (k : Kernel A B) (virtual_address value : Z) : outcome (bool * Kernel A B) :=
  let* p1 := raw_p1 k virtual_address in
  match p1 with
  | None => Done (false, k)
  | Some p1_addr =>
      let* k := store_entry k p1_addr (raw_index virtual_address 12) value in
      Done (true, k)
  end.

(** ** Address spaces *)

Record AddressSpace := mkAddressSpace { pml4_frame : Z }.

(** The entries [256..512] of the active table, copied one by one. *)
Fixpoint copy_kernel_half (n : nat) (active new : Z) (k : Kernel A B) : outcome (Kernel A B) :=
  match n with
  | O => Done k
  | S n' =>
      let i := 512 - Z.of_nat n in
      let* e := load_entry k active i in
      let* k := store_entry k new i e in
      copy_kernel_half n' active new k
  end.

(** [AddressSpace::new]; [allocate_frame] is the allocator passed to it, which returns
    the number of a frame.  [x] is the state of that allocator. *)
Definition address_space_new {X} (allocate_frame : X -> option Z * X) (x : X) (k : Kernel A B)
  : outcome (result AddressSpace string * X * Kernel A B) :=
  let '(f, x) := allocate_frame x in
  match f with
  | None => Done (Err "Out of memory for PML4", x, k)
  | Some phys_frame =>
      let new_table := phys_frame * PAGE_SIZE in
      let* k := table_zero new_table k in
      let active_table := start_address (ops := physical_ops) (k_cr3 k) in
      let* k := copy_kernel_half 256 active_table new_table k in
      match addr_new (ops := physical_ops) new_table with
      | None => Done (Err "Invalid physical address", x, k)
      | Some physical_address => Done (Ok (mkAddressSpace (containing_address physical_address)), x, k)
      end
  end.

(** [AddressSpace::switch_to] writes cr3. *)
Definition switch_to (s : AddressSpace) (k : Kernel A B) : Kernel A B :=
  mkKernel (k_mem k) (pml4_frame s) (k_frames k) (k_pages k) (k_callback k).

(** ** Slots *)

Definition SECTORS_PER_PAGE : Z := PAGE_SIZE / 512.
Definition SWAP_DISK_OFFSET_SECS : Z := 2048.
Definition MAX_SWAP_PAGES : Z := 131072.
Definition SWAP_MAGIC_BIT : Z := Z.shiftl 1 1.

Context {D : Type} {bd : BlockDevice D}.

Definition swap_new (device : D) (swap_size_mb : Z) : SwapManager D :=
  let total := Z.min (wrap64 (wrap64 (swap_size_mb * 1024) * 1024) / PAGE_SIZE) MAX_SWAP_PAGES in
  mkSwap (replicate (Z.to_nat total) true) 0 total device.

(** The first free slot, with the slots after it has been taken. *)
Fixpoint take_slot (l : list bool) (i : Z) : option (Z * list bool) :=
  match l with
  | [] => None
  | true :: l' => Some (i, false :: l')
  | false :: l' => match take_slot l' (i + 1) with Some (j, l'') => Some (j, false :: l'') | None => None end
  end.

Definition alloc_slot (sw : SwapManager D) : option Z * SwapManager D :=
  match take_slot (free_slots sw) 0 with
  | Some (i, l) => (Some i, mkSwap l (used_slots sw + 1) (total_slots sw) (sw_device sw))
  | None => (None, sw)
  end.

(** Indexing out of range panics. *)
Definition free_slot (sw : SwapManager D) (slot : Z) : outcome (SwapManager D) :=
  if slot <? total_slots sw then
    if slot <? Z.of_nat (length (free_slots sw)) then
      Done (mkSwap (<[Z.to_nat slot := true]> (free_slots sw)) (sat_sub (used_slots sw) 1)
              (total_slots sw) (sw_device sw))
    else Panic
  else Done sw.

Definition sector_of (slot : Z) : Z := SWAP_DISK_OFFSET_SECS + slot * SECTORS_PER_PAGE.

Definition set_swap_device (d : D) (sw : SwapManager D) : SwapManager D :=
  mkSwap (free_slots sw) (used_slots sw) (total_slots sw) d.

Definition swap_write (sw : SwapManager D) (slot : Z) (data : list Z) : result unit string * SwapManager D :=
  match bd_write (sw_device sw) data (sector_of slot) with
  | (Ok _, d) => (Ok tt, set_swap_device d sw)
  | (Err _, d) => (Err "swap: write_blocks échoué", set_swap_device d sw)
  end.

Definition swap_read (sw : SwapManager D) (slot : Z) : result (list Z) string * SwapManager D :=
  match bd_read (sw_device sw) WORDS_PER_PAGE (sector_of slot) with
  | (Ok buf, d) => (Ok buf, set_swap_device d sw)
  | (Err _, d) => (Err "swap: read_blocks échoué", set_swap_device d sw)
  end.

Definition usage (sw : SwapManager D) : Z * Z := (used_slots sw, total_slots sw).

(** ** Swap entries *)

Definition encode_swap_pte (slot : Z) : Z := Z.lor (wrap64 (Z.shiftl slot 2)) SWAP_MAGIC_BIT.
Definition decode_swap_slot (pte_raw : Z) : Z := Z.shiftr pte_raw 2.
Definition is_swap_pte (pte_raw : Z) : bool := Z.land pte_raw 3 =? SWAP_MAGIC_BIT.

(** ** Swapping

    [SWAP] is an option: it is set by [swap_init], once. *)

Definition swap_init (SWAP : option (SwapManager D)) (device : D) (swap_size_mb : Z) : option (SwapManager D) :=
  match SWAP with Some sw => Some sw | None => Some (swap_new device swap_size_mb) end.

Definition swap_usage (SWAP : option (SwapManager D)) : option (Z * Z) := usage <$> SWAP.

(** The words of the page at an address, read and written by [copy_nonoverlapping]. *)
Fixpoint read_words (n : nat) (vaddr : Z) (k : Kernel A B) : outcome (list Z) :=
  match n with
  | O => Done []
  | S n' =>
      let* w := load_entry k vaddr (512 - Z.of_nat n) in
      let* l := read_words n' vaddr k in
      Done (w :: l)
  end.

Fixpoint write_words (l : list Z) (vaddr i : Z) (k : Kernel A B) : outcome (Kernel A B) :=
  match l with
  | [] => Done k
  | w :: l' => let* k := store_entry k vaddr i w in write_words l' vaddr (i + 1) k
  end.

Definition swap_out (k : Kernel A B) (SWAP : option (SwapManager D)) (vaddr : Z)
  : outcome (result Z string * option (SwapManager D)) :=
  match SWAP with
  | None => Done (Err "swap: non initialisé", None)
  | Some sw =>
      match alloc_slot sw with
      | (None, sw) => Done (Err "swap: plus de slots libres", Some sw)
      | (Some slot, sw) =>
          let* buf := read_words WORDS_PER_PAGE vaddr k in
          match swap_write sw slot buf with
          | (Err e, sw) => Done (Err e, Some sw)
          | (Ok _, sw) => Done (Ok (encode_swap_pte slot), Some sw)
          end
      end
  end.

(** [swap_in]; [kernel_mapper] is the mapper of the kernel's page table, if the
    kernel's memory information has been set up. *)
Definition swap_in (k : Kernel A B) (SWAP : option (SwapManager D)) (kernel_mapper : option Mapper) (pte_raw : Z)
  : outcome (result Z string * option (SwapManager D) * Kernel A B) :=
  if negb (is_swap_pte pte_raw) then Done (Err "swap: pas une swap PTE", SWAP, k)
  else
    let slot := decode_swap_slot pte_raw in
    match SWAP with
    | None => Done (Err "swap: non initialisé", None, k)
    | Some sw =>
        match swap_read sw slot with
        | (Err e, sw) => Done (Err e, Some sw, k)
        | (Ok buf, sw) =>
            let* (frames, a) := fs_allocate_one (k_frames k) in
            let k := set_frames a k in
            match frames with
            | None => Done (Err "swap: plus de frames physiques", Some sw, k)
            | Some frames =>
                let paddr := start_address (ops := physical_ops) (fstart frames) in
                let* (temp_pages, b) := ps_allocate (k_pages k) 1 in
                let k := set_pages b k in
                match temp_pages with
                | None =>
                    let* k := drop_frames_k frames k in
                    Done (Err "swap: plus de pages virtuelles", Some sw, k)
                | Some temp_pages =>
                    match kernel_mapper with
                    | None =>
                        let k := drop_pages_k temp_pages k in
                        let* k := drop_frames_k frames k in
                        Done (Err "swap: kernel MMI non disponible", Some sw, k)
                    | Some mapper =>
                        let* (r, k) := map_allocated_pages_to k mapper temp_pages frames table_flags in
                        match r with
                        | Err e => Done (Err e, Some sw, k)
                        | Ok mapped =>
                            let* k := write_words buf (mapped_start mapped) 0 k in
                            let* sw := free_slot sw slot in
                            Done (Ok paddr, Some sw, k)
                        end
                    end
                end
            end
        end
    end.

(** ** The page fault handler

    [true] when the handler has brought the page back and the access is retried;
    otherwise the task is killed. *)
Definition page_fault_handler (k : Kernel A B) (SWAP : option (SwapManager D)) (kernel_mapper : option Mapper)
    (protection_violation : bool) (accessed_vaddr : Z)
  : outcome (bool * option (SwapManager D) * Kernel A B) :=
  if negb protection_violation then
    let vaddr_aligned := Z.land accessed_vaddr (U64_MAX - (PAGE_SIZE - 1)) in
    let vaddr_obj := addr_new_canonical (ops := virtual_ops) vaddr_aligned in
    let* pte := get_pte_raw k vaddr_obj in
    match pte with
    | Some pte_raw =>
        if is_swap_pte pte_raw then
          let* (r, SWAP, k) := swap_in k SWAP kernel_mapper pte_raw in
          match r with
          | Ok new_paddr =>
              let* (done, k) := set_pte_raw k vaddr_obj (Z.lor new_paddr 7) in
              Done (done : bool, SWAP, k)
          | Err _ => Done (false, SWAP, k)
          end
        else Done (false, SWAP, k)
    | None => Done (false, SWAP, k)
    end
  else Done (false, SWAP, k).

End Swap.
