(* ===== verification/SwapSpec.v ===== *)
(** * Swapping brings pages back

    The slots of the swap manager, the encoding of swap entries, the raw access to page
    tables under the identity mapping the raw functions assume, and the path of a page
    to the disk and back. *)

From S2P Require Import Prelude MemStructs FrameAlloc PageAlloc PteFlags PageTable PageWalk PageTree PageMap PageUnmap MapperSpec NewTable Swap.

#[local] Existing Instance x86_arch.

(** ** What the device promises

    The device is a sequence of words; a sector has 512 bytes.  A transfer that succeeds
    covers the whole buffer, as the documentation of the two traits says. *)
Class BlockDeviceLaws (D : Type) {bd : BlockDevice D} := {
  bd_word : D -> Z -> Z;
  bd_write_law d data s n d' :
    bd_write d data s = (Ok n, d') ->
    forall w, bd_word d' w =
      if (64 * s <=? w) && (w <? 64 * s + Z.of_nat (length data))
      then nth (Z.to_nat (w - 64 * s)) data 0 else bd_word d w;
  bd_read_law d len s buf d' :
    bd_read d len s = (Ok buf, d') ->
    buf = (fun i => bd_word d (64 * s + i)) <$> seqZ 0 (Z.of_nat len) /\ forall w, bd_word d' w = bd_word d w;
}.

(** ** Slots *)

Section Slots.
Context {D : Type} {bd : BlockDevice D}.
Implicit Types (sw : SwapManager D) (l : list bool).

Definition in_use l : nat := length (List.filter negb l).

(** Well-formed managers: the slot table has the recorded size and the usage count is
    the number of slots in use. *)
Record swap_ok sw : Prop := {
  so_total : Z.of_nat (length (free_slots sw)) = total_slots sw;
  so_used : used_slots sw = Z.of_nat (in_use (free_slots sw));
  so_max : total_slots sw <= MAX_SWAP_PAGES;
}.

Definition slot_used sw (slot : Z) : Prop := 0 <= slot /\ free_slots sw !! Z.to_nat slot = Some false.

Lemma take_slot_spec l i :
  match take_slot l i with
  | Some (j, l') => i <= j /\ l !! Z.to_nat (j - i) = Some true /\ l' = <[Z.to_nat (j - i) := false]> l /\
      forall n, (n < Z.to_nat (j - i))%nat -> l !! n = Some false
  | None => Forall (fun b => b = false) l
  end.
Proof.
  revert i. induction l as [|[] l IH]; intros i; simpl; [constructor| |].
  - replace (i - i) with 0 by lia. simpl. split_and!; try done. intros n Hn. lia.
  - specialize (IH (i + 1)). destruct (take_slot l (i + 1)) as [[j l']|]; [|by constructor].
    destruct IH as (Hj & Hl & -> & Hn). replace (Z.to_nat (j - i)) with (S (Z.to_nat (j - (i + 1)))) by lia.
    split_and!; [lia|done|done|]. intros [|n] Hlt; [done|]. apply Hn. lia.
Qed.

Lemma in_use_insert l (n : nat) (b : bool) (b' : bool) :
  l !! n = Some b -> (in_use (<[n := b']> l) + (if b then 0 else 1) = in_use l + (if b' then 0 else 1))%nat.
Proof.
  revert n. induction l as [|x l IH]; intros [|n] H; simplify_eq/=.
  - unfold in_use. simpl. destruct b, b'; simpl; lia.
  - specialize (IH n H). unfold in_use in *. simpl. destruct x; simpl; lia.
Qed.

Lemma in_use_full l : Forall (fun b => b = false) l -> in_use l = length l.
Proof. induction 1 as [|b l -> ? IH]; [done|]. unfold in_use in *. simpl. by rewrite IH. Qed.

Lemma swap_new_ok (d : D) (mb : Z) : 0 <= mb -> swap_ok (swap_new d mb).
Proof.
  intros Hmb. unfold swap_new. set (total := Z.min _ _).
  assert (0 <= total) by (unfold total, wrap64, MAX_SWAP_PAGES; mem_consts;
    apply Z.min_glb; [apply Z.div_pos; [apply Z.mod_pos_bound|]; lia|lia]).
  split; simpl.
  - rewrite length_replicate. lia.
  - unfold in_use. by induction (Z.to_nat total).
  - unfold total. lia.
Qed.

Lemma alloc_slot_ok sw :
  swap_ok sw ->
  match alloc_slot sw with
  | (Some slot, sw') => swap_ok sw' /\ 0 <= slot < total_slots sw /\ free_slots sw !! Z.to_nat slot = Some true /\
      free_slots sw' = <[Z.to_nat slot := false]> (free_slots sw) /\ sw_device sw' = sw_device sw
  | (None, sw') => sw' = sw /\ used_slots sw = total_slots sw
  end.
Proof.
  intros [Ht Hu Hm]. unfold alloc_slot. pose proof (take_slot_spec (free_slots sw) 0) as H.
  destruct (take_slot _ 0) as [[j l']|].
  - destruct H as (Hj & Hl & -> & _). rewrite Z.sub_0_r in *.
    pose proof (lookup_lt_Some _ _ _ Hl). pose proof (in_use_insert _ _ _ false Hl) as Hc. cbv iota in Hc.
    split_and!; try done; [|lia]. split; simpl; [by rewrite length_insert|lia|done].
  - split; [done|]. by rewrite Hu, <- Ht, in_use_full.
Qed.

Lemma free_slot_ok sw slot :
  swap_ok sw -> slot_used sw slot ->
  exists sw', free_slot sw slot = Done sw' /\ swap_ok sw' /\ sw_device sw' = sw_device sw /\
    free_slots sw' = <[Z.to_nat slot := true]> (free_slots sw).
Proof.
  intros [Ht Hu Hm] [H0 Hl]. pose proof (lookup_lt_Some _ _ _ Hl). unfold free_slot.
  rewrite (proj2 (Z.ltb_lt _ _)) by lia. rewrite (proj2 (Z.ltb_lt _ _)) by lia.
  eexists. split; [done|]. split_and!; try done. pose proof (in_use_insert _ _ _ true Hl) as Hc. cbv iota in Hc.
  split; simpl; [by rewrite length_insert| |done]. unfold sat_sub. lia.
Qed.

End Slots.

(** ** Swap entries *)

Lemma encode_swap_val (slot : Z) : 0 <= slot < 2 ^ 61 -> encode_swap_pte slot = 4 * slot + 2.
Proof.
  intros H. unfold encode_swap_pte, SWAP_MAGIC_BIT. rewrite Z.shiftl_mul_pow2 by lia.
  rewrite wrap64_id by (mem_consts; lia). change (2 ^ 2) with 4. change (Z.shiftl 1 1) with 2.
  rewrite Z.lor_comm, (Z.mul_comm slot). change 4 with (2 ^ 2). rewrite Z.mul_comm.
  apply Z.bits_inj'. intros n Hn. rewrite Z.lor_spec.
  destruct (Z.ltb_spec n 2).
  - rewrite Z.mul_pow2_bits_low by lia. rewrite orb_false_r, Z.add_comm.
    rewrite <- (Z.mod_pow2_bits_low (2 + _) 2 n) by lia. rewrite Z.mod_add by lia. done.
  - rewrite Z.mul_pow2_bits by lia. replace (Z.testbit 2 n) with false.
    2:{ symmetry. apply Z.bits_above_log2; simpl; lia. }
    simpl. replace n with ((n - 2) + 2) at 2 by lia. rewrite <- Z.div_pow2_bits by lia.
    f_equal. rewrite Z.add_comm, Z.div_add by lia. done.
Qed.

(** ** Raw access under the identity mapping *)

Section Raw.
Context {bf : Bitflags} {bl : BitflagsLaws bf} {FA PB : Type}.
Context {fs : FrameSource FA} {fl : FrameSourceLaws FA} {ps : PageSource PB}.
Implicit Types (k : Kernel FA PB) (U F : Z -> Prop).

(** The page with the number of the frame [t] maps that frame, writable. *)
Definition identity k (t : Z) : Prop :=
  tree_page t /\ no_huge (k_cr3 k) k t /\ hw_present (leaf (k_cr3 k) k t) = true /\
  hw_writable (leaf (k_cr3 k) k t) = true /\ hw_frame (leaf (k_cr3 k) k t) = t.

(** The walk of a page in the tree, in terms of its lowest-level entry. *)
Lemma walk_of_leaf F k U page :
  active_inv F k U -> tree_page page -> hw_present (leaf (k_cr3 k) k page) = true ->
  mmu_walk (k_mem k) (k_cr3 k) page =
    Some (hw_frame (leaf (k_cr3 k) k page), hw_writable (leaf (k_cr3 k) k page)).
Proof.
  intros Hk Hp Hpr. unfold leaf, entry_at in *.
  destruct (follow (k_mem k) (k_cr3 k) (path3 page)) as [t|] eqn:E; [|done].
  rewrite (mmu_walk_leaf _ _ _ t E), Hpr. rewrite (to_writable _ _ _ _ (ki_tree _ _ _ _ _ Hk) _ t); try done.
  by apply path3_plain.
Qed.

Lemma identity_walk F k U t :
  active_inv F k U -> identity k t -> mmu_walk (k_mem k) (k_cr3 k) t = Some (t, true).
Proof. intros Hk (Hp & _ & Hpr & Hw & Hf). rewrite (walk_of_leaf F k U) by done. by rewrite Hw, Hf. Qed.

(** A page that is translated without a huge page has a P1 table. *)
Lemma walk_table k page f w :
  no_huge (k_cr3 k) k page -> mmu_walk (k_mem k) (k_cr3 k) page = Some (f, w) ->
  exists t, follow (k_mem k) (k_cr3 k) (path3 page) = Some t /\ hw_present (k_mem k t (p1_index page)) = true /\
    hw_frame (k_mem k t (p1_index page)) = f.
Proof.
  intros (H4 & H3 & H2) Hw. unfold mmu_walk in Hw. unfold entry_at in H4, H3, H2. unfold path3. cbn [follow] in *.
  unfold d_next in *. destruct (hw_present (k_mem k (k_cr3 k) _)); [|done]. rewrite H4 in *. cbn [negb orb andb] in *.
  destruct (hw_present (k_mem k (hw_frame _) (p3_index _))); [|done]. rewrite H3 in *. cbn [negb andb] in *.
  destruct (hw_present (k_mem k (hw_frame _) (p2_index _))); [|done]. rewrite H2 in *. cbn [negb andb] in *.
  destruct (hw_present (k_mem k (hw_frame _) (p1_index _))) eqn:E; [|done]. injection Hw as Hf _. eauto.
Qed.

Lemma raw_index_spec (a : Z) :
  raw_index a 39 = p4_index (a / 4096) /\ raw_index a 30 = p3_index (a / 4096) /\
  raw_index a 21 = p2_index (a / 4096) /\ raw_index a 12 = p1_index (a / 4096).
Proof.
  unfold raw_index, p4_index, p3_index, p2_index, p1_index. rewrite !land_1FF, !Z.shiftr_div_pow2 by lia.
  rewrite !Z.div_div by lia. done.
Qed.

Lemma raw_table_spec (e : Z) : raw_table e = 4096 * hw_frame e.
Proof.
  unfold raw_table, hw_frame. change 0x000FFFFFFFFFF000 with (Z.shiftl (Z.ones 40) 12).
  change 4096 with (2 ^ 12). rewrite <- Z.land_ones, <- Z.shiftr_div_pow2, Z.mul_comm, <- Z.shiftl_mul_pow2 by lia.
  rewrite Z.shiftl_land, <- Z.ldiff_ones_r by lia.
  apply Z.bits_inj'. intros n Hn. rewrite !Z.land_spec, Z.ldiff_spec, Z.shiftl_spec by lia.
  destruct (Z.ltb_spec n 12).
  - rewrite (Z.testbit_neg_r (Z.ones 40)) by lia. by rewrite !andb_false_r.
  - rewrite (Z.ones_spec_high 12 n) by lia. simpl. by rewrite andb_true_r.
Qed.

Lemma raw_present (e : Z) : (Z.land e 1 =? 0) = negb (hw_present e).
Proof.
  unfold hw_present. change 1 with (Z.ones 1). rewrite Z.land_ones by lia. change (2 ^ 1) with 2.
  rewrite Zmod_odd, <- Z.bit0_odd. by destruct (Z.testbit e 0).
Qed.

Lemma hw_frame_bounds (e : Z) : 0 <= hw_frame e < 2 ^ 40.
Proof. apply Z.mod_pos_bound. lia. Qed.

Lemma identity_load F k U t i :
  active_inv F k U -> identity k t -> 0 <= i < 512 -> load_entry k (4096 * t) i = Done (k_mem k t i).
Proof.
  intros Hk Hid Hi. unfold load_entry, containing_address. rewrite SIZE_4K_val, Z.mul_comm, Z.div_mul by lia.
  rewrite (identity_walk F k U) by done.
  change ENTRIES_PER_PAGE_TABLE with 512. by rewrite (proj2 (Z.leb_le 0 i)), (proj2 (Z.ltb_lt i 512)) by lia.
Qed.

Lemma raw_load F k U e i :
  active_inv F k U -> identity k (hw_frame e) -> 0 <= i < 512 ->
  load_entry k (raw_table e) i = Done (k_mem k (hw_frame e) i).
Proof.
  intros Hk Hid Hi. rewrite raw_table_spec. by apply (identity_load F k U).
Qed.

Lemma active_root F k U : active_inv F k U -> 0 <= k_cr3 k < 2 ^ 40.
Proof.
  intros Hk. pose proof (rec_A _ _ _ _ (ki_rec _ _ _ _ _ Hk)) as E. apply d_next_Some in E as (_ & _ & <-).
  apply hw_frame_bounds.
Qed.

Lemma physical_start (f : Z) : 0 <= f < 2 ^ 40 -> start_address (ops := physical_ops) f = 4096 * f.
Proof.
  intros Hf. unfold start_address, addr_new_canonical. rewrite SIZE_4K_val. simpl canonicalize.
  rewrite wrap64_id by (mem_consts; lia). unfold canonicalize_physical_address.
  change PHYS_MASK_X86 with (Z.ones 52). rewrite Z.land_ones, Z.mod_small by lia. lia.
Qed.

Lemma raw_step k q i t :
  follow (k_mem k) (k_cr3 k) q = Some t ->
  hw_page_size (entry_at (k_mem k) (k_cr3 k) q i) = false ->
  ((Z.land (k_mem k t i) 1 =? 0) = true /\ d_next (k_mem k) t i = None) \/
  ((Z.land (k_mem k t i) 1 =? 0) = false /\ d_next (k_mem k) t i = Some (hw_frame (k_mem k t i)) /\
   follow (k_mem k) (k_cr3 k) (q ++ [i]) = Some (hw_frame (k_mem k t i))).
Proof.
  intros Hf Hs. unfold entry_at in Hs. rewrite Hf in Hs. rewrite raw_present. unfold d_next. rewrite Hs.
  destruct (hw_present (k_mem k t i)) eqn:Pr; [right|by left]. split; [done|]. split; [done|].
  rewrite follow_app, Hf. cbn [follow]. unfold d_next. by rewrite Pr, Hs.
Qed.

Lemma physical_canonical (f : Z) : 0 <= f < 2 ^ 40 -> is_canonical (AddressOps := physical_ops) (4096 * f) = true.
Proof.
  intros Hf. rewrite <- (physical_start f Hf). unfold start_address. apply canonicalize_canonical.
  rewrite SIZE_4K_val, wrap64_id; unfold in_u64; mem_consts; lia.
Qed.

(** The tables on the way to a page can be accessed at their physical addresses. *)
Definition identity_path k (page : Z) : Prop :=
  forall q l t, path3 page = q ++ l -> follow (k_mem k) (k_cr3 k) q = Some t -> identity k t.

Definition raw_address (a page : Z) : Prop := ix4 (containing_address a) = ix4 page.

(** The P1 table of a page, by the raw walk. *)
Lemma raw_p1_ok F k U a page :
  active_inv F k U -> identity_path k page -> tree_page page -> no_huge (k_cr3 k) k page ->
  raw_address a page ->
  raw_p1 k a = Done ((fun t => 4096 * t) <$> follow (k_mem k) (k_cr3 k) (path3 page)) /\
  raw_index a 12 = p1_index page.
Proof.
  intros Hk Hid Hp (H4 & H3 & H2) Hix. destruct (raw_index_spec a) as (E4 & E3 & E2 & E1).
  unfold raw_address, containing_address in Hix. rewrite SIZE_4K_val in Hix. unfold ix4 in Hix.
  injection Hix as I4 I3 I2 I1. rewrite I4 in E4. rewrite I3 in E3. rewrite I2 in E2. rewrite I1 in E1.
  split; [|done]. pose proof (page_index_bounds page) as (B4 & B3 & B2 & _).
  change ENTRIES_PER_PAGE_TABLE with 512 in *.
  pose proof (active_root F k U Hk) as HR.
  unfold raw_p1. rewrite E4, E3, E2. unfold path3.
  rewrite physical_start, (identity_load F k U (k_cr3 k)) by (done || by eapply (Hid [])).
  cbn [outcome_bind]. destruct (raw_step k [] (p4_index page) (k_cr3 k) eq_refl H4) as [[N4 D4]|(N4 & D4 & F4)].
  { rewrite N4. cbn [follow]. by rewrite D4. }
  rewrite N4, (raw_load F k U) by (done || by eapply (Hid [_])). cbn [outcome_bind app] in *.
  destruct (raw_step k [p4_index page] (p3_index page) _ F4 H3) as [[N3 D3]|(N3 & D3 & F3)].
  { rewrite N3. cbn [follow]. by rewrite D4, D3. }
  rewrite N3, (raw_load F k U) by (done || by eapply (Hid [_; _])). cbn [outcome_bind app] in *.
  destruct (raw_step k [p4_index page; p3_index page] (p2_index page) _ F3 H2) as [[N2 D2]|(N2 & D2 & F2)].
  { rewrite N2. cbn [follow]. by rewrite D4, D3, D2. }
  rewrite N2. cbn [follow]. rewrite D4, D3, D2, raw_table_spec. done.
Qed.

(** The entry that the raw walk reads is the lowest-level entry of the page. *)
Lemma get_pte_raw_ok F k U a page :
  active_inv F k U -> identity_path k page -> tree_page page -> no_huge (k_cr3 k) k page ->
  raw_address a page ->
  get_pte_raw k a = Done ((fun t => k_mem k t (p1_index page)) <$> follow (k_mem k) (k_cr3 k) (path3 page)).
Proof.
  intros Hk Hid Hp Hh Ha. destruct (raw_p1_ok F k U a page Hk Hid Hp Hh Ha) as [E1 Ei].
  unfold get_pte_raw. rewrite E1, Ei. cbn [outcome_bind].
  destruct (follow (k_mem k) (k_cr3 k) (path3 page)) as [t|] eqn:E; [|done]. cbn [fmap option_fmap option_map].
  rewrite (identity_load F k U t) by (done || apply page_index_bounds || by eapply (Hid (path3 page) [])). done.
Qed.

Lemma set_pte_raw_ok F k U a page t v :
  active_inv F k U -> identity_path k page -> tree_page page -> no_huge (k_cr3 k) k page ->
  raw_address a page -> follow (k_mem k) (k_cr3 k) (path3 page) = Some t ->
  set_pte_raw k a v = Done (true, set_mem (upd (k_mem k) t (p1_index page) v) k).
Proof.
  intros Hk Hid Hp Hh Ha E. destruct (raw_p1_ok F k U a page Hk Hid Hp Hh Ha) as [E1 Ei].
  unfold set_pte_raw. rewrite E1, Ei, E. cbn [outcome_bind fmap option_fmap option_map].
  rewrite (store_entry_walk k (4096 * t) t); [done| |apply page_index_bounds].
  unfold containing_address. rewrite SIZE_4K_val, Z.mul_comm, Z.div_mul by lia.
  eapply identity_walk; [done|]. by eapply (Hid (path3 page) []).
Qed.

End Raw.

(** ** Reading and writing pages *)

Section Pages.
Context {bf : Bitflags} {bl : BitflagsLaws bf} {FA PB : Type}.
Context {fs : FrameSource FA} {fl : FrameSourceLaws FA} {ps : PageSource PB}.
Implicit Types (k : Kernel FA PB) (U F : Z -> Prop).

(** The words of a frame. *)
Definition frame_words k (f : Z) : list Z := k_mem k f <$> seqZ 0 512.

Lemma read_words_from k a f w (n : nat) :
  mmu_walk (k_mem k) (k_cr3 k) (containing_address a) = Some (f, w) -> (n <= 512)%nat ->
  read_words n a k = Done (k_mem k f <$> seqZ (512 - Z.of_nat n) (Z.of_nat n)).
Proof.
  intros Hw. induction n as [|n IH]; intros Hn; [done|]. cbn [read_words]. unfold load_entry. rewrite Hw.
  change ENTRIES_PER_PAGE_TABLE with 512. rewrite (proj2 (Z.leb_le 0 _)), (proj2 (Z.ltb_lt _ 512)) by lia.
  cbn [andb outcome_bind]. rewrite IH by lia. cbn [outcome_bind]. rewrite (seqZ_cons _ (Z.of_nat (S n))) by lia.
  cbn [fmap list_fmap]. do 3 f_equal. f_equal; lia.
Qed.

Lemma read_words_ok k a f w :
  mmu_walk (k_mem k) (k_cr3 k) (containing_address a) = Some (f, w) ->
  read_words WORDS_PER_PAGE a k = Done (frame_words k f).
Proof. intros Hw. by rewrite (read_words_from k a f w) by done. Qed.

Lemma write_words_ok k a f (l : list Z) (i : Z) :
  0 <= i -> i + Z.of_nat (length l) <= 512 ->
  (forall m, (forall g j, g <> f -> m g j = k_mem k g j) ->
     mmu_walk m (k_cr3 k) (containing_address a) = Some (f, true)) ->
  exists m', write_words l a i k = Done (set_mem m' k) /\
    (forall g j, g <> f -> m' g j = k_mem k g j) /\
    forall j, m' f j = if (i <=? j) && (j <? i + Z.of_nat (length l)) then nth (Z.to_nat (j - i)) l 0 else k_mem k f j.
Proof.
  revert k i. induction l as [|w l IH]; intros k i Hi Hl Hw.
  { exists (k_mem k). split; [by destruct k|]. split; [done|]. intros j. simpl. case_cmp; done || lia. }
  simpl length in *. cbn [write_words]. rewrite (store_entry_walk k a f i w) by (lia || by apply Hw).
  cbn [outcome_bind]. set (k1 := set_mem _ k).
  destruct (IH k1 (i + 1)) as (m' & E & Ho & Hm); [lia|lia| |].
  { intros m Hm. apply Hw. intros g j Hg. rewrite Hm by done. simpl. unfold upd. by destruct (Z.eqb_spec g f). }
  exists m'. split; [done|]. split.
  - intros g j Hg. rewrite Ho by done. simpl. unfold upd. by destruct (Z.eqb_spec g f).
  - intros j. rewrite Hm. simpl k_mem. unfold upd. rewrite Z.eqb_refl. simpl andb.
    destruct (Z.eqb_spec j i) as [->|Hne].
    + replace (i - i) with 0 by lia. case_cmp; done || lia.
    + destruct (Z.leb_spec (i + 1) j), (Z.ltb_spec j (i + 1 + Z.of_nat (length l))); case_cmp; try lia; try done.
      simpl. replace (Z.to_nat (j - i)) with (S (Z.to_nat (j - (i + 1)))) by lia. done.
Qed.

End Pages.

Lemma nth_of_lookup (l : list Z) (i : nat) : (i < length l)%nat -> l !! i = Some (nth i l 0).
Proof. intros Hi. destruct (nth_lookup_or_length l i 0); [done|lia]. Qed.

(** ** The slots on the disk *)

Section Disk.
Context {D : Type} {bd : BlockDevice D} {bdl : BlockDeviceLaws D}.
Implicit Types (sw : SwapManager D).

Definition slot_words sw (slot : Z) : list Z :=
  (fun i => bd_word (sw_device sw) (64 * sector_of slot + i)) <$> seqZ 0 512.

Lemma slot_words_eq sw sw' slot :
  (forall i, 0 <= i < 512 -> bd_word (sw_device sw') (64 * sector_of slot + i) = bd_word (sw_device sw) (64 * sector_of slot + i)) ->
  slot_words sw' slot = slot_words sw slot.
Proof. intros H. apply list_fmap_ext. intros i x Hx. apply lookup_seqZ in Hx as [-> ?]. apply H. lia. Qed.

Lemma swap_read_ok sw slot buf sw' :
  swap_read sw slot = (Ok buf, sw') ->
  buf = slot_words sw slot /\ free_slots sw' = free_slots sw /\ used_slots sw' = used_slots sw /\
  total_slots sw' = total_slots sw /\ forall s, slot_words sw' s = slot_words sw s.
Proof.
  unfold swap_read. destruct (bd_read _ _ _) as [[b|e] d] eqn:E; [|done]. intros [= <- <-].
  apply bd_read_law in E as [-> Hd]. split_and!; try done. intros s. apply slot_words_eq. intros. apply Hd.
Qed.

Lemma swap_write_ok sw slot data sw' :
  length data = 512%nat -> swap_write sw slot data = (Ok tt, sw') ->
  slot_words sw' slot = data /\ free_slots sw' = free_slots sw /\ used_slots sw' = used_slots sw /\
  total_slots sw' = total_slots sw /\ forall s, s <> slot -> slot_words sw' s = slot_words sw s.
Proof.
  intros Hl. unfold swap_write. destruct (bd_write _ _ _) as [[n|e] d] eqn:E; [|done]. intros [= <-].
  pose proof (bd_write_law _ _ _ _ _ E) as Hd. rewrite Hl in Hd. split_and!; try done.
  - apply list_eq. intros i. unfold slot_words. rewrite list_lookup_fmap. simpl sw_device.
    destruct (decide (i < 512)%nat) as [Hi|Hi].
    + rewrite lookup_seqZ_lt by lia. simpl. rewrite Hd. case_cmp; try lia. simpl.
      replace (Z.to_nat _) with i by lia. symmetry. apply nth_of_lookup. lia.
    + rewrite lookup_seqZ_ge by lia. simpl. symmetry. apply lookup_ge_None. lia.
  - intros s Hs. apply slot_words_eq. intros i Hi. simpl. rewrite Hd. unfold sector_of, SWAP_DISK_OFFSET_SECS, SECTORS_PER_PAGE.
    mem_consts. change (4096 / 512) with 8. case_cmp; done || lia.
Qed.

End Disk.

(** ** Swapping in *)

Section SwapIn.
Context {bf : Bitflags} {bl : BitflagsLaws bf} {FA PB : Type}.
Context {fs : FrameSource FA} {fl : FrameSourceLaws FA} {ps : PageSource PB}.
Context {D : Type} {bd : BlockDevice D} {bdl : BlockDeviceLaws D}.
Implicit Types (k : Kernel FA PB) (U F : Z -> Prop) (sw : SwapManager D).

Lemma swap_entry (slot : Z) :
  0 <= slot < 2 ^ 61 ->
  is_swap_pte (encode_swap_pte slot) = true /\ decode_swap_slot (encode_swap_pte slot) = slot /\
  hw_present (encode_swap_pte slot) = false /\ encode_swap_pte slot <> 0 /\ in_u64 (encode_swap_pte slot).
Proof.
  intros Hs. rewrite encode_swap_val by done. unfold is_swap_pte, decode_swap_slot, hw_present, SWAP_MAGIC_BIT.
  change 3 with (Z.ones 2). rewrite Z.land_ones, Z.shiftr_div_pow2, Z.bit0_odd by lia. change (2 ^ 2) with 4.
  split_and!.
  - apply Z.eqb_eq. rewrite Z.mul_comm, Z.add_comm, Z.mod_add by lia. done.
  - rewrite Z.mul_comm, Z.add_comm, Z.div_add by lia. done.
  - rewrite Z.odd_add, Z.odd_mul. done.
  - lia.
  - unfold in_u64. mem_consts. lia.
Qed.

(** What [swap_in] needs: a device that can read the slot, a frame and the tables for
    the temporary page, and a free page [q]. *)
Record can_swap_in k sw (slot q : Z) (buf : list Z) sw1 (b : PB) : Prop := {
  cs_read : swap_read sw slot = (Ok buf, sw1);
  cs_page : ps_allocate (k_pages k) 1 = Done (Some (mkPages (mkRange q q)), b);
  cs_range : 0 <= q <= MAX_PAGE_NUMBER;
  cs_mappable : mappable (k_cr3 k) k q;
  cs_avail : fs_avail (k_frames k) 4;
}.

Lemma swap_in_ok F k U sw slot q buf sw1 b :
  active_inv F k U -> swap_ok sw -> slot_used sw slot -> can_swap_in k sw slot q buf sw1 b ->
  exists f k' sw' U', swap_in k (Some sw) (Some (from_current k)) (encode_swap_pte slot) = Done (Ok (4096 * f), Some sw', k') /\
    0 <= f < 2 ^ 40 /\ ~ U f /\ ~ F f /\ active_inv (fun g => F g \/ g = f) k' U' /\ (forall g, U g -> U' g) /\
    changed (k_cr3 k) [ix4 q] (set_pages b k) k' /\ frame_words k' f = slot_words sw slot /\
    swap_ok sw' /\ free_slots sw' = <[Z.to_nat slot := true]> (free_slots sw).
Proof.
  intros Hk Hsw Hslot [Hrd Hpg Hq Hmap Hav].
  pose proof Hslot as [Hs0 Hsl]. pose proof (lookup_lt_Some _ _ _ Hsl) as Hlt.
  destruct (swap_entry slot) as (Hsp & Hdec & _).
  { pose proof (so_total _ Hsw). pose proof (so_max _ Hsw). unfold MAX_SWAP_PAGES in *. lia. }
  destruct (swap_read_ok _ _ _ _ Hrd) as (-> & Hf1 & Hu1 & Ht1 & Hw1).
  destruct Hk as [Hs Hrec Ht Hfs Hd].
  destruct (fs_allocate_law _ _ _ Hfs Hav) as (ty & f & a' & Ea & Hf & Hnew & Hfs' & Hav').
  set (k1 := set_pages b (set_frames a' k)).
  assert (Hk1 : active_inv (fun g => F g \/ g = f) k1 U).
  { split; [done|done|done| |].
    - eapply fs_inv_weaken; [exact Hfs'|]. simpl. tauto.
    - intros g [Hg| ->]; [by apply Hd|]. intros HU. apply Hnew. by left. }
  destruct (map_temporary _ k1 U (mkFrames ty (mkRange f f)) q f Hk1 Hq Hmap eq_refl Hf Hav')
    as (k2 & U' & E2 & HU & T2).
  destruct temporary_flags_ok as (Hfl & H0 & H1 & _). destruct (page_address q Hq) as [_ Hix].
  assert (Hnf : ~ U' f) by (apply (ki_disjoint _ _ _ _ _ (tm_inv _ _ _ _ _ _ _ T2)); by right).
  assert (Hlen : length (slot_words sw slot) = 512%nat) by (unfold slot_words; rewrite length_fmap; apply length_seqZ).
  destruct (write_words_ok k2 (start_address (ops := virtual_ops) q) f (slot_words sw slot) 0)
    as (m' & E3 & Ho & Hm); [lia|lia| |].
  { intros m Hm. by apply (temporary_walk k1 q f temporary_flags (fun g => F g \/ g = f) (set_mem m k2) U'
      (start_address (ops := virtual_ops) q) (temporary_write _ _ _ _ _ _ _ m T2 Hnf Hm)). }
  pose proof (temporary_write _ _ _ _ _ _ _ m' T2 Hnf Ho) as T3.
  destruct (free_slot_ok sw1 slot) as (sw' & E4 & Hok' & _ & Hfree').
  { destruct Hsw. split; [by rewrite Hf1, Ht1|by rewrite Hf1, Hu1|by rewrite Ht1]. } { split; [done|by rewrite Hf1]. }
  exists f, (set_mem m' k2), sw', U'. split_and!; try done.
  - unfold swap_in. rewrite Hsp, Hdec. cbn [negb]. rewrite Hrd, Ea. cbn [outcome_bind]. simpl k_pages. rewrite Hpg.
    cbn [outcome_bind]. unfold map_allocated_pages_to. fold k1.
    change (from_current k) with (from_current k1). rewrite E2. cbn [outcome_bind].
    change (mapped_start _) with (start_address (ops := virtual_ops) q). rewrite E3. cbn [outcome_bind].
    rewrite E4. cbn [outcome_bind]. unfold fstart. simpl r_start. by rewrite physical_start.
  - lia.
  - lia.
  - intros HU'. apply Hnew. by left.
  - intros HF. apply Hnew. by right.
  - apply T3.
  - destruct (tm_changed _ _ _ _ _ _ _ T3). by split.
  - unfold frame_words. apply list_eq. intros i. rewrite list_lookup_fmap.
    destruct (decide (i < 512)%nat) as [Hi|Hi].
    + rewrite lookup_seqZ_lt by lia. simpl. rewrite Hm, Hlen. case_cmp; try lia. simpl.
      replace (Z.to_nat _) with i by lia. symmetry. apply nth_of_lookup. lia.
    + rewrite lookup_seqZ_ge by lia. simpl. symmetry. apply lookup_ge_None. lia.
  - by rewrite Hfree', Hf1.
Qed.

(** An identity-mapped page stays so when another page is mapped. *)
Lemma identity_changed k k' L t :
  changed (k_cr3 k) L k k' -> ix4 t ∉ L -> identity k t -> identity k' t.
Proof.
  intros Hc Hn (Hp & Hh & H). unfold identity. rewrite (ch_cr3 _ _ _ _ Hc), (changed_leaf _ L k k') by done.
  split; [done|]. split; [by eapply changed_no_huge|done].
Qed.

Lemma identity_path_changed k k' q page t1 :
  changed (k_cr3 k) [ix4 q] k k' -> leaf (k_cr3 k) k q = 0 -> tree_page page ->
  follow (k_mem k) (k_cr3 k) (path3 page) = Some t1 -> identity_path k page -> identity_path k' page.
Proof.
  intros Hc Hq Hp Hf Hid p l t E Ht. rewrite (ch_cr3 _ _ _ _ Hc) in Ht.
  pose proof (tree_page_plain page Hp) as Hpl. rewrite ix4_path3, E, <- app_assoc in Hpl.
  assert (exists u, follow (k_mem k) (k_cr3 k) p = Some u) as [u Hu].
  { rewrite E, follow_app in Hf. destruct (follow (k_mem k) (k_cr3 k) p) as [u|]; [by exists u|done]. }
  assert (length p <= 3)%nat by (apply (f_equal length) in E; rewrite length_app in E; simpl in E; lia).
  rewrite (ch_tables _ _ _ _ Hc p u) in Ht by (done || by eapply plain_app_l). injection Ht as <-.
  pose proof (Hid p l u E Hu) as Hi. eapply identity_changed; [done| |done].
  intros Hin%list_elem_of_singleton. destruct Hi as (_ & _ & Hpr & _). unfold leaf, path3 in Hq, Hpr.
  unfold ix4 in Hin. injection Hin as E4 E3 E2 E1. rewrite E4, E3, E2, E1, Hq in Hpr. done.
Qed.

(** Rewriting the entry of a page that maps no table keeps its tables accessible. *)
Lemma identity_path_unmapped F k U page t e :
  active_inv F k U -> tree_page page -> follow (k_mem k) (k_cr3 k) (path3 page) = Some t ->
  ~ U (hw_frame (k_mem k t (p1_index page))) -> identity_path k page ->
  identity_path (set_mem (upd (k_mem k) t (p1_index page) e) k) page.
Proof.
  intros Hk Hp Hf Hnt Hid p l u E Hu. pose proof (path3_plain page Hp) as P3.
  assert (Pp : plain p) by (rewrite E in P3; by eapply plain_app_l).
  assert (length p <= 3)%nat by (apply (f_equal length) in E; rewrite length_app in E; simpl in E; lia).
  destruct (upd_leaf (k_cr3 k) RECURSIVE_P4_INDEX F k U page t e Hk Hp Hf) as (_ & Hc & _).
  assert (Hu0 : follow (k_mem k) (k_cr3 k) p = Some u).
  { rewrite <- Hu. symmetry. eapply (leaf_table (k_mem k) _ (k_cr3 k) (k_cr3 k) U (path3 page) t (p1_index page)); eauto. apply Hk. }
  pose proof (Hid p l u E Hu0) as Hi. eapply identity_changed; [exact Hc| |done].
  intros Hin%list_elem_of_singleton. apply Hnt. destruct Hi as (_ & _ & _ & _ & Hfu). unfold leaf, path3 in Hfu.
  unfold ix4 in Hin. injection Hin as E4 E3 E2 E1. rewrite E4, E3, E2, E1 in Hfu. unfold entry_at in Hfu.
  fold (path3 page) in Hfu. rewrite Hf in Hfu. rewrite Hfu. by eapply (to_used _ _ _ _ (ki_tree _ _ _ _ _ Hk) p).
Qed.

(** The entry the handler writes: present, writable, for the frame [f]. *)
Lemma handler_entry (f : Z) :
  0 <= f < 2 ^ 40 ->
  hw_present (Z.lor (4096 * f) 7) = true /\ hw_writable (Z.lor (4096 * f) 7) = true /\
  hw_frame (Z.lor (4096 * f) 7) = f.
Proof.
  intros Hf. unfold hw_present, hw_writable, hw_frame. rewrite !Z.lor_spec. split_and!.
  - by rewrite orb_true_r.
  - by rewrite orb_true_r.
  - rewrite <- (Z.shiftr_div_pow2 _ 12), Z.shiftr_lor by lia. change (Z.shiftr 7 12) with 0.
    rewrite Z.lor_0_r, Z.shiftr_div_pow2, Z.mul_comm by lia. change (2 ^ 12) with 4096.
    rewrite Z.div_mul, Z.mod_small by lia. done.
Qed.

Lemma bits_above (a n : Z) : 0 <= a <= U64_MAX -> 64 <= n -> Z.testbit a n = false.
Proof.
  intros Ha Hn. rewrite <- (Z.mod_small a (2 ^ 64)) by (unfold U64_MAX in Ha; lia).
  apply Z.mod_pow2_bits_high. lia.
Qed.

Lemma fault_address (a : Z) :
  in_u64 a ->
  raw_address (addr_new_canonical (ops := virtual_ops) (Z.land a (U64_MAX - (PAGE_SIZE - 1)))) (containing_address a).
Proof.
  intros [Ha0 Ha1]. unfold raw_address.
  assert (Z.land a (U64_MAX - (PAGE_SIZE - 1)) = 4096 * (a / 4096)) as ->.
  { change (U64_MAX - (PAGE_SIZE - 1)) with (Z.shiftl (Z.ones 52) 12).
    rewrite (Z.mul_comm 4096). change 4096 with (2 ^ 12). rewrite <- Z.shiftr_div_pow2, <- Z.shiftl_mul_pow2 by lia.
    apply Z.bits_inj'. intros n Hn. rewrite Z.land_spec, !Z.shiftl_spec by lia.
    destruct (Z.ltb_spec n 12); [rewrite (Z.testbit_neg_r (Z.ones 52)), (Z.testbit_neg_r (Z.shiftr a 12)) by lia; apply andb_false_r|].
    rewrite Z.shiftr_spec, Z.sub_add by lia. destruct (Z.ltb_spec n 64).
    - rewrite Z.ones_spec_low by lia. apply andb_true_r.
    - rewrite (bits_above a n) by lia. done. }
  unfold containing_address at 2. rewrite SIZE_4K_val. apply canonical_aligned.
  unfold in_u64. pose proof (Z.mul_div_le a 4096 ltac:(lia)). pose proof (Z.div_pos a 4096 Ha0 ltac:(lia)). lia.
Qed.

(** The page fault handler on a page whose entry is a swap entry. *)
Lemma handler_ok F k U sw slot q buf sw1 b page a :
  active_inv F k U -> swap_ok sw -> slot_used sw slot -> can_swap_in k sw slot q buf sw1 b ->
  in_u64 a -> containing_address a = page -> tree_page page -> no_huge (k_cr3 k) k page -> identity_path k page ->
  leaf (k_cr3 k) k page = encode_swap_pte slot ->
  exists f k' sw' U', page_fault_handler k (Some sw) (Some (from_current k)) false a = Done (true, Some sw', k') /\
    ~ U f /\ ~ F f /\ active_inv (fun g => F g \/ g = f) k' U' /\
    mmu_walk (k_mem k') (k_cr3 k') page = Some (f, true) /\ frame_words k' f = slot_words sw slot /\
    changed (k_cr3 k) [ix4 q; ix4 page] (set_pages b k) k' /\
    swap_ok sw' /\ free_slots sw' = <[Z.to_nat slot := true]> (free_slots sw).
Proof.
  intros Hk Hsw Hslot Hcan Ha Hpg Hp Hh Hid Hl. pose proof (fault_address a Ha) as Hra. rewrite Hpg in Hra.
  destruct (swap_entry slot) as (Hsp & _ & _ & Hne & _).
  { destruct Hslot as [? Hlt%lookup_lt_Some]. pose proof (so_total _ Hsw). pose proof (so_max _ Hsw).
    unfold MAX_SWAP_PAGES in *. lia. }
  assert (exists t, follow (k_mem k) (k_cr3 k) (path3 page) = Some t /\ k_mem k t (p1_index page) = encode_swap_pte slot)
    as (t & Hf & He).
  { unfold leaf, entry_at in Hl. destruct (follow _ _ (path3 page)) as [t|]; [by exists t|congruence]. }
  destruct (swap_in_ok F k U sw slot q buf sw1 b Hk Hsw Hslot Hcan)
    as (f & k1 & sw' & U' & E1 & Hfb & HnU & HnF & Hk1 & HU & Hc1 & Hw1 & Hok' & Hfree').
  pose proof (cs_mappable _ _ _ _ _ _ _ Hcan) as (_ & _ & Hq0).
  assert (Hid1 : identity_path k1 page) by (by eapply (identity_path_changed (set_pages b k) k1 q page t)).
  assert (Hcr1 : k_cr3 k1 = k_cr3 k) by apply (ch_cr3 _ _ _ _ Hc1).
  assert (Hh1 : no_huge (k_cr3 k1) k1 page) by (rewrite Hcr1; by eapply changed_no_huge).
  assert (Hf1 : follow (k_mem k1) (k_cr3 k1) (path3 page) = Some t).
  { rewrite Hcr1. apply (ch_tables _ _ _ _ Hc1); [by apply path3_plain|done|done]. }
  set (e := Z.lor (4096 * f) 7). destruct (handler_entry f Hfb) as (He0 & He1 & He2).
  destruct (upd_leaf (k_cr3 k1) RECURSIVE_P4_INDEX (fun g => F g \/ g = f) k1 U' page t e Hk1 Hp Hf1) as (Hk2 & Hc2 & Hl2 & _).
  set (k2 := set_mem _ k1) in *. assert (Hcr2 : k_cr3 k2 = k_cr3 k1) by done.
  exists f, k2, sw', U'. split_and!; try done.
  - unfold page_fault_handler. cbn [negb]. rewrite (get_pte_raw_ok F k U _ page) by done. rewrite Hf.
    cbn [fmap option_fmap option_map outcome_bind]. rewrite He, Hsp, E1. cbn [outcome_bind].
    rewrite (set_pte_raw_ok _ k1 U' _ page t) by done. done.
  - rewrite (walk_of_leaf (fun g => F g \/ g = f) k2 U' page Hk2 Hp); rewrite Hcr2, Hl2; [|done].
    unfold e. by rewrite He1, He2.
  - rewrite <- Hw1. unfold frame_words. apply list_fmap_ext. intros i x _. simpl. unfold upd.
    rewrite (proj2 (Z.eqb_neq f t)); [done|]. intros ->. apply (ki_disjoint _ _ _ _ _ Hk1 t); [by right|].
    eapply (to_used _ _ _ _ (ki_tree _ _ _ _ _ Hk1) (path3 page)); [by apply path3_plain|done|done].
  - rewrite Hcr1 in Hc2. exact (changed_trans _ [_] [_] _ _ _ Hc1 Hc2).
Qed.

End SwapIn.

(** ** Properties *)

Section Properties.
Context {bf : Bitflags} {bl : BitflagsLaws bf} {FA PB : Type}.
Context {fs : FrameSource FA} {fl : FrameSourceLaws FA} {ps : PageSource PB}.
Context {D : Type} {bd : BlockDevice D} {bdl : BlockDeviceLaws D}.
Implicit Types (k : Kernel FA PB) (U F : Z -> Prop) (sw : SwapManager D).

(** What a successful [swap_out] has done. *)
Lemma swap_out_ok k sw v f w pte S1 :
  swap_ok sw -> mmu_walk (k_mem k) (k_cr3 k) (containing_address v) = Some (f, w) ->
  swap_out k (Some sw) v = Done (Ok pte, S1) ->
  exists slot sw1, S1 = Some sw1 /\ pte = encode_swap_pte slot /\ swap_ok sw1 /\ slot_used sw1 slot /\
    free_slots sw !! Z.to_nat slot = Some true /\ free_slots sw1 = <[Z.to_nat slot := false]> (free_slots sw) /\
    slot_words sw1 slot = frame_words k f /\ forall s, s <> slot -> slot_words sw1 s = slot_words sw s.
Proof.
  intros Hsw Hw. unfold swap_out. pose proof (alloc_slot_ok sw Hsw) as Ha.
  destruct (alloc_slot sw) as [[slot|] swa]; [|done]. destruct Ha as (Hswa & Hsl & Hfree & Hset & Hdev).
  rewrite (read_words_ok k v f w Hw). cbn [outcome_bind].
  destruct (swap_write swa slot (frame_words k f)) as [[[]|e] sw1] eqn:E; [|done]. intros [= <- <-].
  apply swap_write_ok in E as (Hd & Hf1 & Hu1 & Ht1 & Ho1); [|unfold frame_words; by rewrite length_fmap, length_seqZ].
  exists slot, sw1. pose proof (lookup_lt_Some _ _ _ Hfree). split_and!; try done.
  - destruct Hswa. split; [by rewrite Hf1, Ht1|by rewrite Hf1, Hu1|by rewrite Ht1].
  - split; [lia|]. rewrite Hf1, Hset. by apply list_lookup_insert_eq.
  - by rewrite Hf1.
  - intros s Hs. rewrite Ho1 by done. apply slot_words_eq. intros. by rewrite Hdev.
Qed.

(** A page that has been swapped out comes back, as long as the tables on the way to it
    are mapped at their physical addresses ([identity_path]), the page is not in a huge one,
    and the device, the allocators and the mapper can serve [swap_in] ([can_swap_in]).  When
    [swap_out] has stored a page and its entry has been replaced by the swap entry, the page
    is not translated; the page fault handler, called for any address of the page, then
    allocates a frame that nothing uses, reads the page back into it and maps it: the frame
    holds exactly the words of the page when it was swapped out, and the slot is free again.
    The kernel keeps such mappings for its own image only, and drops them before the first
    application starts: see [raw_access_needs_identity_map]. *)
Theorem swapped_page_restored F k U sw S1 f0 w pte a :
  let page := containing_address a in
  let v := addr_new_canonical (ops := virtual_ops) (Z.land a (U64_MAX - (PAGE_SIZE - 1))) in
  active_inv F k U -> swap_ok sw -> in_u64 a -> tree_page page -> no_huge (k_cr3 k) k page ->
  identity_path k page -> mmu_walk (k_mem k) (k_cr3 k) page = Some (f0, w) -> ~ U f0 ->
  swap_out k (Some sw) v = Done (Ok pte, S1) ->
  exists slot sw1 k1, S1 = Some sw1 /\ set_pte_raw k v pte = Done (true, k1) /\
    active_inv F k1 U /\ mmu_walk (k_mem k1) (k_cr3 k1) page = None /\
    forall q buf sw2 b, can_swap_in k1 sw1 slot q buf sw2 b ->
    exists f k2 sw3 U', page_fault_handler k1 (Some sw1) (Some (from_current k1)) false a = Done (true, Some sw3, k2) /\
      ~ U f /\ ~ F f /\ active_inv (fun g => F g \/ g = f) k2 U' /\
      mmu_walk (k_mem k2) (k_cr3 k2) page = Some (f, true) /\ frame_words k2 f = frame_words k f0 /\
      free_slots sw3 = free_slots sw /\ used_slots sw3 = used_slots sw.
Proof.
  intros page v Hk Hsw Ha Hp Hh Hid Hw Hnt Hout. pose proof (fault_address a Ha) as Hra. fold v page in Hra.
  assert (Hwv : mmu_walk (k_mem k) (k_cr3 k) (containing_address v) = Some (f0, w)) by (by rewrite (mmu_walk_ix4 _ _ _ page)).
  destruct (swap_out_ok k sw v f0 w pte S1 Hsw Hwv Hout) as (slot & sw1 & -> & -> & Hsw1 & Hu1 & Hfree & Hset & Hwords & _).
  destruct (swap_entry slot) as (_ & _ & Hnp & _).
  { destruct Hu1 as [? Hlt%lookup_lt_Some]. pose proof (so_total _ Hsw1). pose proof (so_max _ Hsw1).
    unfold MAX_SWAP_PAGES in *. lia. }
  destruct (walk_table k page f0 w Hh Hw) as (t & Hf & Hpr & Hfr).
  destruct (upd_leaf (k_cr3 k) RECURSIVE_P4_INDEX F k U page t (encode_swap_pte slot) Hk Hp Hf) as (Hk1 & Hc1 & Hl1 & _).
  set (k1 := set_mem _ k) in *. exists slot, sw1, k1.
  assert (Hid1 : identity_path k1 page) by (apply (identity_path_unmapped F k U); [done|done|done|by rewrite Hfr|done]).
  split_and!; try done.
  - by apply (set_pte_raw_ok F k U v page t).
  - rewrite (mmu_walk_leaf _ _ _ t); [|eapply (ch_tables _ _ _ _ Hc1); [|done|done]].
    + change (k_mem k1 t (p1_index page)) with (upd (k_mem k) t (p1_index page) (encode_swap_pte slot) t (p1_index page)).
      unfold upd. rewrite !Z.eqb_refl. cbn [andb]. by rewrite Hnp.
    + by apply path3_plain.
  - intros q buf sw2 b Hcan.
    destruct (handler_ok F k1 U sw1 slot q buf sw2 b page a) as (f & k2 & sw3 & U' & E & HnU & HnF & Hk2 & Hw2 & Hfw & _ & Hok3 & Hf3);
      try done; [by eapply changed_no_huge|].
    exists f, k2, sw3, U'. split_and!; try done; [by rewrite Hfw, Hwords| |].
    + rewrite Hf3, Hset, list_insert_insert_eq. by apply list_insert_id.
    + rewrite (so_used _ Hok3), (so_used _ Hsw), Hf3, Hset, list_insert_insert_eq. by rewrite list_insert_id.
Qed.

Lemma set_swap_device_ok (sw : SwapManager D) d : swap_ok sw -> swap_ok (set_swap_device d sw).
Proof. intros [? ? ?]. by split. Qed.

Lemma swap_write_keeps sw slot data : swap_ok sw -> swap_ok (snd (swap_write sw slot data)).
Proof. intros H. unfold swap_write. destruct (bd_write _ _ _) as [[|] d]; by apply set_swap_device_ok. Qed.

Lemma swap_read_keeps sw slot :
  swap_ok sw -> swap_ok (snd (swap_read sw slot)) /\ free_slots (snd (swap_read sw slot)) = free_slots sw.
Proof. intros H. unfold swap_read. destruct (bd_read _ _ _) as [[|] d]; split; done || by apply set_swap_device_ok. Qed.

(** The swap manager stays well-formed: the slot table keeps its size and the usage
    count is the number of slots in use.  This holds for a new manager and after every
    [swap_out], whatever the device answers, and after every [swap_in] on an entry that
    is not a swap entry or whose slot is in use. *)
Theorem swap_manager_well_formed k sw (d : D) mb mapper v pte :
  0 <= mb -> swap_ok sw -> (is_swap_pte pte = true -> slot_used sw (decode_swap_slot pte)) ->
  swap_ok (swap_new d mb) /\
  (forall r S1, swap_out k (Some sw) v = Done (r, S1) -> exists sw1, S1 = Some sw1 /\ swap_ok sw1) /\
  (forall r S1 k1, swap_in k (Some sw) mapper pte = Done (r, S1, k1) -> exists sw1, S1 = Some sw1 /\ swap_ok sw1).
Proof.
  intros Hmb Hsw Hpte. split; [by apply swap_new_ok|]. split.
  - intros r S1. unfold swap_out. pose proof (alloc_slot_ok sw Hsw) as Ha.
    destruct (alloc_slot sw) as [[slot|] swa]; [|intros [= <- <-]; destruct Ha as [-> _]; eauto].
    destruct Ha as (Hswa & _). destruct (read_words _ _ _) as [buf|]; [|done]. cbn [outcome_bind].
    pose proof (swap_write_keeps swa slot buf Hswa) as Hw.
    destruct (swap_write swa slot buf) as [[[]|e] sw1]; intros [= <- <-]; eauto.
  - intros r S1 k1. unfold swap_in. destruct (is_swap_pte pte); cbn [negb]; [|intros [= <- <- <-]; eauto].
    specialize (Hpte eq_refl). destruct (swap_read_keeps sw (decode_swap_slot pte) Hsw) as [Hr Hf].
    destruct (swap_read sw (decode_swap_slot pte)) as [[buf|e] sw1]; [|intros [= <- <- <-]; eauto]. simpl in Hr, Hf.
    destruct (free_slot_ok sw1 (decode_swap_slot pte) Hr) as (sw2 & E2 & Hsw2 & _).
    { destruct Hpte as [? ?]. split; [done|by rewrite Hf]. }
    destruct (fs_allocate_one _) as [[[fr|] a]|]; try done; cbn [outcome_bind]; [|intros [= <- <- <-]; eauto].
    destruct (ps_allocate _ 1) as [[[tp|] b]|]; try done; cbn [outcome_bind].
    2:{ destruct (drop_frames_k _ _); [|done]. intros [= <- <- <-]. eauto. }
    destruct mapper as [mp|]; [|destruct (drop_frames_k _ _); [|done]; intros [= <- <- <-]; eauto].
    destruct (map_allocated_pages_to _ _ _ _ _) as [[[mapped|e] k2]|]; try done; cbn [outcome_bind]; [|intros [= <- <- <-]; eauto].
    destruct (write_words _ _ _ _) as [k3|]; [|done]. cbn [outcome_bind]. rewrite E2. cbn [outcome_bind].
    intros [= <- <- <-]. eauto.
Qed.

(** Raw access and the mapper agree.  Where the tables on the way to a page are
    identity-mapped, [get_pte_raw] reads the lowest-level entry from which the mapper
    translates the page, and after [set_pte_raw] the mapper translates the page by the
    entry that was written and every other page as before. *)
Theorem raw_access_agrees_with_mapper F k U a page pte v :
  active_inv F k U -> identity_path k page -> tree_page page -> no_huge (k_cr3 k) k page ->
  raw_address a page -> get_pte_raw k a = Done (Some pte) ->
  translate_page k (from_current k) page = Done (if hw_present pte then Some (hw_frame pte) else None) /\
  exists k', set_pte_raw k a v = Done (true, k') /\ active_inv F k' U /\
    translate_page k' (from_current k') page = Done (if hw_present v then Some (hw_frame v) else None) /\
    others_kept (k_cr3 k) (mkRange page page) k k'.
Proof.
  intros Hk Hid Hp Hh Ha. rewrite (get_pte_raw_ok F k U a page) by done.
  destruct (follow (k_mem k) (k_cr3 k) (path3 page)) as [t|] eqn:Hf; [|done]. cbn. intros [= <-].
  assert (Hr : 0 <= RECURSIVE_P4_INDEX < 512) by done. split.
  - rewrite (translate_of_walk (k_cr3 k) RECURSIVE_P4_INDEX Hr (from_current k) eq_refl F k U) by done.
    by rewrite ix4_path3, (gwalk_leaf _ _ _ t).
  - destruct (upd_leaf (k_cr3 k) RECURSIVE_P4_INDEX F k U page t v Hk Hp Hf) as (Hk' & Hc & Hl & Hw).
    eexists. split; [by apply (set_pte_raw_ok F k U a page t)|]. split; [done|]. split.
    + rewrite (translate_of_walk (k_cr3 k) RECURSIVE_P4_INDEX Hr (from_current k) eq_refl F _ U); [by rewrite Hw|done|].
      by eapply changed_no_huge.
    + apply changed_others. by rewrite chunks_one.
Qed.

(** Where the root of the tables is not mapped at its physical address, the raw accesses
    fault, whatever the page; so does the page fault handler that goes through them. *)
Theorem raw_access_needs_identity_map k a v :
  mmu_walk (k_mem k) (k_cr3 k) (containing_address (start_address (ops := physical_ops) (k_cr3 k))) = None ->
  get_pte_raw k a = Panic /\ set_pte_raw k a v = Panic.
Proof. intros Hw. unfold get_pte_raw, set_pte_raw, raw_p1, load_entry. by rewrite Hw. Qed.

(** Swap entries are recognised and decoded.  For every slot a manager can have,
    the entry is a swap entry that decodes to the slot, the processor and the mapper
    take the page as not present, and the entry is not taken for an unused one. *)
Theorem swap_pte_roundtrip (slot : Z) :
  0 <= slot < MAX_SWAP_PAGES ->
  let pte := encode_swap_pte slot in
  is_swap_pte pte = true /\ decode_swap_slot pte = slot /\ hw_present pte = false /\
  pointed_frame pte = None /\ is_unused pte = false.
Proof.
  intros Hs pte. destruct (swap_entry slot) as (? & ? & Hp & Hn & _); [unfold MAX_SWAP_PAGES in Hs; lia|].
  fold pte in Hp, Hn. split_and!; try done.
  - unfold pointed_frame. change ARCH_VALID with (Z.shiftl 1 0). rewrite contains_bit, pte_flags_bit by done.
    unfold hw_present in Hp. by rewrite Hp.
  - by apply Z.eqb_neq.
Qed.

(** A slot is lost when the disk cannot be written.  [swap_out] returns the error
    without freeing the slot it has taken: one more slot counts as used and no entry
    refers to it. *)
Theorem failed_swap_out_leaks_slot k sw v f w e slot swa swb :
  swap_ok sw -> mmu_walk (k_mem k) (k_cr3 k) (containing_address v) = Some (f, w) ->
  alloc_slot sw = (Some slot, swa) -> swap_write swa slot (frame_words k f) = (Err e, swb) ->
  swap_out k (Some sw) v = Done (Err e, Some swb) /\ used_slots swb = used_slots sw + 1 /\ slot_used swb slot.
Proof.
  intros Hsw Hw Ha He. pose proof (alloc_slot_ok sw Hsw) as Hok. rewrite Ha in Hok.
  destruct Hok as (_ & Hsl & Hfree & Hset & _). split.
  { unfold swap_out. rewrite Ha, (read_words_ok k v f w Hw). cbn [outcome_bind]. by rewrite He. }
  pose proof (lookup_lt_Some _ _ _ Hfree).
  assert (free_slots swb = free_slots swa /\ used_slots swb = used_slots swa) as [Hf Hu].
  { unfold swap_write in He. destruct (bd_write _ _ _) as [[n|e'] d]; [done|]. by injection He as <- <-. }
  split.
  - rewrite Hu. unfold alloc_slot in Ha. destruct (take_slot _ _) as [[i l]|]; [|done]. by injection Ha as <- <-.
  - split; [lia|]. rewrite Hf, Hset. by apply list_lookup_insert_eq.
Qed.

End Properties.

(** ** Address spaces *)

Section AddressSpaces.
Context {bf : Bitflags} {bl : BitflagsLaws bf} {FA PB : Type}.
Context {fs : FrameSource FA} {fl : FrameSourceLaws FA} {ps : PageSource PB}.
Implicit Types (k : Kernel FA PB) (U F : Z -> Prop).

(** Copying the upper entries of the table [A], seen at [a], to the frame [n], seen at
    [v]. *)
Lemma copy_kernel_half_ok (c : nat) k (a A v n : Z) :
  (c <= 512)%nat -> A <> n ->
  (forall m, (forall g j, g <> n -> m g j = k_mem k g j) ->
     (exists w, mmu_walk m (k_cr3 k) (containing_address a) = Some (A, w)) /\
     mmu_walk m (k_cr3 k) (containing_address v) = Some (n, true)) ->
  exists m', copy_kernel_half c a v k = Done (set_mem m' k) /\
    (forall g j, g <> n -> m' g j = k_mem k g j) /\
    forall j, j < 512 -> m' n j = if 512 - Z.of_nat c <=? j then k_mem k A j else k_mem k n j.
Proof.
  intros Hc HA. revert k. induction c as [|c IH]; intros k Hw.
  { exists (k_mem k). split; [by destruct k|]. split; [done|]. intros j Hj. case_cmp; done || lia. }
  cbn [copy_kernel_half]. set (i := 512 - Z.of_nat (S c)). destruct (Hw (k_mem k) ltac:(done)) as [[w Ha] Hv].
  unfold load_entry. rewrite Ha. change ENTRIES_PER_PAGE_TABLE with 512.
  rewrite (proj2 (Z.leb_le 0 i)), (proj2 (Z.ltb_lt i 512)) by (unfold i; lia). cbn [andb outcome_bind].
  rewrite (store_entry_walk k v n) by (done || unfold i; lia). cbn [outcome_bind]. set (k1 := set_mem _ k).
  assert (Hk1 : forall g j, g <> n -> k_mem k1 g j = k_mem k g j).
  { intros g j Hg. simpl. unfold upd. by destruct (Z.eqb_spec g n). }
  destruct (IH ltac:(lia) k1) as (m' & E & Ho & Hm).
  { intros m Hm. apply Hw. intros g j Hg. by rewrite Hm, Hk1. }
  exists m'. split; [done|]. split; [intros g j Hg; by rewrite Ho, Hk1|].
  intros j Hj. rewrite Hm by done. rewrite Hk1 by done. simpl k_mem. unfold upd. rewrite Z.eqb_refl. cbn [andb].
  destruct (Z.eqb_spec j i) as [->|Hne]; unfold i in *; case_cmp; done || lia.
Qed.

(** Memory that holds no table is seen at its physical address, whatever it holds. *)
Lemma foreign_walk F k U n t m :
  active_inv F k U -> ~ U n -> identity k t -> (forall g j, g <> n -> m g j = k_mem k g j) ->
  mmu_walk m (k_cr3 k) (containing_address (4096 * t)) = Some (t, true).
Proof.
  intros Hk Hn Hid Hm. unfold containing_address. rewrite SIZE_4K_val, Z.mul_comm, Z.div_mul by lia.
  destruct (kinv_foreign (k_cr3 k) RECURSIVE_P4_INDEX F k U m Hk) as [Hk' Hc].
  { intros f j Hf. apply Hm. by intros ->. }
  apply (identity_walk F (set_mem m k) U t Hk'). eapply identity_changed; [exact Hc|apply not_elem_of_nil|done].
Qed.

(** The memory after [AddressSpace::new]. *)
Lemma address_space_memory F k U n :
  active_inv F k U -> ~ U n -> 0 <= n < 2 ^ 40 -> identity k n -> identity k (k_cr3 k) ->
  exists m', (forall X (x : X),
      (let* k1 := table_zero (n * PAGE_SIZE) k in
       let* k1 := copy_kernel_half 256 (start_address (ops := physical_ops) (k_cr3 k1)) (n * PAGE_SIZE) k1 in
       match addr_new (ops := physical_ops) (n * PAGE_SIZE) with
       | None => Done (Err "Invalid physical address", x, k1)
       | Some pa => Done (Ok (mkAddressSpace (containing_address pa)), x, k1)
       end) = Done (Ok (mkAddressSpace n), x, set_mem m' k)) /\
    (forall g j, g <> n -> m' g j = k_mem k g j) /\
    (forall j, 0 <= j < 512 -> m' n j = if 256 <=? j then k_mem k (k_cr3 k) j else 0).
Proof.
  intros Hk HnU Hn Hidn HidA. pose proof (active_root F k U Hk) as HR.
  assert (HAn : k_cr3 k <> n).
  { intros E. apply HnU. rewrite <- E. eapply tree_used_root. apply Hk. }
  change PAGE_SIZE with 4096. rewrite (Z.mul_comm n).
  destruct (zero_entries_walk 512 k (4096 * n) n) as (k1 & E1 & Hc1 & Hf1 & Hp1 & Hcb1 & Hoff & Hz & _); [lia| |].
  { intros m Hm. by apply (foreign_walk F k U n n). }
  assert (k1 = set_mem (k_mem k1) k) as Hk1.
  { unfold set_mem. rewrite <- Hc1, <- Hf1, <- Hp1, <- Hcb1. by destruct k1. }
  destruct (copy_kernel_half_ok 256 k1 (4096 * k_cr3 k) (k_cr3 k) (4096 * n) n) as (m' & E2 & Ho2 & Hm2); [lia|done| |].
  { intros m Hm. rewrite Hc1. assert (Hm0 : forall g j, g <> n -> m g j = k_mem k g j).
    { intros g j Hg. by rewrite Hm, Hoff. }
    split; [exists true|]; by apply (foreign_walk F k U n). }
  exists m'. split_and!.
  - intros X x. unfold table_zero. change (Z.to_nat ENTRIES_PER_PAGE_TABLE) with 512%nat. rewrite E1. cbn [outcome_bind].
    rewrite Hc1, physical_start, E2 by done. cbn [outcome_bind].
    unfold addr_new. rewrite physical_canonical by done. unfold containing_address.
    rewrite SIZE_4K_val, Z.mul_comm, Z.div_mul by lia. rewrite Hk1. done.
  - intros g j Hg. by rewrite Ho2, Hoff.
  - intros j Hj. rewrite Hm2 by lia. change (512 - Z.of_nat 256) with 256. rewrite Hoff by done.
    case_cmp; [done|]. apply Hz. lia.
Qed.

Lemma huge_aligned_agree m m' R page :
  huge_aligned R m page -> agree_along m m' R (path3 page) -> huge_aligned R m' page.
Proof.
  intros [H3 H2] Hag. unfold path3 in Hag.
  assert (Ha : forall q i l u, path3 page = q ++ i :: l -> follow m' R q = Some u -> follow m R q = Some u /\ m' u i = m u i).
  { intros q i l u E Hu. rewrite (follow_agree m) in Hu; [by split; [|apply (Hag q i l u)]|].
    intros q' j l' u' -> Hu'. apply (Hag q' j (l' ++ i :: l)); [|done]. change (path3 page = q' ++ j :: l' ++ i :: l).
    by rewrite E, <- app_assoc. }
  split; intros t Ht.
  - destruct (Ha [p4_index page] (p3_index page) [p2_index page] t eq_refl Ht) as [Hf ->]. by apply H3.
  - destruct (Ha [p4_index page; p3_index page] (p2_index page) [] t eq_refl Ht) as [Hf ->]. by apply H2.
Qed.

(** An address space made by [AddressSpace::new] inherits the recursive entry of
    the table it was made from.  After [switch_to] the processor translates by the new
    table, in which nothing below the kernel half is mapped, but the mapper still reads
    (and edits) the old table: for such a page it reports the old translation. *)
Theorem address_space_keeps_old_root {X} F k U n (allocate_frame : X -> option Z * X) (x x' : X) page :
  active_inv F k U -> ~ U n -> 0 <= n < 2 ^ 40 -> identity k n -> identity k (k_cr3 k) ->
  allocate_frame x = (Some n, x') -> p4_index page < 256 -> huge_aligned (k_cr3 k) (k_mem k) page ->
  exists k', address_space_new allocate_frame x k = Done (Ok (mkAddressSpace n), x', k') /\
    let k2 := switch_to (mkAddressSpace n) k' in
    mmu_walk (k_mem k2) (k_cr3 k2) page = None /\
    translate_page k2 (from_current k2) page = Done (fst <$> mmu_walk (k_mem k) (k_cr3 k) page).
Proof.
  intros Hk HnU Hn Hidn HidA Hal Hlow Hha. pose proof (ki_tree _ _ _ _ _ Hk) as Ht.
  assert (HAn : k_cr3 k <> n) by (intros E; apply HnU; rewrite <- E; by eapply tree_used_root).
  destruct (address_space_memory F k U n Hk HnU Hn Hidn HidA) as (m' & E & Hoff & Hnew).
  exists (set_mem m' k). split; [unfold address_space_new; rewrite Hal; exact (E X x')|].
  pose proof (page_index_bounds page) as (B4 & _). change ENTRIES_PER_PAGE_TABLE with 512 in *.
  assert (Hp : tree_page page).
  { unfold tree_page, reserved_slot. change UPCOMING_PAGE_TABLE_RECURSIVE_P4_INDEX with 508.
    change RECURSIVE_P4_INDEX with 510. by rewrite !(proj2 (Z.eqb_neq _ _)) by lia. }
  assert (Hag : forall l, plain l -> (length l <= 4)%nat -> agree_along (k_mem k) m' (k_cr3 k) l).
  { intros l Pl Ll. eapply tree_agree; [done| |done|done]. intros f j Hf. apply Hoff. by intros ->. }
  assert (H4 : m' n (p4_index page) = 0) by (rewrite Hnew by lia; case_cmp; done || lia).
  intros k2. simpl. split; [unfold mmu_walk; by rewrite H4|].
  rewrite mmu_gwalk, <- (gwalk_agree (k_mem k) m') by (apply Hag; [by apply tree_page_plain|done]).
  apply (translate_gwalk (k_cr3 k) RECURSIVE_P4_INDEX ltac:(done)); [|done|].
  - destruct (ki_rec _ _ _ _ _ Hk) as [RA RR RAw RRw].
    assert (HA : m' (k_cr3 k) RECURSIVE_P4_INDEX = k_mem k (k_cr3 k) RECURSIVE_P4_INDEX) by (by apply Hoff).
    assert (HN : m' n RECURSIVE_P4_INDEX = k_mem k (k_cr3 k) RECURSIVE_P4_INDEX) by (by rewrite Hnew by done).
    change (recursive m' n (k_cr3 k) RECURSIVE_P4_INDEX).
    split; [| |by rewrite HN|by rewrite HA]; unfold d_next; rewrite ?HA, ?HN; exact RR.
  - apply (huge_aligned_agree (k_mem k)); [done|]. apply Hag; [by apply path3_plain|simpl; lia].
Qed.

End AddressSpaces.
