(* ===== verification/MapperDemo.v ===== *)
(** * A concrete kernel

    A kernel whose active page table, frame 2, has nothing but its recursive entry, on
    the list-backed allocators: the hypotheses of the mapper's theorems hold for it.
    The runs at the end are the failures of the mapping functions that leave entries
    behind. *)

From S2P Require Import Prelude MemStructs RBTree FrameAlloc FrameAllocLemmas FrameAllocSafety FrameAllocSpec.
From S2P Require Import PageAlloc PteFlags PageTable PageWalk PageTree PageMap PageUnmap MapperSpec NewTable Sources MappedAccess.

#[local] Existing Instance x86_arch.

Module MapperDemo.

#[local] Existing Instance PteFlagsDemo.bits.
#[local] Existing Instance PteFlagsDemo.bits_laws.
#[local] Existing Instance Demo.fl.
#[local] Existing Instance Demo.rl.
Definition cl : RBTreeOps Chunk := ListTree.list_ops.
#[local] Existing Instance cl.
#[local] Instance fl_laws : RBTreeLaws Frames Demo.fl := ListTree.list_laws.
#[local] Instance rl_laws : RBTreeLaws PhysicalMemoryRegion Demo.rl := ListTree.list_laws.

(** Frames 2 to 100 are general memory; those from 11 on are free and frame 10 is held
    by the caller. *)
Definition frames : FrameAllocator :=
  mkAllocator (TreeInner (ops := Demo.fl) [mkFrames TyFree (mkRange 11 100)]) (TreeInner (ops := Demo.fl) [])
    (TreeInner (ops := Demo.rl) [mkRegion (mkRange 2 100) TyFree]) (TreeInner (ops := Demo.rl) []).

Definition pages : PageAllocator :=
  mkPageAllocator (Some 0x2000) (TreeInner (ops := cl) [mkChunk (mkRange (MAX_PAGE - 99) MAX_PAGE)]).

Definition root_memory : table_memory :=
  upd (fun _ _ => 0) 2 RECURSIVE_P4_INDEX (set_entry 2 table_flags).

Definition kernel : Kernel FrameAllocator PageAllocator := mkKernel root_memory 2 frames pages true.

Lemma lists_frames : lists_ok frames.
Proof.
  split; simpl; try apply Demo.sorted_single; try apply sorted_nil; try (repeat constructor; vm_compute; congruence);
    (split; [repeat constructor; vm_compute; congruence|];
     intros f; simpl; unfold contains; simpl; case_cmp; simpl; lia).
Qed.

Lemma inv_frames : inv (mkConfig frames [] []).
Proof.
  split; simpl; [apply lists_frames|constructor|constructor| |].
  - intros f. unfold all_chunks, occ, cin, contains; simpl. case_cmp; simpl; lia.
  - intros f. unfold all_chunks, occ, cin, contains; simpl. intros Hf.
    left. eexists. split; [by left|]. unfold in_range; simpl. revert Hf. case_cmp; simpl; lia.
Qed.

Lemma frames_ready (U : Z -> Prop) : (forall f, U f -> 2 <= f <= 10) -> frames_inv frames U.
Proof.
  intros HU. split; [apply inv_frames|done| |].
  - intros f. unfold occ, cin, contains; simpl. case_cmp; simpl; lia.
  - intros f Hf. specialize (HU f Hf). split; [lia|]. split.
    + unfold occ, cin, contains; simpl. case_cmp; simpl; lia.
    + left. eexists. split; [by left|]. unfold in_range; simpl. lia.
Qed.

Lemma frames_left : frames_avail frames 90.
Proof.
  exists (seqZ 11 90). split_and!; [apply NoDup_seqZ|apply length_seqZ|].
  apply Forall_seqZ. intros f Hf. unfold occ, cin, contains; simpl. case_cmp; simpl; lia.
Qed.

Lemma root_empty (i : Z) : 0 <= i < 512 -> reserved_slot i = false -> root_memory 2 i = 0.
Proof.
  intros Hi Hs. unfold root_memory, upd. destruct (Z.eqb_spec i RECURSIVE_P4_INDEX) as [->|]; done.
Qed.

Lemma kernel_inv (F : Z -> Prop) : (forall f, F f -> f = 10) -> active_inv F kernel (fun f => f = 2).
Proof.
  intros HF. split; [done|by split|by apply empty_tree, root_empty| |].
  - apply frames_ready. intros f [->|Hf%HF]; lia.
  - intros f Hf ->. by apply HF in Hf.
Qed.

(** Three pages to map. *)
Definition ap : AllocatedPages := mkPages (mkRange 0x1234 0x1236).

Lemma ap_mappable : range_mappable 2 kernel (ap_pages ap).
Proof.
  intros page Hp. apply (empty_mappable kernel 2 page root_empty).
  unfold in_range in Hp. simpl in Hp.
  assert (page = 0x1234 \/ page = 0x1235 \/ page = 0x1236) as [-> | [-> | ->]] by lia; done.
Qed.

Lemma ap_small : small_range (ap_pages ap).
Proof. split; vm_compute; repeat split; congruence. Qed.

Lemma flags_known : flags_in X86_all table_flags.
Proof. reflexivity. Qed.

(** Three frames held by the caller, outside of the memory the allocator knows. *)
Definition device : Frames := mkFrames TyReserved (mkRange 0x500 0x502).

Lemma kernel_left (n : nat) : (n <= 90)%nat -> fs_avail (k_frames kernel) n.
Proof.
  intros Hn. pose proof frames_left as H. change (frames_avail frames n).
  remember 90%nat as t. clear Heqt. induction Hn as [|t Hn IH]; [done|].
  apply IH. exact (fs_avail_mono (A := FrameAllocator) frames t H).
Qed.

Lemma kernel_slot : 0 <= RECURSIVE_P4_INDEX < 512.
Proof. done. Qed.

Definition kernel_mapper : Mapper := from_current kernel.

(** The three pages mapped to frames of their own. *)
Lemma mapped_kernel :
  exists (k : Kernel FrameAllocator PageAllocator) U frs, kinv 2 RECURSIVE_P4_INDEX (fun g => False \/ g ∈ frs) k U /\ k_callback k = true /\
    range_mapped 2 k (mapped_flags table_flags true) (ap_pages ap) frs /\
    NoDup frs /\ Forall (fun f => 0 <= f < 2 ^ 40) frs.
Proof.
  destruct (map_allocated_pages_ok 2 RECURSIVE_P4_INDEX kernel_slot kernel_mapper eq_refl (fun _ => False)
              kernel (fun f => f = 2) ap table_flags 0) as (k & U & frs & _ & Hk & _ & _ & Hc & Hrm & Hnd & Hfrs);
    [by apply kernel_inv|apply ap_small|apply ap_mappable|apply flags_known|apply kernel_left; vm_compute; lia|].
  exists k, U, frs. split_and!; [done|by rewrite (ch_callback _ _ _ _ Hc)|done|done|].
  eapply Forall_impl; [exact Hfrs|]. by intros f (_ & _ & ?).
Qed.

(** ** Witnesses *)

Lemma translate_page_is_page_walk_witness : translate_page kernel kernel_mapper 0x1234 = Done None.
Proof.
  rewrite (translate_page_is_page_walk 2 RECURSIVE_P4_INDEX kernel_slot kernel_mapper eq_refl kernel 0x1234).
  - reflexivity.
  - by split.
  - split; intros t Ht; discriminate Ht.
Defined.

Lemma mapping_translates_to_frames_witness :
  exists k', internal_map_to kernel kernel_mapper ap false device table_flags =
      Done (Ok (mkMapped 2 ap (mapped_flags table_flags false), device), k') /\
    translate_page k' kernel_mapper 0x1235 = Done (Some 0x501) /\
    x86_is_exclusive (pte_flags (leaf 2 k' 0x1235)) = false.
Proof.
  destruct (mapping_translates_to_frames 2 RECURSIVE_P4_INDEX kernel_slot kernel_mapper eq_refl (fun _ => False)
              kernel (fun f => f = 2) ap false device table_flags) as (k' & U' & E & _ & _ & Ht & _).
  - by apply kernel_inv.
  - apply ap_small.
  - vm_compute; repeat split; congruence.
  - reflexivity.
  - reflexivity.
  - apply ap_mappable.
  - apply flags_known.
  - apply kernel_left. vm_compute. lia.
  - exists k'. split; [exact E|]. destruct (Ht 0x1235) as (T & _ & Hx & _); [vm_compute; split; congruence|].
    split; [exact T | exact Hx].
Defined.


Lemma unmap_releases_pages_and_frames_witness :
  exists (k k' : Kernel FrameAllocator PageAllocator) fr, let mapped := mkMapped 2 ap (mapped_flags table_flags true) in
    unmap k mapped kernel_mapper = Done (Ok fr, k') /\
    translate_page k' kernel_mapper 0x1235 = Done None /\
    exists f, translate_page k kernel_mapper 0x1235 = Done (Some f) /\ (in_opt f fr \/ fs_free (k_frames k') f).
Proof.
  destruct mapped_kernel as (k & U & frs & Hk & Hcb & Hrm & Hnd & Hfrs). exists k.
  destruct (unmap_releases_pages_and_frames 2 RECURSIVE_P4_INDEX kernel_slot kernel_mapper eq_refl
              (fun g => False \/ g ∈ frs) k U (mkMapped 2 ap (mapped_flags table_flags true)) frs)
    as (k' & F' & fr & E & _ & Ht & _ & _ & _ & Hfree).
  - exact Hk.
  - exact Hcb.
  - apply ap_small.
  - reflexivity.
  - reflexivity.
  - reflexivity.
  - reflexivity.
  - exact Hrm.
  - split; [exact Hnd|]. rewrite Forall_forall in Hfrs |- *. intros f Hf. split; [by right|]. by apply Hfrs.
  - exists k', fr. split; [exact E|]. split; [apply Ht; vm_compute; split; congruence|].
    pose proof Hrm as (_ & _ & Hall). pose proof (Forall2_lookup_l _ _ _ 1%nat 0x1235 Hall eq_refl) as (f & Hf & _).
    exists f. split; [by eapply (range_mapped_translate 2 RECURSIVE_P4_INDEX kernel_slot kernel_mapper eq_refl _ k U _ _ _ _ _ 1%nat Hk Hrm)|].
    destruct (decide (in_opt f fr)); [by left|right]. apply Hfree. right. split; [by eapply list_elem_of_lookup_2|done].
Defined.

Lemma remap_keeps_translation_witness :
  exists (k k' : Kernel FrameAllocator PageAllocator) flags', let mapped := mkMapped 2 ap (mapped_flags table_flags true) in
    remap k mapped kernel_mapper x86_new = Done (Ok tt, mkMapped 2 ap flags', k') /\
    x86_is_writable flags' = false /\ x86_is_exclusive flags' = true.
Proof.
  destruct mapped_kernel as (k & U & frs & Hk & Hcb & Hrm & Hnd & Hfrs). exists k.
  destruct (remap_keeps_translation 2 RECURSIVE_P4_INDEX kernel_slot kernel_mapper eq_refl
              (fun g => False \/ g ∈ frs) k U (mkMapped 2 ap (mapped_flags table_flags true)) x86_new frs)
    as (k' & flags' & E & Ef & _).
  - exact Hk.
  - apply ap_small.
  - reflexivity.
  - reflexivity.
  - reflexivity.
  - exact Hrm.
  - exact Hfrs.
  - exists k', flags'. split_and!; [exact E|by rewrite Ef|by rewrite Ef].
Defined.

Lemma map_then_drop_restores_witness :
  exists mapped k1 k2, map_allocated_pages kernel kernel_mapper ap table_flags = Done (Ok mapped, k1) /\
    drop_mapped k1 mapped = Done k2 /\ translate_page k2 (from_current k2) 0x1235 = Done None.
Proof.
  destruct (map_then_drop_restores (fun _ => False) kernel (fun f => f = 2) ap table_flags)
    as (mapped & k1 & k2 & U' & frs & E1 & _ & E2 & _ & _ & Ht & _).
  - by apply kernel_inv.
  - reflexivity.
  - apply ap_small.
  - apply ap_mappable.
  - apply flags_known.
  - apply kernel_left. vm_compute. lia.
  - exists mapped, k1, k2. split_and!; [exact E1|exact E2|]. apply Ht. vm_compute. split; congruence.
Defined.

Lemma mapped_split_merge_witness :
  exists a b, mapped_split (mkMapped 2 ap 3) 0x1235 = Ok (a, b) /\ mapped_merge a b = Ok (mkMapped 2 ap 3).
Proof.
  apply (mapped_split_merge (mkMapped 2 ap 3) (mkMapped 2 ap 3) 0x1235); vm_compute; repeat split; congruence.
Defined.

(** The active page table, and the frame of a new one. *)
Definition current_table : PageTableObj := mkPageTable kernel_mapper (mkFrames TyFree (mkRange 2 2)).
Definition new_frame : Frames := mkFrames TyFree (mkRange 10 10).

Lemma new_table_is_empty_witness :
  exists ty k', new_table 1 kernel current_table new_frame (Some (mkPages (mkRange 0x1234 0x1234))) =
      Done (Ok (mkPageTable (with_p4_frame 10) (mkFrames ty (mkRange 10 10))), k') /\ k_mem k' 10 0 = 0.
Proof.
  destruct (new_table_is_empty 0 (fun f => f = 10) kernel (fun f => f = 2) current_table new_frame 0x1234 10)
    as (ty & k' & U' & E & Hm & _).
  - by apply kernel_inv.
  - reflexivity.
  - reflexivity.
  - vm_compute. split; congruence.
  - apply ap_mappable. vm_compute. split; congruence.
  - reflexivity.
  - reflexivity.
  - lia.
  - apply kernel_left. lia.
  - exists ty, k'. split; [exact E|]. apply (Hm 0). lia.
Defined.

(** A run that returns a result which passes a test; only the verdict is evaluated. *)
Definition passes {A E K} (o : outcome (result A E * K)) (test : A -> K -> bool) : bool :=
  match o with Done (Ok a, k) => test a k | _ => false end.

Definition fails {A E K} (o : outcome (result A E * K)) (test : E -> K -> bool) : bool :=
  match o with Done (Err e, k) => test e k | _ => false end.

Lemma passes_elim {A E K} (o : outcome (result A E * K)) test :
  passes o test = true -> exists a k, o = Done (Ok a, k) /\ test a k = true.
Proof. unfold passes. destruct o as [[[a|e] k]|]; try done. eauto. Qed.

Lemma fails_elim {A E K} (o : outcome (result A E * K)) test :
  fails o test = true -> exists e k, o = Done (Err e, k) /\ test e k = true.
Proof. unfold fails. destruct o as [[[a|e] k]|]; try done. eauto. Qed.

(** The result of [PageTable::with] without the other table. *)
Definition with_result {R K} (o : outcome (result R string * PageTableObj * K)) : outcome (result R string * K) :=
  let* (r, k) := o in Done (r.1, k).

Lemma with_result_elim {R K} (o : outcome (result R string * PageTableObj * K)) r k :
  with_result o = Done (r, k) -> exists pt, o = Done (r, pt, k).
Proof. destruct o as [[[r' pt] k']|]; [|done]. simpl. intros [= <- <-]. eauto. Qed.

Definition translates (k : Kernel FrameAllocator PageAllocator) (page f : Z) : bool :=
  match translate_page k kernel_mapper page with Done (Some g) => g =? f | _ => false end.

Lemma translates_elim k page f : translates k page f = true -> translate_page k kernel_mapper page = Done (Some f).
Proof.
  unfold translates. destruct (translate_page k kernel_mapper page) as [[g|]|]; try done.
  by intros ->%Z.eqb_eq.
Qed.

(** ** Where the code departs from its comments *)

(** [PageTable::with] does not clear the temporary recursive entry of the other
    table.  Both clearing statements go through the constant address of the active
    table, so after a [with] whose closure does nothing slot 508 of the other table
    still maps that table itself, although the comment says that the entries of both
    tables are cleared. *)
Theorem with_leaves_upcoming_entry :
  exists pt k1 pt' k2,
    new_table 5 kernel current_table new_frame None = Done (Ok pt, k1) /\
    page_table_with 5 k1 current_table pt (fun _ _ k => Done (Ok tt, k)) = Done (Ok tt, pt', k2) /\
    k_mem k1 10 UPCOMING_PAGE_TABLE_RECURSIVE_P4_INDEX = 0 /\
    k_mem k2 2 UPCOMING_PAGE_TABLE_RECURSIVE_P4_INDEX = 0 /\
    k_mem k2 10 UPCOMING_PAGE_TABLE_RECURSIVE_P4_INDEX = set_entry 10 table_flags.
Proof.
  destruct (passes_elim (new_table 5 kernel current_table new_frame None) (fun pt k1 =>
    (k_mem k1 10 UPCOMING_PAGE_TABLE_RECURSIVE_P4_INDEX =? 0) &&
    passes (with_result (page_table_with 5 k1 current_table pt (fun _ _ k => Done (Ok tt, k)))) (fun _ k2 =>
      (k_mem k2 2 UPCOMING_PAGE_TABLE_RECURSIVE_P4_INDEX =? 0) &&
      (k_mem k2 10 UPCOMING_PAGE_TABLE_RECURSIVE_P4_INDEX =? set_entry 10 table_flags))))
    as (pt & k1 & E1 & H); [vm_compute; reflexivity|].
  apply andb_prop in H as [H0%Z.eqb_eq H]. apply passes_elim in H as ([] & k2 & E2 & H).
  apply with_result_elim in E2 as (pt' & E2).
  apply andb_prop in H as [H1%Z.eqb_eq H2%Z.eqb_eq]. exists pt, k1, pt', k2. split_and!; assumption.
Qed.

(** Page 0x1236 is already mapped, to a device. *)
Definition busy : outcome (result MappedPages string * Kernel FrameAllocator PageAllocator) :=
  map_to_non_exclusive kernel kernel_mapper (mkPages (mkRange 0x1236 0x1236))
    (mkFrames TyReserved (mkRange 0x500 0x500)) table_flags.

(** A mapping that fails halfway leaves the entries it has written.  When the third
    of three pages turns out to be in use, [map_allocated_pages_to] returns the error
    and drops its frames, yet the first page still maps the first of them, which is free
    again in the allocator; [map_allocated_pages] likewise drops the pages while the
    first of them stays mapped. *)
Theorem failed_mapping_leaves_entries :
  (exists r k fr st e k' f,
     busy = Done (Ok r, k) /\ allocate_frames_at None 3 (k_frames k) = Done (Ok fr, st) /\
     map_allocated_pages_to (set_frames st k) kernel_mapper ap fr table_flags = Done (Err e, k') /\
     translate_page k' kernel_mapper 0x1234 = Done (Some f) /\ occ f (sa_iter (free_general (k_frames k'))) = 1) /\
  (exists r k e k' f,
     busy = Done (Ok r, k) /\ map_allocated_pages k kernel_mapper ap table_flags = Done (Err e, k') /\
     translate_page k' kernel_mapper 0x1234 = Done (Some f) /\
     mkChunk (ap_pages ap) ∈ sa_iter (free_page_list (k_pages k'))).
Proof.
  split.
  - destruct (passes_elim busy (fun _ k =>
      passes (allocate_frames_at None 3 (k_frames k)) (fun fr st =>
      fails (map_allocated_pages_to (set_frames st k) kernel_mapper ap fr table_flags) (fun _ k' =>
        translates k' 0x1234 14 && (occ 14 (sa_iter (free_general (k_frames k'))) =? 1)))))
      as (r & k & E & H); [vm_compute; reflexivity|].
    apply passes_elim in H as (fr & st & E1 & H). apply fails_elim in H as (e & k' & E2 & H).
    apply andb_prop in H as [Ht%translates_elim Ho%Z.eqb_eq]. exists r, k, fr, st, e, k', 14. split_and!; assumption.
  - destruct (passes_elim busy (fun _ k =>
      fails (map_allocated_pages k kernel_mapper ap table_flags) (fun _ k' =>
        translates k' 0x1234 14 && bool_decide (mkChunk (ap_pages ap) ∈ sa_iter (free_page_list (k_pages k'))))))
      as (r & k & E & H); [vm_compute; reflexivity|].
    apply fails_elim in H as (e & k' & E2 & H).
    apply andb_prop in H as [Ht%translates_elim Ho%bool_decide_eq_true]. exists r, k, e, k', 14. split_and!; assumption.
Qed.

End MapperDemo.
