(* ===== verification/SwapDemo.v ===== *)
(** * A kernel with an identity mapping

    The witnesses for SwapSpec.v: pages 0 to 511 are identity-mapped, page 0x300 maps
    frame 10, and the disk is a function from word addresses to words. *)

From S2P Require Import Prelude MemStructs RBTree FrameAlloc FrameAllocLemmas FrameAllocSafety FrameAllocSpec.
From S2P Require Import PageAlloc PteFlags PageTable PageWalk PageTree PageMap PageUnmap MapperSpec NewTable Sources Swap SwapSpec MapperDemo.

#[local] Existing Instance x86_arch.
#[local] Existing Instance PteFlagsDemo.bits.
#[local] Existing Instance PteFlagsDemo.bits_laws.
#[local] Existing Instance Demo.fl.
#[local] Existing Instance Demo.rl.
#[local] Existing Instance MapperDemo.cl.
#[local] Existing Instance MapperDemo.fl_laws.
#[local] Existing Instance MapperDemo.rl_laws.

Module SwapDemo.

(** ** Page tables *)

(** An entry that is present and writable. *)
Definition entry (f : Z) : Z := 4096 * f + 3.

(** The root 2, the tables 3 and 4, and the P1 tables 5 (identity) and 6; frame 10
    holds data. *)
Definition memory : table_memory := fun f i =>
  if f =? 2 then if i =? 0 then entry 3 else if i =? 510 then entry 2 else 0
  else if f =? 3 then if i =? 0 then entry 4 else 0
  else if f =? 4 then if i =? 0 then entry 5 else if i =? 1 then entry 6 else 0
  else if f =? 5 then if (0 <=? i) && (i <? 512) then entry i else 0
  else if f =? 6 then if i =? 0x100 then entry 10 else 0
  else if f =? 10 then 7 * i + 1
  else 0.

Definition kernel : Kernel FrameAllocator PageAllocator := mkKernel memory 2 MapperDemo.frames MapperDemo.pages true.

Lemma next_root i t : plain [i] -> d_next memory 2 i = Some t -> i = 0 /\ t = 3.
Proof.
  intros [_ Hs]. unfold d_next, memory. simpl. destruct (Z.eqb_spec i 0) as [->|]; [by intros [= <-]|].
  destruct (Z.eqb_spec i 510) as [->|]; [done|done].
Qed.

Lemma next_three i t : d_next memory 3 i = Some t -> i = 0 /\ t = 4.
Proof. unfold d_next, memory. simpl. destruct (Z.eqb_spec i 0) as [->|]; [by intros [= <-]|done]. Qed.

Lemma next_four i t : d_next memory 4 i = Some t -> (i = 0 /\ t = 5) \/ (i = 1 /\ t = 6).
Proof.
  unfold d_next, memory. simpl. destruct (Z.eqb_spec i 0) as [->|]; [intros [= <-]; by left|].
  destruct (Z.eqb_spec i 1) as [->|]; [intros [= <-]; by right|done].
Qed.

Definition tables : list (list Z * Z) := [([], 2); ([0], 3); ([0; 0], 4); ([0; 0; 0], 5); ([0; 0; 1], 6)].

Lemma follow_tables p t : plain p -> (length p <= 3)%nat -> follow memory 2 p = Some t -> (p, t) ∈ tables.
Proof.
  destruct p as [|i p]; [intros _ _ [= <-]; left|]. intros Hp Hl. cbn [follow].
  destruct (d_next memory 2 i) as [t3|] eqn:E; [|done]. apply next_root in E as [-> ->];
    [|by apply (plain_app_l [i] p)].
  destruct p as [|j p]; [intros [= <-]; right; left|]. cbn [follow].
  destruct (d_next memory 3 j) as [t2|] eqn:E; [|done]. apply next_three in E as [-> ->].
  destruct p as [|l p]; [intros [= <-]; do 2 right; left|]. cbn [follow].
  destruct (d_next memory 4 l) as [t1|] eqn:E; [|done]. simpl in Hl.
  destruct p; [|simpl in Hl; lia]. intros [= <-]. apply next_four in E as [[-> ->]|[-> ->]].
  - do 3 right. left.
  - do 4 right. left.
Qed.

Lemma tree : tree_ok memory 2 2 (fun f => 2 <= f <= 6).
Proof.
  split; [| | | |lia].
  - intros p q t Pp Pq Lp Lq Fp%follow_tables Fq%follow_tables; try done. unfold tables in *.
    repeat (apply elem_of_cons in Fp as [Fp|Fp]); try (by apply elem_of_nil in Fp); injection Fp as -> ->;
    repeat (apply elem_of_cons in Fq as [Fq|Fq]); try (by apply elem_of_nil in Fq); by injection Fq as ->.
  - intros p t Pp Lp Fp%follow_tables; try done.
    repeat (apply elem_of_cons in Fp as [Fp|Fp]); try (by apply elem_of_nil in Fp); injection Fp as -> ->; lia.
  - intros p t Pp Lp Fp%follow_tables; try done.
    repeat (apply elem_of_cons in Fp as [Fp|Fp]); try (by apply elem_of_nil in Fp); injection Fp as -> ->; reflexivity.
  - intros p t Pp Lp Hn Fp%follow_tables; try done.
    repeat (apply elem_of_cons in Fp as [Fp|Fp]); try (by apply elem_of_nil in Fp); injection Fp as -> ->; done || lia.
Qed.

Lemma identity_kernel_inv (F : Z -> Prop) : (forall f, F f -> f = 10) -> active_inv F kernel (fun f => 2 <= f <= 6).
Proof.
  intros HF. split; [done|by split|apply tree| |].
  - apply MapperDemo.frames_ready. intros f [Hf|Hf%HF]; lia.
  - intros f Hf%HF. lia.
Qed.

Lemma identity_low t : 2 <= t <= 10 -> identity kernel t.
Proof.
  intros Ht. assert (t = 2 \/ t = 3 \/ t = 4 \/ t = 5 \/ t = 6 \/ t = 7 \/ t = 8 \/ t = 9 \/ t = 10) as Hc by lia.
  by repeat destruct Hc as [->|Hc]; [..|subst t]; repeat split.
Qed.

Lemma path_identity : identity_path kernel 0x300.
Proof.
  intros q l t E Ht. apply identity_low. assert (tree_page 0x300) as Hp by done. pose proof (path3_plain _ Hp) as P3.
  rewrite E in P3. pose proof (f_equal length E) as El. rewrite length_app in El. simpl in El.
  pose proof (to_used _ _ _ _ tree q t (plain_app_l _ _ P3) ltac:(lia) Ht). simpl in *. lia.
Qed.

(** ** The disk *)

Definition disk : Type := Z -> Z.

Definition disk_write (d : disk) (data : list Z) (s : Z) : disk := fun w =>
  if (64 * s <=? w) && (w <? 64 * s + Z.of_nat (length data)) then nth (Z.to_nat (w - 64 * s)) data 0 else d w.

Definition disk_read (d : disk) (len : nat) (s : Z) : list Z := (fun i => d (64 * s + i)) <$> seqZ 0 (Z.of_nat len).

Definition working : BlockDevice disk := {|
  bd_write d data s := (Ok 8, disk_write d data s);
  bd_read d len s := (Ok (disk_read d len s), d) |}.

Definition broken : BlockDevice disk := {|
  bd_write d data s := (Err "timed out", d);
  bd_read d len s := (Err "timed out", d) |}.

Definition working_laws : BlockDeviceLaws disk (bd := working).
Proof.
  refine {| bd_word (d : disk) w := d w |}.
  - by intros d data s n d' [= <- <-].
  - by intros d len s buf d' [= <- <-].
Defined.

Definition sw : SwapManager disk := swap_new (fun _ => 0) 1.

Lemma sw_fine : swap_ok sw.
Proof. apply swap_new_ok. lia. Qed.

(** ** Witnesses *)

(** An address in page 0x300. *)
Definition address : Z := 0x300123.
Definition v : Z := addr_new_canonical (ops := virtual_ops) (Z.land address (U64_MAX - (PAGE_SIZE - 1))).

(** The page allocator's next page. *)
Definition spare : Z := MAX_PAGE - 99.

(** The kernel with another entry for page 0x300. *)
Definition kernel_with (e : Z) : Kernel FrameAllocator PageAllocator := set_mem (upd memory 6 0x100 e) kernel.

Lemma page_no_huge : no_huge (k_cr3 kernel) kernel 0x300.
Proof. by repeat split. Qed.

Lemma set_entry_kernel e : set_pte_raw kernel v e = Done (true, kernel_with e).
Proof. reflexivity. Qed.

Lemma spare_page (e : Z) (sw1 sw2 : SwapManager disk) slot buf :
  swap_read (bd := working) sw1 slot = (Ok buf, sw2) ->
  exists b, can_swap_in (bd := working) (kernel_with e) sw1 slot spare buf sw2 b.
Proof.
  intros Hr. eexists. split; [exact Hr|vm_compute; reflexivity| | |].
  - vm_compute. split; congruence.
  - by repeat split.
  - apply MapperDemo.kernel_left. lia.
Qed.

Lemma swapped_page_restored_witness :
  exists pte S1 k1 sw1 sw3 k2 f,
    swap_out (bd := working) kernel (Some sw) v = Done (Ok pte, S1) /\ set_pte_raw kernel v pte = Done (true, k1) /\
    page_fault_handler (bd := working) k1 (Some sw1) (Some (from_current k1)) false address = Done (true, Some sw3, k2) /\
    mmu_walk (k_mem k2) (k_cr3 k2) 0x300 = Some (f, true) /\ frame_words k2 f = frame_words kernel 10.
Proof.
  destruct (MapperDemo.passes_elim (swap_out (bd := working) kernel (Some sw) v) (fun _ _ => true)) as (pte & S1 & E & _);
    [vm_compute; reflexivity|].
  destruct (swapped_page_restored (bdl := working_laws) (fun f => f = 10) kernel (fun f => 2 <= f <= 6) sw S1 10 true pte address)
    as (slot & sw1 & k1 & HS & Es & _ & _ & Hin).
  - by apply identity_kernel_inv.
  - apply sw_fine.
  - vm_compute. split; congruence.
  - reflexivity.
  - apply page_no_huge.
  - apply path_identity.
  - reflexivity.
  - lia.
  - exact E.
  - rewrite set_entry_kernel in Es. injection Es as <-.
    destruct (spare_page pte sw1 sw1 slot (disk_read (sw_device sw1) WORDS_PER_PAGE (sector_of slot))) as (b & Hcan).
    { by destruct sw1. }
    destruct (Hin _ _ _ _ Hcan) as (f & k2 & sw3 & U' & Eh & _ & _ & _ & Hw & Hfw & _).
    exists pte, S1, (kernel_with pte), sw1, sw3, k2, f.
    split_and!; [exact E|apply set_entry_kernel|exact Eh|exact Hw|exact Hfw].
Defined.

Lemma raw_access_agrees_with_mapper_witness :
  translate_page kernel (from_current kernel) 0x300 = Done (Some 10) /\
  exists k', set_pte_raw kernel v (entry 77) = Done (true, k') /\
    translate_page k' (from_current k') 0x300 = Done (Some 77).
Proof.
  destruct (raw_access_agrees_with_mapper (fun f => f = 10) kernel (fun f => 2 <= f <= 6) v 0x300 (entry 10) (entry 77))
    as (Ht & k' & Es & _ & Ht' & _).
  - by apply identity_kernel_inv.
  - apply path_identity.
  - reflexivity.
  - apply page_no_huge.
  - reflexivity.
  - reflexivity.
  - split; [exact Ht|]. exists k'. split; [exact Es|exact Ht'].
Defined.

Lemma swap_pte_roundtrip_witness :
  is_swap_pte (encode_swap_pte 1000) = true /\ decode_swap_slot (encode_swap_pte 1000) = 1000.
Proof. destruct (swap_pte_roundtrip 1000) as (H1 & H2 & _); [unfold MAX_SWAP_PAGES; lia|]. split; [exact H1|exact H2]. Defined.

Lemma swap_manager_well_formed_witness :
  exists pte S1 sw1, swap_out (bd := working) kernel (Some sw) v = Done (Ok pte, S1) /\ S1 = Some sw1 /\ swap_ok sw1.
Proof.
  destruct (MapperDemo.passes_elim (swap_out (bd := working) kernel (Some sw) v) (fun _ _ => true)) as (pte & S1 & E & _);
    [vm_compute; reflexivity|].
  destruct (swap_manager_well_formed (bd := working) kernel sw (fun _ => 0) 1 None v 1) as (_ & Hout & _).
  - lia.
  - apply sw_fine.
  - discriminate.
  - destruct (Hout _ _ E) as (sw1 & HS & Hok). exists pte, S1, sw1. split_and!; [exact E|exact HS|exact Hok].
Defined.

Lemma failed_swap_out_leaks_slot_witness :
  exists swb e, swap_out (bd := broken) kernel (Some sw) v = Done (Err e, Some swb) /\ used_slots swb = 1.
Proof.
  destruct (failed_swap_out_leaks_slot (bd := broken) kernel sw v 10 true "swap: write_blocks échoué" 0
              (mkSwap (false :: replicate 255 true) 1 256 (fun _ => 0)) (mkSwap (false :: replicate 255 true) 1 256 (fun _ => 0)))
    as (E & Hu & _).
  - apply sw_fine.
  - reflexivity.
  - reflexivity.
  - reflexivity.
  - eexists _, _. split; [exact E|exact Hu].
Defined.

Lemma address_space_keeps_old_root_witness :
  exists k', address_space_new (fun x : unit => (Some 10, x)) tt kernel = Done (Ok (mkAddressSpace 10), tt, k') /\
    let k2 := switch_to (mkAddressSpace 10) k' in
    mmu_walk (k_mem k2) (k_cr3 k2) 0x300 = None /\ translate_page k2 (from_current k2) 0x300 = Done (Some 10).
Proof.
  apply (address_space_keeps_old_root (fun f => f = 10) kernel (fun f => 2 <= f <= 6) 10
           (fun x : unit => (Some 10, x)) tt tt 0x300).
  - by apply identity_kernel_inv.
  - lia.
  - lia.
  - apply identity_low. lia.
  - apply identity_low. simpl. lia.
  - reflexivity.
  - reflexivity.
  - split; intros t Ht; vm_compute in Ht; injection Ht as <-; intros _ H; discriminate H.
Defined.

End SwapDemo.
