(* ===== verification/Io.v ===== *)
(** * Block and byte I/O: operations

    Models kernel/io/src/lib.rs: the errors, the traits [BlockIo], [KnownLength],
    [BlockReader] and [BlockWriter], with [StorageDevice] of kernel/storage_device, as the
    class [BlockIO], [ByteReader] and [ByteWriter] as the class [ByteIO], the splitting of a byte range into transfers
    ([blocks_from_bytes]), the wrappers that give byte-wise access to a block device, and
    the stateful [ReaderWriter].

    A buffer is the list of its bytes.  An operation on [&mut self] returns the new
    state of the device; one on [&mut [u8]] returns the new contents of the buffer. *)

From S2P Require Import Prelude.

Inductive IoError : Type :=
| InvalidInput
| TimedOut
| Other (s : string).

(** [core2::io::ErrorKind], the part the conversion uses. *)
Inductive ErrorKind : Type :=
| KindInvalidInput
| KindTimedOut
| KindOther.

Definition error_from_io (e : IoError) : ErrorKind :=
  match e with
  | InvalidInput => KindInvalidInput
  | TimedOut => KindTimedOut
  | Other _ => KindOther
  end.

Definition io_error_from_str (s : string) : IoError := Other s.

Definition str_from_io (e : IoError) : string :=
  match e with
  | InvalidInput => "invalid input"
  | TimedOut => "timed out"
  | Other s => s
  end.

(** ** The traits *)

Class BlockIO (D : Type) := {
  block_size : D -> Z;
  io_len : D -> Z;
  size_in_blocks : D -> Z;
  read_blocks : D -> list Z -> Z -> outcome (result Z IoError * list Z * D);
  write_blocks : D -> list Z -> Z -> outcome (result Z IoError * D);
  flush_blocks : D -> outcome (result unit IoError * D);
}.

Class ByteIO (D : Type) := {
  byte_len : D -> Z;
  read_at : D -> list Z -> Z -> outcome (result Z IoError * list Z * D);
  write_at : D -> list Z -> Z -> outcome (result Z IoError * D);
  flush_bytes : D -> outcome (result unit IoError * D);
}.

(** ** Slices *)

(** [&l[a..b]]; out of range is a panic. *)
Definition slice (l : list Z) (a b : Z) : outcome (list Z) :=
  if (0 <=? a) && (a <=? b) && (b <=? Z.of_nat (length l))
  then Done (take (Z.to_nat (b - a)) (drop (Z.to_nat a) l)) else Panic.

(** [l[a..b].copy_from_slice(src)]; the lengths must agree. *)
Definition copy_into (l : list Z) (a b : Z) (src : list Z) : outcome (list Z) :=
  if (0 <=? a) && (a <=? b) && (b <=? Z.of_nat (length l)) && (Z.of_nat (length src) =? b - a)
  then Done (take (Z.to_nat a) l ++ src ++ drop (Z.to_nat b) l) else Panic.

(** ** Transfers *)

Record Range := mkRng { rg_start : Z; rg_end : Z }.

Definition rg_len (r : Range) : Z := sat_sub (rg_end r) (rg_start r).

Record BlockByteTransfer := mkTransfer {
  byte_range_absolute : Range;
  block_range : Range;
  bytes_in_block_range : Range;
}.

Definition round_down (value multiple : Z) : Z := (value / multiple) * multiple.

Definition next_multiple_of (value multiple : Z) : Z :=
  if value mod multiple =? 0 then value else wrap64 (value + (multiple - value mod multiple)).

(** [transfers[idx] = Some(t)]. *)
Definition set_transfer (l : list (option BlockByteTransfer)) (idx : nat) (t : BlockByteTransfer)
  : outcome (list (option BlockByteTransfer)) :=
  if (idx <? length l)%nat then Done (<[idx := Some t]> l) else Panic.

(** The loop of [blocks_from_bytes]. *)
Fixpoint transfer_loop (fuel : nat) (byte_range : Range) (bs curr_byte : Z) (idx : nat)
    (transfers : list (option BlockByteTransfer)) : outcome (list (option BlockByteTransfer)) :=
  match fuel with
  | O => Panic
  | S fuel' =>
      if curr_byte <? rg_end byte_range then
        let last_block := rg_end byte_range / bs in
        let curr_block := curr_byte / bs in
        let offset_into_curr_block := curr_byte mod bs in
        if offset_into_curr_block =? 0 then
          if rg_end byte_range mod bs =? 0 then
            set_transfer transfers idx
              (mkTransfer (mkRng curr_byte (rg_end byte_range)) (mkRng curr_block last_block)
                 (mkRng 0 ((last_block - curr_block) * bs)))
          else
            let end_byte := if bs <? rg_end byte_range - curr_byte
                            then round_down (rg_end byte_range) bs else rg_end byte_range in
            let* transfers := set_transfer transfers idx
              (mkTransfer (mkRng curr_byte end_byte) (mkRng curr_block (next_multiple_of end_byte bs / bs))
                 (mkRng 0 (end_byte - curr_byte))) in
            transfer_loop fuel' byte_range bs end_byte (S idx) transfers
        else
          let end_byte := Z.min (rg_end byte_range) (next_multiple_of curr_byte bs) in
          let* transfers := set_transfer transfers idx
            (mkTransfer (mkRng curr_byte end_byte) (mkRng curr_block (curr_block + 1))
               (mkRng offset_into_curr_block (offset_into_curr_block + (end_byte - curr_byte)))) in
          transfer_loop fuel' byte_range bs end_byte (S idx) transfers
      else Done transfers
  end.

(** The loop runs at most three times.  A division by zero panics. *)
Definition blocks_from_bytes (byte_range : Range) (bs : Z) : outcome (list (option BlockByteTransfer)) :=
  if bs =? 0 then Panic
  else transfer_loop 4 byte_range bs (rg_start byte_range) 0 [None; None; None].

Section Wrappers.
Context {D : Type} {bio : BlockIO D}.

(** ** Byte-wise access to a block device *)

(** Both ends of the transfer are on block boundaries. *)
Definition block_aligned (t : BlockByteTransfer) (bs : Z) : bool :=
  (rg_start (bytes_in_block_range t) mod bs =? 0) && (rg_end (bytes_in_block_range t) mod bs =? 0).

(** The temporary buffer is allocated at its first use. *)
Definition tmp_buffer (tmp : list Z) (bs : Z) (t : BlockByteTransfer) : list Z :=
  match tmp with
  | [] => replicate (Z.to_nat (bs * rg_len (block_range t))) 0
  | _ => tmp
  end.

Fixpoint read_transfers (l : list (option BlockByteTransfer)) (d : D) (buffer tmp : list Z) (offset : Z)
  : outcome (result Z IoError * list Z * D) :=
  match l with
  | [] => Done (Ok (Z.of_nat (length buffer)), buffer, d)
  | None :: l' => read_transfers l' d buffer tmp offset
  | Some t :: l' =>
      let a := rg_start (byte_range_absolute t) - offset in
      let b := rg_end (byte_range_absolute t) - offset in
      if block_aligned t (block_size d) then
        let* part := slice buffer a b in
        let* (_, part, d) := read_blocks d part (rg_start (block_range t)) in
        let* buffer := copy_into buffer a b part in
        read_transfers l' d buffer tmp offset
      else
        let tmp := tmp_buffer tmp (block_size d) t in
        let* (r, tmp, d) := read_blocks d tmp (rg_start (block_range t)) in
        match r with
        | Err e => Done (Err e, buffer, d)
        | Ok _ =>
            let* part := slice tmp (rg_start (bytes_in_block_range t)) (rg_end (bytes_in_block_range t)) in
            let* buffer := copy_into buffer a b part in
            read_transfers l' d buffer tmp offset
        end
  end.

(** [ByteReaderWrapper::read_at], to which [ByteReaderWriterWrapper] delegates. *)
Definition wrapper_read_at (d : D) (buffer : list Z) (offset : Z) : outcome (result Z IoError * list Z * D) :=
  let* transfers := blocks_from_bytes (mkRng offset (wrap64 (offset + Z.of_nat (length buffer)))) (block_size d) in
  read_transfers transfers d buffer [] offset.

Fixpoint write_transfers (l : list (option BlockByteTransfer)) (d : D) (buffer tmp : list Z) (offset : Z)
  : outcome (result Z IoError * D) :=
  match l with
  | [] => Done (Ok (Z.of_nat (length buffer)), d)
  | None :: l' => write_transfers l' d buffer tmp offset
  | Some t :: l' =>
      let a := rg_start (byte_range_absolute t) - offset in
      let b := rg_end (byte_range_absolute t) - offset in
      if block_aligned t (block_size d) then
        let* part := slice buffer a b in
        let* (_, d) := write_blocks d part (rg_start (block_range t)) in
        write_transfers l' d buffer tmp offset
      else
        let tmp := tmp_buffer tmp (block_size d) t in
        let* (r, tmp, d) := read_blocks d tmp (rg_start (block_range t)) in
        match r with
        | Err e => Done (Err e, d)
        | Ok _ =>
            let* part := slice buffer a b in
            let* tmp := copy_into tmp (rg_start (bytes_in_block_range t)) (rg_end (bytes_in_block_range t)) part in
            let* (r, d) := write_blocks d tmp (rg_start (block_range t)) in
            match r with
            | Err e => Done (Err e, d)
            | Ok _ => write_transfers l' d buffer tmp offset
            end
        end
  end.

Definition wrapper_write_at (d : D) (buffer : list Z) (offset : Z) : outcome (result Z IoError * D) :=
  let* transfers := blocks_from_bytes (mkRng offset (wrap64 (offset + Z.of_nat (length buffer)))) (block_size d) in
  write_transfers transfers d buffer [] offset.

(** [ByteReaderWrapper], [ByteReaderWriterWrapper] and [ByteWriterWrapper] around a
    block device. *)
Definition byte_wrapper : ByteIO D := {|
  byte_len := io_len;
  read_at := wrapper_read_at;
  write_at := wrapper_write_at;
  flush_bytes := flush_blocks |}.

End Wrappers.

(** ** Stateful streams *)

Record ReaderWriter (D : Type) := mkRW { rw_io : D; rw_offset : Z }.
Arguments mkRW {D}.
Arguments rw_io {D}.
Arguments rw_offset {D}.

Inductive SeekFrom : Type :=
| Start (n : Z)
| End (n : Z)
| Current (n : Z).

Section Streams.
Context {D : Type} {io : ByteIO D}.

(** [ReaderWriter::new], [Reader::new] and [Writer::new]. *)
Definition rw_new (d : D) : ReaderWriter D := mkRW d 0.

Definition rw_read (rw : ReaderWriter D) (buf : list Z) : outcome (result Z ErrorKind * list Z * ReaderWriter D) :=
  let* (r, buf, d) := read_at (rw_io rw) buf (rw_offset rw) in
  match r with
  | Ok n => Done (Ok n, buf, mkRW d (wrap64 (rw_offset rw + n)))
  | Err e => Done (Err (error_from_io e), buf, mkRW d (rw_offset rw))
  end.

Definition rw_write (rw : ReaderWriter D) (buf : list Z) : outcome (result Z ErrorKind * ReaderWriter D) :=
  let* (r, d) := write_at (rw_io rw) buf (rw_offset rw) in
  match r with
  | Ok n => Done (Ok n, mkRW d (wrap64 (rw_offset rw + n)))
  | Err e => Done (Err (error_from_io e), mkRW d (rw_offset rw))
  end.

Definition rw_flush (rw : ReaderWriter D) : outcome (result unit ErrorKind * ReaderWriter D) :=
  let* (r, d) := flush_bytes (rw_io rw) in
  Done (match r with Ok _ => Ok tt | Err e => Err (error_from_io e) end, mkRW d (rw_offset rw)).

(** [checked_add] and [checked_sub] on [u64], [wrapping_neg] on [i64]. *)
Definition checked_add (a b : Z) : option Z := if a + b <=? U64_MAX then Some (a + b) else None.

Definition checked_sub (a b : Z) : option Z := if b <=? a then Some (a - b) else None.

Definition I64_MIN : Z := -9223372036854775808.

Definition wrapping_neg (n : Z) : Z := if n =? I64_MIN then I64_MIN else - n.

(** A negative [i64] as [u64] is its value modulo 2^64. *)
Definition rw_seek (rw : ReaderWriter D) (position : SeekFrom) : result Z ErrorKind * ReaderWriter D :=
  let go base_pos offset :=
    let new_pos := if 0 <=? offset then checked_add base_pos (wrap64 offset)
                   else checked_sub base_pos (wrap64 (wrapping_neg offset)) in
    match new_pos with
    | Some n => (Ok n, mkRW (rw_io rw) n)
    | None => (Err KindInvalidInput, rw)
    end in
  match position with
  | Start n => (Ok n, mkRW (rw_io rw) n)
  | Current n => go (rw_offset rw) n
  | End n => go (byte_len (rw_io rw)) n
  end.

End Streams.
