(* ===== verification/IoSpec.v ===== *)
(** * Block and byte I/O: what the layers promise each other

    The contents of a device are a function from byte offsets to bytes.  [BlockIOLaws]
    is what a block device promises (on every outcome of a transfer, failures included)
    and [HealthyIO] that transfers within the device succeed; [ByteIOLaws] is what a byte
    stream promises.  The wrappers of [Io] are proved to turn the first into the second,
    and the stateful streams are verified against [ByteIOLaws] alone. *)

From S2P Require Import Prelude Io.

(** ** Contents *)

(** The [n] bytes of [f] from offset [a] on. *)
Definition seg (f : Z -> Z) (a n : Z) : list Z := f <$> seqZ a n.

(** [f] with the bytes [l] stored at offset [a]. *)
Definition upd (f : Z -> Z) (a : Z) (l : list Z) : Z -> Z := fun i =>
  if (a <=? i) && (i <? a + Z.of_nat (length l)) then default 0 (l !! Z.to_nat (i - a)) else f i.

Lemma seg_length (f : Z -> Z) (a n : Z) : 0 <= n -> Z.of_nat (length (seg f a n)) = n.
Proof. intros ?. unfold seg. rewrite length_fmap, length_seqZ. lia. Qed.

Lemma seg_lookup (f : Z -> Z) (a n : Z) (i : nat) :
  Z.of_nat i < n -> seg f a n !! i = Some (f (a + Z.of_nat i)).
Proof. intros ?. unfold seg. rewrite list_lookup_fmap, lookup_seqZ_lt; [done | lia]. Qed.

Lemma seg_app (f : Z -> Z) (a n m : Z) :
  0 <= n -> 0 <= m -> seg f a (n + m) = seg f a n ++ seg f (a + n) m.
Proof.
  intros ??. unfold seg. rewrite <- fmap_app. f_equal. rewrite seqZ_app; try lia. done.
Qed.

Lemma seg_nil (f : Z -> Z) (a n : Z) : n <= 0 -> seg f a n = [].
Proof. intros ?. unfold seg. by rewrite seqZ_nil. Qed.

Lemma seg_ext (f g : Z -> Z) (a n : Z) :
  (forall i, a <= i < a + n -> f i = g i) -> seg f a n = seg g a n.
Proof.
  intros E. unfold seg. apply list_fmap_ext. intros i x Hi. apply E.
  apply lookup_seqZ in Hi. lia.
Qed.

Lemma upd_in (f : Z -> Z) (a : Z) (l : list Z) (i : nat) (x : Z) :
  l !! i = Some x -> upd f a l (a + Z.of_nat i) = x.
Proof.
  intros E. pose proof (lookup_lt_Some _ _ _ E). unfold upd. case_cmp; try lia.
  replace (Z.to_nat (a + Z.of_nat i - a)) with i by lia. by rewrite E.
Qed.

Lemma upd_out (f : Z -> Z) (a : Z) (l : list Z) (i : Z) :
  i < a \/ a + Z.of_nat (length l) <= i -> upd f a l i = f i.
Proof. intros ?. unfold upd. case_cmp; try lia; done. Qed.

Lemma upd_ext (f g : Z -> Z) (a : Z) (l : list Z) :
  (forall i, f i = g i) -> forall i, upd f a l i = upd g a l i.
Proof. intros E i. unfold upd. by rewrite E. Qed.

Lemma upd_nil (f : Z -> Z) (a i : Z) : upd f a [] i = f i.
Proof. apply upd_out. simpl. lia. Qed.

Lemma upd_app (f : Z -> Z) (a : Z) (l1 l2 : list Z) (i : Z) :
  upd (upd f a l1) (a + Z.of_nat (length l1)) l2 i = upd f a (l1 ++ l2) i.
Proof.
  unfold upd. rewrite length_app, Nat2Z.inj_add, Z.add_assoc.
  case_cmp; try lia; try done; f_equal.
  - rewrite lookup_app_r by lia. f_equal. lia.
  - by rewrite lookup_app_l by lia.
Qed.

Lemma seg_upd (f : Z -> Z) (a : Z) (l : list Z) : seg (upd f a l) a (Z.of_nat (length l)) = l.
Proof.
  apply list_eq. intros i. destruct (l !! i) as [x |] eqn:E.
  - pose proof (lookup_lt_Some _ _ _ E). rewrite seg_lookup by lia. f_equal. by apply upd_in.
  - apply lookup_ge_None in E. apply lookup_ge_None. pose proof (seg_length (upd f a l) a (Z.of_nat (length l))). lia.
Qed.

(** Storing the bytes that are there changes nothing. *)
Lemma upd_seg (f : Z -> Z) (a n i : Z) : upd f a (seg f a n) i = f i.
Proof.
  destruct (decide (0 <= n)) as [Hn | Hn]; [| rewrite seg_nil by lia; apply upd_nil].
  unfold upd. rewrite seg_length by done. case_cmp; try done.
  rewrite seg_lookup by lia. simpl. f_equal. lia.
Qed.

Lemma seg_upd_part (f : Z -> Z) (a : Z) (l : list Z) (b n : Z) :
  a <= b -> 0 <= n -> b + n <= a + Z.of_nat (length l) ->
  seg (upd f a l) b n = take (Z.to_nat n) (drop (Z.to_nat (b - a)) l).
Proof.
  intros ???. rewrite <- (take_drop (Z.to_nat (b - a)) l) at 1.
  rewrite <- (take_drop (Z.to_nat n) (drop (Z.to_nat (b - a)) l)) at 1.
  set (l1 := take (Z.to_nat (b - a)) l). set (l2 := take (Z.to_nat n) (drop (Z.to_nat (b - a)) l)).
  set (l3 := drop _ (drop _ l)).
  assert (Z.of_nat (length l1) = b - a) as E1 by (subst l1; rewrite length_take; lia).
  assert (Z.of_nat (length l2) = n) as E2 by (subst l2; rewrite length_take, length_drop; lia).
  transitivity (seg (upd (upd f a l1) b l2) b n).
  - apply seg_ext. intros i Hi. rewrite <- upd_app, E1. replace (a + (b - a)) with b by lia.
    rewrite <- upd_app. apply upd_out. lia.
  - rewrite <- E2. apply seg_upd.
Qed.

(** ** Slices *)

Lemma slice_ok (l : list Z) (a b : Z) :
  0 <= a <= b -> b <= Z.of_nat (length l) -> slice l a b = Done (take (Z.to_nat (b - a)) (drop (Z.to_nat a) l)).
Proof. intros ??. unfold slice. by case_cmp; try lia. Qed.

Lemma copy_into_ok (l : list Z) (a b : Z) (src : list Z) :
  0 <= a <= b -> b <= Z.of_nat (length l) -> Z.of_nat (length src) = b - a ->
  copy_into l a b src = Done (take (Z.to_nat a) l ++ src ++ drop (Z.to_nat b) l).
Proof. intros ???. unfold copy_into. by case_cmp; try lia. Qed.

Lemma slice_seg (f : Z -> Z) (s n a b : Z) :
  0 <= a <= b -> b <= n -> slice (seg f s n) a b = Done (seg f (s + a) (b - a)).
Proof.
  intros ??. rewrite slice_ok; rewrite ?seg_length; try lia. f_equal.
  replace n with (a + ((b - a) + (n - b))) by lia.
  rewrite !seg_app by lia.
  rewrite drop_app_length'; [| pose proof (seg_length f s a); lia].
  rewrite take_app_length'; [done | pose proof (seg_length f (s + a) (b - a)); lia].
Qed.

(** Replacing a slice of a buffer is an update of the contents it stands for. *)
Lemma copy_into_seg (f : Z -> Z) (s n a b : Z) (src : list Z) :
  0 <= a <= b -> b <= n -> Z.of_nat (length src) = b - a ->
  copy_into (seg f s n) a b src = Done (seg (upd f (s + a) src) s n).
Proof.
  intros ?? E. rewrite copy_into_ok; rewrite ?seg_length; try lia. f_equal.
  replace n with (a + ((b - a) + (n - b))) by lia. rewrite !seg_app by lia.
  rewrite take_app_length'; [| pose proof (seg_length f s a); lia].
  rewrite (app_assoc (seg f s a) (seg f (s + a) (b - a))), drop_app_length'.
  2:{ rewrite length_app. pose proof (seg_length f s a). pose proof (seg_length f (s + a) (b - a)). lia. }
  f_equal; [| f_equal].
  - apply seg_ext. intros i Hi. symmetry. apply upd_out. lia.
  - rewrite <- E. symmetry. apply seg_upd.
  - apply seg_ext. intros i Hi. symmetry. apply upd_out. lia.
Qed.

(** ** The transfers of a byte range *)

(** Whole blocks [q .. q']. *)
Definition whole (bs q q' : Z) : BlockByteTransfer :=
  mkTransfer (mkRng (q * bs) (q' * bs)) (mkRng q q') (mkRng 0 ((q' - q) * bs)).

(** Bytes [r .. r'] of block [q]. *)
Definition part (bs q r r' : Z) : BlockByteTransfer :=
  mkTransfer (mkRng (q * bs + r) (q * bs + r')) (mkRng q (q + 1)) (mkRng r r').

(** The transfers cover the bytes [a .. b] in order, each once, and each is a run of whole
    blocks or a proper part of a single block. *)
Inductive chain (bs : Z) : Z -> Z -> list (option BlockByteTransfer) -> Prop :=
| chain_nil (a : Z) : chain bs a a []
| chain_none (a b : Z) (l : list (option BlockByteTransfer)) : chain bs a b l -> chain bs a b (None :: l)
| chain_whole (a q q' b : Z) (l : list (option BlockByteTransfer)) :
    0 <= q < q' -> a = q * bs -> chain bs (q' * bs) b l -> chain bs a b (Some (whole bs q q') :: l)
| chain_part (a q r r' b : Z) (l : list (option BlockByteTransfer)) :
    0 <= q -> 0 <= r < r' -> r' <= bs -> ~ (r = 0 /\ r' = bs) -> a = q * bs + r ->
    chain bs (q * bs + r') b l -> chain bs a b (Some (part bs q r r') :: l).

#[local] Hint Constructors chain : core.

(** Decides the comparisons of the goal whose outcome follows from the hypotheses. *)
Ltac solve_cmp :=
  repeat match goal with
  | |- context [?a <=? ?b] =>
      first [replace (a <=? b) with true by (symmetry; apply Z.leb_le; lia)
            | replace (a <=? b) with false by (symmetry; apply Z.leb_gt; lia)]
  | |- context [?a <? ?b] =>
      first [replace (a <? b) with true by (symmetry; apply Z.ltb_lt; lia)
            | replace (a <? b) with false by (symmetry; apply Z.ltb_ge; lia)]
  | |- context [?a =? ?b] =>
      first [replace (a =? b) with true by (symmetry; apply Z.eqb_eq; lia)
            | replace (a =? b) with false by (symmetry; apply Z.eqb_neq; lia)]
  | |- context [(?a <? ?b)%nat] =>
      first [replace (a <? b)%nat with true by (symmetry; apply Nat.ltb_lt; lia)
            | replace (a <? b)%nat with false by (symmetry; apply Nat.ltb_ge; lia)]
  end.

Section Transfers.
Context (bs : Z) (bs_pos : 0 < bs).

Lemma block_div (q r : Z) : 0 <= r < bs -> (q * bs + r) / bs = q.
Proof. intros ?. rewrite Z.div_add_l by lia. rewrite Z.div_small by lia. lia. Qed.

Lemma block_mod (q r : Z) : 0 <= r < bs -> (q * bs + r) mod bs = r.
Proof. intros ?. rewrite Z.add_comm, Z.mod_add by lia. by apply Z.mod_small. Qed.

Lemma next_multiple_part (q r : Z) :
  0 <= q -> 0 < r < bs -> (q + 1) * bs <= U64_MAX -> next_multiple_of (q * bs + r) bs = (q + 1) * bs.
Proof.
  intros ???. unfold next_multiple_of. rewrite block_mod by lia. case_cmp; [lia |].
  rewrite wrap64_id; [lia |]. split; nia.
Qed.

Lemma next_multiple_whole (q : Z) : next_multiple_of (q * bs) bs = q * bs.
Proof. unfold next_multiple_of. by rewrite Z.mod_mul by lia. Qed.

(** A loop that starts at a block boundary. *)
Lemma loop_aligned (fuel idx : nat) (q q' r' start : Z) (ts : list (option BlockByteTransfer)) :
  0 <= q -> 0 <= r' < bs -> q * bs < q' * bs + r' -> (q' + 1) * bs <= U64_MAX ->
  (idx + 2 <= length ts)%nat ->
  transfer_loop (S (S (S fuel))) (mkRng start (q' * bs + r')) bs (q * bs) idx ts =
    Done (if r' =? 0 then <[idx := Some (whole bs q q')]> ts
          else if q =? q' then <[idx := Some (part bs q 0 r')]> ts
          else <[S idx := Some (part bs q' 0 r')]> (<[idx := Some (whole bs q q')]> ts)).
Proof.
  intros Hq Hr Hlt Hmax Hidx. assert (q <= q') as Hqq by nia.
  cbn [transfer_loop rg_end rg_start]. unfold set_transfer, round_down.
  rewrite (block_div q' r') by lia. rewrite (block_mod q' r') by lia.
  rewrite (Z.div_mul q), (Z.mod_mul q) by lia.
  destruct (Z.eq_dec r' 0) as [-> | Hr0].
  { rewrite Z.add_0_r in *. solve_cmp. done. }
  destruct (Z.eq_dec q q') as [<- | Hne].
  - solve_cmp. cbn [outcome_bind]. rewrite (next_multiple_part q r') by lia. rewrite Z.div_mul by lia.
    unfold part. do 5 f_equal; lia.
  - assert (q * bs + bs <= q' * bs) by nia.
    solve_cmp. cbn [outcome_bind]. rewrite length_insert, next_multiple_whole, (Z.div_mul q'), (Z.mod_mul q') by lia.
    rewrite (next_multiple_part q' r') by lia. rewrite Z.div_mul by lia. solve_cmp. cbn [outcome_bind].
    unfold part, whole. rewrite Z.add_0_r, Z.add_simpl_l, Z.mul_sub_distr_r. done.
Qed.

(** The transfers [loop_aligned] adds cover the rest of the range. *)
Lemma chain_aligned (q q' r' : Z) (ts : list (option BlockByteTransfer)) :
  0 <= q -> 0 <= r' < bs -> q * bs < q' * bs + r' -> chain bs (q' * bs + r') (q' * bs + r') ts ->
  chain bs (q * bs) (q' * bs + r')
    (if r' =? 0 then Some (whole bs q q') :: None :: ts
     else if q =? q' then Some (part bs q 0 r') :: None :: ts
     else Some (whole bs q q') :: Some (part bs q' 0 r') :: ts).
Proof.
  intros ??? Hc. assert (q <= q') by nia.
  case_cmp; subst.
  - rewrite Z.add_0_r in *. apply chain_whole; [nia | done | auto].
  - apply chain_part; try lia. auto.
  - apply chain_whole; [lia | done |]. apply chain_part; try lia. done.
Qed.

Lemma loop_unaligned (fuel idx : nat) (q r b start : Z) (ts : list (option BlockByteTransfer)) :
  0 <= q -> 0 < r < bs -> q * bs + r < b -> b + bs <= U64_MAX -> (idx < length ts)%nat ->
  transfer_loop (S fuel) (mkRng start b) bs (q * bs + r) idx ts =
    transfer_loop fuel (mkRng start b) bs (Z.min b ((q + 1) * bs)) (S idx)
      (<[idx := Some (part bs q r (Z.min b ((q + 1) * bs) - q * bs))]> ts).
Proof.
  intros. cbn [transfer_loop rg_end rg_start]. unfold set_transfer.
  rewrite block_div, block_mod by lia. rewrite next_multiple_part by lia.
  solve_cmp. cbn [outcome_bind]. do 2 f_equal. unfold part. do 3 f_equal; lia.
Qed.

Lemma loop_done (fuel idx : nat) (b start : Z) (ts : list (option BlockByteTransfer)) :
  transfer_loop (S fuel) (mkRng start b) bs b idx ts = Done ts.
Proof. cbn [transfer_loop rg_end]. by rewrite Z.ltb_irrefl. Qed.

(** [blocks_from_bytes] covers the byte range exactly. *)
Lemma blocks_from_bytes_chain (a b : Z) :
  0 <= a <= b -> b + bs <= U64_MAX ->
  exists ts, blocks_from_bytes (mkRng a b) bs = Done ts /\ length ts = 3%nat /\ chain bs a b ts.
Proof.
  intros Hab Hb. unfold blocks_from_bytes. cbn [rg_start]. solve_cmp.
  destruct (Z.eq_dec a b) as [<- | Hne].
  { rewrite loop_done. eexists. split; [done |]. split; [done |]. auto. }
  pose proof (Z.div_mod a bs ltac:(lia)) as Ea. pose proof (Z.mod_pos_bound a bs bs_pos) as Ra.
  pose proof (Z.div_mod b bs ltac:(lia)) as Eb. pose proof (Z.mod_pos_bound b bs bs_pos) as Rb.
  set (q := a / bs) in *. set (r := a mod bs) in *. set (q' := b / bs) in *. set (r' := b mod bs) in *.
  clearbody q r q' r'. rewrite Z.mul_comm in Ea, Eb. subst a b.
  assert (0 <= q) by nia.
  destruct (Z.eq_dec r 0) as [-> | Hr].
  { rewrite Z.add_0_r in *. rewrite loop_aligned by (simpl; lia). eexists. split; [done |].
    split; [by repeat case_match |].
    pose proof (chain_aligned q q' r' [None] ltac:(lia) ltac:(lia) ltac:(lia) ltac:(auto)) as Hc.
    by repeat case_match. }
  rewrite loop_unaligned by (simpl; lia).
  destruct (Z_le_gt_dec (q' * bs + r') ((q + 1) * bs)) as [Hle | Hgt].
  - rewrite Z.min_l, loop_done by lia. eexists. split; [done |]. split; [done |].
    apply chain_part; try lia. rewrite Zplus_minus. auto.
  - rewrite Z.min_r by lia. rewrite loop_aligned by (simpl; lia).
    replace ((q + 1) * bs - q * bs) with bs by lia.
    eexists. split; [done |]. split; [by repeat case_match |].
    pose proof (chain_aligned (q + 1) q' r' [] ltac:(lia) ltac:(lia) ltac:(lia) ltac:(auto)) as Hc.
    replace ((q + 1) * bs) with (q * bs + bs) in Hc by lia.
    repeat case_match; apply chain_part; try lia; done.
Qed.

End Transfers.

(** ** What a block device promises *)

Section Laws.
Context {D : Type} {bio : BlockIO D}.

Definition same_geometry (d d' : D) : Prop :=
  block_size d' = block_size d /\ io_len d' = io_len d /\ size_in_blocks d' = size_in_blocks d.

Lemma same_geometry_refl (d : D) : same_geometry d d.
Proof. done. Qed.

Lemma same_geometry_trans (d1 d2 d3 : D) :
  same_geometry d1 d2 -> same_geometry d2 d3 -> same_geometry d1 d3.
Proof. unfold same_geometry. intuition congruence. Qed.

(** A buffer of [n] blocks, addressed from block [off] on without leaving 64 bits. *)
Definition block_buffer (d : D) (buf : list Z) (off n : Z) : Prop :=
  0 <= off /\ 0 <= n /\ Z.of_nat (length buf) = n * block_size d /\ (off + n) * block_size d <= U64_MAX.

Lemma block_buffer_geometry (d d' : D) (buf : list Z) (off n : Z) :
  same_geometry d d' -> block_buffer d buf off n -> block_buffer d' buf off n.
Proof. unfold block_buffer. intros (-> & _ & _). done. Qed.

End Laws.

(** On every outcome, failures included: a read changes neither the contents nor the
    geometry of the device and fills the buffer when it succeeds; a write stores the
    buffer when it succeeds and touches nothing outside its blocks when it fails. *)
Class BlockIOLaws (D : Type) {bio : BlockIO D} := {
  io_inv : D -> Prop;
  io_bytes : D -> Z -> Z;
  block_size_pos : forall d, io_inv d -> 0 < block_size d;
  read_law : forall d buf off n, io_inv d -> block_buffer d buf off n ->
    exists r buf' d', read_blocks d buf off = Done (r, buf', d') /\
      io_inv d' /\ same_geometry d d' /\ (forall i, io_bytes d' i = io_bytes d i) /\
      length buf' = length buf /\
      match r with
      | Ok k => k = n /\ buf' = seg (io_bytes d) (off * block_size d) (Z.of_nat (length buf))
      | Err _ => True
      end;
  write_law : forall d buf off n, io_inv d -> block_buffer d buf off n ->
    exists r d', write_blocks d buf off = Done (r, d') /\
      io_inv d' /\ same_geometry d d' /\
      match r with
      | Ok k => k = n /\ forall i, io_bytes d' i = upd (io_bytes d) (off * block_size d) buf i
      | Err _ => forall i, i < off * block_size d \/ (off + n) * block_size d <= i ->
                   io_bytes d' i = io_bytes d i
      end;
  flush_law : forall d, io_inv d ->
    exists r d', flush_blocks d = Done (r, d') /\
      io_inv d' /\ same_geometry d d' /\ (forall i, io_bytes d' i = io_bytes d i);
}.

(** A healthy device completes the transfers that stay within it. *)
Class HealthyIO (D : Type) {bio : BlockIO D} {laws : BlockIOLaws D} := {
  io_healthy : D -> Prop;
  healthy_read : forall d buf off n r buf' d', io_inv d -> io_healthy d -> block_buffer d buf off n ->
    (off + n) * block_size d <= io_len d ->
    read_blocks d buf off = Done (r, buf', d') -> r = Ok n /\ io_healthy d';
  healthy_write : forall d buf off n r d', io_inv d -> io_healthy d -> block_buffer d buf off n ->
    (off + n) * block_size d <= io_len d ->
    write_blocks d buf off = Done (r, d') -> r = Ok n /\ io_healthy d';
  healthy_flush : forall d r d', io_inv d -> io_healthy d ->
    flush_blocks d = Done (r, d') -> r = Ok tt /\ io_healthy d';
  healthy_len : forall d, io_inv d -> io_healthy d ->
    exists n, io_len d = n * block_size d /\ 0 <= n /\ io_len d + block_size d <= U64_MAX;
}.

(** ** Byte-wise access *)

Section Access.
Context {D : Type} {bio : BlockIO D} {laws : BlockIOLaws D} {healthy : HealthyIO D}.

(** [d'] is a good state of the same device, with the contents [f]. *)
Definition device_now (d d' : D) (f : Z -> Z) : Prop :=
  io_inv d' /\ io_healthy d' /\ same_geometry d d' /\ forall i, io_bytes d' i = f i.

Lemma read_healthy (d : D) (buf : list Z) (off n : Z) :
  io_inv d -> io_healthy d -> block_buffer d buf off n -> (off + n) * block_size d <= io_len d ->
  exists d', read_blocks d buf off =
      Done (Ok n, seg (io_bytes d) (off * block_size d) (Z.of_nat (length buf)), d') /\
    device_now d d' (io_bytes d).
Proof.
  intros Hi Hh Hb Hl. destruct (read_law d buf off n Hi Hb) as (r & buf' & d' & E & Hi' & Hg & Hc & _ & Hr).
  destruct (healthy_read _ _ _ _ _ _ _ Hi Hh Hb Hl E) as [-> Hh']. destruct Hr as [_ ->].
  exists d'. unfold device_now. auto.
Qed.

Lemma write_healthy (d : D) (buf : list Z) (off n : Z) :
  io_inv d -> io_healthy d -> block_buffer d buf off n -> (off + n) * block_size d <= io_len d ->
  exists d', write_blocks d buf off = Done (Ok n, d') /\
    device_now d d' (upd (io_bytes d) (off * block_size d) buf).
Proof.
  intros Hi Hh Hb Hl. destruct (write_law d buf off n Hi Hb) as (r & d' & E & Hi' & Hg & Hr).
  destruct (healthy_write _ _ _ _ _ _ Hi Hh Hb Hl E) as [-> Hh']. destruct Hr as [_ Hr].
  exists d'. unfold device_now. auto.
Qed.

Lemma whole_aligned (bs q q' : Z) : 0 < bs -> block_aligned (whole bs q q') bs = true.
Proof.
  intros ?. unfold block_aligned, whole. cbn. rewrite Z.mod_0_l, Z.mod_mul by lia. done.
Qed.

Lemma part_unaligned (bs q r r' : Z) :
  0 < bs -> 0 <= r < r' -> r' <= bs -> ~ (r = 0 /\ r' = bs) -> block_aligned (part bs q r r') bs = false.
Proof.
  intros ? ? ? Hn. unfold block_aligned, part. cbn. rewrite (Z.mod_small r) by lia.
  destruct (Z.eq_dec r 0) as [-> | ?]; [| by solve_cmp].
  rewrite (Z.mod_small r') by lia. by solve_cmp.
Qed.

Lemma tmp_buffer_length (tmp : list Z) (bs q r r' : Z) :
  0 < bs -> tmp = [] \/ Z.of_nat (length tmp) = bs ->
  Z.of_nat (length (tmp_buffer tmp bs (part bs q r r'))) = bs.
Proof.
  intros ? [-> | E]; [cbn -[replicate]; unfold rg_len, sat_sub; cbn -[replicate]; rewrite length_replicate; lia |].
  destruct tmp; [cbn in E; lia | exact E].
Qed.

Lemma chain_le (bs a b : Z) (ts : list (option BlockByteTransfer)) : 0 < bs -> chain bs a b ts -> a <= b.
Proof. intros ?. induction 1; try lia. nia. Qed.

Lemma upd_seg_other (f g : Z -> Z) (a n i : Z) :
  0 <= n -> upd g a (seg f a n) i = if (a <=? i) && (i <? a + n) then f i else g i.
Proof.
  intros ?. unfold upd. rewrite seg_length by done. case_cmp; try done.
  rewrite seg_lookup by lia. simpl. f_equal. lia.
Qed.

Lemma device_now_refl (d : D) : io_inv d -> io_healthy d -> device_now d d (io_bytes d).
Proof. unfold device_now. auto using same_geometry_refl. Qed.

Lemma device_now_trans (d d1 d2 : D) (f g h : Z -> Z) :
  device_now d d1 f -> device_now d1 d2 g -> (forall i, g i = h i) -> device_now d d2 h.
Proof.
  intros (? & ? & ? & ?) (? & ? & ? & E) Eh. unfold device_now.
  eauto 6 using same_geometry_trans, eq_trans.
Qed.

(** One transfer of whole blocks, into or from the buffer that starts at [offset]. *)
Lemma read_whole_step (d : D) (q q' offset n : Z) (g : Z -> Z) (tmp : list Z) (l : list (option BlockByteTransfer)) :
  io_inv d -> io_healthy d -> 0 <= q < q' -> 0 <= offset <= q * block_size d ->
  q' * block_size d <= offset + n -> q' * block_size d <= io_len d ->
  exists d', read_transfers (Some (whole (block_size d) q q') :: l) d (seg g offset n) tmp offset =
      read_transfers l d' (seg (upd g (q * block_size d)
        (seg (io_bytes d) (q * block_size d) ((q' - q) * block_size d))) offset n) tmp offset /\
    device_now d d' (io_bytes d).
Proof.
  intros Hi Hh Hq Ho Hn Hl. pose proof (block_size_pos d Hi) as Hpos.
  destruct (healthy_len d Hi Hh) as (m & _ & _ & Hm). set (bs := block_size d) in *.
  assert (q * bs < q' * bs) by nia.
  cbn [read_transfers]. fold bs. rewrite whole_aligned by done.
  cbn [whole byte_range_absolute block_range rg_start rg_end].
  rewrite slice_seg by lia. cbn [outcome_bind]. rewrite Zplus_minus.
  replace (q' * bs - offset - (q * bs - offset)) with ((q' - q) * bs) by lia.
  destruct (read_healthy d (seg g (q * bs) ((q' - q) * bs)) q (q' - q)) as (d1 & -> & Hd1); try done.
  { unfold block_buffer. fold bs. rewrite seg_length by lia. repeat split; nia. }
  { fold bs. lia. }
  cbn [outcome_bind]. fold bs. rewrite seg_length by lia.
  rewrite copy_into_seg by (rewrite ?seg_length; lia). cbn [outcome_bind]. rewrite Zplus_minus. eauto.
Qed.

(** One transfer of a part of a block, through the temporary buffer. *)
Lemma read_part_step (d : D) (q r r' offset n : Z) (g : Z -> Z) (tmp : list Z) (l : list (option BlockByteTransfer)) :
  let bs := block_size d in
  io_inv d -> io_healthy d -> 0 <= q -> 0 <= r < r' -> r' <= bs -> ~ (r = 0 /\ r' = bs) ->
  0 <= offset <= q * bs + r -> q * bs + r' <= offset + n -> q * bs + r' <= io_len d ->
  tmp = [] \/ Z.of_nat (length tmp) = bs ->
  exists d' tmp', read_transfers (Some (part bs q r r') :: l) d (seg g offset n) tmp offset =
      read_transfers l d' (seg (upd g (q * bs + r) (seg (io_bytes d) (q * bs + r) (r' - r))) offset n) tmp' offset /\
    device_now d d' (io_bytes d) /\ Z.of_nat (length tmp') = bs.
Proof.
  intros bs Hi Hh Hq Hr Hrb Hne Ho Hn Hl Htmp. pose proof (block_size_pos d Hi) as Hpos.
  destruct (healthy_len d Hi Hh) as (m & Em & _ & Hm). fold bs in Em, Hm, Hpos.
  assert (q < m) by nia.
  cbn [read_transfers]. fold bs. rewrite part_unaligned by done.
  set (tmp' := tmp_buffer tmp bs (part bs q r r')).
  assert (Z.of_nat (length tmp') = bs) as Etmp by (by apply tmp_buffer_length).
  cbn [part byte_range_absolute block_range bytes_in_block_range rg_start rg_end].
  destruct (read_healthy d tmp' q 1) as (d1 & -> & Hd1); try done.
  { unfold block_buffer. rewrite Etmp. fold bs. repeat split; nia. }
  { fold bs. nia. }
  cbn [outcome_bind]. rewrite Etmp. fold bs. rewrite slice_seg by lia. cbn [outcome_bind].
  rewrite copy_into_seg by (rewrite ?seg_length; lia). cbn [outcome_bind]. rewrite Zplus_minus.
  eexists _, _. split; [done |]. split; [done |]. rewrite seg_length; lia.
Qed.

(** Reading the transfers of [a .. b] fills that part of the buffer, which starts at
    [offset]. *)
Lemma read_transfers_chain (bs a b : Z) (ts : list (option BlockByteTransfer)) :
  chain bs a b ts -> forall (d : D) (g : Z -> Z) (tmp : list Z) (offset : Z),
  io_inv d -> io_healthy d -> block_size d = bs -> b <= io_len d -> 0 <= offset <= a ->
  tmp = [] \/ Z.of_nat (length tmp) = bs ->
  exists d', read_transfers ts d (seg g offset (b - offset)) tmp offset =
      Done (Ok (b - offset), seg (fun i => if a <=? i then io_bytes d i else g i) offset (b - offset), d') /\
    device_now d d' (io_bytes d).
Proof.
  induction 1 as [a | a b l Hc IH | a q q' b l Hq Ha Hc IH | a q r r' b l Hq Hr Hrb Hn Ha Hc IH];
    intros d g tmp offset Hi Hh <- Hl Ho Htmp;
    pose proof (block_size_pos d Hi) as Hpos; try pose proof (chain_le _ _ _ _ Hpos Hc).
  - exists d. split; [| by apply device_now_refl]. cbn. rewrite seg_length by lia.
    do 2 f_equal. f_equal. apply seg_ext. intros i Hin. by solve_cmp.
  - by apply IH.
  - destruct (read_whole_step d q q' offset (b - offset) g tmp l) as (d1 & -> & Hd1); try done; try lia.
    assert (device_now d d1 (io_bytes d)) as (Hi1 & Hh1 & (Eb & El & _) & Hc1) by done.
    edestruct (IH d1) as (d2 & -> & Hd2); [done | done | done | lia | nia | done |].
    exists d2. split; [| by eapply device_now_trans]. do 2 f_equal. f_equal.
    apply seg_ext. intros i Hin. rewrite upd_seg_other, Hc1 by nia. case_cmp; try nia; done.
  - destruct (read_part_step d q r r' offset (b - offset) g tmp l) as (d1 & tmp1 & -> & Hd1 & Ht); try done; try lia.
    assert (device_now d d1 (io_bytes d)) as (Hi1 & Hh1 & (Eb & El & _) & Hc1) by done.
    edestruct (IH d1) as (d2 & -> & Hd2); [done | done | done | lia | lia | by right |].
    exists d2. split; [| by eapply device_now_trans]. do 2 f_equal. f_equal.
    apply seg_ext. intros i Hin. rewrite upd_seg_other, Hc1 by lia. case_cmp; try lia; done.
Qed.

Lemma write_whole_step (d : D) (q q' offset n : Z) (g : Z -> Z) (tmp : list Z) (l : list (option BlockByteTransfer)) :
  io_inv d -> io_healthy d -> 0 <= q < q' -> 0 <= offset <= q * block_size d ->
  q' * block_size d <= offset + n -> q' * block_size d <= io_len d ->
  exists d', write_transfers (Some (whole (block_size d) q q') :: l) d (seg g offset n) tmp offset =
      write_transfers l d' (seg g offset n) tmp offset /\
    device_now d d' (upd (io_bytes d) (q * block_size d) (seg g (q * block_size d) ((q' - q) * block_size d))).
Proof.
  intros Hi Hh Hq Ho Hn Hl. pose proof (block_size_pos d Hi) as Hpos.
  destruct (healthy_len d Hi Hh) as (m & _ & _ & Hm). set (bs := block_size d) in *.
  assert (q * bs < q' * bs) by nia.
  cbn [write_transfers]. fold bs. rewrite whole_aligned by done.
  cbn [whole byte_range_absolute block_range rg_start rg_end].
  rewrite slice_seg by lia. cbn [outcome_bind]. rewrite Zplus_minus.
  replace (q' * bs - offset - (q * bs - offset)) with ((q' - q) * bs) by lia.
  destruct (write_healthy d (seg g (q * bs) ((q' - q) * bs)) q (q' - q)) as (d1 & -> & Hd1); try done.
  { unfold block_buffer. fold bs. rewrite seg_length by lia. repeat split; nia. }
  { fold bs. lia. }
  cbn [outcome_bind]. eauto.
Qed.

(** Storing a block in which only some bytes are new stores those bytes. *)
Lemma upd_inner (f : Z -> Z) (a n c i : Z) (l : list Z) :
  a <= c -> c + Z.of_nat (length l) <= a + n ->
  upd f a (seg (upd f c l) a n) i = upd f c l i.
Proof.
  intros ??. rewrite upd_seg_other by lia. case_cmp; try done; symmetry; apply upd_out; lia.
Qed.

Lemma write_part_step (d : D) (q r r' offset n : Z) (g : Z -> Z) (tmp : list Z) (l : list (option BlockByteTransfer)) :
  let bs := block_size d in
  io_inv d -> io_healthy d -> 0 <= q -> 0 <= r < r' -> r' <= bs -> ~ (r = 0 /\ r' = bs) ->
  0 <= offset <= q * bs + r -> q * bs + r' <= offset + n -> q * bs + r' <= io_len d ->
  tmp = [] \/ Z.of_nat (length tmp) = bs ->
  exists d' tmp', write_transfers (Some (part bs q r r') :: l) d (seg g offset n) tmp offset =
      write_transfers l d' (seg g offset n) tmp' offset /\
    device_now d d' (upd (io_bytes d) (q * bs + r) (seg g (q * bs + r) (r' - r))) /\
    Z.of_nat (length tmp') = bs.
Proof.
  intros bs Hi Hh Hq Hr Hrb Hne Ho Hn Hl Htmp. pose proof (block_size_pos d Hi) as Hpos.
  destruct (healthy_len d Hi Hh) as (m & Em & _ & Hm). fold bs in Em, Hm, Hpos.
  assert (q < m) by nia.
  cbn [write_transfers]. fold bs. rewrite part_unaligned by done.
  set (tmp' := tmp_buffer tmp bs (part bs q r r')).
  assert (Z.of_nat (length tmp') = bs) as Etmp by (by apply tmp_buffer_length).
  cbn [part byte_range_absolute block_range bytes_in_block_range rg_start rg_end].
  destruct (read_healthy d tmp' q 1) as (d1 & -> & Hd1); try done.
  { unfold block_buffer. rewrite Etmp. fold bs. repeat split; nia. }
  { fold bs. nia. }
  cbn [outcome_bind]. rewrite Etmp. fold bs. rewrite slice_seg by lia. cbn [outcome_bind].
  rewrite copy_into_seg by (rewrite ?seg_length; lia). cbn [outcome_bind]. rewrite Zplus_minus.
  replace (q * bs + r' - offset - (q * bs + r - offset)) with (r' - r) by lia.
  assert (device_now d d1 (io_bytes d)) as (Hi1 & Hh1 & (Eb & El & _) & Hc1) by done.
  set (blk := seg _ (q * bs) bs). assert (Z.of_nat (length blk) = bs) as Eblk by (by apply seg_length; lia).
  destruct (write_healthy d1 blk q 1) as (d2 & -> & Hd2); try done.
  { unfold block_buffer. rewrite Eblk, Eb. fold bs. repeat split; nia. }
  { rewrite Eb, El. fold bs. nia. }
  cbn [outcome_bind]. eexists _, _. split; [done |]. split; [| done].
  eapply device_now_trans; [done | done |]. intros i. rewrite Eb. fold bs.
  rewrite (upd_ext _ (io_bytes d)) by done. apply upd_inner; [lia |]. rewrite seg_length; lia.
Qed.

Lemma write_transfers_chain (bs a b : Z) (ts : list (option BlockByteTransfer)) :
  chain bs a b ts -> forall (d : D) (g : Z -> Z) (tmp : list Z) (offset : Z),
  io_inv d -> io_healthy d -> block_size d = bs -> b <= io_len d -> 0 <= offset <= a ->
  tmp = [] \/ Z.of_nat (length tmp) = bs ->
  exists d', write_transfers ts d (seg g offset (b - offset)) tmp offset = Done (Ok (b - offset), d') /\
    device_now d d' (upd (io_bytes d) a (seg g a (b - a))).
Proof.
  induction 1 as [a | a b l Hc IH | a q q' b l Hq Ha Hc IH | a q r r' b l Hq Hr Hrb Hn Ha Hc IH];
    intros d g tmp offset Hi Hh <- Hl Ho Htmp;
    pose proof (block_size_pos d Hi) as Hpos; try pose proof (chain_le _ _ _ _ Hpos Hc).
  - exists d. cbn. rewrite seg_length by lia. split; [done |].
    eapply device_now_trans; [by apply device_now_refl | by apply device_now_refl |].
    intros i. by rewrite Z.sub_diag, upd_nil.
  - by apply IH.
  - destruct (write_whole_step d q q' offset (b - offset) g tmp l) as (d1 & -> & Hd1); try done; try lia.
    pose proof Hd1 as (Hi1 & Hh1 & (Eb & El & _) & Hc1).
    edestruct (IH d1) as (d2 & -> & Hd2); [done | done | done | lia | nia | done |].
    exists d2. split; [done |]. eapply device_now_trans; [done | done |]. intros i.
    rewrite (upd_ext _ _ _ _ Hc1). subst a.
    replace (b - q * block_size d) with ((q' - q) * block_size d + (b - q' * block_size d)) by lia.
    rewrite seg_app, <- upd_app, seg_length by nia.
    by replace (q * block_size d + (q' - q) * block_size d) with (q' * block_size d) by lia.
  - destruct (write_part_step d q r r' offset (b - offset) g tmp l) as (d1 & tmp1 & -> & Hd1 & Ht); try done; try lia.
    pose proof Hd1 as (Hi1 & Hh1 & (Eb & El & _) & Hc1).
    edestruct (IH d1) as (d2 & -> & Hd2); [done | done | done | lia | lia | by right |].
    exists d2. split; [done |]. eapply device_now_trans; [done | done |]. intros i.
    rewrite (upd_ext _ _ _ _ Hc1). subst a.
    replace (b - (q * block_size d + r)) with ((r' - r) + (b - (q * block_size d + r'))) by lia.
    rewrite seg_app, <- upd_app, seg_length by lia.
    by replace (q * block_size d + r + (r' - r)) with (q * block_size d + r') by lia.
Qed.

(** A buffer is a segment of the contents that hold it. *)
Lemma buffer_seg (buffer : list Z) (a : Z) :
  seg (upd (fun _ => 0) a buffer) a (Z.of_nat (length buffer)) = buffer.
Proof. apply seg_upd. Qed.

Lemma wrapper_read_ok (d : D) (buffer : list Z) (offset : Z) :
  io_inv d -> io_healthy d -> 0 <= offset -> offset + Z.of_nat (length buffer) <= io_len d ->
  exists d', wrapper_read_at d buffer offset =
      Done (Ok (Z.of_nat (length buffer)), seg (io_bytes d) offset (Z.of_nat (length buffer)), d') /\
    device_now d d' (io_bytes d).
Proof.
  intros Hi Hh Ho Hl. pose proof (block_size_pos d Hi). destruct (healthy_len d Hi Hh) as (m & _ & _ & Hm).
  unfold wrapper_read_at. rewrite wrap64_id by (split; unfold U64_MAX in *; lia).
  destruct (blocks_from_bytes_chain (block_size d) ltac:(done) offset (offset + Z.of_nat (length buffer)))
    as (ts & -> & _ & Hc); [lia | lia |]. cbn [outcome_bind].
  destruct (read_transfers_chain _ _ _ _ Hc d (upd (fun _ => 0) offset buffer) [] offset)
    as (d' & E & Hd'); try done; try lia; [by left |].
  rewrite Z.add_simpl_l, buffer_seg in E. exists d'. split; [| done]. rewrite E. do 2 f_equal. f_equal.
  apply seg_ext. intros i Hin. by solve_cmp.
Qed.

Lemma wrapper_write_ok (d : D) (buffer : list Z) (offset : Z) :
  io_inv d -> io_healthy d -> 0 <= offset -> offset + Z.of_nat (length buffer) <= io_len d ->
  exists d', wrapper_write_at d buffer offset = Done (Ok (Z.of_nat (length buffer)), d') /\
    device_now d d' (upd (io_bytes d) offset buffer).
Proof.
  intros Hi Hh Ho Hl. pose proof (block_size_pos d Hi). destruct (healthy_len d Hi Hh) as (m & _ & _ & Hm).
  unfold wrapper_write_at. rewrite wrap64_id by (split; unfold U64_MAX in *; lia).
  destruct (blocks_from_bytes_chain (block_size d) ltac:(done) offset (offset + Z.of_nat (length buffer)))
    as (ts & -> & _ & Hc); [lia | lia |]. cbn [outcome_bind].
  destruct (write_transfers_chain _ _ _ _ Hc d (upd (fun _ => 0) offset buffer) [] offset)
    as (d' & E & Hd'); try done; try lia; [by left |].
  rewrite Z.add_simpl_l, buffer_seg in E. exists d'. split; [done |].
  eapply device_now_trans; [by apply device_now_refl | done |]. intros i.
  by rewrite Z.add_simpl_l, buffer_seg.
Qed.

Lemma flush_ok (d : D) :
  io_inv d -> io_healthy d -> exists d', flush_blocks d = Done (Ok tt, d') /\ device_now d d' (io_bytes d).
Proof.
  intros Hi Hh. destruct (flush_law d Hi) as (r & d' & E & Hi' & Hg & Hc).
  destruct (healthy_flush _ _ _ Hi Hh E) as [-> Hh']. exists d'. unfold device_now. auto.
Qed.

End Access.

(** ** Byte streams

    [ByteIOLaws], what a byte-wise device promises; the wrappers of [Io] keep it over any
    healthy block device.  The stateful [ReaderWriter], verified against the interface. *)

(** Within its length, a byte-wise device reads and stores exactly the bytes asked for. *)
Class ByteIOLaws (D : Type) {io : ByteIO D} := {
  by_inv : D -> Prop;
  by_bytes : D -> Z -> Z;
  byte_len_bounds : forall d, by_inv d -> 0 <= byte_len d <= U64_MAX;
  byte_read_law : forall d buf off, by_inv d -> 0 <= off -> buf <> [] ->
    off + Z.of_nat (length buf) <= byte_len d ->
    exists d', read_at d buf off =
        Done (Ok (Z.of_nat (length buf)), seg (by_bytes d) off (Z.of_nat (length buf)), d') /\
      by_inv d' /\ byte_len d' = byte_len d /\ (forall i, by_bytes d' i = by_bytes d i);
  byte_write_law : forall d buf off, by_inv d -> 0 <= off -> buf <> [] ->
    off + Z.of_nat (length buf) <= byte_len d ->
    exists d', write_at d buf off = Done (Ok (Z.of_nat (length buf)), d') /\
      by_inv d' /\ byte_len d' = byte_len d /\ (forall i, by_bytes d' i = upd (by_bytes d) off buf i);
  byte_flush_law : forall d, by_inv d ->
    exists d', flush_bytes d = Done (Ok tt, d') /\
      by_inv d' /\ byte_len d' = byte_len d /\ (forall i, by_bytes d' i = by_bytes d i);
}.

(** ** Over a block device *)

Section Wrapper.
Context {D : Type} {bio : BlockIO D} {laws : BlockIOLaws D} {healthy : HealthyIO D}.

#[local] Lemma wrapper_len_bounds (d : D) : io_inv d /\ io_healthy d -> 0 <= io_len d <= U64_MAX.
Proof.
  intros [Hi Hh]. pose proof (block_size_pos d Hi). destruct (healthy_len d Hi Hh) as (m & E & ? & ?). nia.
Qed.

#[local] Lemma device_now_byte (d d' : D) (f : Z -> Z) :
  device_now d d' f ->
  (io_inv d' /\ io_healthy d') /\ io_len d' = io_len d /\ (forall i, io_bytes d' i = f i).
Proof. intros (? & ? & (? & ? & ?) & ?). auto. Qed.

#[export] Program Instance byte_wrapper_laws : ByteIOLaws D (io := byte_wrapper) := {|
  by_inv := fun d => io_inv d /\ io_healthy d;
  by_bytes := io_bytes;
|}.
Next Obligation. by apply wrapper_len_bounds. Qed.
Next Obligation.
  intros d buf off [Hi Hh] Ho _ Hl. destruct (wrapper_read_ok d buf off) as (d' & E & Hd'); try done.
  exists d'. split; [exact E | by apply device_now_byte].
Qed.
Next Obligation.
  intros d buf off [Hi Hh] Ho _ Hl. destruct (wrapper_write_ok d buf off) as (d' & E & Hd'); try done.
  exists d'. split; [exact E | by apply device_now_byte].
Qed.
Next Obligation.
  intros d [Hi Hh]. destruct (flush_ok d) as (d' & E & Hd'); try done.
  exists d'. split; [exact E | by apply device_now_byte].
Qed.

End Wrapper.

(** ** Stateful streams *)

Section Streams.
Context {D : Type} {io : ByteIO D} {laws : ByteIOLaws D}.

(** The stream is over the same device, whose contents are [f], at offset [o]. *)
Definition stream_now (rw rw' : ReaderWriter D) (f : Z -> Z) (o : Z) : Prop :=
  by_inv (rw_io rw') /\ byte_len (rw_io rw') = byte_len (rw_io rw) /\
  (forall i, by_bytes (rw_io rw') i = f i) /\ rw_offset rw' = o.

(** The stream can move on by [n] bytes. *)
Definition room (rw : ReaderWriter D) (n : Z) : Prop :=
  by_inv (rw_io rw) /\ 0 <= rw_offset rw /\ rw_offset rw + n <= byte_len (rw_io rw).

Lemma rw_read_ok (rw : ReaderWriter D) (buf : list Z) :
  buf <> [] -> room rw (Z.of_nat (length buf)) ->
  exists rw', rw_read rw buf =
      Done (Ok (Z.of_nat (length buf)),
            seg (by_bytes (rw_io rw)) (rw_offset rw) (Z.of_nat (length buf)), rw') /\
    stream_now rw rw' (by_bytes (rw_io rw)) (rw_offset rw + Z.of_nat (length buf)).
Proof.
  intros Hne (Hi & Ho & Hl). destruct (byte_read_law _ _ _ Hi Ho Hne Hl) as (d' & E & Hi' & El & Hc).
  pose proof (byte_len_bounds _ Hi). unfold rw_read. rewrite E. cbn [outcome_bind].
  rewrite wrap64_id by (split; lia). eexists. split; [done |]. by repeat split.
Qed.

Lemma rw_write_ok (rw : ReaderWriter D) (buf : list Z) :
  buf <> [] -> room rw (Z.of_nat (length buf)) ->
  exists rw', rw_write rw buf = Done (Ok (Z.of_nat (length buf)), rw') /\
    stream_now rw rw' (upd (by_bytes (rw_io rw)) (rw_offset rw) buf) (rw_offset rw + Z.of_nat (length buf)).
Proof.
  intros Hne (Hi & Ho & Hl). destruct (byte_write_law _ _ _ Hi Ho Hne Hl) as (d' & E & Hi' & El & Hc).
  pose proof (byte_len_bounds _ Hi). unfold rw_write. rewrite E. cbn [outcome_bind].
  rewrite wrap64_id by (split; lia). eexists. split; [done |]. by repeat split.
Qed.

Lemma room_now (rw rw' : ReaderWriter D) (f : Z -> Z) (n m : Z) :
  0 <= n -> room rw (n + m) -> stream_now rw rw' f (rw_offset rw + n) -> room rw' m.
Proof. intros ? (? & ? & ?) (? & E & _ & Eo). unfold room. rewrite E, Eo. split; [done | lia]. Qed.

(** The writes of [bufs] one after another, each of which must complete. *)
Fixpoint write_all (rw : ReaderWriter D) (bufs : list (list Z)) : outcome (option (ReaderWriter D)) :=
  match bufs with
  | [] => Done (Some rw)
  | buf :: bufs' =>
      let* (r, rw) := rw_write rw buf in
      match r with
      | Ok n => if n =? Z.of_nat (length buf) then write_all rw bufs' else Done None
      | Err _ => Done None
      end
  end.

Lemma write_all_ok (bufs : list (list Z)) (rw : ReaderWriter D) :
  Forall (fun buf => buf <> []) bufs -> room rw (Z.of_nat (length (concat bufs))) ->
  exists rw', write_all rw bufs = Done (Some rw') /\
    stream_now rw rw' (upd (by_bytes (rw_io rw)) (rw_offset rw) (concat bufs))
      (rw_offset rw + Z.of_nat (length (concat bufs))).
Proof.
  revert rw. induction bufs as [| buf bufs IH]; intros rw Hne Hr.
  - exists rw. cbn. split; [done |]. destruct Hr as (? & ? & ?).
    split; [done |]. split; [done |]. split; [intros i; by rewrite upd_nil | cbn; lia].
  - apply Forall_cons in Hne as [Hb Hne]. cbn [concat] in *. rewrite length_app, Nat2Z.inj_add in *.
    destruct (rw_write_ok rw buf Hb) as (rw1 & E1 & H1).
    { destruct Hr as (? & ? & ?). unfold room. split; [done | lia]. }
    assert (room rw1 (Z.of_nat (length (concat bufs)))) as Hr1 by (eapply room_now; [| done | done]; lia).
    destruct (IH rw1 Hne Hr1) as (rw2 & E2 & H2). exists rw2. cbn [write_all]. rewrite E1. cbn [outcome_bind].
    rewrite Z.eqb_refl. split; [done |].
    destruct H1 as (_ & El1 & Hc1 & Eo1). destruct H2 as (Hi2 & El2 & Hc2 & Eo2).
    split; [done |]. split; [congruence |]. split; [| rewrite Eo2, Eo1; lia].
    intros i. rewrite Hc2, (upd_ext _ _ _ _ Hc1), Eo1. apply upd_app.
Qed.

(** The position a seek asks for. *)
Definition seek_target (rw : ReaderWriter D) (position : SeekFrom) : Z :=
  match position with
  | Start n => n
  | Current n => rw_offset rw + n
  | End n => byte_len (rw_io rw) + n
  end.

(** [u64] for [SeekFrom::Start], [i64] for the others. *)
Definition seek_arg_ok (position : SeekFrom) : Prop :=
  match position with
  | Start n => in_u64 n
  | Current n | End n => I64_MIN <= n < - I64_MIN
  end.

(** Moving by a signed distance, in the steps the code takes. *)
Lemma signed_move (base n : Z) :
  in_u64 base -> I64_MIN <= n < - I64_MIN ->
  (if 0 <=? n then checked_add base (wrap64 n) else checked_sub base (wrap64 (wrapping_neg n))) =
    if (0 <=? base + n) && (base + n <=? U64_MAX) then Some (base + n) else None.
Proof.
  unfold in_u64, checked_add, checked_sub, wrapping_neg, U64_MAX, I64_MIN. intros Hb Hn.
  destruct (Z.leb_spec 0 n).
  - rewrite wrap64_id by (split; unfold U64_MAX; lia). by case_cmp; try lia.
  - destruct (Z.eqb_spec n (-9223372036854775808)) as [-> | Hne].
    + replace (wrap64 (-9223372036854775808)) with 9223372036854775808 by done.
      by case_cmp; try lia.
    + rewrite wrap64_id by (split; unfold U64_MAX; lia). rewrite Z.sub_opp_r. by case_cmp; try lia.
Qed.

Lemma rw_seek_target (rw : ReaderWriter D) (position : SeekFrom) :
  in_u64 (rw_offset rw) -> in_u64 (byte_len (rw_io rw)) -> seek_arg_ok position ->
  rw_seek rw position =
    if (0 <=? seek_target rw position) && (seek_target rw position <=? U64_MAX)
    then (Ok (seek_target rw position), mkRW (rw_io rw) (seek_target rw position))
    else (Err KindInvalidInput, rw).
Proof.
  intros Ho Hl Ha. destruct position as [n | n | n]; cbn in Ha; unfold rw_seek, seek_target.
  - unfold in_u64 in Ha. by solve_cmp.
  - rewrite signed_move by done. by destruct ((0 <=? _) && _).
  - rewrite signed_move by done. by destruct ((0 <=? _) && _).
Qed.

End Streams.
