(* ===== verification/BlockCache.v ===== *)
(** * The write-back block cache: operations

    Models kernel/block_cache/src/lib.rs.  The cache owns the device below it, which is any
    implementation of [BlockIO]; the cache implements [BlockIO] in turn.  The order in
    which a [HashMap] is iterated is not specified: it is the parameter [hash_iter], which
    yields every entry once. *)

From stdpp Require Import gmap.
From S2P Require Import Prelude Io.

Inductive CacheState : Type := Modified | Shared | Invalid.

#[export] Instance CacheState_eq_dec : EqDecision CacheState.
Proof. solve_decision. Defined.

Record CachedBlock := mkCached { cb_data : list Z; cb_state : CacheState; cb_lru_tick : Z }.

(** The iteration order of the hash map. *)
Class HashIter := {
  hash_iter : gmap Z CachedBlock -> list (Z * CachedBlock);
  hash_iter_perm : forall m, hash_iter m ≡ₚ map_to_list m;
}.

Record BlockCache (D : Type) := mkCache {
  bc_cache : gmap Z CachedBlock;
  bc_device : D;
  bc_capacity : Z;
  bc_tick : Z;
  bc_hits : Z;
  bc_misses : Z;
  bc_evictions : Z;
  bc_dirty_flushes : Z;
}.
Arguments mkCache {D}.
Arguments bc_cache {D}.
Arguments bc_device {D}.
Arguments bc_capacity {D}.
Arguments bc_tick {D}.
Arguments bc_hits {D}.
Arguments bc_misses {D}.
Arguments bc_evictions {D}.
Arguments bc_dirty_flushes {D}.

Record CacheStats := mkStats {
  st_hits : Z; st_misses : Z; st_hit_rate : Z; st_evictions : Z; st_dirty_flushes : Z;
  st_entries : Z; st_capacity : Z; st_dirty_entries : Z;
}.

Definition DEFAULT_CAPACITY : Z := 2048.

(** [min_by_key]: the first of the least elements. *)
Fixpoint min_by_key {A : Type} (key : A -> Z) (l : list A) : option A :=
  match l with
  | [] => None
  | x :: l' =>
      match min_by_key key l' with
      | None => Some x
      | Some y => if key y <? key x then Some y else Some x
      end
  end.

Section Cache.
Context {D : Type} {bio : BlockIO D} {hash : HashIter}.

Implicit Types c : BlockCache D.

Definition set_cache c (m : gmap Z CachedBlock) : BlockCache D :=
  mkCache m (bc_device c) (bc_capacity c) (bc_tick c) (bc_hits c) (bc_misses c) (bc_evictions c) (bc_dirty_flushes c).

Definition set_device c (d : D) : BlockCache D :=
  mkCache (bc_cache c) d (bc_capacity c) (bc_tick c) (bc_hits c) (bc_misses c) (bc_evictions c) (bc_dirty_flushes c).

Definition add_tick c : BlockCache D :=
  mkCache (bc_cache c) (bc_device c) (bc_capacity c) (wrap64 (bc_tick c + 1)) (bc_hits c) (bc_misses c)
    (bc_evictions c) (bc_dirty_flushes c).

Definition add_hit c : BlockCache D :=
  mkCache (bc_cache c) (bc_device c) (bc_capacity c) (bc_tick c) (wrap64 (bc_hits c + 1)) (bc_misses c)
    (bc_evictions c) (bc_dirty_flushes c).

Definition add_miss c : BlockCache D :=
  mkCache (bc_cache c) (bc_device c) (bc_capacity c) (bc_tick c) (bc_hits c) (wrap64 (bc_misses c + 1))
    (bc_evictions c) (bc_dirty_flushes c).

Definition add_eviction c : BlockCache D :=
  mkCache (bc_cache c) (bc_device c) (bc_capacity c) (bc_tick c) (bc_hits c) (bc_misses c)
    (wrap64 (bc_evictions c + 1)) (bc_dirty_flushes c).

Definition add_dirty_flush c : BlockCache D :=
  mkCache (bc_cache c) (bc_device c) (bc_capacity c) (bc_tick c) (bc_hits c) (bc_misses c) (bc_evictions c)
    (wrap64 (bc_dirty_flushes c + 1)).

Definition touch (cb : CachedBlock) (tick : Z) : CachedBlock := mkCached (cb_data cb) (cb_state cb) tick.

Definition with_state (cb : CachedBlock) (s : CacheState) : CachedBlock := mkCached (cb_data cb) s (cb_lru_tick cb).

(** [with_capacity] and [new]. *)
Definition with_capacity (device : D) (capacity : Z) : BlockCache D := mkCache ∅ device capacity 0 0 0 0 0.

Definition new (device : D) : BlockCache D := with_capacity device DEFAULT_CAPACITY.

(** [invalidate]. *)
Definition invalidate c (block : Z) : BlockCache D :=
  match bc_cache c !! block with
  | Some cb => set_cache c (<[block := with_state cb Invalid]> (bc_cache c))
  | None => c
  end.

(** Writes one modified block back. *)
Definition write_back c (bn : Z) (cb : CachedBlock) (msg : string)
  : outcome (result unit string * BlockCache D) :=
  let* (r, dev) := write_blocks (bc_device c) (cb_data cb) bn in
  let c := set_device c dev in
  match r with
  | Err _ => Done (Err msg, c)
  | Ok _ => Done (Ok tt, add_dirty_flush (set_cache c (<[bn := with_state cb Shared]> (bc_cache c))))
  end.

Definition is_modified (cb : CachedBlock) : bool := bool_decide (cb_state cb = Modified).

Fixpoint flush_loop c (dirty : list Z) : outcome (result unit string * BlockCache D) :=
  match dirty with
  | [] => Done (Ok tt, c)
  | bn :: dirty' =>
      let* cb := expect (bc_cache c !! bn) in
      let* (r, c) := write_back c bn cb "BlockCache::flush_all: device write error" in
      match r with
      | Err e => Done (Err e, c)
      | Ok _ => flush_loop c dirty'
      end
  end.

Definition dirty_blocks c : list Z := (List.filter (fun kv => is_modified kv.2) (hash_iter (bc_cache c))).*1.

(** [BlockCache::flush]. *)
Definition flush c (block_num : option Z) : outcome (result unit string * BlockCache D) :=
  match block_num with
  | Some bn =>
      match bc_cache c !! bn with
      | Some cb =>
          if is_modified cb then write_back c bn cb "BlockCache::flush: device write error"
          else Done (Ok tt, c)
      | None => Done (Ok tt, c)
      end
  | None => flush_loop c (dirty_blocks c)
  end.

Definition flush_and_clear c : outcome (result unit string * BlockCache D) :=
  let* (r, c) := flush c None in
  match r with
  | Err e => Done (Err e, c)
  | Ok _ => Done (Ok tt, set_cache c ∅)
  end.

Definition stats c : CacheStats :=
  let total := wrap64 (bc_hits c + bc_misses c) in
  mkStats (bc_hits c) (bc_misses c) (if 0 <? total then wrap64 (bc_hits c * 100) / total else 0)
    (bc_evictions c) (bc_dirty_flushes c) (Z.of_nat (size (bc_cache c))) (bc_capacity c)
    (Z.of_nat (length (dirty_blocks c))).

(** The least recently used entry among those that satisfy [p]. *)
Definition lru_victim c (p : CachedBlock -> bool) : option Z :=
  fst <$> min_by_key (fun kv => cb_lru_tick kv.2) (List.filter (fun kv => p kv.2) (hash_iter (bc_cache c))).

Definition remove_entry c (block : Z) : BlockCache D := add_eviction (set_cache c (delete block (bc_cache c))).

Definition evict_one c : outcome (result unit string * BlockCache D) :=
  match lru_victim c (fun cb => negb (is_modified cb)) with
  | Some block => Done (Ok tt, remove_entry c block)
  | None =>
      let* (r, c) := flush c None in
      match r with
      | Err e => Done (Err e, c)
      | Ok _ =>
          match lru_victim c (fun _ => true) with
          | Some block => Done (Ok tt, remove_entry c block)
          | None => Done (Ok tt, c)
          end
      end
  end.

(** The eviction that [load_from_device] and [write_block] start with. *)
Definition make_room c (block : Z) : outcome (result unit string * BlockCache D) :=
  match bc_cache c !! block with
  | Some _ => Done (Ok tt, c)
  | None => if bc_capacity c <=? Z.of_nat (size (bc_cache c)) then evict_one c else Done (Ok tt, c)
  end.

Definition load_from_device c (block : Z) : outcome (result unit string * BlockCache D) :=
  let bs := block_size (bc_device c) in
  let* (r, c) := make_room c block in
  match r with
  | Err e => Done (Err e, c)
  | Ok _ =>
      let* (r, data, dev) := read_blocks (bc_device c) (replicate (Z.to_nat bs) 0) block in
      let c := set_device c dev in
      match r with
      | Err _ => Done (Err "BlockCache: device read error", c)
      | Ok _ =>
          let c := add_miss c in
          Done (Ok tt, set_cache c (<[block := mkCached data Shared (bc_tick c)]> (bc_cache c)))
      end
  end.

Definition valid_entry (o : option CachedBlock) : bool :=
  match o with
  | Some cb => negb (bool_decide (cb_state cb = Invalid))
  | None => false
  end.

(** The first look-up of [read_block]: a hit is counted and its entry touched. *)
Definition count_hit c (block : Z) : BlockCache D :=
  match bc_cache c !! block with
  | Some cb =>
      if valid_entry (Some cb)
      then add_hit (set_cache c (<[block := touch cb (bc_tick c)]> (bc_cache c)))
      else c
  | None => c
  end.

Definition read_block c (block : Z) : outcome (result (list Z) string * BlockCache D) :=
  let c := count_hit (add_tick c) block in
  let* (r, c) := if valid_entry (bc_cache c !! block) then Done (Ok tt, c) else load_from_device c block in
  match r with
  | Err e => Done (Err e, c)
  | Ok _ =>
      let* cb := expect (bc_cache c !! block) in
      Done (Ok (cb_data cb), set_cache c (<[block := touch cb (bc_tick c)]> (bc_cache c)))
  end.

Definition write_block c (block : Z) (data : list Z) : outcome (result unit string * BlockCache D) :=
  let c := add_tick c in
  let tick := bc_tick c in
  if negb (Z.of_nat (length data) =? block_size (bc_device c)) then
    Done (Err "BlockCache::write_block: buffer size mismatch", c)
  else
    let* (r, c) := make_room c block in
    match r with
    | Err e => Done (Err e, c)
    | Ok _ => Done (Ok tt, set_cache c (<[block := mkCached data Modified tick]> (bc_cache c)))
    end.

(** ** The cache as a block device *)

(** The loops of [read_blocks] and [write_blocks], with [n] blocks to go from the [i]th. *)
Fixpoint cache_read_loop c (buffer : list Z) (block_offset bs : Z) (n : nat) (i : Z)
  : outcome (result unit IoError * list Z * BlockCache D) :=
  match n with
  | O => Done (Ok tt, buffer, c)
  | S n' =>
      let* (r, c) := read_block c (wrap64 (block_offset + i)) in
      match r with
      | Err _ => Done (Err InvalidInput, buffer, c)
      | Ok src =>
          let* buffer := copy_into buffer (i * bs) ((i + 1) * bs) src in
          cache_read_loop c buffer block_offset bs n' (i + 1)
      end
  end.

Definition cache_read_blocks c (buffer : list Z) (block_offset : Z)
  : outcome (result Z IoError * list Z * BlockCache D) :=
  let bs := block_size (bc_device c) in
  if bs =? 0 then Panic
  else
    let num_blocks := Z.of_nat (length buffer) / bs in
    let* (r, buffer, c) := cache_read_loop c buffer block_offset bs (Z.to_nat num_blocks) 0 in
    match r with
    | Err e => Done (Err e, buffer, c)
    | Ok _ => Done (Ok num_blocks, buffer, c)
    end.

Fixpoint cache_write_loop c (buffer : list Z) (block_offset bs : Z) (n : nat) (i : Z)
  : outcome (result unit IoError * BlockCache D) :=
  match n with
  | O => Done (Ok tt, c)
  | S n' =>
      let* chunk := slice buffer (i * bs) ((i + 1) * bs) in
      let* (r, c) := write_block c (wrap64 (block_offset + i)) chunk in
      match r with
      | Err _ => Done (Err InvalidInput, c)
      | Ok _ => cache_write_loop c buffer block_offset bs n' (i + 1)
      end
  end.

Definition cache_write_blocks c (buffer : list Z) (block_offset : Z)
  : outcome (result Z IoError * BlockCache D) :=
  let bs := block_size (bc_device c) in
  if bs =? 0 then Panic
  else
    let num_blocks := Z.of_nat (length buffer) / bs in
    let* (r, c) := cache_write_loop c buffer block_offset bs (Z.to_nat num_blocks) 0 in
    match r with
    | Err e => Done (Err e, c)
    | Ok _ => Done (Ok num_blocks, c)
    end.

Definition cache_flush c : outcome (result unit IoError * BlockCache D) :=
  let* (r, c) := flush c None in
  match r with
  | Err _ => Done (Err InvalidInput, c)
  | Ok _ => Done (Ok tt, c)
  end.

#[export] Instance cache_block_io : BlockIO (BlockCache D) := {|
  block_size := fun c => block_size (bc_device c);
  io_len := fun c => io_len (bc_device c);
  size_in_blocks := fun c => size_in_blocks (bc_device c);
  read_blocks := cache_read_blocks;
  write_blocks := cache_write_blocks;
  flush_blocks := cache_flush;
|}.

End Cache.
