(* ===== verification/BlockCacheSpec.v ===== *)
(** * The write-back block cache: refinement

    The contents of the cache are the device's, overlaid with the valid entries.  Every
    operation of [BlockCache] acts on these contents the way a device would: reads return
    them, writes store into them, and eviction, loading and flushing leave them alone,
    whether or not the device fails.  A successful flush makes the device hold them.  The
    cache therefore keeps [BlockIOLaws] and [HealthyIO] over any device that does. *)

From stdpp Require Import gmap.
From S2P Require Import Prelude Io IoSpec BlockCache.

(** ** Blocks of contents *)

Lemma seg_block_upd (f : Z -> Z) (bs k j : Z) (l : list Z) :
  Z.of_nat (length l) = bs ->
  seg (upd f (k * bs) l) (j * bs) bs = if decide (j = k) then l else seg f (j * bs) bs.
Proof.
  intros E. destruct (decide (j = k)) as [-> | Hne].
  - rewrite <- E at 3. apply seg_upd.
  - apply seg_ext. intros i Hi. apply upd_out. nia.
Qed.

Lemma seg_block_outside (f g : Z -> Z) (bs k j : Z) :
  0 < bs -> (forall i, i < k * bs \/ (k + 1) * bs <= i -> f i = g i) -> j <> k ->
  seg f (j * bs) bs = seg g (j * bs) bs.
Proof. intros ? E ?. apply seg_ext. intros i Hi. apply E. nia. Qed.

Section Spec.
Context {D : Type} {bio : BlockIO D} {hash : HashIter} {laws : BlockIOLaws D}.

Implicit Types c : BlockCache D.

#[local] Abbreviation bsize c := (block_size (bc_device c)).

(** The contents of block [k]. *)
Definition block_of c (k : Z) : list Z :=
  match bc_cache c !! k with
  | Some cb => if decide (cb_state cb = Invalid) then seg (io_bytes (bc_device c)) (k * bsize c) (bsize c) else cb_data cb
  | None => seg (io_bytes (bc_device c)) (k * bsize c) (bsize c)
  end.

Definition cache_bytes c (i : Z) : Z := default 0 (block_of c (i / bsize c) !! Z.to_nat (i mod bsize c)).

Record entry_ok (d : D) (k : Z) (cb : CachedBlock) : Prop := {
  eo_addr : 0 <= k /\ (k + 1) * block_size d <= U64_MAX;
  eo_len : Z.of_nat (length (cb_data cb)) = block_size d;
  eo_shared : cb_state cb = Shared -> cb_data cb = seg (io_bytes d) (k * block_size d) (block_size d);
}.

(** Entries hold a block each, a [Shared] entry agrees with the device, and the cache
    does not outgrow its capacity (a cache of capacity 0 holds one block). *)
Record cache_inv c : Prop := {
  ci_device : io_inv (bc_device c);
  ci_entries : forall k cb, bc_cache c !! k = Some cb -> entry_ok (bc_device c) k cb;
  ci_size : Z.of_nat (size (bc_cache c)) <= Z.max 1 (bc_capacity c);
}.

(** [c'] is a good state of the same cache. *)
Definition cache_step c c' : Prop :=
  cache_inv c' /\ same_geometry (bc_device c) (bc_device c') /\ bc_capacity c' = bc_capacity c.

(** [c'] moreover holds the same contents. *)
Definition cache_same c c' : Prop := cache_step c c' /\ forall k, block_of c' k = block_of c k.

Lemma cache_same_refl c : cache_inv c -> cache_same c c.
Proof. intros ?. split; [| done]. split; [done |]. auto using same_geometry_refl. Qed.

Lemma cache_step_trans c1 c2 c3 : cache_step c1 c2 -> cache_step c2 c3 -> cache_step c1 c3.
Proof.
  intros (? & ? & ?) (? & ? & ?). split; [done |]. split; [by eapply same_geometry_trans | congruence].
Qed.

Lemma cache_same_trans c1 c2 c3 : cache_same c1 c2 -> cache_same c2 c3 -> cache_same c1 c3.
Proof.
  intros (? & E1) (? & E2). split; [by eapply cache_step_trans |]. intros k. by rewrite E2, E1.
Qed.

Lemma cache_bsize_pos c : cache_inv c -> 0 < bsize c.
Proof. intros []. by apply block_size_pos. Qed.

Lemma block_of_length c (k : Z) : cache_inv c -> Z.of_nat (length (block_of c k)) = bsize c.
Proof.
  intros Hc. pose proof (cache_bsize_pos c Hc). unfold block_of.
  destruct (bc_cache c !! k) as [cb |] eqn:E; [| rewrite seg_length; lia].
  case_decide; [rewrite seg_length; lia |]. by apply (eo_len _ k), ci_entries.
Qed.

(** Blocks and bytes of contents determine each other. *)
Lemma seg_cache_bytes c (k : Z) : cache_inv c -> seg (cache_bytes c) (k * bsize c) (bsize c) = block_of c k.
Proof.
  intros Hc. pose proof (cache_bsize_pos c Hc) as Hpos. pose proof (block_of_length c k Hc) as Hlen.
  apply list_eq. intros i. destruct (decide (Z.of_nat i < bsize c)).
  - rewrite seg_lookup by done. unfold cache_bytes. rewrite block_div, block_mod by lia.
    rewrite Nat2Z.id. destruct (block_of c k !! i) as [x |] eqn:E; [done |].
    apply lookup_ge_None in E. lia.
  - rewrite !lookup_ge_None_2; try done; [lia |].
    pose proof (seg_length (cache_bytes c) (k * bsize c) (bsize c)). lia.
Qed.

Lemma cache_bytes_same c c' :
  bsize c' = bsize c -> (forall k, block_of c' k = block_of c k) -> forall i, cache_bytes c' i = cache_bytes c i.
Proof. intros Eb E i. unfold cache_bytes. by rewrite Eb, E. Qed.

Lemma cache_bytes_write c c' (k : Z) (data : list Z) :
  cache_inv c -> bsize c' = bsize c -> Z.of_nat (length data) = bsize c ->
  (forall j, block_of c' j = if decide (j = k) then data else block_of c j) ->
  forall i, cache_bytes c' i = upd (cache_bytes c) (k * bsize c) data i.
Proof.
  intros Hc Eb El E i. pose proof (cache_bsize_pos c Hc) as Hpos. unfold cache_bytes at 1. rewrite Eb, E.
  pose proof (Z_div_mod_eq_full i (bsize c)) as Ei. pose proof (Z.mod_pos_bound i (bsize c) Hpos) as Hm.
  set (q := i / bsize c) in *. set (r := i mod bsize c) in *.
  destruct (decide (q = k)) as [Hq | Hq].
  - unfold upd. rewrite El. case_cmp; try nia. do 2 f_equal. rewrite <- Hq. lia.
  - rewrite upd_out by nia. unfold cache_bytes. by subst q r.
Qed.

(** ** Updates of the map *)

Lemma size_insert_le {A} (m : gmap Z A) (k : Z) (x : A) : (size (<[k := x]> m) <= S (size m))%nat.
Proof.
  destruct (m !! k) eqn:E; [rewrite map_size_insert_Some; [lia | by eexists] | rewrite map_size_insert_None; [lia | done]].
Qed.

(** ** Writing back *)

(** The contents of [d'] are those of [d] outside block [bn]. *)
Definition same_outside (d d' : D) (bn : Z) : Prop :=
  same_geometry d d' /\
  forall i, i < bn * block_size d \/ (bn + 1) * block_size d <= i -> io_bytes d' i = io_bytes d i.

Lemma entry_ok_outside (d d' : D) (bn k : Z) (cb : CachedBlock) :
  0 < block_size d -> same_outside d d' bn -> k <> bn \/ cb_state cb <> Shared ->
  entry_ok d k cb -> entry_ok d' k cb.
Proof.
  intros Hpos [(Eb & _ & _) Ho] Hk [Ha Hl Hs]. split; rewrite ?Eb; [done | done |].
  intros E. destruct Hk as [Hk |]; [| done]. rewrite Hs by done. symmetry. by eapply seg_block_outside.
Qed.

Lemma block_of_outside c c' (bn k : Z) :
  0 < bsize c -> same_outside (bc_device c) (bc_device c') bn -> k <> bn ->
  bc_cache c' !! k = bc_cache c !! k -> block_of c' k = block_of c k.
Proof.
  intros Hpos [(Eb & _ & _) Ho] Hk E. unfold block_of. rewrite E, Eb.
  rewrite (seg_block_outside _ _ _ _ k Hpos Ho Hk). done.
Qed.

Lemma write_back_ok c (bn : Z) (cb : CachedBlock) (msg : string) :
  cache_inv c -> bc_cache c !! bn = Some cb -> cb_state cb = Modified ->
  exists r c', write_back c bn cb msg = Done (r, c') /\ cache_same c c' /\
    bc_cache c' = match r with Ok _ => <[bn := with_state cb Shared]> (bc_cache c) | Err _ => bc_cache c end.
Proof.
  intros Hc E Hm. pose proof (cache_bsize_pos c Hc) as Hpos. destruct Hc as [Hd He Hs].
  destruct (He bn cb E) as [Ha Hl _]. unfold write_back.
  destruct (write_law (bc_device c) (cb_data cb) bn 1 Hd) as (r & d' & -> & Hi & Hg & Hr).
  { unfold block_buffer. lia. }
  cbn [outcome_bind].
  assert (same_outside (bc_device c) d' bn) as Ho.
  { split; [done |]. destruct r as [k | e]; [| done]. destruct Hr as [_ Hr]. intros i Hi'.
    rewrite Hr, upd_out; [done |]. lia. }
  pose proof Hg as (Eb & _ & _).
  destruct r as [k | e]; eexists _, _; (split; [done |]); (split; [| done]).
  - destruct Hr as [_ Hr]. split; [split; [| done] |].
    + split; cbn; [done | |].
      * intros k' cb' H'. destruct (decide (k' = bn)) as [-> | Hne].
        -- rewrite lookup_insert_eq in H'. simplify_eq. split; cbn; rewrite ?Eb; [done | done |]. intros _.
           rewrite (seg_ext _ _ _ _ (fun i _ => Hr i)), seg_block_upd by done. by rewrite decide_True.
        -- rewrite lookup_insert_ne in H' by done. eapply entry_ok_outside; eauto.
      * rewrite map_size_insert_Some by (by eexists). done.
    + intros k'. destruct (decide (k' = bn)) as [-> | Hne].
      * unfold block_of. cbn. rewrite lookup_insert_eq, E. cbn. by rewrite Hm.
      * eapply block_of_outside; [done | done | done |]. cbn. by rewrite lookup_insert_ne.
  - split; [split; [| done] |].
    + split; cbn; [done | | done]. intros k' cb' H'. eapply entry_ok_outside; [done | done | | by apply He].
      destruct (decide (k' = bn)) as [-> | Hne]; [right; congruence | by left].
    + intros k'. destruct (decide (k' = bn)) as [-> | Hne].
      * unfold block_of. cbn. rewrite E. by rewrite Hm.
      * by eapply block_of_outside.
Qed.

(** Flushing writes back each block of the list, up to a failure. *)
Lemma flush_loop_ok (dirty : list Z) c :
  cache_inv c -> NoDup dirty ->
  (forall k, k ∈ dirty -> exists cb, bc_cache c !! k = Some cb /\ cb_state cb = Modified) ->
  exists r c', flush_loop c dirty = Done (r, c') /\ cache_same c c' /\
    dom (bc_cache c') = dom (bc_cache c) /\
    (r = Ok tt -> forall k cb, bc_cache c' !! k = Some cb -> cb_state cb = Modified ->
                  (k ∉ dirty) /\ bc_cache c !! k = Some cb).
Proof.
  revert c. induction dirty as [| bn dirty IH]; intros c Hc Hnd Hd.
  { exists (Ok tt), c. split; [done |]. split; [by apply cache_same_refl |]. split; [done |].
    intros _ k cb E _. split; [by apply not_elem_of_nil | done]. }
  apply NoDup_cons in Hnd as [Hn Hnd].
  destruct (Hd bn) as (cb & E & Hm); [by left |]. cbn [flush_loop]. rewrite E. cbn [expect outcome_bind].
  destruct (write_back_ok c bn cb "BlockCache::flush_all: device write error" Hc E Hm) as (r & c1 & -> & Hs1 & E1).
  cbn [outcome_bind]. destruct r as [[] | e].
  - destruct (IH c1) as (r2 & c2 & E2 & Hs2 & Hdom & Hok); [apply Hs1 | done | |].
    { intros k Hk. rewrite E1, lookup_insert_ne by (intros ->; done). apply Hd. by right. }
    exists r2, c2. split; [done |]. split; [by eapply cache_same_trans |].
    split; [rewrite Hdom, E1; apply dom_insert_lookup_L; by eexists |].
    intros Hr k cb' Hk Hm'. destruct (Hok Hr k cb' Hk Hm') as [Hin Hk1]. rewrite E1 in Hk1.
    destruct (decide (k = bn)) as [-> | Hne].
    + rewrite lookup_insert_eq in Hk1. by simplify_eq.
    + rewrite lookup_insert_ne in Hk1 by done. split; [| done]. by apply not_elem_of_cons.
  - eexists _, c1. split; [done |]. split; [done |]. rewrite E1. by split.
Qed.

Lemma is_modified_spec (cb : CachedBlock) : is_modified cb = true <-> cb_state cb = Modified.
Proof. apply bool_decide_eq_true. Qed.

Lemma elem_of_hash_iter (m : gmap Z CachedBlock) (k : Z) (cb : CachedBlock) :
  (k, cb) ∈ hash_iter m <-> m !! k = Some cb.
Proof. by rewrite hash_iter_perm, elem_of_map_to_list. Qed.

Lemma elem_of_filter_iter (m : gmap Z CachedBlock) (p : CachedBlock -> bool) (kv : Z * CachedBlock) :
  kv ∈ List.filter (fun kv => p kv.2) (hash_iter m) <-> m !! kv.1 = Some kv.2 /\ p kv.2 = true.
Proof.
  destruct kv as [k cb]. rewrite list_elem_of_In, filter_In, <- list_elem_of_In, elem_of_hash_iter. done.
Qed.

Lemma dirty_blocks_spec c (k : Z) :
  k ∈ dirty_blocks c <-> exists cb, bc_cache c !! k = Some cb /\ cb_state cb = Modified.
Proof.
  unfold dirty_blocks. rewrite list_elem_of_fmap. split.
  - intros ([k' cb] & -> & H). apply elem_of_filter_iter in H as [? H]. cbn in *.
    exists cb. split; [done |]. by apply is_modified_spec.
  - intros (cb & E & H). exists (k, cb). split; [done |]. apply elem_of_filter_iter. split; [done |].
    by apply is_modified_spec.
Qed.

Lemma NoDup_fst_filter {B} (p : Z * B -> bool) (l : list (Z * B)) : NoDup l.*1 -> NoDup (List.filter p l).*1.
Proof.
  induction l as [| x l IH]; [done |]. rewrite fmap_cons, NoDup_cons. intros [Hx Hl]. cbn.
  destruct (p x); [| by apply IH]. rewrite fmap_cons, NoDup_cons. split; [| by apply IH].
  intros (y & Ey & Hy)%list_elem_of_fmap. apply Hx. apply list_elem_of_fmap. exists y. split; [done |].
  apply list_elem_of_In in Hy. apply filter_In in Hy as [Hy _]. by apply list_elem_of_In.
Qed.

Lemma dirty_blocks_NoDup c : NoDup (dirty_blocks c).
Proof. apply NoDup_fst_filter. rewrite hash_iter_perm. apply NoDup_fst_map_to_list. Qed.

(** No entry is ahead of the device. *)
Definition all_clean c : Prop := forall k cb, bc_cache c !! k = Some cb -> cb_state cb <> Modified.

Lemma flush_all_ok c :
  cache_inv c ->
  exists r c', flush c None = Done (r, c') /\ cache_same c c' /\ dom (bc_cache c') = dom (bc_cache c) /\
    (r = Ok tt -> all_clean c').
Proof.
  intros Hc. destruct (flush_loop_ok (dirty_blocks c) c) as (r & c' & E & Hs & Hdom & Hok);
    [done | apply dirty_blocks_NoDup | intros k; apply dirty_blocks_spec |].
  exists r, c'. split; [done |]. split; [done |]. split; [done |].
  intros Hr k cb Hk Hm. destruct (Hok Hr k cb Hk Hm) as [Hn Hk']. apply Hn. apply dirty_blocks_spec. eauto.
Qed.

(** A cache without modified entries and its device hold the same contents. *)
Lemma all_clean_device c : cache_inv c -> all_clean c ->
  forall k, block_of c k = seg (io_bytes (bc_device c)) (k * bsize c) (bsize c).
Proof.
  intros Hc Hcl k. unfold block_of. destruct (bc_cache c !! k) as [cb |] eqn:E; [| done].
  case_decide as Hi; [done |]. apply (eo_shared _ k); [by apply ci_entries |].
  pose proof (Hcl k cb E). by destruct (cb_state cb).
Qed.

Lemma flush_one_ok c (bn : Z) :
  cache_inv c ->
  exists r c', flush c (Some bn) = Done (r, c') /\ cache_same c c' /\
    (r = Ok tt -> block_of c' bn = seg (io_bytes (bc_device c')) (bn * bsize c') (bsize c')).
Proof.
  intros Hc. cbn [flush]. destruct (bc_cache c !! bn) as [cb |] eqn:E.
  2:{ eexists _, _. split; [done |]. split; [by apply cache_same_refl |]. intros _. unfold block_of. by rewrite E. }
  destruct (is_modified cb) eqn:Hm.
  - apply is_modified_spec in Hm.
    destruct (write_back_ok c bn cb "BlockCache::flush: device write error" Hc E Hm) as (r & c' & -> & Hs & Em).
    eexists _, _. split; [done |]. split; [done |]. intros ->. unfold block_of. rewrite Em, lookup_insert_eq. cbn.
    assert (bc_cache c' !! bn = Some (with_state cb Shared)) as E' by (rewrite Em; apply lookup_insert_eq).
    by apply (eo_shared _ _ _ (ci_entries c' (proj1 (proj1 Hs)) bn _ E')).
  - eexists _, _. split; [done |]. split; [by apply cache_same_refl |]. intros _. unfold block_of. rewrite E.
    case_decide as Hi; [done |]. apply (eo_shared _ bn); [by apply ci_entries |].
    destruct (cb_state cb) eqn:Est; try done. apply not_true_iff_false in Hm. by rewrite is_modified_spec in Hm.
Qed.

Lemma flush_and_clear_ok c :
  cache_inv c ->
  exists r c', flush_and_clear c = Done (r, c') /\ cache_same c c' /\
    (r = Ok tt -> bc_cache c' = ∅).
Proof.
  intros Hc. unfold flush_and_clear. destruct (flush_all_ok c Hc) as (r & c1 & -> & Hs & _ & Hok). cbn [outcome_bind].
  destruct r as [[] | e]; [| by eexists _, _]. eexists _, _. split; [done |]. split; [| done].
  eapply cache_same_trans; [done |]. destruct Hs as [(Hc1 & _) _].
  split; [split; [| split; [apply same_geometry_refl | done]] |].
  - destruct Hc1 as [Hd He Hs]. split; cbn; [done | | rewrite map_size_empty; lia].
    intros k cb E. by rewrite lookup_empty in E.
  - intros k. rewrite (all_clean_device c1) by auto. unfold block_of. cbn. by rewrite lookup_empty.
Qed.

(** ** Invalidation *)

(** An invalidated block reads as the device has it. *)
Lemma invalidate_ok c (block : Z) :
  cache_inv c ->
  cache_step c (invalidate c block) /\
  forall k, block_of (invalidate c block) k =
    if decide (k = block) then seg (io_bytes (bc_device c)) (k * bsize c) (bsize c) else block_of c k.
Proof.
  intros Hc. unfold invalidate. destruct (bc_cache c !! block) as [cb |] eqn:E.
  2:{ split; [by apply cache_same_refl |]. intros k. case_decide; [subst k | done]. unfold block_of. by rewrite E. }
  split; [split; [| split; [apply same_geometry_refl | done]] |].
  - destruct Hc as [Hd He Hs]. split; cbn; [done | | rewrite map_size_insert_Some by (by eexists); done].
    intros k cb' E'. destruct (decide (k = block)) as [-> | Hne].
    + rewrite lookup_insert_eq in E'. simplify_eq. destruct (He _ _ E) as [Ha Hl _]. by split.
    + rewrite lookup_insert_ne in E' by done. by apply He.
  - intros k. unfold block_of. cbn. case_decide as Hk; [subst k | by rewrite lookup_insert_ne].
    by rewrite lookup_insert_eq.
Qed.

(** ** Eviction *)

Lemma min_by_key_spec {A} (key : A -> Z) (l : list A) :
  match min_by_key key l with
  | Some x => x ∈ l /\ forall y, y ∈ l -> key x <= key y
  | None => l = []
  end.
Proof.
  induction l as [| x l IH]; [done |]. cbn. destruct (min_by_key key l) as [y |].
  - destruct IH as [Hy Hmin]. case_cmp; (split; [set_solver |]); intros z Hz;
      apply elem_of_cons in Hz as [-> | Hz]; try lia; specialize (Hmin z Hz); lia.
  - subst l. split; [set_solver |]. intros y Hy. apply list_elem_of_singleton in Hy. subst. lia.
Qed.

(** The victim is a least recently used entry of those that qualify. *)
Lemma lru_victim_spec c (p : CachedBlock -> bool) :
  match lru_victim c p with
  | Some k => exists cb, bc_cache c !! k = Some cb /\ p cb = true /\
                forall k' cb', bc_cache c !! k' = Some cb' -> p cb' = true -> cb_lru_tick cb <= cb_lru_tick cb'
  | None => forall k cb, bc_cache c !! k = Some cb -> p cb = false
  end.
Proof.
  unfold lru_victim.
  pose proof (min_by_key_spec (fun kv : Z * CachedBlock => cb_lru_tick kv.2)
                (List.filter (fun kv => p kv.2) (hash_iter (bc_cache c)))) as H.
  destruct (min_by_key _ _) as [[k cb] |]; cbn.
  - destruct H as [H Hmin]. apply elem_of_filter_iter in H as [E Hp]. exists cb. split; [done |]. split; [done |].
    intros k' cb' E' Hp'. apply (Hmin (k', cb')). by apply elem_of_filter_iter.
  - intros k cb E. destruct (p cb) eqn:Hp; [| done].
    assert ((k, cb) ∈ List.filter (fun kv => p kv.2) (hash_iter (bc_cache c))) as Hin by (by apply elem_of_filter_iter).
    rewrite H in Hin. by apply not_elem_of_nil in Hin.
Qed.

Lemma remove_entry_same c (k : Z) (cb : CachedBlock) :
  cache_inv c -> bc_cache c !! k = Some cb -> cb_state cb <> Modified -> cache_same c (remove_entry c k).
Proof.
  intros Hc E Hm. split; [split; [| split; [apply same_geometry_refl | done]] |].
  - destruct Hc as [Hd He Hs]. split; cbn; [done | |].
    + intros k' cb' H'. apply lookup_delete_Some in H' as [_ H']. by apply He.
    + rewrite map_size_delete. rewrite E. lia.
  - intros k'. unfold block_of. cbn. destruct (decide (k' = k)) as [-> | Hne]; [| by rewrite lookup_delete_ne].
    rewrite lookup_delete_eq, E. case_decide as Hi; [done |]. symmetry. apply (eo_shared _ k); [by apply ci_entries |].
    by destruct (cb_state cb).
Qed.

Lemma remove_entry_size c (k : Z) (cb : CachedBlock) :
  bc_cache c !! k = Some cb -> size (bc_cache c) = S (size (bc_cache (remove_entry c k))).
Proof.
  intros E. cbn. rewrite map_size_delete, E. pose proof (map_size_ne_0_lookup_2 (bc_cache c) k ltac:(by eexists)). lia.
Qed.

Lemma evict_one_ok c :
  cache_inv c ->
  exists r c', evict_one c = Done (r, c') /\ cache_same c c' /\
    dom (bc_cache c') ⊆ dom (bc_cache c) /\
    (r = Ok tt -> size (bc_cache c) = S (size (bc_cache c')) \/ bc_cache c = ∅ /\ bc_cache c' = ∅).
Proof.
  intros Hc. unfold evict_one. pose proof (lru_victim_spec c (fun cb => negb (is_modified cb))) as Hv.
  destruct (lru_victim c _) as [k |].
  { destruct Hv as (cb & E & Hp & _). eexists _, _. split; [done |].
    split; [eapply remove_entry_same; [done | done |]; rewrite <- is_modified_spec; by destruct (is_modified cb) |].
    split; [cbn; rewrite dom_delete; set_solver |]. intros _. left. by eapply remove_entry_size. }
  destruct (flush_all_ok c Hc) as (r & c1 & -> & Hs1 & Hdom & Hcl). cbn [outcome_bind].
  assert (size (bc_cache c1) = size (bc_cache c)) as Hsz by (by rewrite <- !size_dom, Hdom).
  destruct r as [[] | e]; [| eexists _, _; split; [done |]; split; [done |]; rewrite Hdom; by split].
  pose proof (lru_victim_spec c1 (fun _ => true)) as Hv1. destruct (lru_victim c1 _) as [k |].
  - destruct Hv1 as (cb & E & _ & _). eexists _, _. split; [done |].
    split; [eapply cache_same_trans; [done |]; eapply remove_entry_same; [apply Hs1 | done | by eapply Hcl] |].
    split; [cbn; rewrite dom_delete; set_solver |]. intros _. left. rewrite <- Hsz. by eapply remove_entry_size.
  - eexists _, _. split; [done |]. split; [done |]. split; [by rewrite Hdom |]. intros _. right.
    assert (bc_cache c1 = ∅) as E1.
    { apply map_empty. intros k. destruct (bc_cache c1 !! k) eqn:E; [| done]. by specialize (Hv1 _ _ E). }
    split; [| done]. apply map_size_empty_inv. rewrite <- Hsz, E1. apply map_size_empty.
Qed.

(** ** Reading and writing a block *)

Lemma make_room_ok c (block : Z) :
  cache_inv c ->
  exists r c', make_room c block = Done (r, c') /\ cache_same c c' /\
    bc_cache c' !! block = bc_cache c !! block /\
    (r = Ok tt -> is_Some (bc_cache c' !! block) \/ Z.of_nat (size (bc_cache c')) < Z.max 1 (bc_capacity c')).
Proof.
  intros Hc. unfold make_room. destruct (bc_cache c !! block) as [cb |] eqn:E.
  { eexists _, _. split; [done |]. split; [by apply cache_same_refl |]. split; [done |].
    intros _. left. by rewrite E. }
  case_cmp.
  - destruct (evict_one_ok c Hc) as (r & c' & -> & Hs & Hdom & Hok). eexists _, _. split; [done |].
    split; [done |]. split.
    { apply not_elem_of_dom. apply not_elem_of_dom in E. set_solver. }
    intros Hr. right. destruct Hs as [(_ & _ & ->) _]. destruct (Hok Hr) as [E' | [_ ->]].
    + destruct Hc. lia.
    + rewrite map_size_empty. lia.
  - eexists _, _. split; [done |]. split; [by apply cache_same_refl |]. split; [done |]. intros _. right. lia.
Qed.

(** Storing an entry for [block]. *)
Lemma insert_entry_ok c (block : Z) (cb : CachedBlock) :
  cache_inv c -> is_Some (bc_cache c !! block) \/ Z.of_nat (size (bc_cache c)) < Z.max 1 (bc_capacity c) ->
  entry_ok (bc_device c) block cb -> cb_state cb <> Invalid ->
  cache_step c (set_cache c (<[block := cb]> (bc_cache c))) /\
  forall k, block_of (set_cache c (<[block := cb]> (bc_cache c))) k = if decide (k = block) then cb_data cb else block_of c k.
Proof.
  intros Hc Hroom He Hst. split; [split; [| split; [apply same_geometry_refl | done]] |].
  - destruct Hc as [Hd Hes Hs]. split; cbn; [done | |].
    + intros k cb' E. destruct (decide (k = block)) as [-> | Hne].
      * rewrite lookup_insert_eq in E. by simplify_eq.
      * rewrite lookup_insert_ne in E by done. by apply Hes.
    + destruct (bc_cache c !! block) as [x |] eqn:E; [rewrite map_size_insert_Some by (by eexists); done |].
      destruct Hroom as [[? ?] | ?]; [done |]. rewrite map_size_insert_None by done. lia.
  - intros k. unfold block_of. cbn. case_decide as Hk; [subst k | by rewrite lookup_insert_ne].
    rewrite lookup_insert_eq. by rewrite decide_False.
Qed.

(** The counters carry no contents. *)
Lemma cache_same_frame c c' :
  bc_cache c' = bc_cache c -> bc_device c' = bc_device c -> bc_capacity c' = bc_capacity c ->
  cache_inv c -> cache_same c c'.
Proof.
  intros Em Ed Ec [Hd He Hs]. split; [split; [| split; [rewrite Ed; apply same_geometry_refl | done]] |].
  - split; rewrite ?Em, ?Ed, ?Ec; done.
  - intros k. unfold block_of. by rewrite Em, Ed.
Qed.

Lemma set_device_same c (d : D) :
  cache_inv c -> io_inv d -> same_geometry (bc_device c) d ->
  (forall i, io_bytes d i = io_bytes (bc_device c) i) -> cache_same c (set_device c d).
Proof.
  intros Hc Hd Hg Hb. pose proof (cache_bsize_pos c Hc). destruct Hc as [_ He Hs].
  assert (forall k, same_outside (bc_device c) d k) as Ho by (intros k; by split).
  assert (block_size d = bsize c) as Eb by apply Hg.
  split; [split; [| done] |].
  - split; cbn; [done | | done]. intros k cb E. eapply (entry_ok_outside _ _ (k + 1)); [done | done | | by apply He]. lia.
  - intros k. apply (block_of_outside _ _ (k + 1)); [done | done | lia | done].
Qed.

(** A block the cache may address. *)
Definition addressable c (block : Z) : Prop := 0 <= block /\ (block + 1) * bsize c <= U64_MAX.

Lemma addressable_geometry c c' (block : Z) :
  same_geometry (bc_device c) (bc_device c') -> addressable c block -> addressable c' block.
Proof. unfold addressable. by intros (-> & _ & _). Qed.

Lemma block_of_invalid c (k : Z) :
  valid_entry (bc_cache c !! k) = false -> block_of c k = seg (io_bytes (bc_device c)) (k * bsize c) (bsize c).
Proof.
  unfold block_of. destruct (bc_cache c !! k) as [cb |]; [| done]. cbn. intros H.
  rewrite decide_True; [done |]. apply negb_false_iff, bool_decide_eq_true in H. done.
Qed.

Lemma block_of_valid c (k : Z) (cb : CachedBlock) :
  bc_cache c !! k = Some cb -> valid_entry (Some cb) = true -> block_of c k = cb_data cb.
Proof.
  unfold block_of. intros ->. cbn. rewrite negb_true_iff, bool_decide_eq_false. intros H. by rewrite decide_False.
Qed.

Lemma load_from_device_ok c (block : Z) :
  cache_inv c -> addressable c block -> valid_entry (bc_cache c !! block) = false ->
  exists r c', load_from_device c block = Done (r, c') /\ cache_same c c' /\
    (r = Ok tt -> exists cb, bc_cache c' !! block = Some cb /\ valid_entry (Some cb) = true).
Proof.
  intros Hc Ha Hv. unfold load_from_device.
  destruct (make_room_ok c block Hc) as (r & c1 & -> & Hs1 & E1 & Hroom). cbn [outcome_bind].
  destruct r as [[] | e]; [| by eexists _, _].
  pose proof Hs1 as [(Hc1 & Hg1 & _) _]. pose proof (addressable_geometry _ _ _ Hg1 Ha) as [Ha1 Ha2].
  pose proof (cache_bsize_pos c1 Hc1) as Hpos. assert (bsize c1 = bsize c) as Eb by apply Hg1. rewrite <- Eb in *.
  destruct (read_law (bc_device c1) (replicate (Z.to_nat (bsize c1)) 0) block 1) as (r & data & d & -> & Hd & Hg & Hb & _ & Hr).
  { apply Hc1. } { unfold block_buffer. rewrite length_replicate. lia. }
  cbn [outcome_bind]. pose proof (set_device_same c1 d Hc1 Hd Hg Hb) as Hs2.
  destruct r as [k | e]; [| eexists _, _; split; [done |]; split; [by eapply cache_same_trans | done]].
  destruct Hr as [_ ->]. rewrite length_replicate, Z2Nat.id by lia.
  set (c2 := add_miss (set_device c1 d)).
  assert (cache_same c1 c2) as Hs3 by (eapply cache_same_trans; [done | by apply cache_same_frame, Hs2]).
  pose proof Hs3 as [(Hc2 & (Eb2 & _ & _) & _) _].
  destruct (insert_entry_ok c2 block (mkCached (seg (io_bytes (bc_device c1)) (block * bsize c1) (bsize c1)) Shared (bc_tick c2)))
    as [Hst Hbl]; [done | | | done |].
  { by apply Hroom. }
  { split; cbn -[c2]; rewrite ?Eb2; [done | rewrite seg_length; lia |]. intros _. apply seg_ext. intros i _. symmetry. apply Hb. }
  eexists _, _. split; [done |]. split.
  - eapply cache_same_trans; [exact Hs1 |]. eapply cache_same_trans; [exact Hs3 |]. split; [exact Hst |].
    intros k'. rewrite Hbl. case_decide as Hk; [subst k' | done]. cbn.
    destruct Hs3 as [_ ->]. symmetry. apply block_of_invalid. by rewrite E1.
  - intros _. eexists. split; [apply lookup_insert_eq | done].
Qed.

Lemma touch_same c (k tick : Z) (cb : CachedBlock) :
  cache_inv c -> bc_cache c !! k = Some cb -> valid_entry (Some cb) = true ->
  cache_same c (set_cache c (<[k := touch cb tick]> (bc_cache c))).
Proof.
  intros Hc E Hv. destruct (insert_entry_ok c k (touch cb tick)) as [Hst Hbl]; [done | left; by eexists | | |].
  - destruct (ci_entries c Hc k cb E) as [Ha Hl Hs]. by split.
  - cbn in *. by apply negb_true_iff, bool_decide_eq_false in Hv.
  - split; [exact Hst |]. intros k'. rewrite Hbl. case_decide as Hk; [subst k' | done].
    symmetry. by rewrite (block_of_valid c k cb).
Qed.

Lemma count_hit_same c (block : Z) : cache_inv c -> cache_same c (count_hit (add_tick c) block).
Proof.
  intros Hc. set (c0 := add_tick c). assert (cache_same c c0) as Hs0 by (by apply cache_same_frame).
  unfold count_hit. destruct (bc_cache c0 !! block) as [cb |] eqn:E; [| done].
  destruct (valid_entry (Some cb)) eqn:Hv; [| done].
  pose proof (touch_same c0 block (bc_tick c0) cb (proj1 (proj1 Hs0)) E Hv) as Ht.
  eapply cache_same_trans; [exact Hs0 |]. eapply cache_same_trans; [exact Ht |].
  apply cache_same_frame; try done. apply Ht.
Qed.

Lemma read_block_ok c (block : Z) :
  cache_inv c -> addressable c block ->
  exists r c', read_block c block = Done (r, c') /\ cache_same c c' /\
    match r with Ok data => data = block_of c block | Err _ => True end.
Proof.
  intros Hc Ha. unfold read_block. pose proof (count_hit_same c block Hc) as Hs1.
  set (c1 := count_hit _ _) in *. clearbody c1. pose proof Hs1 as [(Hc1 & Hg1 & _) Hb1].
  assert (exists r c', (if valid_entry (bc_cache c1 !! block) then Done (Ok tt, c1) else load_from_device c1 block) = Done (r, c')
    /\ cache_same c1 c' /\ (r = Ok tt -> exists cb, bc_cache c' !! block = Some cb /\ valid_entry (Some cb) = true)) as (r & c2 & -> & Hs2 & Hok).
  { destruct (valid_entry (bc_cache c1 !! block)) eqn:Hv.
    - eexists _, _. split; [done |]. split; [by apply cache_same_refl |]. intros _.
      destruct (bc_cache c1 !! block) as [cb |]; [by exists cb | done].
    - apply load_from_device_ok; [done | by eapply addressable_geometry | done]. }
  cbn [outcome_bind]. pose proof (cache_same_trans _ _ _ Hs1 Hs2) as Hs.
  destruct r as [[] | e]; [| by eexists _, _]. destruct Hok as (cb & E & Hv); [done |]. rewrite E. cbn [expect outcome_bind].
  pose proof Hs as [(Hc2 & _ & _) Hb2].
  eexists _, _. split; [done |]. split; [eapply cache_same_trans; [exact Hs | by apply touch_same] |].
  rewrite <- Hb2. symmetry. by apply (block_of_valid c2).
Qed.

Lemma write_block_ok c (block : Z) (data : list Z) :
  cache_inv c -> addressable c block ->
  exists r c', write_block c block data = Done (r, c') /\ cache_step c c' /\
    match r with
    | Ok _ => Z.of_nat (length data) = bsize c /\
              forall k, block_of c' k = if decide (k = block) then data else block_of c k
    | Err _ => forall k, block_of c' k = block_of c k
    end.
Proof.
  intros Hc Ha. unfold write_block. set (c0 := add_tick c).
  assert (cache_same c c0) as Hs0 by (by apply cache_same_frame).
  destruct (Z.of_nat (length data) =? bsize c0) eqn:El; [| by eexists _, _].
  apply Z.eqb_eq in El. pose proof Hs0 as [(Hc0 & Hg0 & _) Hb0].
  destruct (make_room_ok c0 block Hc0) as (r & c1 & -> & Hs1 & _ & Hroom). cbn [outcome_bind negb].
  pose proof (cache_same_trans _ _ _ Hs0 Hs1) as Hs. destruct r as [[] | e]; [| eexists _, _; by split].
  pose proof Hs as [(Hc1 & Hg1 & Ecap) Hb1]. assert (bsize c1 = bsize c) as Eb by apply Hg1.
  destruct (insert_entry_ok c1 block (mkCached data Modified (bc_tick c0))) as [Hst Hbl]; [done | by apply Hroom | | done |].
  { split; cbn; rewrite ?Eb; done. }
  eexists _, _. split; [done |]. split; [by eapply cache_step_trans; [apply Hs |] |].
  split; [done |]. intros k. rewrite Hbl. by rewrite Hb1.
Qed.

(** ** The cache as a block device *)

Lemma block_index (off i bs : Z) : 0 < bs -> 0 <= off -> 0 <= i -> (off + i + 1) * bs <= U64_MAX ->
  wrap64 (off + i) = off + i /\ 0 <= off + i.
Proof. intros. split; [| lia]. apply wrap64_id. split; nia. Qed.

(** Reading the blocks from the [i]th on fills the rest of the buffer. *)
Lemma cache_read_loop_ok (off N : Z) (n : nat) c (g : Z -> Z) (i : Z) :
  let bs := bsize c in
  cache_inv c -> 0 <= off -> 0 <= i -> i + Z.of_nat n = N -> (off + N) * bs <= U64_MAX ->
  exists r buf c', cache_read_loop c (seg g (off * bs) (N * bs)) off bs n i = Done (r, buf, c') /\
    cache_same c c' /\ Z.of_nat (length buf) = N * bs /\
    match r with
    | Ok _ => buf = seg (fun j => if (off + i) * bs <=? j then cache_bytes c j else g j) (off * bs) (N * bs)
    | Err _ => True
    end.
Proof.
  intros bs. subst bs. revert c g i. induction n as [| n IH]; intros c g i Hc Ho Hi HN Hmax;
    pose proof (cache_bsize_pos c Hc) as Hpos; set (bs := bsize c) in *.
  { cbn. assert (i = N) as -> by lia. eexists _, _, _. split; [done |]. split; [by apply cache_same_refl |].
    split; [rewrite seg_length; nia |]. apply seg_ext. intros j Hj. solve_cmp. done. }
  cbn [cache_read_loop]. assert ((off + i + 1) * bs <= (off + N) * bs) by nia.
  destruct (block_index off i bs) as [-> ?]; try lia.
  destruct (read_block_ok c (off + i) Hc) as (r & c1 & -> & Hs1 & Hr); [split; fold bs; lia |]. cbn [outcome_bind].
  destruct r as [data | e].
  2:{ eexists _, _, _. split; [done |]. split; [done |]. split; [| done]. rewrite seg_length; nia. }
  pose proof Hs1 as [(Hc1 & (Eb & _ & _) & _) Hb1]. subst data. rewrite <- (seg_cache_bytes c) by done. fold bs in Eb |- *.
  rewrite copy_into_seg; [| nia | nia | rewrite seg_length; lia]. cbn [outcome_bind].
  rewrite <- Eb. edestruct (IH c1) as (r2 & buf2 & c2 & -> & Hs2 & Hl2 & Hr2); [done | done | lia | lia | rewrite Eb; lia |].
  rewrite Eb in *. eexists _, _, _. split; [done |]. split; [by eapply cache_same_trans |]. split; [done |].
  destruct r2 as [[] | e]; [| done]. subst buf2. apply seg_ext. intros j Hj.
  rewrite (cache_bytes_same c c1) by done.
  replace (off * bs + i * bs) with ((off + i) * bs) by lia. rewrite upd_seg_other by lia.
  case_cmp; try nia; done.
Qed.

Lemma cache_write_loop_ok (off N : Z) (n : nat) c (g : Z -> Z) (i : Z) :
  let bs := bsize c in
  cache_inv c -> 0 <= off -> 0 <= i -> i + Z.of_nat n = N -> (off + N) * bs <= U64_MAX ->
  exists r c', cache_write_loop c (seg g (off * bs) (N * bs)) off bs n i = Done (r, c') /\ cache_step c c' /\
    forall j, match r with
              | Ok _ => cache_bytes c' j = if ((off + i) * bs <=? j) && (j <? (off + N) * bs) then g j else cache_bytes c j
              | Err _ => j < (off + i) * bs \/ (off + N) * bs <= j -> cache_bytes c' j = cache_bytes c j
              end.
Proof.
  intros bs. subst bs. revert c i. induction n as [| n IH]; intros c i Hc Ho Hi HN Hmax;
    pose proof (cache_bsize_pos c Hc) as Hpos; set (bs := bsize c) in *.
  { cbn. assert (i = N) as -> by lia. eexists _, _. split; [done |]. split; [by apply cache_same_refl |].
    intros j. case_cmp; try done. lia. }
  cbn [cache_write_loop]. assert ((off + i + 1) * bs <= (off + N) * bs) by nia.
  rewrite slice_seg by nia. cbn [outcome_bind]. destruct (block_index off i bs) as [-> ?]; try lia.
  destruct (write_block_ok c (off + i) (seg g (off * bs + i * bs) ((i + 1) * bs - i * bs)) Hc) as (r & c1 & -> & Hs1 & Hr);
    [split; fold bs; lia |]. cbn [outcome_bind].
  pose proof Hs1 as (Hc1 & (Eb & _ & _) & _). fold bs in Eb.
  destruct r as [[] | e].
  2:{ eexists _, _. split; [done |]. split; [done |]. intros j _. by apply cache_bytes_same. }
  destruct Hr as [Hlen Hr].
  rewrite <- Eb. destruct (IH c1 (i + 1)) as (r2 & c2 & -> & Hs2 & Hr2); [done | done | lia | lia | rewrite Eb; lia |].
  rewrite Eb in *. eexists _, _. split; [done |]. split; [by eapply cache_step_trans |].
  intros j. specialize (Hr2 j).
  rewrite (cache_bytes_write c c1 (off + i) _ Hc Eb Hlen Hr j) in Hr2. fold bs in Hr2.
  replace (off * bs + i * bs) with ((off + i) * bs) in Hr2 by lia.
  replace ((i + 1) * bs - i * bs) with bs in Hr2 by lia. rewrite upd_seg_other in Hr2 by lia.
  destruct r2 as [[] | e].
  - rewrite Hr2. case_cmp; try nia; done.
  - intros Hj. rewrite Hr2 by nia. case_cmp; try nia; done.
Qed.

#[local] Lemma buffer_seg_n (buf : list Z) (a n bs : Z) :
  Z.of_nat (length buf) = n * bs -> seg (upd (fun _ => 0) a buf) a (n * bs) = buf.
Proof. intros <-. apply buffer_seg. Qed.

Lemma cache_read_blocks_ok c (buf : list Z) (off n : Z) :
  cache_inv c -> block_buffer c buf off n ->
  exists r buf' c', cache_read_blocks c buf off = Done (r, buf', c') /\ cache_same c c' /\ length buf' = length buf /\
    match r with
    | Ok k => k = n /\ buf' = seg (cache_bytes c) (off * bsize c) (Z.of_nat (length buf))
    | Err _ => True
    end.
Proof.
  intros Hc Hb. pose proof (cache_bsize_pos c Hc) as Hpos. pose proof Hb as (Ho & Hn & Hl & Hm). cbn in Hl, Hm.
  unfold cache_read_blocks. rewrite Hl, Z.div_mul by lia. solve_cmp.
  destruct (cache_read_loop_ok off n (Z.to_nat n) c (upd (fun _ => 0) (off * bsize c) buf) 0)
    as (r & buf' & c' & E & Hs & Hl' & Hr); try done; try lia.
  rewrite buffer_seg_n in E by done. rewrite E. cbn [outcome_bind].
  destruct r as [[] | e]; eexists _, _, _; (split; [done |]); (split; [done |]); (split; [lia |]); [| done].
  split; [done |]. rewrite Hr. apply seg_ext. intros j Hj. rewrite Z.add_0_r. by solve_cmp.
Qed.

Lemma cache_write_blocks_ok c (buf : list Z) (off n : Z) :
  cache_inv c -> block_buffer c buf off n ->
  exists r c', cache_write_blocks c buf off = Done (r, c') /\ cache_step c c' /\
    match r with
    | Ok k => k = n /\ forall i, cache_bytes c' i = upd (cache_bytes c) (off * bsize c) buf i
    | Err _ => forall i, i < off * bsize c \/ (off + n) * bsize c <= i -> cache_bytes c' i = cache_bytes c i
    end.
Proof.
  intros Hc Hb. pose proof (cache_bsize_pos c Hc) as Hpos. pose proof Hb as (Ho & Hn & Hl & Hm). cbn in Hl, Hm.
  unfold cache_write_blocks. rewrite Hl, Z.div_mul by lia. solve_cmp.
  destruct (cache_write_loop_ok off n (Z.to_nat n) c (upd (fun _ => 0) (off * bsize c) buf) 0)
    as (r & c' & E & Hs & Hr); try done; try lia.
  rewrite buffer_seg_n in E by done. rewrite E. cbn [outcome_bind]. rewrite Z.add_0_r in Hr.
  destruct r as [[] | e]; eexists _, _; (split; [done |]); (split; [done |]); [| done].
  split; [done |]. intros i. rewrite Hr. unfold upd. rewrite Hl. replace (off * bsize c + n * bsize c) with ((off + n) * bsize c) by lia.
  by case_cmp; try lia.
Qed.

Lemma cache_same_bytes c c' : cache_same c c' ->
  cache_inv c' /\ same_geometry c c' /\ forall i, cache_bytes c' i = cache_bytes c i.
Proof.
  intros [(Hc & Hg & _) Hb]. split; [done |]. split; [exact Hg |]. apply cache_bytes_same; [apply Hg | done].
Qed.

#[export] Program Instance cache_laws : BlockIOLaws (BlockCache D) := {|
  io_inv := cache_inv;
  io_bytes := cache_bytes;
|}.
Next Obligation. intros c Hc. by apply cache_bsize_pos. Qed.
Next Obligation.
  intros c buf off n Hc Hb. destruct (cache_read_blocks_ok c buf off n Hc Hb) as (r & buf' & c' & E & Hs & Hl & Hr).
  exists r, buf', c'. apply cache_same_bytes in Hs as (? & ? & ?). auto 8.
Qed.
Next Obligation.
  intros c buf off n Hc Hb. destruct (cache_write_blocks_ok c buf off n Hc Hb) as (r & c' & E & (? & ? & ?) & Hr).
  exists r, c'. auto 8.
Qed.
Next Obligation.
  intros c Hc. destruct (flush_all_ok c Hc) as (r & c' & E & Hs & _). apply cache_same_bytes in Hs as (? & ? & ?).
  cbn. unfold cache_flush. rewrite E. cbn [outcome_bind]. destruct r; eexists _, _; (split; [done |]); auto 8.
Qed.

End Spec.

(** ** The block cache over a healthy device

    Over a device that completes the transfers within it, every operation of the cache on
    blocks of the device succeeds; the cache keeps [HealthyIO].  Byte-wise streams over a
    cache over a device follow, and what a flush makes durable. *)

Section Health.
Context {D : Type} {bio : BlockIO D} {hash : HashIter} {laws : BlockIOLaws D} {healthy : HealthyIO D}.

Implicit Types c : BlockCache D.

#[local] Abbreviation bsize c := (block_size (bc_device c)).

(** A block of the device. *)
Definition on_device c (k : Z) : Prop := 0 <= k /\ (k + 1) * bsize c <= io_len (bc_device c).

Definition cache_healthy c : Prop :=
  io_healthy (bc_device c) /\
  forall k cb, bc_cache c !! k = Some cb -> cb_state cb = Modified -> on_device c k.

(** Modified entries of [c'] are modified in [c], or on the device. *)
Lemma cache_healthy_step c c' :
  cache_healthy c -> same_geometry (bc_device c) (bc_device c') -> io_healthy (bc_device c') ->
  (forall k cb, bc_cache c' !! k = Some cb -> cb_state cb = Modified ->
     on_device c k \/ exists cb0, bc_cache c !! k = Some cb0 /\ cb_state cb0 = Modified) ->
  cache_healthy c'.
Proof.
  intros [_ Hh] (Eb & El & _) Hd Hk. split; [done |]. intros k cb E Hm. unfold on_device. rewrite Eb, El.
  destruct (Hk k cb E Hm) as [? | (cb0 & E0 & Hm0)]; [done | by apply (Hh k cb0)].
Qed.

Lemma on_device_addressable c (k : Z) : cache_inv c -> io_healthy (bc_device c) -> on_device c k -> addressable c k.
Proof.
  intros Hc Hh [? ?]. pose proof (cache_bsize_pos c Hc). split; [done |].
  destruct (healthy_len (bc_device c)) as (m & ? & ? & ?); [apply Hc | done | lia].
Qed.

Lemma write_back_healthy c (bn : Z) (cb : CachedBlock) (msg : string) :
  cache_inv c -> cache_healthy c -> bc_cache c !! bn = Some cb -> cb_state cb = Modified ->
  exists c', write_back c bn cb msg = Done (Ok tt, c') /\ cache_healthy c'.
Proof.
  intros Hc Hh E Hm. pose proof Hh as [Hd Hk]. destruct (Hk bn cb E Hm) as [Hb Hl].
  destruct (ci_entries c Hc bn cb E) as [[_ Ha] Hlen _]. unfold write_back.
  destruct (write_healthy (bc_device c) (cb_data cb) bn 1) as (d' & -> & (Hi' & Hh' & Hg & _));
    [apply Hc | done | unfold block_buffer; lia | done |].
  cbn [outcome_bind]. eexists. split; [done |]. apply (cache_healthy_step c); cbn; try done.
  intros k cb' E' Hm'. right. destruct (decide (k = bn)) as [-> | Hne].
  - rewrite lookup_insert_eq in E'. by simplify_eq.
  - rewrite lookup_insert_ne in E' by done. eauto.
Qed.

Lemma flush_loop_healthy (dirty : list Z) c :
  cache_inv c -> cache_healthy c -> NoDup dirty ->
  (forall k, k ∈ dirty -> exists cb, bc_cache c !! k = Some cb /\ cb_state cb = Modified) ->
  exists c', flush_loop c dirty = Done (Ok tt, c') /\ cache_healthy c'.
Proof.
  revert c. induction dirty as [| bn dirty IH]; intros c Hc Hh Hnd Hd; [by exists c |].
  apply NoDup_cons in Hnd as [Hn Hnd]. destruct (Hd bn) as (cb & E & Hm); [by left |].
  cbn [flush_loop]. rewrite E. cbn [expect outcome_bind]. set (msg := "BlockCache::flush_all: device write error"%string).
  destruct (write_back_healthy c bn cb msg Hc Hh E Hm) as (c1 & E1 & Hh1).
  destruct (write_back_ok c bn cb msg Hc E Hm) as (r & c1' & E1' & Hs1 & Em).
  rewrite E1 in E1'. simplify_eq. rewrite E1. cbn [outcome_bind]. apply IH; [apply Hs1 | done | done |].
  intros k Hk. rewrite Em, lookup_insert_ne by (intros ->; done). apply Hd. by right.
Qed.

Lemma flush_all_healthy c :
  cache_inv c -> cache_healthy c ->
  exists c', flush c None = Done (Ok tt, c') /\ cache_healthy c' /\ cache_same c c' /\ all_clean c'.
Proof.
  intros Hc Hh. destruct (flush_loop_healthy (dirty_blocks c) c) as (c' & E & Hh');
    [done | done | apply dirty_blocks_NoDup | intros k; apply dirty_blocks_spec |].
  destruct (flush_all_ok c Hc) as (r & c'' & E' & Hs & _ & Hok). cbn [flush] in E'. rewrite E in E'. simplify_eq.
  eauto 6.
Qed.

Lemma remove_entry_healthy c (k : Z) : cache_healthy c -> cache_healthy (remove_entry c k).
Proof.
  intros Hh. apply (cache_healthy_step c); [done | apply same_geometry_refl | apply Hh |]. cbn.
  intros k' cb E Hm. apply lookup_delete_Some in E as [_ E]. eauto.
Qed.

Lemma evict_one_healthy c :
  cache_inv c -> cache_healthy c -> exists c', evict_one c = Done (Ok tt, c') /\ cache_healthy c'.
Proof.
  intros Hc Hh. unfold evict_one. destruct (lru_victim c _) as [k |].
  { eexists. split; [done |]. by apply remove_entry_healthy. }
  destruct (flush_all_healthy c Hc Hh) as (c1 & -> & Hh1 & _). cbn [outcome_bind].
  destruct (lru_victim c1 _) as [k |]; eexists; (split; [done |]); [by apply remove_entry_healthy | done].
Qed.

Lemma make_room_healthy c (block : Z) :
  cache_inv c -> cache_healthy c -> exists c', make_room c block = Done (Ok tt, c') /\ cache_healthy c'.
Proof.
  intros Hc Hh. unfold make_room. destruct (bc_cache c !! block); [by exists c |].
  case_match; [by apply evict_one_healthy | by exists c].
Qed.

(** An entry that is clean, or of a block of the device. *)
Lemma insert_healthy c (k : Z) (cb : CachedBlock) :
  cache_healthy c -> (cb_state cb = Modified -> on_device c k) ->
  cache_healthy (set_cache c (<[k := cb]> (bc_cache c))).
Proof.
  intros Hh Hk. apply (cache_healthy_step c); [done | apply same_geometry_refl | apply Hh |]. cbn.
  intros k' cb' E Hm. destruct (decide (k' = k)) as [-> | Hne].
  - rewrite lookup_insert_eq in E. simplify_eq. left. by apply Hk.
  - rewrite lookup_insert_ne in E by done. eauto.
Qed.

Lemma load_healthy c (block : Z) :
  cache_inv c -> cache_healthy c -> on_device c block ->
  exists c', load_from_device c block = Done (Ok tt, c') /\ cache_healthy c'.
Proof.
  intros Hc Hh Hb. unfold load_from_device. pose proof (on_device_addressable c block Hc (proj1 Hh) Hb) as Ha.
  destruct (make_room_healthy c block Hc Hh) as (c1 & E1 & Hh1).
  destruct (make_room_ok c block Hc) as (r & c1' & E1' & Hs1 & _). rewrite E1 in E1'. simplify_eq.
  rewrite E1. cbn [outcome_bind]. destruct Hs1 as [(Hc1 & (Eb & El & _) & _) _].
  pose proof (cache_bsize_pos c Hc). destruct Hb as [? ?]. destruct Ha as [_ ?].
  destruct (read_healthy (bc_device c1') (replicate (Z.to_nat (bsize c)) 0) block 1) as (d & -> & (Hi & Hd & Hg & _)).
  { apply Hc1. } { apply Hh1. } { unfold block_buffer. rewrite length_replicate, Eb. lia. } { rewrite Eb, El. lia. }
  cbn [outcome_bind]. eexists. split; [done |]. apply insert_healthy; [| done].
  apply (cache_healthy_step c1'); try done. cbn. eauto.
Qed.

Lemma frame_healthy c c' :
  bc_cache c' = bc_cache c -> bc_device c' = bc_device c -> cache_healthy c -> cache_healthy c'.
Proof.
  intros Em Ed Hh. apply (cache_healthy_step c); rewrite ?Ed; [done | apply same_geometry_refl | apply Hh |].
  rewrite Em. eauto.
Qed.

Lemma touch_healthy c (k tick : Z) (cb : CachedBlock) :
  cache_healthy c -> bc_cache c !! k = Some cb ->
  cache_healthy (set_cache c (<[k := touch cb tick]> (bc_cache c))).
Proof. intros Hh E. apply insert_healthy; [done |]. cbn. intros Hm. by eapply Hh. Qed.

Lemma count_hit_healthy c (block : Z) : cache_healthy c -> cache_healthy (count_hit (add_tick c) block).
Proof.
  intros Hh. assert (cache_healthy (add_tick c)) as Hh0 by (by apply (frame_healthy c)).
  unfold count_hit. destruct (bc_cache (add_tick c) !! block) as [cb |] eqn:E; [| done].
  case_match; [| done]. pose proof (touch_healthy (add_tick c) block (bc_tick (add_tick c)) cb Hh0 E) as Ht.
  by eapply frame_healthy; [| | exact Ht].
Qed.

Lemma read_block_healthy c (block : Z) :
  cache_inv c -> cache_healthy c -> on_device c block ->
  exists c', read_block c block = Done (Ok (block_of c block), c') /\ cache_healthy c' /\ cache_same c c'.
Proof.
  intros Hc Hh Hb. pose proof (on_device_addressable c block Hc (proj1 Hh) Hb) as Ha.
  destruct (read_block_ok c block Hc Ha) as (r & c' & E & Hs & Hr).
  cut (exists data, r = Ok data /\ cache_healthy c').
  { intros (data & -> & Hh'). subst data. eauto. }
  revert E. unfold read_block. pose proof (count_hit_same c block Hc) as [(Hc1 & (Eb & El & _) & _) _].
  pose proof (count_hit_healthy c block Hh) as Hh1. set (c1 := count_hit _ _) in *. clearbody c1.
  destruct (valid_entry (bc_cache c1 !! block)) eqn:Hv; cbn [outcome_bind].
  - destruct (bc_cache c1 !! block) as [cb |] eqn:E; [| done]. cbn [expect outcome_bind]. intros ?. simplify_eq.
    eexists. split; [done |]. by apply touch_healthy.
  - destruct (load_healthy c1 block Hc1 Hh1) as (c2 & -> & Hh2); [unfold on_device; by rewrite Eb, El |].
    cbn [outcome_bind]. destruct (bc_cache c2 !! block) as [cb |] eqn:E; [| done]. cbn [expect outcome_bind].
    intros ?. simplify_eq. eexists. split; [done |]. by apply touch_healthy.
Qed.

Lemma write_block_healthy c (block : Z) (data : list Z) :
  cache_inv c -> cache_healthy c -> on_device c block -> Z.of_nat (length data) = bsize c ->
  exists c', write_block c block data = Done (Ok tt, c') /\ cache_healthy c' /\ cache_step c c' /\
    forall k, block_of c' k = if decide (k = block) then data else block_of c k.
Proof.
  intros Hc Hh Hb Hl. pose proof (on_device_addressable c block Hc (proj1 Hh) Hb) as Ha.
  destruct (write_block_ok c block data Hc Ha) as (r & c' & E & Hs & Hr).
  cut (r = Ok tt /\ cache_healthy c').
  { intros (-> & Hh'). destruct Hr as [_ Hr]. eauto. }
  revert E. unfold write_block. set (c0 := add_tick c).
  assert (bsize c0 = bsize c) as -> by done. rewrite (proj2 (Z.eqb_eq _ _) Hl). cbn [negb].
  assert (cache_inv c0) as Hc0 by (by apply (cache_same_frame c)).
  assert (cache_healthy c0) as Hh0 by (by apply (frame_healthy c)).
  destruct (make_room_healthy c0 block Hc0 Hh0) as (c1 & E1 & Hh1).
  destruct (make_room_ok c0 block Hc0) as (r' & c1' & E1' & [(_ & (Eb & El & _) & _) _] & _). rewrite E1 in E1'. simplify_eq.
  rewrite E1. cbn [outcome_bind]. intros ?. simplify_eq. split; [done |]. apply insert_healthy; [done |].
  intros _. unfold on_device. rewrite Eb, El. exact Hb.
Qed.

Lemma cache_read_loop_healthy (off bs : Z) (n : nat) c (buf : list Z) (i : Z) :
  bs = bsize c -> cache_inv c -> cache_healthy c -> 0 <= off -> 0 <= i ->
  Z.of_nat (length buf) = (i + Z.of_nat n) * bs ->
  (off + i + Z.of_nat n) * bs <= io_len (bc_device c) ->
  exists buf' c', cache_read_loop c buf off bs n i = Done (Ok tt, buf', c') /\ cache_healthy c'.
Proof.
  revert c buf i. induction n as [| n IH]; intros c buf i Ebs Hc Hh Ho Hi Hlen Hl; [by eexists _, _ |].
  pose proof (cache_bsize_pos c Hc) as Hpos. rewrite <- Ebs in Hpos. cbn [cache_read_loop].
  destruct (healthy_len (bc_device c)) as (m & _ & _ & Hm); [apply Hc | apply Hh |].
  assert ((off + i + 1) * bs <= io_len (bc_device c)) by nia.
  destruct (block_index off i bs) as [-> ?]; try lia.
  destruct (read_block_healthy c (off + i) Hc Hh) as (c1 & -> & Hh1 & Hs1); [unfold on_device; rewrite <- Ebs; lia |].
  cbn [outcome_bind]. destruct Hs1 as [(Hc1 & (Eb & El & _) & _) _].
  pose proof (block_of_length c (off + i) Hc) as Hbl.
  rewrite copy_into_ok by nia. cbn [outcome_bind]. apply IH; [congruence | done | done | done | lia | | rewrite El; nia].
  rewrite !length_app, length_take, length_drop. nia.
Qed.

Lemma cache_write_loop_healthy (off bs : Z) (n : nat) c (buf : list Z) (i : Z) :
  bs = bsize c -> cache_inv c -> cache_healthy c -> 0 <= off -> 0 <= i ->
  Z.of_nat (length buf) = (i + Z.of_nat n) * bs ->
  (off + i + Z.of_nat n) * bs <= io_len (bc_device c) ->
  exists c', cache_write_loop c buf off bs n i = Done (Ok tt, c') /\ cache_healthy c'.
Proof.
  revert c i. induction n as [| n IH]; intros c i Ebs Hc Hh Ho Hi Hlen Hl; [by eexists |].
  pose proof (cache_bsize_pos c Hc) as Hpos. rewrite <- Ebs in Hpos. cbn [cache_write_loop].
  destruct (healthy_len (bc_device c)) as (m & _ & _ & Hm); [apply Hc | apply Hh |].
  assert ((off + i + 1) * bs <= io_len (bc_device c)) by nia.
  destruct (block_index off i bs) as [-> ?]; try lia. rewrite slice_ok by nia. cbn [outcome_bind].
  edestruct (write_block_healthy c (off + i)) as (c1 & E1 & Hh1 & (Hc1 & (Eb & El & _) & _) & _);
    [done | done | unfold on_device; rewrite <- Ebs; lia | | rewrite E1].
  { rewrite length_take, length_drop. nia. }
  cbn [outcome_bind]. apply IH; [congruence | done | done | done | lia | lia | rewrite El; nia].
Qed.

Lemma cache_read_blocks_healthy c (buf : list Z) (off n : Z) :
  cache_inv c -> cache_healthy c -> block_buffer c buf off n -> (off + n) * bsize c <= io_len (bc_device c) ->
  exists buf' c', cache_read_blocks c buf off = Done (Ok n, buf', c') /\ cache_healthy c'.
Proof.
  intros Hc Hh (Ho & Hn & Hl & Hm) Hr. cbn in Hl, Hm. pose proof (cache_bsize_pos c Hc).
  unfold cache_read_blocks. rewrite Hl, Z.div_mul by lia. solve_cmp.
  destruct (cache_read_loop_healthy off (bsize c) (Z.to_nat n) c buf 0) as (buf' & c' & -> & Hh'); try done; try lia.
  cbn [outcome_bind]. eauto.
Qed.

Lemma cache_write_blocks_healthy c (buf : list Z) (off n : Z) :
  cache_inv c -> cache_healthy c -> block_buffer c buf off n -> (off + n) * bsize c <= io_len (bc_device c) ->
  exists c', cache_write_blocks c buf off = Done (Ok n, c') /\ cache_healthy c'.
Proof.
  intros Hc Hh (Ho & Hn & Hl & Hm) Hr. cbn in Hl, Hm. pose proof (cache_bsize_pos c Hc).
  unfold cache_write_blocks. rewrite Hl, Z.div_mul by lia. solve_cmp.
  destruct (cache_write_loop_healthy off (bsize c) (Z.to_nat n) c buf 0) as (c' & -> & Hh'); try done; try lia.
  cbn [outcome_bind]. eauto.
Qed.

#[export] Program Instance cache_health : HealthyIO (BlockCache D) := {| io_healthy := cache_healthy |}.
Next Obligation.
  intros c buf off n r buf' c' Hc Hh Hb Hl E.
  destruct (cache_read_blocks_healthy c buf off n Hc Hh Hb Hl) as (b1 & c1 & E1 & Hh1).
  cbn in E. rewrite E1 in E. by simplify_eq.
Qed.
Next Obligation.
  intros c buf off n r c' Hc Hh Hb Hl E.
  destruct (cache_write_blocks_healthy c buf off n Hc Hh Hb Hl) as (c1 & E1 & Hh1).
  cbn in E. rewrite E1 in E. by simplify_eq.
Qed.
Next Obligation.
  intros c r c' Hc Hh E. destruct (flush_all_healthy c Hc Hh) as (c1 & E1 & Hh1 & _).
  cbn in E. unfold cache_flush in E. rewrite E1 in E. cbn in E. by simplify_eq.
Qed.
Next Obligation. intros c Hc Hh. apply (healthy_len (bc_device c)); [apply Hc | apply Hh]. Qed.

End Health.
