(* ===== verification/StorageProps.v ===== *)
(** * The storage stack: properties

    What the byte-wise wrappers, the streams and the block cache guarantee over any device
    that keeps its interface, with concrete runs over [RamDisk]. *)

From stdpp Require Import gmap.
From S2P Require Import Prelude Io IoSpec BlockCache BlockCacheSpec.

(** ** A device in memory

    A block device kept in a list, which refuses transfers that leave it and, once broken,
    all of them.  It keeps [BlockIOLaws] and, while it works, [HealthyIO]: the storage
    stack above it is not vacuous, and concrete runs of it are computed below. *)

Record RamDisk := mkDisk { rd_block_size : Z; rd_data : list Z; rd_broken : bool }.

Definition disk_len (d : RamDisk) : Z := Z.of_nat (length (rd_data d)).

(** The transfer is of whole blocks within the disk. *)
Definition disk_accepts (d : RamDisk) (len off : Z) : bool :=
  negb (rd_broken d) && (0 <=? off) && (len mod rd_block_size d =? 0) && (off * rd_block_size d + len <=? disk_len d).

Definition disk_read (d : RamDisk) (buf : list Z) (off : Z) : outcome (result Z IoError * list Z * RamDisk) :=
  let len := Z.of_nat (length buf) in
  if disk_accepts d len off then
    let* part := slice (rd_data d) (off * rd_block_size d) (off * rd_block_size d + len) in
    Done (Ok (len / rd_block_size d), part, d)
  else Done (Err (Other "disk error"), buf, d).

Definition disk_write (d : RamDisk) (buf : list Z) (off : Z) : outcome (result Z IoError * RamDisk) :=
  let len := Z.of_nat (length buf) in
  if disk_accepts d len off then
    let* data := copy_into (rd_data d) (off * rd_block_size d) (off * rd_block_size d + len) buf in
    Done (Ok (len / rd_block_size d), mkDisk (rd_block_size d) data (rd_broken d))
  else Done (Err (Other "disk error"), d).

#[export] Instance disk_io : BlockIO RamDisk := {|
  block_size := rd_block_size;
  io_len := disk_len;
  size_in_blocks := fun d => disk_len d / rd_block_size d;
  read_blocks := disk_read;
  write_blocks := disk_write;
  flush_blocks := fun d => Done (if rd_broken d then Err (Other "disk error") else Ok tt, d);
|}.

Definition disk_bytes (d : RamDisk) (i : Z) : Z := upd (fun _ => 0) 0 (rd_data d) i.

Definition disk_inv (d : RamDisk) : Prop :=
  0 < rd_block_size d /\ exists n, 0 <= n /\ disk_len d = n * rd_block_size d /\ disk_len d + rd_block_size d <= U64_MAX.

Lemma disk_data_seg (d : RamDisk) : rd_data d = seg (disk_bytes d) 0 (disk_len d).
Proof. symmetry. apply seg_upd. Qed.

Lemma disk_accepts_spec (d : RamDisk) (len off : Z) :
  disk_accepts d len off = true ->
  rd_broken d = false /\ 0 <= off /\ len mod rd_block_size d = 0 /\ off * rd_block_size d + len <= disk_len d.
Proof. unfold disk_accepts. intros H. bool_to_prop. by destruct (rd_broken d). Qed.

Lemma disk_accepts_blocks (d : RamDisk) (buf : list Z) (off n : Z) :
  disk_inv d -> rd_broken d = false -> block_buffer d buf off n -> (off + n) * rd_block_size d <= disk_len d ->
  disk_accepts d (Z.of_nat (length buf)) off = true.
Proof.
  intros [Hpos _] Hb (Ho & Hn & Hl & _) Hr. cbn in Hl. unfold disk_accepts. rewrite Hb, Hl, Z.mod_mul by lia.
  cbn. by solve_cmp.
Qed.

Lemma disk_read_accepted (d : RamDisk) (buf : list Z) (off : Z) :
  disk_inv d -> disk_accepts d (Z.of_nat (length buf)) off = true ->
  disk_read d buf off = Done (Ok (Z.of_nat (length buf) / rd_block_size d),
                              seg (disk_bytes d) (off * rd_block_size d) (Z.of_nat (length buf)), d).
Proof.
  intros [Hpos _] E. unfold disk_read. rewrite E. apply disk_accepts_spec in E as (_ & ? & _ & ?).
  rewrite disk_data_seg at 1. rewrite slice_seg by nia. cbn [outcome_bind].
  by rewrite Z.add_simpl_l, Z.add_0_l.
Qed.

Lemma disk_write_accepted (d : RamDisk) (buf : list Z) (off : Z) :
  disk_inv d -> disk_accepts d (Z.of_nat (length buf)) off = true ->
  exists d', disk_write d buf off = Done (Ok (Z.of_nat (length buf) / rd_block_size d), d') /\
    rd_block_size d' = rd_block_size d /\ disk_len d' = disk_len d /\ rd_broken d' = rd_broken d /\
    forall i, disk_bytes d' i = upd (disk_bytes d) (off * rd_block_size d) buf i.
Proof.
  intros [Hpos _] E. unfold disk_write. rewrite E. apply disk_accepts_spec in E as (_ & ? & _ & ?).
  rewrite (disk_data_seg d). rewrite copy_into_seg by nia. cbn [outcome_bind].
  assert (0 <= disk_len d) by (unfold disk_len; lia).
  eexists. split; [done |]. split; [done |]. unfold disk_len at 1. cbn [rd_data]. rewrite seg_length by done.
  split; [done |]. split; [done |]. intros i. unfold disk_bytes at 1. cbn [rd_data].
  rewrite upd_seg_other, Z.add_0_l by done. case_cmp; try done; symmetry.
  - rewrite upd_out by nia. apply upd_out. unfold disk_len in *. lia.
  - rewrite upd_out by nia. apply upd_out. lia.
  - rewrite upd_out by nia. apply upd_out. lia.
Qed.

#[export] Program Instance disk_laws : BlockIOLaws RamDisk := {|
  io_inv := disk_inv;
  io_bytes := disk_bytes;
|}.
Next Obligation. by intros d []. Qed.
Next Obligation.
  intros d buf off n Hd (Ho & Hn & Hl & Hm). pose proof Hd as [Hpos _]. cbn in *.
  destruct (disk_accepts d (Z.of_nat (length buf)) off) eqn:E.
  - rewrite disk_read_accepted by done. eexists _, _, _. split; [done |]. split; [done |].
    split; [apply same_geometry_refl |]. split; [done |].
    split; [pose proof (seg_length (disk_bytes d) (off * rd_block_size d) (Z.of_nat (length buf))); lia |].
    split; [| done]. rewrite Hl. apply Z.div_mul. lia.
  - unfold disk_read. rewrite E. eexists _, _, _. split; [done |]. split; [done |].
    split; [apply same_geometry_refl |]. done.
Qed.
Next Obligation.
  intros d buf off n Hd (Ho & Hn & Hl & Hm). pose proof Hd as [Hpos Hlen]. cbn in *.
  destruct (disk_accepts d (Z.of_nat (length buf)) off) eqn:E.
  - destruct (disk_write_accepted d buf off Hd E) as (d' & -> & Eb & El & _ & Hc).
    eexists _, _. split; [done |]. unfold disk_inv. rewrite Eb, El. split; [done |].
    split; [unfold same_geometry; cbn; by rewrite Eb, El |]. split; [| done]. rewrite Hl. apply Z.div_mul. lia.
  - unfold disk_write. rewrite E. eexists _, _. split; [done |]. split; [done |].
    split; [apply same_geometry_refl |]. done.
Qed.
Next Obligation.
  intros d Hd. eexists _, _. split; [done |]. split; [done |]. split; [apply same_geometry_refl | done].
Qed.

#[export] Program Instance disk_health : HealthyIO RamDisk := {| io_healthy := fun d => rd_broken d = false |}.
Next Obligation.
  intros d buf off n r buf' d' Hd Hb Hbuf Hl E. pose proof (disk_accepts_blocks d buf off n Hd Hb Hbuf Hl) as Ha.
  cbn in E. rewrite disk_read_accepted in E by done. destruct Hbuf as (_ & _ & Hlen & _). destruct Hd as [Hpos _].
  simplify_eq. split; [| done]. cbn in Hlen. rewrite Hlen, Z.div_mul by lia. done.
Qed.
Next Obligation.
  intros d buf off n r d' Hd Hb Hbuf Hl E. pose proof (disk_accepts_blocks d buf off n Hd Hb Hbuf Hl) as Ha.
  destruct (disk_write_accepted d buf off Hd Ha) as (d1 & E1 & _ & _ & Hb1 & _). cbn in E. rewrite E1 in E.
  destruct Hbuf as (_ & _ & Hlen & _). destruct Hd as [Hpos _]. simplify_eq. split; [| congruence].
  cbn in Hlen. rewrite Hlen, Z.div_mul by lia. done.
Qed.
Next Obligation. intros d r d' Hd Hb E. cbn in *. rewrite Hb in E. by simplify_eq. Qed.
Next Obligation. intros d [_ (n & ? & ? & ?)] Hb. exists n. auto. Qed.

(** The order in which the entries of a [gmap] are listed. *)
#[export] Instance list_order : HashIter := {| hash_iter := map_to_list; hash_iter_perm := fun m => reflexivity _ |}.

(** ** Byte ranges and transfers *)

(** For a byte range that does not come within a block of 2^64, [blocks_from_bytes]
    returns (it neither loops nor indexes past its three slots), and its transfers cover
    the range exactly, in order and without overlap; each is a run of whole blocks or a
    proper part of a single block, with the block range and the byte range relative to it
    that belong to its absolute range. *)
Theorem byte_range_split (bs a b : Z) :
  0 < bs -> 0 <= a <= b -> b + bs <= U64_MAX ->
  exists ts, blocks_from_bytes (mkRng a b) bs = Done ts /\ length ts = 3%nat /\ chain bs a b ts.
Proof. intros Hbs Hab Hb. by apply blocks_from_bytes_chain. Qed.

(** The example of the documentation: 1500..3950 in blocks of 512. *)
Lemma byte_range_split_witness :
  blocks_from_bytes (mkRng 1500 3950) 512 =
    Done [Some (part 512 2 476 512); Some (whole 512 3 7); Some (part 512 7 0 366)] /\
  exists ts, blocks_from_bytes (mkRng 1500 3950) 512 = Done ts /\ length ts = 3%nat /\ chain 512 1500 3950 ts.
Proof.
  split; [vm_compute; reflexivity |]. apply (byte_range_split 512 1500 3950); unfold U64_MAX; lia.
Defined.

(** An error of a block-aligned transfer is dropped: where the device fails the one
    transfer an aligned [read_at] or [write_at] consists of, the call still reports that
    every byte was transferred. *)
Theorem aligned_transfer_error_dropped {D : Type} {bio : BlockIO D} (d d1 d2 : D) (buffer buffer1 : list Z)
    (q n : Z) (e1 e2 : IoError) :
  0 < block_size d -> 0 <= q -> 0 < n -> Z.of_nat (length buffer) = n * block_size d ->
  length buffer1 = length buffer -> (q + n) * block_size d + block_size d <= U64_MAX ->
  read_blocks d buffer q = Done (Err e1, buffer1, d1) ->
  write_blocks d buffer q = Done (Err e2, d2) ->
  wrapper_read_at d buffer (q * block_size d) = Done (Ok (Z.of_nat (length buffer)), buffer1, d1) /\
  wrapper_write_at d buffer (q * block_size d) = Done (Ok (Z.of_nat (length buffer)), d2).
Proof.
  intros Hbs Hq Hn Hl Hl1 Hm Hr Hw. set (bs := block_size d) in *.
  assert (blocks_from_bytes (mkRng (q * bs) (wrap64 (q * bs + Z.of_nat (length buffer)))) bs =
          Done [Some (whole bs q (q + n)); None; None]) as Hsplit.
  { rewrite Hl, wrap64_id by (split; unfold U64_MAX in *; nia). replace (q * bs + n * bs) with ((q + n) * bs + 0) by lia.
    unfold blocks_from_bytes. cbn [rg_start]. solve_cmp.
    rewrite (loop_aligned bs Hbs 1 0 q (q + n) 0 (q * bs)); [done | lia | lia | nia | lia | cbn; lia]. }
  assert (slice buffer (q * bs - q * bs) ((q + n) * bs - q * bs) = Done buffer) as Hslice.
  { rewrite slice_ok by nia. replace (q * bs - q * bs) with 0 by lia.
    rewrite Z.sub_0_r, drop_0, firstn_all2; [done | nia]. }
  unfold wrapper_read_at, wrapper_write_at. fold bs. rewrite Hsplit. cbn [outcome_bind read_transfers write_transfers].
  fold bs. rewrite whole_aligned by done. cbn [whole byte_range_absolute block_range rg_start rg_end].
  rewrite Hslice. cbn [outcome_bind]. rewrite Hr, Hw. cbn [outcome_bind].
  rewrite copy_into_ok by nia. cbn [outcome_bind].
  replace (q * bs - q * bs) with 0 by lia. rewrite take_0, (drop_ge buffer), app_nil_r, app_nil_l by nia.
  by rewrite Hl1.
Qed.

Definition broken_disk : RamDisk := mkDisk 4 (replicate 16 7) true.

Lemma aligned_transfer_error_dropped_witness :
  wrapper_read_at broken_disk [0; 0; 0; 0] 8 = Done (Ok 4, [0; 0; 0; 0], broken_disk) /\
  wrapper_write_at broken_disk [0; 0; 0; 0] 8 = Done (Ok 4, broken_disk).
Proof.
  change 8 with (2 * block_size broken_disk).
  apply (aligned_transfer_error_dropped broken_disk broken_disk broken_disk [0; 0; 0; 0] [0; 0; 0; 0] 2 1
           (Other "disk error") (Other "disk error")); try done.
Defined.

(** ** Byte-wise access and streams *)

Section Access.
Context {D : Type} {bio : BlockIO D} {laws : BlockIOLaws D} {healthy : HealthyIO D}.

(** C17: Over a healthy device, [write_at] within it stores exactly the given bytes
    (read-modify-write of partial blocks leaves the neighbouring bytes alone), and any
    [read_at] after it returns the contents with those bytes replaced, at whatever
    alignment of either. *)
Theorem byte_write_then_read (d : D) (buffer dest : list Z) (offset where_ : Z) :
  io_inv d -> io_healthy d ->
  0 <= offset -> offset + Z.of_nat (length buffer) <= io_len d ->
  0 <= where_ -> where_ + Z.of_nat (length dest) <= io_len d ->
  exists d1 d2, wrapper_write_at d buffer offset = Done (Ok (Z.of_nat (length buffer)), d1) /\
    wrapper_read_at d1 dest where_ =
      Done (Ok (Z.of_nat (length dest)),
            seg (upd (io_bytes d) offset buffer) where_ (Z.of_nat (length dest)), d2) /\
    forall i, io_bytes d2 i = upd (io_bytes d) offset buffer i.
Proof.
  intros Hi Hh Ho Hl Hw Hl2. destruct (wrapper_write_ok d buffer offset) as (d1 & E1 & Hd1); try done.
  destruct Hd1 as (Hi1 & Hh1 & (Eb & El & _) & Hc1).
  destruct (wrapper_read_ok d1 dest where_) as (d2 & E2 & (_ & _ & _ & Hc2)); try done; [lia |].
  exists d1, d2. split; [done |]. split; [rewrite E2; do 2 f_equal; f_equal; by apply seg_ext |].
  intros i. by rewrite Hc2, Hc1.
Qed.

End Access.

Definition small_disk : RamDisk := mkDisk 4 [0; 1; 2; 3; 4; 5; 6; 7; 8; 9; 10; 11; 12; 13; 14; 15] false.

Lemma small_disk_inv : disk_inv small_disk.
Proof. split; [done |]. exists 4. by vm_compute. Qed.

Lemma byte_write_then_read_witness :
  exists d1 d2, wrapper_write_at small_disk [91; 92; 93; 94; 95; 96] 3 = Done (Ok 6, d1) /\
    wrapper_read_at d1 [0; 0; 0; 0; 0; 0; 0; 0; 0] 2 = Done (Ok 9, [2; 91; 92; 93; 94; 95; 96; 9; 10], d2) /\
    forall i, io_bytes d2 i = upd (io_bytes small_disk) 3 [91; 92; 93; 94; 95; 96] i.
Proof.
  replace [2; 91; 92; 93; 94; 95; 96; 9; 10] with (seg (upd (io_bytes small_disk) 3 [91; 92; 93; 94; 95; 96]) 2 9)
    by (vm_compute; reflexivity).
  apply (byte_write_then_read small_disk [91; 92; 93; 94; 95; 96] [0; 0; 0; 0; 0; 0; 0; 0; 0] 3 2);
    [apply small_disk_inv | done | done | done | done | done].
Defined.

(** Bytes written to a stream in any number of pieces are read back, after seeking to
    where they started, as their concatenation; stated against the interface of byte-wise
    devices alone. *)
Theorem stream_writes_read_back {D : Type} {io : ByteIO D} {laws : ByteIOLaws D}
    (rw : ReaderWriter D) (bufs : list (list Z)) (dest : list Z) :
  Forall (fun buf => buf <> []) bufs -> concat bufs <> [] ->
  room rw (Z.of_nat (length (concat bufs))) -> in_u64 (rw_offset rw) -> length dest = length (concat bufs) ->
  exists rw1 rw2 rw3, write_all rw bufs = Done (Some rw1) /\
    rw_offset rw1 = rw_offset rw + Z.of_nat (length (concat bufs)) /\
    rw_seek rw1 (Start (rw_offset rw)) = (Ok (rw_offset rw), rw2) /\
    rw_read rw2 dest = Done (Ok (Z.of_nat (length dest)), concat bufs, rw3) /\
    rw_offset rw3 = rw_offset rw1.
Proof.
  intros Hne Hc Hr Ho Hl. destruct (write_all_ok bufs rw Hne Hr) as (rw1 & E1 & (Hi1 & El1 & Hc1 & Eo1)).
  destruct (rw_read_ok (mkRW (rw_io rw1) (rw_offset rw)) dest) as (rw3 & E3 & (_ & _ & _ & Eo3)).
  - intros ->. by destruct (concat bufs).
  - unfold room. cbn. rewrite El1, Hl. split; [done |]. apply Hr.
  - exists rw1, (mkRW (rw_io rw1) (rw_offset rw)), rw3. split; [done |]. split; [done |]. split; [done |]. split.
    + rewrite E3. do 2 f_equal. f_equal. cbn. rewrite Hl.
      etransitivity; [| apply (seg_upd (by_bytes (rw_io rw)) (rw_offset rw))]. by apply seg_ext.
    + rewrite Eo3, Eo1, Hl. done.
Qed.

#[local] Instance disk_bytes_io : ByteIO RamDisk := byte_wrapper.

Lemma stream_writes_read_back_witness :
  exists rw1 rw2 rw3, write_all (mkRW small_disk 3) [[91; 92]; [93; 94; 95]] = Done (Some rw1) /\
    rw_offset rw1 = 8 /\
    rw_seek rw1 (Start 3) = (Ok 3, rw2) /\
    rw_read rw2 [0; 0; 0; 0; 0] = Done (Ok 5, [91; 92; 93; 94; 95], rw3) /\
    rw_offset rw3 = rw_offset rw1.
Proof.
  apply (stream_writes_read_back (laws := byte_wrapper_laws) (mkRW small_disk 3) [[91; 92]; [93; 94; 95]] [0; 0; 0; 0; 0]);
    [by repeat constructor | done | | done | done].
  split; [split; [apply small_disk_inv | done] | by vm_compute].
Defined.

(** A seek succeeds exactly when the position it asks for (from the start, the current
    offset or the end, with the full range of [i64] distances) is a 64-bit offset; it then
    moves there and returns it, and otherwise changes nothing. *)
Theorem seek_moves_to_target {D : Type} {io : ByteIO D} (rw : ReaderWriter D) (position : SeekFrom) :
  in_u64 (rw_offset rw) -> in_u64 (byte_len (rw_io rw)) -> seek_arg_ok position ->
  rw_seek rw position =
    if (0 <=? seek_target rw position) && (seek_target rw position <=? U64_MAX)
    then (Ok (seek_target rw position), mkRW (rw_io rw) (seek_target rw position))
    else (Err KindInvalidInput, rw).
Proof. apply rw_seek_target. Qed.

Lemma seek_moves_to_target_witness :
  rw_seek (mkRW small_disk 9) (End (-3)) = (Ok 13, mkRW small_disk 13) /\
  rw_seek (mkRW small_disk 9) (Current I64_MIN) = (Err KindInvalidInput, mkRW small_disk 9).
Proof.
  split; rewrite seek_moves_to_target; try (vm_compute; done); try (split; by vm_compute).
Defined.

(** ** The block cache *)

Section Cache.
Context {D : Type} {bio : BlockIO D} {hash : HashIter} {laws : BlockIOLaws D}.

Implicit Types c : BlockCache D.

(** The calls a client makes. *)
Inductive cache_op : Type :=
| OpRead (block : Z)
| OpWrite (block : Z) (data : list Z)
| OpFlush (block_num : option Z)
| OpClear.

Definition run_op c (op : cache_op) : outcome (result (list Z) string * BlockCache D) :=
  let unit_result (r : result unit string) := match r with Ok _ => Ok [] | Err e => Err e end in
  match op with
  | OpRead block => read_block c block
  | OpWrite block data => let* (r, c) := write_block c block data in Done (unit_result r, c)
  | OpFlush block_num => let* (r, c) := flush c block_num in Done (unit_result r, c)
  | OpClear => let* (r, c) := flush_and_clear c in Done (unit_result r, c)
  end.

Fixpoint run_ops c (ops : list cache_op) : outcome (list (result (list Z) string) * BlockCache D) :=
  match ops with
  | [] => Done ([], c)
  | op :: ops' =>
      let* (r, c) := run_op c op in
      let* (rs, c) := run_ops c ops' in
      Done (r :: rs, c)
  end.

(** The specification: an array of blocks.  A successful read returns the block, a
    successful write replaces it, nothing else changes. *)
Definition spec_step (s : Z -> list Z) (op : cache_op) (r : result (list Z) string) (s' : Z -> list Z) : Prop :=
  match op, r with
  | OpRead block, Ok data => data = s block /\ forall k, s' k = s k
  | OpWrite block data, Ok _ => forall k, s' k = if decide (k = block) then data else s k
  | _, _ => forall k, s' k = s k
  end.

Inductive spec_run : (Z -> list Z) -> list cache_op -> list (result (list Z) string) -> (Z -> list Z) -> Prop :=
| spec_nil (s s' : Z -> list Z) : (forall k, s' k = s k) -> spec_run s [] [] s'
| spec_cons (s s1 s2 : Z -> list Z) (op : cache_op) (r : result (list Z) string) (ops : list cache_op)
    (rs : list (result (list Z) string)) :
    spec_step s op r s1 -> spec_run s1 ops rs s2 -> spec_run s (op :: ops) (r :: rs) s2.

Definition op_addressable c (op : cache_op) : Prop :=
  match op with
  | OpRead block | OpWrite block _ => addressable c block
  | _ => True
  end.

Lemma run_op_refines c (op : cache_op) :
  cache_inv c -> op_addressable c op ->
  exists r c', run_op c op = Done (r, c') /\ cache_step c c' /\ spec_step (block_of c) op r (block_of c').
Proof.
  intros Hc Ha. destruct op as [k | k data | bn |]; cbn [run_op].
  - destruct (read_block_ok c k Hc Ha) as (r & c' & -> & [Hs Hb] & Hr). eexists _, _. split; [done |].
    split; [done |]. cbn. destruct r; auto.
  - destruct (write_block_ok c k data Hc Ha) as (r & c' & -> & Hs & Hr). cbn [outcome_bind]. eexists _, _. split; [done |].
    split; [done |]. destruct r; [exact (proj2 Hr) | exact Hr].
  - assert (exists r c', flush c bn = Done (r, c') /\ cache_same c c') as (r & c' & -> & [Hs Hb]).
    { destruct bn as [bn |].
      - destruct (flush_one_ok c bn Hc) as (r & c' & ? & ? & _). eauto.
      - destruct (flush_all_ok c Hc) as (r & c' & ? & ? & _). eauto. }
    cbn [outcome_bind]. eexists _, _. split; [done |]. split; [done |]. exact Hb.
  - destruct (flush_and_clear_ok c Hc) as (r & c' & -> & [Hs Hb] & _). cbn [outcome_bind]. eexists _, _.
    split; [done |]. split; [done |]. exact Hb.
Qed.

Lemma run_ops_refines (ops : list cache_op) c :
  cache_inv c -> Forall (op_addressable c) ops ->
  exists rs c', run_ops c ops = Done (rs, c') /\ cache_step c c' /\ spec_run (block_of c) ops rs (block_of c').
Proof.
  revert c. induction ops as [| op ops IH]; intros c Hc Ha.
  { eexists _, _. split; [done |]. split; [by apply cache_same_refl |]. by constructor. }
  apply Forall_cons in Ha as [Hop Ha]. destruct (run_op_refines c op Hc Hop) as (r & c1 & E1 & Hs1 & Hr1).
  destruct (IH c1) as (rs & c2 & E2 & Hs2 & Hr2); [apply Hs1 | |].
  { eapply Forall_impl; [done |]. intros []; cbn; try done; apply addressable_geometry, Hs1. }
  eexists _, _. cbn [run_ops]. rewrite E1. cbn [outcome_bind]. rewrite E2. cbn [outcome_bind]. split; [done |].
  split; [by eapply cache_step_trans | by econstructor].
Qed.

(** C16: Any sequence of reads, writes, flushes and clears of the cache, with the evictions
    they cause, runs without a panic and refines the same sequence on an array of blocks,
    whatever the device does: transfers may fail at any point, and the calls that return
    [Ok] still read and write the one array; no failure loses a write. *)
Theorem cache_refines_block_array c (ops : list cache_op) :
  cache_inv c -> Forall (op_addressable c) ops ->
  exists rs c', run_ops c ops = Done (rs, c') /\ cache_inv c' /\ spec_run (block_of c) ops rs (block_of c').
Proof.
  intros Hc Ha. destruct (run_ops_refines ops c Hc Ha) as (rs & c' & E & (Hc' & _) & Hr). eauto.
Qed.

Lemma with_capacity_inv (d : D) (capacity : Z) : io_inv d -> cache_inv (with_capacity d capacity).
Proof.
  intros Hd. split; cbn; [done | | rewrite map_size_empty; lia]. intros k cb E. by rewrite lookup_empty in E.
Qed.

(** A cache never holds more blocks than its capacity (one block, if that is 0),
    whatever is done with it and however the device fails. *)
Theorem cache_stays_bounded (d : D) (capacity : Z) (ops : list cache_op) :
  io_inv d -> Forall (op_addressable (with_capacity d capacity)) ops ->
  exists rs c', run_ops (with_capacity d capacity) ops = Done (rs, c') /\
    Z.of_nat (size (bc_cache c')) <= Z.max 1 capacity.
Proof.
  intros Hd Ha. destruct (run_ops_refines ops _ (with_capacity_inv d capacity Hd) Ha) as (rs & c' & E & (Hc' & _ & Ec) & _).
  exists rs, c'. split; [done |]. destruct Hc' as [_ _ Hs]. by rewrite Ec in Hs.
Qed.

(** When [flush(None)] succeeds the device holds the contents of the cache, block for
    block, and they are what they were before; when it fails they are still intact in
    the cache. *)
Theorem flush_writes_everything_back c :
  cache_inv c ->
  exists r c', flush c None = Done (r, c') /\ (forall k, block_of c' k = block_of c k) /\
    (r = Ok tt -> forall k, seg (io_bytes (bc_device c')) (k * block_size (bc_device c)) (block_size (bc_device c)) = block_of c k).
Proof.
  intros Hc. destruct (flush_all_ok c Hc) as (r & c' & E & [(Hc' & (Eb & _ & _) & _) Hb] & _ & Hok).
  eexists _, _. split; [done |]. split; [done |]. intros Hr k. rewrite <- Hb, <- Eb. symmetry.
  apply all_clean_device; auto.
Qed.

(** As long as some entry need not be written back, eviction removes exactly one
    entry, a least recently used of those, and does not touch the device. *)
Theorem eviction_takes_oldest_clean c (k0 : Z) (cb0 : CachedBlock) :
  bc_cache c !! k0 = Some cb0 -> cb_state cb0 <> Modified ->
  exists k cb c', evict_one c = Done (Ok tt, c') /\ bc_cache c !! k = Some cb /\ cb_state cb <> Modified /\
    bc_cache c' = delete k (bc_cache c) /\ bc_device c' = bc_device c /\
    forall k' cb', bc_cache c !! k' = Some cb' -> cb_state cb' <> Modified -> cb_lru_tick cb <= cb_lru_tick cb'.
Proof.
  intros E0 H0. unfold evict_one. pose proof (lru_victim_spec c (fun cb => negb (is_modified cb))) as Hv.
  assert (forall cb, negb (is_modified cb) = true <-> cb_state cb <> Modified) as Hn.
  { intros cb. rewrite negb_true_iff. unfold is_modified. apply bool_decide_eq_false. }
  destruct (lru_victim c _) as [k |].
  - destruct Hv as (cb & E & Hp & Hmin). exists k, cb. eexists. split; [done |]. split; [done |].
    split; [by apply Hn |]. split; [done |]. split; [done |]. intros k' cb' E' H'. eapply Hmin; [done |]. by apply Hn.
  - specialize (Hv k0 cb0 E0). apply Hn in H0. congruence.
Qed.

End Cache.

(** The contents of a clean cache are the device's, byte for byte. *)
Lemma all_clean_bytes {D : Type} {bio : BlockIO D} {hash : HashIter} {laws : BlockIOLaws D} (c : BlockCache D) (i : Z) :
  cache_inv c -> all_clean c -> io_bytes (bc_device c) i = cache_bytes c i.
Proof.
  intros Hc Hcl. pose proof (cache_bsize_pos c Hc) as Hpos. unfold cache_bytes. rewrite all_clean_device by done.
  pose proof (Z_div_mod_eq_full i (block_size (bc_device c))). pose proof (Z.mod_pos_bound i _ Hpos).
  rewrite seg_lookup by lia. cbn. f_equal. lia.
Qed.

(** The stack composed: bytes written at any offset through the byte-wise wrapper over
    a cache over a healthy device are, once the cache is flushed, what the device itself
    returns, together with everything the cache held before. *)
Theorem cached_write_durable {D : Type} {bio : BlockIO D} {hash : HashIter} {laws : BlockIOLaws D}
    {healthy : HealthyIO D} (c : BlockCache D) (buffer dest : list Z) (offset where_ : Z) :
  cache_inv c -> cache_healthy c ->
  0 <= offset -> offset + Z.of_nat (length buffer) <= io_len c ->
  0 <= where_ -> where_ + Z.of_nat (length dest) <= io_len c ->
  exists c1 c2 d, wrapper_write_at c buffer offset = Done (Ok (Z.of_nat (length buffer)), c1) /\
    flush c1 None = Done (Ok tt, c2) /\
    wrapper_read_at (bc_device c2) dest where_ =
      Done (Ok (Z.of_nat (length dest)),
            seg (upd (cache_bytes c) offset buffer) where_ (Z.of_nat (length dest)), d).
Proof.
  intros Hc Hh Ho Hl Hw Hl2. destruct (wrapper_write_ok c buffer offset) as (c1 & E1 & (Hi1 & Hh1 & (_ & El1 & _) & Hc1)); try done.
  destruct (flush_all_healthy c1 Hi1 Hh1) as (c2 & E2 & Hh2 & Hs2 & Hcl). pose proof Hs2 as [(Hi2 & (_ & El2 & _) & _) _].
  apply cache_same_bytes in Hs2 as (_ & _ & Hb2). cbn in El1, Hl2.
  destruct (wrapper_read_ok (bc_device c2) dest where_) as (d & E3 & _); [apply Hi2 | apply Hh2 | done | lia |].
  exists c1, c2, d. split; [done |]. split; [done |]. rewrite E3. do 2 f_equal. f_equal. apply seg_ext. intros i _.
  rewrite all_clean_bytes, Hb2 by done. apply Hc1.
Qed.

(** ** Concrete runs *)

Definition demo_ops : list cache_op :=
  [OpWrite 0 [50; 51; 52; 53]; OpWrite 1 [60; 61; 62; 63]; OpRead 2; OpRead 0; OpWrite 2 [1]; OpFlush None; OpRead 0].

#[local] Abbreviation small_cache := (with_capacity small_disk 2).

Lemma demo_addressable : Forall (op_addressable small_cache) demo_ops.
Proof. repeat constructor; by vm_compute. Qed.

(** The run fills and evicts a cache of two blocks; the write of the wrong size fails. *)
Lemma cache_refines_block_array_witness :
  Forall (op_addressable small_cache) demo_ops /\
  exists rs c', run_ops small_cache demo_ops = Done (rs, c') /\ cache_inv c' /\
    spec_run (block_of small_cache) demo_ops rs (block_of c').
Proof.
  split; [apply demo_addressable |].
  apply (cache_refines_block_array small_cache demo_ops); [apply with_capacity_inv, small_disk_inv | apply demo_addressable].
Defined.

Lemma cache_stays_bounded_witness :
  exists rs c', run_ops small_cache demo_ops = Done (rs, c') /\ Z.of_nat (size (bc_cache c')) <= Z.max 1 2.
Proof. apply (cache_stays_bounded small_disk 2 demo_ops); [apply small_disk_inv | apply demo_addressable]. Defined.

Definition dirty_cache : BlockCache RamDisk :=
  set_cache small_cache (<[1 := mkCached [60; 61; 62; 63] Modified 1]> ∅).

Lemma dirty_cache_inv : cache_inv dirty_cache.
Proof.
  split; [apply small_disk_inv | | done]. intros k cb E. cbn in E.
  apply lookup_insert_Some in E as [[<- <-] | [_ E]]; [| by rewrite lookup_empty in E].
  by split; vm_compute.
Qed.

Lemma flush_writes_everything_back_witness :
  exists r c', flush dirty_cache None = Done (r, c') /\ (forall k, block_of c' k = block_of dirty_cache k) /\
    (r = Ok tt -> forall k, seg (io_bytes (bc_device c')) (k * block_size small_disk) (block_size small_disk) =
                            block_of dirty_cache k).
Proof. apply (flush_writes_everything_back dirty_cache). apply dirty_cache_inv. Defined.

(** Block 1 is clean and old, block 2 invalid and recent, block 3 modified and oldest. *)
Definition mixed_cache : BlockCache RamDisk :=
  set_cache small_cache
    (<[1 := mkCached [4; 5; 6; 7] Shared 5]> (<[2 := mkCached [0; 0; 0; 0] Invalid 9]>
       (<[3 := mkCached [0; 0; 0; 0] Modified 1]> ∅))).

Lemma eviction_takes_oldest_clean_witness :
  exists k cb c', evict_one mixed_cache = Done (Ok tt, c') /\ bc_cache mixed_cache !! k = Some cb /\
    cb_state cb <> Modified /\ bc_cache c' = delete k (bc_cache mixed_cache) /\ bc_device c' = bc_device mixed_cache /\
    forall k' cb', bc_cache mixed_cache !! k' = Some cb' -> cb_state cb' <> Modified -> cb_lru_tick cb <= cb_lru_tick cb'.
Proof. apply (eviction_takes_oldest_clean mixed_cache 1 (mkCached [4; 5; 6; 7] Shared 5)); done. Defined.

(** The documented preference for invalid entries is not what the code does: an older
    [Shared] entry goes first. *)
Example shared_evicted_before_invalid :
  match evict_one mixed_cache with
  | Done (Ok _, c') => bool_decide (bc_cache c' !! 1 = None /\ bc_cache c' !! 2 <> None)
  | _ => false
  end = true.
Proof. vm_compute. reflexivity. Qed.

(** A write beyond the device is accepted, and every later flush fails. *)
Example write_beyond_device_accepted :
  match write_block small_cache 100 [1; 2; 3; 4] with
  | Done (Ok _, c1) =>
      match flush c1 None with
      | Done (Err _, c2) => match flush c2 None with Done (Err _, _) => true | _ => false end
      | _ => false
      end
  | _ => false
  end = true.
Proof. vm_compute. reflexivity. Qed.

Lemma small_cache_healthy : cache_healthy small_cache.
Proof. split; [done |]. intros k cb E. cbn in E. by rewrite lookup_empty in E. Qed.

Lemma cached_write_durable_witness :
  exists c1 c2 d, wrapper_write_at small_cache [91; 92; 93; 94; 95; 96] 3 = Done (Ok 6, c1) /\
    flush c1 None = Done (Ok tt, c2) /\
    wrapper_read_at (bc_device c2) [0; 0; 0; 0; 0; 0; 0; 0; 0] 2 = Done (Ok 9, [2; 91; 92; 93; 94; 95; 96; 9; 10], d).
Proof.
  replace [2; 91; 92; 93; 94; 95; 96; 9; 10] with (seg (upd (cache_bytes small_cache) 3 [91; 92; 93; 94; 95; 96]) 2 9)
    by (vm_compute; reflexivity).
  apply (cached_write_durable small_cache [91; 92; 93; 94; 95; 96] [0; 0; 0; 0; 0; 0; 0; 0; 0] 3 2);
    [apply with_capacity_inv, small_disk_inv | apply small_cache_healthy | done | done | done | done].
Defined.
