(* ===== verification/Paths.v ===== *)
(** * File system paths: operations

    Models kernel/path/src/component.rs and kernel/path/src/lib.rs.  A [str] is the list of
    its bytes; the separator and the dot are ASCII, so splitting bytes is splitting
    characters.  A [Path] or [PathBuf] is its string.

    The loops of the iterator run on fuel, one more than what the length of the path allows
    for; [PathSpec] proves that they always return. *)

From Stdlib Require Export Ascii.
From S2P Require Import Prelude.

Abbreviation str := (list ascii).

#[export] Instance ascii_eq_dec : EqDecision ascii := ascii_dec.

(** A literal. *)
Definition lit (x : string) : str := String.list_ascii_of_string x.

Definition SEPARATOR : ascii := "/"%char.

Definition DOT : ascii := "."%char.

(** ** Strings *)

Definition str_eqb (a b : str) : bool := bool_decide (a = b).

Definition str_is_empty (l : str) : bool := match l with [] => true | _ => false end.

Fixpoint starts_with (l prefix : str) {struct prefix} : bool :=
  match prefix, l with
  | [], _ => true
  | p :: prefix', x :: l' => bool_decide (x = p) && starts_with l' prefix'
  | _ :: _, [] => false
  end.

(** [split_once] and [rsplit_once]: around the first and the last occurrence. *)
Fixpoint split_once (sep : ascii) (l : str) : option (str * str) :=
  match l with
  | [] => None
  | x :: l' =>
      if bool_decide (x = sep) then Some ([], l')
      else match split_once sep l' with
           | Some (a, b) => Some (x :: a, b)
           | None => None
           end
  end.

Fixpoint rsplit_once (sep : ascii) (l : str) : option (str * str) :=
  match l with
  | [] => None
  | x :: l' =>
      match rsplit_once sep l' with
      | Some (a, b) => Some (x :: a, b)
      | None => if bool_decide (x = sep) then Some ([], l') else None
      end
  end.

(** ** Components *)

Inductive Component : Type :=
| RootDir
| CurDir
| ParentDir
| Normal (name : str).

#[export] Instance Component_eq_dec : EqDecision Component.
Proof. solve_decision. Defined.

Definition component (s : str) : option Component :=
  if str_eqb s (lit ".") || str_is_empty s then None
  else if str_eqb s (lit "..") then Some ParentDir
  else Some (Normal s).

Definition component_str (c : Component) : str :=
  match c with
  | RootDir => lit "/"
  | CurDir => lit "."
  | ParentDir => lit ".."
  | Normal name => name
  end.

Inductive State : Type := StartDir | Body | StateDone.

#[export] Instance State_eq_dec : EqDecision State.
Proof. solve_decision. Defined.

Definition state_nat (s : State) : nat := (match s with StartDir => 0 | Body => 1 | StateDone => 2 end)%nat.

Record Components := mkComponents { cs_path : str; cs_front : State; cs_back : State }.

Definition components (path : str) : Components := mkComponents path StartDir Body.

Definition set_path (c : Components) (path : str) : Components := mkComponents path (cs_front c) (cs_back c).

Definition include_cur_dir (c : Components) : bool :=
  str_eqb (cs_path c) (lit ".") || starts_with (cs_path c) (lit "./").

Definition has_root (c : Components) : bool := starts_with (cs_path c) [SEPARATOR].

Definition is_start (s : State) : bool := bool_decide (s = StartDir).

Definition len_before_body (c : Components) : nat :=
  let root := if is_start (cs_front c) && has_root c then 1%nat else 0%nat in
  let cur_dir := if is_start (cs_front c) && include_cur_dir c then 1%nat else 0%nat in
  (root + cur_dir)%nat.

Definition peek (c : Components) : str * option Component :=
  match split_once SEPARATOR (cs_path c) with
  | Some (next, rest) => (rest, component next)
  | None => ([], component (cs_path c))
  end.

Definition peek_back (c : Components) : str * option Component :=
  match rsplit_once SEPARATOR (drop (len_before_body c) (cs_path c)) with
  | Some (rest, next) => (take (len_before_body c + length rest)%nat (cs_path c), component next)
  | None => (take (len_before_body c) (cs_path c), component (drop (len_before_body c) (cs_path c)))
  end.

Definition finished (c : Components) : bool :=
  bool_decide (cs_front c = StateDone) || bool_decide (cs_back c = StateDone)
  || (state_nat (cs_back c) <? state_nat (cs_front c))%nat.

(** The loop of [next]; [StateDone] is unreachable there. *)
Fixpoint next_loop (fuel : nat) (c : Components) : outcome (option Component * Components) :=
  match fuel with
  | O => Panic
  | S fuel' =>
      if finished c then Done (None, c)
      else
        match cs_front c with
        | StartDir =>
            let c := mkComponents (cs_path c) Body (cs_back c) in
            if has_root c then Done (Some RootDir, set_path c (drop 1 (cs_path c)))
            else if include_cur_dir c then Done (Some CurDir, set_path c (drop 1 (cs_path c)))
            else next_loop fuel' c
        | Body =>
            if negb (str_is_empty (cs_path c)) then
              let '(rest, comp) := peek c in
              let c := set_path c rest in
              match comp with
              | Some _ => Done (comp, c)
              | None => next_loop fuel' c
              end
            else next_loop fuel' (mkComponents (cs_path c) StateDone (cs_back c))
        | StateDone => Panic
        end
  end.

Definition loop_fuel (c : Components) : nat := (length (cs_path c) + 4)%nat.

Definition next (c : Components) : outcome (option Component * Components) := next_loop (loop_fuel c) c.

Fixpoint next_back_loop (fuel : nat) (c : Components) : outcome (option Component * Components) :=
  match fuel with
  | O => Panic
  | S fuel' =>
      if finished c then Done (None, c)
      else
        match cs_back c with
        | Body =>
            if (len_before_body c <? length (cs_path c))%nat then
              let '(rest, comp) := peek_back c in
              let c := set_path c rest in
              match comp with
              | Some _ => Done (comp, c)
              | None => next_back_loop fuel' c
              end
            else next_back_loop fuel' (mkComponents (cs_path c) (cs_front c) StartDir)
        | StartDir =>
            let c := mkComponents (cs_path c) (cs_front c) StateDone in
            let shorter := take (length (cs_path c) - 1) (cs_path c) in
            if has_root c then Done (Some RootDir, set_path c shorter)
            else if include_cur_dir c then Done (Some CurDir, set_path c shorter)
            else next_back_loop fuel' c
        | StateDone => Panic
        end
  end.

Definition next_back (c : Components) : outcome (option Component * Components) := next_back_loop (loop_fuel c) c.

Fixpoint trim_left (fuel : nat) (c : Components) : outcome Components :=
  match fuel with
  | O => Panic
  | S fuel' =>
      if str_is_empty (cs_path c) then Done c
      else
        let '(rest, comp) := peek c in
        match comp with
        | Some _ => Done c
        | None => trim_left fuel' (set_path c rest)
        end
  end.

Fixpoint trim_right (fuel : nat) (c : Components) : outcome Components :=
  match fuel with
  | O => Panic
  | S fuel' =>
      if (len_before_body c <? length (cs_path c))%nat then
        let '(rest, comp) := peek_back c in
        match comp with
        | Some _ => Done c
        | None => trim_right fuel' (set_path c rest)
        end
      else Done c
  end.

Definition as_path (c : Components) : outcome str :=
  let* c := if bool_decide (cs_front c = Body) then trim_left (loop_fuel c) c else Done c in
  let* c := if bool_decide (cs_back c = Body) then trim_right (loop_fuel c) c else Done c in
  Done (cs_path c).

(** The components that are left, from the front. *)
Fixpoint collect (fuel : nat) (c : Components) : outcome (list Component) :=
  match fuel with
  | O => Panic
  | S fuel' =>
      let* (o, c) := next c in
      match o with
      | None => Done []
      | Some x => let* l := collect fuel' c in Done (x :: l)
      end
  end.

Definition all_components (path : str) : outcome (list Component) := collect (length path + 2)%nat (components path).

(** ** Paths *)

Definition is_absolute (path : str) : bool := starts_with path [SEPARATOR].

(** [PathBuf::push] and [Path::join]. *)
Definition push (self path : str) : str :=
  if is_absolute path then path else self ++ [SEPARATOR] ++ path.

Definition join (self path : str) : str := push self path.

Definition parent (self : str) : outcome (option str) :=
  let* (o, cs) := next_back (components self) in
  match o with
  | Some (Normal _) | Some CurDir | Some ParentDir => let* p := as_path cs in Done (Some p)
  | _ => Done None
  end.

Definition pop (self : str) : outcome (bool * str) :=
  let* o := parent self in
  match o with
  | Some p => Done (true, take (length p) self)
  | None => Done (false, self)
  end.

Definition file_name (self : str) : outcome (option str) :=
  let* (o, _) := next_back (components self) in
  match o with
  | Some (Normal p) => Done (Some p)
  | _ => Done None
  end.

Definition file_stem (self : str) : outcome (option str) :=
  let* o := file_name self in
  Done (match o with
        | Some name =>
            match rsplit_once DOT name with
            | Some (before, _) => if str_is_empty before then Some name else Some before
            | None => Some name
            end
        | None => None
        end).

Definition extension (self : str) : outcome (option str) :=
  let* o := file_name self in
  Done (match o with
        | Some name =>
            match rsplit_once DOT name with
            | Some (before, after) => if str_is_empty before then None else Some after
            | None => None
            end
        | None => None
        end).

(** [PathBuf::from_iter]: the components separated by slashes. *)
Fixpoint from_iter (l : list str) : str :=
  match l with
  | [] => []
  | [x] => x
  | x :: l' => x ++ [SEPARATOR] ++ from_iter l'
  end.

(** The loop of [relative], on the components still to come; [None] is [return None]. *)
Fixpoint relative_loop (a b comps : list Component) : option (list Component) :=
  match b with
  | [] => Some (comps ++ a)
  | y :: b' =>
      match a with
      | [] => relative_loop [] b' (comps ++ [ParentDir])
      | x :: a' =>
          if bool_decide (comps = []) && bool_decide (x = y) then relative_loop a' b' comps
          else
            match y with
            | CurDir => relative_loop a' b' (comps ++ [x])
            | ParentDir => None
            | _ => Some (comps ++ [ParentDir] ++ (const ParentDir <$> b') ++ [x] ++ a')
            end
      end
  end.

Definition relative (self base : str) : outcome (option str) :=
  if negb (Bool.eqb (is_absolute self) (is_absolute base)) then
    Done (if is_absolute self then Some self else None)
  else
    let* a := all_components self in
    let* b := all_components base in
    Done ((fun comps => from_iter (component_str <$> comps)) <$> relative_loop a b []).
