(* ===== verification/PathSpec.v ===== *)
(** * File system paths: what the iterator yields

    The reference is direct: a path is split at its separators, empty fields and dots are
    dropped, and a leading root or dot is kept.  The double-ended iterator of [Paths],
    which works on slices with two state machines, is proved to yield exactly these
    components under every interleaving of [next] and [next_back], and to return.  The
    operations on paths follow. *)

From S2P Require Import Prelude Paths.

(** ** The reference *)

Fixpoint fields (l : str) : list str :=
  match l with
  | [] => [[]]
  | x :: l' =>
      if bool_decide (x = SEPARATOR) then [] :: fields l'
      else match fields l' with
           | f :: fs => (x :: f) :: fs
           | [] => [[x]]
           end
  end.

Definition body_comps (l : str) : list Component := omap component (fields l).

Definition starts_cur (p : str) : bool := str_eqb p (lit ".") || starts_with p (lit "./").

Definition prefix_comps (p : str) : list Component :=
  if is_absolute p then [RootDir] else if starts_cur p then [CurDir] else [].

(** The components of a path. *)
Definition parse (p : str) : list Component := prefix_comps p ++ body_comps (drop (length (prefix_comps p)) p).

(** ** Splitting *)

Lemma fields_ne (l : str) : fields l <> [].
Proof. destruct l; cbn; [done |]. case_match; [done |]. by case_match. Qed.

Lemma split_once_fields (l : str) :
  match split_once SEPARATOR l with
  | Some (a, b) => fields l = a :: fields b /\ l = a ++ SEPARATOR :: b
  | None => fields l = [l]
  end.
Proof.
  induction l as [| x l IH]; [done |]. cbn. case_bool_decide as Hx; [by subst |].
  destruct (split_once SEPARATOR l) as [[a b] |]; [destruct IH as [-> ->] | rewrite IH]; done.
Qed.

Lemma rsplit_once_fields (l : str) :
  match rsplit_once SEPARATOR l with
  | Some (a, b) => fields l = fields a ++ [b] /\ l = a ++ SEPARATOR :: b
  | None => fields l = [l]
  end.
Proof.
  induction l as [| x l IH]; [done |]. cbn. destruct (rsplit_once SEPARATOR l) as [[a b] |].
  - destruct IH as [E ->]. split; [| done]. cbn. rewrite E. case_bool_decide; [done |].
    pose proof (fields_ne a). by destruct (fields a).
  - rewrite IH. case_bool_decide as Hx; [by subst | done].
Qed.

(** The components of the two halves of a path split at a separator. *)
Lemma fields_sep (a b : str) : fields (a ++ SEPARATOR :: b) = fields a ++ fields b.
Proof.
  induction a as [| x a IH]; [done |]. cbn. rewrite IH. case_bool_decide; [done |].
  pose proof (fields_ne a). by destruct (fields a).
Qed.

Lemma body_comps_sep (a b : str) : body_comps (a ++ SEPARATOR :: b) = body_comps a ++ body_comps b.
Proof. unfold body_comps. by rewrite fields_sep, omap_app. Qed.

Lemma body_comps_single (l : str) : fields l = [l] -> body_comps l = option_list (component l).
Proof. unfold body_comps. intros ->. cbn. by destruct (component l). Qed.

(** ** Abstract state of the iterator *)

Definition remaining (c : Components) : list Component :=
  if is_start (cs_front c) then parse (cs_path c) else body_comps (cs_path c).

(** Between calls the iterator is in its body at the back, or has consumed the path. *)
Definition comps_ok (c : Components) : Prop :=
  cs_path c = [] \/ cs_back c = Body /\ cs_front c <> StateDone.

Lemma remaining_nil (c : Components) : cs_path c = [] -> remaining c = [].
Proof. unfold remaining. intros ->. by case_match. Qed.

Lemma peek_spec (c : Components) :
  let '(rest, comp) := peek c in
  body_comps (cs_path c) = option_list comp ++ body_comps rest /\
  (cs_path c <> [] -> (length rest < length (cs_path c))%nat).
Proof.
  unfold peek. pose proof (split_once_fields (cs_path c)) as H.
  destruct (split_once SEPARATOR (cs_path c)) as [[a b] |].
  - destruct H as [E Ep]. split.
    + unfold body_comps at 1. rewrite E. cbn. by destruct (component a).
    + intros _. rewrite Ep, length_app. cbn. lia.
  - split; [rewrite body_comps_single by done; by rewrite app_nil_r |].
    intros Hne. destruct (cs_path c); [done | cbn; lia].
Qed.

(** [next] once the front has left its start. *)
Lemma next_loop_body (fuel : nat) (c : Components) :
  cs_front c = Body -> cs_back c = Body -> (length (cs_path c) + 2 <= fuel)%nat ->
  exists c', next_loop fuel c = Done (head (body_comps (cs_path c)), c') /\ comps_ok c' /\
    remaining c' = tail (body_comps (cs_path c)).
Proof.
  revert c. induction fuel as [| fuel IH]; intros c Hf Hb Hfuel; [lia |].
  cbn [next_loop]. replace (finished c) with false by (unfold finished; by rewrite Hf, Hb).
  rewrite Hf. destruct (str_is_empty (cs_path c)) eqn:He; cbn [negb].
  - destruct (cs_path c) as [| x l] eqn:Ep; [| done]. destruct fuel as [| fuel]; [cbn in Hfuel; lia |].
    cbn. eexists. split; [done |]. split; [by left | done].
  - pose proof (peek_spec c) as Hp. destruct (peek c) as [rest comp]. destruct Hp as [E Hlt].
    assert (cs_path c <> []) as Hne by (by destruct (cs_path c)). specialize (Hlt Hne).
    destruct comp as [x |].
    + eexists. split; [by rewrite E |]. split; [right; cbn; rewrite Hf, Hb; done |].
      unfold remaining. cbn. rewrite Hf, E. done.
    + destruct (IH (set_path c rest)) as (c' & E' & Hok & Hr); [done | done | cbn; lia |].
      exists c'. rewrite E'. cbn. by rewrite E.
Qed.

Lemma next_loop_empty (fuel : nat) (c : Components) :
  cs_path c = [] -> exists c', next_loop (S (S (S fuel))) c = Done (None, c') /\ cs_path c' = [].
Proof.
  destruct c as [p f b]. cbn [cs_path]. intros ->. destruct f, b; cbn; eexists; (split; [done | done]).
Qed.

(** A path that starts at the root, at a dot, or in its body. *)
Lemma start_cases (p : str) :
  parse p =
    if is_absolute p then RootDir :: body_comps (drop 1 p)
    else if starts_cur p then CurDir :: body_comps (drop 1 p)
    else body_comps p.
Proof. unfold parse, prefix_comps. destruct (is_absolute p); [done |]. by destruct (starts_cur p). Qed.

Lemma remaining_start (p : str) (b : State) : remaining (mkComponents p StartDir b) = parse p.
Proof. done. Qed.

Lemma remaining_body (p : str) (b : State) : remaining (mkComponents p Body b) = body_comps p.
Proof. done. Qed.

Lemma next_ok (c : Components) :
  comps_ok c ->
  exists c', next c = Done (head (remaining c), c') /\ comps_ok c' /\ remaining c' = tail (remaining c).
Proof.
  intros Hok. unfold next, loop_fuel. destruct (decide (cs_path c = [])) as [Hp | Hp].
  { rewrite Hp. destruct (next_loop_empty 1 c Hp) as (c' & E & Hp'). exists c'. cbn [length Nat.add]. rewrite E.
    rewrite !(remaining_nil c), (remaining_nil c') by done. split; [done |]. split; [by left | done]. }
  destruct Hok as [? | [Hb Hf]]; [done |]. destruct c as [p f b]. cbn in *. subst b. destruct f; [| | done].
  - rewrite remaining_start, start_cases. replace (length p + 4)%nat with (S (length p + 3)) by lia.
    assert (length p + 2 <= length p + 3)%nat as Hfuel by lia. set (n := (length p + 3)%nat) in *. clearbody n.
    cbn [next_loop cs_front cs_path cs_back].
    replace (finished (mkComponents p StartDir Body)) with false by done.
    replace (has_root (mkComponents p Body Body)) with (is_absolute p) by done.
    replace (include_cur_dir (mkComponents p Body Body)) with (starts_cur p) by done.
    destruct (is_absolute p); [eexists; split; [done |]; split; [by right | done] |].
    destruct (starts_cur p); [eexists; split; [done |]; split; [by right | done] |].
    by apply (next_loop_body n (mkComponents p Body Body)).
  - apply (next_loop_body _ (mkComponents p Body Body)); [done | done | cbn; lia].
Qed.

(** ** From the back *)

Lemma starts_with_app (l prefix : str) : starts_with l prefix = true <-> exists k, l = prefix ++ k.
Proof.
  revert l. induction prefix as [| p prefix IH]; intros l; cbn.
  - split; [intros _; by exists l | intros _; by destruct l].
  - destruct l as [| x l]; [split; [done | by intros [? ?]] |].
    cbn. rewrite andb_true_iff, bool_decide_eq_true, IH. split.
    + intros [-> [k ->]]. by exists k.
    + intros [k E]. simplify_eq. eauto.
Qed.

Lemma is_absolute_spec (p : str) : is_absolute p = true <-> exists k, p = SEPARATOR :: k.
Proof. apply starts_with_app. Qed.

Lemma starts_cur_spec (p : str) : starts_cur p = true <-> p = [DOT] \/ exists k, p = DOT :: SEPARATOR :: k.
Proof.
  unfold starts_cur, str_eqb. rewrite orb_true_iff, bool_decide_eq_true, starts_with_app. done.
Qed.

(** The three ways a path can start. *)
Inductive start_view : str -> list Component -> Prop :=
| view_root (k : str) : start_view (SEPARATOR :: k) [RootDir]
| view_dot : start_view [DOT] [CurDir]
| view_dot_sep (k : str) : start_view (DOT :: SEPARATOR :: k) [CurDir]
| view_body (p : str) : is_absolute p = false -> starts_cur p = false -> start_view p [].

Lemma start_viewP (p : str) : start_view p (prefix_comps p).
Proof.
  unfold prefix_comps. destruct (is_absolute p) eqn:Ha.
  - apply is_absolute_spec in Ha as [k ->]. constructor.
  - destruct (starts_cur p) eqn:Hc; [| by constructor].
    apply starts_cur_spec in Hc as [-> | [k ->]]; constructor.
Qed.

Lemma view_prefix (p : str) (l : list Component) : start_view p l -> prefix_comps p = l.
Proof. destruct 1 as [| | | p Ha Hc]; try done. unfold prefix_comps. by rewrite Ha, Hc. Qed.

Lemma len_before_body_spec (c : Components) :
  len_before_body c = if is_start (cs_front c) then length (prefix_comps (cs_path c)) else 0%nat.
Proof.
  unfold len_before_body. destruct (is_start (cs_front c)); cbn [andb]; [| done].
  change (has_root c) with (is_absolute (cs_path c)). change (include_cur_dir c) with (starts_cur (cs_path c)).
  destruct (start_viewP (cs_path c)) as [| | | p Ha Hc]; try done. by rewrite Ha, Hc.
Qed.

(** Cutting a path at a separator of its body, or down to its start, keeps the start. *)
Lemma prefix_take (p : str) (m : nat) :
  (length (prefix_comps p) <= m)%nat -> p !! m = Some SEPARATOR \/ m = length (prefix_comps p) ->
  prefix_comps (take m p) = prefix_comps p.
Proof.
  intros Hm Hsep. destruct (start_viewP p) as [k | | k | p Ha Hc]; cbn in Hm; apply view_prefix.
  - destruct m as [| m]; [lia |]. constructor.
  - destruct m as [| m]; [lia |]. cbn. rewrite take_nil. constructor.
  - destruct m as [| [| m]]; [lia | constructor |]. cbn. constructor.
  - destruct Hsep as [Hsep | ->]; [| by constructor]. destruct m as [| m]; [by constructor |].
    destruct p as [| x p]; [done |]. cbn in Hsep. cbn [take]. constructor.
    + apply not_true_iff_false. rewrite is_absolute_spec. intros [k E]. simplify_eq.
    + apply not_true_iff_false. rewrite starts_cur_spec. apply not_true_iff_false in Hc. rewrite starts_cur_spec in Hc.
      intros [E | [k E]]; apply Hc; right; destruct p as [| y p]; destruct m as [| m]; cbn in *; simplify_eq; eauto.
Qed.

Lemma body_comps_rsplit (l a b : str) :
  rsplit_once SEPARATOR l = Some (a, b) -> body_comps l = body_comps a ++ option_list (component b).
Proof.
  intros E. pose proof (rsplit_once_fields l) as H. rewrite E in H. destruct H as [H _].
  unfold body_comps. rewrite H, omap_app. cbn. by destruct (component b).
Qed.

(** The part of the path before its body, as the iterator sees it. *)
Definition before_body (c : Components) : list Component :=
  if is_start (cs_front c) then prefix_comps (cs_path c) else [].

Lemma len_before_body_length (c : Components) : len_before_body c = length (before_body c).
Proof. rewrite len_before_body_spec. unfold before_body. by destruct (is_start _). Qed.

Lemma remaining_split (c : Components) :
  remaining c = before_body c ++ body_comps (drop (len_before_body c) (cs_path c)).
Proof. rewrite len_before_body_length. unfold remaining, before_body. by destruct (is_start _). Qed.

Lemma before_body_take (c : Components) (m : nat) :
  (len_before_body c <= m)%nat -> cs_path c !! m = Some SEPARATOR \/ m = len_before_body c ->
  before_body (set_path c (take m (cs_path c))) = before_body c.
Proof.
  rewrite len_before_body_spec. unfold before_body. cbn. destruct (is_start _); [| done]. apply prefix_take.
Qed.

Lemma peek_back_spec (c : Components) :
  (len_before_body c < length (cs_path c))%nat ->
  let '(rest, comp) := peek_back c in
  remaining c = remaining (set_path c rest) ++ option_list comp /\
  before_body (set_path c rest) = before_body c /\
  (len_before_body c <= length rest < length (cs_path c))%nat.
Proof.
  intros Hlt. unfold peek_back. set (n := len_before_body c) in *. pose proof (rsplit_once_fields (drop n (cs_path c))) as H.
  destruct (rsplit_once SEPARATOR (drop n (cs_path c))) as [[rest next] |] eqn:E.
  - destruct H as [_ Ep]. assert (cs_path c !! (n + length rest)%nat = Some SEPARATOR) as Hs.
    { rewrite <- lookup_drop, Ep, lookup_app_r, Nat.sub_diag by lia. done. }
    pose proof (lookup_lt_Some _ _ _ Hs).
    pose proof (before_body_take c (n + length rest) ltac:(lia) ltac:(by left)) as Hb.
    split; [| split; [done | rewrite length_take; lia]].
    rewrite !remaining_split, Hb, <- app_assoc. f_equal.
    rewrite (len_before_body_length (set_path _ _)), Hb, <- len_before_body_length. fold n. cbn [set_path cs_path].
    rewrite (body_comps_rsplit _ _ _ E). f_equal. f_equal.
    rewrite <- take_drop_commute, Ep, take_app_length. done.
  - pose proof (before_body_take c n ltac:(lia) ltac:(by right)) as Hb.
    split; [| split; [done | rewrite length_take; lia]].
    rewrite !remaining_split, Hb, <- app_assoc. f_equal.
    rewrite (len_before_body_length (set_path _ _)), Hb, <- len_before_body_length. fold n. cbn [set_path cs_path].
    rewrite (drop_ge (take n _)) by (rewrite length_take; lia). cbn. by apply body_comps_single.
Qed.

(** The path is down to its start: the root, the dot or nothing. *)
Lemma next_back_start (fuel : nat) (c : Components) :
  cs_back c = StartDir -> cs_front c <> StateDone -> (length (cs_path c) <= len_before_body c)%nat ->
  exists c', next_back_loop (S (S fuel)) c = Done (last (remaining c), c') /\ cs_path c' = [] /\
    removelast (remaining c) = [].
Proof.
  destruct c as [p f b]. cbn [cs_back cs_front cs_path]. intros -> Hf Hlen.
  rewrite remaining_split. rewrite len_before_body_length in *. rewrite (drop_ge p) by lia.
  change (body_comps []) with (@nil Component). rewrite app_nil_r. unfold before_body in *. cbn [cs_front cs_path] in *.
  destruct f; [| | done].
  - change (is_start StartDir) with true in *. cbv iota in *.
    revert Hlen. destruct (start_viewP p) as [k | | k | p Ha Hc]; intros Hlen; cbn in Hlen.
    + destruct k; [| cbn in Hlen; lia]. by eexists.
    + by eexists.
    + lia.
    + destruct p; [| cbn in Hlen; lia]. by eexists.
  - change (is_start Body) with false in *. destruct p; [| cbn in Hlen; lia]. by eexists.
Qed.

Lemma next_back_loop_body (fuel : nat) (c : Components) :
  cs_back c = Body -> cs_front c <> StateDone -> (length (cs_path c) + 3 <= fuel)%nat ->
  exists c', next_back_loop fuel c = Done (last (remaining c), c') /\ comps_ok c' /\
    remaining c' = removelast (remaining c).
Proof.
  revert c. induction fuel as [| fuel IH]; intros c Hb Hf Hfuel; [lia |]. cbn [next_back_loop].
  replace (finished c) with false by (unfold finished; rewrite Hb; by destruct (cs_front c)).
  rewrite Hb. destruct (Nat.ltb_spec (len_before_body c) (length (cs_path c))) as [Hlt | Hge].
  - pose proof (peek_back_spec c Hlt) as Hp. destruct (peek_back c) as [rest comp]. destruct Hp as (E & Hbb & Hr).
    destruct comp as [x |].
    + change (option_list (Some x)) with [x] in E. eexists. split; [by rewrite E, last_snoc |]. split; [by right |].
      by rewrite E, removelast_last.
    + cbn in E. rewrite app_nil_r in E. rewrite E. apply IH; [done | done | cbn; lia].
  - destruct fuel as [| [| fuel]]; [lia | lia |].
    destruct (next_back_start fuel (mkComponents (cs_path c) (cs_front c) StartDir)) as (c' & E & Hp & Hr); [done | done | exact Hge |].
    exists c'. rewrite E. split; [done |]. split; [by left |]. rewrite (remaining_nil c') by done. by symmetry.
Qed.

Lemma next_back_loop_empty (fuel : nat) (c : Components) :
  cs_path c = [] -> exists c', next_back_loop (S (S (S fuel))) c = Done (None, c') /\ cs_path c' = [].
Proof.
  destruct c as [p f b]. cbn [cs_path]. intros ->. destruct f, b; cbn; eexists; (split; [done | done]).
Qed.

Lemma next_back_ok (c : Components) :
  comps_ok c ->
  exists c', next_back c = Done (last (remaining c), c') /\ comps_ok c' /\ remaining c' = removelast (remaining c).
Proof.
  intros Hok. unfold next_back, loop_fuel. destruct (decide (cs_path c = [])) as [Hp | Hp].
  { rewrite Hp. destruct (next_back_loop_empty 1 c Hp) as (c' & E & Hp'). exists c'. cbn [length Nat.add]. rewrite E.
    rewrite !(remaining_nil c), (remaining_nil c') by done. split; [done |]. split; [by left | done]. }
  destruct Hok as [? | [Hb Hf]]; [done |]. apply next_back_loop_body; [done | done | lia].
Qed.

(** ** The rest as a path *)

(** A path whose first field is a component starts in its body. *)
Lemma peek_Some_prefix (c : Components) (rest : str) (x : Component) :
  peek c = (rest, Some x) -> prefix_comps (cs_path c) = [].
Proof.
  unfold peek. destruct (start_viewP (cs_path c)) as [k | | k | p Ha Hc]; try done.
Qed.

Lemma trim_left_ok (fuel : nat) (c : Components) :
  (length (cs_path c) < fuel)%nat ->
  exists p, trim_left fuel c = Done (set_path c p) /\ body_comps p = body_comps (cs_path c) /\
    prefix_comps p = [] /\ (length p <= length (cs_path c))%nat.
Proof.
  revert c. induction fuel as [| fuel IH]; intros c Hfuel; [lia |]. cbn [trim_left].
  destruct (str_is_empty (cs_path c)) eqn:He.
  { exists (cs_path c). destruct c as [p f b]. cbn in *. by destruct p. }
  pose proof (peek_spec c) as Hp. destruct (peek c) as [rest comp] eqn:Ep. destruct Hp as [E Hlt].
  assert (cs_path c <> []) as Hne by (by destruct (cs_path c)). specialize (Hlt Hne).
  destruct comp as [x |].
  - exists (cs_path c). split; [by destruct c |]. split; [done |]. split; [by eapply peek_Some_prefix | lia].
  - destruct (IH (set_path c rest)) as (p & -> & Eb & Epre & Hl); [cbn; lia |].
    exists p. split; [by destruct c |]. rewrite E, Eb. cbn in *. split; [done |]. split; [done | lia].
Qed.

(** What is cut off at the back is cut at a separator of the body. *)
Lemma peek_back_cut (c : Components) :
  (len_before_body c < length (cs_path c))%nat ->
  (exists k, cs_path c = (peek_back c).1 ++ k) /\
  (prefix_comps (cs_path c) = [] -> prefix_comps (peek_back c).1 = []).
Proof.
  intros Hlt. unfold peek_back. pose proof (rsplit_once_fields (drop (len_before_body c) (cs_path c))) as H.
  destruct (rsplit_once SEPARATOR _) as [[rest next] |]; cbn [fst].
  - split; [eexists; symmetry; apply take_drop |]. intros Hp. rewrite prefix_take; [done | rewrite Hp; cbn; lia |].
    left. destruct H as [_ Ep]. rewrite <- lookup_drop, Ep, lookup_app_r, Nat.sub_diag by lia. done.
  - split; [eexists; symmetry; apply take_drop |]. intros Hp. rewrite len_before_body_spec, Hp. by destruct (is_start _).
Qed.

Lemma trim_right_ok (fuel : nat) (c : Components) :
  (length (cs_path c) < fuel)%nat ->
  exists p, trim_right fuel c = Done (set_path c p) /\ remaining (set_path c p) = remaining c /\
    (exists k, cs_path c = p ++ k) /\ (prefix_comps (cs_path c) = [] -> prefix_comps p = []).
Proof.
  revert c. induction fuel as [| fuel IH]; intros c Hfuel; [lia |]. cbn [trim_right].
  assert (exists p, Done c = Done (set_path c p) /\ remaining (set_path c p) = remaining c /\
    (exists k, cs_path c = p ++ k) /\ (prefix_comps (cs_path c) = [] -> prefix_comps p = [])) as Hstop.
  { exists (cs_path c). destruct c as [p f b]. split; [done |]. split; [done |]. split; [exists []; by rewrite app_nil_r | done]. }
  destruct (Nat.ltb_spec (len_before_body c) (length (cs_path c))) as [Hlt | Hge]; [| exact Hstop].
  pose proof (peek_back_spec c Hlt) as Hp. destruct (peek_back_cut c Hlt) as [[k Hk] Hpre].
  destruct (peek_back c) as [rest comp]. cbn [fst] in *. destruct Hp as (E & _ & Hr).
  destruct comp as [x |]; [exact Hstop |].
  destruct (IH (set_path c rest)) as (p & -> & Erem & [k' Hk'] & Hpre'); [cbn; lia |].
  exists p. split; [by destruct c |]. cbn in E, Hk', Hpre'. rewrite app_nil_r in E. split; [by rewrite E, <- Erem; destruct c |].
  split; [| by auto]. exists (k' ++ k). by rewrite Hk, Hk', app_assoc.
Qed.

Lemma parse_body (p : str) : prefix_comps p = [] -> parse p = body_comps p.
Proof. unfold parse. by intros ->. Qed.

(** [as_path] is a path with the remaining components; from the front untouched, it is a
    prefix of the original. *)
Lemma as_path_ok (c : Components) :
  comps_ok c ->
  exists p, as_path c = Done p /\ parse p = remaining c /\
    (cs_front c = StartDir -> exists k, cs_path c = p ++ k).
Proof.
  intros Hok. unfold as_path. destruct (decide (cs_path c = [])) as [Hp | Hp].
  { exists []. destruct c as [p f b]. cbn in Hp. subst p. split; [by destruct f, b |].
    split; [by rewrite remaining_nil |]. intros _. by exists []. }
  destruct Hok as [? | [Hb Hf]]; [done |]. destruct c as [p f b]. cbn in Hb, Hf, Hp. subst b.
  destruct f; [| | done].
  - rewrite bool_decide_false by done. cbn [outcome_bind]. rewrite bool_decide_true by done.
    destruct (trim_right_ok (loop_fuel (mkComponents p StartDir Body)) (mkComponents p StartDir Body))
      as (p' & -> & Er & Hk & _); [unfold loop_fuel; cbn; lia |]. cbn [outcome_bind]. eauto.
  - rewrite bool_decide_true by done.
    destruct (trim_left_ok (loop_fuel (mkComponents p Body Body)) (mkComponents p Body Body))
      as (p1 & -> & Eb & Epre & _); [unfold loop_fuel; cbn; lia |].
    cbn [outcome_bind]. change (set_path (mkComponents p Body Body) p1) with (mkComponents p1 Body Body).
    rewrite bool_decide_true by done.
    destruct (trim_right_ok (loop_fuel (mkComponents p1 Body Body)) (mkComponents p1 Body Body))
      as (p2 & -> & Er & _ & Hpre); [unfold loop_fuel; cbn; lia |].
    cbn [outcome_bind set_path cs_path]. exists p2. split; [done |]. split; [| done].
    rewrite parse_body by (by apply Hpre). unfold set_path in Er. cbn in Er. rewrite !remaining_body in *. by rewrite Er.
Qed.

(** ** Iteration *)

Lemma fields_length (l : str) : (length (fields l) <= S (length l))%nat.
Proof.
  induction l as [| x l IH]; [done |]. cbn. case_bool_decide; [cbn; lia |].
  destruct (fields l); cbn in *; lia.
Qed.

Lemma omap_length_le {A B} (f : A -> option B) (l : list A) : (length (omap f l) <= length l)%nat.
Proof. induction l as [| x l IH]; [done |]. cbn. destruct (f x); cbn; lia. Qed.

Lemma parse_length (p : str) : (length (parse p) <= S (length p))%nat.
Proof.
  rewrite start_cases. pose proof (omap_length_le component (fields p)). pose proof (fields_length p).
  pose proof (omap_length_le component (fields (drop 1 p))). pose proof (fields_length (drop 1 p)).
  rewrite length_drop in *. unfold body_comps. destruct (is_absolute p) eqn:Ha.
  - apply is_absolute_spec in Ha as [k ->]. cbn in *. lia.
  - destruct (starts_cur p) eqn:Hc; [| lia]. apply starts_cur_spec in Hc as [-> | [k ->]]; cbn in *; lia.
Qed.

Lemma collect_ok (fuel : nat) (c : Components) :
  comps_ok c -> (length (remaining c) < fuel)%nat -> collect fuel c = Done (remaining c).
Proof.
  revert c. induction fuel as [| fuel IH]; intros c Hok Hf; [lia |]. cbn [collect].
  destruct (next_ok c Hok) as (c' & -> & Hok' & Hr). cbn [outcome_bind].
  destruct (remaining c) as [| x l] eqn:E; [done |]. cbn in *. rewrite IH by (rewrite ?Hr; auto; lia).
  cbn. by rewrite Hr.
Qed.

Lemma components_ok (p : str) : comps_ok (components p).
Proof. by right. Qed.

Lemma all_components_ok (p : str) : all_components p = Done (parse p).
Proof.
  unfold all_components. pose proof (parse_length p).
  rewrite collect_ok; [done | apply components_ok | change (remaining (components p)) with (parse p); lia].
Qed.

(** A mixed sequence of calls, [true] for [next] and [false] for [next_back]. *)
Fixpoint iter_calls (c : Components) (calls : list bool) : outcome (list (option Component)) :=
  match calls with
  | [] => Done []
  | front :: calls' =>
      let* (o, c) := if front then next c else next_back c in
      let* l := iter_calls c calls' in
      Done (o :: l)
  end.

(** The same calls on a list. *)
Fixpoint deque_calls (l : list Component) (calls : list bool) : list (option Component) :=
  match calls with
  | [] => []
  | true :: calls' => head l :: deque_calls (tail l) calls'
  | false :: calls' => last l :: deque_calls (removelast l) calls'
  end.

Lemma iter_calls_ok (calls : list bool) (c : Components) :
  comps_ok c -> iter_calls c calls = Done (deque_calls (remaining c) calls).
Proof.
  revert c. induction calls as [| [] calls IH]; intros c Hok; [done | |]; cbn [iter_calls deque_calls].
  - destruct (next_ok c Hok) as (c' & -> & Hok' & <-). cbn [outcome_bind]. by rewrite IH.
  - destruct (next_back_ok c Hok) as (c' & -> & Hok' & <-). cbn [outcome_bind]. by rewrite IH.
Qed.

(** ** Parents and names *)

(** A fresh iterator asked once from the back. *)
Lemma back_once (p : str) :
  exists c, next_back (components p) = Done (last (parse p), c) /\ comps_ok c /\ remaining c = removelast (parse p).
Proof. apply (next_back_ok (components p)), components_ok. Qed.

Lemma next_back_loop_front (fuel : nat) (c c' : Components) (o : option Component) :
  next_back_loop fuel c = Done (o, c') -> cs_front c' = cs_front c.
Proof.
  revert c. induction fuel as [| fuel IH]; intros c; [done |]. cbn [next_back_loop].
  destruct (finished c); [by intros; simplify_eq |]. destruct (cs_back c).
  - repeat case_match; try (by intros; simplify_eq). intros E. by apply IH in E.
  - case_match; [destruct (peek_back c) as [rest [x |]]; [by intros; simplify_eq |] |]; intros E; by apply IH in E.
  - done.
Qed.

Lemma next_back_loop_prefix (fuel : nat) (c c' : Components) (o : option Component) :
  next_back_loop fuel c = Done (o, c') -> exists k, cs_path c = cs_path c' ++ k.
Proof.
  revert c. induction fuel as [| fuel IH]; intros c; [done |]. cbn [next_back_loop].
  assert (exists k, cs_path c = cs_path c ++ k) as Hrefl by (exists []; by rewrite app_nil_r).
  destruct (finished c); [intros; by simplify_eq |]. destruct (cs_back c).
  - assert (exists k, cs_path c = take (length (cs_path c) - 1) (cs_path c) ++ k) as Ht by (eexists; symmetry; apply take_drop).
    repeat case_match; try (intros; by simplify_eq). intros E. by apply IH in E.
  - destruct (Nat.ltb_spec (len_before_body c) (length (cs_path c))) as [Hlt | _]; [| intros E; by apply IH in E].
    destruct (peek_back_cut c Hlt) as [[k Hk] _]. destruct (peek_back c) as [rest [x |]]; cbn in Hk.
    + intros. simplify_eq. eauto.
    + intros E. apply IH in E as [k' E]. cbn in E. exists (k' ++ k). by rewrite Hk, E, app_assoc.
  - done.
Qed.
