(* ===== verification/PathProps.v ===== *)
(** * File system paths: properties

    The components a path iterates over, parents, joins and relative paths, with the
    examples of the documentation. *)

From S2P Require Import Prelude Paths PathSpec.

(** ** Iteration *)

(** C20: The double-ended iterator over a path always returns, and every interleaving of
    [next] and [next_back] yields what the same calls on the list of components yield: a
    leading root or dot, then the fields between separators that are neither empty nor a
    dot.  Iteration from the front alone yields the whole list. *)
Theorem components_double_ended (p : str) (calls : list bool) :
  iter_calls (components p) calls = Done (deque_calls (parse p) calls) /\
  all_components p = Done (parse p).
Proof. split; [apply iter_calls_ok, components_ok | apply all_components_ok]. Qed.

(** ** Parents and names *)

Lemma parent_ok (p : str) :
  match last (parse p) with
  | None | Some RootDir => parent p = Done None
  | Some _ => exists q k, parent p = Done (Some q) /\ parse q = removelast (parse p) /\ p = q ++ k
  end.
Proof.
  destruct (back_once p) as (c & E & Hok & Hr). unfold parent. rewrite E. cbn [outcome_bind].
  pose proof (next_back_loop_front _ _ _ _ E) as Hf. destruct (next_back_loop_prefix _ _ _ _ E) as [k1 Hk1].
  destruct (as_path_ok c Hok) as (q & Eq & Hparse & Hpre). destruct (Hpre Hf) as [k2 Hk2]. cbn in Hk1.
  assert (exists q k, (let* p := as_path c in Done (Some p)) = Done (Some q) /\ parse q = removelast (parse p) /\ p = q ++ k) as Hq.
  { exists q, (k2 ++ k1). rewrite Eq. split; [done |]. split; [congruence |]. by rewrite app_assoc, <- Hk2. }
  destruct (last (parse p)) as [[] |]; done.
Qed.

(** [parent] of a path drops its last component and returns a prefix of it, [None]
    exactly for the root and for paths without components; [pop] truncates to that
    parent and reports whether there was one. *)
Theorem parent_drops_last (p : str) :
  match last (parse p) with
  | None | Some RootDir => parent p = Done None /\ pop p = Done (false, p)
  | Some _ => exists q k, parent p = Done (Some q) /\ pop p = Done (true, q) /\
                parse q = removelast (parse p) /\ p = q ++ k
  end.
Proof.
  pose proof (parent_ok p) as H.
  assert (forall q k, parent p = Done (Some q) -> p = q ++ k -> pop p = Done (true, q)) as Hpop.
  { intros q k E ->. unfold pop. rewrite E. cbn. by rewrite take_app_length. }
  assert (parent p = Done None -> pop p = Done (false, p)) as Hnone by (intros E; unfold pop; by rewrite E).
  destruct (last (parse p)) as [[] |]; auto; destruct H as (q & k & E & Eq & Ek); eauto 10.
Qed.

Lemma file_name_ok (p : str) :
  file_name p = Done (match last (parse p) with Some (Normal name) => Some name | _ => None end).
Proof.
  destruct (back_once p) as (c & E & _ & _). unfold file_name. rewrite E. cbn [outcome_bind].
  by destruct (last (parse p)) as [[] |].
Qed.

Lemma rsplit_once_app (sep : ascii) (l a b : str) :
  rsplit_once sep l = Some (a, b) -> l = a ++ sep :: b /\ sep ∉ b.
Proof.
  revert a. induction l as [| x l IH]; intros a; [done |]. cbn.
  destruct (rsplit_once sep l) as [[a' b'] |] eqn:E.
  - intros. simplify_eq. destruct (IH a' eq_refl) as [-> Hb]. done.
  - case_bool_decide as Hx; [| done]. intros. simplify_eq. split; [done |]. clear IH. revert E.
    induction b as [| y b IHb]; intros E; [apply not_elem_of_nil |]. cbn in E.
    destruct (rsplit_once sep b) as [[? ?] |]; [done |]. case_bool_decide; [done |]. apply not_elem_of_cons. auto.
Qed.

(** The stem and the extension of a path split its last component at its last dot:
    where there is an extension, the name is the stem, a dot and the extension, the stem
    is not empty and the extension has no dot; where there is none, the stem is the whole
    name; and both are absent when the last component is not a name. *)
Theorem stem_and_extension (p : str) :
  match last (parse p) with
  | Some (Normal name) =>
      exists stem ext, file_stem p = Done (Some stem) /\ extension p = Done ext /\
        match ext with
        | Some e => name = stem ++ DOT :: e /\ stem <> [] /\ DOT ∉ e
        | None => stem = name
        end
  | _ => file_stem p = Done None /\ extension p = Done None
  end.
Proof.
  unfold file_stem, extension. rewrite !file_name_ok. cbn [outcome_bind].
  destruct (last (parse p)) as [[| | | name] |]; try done.
  destruct (rsplit_once DOT name) as [[before after] |] eqn:E; [| by eexists _, _].
  apply rsplit_once_app in E as [E Hd]. destruct before as [| x before]; cbn; by eexists _, _.
Qed.

(** ** Joining *)

(** A leading dot of a path that is appended to another is not kept. *)
Definition strip_cur (l : list Component) : list Component := match l with CurDir :: l' => l' | _ => l end.

Lemma body_comps_no_cur (l : str) : (CurDir ∉ body_comps l) /\ (RootDir ∉ body_comps l).
Proof.
  unfold body_comps. split; intros H; apply list_elem_of_omap in H as (f & _ & E);
    unfold component in E; repeat case_match; done.
Qed.

Lemma strip_cur_parse (q : str) : is_absolute q = false -> strip_cur (parse q) = body_comps q.
Proof.
  intros Ha. rewrite start_cases, Ha. destruct (starts_cur q) eqn:Hc.
  - apply starts_cur_spec in Hc as [-> | [k ->]]; done.
  - pose proof (proj1 (body_comps_no_cur q)) as H. destruct (body_comps q) as [| [] l]; try done.
    exfalso. apply H. by left.
Qed.

Lemma prefix_comps_app (p q : str) : p <> [] -> prefix_comps (p ++ SEPARATOR :: q) = prefix_comps p.
Proof.
  intros Hp. symmetry. rewrite <- (prefix_take (p ++ SEPARATOR :: q) (length p)).
  - by rewrite take_app_length.
  - destruct (start_viewP (p ++ SEPARATOR :: q)) as [| | |]; cbn; destruct p; done || (cbn; lia).
  - left. by rewrite lookup_app_r, Nat.sub_diag by lia.
Qed.

Lemma prefix_comps_length (p : str) : (length (prefix_comps p) <= length p)%nat.
Proof. destruct (start_viewP p); cbn; lia. Qed.

Lemma join_components (p q : str) :
  p <> [] ->
  parse (join p q) = if is_absolute q then parse q else parse p ++ strip_cur (parse q).
Proof.
  intros Hp. unfold join, push. destruct (is_absolute q) eqn:Ha; [done |].
  cbn [app]. unfold parse at 1. rewrite prefix_comps_app by done. pose proof (prefix_comps_length p).
  rewrite drop_app_le, body_comps_sep, strip_cur_parse by done. unfold parse. by rewrite app_assoc.
Qed.

(** Joining a relative path to a path that is not empty appends its components (less a
    leading dot); an absolute path replaces it. *)
Theorem join_appends_components (p q : str) :
  p <> [] ->
  parse (join p q) = if is_absolute q then parse q else parse p ++ strip_cur (parse q).
Proof. apply join_components. Qed.

Lemma join_appends_components_witness :
  parse (join (lit "/etc") (lit "./conf.d//x")) = parse (lit "/etc") ++ strip_cur (parse (lit "./conf.d//x")).
Proof. rewrite join_appends_components; [reflexivity | discriminate]. Defined.

(** Joining a relative path to the empty path, which [parent] returns for a single
    component, gives an absolute path. *)
Theorem join_to_empty_is_absolute (q : str) :
  is_absolute q = false -> is_absolute (join [] q) = true /\ parse (join [] q) = RootDir :: strip_cur (parse q).
Proof.
  intros Ha. unfold join, push. rewrite Ha. split; [done |]. by rewrite strip_cur_parse.
Qed.

Lemma join_to_empty_is_absolute_witness :
  parent (lit "foo") = Done (Some []) /\ is_absolute (join [] (lit "bar")) = true /\
  parse (join [] (lit "bar")) = RootDir :: strip_cur (parse (lit "bar")).
Proof. split; [vm_compute; reflexivity |]. by apply (join_to_empty_is_absolute (lit "bar")). Defined.

(** ** Printing components *)

(** A component that its text stands for. *)
Definition printable (c : Component) : Prop := component (component_str c) = Some c /\ SEPARATOR ∉ component_str c.

Lemma fields_no_sep (l f : str) : f ∈ fields l -> SEPARATOR ∉ f.
Proof.
  revert f. induction l as [| x l IH]; intros f; cbn.
  - intros ->%list_elem_of_singleton. apply not_elem_of_nil.
  - case_bool_decide as Hx.
    + intros [-> | H]%elem_of_cons; [apply not_elem_of_nil | by apply IH].
    + pose proof (fields_ne l). destruct (fields l) as [| g fs]; [done |].
      intros [-> | H']%elem_of_cons; [| apply IH; by right].
      apply not_elem_of_cons. split; [congruence |]. apply IH. by left.
Qed.

Lemma component_str_component (f : str) (c : Component) : component f = Some c -> component_str c = f.
Proof.
  unfold component, str_eqb. destruct (bool_decide _ || _); [done |]. case_bool_decide as H; intros; by simplify_eq.
Qed.

Lemma body_comps_printable (l : str) : Forall printable (body_comps l).
Proof.
  apply Forall_forall. intros c (f & Hf & E)%list_elem_of_omap. unfold printable.
  rewrite (component_str_component f c E). split; [done | by eapply fields_no_sep].
Qed.

Lemma fields_single (l : str) : SEPARATOR ∉ l -> fields l = [l].
Proof.
  induction l as [| x l IH]; [done |]. intros [Hx Hl]%not_elem_of_cons. cbn. rewrite IH by done.
  by rewrite bool_decide_false.
Qed.

Lemma fields_from_iter (x : str) (l : list str) :
  Forall (fun f => SEPARATOR ∉ f) (x :: l) -> fields (from_iter (x :: l)) = x :: l.
Proof.
  revert x. induction l as [| y l IH]; intros x [Hx Hl]%Forall_cons; [by apply fields_single |].
  change (from_iter (x :: y :: l)) with (x ++ SEPARATOR :: from_iter (y :: l)).
  by rewrite fields_sep, fields_single, IH.
Qed.

Lemma first_field_prefix (p f : str) (fs : list str) (x : Component) :
  fields p = f :: fs -> component f = Some x -> prefix_comps p = [].
Proof.
  intros E Ex. pose proof (split_once_fields p) as H. destruct (split_once SEPARATOR p) as [[a b] |] eqn:Es.
  - destruct H as [H _]. rewrite H in E. injection E as -> _.
    apply (peek_Some_prefix (components p) b x). unfold peek. cbn. by rewrite Es, Ex.
  - rewrite H in E. injection E as -> _.
    apply (peek_Some_prefix (components f) [] x). unfold peek. cbn. by rewrite Es, Ex.
Qed.

Lemma parse_from_iter (cs : list Component) :
  Forall printable cs ->
  parse (from_iter (component_str <$> cs)) = cs /\ is_absolute (from_iter (component_str <$> cs)) = false.
Proof.
  intros Hcs. destruct cs as [| c cs]; [done |]. rewrite fmap_cons.
  assert (Forall (fun f => SEPARATOR ∉ f) (component_str c :: (component_str <$> cs))) as Hsep.
  { rewrite <- fmap_cons. apply Forall_fmap. eapply Forall_impl; [exact Hcs |]. by intros ? []. }
  pose proof (fields_from_iter _ _ Hsep) as Ef. pose proof (Forall_inv Hcs) as [Hc _].
  pose proof (first_field_prefix _ _ _ _ Ef Hc) as Hp. rewrite parse_body by done. split.
  - unfold body_comps. rewrite Ef, <- fmap_cons. clear -Hcs. induction Hcs as [| x l [Hx _] _ IH]; [done |].
    cbn. rewrite Hx. by f_equal.
  - destruct (is_absolute _) eqn:Ha; [| done]. unfold prefix_comps in Hp. by rewrite Ha in Hp.
Qed.

(** Printing and parsing are inverse: a list of components, each the component of its
    own text, is what the path built from it iterates over. *)
Theorem print_parse_roundtrip (cs : list Component) :
  Forall printable cs -> all_components (from_iter (component_str <$> cs)) = Done cs.
Proof. intros Hcs. rewrite all_components_ok. f_equal. by apply parse_from_iter. Qed.

Lemma print_parse_roundtrip_witness :
  all_components (from_iter (component_str <$> [ParentDir; Normal (lit "a"); Normal (lit ".b"); ParentDir])) =
    Done [ParentDir; Normal (lit "a"); Normal (lit ".b"); ParentDir].
Proof.
  apply (print_parse_roundtrip [ParentDir; Normal (lit "a"); Normal (lit ".b"); ParentDir]).
  repeat apply Forall_cons_2; try apply Forall_nil_2; (split; [vm_compute; reflexivity | by apply (bool_decide_unpack _); vm_compute]).
Defined.

(** ** Relative paths *)

(** Names and the root. *)
Definition plain (c : Component) : Prop := c <> CurDir /\ c <> ParentDir.

Lemma relative_loop_up (b comps : list Component) :
  relative_loop [] b comps = Some (comps ++ replicate (length b) ParentDir).
Proof.
  revert comps. induction b as [| y b IH]; intros comps; cbn; [done |]. rewrite IH, <- app_assoc. done.
Qed.

Lemma relative_loop_ok (a b : list Component) :
  Forall plain b ->
  exists common ra rb, a = common ++ ra /\ b = common ++ rb /\
    (forall x ra' rb', ra = x :: ra' -> rb = x :: rb' -> False) /\
    relative_loop a b [] = Some (replicate (length rb) ParentDir ++ ra).
Proof.
  revert a. induction b as [| y b IH]; intros a Hb.
  { exists [], a, []. done. }
  apply Forall_cons in Hb as [[Hc Hp] Hb]. destruct a as [| x a].
  { exists [], [], (y :: b). split; [done |]. split; [done |]. split; [done |]. by rewrite relative_loop_up, app_nil_r. }
  cbn [relative_loop]. rewrite bool_decide_true by done. cbn [andb]. destruct (decide (x = y)) as [-> | Hne].
  - rewrite bool_decide_true by done. destruct (IH a Hb) as (common & ra & rb & -> & -> & Hh & E).
    exists (y :: common), ra, rb. done.
  - rewrite bool_decide_false by done. exists [], (x :: a), (y :: b). split; [done |]. split; [done |].
    split; [intros; by simplify_eq |].
    assert ((const ParentDir <$> b) = replicate (length b) ParentDir) as Er by (clear; induction b; cbn; [done | by f_equal]).
    destruct y; try done; cbn; by rewrite Er.
Qed.

(** Resolving dots and double dots in a list of components. *)
Definition lexical (l : list Component) : list Component :=
  foldl (fun acc c => match c with ParentDir => removelast acc | CurDir => acc | _ => acc ++ [c] end) [] l.

Lemma lexical_plain (l acc : list Component) :
  Forall plain l ->
  foldl (fun acc c => match c with ParentDir => removelast acc | CurDir => acc | _ => acc ++ [c] end) acc l = acc ++ l.
Proof.
  revert acc. induction l as [| c l IH]; intros acc Hl; cbn; [by rewrite app_nil_r |].
  apply Forall_cons in Hl as [[Hc Hp] Hl]. destruct c; try done; by rewrite IH, <- app_assoc.
Qed.

Lemma lexical_up (acc l : list Component) :
  foldl (fun acc c => match c with ParentDir => removelast acc | CurDir => acc | _ => acc ++ [c] end)
    (acc ++ l) (replicate (length l) ParentDir) = acc.
Proof.
  induction l as [| c l IH] using rev_ind; cbn; [by rewrite app_nil_r |].
  rewrite length_app, Nat.add_comm. cbn. by rewrite app_assoc, removelast_last.
Qed.

(** What is left of a path of names after the part it shares with another of the same
    kind can be printed. *)
Lemma rest_printable (self base : str) (common ra rb : list Component) :
  is_absolute self = is_absolute base -> Forall plain (parse self) ->
  parse self = common ++ ra -> parse base = common ++ rb ->
  (forall x ra' rb', ra = x :: ra' -> rb = x :: rb' -> False) -> Forall printable ra.
Proof.
  intros Habs Hp Ea Eb Hh. rewrite start_cases in Ea, Eb. rewrite Habs in Ea.
  destruct (is_absolute base).
  - destruct common as [| c common]; cbn in Ea, Eb; [destruct (Hh RootDir _ _ (eq_sym Ea) (eq_sym Eb)) |].
    injection Ea as _ Ea. pose proof (body_comps_printable (drop 1 self)) as H. rewrite Ea in H. by apply Forall_app in H as [_ H].
  - destruct (starts_cur self) eqn:Hc.
    { rewrite start_cases, Habs, Hc in Hp. by apply Forall_inv in Hp as []. }
    pose proof (body_comps_printable self) as H. rewrite Ea in H. by apply Forall_app in H as [_ H].
Qed.

Lemma strip_printable (cs : list Component) : Forall printable cs -> strip_cur cs = cs.
Proof. intros Hcs. destruct Hcs as [| c cs [Hc _] _]; [done |]. by destruct c. Qed.

(** For two paths of names, both absolute or both relative, [relative] returns a path
    that leads from the base to the target: joined to the base and with its double dots
    resolved it has the components of the target. *)
Theorem relative_leads_to_target (self base : str) :
  base <> [] -> is_absolute self = is_absolute base -> Forall plain (parse self) -> Forall plain (parse base) ->
  exists r, relative self base = Done (Some r) /\ lexical (parse (join base r)) = parse self.
Proof.
  intros Hb Habs Hps Hpb. unfold relative. rewrite Habs, Bool.eqb_reflx. cbn [negb].
  rewrite !all_components_ok. cbn [outcome_bind].
  destruct (relative_loop_ok (parse self) (parse base) Hpb) as (common & ra & rb & Ea & Eb & Hh & ->).
  set (cs := replicate (length rb) ParentDir ++ ra). assert (Forall printable cs) as Hcs.
  { apply Forall_app. split; [apply Forall_replicate; split; [done | by apply (bool_decide_unpack _); vm_compute] |].
    by eapply rest_printable. }
  destruct (parse_from_iter cs Hcs) as [Hparse Hrel]. eexists. split; [done |].
  rewrite join_components, Hrel by done.
  rewrite Hparse, strip_printable, Eb by done. rewrite Ea in Hps |- *. rewrite Eb in Hpb.
  apply Forall_app in Hps as [_ Hra]. unfold lexical, cs.
  rewrite foldl_app, (lexical_plain (common ++ rb)), app_nil_l by done. by rewrite foldl_app, lexical_up, lexical_plain.
Qed.

Lemma relative_leads_to_target_witness :
  exists r, relative (lit "/usr/lib/x") (lit "/usr/share/doc") = Done (Some r) /\
    lexical (parse (join (lit "/usr/share/doc") r)) = parse (lit "/usr/lib/x").
Proof.
  apply (relative_leads_to_target (lit "/usr/lib/x") (lit "/usr/share/doc")); [done | done | |];
    repeat apply Forall_cons_2; try apply Forall_nil_2; done.
Defined.
