(* ===== verification/Files.v ===== *)
(** * In-memory files

    Models kernel/heapfile/src/lib.rs ([HeapFile], a file in a vector) and
    kernel/memfs/src/lib.rs ([MemFile], a file in mapped pages), both implementations of
    the byte-wise I/O traits of [Io].

    A [MemFile] lives in memory: its bytes are those at the addresses of its mapping, which
    the accessors of [MappedPages] hand out.  Allocating and mapping new pages is the
    interface [KernelMemory]. *)

From S2P Require Import Prelude MemStructs PageAlloc PteFlags PageTable MappedAccess Io IoSpec.

#[local] Existing Instance x86_arch.

(** ** Heap files *)

(** [hf_parent] is the directory a weak reference points to. *)
Record HeapFile := mkHeapFile { hf_name : list Ascii.ascii; hf_vec : list Z; hf_parent : option nat }.

Definition hf_len (f : HeapFile) : Z := Z.of_nat (length (hf_vec f)).

Definition hf_read_at (f : HeapFile) (buffer : list Z) (offset : Z) : outcome (result Z IoError * list Z * HeapFile) :=
  if hf_len f <=? offset then Done (Err InvalidInput, buffer, f)
  else
    let read_bytes := Z.min (hf_len f - offset) (Z.of_nat (length buffer)) in
    let* src := slice (hf_vec f) offset (offset + read_bytes) in
    let* buffer := copy_into buffer 0 read_bytes src in
    Done (Ok read_bytes, buffer, f).

(** [Vec::resize]. *)
Definition resize (l : list Z) (n : Z) : list Z := take (Z.to_nat n) l ++ replicate (Z.to_nat n - length l) 0.

Definition hf_write_at (f : HeapFile) (buffer : list Z) (offset : Z) : outcome (result Z IoError * HeapFile) :=
  let final_len := wrap64 (offset + Z.of_nat (length buffer)) in
  let vec := if hf_len f <? final_len then resize (hf_vec f) final_len else hf_vec f in
  let* vec := copy_into vec offset (wrap64 (offset + Z.of_nat (length buffer))) buffer in
  Done (Ok (Z.of_nat (length buffer)), mkHeapFile (hf_name f) vec (hf_parent f)).

#[export] Instance heapfile_io : ByteIO HeapFile := {|
  byte_len := hf_len;
  read_at := hf_read_at;
  write_at := hf_write_at;
  flush_bytes := fun f => Done (Ok tt, f);
|}.

(** The contents: zero beyond the end. *)
Definition hf_bytes (f : HeapFile) (i : Z) : Z := upd (fun _ => 0) 0 (hf_vec f) i.

Lemma hf_vec_seg (f : HeapFile) : hf_vec f = seg (hf_bytes f) 0 (hf_len f).
Proof. symmetry. apply seg_upd. Qed.

Lemma resize_seg (f : HeapFile) (n : Z) : hf_len f <= n -> resize (hf_vec f) n = seg (hf_bytes f) 0 n.
Proof.
  intros Hn. unfold hf_len in *. unfold resize. rewrite take_ge by lia.
  replace n with (hf_len f + (n - hf_len f)) at 2 by lia. unfold hf_len. rewrite seg_app by lia. f_equal.
  - apply hf_vec_seg.
  - symmetry. apply list_eq. intros i. destruct (decide (Z.of_nat i < n - Z.of_nat (length (hf_vec f)))).
    + rewrite seg_lookup, lookup_replicate_2 by lia. unfold hf_bytes. f_equal. apply upd_out. lia.
    + rewrite !lookup_ge_None_2; [done | rewrite length_replicate; lia |].
      pose proof (seg_length (hf_bytes f) (0 + Z.of_nat (length (hf_vec f))) (n - Z.of_nat (length (hf_vec f)))). lia.
Qed.

(** A write at any offset stores the buffer; the file grows to hold it, and what lies
    between its old end and the offset reads as zero. *)
Lemma hf_write_ok (f : HeapFile) (buffer : list Z) (offset : Z) :
  0 <= offset -> offset + Z.of_nat (length buffer) <= U64_MAX ->
  exists f', hf_write_at f buffer offset = Done (Ok (Z.of_nat (length buffer)), f') /\
    hf_len f' = Z.max (hf_len f) (offset + Z.of_nat (length buffer)) /\
    hf_name f' = hf_name f /\ hf_parent f' = hf_parent f /\
    forall i, hf_bytes f' i = upd (hf_bytes f) offset buffer i.
Proof.
  intros Ho Hm. unfold hf_write_at. rewrite wrap64_id by (split; lia). set (e := offset + Z.of_nat (length buffer)) in *.
  set (n := Z.max (hf_len f) e). assert (0 <= hf_len f) by (unfold hf_len; lia).
  replace (if hf_len f <? e then resize (hf_vec f) e else hf_vec f) with (seg (hf_bytes f) 0 n).
  2:{ subst n. case_cmp; [rewrite resize_seg by lia | rewrite hf_vec_seg at 1]; f_equal; lia. }
  rewrite copy_into_seg by lia. cbn [outcome_bind].
  eexists. split; [done |]. unfold hf_len. cbn [hf_vec]. rewrite seg_length by lia.
  split; [done |]. split; [done |]. split; [done |]. intros i. unfold hf_bytes at 1. cbn [hf_vec].
  rewrite upd_seg_other, Z.add_0_l by lia. case_cmp; try done; symmetry; rewrite upd_out by lia;
    unfold hf_bytes; apply upd_out; fold (hf_len f); lia.
Qed.

Lemma hf_read_ok (f : HeapFile) (buffer : list Z) (offset : Z) :
  0 <= offset ->
  hf_read_at f buffer offset =
    if hf_len f <=? offset then Done (Err InvalidInput, buffer, f)
    else let n := Z.min (hf_len f - offset) (Z.of_nat (length buffer)) in
         Done (Ok n, seg (hf_bytes f) offset n ++ drop (Z.to_nat n) buffer, f).
Proof.
  intros Ho. unfold hf_read_at. case_cmp; [done |]. rewrite (hf_vec_seg f) at 1.
  rewrite slice_seg by lia. cbn [outcome_bind]. rewrite Z.add_0_l, Z.add_simpl_l.
  rewrite copy_into_ok by (rewrite ?seg_length; lia). done.
Qed.

#[export] Program Instance heapfile_laws : ByteIOLaws HeapFile := {|
  by_inv := fun f => hf_len f <= U64_MAX;
  by_bytes := hf_bytes;
|}.
Next Obligation. intros f Hf. cbn. unfold hf_len in *. lia. Qed.
Next Obligation.
  intros f buf off Hf Ho Hne Hl. exists f. cbn in *. rewrite hf_read_ok by done.
  assert (0 < Z.of_nat (length buf)) by (destruct buf; [done | cbn; lia]). case_cmp; [lia |].
  cbv zeta. rewrite Z.min_r by lia. rewrite drop_ge, app_nil_r by lia. done.
Qed.
Next Obligation.
  intros f buf off Hf Ho Hne Hl. cbn in *. destruct (hf_write_ok f buf off) as (f' & E & El & _ & _ & Hc); [lia | lia |].
  exists f'. split; [done |]. rewrite El, Z.max_l by lia. done.
Qed.
Next Obligation. intros f Hf. by exists f. Qed.

(** ** Memory files *)

Record MemFile := mkMemFile { mf_name : list Ascii.ascii; mf_len : Z; mf_mp : MappedPages; mf_parent : option nat }.

(** The kernel's memory: the bytes at the virtual addresses, [KERNEL_MMI], the page
    allocator and the page table. *)
Class KernelMemory (W : Type) := {
  km_bytes : W -> Z -> Z;
  km_store : W -> Z -> list Z -> W;
  get_kernel_mmi_ref : W -> bool;
  km_allocate_pages : W -> Z -> option AllocatedPages * W;
  km_map_pages : W -> AllocatedPages -> Z -> result MappedPages string * W;
}.

Section MemFiles.
Context {bf : Bitflags} {W : Type} {km : KernelMemory W}.

Definition is_writable (mp : MappedPages) : bool := x86_is_writable (mp_flags mp).

(** [&mp.as_slice::<u8>(offset, len)?]: the bytes. *)
Definition load_slice (w : W) (mp : MappedPages) (offset len : Z) : result (list Z) IoError :=
  match as_slice mp 1 1 offset len with
  | Ok (addr, len) => Ok (seg (km_bytes w) addr len)
  | Err e => Err (io_error_from_str e)
  end.

(** [mp.as_slice_mut::<u8>(offset, src.len())?.copy_from_slice(src)]. *)
Definition store_slice (w : W) (mp : MappedPages) (offset : Z) (src : list Z) : result W IoError :=
  match as_slice_mut mp 1 1 offset (Z.of_nat (length src)) with
  | Ok (addr, _) => Ok (km_store w addr src)
  | Err e => Err (io_error_from_str e)
  end.

Definition mf_read_at (fw : MemFile * W) (buffer : list Z) (offset : Z)
  : outcome (result Z IoError * list Z * (MemFile * W)) :=
  let '(f, w) := fw in
  if mf_len f <=? offset then Done (Err InvalidInput, buffer, fw)
  else
    let read_bytes := Z.min (mf_len f - offset) (Z.of_nat (length buffer)) in
    match load_slice w (mf_mp f) offset read_bytes with
    | Err e => Done (Err e, buffer, fw)
    | Ok src =>
        let* buffer := copy_into buffer 0 read_bytes src in
        Done (Ok read_bytes, buffer, fw)
    end.

(** New pages for [end_] bytes. *)
Definition mf_new_pages (f : MemFile) (w : W) (end_ : Z) : result MappedPages IoError * W :=
  let prev_flags := if mapped_size_in_bytes (mf_mp f) =? 0
                    then x86_from_general (gen_writable (gen_valid gen_new true) true)
                    else mp_flags (mf_mp f) in
  if negb (get_kernel_mmi_ref w) then (Err (io_error_from_str "KERNEL_MMI was not yet initialized!"), w)
  else
    match km_allocate_pages w end_ with
    | (None, w) => (Err (io_error_from_str "could not allocate pages"), w)
    | (Some pages, w) =>
        match km_map_pages w pages prev_flags with
        | (Err e, w) => (Err (io_error_from_str e), w)
        | (Ok mp, w) => (Ok mp, w)
        end
    end.

Definition mf_write_at (fw : MemFile * W) (buffer : list Z) (offset : Z)
  : outcome (result Z IoError * (MemFile * W)) :=
  let '(f, w) := fw in
  let len := Z.of_nat (length buffer) in
  if negb (is_writable (mf_mp f)) && negb (mapped_size_in_bytes (mf_mp f) =? 0) then
    Done (Err (io_error_from_str "MemFile::write(): existing MappedPages were not writable"), fw)
  else
    let end_ := wrap64 (len + offset) in
    if end_ <=? mapped_size_in_bytes (mf_mp f) then
      match store_slice w (mf_mp f) offset buffer with
      | Err e => Done (Err e, fw)
      | Ok w =>
          let new_len := if mf_len f <? end_ then end_ else mf_len f in
          Done (Ok len, (mkMemFile (mf_name f) new_len (mf_mp f) (mf_parent f), w))
      end
    else
      match mf_new_pages f w end_ with
      | (Err e, w) => Done (Err e, (f, w))
      | (Ok mp, w) =>
          let copy_limit := if mf_len f <? offset then mf_len f else offset in
          match load_slice w (mf_mp f) 0 copy_limit with
          | Err e => Done (Err e, (f, w))
          | Ok existing_bytes =>
              match store_slice w mp 0 existing_bytes with
              | Err e => Done (Err e, (f, w))
              | Ok w =>
                  match store_slice w mp offset buffer with
                  | Err e => Done (Err e, (f, w))
                  | Ok w => Done (Ok len, (mkMemFile (mf_name f) end_ mp (mf_parent f), w))
                  end
              end
          end
      end.

#[export] Instance memfile_io : ByteIO (MemFile * W) := {|
  byte_len := fun fw => mf_len fw.1;
  read_at := mf_read_at;
  write_at := mf_write_at;
  flush_bytes := fun fw => Done (Ok tt, fw);
|}.

End MemFiles.

(** ** What the kernel's memory promises *)

(** A mapping that accessors can address. *)
Definition mapping_ok (mp : MappedPages) : Prop :=
  0 <= mapped_start mp /\ 0 <= mapped_size_in_bytes mp <= ISIZE_MAX /\
  mapped_start mp + mapped_size_in_bytes mp <= U64_MAX.

Definition in_mapping (mp : MappedPages) (a : Z) : Prop :=
  mapped_start mp <= a < mapped_start mp + mapped_size_in_bytes mp.

(** [km_live] are the mappings in use.  A new mapping is large enough, keeps the
    writability asked for, shares no address with those, and leaves their bytes alone;
    nothing is said of the bytes it starts with. *)
Class KernelMemoryLaws (W : Type) {bf : Bitflags} {km : KernelMemory W} := {
  km_live : W -> MappedPages -> Prop;
  km_store_law : forall w a l,
    (forall i, km_bytes (km_store w a l) i = upd (km_bytes w) a l i) /\
    (forall mp, km_live w mp -> km_live (km_store w a l) mp);
  km_map_law : forall w n pages w1 flags mp w2,
    0 < n -> km_allocate_pages w n = (Some pages, w1) -> km_map_pages w1 pages flags = (Ok mp, w2) ->
    mapping_ok mp /\ n <= mapped_size_in_bytes mp /\ is_writable mp = x86_is_writable flags /\ km_live w2 mp /\
    (forall mp0, km_live w mp0 ->
       (forall a, in_mapping mp0 a -> ~ in_mapping mp a /\ km_bytes w2 a = km_bytes w a));
}.

Section MemFileSpec.
Context {bf : Bitflags} {W : Type} {km : KernelMemory W} {laws : KernelMemoryLaws W}.

(** The file lies within its mapping, which is in use unless it is still empty. *)
Definition mf_ok (fw : MemFile * W) : Prop :=
  let '(f, w) := fw in
  mapping_ok (mf_mp f) /\ 0 <= mf_len f <= mapped_size_in_bytes (mf_mp f) /\
  (mapped_size_in_bytes (mf_mp f) <> 0 -> km_live w (mf_mp f)).

Definition mf_bytes (fw : MemFile * W) (i : Z) : Z := km_bytes fw.2 (mapped_start (mf_mp fw.1) + i).

Lemma load_slice_ok (w : W) (mp : MappedPages) (offset len : Z) :
  mapping_ok mp -> 0 <= offset -> 0 <= len -> offset + len <= mapped_size_in_bytes mp ->
  load_slice w mp offset len = Ok (seg (km_bytes w) (mapped_start mp + offset) len).
Proof.
  intros (? & ? & ?) ???. unfold load_slice. assert (ISIZE_MAX <= U64_MAX) by done.
  destruct (accessors_iff mp 1 1 offset len (mapped_start mp + offset)) as (_ & _ & [_ H'] & _).
  rewrite H'; [done |]. rewrite Z.mul_1_r. split; [lia |]. unfold accessible. split; [done |]. lia.
Qed.

Lemma store_slice_ok (w : W) (mp : MappedPages) (offset : Z) (src : list Z) :
  mapping_ok mp -> is_writable mp = true -> 0 <= offset -> offset + Z.of_nat (length src) <= mapped_size_in_bytes mp ->
  store_slice w mp offset src = Ok (km_store w (mapped_start mp + offset) src).
Proof.
  intros (? & ? & ?) Hw ??. unfold store_slice. assert (ISIZE_MAX <= U64_MAX) by done.
  destruct (accessors_iff mp 1 1 offset (Z.of_nat (length src)) (mapped_start mp + offset)) as (_ & _ & _ & [_ H']).
  rewrite H'; [done |]. rewrite Z.mul_1_r. split; [done |]. split; [lia |]. unfold accessible. split; [done |]. lia.
Qed.

Lemma mf_read_ok (f : MemFile) (w : W) (buffer : list Z) (offset : Z) :
  mf_ok (f, w) -> 0 <= offset ->
  mf_read_at (f, w) buffer offset =
    if mf_len f <=? offset then Done (Err InvalidInput, buffer, (f, w))
    else let n := Z.min (mf_len f - offset) (Z.of_nat (length buffer)) in
         Done (Ok n, seg (mf_bytes (f, w)) offset n ++ drop (Z.to_nat n) buffer, (f, w)).
Proof.
  intros (Hm & Hl & _) Ho. unfold mf_read_at. case_cmp; [done |]. cbv zeta.
  set (n := Z.min _ _). rewrite load_slice_ok by (done || lia).
  rewrite copy_into_ok by (rewrite ?seg_length; lia). cbn [outcome_bind]. rewrite Z2Nat.inj_0, take_0, app_nil_l.
  do 4 f_equal. apply list_eq. intros i. destruct (decide (Z.of_nat i < n)).
  - rewrite !seg_lookup by done. unfold mf_bytes. cbn [fst snd]. by rewrite Z.add_assoc.
  - rewrite !lookup_ge_None_2; [done | |]; [pose proof (seg_length (mf_bytes (f, w)) offset n) | pose proof (seg_length (km_bytes w) (mapped_start (mf_mp f) + offset) n)]; lia.
Qed.

(** A write that fits into the mapping is done in place. *)
Lemma mf_write_in_place (f : MemFile) (w : W) (buffer : list Z) (offset : Z) :
  mf_ok (f, w) -> is_writable (mf_mp f) = true -> 0 <= offset ->
  offset + Z.of_nat (length buffer) <= mapped_size_in_bytes (mf_mp f) ->
  exists fw', mf_write_at (f, w) buffer offset = Done (Ok (Z.of_nat (length buffer)), fw') /\ mf_ok fw' /\
    is_writable (mf_mp fw'.1) = true /\
    mf_len fw'.1 = Z.max (mf_len f) (offset + Z.of_nat (length buffer)) /\
    forall i, mf_bytes fw' i = upd (mf_bytes (f, w)) offset buffer i.
Proof.
  intros (Hm & Hl & Hlive) Hw Ho He. pose proof Hm as (? & ? & ?). assert (ISIZE_MAX <= U64_MAX) by done.
  unfold mf_write_at. rewrite Hw. cbn [negb andb]. rewrite wrap64_id by (split; lia). rewrite Z.add_comm.
  rewrite (proj2 (Z.leb_le _ _)) by lia. rewrite store_slice_ok by (done || lia).
  destruct (km_store_law w (mapped_start (mf_mp f) + offset) buffer) as [Hb Hlv].
  eexists. split; [done |]. split; [split; [done |]; split; [cbn; case_cmp; lia | auto] |].
  split; [done |]. split; [cbn; case_cmp; lia |]. intros i. unfold mf_bytes. cbn [fst snd mf_mp].
  rewrite Hb. unfold upd. case_cmp; try lia; try done. do 3 f_equal. lia.
Qed.

Lemma mf_new_pages_ok (f : MemFile) (w w1 : W) (mp : MappedPages) (n : Z) :
  0 < n -> mf_new_pages f w n = (Ok mp, w1) ->
  mapping_ok mp /\ n <= mapped_size_in_bytes mp /\ km_live w1 mp /\
  (forall mp0, km_live w mp0 -> forall a, in_mapping mp0 a -> ~ in_mapping mp a /\ km_bytes w1 a = km_bytes w a).
Proof.
  intros Hn. unfold mf_new_pages. destruct (get_kernel_mmi_ref w); cbn [negb]; [| done].
  destruct (km_allocate_pages w n) as [[pages |] w0] eqn:Ea; [| done].
  destruct (km_map_pages w0 pages _) as [[mp' | e] w2] eqn:Em; [| done]. intros. simplify_eq.
  destruct (km_map_law _ _ _ _ _ _ _ Hn Ea Em) as (? & ? & _ & ? & ?). auto.
Qed.

(** The bytes of the old file, read after the new pages are mapped. *)
Lemma old_bytes_kept (f : MemFile) (w w1 : W) (mp : MappedPages) (n len : Z) :
  mf_ok (f, w) -> 0 < n -> mf_new_pages f w n = (Ok mp, w1) -> len <= mapped_size_in_bytes (mf_mp f) ->
  seg (km_bytes w1) (mapped_start (mf_mp f) + 0) len = seg (mf_bytes (f, w)) 0 len.
Proof.
  intros (Hm & Hl & Hlive) Hn Hnew Hlen. destruct (mf_new_pages_ok _ _ _ _ _ Hn Hnew) as (_ & _ & _ & Hold).
  rewrite Z.add_0_r. apply list_eq. intros i. destruct (decide (Z.of_nat i < len)).
  - rewrite !seg_lookup by done. unfold mf_bytes. cbn [fst snd]. rewrite Z.add_0_l. f_equal.
    eapply Hold; [apply Hlive; lia |]. unfold in_mapping. lia.
  - rewrite !lookup_ge_None_2; [done | |];
      [pose proof (seg_length (mf_bytes (f, w)) 0 len) | pose proof (seg_length (km_bytes w1) (mapped_start (mf_mp f)) len)];
      destruct (decide (0 <= len)); try lia; rewrite seg_nil by lia; cbn; lia.
Qed.

(** A write that does not fit moves the file: what comes before the write, up to the old
    end of the file, is copied.  The bytes between the old end and the offset are those
    the new pages happen to hold. *)
Lemma mf_write_moved (f : MemFile) (w w1 : W) (mp : MappedPages) (buffer : list Z) (offset : Z) :
  mf_ok (f, w) -> is_writable (mf_mp f) = true \/ mapped_size_in_bytes (mf_mp f) = 0 -> 0 <= offset ->
  mapped_size_in_bytes (mf_mp f) < offset + Z.of_nat (length buffer) <= U64_MAX ->
  mf_new_pages f w (offset + Z.of_nat (length buffer)) = (Ok mp, w1) -> is_writable mp = true ->
  exists fw', mf_write_at (f, w) buffer offset = Done (Ok (Z.of_nat (length buffer)), fw') /\ mf_ok fw' /\
    is_writable (mf_mp fw'.1) = true /\
    mf_len fw'.1 = Z.max (mf_len f) (offset + Z.of_nat (length buffer)) /\
    forall i, 0 <= i < mf_len fw'.1 -> mf_len f <= i < offset \/ mf_bytes fw' i = upd (mf_bytes (f, w)) offset buffer i.
Proof.
  intros Hok Hw Ho He Hnew Hwm. pose proof Hok as (Hm & Hl & Hlive). pose proof Hm as (? & ? & ?).
  set (e := offset + Z.of_nat (length buffer)) in *.
  destruct (mf_new_pages_ok f w w1 mp e ltac:(lia) Hnew) as (Hmp & Hsize & Hlv & _).
  unfold mf_write_at. rewrite wrap64_id by (split; lia). rewrite (Z.add_comm (Z.of_nat _)). fold e.
  replace (negb (is_writable (mf_mp f)) && negb (mapped_size_in_bytes (mf_mp f) =? 0)) with false
    by (destruct Hw as [-> | ->]; [done | by rewrite Z.eqb_refl, andb_false_r]).
  rewrite (proj2 (Z.leb_gt _ _)) by lia. rewrite Hnew.
  set (limit := if mf_len f <? offset then mf_len f else offset).
  assert (limit = Z.min (mf_len f) offset) as El by (subst limit; case_cmp; lia). clearbody limit.
  rewrite load_slice_ok by (done || lia). rewrite (old_bytes_kept f w w1 mp e) by (done || lia).
  rewrite store_slice_ok by (done || (rewrite ?seg_length; lia)). rewrite Z.add_0_r.
  rewrite store_slice_ok by (done || lia).
  set (w2 := km_store w1 _ _). set (w3 := km_store w2 _ _).
  destruct (km_store_law w1 (mapped_start mp) (seg (mf_bytes (f, w)) 0 limit)) as [Hb2 Hl2]. fold w2 in Hb2, Hl2.
  destruct (km_store_law w2 (mapped_start mp + offset) buffer) as [Hb3 Hl3]. fold w3 in Hb3, Hl3.
  eexists. split; [done |]. split; [split; [done |]; split; [cbn; lia | auto] |]. split; [done |].
  split; [cbn; lia |]. intros i Hi. cbn in Hi. unfold mf_bytes at 1. cbn [fst snd mf_mp]. rewrite Hb3.
  destruct (Z_lt_ge_dec i offset) as [Hlt | Hge].
  - rewrite !upd_out by lia. rewrite Hb2. destruct (Z_lt_ge_dec i limit) as [Hin | ?]; [right | left; lia].
    rewrite <- (Z2Nat.id i) at 1 by lia. rewrite (upd_in _ _ _ _ (mf_bytes (f, w) i)); [done |].
    rewrite seg_lookup by lia. rewrite Z2Nat.id by lia. done.
  - right. unfold upd. case_cmp; try lia. do 3 f_equal. lia.
Qed.

#[export] Program Instance memfile_laws : ByteIOLaws (MemFile * W) := {|
  by_inv := fun fw => mf_ok fw /\ (is_writable (mf_mp fw.1) = true \/ mapped_size_in_bytes (mf_mp fw.1) = 0);
  by_bytes := mf_bytes;
|}.
Next Obligation.
  intros [f w] [((? & ? & ?) & ? & _) _]. cbn. assert (ISIZE_MAX <= U64_MAX) by done. lia.
Qed.
Next Obligation.
  intros [f w] buf off [Hok Hw] Ho Hne Hl. exists (f, w). cbn in Hl.
  change (read_at (f, w) buf off) with (mf_read_at (f, w) buf off). rewrite mf_read_ok by done.
  assert (0 < Z.of_nat (length buf)) by (destruct buf; [done | cbn; lia]). rewrite (proj2 (Z.leb_gt _ _)) by lia.
  cbv zeta. rewrite Z.min_r by lia. rewrite drop_ge, app_nil_r by lia. done.
Qed.
Next Obligation.
  intros [f w] buf off [Hok Hw] Ho Hne Hl. cbn in Hl. pose proof Hok as (_ & ? & _).
  assert (0 < Z.of_nat (length buf)) by (destruct buf; [done | cbn; lia]).
  destruct Hw as [Hw | Hw]; [| cbn in Hw; lia].
  destruct (mf_write_in_place f w buf off) as (fw' & E & Hok' & Hw' & El & Hb); [done | done | done | lia |].
  exists fw'. split; [exact E |]. split; [auto |]. split; [| exact Hb]. cbn. rewrite El. lia.
Qed.
Next Obligation. intros fw Hfw. by exists fw. Qed.

End MemFileSpec.
