(* ===== verification/FileProps.v ===== *)
(** * In-memory files: properties

    Writing to a file and reading it back, for files in a vector and in mapped pages.  For
    the latter, a kernel memory that hands out one range of pages after another. *)

From S2P Require Import Prelude MemStructs PageAlloc PteFlags PageTable MappedAccess Io IoSpec Files.

#[local] Existing Instance x86_arch.

(** A write to a heap file at any offset succeeds, grows the file to hold it and leaves the other bytes alone, with
    zeros between the old end and the offset; a read returns the bytes of the file up to its end, and beyond the end is
    an error that leaves the buffer alone. *)
Theorem heapfile_write_then_read (f : HeapFile) (buffer : list Z) (offset : Z) :
  0 <= offset -> offset + Z.of_nat (length buffer) <= U64_MAX ->
  exists f', hf_write_at f buffer offset = Done (Ok (Z.of_nat (length buffer)), f') /\
    hf_len f' = Z.max (hf_len f) (offset + Z.of_nat (length buffer)) /\
    forall buf pos, 0 <= pos ->
      hf_read_at f' buf pos =
        if hf_len f' <=? pos then Done (Err InvalidInput, buf, f')
        else let n := Z.min (hf_len f' - pos) (Z.of_nat (length buf)) in
             Done (Ok n, seg (upd (hf_bytes f) offset buffer) pos n ++ drop (Z.to_nat n) buf, f').
Proof.
  intros Ho He. destruct (hf_write_ok f buffer offset Ho He) as (f' & E & El & _ & _ & Hb).
  exists f'. split; [done |]. split; [done |]. intros buf pos Hp. rewrite hf_read_ok by done. case_cmp; [done |].
  cbv zeta. do 4 f_equal. apply seg_ext. auto.
Qed.

Lemma heapfile_write_then_read_witness :
  hf_write_at (mkHeapFile [] [1; 2] None) [9] 3 = Done (Ok 1, mkHeapFile [] [1; 2; 0; 9] None) /\
  exists f', hf_write_at (mkHeapFile [] [1; 2] None) [9] 3 = Done (Ok 1, f') /\ hf_len f' = 4 /\
    forall buf pos, 0 <= pos ->
      hf_read_at f' buf pos =
        if hf_len f' <=? pos then Done (Err InvalidInput, buf, f')
        else let n := Z.min (hf_len f' - pos) (Z.of_nat (length buf)) in
             Done (Ok n, seg (upd (hf_bytes (mkHeapFile [] [1; 2] None)) 3 [9]) pos n ++ drop (Z.to_nat n) buf, f').
Proof.
  split; [vm_compute; reflexivity |].
  apply (heapfile_write_then_read (mkHeapFile [] [1; 2] None) [9] 3); [lia | vm_compute; discriminate].
Defined.

Section MemFileProps.
Context {bf : Bitflags} {bl : BitflagsLaws bf} {W : Type} {km : KernelMemory W} {laws : KernelMemoryLaws W}.

(** New pages are writable: with the flags of a first allocation, or those of the old pages. *)
Lemma mf_new_pages_writable (f : MemFile) (w w1 : W) (mp : MappedPages) (n : Z) :
  0 < n -> is_writable (mf_mp f) = true \/ mapped_size_in_bytes (mf_mp f) = 0 ->
  mf_new_pages f w n = (Ok mp, w1) -> is_writable mp = true.
Proof.
  intros Hn Hw. unfold mf_new_pages. destruct (get_kernel_mmi_ref w); cbn [negb]; [| done].
  destruct (km_allocate_pages w n) as [[pages |] w0] eqn:Ea; [| done].
  destruct (km_map_pages w0 pages _) as [[mp' | e] w2] eqn:Em; [| done]. intros. simplify_eq.
  destruct (km_map_law _ _ _ _ _ _ _ Hn Ea Em) as (_ & _ & -> & _).
  case_cmp; [| by destruct Hw]. unfold x86_is_writable. apply contains_law.
  unfold x86_from_general, gen_writable, gen_valid, gen_new. rewrite !set_law, !insert_law, !from_bits_truncate_law.
  vm_compute. reflexivity.
Qed.

(** A write to a file in mapped pages that are writable, or to a new file, keeps the file within its mapping, grows
    it to hold the buffer, and stores the buffer without changing another byte of the old file, in place or in new pages
    if those can be had; reading it back returns the buffer.  Nothing is known of the bytes between the old end of the
    file and the offset. *)
Theorem memfile_write_then_read (f : MemFile) (w : W) (buffer : list Z) (offset : Z) :
  let end_ := offset + Z.of_nat (length buffer) in
  mf_ok (f, w) -> is_writable (mf_mp f) = true \/ mapped_size_in_bytes (mf_mp f) = 0 ->
  buffer <> [] -> 0 <= offset -> end_ <= U64_MAX ->
  end_ <= mapped_size_in_bytes (mf_mp f) \/ (exists mp w1, mf_new_pages f w end_ = (Ok mp, w1)) ->
  exists fw', mf_write_at (f, w) buffer offset = Done (Ok (Z.of_nat (length buffer)), fw') /\ mf_ok fw' /\
    mf_len fw'.1 = Z.max (mf_len f) end_ /\
    (forall i, 0 <= i < mf_len fw'.1 ->
       mf_len f <= i < offset \/ mf_bytes fw' i = upd (mf_bytes (f, w)) offset buffer i) /\
    forall buf, length buf = length buffer -> mf_read_at fw' buf offset = Done (Ok (Z.of_nat (length buffer)), buffer, fw').
Proof.
  intros end_ Hok Hw Hne Ho He Hnew. assert (0 < Z.of_nat (length buffer)) by (destruct buffer; [done | cbn; lia]).
  assert (exists fw', mf_write_at (f, w) buffer offset = Done (Ok (Z.of_nat (length buffer)), fw') /\ mf_ok fw' /\
    mf_len fw'.1 = Z.max (mf_len f) end_ /\
    (forall i, 0 <= i < mf_len fw'.1 ->
       mf_len f <= i < offset \/ mf_bytes fw' i = upd (mf_bytes (f, w)) offset buffer i)) as (fw' & E & Hok' & El & Hb).
  { destruct (Z_le_gt_dec end_ (mapped_size_in_bytes (mf_mp f))) as [Hin | Hout].
    - destruct Hw as [Hw | Hw]; [| subst end_; lia].
      destruct (mf_write_in_place f w buffer offset Hok Hw Ho Hin) as (fw' & ? & ? & _ & ? & ?). exists fw'. auto 6.
    - destruct Hnew as [? | (mp & w1 & En)]; [lia |].
      assert (is_writable mp = true) by (eapply mf_new_pages_writable; [| done | exact En]; subst end_; lia).
      destruct (mf_write_moved f w w1 mp buffer offset) as (fw' & ? & ? & _ & ? & ?); try done; [subst end_; lia |].
      exists fw'. auto. }
  exists fw'. split; [done |]. split; [done |]. split; [done |]. split; [done |]. intros buf Hbuf. destruct fw' as [f' w'].
  cbn [fst] in *. rewrite mf_read_ok by done. rewrite (proj2 (Z.leb_gt _ _)) by (subst end_; lia). cbv zeta.
  rewrite Hbuf, Z.min_r by (subst end_; lia). rewrite drop_ge, app_nil_r by lia. do 3 f_equal.
  rewrite (seg_ext _ (upd (mf_bytes (f, w)) offset buffer)); [apply seg_upd |].
  intros i Hi. destruct (Hb i) as [? | ?]; [subst end_; lia | lia | done].
Qed.

End MemFileProps.

(** ** A kernel memory

    Pages are handed out one range after another, up to 2{^20}; every mapping that ends below the next page is in
    use. *)

Module MemDemo.

Definition page_limit : Z := 2 ^ 20.

Record World := mkWorld { wbytes : Z -> Z; wnext : Z }.

Definition world_mem : KernelMemory World := {|
  km_bytes := wbytes;
  km_store w a l := mkWorld (upd (wbytes w) a l) (wnext w);
  get_kernel_mmi_ref _ := true;
  km_allocate_pages w n :=
    let count := (n + 4095) / 4096 in
    if (0 <? wnext w) && (0 <? count) && (wnext w + count <=? page_limit)
    then (Some (mkPages (mkRange (wnext w) (wnext w + count - 1))), mkWorld (wbytes w) (wnext w + count))
    else (None, w);
  km_map_pages w pages flags := (Ok (mkMapped 0 pages flags), w);
|}.

#[local] Existing Instance PteFlagsDemo.bits.
#[local] Existing Instance world_mem.

Definition live (w : World) (mp : MappedPages) : Prop := mapped_start mp + mapped_size_in_bytes mp <= wnext w * 4096.

Lemma small_range (a b flags : Z) :
  0 < a -> a <= b -> b < page_limit ->
  mapped_start (mkMapped 0 (mkPages (mkRange a b)) flags) = a * 4096 /\
  mapped_size_in_bytes (mkMapped 0 (mkPages (mkRange a b)) flags) = (b + 1 - a) * 4096.
Proof.
  intros. unfold page_limit in *. unfold mapped_start, mapped_size_in_bytes. cbn [mp_pages ap_pages].
  split; [apply start_address_low; cbn; lia |]. unfold size_in_bytes. rewrite size_4k by (cbn; mem_consts; lia).
  cbn [r_start r_end]. rewrite SIZE_4K_val, wrap64_id by (mem_consts; lia). lia.
Qed.

#[local] Program Instance world_laws : KernelMemoryLaws World := {| km_live := live |}.
Next Obligation. done. Qed.
Next Obligation.
  intros w n pages w1 flags mp w2 Hn. unfold km_allocate_pages, km_map_pages. cbn.
  destruct (_ && _) eqn:Hc; [| done]. intros. simplify_eq. apply andb_prop in Hc as [[?%Z.ltb_lt ?%Z.ltb_lt]%andb_prop ?%Z.leb_le].
  destruct (small_range (wnext w) (wnext w + (n + 4095) / 4096 - 1) flags) as [Es Ez]; [lia | lia | lia |].
  unfold mapping_ok, in_mapping, live. cbn [wnext wbytes]. rewrite Es, Ez.
  assert (n <= (n + 4095) / 4096 * 4096) by (pose proof (Z.div_mod (n + 4095) 4096); pose proof (Z.mod_pos_bound (n + 4095) 4096); lia).
  assert (page_limit * 4096 <= ISIZE_MAX) by done. assert (ISIZE_MAX <= U64_MAX) by done.
  split_and!; (lia || done).
Qed.

(** A memory in which every byte is 0xff, and a file of three bytes at its first page. *)
Definition world0 : World := mkWorld (upd (fun _ => 0xff) (1 * 4096) [1; 2; 3]) 2.
Definition file0 : MemFile := mkMemFile [] 3 (mkMapped 0 (mkPages (mkRange 1 1)) X86_WRITABLE) None.

Lemma file0_ok : mf_ok (file0, world0).
Proof.
  destruct (small_range 1 1 X86_WRITABLE) as [E1 E2]; [done .. |]. cbn [mf_ok file0 mf_mp mf_len].
  cbn [km_live world_laws]. unfold mapping_ok, live. rewrite E1, E2. by split_and!.
Qed.

(** A write behind the first page, to new pages. *)
Lemma memfile_write_then_read_witness :
  exists fw', mf_write_at (file0, world0) [9] 5000 = Done (Ok 1, fw') /\ mf_ok fw' /\ mf_len fw'.1 = 5001 /\
    (forall i, 0 <= i < mf_len fw'.1 -> 3 <= i < 5000 \/ mf_bytes fw' i = upd (mf_bytes (file0, world0)) 5000 [9] i) /\
    forall buf, length buf = 1%nat -> mf_read_at fw' buf 5000 = Done (Ok 1, [9], fw').
Proof.
  pose proof PteFlagsDemo.bits_laws as Hb.
  apply (memfile_write_then_read file0 world0 [9] 5000);
    [apply file0_ok | left; vm_compute; reflexivity | done | lia | vm_compute; discriminate |].
  right. eexists _, _. vm_compute. reflexivity.
Defined.

(** Bytes that were never written are those of the memory: not zero, as in a heap file. *)
Example memfile_gap_not_zeroed :
  match mf_write_at (file0, world0) [9] 5000 with
  | Done (_, (f, w)) => mf_read_at (f, w) [0; 0] 2 = Done (Ok 2, [3; 0xff], (f, w))
  | Panic => False
  end.
Proof. vm_compute. reflexivity. Qed.

End MemDemo.
