(* ===== verification/Vfs.v ===== *)
(** * The virtual file system: operations

    Models kernel/fs_node/src/lib.rs (nodes, absolute paths), kernel/vfs_node/src/lib.rs
    (directories with their prefix index), kernel/root/src/lib.rs (the root directory) and
    the look-up of paths of kernel/path/src/lib.rs.

    Files and directories are shared pointers, so the nodes live in one store and a
    [FileRef] or [DirRef] is an index into it; directory 0 is the root.  The store holds the
    nodes that some strong reference keeps alive: upgrading a weak reference succeeds
    exactly for these.  Files enter through the class [FsFile], which the two kinds of
    files of [Files] implement.  Taking the lock of a node twice is a [Panic]. *)

From stdpp Require Import gmap.
From S2P Require Import Prelude Paths Files.

(** ** Ordered maps with string keys ([BTreeMap<String, _>]) *)

Fixpoint str_cmp (a b : str) : comparison :=
  match a, b with
  | [], [] => Eq
  | [], _ :: _ => Lt
  | _ :: _, [] => Gt
  | x :: a', y :: b' =>
      match N.compare (N_of_ascii x) (N_of_ascii y) with
      | Eq => str_cmp a' b'
      | c => c
      end
  end.

Definition str_ltb (a b : str) : bool := match str_cmp a b with Lt => true | _ => false end.

Definition smap (V : Type) := list (str * V).

Section StrMap.
Context {V : Type}.

Fixpoint sm_get (k : str) (m : smap V) : option V :=
  match m with
  | [] => None
  | (k', v) :: m' => if str_eqb k k' then Some v else sm_get k m'
  end.

Fixpoint sm_insert (k : str) (v : V) (m : smap V) : smap V :=
  match m with
  | [] => [(k, v)]
  | (k', v') :: m' =>
      if str_eqb k k' then (k, v) :: m'
      else if str_ltb k k' then (k, v) :: m
      else (k', v') :: sm_insert k v m'
  end.

Definition sm_remove (k : str) (m : smap V) : smap V := List.filter (fun kv => negb (str_eqb k kv.1)) m.

Definition sm_keys (m : smap V) : list str := m.*1.

End StrMap.

(** ** Nodes *)

Inductive FileOrDir : Type :=
| FileNode (file : nat)
| DirNode (dir : nat).

#[export] Instance FileOrDir_eq_dec : EqDecision FileOrDir.
Proof. solve_decision. Defined.

Definition is_file (n : FileOrDir) : bool := match n with FileNode _ => true | DirNode _ => false end.

Definition is_dir (n : FileOrDir) : bool := match n with FileNode _ => false | DirNode _ => true end.

(** The root directory. *)
Definition ROOT : nat := 0.

Definition ROOT_DIRECTORY_NAME : str := [].

Record VFSDirectory := mkDir {
  vd_name : str;
  vd_children : smap FileOrDir;
  vd_parent : option nat;
  vd_prefix_index : smap str;
}.

(** [FsNode] for files. *)
Class FsFile (F : Type) := {
  f_name : F -> str;
  f_parent : F -> option nat;
  f_set_parent : F -> option nat -> F;
  f_len : F -> Z;
}.

#[export] Instance heapfile_node : FsFile HeapFile := {|
  f_name := hf_name;
  f_parent := hf_parent;
  f_set_parent := fun f p => mkHeapFile (hf_name f) (hf_vec f) p;
  f_len := hf_len;
|}.

#[export] Instance memfile_node : FsFile MemFile := {|
  f_name := mf_name;
  f_parent := mf_parent;
  f_set_parent := fun f p => mkMemFile (mf_name f) (mf_len f) (mf_mp f) p;
  f_len := mf_len;
|}.

Record Vfs (F : Type) := mkVfs {
  root_children : smap FileOrDir;
  vdirs : gmap nat VFSDirectory;
  vfiles : gmap nat F;
}.
Arguments mkVfs {F}.
Arguments root_children {F}.
Arguments vdirs {F}.
Arguments vfiles {F}.

(** ** The prefix index of a directory *)

Definition DASH : ascii := "-"%char.

(** Up to and including the first dash, or the whole name. *)
Definition prefix_of (name : str) : str :=
  match split_once DASH name with
  | Some (a, _) => a ++ [DASH]
  | None => name
  end.

Definition index_insert (d : VFSDirectory) (name : str) : VFSDirectory :=
  let prefix := prefix_of name in
  let should_insert := match sm_get prefix (vd_prefix_index d) with
                       | Some existing => str_ltb existing name
                       | None => true
                       end in
  if should_insert
  then mkDir (vd_name d) (vd_children d) (vd_parent d) (sm_insert prefix name (vd_prefix_index d))
  else d.

Definition index_remove (d : VFSDirectory) (name : str) : VFSDirectory :=
  let prefix := prefix_of name in
  match sm_get prefix (vd_prefix_index d) with
  | Some indexed =>
      if str_eqb indexed name then
        let best := last (List.filter (fun k => starts_with k prefix && negb (str_eqb k name)) (sm_keys (vd_children d))) in
        let index := match best with
                     | Some b => sm_insert prefix b (vd_prefix_index d)
                     | None => sm_remove prefix (vd_prefix_index d)
                     end in
        mkDir (vd_name d) (vd_children d) (vd_parent d) index
      else d
  | None => d
  end.

(** The slow path of [get_file_starting_with]. *)
Fixpoint find_prefix (prefix : str) (m : smap FileOrDir) : option nat :=
  match m with
  | [] => None
  | (name, node) :: m' =>
      match (if starts_with name prefix then match node with FileNode f => Some f | DirNode _ => None end else None) with
      | Some f => Some f
      | None => find_prefix prefix m'
      end
  end.

Definition get_file_starting_with (d : VFSDirectory) (prefix : str) : option nat :=
  let fast := match sm_get prefix (vd_prefix_index d) with
              | Some full_name => match sm_get full_name (vd_children d) with
                                  | Some (FileNode f) => Some f
                                  | _ => None
                                  end
              | None => None
              end in
  match fast with
  | Some f => Some f
  | None => find_prefix prefix (vd_children d)
  end.

Definition entry_count (d : VFSDirectory) : nat := length (vd_children d).

Section Store.
Context {F : Type} {file : FsFile F}.

Implicit Types v : Vfs F.

(** Upgrading a weak reference. *)
Definition upgrade v (w : option nat) : option nat :=
  match w with
  | Some d => if bool_decide (d = ROOT) || bool_decide (is_Some (vdirs v !! d)) then Some d else None
  | None => None
  end.

(** [FsNode] for [FileOrDir]; a reference always points to a node. *)
Definition get_name v (n : FileOrDir) : str :=
  match n with
  | FileNode f => match vfiles v !! f with Some x => f_name x | None => [] end
  | DirNode d => if bool_decide (d = ROOT) then ROOT_DIRECTORY_NAME
                 else match vdirs v !! d with Some x => vd_name x | None => [] end
  end.

Definition get_parent_dir v (n : FileOrDir) : option nat :=
  match n with
  | FileNode f => match vfiles v !! f with Some x => upgrade v (f_parent x) | None => None end
  | DirNode d => if bool_decide (d = ROOT) then Some ROOT
                 else match vdirs v !! d with Some x => upgrade v (vd_parent x) | None => None end
  end.

Definition set_parent_dir v (n : FileOrDir) (new_parent : option nat) : Vfs F :=
  match n with
  | FileNode f =>
      match vfiles v !! f with
      | Some x => mkVfs (root_children v) (vdirs v) (<[f := f_set_parent x new_parent]> (vfiles v))
      | None => v
      end
  | DirNode d =>
      if bool_decide (d = ROOT) then v
      else match vdirs v !! d with
           | Some x => mkVfs (root_children v)
                         (<[d := mkDir (vd_name x) (vd_children x) new_parent (vd_prefix_index x)]> (vdirs v)) (vfiles v)
           | None => v
           end
  end.

Definition node_len v (n : FileOrDir) : Z :=
  match n with
  | FileNode f => match vfiles v !! f with Some x => f_len x | None => 0 end
  | DirNode _ => 0
  end.

(** [get_absolute_path], on fuel for the directories above the node. *)
Fixpoint get_absolute_path (fuel : nat) v (n : FileOrDir) : outcome str :=
  match fuel with
  | O => Panic
  | S fuel' =>
      if bool_decide (n = DirNode ROOT) then Done (ROOT_DIRECTORY_NAME ++ lit "/")
      else
        match get_parent_dir v n with
        | Some cur_dir =>
            let* parent_path := get_absolute_path fuel' v (DirNode cur_dir) in
            if str_eqb parent_path (lit "/") then Done (parent_path ++ get_name v n)
            else Done ((parent_path ++ lit "/") ++ get_name v n)
        | None => Done (get_name v n)
        end
  end.

(** ** Directories *)

Definition children v (d : nat) : smap FileOrDir :=
  if bool_decide (d = ROOT) then root_children v
  else match vdirs v !! d with Some x => vd_children x | None => [] end.

Definition dir_get v (d : nat) (name : str) : option FileOrDir := sm_get name (children v d).

Definition dir_get_file v (d : nat) (name : str) : option nat :=
  match dir_get v d name with Some (FileNode f) => Some f | _ => None end.

Definition dir_get_dir v (d : nat) (name : str) : option nat :=
  match dir_get v d name with Some (DirNode d') => Some d' | _ => None end.

Definition dir_list v (d : nat) : list str := sm_keys (children v d).

(** Replaces the contents of directory [d], with the prefix index [index] if it has one. *)
Definition set_children v (d : nat) (m : smap FileOrDir) (index : VFSDirectory -> VFSDirectory) : Vfs F :=
  if bool_decide (d = ROOT) then mkVfs m (vdirs v) (vfiles v)
  else match vdirs v !! d with
       | Some x => let x := index x in
                   mkVfs (root_children v) (<[d := mkDir (vd_name x) m (vd_parent x) (vd_prefix_index x)]> (vdirs v)) (vfiles v)
       | None => v
       end.

(** The old node loses its parent. *)
Definition detach v (old : option FileOrDir) : Vfs F :=
  match old with
  | Some n => set_parent_dir v n None
  | None => v
  end.

Definition dir_insert v (d : nat) (node : FileOrDir) : outcome (option FileOrDir * Vfs F) :=
  if bool_decide (node = DirNode d) then Panic
  else
    let name := get_name v node in
    let old := sm_get name (children v d) in
    if bool_decide (old = Some (DirNode d)) then Panic
    else
      let v := set_children v d (sm_insert name node (children v d)) (fun x => index_insert x name) in
      Done (old, detach v old).

Definition dir_remove v (d : nat) (node : FileOrDir) : outcome (option FileOrDir * Vfs F) :=
  if bool_decide (d = ROOT) && bool_decide (node = DirNode ROOT) then Done (None, v)
  else if bool_decide (node = DirNode d) then Panic
  else
    let name := get_name v node in
    let old := sm_get name (children v d) in
    if bool_decide (old = Some (DirNode d)) then Panic
    else
      let v := match old with
               | Some _ => set_children v d (sm_remove name (children v d)) (fun x => index_remove x name)
               | None => set_children v d (children v d) (fun x => index_remove x name)
               end in
      Done (old, detach v old).

(** ** Creation: the node [id] is new *)

(** [VFSDirectory::create]. *)
Definition create_dir v (id : nat) (name : str) (parent : nat) : outcome (nat * Vfs F) :=
  let v := mkVfs (root_children v) (<[id := mkDir name [] (Some parent) []]> (vdirs v)) (vfiles v) in
  let* (_, v) := dir_insert v parent (DirNode id) in
  Done (id, v).

(** [VFSDirectory::create_root]. *)
Definition create_root v (id : nat) (name : str) : Vfs F :=
  mkVfs (root_children v) (<[id := mkDir name [] None []]> (vdirs v)) (vfiles v).

(** [HeapFile::from_vec] and [MemFile::from_mapped_pages]: the file is given with its
    parent set. *)
Definition create_file v (id : nat) (f : F) (parent : nat) : outcome (nat * Vfs F) :=
  let v := mkVfs (root_children v) (vdirs v) (<[id := f]> (vfiles v)) in
  let* (_, v) := dir_insert v parent (FileNode id) in
  Done (id, v).

(** ** Paths *)

(** The loop of [Path::get] on the components to come. *)
Fixpoint walk v (current : nat) (comps : list Component) : option FileOrDir :=
  match comps with
  | [] => Some (DirNode current)
  | c :: rest =>
      match c with
      | RootDir => walk v ROOT rest
      | CurDir => walk v current rest
      | ParentDir =>
          match get_parent_dir v (DirNode current) with
          | Some temp => walk v temp rest
          | None => None
          end
      | Normal name =>
          match rest with
          | [] => dir_get v current name
          | _ => match dir_get v current name with
                 | Some (DirNode directory) => walk v directory rest
                 | _ => None
                 end
          end
      end
  end.

Definition path_get v (path : str) (cwd : nat) : outcome (option FileOrDir) :=
  let* comps := all_components path in
  match comps with
  | RootDir :: rest => Done (walk v ROOT rest)
  | _ => Done (walk v cwd comps)
  end.

Definition path_get_file v (path : str) (cwd : nat) : outcome (option nat) :=
  let* o := path_get v path cwd in
  Done (match o with Some (FileNode f) => Some f | _ => None end).

Definition path_get_dir v (path : str) (cwd : nat) : outcome (option nat) :=
  let* o := path_get v path cwd in
  Done (match o with Some (DirNode d) => Some d | _ => None end).

Definition get_absolute v (path : str) : outcome (option FileOrDir) :=
  if is_absolute path then path_get v path ROOT else Done None.

End Store.

(** [HeapFile::from_vec] and [HeapFile::create]. *)
Definition heapfile_from_vec (v : Vfs HeapFile) (id : nat) (vec : list Z) (name : str) (parent : nat) :=
  create_file v id (mkHeapFile name vec (Some parent)) parent.

Definition heapfile_create (v : Vfs HeapFile) (id : nat) (name : str) (parent : nat) :=
  heapfile_from_vec v id [] name parent.

(** [MemFile::from_mapped_pages] and [MemFile::create]. *)
Definition memfile_from_mapped_pages (v : Vfs MemFile) (id : nat) (mp : PageTable.MappedPages) (name : str) (len : Z)
    (parent : nat) :=
  create_file v id (mkMemFile name len mp (Some parent)) parent.

Definition memfile_create {bf : PteFlags.Bitflags} (v : Vfs MemFile) (id : nat) (name : str) (parent : nat) :=
  memfile_from_mapped_pages v id PageTable.mapped_empty name 0 parent.
