(* ===== verification/VfsProps.v ===== *)
(** * The virtual file system: properties

    The tree of directories: every entry of a directory is a node of that name whose parent
    is that directory, an invariant of creation and removal under which absolute paths
    identify nodes.  Look-up by prefix is correct whatever the state of its index. *)

From stdpp Require Import gmap.
From S2P Require Import Prelude Paths PathSpec PathProps Files Vfs.

(** ** Ordered maps *)

Section StrMap.
Context {V : Type}.

Implicit Types m : smap V.

Lemma str_eqb_spec (a b : str) : reflect (a = b) (str_eqb a b).
Proof. apply bool_decide_reflect. Qed.

Lemma sm_get_insert (k k' : str) (x : V) m : sm_get k (sm_insert k' x m) = if str_eqb k k' then Some x else sm_get k m.
Proof.
  induction m as [| [k0 v0] m IH]; cbn; [done |].
  destruct (str_eqb_spec k' k0) as [-> | Hne]; cbn.
  - by destruct (str_eqb_spec k k0).
  - destruct (str_ltb k' k0); cbn; [done |]. rewrite IH.
    destruct (str_eqb_spec k k0) as [-> | ?]; [| done]. by destruct (str_eqb_spec k0 k').
Qed.

Lemma sm_get_remove (k k' : str) m : sm_get k (sm_remove k' m) = if str_eqb k k' then None else sm_get k m.
Proof.
  unfold sm_remove. induction m as [| [k0 v0] m IH]; cbn; [by case_match |].
  destruct (str_eqb_spec k' k0) as [-> | Hne]; cbn; [rewrite IH; by destruct (str_eqb_spec k k0) |].
  rewrite IH. destruct (str_eqb_spec k k0) as [-> | ?]; [| done]. by destruct (str_eqb_spec k0 k').
Qed.

Lemma sm_get_elem (k : str) (x : V) m : sm_get k m = Some x -> (k, x) ∈ m.
Proof.
  induction m as [| [k0 v0] m IH]; cbn; [done |]. destruct (str_eqb_spec k k0) as [-> | ?]; intros; simplify_eq; [by left |].
  right. auto.
Qed.

End StrMap.

(** ** Look-up by prefix *)

(** Every indexed name starts with the prefix it is indexed under. *)
Definition index_ok (d : VFSDirectory) : Prop :=
  forall p n, sm_get p (vd_prefix_index d) = Some n -> starts_with n p = true.

Lemma prefix_of_starts (name : str) : starts_with name (prefix_of name) = true.
Proof.
  apply starts_with_app. unfold prefix_of.
  assert (forall a b, split_once DASH name = Some (a, b) -> name = a ++ DASH :: b) as H.
  { induction name as [| x name IH]; intros a b; [done |]. cbn. case_bool_decide as Hx; [intros; by simplify_eq |].
    destruct (split_once DASH name) as [[a' b'] |]; [| done]. intros. simplify_eq. cbn. f_equal. by apply IH. }
  destruct (split_once DASH name) as [[a b] |]; [| exists []; by rewrite app_nil_r].
  exists b. rewrite <- app_assoc. by apply H.
Qed.

Lemma index_insert_ok (d : VFSDirectory) (name : str) : index_ok d -> index_ok (index_insert d name).
Proof.
  intros Hd. unfold index_insert. destruct (match sm_get _ _ with Some _ => _ | None => _ end); [| done].
  intros p n. cbn. rewrite sm_get_insert. destruct (str_eqb_spec p (prefix_of name)) as [-> | ?]; [| apply Hd].
  intros. simplify_eq. apply prefix_of_starts.
Qed.

Lemma index_remove_ok (d : VFSDirectory) (name : str) : index_ok d -> index_ok (index_remove d name).
Proof.
  intros Hd. unfold index_remove. destruct (sm_get _ _) as [n0 |]; [| done]. destruct (str_eqb n0 name); [| done].
  destruct (last _) as [b |] eqn:E; intros p n; cbn.
  - rewrite sm_get_insert. destruct (str_eqb_spec p (prefix_of name)) as [-> | ?]; [| apply Hd]. intros. simplify_eq.
    apply last_Some_elem_of in E. apply list_elem_of_In, filter_In in E as [_ E]. by apply andb_prop in E as [E _].
  - rewrite sm_get_remove. destruct (str_eqb p _); [done | apply Hd].
Qed.

Lemma find_prefix_spec (prefix : str) (m : smap FileOrDir) :
  match find_prefix prefix m with
  | Some f => exists name, (name, FileNode f) ∈ m /\ starts_with name prefix = true
  | None => forall name f, (name, FileNode f) ∈ m -> starts_with name prefix = false
  end.
Proof.
  induction m as [| [name node] m IH]; cbn; [intros ? ? H; by apply not_elem_of_nil in H |].
  destruct (starts_with name prefix) eqn:Hs; [destruct node as [f | d] |].
  - exists name. split; [by left | done].
  - destruct (find_prefix prefix m); [destruct IH as (n' & ? & ?); exists n'; split; [by right | done] |].
    intros n' f [E | H]%elem_of_cons; [done | eauto].
  - destruct (find_prefix prefix m); [destruct IH as (n' & ? & ?); exists n'; split; [by right | done] |].
    intros n' f [E | H]%elem_of_cons; [by simplify_eq | eauto].
Qed.

(** [get_file_starting_with] finds a file of the directory whose name starts with the
    prefix exactly when there is one, through the index or by scanning; the index it
    keeps up under insertion and removal may be stale but never leads to a wrong file. *)
Theorem prefix_lookup_correct (d : VFSDirectory) (prefix : str) :
  index_ok d ->
  (match get_file_starting_with d prefix with
   | Some f => exists name, (name, FileNode f) ∈ vd_children d /\ starts_with name prefix = true
   | None => forall name f, (name, FileNode f) ∈ vd_children d -> starts_with name prefix = false
   end) /\
  forall name, index_ok (index_insert d name) /\ index_ok (index_remove d name).
Proof.
  intros Hd. split; [| intros name; split; [by apply index_insert_ok | by apply index_remove_ok]].
  unfold get_file_starting_with. pose proof (find_prefix_spec prefix (vd_children d)) as Hslow.
  destruct (sm_get prefix (vd_prefix_index d)) as [full |] eqn:Ei; [| exact Hslow].
  destruct (sm_get full (vd_children d)) as [[f | d'] |] eqn:Ec; [| exact Hslow | exact Hslow].
  exists full. split; [by apply sm_get_elem | by apply Hd].
Qed.

(** Two versions of a crate and a directory between them. *)
Definition crate_dir : VFSDirectory :=
  index_insert (mkDir (lit "ns") [(lit "k-1", FileNode 1); (lit "k-2", FileNode 2); (lit "k-3", DirNode 3)] None [])
    (lit "k-2").

Lemma crate_dir_index : index_ok crate_dir.
Proof. apply index_insert_ok. intros p n E. done. Qed.

Lemma prefix_lookup_correct_witness :
  get_file_starting_with crate_dir (lit "k-") = Some 2%nat /\
  ((match get_file_starting_with crate_dir (lit "k-") with
    | Some f => exists name, (name, FileNode f) ∈ vd_children crate_dir /\ starts_with name (lit "k-") = true
    | None => forall name f, (name, FileNode f) ∈ vd_children crate_dir -> starts_with name (lit "k-") = false
    end) /\
   forall name, index_ok (index_insert crate_dir name) /\ index_ok (index_remove crate_dir name)).
Proof. split; [vm_compute; reflexivity |]. apply (prefix_lookup_correct crate_dir (lit "k-")), crate_dir_index. Defined.

(** The documentation says that the first file with the prefix is returned; through the
    index it is the last one. *)
Example indexed_lookup_returns_last :
  (get_file_starting_with crate_dir (lit "k-"), find_prefix (lit "k-") (vd_children crate_dir)) = (Some 2%nat, Some 1%nat).
Proof. vm_compute. reflexivity. Qed.

(** ** The tree *)

(** A file's parent can be set without touching its name. *)
Class FsFileLaws (F : Type) {file : FsFile F} := {
  f_set_parent_name : forall x p, f_name (f_set_parent x p) = f_name x;
  f_set_parent_parent : forall x p, f_parent (f_set_parent x p) = p;
}.

#[export] Instance heapfile_node_laws : FsFileLaws HeapFile.
Proof. by split. Qed.

#[export] Instance memfile_node_laws : FsFileLaws MemFile.
Proof. by split. Qed.

Section Tree.
Context {F : Type} {file : FsFile F} {laws : FsFileLaws F}.

Implicit Types v : Vfs F.

Definition dir_in_store v (d : nat) : Prop := d = ROOT \/ is_Some (vdirs v !! d).

Definition in_store v (n : FileOrDir) : Prop :=
  match n with
  | FileNode f => is_Some (vfiles v !! f)
  | DirNode d => d <> ROOT /\ is_Some (vdirs v !! d)
  end.

(** The weak reference a node holds to its parent. *)
Definition node_parent v (n : FileOrDir) : option nat :=
  match n with
  | FileNode f => x ← vfiles v !! f; f_parent x
  | DirNode d => x ← vdirs v !! d; vd_parent x
  end.

(** Every entry of a directory is a live node of that name whose parent is that directory,
    other than the root and the directory itself. *)
Record tree_ok v : Prop := {
  tree_entry : forall d name n, dir_get v d name = Some n ->
    in_store v n /\ get_name v n = name /\ node_parent v n = Some d /\ n <> DirNode d;
}.

Lemma dir_get_in_store v (d : nat) (name : str) (n : FileOrDir) : dir_get v d name = Some n -> dir_in_store v d.
Proof.
  unfold dir_get, children, dir_in_store. case_bool_decide; [by left |]. destruct (vdirs v !! d); [right; by eexists | done].
Qed.

Lemma upgrade_in_store v (d : nat) : dir_in_store v d -> upgrade v (Some d) = Some d.
Proof.
  intros [-> | Hd]; cbn; [done |]. by rewrite (bool_decide_true (is_Some _)), orb_true_r.
Qed.

Lemma entry_parent v (d : nat) (name : str) (n : FileOrDir) :
  tree_ok v -> dir_get v d name = Some n -> get_parent_dir v n = Some d /\ get_name v n = name /\ n <> DirNode ROOT.
Proof.
  intros [Ht] E. destruct (Ht _ _ _ E) as (Hin & Hn & Hp & _). pose proof (dir_get_in_store _ _ _ _ E) as Hd.
  destruct n as [f | d']; cbn in *.
  - destruct (vfiles v !! f) as [x |]; [| done]. cbn in Hp. rewrite Hp. by rewrite upgrade_in_store.
  - destruct Hin as [Hr _]. rewrite bool_decide_false by done. destruct (vdirs v !! d') as [x |]; [| done].
    cbn in Hp. rewrite Hp, upgrade_in_store by done. split; [done |]. rewrite bool_decide_false in Hn by done.
    split; [done |]. congruence.
Qed.

(** ** Absolute paths *)

Definition normals (names : list str) : list Component := Normal <$> names.

Lemma walk_app v (d : nat) (a b : list Component) :
  b <> [] -> walk v d (a ++ b) = match walk v d a with Some (DirNode d') => walk v d' b | _ => None end.
Proof.
  intros Hb. revert d. induction a as [| c a IH]; intros d; [done |]. cbn [app walk].
  destruct c; [apply IH | apply IH | destruct (get_parent_dir v _); [apply IH | done] |].
  destruct a as [| c' a]; cbn [app].
  - destruct b as [| c b]; [done |]. by destruct (dir_get v d name) as [[] |].
  - destruct (dir_get v d name) as [[f | d'] |]; [done | apply IH | done].
Qed.

Lemma walk_snoc v (d : nat) (names : list str) (name : str) (n : FileOrDir) :
  walk v d (normals (names ++ [name])) = Some n ->
  exists d', walk v d (normals names) = Some (DirNode d') /\ dir_get v d' name = Some n.
Proof.
  unfold normals. rewrite fmap_app, walk_app by done. destruct (walk v d (Normal <$> names)) as [[f | d'] |]; [done | | done].
  cbn. eauto.
Qed.

Lemma from_iter_snoc (l : list str) (x : str) :
  l <> [] -> from_iter (l ++ [x]) = from_iter l ++ SEPARATOR :: x.
Proof.
  induction l as [| y l IH]; [done |]. intros _. destruct l as [| z l]; [done |].
  change (from_iter ((y :: z :: l) ++ [x])) with (y ++ SEPARATOR :: from_iter ((z :: l) ++ [x])).
  rewrite IH by done. change (from_iter (y :: z :: l)) with (y ++ SEPARATOR :: from_iter (z :: l)).
  by rewrite <- app_assoc.
Qed.

(** Names that a path can contain. *)
Definition path_name (name : str) : Prop := printable (Normal name).

Lemma from_iter_ne (names : list str) : names <> [] -> Forall path_name names -> from_iter names <> [].
Proof.
  intros Hne Hp. destruct names as [| x l]; [done |]. apply Forall_cons in Hp as [[Hx _] _].
  destruct x; [done |]. by destruct l.
Qed.

Lemma absolute_path_of v (fuel : nat) (names : list str) (n : FileOrDir) :
  tree_ok v -> Forall path_name names -> walk v ROOT (normals names) = Some n -> (length names < fuel)%nat ->
  get_absolute_path fuel v n = Done (SEPARATOR :: from_iter names).
Proof.
  intros Ht. revert fuel n. induction names as [| name names IH] using rev_ind; intros fuel n Hp Hw Hf.
  - cbn in Hw. simplify_eq. destruct fuel; [lia |]. done.
  - rewrite length_app in Hf. cbn in Hf. destruct fuel as [| fuel]; [lia |].
    apply walk_snoc in Hw as (d & Hd & E). destruct (entry_parent v d name n Ht E) as (Hpar & Hname & Hr).
    apply Forall_app in Hp as [Hp _]. cbn [get_absolute_path]. rewrite bool_decide_false by done. rewrite Hpar.
    rewrite (IH fuel (DirNode d) Hp Hd) by lia. cbn [outcome_bind]. rewrite Hname.
    destruct names as [| x names]; [done |]. rewrite from_iter_snoc by done.
    destruct (str_eqb_spec (SEPARATOR :: from_iter (x :: names)) (lit "/")) as [E' | _].
    + exfalso. apply (from_iter_ne (x :: names)); [done | done |]. exact (f_equal (@tail ascii) E').
    + f_equal. by rewrite <- !app_assoc.
Qed.

Lemma parse_absolute (names : list str) : Forall path_name names -> parse (SEPARATOR :: from_iter names) = RootDir :: normals names.
Proof.
  intros Hp. change (parse (SEPARATOR :: from_iter names)) with (RootDir :: body_comps (from_iter names)). f_equal.
  destruct names as [| x l]; [done |]. unfold body_comps. rewrite fields_from_iter.
  - clear -Hp. induction Hp as [| y l' [Hy _] Hl IH]; [done |]. cbn in *. rewrite Hy. cbn. by rewrite IH.
  - eapply Forall_impl; [exact Hp |]. by intros y [_ Hy].
Qed.

Lemma get_absolute_walk v (names : list str) :
  Forall path_name names -> get_absolute v (SEPARATOR :: from_iter names) = Done (walk v ROOT (normals names)).
Proof.
  intros Hp. unfold get_absolute, path_get. rewrite all_components_ok, parse_absolute by done. done.
Qed.

(** C21: The absolute path of a node leads back to it: in a well-formed tree, for a node that the names lead to from
    the root, [get_absolute_path] returns the names joined with slashes behind the root, within as many steps as there
    are names, and looking up that path yields the node. *)
Theorem absolute_path_roundtrip v (names : list str) (n : FileOrDir) :
  tree_ok v -> Forall path_name names -> walk v ROOT (normals names) = Some n ->
  forall fuel, (length names < fuel)%nat ->
  exists path, get_absolute_path fuel v n = Done path /\ path = SEPARATOR :: from_iter names /\
               get_absolute v path = Done (Some n).
Proof.
  intros Ht Hp Hw fuel Hf. eexists. split; [by apply absolute_path_of |]. split; [done |].
  by rewrite get_absolute_walk, Hw.
Qed.

Lemma path_get_walk v (p : str) (cwd : nat) : path_get v p cwd = Done (walk v cwd (parse p)).
Proof. unfold path_get. rewrite all_components_ok. cbn. by destruct (parse p) as [| [] l]. Qed.

Lemma walk_strip_cur v (d : nat) (l : list Component) : walk v d (strip_cur l) = walk v d l.
Proof. by destruct l as [| []]. Qed.

Lemma absolute_root (q : str) : is_absolute q = true -> exists l, parse q = RootDir :: l.
Proof. intros [k ->]%is_absolute_spec. by eexists. Qed.

(** Looking up a joined path is looking up the second path from the directory that the first one leads to.  Where
    the first leads to a file or to nothing, a relative path with a component of its own leads to nothing from there. *)
Theorem lookup_of_joined_path v (p q : str) (cwd : nat) :
  p <> [] ->
  match path_get v p cwd with
  | Done (Some (DirNode d)) => path_get v (join p q) cwd = path_get v q d
  | Done _ => is_absolute q = false -> strip_cur (parse q) <> [] -> path_get v (join p q) cwd = Done None
  | Panic => False
  end.
Proof.
  intros Hp. rewrite !path_get_walk, join_components by done.
  assert (strip_cur (parse q) <> [] ->
          walk v cwd (parse p ++ strip_cur (parse q)) =
          match walk v cwd (parse p) with Some (DirNode d) => walk v d (parse q) | _ => None end) as Happ.
  { intros Hq. rewrite walk_app by done. destruct (walk v cwd (parse p)) as [[] |]; [done | apply walk_strip_cur | done]. }
  destruct (walk v cwd (parse p)) as [[f | d] |] eqn:Ep; [intros -> Hq; by rewrite Happ | | intros -> Hq; by rewrite Happ].
  rewrite path_get_walk. f_equal. destruct (is_absolute q) eqn:Ha; [by destruct (absolute_root q Ha) as [l ->] |].
  destruct (decide (strip_cur (parse q) = [])) as [E | Hq]; [| by apply Happ].
  by rewrite E, app_nil_r, Ep, <- walk_strip_cur, E.
Qed.

(** ** Insertion and removal *)

(** What replacing the entry [name] of directory [d] by [e], and taking the parent from the node [old], changes. *)
Record entry_set v v' (d : nat) (name : str) (e old : option FileOrDir) : Prop := {
  set_get : forall d' name', dir_get v' d' name' = if decide (d' = d /\ name' = name) then e else dir_get v d' name';
  set_store : forall n, in_store v n -> in_store v' n;
  set_name : forall n, in_store v n -> get_name v' n = get_name v n;
  set_parent : forall n, in_store v n -> node_parent v' n = if decide (Some n = old) then None else node_parent v n;
}.

Lemma detach_ok v (old : option FileOrDir) :
  (forall d name, dir_get (detach v old) d name = dir_get v d name) /\
  (forall n, in_store v n -> in_store (detach v old) n /\ get_name (detach v old) n = get_name v n /\
     node_parent (detach v old) n = if decide (Some n = old) then None else node_parent v n).
Proof.
  destruct old as [[f | d0] |]; cbn.
  - destruct (vfiles v !! f) as [x |] eqn:Ef; split; intros; try done.
    + destruct n as [f' | d']; cbn in *; [| by rewrite decide_False by done].
      destruct (decide (f' = f)) as [-> | Hne].
      * rewrite lookup_insert_eq, Ef. cbn. rewrite f_set_parent_name, f_set_parent_parent, decide_True by done. by split.
      * rewrite lookup_insert_ne by done. rewrite decide_False by congruence. done.
    + rewrite decide_False; [done |]. intros ?. simplify_eq. destruct H as [? H]. cbn in H. congruence.
  - case_bool_decide as Hr; [| destruct (vdirs v !! d0) as [x |] eqn:Ed]; split; intros; try done.
    + rewrite decide_False; [done |]. intros ?. simplify_eq. by destruct H.
    + unfold dir_get, children. cbn. case_bool_decide; [done |].
      destruct (decide (d = d0)) as [-> | ?]; [by rewrite lookup_insert_eq, Ed | by rewrite lookup_insert_ne].
    + destruct n as [f' | d']; cbn in *; [by rewrite decide_False by done |].
      destruct (decide (d' = d0)) as [-> | Hne].
      * rewrite lookup_insert_eq, Ed, decide_True by done. cbn. destruct H. case_bool_decide; [done |]. by split.
      * rewrite lookup_insert_ne by done. rewrite decide_False by congruence. done.
    + rewrite decide_False; [done |]. intros ?. simplify_eq. destruct H as [_ [? H]]. cbn in H. congruence.
  - split; intros; [done |]. by rewrite decide_False by done.
Qed.

(** An update of the prefix index leaves the rest of the directory alone. *)
Definition index_only (g : VFSDirectory -> VFSDirectory) : Prop :=
  forall x, vd_name (g x) = vd_name x /\ vd_parent (g x) = vd_parent x.

Lemma index_insert_only (name : str) : index_only (fun x => index_insert x name).
Proof. intros x. unfold index_insert. by destruct (match sm_get _ _ with Some _ => _ | None => _ end). Qed.

Lemma index_remove_only (name : str) : index_only (fun x => index_remove x name).
Proof. intros x. unfold index_remove. destruct (sm_get _ _); [| done]. by case_match. Qed.

Lemma set_children_ok v (d : nat) (m : smap FileOrDir) (g : VFSDirectory -> VFSDirectory) :
  dir_in_store v d -> index_only g ->
  (forall d' name, dir_get (set_children v d m g) d' name = if decide (d' = d) then sm_get name m else dir_get v d' name) /\
  (forall n, in_store v n -> in_store (set_children v d m g) n /\ get_name (set_children v d m g) n = get_name v n /\
     node_parent (set_children v d m g) n = node_parent v n).
Proof.
  intros Hd Hg. unfold set_children. case_bool_decide as Hr.
  - subst. split; [| by intros]. intros d' name. unfold dir_get, children. cbn. case_decide; case_bool_decide; done.
  - destruct Hd as [? | [x E]]; [done |]. rewrite E. destruct (Hg x) as [Hn Hp]. split.
    + intros d' name. unfold dir_get, children. cbn. case_decide as H.
      * subst. rewrite bool_decide_false by done. by rewrite lookup_insert_eq.
      * case_bool_decide; [done |]. by rewrite lookup_insert_ne.
    + intros [f | d'] Hin; cbn; [done |]. destruct (decide (d' = d)) as [-> | ?].
      * rewrite lookup_insert_eq, E. cbn. rewrite Hn, Hp. by destruct Hin.
      * by rewrite lookup_insert_ne.
Qed.

Lemma entry_set_ok v (d : nat) (name : str) (m : smap FileOrDir) (g : VFSDirectory -> VFSDirectory) (e old : option FileOrDir) :
  dir_in_store v d -> index_only g ->
  (forall name', sm_get name' m = if decide (name' = name) then e else dir_get v d name') ->
  entry_set v (detach (set_children v d m g) old) d name e old.
Proof.
  intros Hd Hg Hm. destruct (set_children_ok v d m g Hd Hg) as [Hget Hnode].
  destruct (detach_ok (set_children v d m g) old) as [Hget' Hnode']. split.
  - intros d' name'. rewrite Hget', Hget. destruct (decide (d' = d)) as [-> | ?]; [| by rewrite decide_False by (by intros []) ].
    rewrite Hm. apply decide_ext. split; [done | by intros []].
  - intros n Hn. by apply Hnode', Hnode.
  - intros n Hn. destruct (Hnode n Hn) as (H1 & H2 & _). destruct (Hnode' n H1) as (_ & H3 & _). congruence.
  - intros n Hn. destruct (Hnode n Hn) as (H1 & _ & H2). destruct (Hnode' n H1) as (_ & _ & ->). by rewrite H2.
Qed.

(** An entry belongs to one directory, under one name. *)
Lemma entry_unique v (d d' : nat) (name name' : str) (n : FileOrDir) :
  tree_ok v -> dir_get v d name = Some n -> dir_get v d' name' = Some n -> d' = d /\ name' = name.
Proof.
  intros [Ht] E E'. destruct (Ht _ _ _ E) as (_ & ? & ? & _), (Ht _ _ _ E') as (_ & ? & ? & _). split; congruence.
Qed.

(** The tree stays well-formed when an entry is replaced by a node that is nowhere else, or by none. *)
Lemma entry_set_tree v v' (d : nat) (name : str) (e : option FileOrDir) :
  tree_ok v -> entry_set v v' d name e (dir_get v d name) ->
  (forall n, e = Some n -> in_store v n /\ get_name v n = name /\ node_parent v n = Some d /\ n <> DirNode d /\
     (forall d' name', dir_get v d' name' <> Some n)) ->
  tree_ok v'.
Proof.
  intros Ht [Hget Hst Hnm Hpar] He. split. intros d' name' n. rewrite Hget. case_decide as Hdn.
  - intros ->. destruct Hdn as [-> ->], (He n eq_refl) as (Hin & Hn & Hp & Hne & Hno).
    rewrite Hnm, Hpar, decide_False by (done || intros Ho; by apply (Hno d name)). auto.
  - intros E. destruct (tree_entry _ Ht _ _ _ E) as (Hin & Hn & Hp & Hne). rewrite Hnm, Hpar by done.
    rewrite decide_False; [auto |]. intros Ho. destruct Hdn. by apply (entry_unique v d d' name name' n).
Qed.

Lemma no_self_entry v (d : nat) (name : str) : tree_ok v -> sm_get name (children v d) <> Some (DirNode d).
Proof. intros Ht E. by destruct (tree_entry _ Ht d name _ E) as (_ & _ & _ & []). Qed.

(** A node that can be inserted into directory [d]: it has [d] as its parent and is not an entry yet. *)
Definition loose v (d : nat) (n : FileOrDir) : Prop :=
  in_store v n /\ node_parent v n = Some d /\ n <> DirNode d /\ forall d' name, dir_get v d' name <> Some n.

Lemma dir_insert_ok v (d : nat) (n : FileOrDir) :
  tree_ok v -> dir_in_store v d -> loose v d n ->
  exists v', dir_insert v d n = Done (dir_get v d (get_name v n), v') /\ tree_ok v' /\
             entry_set v v' d (get_name v n) (Some n) (dir_get v d (get_name v n)).
Proof.
  intros Ht Hd (Hin & Hp & Hne & Hno). unfold dir_insert. rewrite bool_decide_false by done.
  rewrite bool_decide_false by (by apply no_self_entry). eexists. split; [done |].
  match goal with |- tree_ok ?w /\ _ => assert (entry_set v w d (get_name v n) (Some n) (dir_get v d (get_name v n))) as Hset end.
  { apply entry_set_ok; [done | apply index_insert_only |]. intros name'. rewrite sm_get_insert.
    destruct (str_eqb_spec name' (get_name v n)); case_decide; done. }
  split; [| done]. eapply entry_set_tree; [done .. |]. intros n' E. simplify_eq. auto.
Qed.

Lemma dir_remove_ok v (d : nat) (n : FileOrDir) :
  tree_ok v -> dir_in_store v d -> n <> DirNode d ->
  exists v', dir_remove v d n = Done (dir_get v d (get_name v n), v') /\ tree_ok v' /\
             entry_set v v' d (get_name v n) None (dir_get v d (get_name v n)).
Proof.
  intros Ht Hd Hne. unfold dir_remove.
  rewrite (bool_decide_false (n = DirNode d)) by done.
  destruct (bool_decide (d = ROOT) && bool_decide (n = DirNode ROOT)) eqn:Hr.
  { exfalso. apply andb_prop in Hr as [H1%bool_decide_eq_true H2%bool_decide_eq_true]. congruence. }
  clear Hr. rewrite bool_decide_false by (by apply no_self_entry). eexists. split; [done |].
  match goal with |- tree_ok ?w /\ _ => assert (entry_set v w d (get_name v n) None (dir_get v d (get_name v n))) as Hset end.
  { unfold dir_get at 1. destruct (sm_get _ _) as [old |] eqn:Eo;
      (apply entry_set_ok; [done | apply index_remove_only |]); intros name'.
    - rewrite sm_get_remove. destruct (str_eqb_spec name' (get_name v n)); case_decide; done.
    - case_decide as E; [by rewrite E | done]. }
  split; [| done]. eapply entry_set_tree; done.
Qed.

(** Removing a node from a directory takes out the entry of that node's name and no other, keeps the tree
    well-formed, returns the entry, and leaves it without a parent; the lock of the directory itself is the only
    obstacle. *)
Theorem remove_detaches_one_entry v (d : nat) (n : FileOrDir) :
  tree_ok v -> dir_in_store v d -> n <> DirNode d ->
  exists v', dir_remove v d n = Done (dir_get v d (get_name v n), v') /\ tree_ok v' /\
    (forall d' name, dir_get v' d' name = if decide (d' = d /\ name = get_name v n) then None else dir_get v d' name) /\
    forall old, dir_get v d (get_name v n) = Some old -> get_parent_dir v' old = None.
Proof.
  intros Ht Hd Hne. destruct (dir_remove_ok v d n Ht Hd Hne) as (v' & E & Ht' & Hset). exists v'.
  split; [done |]. split; [done |]. split; [apply Hset |]. intros old Ho.
  destruct (tree_entry _ Ht _ _ _ Ho) as (Hin & _ & _ & Hnr). pose proof (set_parent _ _ _ _ _ _ Hset old Hin) as Hp.
  rewrite Ho, decide_True in Hp by done. pose proof (set_store _ _ _ _ _ _ Hset old Hin) as Hin'.
  destruct old as [f | d0]; cbn in *.
  - destruct (vfiles v' !! f); [cbn in Hp; by rewrite Hp | done].
  - destruct Hin' as [Hr [x E']]. rewrite bool_decide_false by done. rewrite E' in *. cbn in Hp. by rewrite Hp.
Qed.

(** The store with a new directory, or a new file. *)
Definition add_dir v (id : nat) (x : VFSDirectory) : Vfs F := mkVfs (root_children v) (<[id := x]> (vdirs v)) (vfiles v).

Definition add_file v (id : nat) (x : F) : Vfs F := mkVfs (root_children v) (vdirs v) (<[id := x]> (vfiles v)).

(** A store that has all nodes of another one, with the same entries. *)
Record store_extends v v' : Prop := {
  ext_get : forall d name, dir_get v' d name = dir_get v d name;
  ext_node : forall n, in_store v n -> in_store v' n /\ get_name v' n = get_name v n /\ node_parent v' n = node_parent v n;
}.

Lemma extends_tree v v' : tree_ok v -> store_extends v v' -> tree_ok v'.
Proof.
  intros [Ht] [Hg Hn]. split. intros d name n. rewrite Hg. intros E. destruct (Ht _ _ _ E) as (Hin & ? & ? & ?).
  destruct (Hn n Hin) as (? & -> & ->). auto.
Qed.

Lemma add_dir_extends v (id : nat) (x : VFSDirectory) : vdirs v !! id = None -> vd_children x = [] -> store_extends v (add_dir v id x).
Proof.
  intros Hid Hx. split.
  - intros d name. unfold dir_get, children. cbn. case_bool_decide; [done |].
    destruct (decide (d = id)) as [-> | ?]; [by rewrite lookup_insert_eq, Hid, Hx | by rewrite lookup_insert_ne].
  - intros [f | d]; cbn; [done |]. intros [? [y E]]. assert (d <> id) by congruence. rewrite lookup_insert_ne by done. eauto.
Qed.

Lemma add_file_extends v (id : nat) (x : F) : vfiles v !! id = None -> store_extends v (add_file v id x).
Proof.
  intros Hid. split; [done |]. intros [f | d]; cbn; [| done]. intros [y E]. assert (f <> id) by congruence.
  rewrite lookup_insert_ne by done. eauto.
Qed.

Lemma not_entry v (n : FileOrDir) : tree_ok v -> ~ in_store v n -> forall d name, dir_get v d name <> Some n.
Proof. intros [Ht] Hn d name E. by destruct (Ht _ _ _ E). Qed.

Lemma create_dir_ok v (id parent : nat) (name : str) :
  tree_ok v -> dir_in_store v parent -> id <> ROOT -> vdirs v !! id = None -> id <> parent ->
  exists v', create_dir v id name parent = Done (id, v') /\ tree_ok v' /\
    forall d' name', dir_get v' d' name' = if decide (d' = parent /\ name' = name) then Some (DirNode id) else dir_get v d' name'.
Proof.
  intros Ht Hpar Hr Hid Hne. unfold create_dir. set (w := mkVfs _ _ _).
  assert (store_extends v w) as Hext by (by apply add_dir_extends).
  destruct (dir_insert_ok w parent (DirNode id)) as (v' & E & Ht' & Hset).
  - by eapply extends_tree.
  - destruct Hpar as [-> | Hp]; [by left | right]. cbn. by rewrite lookup_insert_ne.
  - unfold loose. cbn. rewrite lookup_insert_eq. split_and!; try done; [congruence |].
    intros d' name'. rewrite (ext_get _ _ Hext). apply not_entry; [done |]. cbn. rewrite Hid. intros [_ [? ?]]. done.
  - rewrite E. cbn [outcome_bind]. exists v'. split; [done |]. split; [done |].
    intros d' name'. rewrite (set_get _ _ _ _ _ _ Hset), (ext_get _ _ Hext). cbn.
    by rewrite (bool_decide_false (id = ROOT)), lookup_insert_eq.
Qed.

Lemma create_file_ok v (id parent : nat) (x : F) :
  tree_ok v -> dir_in_store v parent -> f_parent x = Some parent -> vfiles v !! id = None ->
  exists v', create_file v id x parent = Done (id, v') /\ tree_ok v' /\
    forall d' name', dir_get v' d' name' = if decide (d' = parent /\ name' = f_name x) then Some (FileNode id) else dir_get v d' name'.
Proof.
  intros Ht Hpar Hx Hid. unfold create_file. set (w := mkVfs _ _ _).
  assert (store_extends v w) as Hext by (by apply add_file_extends).
  destruct (dir_insert_ok w parent (FileNode id)) as (v' & E & Ht' & Hset).
  - by eapply extends_tree.
  - destruct Hpar as [-> | Hp]; [by left | by right].
  - unfold loose. cbn. rewrite lookup_insert_eq. split_and!; try done.
    intros d' name'. rewrite (ext_get _ _ Hext). apply not_entry; [done |]. cbn. rewrite Hid. intros [? ?]. done.
  - rewrite E. cbn [outcome_bind]. exists v'. split; [done |]. split; [done |].
    intros d' name'. rewrite (set_get _ _ _ _ _ _ Hset), (ext_get _ _ Hext). cbn. by rewrite lookup_insert_eq.
Qed.

(** A new directory or file is found under its name in its parent and in no other place; every other entry stays as
    it was, and the tree stays well-formed. *)
Theorem create_attaches_one_entry v (id parent : nat) (name : str) (x : F) :
  tree_ok v -> dir_in_store v parent -> f_parent x = Some parent ->
  (id <> ROOT -> vdirs v !! id = None -> id <> parent ->
   exists v', create_dir v id name parent = Done (id, v') /\ tree_ok v' /\
     forall d' name', dir_get v' d' name' = if decide (d' = parent /\ name' = name) then Some (DirNode id) else dir_get v d' name') /\
  (vfiles v !! id = None ->
   exists v', create_file v id x parent = Done (id, v') /\ tree_ok v' /\
     forall d' name', dir_get v' d' name' = if decide (d' = parent /\ name' = f_name x) then Some (FileNode id) else dir_get v d' name').
Proof. intros Ht Hpar Hx. split; intros; [by apply create_dir_ok | by apply create_file_ok]. Qed.

Lemma empty_vfs_ok : tree_ok (mkVfs (F := F) [] ∅ ∅).
Proof. split. intros d name n. unfold dir_get, children. cbn. case_bool_decide; done. Qed.

End Tree.

(** ** A small tree *)

(** [/ns/a-1] and [/ns/sub]. *)
Definition demo_tree : outcome (Vfs HeapFile) :=
  let* (_, v) := create_dir (mkVfs [] ∅ ∅) 1 (lit "ns") ROOT in
  let* (_, v) := heapfile_from_vec v 1 [7; 8] (lit "a-1") 1 in
  let* (_, v) := create_dir v 2 (lit "sub") 1 in
  Done v.

Definition demo_vfs : Vfs HeapFile :=
  Eval vm_compute in match demo_tree with Done v => v | Panic => mkVfs [] ∅ ∅ end.

Lemma demo_tree_done : demo_tree = Done demo_vfs.
Proof. vm_compute. reflexivity. Qed.

Lemma demo_tree_ok : tree_ok demo_vfs.
Proof.
  pose proof demo_tree_done as E. unfold demo_tree, heapfile_from_vec in E.
  destruct (create_dir_ok (mkVfs (F := HeapFile) [] ∅ ∅) 1 ROOT (lit "ns")) as (v1 & E1 & H1 & _);
    [apply empty_vfs_ok | by left | done .. |].
  rewrite E1 in E. cbn [outcome_bind] in E. vm_compute in E1. injection E1 as <-.
  match type of E with context [create_file ?v ?i ?x ?p] => destruct (create_file_ok v i p x) as (v2 & E2 & H2 & _) end;
    [done | right; by eexists | done .. |].
  rewrite E2 in E. cbn [outcome_bind] in E. vm_compute in E2. injection E2 as <-.
  match type of E with context [create_dir ?v ?i ?n ?p] => destruct (create_dir_ok v i p n) as (v3 & E3 & H3 & _) end;
    [done | right; by eexists | done .. |].
  rewrite E3 in E. cbn [outcome_bind] in E. by injection E as <-.
Qed.

Lemma absolute_path_roundtrip_witness :
  walk demo_vfs ROOT (normals [lit "ns"; lit "a-1"]) = Some (FileNode 1) /\
  exists path, get_absolute_path 3 demo_vfs (FileNode 1) = Done path /\
    path = SEPARATOR :: from_iter [lit "ns"; lit "a-1"] /\ get_absolute demo_vfs path = Done (Some (FileNode 1)).
Proof.
  split; [vm_compute; reflexivity |].
  apply (absolute_path_roundtrip demo_vfs [lit "ns"; lit "a-1"] (FileNode 1)).
  - apply demo_tree_ok.
  - repeat (apply Forall_cons; split; [split; [done | by apply (bool_decide_unpack (SEPARATOR ∉ _))] |]). by apply Forall_nil.
  - vm_compute. reflexivity.
  - cbn. lia.
Defined.

Lemma lookup_of_joined_path_witness :
  path_get demo_vfs (lit "/ns") ROOT = Done (Some (DirNode 1)) /\
  path_get demo_vfs (join (lit "/ns") (lit "sub/..")) ROOT = path_get demo_vfs (lit "sub/..") 1.
Proof.
  split; [vm_compute; reflexivity |].
  apply (lookup_of_joined_path demo_vfs (lit "/ns") (lit "sub/..") ROOT). done.
Defined.

Lemma remove_detaches_one_entry_witness :
  exists v', dir_remove demo_vfs 1 (FileNode 1) = Done (dir_get demo_vfs 1 (get_name demo_vfs (FileNode 1)), v') /\ tree_ok v' /\
    (forall d' name, dir_get v' d' name =
       if decide (d' = 1%nat /\ name = get_name demo_vfs (FileNode 1)) then None else dir_get demo_vfs d' name) /\
    forall old, dir_get demo_vfs 1 (get_name demo_vfs (FileNode 1)) = Some old -> get_parent_dir v' old = None.
Proof.
  apply (remove_detaches_one_entry demo_vfs 1 (FileNode 1)); [apply demo_tree_ok | right; by eexists | done].
Defined.

Lemma create_attaches_one_entry_witness :
  exists v', create_dir demo_vfs 3 (lit "bin") 1 = Done (3%nat, v') /\ tree_ok v' /\
    forall d' name', dir_get v' d' name' =
      if decide (d' = 1%nat /\ name' = lit "bin") then Some (DirNode 3) else dir_get demo_vfs d' name'.
Proof.
  apply (create_attaches_one_entry demo_vfs 3 1 (lit "bin") (mkHeapFile (lit "f") [] (Some 1%nat)));
    [apply demo_tree_ok | right; by eexists | done ..].
Defined.

(** Inserting a node that is already in the directory takes its parent away: the old entry that is detached is the node
    itself. *)
Example reinsertion_orphans_the_node :
  match dir_insert demo_vfs 1 (FileNode 1) with
  | Done (_, v) => dir_get v 1 (lit "a-1") = Some (FileNode 1) /\ get_parent_dir v (FileNode 1) = None /\
                   get_absolute_path 3 v (FileNode 1) = Done (lit "a-1")
  | Panic => False
  end.
Proof. vm_compute. auto. Qed.
