(* ===== verification/SysTables.v ===== *)
(** * System calls: errors and resource tables

    Models kernel/maios_syscall/src/error.rs (the errors of the native calls and their
    Linux and Windows codes) and kernel/maios_syscall/src/resource.rs (the table of the
    descriptors and handles of a task, and the tables of all tasks). *)

From stdpp Require Import gmap sorting.
From S2P Require Import Prelude PageTable Vfs.

(** ** Signed integers *)

(** [x as i64] and [x as i32], of an integer of any width. *)
Definition as_i64 (x : Z) : Z := (x + 2 ^ 63) mod 2 ^ 64 - 2 ^ 63.

Definition as_i32 (x : Z) : Z := (x + 2 ^ 31) mod 2 ^ 32 - 2 ^ 31.

Lemma as_i64_id (x : Z) : - 2 ^ 63 <= x < 2 ^ 63 -> as_i64 x = x.
Proof. intros. unfold as_i64. rewrite Z.mod_small; lia. Qed.

Lemma as_i32_id (x : Z) : - 2 ^ 31 <= x < 2 ^ 31 -> as_i32 x = x.
Proof. intros. unfold as_i32. rewrite Z.mod_small; lia. Qed.

(** ** Errors *)

Inductive SyscallError : Type :=
| NotImplemented | InvalidArgument | BadFileDescriptor | PermissionDenied | NotFound | OutOfMemory
| IoFailure | NotADirectory | IsADirectory | FileExists | NotExecutable | NoDevice | NotATerminal | Busy
| WouldBlock | Fault | NoSpace | IllegalSeek | Interrupted | ReadOnlyFs | BufferTooSmall | NoChild | NotPermitted.

#[export] Instance SyscallError_eq_dec : EqDecision SyscallError.
Proof. solve_decision. Defined.

Abbreviation SyscallResult := (result Z SyscallError).

Definition to_linux_errno (e : SyscallError) : Z :=
  match e with
  | NotPermitted => -1
  | NotFound => -2
  | Interrupted => -4
  | IoFailure => -5
  | NotExecutable => -8
  | BadFileDescriptor => -9
  | NoChild => -10
  | WouldBlock => -11
  | OutOfMemory => -12
  | PermissionDenied => -13
  | Fault => -14
  | Busy => -16
  | FileExists => -17
  | NoDevice => -19
  | NotADirectory => -20
  | IsADirectory => -21
  | InvalidArgument => -22
  | NotATerminal => -25
  | NoSpace => -28
  | IllegalSeek => -29
  | ReadOnlyFs => -30
  | BufferTooSmall => -34
  | NotImplemented => -38
  end.

(** [u32 as i32 as i64]. *)
Definition nt (code : Z) : Z := as_i64 (as_i32 code).

Definition to_ntstatus (e : SyscallError) : Z :=
  match e with
  | NotImplemented => nt 0xC0000002
  | Fault => nt 0xC0000005
  | BadFileDescriptor => nt 0xC0000008
  | InvalidArgument => nt 0xC000000D
  | OutOfMemory => nt 0xC0000017
  | PermissionDenied => nt 0xC0000022
  | BufferTooSmall => nt 0xC0000023
  | NotFound => nt 0xC0000034
  | FileExists => nt 0xC0000035
  | IoFailure => nt 0xC0000185
  | NotExecutable => nt 0xC0000005
  | Busy => nt 0xC0000024
  | WouldBlock => nt 0x00000103
  | NoSpace => nt 0xC000007F
  | ReadOnlyFs => nt 0xC00000A2
  | _ => nt 0xC0000002
  end.

Definition result_to_linux (r : SyscallResult) : Z :=
  match r with
  | Ok v => as_i64 v
  | Err e => to_linux_errno e
  end.

Definition result_to_ntstatus (r : SyscallResult) : Z :=
  match r with
  | Ok _ => 0
  | Err e => to_ntstatus e
  end.

(** ** Resource tables *)

Inductive Resource : Type :=
| Stdin
| Stdout
| Stderr
| RFile (file : nat) (offset : Z)
| RMemory (pages : MappedPages) (base size : Z).

Record ResourceTable := mkTable {
  resources : gmap Z Resource;
  next_fd : Z;
  next_handle : Z;
}.

Definition table_new : ResourceTable :=
  mkTable (<[0x0B := Stderr]> (<[0x07 := Stdout]> (<[0x03 := Stdin]>
           (<[2 := Stderr]> (<[1 := Stdout]> (<[0 := Stdin]> ∅)))))) 3 0x100.

(** The operations that insert an entry also return the one it replaces, which is
    dropped. *)
Definition alloc_fd (t : ResourceTable) (r : Resource) : Z * option Resource * ResourceTable :=
  (next_fd t, resources t !! next_fd t, mkTable (<[next_fd t := r]> (resources t)) (wrap64 (next_fd t + 1)) (next_handle t)).

Definition alloc_handle (t : ResourceTable) (r : Resource) : Z * option Resource * ResourceTable :=
  (next_handle t, resources t !! next_handle t, mkTable (<[next_handle t := r]> (resources t)) (next_fd t) (wrap64 (next_handle t + 4))).

Definition is_stdio (handle : Z) : bool :=
  (handle =? 0) || (handle =? 1) || (handle =? 2) || (handle =? 0x03) || (handle =? 0x07) || (handle =? 0x0B).

Definition table_close (t : ResourceTable) (handle : Z) : option Resource * ResourceTable :=
  if is_stdio handle then (None, t)
  else (resources t !! handle, mkTable (delete handle (resources t)) (next_fd t) (next_handle t)).

Definition table_get (t : ResourceTable) (handle : Z) : option Resource := resources t !! handle.

(** [get_mut], used to change a resource that is there. *)
Definition table_set (t : ResourceTable) (handle : Z) (r : Resource) : ResourceTable :=
  mkTable (<[handle := r]> (resources t)) (next_fd t) (next_handle t).

(** The resource to insert for a duplicate. *)
Definition duplicate (r : Resource) : option Resource :=
  match r with
  | Stdin => Some Stdin
  | Stdout => Some Stdout
  | Stderr => Some Stderr
  | RFile file offset => Some (RFile file offset)
  | RMemory _ _ _ => None
  end.

Definition dup (t : ResourceTable) (src_handle : Z) : option Z * option Resource * ResourceTable :=
  match resources t !! src_handle ≫= duplicate with
  | Some r => let '(fd, old, t) := alloc_fd t r in (Some fd, old, t)
  | None => (None, None, t)
  end.

Definition dup2 (t : ResourceTable) (src_handle target_fd : Z) : option Z * option Resource * ResourceTable :=
  if src_handle =? target_fd then
    (if bool_decide (is_Some (resources t !! src_handle)) then Some target_fd else None, None, t)
  else
    match resources t !! src_handle ≫= duplicate with
    | Some r =>
        let m := if is_stdio target_fd then resources t else delete target_fd (resources t) in
        (Some target_fd, resources t !! target_fd, mkTable (<[target_fd := r]> m) (next_fd t) (next_handle t))
    | None => (None, None, t)
    end.

(** The entries in ascending order of their handles. *)
Definition handles (t : ResourceTable) : list Z := merge_sort Z.le (elements (dom (resources t))).

Definition find_handle (t : ResourceTable) (predicate : Resource -> bool) : option Z :=
  List.find (fun h => match resources t !! h with Some r => predicate r | None => false end) (handles t).

(** ** The tables of all tasks

    A table is created on the first access. *)

Abbreviation Tables := (gmap nat ResourceTable).

Definition task_table (m : Tables) (task_id : nat) : ResourceTable :=
  match m !! task_id with Some t => t | None => table_new end.

Definition with_resources_mut {R} (m : Tables) (task_id : nat) (f : ResourceTable -> R * ResourceTable) : R * Tables :=
  let '(r, t) := f (task_table m task_id) in (r, <[task_id := t]> m).

Definition with_resources {R} (m : Tables) (task_id : nat) (f : ResourceTable -> R) : R * Tables :=
  (f (task_table m task_id), <[task_id := task_table m task_id]> m).

Definition remove_resources (m : Tables) (task_id : nat) : Tables := delete task_id m.
