(* ===== verification/SysState.v ===== *)
(** * System calls: the state they act on

    The virtual file system, the resource tables, the memory, the streams of the tasks and
    the current task, with the accesses to memory that the handlers make through raw
    pointers.  There is one address space: a pointer that user code passes is an address of
    the kernel's memory.

    The streams behind [app_io] are trait objects and enter as the class [AppIo]; files are
    any type with the I/O traits that [HeapFile] can be made into; the processor's clock,
    its model-specific registers and what runs while a task has given up the processor are
    the class [Machine]. *)

From stdpp Require Import gmap.
From S2P Require Import Prelude PteFlags PageTable Paths Io IoSpec Files Vfs SysTables.

(** ** Strings *)

Definition is_continuation (b : Z) : bool := (0x80 <=? b) && (b <=? 0xBF).

(** [core::str::from_utf8] succeeds. *)
Fixpoint utf8_valid (l : list Z) : bool :=
  match l with
  | [] => true
  | b :: l1 =>
      if b <? 0x80 then utf8_valid l1
      else if (0xC2 <=? b) && (b <=? 0xDF) then
        match l1 with c1 :: l2 => is_continuation c1 && utf8_valid l2 | _ => false end
      else if (0xE0 <=? b) && (b <=? 0xEF) then
        match l1 with
        | c1 :: c2 :: l3 =>
            is_continuation c1 && is_continuation c2 &&
            negb ((b =? 0xE0) && (c1 <? 0xA0)) && negb ((b =? 0xED) && (0x9F <? c1)) && utf8_valid l3
        | _ => false
        end
      else if (0xF0 <=? b) && (b <=? 0xF4) then
        match l1 with
        | c1 :: c2 :: c3 :: l4 =>
            is_continuation c1 && is_continuation c2 && is_continuation c3 &&
            negb ((b =? 0xF0) && (c1 <? 0x90)) && negb ((b =? 0xF4) && (0x8F <? c1)) && utf8_valid l4
        | _ => false
        end
      else false
  end.

Definition str_of_bytes (l : list Z) : str := (fun b => ascii_of_N (Z.to_N b)) <$> l.

Definition bytes_of_str (s : str) : list Z := (fun c => Z.of_N (N_of_ascii c)) <$> s.

(** ** Interfaces *)

(** The standard streams of a task, if it has them; a read returns the buffer it filled. *)
Class AppIo (A : Type) := {
  stdin : A -> nat -> bool;
  stdin_read : A -> nat -> list Z -> option Z * list Z * A;
  stdout : A -> nat -> bool;
  stdout_write : A -> nat -> list Z -> option Z * A;
  stderr : A -> nat -> bool;
  stderr_write : A -> nat -> list Z -> option Z * A;
}.

(** Files that [HeapFile] is one kind of. *)
Class HeapFiles (F : Type) := { heap_file : HeapFile -> F }.

#[export] Instance heap_files : HeapFiles HeapFile := {| heap_file := fun f => f |}.

(** Dropping a [MappedPages] unmaps it. *)
Class DropPages (W : Type) := { km_unmap : W -> MappedPages -> W }.

(** ** The state *)

Record BrkState := mkBrk { current_brk : Z; initial_brk : Z }.

Record Sys (F A W : Type) := mkSys {
  s_vfs : Vfs F;
  s_tables : Tables;
  s_mem : W;
  s_io : A;
  s_task : nat;
  s_cwd : option nat;
  mmap_regions : gmap Z MappedPages;
  brk_state : BrkState;
  brk_pages : list MappedPages;
  boot_epoch : option Z;
}.
Arguments mkSys {F A W}.
Arguments s_vfs {F A W}.
Arguments s_tables {F A W}.
Arguments s_mem {F A W}.
Arguments s_io {F A W}.
Arguments s_task {F A W}.
Arguments s_cwd {F A W}.
Arguments mmap_regions {F A W}.
Arguments brk_state {F A W}.
Arguments brk_pages {F A W}.
Arguments boot_epoch {F A W}.

Section State.
Context {F A W : Type} {file : FsFile F} {io : ByteIO F} {heap : HeapFiles F} {streams : AppIo A} {km : KernelMemory W}
  {drop : DropPages W}.

Implicit Types s : Sys F A W.

Definition set_vfs s (v : Vfs F) : Sys F A W :=
  mkSys v (s_tables s) (s_mem s) (s_io s) (s_task s) (s_cwd s) (mmap_regions s) (brk_state s) (brk_pages s)
    (boot_epoch s).

Definition set_tables s (t : Tables) : Sys F A W :=
  mkSys (s_vfs s) t (s_mem s) (s_io s) (s_task s) (s_cwd s) (mmap_regions s) (brk_state s) (brk_pages s)
    (boot_epoch s).

Definition set_mem s (w : W) : Sys F A W :=
  mkSys (s_vfs s) (s_tables s) w (s_io s) (s_task s) (s_cwd s) (mmap_regions s) (brk_state s) (brk_pages s)
    (boot_epoch s).

Definition set_io s (a : A) : Sys F A W :=
  mkSys (s_vfs s) (s_tables s) (s_mem s) a (s_task s) (s_cwd s) (mmap_regions s) (brk_state s) (brk_pages s)
    (boot_epoch s).

Definition set_regions s (m : gmap Z MappedPages) : Sys F A W :=
  mkSys (s_vfs s) (s_tables s) (s_mem s) (s_io s) (s_task s) (s_cwd s) m (brk_state s) (brk_pages s)
    (boot_epoch s).

Definition set_brk s (b : BrkState) (l : list MappedPages) : Sys F A W :=
  mkSys (s_vfs s) (s_tables s) (s_mem s) (s_io s) (s_task s) (s_cwd s) (mmap_regions s) b l
    (boot_epoch s).

Definition set_boot_epoch s (secs : Z) : Sys F A W :=
  mkSys (s_vfs s) (s_tables s) (s_mem s) (s_io s) (s_task s) (s_cwd s) (mmap_regions s) (brk_state s) (brk_pages s)
    (Some secs).

(** The table of the current task. *)
Definition my_table s : ResourceTable := task_table (s_tables s) (s_task s).

Definition set_my_table s (t : ResourceTable) : Sys F A W := set_tables s (<[s_task s := t]> (s_tables s)).

(** Dropping a resource: that of a mapping unmaps it. *)
Definition drop_resource s (o : option Resource) : Sys F A W :=
  match o with
  | Some (RMemory pages _ _) => set_mem s (km_unmap (s_mem s) pages)
  | _ => s
  end.

(** The memory at a raw pointer. *)
Definition load s (addr len : Z) : list Z := seg (km_bytes (s_mem s)) addr len.

Definition store s (addr : Z) (l : list Z) : Sys F A W := set_mem s (km_store (s_mem s) addr l).

Definition load_u64 s (addr : Z) : Z := le_value (load s addr 8).

(** [file_of]: a [FileRef] always points to a file. *)
Definition set_file s (f : nat) (x : F) : Sys F A W :=
  set_vfs s (mkVfs (root_children (s_vfs s)) (vdirs (s_vfs s)) (<[f := x]> (vfiles (s_vfs s)))).

Definition file_of s (f : nat) : outcome F := expect (vfiles (s_vfs s) !! f).

(** A file identity that is not in use. *)
Definition new_file_id s : nat := S (foldr Nat.max O (map fst (map_to_list (vfiles (s_vfs s))))).

(** [vec![0u8; count]]: a capacity of more than [isize::MAX] bytes panics. *)
Definition zeroed (count : Z) : outcome (list Z) :=
  if ISIZE_MAX <? count then Panic else Done (replicate (Z.to_nat count) 0).

(** [read_c_string]: the bytes before the first zero, fewer than 4096 and at least one. *)
Fixpoint c_len (fuel : nat) s (p : Z) : nat :=
  match fuel with
  | O => O
  | S fuel => if km_bytes (s_mem s) p =? 0 then O else S (c_len fuel s (p + 1))
  end.

Definition read_c_string s (ptr : Z) : option str :=
  if ptr =? 0 then None
  else
    let len := Z.of_nat (c_len 4096 s ptr) in
    if (len =? 0) || (4096 <=? len) then None
    else
      let slice := load s ptr len in
      if utf8_valid slice then Some (str_of_bytes slice) else None.

End State.

(** The processor and the rest of the system, as seen by one handler: the clock, read in a state ([Instant::now] in ticks
    of [period] femtoseconds, and the time-stamp counter), the real-time clock, the model-specific registers, killing
    the current task, what happens while the task has yielded the processor, and the address at which the heap places a
    vector of some length. *)
Record RtcTime := mkRtc { rtc_years : Z; rtc_months : Z; rtc_days : Z; rtc_hours : Z; rtc_minutes : Z; rtc_seconds : Z }.

Class Machine (F A W : Type) := {
  instant_now : Sys F A W -> Z;
  period : Z;
  rdtsc : Sys F A W -> Z;
  read_rtc : Sys F A W -> RtcTime;
  rdmsr : Sys F A W -> Z -> Z;
  wrmsr : Sys F A W -> Z -> Z -> Sys F A W;
  has_current_task : Sys F A W -> bool;
  kill_current : Sys F A W -> Sys F A W;
  schedule : Sys F A W -> Sys F A W;
  vec_addr : Sys F A W -> Z -> Z;
}.

(** The loaders of executables: whether a file is a valid ELF image, and starting a task for an ELF or a PE image. *)
Class Loader (F A W : Type) := {
  elf_header_ok : list Z -> bool;
  spawn_elf : Sys F A W -> list Z -> str -> option (Sys F A W);
  spawn_pe : Sys F A W -> list Z -> str -> option (Sys F A W);
}.

(** What handlers return. *)
Abbreviation handled F A W := (outcome (SyscallResult * Sys F A W)).
