(* ===== verification/SysFileIo.v ===== *)
(** * System calls on files

    Models kernel/maios_syscall/src/file_io.rs.  Handlers take the arguments they use.  Heap
    allocation does not fail. *)

From stdpp Require Import gmap.
From S2P Require Import Prelude PteFlags PageTable Paths Io IoSpec Files Vfs SysTables SysState.

Section FileIo.
Context {F A W : Type} {file : FsFile F} {io : ByteIO F} {heap : HeapFiles F} {streams : AppIo A} {km : KernelMemory W}
  {drop : DropPages W}.

Implicit Types s : Sys F A W.

(** ** struct stat *)

(** The 144 bytes of [LinuxStat]. *)
Definition stat_bytes (mode rdev size blksize blocks : Z) : list Z :=
  le_bytes 8 1 ++ le_bytes 8 1 ++ le_bytes 8 1 ++ le_bytes 4 mode ++ le_bytes 4 0 ++ le_bytes 4 0 ++ le_bytes 4 0 ++
  le_bytes 8 rdev ++ le_bytes 8 size ++ le_bytes 8 blksize ++ le_bytes 8 blocks ++ replicate 72 0.

Definition fill_stat_buf s (stat_ptr size : Z) (is_dir : bool) : Sys F A W :=
  let mode := if is_dir then 0x41ED else 0x81A4 in
  store s stat_ptr (stat_bytes mode 0 size 4096 (wrap64 (size + 511) / 512)).

Definition fill_stat_buf_chardev s (stat_ptr : Z) : Sys F A W :=
  store s stat_ptr (stat_bytes 0x21B6 0x0501 0 1024 0).

(** ** Reading and writing *)

Inductive ReadTarget : Type := ReadStdin | ReadFile | ReadBadFd.

Definition read_target (t : ResourceTable) (fd : Z) : ReadTarget :=
  match table_get t fd with
  | Some Stdin => ReadStdin
  | Some (RFile _ _) => ReadFile
  | _ => ReadBadFd
  end.

Definition sys_read s (fd buf_ptr count : Z) : handled F A W :=
  if (buf_ptr =? 0) || (count =? 0) then Done (if count =? 0 then Ok 0 else Err Fault, s)
  else
    let tid := s_task s in
    let t := my_table s in
    let s := set_my_table s t in
    match read_target t fd with
    | ReadStdin =>
        if stdin (s_io s) tid then
          let '(n, buf, a) := stdin_read (s_io s) tid (load s buf_ptr count) in
          let s := store (set_io s a) buf_ptr buf in
          Done (match n with Some n => Ok n | None => Err WouldBlock end, s)
        else Done (Err WouldBlock, s)
    | ReadFile =>
        match table_get t fd with
        | Some (RFile f offset) =>
            let* buf := zeroed count in
            let* x := file_of s f in
            let* (r, buf, x) := read_at x buf offset in
            let s := set_file s f x in
            match r with
            | Ok bytes_read =>
                let s := store s buf_ptr (take (Z.to_nat bytes_read) buf) in
                Done (Ok bytes_read, set_my_table s (table_set t fd (RFile f (wrap64 (offset + bytes_read)))))
            | Err _ => Done (Err IoFailure, s)
            end
        | _ => Done (Err BadFileDescriptor, s)
        end
    | ReadBadFd => Done (Err BadFileDescriptor, s)
    end.

Inductive WriteTarget : Type := WriteStdout | WriteStderr | WriteBadFd | WriteFile | WriteOther.

Definition write_target (t : ResourceTable) (fd : Z) : WriteTarget :=
  match table_get t fd with
  | Some Stdout => WriteStdout
  | Some Stderr => WriteStderr
  | Some Stdin => WriteBadFd
  | Some (RFile _ _) => WriteFile
  | Some (RMemory _ _ _) => WriteOther
  | None => WriteBadFd
  end.

(** A stream that is missing or fails is made up for by the log. *)
Definition write_stream s (present : bool) (write : option Z * A) (count : Z) : handled F A W :=
  if present then
    let '(n, a) := write in
    Done (Ok (match n with Some n => n | None => count end), set_io s a)
  else Done (Ok count, s).

Definition sys_write s (fd buf_ptr count : Z) : handled F A W :=
  if (buf_ptr =? 0) && (0 <? count) then Done (Err Fault, s)
  else if count =? 0 then Done (Ok 0, s)
  else
    let tid := s_task s in
    let slice := load s buf_ptr count in
    let t := my_table s in
    let s := set_my_table s t in
    match write_target t fd with
    | WriteStdout => write_stream s (stdout (s_io s) tid) (stdout_write (s_io s) tid slice) count
    | WriteStderr => write_stream s (stderr (s_io s) tid) (stderr_write (s_io s) tid slice) count
    | WriteFile =>
        match table_get t fd with
        | Some (RFile f offset) =>
            let* x := file_of s f in
            let* (r, x) := write_at x slice offset in
            let s := set_file s f x in
            match r with
            | Ok bytes_written =>
                Done (Ok bytes_written, set_my_table s (table_set t fd (RFile f (wrap64 (offset + bytes_written)))))
            | Err _ => Done (Err IoFailure, s)
            end
        | _ => Done (Err BadFileDescriptor, s)
        end
    | WriteBadFd | WriteOther => Done (Err BadFileDescriptor, s)
    end.

(** ** Opening *)

Definition O_WRONLY : Z := 0x0001.
Definition O_RDWR : Z := 0x0002.
Definition O_CREAT : Z := 0x0040.
Definition O_EXCL : Z := 0x0080.
Definition O_TRUNC : Z := 0x0200.
Definition O_APPEND : Z := 0x0400.

Definition has_flag (flags f : Z) : bool := negb (Z.land flags f =? 0).

Definition resolve_parent_and_name s (path_str : str) : outcome (result (nat * str) SyscallError) :=
  match rsplit_once SEPARATOR path_str with
  | Some (before, filename) =>
      let parent_path := if str_is_empty before then lit "/" else before in
      if str_is_empty filename then Done (Err InvalidArgument)
      else
        let* o := path_get (s_vfs s) parent_path ROOT in
        Done (match o with Some (DirNode d) => Ok (d, filename) | _ => Err NotFound end)
  | None => Done (match s_cwd s with Some cwd => Ok (cwd, path_str) | None => Err NotFound end)
  end.

(** The file that [sys_open] opens. *)
Definition open_file s (path_str : str) (flags : Z) : outcome (result nat SyscallError * Sys F A W) :=
  let* existing := path_get (s_vfs s) path_str ROOT in
  match existing with
  | Some (FileNode f) =>
      if has_flag flags O_CREAT && has_flag flags O_EXCL then Done (Err FileExists, s)
      else if has_flag flags O_TRUNC then
        let* x := file_of s f in
        let* (_, x) := write_at x [] 0 in
        Done (Ok f, set_file s f x)
      else Done (Ok f, s)
  | Some (DirNode _) => Done (Err IsADirectory, s)
  | None =>
      if negb (has_flag flags O_CREAT) then Done (Err NotFound, s)
      else
        let* parent_name := resolve_parent_and_name s path_str in
        match parent_name with
        | Err e => Done (Err e, s)
        | Ok (parent_dir, filename) =>
            let* (f, v) := create_file (s_vfs s) (new_file_id s) (heap_file (mkHeapFile filename [] (Some parent_dir)))
                             parent_dir in
            Done (Ok f, set_vfs s v)
        end
  end.

Definition sys_open s (path_ptr flags : Z) : handled F A W :=
  match read_c_string s path_ptr with
  | None => Done (Err Fault, s)
  | Some path_str =>
      let* (r, s) := open_file s path_str flags in
      match r with
      | Err e => Done (Err e, s)
      | Ok f =>
          let* x := file_of s f in
          let offset := if has_flag flags O_APPEND then byte_len x else 0 in
          let '(fd, old, t) := alloc_fd (my_table s) (RFile f offset) in
          Done (Ok fd, drop_resource (set_my_table s t) old)
      end
  end.

Definition sys_openat s (dirfd path_ptr flags : Z) : handled F A W := sys_open s path_ptr flags.

Definition sys_close s (handle : Z) : handled F A W :=
  if is_stdio handle then Done (Ok 0, s)
  else
    let '(closed, m) := with_resources_mut (s_tables s) (s_task s) (fun t => table_close t handle) in
    Done (match closed with Some _ => Ok 0 | None => Err BadFileDescriptor end, drop_resource (set_tables s m) closed).

(** ** Status and position *)

Definition sys_stat s (path_ptr stat_buf : Z) : handled F A W :=
  if stat_buf =? 0 then Done (Err Fault, s)
  else
    match read_c_string s path_ptr with
    | None => Done (Err Fault, s)
    | Some path_str =>
        let* o := path_get (s_vfs s) path_str ROOT in
        match o with
        | Some (FileNode f) => let* x := file_of s f in Done (Ok 0, fill_stat_buf s stat_buf (byte_len x) false)
        | Some (DirNode _) => Done (Ok 0, fill_stat_buf s stat_buf 0 true)
        | None => Done (Err NotFound, s)
        end
    end.

Definition sys_fstat s (fd stat_buf : Z) : handled F A W :=
  if stat_buf =? 0 then Done (Err Fault, s)
  else
    let t := my_table s in
    let s := set_my_table s t in
    match table_get t fd with
    | None => Done (Err BadFileDescriptor, s)
    | Some (Stdin | Stdout | Stderr) => Done (Ok 0, fill_stat_buf_chardev s stat_buf)
    | Some (RFile f _) => let* x := file_of s f in Done (Ok 0, fill_stat_buf s stat_buf (byte_len x) false)
    | Some (RMemory _ _ _) => Done (Err BadFileDescriptor, s)
    end.

Definition SEEK_SET : Z := 0.
Definition SEEK_CUR : Z := 1.
Definition SEEK_END : Z := 2.

Definition sys_lseek s (fd offset whence : Z) : handled F A W :=
  let offset := as_i64 offset in
  let whence := as_i32 whence in
  let t := my_table s in
  let s := set_my_table s t in
  match table_get t fd with
  | None => Done (Err BadFileDescriptor, s)
  | Some (RFile f cur_off) =>
      let* x := file_of s f in
      let file_len := as_i64 (byte_len x) in
      let target := if whence =? SEEK_SET then Some offset
                    else if whence =? SEEK_CUR then Some (as_i64 (as_i64 cur_off + offset))
                    else if whence =? SEEK_END then Some (as_i64 (file_len + offset))
                    else None in
      match target with
      | None => Done (Err InvalidArgument, s)
      | Some new_offset =>
          if new_offset <? 0 then Done (Err InvalidArgument, s)
          else Done (Ok new_offset, set_my_table s (table_set t fd (RFile f new_offset)))
      end
  | Some _ => Done (Err IllegalSeek, s)
  end.

Definition TIOCGWINSZ : Z := 0x5413.

Definition sys_ioctl s (fd request arg : Z) : handled F A W :=
  if (request =? TIOCGWINSZ) && negb (arg =? 0) then
    Done (Ok 0, store s arg (le_bytes 2 25 ++ le_bytes 2 80 ++ le_bytes 2 0 ++ le_bytes 2 0))
  else Done (Err NotATerminal, s).

(** ** Duplicates *)

Definition dup_result (o : option Z) : SyscallResult :=
  match o with Some fd => Ok fd | None => Err BadFileDescriptor end.

Definition sys_dup s (fd : Z) : handled F A W :=
  let '(o, old, m) := with_resources_mut (s_tables s) (s_task s) (fun t => dup t fd) in
  Done (dup_result o, drop_resource (set_tables s m) old).

Definition sys_dup2 s (oldfd newfd : Z) : handled F A W :=
  let '(o, old, m) := with_resources_mut (s_tables s) (s_task s) (fun t => dup2 t oldfd newfd) in
  Done (dup_result o, drop_resource (set_tables s m) old).

Definition sys_dup3 s (oldfd newfd flags : Z) : handled F A W :=
  if oldfd =? newfd then Done (Err InvalidArgument, s) else sys_dup2 s oldfd newfd.

Definition sys_pipe s (pipefd_ptr : Z) : handled F A W :=
  Done (if pipefd_ptr =? 0 then Err Fault else Err NotImplemented, s).

Definition sys_pipe2 s (pipefd_ptr flags : Z) : handled F A W := sys_pipe s pipefd_ptr.

(** The descriptor is open: [v]. *)
Definition if_open s (fd v : Z) : handled F A W :=
  let '(r, m) := with_resources (s_tables s) (s_task s)
                   (fun t => if bool_decide (is_Some (table_get t fd)) then Ok v else Err BadFileDescriptor) in
  Done (r, set_tables s m).

Definition sys_fcntl s (fd cmd arg : Z) : handled F A W :=
  if (cmd =? 0) || (cmd =? 1030) then sys_dup s fd
  else if cmd =? 1 then if_open s fd 0
  else if cmd =? 2 then if_open s fd 0
  else if cmd =? 3 then if_open s fd 2
  else if cmd =? 4 then if_open s fd 0
  else Done (Err InvalidArgument, s).

(** ** Several buffers *)

(** The loop of [sys_writev] over the [n] vectors at [iov]. *)
Fixpoint writev_loop (n : nat) s (fd iov total : Z) : handled F A W :=
  match n with
  | O => Done (Ok total, s)
  | S n =>
      let iov_base := load_u64 s iov in
      let iov_len := load_u64 s (iov + 8) in
      if iov_len =? 0 then writev_loop n s fd (iov + 16) total
      else if iov_base =? 0 then Done (Err Fault, s)
      else
        let* (r, s) := sys_write s fd iov_base iov_len in
        match r with
        | Ok k => writev_loop n s fd (iov + 16) (wrap64 (total + k))
        | Err e => Done (if 0 <? total then Ok total else Err e, s)
        end
  end.

Definition sys_writev s (fd iov_ptr iovcnt : Z) : handled F A W :=
  if (iov_ptr =? 0) || (iovcnt =? 0) then Done (if iovcnt =? 0 then Ok 0 else Err Fault, s)
  else if 1024 <? iovcnt then Done (Err InvalidArgument, s)
  else writev_loop (Z.to_nat iovcnt) s fd iov_ptr 0.

Fixpoint readv_loop (n : nat) s (fd iov total : Z) : handled F A W :=
  match n with
  | O => Done (Ok total, s)
  | S n =>
      let iov_base := load_u64 s iov in
      let iov_len := load_u64 s (iov + 8) in
      if iov_len =? 0 then readv_loop n s fd (iov + 16) total
      else if iov_base =? 0 then Done (Err Fault, s)
      else
        let* (r, s) := sys_read s fd iov_base iov_len in
        match r with
        | Ok k =>
            if k =? 0 then Done (Ok total, s)
            else
              let total := wrap64 (total + k) in
              if k <? iov_len then Done (Ok total, s) else readv_loop n s fd (iov + 16) total
        | Err e => Done (if 0 <? total then Ok total else Err e, s)
        end
  end.

Definition sys_readv s (fd iov_ptr iovcnt : Z) : handled F A W :=
  if (iov_ptr =? 0) || (iovcnt =? 0) then Done (if iovcnt =? 0 then Ok 0 else Err Fault, s)
  else if 1024 <? iovcnt then Done (Err InvalidArgument, s)
  else readv_loop (Z.to_nat iovcnt) s fd iov_ptr 0.

(** ** At a position *)

Definition sys_pread64 s (fd buf_ptr count offset : Z) : handled F A W :=
  if (buf_ptr =? 0) || (count =? 0) then Done (if count =? 0 then Ok 0 else Err Fault, s)
  else
    let t := my_table s in
    let s := set_my_table s t in
    match table_get t fd with
    | Some (RFile f _) =>
        let* buf := zeroed count in
        let* x := file_of s f in
        let* (r, buf, x) := read_at x buf offset in
        let s := set_file s f x in
        match r with
        | Ok n => Done (Ok n, store s buf_ptr (take (Z.to_nat n) buf))
        | Err _ => Done (Err IoFailure, s)
        end
    | Some _ => Done (Err IllegalSeek, s)
    | None => Done (Err BadFileDescriptor, s)
    end.

Definition sys_pwrite64 s (fd buf_ptr count offset : Z) : handled F A W :=
  if (buf_ptr =? 0) || (count =? 0) then Done (if count =? 0 then Ok 0 else Err Fault, s)
  else
    let slice := load s buf_ptr count in
    let t := my_table s in
    let s := set_my_table s t in
    match table_get t fd with
    | Some (RFile f _) =>
        let* x := file_of s f in
        let* (r, x) := write_at x slice offset in
        let s := set_file s f x in
        match r with
        | Ok n => Done (Ok n, s)
        | Err _ => Done (Err IoFailure, s)
        end
    | Some _ => Done (Err IllegalSeek, s)
    | None => Done (Err BadFileDescriptor, s)
    end.

(** ** Paths *)

Definition sys_access s (path_ptr mode : Z) : handled F A W :=
  match read_c_string s path_ptr with
  | None => Done (Err Fault, s)
  | Some path_str =>
      let* o := path_get (s_vfs s) path_str ROOT in
      Done (match o with Some _ => Ok 0 | None => Err NotFound end, s)
  end.

Definition sys_faccessat s (dirfd path_ptr mode : Z) : handled F A W := sys_access s path_ptr mode.

Definition sys_getcwd s (buf_ptr size : Z) : handled F A W :=
  if buf_ptr =? 0 then Done (Err Fault, s)
  else if size <? 2 then Done (Err BufferTooSmall, s)
  else Done (Ok buf_ptr, store s buf_ptr [0x2F; 0]).

Definition sys_getdents64 s (fd buf_ptr buf_size : Z) : handled F A W :=
  Done (if (buf_ptr =? 0) || (buf_size =? 0) then Err Fault else Err NotImplemented, s).

Definition sys_chdir s (path_ptr : Z) : handled F A W :=
  match read_c_string s path_ptr with
  | None => Done (Err Fault, s)
  | Some path_str =>
      let* o := path_get (s_vfs s) path_str ROOT in
      Done (match o with
            | Some (DirNode _) => Ok 0
            | Some (FileNode _) => Err NotADirectory
            | None => Err NotFound
            end, s)
  end.

Definition sys_mkdir s : handled F A W := Done (Err ReadOnlyFs, s).

Definition sys_unlink s : handled F A W := Done (Err ReadOnlyFs, s).

Definition sys_readlink s (path_ptr buf_ptr buf_size : Z) : handled F A W :=
  if (buf_ptr =? 0) || (buf_size =? 0) then Done (Err Fault, s)
  else
    match read_c_string s path_ptr with
    | None => Done (Err Fault, s)
    | Some path_str =>
        if str_eqb path_str (lit "/proc/self/exe") then
          let exe := bytes_of_str (lit "/app") in
          let len := Z.min (Z.of_nat (length exe)) buf_size in
          Done (Ok len, store s buf_ptr (take (Z.to_nat len) exe))
        else Done (Err InvalidArgument, s)
    end.

Definition sys_newfstatat s (dirfd path_ptr stat_buf : Z) : handled F A W :=
  match read_c_string s path_ptr with
  | None => Done (Err Fault, s)
  | Some path_str => if str_is_empty path_str then sys_fstat s dirfd stat_buf else sys_stat s path_ptr stat_buf
  end.

Definition sys_ftruncate s : handled F A W := Done (Err NotImplemented, s).

Definition sys_rename s : handled F A W := Done (Err ReadOnlyFs, s).

End FileIo.
