(* ===== verification/SysMemory.v ===== *)
(** * System calls on memory

    Models kernel/maios_syscall/src/memory.rs and [create_mapping] of
    kernel/memory/src/lib.rs, on the kernel memory of [Files]. *)

From stdpp Require Import gmap.
From S2P Require Import Prelude PteFlags PageTable IoSpec Files Vfs SysTables SysState.

#[local] Existing Instance x86_arch.

Section Memory.
Context {bf : Bitflags} {F A W : Type} {km : KernelMemory W} {drop : DropPages W}.

Implicit Types s : Sys F A W.

Definition create_mapping (w : W) (size_in_bytes flags : Z) : result MappedPages string * W :=
  if negb (get_kernel_mmi_ref w) then (Err "create_contiguous_mapping(): KERNEL_MMI was not yet initialized!"%string, w)
  else
    match km_allocate_pages w size_in_bytes with
    | (None, w) => (Err "memory::create_mapping(): couldn't allocate pages!"%string, w)
    | (Some allocated_pages, w) => km_map_pages w allocated_pages (x86_from_general flags)
    end.

(** A new mapping, filled with zeros through its address. *)
Definition zeroed_mapping s (size flags : Z) : option MappedPages * Sys F A W :=
  match create_mapping (s_mem s) size flags with
  | (Ok mp, w) =>
      let w := km_store w (mapped_start mp) (replicate (Z.to_nat (mapped_size_in_bytes mp)) 0) in
      (Some mp, set_mem s w)
  | (Err _, w) => (None, set_mem s w)
  end.

(** ** Protection *)

Definition MAP_ANONYMOUS : Z := 0x20.
Definition PROT_WRITE : Z := 0x2.
Definition PROT_EXEC : Z := 0x4.

Definition linux_prot_to_pte_flags (prot : Z) : Z :=
  let flags := gen_new in
  let flags := if Z.land prot PROT_WRITE =? 0 then flags else gen_writable flags true in
  if Z.land prot PROT_EXEC =? 0 then flags else gen_executable flags true.

Definition PAGE_READWRITE : Z := 0x04.
Definition PAGE_WRITECOPY : Z := 0x08.
Definition PAGE_EXECUTE : Z := 0x10.
Definition PAGE_EXECUTE_READ : Z := 0x20.
Definition PAGE_EXECUTE_READWRITE : Z := 0x40.
Definition MEM_COMMIT : Z := 0x1000.
Definition MEM_RESERVE : Z := 0x2000.
Definition MEM_DECOMMIT : Z := 0x4000.
Definition MEM_RELEASE : Z := 0x8000.

Definition win_protect_to_pte_flags (protect : Z) : Z :=
  let flags := gen_new in
  if (protect =? PAGE_READWRITE) || (protect =? PAGE_WRITECOPY) then gen_writable flags true
  else if protect =? PAGE_EXECUTE_READ then gen_executable flags true
  else if protect =? PAGE_EXECUTE_READWRITE then gen_executable (gen_writable flags true) true
  else if protect =? PAGE_EXECUTE then gen_executable flags true
  else flags.

(** ** Handlers *)

Definition drop_mapping s (o : option MappedPages) : Sys F A W :=
  match o with Some mp => set_mem s (km_unmap (s_mem s) mp) | None => s end.

Definition sys_mmap s (addr length prot flags : Z) : handled F A W :=
  if Z.land flags MAP_ANONYMOUS =? 0 then Done (Err NotImplemented, s)
  else if length =? 0 then Done (Err InvalidArgument, s)
  else
    match zeroed_mapping s length (linux_prot_to_pte_flags prot) with
    | (Some mp, s) =>
        let vaddr := mapped_start mp in
        let old := mmap_regions s !! vaddr in
        Done (Ok vaddr, drop_mapping (set_regions s (<[vaddr := mp]> (mmap_regions s))) old)
    | (None, s) => Done (Err OutOfMemory, s)
    end.

Definition sys_munmap s (addr length : Z) : handled F A W :=
  let old := mmap_regions s !! addr in
  Done (Ok 0, drop_mapping (set_regions s (delete addr (mmap_regions s))) old).

Definition sys_mprotect s : handled F A W := Done (Ok 0, s).

Definition sys_brk s (addr : Z) : handled F A W :=
  let st := brk_state s in
  if (addr =? 0) || (addr <? initial_brk st) then Done (Ok (current_brk st), s)
  else if addr <=? current_brk st then
    Done (Ok addr, set_brk s (mkBrk addr (initial_brk st)) (brk_pages s))
  else
    let growth := addr - current_brk st in
    match zeroed_mapping s growth (gen_writable gen_new true) with
    | (Some mp, s) => Done (Ok addr, set_brk s (mkBrk addr (initial_brk st)) (brk_pages s ++ [mp]))
    | (None, s) => Done (Ok (current_brk st), s)
    end.

Definition sys_alloc_vm s (size protect alloc_type : Z) : handled F A W :=
  if size =? 0 then Done (Err InvalidArgument, s)
  else if (Z.land alloc_type MEM_COMMIT =? 0) && (Z.land alloc_type MEM_RESERVE =? 0) then Done (Err InvalidArgument, s)
  else
    match zeroed_mapping s size (win_protect_to_pte_flags protect) with
    | (Some mp, s) =>
        let vaddr := mapped_start mp in
        let '(_, old, t) := alloc_handle (my_table s) (RMemory mp vaddr (mapped_size_in_bytes mp)) in
        Done (Ok vaddr, drop_resource (set_my_table s t) old)
    | (None, s) => Done (Err OutOfMemory, s)
    end.

Definition has_base (base_addr : Z) (r : Resource) : bool :=
  match r with RMemory _ base _ => base =? base_addr | _ => false end.

Definition sys_free_vm s (base free_type : Z) : handled F A W :=
  if negb (Z.land free_type MEM_RELEASE =? 0) then
    let '(handle, m) := with_resources (s_tables s) (s_task s) (fun t => find_handle t (has_base base)) in
    let s := set_tables s m in
    match handle with
    | Some h =>
        let '(closed, m) := with_resources_mut (s_tables s) (s_task s) (fun t => table_close t h) in
        Done (Ok 0, drop_resource (set_tables s m) closed)
    | None => Done (Err InvalidArgument, s)
    end
  else if negb (Z.land free_type MEM_DECOMMIT =? 0) then Done (Ok 0, s)
  else Done (Err InvalidArgument, s).

Definition sys_mremap s : handled F A W := Done (Err NotImplemented, s).

End Memory.
