(* ===== verification/SysMisc.v ===== *)
(** * System calls on processes, time, signals, sockets and events

    Models process.rs, time.rs, system.rs, signals.rs, event_io.rs, extended.rs, futex.rs
    and socket.rs of kernel/maios_syscall/src, with [Instant] and [Duration] of
    kernel/time/src/lib.rs.

    Loops that wait for the clock yield the processor in every round; they take fuel for
    the rounds, and running out of it is a [Panic] (the loop does not return). *)

From stdpp Require Import gmap.
From S2P Require Import Prelude PteFlags PageTable Paths Io IoSpec Files Vfs SysTables SysState SysFileIo.

(** ** Time *)

(** [Duration::new], in nanoseconds. *)
Definition duration_new (secs nanos : Z) : outcome Z :=
  if U64_MAX <? secs + nanos / 1000000000 then Panic else Done (secs * 1000000000 + nanos).

Section Misc.
Context {F A W : Type} {file : FsFile F} {io : ByteIO F} {streams : AppIo A} {km : KernelMemory W} {drop : DropPages W}
  {machine : Machine F A W} {loader : Loader F A W}.

Implicit Types s : Sys F A W.

(** [Instant + Duration]. *)
Definition instant_add (counter nanos : Z) : outcome Z :=
  if period =? 0 then Panic
  else
    let ticks := wrap64 (nanos * 1000000 / period) in
    if U64_MAX <? counter + ticks then Panic else Done (counter + ticks).

(** [Instant::now().duration_since(Instant::ZERO)], in nanoseconds. *)
Definition elapsed s : Z := wrap64 (instant_now s * period / 1000000).

(** [while Instant::now() < deadline { schedule(); }]. *)
Fixpoint wait_until (fuel : nat) s (deadline : Z) : outcome (Sys F A W) :=
  match fuel with
  | O => Panic
  | S fuel => if instant_now s <? deadline then wait_until fuel (schedule s) deadline else Done s
  end.

Definition wait_for (fuel : nat) s (nanos : Z) : outcome (Sys F A W) :=
  let* deadline := instant_add (instant_now s) nanos in
  wait_until fuel s deadline.

Definition rtc_to_unix_secs (year month day hour min sec : Z) : Z :=
  let '(y_adj, m_adj) := if month <=? 2 then (year - 1, month + 9) else (year, month - 3) in
  let days := 365 * y_adj + y_adj ÷ 4 - y_adj ÷ 100 + y_adj ÷ 400 + (m_adj * 306 + 5) ÷ 10 + (day - 1) - 719468 in
  days * 86400 + hour * 3600 + min * 60 + sec.

Definition full_year (years : Z) : Z := if years <? 70 then 2000 + years else 1900 + years.

Definition boot_epoch_secs s : Z * Sys F A W :=
  match boot_epoch s with
  | Some e => (e, s)
  | None =>
      let rtc := read_rtc s in
      let rtc_now_secs := rtc_to_unix_secs (full_year (rtc_years rtc)) (rtc_months rtc) (rtc_days rtc)
                            (rtc_hours rtc) (rtc_minutes rtc) (rtc_seconds rtc) in
      let e := rtc_now_secs - elapsed s / 1000000000 in
      (e, set_boot_epoch s e)
  end.

Definition write_timespec s (tp secs nanos : Z) : Sys F A W := store s tp (le_bytes 8 secs ++ le_bytes 8 nanos).

Definition sys_clock_gettime s (clock_id tp : Z) : handled F A W :=
  if tp =? 0 then Done (Err Fault, s)
  else if (clock_id =? 1) || (clock_id =? 4) || (clock_id =? 6) || (clock_id =? 7) then
    Done (Ok 0, write_timespec s tp (elapsed s / 1000000000) (elapsed s mod 1000000000))
  else if (clock_id =? 0) || (clock_id =? 5) then
    let e := elapsed s in
    let '(boot, s) := boot_epoch_secs s in
    Done (Ok 0, write_timespec s tp (boot + e / 1000000000) (e mod 1000000000))
  else Done (Err InvalidArgument, s).

Definition sys_nanosleep (fuel : nat) s (req rem : Z) : handled F A W :=
  if req =? 0 then Done (Err Fault, s)
  else
    let tv_sec := as_i64 (load_u64 s req) in
    let tv_nsec := as_i64 (load_u64 s (req + 8)) in
    if (tv_sec <? 0) || (tv_nsec <? 0) || (1000000000 <=? tv_nsec) then Done (Err InvalidArgument, s)
    else
      let* duration := duration_new tv_sec tv_nsec in
      if duration =? 0 then Done (Ok 0, schedule s)
      else let* s := wait_for fuel s duration in Done (Ok 0, s).

Definition sys_perf_counter s (counter_ptr freq_ptr : Z) : handled F A W :=
  if counter_ptr =? 0 then Done (Err InvalidArgument, s)
  else
    let s := store s counter_ptr (le_bytes 8 (rdtsc s)) in
    Done (Ok 0, if freq_ptr =? 0 then s else store s freq_ptr (le_bytes 8 1000000000)).

(** ** Processes *)

(** Every mapping of the table is unmapped. *)
Definition drop_table s (t : ResourceTable) : Sys F A W :=
  fold_left (fun s h => drop_resource s (table_get t h)) (handles t) s.

Definition sys_exit s (status : Z) : handled F A W :=
  let s' := match s_tables s !! s_task s with Some t => drop_table s t | None => s end in
  let s' := set_tables s' (remove_resources (s_tables s') (s_task s)) in
  let s' := if has_current_task s' then kill_current s' else s' in
  Done (Ok 0, schedule s').

Definition sys_getpid s : handled F A W :=
  Done (Ok (if has_current_task s then Z.of_nat (s_task s) else 1), s).

Definition sys_getppid s : handled F A W := Done (Ok 1, s).

Definition sys_gettid s : handled F A W := sys_getpid s.

(** Starting the image in a new task ends the current one. *)
Definition execve_spawned s (o : option (Sys F A W)) : handled F A W :=
  match o with
  | Some s => sys_exit s 0
  | None => Done (Err OutOfMemory, s)
  end.

Definition sys_execve s (path_ptr : Z) : handled F A W :=
  match read_c_string s path_ptr with
  | None => Done (Err Fault, s)
  | Some path_str =>
      let* o := path_get_file (s_vfs s) path_str ROOT in
      match o with
      | None => Done (Err NotFound, s)
      | Some f =>
          let* x := file_of s f in
          if byte_len x =? 0 then Done (Err NotExecutable, s)
          else
            let* data := zeroed (byte_len x) in
            let* (r, data, x) := read_at x data 0 in
            let s := set_file s f x in
            match r with
            | Err _ => Done (Err IoFailure, s)
            | Ok _ =>
                if bool_decide (take 2 data = [0x4D; 0x5A]) then execve_spawned s (spawn_pe s data path_str)
                else if elf_header_ok data then execve_spawned s (spawn_elf s data path_str)
                else Done (Err NotExecutable, s)
            end
      end
  end.

Definition sys_exit_group s (status : Z) : handled F A W := sys_exit s status.

(** [sys_getuid], [sys_getgid], [sys_geteuid] and [sys_getegid]. *)
Definition sys_getuid s : handled F A W := Done (Ok 0, s).

Definition sys_set_tid_address s (tidptr : Z) : handled F A W := Done (Ok (Z.of_nat (s_task s)), s).

Definition sys_set_robust_list s : handled F A W := Done (Ok 0, s).

Definition sys_prlimit64 s (resource old_limit : Z) : handled F A W :=
  if old_limit =? 0 then Done (Ok 0, s)
  else
    let '(cur, max) := if resource =? 3 then (8 * 1024 * 1024, 64 * 1024 * 1024)
                       else if resource =? 7 then (1024, 4096) else (U64_MAX, U64_MAX) in
    Done (Ok 0, store s old_limit (le_bytes 8 cur ++ le_bytes 8 max)).

Definition sys_sched_yield s : handled F A W := Done (Ok 0, schedule s).

Definition sys_gettimeofday s (tv : Z) : handled F A W :=
  if tv =? 0 then Done (Ok 0, s)
  else Done (Ok 0, write_timespec s tv (elapsed s / 1000000000) (elapsed s mod 1000000000 / 1000)).

Definition sys_wait4 s (options : Z) : handled F A W :=
  Done (if Z.land (as_i32 options) 1 =? 0 then Err NoChild else Ok 0, s).

Definition sys_kill s (pid sig : Z) : handled F A W :=
  let pid := as_i64 pid in
  if 64 <? sig then Done (Err InvalidArgument, s)
  else if sig =? 0 then Done (Ok 0, s)
  else if ((sig =? 9) || (sig =? 15)) && ((pid <=? 0) || (pid =? Z.of_nat (s_task s))) then sys_exit s 0
  else Done (Ok 0, s).

Definition sys_tgkill s (sig : Z) : handled F A W :=
  Done (if 64 <? sig then Err InvalidArgument else Ok 0, s).

(** ** Signals *)

Definition MAX_SIGNALS : Z := 65.

Definition sys_rt_sigaction s (signum oldact sigsetsize : Z) : handled F A W :=
  if (signum =? 0) || (MAX_SIGNALS <=? signum) then Done (Err InvalidArgument, s)
  else if (signum =? 9) || (signum =? 19) then Done (Err InvalidArgument, s)
  else if negb (sigsetsize =? 8) then Done (Err InvalidArgument, s)
  else Done (Ok 0, if oldact =? 0 then s else store s oldact (replicate 32 0)).

Definition sys_rt_sigprocmask s (how oldset sigsetsize : Z) : handled F A W :=
  if negb (sigsetsize =? 8) then Done (Err InvalidArgument, s)
  else if 2 <? how then Done (Err InvalidArgument, s)
  else Done (Ok 0, if oldset =? 0 then s else store s oldset (le_bytes 8 0)).

Definition sys_rt_sigreturn s : handled F A W := Done (Ok 0, s).

(** ** Futexes *)

Definition FUTEX_CMD_MASK : Z := 0x7F.

Definition futex_word s (uaddr : Z) : Z := le_value (load s uaddr 4).

Fixpoint futex_loop (fuel : nat) s (uaddr expected deadline : Z) : handled F A W :=
  match fuel with
  | O => Panic
  | S fuel =>
      if negb (futex_word s uaddr =? expected) then Done (Ok 0, s)
      else if deadline <=? instant_now s then Done (Err WouldBlock, s)
      else futex_loop fuel (schedule s) uaddr expected deadline
  end.

Definition futex_wait (fuel : nat) s (uaddr expected timeout_ptr : Z) : handled F A W :=
  if negb (futex_word s uaddr =? expected) then Done (Err WouldBlock, s)
  else
    let* deadline :=
      if timeout_ptr =? 0 then Done None
      else
        let* duration := duration_new (load_u64 s timeout_ptr) (load_u64 s (timeout_ptr + 8) mod 2 ^ 32) in
        let* d := instant_add (instant_now s) duration in
        Done (Some d) in
    let* max_deadline := instant_add (instant_now s) 100000000 in
    let effective_deadline := match deadline with
                              | Some d => if d <? max_deadline then d else max_deadline
                              | None => max_deadline
                              end in
    futex_loop fuel s uaddr expected effective_deadline.

Definition futex_wake s : handled F A W := Done (Ok 0, schedule s).

Definition sys_futex (fuel : nat) s (uaddr op val timeout : Z) : handled F A W :=
  if uaddr =? 0 then Done (Err Fault, s)
  else
    let cmd := Z.land op FUTEX_CMD_MASK in
    if (cmd =? 0) || (cmd =? 9) then futex_wait fuel s uaddr (val mod 2 ^ 32) timeout
    else if (cmd =? 1) || (cmd =? 10) then futex_wake s
    else Done (Err NotImplemented, s).

(** ** Events *)

Definition POLLIN : Z := 0x0001.
Definition POLLOUT : Z := 0x0004.
Definition POLLNVAL : Z := 0x0020.

(** The events returned for a descriptor. *)
Definition poll_revents (fd events : Z) : Z :=
  if fd =? 0 then (if Z.land events POLLIN =? 0 then 0 else POLLIN)
  else if (fd =? 1) || (fd =? 2) then (if Z.land events POLLOUT =? 0 then 0 else POLLOUT)
  else POLLNVAL.

Fixpoint poll_loop (n : nat) s (pfd ready : Z) : Z * Sys F A W :=
  match n with
  | O => (ready, s)
  | S n =>
      let fd := as_i32 (le_value (load s pfd 4)) in
      if fd <? 0 then poll_loop n (store s (pfd + 6) (le_bytes 2 0)) (pfd + 8) ready
      else
        let revents := poll_revents fd (le_value (load s (pfd + 4) 2)) in
        poll_loop n (store s (pfd + 6) (le_bytes 2 revents)) (pfd + 8) (if revents =? 0 then ready else ready + 1)
  end.

Definition sys_poll (fuel : nat) s (fds_ptr nfds timeout_ms : Z) : handled F A W :=
  let timeout_ms := as_i32 timeout_ms in
  if (fds_ptr =? 0) && (0 <? nfds) then Done (Err Fault, s)
  else
    let* s := if 0 <? timeout_ms then wait_for fuel s (timeout_ms * 1000000) else Done s in
    let '(ready, s) := poll_loop (Z.to_nat nfds) s fds_ptr 0 in
    Done (Ok ready, s).

Definition sys_epoll_create1 s : handled F A W := Done (Ok 1000, s).

Definition sys_epoll_ctl s : handled F A W := Done (Ok 0, s).

Definition sys_epoll_wait (fuel : nat) s (timeout_ms : Z) : handled F A W :=
  let timeout_ms := as_i32 timeout_ms in
  let* s := if 0 <? timeout_ms then wait_for fuel s (timeout_ms * 1000000) else Done s in
  Done (Ok 0, s).

Definition sys_select (fuel : nat) s (timeout : Z) : handled F A W :=
  if timeout =? 0 then Done (Ok 0, s)
  else
    let secs := load_u64 s timeout in
    let usecs := load_u64 s (timeout + 8) in
    if (0 <? secs) || (0 <? usecs) then
      let* duration := duration_new secs (wrap64 (usecs * 1000) mod 2 ^ 32) in
      let* s := wait_for fuel s duration in
      Done (Ok 0, s)
    else Done (Ok 0, s).

Definition sys_pselect6 (fuel : nat) s (timeout : Z) : handled F A W :=
  if timeout =? 0 then sys_select fuel s 0
  else
    let* duration := duration_new (load_u64 s timeout) (load_u64 s (timeout + 8) mod 2 ^ 32) in
    let* s := wait_for fuel s duration in
    Done (Ok 0, s).

Definition sys_ppoll (fuel : nat) s (fds nfds timeout : Z) : handled F A W :=
  let timeout_ms := if timeout =? 0 then U64_MAX
                    else wrap64 (wrap64 (load_u64 s timeout * 1000) + load_u64 s (timeout + 8) / 1000000) in
  sys_poll fuel s fds nfds timeout_ms.

(** ** System information *)

Definition fill_field (value : string) : list Z :=
  let bytes := take 64 (bytes_of_str (lit value)) in bytes ++ [0].

(** The fields of [Utsname], 65 bytes apart. *)
Fixpoint fill_fields s (buf_ptr : Z) (l : list string) : Sys F A W :=
  match l with
  | [] => s
  | x :: l => fill_fields (store s buf_ptr (fill_field x)) (buf_ptr + 65) l
  end.

Definition sys_uname s (buf_ptr : Z) : handled F A W :=
  if buf_ptr =? 0 then Done (Err Fault, s)
  else Done (Ok 0, fill_fields s buf_ptr
               ["MaiOS"; "maios"; "1.0.0-maios"; "MaiOS 1.0 (Linux compat)"; "x86_64"; ""]%string).

Definition sys_arch_prctl s (code addr : Z) : handled F A W :=
  let code := as_i32 code in
  if code =? 0x1002 then Done (Ok 0, wrmsr s 0xC0000100 addr)
  else if code =? 0x1001 then Done (Ok 0, wrmsr s 0xC0000101 addr)
  else if code =? 0x1003 then Done (Ok 0, store s addr (le_bytes 8 (rdmsr s 0xC0000100)))
  else if code =? 0x1004 then Done (Ok 0, store s addr (le_bytes 8 (rdmsr s 0xC0000101)))
  else Done (Err InvalidArgument, s).

Definition xorshift (state : Z) : Z :=
  let state := Z.lxor state (wrap64 (Z.shiftl state 13)) in
  let state := Z.lxor state (Z.shiftr state 7) in
  Z.lxor state (wrap64 (Z.shiftl state 17)).

Fixpoint random_bytes (n : nat) (state : Z) : list Z :=
  match n with
  | O => []
  | S n => let state := xorshift state in state mod 256 :: random_bytes n state
  end.

Definition sys_getrandom s (buf_ptr buf_len : Z) : handled F A W :=
  if buf_ptr =? 0 then Done (Err Fault, s)
  else Done (Ok buf_len, store s buf_ptr (random_bytes (Z.to_nat buf_len) (rdtsc s))).

Definition sys_clock_getres s (clock_id res : Z) : handled F A W :=
  if res =? 0 then Done (Ok 0, s)
  else if bool_decide (clock_id ∈ [0; 1; 4; 5; 6; 7]) then Done (Ok 0, write_timespec s res 0 1)
  else Done (Err InvalidArgument, s).

Definition sys_sched_getaffinity s (cpusetsize mask_ptr : Z) : handled F A W :=
  if (mask_ptr =? 0) || (cpusetsize =? 0) then Done (Err Fault, s)
  else
    let s := store s mask_ptr (replicate (Z.to_nat cpusetsize) 0) in
    let s := store s mask_ptr (take (Z.to_nat (Z.min cpusetsize 8)) (le_bytes 8 0xF)) in
    Done (Ok (Z.min cpusetsize 8), s).

Definition sys_prctl s (option arg2 : Z) : handled F A W :=
  if option =? 15 then Done (Ok 0, s)
  else if option =? 16 then
    Done (Ok 0, if arg2 =? 0 then s else store s arg2 (bytes_of_str (lit "maios") ++ [0]))
  else if option =? 1 then Done (Ok 0, s)
  else if option =? 2 then Done (Ok 0, if arg2 =? 0 then s else store s arg2 (le_bytes 4 0))
  else Done (Err InvalidArgument, s).

Definition sys_madvise s : handled F A W := Done (Ok 0, s).

Definition sys_sysinfo s (info_ptr : Z) : handled F A W :=
  if info_ptr =? 0 then Done (Err Fault, s)
  else
    let s := store s info_ptr (replicate 112 0) in
    let s := store s info_ptr (le_bytes 8 (elapsed s / 1000000000)) in
    let s := store s (info_ptr + 32) (le_bytes 8 (4 * 1024 * 1024 * 1024)) in
    let s := store s (info_ptr + 40) (le_bytes 8 (3 * 1024 * 1024 * 1024)) in
    Done (Ok 0, store s (info_ptr + 64) (le_bytes 2 4)).

Definition sys_getrusage s (usage_ptr : Z) : handled F A W :=
  if usage_ptr =? 0 then Done (Err Fault, s) else Done (Ok 0, store s usage_ptr (replicate 144 0)).

Definition sys_umask s : handled F A W := Done (Ok 0x12, s).

Definition sys_eventfd2 s : handled F A W := Done (Err NotImplemented, s).

(** ** Extended calls *)

Definition sys_statfs s (buf : Z) : handled F A W :=
  if buf =? 0 then Done (Err Fault, s)
  else
    let s := store s buf (replicate 120 0) in
    let s := store s buf (le_bytes 8 0xEF53 ++ le_bytes 8 4096 ++ le_bytes 8 (1024 * 1024) ++ le_bytes 8 (512 * 1024) ++
                          le_bytes 8 (512 * 1024) ++ le_bytes 8 (1024 * 1024) ++ le_bytes 8 (1024 * 1024)) in
    Done (Ok 0, store s (buf + 88) (le_bytes 8 255)).

Definition sys_fstatfs s (buf : Z) : handled F A W := sys_statfs s buf.

Definition sys_personality s : handled F A W := Done (Ok 0, s).

(** [sys_memfd_create], [sys_timerfd_create], [sys_signalfd4] and [sys_clone]. *)
Definition sys_not_implemented s : handled F A W := Done (Err NotImplemented, s).

(** [sys_timerfd_settime] and [sys_timerfd_gettime], and the calls on sockets. *)
Definition sys_bad_fd s : handled F A W := Done (Err BadFileDescriptor, s).

Definition sys_mincore s (length vec_ptr : Z) : handled F A W :=
  if vec_ptr =? 0 then Done (Err Fault, s)
  else Done (Ok 0, store s vec_ptr (replicate (Z.to_nat (wrap64 (length + 4095) / 4096)) 1)).

Definition sys_msync s : handled F A W := Done (Ok 0, s).

End Misc.
