(* ===== verification/SysDispatch.v ===== *)
(** * System calls: numbers and dispatch

    Models kernel/maios_syscall/src/lib.rs: the native numbers, the table of handlers that
    [init] fills, and [dispatch]; and kernel/linux_syscall/src/lib.rs, the translation of
    Linux numbers.  A function pointer is a constructor of [Handler], which [run_handler]
    calls.  Tracing only writes to the serial port and is left out. *)

From stdpp Require Import gmap.
From S2P Require Import Prelude PteFlags PageTable Io Files Vfs SysTables SysState SysFileIo SysMemory SysMisc.

(** ** Native numbers *)

Definition SYS_EXIT : Z := 0x0000.
Definition SYS_GETPID : Z := 0x0001.
Definition SYS_GETPPID : Z := 0x0002.
Definition SYS_GETTID : Z := 0x0003.
Definition SYS_EXECVE : Z := 0x0004.
Definition SYS_SPAWN : Z := 0x0005.
Definition SYS_KILL : Z := 0x0006.
Definition SYS_WAIT : Z := 0x0007.
Definition SYS_EXIT_GROUP : Z := 0x0008.
Definition SYS_GETUID : Z := 0x0009.
Definition SYS_GETGID : Z := 0x000A.
Definition SYS_GETEUID : Z := 0x000B.
Definition SYS_GETEGID : Z := 0x000C.
Definition SYS_SET_TID_ADDRESS : Z := 0x000D.
Definition SYS_SET_ROBUST_LIST : Z := 0x000E.
Definition SYS_PRLIMIT64 : Z := 0x000F.
Definition SYS_MMAP : Z := 0x0100.
Definition SYS_MUNMAP : Z := 0x0101.
Definition SYS_MPROTECT : Z := 0x0102.
Definition SYS_BRK : Z := 0x0103.
Definition SYS_ALLOC_VM : Z := 0x0104.
Definition SYS_FREE_VM : Z := 0x0105.
Definition SYS_READ : Z := 0x0200.
Definition SYS_WRITE : Z := 0x0201.
Definition SYS_OPEN : Z := 0x0202.
Definition SYS_CLOSE : Z := 0x0203.
Definition SYS_STAT : Z := 0x0204.
Definition SYS_FSTAT : Z := 0x0205.
Definition SYS_LSEEK : Z := 0x0206.
Definition SYS_IOCTL : Z := 0x0207.
Definition SYS_DUP : Z := 0x0208.
Definition SYS_DUP2 : Z := 0x0209.
Definition SYS_PIPE : Z := 0x020A.
Definition SYS_OPENAT : Z := 0x020B.
Definition SYS_FCNTL : Z := 0x020C.
Definition SYS_WRITEV : Z := 0x020D.
Definition SYS_READV : Z := 0x020E.
Definition SYS_PREAD64 : Z := 0x020F.
Definition SYS_ACCESS : Z := 0x0210.
Definition SYS_PIPE2 : Z := 0x0211.
Definition SYS_DUP3 : Z := 0x0212.
Definition SYS_GETCWD : Z := 0x0213.
Definition SYS_GETDENTS64 : Z := 0x0214.
Definition SYS_CHDIR : Z := 0x0215.
Definition SYS_MKDIR : Z := 0x0216.
Definition SYS_UNLINK : Z := 0x0217.
Definition SYS_READLINK : Z := 0x0218.
Definition SYS_NEWFSTATAT : Z := 0x0219.
Definition SYS_FACCESSAT : Z := 0x021A.
Definition SYS_PWRITE64 : Z := 0x021B.
Definition SYS_CLOCK_GETTIME : Z := 0x0300.
Definition SYS_NANOSLEEP : Z := 0x0301.
Definition SYS_PERF_COUNTER : Z := 0x0302.
Definition SYS_UNAME : Z := 0x0400.
Definition SYS_ARCH_PRCTL : Z := 0x0401.
Definition SYS_GETRANDOM : Z := 0x0402.
Definition SYS_RT_SIGACTION : Z := 0x0403.
Definition SYS_RT_SIGPROCMASK : Z := 0x0404.
Definition SYS_RT_SIGRETURN : Z := 0x0405.
Definition SYS_SCHED_YIELD : Z := 0x0406.
Definition SYS_GETTIMEOFDAY : Z := 0x0407.
Definition SYS_CLOCK_GETRES : Z := 0x0408.
Definition SYS_SCHED_GETAFFINITY : Z := 0x0409.
Definition SYS_PRCTL : Z := 0x040A.
Definition SYS_MADVISE : Z := 0x040B.
Definition SYS_POLL : Z := 0x040C.
Definition SYS_EPOLL_CREATE1 : Z := 0x040D.
Definition SYS_EPOLL_CTL : Z := 0x040E.
Definition SYS_EPOLL_WAIT : Z := 0x040F.
Definition SYS_WAIT4 : Z := 0x0410.
Definition SYS_TGKILL : Z := 0x0411.
Definition SYS_SYSINFO : Z := 0x0412.
Definition SYS_GETRUSAGE : Z := 0x0413.
Definition SYS_UMASK : Z := 0x0414.
Definition SYS_FTRUNCATE : Z := 0x0415.
Definition SYS_MREMAP : Z := 0x0416.
Definition SYS_EVENTFD2 : Z := 0x0417.
Definition SYS_RENAME : Z := 0x0418.
Definition SYS_SOCKET : Z := 0x0500.
Definition SYS_CONNECT : Z := 0x0501.
Definition SYS_SENDTO : Z := 0x0502.
Definition SYS_RECVFROM : Z := 0x0503.
Definition SYS_BIND : Z := 0x0504.
Definition SYS_LISTEN : Z := 0x0505.
Definition SYS_ACCEPT4 : Z := 0x0506.
Definition SYS_SETSOCKOPT : Z := 0x0507.
Definition SYS_GETSOCKOPT : Z := 0x0508.
Definition SYS_SHUTDOWN : Z := 0x0509.
Definition SYS_GETSOCKNAME : Z := 0x050A.
Definition SYS_GETPEERNAME : Z := 0x050B.
Definition SYS_SOCKETPAIR : Z := 0x050C.
Definition SYS_SENDMSG : Z := 0x050D.
Definition SYS_RECVMSG : Z := 0x050E.
Definition SYS_FUTEX : Z := 0x0600.
Definition SYS_SELECT : Z := 0x0700.
Definition SYS_STATFS : Z := 0x0701.
Definition SYS_FSTATFS : Z := 0x0702.
Definition SYS_PERSONALITY : Z := 0x0703.
Definition SYS_MEMFD_CREATE : Z := 0x0704.
Definition SYS_TIMERFD_CREATE : Z := 0x0705.
Definition SYS_TIMERFD_SETTIME : Z := 0x0706.
Definition SYS_TIMERFD_GETTIME : Z := 0x0707.
Definition SYS_SIGNALFD4 : Z := 0x0708.
Definition SYS_PPOLL : Z := 0x0709.
Definition SYS_PSELECT6 : Z := 0x070A.
Definition SYS_CLONE : Z := 0x070B.
Definition SYS_MINCORE : Z := 0x070C.
Definition SYS_MSYNC : Z := 0x070D.
Definition SYS_CREATE_WINDOW : Z := 0x0800.
Definition SYS_DESTROY_WINDOW : Z := 0x0801.
Definition SYS_MAP_FRAMEBUFFER : Z := 0x0802.
Definition SYS_PRESENT : Z := 0x0803.
Definition SYS_GET_EVENT : Z := 0x0804.
Definition SYS_AUDIO_WRITE : Z := 0x0805.

Definition FLAG_NORETURN : Z := 1.

Definition MAX_SYSCALL_NR : Z := 0x0900.

(** ** Handlers *)

Inductive Handler : Type :=
| H_exit | H_getpid | H_getppid | H_gettid | H_execve | H_exit_group | H_getuid | H_getgid
| H_geteuid | H_getegid | H_set_tid_address | H_set_robust_list | H_prlimit64 | H_sched_yield
| H_gettimeofday | H_mmap | H_munmap | H_mprotect | H_brk | H_alloc_vm | H_free_vm | H_read
| H_write | H_open | H_close | H_stat | H_fstat | H_lseek | H_ioctl | H_dup | H_dup2 | H_pipe
| H_openat | H_fcntl | H_writev | H_readv | H_pread64 | H_access | H_pipe2 | H_dup3 | H_getcwd
| H_getdents64 | H_chdir | H_mkdir | H_unlink | H_readlink | H_newfstatat | H_faccessat
| H_pwrite64 | H_clock_gettime | H_nanosleep | H_perf_counter | H_uname | H_arch_prctl
| H_getrandom | H_rt_sigaction | H_rt_sigprocmask | H_rt_sigreturn | H_clock_getres
| H_sched_getaffinity | H_prctl | H_madvise | H_poll | H_epoll_create1 | H_epoll_ctl | H_epoll_wait
| H_kill | H_wait4 | H_tgkill | H_sysinfo | H_getrusage | H_umask | H_eventfd2 | H_ftruncate
| H_rename | H_mremap | H_socket | H_connect | H_sendto | H_recvfrom | H_bind | H_listen
| H_accept4 | H_setsockopt | H_getsockopt | H_shutdown | H_getsockname | H_getpeername
| H_socketpair | H_sendmsg | H_recvmsg | H_futex | H_select | H_statfs | H_fstatfs | H_personality
| H_memfd_create | H_timerfd_create | H_timerfd_settime | H_timerfd_gettime | H_signalfd4 | H_ppoll
| H_pselect6 | H_clone | H_mincore | H_msync.

#[export] Instance Handler_eq_dec : EqDecision Handler.
Proof. solve_decision. Defined.

(** The registrations of [init]: number, handler, number of arguments and flags. *)
Definition registrations : list (Z * Handler * Z * Z) := [
  (SYS_EXIT, H_exit, 1, FLAG_NORETURN);
  (SYS_GETPID, H_getpid, 0, 0);
  (SYS_GETPPID, H_getppid, 0, 0);
  (SYS_GETTID, H_gettid, 0, 0);
  (SYS_EXECVE, H_execve, 3, FLAG_NORETURN);
  (SYS_EXIT_GROUP, H_exit_group, 1, FLAG_NORETURN);
  (SYS_GETUID, H_getuid, 0, 0);
  (SYS_GETGID, H_getgid, 0, 0);
  (SYS_GETEUID, H_geteuid, 0, 0);
  (SYS_GETEGID, H_getegid, 0, 0);
  (SYS_SET_TID_ADDRESS, H_set_tid_address, 1, 0);
  (SYS_SET_ROBUST_LIST, H_set_robust_list, 2, 0);
  (SYS_PRLIMIT64, H_prlimit64, 4, 0);
  (SYS_SCHED_YIELD, H_sched_yield, 0, 0);
  (SYS_GETTIMEOFDAY, H_gettimeofday, 2, 0);
  (SYS_MMAP, H_mmap, 6, 0);
  (SYS_MUNMAP, H_munmap, 2, 0);
  (SYS_MPROTECT, H_mprotect, 3, 0);
  (SYS_BRK, H_brk, 1, 0);
  (SYS_ALLOC_VM, H_alloc_vm, 3, 0);
  (SYS_FREE_VM, H_free_vm, 2, 0);
  (SYS_READ, H_read, 3, 0);
  (SYS_WRITE, H_write, 3, 0);
  (SYS_OPEN, H_open, 3, 0);
  (SYS_CLOSE, H_close, 1, 0);
  (SYS_STAT, H_stat, 2, 0);
  (SYS_FSTAT, H_fstat, 2, 0);
  (SYS_LSEEK, H_lseek, 3, 0);
  (SYS_IOCTL, H_ioctl, 3, 0);
  (SYS_DUP, H_dup, 1, 0);
  (SYS_DUP2, H_dup2, 2, 0);
  (SYS_PIPE, H_pipe, 1, 0);
  (SYS_OPENAT, H_openat, 4, 0);
  (SYS_FCNTL, H_fcntl, 3, 0);
  (SYS_WRITEV, H_writev, 3, 0);
  (SYS_READV, H_readv, 3, 0);
  (SYS_PREAD64, H_pread64, 4, 0);
  (SYS_ACCESS, H_access, 2, 0);
  (SYS_PIPE2, H_pipe2, 2, 0);
  (SYS_DUP3, H_dup3, 3, 0);
  (SYS_GETCWD, H_getcwd, 2, 0);
  (SYS_GETDENTS64, H_getdents64, 3, 0);
  (SYS_CHDIR, H_chdir, 1, 0);
  (SYS_MKDIR, H_mkdir, 2, 0);
  (SYS_UNLINK, H_unlink, 1, 0);
  (SYS_READLINK, H_readlink, 3, 0);
  (SYS_NEWFSTATAT, H_newfstatat, 4, 0);
  (SYS_FACCESSAT, H_faccessat, 4, 0);
  (SYS_PWRITE64, H_pwrite64, 4, 0);
  (SYS_CLOCK_GETTIME, H_clock_gettime, 2, 0);
  (SYS_NANOSLEEP, H_nanosleep, 2, 0);
  (SYS_PERF_COUNTER, H_perf_counter, 2, 0);
  (SYS_UNAME, H_uname, 1, 0);
  (SYS_ARCH_PRCTL, H_arch_prctl, 2, 0);
  (SYS_GETRANDOM, H_getrandom, 3, 0);
  (SYS_RT_SIGACTION, H_rt_sigaction, 4, 0);
  (SYS_RT_SIGPROCMASK, H_rt_sigprocmask, 4, 0);
  (SYS_RT_SIGRETURN, H_rt_sigreturn, 0, 0);
  (SYS_CLOCK_GETRES, H_clock_getres, 2, 0);
  (SYS_SCHED_GETAFFINITY, H_sched_getaffinity, 3, 0);
  (SYS_PRCTL, H_prctl, 5, 0);
  (SYS_MADVISE, H_madvise, 3, 0);
  (SYS_POLL, H_poll, 3, 0);
  (SYS_EPOLL_CREATE1, H_epoll_create1, 1, 0);
  (SYS_EPOLL_CTL, H_epoll_ctl, 4, 0);
  (SYS_EPOLL_WAIT, H_epoll_wait, 4, 0);
  (SYS_KILL, H_kill, 2, 0);
  (SYS_WAIT4, H_wait4, 4, 0);
  (SYS_TGKILL, H_tgkill, 3, 0);
  (SYS_SYSINFO, H_sysinfo, 1, 0);
  (SYS_GETRUSAGE, H_getrusage, 2, 0);
  (SYS_UMASK, H_umask, 1, 0);
  (SYS_EVENTFD2, H_eventfd2, 2, 0);
  (SYS_FTRUNCATE, H_ftruncate, 2, 0);
  (SYS_RENAME, H_rename, 2, 0);
  (SYS_MREMAP, H_mremap, 4, 0);
  (SYS_SOCKET, H_socket, 3, 0);
  (SYS_CONNECT, H_connect, 3, 0);
  (SYS_SENDTO, H_sendto, 6, 0);
  (SYS_RECVFROM, H_recvfrom, 6, 0);
  (SYS_BIND, H_bind, 3, 0);
  (SYS_LISTEN, H_listen, 2, 0);
  (SYS_ACCEPT4, H_accept4, 4, 0);
  (SYS_SETSOCKOPT, H_setsockopt, 5, 0);
  (SYS_GETSOCKOPT, H_getsockopt, 5, 0);
  (SYS_SHUTDOWN, H_shutdown, 2, 0);
  (SYS_GETSOCKNAME, H_getsockname, 3, 0);
  (SYS_GETPEERNAME, H_getpeername, 3, 0);
  (SYS_SOCKETPAIR, H_socketpair, 4, 0);
  (SYS_SENDMSG, H_sendmsg, 3, 0);
  (SYS_RECVMSG, H_recvmsg, 3, 0);
  (SYS_FUTEX, H_futex, 6, 0);
  (SYS_SELECT, H_select, 5, 0);
  (SYS_STATFS, H_statfs, 2, 0);
  (SYS_FSTATFS, H_fstatfs, 2, 0);
  (SYS_PERSONALITY, H_personality, 1, 0);
  (SYS_MEMFD_CREATE, H_memfd_create, 2, 0);
  (SYS_TIMERFD_CREATE, H_timerfd_create, 2, 0);
  (SYS_TIMERFD_SETTIME, H_timerfd_settime, 4, 0);
  (SYS_TIMERFD_GETTIME, H_timerfd_gettime, 2, 0);
  (SYS_SIGNALFD4, H_signalfd4, 4, 0);
  (SYS_PPOLL, H_ppoll, 5, 0);
  (SYS_PSELECT6, H_pselect6, 6, 0);
  (SYS_CLONE, H_clone, 5, FLAG_NORETURN);
  (SYS_MINCORE, H_mincore, 3, 0);
  (SYS_MSYNC, H_msync, 3, 0)
].

Record SyscallTable := mkSyscallTable {
  SYSCALL_TABLE : gmap Z Handler;
  SYSCALL_ARG_COUNT : gmap Z Z;
  INITIALIZED : bool;
}.

(** Before [init]. *)
Definition boot_table : SyscallTable := mkSyscallTable ∅ ∅ false.

(** [register]; an index out of range panics. *)
Definition register (t : SyscallTable) (nr : Z) (handler : Handler) (arg_count flags : Z) : outcome SyscallTable :=
  if MAX_SYSCALL_NR <=? nr then Panic
  else Done (mkSyscallTable (<[nr := handler]> (SYSCALL_TABLE t)) (<[nr := arg_count]> (SYSCALL_ARG_COUNT t)) (INITIALIZED t)).

Fixpoint register_all (t : SyscallTable) (l : list (Z * Handler * Z * Z)) : outcome SyscallTable :=
  match l with
  | [] => Done t
  | (nr, h, arg_count, flags) :: l => let* t := register t nr h arg_count flags in register_all t l
  end.

Definition syscall_init (t : SyscallTable) : outcome SyscallTable :=
  if INITIALIZED t then Done t
  else
    let* t := register_all t registrations in
    Done (mkSyscallTable (SYSCALL_TABLE t) (SYSCALL_ARG_COUNT t) true).

(** ** Dispatch *)

Section Dispatch.
Context {bf : Bitflags} {F A W : Type} {file : FsFile F} {io : ByteIO F} {heap : HeapFiles F} {streams : AppIo A}
  {km : KernelMemory W} {drop : DropPages W} {machine : Machine F A W} {loader : Loader F A W}.

Implicit Types s : Sys F A W.

Definition run_handler (fuel : nat) s (h : Handler) (a0 a1 a2 a3 a4 a5 : Z) : handled F A W :=
  match h with
  | H_exit => sys_exit s a0
  | H_getpid => sys_getpid s
  | H_getppid => sys_getppid s
  | H_gettid => sys_gettid s
  | H_execve => sys_execve s a0
  | H_exit_group => sys_exit_group s a0
  | H_getuid => sys_getuid s
  | H_getgid => sys_getuid s
  | H_geteuid => sys_getuid s
  | H_getegid => sys_getuid s
  | H_set_tid_address => sys_set_tid_address s a0
  | H_set_robust_list => sys_set_robust_list s
  | H_prlimit64 => sys_prlimit64 s a1 a3
  | H_sched_yield => sys_sched_yield s
  | H_gettimeofday => sys_gettimeofday s a0
  | H_mmap => sys_mmap s a0 a1 a2 a3
  | H_munmap => sys_munmap s a0 a1
  | H_mprotect => sys_mprotect s
  | H_brk => sys_brk s a0
  | H_alloc_vm => sys_alloc_vm s a0 a1 a2
  | H_free_vm => sys_free_vm s a0 a1
  | H_read => sys_read s a0 a1 a2
  | H_write => sys_write s a0 a1 a2
  | H_open => sys_open s a0 a1
  | H_close => sys_close s a0
  | H_stat => sys_stat s a0 a1
  | H_fstat => sys_fstat s a0 a1
  | H_lseek => sys_lseek s a0 a1 a2
  | H_ioctl => sys_ioctl s a0 a1 a2
  | H_dup => sys_dup s a0
  | H_dup2 => sys_dup2 s a0 a1
  | H_pipe => sys_pipe s a0
  | H_openat => sys_openat s a0 a1 a2
  | H_fcntl => sys_fcntl s a0 a1 a2
  | H_writev => sys_writev s a0 a1 a2
  | H_readv => sys_readv s a0 a1 a2
  | H_pread64 => sys_pread64 s a0 a1 a2 a3
  | H_access => sys_access s a0 a1
  | H_pipe2 => sys_pipe2 s a0 a1
  | H_dup3 => sys_dup3 s a0 a1 a2
  | H_getcwd => sys_getcwd s a0 a1
  | H_getdents64 => sys_getdents64 s a0 a1 a2
  | H_chdir => sys_chdir s a0
  | H_mkdir => sys_mkdir s
  | H_unlink => sys_unlink s
  | H_readlink => sys_readlink s a0 a1 a2
  | H_newfstatat => sys_newfstatat s a0 a1 a2
  | H_faccessat => sys_faccessat s a0 a1 a2
  | H_pwrite64 => sys_pwrite64 s a0 a1 a2 a3
  | H_clock_gettime => sys_clock_gettime s a0 a1
  | H_nanosleep => sys_nanosleep fuel s a0 a1
  | H_perf_counter => sys_perf_counter s a0 a1
  | H_uname => sys_uname s a0
  | H_arch_prctl => sys_arch_prctl s a0 a1
  | H_getrandom => sys_getrandom s a0 a1
  | H_rt_sigaction => sys_rt_sigaction s a0 a2 a3
  | H_rt_sigprocmask => sys_rt_sigprocmask s a0 a2 a3
  | H_rt_sigreturn => sys_rt_sigreturn s
  | H_clock_getres => sys_clock_getres s a0 a1
  | H_sched_getaffinity => sys_sched_getaffinity s a1 a2
  | H_prctl => sys_prctl s a0 a1
  | H_madvise => sys_madvise s
  | H_poll => sys_poll fuel s a0 a1 a2
  | H_epoll_create1 => sys_epoll_create1 s
  | H_epoll_ctl => sys_epoll_ctl s
  | H_epoll_wait => sys_epoll_wait fuel s a3
  | H_kill => sys_kill s a0 a1
  | H_wait4 => sys_wait4 s a2
  | H_tgkill => sys_tgkill s a2
  | H_sysinfo => sys_sysinfo s a0
  | H_getrusage => sys_getrusage s a1
  | H_umask => sys_umask s
  | H_eventfd2 => sys_eventfd2 s
  | H_ftruncate => sys_ftruncate s
  | H_rename => sys_rename s
  | H_mremap => sys_mremap s
  | H_socket => sys_not_implemented s
  | H_connect => sys_bad_fd s
  | H_sendto => sys_bad_fd s
  | H_recvfrom => sys_bad_fd s
  | H_bind => sys_bad_fd s
  | H_listen => sys_bad_fd s
  | H_accept4 => sys_bad_fd s
  | H_setsockopt => sys_bad_fd s
  | H_getsockopt => sys_bad_fd s
  | H_shutdown => sys_bad_fd s
  | H_getsockname => sys_bad_fd s
  | H_getpeername => sys_bad_fd s
  | H_socketpair => sys_not_implemented s
  | H_sendmsg => sys_bad_fd s
  | H_recvmsg => sys_bad_fd s
  | H_futex => sys_futex fuel s a0 a1 a2 a3
  | H_select => sys_select fuel s a4
  | H_statfs => sys_statfs s a1
  | H_fstatfs => sys_fstatfs s a1
  | H_personality => sys_personality s
  | H_memfd_create => sys_not_implemented s
  | H_timerfd_create => sys_not_implemented s
  | H_timerfd_settime => sys_bad_fd s
  | H_timerfd_gettime => sys_bad_fd s
  | H_signalfd4 => sys_not_implemented s
  | H_ppoll => sys_ppoll fuel s a0 a1 a2
  | H_pselect6 => sys_pselect6 fuel s a4
  | H_clone => sys_not_implemented s
  | H_mincore => sys_mincore s a1 a2
  | H_msync => sys_msync s
  end.

Definition dispatch (fuel : nat) (t : SyscallTable) s (nr a0 a1 a2 a3 a4 a5 : Z) : handled F A W :=
  if MAX_SYSCALL_NR <=? nr then Done (Err NotImplemented, s)
  else
    match SYSCALL_TABLE t !! nr with
    | Some h => run_handler fuel s h a0 a1 a2 a3 a4 a5
    | None => Done (Err NotImplemented, s)
    end.

(** ** Linux *)

Definition UNMAPPED : Z := 0xFFFF.

(** The assignments that fill [LINUX_TO_MAIOS]. *)
Definition linux_assignments : list (Z * Z) := [
  (0, SYS_READ);
  (1, SYS_WRITE);
  (2, SYS_OPEN);
  (3, SYS_CLOSE);
  (4, SYS_STAT);
  (5, SYS_FSTAT);
  (8, SYS_LSEEK);
  (16, SYS_IOCTL);
  (17, SYS_PREAD64);
  (19, SYS_READV);
  (20, SYS_WRITEV);
  (21, SYS_ACCESS);
  (72, SYS_FCNTL);
  (79, SYS_GETCWD);
  (257, SYS_OPENAT);
  (292, SYS_DUP3);
  (288, SYS_ACCEPT4);
  (289, SYS_SIGNALFD4);
  (290, SYS_EVENTFD2);
  (291, SYS_EPOLL_CREATE1);
  (293, SYS_PIPE2);
  (9, SYS_MMAP);
  (10, SYS_MPROTECT);
  (11, SYS_MUNMAP);
  (12, SYS_BRK);
  (39, SYS_GETPID);
  (59, SYS_EXECVE);
  (60, SYS_EXIT);
  (61, SYS_WAIT4);
  (62, SYS_KILL);
  (41, SYS_SOCKET);
  (42, SYS_CONNECT);
  (44, SYS_SENDTO);
  (45, SYS_RECVFROM);
  (46, SYS_SENDMSG);
  (47, SYS_RECVMSG);
  (48, SYS_SHUTDOWN);
  (49, SYS_BIND);
  (50, SYS_LISTEN);
  (51, SYS_GETSOCKNAME);
  (52, SYS_GETPEERNAME);
  (53, SYS_SOCKETPAIR);
  (54, SYS_SETSOCKOPT);
  (55, SYS_GETSOCKOPT);
  (56, SYS_CLONE);
  (110, SYS_GETPPID);
  (186, SYS_GETTID);
  (231, SYS_EXIT_GROUP);
  (102, SYS_GETUID);
  (104, SYS_GETGID);
  (107, SYS_GETEUID);
  (108, SYS_GETEGID);
  (7, SYS_POLL);
  (23, SYS_SELECT);
  (26, SYS_MSYNC);
  (27, SYS_MINCORE);
  (13, SYS_RT_SIGACTION);
  (14, SYS_RT_SIGPROCMASK);
  (15, SYS_RT_SIGRETURN);
  (24, SYS_SCHED_YIELD);
  (35, SYS_NANOSLEEP);
  (96, SYS_GETTIMEOFDAY);
  (228, SYS_CLOCK_GETTIME);
  (18, SYS_PWRITE64);
  (22, SYS_PIPE);
  (25, SYS_MREMAP);
  (28, SYS_MADVISE);
  (32, SYS_DUP);
  (33, SYS_DUP2);
  (63, SYS_UNAME);
  (158, SYS_ARCH_PRCTL);
  (318, SYS_GETRANDOM);
  (319, SYS_MEMFD_CREATE);
  (77, SYS_FTRUNCATE);
  (80, SYS_CHDIR);
  (82, SYS_RENAME);
  (83, SYS_MKDIR);
  (87, SYS_UNLINK);
  (89, SYS_READLINK);
  (95, SYS_UMASK);
  (98, SYS_GETRUSAGE);
  (99, SYS_SYSINFO);
  (135, SYS_PERSONALITY);
  (137, SYS_STATFS);
  (138, SYS_FSTATFS);
  (157, SYS_PRCTL);
  (202, SYS_FUTEX);
  (204, SYS_SCHED_GETAFFINITY);
  (217, SYS_GETDENTS64);
  (229, SYS_CLOCK_GETRES);
  (232, SYS_EPOLL_WAIT);
  (233, SYS_EPOLL_CTL);
  (234, SYS_TGKILL);
  (262, SYS_NEWFSTATAT);
  (267, SYS_READLINK);
  (269, SYS_FACCESSAT);
  (270, SYS_PSELECT6);
  (271, SYS_PPOLL);
  (283, SYS_TIMERFD_CREATE);
  (286, SYS_TIMERFD_SETTIME);
  (287, SYS_TIMERFD_GETTIME);
  (218, SYS_SET_TID_ADDRESS);
  (273, SYS_SET_ROBUST_LIST);
  (302, SYS_PRLIMIT64)
].

Definition LINUX_TO_MAIOS_LEN : Z := 450.

Definition LINUX_TO_MAIOS : gmap Z Z := foldl (fun m kv => <[kv.1 := kv.2]> m) ∅ linux_assignments.

Definition linux_to_maios (linux_nr : Z) : Z :=
  if linux_nr <? LINUX_TO_MAIOS_LEN then default UNMAPPED (LINUX_TO_MAIOS !! linux_nr) else UNMAPPED.

Definition ENOSYS : Z := -38.

Definition linux_handle_syscall (fuel : nat) (t : SyscallTable) s (num arg0 arg1 arg2 arg3 arg4 arg5 : Z)
  : outcome (Z * Sys F A W) :=
  let maios_nr := linux_to_maios num in
  if maios_nr =? UNMAPPED then Done (ENOSYS, s)
  else
    let* (result, s) := dispatch fuel t s maios_nr arg0 arg1 arg2 arg3 arg4 arg5 in
    Done (result_to_linux result, s).

End Dispatch.
