(* ===== verification/SysNt.v ===== *)
(** * System calls of Windows programs

    Models kernel/windows_syscall/src/lib.rs: the translation of NT service numbers and the
    adapters for calls that pass values through pointers. *)

From stdpp Require Import gmap.
From S2P Require Import Prelude PteFlags PageTable Paths Io Files Vfs SysTables SysState SysDispatch.

Definition STATUS_SUCCESS : Z := 0.
Definition STATUS_NOT_IMPLEMENTED : Z := nt 0xC0000002.
Definition STATUS_INVALID_PARAMETER : Z := nt 0xC000000D.
Definition STATUS_OBJECT_NAME_NOT_FOUND : Z := nt 0xC0000034.
Definition STATUS_OBJECT_NAME_COLLISION : Z := nt 0xC0000035.

Definition NT_WRITE_FILE : Z := 0x0008.
Definition NT_QUERY_INFORMATION_FILE : Z := 0x0011.
Definition NT_ALLOCATE_VIRTUAL_MEMORY : Z := 0x0018.
Definition NT_QUERY_INFORMATION_PROCESS : Z := 0x0019.
Definition NT_FREE_VIRTUAL_MEMORY : Z := 0x001E.
Definition NT_TERMINATE_PROCESS : Z := 0x002C.
Definition NT_QUERY_PERFORMANCE_COUNTER : Z := 0x0031.
Definition NT_QUERY_SYSTEM_INFORMATION : Z := 0x0036.
Definition NT_CREATE_FILE : Z := 0x0055.

Definition NT_TO_MAIOS : gmap Z Z :=
  <[0x31 := SYS_PERF_COUNTER]> (<[0x2C := SYS_EXIT]> (<[0x50 := SYS_MPROTECT]>
  (<[0x0F := SYS_CLOSE]> (<[0x08 := SYS_WRITE]> (<[0x06 := SYS_READ]> ∅))))).

(** ** Paths *)

Definition BACKSLASH : ascii := "\"%char.

Definition COLON : ascii := ":"%char.

Fixpoint strip_prefix (prefix l : str) : option str :=
  match prefix, l with
  | [], _ => Some l
  | x :: prefix, y :: l => if bool_decide (x = y) then strip_prefix prefix l else None
  | _ :: _, [] => None
  end.

(** From the first slash on. *)
Fixpoint from_slash (l : str) : option str :=
  match l with
  | [] => None
  | x :: l' => if bool_decide (x = SEPARATOR) then Some l else from_slash l'
  end.

Definition nt_path_to_vfs (nt_path : str) : str :=
  let path := (fun c => if bool_decide (c = BACKSLASH) then SEPARATOR else c) <$> nt_path in
  let path :=
    match strip_prefix (lit "/Device/HarddiskVolume") path with
    | Some rest => match from_slash rest with Some p => p | None => lit "/" end
    | None =>
        match strip_prefix (lit "/??/") path with
        | Some rest =>
            match rest with
            | _ :: c :: rest' => if bool_decide (c = COLON) then rest' else SEPARATOR :: rest
            | _ => SEPARATOR :: rest
            end
        | None =>
            match strip_prefix (lit "//./") path with
            | Some rest => SEPARATOR :: rest
            | None => path
            end
        end
    end in
  if str_is_empty path then lit "/" else path.

Section Nt.
Context {bf : Bitflags} {F A W : Type} {file : FsFile F} {io : ByteIO F} {heap : HeapFiles F} {streams : AppIo A}
  {km : KernelMemory W} {drop : DropPages W} {machine : Machine F A W} {loader : Loader F A W}.

Implicit Types s : Sys F A W.

(** What an entry point returns: an NTSTATUS. *)
#[local] Abbreviation nt_result := (outcome (Z * Sys F A W)).

Definition load_u16 s (addr : Z) : Z := le_value (load s addr 2).

(** [n] UTF-16 units; those outside of ASCII become question marks. *)
Fixpoint narrow (n : nat) s (p : Z) : str :=
  match n with
  | O => []
  | S n => (if load_u16 s p <? 0x80 then ascii_of_N (Z.to_N (load_u16 s p)) else "?"%char) :: narrow n s (p + 2)
  end.

Definition read_nt_unicode_string s (ptr : Z) : option str :=
  if ptr =? 0 then None
  else
    let length := load_u16 s ptr in
    let buffer_ptr := load_u64 s (ptr + 8) in
    if (buffer_ptr =? 0) || (length =? 0) then None
    else Some (narrow (Z.to_nat (length / 2)) s buffer_ptr).

(** ** Adapters *)

Definition round_to_pages (size : Z) : Z := Z.land (wrap64 (size + 4096 - 1)) (U64_MAX - 4095).

Definition adapt_nt_allocate_vm (fuel : nat) (t : SyscallTable) s (base_addr_ptr region_size_ptr alloc_type protect : Z)
  : nt_result :=
  if region_size_ptr =? 0 then Done (STATUS_INVALID_PARAMETER, s)
  else
    let requested_size := load_u64 s region_size_ptr in
    if requested_size =? 0 then Done (STATUS_INVALID_PARAMETER, s)
    else
      let* (result, s) := dispatch fuel t s SYS_ALLOC_VM requested_size protect alloc_type 0 0 0 in
      match result with
      | Ok base_addr =>
          let s := if base_addr_ptr =? 0 then s else store s base_addr_ptr (le_bytes 8 base_addr) in
          Done (STATUS_SUCCESS, store s region_size_ptr (le_bytes 8 (round_to_pages requested_size)))
      | Err e => Done (to_ntstatus e, s)
      end.

Definition adapt_nt_free_vm (fuel : nat) (t : SyscallTable) s (base_addr_ptr free_type : Z) : nt_result :=
  if base_addr_ptr =? 0 then Done (STATUS_INVALID_PARAMETER, s)
  else
    let* (result, s) := dispatch fuel t s SYS_FREE_VM (load_u64 s base_addr_ptr) free_type 0 0 0 0 in
    Done (result_to_ntstatus result, s).

Definition adapt_nt_write_file (fuel : nat) (t : SyscallTable) s (handle buffer length : Z) : nt_result :=
  if (buffer =? 0) && (0 <? length) then Done (STATUS_INVALID_PARAMETER, s)
  else
    let* (result, s) := dispatch fuel t s SYS_WRITE handle buffer length 0 0 0 in
    Done (result_to_ntstatus result, s).

Definition adapt_nt_perf_counter (fuel : nat) (t : SyscallTable) s (counter_out frequency_out : Z) : nt_result :=
  let* (result, s) := dispatch fuel t s SYS_PERF_COUNTER counter_out frequency_out 0 0 0 0 in
  Done (result_to_ntstatus result, s).

Definition FILE_SUPERSEDE : Z := 0.
Definition FILE_OPEN : Z := 1.
Definition FILE_CREATE : Z := 2.
Definition FILE_OPEN_IF : Z := 3.
Definition FILE_OVERWRITE : Z := 4.
Definition FILE_OVERWRITE_IF : Z := 5.

Definition disposition_flags (disposition : Z) : Z :=
  if disposition =? FILE_OPEN then 0
  else if disposition =? FILE_CREATE then 0x0241
  else if disposition =? FILE_OPEN_IF then 0x0042
  else if disposition =? FILE_OVERWRITE then 0x0201
  else if disposition =? FILE_OVERWRITE_IF then 0x0242
  else if disposition =? FILE_SUPERSEDE then 0x0242
  else 0.

Definition adapt_nt_create_file (fuel : nat) (t : SyscallTable) s
    (file_handle_ptr object_attributes_ptr io_status_block_ptr extra : Z) : nt_result :=
  if (file_handle_ptr =? 0) || (object_attributes_ptr =? 0) then Done (STATUS_INVALID_PARAMETER, s)
  else
    match read_nt_unicode_string s (load_u64 s (object_attributes_ptr + 16)) with
    | None => Done (STATUS_INVALID_PARAMETER, s)
    | Some nt_path =>
        let vfs_path := nt_path_to_vfs nt_path in
        let disposition := Z.land extra 0x7 in
        let path_bytes := bytes_of_str vfs_path ++ [0] in
        let path_ptr := vec_addr s (Z.of_nat (length path_bytes)) in
        let s := store s path_ptr path_bytes in
        let* (result, s) := dispatch fuel t s SYS_OPEN path_ptr (disposition_flags disposition) 0 0 0 0 in
        match result with
        | Ok handle =>
            let s := store s file_handle_ptr (le_bytes 8 handle) in
            let s := if io_status_block_ptr =? 0 then s
                     else
                       let info := if disposition =? FILE_CREATE then 2 else 1 in
                       store (store s io_status_block_ptr (le_bytes 8 STATUS_SUCCESS)) (io_status_block_ptr + 8)
                         (le_bytes 8 info) in
            Done (STATUS_SUCCESS, s)
        | Err NotFound => Done (STATUS_OBJECT_NAME_NOT_FOUND, s)
        | Err FileExists => Done (STATUS_OBJECT_NAME_COLLISION, s)
        | Err _ => Done (STATUS_INVALID_PARAMETER, s)
        end
    end.

(** [core::ptr::write_bytes(ptr, 0, len)] unless the pointer is null. *)
Definition zero_fill s (ptr len : Z) : Sys F A W :=
  if negb (ptr =? 0) && (0 <? len) then store s ptr (replicate (Z.to_nat len) 0) else s.

Definition adapt_nt_query_information_file s (io_status_block_ptr file_info_ptr length : Z) : nt_result :=
  let s := zero_fill s file_info_ptr length in
  let s := if io_status_block_ptr =? 0 then s
           else store (store s io_status_block_ptr (le_bytes 8 STATUS_SUCCESS)) (io_status_block_ptr + 8) (le_bytes 8 0) in
  Done (STATUS_SUCCESS, s).

Definition adapt_nt_query_system_information s (buffer_ptr buffer_length return_length_ptr : Z) : nt_result :=
  let s := zero_fill s buffer_ptr buffer_length in
  Done (STATUS_SUCCESS, if return_length_ptr =? 0 then s else store s return_length_ptr (le_bytes 4 0)).

Definition adapt_nt_query_information_process s (buffer_ptr buffer_length return_length_ptr : Z) : nt_result :=
  let s := zero_fill s buffer_ptr buffer_length in
  Done (STATUS_SUCCESS, if return_length_ptr =? 0 then s else store s return_length_ptr (le_bytes 4 buffer_length)).

(** ** Entry point *)

Definition nt_handle_syscall (fuel : nat) (t : SyscallTable) s (num arg0 arg1 arg2 arg3 arg4 arg5 : Z) : nt_result :=
  let table_index := Z.land (Z.shiftr num 12) 0x3 in
  let service_num := Z.land num 0xFFF in
  if negb (table_index =? 0) then Done (STATUS_NOT_IMPLEMENTED, s)
  else if service_num =? NT_ALLOCATE_VIRTUAL_MEMORY then adapt_nt_allocate_vm fuel t s arg1 arg3 arg4 arg5
  else if service_num =? NT_FREE_VIRTUAL_MEMORY then adapt_nt_free_vm fuel t s arg1 arg3
  else if service_num =? NT_WRITE_FILE then adapt_nt_write_file fuel t s arg0 arg2 arg3
  else if service_num =? NT_QUERY_PERFORMANCE_COUNTER then adapt_nt_perf_counter fuel t s arg0 arg1
  else if service_num =? NT_CREATE_FILE then adapt_nt_create_file fuel t s arg0 arg2 arg3 arg5
  else if service_num =? NT_QUERY_INFORMATION_FILE then adapt_nt_query_information_file s arg1 arg2 arg3
  else if service_num =? NT_QUERY_SYSTEM_INFORMATION then adapt_nt_query_system_information s arg1 arg2 arg3
  else if service_num =? NT_QUERY_INFORMATION_PROCESS then adapt_nt_query_information_process s arg2 arg3 arg4
  else if service_num =? NT_TERMINATE_PROCESS then
    if (arg0 =? U64_MAX) || (arg0 =? 0) then
      let* (result, s) := dispatch fuel t s SYS_EXIT arg1 0 0 0 0 0 in
      Done (result_to_ntstatus result, s)
    else Done (STATUS_NOT_IMPLEMENTED, s)
  else
    let maios_nr := if service_num <? 256 then default UNMAPPED (NT_TO_MAIOS !! service_num) else UNMAPPED in
    if maios_nr =? UNMAPPED then Done (STATUS_NOT_IMPLEMENTED, s)
    else
      let* (result, s) := dispatch fuel t s maios_nr arg0 arg1 arg2 arg3 arg4 arg5 in
      Done (result_to_ntstatus result, s).

End Nt.
