(* ===== verification/SysProps.v ===== *)
(** * System calls: numbers, results, descriptors and time

    What holds of the translation and dispatch of calls whatever the handlers do, of the
    descriptors a table hands out, and of waiting and calendar time. *)

From stdpp Require Import gmap.
From S2P Require Import Prelude PteFlags PageTable Io Files Vfs SysTables SysState SysFileIo SysMemory SysMisc SysDispatch SysNt.

(** ** Results *)

Lemma linux_errno_range (e : SyscallError) : -4095 <= to_linux_errno e <= -1.
Proof. by destruct e. Qed.

Lemma linux_errno_inj (e e' : SyscallError) : to_linux_errno e = to_linux_errno e' -> e = e'.
Proof. destruct e, e'; cbn; (done || lia). Qed.

(** A value that a Linux program can tell from an error. *)
Definition positive (r : SyscallResult) : Prop := match r with Ok v => 0 <= v < 2 ^ 63 | Err _ => True end.

(** Linux programs can decode what they get: for values below 2{^63}, the returned number is negative exactly for an
    error, within the range that C libraries take for one, and different results give different numbers. *)
Theorem linux_results_decodable (r r' : SyscallResult) :
  positive r -> positive r' ->
  (result_to_linux r < 0 <-> exists e, r = Err e) /\ (result_to_linux r < 0 -> -4095 <= result_to_linux r) /\
  (result_to_linux r = result_to_linux r' -> r = r').
Proof.
  intros Hr Hr'. pose proof linux_errno_range as Hrange.
  assert (forall v, 0 <= v < 2 ^ 63 -> as_i64 v = v) as Hid by (intros; apply as_i64_id; lia).
  destruct r as [v | e], r' as [v' | e']; cbn in *; rewrite ?Hid by done.
  - split; [split; [lia | by intros []] |]. split; [lia | by intros ->].
  - split; [split; [lia | by intros []] |]. split; [lia |]. specialize (Hrange e'). lia.
  - specialize (Hrange e). split; [split; [eauto | lia] |]. lia.
  - specialize (Hrange e). split; [split; [eauto | lia] |]. split; [lia |]. intros E. f_equal. by apply linux_errno_inj.
Qed.

Lemma linux_results_decodable_witness :
  positive (Ok 3) /\ (result_to_linux (Err NotFound) < 0 <-> exists e, @Err Z SyscallError NotFound = Err e) /\
  (result_to_linux (Err NotFound) < 0 -> -4095 <= result_to_linux (Err NotFound)) /\
  (result_to_linux (Err NotFound) = result_to_linux (Ok 3) -> Err NotFound = Ok 3).
Proof. split; [cbn; lia |]. apply (linux_results_decodable (Err NotFound) (Ok 3)); [exact I | cbn; lia]. Defined.

(** Errors of Windows programs share codes: a bad image is an access violation. *)
Example ntstatus_not_injective : to_ntstatus NotExecutable = to_ntstatus Fault /\ 0 < to_ntstatus WouldBlock.
Proof. vm_compute. auto. Qed.

(** ** Dispatch *)

Definition handler_entries : list (Z * Handler) := fst <$> (fst <$> registrations).

Lemma init_table : exists t, syscall_init boot_table = Done t /\ SYSCALL_TABLE t = list_to_map handler_entries.
Proof. eexists. split; [vm_compute; reflexivity |]. vm_compute. reflexivity. Qed.

Lemma handler_entries_nodup : NoDup handler_entries.*1.
Proof. apply (bool_decide_unpack (NoDup handler_entries.*1)). vm_compute. exact I. Qed.

Lemma handler_entries_range : Forall (fun nr => (nr < MAX_SYSCALL_NR)) handler_entries.*1.
Proof. apply (bool_decide_unpack (Forall (fun nr => (nr < MAX_SYSCALL_NR)) handler_entries.*1)). vm_compute. exact I. Qed.

Lemma linux_keys_nodup : NoDup linux_assignments.*1.
Proof. apply (bool_decide_unpack (NoDup linux_assignments.*1)). vm_compute. exact I. Qed.

(** Every Linux number of the table is in its range and has a registered handler. *)
Lemma linux_assignments_ok :
  Forall (fun kv => kv.1 < LINUX_TO_MAIOS_LEN /\ kv.2 <> UNMAPPED /\ kv.2 ∈ handler_entries.*1) linux_assignments.
Proof.
  apply (bool_decide_unpack (Forall (fun kv => kv.1 < LINUX_TO_MAIOS_LEN /\ kv.2 <> UNMAPPED /\ kv.2 ∈ handler_entries.*1)
                               linux_assignments)).
  vm_compute. exact I.
Qed.

Lemma linux_map_eq : LINUX_TO_MAIOS = list_to_map linux_assignments.
Proof. vm_compute. reflexivity. Qed.

Section Dispatch.
Context {bf : Bitflags} {F A W : Type} {file : FsFile F} {io : ByteIO F} {heap : HeapFiles F} {streams : AppIo A}
  {km : KernelMemory W} {drop : DropPages W} {machine : Machine F A W} {loader : Loader F A W}.

Implicit Types s : Sys F A W.

Lemma dispatch_registered (fuel : nat) (t : SyscallTable) s (nr : Z) (h : Handler) (a0 a1 a2 a3 a4 a5 : Z) :
  SYSCALL_TABLE t = list_to_map handler_entries -> (nr, h) ∈ handler_entries ->
  dispatch fuel t s nr a0 a1 a2 a3 a4 a5 = run_handler fuel s h a0 a1 a2 a3 a4 a5.
Proof.
  intros Ht Hin. unfold dispatch. rewrite Ht.
  assert (nr < MAX_SYSCALL_NR) as Hr.
  { pose proof handler_entries_range as H. rewrite Forall_forall in H. apply H. by apply (list_elem_of_fmap_2' fst _ (nr, h)). }
  rewrite (proj2 (Z.leb_gt _ _)) by done.
  by rewrite (proj1 (elem_of_list_to_map _ _ _ handler_entries_nodup) Hin).
Qed.

(** The handler of a Linux number, through both tables. *)
Definition linux_handler (num : Z) : option Handler :=
  LINUX_TO_MAIOS !! num ≫= fun nr => (list_to_map handler_entries : gmap Z Handler) !! nr.

Lemma linux_reaches (fuel : nat) (t : SyscallTable) s (num : Z) (h : Handler) (a0 a1 a2 a3 a4 a5 : Z) :
  SYSCALL_TABLE t = list_to_map handler_entries -> linux_handler num = Some h ->
  linux_handle_syscall fuel t s num a0 a1 a2 a3 a4 a5 =
    (let* (r, s') := run_handler fuel s h a0 a1 a2 a3 a4 a5 in Done (result_to_linux r, s')).
Proof.
  intros Ht. unfold linux_handler. destruct (LINUX_TO_MAIOS !! num) as [nr |] eqn:En; cbn [mbind option_bind]; [| done]. intros Eh.
  apply elem_of_list_to_map_2 in Eh as Hin. unfold linux_handle_syscall, linux_to_maios. rewrite En.
  rewrite linux_map_eq in En. apply elem_of_list_to_map_2 in En. pose proof linux_assignments_ok as Hok. rewrite Forall_forall in Hok.
  destruct (Hok _ En) as (Hlen & Hun & _). cbn [fst snd] in *. rewrite (proj2 (Z.ltb_lt _ _)) by done.
  cbn [default fst]. rewrite (proj2 (Z.eqb_neq _ _)) by done. by rewrite (dispatch_registered _ _ _ _ h) by done.
Qed.

(** The reference: the calls of the Linux ABI for x86-64 by their numbers, with what the
    kernel runs for them, on the arguments by their position in the registers.  The functions
    [sys_bad_fd] and [sys_not_implemented] stand for the sockets, timers, signal and memory
    files and the [clone] that the kernel does not have. *)
Definition linux_abi (fuel : nat) s (a0 a1 a2 a3 a4 a5 : Z) : list (Z * handled F A W) := [
  (0, sys_read s a0 a1 a2);
  (1, sys_write s a0 a1 a2);
  (2, sys_open s a0 a1);
  (3, sys_close s a0);
  (4, sys_stat s a0 a1);
  (5, sys_fstat s a0 a1);
  (7, sys_poll fuel s a0 a1 a2);
  (8, sys_lseek s a0 a1 a2);
  (9, sys_mmap s a0 a1 a2 a3);
  (10, sys_mprotect s);
  (11, sys_munmap s a0 a1);
  (12, sys_brk s a0);
  (13, sys_rt_sigaction s a0 a2 a3);
  (14, sys_rt_sigprocmask s a0 a2 a3);
  (15, sys_rt_sigreturn s);
  (16, sys_ioctl s a0 a1 a2);
  (17, sys_pread64 s a0 a1 a2 a3);
  (18, sys_pwrite64 s a0 a1 a2 a3);
  (19, sys_readv s a0 a1 a2);
  (20, sys_writev s a0 a1 a2);
  (21, sys_access s a0 a1);
  (22, sys_pipe s a0);
  (23, sys_select fuel s a4);
  (24, sys_sched_yield s);
  (25, sys_mremap s);
  (26, sys_msync s);
  (27, sys_mincore s a1 a2);
  (28, sys_madvise s);
  (32, sys_dup s a0);
  (33, sys_dup2 s a0 a1);
  (35, sys_nanosleep fuel s a0 a1);
  (39, sys_getpid s);
  (41, sys_not_implemented s);
  (42, sys_bad_fd s);
  (44, sys_bad_fd s);
  (45, sys_bad_fd s);
  (46, sys_bad_fd s);
  (47, sys_bad_fd s);
  (48, sys_bad_fd s);
  (49, sys_bad_fd s);
  (50, sys_bad_fd s);
  (51, sys_bad_fd s);
  (52, sys_bad_fd s);
  (53, sys_not_implemented s);
  (54, sys_bad_fd s);
  (55, sys_bad_fd s);
  (56, sys_not_implemented s);
  (59, sys_execve s a0);
  (60, sys_exit s a0);
  (61, sys_wait4 s a2);
  (62, sys_kill s a0 a1);
  (63, sys_uname s a0);
  (72, sys_fcntl s a0 a1 a2);
  (77, sys_ftruncate s);
  (79, sys_getcwd s a0 a1);
  (80, sys_chdir s a0);
  (82, sys_rename s);
  (83, sys_mkdir s);
  (87, sys_unlink s);
  (89, sys_readlink s a0 a1 a2);
  (95, sys_umask s);
  (96, sys_gettimeofday s a0);
  (98, sys_getrusage s a1);
  (99, sys_sysinfo s a0);
  (102, sys_getuid s);
  (104, sys_getuid s);
  (107, sys_getuid s);
  (108, sys_getuid s);
  (110, sys_getppid s);
  (135, sys_personality s);
  (137, sys_statfs s a1);
  (138, sys_fstatfs s a1);
  (157, sys_prctl s a0 a1);
  (158, sys_arch_prctl s a0 a1);
  (186, sys_gettid s);
  (202, sys_futex fuel s a0 a1 a2 a3);
  (204, sys_sched_getaffinity s a1 a2);
  (217, sys_getdents64 s a0 a1 a2);
  (218, sys_set_tid_address s a0);
  (228, sys_clock_gettime s a0 a1);
  (229, sys_clock_getres s a0 a1);
  (231, sys_exit_group s a0);
  (232, sys_epoll_wait fuel s a3);
  (233, sys_epoll_ctl s);
  (234, sys_tgkill s a2);
  (257, sys_openat s a0 a1 a2);
  (262, sys_newfstatat s a0 a1 a2);
  (269, sys_faccessat s a0 a1 a2);
  (270, sys_pselect6 fuel s a4);
  (271, sys_ppoll fuel s a0 a1 a2);
  (273, sys_set_robust_list s);
  (283, sys_not_implemented s);
  (286, sys_bad_fd s);
  (287, sys_bad_fd s);
  (288, sys_bad_fd s);
  (289, sys_not_implemented s);
  (290, sys_eventfd2 s);
  (291, sys_epoll_create1 s);
  (292, sys_dup3 s a0 a1 a2);
  (293, sys_pipe2 s a0 a1);
  (302, sys_prlimit64 s a1 a3);
  (318, sys_getrandom s a0 a1);
  (319, sys_not_implemented s)
].

Lemma linux_abi_keys (fuel : nat) s (a0 a1 a2 a3 a4 a5 num : Z) :
  num ∉ (linux_abi fuel s a0 a1 a2 a3 a4 a5).*1 -> num <> 267 -> num ∉ linux_assignments.*1.
Proof.
  change ((linux_abi fuel s a0 a1 a2 a3 a4 a5).*1) with ([0; 1; 2; 3; 4; 5; 7; 8; 9; 10; 11; 12; 13; 14; 15; 16; 17; 18; 19; 20; 21; 22; 23; 24; 25; 26; 27; 28; 32; 33; 35; 39; 41; 42; 44; 45; 46; 47; 48; 49; 50; 51; 52; 53; 54; 55; 56; 59; 60; 61; 62; 63; 72; 77; 79; 80; 82; 83; 87; 89; 95; 96; 98; 99; 102; 104; 107; 108; 110; 135; 137; 138; 157; 158; 186; 202; 204; 217; 218; 228; 229; 231; 232; 233; 234; 257; 262; 269; 270; 271; 273; 283; 286; 287; 288; 289; 290; 291; 292; 293; 302; 318; 319] : list Z).
  match goal with |- num ∉ ?l -> _ => assert (Forall (fun x => x ∈ l \/ x = 267) linux_assignments.*1) as H
    by (apply (bool_decide_unpack (Forall (fun x => x ∈ l \/ x = 267) linux_assignments.*1)); vm_compute; exact I) end.
  intros Hn H267 Hin. rewrite Forall_forall in H. by destruct (H num Hin).
Qed.

(** C23: Linux programs get the calls they ask for.  After [init], a system call with a number
    of the Linux ABI for x86-64 runs what that ABI says for the number (the reference
    [linux_abi]), on the arguments in their order, and returns the result in Linux form; every
    number that is not in the reference returns [ENOSYS] and changes nothing, except 267:
    [readlinkat] is served as [readlink], see [readlinkat_takes_the_descriptor_for_the_path]. *)
Theorem linux_calls_reach_handlers (fuel : nat) s (a0 a1 a2 a3 a4 a5 : Z) :
  exists t, syscall_init boot_table = Done t /\
    (forall num run, (num, run) ∈ linux_abi fuel s a0 a1 a2 a3 a4 a5 ->
       linux_handle_syscall fuel t s num a0 a1 a2 a3 a4 a5 =
         (let* (r, s') := run in Done (result_to_linux r, s'))) /\
    (forall num, num ∉ (linux_abi fuel s a0 a1 a2 a3 a4 a5).*1 -> num <> 267 ->
       linux_handle_syscall fuel t s num a0 a1 a2 a3 a4 a5 = Done (ENOSYS, s)).
Proof.
  destruct init_table as (t & Ei & Et). exists t. split; [done |]. split.
  - intros num run Hin. revert num run Hin.
    enough (Forall (fun e => linux_handle_syscall fuel t s e.1 a0 a1 a2 a3 a4 a5 = (let* (r, s') := e.2 in Done (result_to_linux r, s')))
              (linux_abi fuel s a0 a1 a2 a3 a4 a5)) as H
      by (intros num run Hin; exact (proj1 (Forall_forall _ _) H (num, run) Hin)).
    unfold linux_abi. repeat (apply Forall_cons_2; [cbn [fst snd]; erewrite linux_reaches by (done || (vm_compute; reflexivity)); reflexivity |]).
    apply Forall_nil_2.
  - intros num Hn H267. apply linux_abi_keys in Hn; [| done]. unfold linux_handle_syscall, linux_to_maios. rewrite linux_map_eq.
    rewrite (not_elem_of_list_to_map_1 _ _ Hn). by case_cmp.
Qed.

(** The Linux number 267 is [readlinkat], whose arguments are a directory, a path, a buffer
    and its size.  It runs [readlink], which takes the directory for the path, the path for the
    buffer and the buffer for the size. *)
Theorem readlinkat_takes_the_descriptor_for_the_path (fuel : nat) s (dirfd path buf size : Z) :
  exists t, syscall_init boot_table = Done t /\
    linux_handle_syscall fuel t s 267 dirfd path buf size 0 0 =
      (let* (r, s') := sys_readlink s dirfd path buf in Done (result_to_linux r, s')).
Proof.
  destruct init_table as (t & Ei & Et). exists t. split; [done |].
  erewrite linux_reaches by (done || (vm_compute; reflexivity)). reflexivity.
Qed.

End Dispatch.

(** ** Calendar time *)

Definition leap (y : Z) : bool := (y mod 4 =? 0) && (negb (y mod 100 =? 0) || (y mod 400 =? 0)).

Definition year_days (y : Z) : Z := if leap y then 366 else 365.

Definition month_days (y m : Z) : Z :=
  if m =? 2 then (if leap y then 29 else 28)
  else if (m =? 4) || (m =? 6) || (m =? 9) || (m =? 11) then 30 else 31.

(** The days before the year [1970 + n], and before month [m], counted one by one. *)
Fixpoint days_before_year (n : nat) : Z :=
  match n with
  | O => 0
  | S n => days_before_year n + year_days (1970 + Z.of_nat n)
  end.

Fixpoint days_before_month (y : Z) (n : nat) : Z :=
  match n with
  | O => 0
  | S n => days_before_month y n + month_days y (Z.of_nat n + 1)
  end.

Lemma leap_spec (y : Z) : 0 < y -> y / 4 - y / 100 + y / 400 = (y - 1) / 4 - (y - 1) / 100 + (y - 1) / 400 + (if leap y then 1 else 0).
Proof.
  intros Hy. unfold leap.
  pose proof (Z.div_mod y 4). pose proof (Z.div_mod y 100). pose proof (Z.div_mod y 400).
  pose proof (Z.div_mod (y - 1) 4). pose proof (Z.div_mod (y - 1) 100). pose proof (Z.div_mod (y - 1) 400).
  pose proof (Z.mod_pos_bound y 4). pose proof (Z.mod_pos_bound y 100). pose proof (Z.mod_pos_bound y 400).
  pose proof (Z.mod_pos_bound (y - 1) 4). pose proof (Z.mod_pos_bound (y - 1) 100). pose proof (Z.mod_pos_bound (y - 1) 400).
  destruct (Z.eqb_spec (y mod 4) 0), (Z.eqb_spec (y mod 100) 0), (Z.eqb_spec (y mod 400) 0); cbn [andb orb negb]; lia.
Qed.

(** Years that start in March: the days before such a year. *)
Definition march_days (y : Z) : Z := 365 * y + y / 4 - y / 100 + y / 400.

Lemma days_before_year_eq (n : nat) : days_before_year n = march_days (1969 + Z.of_nat n) + 306 - 719468.
Proof.
  induction n as [| n IH]; [done |]. cbn [days_before_year]. rewrite IH. unfold march_days, year_days.
  pose proof (leap_spec (1970 + Z.of_nat n)) as H. replace (1970 + Z.of_nat n - 1) with (1969 + Z.of_nat n) in H by lia.
  replace (1969 + Z.of_nat (S n)) with (1970 + Z.of_nat n) by lia. destruct (leap _); lia.
Qed.

Lemma days_before_month_eq (y : Z) (m : nat) :
  (m < 12)%nat ->
  days_before_month y m =
    if (m <? 2)%nat then (306 * (Z.of_nat m + 10) + 5) / 10 - 306
    else (306 * (Z.of_nat m - 2) + 5) / 10 + 59 + (if leap y then 1 else 0).
Proof.
  intros Hm. do 12 (destruct m as [| m]; [by cbn; unfold month_days; cbn; destruct (leap y) |]). lia.
Qed.

(** The seconds that [rtc_to_unix_secs] computes in closed form are those of the calendar: the days of the whole years
    since 1970 and of the whole months of the year, with leap years, counted one by one, and the time of the day.  It
    covers every date the real-time clock can show. *)
Theorem rtc_seconds_follow_calendar (y m d hour min sec : Z) :
  1970 <= y -> 1 <= m <= 12 ->
  rtc_to_unix_secs y m d hour min sec =
    (days_before_year (Z.to_nat (y - 1970)) + days_before_month y (Z.to_nat (m - 1)) + (d - 1)) * 86400 +
    hour * 3600 + min * 60 + sec.
Proof.
  intros Hy Hm. rewrite days_before_year_eq, days_before_month_eq by lia. rewrite !Z2Nat.id by lia.
  unfold rtc_to_unix_secs, march_days. replace (1969 + (y - 1970)) with (y - 1) by lia.
  pose proof (leap_spec y) as Hl. destruct (Nat.ltb_spec (Z.to_nat (m - 1)) 2), (Z.leb_spec m 2); try lia.
  - rewrite !Z.quot_div_nonneg by lia. replace ((m + 9) * 306 + 5) with (306 * (m - 1 + 10) + 5) by lia. lia.
  - rewrite !Z.quot_div_nonneg by lia. replace ((m - 3) * 306 + 5) with (306 * (m - 1 - 2) + 5) by lia.
    destruct (leap y); lia.
Qed.

Lemma rtc_seconds_follow_calendar_witness :
  rtc_to_unix_secs 2024 2 29 12 0 0 = 1709208000 /\
  rtc_to_unix_secs 2024 2 29 12 0 0 =
    (days_before_year (Z.to_nat (2024 - 1970)) + days_before_month 2024 (Z.to_nat (2 - 1)) + (29 - 1)) * 86400 +
    12 * 3600 + 0 * 60 + 0.
Proof. split; [reflexivity |]. apply (rtc_seconds_follow_calendar 2024 2 29 12 0 0); lia. Defined.

(** ** Waiting *)

Section Waiting.
Context {F A W : Type} {km : KernelMemory W} {machine : Machine F A W}.

Implicit Types s : Sys F A W.

(** Yielding the processor takes at least one tick of the clock. *)
Definition clock_advances : Prop := forall s, instant_now s < instant_now (schedule s).

Definition ticks (nanos : Z) : Z := wrap64 (nanos * 1000000 / period).

Lemma futex_loop_returns (fuel : nat) s (uaddr expected deadline : Z) :
  clock_advances -> deadline - instant_now s < Z.of_nat fuel -> (0 < fuel)%nat ->
  exists s', (futex_loop fuel s uaddr expected deadline = Done (Ok 0, s') /\ futex_word s' uaddr <> expected) \/
             (futex_loop fuel s uaddr expected deadline = Done (Err WouldBlock, s') /\
              futex_word s' uaddr = expected /\ deadline <= instant_now s').
Proof.
  intros Hadv. revert s. induction fuel as [| fuel IH]; intros s Hf Hpos; [lia |]. cbn [futex_loop].
  destruct (Z.eqb_spec (futex_word s uaddr) expected) as [E | E]; cbn [negb]; [| exists s; by left].
  destruct (Z.leb_spec deadline (instant_now s)); [exists s; by right |].
  specialize (Hadv s). apply IH; lia.
Qed.

(** The nanoseconds of the [timespec] at [ptr], as the wait reads them. *)
Definition timespec_nanos s (ptr : Z) : Z := load_u64 s ptr * 1000000000 + load_u64 s (ptr + 8) mod 2 ^ 32.

(** The ticks a wait lasts at most: those of its timeout, if it has one, and of 100 ms. *)
Definition wait_ticks s (timeout_ptr : Z) : Z :=
  if timeout_ptr =? 0 then ticks 100000000 else Z.min (ticks (timespec_nanos s timeout_ptr)) (ticks 100000000).

(** The instant at which the timeout ends can be represented. *)
Definition timeout_fits s (timeout_ptr : Z) : Prop :=
  timeout_ptr <> 0 ->
  load_u64 s timeout_ptr + load_u64 s (timeout_ptr + 8) mod 2 ^ 32 / 1000000000 <= U64_MAX /\
  instant_now s + ticks (timespec_nanos s timeout_ptr) <= U64_MAX.

Lemma ticks_nonneg (n : Z) : 0 <= ticks n.
Proof. apply wrap64_in. Qed.

Lemma instant_add_ok (now n : Z) : 0 < period -> now + ticks n <= U64_MAX -> instant_add now n = Done (now + ticks n).
Proof.
  intros Hp Hmax. unfold instant_add. rewrite (proj2 (Z.eqb_neq _ _)) by lia. fold (ticks n). by rewrite (proj2 (Z.ltb_ge _ _)) by lia.
Qed.


End Waiting.
