(* ===== verification/SysFileProps.v ===== *)
(** * System calls on files: properties

    The calls on heap files, through descriptors and the virtual file system: what is
    written is read back, a created file is found again, descriptors are not reused, and
    the cases in which the calls deviate from what they announce. *)

From stdpp Require Import gmap.
From S2P Require Import Prelude MemStructs PteFlags PageTable Paths PathSpec PathProps Io IoSpec Files Vfs VfsProps.
From S2P Require Import SysTables SysState SysFileIo.

Section FileProps.
Context {bf : Bitflags} {A W : Type} {streams : AppIo A} {km : KernelMemory W} {drop : DropPages W}
  {laws : KernelMemoryLaws W}.

#[local] Abbreviation Sys := (Sys HeapFile A W).

Implicit Types s : Sys.

(** ** The state *)

(** Descriptor [fd] of the current task is open on file [f], which is [x], at [off]. *)
Definition opened s (fd : Z) (f : nat) (off : Z) (x : HeapFile) : Prop :=
  table_get (my_table s) fd = Some (RFile f off) /\ vfiles (s_vfs s) !! f = Some x.

Lemma my_table_set s (t : ResourceTable) : my_table (set_my_table s t) = t.
Proof. unfold my_table, set_my_table, task_table. cbn [s_tables set_tables s_task]. by rewrite lookup_insert_eq. Qed.

Lemma table_get_set (t : ResourceTable) (h : Z) (r : Resource) : table_get (table_set t h r) h = Some r.
Proof. apply lookup_insert_eq. Qed.

Lemma file_of_opened s (fd : Z) (f : nat) (off : Z) (x : HeapFile) : opened s fd f off x -> file_of s f = Done x.
Proof. intros [_ E]. unfold file_of. by rewrite E. Qed.

Lemma load_store s (addr : Z) (l : list Z) : load (store s addr l) addr (Z.of_nat (length l)) = l.
Proof.
  unfold load, store. cbn [s_mem set_mem]. rewrite (seg_ext _ (upd (km_bytes (s_mem s)) addr l)); [apply seg_upd |].
  intros i _. apply km_store_law.
Qed.

(** ** Reading, writing and seeking *)

(** The state after a transfer: the file is [x], the descriptor has moved to [off]. *)
Definition after s (fd : Z) (f : nat) (off : Z) (x : HeapFile) : Sys :=
  set_my_table (set_file (set_my_table s (my_table s)) f x) (table_set (my_table s) fd (RFile f off)).

Lemma after_opened s (fd : Z) (f : nat) (off : Z) (x : HeapFile) : opened (after s fd f off x) fd f off x.
Proof.
  split; [unfold after; rewrite my_table_set; apply table_get_set |]. apply lookup_insert_eq.
Qed.

Lemma after_other s (fd : Z) (f : nat) (off : Z) (x : HeapFile) (f' : nat) :
  f' <> f -> vfiles (s_vfs (after s fd f off x)) !! f' = vfiles (s_vfs s) !! f'.
Proof. intros. apply lookup_insert_ne. congruence. Qed.

Lemma sys_write_ok s (fd p n : Z) (f : nat) (off : Z) (x : HeapFile) :
  opened s fd f off x -> p <> 0 -> 0 < n -> 0 <= off -> off + n <= U64_MAX ->
  exists x', hf_write_at x (load s p n) off = Done (Ok n, x') /\
    sys_write s fd p n = Done (Ok n, after s fd f (off + n) x') /\
    hf_len x' = Z.max (hf_len x) (off + n) /\ forall i, hf_bytes x' i = upd (hf_bytes x) off (load s p n) i.
Proof.
  intros [Et Ef] Hp Hn Ho He. assert (Z.of_nat (length (load s p n)) = n) as Hl by (apply seg_length; lia).
  destruct (hf_write_ok x (load s p n) off) as (x' & E & El & _ & _ & Hb); [done | lia |]. rewrite Hl in *.
  exists x'. split; [done |]. split; [| done]. unfold sys_write. rewrite (proj2 (Z.eqb_neq p 0)) by done. cbn [andb].
  rewrite (proj2 (Z.eqb_neq n 0)) by lia. cbv zeta. unfold write_target. rewrite Et.
  unfold file_of. cbn [s_vfs set_my_table set_tables]. rewrite Ef. cbn [expect outcome_bind].
  change (write_at x (load s p n) off) with (hf_write_at x (load s p n) off). rewrite E. cbn [outcome_bind].
  rewrite wrap64_id by (split; lia). done.
Qed.

Lemma sys_read_ok s (fd p n : Z) (f : nat) (off : Z) (x : HeapFile) :
  opened s fd f off x -> p <> 0 -> 0 < n <= ISIZE_MAX -> 0 <= off -> off + n <= U64_MAX ->
  sys_read s fd p n =
    if hf_len x <=? off then Done (Err IoFailure, set_file (set_my_table s (my_table s)) f x)
    else
      let m := Z.min (hf_len x - off) n in
      Done (Ok m, set_my_table (store (set_file (set_my_table s (my_table s)) f x) p (seg (hf_bytes x) off m))
                    (table_set (my_table s) fd (RFile f (off + m)))).
Proof.
  intros [Et Ef] Hp Hn Ho He. unfold sys_read. rewrite (proj2 (Z.eqb_neq p 0)), (proj2 (Z.eqb_neq n 0)) by lia. cbn [orb].
  cbv zeta. unfold read_target. rewrite Et. unfold zeroed. rewrite (proj2 (Z.ltb_ge _ _)) by lia. cbn [outcome_bind].
  unfold file_of. cbn [s_vfs set_my_table set_tables]. rewrite Ef. cbn [expect outcome_bind].
  set (buf := replicate (Z.to_nat n) 0). assert (Z.of_nat (length buf) = n) as Hb by (subst buf; rewrite length_replicate; lia).
  change (read_at x buf off) with (hf_read_at x buf off). rewrite hf_read_ok by done.
  destruct (Z.leb_spec (hf_len x) off); [done |]. cbv zeta. rewrite Hb. cbn [outcome_bind].
  set (m := Z.min (hf_len x - off) n). rewrite wrap64_id by (split; lia). do 4 f_equal.
  rewrite take_app_length' by (pose proof (seg_length (hf_bytes x) off m); lia). done.
Qed.

Lemma sys_lseek_set_ok s (fd : Z) (f : nat) (off : Z) (x : HeapFile) (pos : Z) :
  opened s fd f off x -> 0 <= pos < 2 ^ 63 ->
  sys_lseek s fd pos SEEK_SET = Done (Ok pos, set_my_table (set_my_table s (my_table s)) (table_set (my_table s) fd (RFile f pos))).
Proof.
  intros [Et Ef] Hp. unfold sys_lseek. rewrite (as_i64_id pos) by lia. change (as_i32 SEEK_SET) with 0. cbv zeta. rewrite Et.
  unfold file_of. cbn [s_vfs set_my_table set_tables]. rewrite Ef. cbn [expect outcome_bind Z.eqb SEEK_SET].
  rewrite (proj2 (Z.ltb_ge _ _)) by lia. done.
Qed.

(** C22: What a task writes through a descriptor it reads back after seeking to where it wrote: the bytes of its buffer
    arrive in another one.  The file has grown to hold them, the descriptor has moved behind them, and no other file has
    changed. *)
Theorem written_bytes_read_back s (fd p q n : Z) (f : nat) (off : Z) (x : HeapFile) :
  opened s fd f off x -> p <> 0 -> q <> 0 -> 0 < n <= ISIZE_MAX -> 0 <= off -> off + n < 2 ^ 63 ->
  exists s1 s2 s3 x',
    sys_write s fd p n = Done (Ok n, s1) /\ sys_lseek s1 fd off SEEK_SET = Done (Ok off, s2) /\
    sys_read s2 fd q n = Done (Ok n, s3) /\ load s3 q n = load s p n /\
    opened s3 fd f (off + n) x' /\ hf_len x' = Z.max (hf_len x) (off + n) /\
    forall f', f' <> f -> vfiles (s_vfs s3) !! f' = vfiles (s_vfs s) !! f'.
Proof.
  intros Hop Hp Hq Hn Ho He. assert (2 ^ 63 <= U64_MAX) by done.
  destruct (sys_write_ok s fd p n f off x) as (x' & _ & E1 & El & Hb); [done | done | lia | done | lia |].
  set (s1 := after s fd f (off + n) x') in *. pose proof (after_opened s fd f (off + n) x') as H1. fold s1 in H1.
  pose proof (sys_lseek_set_ok s1 fd f (off + n) x' off H1 ltac:(lia)) as E2.
  set (s2 := set_my_table _ (table_set (my_table s1) fd (RFile f off))) in E2.
  assert (opened s2 fd f off x') as H2.
  { split; [unfold s2; rewrite my_table_set; apply table_get_set | apply H1]. }
  pose proof (sys_read_ok s2 fd q n f off x' H2 Hq Hn Ho ltac:(lia)) as E3.
  rewrite (proj2 (Z.leb_gt _ _)) in E3 by lia. cbv zeta in E3. rewrite Z.min_r in E3 by lia.
  eexists s1, s2, _, x'. split; [done |]. split; [done |]. split; [exact E3 |].
  assert (seg (hf_bytes x') off n = load s p n) as Es.
  { assert (Z.of_nat (length (load s p n)) = n) as Hl by (apply seg_length; lia).
    rewrite (seg_ext _ (upd (hf_bytes x) off (load s p n))) by auto.
    pose proof (seg_upd (hf_bytes x) off (load s p n)) as Hs. by rewrite Hl in Hs. }
  split.
  - rewrite Es. assert (Z.of_nat (length (load s p n)) = n) as Hl by (apply seg_length; lia).
    pose proof (load_store s2 q (load s p n)) as Hs. rewrite Hl in Hs. exact Hs.
  - split; [split; [rewrite my_table_set; apply table_get_set | apply lookup_insert_eq] |]. split; [done |].
    intros f' Hf'. transitivity (vfiles (s_vfs s1) !! f'); [apply lookup_insert_ne; congruence | by apply after_other].
Qed.

(** At the end of a file, [sys_read] fails with an I/O error instead of returning 0 bytes: a program that reads until
    the end sees [EIO], although [sys_readv] takes 0 for the end of the file. *)
Theorem read_at_end_of_file_fails s (fd p n : Z) (f : nat) (x : HeapFile) :
  opened s fd f (hf_len x) x -> p <> 0 -> 0 < n <= ISIZE_MAX -> hf_len x + n <= U64_MAX ->
  exists s', sys_read s fd p n = Done (Err IoFailure, s').
Proof.
  intros Hop Hp Hn He. rewrite (sys_read_ok s fd p n f (hf_len x) x Hop Hp Hn) by (unfold hf_len in *; lia).
  rewrite Z.leb_refl. by eexists.
Qed.

(** ** Creating *)

Lemma path_of_parent (path before filename : str) :
  rsplit_once SEPARATOR path = Some (before, filename) -> path_name filename ->
  parse path = parse (if str_is_empty before then lit "/" else before) ++ [Normal filename].
Proof.
  intros E Hn. apply rsplit_once_app in E as [-> _]. destruct before as [| c before].
  - exact (parse_absolute [filename] (Forall_cons_2 _ _ _ Hn (Forall_nil_2 _))).
  - change (str_is_empty (c :: before)) with false. cbv iota.
    destruct (parse_from_iter [Normal filename]) as [Hp Ha]; [by apply Forall_singleton |].
    change (from_iter (component_str <$> [Normal filename])) with filename in Hp, Ha.
    pose proof (join_components (c :: before) filename ltac:(done)) as Hj. unfold join, push in Hj. rewrite Ha in Hj.
    etransitivity; [exact Hj |]. by rewrite Hp.
Qed.

Implicit Types v : Vfs HeapFile.

Lemma walk_mono v v' :
  (forall d name n, dir_get v d name = Some n -> dir_get v' d name = Some n) ->
  (forall d, get_parent_dir v' (DirNode d) = get_parent_dir v (DirNode d)) ->
  forall l d n, walk v d l = Some n -> walk v' d l = Some n.
Proof.
  intros Hget Hpar l. induction l as [| c l IH]; intros d n; cbn [walk]; [done |]. destruct c; [apply IH | apply IH | |].
  - rewrite Hpar. destruct (get_parent_dir v (DirNode d)); [apply IH | done].
  - destruct l as [| c l]; [apply Hget |].
    destruct (dir_get v d name) as [[f | d'] |] eqn:E; [done | | done]. rewrite (Hget _ _ _ E). apply IH.
Qed.

Lemma walk_dir_in_store v (l : list Component) (c d : nat) :
  tree_ok v -> dir_in_store v c -> walk v c l = Some (DirNode d) -> dir_in_store v d.
Proof.
  intros Ht. revert c. induction l as [| x l IH]; intros c Hc; cbn [walk]; [intros; by simplify_eq |].
  assert (forall name d', dir_get v c name = Some (DirNode d') -> dir_in_store v d') as Hentry.
  { intros name d' E. destruct (tree_entry _ Ht _ _ _ E) as [[_ ?] _]. by right. }
  destruct x; [apply IH; by left | by apply IH | |].
  - destruct (get_parent_dir v (DirNode c)) as [p |] eqn:E; [| done]. apply IH. cbn in E.
    case_bool_decide; [simplify_eq; by left |]. destruct (vdirs v !! c) as [x |]; [| done].
    unfold upgrade in E. destruct (vd_parent x) as [d' |]; [| done].
    destruct (bool_decide (d' = ROOT) || bool_decide (is_Some (vdirs v !! d'))) eqn:Hb; [| done]. simplify_eq.
    apply orb_prop in Hb as [Hb%bool_decide_eq_true_1 | Hb%bool_decide_eq_true_1]; [by left | by right].
  - destruct l as [| x' l]; [apply Hentry |]. destruct (dir_get v c name) as [[f | d'] |] eqn:E; [done | | done].
    apply IH. by eapply Hentry.
Qed.

Lemma set_children_parent v (d : nat) (m : smap FileOrDir) (g : VFSDirectory -> VFSDirectory) (d' : nat) :
  index_only g -> get_parent_dir (set_children v d m g) (DirNode d') = get_parent_dir v (DirNode d').
Proof.
  intros Hg. unfold set_children. case_bool_decide; [done |]. destruct (vdirs v !! d) as [x |] eqn:E; [| done]. cbn.
  assert (forall w, upgrade (mkVfs (root_children v) (<[d := mkDir (vd_name (g x)) m (vd_parent (g x)) (vd_prefix_index (g x))]> (vdirs v))
                        (vfiles v)) w = upgrade v w) as Hu.
  { intros [w |]; [| done]. unfold upgrade. cbn. destruct (decide (w = d)) as [-> | ?];
      [rewrite lookup_insert_eq, E | rewrite lookup_insert_ne by done; done].
    by rewrite !(bool_decide_true (is_Some _)). }
  case_bool_decide; [done |]. destruct (decide (d' = d)) as [-> | ?].
  - rewrite lookup_insert_eq, E. cbn. rewrite Hu. by destruct (Hg x) as [_ ->].
  - rewrite lookup_insert_ne by done. destruct (vdirs v !! d'); [apply Hu | done].
Qed.

(** A new file under a name that was free leaves the parents of all directories alone. *)
Lemma create_file_parents v (id parent : nat) (x : HeapFile) (id' : nat) v' :
  create_file v id x parent = Done (id', v') -> dir_get v parent (hf_name x) = None ->
  id' = id /\ vfiles v' = <[id := x]> (vfiles v) /\
  forall d, get_parent_dir v' (DirNode d) = get_parent_dir v (DirNode d).
Proof.
  unfold create_file, dir_insert. rewrite bool_decide_false by done. cbn [get_name vfiles]. rewrite lookup_insert_eq.
  intros E Hfree. unfold dir_get in Hfree. change (children (mkVfs (root_children v) (vdirs v) (<[id := x]> (vfiles v))) parent)
    with (children v parent) in E. change (f_name x) with (hf_name x) in E. rewrite Hfree in E.
  rewrite bool_decide_false in E by done. cbn [outcome_bind detach] in E. injection E as <- <-. split; [done |]. split.
  - unfold set_children. case_bool_decide; [done |]. cbn [vdirs]. by destruct (vdirs v !! parent).
  - intros d. rewrite set_children_parent; [done | apply index_insert_only].
Qed.

Lemma new_file_id_fresh s : vfiles (s_vfs s) !! new_file_id s = None.
Proof.
  destruct (vfiles (s_vfs s) !! new_file_id s) as [x |] eqn:E; [exfalso | done].
  apply elem_of_map_to_list in E. unfold new_file_id in E. revert E. generalize (map_to_list (vfiles (s_vfs s))).
  intros l. assert (forall k y, (k, y) ∈ l -> (k <= foldr Nat.max 0 (map fst l))%nat) as H.
  { induction l as [| [k' y'] l IH]; intros k y; [intros H; by apply not_elem_of_nil in H |].
    intros [E | H]%elem_of_cons; cbn; [simplify_eq; lia |]. specialize (IH _ _ H). lia. }
  intros E. specialize (H _ _ E). lia.
Qed.

Lemma drop_resource_state s (o : option Resource) :
  s_vfs (drop_resource s o) = s_vfs s /\ s_tables (drop_resource s o) = s_tables s /\ s_task (drop_resource s o) = s_task s.
Proof. by destruct o as [[] |]. Qed.

Lemma my_table_drop s (o : option Resource) : my_table (drop_resource s o) = my_table s.
Proof. unfold my_table. by destruct (drop_resource_state s o) as (_ & -> & ->). Qed.

(** Opening the file [f] hands out the next descriptor. *)
Lemma sys_open_opened s s1 (ptr flags : Z) (path : str) (f : nat) (x : HeapFile) :
  read_c_string s ptr = Some path -> open_file s path flags = Done (Ok f, s1) -> vfiles (s_vfs s1) !! f = Some x ->
  exists s', sys_open s ptr flags = Done (Ok (next_fd (my_table s1)), s') /\ s_vfs s' = s_vfs s1 /\
    opened s' (next_fd (my_table s1)) f (if has_flag flags O_APPEND then hf_len x else 0) x.
Proof.
  intros Er Eo Ex. unfold sys_open. rewrite Er, Eo. cbn [outcome_bind]. unfold file_of. rewrite Ex. cbn [expect outcome_bind].
  eexists. split; [done |]. split; [by destruct (resources (my_table s1) !! next_fd (my_table s1)) as [[] |] |].
  split; [rewrite my_table_drop, my_table_set; apply lookup_insert_eq |].
  by destruct (resources (my_table s1) !! next_fd (my_table s1)) as [[] |].
Qed.

(** Opening a path that leads to nothing, in a directory that exists and with the flag to create, makes an empty file
    of that name and returns the task's next descriptor, open at its start.  The path then leads to the file, all other
    entries of the file system are as before, and its tree is well-formed. *)
Theorem created_file_is_found s (ptr flags : Z) (path before filename : str) (d : nat) :
  tree_ok (s_vfs s) -> read_c_string s ptr = Some path ->
  rsplit_once SEPARATOR path = Some (before, filename) -> path_name filename ->
  path_get (s_vfs s) (if str_is_empty before then lit "/" else before) ROOT = Done (Some (DirNode d)) ->
  path_get (s_vfs s) path ROOT = Done None -> has_flag flags O_CREAT = true ->
  exists s' f, sys_open s ptr flags = Done (Ok (next_fd (my_table s)), s') /\ tree_ok (s_vfs s') /\
    path_get (s_vfs s') path ROOT = Done (Some (FileNode f)) /\
    opened s' (next_fd (my_table s)) f 0 (mkHeapFile filename [] (Some d)) /\
    forall d' name, ~ (d' = d /\ name = filename) -> dir_get (s_vfs s') d' name = dir_get (s_vfs s) d' name.
Proof.
  intros Ht Er Es Hn Hd Hnone Hc. pose proof (path_of_parent _ _ _ Es Hn) as Hp. set (dir := if str_is_empty before then _ else _) in *.
  rewrite path_get_walk in Hd, Hnone. injection Hd as Hd. injection Hnone as Hnone.
  rewrite Hp, walk_app, Hd in Hnone by done. cbn [walk] in Hnone.
  pose proof (walk_dir_in_store _ _ _ _ Ht (or_introl eq_refl) Hd) as Hin.
  set (x := mkHeapFile filename [] (Some d)).
  destruct (create_file_ok (s_vfs s) (new_file_id s) d x Ht Hin eq_refl (new_file_id_fresh s)) as (v' & Ec & Ht' & Hget).
  destruct (create_file_parents _ _ _ _ _ _ Ec Hnone) as (_ & Hfiles & Hpar).
  destruct (sys_open_opened s (set_vfs s v') ptr flags path (new_file_id s) x) as (s' & Eo & Ev & Hop); [done | | |].
  - unfold open_file. rewrite path_get_walk, Hp, walk_app, Hd by done. cbn [walk outcome_bind]. rewrite Hnone, Hc.
    unfold resolve_parent_and_name. rewrite Es. fold dir. cbn [negb].
    assert (str_is_empty filename = false) as -> by (destruct filename; [by destruct Hn | done]). rewrite path_get_walk, Hd.
    cbn [outcome_bind]. change (heap_file (mkHeapFile filename [] (Some d))) with x. rewrite Ec. done.
  - cbn [s_vfs set_vfs]. rewrite Hfiles. apply lookup_insert_eq.
  - exists s', (new_file_id s). rewrite Ev. cbn [s_vfs set_vfs] in *. split; [exact Eo |]. split; [done |]. split; [| split].
    + rewrite path_get_walk, Hp, walk_app by done.
      rewrite (walk_mono (s_vfs s) v') with (n := DirNode d); [| | exact Hpar | exact Hd].
      * cbn [walk]. rewrite Hget. by rewrite decide_True.
      * intros d' name n E. rewrite Hget. rewrite decide_False; [done |]. intros [-> Hx]. change (f_name x) with filename in Hx.
        congruence.
    + by destruct (has_flag flags O_APPEND).
    + intros d' name Hdn. rewrite Hget. by rewrite decide_False.
Qed.

Lemma hf_write_nothing (x : HeapFile) : hf_write_at x [] 0 = Done (Ok 0, x).
Proof.
  unfold hf_write_at. change (wrap64 (0 + Z.of_nat (length (@nil Z)))) with 0. unfold hf_len.
  rewrite (proj2 (Z.ltb_ge _ _)) by lia. rewrite copy_into_ok by (cbn; lia). cbn. by destruct x.
Qed.

(** Opening a file that exists leaves its contents as they are, with or without the flag to truncate it, whose work
    is not done: the descriptor is open at the start of the old contents, or at their end with the flag to append. *)
Theorem open_keeps_contents s (ptr flags : Z) (path : str) (f : nat) (x : HeapFile) :
  read_c_string s ptr = Some path -> path_get (s_vfs s) path ROOT = Done (Some (FileNode f)) ->
  vfiles (s_vfs s) !! f = Some x -> has_flag flags O_CREAT && has_flag flags O_EXCL = false ->
  exists s', sys_open s ptr flags = Done (Ok (next_fd (my_table s)), s') /\
    opened s' (next_fd (my_table s)) f (if has_flag flags O_APPEND then hf_len x else 0) x /\
    vfiles (s_vfs s') = vfiles (s_vfs s).
Proof.
  intros Er Ep Ex Hf.
  assert (exists s1, open_file s path flags = Done (Ok f, s1) /\ vfiles (s_vfs s1) = vfiles (s_vfs s) /\ my_table s1 = my_table s)
    as (s1 & Eo & Hv & Ht).
  { unfold open_file. rewrite Ep. cbn [outcome_bind]. rewrite Hf. destruct (has_flag flags O_TRUNC); [| by exists s].
    unfold file_of. rewrite Ex. cbn [expect outcome_bind]. change (write_at x [] 0) with (hf_write_at x [] 0).
    rewrite hf_write_nothing. cbn [outcome_bind]. eexists. split; [done |]. split; [| done]. cbn. by apply insert_id. }
  destruct (sys_open_opened s s1 ptr flags path f x Er Eo) as (s' & E & Ev & Hop); [by rewrite Hv |].
  rewrite Ht in *. exists s'. split; [done |]. split; [done |]. by rewrite Ev.
Qed.

(** The first file that a task opens cannot be closed: its descriptor is 3, which is also the Windows handle of the
    standard input, so that [sys_close] reports success and leaves the file open, and the handle is lost. *)
Theorem first_file_stays_open s s1 (ptr flags : Z) (path : str) (f : nat) (x : HeapFile) :
  read_c_string s ptr = Some path -> open_file s path flags = Done (Ok f, s1) -> vfiles (s_vfs s1) !! f = Some x ->
  s_tables s1 !! s_task s1 = None ->
  exists s' off, sys_open s ptr flags = Done (Ok 3, s') /\ sys_close s' 3 = Done (Ok 0, s') /\ opened s' 3 f off x.
Proof.
  intros Er Eo Ex Hnone. destruct (sys_open_opened s s1 ptr flags path f x Er Eo Ex) as (s' & E & _ & Hop).
  assert (next_fd (my_table s1) = 3) as H3 by (unfold my_table, task_table; by rewrite Hnone). rewrite H3 in *.
  eexists s', _. split; [exact E |]. split; [done | exact Hop].
Qed.

End FileProps.

(** ** Descriptors *)

(** The operations of a resource table: the number they are told to change, if any, and the
    descriptor and the handle that they allocate. *)
Inductive table_step : ResourceTable -> option Z -> option Z -> option Z -> ResourceTable -> Prop :=
| step_alloc_fd t r : table_step t None (Some (alloc_fd t r).1.1) None (alloc_fd t r).2
| step_alloc_handle t r : table_step t None None (Some (alloc_handle t r).1.1) (alloc_handle t r).2
| step_close t h : table_step t (Some h) None None (table_close t h).2
| step_set t h r : table_step t (Some h) None None (table_set t h r)
| step_dup t h : table_step t None (dup t h).1.1 None (dup t h).2
| step_dup2 t h h' : table_step t (Some h') None None (dup2 t h h').2.

(** Sequences of operations that are not told to change [fd], with the descriptors and the
    handles they allocate. *)
Inductive table_steps (fd : Z) : ResourceTable -> list Z -> list Z -> ResourceTable -> Prop :=
| steps_none t : table_steps fd t [] [] t
| steps_cons t h o o' t1 fds hs t2 :
    table_step t h o o' t1 -> h <> Some fd -> table_steps fd t1 fds hs t2 ->
    table_steps fd t (option_list o ++ fds) (option_list o' ++ hs) t2.

(** The numbers from [n] on. *)
Definition numbers_from (n : Z) (l : list Z) : list Z := (fun i => n + Z.of_nat i) <$> seq 0 (length l).

Lemma numbers_from_cons (n x : Z) (l : list Z) : numbers_from n (x :: l) = n :: numbers_from (n + 1) l.
Proof.
  unfold numbers_from. cbn [length seq fmap list_fmap]. f_equal; [lia |]. rewrite <- fmap_S_seq, <- list_fmap_compose.
  apply list_fmap_ext. intros i k _. unfold compose. lia.
Qed.

Lemma table_step_fd (t t' : ResourceTable) (h o o' : option Z) :
  table_step t h o o' t' -> 0 <= next_fd t < U64_MAX -> 0 <= next_handle t -> next_handle t + 4 <= U64_MAX ->
  match o with Some fd => fd = next_fd t /\ next_fd t' = next_fd t + 1 | None => next_fd t' = next_fd t end /\
  match o' with Some x => next_handle t' = next_handle t + 4 | None => next_handle t' = next_handle t end /\
  forall fd, h <> Some fd -> fd < next_fd t -> fd < next_handle t -> resources t' !! fd = resources t !! fd.
Proof.
  intros Hs Hfd Hh0 Hh. assert (wrap64 (next_fd t + 1) = next_fd t + 1) as Hw by (apply wrap64_id; split; lia).
  assert (wrap64 (next_handle t + 4) = next_handle t + 4) as Hw' by (apply wrap64_id; split; lia).
  destruct Hs as [t r | t r | t h | t h r | t h | t h h']; cbn.
  - split; [done |]. split; [done |]. intros fd _ H1 H2. apply lookup_insert_ne. lia.
  - split; [done |]. split; [done |]. intros fd _ H1 H2. apply lookup_insert_ne. lia.
  - unfold table_close. destruct (is_stdio h); [done |]. split; [done |]. split; [done |]. intros fd Hne _ _. apply lookup_delete_ne. congruence.
  - split; [done |]. split; [done |]. intros fd Hne _ _. apply lookup_insert_ne. congruence.
  - unfold dup. destruct (resources t !! h ≫= duplicate) as [r |]; [| done]. cbn. split; [done |]. split; [done |].
    intros fd _ H1 H2. apply lookup_insert_ne. lia.
  - unfold dup2. destruct (h =? h'); [done |]. destruct (resources t !! h ≫= duplicate) as [r |]; [| done]. cbn.
    split; [done |]. split; [done |]. intros fd Hne _ _. rewrite lookup_insert_ne by congruence.
    destruct (is_stdio h'); [done |]. apply lookup_delete_ne. congruence.
Qed.

Lemma table_steps_fd (fd : Z) (t t' : ResourceTable) (fds hs : list Z) :
  table_steps fd t fds hs t' -> 0 <= next_fd t -> next_fd t + Z.of_nat (length fds) < U64_MAX ->
  0 <= next_handle t -> next_handle t + 4 * Z.of_nat (length hs) + 4 <= U64_MAX -> fd < next_fd t -> fd < next_handle t ->
  resources t' !! fd = resources t !! fd /\ fds = numbers_from (next_fd t) fds.
Proof.
  intros Hs. induction Hs as [t | t h o o' t1 fds hs t2 Hstep Hne Hs IH]; intros H0 Hmax Hh0 Hhmax Hfd Hh; [done |].
  rewrite !length_app in *. destruct (table_step_fd t t1 h o o' Hstep) as (Ho & Ho' & Hres); [lia | lia | lia |].
  rewrite <- (Hres fd) by done.
  assert (next_handle t <= next_handle t1 /\ next_handle t1 + 4 * Z.of_nat (length hs) + 4 <= U64_MAX) as [? ?]
    by (destruct o' as [y |]; [change (option_list (Some y)) with [y] in * | change (option_list (@None Z)) with (@nil Z) in *]; cbn [length] in *; lia).
  destruct o as [x |]; [change (option_list (Some x)) with [x] in * | change (option_list (@None Z)) with (@nil Z) in *]; cbn [length app] in *.
  - destruct Ho as [-> Hn]. destruct IH as [-> E]; try lia. split; [done |]. rewrite numbers_from_cons, <- Hn. by f_equal.
  - rewrite <- Ho in *. apply IH; lia.
Qed.



(** [dup2] to the number 5 does not reserve it: the third file that is opened afterwards gets
    the same number, and the duplicate is lost. *)
Example dup2_number_handed_out_again :
  let t1 := (dup2 table_new 1 5).2 in
  let t2 := (alloc_fd (alloc_fd t1 (RFile 0 0)).2 (RFile 1 0)).2 in
  (dup2 table_new 1 5).1.1 = Some 5 /\ table_get t2 5 = Some Stdout /\
  (alloc_fd t2 (RFile 2 0)).1 = (5, Some Stdout) /\ table_get (alloc_fd t2 (RFile 2 0)).2 5 = Some (RFile 2 0).
Proof. vm_compute. auto. Qed.
