(* ===== verification/SysDemo.v ===== *)
(** * System calls: a concrete system

    The small tree of [VfsProps], a memory that holds a few strings and buffers, and a clock
    that advances by one tick whenever the task yields. *)

From stdpp Require Import gmap.
From S2P Require Import Prelude MemStructs PageAlloc PteFlags PageTable Paths PathProps Io IoSpec Files FileProps Vfs VfsProps.
From S2P Require Import SysTables SysState SysFileIo SysMemory SysMisc SysDispatch SysNt SysProps SysFileProps.

Module SysDemo.

#[local] Existing Instance PteFlagsDemo.bits.
#[local] Existing Instance MemDemo.world_mem.
#[local] Existing Instance MemDemo.world_laws.

(** No streams; the number is the clock. *)
#[local] Instance no_streams : AppIo Z := {|
  stdin _ _ := false; stdin_read a _ buf := (None, buf, a);
  stdout _ _ := false; stdout_write a _ _ := (None, a);
  stderr _ _ := false; stderr_write a _ _ := (None, a);
|}.

#[local] Instance world_drop : DropPages MemDemo.World := {| km_unmap w _ := w |}.

Abbreviation DemoSys := (Sys HeapFile Z MemDemo.World).

(** A tick is a millisecond. *)
#[local] Instance demo_machine : Machine HeapFile Z MemDemo.World := {|
  instant_now s := s_io s;
  period := 1000000000000;
  rdtsc _ := 88172645463325252;
  read_rtc _ := mkRtc 24 2 29 12 0 0;
  rdmsr _ _ := 0;
  wrmsr s _ _ := s;
  has_current_task _ := true;
  kill_current s := s;
  schedule s := set_io s (s_io s + 1);
  vec_addr _ _ := 9000;
|}.

#[local] Instance demo_loader : Loader HeapFile Z MemDemo.World := {|
  elf_header_ok _ := false; spawn_elf s _ _ := Some s; spawn_pe s _ _ := Some s;
|}.

Definition cstr (x : string) : list Z := bytes_of_str (lit x) ++ [0].

(** Wide characters. *)
Definition wide (x : string) : list Z := concat (map (fun b => [b; 0]) (bytes_of_str (lit x))).

Definition put (m : Z -> Z) (a : Z) (l : list Z) : Z -> Z := upd m a l.

(** At 100 and 120 two paths, at 140 a relative one, at 200 a buffer; at 400 the attributes of an object whose name is
    the wide string at 500. *)
Definition demo_mem : Z -> Z :=
  put (put (put (put (put (put (put (fun _ => 0) 100 (cstr "/ns/new")) 120 (cstr "/ns/a-1")) 140 (cstr "here"))
    200 [1; 2; 3; 4]) 416 (le_bytes 8 450)) 450 (le_bytes 8 26 ++ le_bytes 8 500)) 500 (wide "\??\C:\ns\a-1").

Definition demo_sys : DemoSys :=
  mkSys demo_vfs ∅ (MemDemo.mkWorld demo_mem 2) 0 5 (Some 2%nat) ∅ (mkBrk 0x60000000 0x60000000) [] None.

(** ** Witnesses *)

Lemma demo_clock_advances : clock_advances (F := HeapFile) (A := Z) (W := MemDemo.World).
Proof. intros s. cbn. lia. Qed.


(** File 1 is open on descriptor 3, behind its contents. *)
Definition open_sys : DemoSys := set_my_table demo_sys (alloc_fd table_new (RFile 1 2)).2.

Definition a_1 : HeapFile := mkHeapFile (lit "a-1") [7; 8] (Some 1%nat).

Lemma open_sys_opened : opened open_sys 3 1 2 a_1.
Proof. split; vm_compute; reflexivity. Qed.

Lemma written_bytes_read_back_witness :
  exists s1 s2 s3 x',
    sys_write open_sys 3 200 4 = Done (Ok 4, s1) /\ sys_lseek s1 3 2 SEEK_SET = Done (Ok 2, s2) /\
    sys_read s2 3 300 4 = Done (Ok 4, s3) /\ load s3 300 4 = load open_sys 200 4 /\
    opened s3 3 1 6 x' /\ hf_len x' = Z.max (hf_len a_1) 6 /\
    forall f', f' <> 1%nat -> vfiles (s_vfs s3) !! f' = vfiles (s_vfs open_sys) !! f'.
Proof.
  apply (written_bytes_read_back open_sys 3 200 300 4 1 2 a_1); 
    [apply open_sys_opened | lia | lia | split; [lia | vm_compute; discriminate] | lia | lia].
Defined.

Lemma read_at_end_of_file_fails_witness :
  exists s', sys_read open_sys 3 300 4 = Done (Err IoFailure, s').
Proof.
  apply (read_at_end_of_file_fails open_sys 3 300 4 1 a_1);
    [apply open_sys_opened | lia | split; [lia | vm_compute; discriminate] | vm_compute; discriminate].
Defined.

Lemma created_file_is_found_witness :
  exists s' f, sys_open demo_sys 100 0x41 = Done (Ok 3, s') /\ tree_ok (s_vfs s') /\
    path_get (s_vfs s') (lit "/ns/new") ROOT = Done (Some (FileNode f)) /\
    opened s' 3 f 0 (mkHeapFile (lit "new") [] (Some 1%nat)) /\
    forall d' name, ~ (d' = 1%nat /\ name = lit "new") -> dir_get (s_vfs s') d' name = dir_get (s_vfs demo_sys) d' name.
Proof.
  apply (created_file_is_found demo_sys 100 0x41 (lit "/ns/new") (lit "/ns") (lit "new") 1);
    [apply demo_tree_ok | vm_compute; reflexivity | vm_compute; reflexivity | | vm_compute; reflexivity ..].
  split; [done | by apply (bool_decide_unpack (SEPARATOR ∉ _))].
Defined.

Lemma open_keeps_contents_witness :
  exists s', sys_open demo_sys 120 0x201 = Done (Ok 3, s') /\ opened s' 3 1 0 a_1 /\
    vfiles (s_vfs s') = vfiles (s_vfs demo_sys).
Proof.
  apply (open_keeps_contents demo_sys 120 0x201 (lit "/ns/a-1") 1 a_1); vm_compute; reflexivity.
Defined.

Lemma first_file_stays_open_witness :
  exists s' off, sys_open demo_sys 120 0 = Done (Ok 3, s') /\ sys_close s' 3 = Done (Ok 0, s') /\ opened s' 3 1 off a_1.
Proof. apply (first_file_stays_open demo_sys demo_sys 120 0 (lit "/ns/a-1") 1 a_1); vm_compute; reflexivity. Defined.

(** ** What goes wrong *)

(** The table after [init]. *)
Definition demo_table : SyscallTable := match syscall_init boot_table with Done t => t | Panic => boot_table end.

(** The result of a Linux or Windows call, and the state after it. *)
Definition linux (num a0 a1 a2 : Z) (s : DemoSys) : outcome (Z * DemoSys) :=
  linux_handle_syscall 100 demo_table s num a0 a1 a2 0 0 0.

(** A relative path is looked up at the root but created in the task's directory: every such [open] makes a new file,
    which replaces the last one. *)
Example relative_create_not_found_again :
  match linux 2 140 0x41 0 demo_sys with
  | Done (r1, s1) =>
      match linux 2 140 0x41 0 s1 with
      | Done (r2, s2) =>
          r1 = 3 /\ r2 = 4 /\ dir_get (s_vfs s1) 2 (lit "here") = Some (FileNode 2) /\
          dir_get (s_vfs s2) 2 (lit "here") = Some (FileNode 3)
      | Panic => False
      end
  | Panic => False
  end.
Proof. vm_compute. auto. Qed.

(** Growing the program break maps memory at another address: nothing is mapped at the break. *)
Example brk_maps_elsewhere :
  match linux 12 0x60001000 0 0 demo_sys with
  | Done (r, s) => r = 0x60001000 /\ mapped_start <$> brk_pages s = [0x2000]
  | Panic => False
  end.
Proof. vm_compute. auto. Qed.

(** [NtCreateFile] with FILE_CREATE, which must fail for a file that exists, opens it and reports that it was created:
    the flags it passes ask for truncation where O_EXCL is meant. *)
Example nt_create_opens_existing :
  match nt_handle_syscall 100 demo_table demo_sys 0x55 600 0 400 620 0 FILE_CREATE with
  | Done (status, s) => status = STATUS_SUCCESS /\ load_u64 s 600 = 3 /\ load_u64 s 628 = 2 /\
                        table_get (my_table s) 3 = Some (RFile 1 0)
  | Panic => False
  end.
Proof. vm_compute. auto. Qed.

(** A duplicate has a position of its own. *)
Example dup_does_not_share_offset :
  match sys_dup open_sys 3 with
  | Done (Ok fd, s) =>
      match sys_lseek s fd 0 SEEK_SET with
      | Done (_, s) => (table_get (my_table s) 3, table_get (my_table s) fd) = (Some (RFile 1 2), Some (RFile 1 0))
      | Panic => False
      end
  | _ => False
  end.
Proof. vm_compute. reflexivity. Qed.

(** An empty path never reaches the test for one. *)
Example empty_path_is_a_fault :
  match sys_newfstatat open_sys 3 700 800 with Done (r, _) => r = Err Fault | Panic => False end.
Proof. vm_compute. reflexivity. Qed.

End SysDemo.
