(* ===== verification/Slab.v ===== *)
(** * The slab allocator

    Models kernel/slabmalloc/src: the allocation bitfield and the 8 KiB object pages of
    pages.rs, the doubly linked page lists, the size-class allocator of sc.rs and the zone
    allocator of zone.rs.

    The object pages are in memory and linked to each other by raw pointers.  The memory is
    a finite map from addresses to pages ([Mem]), a [Rawlink] or a [&'a mut P] is an address,
    and every operation that follows or changes a link reads or updates the map, so that
    lists that share a page, or a page linked to itself, are what they are in the code.
    Following a link to an address where no page has been written is a [Panic].  Walking a
    list takes as fuel the number of pages in memory and one more: a list that does not end
    within it has a cycle, and the walk, which never returns, is a [Panic].  The debug
    assertions are not compiled in the release profile. *)

From stdpp Require Import gmap.
From S2P Require Import Prelude MemStructs PageAlloc PteFlags PageTable.

(** [core::alloc::Layout]. *)
Record Layout := mkLayout { l_size : Z; l_align : Z }.

(** ** The bitfield: [impl Bitfield for [AtomicU64]] *)

Fixpoint trailing_zeros_from (fuel : nat) (i w : Z) : Z :=
  match fuel with
  | O => i
  | S n => if Z.testbit w i then i else trailing_zeros_from n (i + 1) w
  end.

Definition trailing_zeros (w : Z) : Z := trailing_zeros_from 64 0 w.

Definition is_allocated (bf : list Z) (idx : Z) : outcome bool :=
  let base_idx := idx / 64 in
  let bit_idx := idx mod 64 in
  let* w := expect (bf !! Z.to_nat base_idx) in
  Done (0 <? Z.land w (Z.shiftl 1 bit_idx)).

Definition set_bit (bf : list Z) (idx : Z) : outcome (list Z) :=
  let base_idx := idx / 64 in
  let bit_idx := idx mod 64 in
  let* w := expect (bf !! Z.to_nat base_idx) in
  Done (<[Z.to_nat base_idx := Z.lor w (Z.shiftl 1 bit_idx)]> bf).

Definition clear_bit (bf : list Z) (idx : Z) : outcome (list Z) :=
  let base_idx := idx / 64 in
  let bit_idx := idx mod 64 in
  let* w := expect (bf !! Z.to_nat base_idx) in
  Done (<[Z.to_nat base_idx := Z.land w (Z.lxor U64_MAX (Z.shiftl 1 bit_idx))]> bf).

(** [for idx in 0..relevant_bits { self.clear_bit(idx) }], from [idx] on. *)
Fixpoint clear_bits (n : nat) (idx : Z) (bf : list Z) : outcome (list Z) :=
  match n with
  | O => Done bf
  | S n => let* bf := clear_bit bf idx in clear_bits n (idx + 1) bf
  end.

Definition initialize (bf : list Z) (for_size capacity : Z) : outcome (list Z) :=
  let bf := (fun _ => U64_MAX) <$> bf in
  if for_size =? 0 then Panic
  else
    let relevant_bits := Z.min (capacity / for_size) (Z.of_nat (length bf) * 64) in
    clear_bits (Z.to_nat relevant_bits) 0 bf.

(** The loop of [first_fit], from the word [base_idx] on. *)
Fixpoint first_fit_from (bf : list Z) (base_idx base_addr : Z) (layout : Layout) (page_size metadata_size : Z)
  : option (Z * Z) :=
  match bf with
  | [] => None
  | bitval :: bf' =>
      if bitval =? U64_MAX then first_fit_from bf' (base_idx + 1) base_addr layout page_size metadata_size
      else
        let negated := Z.lxor U64_MAX bitval in
        let first_free := trailing_zeros negated in
        let idx := base_idx * 64 + first_free in
        let offset := wrap64 (idx * l_size layout) in
        if negb (offset <=? wrap64 (page_size - metadata_size - l_size layout)) then None
        else
          let addr := wrap64 (base_addr + offset) in
          let alignment_ok := addr mod l_align layout =? 0 in
          let block_is_free := Z.land bitval (Z.shiftl 1 first_free) =? 0 in
          if alignment_ok && block_is_free then Some (idx, addr)
          else first_fit_from bf' (base_idx + 1) base_addr layout page_size metadata_size
  end.

Definition bits_first_fit (bf : list Z) (base_addr : Z) (layout : Layout) (page_size metadata_size : Z)
  : option (Z * Z) := first_fit_from bf 0 base_addr layout page_size metadata_size.

Definition bits_is_full (bf : list Z) : bool :=
  (length (filter (fun w => w <> U64_MAX) bf) =? 0)%nat.

(** The loop of [all_free], from the word [idx] on. *)
Fixpoint all_free_from (bf : list Z) (idx relevant_bits : Z) : bool :=
  match bf with
  | [] => true
  | bitmap :: bf' =>
      if (idx * 64 <=? relevant_bits) && (relevant_bits <? (idx + 1) * 64) then
        let bits_that_should_be_free := relevant_bits - idx * 64 in
        let free_mask := Z.shiftl 1 bits_that_should_be_free - 1 in
        Z.land free_mask bitmap =? 0
      else if bitmap =? 0 then all_free_from bf' (idx + 1) relevant_bits
      else false
  end.

Definition all_free (bf : list Z) (relevant_bits : Z) : bool := all_free_from bf 0 relevant_bits.

(** ** Object pages *)

(** What the compiler decides: the size of an [Option<MappedPages8k>].  The objects of the
    largest class must be larger than the 4 KiB of the class below it. *)
Class PageLayout := {
  size_of_option_mp : Z;
  size_of_option_mp_bounds : 0 <= size_of_option_mp <= 2048;
}.

(** [MappedPages8k], a wrapper. *)
Record MappedPages8k := mkMapped8k { mp8k : MappedPages }.

(** [ObjectPage8k], less the objects themselves. *)
Record ObjectPage8k := mkObjectPage {
  pg_mp : option MappedPages8k;
  pg_heap_id : Z;
  pg_next : option Z;
  pg_prev : option Z;
  pg_bitfield : list Z;
}.

Definition set_next (l : option Z) (p : ObjectPage8k) : ObjectPage8k :=
  mkObjectPage (pg_mp p) (pg_heap_id p) l (pg_prev p) (pg_bitfield p).
Definition set_prev (l : option Z) (p : ObjectPage8k) : ObjectPage8k :=
  mkObjectPage (pg_mp p) (pg_heap_id p) (pg_next p) l (pg_bitfield p).
Definition set_bitfield (bf : list Z) (p : ObjectPage8k) : ObjectPage8k :=
  mkObjectPage (pg_mp p) (pg_heap_id p) (pg_next p) (pg_prev p) bf.

Abbreviation Mem := (gmap Z ObjectPage8k).

(** Dereferencing a page pointer, and writing through it. *)
Definition get_page (m : Mem) (a : Z) : outcome ObjectPage8k := expect (m !! a).

Definition upd_page (m : Mem) (a : Z) (f : ObjectPage8k -> ObjectPage8k) : outcome Mem :=
  let* p := get_page m a in Done (<[a := f p]> m).

Definition SIZE : Z := 8192.

Section Pages.
Context {bflags : Bitflags} {pgl : PageLayout}.

Definition METADATA_SIZE : Z := size_of_option_mp + 8 + 2 * 8 + 8 * 8.
Definition HEAP_ID_OFFSET : Z := SIZE - (8 + 2 * 8 + 8 * 8).

(** [<ObjectPage8k as AllocablePage>::new]. *)
Definition page_new (mp : MappedPages8k) (heap_id : Z) : ObjectPage8k :=
  mkObjectPage (Some mp) heap_id None None [0; 0; 0; 0; 0; 0; 0; 0].

(** [retrieve_mapped_pages]: takes the mapping out of the page. *)
Definition retrieve_mapped_pages (m : Mem) (a : Z) : outcome (option MappedPages8k * Mem) :=
  let* p := get_page m a in
  Done (pg_mp p, <[a := mkObjectPage None (pg_heap_id p) (pg_next p) (pg_prev p) (pg_bitfield p)]> m).

Definition clear_metadata (p : ObjectPage8k) : ObjectPage8k :=
  mkObjectPage (pg_mp p) 0 None None ((fun _ => 0) <$> pg_bitfield p).

Definition buffer_size : Z := SIZE - METADATA_SIZE.

Definition page_first_fit (p : ObjectPage8k) (base_addr : Z) (layout : Layout) : option (Z * Z) :=
  bits_first_fit (pg_bitfield p) base_addr layout SIZE METADATA_SIZE.

(** [AllocablePage::allocate]: the null pointer is 0. *)
Definition page_allocate (m : Mem) (a : Z) (layout : Layout) : outcome (Z * Mem) :=
  let* p := get_page m a in
  match page_first_fit p a layout with
  | Some (idx, addr) =>
      let* bf := set_bit (pg_bitfield p) idx in
      Done (addr, <[a := set_bitfield bf p]> m)
  | None => Done (0, m)
  end.

Definition page_is_full (p : ObjectPage8k) : bool := bits_is_full (pg_bitfield p).
Definition page_is_empty (p : ObjectPage8k) (relevant_bits : Z) : bool := all_free (pg_bitfield p) relevant_bits.

(** [AllocablePage::deallocate]. *)
Definition page_deallocate (m : Mem) (a ptr : Z) (layout : Layout) : outcome (result unit string * Mem) :=
  let page_offset := Z.land ptr (SIZE - 1) in
  if l_size layout =? 0 then Panic
  else if negb (page_offset mod l_size layout =? 0) then Panic
  else
    let idx := page_offset / l_size layout in
    let* p := get_page m a in
    let* b := is_allocated (pg_bitfield p) idx in
    if negb b then Done (Err "deallocate: pointer not marked allocated (double-free)", m)
    else
      let* bf := clear_bit (pg_bitfield p) idx in
      Done (Ok tt, <[a := set_bitfield bf p]> m).

(** [MappedPages8k::new]: the metadata of the page the mapping covers is cleared.  Memory
    that has not been a page before holds arbitrary metadata, which is overwritten when the
    mapping is used. *)
Definition mapped_8k_new (m : Mem) (mp : MappedPages) : result MappedPages8k string * Mem :=
  let vaddr := mapped_start mp in
  if negb (vaddr mod SIZE =? 0)
  then (Err "Trying to create a MappedPages8k but MappedPages were not aligned at 8k bytes", m)
  else if negb (x86_is_writable (mp_flags mp))
  then (Err "Trying to create a MappedPages8k but MappedPages were not writable", m)
  else if negb (SIZE =? mapped_size_in_bytes mp)
  then (Err "Trying to create a MappedPages8k but MappedPages were not 8 KiB", m)
  else (Ok (mkMapped8k mp), alter clear_metadata vaddr m).

Definition mp8k_start_address (mp : MappedPages8k) : Z := mapped_start (mp8k mp).

(** ** Page lists *)

Record PageList := mkPageList { pl_head : option Z; elements : Z }.

Definition pl_new : PageList := mkPageList None 0.

Definition insert_front (pl : PageList) (m : Mem) (new_head : Z) : outcome (PageList * Mem) :=
  let* m :=
    match pl_head pl with
    | None => upd_page m new_head (set_prev None)
    | Some head =>
        let* m := upd_page m new_head (set_prev None) in
        let* m := upd_page m head (set_prev (Some new_head)) in
        upd_page m new_head (set_next (Some head))
    end in
  Done (mkPageList (Some new_head) (wrap64 (elements pl + 1)), m).

Definition remove_from_list (pl : PageList) (m : Mem) (slab_page : Z) : outcome (PageList * Mem) :=
  let* p := get_page m slab_page in
  let* (head, m) :=
    match pg_prev p with
    | None => Done (pg_next p, m)
    | Some prev => let* m := upd_page m prev (set_next (pg_next p)) in Done (pl_head pl, m)
    end in
  let* p := get_page m slab_page in
  let* m :=
    match pg_next p with
    | None => Done m
    | Some next => upd_page m next (set_prev (pg_prev p))
    end in
  let* m := upd_page m slab_page (set_prev None) in
  let* m := upd_page m slab_page (set_next None) in
  Done (mkPageList head (wrap64 (elements pl - 1)), m).

Definition pl_pop (pl : PageList) (m : Mem) : outcome (option Z * PageList * Mem) :=
  match pl_head pl with
  | None => Done (None, pl, m)
  | Some head =>
      let* p := get_page m head in
      let new_head := pg_next p in
      let* m := match new_head with None => Done m | Some n => upd_page m n (set_prev None) end in
      let* m := upd_page m head (set_prev None) in
      let* m := upd_page m head (set_next None) in
      Done (Some head, mkPageList new_head (wrap64 (elements pl - 1)), m)
  end.

(** The fuel of a walk over a list. *)
Definition walk_fuel (m : Mem) : nat := S (size m).

Fixpoint contains_from (fuel : nat) (m : Mem) (link : option Z) (s : Z) : outcome bool :=
  match fuel with
  | O => Panic
  | S n =>
      match link with
      | None => Done false
      | Some a =>
          let* p := get_page m a in
          if a =? s then Done true else contains_from n m (pg_next p) s
      end
  end.

Definition pl_contains (pl : PageList) (m : Mem) (s : Z) : outcome bool :=
  contains_from (walk_fuel m) m (pl_head pl) s.

(** ** The size-class allocator *)

Record SCAllocator := mkSC {
  sc_size : Z;
  allocation_count : Z;
  obj_per_page : Z;
  empty_slabs : PageList;
  slabs : PageList;
  full_slabs : PageList;
}.

Definition set_lists (s : SCAllocator) (e p f : PageList) : SCAllocator :=
  mkSC (sc_size s) (allocation_count s) (obj_per_page s) e p f.

Definition sc_new (size : Z) : outcome SCAllocator :=
  if size =? 0 then Panic
  else Done (mkSC size 0 (Z.min ((SIZE - METADATA_SIZE) / size) (8 * 64)) pl_new pl_new pl_new).

Definition insert_partial_slab (s : SCAllocator) (m : Mem) (new_head : Z) : outcome (SCAllocator * Mem) :=
  let* (l, m) := insert_front (slabs s) m new_head in
  Done (set_lists s (empty_slabs s) l (full_slabs s), m).

Definition insert_empty (s : SCAllocator) (m : Mem) (new_head : Z) : outcome (SCAllocator * Mem) :=
  let* (l, m) := insert_front (empty_slabs s) m new_head in
  Done (set_lists s l (slabs s) (full_slabs s), m).

Definition remove_empty (s : SCAllocator) (m : Mem) : outcome (option Z * SCAllocator * Mem) :=
  let* (r, l, m) := pl_pop (empty_slabs s) m in
  Done (r, set_lists s l (slabs s) (full_slabs s), m).

Definition move_to_empty (s : SCAllocator) (m : Mem) (page : Z) : outcome (SCAllocator * Mem) :=
  let* (l, m) := remove_from_list (slabs s) m page in
  let* (e, m) := insert_front (empty_slabs s) m page in
  Done (set_lists s e l (full_slabs s), m).

Definition move_partial_to_full (s : SCAllocator) (m : Mem) (page : Z) : outcome (SCAllocator * Mem) :=
  let* (l, m) := remove_from_list (slabs s) m page in
  let* (f, m) := insert_front (full_slabs s) m page in
  Done (set_lists s (empty_slabs s) l f, m).

Definition move_full_to_partial (s : SCAllocator) (m : Mem) (page : Z) : outcome (SCAllocator * Mem) :=
  let* (f, m) := remove_from_list (full_slabs s) m page in
  let* (l, m) := insert_front (slabs s) m page in
  Done (set_lists s (empty_slabs s) l f, m).

Definition count_allocation (s : SCAllocator) : SCAllocator :=
  mkSC (sc_size s) (wrap64 (allocation_count s + 1)) (obj_per_page s) (empty_slabs s) (slabs s) (full_slabs s).

(** The loop of [try_allocate_from_pagelist], from the page [link] on: the iterator has
    read the next link before the page is tried. *)
Fixpoint try_pages (fuel : nat) (s : SCAllocator) (m : Mem) (link : option Z) (sc_layout : Layout)
  : outcome (Z * SCAllocator * Mem) :=
  match fuel with
  | O => Panic
  | S n =>
      match link with
      | None => Done (0, s, m)
      | Some a =>
          let* p := get_page m a in
          let* (ptr, m) := page_allocate m a sc_layout in
          if negb (ptr =? 0) then
            let* q := get_page m a in
            let* (s, m) := if page_is_full q then move_partial_to_full s m a else Done (s, m) in
            Done (ptr, count_allocation s, m)
          else try_pages n s m (pg_next p) sc_layout
      end
  end.

Definition try_allocate_from_pagelist (s : SCAllocator) (m : Mem) (sc_layout : Layout)
  : outcome (Z * SCAllocator * Mem) :=
  try_pages (walk_fuel m) s m (pl_head (slabs s)) sc_layout.

(** [create_allocable_page]: writes a new page at the mapping's address. *)
Definition create_allocable_page (m : Mem) (mp : MappedPages8k) (heap_id : Z) : Z * Mem :=
  let vaddr := mp8k_start_address mp in
  (vaddr, <[vaddr := page_new mp heap_id]> m).

Definition sc_refill (s : SCAllocator) (m : Mem) (mp : MappedPages8k) (heap_id : Z) : outcome (SCAllocator * Mem) :=
  let '(page, m) := create_allocable_page m mp heap_id in
  let* p := get_page m page in
  let* bf := initialize (pg_bitfield p) (sc_size s) (SIZE - METADATA_SIZE) in
  let* m := upd_page m page (set_bitfield bf) in
  let* m := upd_page m page (set_prev None) in
  let* m := upd_page m page (set_next None) in
  insert_empty s m page.

Definition sc_retrieve_empty_page (s : SCAllocator) (m : Mem) : outcome (option MappedPages8k * SCAllocator * Mem) :=
  let* (r, s, m) := remove_empty s m in
  match r with
  | Some page => let* (mp, m) := retrieve_mapped_pages m page in Done (mp, s, m)
  | None => Done (None, s, m)
  end.

Definition CACHE_LINE_SIZE : Z := 64.

(** [SCAllocator::allocate]. *)
Definition sc_allocate (s : SCAllocator) (m : Mem) (layout : Layout)
  : outcome (result Z string * SCAllocator * Mem) :=
  if negb (l_size layout <=? sc_size s) then Panic
  else if negb (sc_size s <=? SIZE - CACHE_LINE_SIZE) then Panic
  else
    let new_layout := mkLayout (sc_size s) (l_align layout) in
    let* (ptr, s, m) := try_allocate_from_pagelist s m new_layout in
    let* (ptr, s, m) :=
      if (ptr =? 0) && bool_decide (is_Some (pl_head (empty_slabs s))) then
        let* (r, e, m) := pl_pop (empty_slabs s) m in
        let s := set_lists s e (slabs s) (full_slabs s) in
        let* empty_page := expect r in
        let* (ptr, m) := page_allocate m empty_page layout in
        let* (s, m) := insert_partial_slab s m empty_page in
        Done (ptr, s, m)
      else Done (ptr, s, m) in
    Done (if ptr =? 0 then Err "AllocationError::OutOfMemory" else Ok ptr, s, m).

(** [SCAllocator::deallocate]. *)
Definition sc_deallocate (s : SCAllocator) (m : Mem) (ptr : Z) (layout : Layout)
  : outcome (result unit string * SCAllocator * Mem) :=
  if negb (l_size layout <=? sc_size s) then Panic
  else if negb (sc_size s <=? SIZE - CACHE_LINE_SIZE) then Panic
  else
    let page := Z.land ptr (Z.lxor U64_MAX (SIZE - 1)) in
    let new_layout := mkLayout (sc_size s) (l_align layout) in
    let* p := get_page m page in
    let slab_page_was_full := page_is_full p in
    let* (ret, m) := page_deallocate m page ptr new_layout in
    let* q := get_page m page in
    let* (s, m) :=
      if page_is_empty q (obj_per_page s) then move_to_empty s m page
      else if slab_page_was_full then move_full_to_partial s m page
      else Done (s, m) in
    Done (ret, s, m).

(** ** The zone allocator *)

Record ZoneAllocator := mkZone { zone_heap_id : Z; small_slabs : list SCAllocator }.

Inductive Slab := Base (idx : nat) | Large (idx : nat) | Unsupported.

Definition MAX_ALLOC_SIZE : Z := SIZE - METADATA_SIZE.
Definition MAX_BASE_ALLOC_SIZE : Z := MAX_ALLOC_SIZE.
Definition MAX_BASE_SIZE_CLASSES : nat := 11.
Definition BASE_ALLOC_SIZES : list Z := [8; 16; 32; 64; 128; 256; 512; 1024; 2048; 4096; MAX_BASE_ALLOC_SIZE].
Definition SLAB_EMPTY_PAGES_THRESHOLD : Z := 0.

Fixpoint new_slabs (sizes : list Z) : outcome (list SCAllocator) :=
  match sizes with
  | [] => Done []
  | z :: sizes => let* s := sc_new z in let* l := new_slabs sizes in Done (s :: l)
  end.

(** The [new_zone] macro. *)
Definition zone_new (heap_id : Z) : outcome ZoneAllocator :=
  let* l := new_slabs [Z.shiftl 1 3; Z.shiftl 1 4; Z.shiftl 1 5; Z.shiftl 1 6; Z.shiftl 1 7; Z.shiftl 1 8;
                       Z.shiftl 1 9; Z.shiftl 1 10; Z.shiftl 1 11; Z.shiftl 1 12; MAX_ALLOC_SIZE] in
  Done (mkZone heap_id l).

Definition get_max_size (current_size : Z) : option Z :=
  if current_size <=? 8 then Some 8
  else if current_size <=? 16 then Some 16
  else if current_size <=? 32 then Some 32
  else if current_size <=? 64 then Some 64
  else if current_size <=? 128 then Some 128
  else if current_size <=? 256 then Some 256
  else if current_size <=? 512 then Some 512
  else if current_size <=? 1024 then Some 1024
  else if current_size <=? 2048 then Some 2048
  else if current_size <=? 4096 then Some 4096
  else if current_size <=? MAX_ALLOC_SIZE then Some MAX_ALLOC_SIZE
  else None.

Definition get_slab (requested_size : Z) : Slab :=
  if requested_size <=? 8 then Base 0
  else if requested_size <=? 16 then Base 1
  else if requested_size <=? 32 then Base 2
  else if requested_size <=? 64 then Base 3
  else if requested_size <=? 128 then Base 4
  else if requested_size <=? 256 then Base 5
  else if requested_size <=? 512 then Base 6
  else if requested_size <=? 1024 then Base 7
  else if requested_size <=? 2048 then Base 8
  else if requested_size <=? 4096 then Base 9
  else if requested_size <=? MAX_ALLOC_SIZE then Base 10
  else Unsupported.

Definition set_slab (z : ZoneAllocator) (i : nat) (s : SCAllocator) : ZoneAllocator :=
  mkZone (zone_heap_id z) (<[i := s]> (small_slabs z)).

Definition empty_pages (z : ZoneAllocator) : Z :=
  foldl (fun n s => wrap64 (n + elements (empty_slabs s))) 0 (small_slabs z).

(** The search of [retrieve_empty_page] through the size classes, from the class [i] on. *)
Fixpoint retrieve_from (l : list SCAllocator) (i : nat) (z : ZoneAllocator) (m : Mem)
  : outcome (option MappedPages8k * ZoneAllocator * Mem) :=
  match l with
  | [] => Done (None, z, m)
  | s :: l =>
      if SLAB_EMPTY_PAGES_THRESHOLD <? elements (empty_slabs s) then
        let* (r, s, m) := sc_retrieve_empty_page s m in Done (r, set_slab z i s, m)
      else retrieve_from l (S i) z m
  end.

Definition zone_retrieve_empty_page (z : ZoneAllocator) (m : Mem) (heap_empty_page_threshold : Z)
  : outcome (option MappedPages8k * ZoneAllocator * Mem) :=
  if empty_pages z <=? heap_empty_page_threshold then Done (None, z, m)
  else retrieve_from (small_slabs z) 0 z m.

Definition zone_refill (z : ZoneAllocator) (m : Mem) (layout : Layout) (mp : MappedPages8k)
  : outcome (result unit string * ZoneAllocator * Mem) :=
  match get_slab (l_size layout) with
  | Base idx =>
      let* s := expect (small_slabs z !! idx) in
      let* (s, m) := sc_refill s m mp (zone_heap_id z) in
      Done (Ok tt, set_slab z idx s, m)
  | Large _ => Done (Err "AllocationError::InvalidLayout", z, m)
  | Unsupported => Done (Err "AllocationError::InvalidLayout", z, m)
  end.

Definition exchange_pages_within_heap (z : ZoneAllocator) (m : Mem) (layout : Layout)
  : outcome (result unit string * ZoneAllocator * Mem) :=
  let* (r, z, m) := zone_retrieve_empty_page z m 0 in
  match r with
  | None => Done (Err "Couldn't find an empty page to exchange within the heap", z, m)
  | Some mp => zone_refill z m layout mp
  end.

(** [self.small_slabs[idx].allocate(layout)]. *)
Definition slab_allocate (z : ZoneAllocator) (m : Mem) (idx : nat) (layout : Layout)
  : outcome (result Z string * ZoneAllocator * Mem) :=
  let* s := expect (small_slabs z !! idx) in
  let* (r, s, m) := sc_allocate s m layout in
  Done (r, set_slab z idx s, m).

Definition zone_allocate (z : ZoneAllocator) (m : Mem) (layout : Layout)
  : outcome (result Z string * ZoneAllocator * Mem) :=
  match get_slab (l_size layout) with
  | Base idx =>
      let* (r, z, m) := slab_allocate z m idx layout in
      match r with
      | Ok ptr => Done (Ok ptr, z, m)
      | Err _ =>
          let* (r, z, m) := exchange_pages_within_heap z m layout in
          match r with
          | Err e => Done (Err e, z, m)
          | Ok _ => slab_allocate z m idx layout
          end
      end
  | Large _ => Done (Err "AllocationError::InvalidLayout", z, m)
  | Unsupported => Done (Err "AllocationError::InvalidLayout", z, m)
  end.

Definition zone_deallocate (z : ZoneAllocator) (m : Mem) (ptr : Z) (layout : Layout)
  : outcome (result unit string * ZoneAllocator * Mem) :=
  match get_slab (l_size layout) with
  | Base idx =>
      let* s := expect (small_slabs z !! idx) in
      let* (r, s, m) := sc_deallocate s m ptr layout in
      Done (r, set_slab z idx s, m)
  | Large _ => Done (Err "AllocationError::InvalidLayout", z, m)
  | Unsupported => Done (Err "AllocationError::InvalidLayout", z, m)
  end.

End Pages.
