(* ===== verification/SlabBits.v ===== *)
(** * The slab allocator's bitfield

    The bitfield of an object page as the set of its allocated slots: what each operation
    of [impl Bitfield for [AtomicU64]] does to, or finds out about, the bit of a slot. *)

From S2P Require Import Prelude Slab.

(** The bit of a slot; the words of the bitfield are those of a [u64]. *)
Definition bit (bf : list Z) (i : Z) : bool :=
  match bf !! Z.to_nat (i / 64) with Some w => Z.testbit w (i mod 64) | None => true end.

Definition bits_ok (bf : list Z) : Prop := length bf = 8%nat /\ Forall in_u64 bf.

(** ** Words *)

Lemma in_u64_testbit (w i : Z) : in_u64 w -> 64 <= i -> Z.testbit w i = false.
Proof.
  intros Hw Hi. destruct (decide (w = 0)) as [-> | Hne]; [apply Z.bits_0 |].
  apply Z.bits_above_log2; unfold in_u64, U64_MAX in Hw; [lia |].
  apply Z.lt_le_trans with 64; [| done]. apply Z.log2_lt_pow2; lia.
Qed.

Lemma U64_MAX_ones : U64_MAX = Z.ones 64.
Proof. reflexivity. Qed.

Lemma U64_MAX_testbit (i : Z) : 0 <= i -> Z.testbit U64_MAX i = (i <? 64).
Proof.
  intros Hi. rewrite U64_MAX_ones. case_cmp; [apply Z.ones_spec_low | apply Z.ones_spec_high]; lia.
Qed.

Lemma testbit_in_u64 (w : Z) : 0 <= w -> (forall i, 64 <= i -> Z.testbit w i = false) -> in_u64 w.
Proof.
  intros Hw H. enough (w = Z.land w U64_MAX) as ->.
  { rewrite U64_MAX_ones, Z.land_ones by lia. pose proof (Z.mod_pos_bound w (2 ^ 64)).
    unfold in_u64, U64_MAX. lia. }
  apply Z.bits_inj'. intros i Hi. rewrite Z.land_spec, U64_MAX_testbit by done.
  case_cmp; [by rewrite andb_true_r |]. rewrite H by lia. done.
Qed.

Lemma word_max_iff (w : Z) : in_u64 w -> w = U64_MAX <-> forall i, 0 <= i < 64 -> Z.testbit w i = true.
Proof.
  intros Hw. split.
  - intros -> i Hi. rewrite U64_MAX_testbit by lia. case_cmp; lia.
  - intros H. apply Z.bits_inj'. intros i Hi. rewrite U64_MAX_testbit by done. case_cmp.
    + by apply H.
    + by apply in_u64_testbit.
Qed.

Lemma word_zero_iff (w : Z) : in_u64 w -> w = 0 <-> forall i, 0 <= i < 64 -> Z.testbit w i = false.
Proof.
  intros Hw. split.
  - intros -> i Hi. apply Z.bits_0.
  - intros H. apply Z.bits_inj'. intros i Hi. rewrite Z.bits_0.
    destruct (decide (i < 64)); [by apply H | apply in_u64_testbit; [done | lia]].
Qed.

Lemma testbit_one (j i : Z) : 0 <= i -> 0 <= j -> Z.testbit (Z.shiftl 1 i) j = (j =? i).
Proof.
  intros Hi Hj. rewrite Z.shiftl_1_l. destruct (Z.eqb_spec j i) as [-> | Hne].
  - by apply Z.pow2_bits_true.
  - by apply Z.pow2_bits_false.
Qed.

Lemma word_set_bit (w i j : Z) :
  0 <= i -> 0 <= j -> Z.testbit (Z.lor w (Z.shiftl 1 i)) j = Z.testbit w j || (j =? i).
Proof. intros. by rewrite Z.lor_spec, testbit_one. Qed.

Lemma word_clear_bit (w i j : Z) :
  0 <= i < 64 -> 0 <= j < 64 ->
  Z.testbit (Z.land w (Z.lxor U64_MAX (Z.shiftl 1 i))) j = Z.testbit w j && negb (j =? i).
Proof.
  intros. rewrite Z.land_spec, Z.lxor_spec, testbit_one, U64_MAX_testbit by lia.
  destruct (Z.ltb_spec j 64); [| lia]. by rewrite xorb_true_l.
Qed.

Lemma word_set_in (w i : Z) : in_u64 w -> 0 <= i < 64 -> in_u64 (Z.lor w (Z.shiftl 1 i)).
Proof.
  intros Hw Hi. apply testbit_in_u64.
  - apply Z.lor_nonneg. split; [unfold in_u64 in Hw; lia |]. apply Z.shiftl_nonneg. lia.
  - intros j Hj. rewrite word_set_bit, in_u64_testbit by (done || lia). simpl. case_cmp; lia.
Qed.

Lemma word_clear_in (w i : Z) : in_u64 w -> in_u64 (Z.land w (Z.lxor U64_MAX (Z.shiftl 1 i))).
Proof.
  intros Hw. apply testbit_in_u64.
  - apply Z.land_nonneg. left. unfold in_u64 in Hw. lia.
  - intros j Hj. rewrite Z.land_spec, in_u64_testbit by (done || lia). done.
Qed.

(** The test of a single bit. *)
Lemma land_one_eqb (w i : Z) : 0 <= i -> (Z.land w (Z.shiftl 1 i) =? 0) = negb (Z.testbit w i).
Proof.
  intros Hi. destruct (Z.eqb_spec (Z.land w (Z.shiftl 1 i)) 0) as [E | E].
  - assert (Z.testbit (Z.land w (Z.shiftl 1 i)) i = false) as H by (rewrite E; apply Z.bits_0).
    rewrite Z.land_spec, testbit_one, Z.eqb_refl, andb_true_r in H by done. by rewrite H.
  - destruct (Z.testbit w i) eqn:Eb; [done |]. exfalso. apply E. apply Z.bits_inj'. intros j Hj.
    rewrite Z.land_spec, testbit_one, Z.bits_0 by done.
    destruct (Z.eqb_spec j i) as [-> | _]; [by rewrite Eb | apply andb_false_r].
Qed.

Lemma land_one_ltb (w i : Z) : 0 <= w -> 0 <= i -> (0 <? Z.land w (Z.shiftl 1 i)) = Z.testbit w i.
Proof.
  intros Hw Hi. pose proof (land_one_eqb w i Hi) as H.
  assert (0 <= Z.land w (Z.shiftl 1 i)) by (apply Z.land_nonneg; by left).
  destruct (Z.testbit w i); simpl in H; case_cmp; bool_to_prop; lia.
Qed.

(** The mask of the low bits. *)
Lemma land_mask_eqb (w n : Z) :
  0 <= n -> (Z.land (Z.shiftl 1 n - 1) w =? 0) = true <-> forall i, 0 <= i < n -> Z.testbit w i = false.
Proof.
  intros Hn. replace (Z.shiftl 1 n - 1) with (Z.ones n) by (rewrite Z.ones_equiv, Z.shiftl_1_l; lia).
  rewrite Z.eqb_eq. split.
  - intros E i Hi. assert (Z.testbit (Z.land (Z.ones n) w) i = false) as H by (rewrite E; apply Z.bits_0).
    by rewrite Z.land_spec, Z.ones_spec_low in H by lia.
  - intros H. apply Z.bits_inj'. intros i Hi. rewrite Z.land_spec, Z.bits_0.
    destruct (decide (i < n)); [by rewrite H, andb_false_r |]. rewrite Z.ones_spec_high by lia. done.
Qed.

Lemma trailing_zeros_from_spec (fuel : nat) (i w k : Z) :
  0 <= i -> i <= k < i + Z.of_nat fuel -> Z.testbit w k = true ->
  let t := trailing_zeros_from fuel i w in
  i <= t <= k /\ Z.testbit w t = true /\ forall j, i <= j < t -> Z.testbit w j = false.
Proof.
  revert i. induction fuel as [| fuel IH]; intros i Hi Hk Hb; [lia |]. cbn.
  destruct (Z.testbit w i) eqn:E; [split_and!; [lia | lia | done | lia] |].
  assert (i <> k) by congruence. destruct (IH (i + 1)) as (Ht & Hs & Hl); [lia | lia | done |].
  split_and!; [lia | lia | done |]. intros j Hj. destruct (decide (j = i)) as [-> |]; [done | apply Hl; lia].
Qed.

Lemma lxor_max_testbit (w i : Z) : 0 <= i < 64 -> Z.testbit (Z.lxor U64_MAX w) i = negb (Z.testbit w i).
Proof.
  intros. rewrite Z.lxor_spec, U64_MAX_testbit by lia. destruct (Z.ltb_spec i 64); [| lia].
  apply xorb_true_l.
Qed.

(** The first free bit of a word that has one. *)
Lemma first_free_spec (w : Z) :
  in_u64 w -> w <> U64_MAX ->
  let t := trailing_zeros (Z.lxor U64_MAX w) in
  0 <= t < 64 /\ Z.testbit w t = false /\ forall j, 0 <= j < t -> Z.testbit w j = true.
Proof.
  intros Hw Hne. assert (exists k, 0 <= k < 64 /\ Z.testbit w k = false) as (k & Hk & Eb).
  { destruct (find_index (fun i => negb (Z.testbit w i)) (seqZ 0 64)) as [i |] eqn:E.
    - apply find_index_Some in E as [(x & E & Hx) _]. apply lookup_seqZ in E as [-> Hi].
      exists (0 + Z.of_nat i). split; [lia |]. by apply negb_true_iff.
    - exfalso. apply Hne, word_max_iff; [done |]. intros i Hi. apply negb_false_iff.
      apply find_index_None in E. rewrite Forall_forall in E. by apply E, elem_of_seqZ. }
  destruct (trailing_zeros_from_spec 64 0 (Z.lxor U64_MAX w) k) as (Ht & Hs & Hl); [lia | lia | |].
  { by rewrite lxor_max_testbit, Eb. }
  fold (trailing_zeros (Z.lxor U64_MAX w)) in *.
  split_and!; [lia | lia | |].
  - rewrite lxor_max_testbit in Hs by lia. by apply negb_true_iff.
  - intros j Hj. specialize (Hl j Hj). rewrite lxor_max_testbit in Hl by lia. by apply negb_false_iff.
Qed.

(** ** The bitfield *)

Lemma bit_split (i : Z) : 0 <= i < 512 -> (Z.to_nat (i / 64) < 8)%nat /\ 0 <= i mod 64 < 64 /\ 0 <= i / 64.
Proof.
  intros Hi. assert (0 <= i / 64 < 8) by (split; [apply Z.div_pos | apply Z.div_lt_upper_bound]; lia).
  pose proof (Z.mod_pos_bound i 64). lia.
Qed.

Lemma bits_lookup (bf : list Z) (i : Z) :
  bits_ok bf -> 0 <= i < 512 -> exists w, bf !! Z.to_nat (i / 64) = Some w /\ in_u64 w /\ bit bf i = Z.testbit w (i mod 64).
Proof.
  intros [Hl Hw] Hi. destruct (bit_split i Hi) as (Hn & _).
  destruct (lookup_lt_is_Some_2 bf (Z.to_nat (i / 64))) as [w E]; [lia |].
  exists w. split_and!; [done | by eapply Forall_lookup_1 |]. unfold bit. by rewrite E.
Qed.

Lemma is_allocated_bit (bf : list Z) (i : Z) :
  bits_ok bf -> 0 <= i < 512 -> is_allocated bf i = Done (bit bf i).
Proof.
  intros Hok Hi. destruct (bits_lookup bf i Hok Hi) as (w & E & Hw & Eb). unfold is_allocated. rewrite E. cbn.
  rewrite Eb, land_one_ltb; [done | unfold in_u64 in Hw; lia | apply Z.mod_pos_bound; lia].
Qed.

(** Replacing a word changes the bits of that word. *)
Lemma bit_insert (bf : list Z) (i j w : Z) :
  bits_ok bf -> 0 <= i < 512 -> 0 <= j < 512 ->
  bit (<[Z.to_nat (i / 64) := w]> bf) j = if i / 64 =? j / 64 then Z.testbit w (j mod 64) else bit bf j.
Proof.
  intros [Hl _] Hi Hj. unfold bit. destruct (bit_split i Hi) as (? & ? & ?), (bit_split j Hj) as (? & ? & ?).
  destruct (Z.eqb_spec (i / 64) (j / 64)) as [E | E].
  - rewrite <- E, list_lookup_insert_eq by lia. done.
  - by rewrite list_lookup_insert_ne by lia.
Qed.

Lemma same_word (i j : Z) : i / 64 = j / 64 -> (j mod 64 =? i mod 64) = (j =? i).
Proof.
  intros E. pose proof (Z.div_mod i 64). pose proof (Z.div_mod j 64). case_cmp; lia.
Qed.

Lemma set_bit_ok (bf : list Z) (i : Z) :
  bits_ok bf -> 0 <= i < 512 ->
  exists bf', set_bit bf i = Done bf' /\ bits_ok bf' /\
    forall j, 0 <= j < 512 -> bit bf' j = bit bf j || (j =? i).
Proof.
  intros Hok Hi. destruct (bits_lookup bf i Hok Hi) as (w & E & Hw & Eb). unfold set_bit. rewrite E. cbn.
  destruct (bit_split i Hi) as (? & ? & ?). eexists. split; [done |]. split.
  - destruct Hok as [Hl Hf]. split; [by rewrite length_insert |]. apply Forall_insert; [done |]. by apply word_set_in.
  - intros j Hj. destruct (bit_split j Hj) as (? & ? & ?). rewrite bit_insert by done.
    destruct (Z.eqb_spec (i / 64) (j / 64)) as [E' | E'].
    + rewrite word_set_bit, same_word by lia. f_equal. unfold bit. by rewrite <- E', E.
    + destruct (Z.eqb_spec j i) as [-> |]; [done | by rewrite orb_false_r].
Qed.

Lemma clear_bit_ok (bf : list Z) (i : Z) :
  bits_ok bf -> 0 <= i < 512 ->
  exists bf', clear_bit bf i = Done bf' /\ bits_ok bf' /\
    forall j, 0 <= j < 512 -> bit bf' j = bit bf j && negb (j =? i).
Proof.
  intros Hok Hi. destruct (bits_lookup bf i Hok Hi) as (w & E & Hw & Eb). unfold clear_bit. rewrite E. cbn.
  destruct (bit_split i Hi) as (? & ? & ?). eexists. split; [done |]. split.
  - destruct Hok as [Hl Hf]. split; [by rewrite length_insert |]. apply Forall_insert; [done |]. by apply word_clear_in.
  - intros j Hj. destruct (bit_split j Hj) as (? & ? & ?). rewrite bit_insert by done.
    destruct (Z.eqb_spec (i / 64) (j / 64)) as [E' | E'].
    + rewrite word_clear_bit, same_word by lia. f_equal. unfold bit. by rewrite <- E', E.
    + destruct (Z.eqb_spec j i) as [-> |]; [done | by rewrite andb_true_r].
Qed.

Lemma clear_bits_ok (n : nat) (i : Z) (bf : list Z) :
  bits_ok bf -> 0 <= i -> i + Z.of_nat n <= 512 ->
  exists bf', clear_bits n i bf = Done bf' /\ bits_ok bf' /\
    forall j, 0 <= j < 512 -> bit bf' j = bit bf j && negb ((i <=? j) && (j <? i + Z.of_nat n)).
Proof.
  revert i bf. induction n as [| n IH]; intros i bf Hok Hi Hn.
  { exists bf. split_and!; [done | done |]. intros j Hj.
    replace ((i <=? j) && (j <? i + Z.of_nat 0)) with false by (case_cmp; simpl; lia || done).
    by rewrite andb_true_r. }
  cbn [clear_bits]. destruct (clear_bit_ok bf i) as (b1 & -> & Hok1 & Hb1); [done | lia |]. cbn.
  destruct (IH (i + 1) b1) as (b2 & -> & Hok2 & Hb2); [done | lia | lia |]. exists b2. split_and!; [done | done |].
  intros j Hj. rewrite Hb2, Hb1 by done. destruct (bit bf j); simpl; [| done].
  case_cmp; simpl; try done; lia.
Qed.

Lemma initialize_ok (bf : list Z) (for_size capacity : Z) :
  length bf = 8%nat -> 0 < for_size -> 0 <= capacity ->
  exists bf', initialize bf for_size capacity = Done bf' /\ bits_ok bf' /\
    forall j, 0 <= j < 512 -> bit bf' j = negb (j <? Z.min (capacity / for_size) 512).
Proof.
  intros Hl Hs Hc. unfold initialize. destruct (Z.eqb_spec for_size 0); [lia |]. rewrite length_fmap, Hl.
  replace (Z.of_nat 8 * 64) with 512 by lia. assert (0 <= capacity / for_size) by (by apply Z.div_pos).
  assert (bits_ok ((fun _ => U64_MAX) <$> bf)) as Hok.
  { split; [by rewrite length_fmap |]. apply Forall_fmap, Forall_true. intros x. unfold compose, in_u64, U64_MAX. lia. }
  destruct (clear_bits_ok (Z.to_nat (Z.min (capacity / for_size) 512)) 0 _ Hok) as (b & E & Hb & Hj); [lia | lia |].
  exists b. split_and!; [exact E | done |]. intros j Hj'. rewrite Hj by done. unfold bit. rewrite list_lookup_fmap.
  destruct (bit_split j Hj') as (? & ? & ?).
  destruct (lookup_lt_is_Some_2 bf (Z.to_nat (j / 64))) as [w ->]; [lia |]. simpl.
  rewrite U64_MAX_testbit by lia. case_cmp; simpl; try done; lia.
Qed.

(** The bits of a bitfield word by word. *)
Lemma bit_cons_low (w : Z) (bf : list Z) (i : Z) : 0 <= i < 64 -> bit (w :: bf) i = Z.testbit w i.
Proof. intros Hi. unfold bit. by rewrite Z.div_small, Z.mod_small by lia. Qed.

Lemma bit_cons_high (w : Z) (bf : list Z) (i : Z) : 64 <= i -> bit (w :: bf) i = bit bf (i - 64).
Proof.
  intros Hi. unfold bit. assert (0 <= (i - 64) / 64) by (apply Z.div_pos; lia).
  assert (i / 64 = (i - 64) / 64 + 1) as -> by (rewrite <- Z.div_add by lia; f_equal; lia).
  assert (i mod 64 = (i - 64) mod 64) as -> by (rewrite <- (Z.mod_add (i - 64) 1) by lia; f_equal; lia).
  by replace (Z.to_nat ((i - 64) / 64 + 1)) with (S (Z.to_nat ((i - 64) / 64))) by lia.
Qed.

(** The size of a bitfield in bits. *)
Definition nbits (bf : list Z) : Z := Z.of_nat (length bf) * 64.

Lemma bits_is_full_iff (bf : list Z) :
  Forall in_u64 bf -> bits_is_full bf = true <-> forall i, 0 <= i < nbits bf -> bit bf i = true.
Proof.
  unfold bits_is_full. rewrite Nat.eqb_eq. unfold nbits. induction 1 as [| w bf Hw Hf IH]; cbn [length filter list_filter].
  { simpl. split; [lia | done]. }
  pose proof (word_max_iff w Hw) as Hmax. case_decide as Hd.
  - split; [done |]. intros H. exfalso. apply Hd, Hmax. intros i Hi. rewrite <- (bit_cons_low w bf) by done. apply H. lia.
  - rename Hd into Ew.
    rewrite IH. split; intros H i Hi.
    + destruct (decide (i < 64)) as [Hlt | Hge].
      * rewrite bit_cons_low by lia. apply Hmax; [done | lia].
      * rewrite bit_cons_high by lia. apply H. lia.
    + rewrite <- (Z.add_simpl_r i 64), <- (bit_cons_high w bf) by lia. apply H. lia.
Qed.

Lemma all_free_from_iff (bf : list Z) (idx n : Z) :
  Forall in_u64 bf -> 0 <= idx -> idx * 64 <= n <= idx * 64 + nbits bf ->
  all_free_from bf idx n = true <-> forall i, 0 <= i < n - idx * 64 -> bit bf i = false.
Proof.
  intros Hf. revert idx. unfold nbits.
  induction Hf as [| w bf Hw Hf IH]; intros idx Hi Hn; cbn [length all_free_from] in *.
  { split; [lia | done]. }
  destruct (Z.leb_spec (idx * 64) n); [| lia].
  destruct (Z.ltb_spec n ((idx + 1) * 64)); cbn [andb].
  - rewrite land_mask_eqb by lia. split; intros H1 i Hi1.
    + rewrite bit_cons_low by lia. apply H1. lia.
    + rewrite <- (bit_cons_low w bf) by lia. apply H1. lia.
  - pose proof (word_zero_iff w Hw) as Hz. destruct (Z.eqb_spec w 0) as [Ew | Ew].
    + rewrite IH by lia. split; intros H1 i Hi1.
      * destruct (decide (i < 64)); [rewrite bit_cons_low by lia; apply Hz; [done | lia] |].
        rewrite bit_cons_high by lia. apply H1. lia.
      * rewrite <- (Z.add_simpl_r i 64), <- (bit_cons_high w bf) by lia. apply H1. lia.
    + split; [done |]. intros H1. exfalso. apply Ew, Hz. intros i Hi1. rewrite <- (bit_cons_low w bf) by done.
      apply H1. lia.
Qed.

Lemma all_free_iff (bf : list Z) (n : Z) :
  bits_ok bf -> 0 <= n <= 512 -> all_free bf n = true <-> forall i, 0 <= i < n -> bit bf i = false.
Proof.
  intros [Hl Hf] Hn. unfold all_free. rewrite all_free_from_iff; [| done | lia | unfold nbits; lia].
  by rewrite Z.mul_0_l, Z.sub_0_r.
Qed.

(** ** First fit *)

Section FirstFit.
Variables (base page_size metadata_size : Z) (layout : Layout).
Hypothesis Hsize : 0 <= l_size layout <= page_size - metadata_size.
Hypothesis Hpage : page_size - metadata_size < 8192.
Hypothesis Hbase : 0 <= base /\ base + 8192 <= 2 ^ 64.

Lemma first_fit_from_sound (bf : list Z) (k : Z) (r : Z * Z) :
  Forall in_u64 bf -> 0 <= k -> k * 64 + nbits bf <= 512 ->
  first_fit_from bf k base layout page_size metadata_size = Some r ->
  exists i, r = (k * 64 + i, base + (k * 64 + i) * l_size layout) /\
    0 <= i < nbits bf /\ bit bf i = false /\ r.2 mod l_align layout = 0 /\
    (k * 64 + i) * l_size layout + l_size layout <= page_size - metadata_size.
Proof using Hsize Hpage Hbase.
  intros Hf. revert k. induction Hf as [| w bf Hw Hf IH]; intros k Hk Hb E; [done |]. unfold nbits in *. cbn [length] in *.
  cbn [first_fit_from] in E.
  assert (first_fit_from bf (k + 1) base layout page_size metadata_size = Some r ->
    exists i, r = (k * 64 + i, base + (k * 64 + i) * l_size layout) /\
    0 <= i < Z.of_nat (S (length bf)) * 64 /\ bit (w :: bf) i = false /\ r.2 mod l_align layout = 0 /\
    (k * 64 + i) * l_size layout + l_size layout <= page_size - metadata_size) as Hrec.
  { intros E'. destruct (IH (k + 1)) as (i & Hr & Hi & Hbi & Ha & Hd); [lia | lia | done |].
    exists (64 + i). replace (k * 64 + (64 + i)) with ((k + 1) * 64 + i) by lia.
    split_and!; [done | lia | lia | | done | done]. rewrite bit_cons_high by lia. by replace (64 + i - 64) with i by lia. }
  destruct (Z.eqb_spec w U64_MAX) as [Ew | Ew]; [by apply Hrec |].
  destruct (first_free_spec w Hw Ew) as (Ht & Hfree & _). set (t := trailing_zeros (Z.lxor U64_MAX w)) in *.
  assert (0 <= (k * 64 + t) * l_size layout < 512 * 8193) as Hoff by nia.
  rewrite (wrap64_id ((k * 64 + t) * l_size layout)) in E by (unfold in_u64, U64_MAX; lia).
  rewrite (wrap64_id (page_size - metadata_size - l_size layout)) in E by (unfold in_u64, U64_MAX; lia).
  destruct (Z.leb_spec ((k * 64 + t) * l_size layout) (page_size - metadata_size - l_size layout)) as [Hle | Hle]; cbn [negb] in E; [| done].
  rewrite wrap64_id in E by (unfold in_u64, U64_MAX; lia).
  rewrite land_one_eqb, Hfree, andb_true_r in E by lia.
  destruct (Z.eqb_spec ((base + (k * 64 + t) * l_size layout) mod l_align layout) 0) as [Ea | Ea]; [| by apply Hrec].
  injection E as <-. exists t. split_and!; [done | lia | lia | by rewrite bit_cons_low by lia | done | lia].
Qed.

(** A bitfield with a free slot has a fit when the alignment divides the object size, the
    free slots being those whose objects are in the data area. *)
Lemma first_fit_from_complete (bf : list Z) (k i : Z) :
  Forall in_u64 bf -> 0 <= k -> k * 64 + nbits bf <= 512 ->
  0 < l_align layout -> (l_align layout | l_size layout) -> base mod l_align layout = 0 ->
  (forall j, 0 <= j < nbits bf -> bit bf j = false ->
     (k * 64 + j) * l_size layout + l_size layout <= page_size - metadata_size) ->
  0 <= i < nbits bf -> bit bf i = false ->
  is_Some (first_fit_from bf k base layout page_size metadata_size).
Proof using Hsize Hpage Hbase.
  intros Hf. revert k i. induction Hf as [| w bf Hw Hf IH]; intros k i Hk Hb Hal Hdiv Hba Hin Hi Hbi;
    unfold nbits in *; cbn [length first_fit_from] in *; [lia |].
  destruct (Z.eqb_spec w U64_MAX) as [Ew | Ew].
  - assert (64 <= i) as Hge.
    { destruct (decide (i < 64)); [| lia]. rewrite bit_cons_low in Hbi by lia.
      rewrite (proj1 (word_max_iff w Hw) Ew) in Hbi by lia. done. }
    rewrite bit_cons_high in Hbi by lia. apply (IH (k + 1) (i - 64)); try lia; try done.
    intros j Hj Hbj. replace ((k + 1) * 64 + j) with (k * 64 + (j + 64)) by lia. apply Hin; [lia |].
    rewrite bit_cons_high by lia. by replace (j + 64 - 64) with j by lia.
  - destruct (first_free_spec w Hw Ew) as (Ht & Hfree & _). set (t := trailing_zeros (Z.lxor U64_MAX w)) in *.
    assert ((k * 64 + t) * l_size layout + l_size layout <= page_size - metadata_size) as Hle.
    { apply Hin; [lia |]. by rewrite bit_cons_low by lia. }
    assert (0 <= (k * 64 + t) * l_size layout) by nia.
    rewrite (wrap64_id ((k * 64 + t) * l_size layout)), (wrap64_id (page_size - metadata_size - l_size layout)),
      wrap64_id by (unfold in_u64, U64_MAX; lia).
    destruct (Z.leb_spec ((k * 64 + t) * l_size layout) (page_size - metadata_size - l_size layout)); [| lia]. cbn [negb].
    rewrite land_one_eqb, Hfree by lia.
    assert ((base + (k * 64 + t) * l_size layout) mod l_align layout = 0) as ->; [| done].
    apply Z.mod_divide; [lia |]. apply Z.divide_add_r; [apply Z.mod_divide; [lia | done] |]. by apply Z.divide_mul_r.
Qed.

(** An empty bitfield: the first slot. *)
Lemma first_fit_empty (bf : list Z) :
  bits_ok bf -> bit bf 0 = false -> base mod l_align layout = 0 ->
  bits_first_fit bf base layout page_size metadata_size = Some (0, base).
Proof using Hsize Hpage Hbase.
  intros [Hl Hf] Hb Ha. unfold bits_first_fit. destruct bf as [| w bf]; [done |]. apply Forall_cons in Hf as [Hw Hf].
  rewrite bit_cons_low in Hb by lia. cbn [first_fit_from].
  destruct (Z.eqb_spec w U64_MAX) as [Ew | Ew].
  { by rewrite (proj1 (word_max_iff w Hw) Ew) in Hb by lia. }
  destruct (first_free_spec w Hw Ew) as (Ht & Hfree & Hlow). set (t := trailing_zeros (Z.lxor U64_MAX w)) in *.
  assert (t = 0) as -> by (destruct (decide (t = 0)); [done |]; rewrite (Hlow 0) in Hb by lia; done).
  rewrite land_one_eqb, Hfree, !Z.mul_0_l by lia. rewrite (wrap64_id 0), Z.add_0_r, !wrap64_id by (unfold in_u64, U64_MAX; lia).
  destruct (Z.leb_spec 0 (page_size - metadata_size - l_size layout)); [| lia]. by rewrite Ha.
Qed.

(** The slot found: free, its object in the data area and aligned. *)
Lemma first_fit_sound (bf : list Z) (idx addr : Z) :
  bits_ok bf -> bits_first_fit bf base layout page_size metadata_size = Some (idx, addr) ->
  0 <= idx < 512 /\ bit bf idx = false /\ addr = base + idx * l_size layout /\
  addr mod l_align layout = 0 /\ idx * l_size layout + l_size layout <= page_size - metadata_size.
Proof using Hsize Hpage Hbase.
  intros [Hl Hf] E. unfold bits_first_fit in E.
  destruct (first_fit_from_sound bf 0 (idx, addr) Hf) as (i & Hr & Hi & Hb & Ha & Hd); [lia | unfold nbits; lia | done |].
  simplify_eq/=. unfold nbits in Hi. rewrite Hl in Hi. split_and!; [lia | lia | done | done | done | lia].
Qed.

Lemma first_fit_complete (bf : list Z) (i : Z) :
  bits_ok bf -> 0 < l_align layout -> (l_align layout | l_size layout) -> base mod l_align layout = 0 ->
  (forall j, 0 <= j < 512 -> bit bf j = false -> j * l_size layout + l_size layout <= page_size - metadata_size) ->
  0 <= i < 512 -> bit bf i = false -> is_Some (bits_first_fit bf base layout page_size metadata_size).
Proof using Hsize Hpage Hbase.
  intros [Hl Hf] Hal Hdiv Hba Hin Hi Hb. assert (nbits bf = 512) as Hn by (unfold nbits; lia).
  apply (first_fit_from_complete bf 0 i); rewrite ?Hn; try done; lia.
Qed.

End FirstFit.
