(* ===== verification/SlabList.v ===== *)
(** * The page lists of the slab allocator

    [PageList] links pages in memory by raw pointers in both directions.  [links m head l]
    states that following the links from [head] visits the pages [l], each of which points
    back to the one before it; the operations on a linked list are then refinements of the
    operations on lists: [insert_front] of [cons], [remove_from_list] of [delete] and
    [pl_pop] of taking the head off.  Every operation changes the links of pages of the list
    only, and no data. *)

From stdpp Require Import gmap.
From S2P Require Import Prelude PageTable Slab.

(** The page before the [i]-th. *)
Definition before (l : list Z) (i : nat) : option Z := match i with O => None | S j => l !! j end.

Definition links (m : Mem) (h : option Z) (l : list Z) : Prop :=
  h = l !! 0%nat /\
  forall i a, l !! i = Some a ->
    exists p, m !! a = Some p /\ pg_prev p = before l i /\ pg_next p = l !! S i.

(** The list a [PageList] stands for. *)
Record list_repr (m : Mem) (pl : PageList) (l : list Z) : Prop := {
  lr_links : links m (pl_head pl) l;
  lr_len : elements pl = wrap64 (Z.of_nat (length l));
  lr_nodup : NoDup l;
}.

(** A page less its links. *)
Definition page_data (p : ObjectPage8k) : option MappedPages8k * Z * list Z := (pg_mp p, pg_heap_id p, pg_bitfield p).

(** [m'] differs from [m] in the links of the pages [l] at most. *)
Definition relinked (l : list Z) (m m' : Mem) : Prop :=
  (forall x, x ∉ l -> m' !! x = m !! x) /\ (forall x, page_data <$> m' !! x = page_data <$> m !! x).

#[export] Instance relinked_refl (l : list Z) : Reflexive (relinked l).
Proof. by split. Qed.

#[export] Instance relinked_trans (l : list Z) : Transitive (relinked l).
Proof.
  intros m1 m2 m3 [H1 D1] [H2 D2]. split; intros x.
  - intros Hx. by rewrite H2, H1.
  - by rewrite D2, D1.
Qed.

Lemma relinked_mono (l l' : list Z) (m m' : Mem) : l ⊆ l' -> relinked l m m' -> relinked l' m m'.
Proof. intros Hs [H D]. split; [| done]. intros x Hx. apply H. set_solver. Qed.

Lemma relinked_insert (l : list Z) (m : Mem) (a : Z) (p q : ObjectPage8k) :
  a ∈ l -> m !! a = Some p -> page_data q = page_data p -> relinked l m (<[a := q]> m).
Proof.
  intros Ha E D. split; intros x.
  - intros Hx. apply lookup_insert_ne. set_solver.
  - destruct (decide (x = a)) as [-> |]; [by rewrite lookup_insert_eq, E; simpl; rewrite D | by rewrite lookup_insert_ne].
Qed.

Lemma relinked_lookup (l : list Z) (m m' : Mem) (x : Z) (p : ObjectPage8k) :
  relinked l m m' -> m !! x = Some p -> exists q, m' !! x = Some q /\ page_data q = page_data p.
Proof.
  intros [_ D] E. specialize (D x). rewrite E in D. simpl in D.
  destruct (m' !! x) as [q |]; simpl in D; [| done]. exists q. split; [done | congruence].
Qed.

(** ** Links *)

Lemma links_ext (m m' : Mem) (h : option Z) (l : list Z) :
  (forall x, x ∈ l -> (fun p => (pg_prev p, pg_next p)) <$> m' !! x = (fun p => (pg_prev p, pg_next p)) <$> m !! x) ->
  links m h l -> links m' h l.
Proof.
  intros He [Hh Hl]. split; [done |]. intros i a E. destruct (Hl i a E) as (p & Ep & H1 & H2).
  specialize (He a (list_elem_of_lookup_2 _ _ _ E)). rewrite Ep in He. simpl in He.
  destruct (m' !! a) as [q |]; simpl in He; [| done]. exists q. injection He as -> ->. done.
Qed.

Lemma list_repr_frame (m m' : Mem) (pl : PageList) (l l' : list Z) :
  relinked l' m m' -> l ## l' -> list_repr m pl l -> list_repr m' pl l.
Proof.
  intros [H _] Hd [Hl Hn Hnd]. split; [| done | done]. revert Hl. apply links_ext. intros x Hx. rewrite H; [done |].
  set_solver.
Qed.

(** A page whose links stay. *)
Lemma list_repr_data (m : Mem) (pl : PageList) (l : list Z) (a : Z) (p q : ObjectPage8k) :
  m !! a = Some p -> pg_prev q = pg_prev p -> pg_next q = pg_next p ->
  list_repr m pl l -> list_repr (<[a := q]> m) pl l.
Proof.
  intros E E1 E2 [Hl Hn Hnd]. split; [| done | done]. revert Hl. apply links_ext. intros x Hx.
  destruct (decide (x = a)) as [-> |]; [| by rewrite lookup_insert_ne].
  rewrite lookup_insert_eq, E. simpl. by rewrite E1, E2.
Qed.

Lemma list_repr_page (m : Mem) (pl : PageList) (l : list Z) (a : Z) :
  list_repr m pl l -> a ∈ l -> is_Some (m !! a).
Proof.
  intros [[_ Hl] _ _] Ha. apply list_elem_of_lookup_1 in Ha as [i Hi]. destruct (Hl i a Hi) as (p & -> & _). by eexists.
Qed.

Lemma wrap64_add_wrap (a b : Z) : wrap64 (wrap64 a + b) = wrap64 (a + b).
Proof. unfold wrap64. apply Zplus_mod_idemp_l. Qed.

Lemma upd_page_eq (m : Mem) (a : Z) (f : ObjectPage8k -> ObjectPage8k) (p : ObjectPage8k) :
  m !! a = Some p -> upd_page m a f = Done (<[a := f p]> m).
Proof. intros E. unfold upd_page, get_page. by rewrite E. Qed.

(** ** Insertion *)

Lemma insert_front_ok (m : Mem) (pl : PageList) (l : list Z) (a : Z) (p : ObjectPage8k) :
  list_repr m pl l -> a ∉ l -> m !! a = Some p -> pg_next p = None ->
  exists pl' m', insert_front pl m a = Done (pl', m') /\ list_repr m' pl' (a :: l) /\ relinked (a :: l) m m'.
Proof.
  intros Hr Ha E Hnx. pose proof Hr as [[Hh Hl] Hn Hnd]. unfold insert_front. rewrite Hh. destruct l as [| b l]; cbn [lookup list_lookup].
  - rewrite (upd_page_eq _ _ _ _ E). cbn. eexists _, _. split; [done |]. split; [split |].
    + split; [done |]. intros i x Ei. destruct i; [| done]. injection Ei as <-.
      rewrite lookup_insert_eq. eexists. split; [done |]. done.
    + cbn. by rewrite Hn, wrap64_add_wrap.
    + by apply NoDup_singleton.
    + eapply relinked_insert; [set_solver | done | done].
  - destruct (Hl 0%nat b eq_refl) as (q & Eq & Hq1 & Hq2). assert (a <> b) as Hab by set_solver.
    rewrite (upd_page_eq _ _ _ _ E). cbn.
    rewrite (upd_page_eq _ b _ q) by (by rewrite lookup_insert_ne). cbn.
    rewrite (upd_page_eq _ a _ (set_prev None p)) by (by rewrite lookup_insert_ne, lookup_insert_eq). cbn.
    eexists _, _. split; [done |]. split; [split |].
    + split; [done |]. intros i x Ei. destruct i as [| [| i]]; cbn in Ei.
      * injection Ei as <-. rewrite lookup_insert_eq. by eexists.
      * injection Ei as <-. rewrite lookup_insert_ne, lookup_insert_eq by done. eexists. split; [done |].
        split; [done |]. cbn. by rewrite Hq2.
      * destruct (Hl (S i) x Ei) as (r & Er & Hr1 & Hr2).
        assert (x <> a) by (intros ->; apply Ha; by eapply (list_elem_of_lookup_2 (b :: l) (S i))).
        assert (x <> b). { intros ->. by pose proof (NoDup_lookup _ _ _ _ Hnd (Ei : (b :: l) !! S i = Some b) (eq_refl : (b :: l) !! 0%nat = Some b)). }
        rewrite !lookup_insert_ne by done. eexists. split; [done |]. done.
    + cbn [elements]. rewrite Hn, wrap64_add_wrap. f_equal. cbn [length]. lia.
    + by constructor.
    + etrans; [apply (relinked_insert _ m a p (set_prev None p)); [set_solver | done | done] |].
      etrans; [apply (relinked_insert _ _ b q (set_prev (Some a) q)); [set_solver | by rewrite lookup_insert_ne | done] |].
      apply (relinked_insert _ _ a (set_prev None p)); [set_solver | by rewrite lookup_insert_ne, lookup_insert_eq | done].
Qed.

(** ** Removal *)

(** The memory after a removal: the neighbours of the page point to each other. *)
Definition unlink (m : Mem) (a : Z) (p : ObjectPage8k) : Mem :=
  let relink := fun (o : option Z) f (m : Mem) => match o with Some x => alter f x m | None => m end in
  <[a := set_next None (set_prev None p)]>
    (relink (pg_next p) (set_prev (pg_prev p)) (relink (pg_prev p) (set_next (pg_next p)) m)).

Lemma upd_page_alter (m : Mem) (a : Z) (f : ObjectPage8k -> ObjectPage8k) :
  is_Some (m !! a) -> upd_page m a f = Done (alter f a m).
Proof.
  intros [p E]. rewrite (upd_page_eq _ _ _ _ E). f_equal. apply map_eq. intros x.
  destruct (decide (x = a)) as [-> |]; [by rewrite lookup_insert_eq, lookup_alter_eq, E | by rewrite lookup_insert_ne, lookup_alter_ne].
Qed.

Lemma insert_twice (m : Mem) (a : Z) (f g : ObjectPage8k -> ObjectPage8k) (p : ObjectPage8k) :
  m !! a = Some p -> upd_page m a f = Done (<[a := f p]> m) /\
  upd_page (<[a := f p]> m) a g = Done (<[a := g (f p)]> m).
Proof.
  intros E. split; [by apply upd_page_eq |]. rewrite (upd_page_eq _ _ _ (f p)) by apply lookup_insert_eq.
  by rewrite insert_insert_eq.
Qed.

Lemma remove_from_list_eq (m : Mem) (pl : PageList) (a : Z) (p : ObjectPage8k) :
  m !! a = Some p -> pg_prev p <> Some a -> pg_next p <> Some a ->
  (forall x, pg_prev p = Some x -> is_Some (m !! x)) -> (forall x, pg_next p = Some x -> is_Some (m !! x)) ->
  remove_from_list pl m a =
  Done (mkPageList (match pg_prev p with None => pg_next p | Some _ => pl_head pl end) (wrap64 (elements pl - 1)), unlink m a p).
Proof.
  intros E Hp Hn Sp Sn. unfold remove_from_list, unlink, get_page. rewrite E. cbn.
  set (m1 := match pg_prev p with Some x => alter (set_next (pg_next p)) x m | None => m end).
  assert (m1 !! a = Some p) as E1.
  { unfold m1. destruct (pg_prev p); [| done]. rewrite lookup_alter_ne by congruence. done. }
  set (m2 := match pg_next p with Some x => alter (set_prev (pg_prev p)) x m1 | None => m1 end).
  assert (m2 !! a = Some p) as E2.
  { unfold m2. destruct (pg_next p); [| done]. rewrite lookup_alter_ne by congruence. done. }
  assert (forall x, is_Some (m !! x) -> is_Some (m1 !! x)) as S1.
  { intros x Hx. unfold m1. destruct (pg_prev p); [| done]. by apply lookup_alter_is_Some. }
  destruct (insert_twice m2 a (set_prev None) (set_next None) p E2) as [I1 I2].
  transitivity (let* (head, m) := Done (match pg_prev p with None => pg_next p | Some _ => pl_head pl end, m1) in
    let* p := expect (m !! a) in
    let* m := match pg_next p with None => Done m | Some next => upd_page m next (set_prev (pg_prev p)) end in
    let* m := upd_page m a (set_prev None) in let* m := upd_page m a (set_next None) in
    Done (mkPageList head (wrap64 (elements pl - 1)), m)).
  { f_equal. unfold m1. destruct (pg_prev p) as [x |] eqn:Ex; [| done]. by rewrite upd_page_alter by (by apply Sp). }
  cbn. rewrite E1. cbn.
  replace (match pg_next p with None => Done m1 | Some next => upd_page m1 next (set_prev (pg_prev p)) end) with (Done m2).
  { cbn. rewrite I1. cbn. rewrite I2. done. }
  unfold m2. destruct (pg_next p) as [x |] eqn:Ex; [| done]. by rewrite upd_page_alter by (by apply S1, Sn).
Qed.

(** The page at index [i] after the removal of the one at index [k]. *)
Lemma unlink_lookup (m : Mem) (h : option Z) (l : list Z) (k i : nat) (a x : Z) (p q : ObjectPage8k) :
  links m h l -> NoDup l -> l !! k = Some a -> m !! a = Some p -> l !! i = Some x -> i <> k -> m !! x = Some q ->
  exists q', unlink m a p !! x = Some q' /\
    pg_prev q' = (if decide (i = S k) then before l k else pg_prev q) /\
    pg_next q' = (if decide (S i = k) then l !! S k else pg_next q).
Proof.
  intros [_ Hl] Hnd Ek Ep Ei Hik Eq. destruct (Hl k a Ek) as (p' & Ep' & Hp1 & Hp2).
  assert (p' = p) as -> by congruence. clear Ep'.
  assert (x <> a) as Hxa by (intros ->; by pose proof (NoDup_lookup _ _ _ _ Hnd Ek Ei)).
  assert (pg_prev p = Some x <-> S i = k) as Hpi.
  { rewrite Hp1. unfold before. destruct k as [| k]; [split; [done | lia] |]. split; intros H.
    - f_equal. by eapply NoDup_lookup.
    - injection H as <-. done. }
  assert (pg_next p = Some x <-> i = S k) as Hni.
  { rewrite Hp2. split; intros H; [by eapply NoDup_lookup | by subst]. }
  unfold unlink. rewrite lookup_insert_ne by done. rewrite <- Hp2, <- Hp1.
  set (m1 := match pg_prev p with Some y => alter (set_next (pg_next p)) y m | None => m end).
  assert (m1 !! x = Some (if decide (S i = k) then set_next (pg_next p) q else q)) as E1.
  { unfold m1. destruct (pg_prev p) as [y |].
    - case_decide as Hd.
      + apply Hpi in Hd as [= ->]. by rewrite lookup_alter_eq, Eq.
      + rewrite lookup_alter_ne; [done |]. intros ->. tauto.
    - case_decide as Hd; [| done]. by apply Hpi in Hd. }
  assert (match pg_next p with Some y => alter (set_prev (pg_prev p)) y m1 | None => m1 end !! x =
    (if decide (i = S k) then set_prev (pg_prev p) else id) <$> m1 !! x) as ->.
  { clearbody m1. clear E1. destruct (pg_next p) as [y |].
    - destruct (decide (i = S k)) as [Hd | Hd].
      + apply Hni in Hd as [= ->]. by rewrite lookup_alter_eq.
      + rewrite lookup_alter_ne; [by destruct (m1 !! x) |]. intros ->. tauto.
    - destruct (decide (i = S k)) as [Hd | Hd]; [by apply Hni in Hd |]. by destruct (m1 !! x). }
  rewrite E1. cbn. eexists. split; [done |]. by repeat case_decide.
Qed.

Lemma links_delete (m : Mem) (pl : PageList) (l : list Z) (k : nat) (a : Z) (p : ObjectPage8k) :
  links m (pl_head pl) l -> NoDup l -> l !! k = Some a -> m !! a = Some p ->
  links (unlink m a p) (match pg_prev p with None => pg_next p | Some _ => pl_head pl end) (delete k l).
Proof.
  intros Hlk Hnd Ek Ep. pose proof Hlk as [Hh Hl]. destruct (Hl k a Ek) as (p' & Ep' & Hp1 & Hp2).
  assert (p' = p) as -> by congruence. split.
  - rewrite Hp1, Hp2, Hh. unfold before. destruct k as [| k].
    + by rewrite list_lookup_delete_ge by lia.
    + apply lookup_lt_Some in Ek as Hlt. destruct (lookup_lt_is_Some_2 l k) as [y ->]; [lia |].
      by rewrite list_lookup_delete_lt by lia.
  - intros i x Ei. destruct (decide (i < k)%nat) as [Hik | Hik].
    + rewrite list_lookup_delete_lt in Ei by done. destruct (Hl i x Ei) as (q & Eq & Hq1 & Hq2).
      destruct (unlink_lookup m _ l k i a x p q Hlk Hnd Ek Ep Ei) as (q' & E' & H1 & H2); [lia | done |].
      exists q'. split; [done |]. rewrite H1, H2, Hq1, Hq2. clear H1 H2. split.
      * case_decide; [lia |]. unfold before. destruct i; [done |]. by rewrite list_lookup_delete_lt by lia.
      * case_decide as Hd; [subst k; by rewrite list_lookup_delete_ge by lia |]. by rewrite list_lookup_delete_lt by lia.
    + rewrite list_lookup_delete_ge in Ei by lia. destruct (Hl (S i) x Ei) as (q & Eq & Hq1 & Hq2).
      destruct (unlink_lookup m _ l k (S i) a x p q Hlk Hnd Ek Ep Ei) as (q' & E' & H1 & H2); [lia | done |].
      exists q'. split; [done |]. rewrite H1, H2, Hq1, Hq2. clear H1 H2. split.
      * case_decide as Hd; [injection Hd as ->; unfold before; destruct k; [done |]; by rewrite list_lookup_delete_lt by lia |].
        unfold before. destruct i as [| i]; [lia |]. by rewrite list_lookup_delete_ge by lia.
      * case_decide; [lia |]. by rewrite list_lookup_delete_ge by lia.
Qed.

Lemma relinked_alter (l : list Z) (m : Mem) (x : Z) (f : ObjectPage8k -> ObjectPage8k) :
  x ∈ l -> (forall p, page_data (f p) = page_data p) -> relinked l m (alter f x m).
Proof.
  intros Hx Hf. split; intros y.
  - intros Hy. apply lookup_alter_ne. set_solver.
  - destruct (decide (y = x)) as [-> |]; [| by rewrite lookup_alter_ne].
    rewrite lookup_alter_eq. destruct (m !! x); simpl; [| done]. by rewrite Hf.
Qed.

Lemma unlink_relinked (m : Mem) (h : option Z) (l : list Z) (k : nat) (a : Z) (p : ObjectPage8k) :
  links m h l -> l !! k = Some a -> m !! a = Some p -> NoDup l -> relinked l m (unlink m a p).
Proof.
  intros [_ Hl] Ek Ep Hnd. destruct (Hl k a Ek) as (p' & Ep' & Hp1 & Hp2). assert (p' = p) as -> by congruence.
  unfold unlink. set (m1 := match pg_prev p with Some y => alter (set_next (pg_next p)) y m | None => m end).
  set (m2 := match pg_next p with Some y => alter (set_prev (pg_prev p)) y m1 | None => m1 end).
  assert (relinked l m m1) as R1.
  { unfold m1. destruct (pg_prev p) as [y |] eqn:Ey; [| done]. apply relinked_alter; [| done].
    unfold before in Hp1. destruct k as [| k]; [done |]. by eapply list_elem_of_lookup_2. }
  assert (relinked l m m2) as R2.
  { etrans; [exact R1 |]. unfold m2. destruct (pg_next p) as [y |] eqn:Ey; [| done]. apply relinked_alter; [| done].
    by eapply list_elem_of_lookup_2. }
  etrans; [exact R2 |]. destruct (relinked_lookup _ _ _ _ _ R2 Ep) as (q & Eq & Hd).
  eapply relinked_insert; [by eapply list_elem_of_lookup_2 | done | by rewrite Hd].
Qed.

Lemma no_self_link (l : list Z) (k : nat) (a : Z) : NoDup l -> l !! k = Some a -> before l k <> Some a /\ l !! S k <> Some a.
Proof.
  intros Hnd Ek. split; intros E.
  - unfold before in E. destruct k as [| k]; [done |]. pose proof (NoDup_lookup _ _ _ _ Hnd E Ek). lia.
  - pose proof (NoDup_lookup _ _ _ _ Hnd E Ek). lia.
Qed.

Lemma remove_from_list_ok (m : Mem) (pl : PageList) (l : list Z) (k : nat) (a : Z) :
  list_repr m pl l -> l !! k = Some a ->
  exists pl' m', remove_from_list pl m a = Done (pl', m') /\ list_repr m' pl' (delete k l) /\ relinked l m m' /\
    pg_next <$> m' !! a = Some None.
Proof.
  intros [Hlk Hn Hnd] Ek. pose proof Hlk as [_ Hl]. destruct (Hl k a Ek) as (p & Ep & Hp1 & Hp2).
  destruct (no_self_link l k a Hnd Ek) as [Hs1 Hs2].
  rewrite (remove_from_list_eq m pl a p Ep).
  - eexists _, _. split; [done |]. split; [split |].
    + by apply links_delete.
    + cbn. rewrite Hn, <- Z.add_opp_r, wrap64_add_wrap. f_equal. apply lookup_lt_Some in Ek as Hlt.
      rewrite length_delete by (by eexists). lia.
    + eapply sublist_NoDup; [done | apply sublist_delete].
    + split; [by eapply unlink_relinked |]. unfold unlink. by rewrite lookup_insert_eq.
  - by rewrite Hp1.
  - by rewrite Hp2.
  - intros x Ex. rewrite Hp1 in Ex. unfold before in Ex. destruct k as [| k]; [done |].
    destruct (Hl k x Ex) as (q & -> & _). by eexists.
  - intros x Ex. rewrite Hp2 in Ex. destruct (Hl (S k) x Ex) as (q & -> & _). by eexists.
Qed.

(** [pop] takes the first page off; on an empty list it does nothing. *)
Lemma pl_pop_ok (m : Mem) (pl : PageList) (a : Z) (l : list Z) :
  list_repr m pl (a :: l) ->
  exists pl' m', pl_pop pl m = Done (Some a, pl', m') /\ list_repr m' pl' l /\ relinked (a :: l) m m' /\
    pg_next <$> m' !! a = Some None.
Proof.
  intros Hr. pose proof Hr as [Hlk Hn Hnd]. pose proof Hlk as [Hh Hl].
  destruct (Hl 0%nat a eq_refl) as (p & Ep & Hp1 & Hp2). destruct (no_self_link (a :: l) 0 a Hnd eq_refl) as [_ Hs].
  destruct (remove_from_list_ok m pl (a :: l) 0 a Hr eq_refl) as (pl' & m' & E & Hr' & Hrel & Hnx).
  exists pl', m'. split; [| done]. rewrite (remove_from_list_eq m pl a p Ep) in E.
  - injection E as E1 E2. subst pl' m'. unfold pl_pop. rewrite Hh. cbn. unfold get_page. rewrite Ep. cbn [expect outcome_bind].
    unfold unlink. rewrite Hp1 in *. cbn [before] in *.
    set (m1 := match pg_next p with Some y => alter (set_prev None) y m | None => m end).
    replace (match pg_next p with None => Done m | Some n => upd_page m n (set_prev None) end) with (Done m1).
    2: { unfold m1. destruct (pg_next p) as [y |] eqn:Ey; [| done]. rewrite upd_page_alter; [done |].
         destruct (Hl 1%nat y) as (q & -> & _); [done | by eexists]. }
    assert (m1 !! a = Some p) as E1.
    { unfold m1. destruct (pg_next p); [| done]. rewrite lookup_alter_ne by congruence. done. }
    cbn. destruct (insert_twice m1 a (set_prev None) (set_next None) p E1) as [-> I2]. cbn. rewrite I2. done.
  - by rewrite Hp1.
  - by rewrite Hp2.
  - by rewrite Hp1.
  - intros x Ex. rewrite Hp2 in Ex. destruct (Hl 1%nat x Ex) as (q & -> & _). by eexists.
Qed.

Lemma pl_pop_nil (m : Mem) (pl : PageList) : list_repr m pl [] -> pl_pop pl m = Done (None, pl, m).
Proof. intros [[Hh _] _ _]. unfold pl_pop. by rewrite Hh. Qed.
