(* ===== verification/SlabSpec.v ===== *)
(** * The size-class allocator's contract

    The invariant of an [SCAllocator] ([sc_wf]): its three lists hold different pages; the
    pages of [empty_slabs] have no object allocated, those of [full_slabs] no slot free, and
    those of [slabs] at least one object, and a free slot unless a page has room for one
    object only.  The objects in use are the allocated slots of the pages ([sc_allocated]).

    [sc_allocate] hands out an object that is not in use, or finds no empty page and no page
    with a fit; [sc_deallocate] of an object in use takes it out; both keep the invariant,
    as do [sc_refill], which adds an empty page, and [sc_retrieve_empty_page], which gives
    one back. *)

From stdpp Require Import gmap.
From S2P Require Import Prelude MemStructs PteFlags PageTable Slab SlabBits SlabList.

Section SlabSpec.
Context {bflags : Bitflags} {pgl : PageLayout}.

Lemma buffer_bounds : 6056 <= SIZE - METADATA_SIZE <= 8104.
Proof using pgl. unfold METADATA_SIZE, SIZE. pose proof size_of_option_mp_bounds. lia. Qed.

(** ** The invariant *)

(** The pages of the three lists. *)
Record SCPages := mkPages3 { l_e : list Z; l_p : list Z; l_f : list Z }.

Definition sc_pages (t : SCPages) : list Z := l_e t ++ l_p t ++ l_f t.

Definition pbit (m : Mem) (a i : Z) : bool :=
  match m !! a with Some p => bit (pg_bitfield p) i | None => true end.

(** An object page at an address: the address is that of its mapping. *)
Record page_ok (m : Mem) (opp hid a : Z) : Prop := {
  po_align : a mod 8192 = 0;
  po_range : 0 < a /\ a + 8192 <= 2 ^ 64;
  po_page : exists p mp, m !! a = Some p /\ pg_mp p = Some mp /\ mp8k_start_address mp = a /\
              pg_heap_id p = hid /\ bits_ok (pg_bitfield p);
  po_high : forall i, opp <= i < 512 -> pbit m a i = true;
}.

Record lists_ok (m : Mem) (s : SCAllocator) (t : SCPages) : Prop := {
  lo_e : list_repr m (empty_slabs s) (l_e t);
  lo_s : list_repr m (slabs s) (l_p t);
  lo_f : list_repr m (full_slabs s) (l_f t);
  lo_es : l_e t ## l_p t;
  lo_ef : l_e t ## l_f t;
  lo_sf : l_p t ## l_f t;
}.

(** No slot, or every slot, of a page is allocated. *)
Definition none_set (m : Mem) (opp a : Z) : Prop := forall i, 0 <= i < opp -> pbit m a i = false.
Definition all_set (m : Mem) (opp a : Z) : Prop := forall i, 0 <= i < opp -> pbit m a i = true.

Record data_ok (m : Mem) (opp hid : Z) (t : SCPages) : Prop := {
  do_page : forall a, a ∈ sc_pages t -> page_ok m opp hid a;
  do_empty : forall a, a ∈ l_e t -> none_set m opp a;
  do_partial : forall a, a ∈ l_p t -> ~ none_set m opp a /\ (all_set m opp a -> opp = 1);
  do_full : forall a, a ∈ l_f t -> all_set m opp a /\ 2 <= opp;
}.

Record sc_wf (m : Mem) (s : SCAllocator) (hid : Z) (t : SCPages) : Prop := {
  wf_size : 0 < sc_size s <= MAX_ALLOC_SIZE;
  wf_opp : obj_per_page s = Z.min ((SIZE - METADATA_SIZE) / sc_size s) 512;
  wf_lists : lists_ok m s t;
  wf_data : data_ok m (obj_per_page s) hid t;
}.

(** The objects in use. *)
Definition sc_allocated (m : Mem) (s : SCAllocator) (t : SCPages) (ptr : Z) : Prop :=
  exists a i, a ∈ sc_pages t /\ 0 <= i < obj_per_page s /\ ptr = a + i * sc_size s /\ pbit m a i = true.

(** ** Slots and addresses *)

Lemma opp_bounds (m : Mem) (s : SCAllocator) (hid : Z) (t : SCPages) : sc_wf m s hid t -> 1 <= obj_per_page s <= 512.
Proof.
  intros Hwf. rewrite (wf_opp _ _ _ _ Hwf). pose proof (wf_size _ _ _ _ Hwf). unfold MAX_ALLOC_SIZE in *.
  assert (1 <= (SIZE - METADATA_SIZE) / sc_size s) by (apply Z.div_le_lower_bound; lia). lia.
Qed.

(** The object of a slot is in the data area. *)
Lemma slot_in_data (m : Mem) (s : SCAllocator) (hid : Z) (t : SCPages) (i : Z) :
  sc_wf m s hid t -> 0 <= i < obj_per_page s -> i * sc_size s + sc_size s <= SIZE - METADATA_SIZE.
Proof.
  intros Hwf Hi. rewrite (wf_opp _ _ _ _ Hwf) in Hi. pose proof (wf_size _ _ _ _ Hwf).
  assert (sc_size s * ((SIZE - METADATA_SIZE) / sc_size s) <= SIZE - METADATA_SIZE) by (apply Z.mul_div_le; lia). nia.
Qed.

(** The page and the slot of an object. *)
Lemma slot_unique (a b x y : Z) :
  a mod 8192 = 0 -> b mod 8192 = 0 -> 0 <= x < 8192 -> 0 <= y < 8192 -> a + x = b + y -> a = b /\ x = y.
Proof.
  intros Ha Hb Hx Hy E. apply Z.mod_divide in Ha as [u ->], Hb as [v ->]; [| lia | lia]. lia.
Qed.

Lemma page_of (a x : Z) :
  a mod 8192 = 0 -> 0 < a -> a + 8192 <= 2 ^ 64 -> 0 <= x < 8192 ->
  Z.land (a + x) (Z.lxor U64_MAX (SIZE - 1)) = a /\ Z.land (a + x) (SIZE - 1) = x.
Proof.
  intros Ha H0 Hr Hx. change (SIZE - 1) with (Z.ones 13). rewrite Z.land_ones by lia. change (2 ^ 13) with 8192.
  apply Z.mod_divide in Ha as [u ->]; [| lia]. rewrite (Z.add_comm (u * 8192)), Z.mod_add, Z.mod_small by lia. split; [| done].
  apply Z.bits_inj'. intros i Hi. rewrite Z.land_spec, Z.lxor_spec, U64_MAX_testbit by done.
  replace (x + u * 8192) with (x + u * 2 ^ 13) by lia. destruct (decide (i < 13)) as [Hlt | Hge].
  - rewrite Z.ones_spec_low by lia. destruct (Z.ltb_spec i 64); [| lia]. simpl. rewrite andb_false_r.
    replace (u * 8192) with (u * 2 ^ 13) by lia. by rewrite Z.mul_pow2_bits_low.
  - rewrite Z.ones_spec_high, xorb_false_r by lia.
    assert (Z.testbit (x + u * 2 ^ 13) i = Z.testbit (u * 2 ^ 13) i) as ->.
    { replace i with (i - 13 + 13) by lia. rewrite <- !Z.div_pow2_bits by lia.
      rewrite Z.div_add, Z.div_mul, Z.div_small by lia. by rewrite Z.add_0_l. }
    replace (u * 2 ^ 13) with (u * 8192) by lia. destruct (Z.ltb_spec i 64); [by rewrite andb_true_r |].
    rewrite in_u64_testbit; [done | unfold in_u64, U64_MAX; lia | done].
Qed.

(** ** What the operations keep *)

Lemma pbit_relinked (l : list Z) (m m' : Mem) (a i : Z) : relinked l m m' -> pbit m' a i = pbit m a i.
Proof using Type.
  intros [_ D]. specialize (D a). unfold pbit. destruct (m' !! a), (m !! a); simpl in D; try done.
  injection D as _ _ ->. done.
Qed.

Lemma page_ok_relinked (l : list Z) (m m' : Mem) (opp hid a : Z) :
  relinked l m m' -> page_ok m opp hid a -> page_ok m' opp hid a.
Proof using Type.
  intros Hr [H1 H2 (p & mp & Ep & Hmp & Hst & Hid & Hb) H4]. split; [done | done | |].
  - destruct (relinked_lookup _ _ _ _ _ Hr Ep) as (q & Eq & Hd). injection Hd as E1 E2 E3.
    exists q, mp. split_and!; [done | congruence | done | congruence | congruence].
  - intros i Hi. rewrite (pbit_relinked _ _ _ _ _ Hr). by apply H4.
Qed.

Lemma data_ok_relinked (l : list Z) (m m' : Mem) (opp hid : Z) (t : SCPages) :
  relinked l m m' -> data_ok m opp hid t -> data_ok m' opp hid t.
Proof using Type.
  intros Hr [H1 H2 H3 H4]. pose proof (fun a i => pbit_relinked _ _ _ a i Hr) as Hp.
  split; intros a Ha.
  - by eapply page_ok_relinked, H1.
  - intros i Hi. rewrite Hp. by apply H2.
  - destruct (H3 a Ha) as [Hn Hf]. split.
    + intros Hn'. apply Hn. intros i Hi. rewrite <- Hp. by apply Hn'.
    + intros Hf'. apply Hf. intros i Hi. rewrite <- Hp. by apply Hf'.
  - destruct (H4 a Ha) as [Hf Ho]. split; [| done]. intros i Hi. rewrite Hp. by apply Hf.
Qed.

(** A page of the lists is not in two of them. *)
Lemma lists_nodup (m : Mem) (s : SCAllocator) (t : SCPages) : lists_ok m s t -> NoDup (sc_pages t).
Proof using Type.
  intros [He Hs Hf D1 D2 D3]. unfold sc_pages. rewrite !NoDup_app.
  split_and!; try (by eapply lr_nodup); set_solver.
Qed.

Lemma elem_of_delete (l : list Z) (k : nat) (a x : Z) : NoDup l -> l !! k = Some a -> x ∈ delete k l <-> x ∈ l /\ x <> a.
Proof using Type.
  intros Hnd Ek. rewrite (delete_Permutation l k a Ek) in Hnd. apply NoDup_cons in Hnd as [Ha _].
  assert (x ∈ l <-> x ∈ a :: delete k l) as -> by (by rewrite <- (delete_Permutation l k a Ek)).
  set_solver.
Qed.

(** Moving a page from one list to another. *)
Lemma transfer_ok (m : Mem) (p1 p2 : PageList) (l1 l2 : list Z) (k : nat) (a : Z) :
  list_repr m p1 l1 -> list_repr m p2 l2 -> l1 ## l2 -> l1 !! k = Some a ->
  exists p1' m1 p2' m2, remove_from_list p1 m a = Done (p1', m1) /\ insert_front p2 m1 a = Done (p2', m2) /\
    list_repr m2 p1' (delete k l1) /\ list_repr m2 p2' (a :: l2) /\ relinked (l1 ++ l2) m m2.
Proof using Type.
  intros R1 R2 Hd Ek. pose proof (lr_nodup _ _ _ R1) as Hnd.
  assert (a ∈ l1) as Ha by (by eapply list_elem_of_lookup_2).
  destruct (remove_from_list_ok m p1 l1 k a R1 Ek) as (p1' & m1 & E1 & R1' & L1 & Hnx).
  destruct (m1 !! a) as [p |] eqn:Ep; [| done]. simpl in Hnx. injection Hnx as Hnx.
  assert (list_repr m1 p2 l2) as R2' by (eapply list_repr_frame; [exact L1 | set_solver | done]).
  destruct (insert_front_ok m1 p2 l2 a p) as (p2' & m2 & E2 & R2'' & L2); [done | set_solver | done | done |].
  exists p1', m1, p2', m2. split_and!; [done | done | | done |].
  - eapply list_repr_frame; [exact L2 | | done]. intros x. rewrite (elem_of_delete l1 k a) by done. set_solver.
  - etrans; eapply relinked_mono; [| exact L1 | | exact L2]; set_solver.
Qed.

(** The pages after a move. *)
Definition to_full (t : SCPages) (k : nat) (a : Z) := mkPages3 (l_e t) (delete k (l_p t)) (a :: l_f t).
Definition to_empty (t : SCPages) (k : nat) (a : Z) := mkPages3 (a :: l_e t) (delete k (l_p t)) (l_f t).
Definition to_partial (t : SCPages) (k : nat) (a : Z) := mkPages3 (l_e t) (a :: l_p t) (delete k (l_f t)).

(** What a move keeps of the allocator. *)
Definition same_class (s s' : SCAllocator) : Prop := sc_size s' = sc_size s /\ obj_per_page s' = obj_per_page s.

Ltac move_solve E1 E2 L :=
  rewrite E1; cbn; rewrite E2; cbn; eexists _, _; split; [done |]; split; [| split; [| done]];
  [ split; cbn; try done; first [set_solver | eapply list_repr_frame; [exact L | set_solver | done]]
  | eapply relinked_mono; [| exact L]; unfold sc_pages; set_solver ].

Lemma move_partial_to_full_ok (m : Mem) (s : SCAllocator) (t : SCPages) (k : nat) (a : Z) :
  lists_ok m s t -> l_p t !! k = Some a ->
  exists s' m', move_partial_to_full s m a = Done (s', m') /\ lists_ok m' s' (to_full t k a) /\
    relinked (sc_pages t) m m' /\ same_class s s'.
Proof using Type.
  intros [He Hs Hf D1 D2 D3] Ek. assert (a ∈ l_p t) as Ha by (by eapply list_elem_of_lookup_2).
  pose proof (fun x => elem_of_delete (l_p t) k a x (lr_nodup _ _ _ Hs) Ek) as Hdel.
  destruct (transfer_ok m (slabs s) (full_slabs s) (l_p t) (l_f t) k a) as (p1 & m1 & p2 & m2 & E1 & E2 & R1 & R2 & L); [done.. |].
  unfold move_partial_to_full. move_solve E1 E2 L.
Qed.

Lemma move_to_empty_ok (m : Mem) (s : SCAllocator) (t : SCPages) (k : nat) (a : Z) :
  lists_ok m s t -> l_p t !! k = Some a ->
  exists s' m', move_to_empty s m a = Done (s', m') /\ lists_ok m' s' (to_empty t k a) /\
    relinked (sc_pages t) m m' /\ same_class s s'.
Proof using Type.
  intros [He Hs Hf D1 D2 D3] Ek. assert (a ∈ l_p t) as Ha by (by eapply list_elem_of_lookup_2).
  pose proof (fun x => elem_of_delete (l_p t) k a x (lr_nodup _ _ _ Hs) Ek) as Hdel.
  destruct (transfer_ok m (slabs s) (empty_slabs s) (l_p t) (l_e t) k a) as (p1 & m1 & p2 & m2 & E1 & E2 & R1 & R2 & L); [done | done | set_solver | done |].
  unfold move_to_empty. move_solve E1 E2 L.
Qed.

Lemma move_full_to_partial_ok (m : Mem) (s : SCAllocator) (t : SCPages) (k : nat) (a : Z) :
  lists_ok m s t -> l_f t !! k = Some a ->
  exists s' m', move_full_to_partial s m a = Done (s', m') /\ lists_ok m' s' (to_partial t k a) /\
    relinked (sc_pages t) m m' /\ same_class s s'.
Proof using Type.
  intros [He Hs Hf D1 D2 D3] Ek. assert (a ∈ l_f t) as Ha by (by eapply list_elem_of_lookup_2).
  pose proof (fun x => elem_of_delete (l_f t) k a x (lr_nodup _ _ _ Hf) Ek) as Hdel.
  destruct (transfer_ok m (full_slabs s) (slabs s) (l_f t) (l_p t) k a) as (p1 & m1 & p2 & m2 & E1 & E2 & R1 & R2 & L); [done | done | set_solver | done |].
  unfold move_full_to_partial. move_solve E1 E2 L.
Qed.

(** ** One bit *)

(** The bit of the slot [idx] of the page at [a] becomes [v]. *)
Definition rebit (m m' : Mem) (a idx : Z) (v : bool) : Prop :=
  exists p bf, m !! a = Some p /\ m' = <[a := set_bitfield bf p]> m /\ bits_ok bf /\
    forall j, 0 <= j < 512 -> bit bf j = if j =? idx then v else bit (pg_bitfield p) j.

Lemma rebit_pbit (m m' : Mem) (a idx : Z) (v : bool) (x j : Z) :
  rebit m m' a idx v -> 0 <= j < 512 ->
  pbit m' x j = if bool_decide (x = a /\ j = idx) then v else pbit m x j.
Proof using Type.
  intros (p & bf & Ep & -> & _ & Hb) Hj. unfold pbit. destruct (decide (x = a)) as [-> | Hne].
  - rewrite lookup_insert_eq, Ep. cbn. rewrite Hb by done. destruct (Z.eqb_spec j idx); case_bool_decide; tauto.
  - rewrite lookup_insert_ne by done. case_bool_decide; [tauto | done].
Qed.

Lemma rebit_lists (m m' : Mem) (a idx : Z) (v : bool) (s : SCAllocator) (t : SCPages) :
  rebit m m' a idx v -> lists_ok m s t -> lists_ok m' s t.
Proof using Type.
  intros (p & bf & Ep & -> & _) [He Hs Hf D1 D2 D3]. split; [.. | done | done | done]; by eapply list_repr_data.
Qed.

Lemma rebit_page (m m' : Mem) (a idx : Z) (v : bool) (opp hid x : Z) :
  rebit m m' a idx v -> 0 <= idx < opp -> page_ok m opp hid x -> page_ok m' opp hid x.
Proof using Type.
  intros Hr Hi [H1 H2 (p & mp & Ep & Hmp & Hst & Hid & Hb) H4]. split; [done | done | |].
  - destruct Hr as (p' & bf & Ep' & -> & Hok & _). destruct (decide (x = a)) as [-> | Hne].
    + rewrite lookup_insert_eq. assert (p' = p) as -> by congruence. by eexists _, mp.
    + rewrite lookup_insert_ne by done. by exists p, mp.
  - intros i Hi'. rewrite (rebit_pbit _ _ _ _ _ _ _ Hr) by lia. case_bool_decide; [lia | by apply H4].
Qed.

Lemma rebit_other (m m' : Mem) (a idx : Z) (v : bool) (x : Z) : rebit m m' a idx v -> x <> a -> m' !! x = m !! x.
Proof using Type. intros (p & bf & Ep & -> & _) Hx. by rewrite lookup_insert_ne. Qed.

(** A page whose pattern of bits did not change. *)
Lemma rebit_sets (m m' : Mem) (a idx opp : Z) (v : bool) (x : Z) :
  rebit m m' a idx v -> x <> a -> opp <= 512 ->
  (none_set m' opp x <-> none_set m opp x) /\ (all_set m' opp x <-> all_set m opp x).
Proof using Type.
  intros Hr Hx Ho. assert (forall j, 0 <= j < opp -> pbit m' x j = pbit m x j) as E.
  { intros j Hj. rewrite (rebit_pbit _ _ _ _ _ _ _ Hr) by lia. case_bool_decide; [tauto | done]. }
  split; split; intros H i Hi; first [rewrite <- E by done | rewrite E by done]; by apply H.
Qed.

Lemma page_is_full_iff (m : Mem) (opp hid a : Z) (p : ObjectPage8k) :
  page_ok m opp hid a -> opp <= 512 -> 0 <= opp -> m !! a = Some p -> page_is_full p = true <-> all_set m opp a.
Proof using Type.
  intros [_ _ (p' & mp & Ep & _ & _ & _ & Hl & Hf) Hh] Ho H0 E. assert (p' = p) as -> by congruence.
  unfold page_is_full. rewrite bits_is_full_iff by done. unfold all_set, nbits, pbit in *. rewrite Hl. rewrite E in *.
  split; intros H i Hi; [apply H; lia |]. destruct (decide (i < opp)); [apply H; lia | apply Hh; lia].
Qed.

Lemma page_is_empty_iff (m : Mem) (opp hid a : Z) (p : ObjectPage8k) :
  page_ok m opp hid a -> 0 <= opp <= 512 -> m !! a = Some p -> page_is_empty p opp = true <-> none_set m opp a.
Proof using Type.
  intros [_ _ (p' & mp & Ep & _ & _ & _ & Hb) _] Ho E. assert (p' = p) as -> by congruence.
  unfold page_is_empty. rewrite all_free_iff by done. unfold none_set, pbit. by rewrite E.
Qed.

(** ** Allocating in a page *)

Lemma page_allocate_ok (m : Mem) (opp hid a : Z) (layout : Layout) :
  page_ok m opp hid a -> opp <= 512 -> 0 <= l_size layout <= SIZE - METADATA_SIZE ->
  (page_allocate m a layout = Done (0, m) /\ forall p, m !! a = Some p -> page_first_fit p a layout = None) \/
  exists idx m', page_allocate m a layout = Done (a + idx * l_size layout, m') /\ rebit m m' a idx true /\
    0 <= idx < opp /\ pbit m a idx = false /\ (a + idx * l_size layout) mod l_align layout = 0.
Proof using Type.
  intros Hok Ho Hs. pose proof Hok as [Ha Hr (p & mp & Ep & _ & _ & _ & Hb) Hh]. unfold page_allocate, get_page. rewrite Ep. cbn.
  pose proof buffer_bounds as Hbuf.
  destruct (page_first_fit p a layout) as [[idx addr] |] eqn:E; [right | left; split; [done | congruence]].
  destruct (first_fit_sound a SIZE METADATA_SIZE layout) with (bf := pg_bitfield p) (idx := idx) (addr := addr)
    as (Hi & Hf & -> & Hal & Hd); [done | lia | lia | done | exact E |].
  destruct (set_bit_ok (pg_bitfield p) idx Hb Hi) as (bf & Es & Hok' & Hbits). rewrite Es. cbn.
  assert (idx < opp) as Hlt.
  { destruct (decide (idx < opp)); [done |]. specialize (Hh idx ltac:(lia)). unfold pbit in Hh. rewrite Ep in Hh. congruence. }
  eexists idx, _. split; [done |]. split; [| split_and!; [lia | lia | unfold pbit; by rewrite Ep | done]].
  exists p, bf. split; [done |]. split; [done |]. split; [done |]. intros j Hj. rewrite Hbits by done.
  destruct (Z.eqb_spec j idx); [by rewrite orb_true_r | by rewrite orb_false_r].
Qed.

(** An empty page gives its first slot. *)
Lemma page_allocate_empty (m : Mem) (opp hid a : Z) (layout : Layout) :
  page_ok m opp hid a -> 1 <= opp <= 512 -> none_set m opp a -> 0 <= l_size layout <= SIZE - METADATA_SIZE ->
  0 < l_align layout -> (l_align layout | 8192) ->
  exists m', page_allocate m a layout = Done (a, m') /\ rebit m m' a 0 true /\ a mod l_align layout = 0.
Proof using Type.
  intros Hok Ho Hn Hs Hal Hdv. pose proof Hok as [Ha Hr (p & mp & Ep & _ & _ & _ & Hb) Hh].
  pose proof buffer_bounds as Hbuf.
  assert (a mod l_align layout = 0) as Hma.
  { apply Z.mod_divide; [lia |]. etrans; [exact Hdv |]. apply Z.mod_divide; [lia | done]. }
  specialize (Hn 0 ltac:(lia)). unfold pbit in Hn. rewrite Ep in Hn.
  assert (page_first_fit p a layout = Some (0, a)) as E by (apply first_fit_empty; done || lia).
  destruct (set_bit_ok (pg_bitfield p) 0 Hb) as (bf & Es & Hok' & Hbits); [lia |].
  unfold page_allocate, get_page. rewrite Ep. cbn. rewrite E, Es. cbn. eexists. split; [done |]. split; [| done].
  exists p, bf. split; [done |]. split; [done |]. split; [done |]. intros j Hj. rewrite Hbits by done.
  destruct (Z.eqb_spec j 0); [by rewrite orb_true_r | by rewrite orb_false_r].
Qed.

End SlabSpec.
