(* ===== verification/SlabAlloc.v ===== *)
(** * Allocation and deallocation in a size class

    The contract of [sc_allocate], [sc_deallocate], [sc_refill] and
    [sc_retrieve_empty_page] against the invariant and the set of objects of [SlabSpec]. *)

From stdpp Require Import gmap.
From S2P Require Import Prelude MemStructs PteFlags PageTable Slab SlabBits SlabList SlabSpec.

Section SlabAlloc.
Context {bflags : Bitflags} {pgl : PageLayout}.

(** The objects of an allocator do not overlap: two slots at the same address are the same
    slot. *)
Lemma slots_inj (m : Mem) (s : SCAllocator) (hid : Z) (t : SCPages) (a b i j : Z) :
  sc_wf m s hid t -> a ∈ sc_pages t -> b ∈ sc_pages t -> 0 <= i < obj_per_page s -> 0 <= j < obj_per_page s ->
  a + i * sc_size s = b + j * sc_size s -> a = b /\ i = j.
Proof.
  intros Hwf Ha Hb Hi Hj E. pose proof (wf_data _ _ _ _ Hwf) as Hd. pose proof (wf_size _ _ _ _ Hwf).
  pose proof (slot_in_data _ _ _ _ i Hwf Hi). pose proof (slot_in_data _ _ _ _ j Hwf Hj). pose proof buffer_bounds.
  destruct (slot_unique a b (i * sc_size s) (j * sc_size s)) as [-> E']; [| | nia | nia | done |].
  - by apply (po_align _ _ _ _ (do_page _ _ _ _ Hd a Ha)).
  - by apply (po_align _ _ _ _ (do_page _ _ _ _ Hd b Hb)).
  - split; [done | nia].
Qed.

(** The object of a slot is in use exactly when the bit of the slot is set. *)
Lemma sc_allocated_slot (m : Mem) (s : SCAllocator) (hid : Z) (t : SCPages) (a i : Z) :
  sc_wf m s hid t -> a ∈ sc_pages t -> 0 <= i < obj_per_page s ->
  sc_allocated m s t (a + i * sc_size s) <-> pbit m a i = true.
Proof.
  intros Hwf Ha Hi. split; [| intros H; by exists a, i]. intros (b & j & Hb & Hj & E & Hbit).
  by destruct (slots_inj m s hid t a b i j) as [-> ->].
Qed.

(** ** Changing one bit *)

(** What an operation that changes one slot of one page, and the lists, does. *)
Record one_slot (v : bool) (m : Mem) (s : SCAllocator) (hid : Z) (t : SCPages) (m' : Mem) (s' : SCAllocator)
    (t' : SCPages) (ptr : Z) : Prop := {
  os_wf : sc_wf m' s' hid t';
  os_class : same_class s s';
  os_pages : forall x, x ∈ sc_pages t' <-> x ∈ sc_pages t;
  os_frame : forall x, x ∉ sc_pages t -> m' !! x = m !! x;
  os_before : if v then ~ sc_allocated m s t ptr else sc_allocated m s t ptr;
  os_after : forall q, sc_allocated m' s' t' q <->
    if v then sc_allocated m s t q \/ q = ptr else sc_allocated m s t q /\ q <> ptr;
}.

Lemma one_slot_intro (v : bool) (m m0 m1 m' : Mem) (s s' : SCAllocator) (hid : Z) (t t' : SCPages) (a idx : Z) :
  sc_wf m s hid t -> a ∈ sc_pages t -> 0 <= idx < obj_per_page s -> pbit m a idx = negb v ->
  relinked (sc_pages t) m m0 -> rebit m0 m1 a idx v -> relinked (sc_pages t) m1 m' -> same_class s s' -> (forall x, x ∈ sc_pages t' <-> x ∈ sc_pages t) ->
  lists_ok m' s' t' -> data_ok m1 (obj_per_page s) hid t' ->
  one_slot v m s hid t m' s' t' (a + idx * sc_size s).
Proof.
  intros Hwf Ha Hi Hb Hrel0 Hr Hrel [Hc1 Hc2] Hp Hl Hd. pose proof (opp_bounds _ _ _ _ Hwf) as Ho.
  assert (forall q, sc_allocated m' s' t' q <->
    exists b i, b ∈ sc_pages t /\ 0 <= i < obj_per_page s /\ q = b + i * sc_size s /\
      (if bool_decide (b = a /\ i = idx) then v else pbit m b i) = true) as Hq.
  { intros q. unfold sc_allocated. rewrite Hc1, Hc2.
    split; intros (b & i & Hb' & Hi' & -> & Hbit); exists b, i; (split; [by apply Hp |]; split; [done |]; split; [done |]).
    - rewrite (pbit_relinked _ _ _ _ _ Hrel), (rebit_pbit _ _ _ _ _ _ _ Hr), (pbit_relinked _ _ _ _ _ Hrel0) in Hbit by lia. done.
    - rewrite (pbit_relinked _ _ _ _ _ Hrel), (rebit_pbit _ _ _ _ _ _ _ Hr), (pbit_relinked _ _ _ _ _ Hrel0) by lia. done. }
  split.
  - split; rewrite ?Hc1, ?Hc2; [apply (wf_size _ _ _ _ Hwf) | apply (wf_opp _ _ _ _ Hwf) | done | by eapply data_ok_relinked].
  - done.
  - done.
  - intros x Hx. rewrite (proj1 Hrel), <- (proj1 Hrel0 x) by done. eapply rebit_other; [done |]. by intros ->.
  - destruct v; rewrite (sc_allocated_slot m s hid t a idx) by done; rewrite Hb; done.
  - intros q. rewrite Hq. destruct v; split.
    + intros (b & i & Hb' & Hi' & -> & Hbit). case_bool_decide as Hd'; [right; by destruct Hd' as [-> ->] | left; by exists b, i].
    + intros [(b & i & Hb' & Hi' & -> & Hbit) | ->]; [exists b, i | exists a, idx]; (split; [done |]; split; [done |]; split; [done |]);
        case_bool_decide; tauto.
    + intros (b & i & Hb' & Hi' & -> & Hbit). case_bool_decide as Hd'; [done |]. split; [by exists b, i |].
      intros E. apply Hd'. by eapply slots_inj.
    + intros [(b & i & Hb' & Hi' & -> & Hbit) Hne]. exists b, i. (split; [done |]; split; [done |]; split; [done |]).
      case_bool_decide as Hd'; [| done]. destruct Hd' as [-> ->]. done.
Qed.

(** The data of the pages that keep their bits. *)
Lemma data_ok_rebit (v : bool) (m m1 : Mem) (opp hid : Z) (t t' : SCPages) (a idx : Z) :
  data_ok m opp hid t -> opp <= 512 -> rebit m m1 a idx v -> 0 <= idx < opp ->
  (forall x, x ∈ sc_pages t' -> x ∈ sc_pages t) ->
  (forall x, x <> a -> (x ∈ l_e t' -> x ∈ l_e t) /\ (x ∈ l_p t' -> x ∈ l_p t) /\ (x ∈ l_f t' -> x ∈ l_f t)) ->
  (a ∈ l_e t' -> none_set m1 opp a) ->
  (a ∈ l_p t' -> ~ none_set m1 opp a /\ (all_set m1 opp a -> opp = 1)) ->
  (a ∈ l_f t' -> all_set m1 opp a /\ 2 <= opp) -> data_ok m1 opp hid t'.
Proof.
  intros [H1 H2 H3 H4] Ho Hr Hi Hp Hx He Hs Hf. split; intros x Hx'.
  - eapply rebit_page; [done | done |]. by apply H1, Hp.
  - destruct (decide (x = a)) as [-> | Hne]; [by apply He |]. apply (rebit_sets _ _ _ _ _ _ _ Hr Hne Ho). by apply H2, Hx.
  - destruct (decide (x = a)) as [-> | Hne]; [by apply Hs |].
    destruct (rebit_sets _ _ _ _ _ _ _ Hr Hne Ho) as [-> ->]. by apply H3, Hx.
  - destruct (decide (x = a)) as [-> | Hne]; [by apply Hf |].
    destruct (rebit_sets _ _ _ _ _ _ _ Hr Hne Ho) as [_ ->]. by apply H4, Hx.
Qed.

(** ** The walk over the partial pages *)

Lemma walk_fuel_enough (m : Mem) (pl : PageList) (l : list Z) : list_repr m pl l -> (length l < walk_fuel m)%nat.
Proof.
  intros Hr. unfold walk_fuel. enough (length l <= size m)%nat by lia.
  rewrite <- (size_list_to_set (C := gset Z) l) by (by eapply lr_nodup). rewrite <- size_dom.
  apply subseteq_size. intros x Hx. apply elem_of_list_to_set in Hx. apply elem_of_dom. by eapply list_repr_page.
Qed.

(** After the page has given the slot. *)
Definition after_slot (s : SCAllocator) (m : Mem) (a ptr : Z) : outcome (Z * SCAllocator * Mem) :=
  let* q := get_page m a in
  let* (s, m) := if page_is_full q then move_partial_to_full s m a else Done (s, m) in
  Done (ptr, count_allocation s, m).

Lemma try_pages_ok (m : Mem) (s : SCAllocator) (hid : Z) (t : SCPages) (layout : Layout) (fuel i : nat) :
  sc_wf m s hid t -> l_size layout = sc_size s -> (i <= length (l_p t) < i + fuel)%nat ->
  (try_pages fuel s m (l_p t !! i) layout = Done (0, s, m) /\
   forall j a p, (i <= j)%nat -> l_p t !! j = Some a -> m !! a = Some p -> page_first_fit p a layout = None) \/
  exists k a idx m1, l_p t !! k = Some a /\ rebit m m1 a idx true /\ 0 <= idx < obj_per_page s /\ pbit m a idx = false /\
    (a + idx * sc_size s) mod l_align layout = 0 /\
    try_pages fuel s m (l_p t !! i) layout = after_slot s m1 a (a + idx * sc_size s).
Proof.
  intros Hwf Hsz. pose proof (wf_size _ _ _ _ Hwf) as Hs. pose proof (opp_bounds _ _ _ _ Hwf) as Ho.
  pose proof (wf_data _ _ _ _ Hwf) as Hd. revert i. induction fuel as [| fuel IH]; intros i Hlen.
  { lia. }
  cbn [try_pages]. destruct (l_p t !! i) as [a |] eqn:Ei.
  2: { left. split; [done |]. intros j a p Hij Ej. apply lookup_ge_None_1 in Ei. apply lookup_lt_Some in Ej. lia. }
  pose proof (lo_s _ _ _ (wf_lists _ _ _ _ Hwf)) as [[_ Hl] _ _]. destruct (Hl i a Ei) as (p & Ep & _ & Hnx).
  assert (page_ok m (obj_per_page s) hid a) as Hok.
  { apply (do_page _ _ _ _ Hd). unfold sc_pages. apply list_elem_of_lookup_2 in Ei. set_solver. }
  assert (get_page m a = Done p) as Eg by (unfold get_page; by rewrite Ep). rewrite !Eg. cbn [outcome_bind].
  destruct (page_allocate_ok m _ hid a layout Hok) as [[E Hn] | (idx & m1 & E & Hr & Hi & Hb & Hal)];
    [lia | unfold MAX_ALLOC_SIZE in *; lia | |]; rewrite E; cbn [outcome_bind].
  - cbn [negb Z.eqb]. rewrite Hnx. apply lookup_lt_Some in Ei as Hilt. destruct (IH (S i)) as [[E' H'] | H']; [lia | left | by right].
    split; [done |]. intros j b q Hij Ej Eq. destruct (decide (j = i)) as [-> |]; [| apply (H' j); [lia | done | done]].
    assert (b = a) as -> by congruence. by apply Hn.
  - right. rewrite Hsz in *. exists i, a, idx, m1. split_and!; try done; try lia.
    pose proof (po_range _ _ _ _ Hok). assert (a + idx * sc_size s <> 0) by nia.
    destruct (Z.eqb_spec (a + idx * sc_size s) 0); [done |]. done.
Qed.

(** [count_allocation] changes the counter only. *)
Lemma lists_ok_count (m : Mem) (s : SCAllocator) (t : SCPages) : lists_ok m s t -> lists_ok m (count_allocation s) t.
Proof. by intros []. Qed.

(** A slot of a partial page: the page moves to the full ones when it was its last. *)
Lemma after_slot_ok (m m1 : Mem) (s : SCAllocator) (hid : Z) (t : SCPages) (k : nat) (a idx : Z) :
  sc_wf m s hid t -> l_p t !! k = Some a -> rebit m m1 a idx true -> 0 <= idx < obj_per_page s -> pbit m a idx = false ->
  exists s' m' t', after_slot s m1 a (a + idx * sc_size s) = Done (a + idx * sc_size s, s', m') /\
    one_slot true m s hid t m' s' t' (a + idx * sc_size s).
Proof.
  intros Hwf Ek Hr Hi Hb. pose proof (opp_bounds _ _ _ _ Hwf) as Ho. pose proof (wf_data _ _ _ _ Hwf) as Hd.
  pose proof (rebit_lists _ _ _ _ _ _ _ Hr (wf_lists _ _ _ _ Hwf)) as Hl1.
  assert (a ∈ l_p t) as Hap by (by eapply list_elem_of_lookup_2).
  assert (a ∈ sc_pages t) as Ha by (unfold sc_pages; set_solver).
  pose proof (rebit_page _ _ _ _ _ _ _ _ Hr Hi (do_page _ _ _ _ Hd a Ha)) as Hok1.
  destruct (po_page _ _ _ _ Hok1) as (q & _ & Eq & _).
  assert (~ none_set m1 (obj_per_page s) a) as Hnn.
  { intros Hn. specialize (Hn idx Hi). rewrite (rebit_pbit _ _ _ _ _ _ _ Hr) in Hn by lia. by rewrite bool_decide_true in Hn. }
  unfold after_slot, get_page. rewrite Eq. cbn [expect outcome_bind]. destruct (page_is_full q) eqn:Ef.
  - apply (page_is_full_iff _ _ _ _ _ Hok1) in Ef; [| lia | lia | done].
    destruct (move_partial_to_full_ok m1 s t k a Hl1 Ek) as (s' & m' & E & Hl' & Hrel & Hc). rewrite E. cbn [outcome_bind].
    pose proof (fun x => elem_of_delete (l_p t) k a x (lr_nodup _ _ _ (lo_s _ _ _ Hl1)) Ek) as Hdel.
    assert (2 <= obj_per_page s) as H2.
    { destruct (do_partial _ _ _ _ Hd a Hap) as [Hn _]. destruct (decide (2 <= obj_per_page s)); [done |].
      exfalso. apply Hn. intros i Hi'. by replace i with idx by lia. }
    eexists _, _, (to_full t k a). split; [done |].
    apply (one_slot_intro true m m m1 m' s); try done; [| by apply lists_ok_count |].
    + intros x. unfold sc_pages. cbn. rewrite !elem_of_app, elem_of_cons, Hdel. destruct (decide (x = a)); set_solver.
    + apply (data_ok_rebit true m m1 _ _ t _ a idx); try done; [lia | | | |]; cbn.
      * intros x. unfold sc_pages. cbn. set_solver.
      * set_solver.
      * intros Hin. by destruct (lo_es _ _ _ Hl1 a Hin).
      * intros Hin. apply Hdel in Hin. tauto.
  - eexists _, _, t. split; [done |]. apply (one_slot_intro true m m m1 m1 s); try done; [by apply lists_ok_count |].
    apply (data_ok_rebit true m m1 _ _ t _ a idx); try done; [lia | | | ].
    + intros Hin. by destruct (lo_es _ _ _ Hl1 a Hin).
    + intros _. split; [done |]. intros Hall. apply (page_is_full_iff _ _ _ _ q Hok1) in Hall; [congruence | lia | lia | done].
    + intros Hin. by destruct (lo_sf _ _ _ Hl1 a Hap).
Qed.

(** ** Allocation *)

(** The class has no room: no empty page, and no page with a free slot that the alignment
    lets it use; none at all when the alignment divides the object size. *)
Definition no_room (m : Mem) (s : SCAllocator) (t : SCPages) (layout : Layout) : Prop :=
  l_e t = [] /\
  (forall a p, a ∈ l_p t -> m !! a = Some p -> page_first_fit p a (mkLayout (sc_size s) (l_align layout)) = None) /\
  ((l_align layout | sc_size s) -> forall a, a ∈ sc_pages t -> all_set m (obj_per_page s) a).

Lemma no_fit_all_set (m : Mem) (s : SCAllocator) (hid : Z) (t : SCPages) (layout : Layout) (a : Z) (p : ObjectPage8k) :
  sc_wf m s hid t -> a ∈ sc_pages t -> m !! a = Some p -> 0 < l_align layout -> (l_align layout | 8192) ->
  (l_align layout | sc_size s) -> page_first_fit p a (mkLayout (sc_size s) (l_align layout)) = None -> all_set m (obj_per_page s) a.
Proof.
  intros Hwf Ha Ep Hal Hd8 Hds Hn i Hi. destruct (pbit m a i) eqn:Eb; [done | exfalso].
  pose proof (do_page _ _ _ _ (wf_data _ _ _ _ Hwf) a Ha) as [Hma Hr (p' & mp & Ep' & _ & _ & _ & Hb) Hh].
  assert (p' = p) as -> by congruence. pose proof (wf_size _ _ _ _ Hwf). pose proof (opp_bounds _ _ _ _ Hwf).
  pose proof buffer_bounds. unfold MAX_ALLOC_SIZE, pbit in *. rewrite Ep in *.
  destruct (first_fit_complete a SIZE METADATA_SIZE (mkLayout (sc_size s) (l_align layout))) with (bf := pg_bitfield p) (i := i)
    as [x Ex]; cbn; try done; try lia.
  - apply Z.mod_divide; [lia |]. etrans; [exact Hd8 |]. apply Z.mod_divide; [lia | done].
  - intros j Hj Hbj. eapply slot_in_data; [done |]. split; [lia |]. destruct (decide (j < obj_per_page s)); [done |].
    specialize (Hh j ltac:(lia)). congruence.
  - unfold page_first_fit in Hn. congruence.
Qed.

(** The first slot of the first empty page, which becomes a partial one. *)
Lemma take_empty_ok (m : Mem) (s : SCAllocator) (hid : Z) (t : SCPages) (a : Z) (l : list Z) (layout : Layout) :
  sc_wf m s hid t -> l_e t = a :: l -> 0 <= l_size layout <= sc_size s -> 0 < l_align layout -> (l_align layout | 8192) ->
  exists e m1 m2 s' m' t', pl_pop (empty_slabs s) m = Done (Some a, e, m1) /\ page_allocate m1 a layout = Done (a, m2) /\
    insert_partial_slab (set_lists s e (slabs s) (full_slabs s)) m2 a = Done (s', m') /\
    one_slot true m s hid t m' s' t' (a + 0 * sc_size s) /\ a mod l_align layout = 0.
Proof.
  intros Hwf Ee Hsz Hal Hd8. pose proof (wf_lists _ _ _ _ Hwf) as [He Hs Hf D1 D2 D3]. rewrite Ee in *.
  pose proof (wf_data _ _ _ _ Hwf) as Hd. pose proof (opp_bounds _ _ _ _ Hwf) as Ho. pose proof (wf_size _ _ _ _ Hwf).
  destruct (pl_pop_ok m (empty_slabs s) a l He) as (e & m1 & Epop & He1 & Hrel & Hnx).
  pose proof (lr_nodup _ _ _ He) as Hnd. apply NoDup_cons in Hnd as [Hal' Hnd'].
  assert (a ∈ sc_pages t) as Ha by (unfold sc_pages; rewrite Ee; set_solver).
  pose proof (do_empty _ _ _ _ Hd a ltac:(rewrite Ee; set_solver)) as Hn.
  pose proof (page_ok_relinked _ _ _ _ _ _ Hrel (do_page _ _ _ _ Hd a Ha)) as Hok1.
  assert (none_set m1 (obj_per_page s) a) as Hn1 by (intros i Hi; rewrite (pbit_relinked _ _ _ _ _ Hrel); by apply Hn).
  destruct (page_allocate_empty m1 (obj_per_page s) hid a layout Hok1 Ho Hn1) as (m2 & Eal & Hr2 & Hma);
    [unfold MAX_ALLOC_SIZE in *; lia | done | done |].
  (* the lists after the page has been taken out *)
  assert (list_repr m1 (slabs s) (l_p t)) as Hs1 by (eapply list_repr_frame; [exact Hrel | set_solver | done]).
  assert (list_repr m1 (full_slabs s) (l_f t)) as Hf1 by (eapply list_repr_frame; [exact Hrel | set_solver | done]).
  pose proof Hr2 as (p & bf & Ep & Em2 & Hbf & Hbits). rewrite Ep in Hnx. simpl in Hnx. injection Hnx as Hnx.
  assert (forall pl x, list_repr m1 pl x -> list_repr m2 pl x) as Hk by (intros pl x; rewrite Em2; by eapply list_repr_data).
  destruct (insert_front_ok m2 (slabs s) (l_p t) a (set_bitfield bf p)) as (pl' & m3 & Eins & Hs3 & Hrel3);
    [by apply Hk | set_solver | rewrite Em2; by rewrite lookup_insert_eq | done |].
  exists e, m1, m2. eexists _, m3, (mkPages3 l (a :: l_p t) (l_f t)). split; [done |]. split; [done |].
  unfold insert_partial_slab. cbn. rewrite Eins. cbn. split; [done |]. split; [| done].
  apply (one_slot_intro true m m1 m2 m3 s); try done.
  - lia.
  - apply Hn. lia.
  - eapply relinked_mono; [| exact Hrel]. unfold sc_pages. rewrite Ee. set_solver.
  - eapply relinked_mono; [| exact Hrel3]. unfold sc_pages. rewrite Ee. set_solver.
  - intros x. unfold sc_pages. cbn. rewrite Ee. set_solver.
  - split; cbn; [| done | | set_solver | set_solver | set_solver].
    + eapply list_repr_frame; [exact Hrel3 | set_solver | by apply Hk].
    + eapply list_repr_frame; [exact Hrel3 | set_solver | by apply Hk].
  - apply (data_ok_rebit true m1 m2 _ _ t _ a 0); try done.
    + by eapply data_ok_relinked.
    + lia.
    + lia.
    + intros x. unfold sc_pages. cbn. rewrite Ee. set_solver.
    + cbn. rewrite Ee. set_solver.
    + intros _. split.
      * intros Hn2. specialize (Hn2 0 ltac:(lia)). rewrite (rebit_pbit _ _ _ _ _ _ _ Hr2), bool_decide_true in Hn2 by (done || lia). done.
      * intros Hall. destruct (decide (2 <= obj_per_page s)); [| lia]. specialize (Hall 1 ltac:(lia)).
        rewrite (rebit_pbit _ _ _ _ _ _ _ Hr2), bool_decide_false, Hn1 in Hall by (done || lia). done.
    + intros Hin. cbn in Hin. destruct (D2 a); [set_solver | done].
Qed.

(** The whole of [allocate]: an object that was not in use, aligned; or no room, and nothing
    changed. *)
Lemma sc_allocate_ok (m : Mem) (s : SCAllocator) (hid : Z) (t : SCPages) (layout : Layout) :
  sc_wf m s hid t -> 0 <= l_size layout <= sc_size s -> 0 < l_align layout -> (l_align layout | 8192) ->
  (exists ptr s' m' t', sc_allocate s m layout = Done (Ok ptr, s', m') /\ one_slot true m s hid t m' s' t' ptr /\
     ptr mod l_align layout = 0) \/
  (sc_allocate s m layout = Done (Err "AllocationError::OutOfMemory", s, m) /\ no_room m s t layout).
Proof.
  intros Hwf Hsz Hal Hd8. pose proof (wf_size _ _ _ _ Hwf) as Hs. pose proof buffer_bounds as Hbuf.
  unfold sc_allocate. destruct (Z.leb_spec (l_size layout) (sc_size s)); [| lia]. cbn [negb].
  unfold MAX_ALLOC_SIZE, CACHE_LINE_SIZE in *. destruct (Z.leb_spec (sc_size s) (SIZE - 64)); [| unfold METADATA_SIZE, SIZE in *; lia].
  cbn [negb]. set (nl := mkLayout (sc_size s) (l_align layout)).
  pose proof (wf_lists _ _ _ _ Hwf) as Hl. pose proof (walk_fuel_enough _ _ _ (lo_s _ _ _ Hl)) as Hfuel.
  unfold try_allocate_from_pagelist. rewrite (proj1 (lr_links _ _ _ (lo_s _ _ _ Hl))).
  destruct (try_pages_ok m s hid t nl (walk_fuel m) 0 Hwf) as [[E Hnf] | (k & a & idx & m1 & Ek & Hr & Hi & Hb & Ha & E)];
    [done | lia | |]; rewrite E; cbn [outcome_bind].
  - cbn [Z.eqb andb]. rewrite (proj1 (lr_links _ _ _ (lo_e _ _ _ Hl))). destruct (l_e t) as [| a l] eqn:Ee; cbn [lookup list_lookup].
    + right. cbn. split; [done |]. assert (forall a p, a ∈ l_p t -> m !! a = Some p -> page_first_fit p a nl = None) as Hnf'.
      { intros a p Hin Ep. apply list_elem_of_lookup_1 in Hin as [j Ej]. apply (Hnf j); [lia | done | done]. }
      split; [done |]. split; [done |]. intros Hdv a Hin. unfold sc_pages in Hin. rewrite Ee in Hin. cbn in Hin.
      apply elem_of_app in Hin as [Hin | Hin]; [| by apply (do_full _ _ _ _ (wf_data _ _ _ _ Hwf))].
      destruct (list_repr_page _ _ _ a (lo_s _ _ _ Hl) Hin) as [p Ep].
      eapply (no_fit_all_set m s hid t layout a p); try done; [unfold sc_pages; set_solver | by apply Hnf'].
    + left. rewrite bool_decide_true by (by eexists).
      destruct (take_empty_ok m s hid t a l layout Hwf Ee Hsz Hal Hd8) as (e & m1 & m2 & s' & m' & t' & Epop & Eal & Eins & Hone & Hma).
      rewrite Epop. cbn. rewrite Eal. cbn. rewrite Eins. cbn.
      assert (0 < a) as Hpos.
      { apply (po_range m (obj_per_page s) hid), (do_page _ _ _ _ (wf_data _ _ _ _ Hwf)). unfold sc_pages. rewrite Ee. set_solver. }
      assert (a <> 0) as Hnz%Z.eqb_neq by lia. rewrite Hnz. rewrite Z.mul_0_l, Z.add_0_r in Hone. by exists a, s', m', t'.
  - left. destruct (after_slot_ok m m1 s hid t k a idx Hwf Ek Hr Hi Hb) as (s' & m' & t' & E' & Hone). rewrite E'. cbn [outcome_bind].
    assert (0 < a) as Hpos.
    { apply (po_range m (obj_per_page s) hid), (do_page _ _ _ _ (wf_data _ _ _ _ Hwf)). unfold sc_pages.
      apply list_elem_of_lookup_2 in Ek. set_solver. }
    assert (a + idx * sc_size s <> 0) as Hnz%Z.eqb_neq by nia. rewrite Hnz. cbn. rewrite Hnz.
    exists (a + idx * sc_size s), s', m', t'. split; [done |]. split; [done |]. exact Ha.
Qed.

(** ** Deallocation *)

Lemma page_deallocate_ok (m : Mem) (s : SCAllocator) (hid : Z) (t : SCPages) (a i align : Z) :
  sc_wf m s hid t -> a ∈ sc_pages t -> 0 <= i < obj_per_page s -> pbit m a i = true ->
  exists m1, page_deallocate m a (a + i * sc_size s) (mkLayout (sc_size s) align) = Done (Ok tt, m1) /\ rebit m m1 a i false.
Proof.
  intros Hwf Ha Hi Hb. pose proof (opp_bounds _ _ _ _ Hwf) as Ho. pose proof (slot_in_data _ _ _ _ _ Hwf Hi) as Hin.
  pose proof (do_page _ _ _ _ (wf_data _ _ _ _ Hwf) a Ha) as [Hma Hr (p & mp & Ep & _ & _ & _ & Hbf) Hh].
  pose proof (wf_size _ _ _ _ Hwf). pose proof buffer_bounds.
  unfold page_deallocate. rewrite (proj2 (page_of a (i * sc_size s) Hma (proj1 Hr) (proj2 Hr) ltac:(nia))). cbn [l_size].
  destruct (Z.eqb_spec (sc_size s) 0); [lia |]. rewrite Z.mod_mul, Z.div_mul by lia. cbn [negb Z.eqb].
  unfold get_page. rewrite Ep. cbn [expect outcome_bind]. rewrite is_allocated_bit by (done || lia). cbn [outcome_bind].
  unfold pbit in Hb. rewrite Ep in Hb. rewrite Hb. cbn [negb].
  destruct (clear_bit_ok (pg_bitfield p) i Hbf) as (bf & -> & Hok & Hbits); [lia |]. cbn. eexists. split; [done |].
  exists p, bf. split; [done |]. split; [done |]. split; [done |]. intros j Hj. rewrite Hbits by done.
  destruct (Z.eqb_spec j i); [apply andb_false_r | apply andb_true_r].
Qed.

(** The three ways a deallocation ends: the page has become empty, it was full, or neither. *)
Lemma after_free_ok (m m1 : Mem) (s : SCAllocator) (hid : Z) (t : SCPages) (a i : Z) (p q : ObjectPage8k) :
  sc_wf m s hid t -> a ∈ sc_pages t -> 0 <= i < obj_per_page s -> pbit m a i = true -> rebit m m1 a i false ->
  m !! a = Some p -> m1 !! a = Some q ->
  exists s' m' t',
    (if page_is_empty q (obj_per_page s) then move_to_empty s m1 a
     else if page_is_full p then move_full_to_partial s m1 a else Done (s, m1)) = Done (s', m') /\
    one_slot false m s hid t m' s' t' (a + i * sc_size s).
Proof.
  intros Hwf Ha Hi Hb Hr Ep Eq. pose proof (opp_bounds _ _ _ _ Hwf) as Ho. pose proof (wf_data _ _ _ _ Hwf) as Hd.
  pose proof (do_page _ _ _ _ Hd a Ha) as Hok. pose proof (rebit_page _ _ _ _ _ _ _ _ Hr Hi Hok) as Hok1.
  pose proof (rebit_lists _ _ _ _ _ _ _ Hr (wf_lists _ _ _ _ Hwf)) as Hl1. pose proof Hl1 as [He Hs Hf D1 D2 D3].
  assert (forall j, 0 <= j < obj_per_page s -> pbit m1 a j = if j =? i then false else pbit m a j) as Hbits.
  { intros j Hj. rewrite (rebit_pbit _ _ _ _ _ _ _ Hr) by lia. destruct (Z.eqb_spec j i); case_bool_decide; tauto. }
  assert (a ∉ l_e t) as Hne by (intros Hin; pose proof (do_empty _ _ _ _ Hd a Hin i Hi); congruence).
  assert (~ all_set m1 (obj_per_page s) a) as Hna by (intros Hall; specialize (Hall i Hi); rewrite Hbits, Z.eqb_refl in Hall by done; done).
  destruct (page_is_empty q (obj_per_page s)) eqn:Ee; [| destruct (page_is_full p) eqn:Ef].
  - apply (page_is_empty_iff _ _ _ _ _ Hok1) in Ee; [| lia | done].
    assert (a ∉ l_f t) as Hnf.
    { intros Hin. destruct (do_full _ _ _ _ Hd a Hin) as [Hall H2]. set (j := if i =? 0 then 1 else 0).
      assert (0 <= j < obj_per_page s /\ j <> i) as [Hj Hji] by (unfold j; case_cmp; lia).
      specialize (Ee j Hj). rewrite Hbits in Ee by done. destruct (Z.eqb_spec j i); [done |]. rewrite (Hall j Hj) in Ee. done. }
    assert (a ∈ l_p t) as Hap by (unfold sc_pages in Ha; set_solver). apply list_elem_of_lookup_1 in Hap as [k Ek].
    pose proof (fun x => elem_of_delete (l_p t) k a x (lr_nodup _ _ _ Hs) Ek) as Hdel.
    destruct (move_to_empty_ok m1 s t k a Hl1 Ek) as (s' & m' & E & Hl' & Hrel & Hc).
    exists s', m', (to_empty t k a). split; [done |]. apply (one_slot_intro false m m m1 m' s); try done.
    + intros x. unfold sc_pages. cbn. rewrite ?elem_of_cons, ?elem_of_app, ?elem_of_cons, ?elem_of_app, Hdel.
      apply list_elem_of_lookup_2 in Ek. destruct (decide (x = a)); set_solver.
    + apply (data_ok_rebit false m m1 _ _ t _ a i); try done; try lia; unfold sc_pages; cbn; set_solver.
  - apply (page_is_full_iff _ _ _ _ _ Hok) in Ef; [| lia | lia | done].
    assert (~ none_set m1 (obj_per_page s) a) as Hnn.
    { intros Hn. apply (page_is_empty_iff _ _ _ _ q Hok1) in Hn; [congruence | lia | done]. }
    assert (a ∉ l_p t) as Hnp.
    { intros Hin. destruct (do_partial _ _ _ _ Hd a Hin) as [_ H1]. specialize (H1 Ef). apply Hnn. intros j Hj.
      rewrite Hbits by done. destruct (Z.eqb_spec j i); [done | lia]. }
    assert (a ∈ l_f t) as Haf by (unfold sc_pages in Ha; set_solver). apply list_elem_of_lookup_1 in Haf as [k Ek].
    pose proof (fun x => elem_of_delete (l_f t) k a x (lr_nodup _ _ _ Hf) Ek) as Hdel.
    destruct (move_full_to_partial_ok m1 s t k a Hl1 Ek) as (s' & m' & E & Hl' & Hrel & Hc).
    exists s', m', (to_partial t k a). split; [done |]. apply (one_slot_intro false m m m1 m' s); try done.
    + intros x. unfold sc_pages. cbn. rewrite ?elem_of_cons, ?elem_of_app, ?elem_of_cons, ?elem_of_app, Hdel.
      apply list_elem_of_lookup_2 in Ek. destruct (decide (x = a)); set_solver.
    + apply (data_ok_rebit false m m1 _ _ t _ a i); try done; try lia; unfold sc_pages; cbn; set_solver.
  - assert (a ∉ l_f t) as Hnf.
    { intros Hin. destruct (do_full _ _ _ _ Hd a Hin) as [Hall _]. apply (page_is_full_iff _ _ _ _ p Hok) in Hall; [congruence | lia | lia | done]. }
    exists s, m1, t. split; [done |]. apply (one_slot_intro false m m m1 m1 s); try done.
    apply (data_ok_rebit false m m1 _ _ t _ a i); try done; [lia |]. intros Hin. split; [| tauto].
    intros Hn. apply (page_is_empty_iff _ _ _ _ q Hok1) in Hn; [congruence | lia | done].
Qed.

(** The whole of [deallocate] for an object in use. *)
Lemma sc_deallocate_ok (m : Mem) (s : SCAllocator) (hid : Z) (t : SCPages) (ptr : Z) (layout : Layout) :
  sc_wf m s hid t -> l_size layout <= sc_size s -> sc_allocated m s t ptr ->
  exists s' m' t', sc_deallocate s m ptr layout = Done (Ok tt, s', m') /\ one_slot false m s hid t m' s' t' ptr.
Proof.
  intros Hwf Hsz (a & i & Ha & Hi & -> & Hb). pose proof (wf_size _ _ _ _ Hwf). pose proof buffer_bounds.
  pose proof (slot_in_data _ _ _ _ _ Hwf Hi) as Hin. unfold MAX_ALLOC_SIZE in *.
  pose proof (do_page _ _ _ _ (wf_data _ _ _ _ Hwf) a Ha) as [Hma Hr (p & mp & Ep & _ & _ & _ & Hbf) Hh].
  destruct (page_deallocate_ok m s hid t a i (l_align layout) Hwf Ha Hi Hb) as (m1 & Ed & Hrb).
  pose proof Hrb as (p0 & bf & _ & Em1 & _). assert (exists q, m1 !! a = Some q) as [q Eq] by (eexists; rewrite Em1; apply lookup_insert_eq).
  destruct (after_free_ok m m1 s hid t a i p q Hwf Ha Hi Hb Hrb Ep Eq) as (s' & m' & t' & E & Hone).
  exists s', m', t'. split; [| done]. unfold sc_deallocate. destruct (Z.leb_spec (l_size layout) (sc_size s)); [| lia].
  unfold CACHE_LINE_SIZE. destruct (Z.leb_spec (sc_size s) (SIZE - 64)); [| unfold METADATA_SIZE, SIZE in *; lia]. cbn [negb].
  rewrite (proj1 (page_of a (i * sc_size s) Hma (proj1 Hr) (proj2 Hr) ltac:(nia))).
  unfold get_page. rewrite Ep. cbn [expect outcome_bind]. rewrite Ed. cbn [outcome_bind]. rewrite Eq. cbn [expect outcome_bind].
  rewrite E. done.
Qed.

(** ** Framing: the allocator's state depends on its own pages only *)

Lemma list_repr_same (m m' : Mem) (pl : PageList) (l : list Z) :
  (forall x, x ∈ l -> m' !! x = m !! x) -> list_repr m pl l -> list_repr m' pl l.
Proof.
  intros H [Hl Hn Hd]. split; [| done | done]. revert Hl. apply links_ext. intros x Hx. by rewrite H.
Qed.

Lemma data_ok_same (m m' : Mem) (opp hid : Z) (t : SCPages) :
  (forall x, x ∈ sc_pages t -> m' !! x = m !! x) -> data_ok m opp hid t -> data_ok m' opp hid t.
Proof.
  intros H [H1 H2 H3 H4]. assert (forall x i, x ∈ sc_pages t -> pbit m' x i = pbit m x i) as Hp by (intros; unfold pbit; by rewrite H).
  assert (forall x, x ∈ sc_pages t -> (none_set m' opp x <-> none_set m opp x) /\ (all_set m' opp x <-> all_set m opp x)) as Hs.
  { intros x Hx. split; split; intros Hh i Hi; first [rewrite <- Hp by done | rewrite Hp by done]; by apply Hh. }
  unfold sc_pages in Hs. split; intros a Ha.
  - destruct (H1 a Ha) as [P1 P2 P3 P4]. split; [done | done | by rewrite H |]. intros i Hi. rewrite Hp by done. by apply P4.
  - apply Hs; [set_solver | by apply H2].
  - destruct (Hs a ltac:(set_solver)) as [-> ->]. by apply H3.
  - destruct (Hs a ltac:(set_solver)) as [_ ->]. by apply H4.
Qed.

Lemma sc_wf_same (m m' : Mem) (s : SCAllocator) (hid : Z) (t : SCPages) :
  (forall x, x ∈ sc_pages t -> m' !! x = m !! x) -> sc_wf m s hid t -> sc_wf m' s hid t.
Proof.
  intros H [H1 H2 [He Hs Hf D1 D2 D3] H4]. split; [done | done | | by eapply data_ok_same].
  split; try done; (eapply list_repr_same; [| done]; intros x Hx; apply H; unfold sc_pages; set_solver).
Qed.

Lemma sc_allocated_same (m m' : Mem) (s : SCAllocator) (t : SCPages) (q : Z) :
  (forall x, x ∈ sc_pages t -> m' !! x = m !! x) -> sc_allocated m' s t q <-> sc_allocated m s t q.
Proof.
  intros H. split; intros (a & i & Ha & Hi & -> & Hb); exists a, i; (split; [done |]; split; [done |]; split; [done |]);
    unfold pbit in *; by rewrite H in * by done.
Qed.

(** ** Pages in and out *)

(** An operation that adds or takes away an empty page. *)
Record same_objects (m : Mem) (s : SCAllocator) (hid : Z) (t : SCPages) (m' : Mem) (s' : SCAllocator) (t' : SCPages)
    (pages : list Z) : Prop := {
  so_wf : sc_wf m' s' hid t';
  so_class : same_class s s';
  so_frame : forall x, x ∉ pages -> m' !! x = m !! x;
  so_objects : forall q, sc_allocated m' s' t' q <-> sc_allocated m s t q;
}.

Lemma sc_refill_ok (m : Mem) (s : SCAllocator) (hid : Z) (t : SCPages) (mp : MappedPages8k) :
  let a := mp8k_start_address mp in
  sc_wf m s hid t -> a mod 8192 = 0 -> 0 < a -> a + 8192 <= 2 ^ 64 -> a ∉ sc_pages t ->
  exists s' m', sc_refill s m mp hid = Done (s', m') /\
    same_objects m s hid t m' s' (mkPages3 (a :: l_e t) (l_p t) (l_f t)) (a :: sc_pages t).
Proof.
  intros a Hwf Hma Hpos Hr Hnin. pose proof (wf_size _ _ _ _ Hwf) as Hs. pose proof (opp_bounds _ _ _ _ Hwf) as Ho.
  pose proof buffer_bounds as Hbuf.
  destruct (initialize_ok [0; 0; 0; 0; 0; 0; 0; 0] (sc_size s) (SIZE - METADATA_SIZE)) as (bf & Ei & Hbf & Hbits); [done | lia | lia |].
  set (p := mkObjectPage (Some mp) hid None None bf). set (m1 := <[a := p]> m).
  assert (forall x, x ∈ sc_pages t -> m1 !! x = m !! x) as Hsame by (intros x Hx; apply lookup_insert_ne; by intros ->).
  pose proof (sc_wf_same _ _ _ _ _ Hsame Hwf) as [_ _ [He Hp Hf D1 D2 D3] Hd].
  pose proof Hnin as (N1 & [N2 N3]%not_elem_of_app)%not_elem_of_app.
  destruct (insert_front_ok m1 (empty_slabs s) (l_e t) a p) as (e & m2 & Eins & He2 & Hrel);
    [done | done | by apply lookup_insert_eq | done |].
  eexists _, m2. split.
  - unfold sc_refill, create_allocable_page, get_page. fold a. rewrite lookup_insert_eq. cbn [expect outcome_bind pg_bitfield page_new].
    rewrite Ei. cbn [outcome_bind]. rewrite (upd_page_eq _ _ _ (page_new mp hid)) by apply lookup_insert_eq. cbn [outcome_bind].
    rewrite insert_insert_eq. rewrite (upd_page_eq _ _ _ p) by apply lookup_insert_eq. cbn [outcome_bind].
    rewrite insert_insert_eq. rewrite (upd_page_eq _ _ _ p) by apply lookup_insert_eq. cbn [outcome_bind].
    rewrite insert_insert_eq. unfold insert_empty. change (set_next None p) with p. fold m1. rewrite Eins. done.
  - assert (forall i, 0 <= i < 512 -> pbit m2 a i = negb (i <? obj_per_page s)) as Hpb.
    { intros i Hi. rewrite (pbit_relinked _ _ _ _ _ Hrel). unfold pbit, m1. rewrite lookup_insert_eq. cbn. rewrite Hbits by done.
      by rewrite (wf_opp _ _ _ _ Hwf). }
    assert (data_ok m2 (obj_per_page s) hid t) as Hd2 by (by eapply data_ok_relinked).
    split; [split; [done | apply (wf_opp _ _ _ _ Hwf) | |] | done | |]; cbn.
    + split; cbn; [done | | | clear - D1 N2; set_solver | clear - D2 N3; set_solver | done].
      * eapply list_repr_frame; [exact Hrel | clear - D1 N2; set_solver | done].
      * eapply list_repr_frame; [exact Hrel | clear - D2 N3; set_solver | done].
    + destruct Hd2 as [P1 P2 P3 P4]. split; cbn; try done; intros x Hx.
      * apply elem_of_cons in Hx as [-> | Hx]; [| by apply P1]. split; [done | done | |].
        -- destruct (relinked_lookup _ _ _ _ p Hrel (lookup_insert_eq _ _ _)) as (q & Eq & Hq). injection Hq as Q1 Q2 Q3.
           exists q, mp. rewrite Q1, Q2, Q3. done.
        -- intros i Hi. rewrite Hpb by lia. case_cmp; [lia | done].
      * apply elem_of_cons in Hx as [-> | Hx]; [| by apply P2]. intros i Hi. rewrite Hpb by lia. case_cmp; [done | lia].
    + intros x Hx. apply not_elem_of_cons in Hx as [Hx1 Hx2]. rewrite (proj1 Hrel); [apply lookup_insert_ne; done |].
      apply not_elem_of_cons. split; [done |]. intros Hin. apply Hx2, elem_of_app. by left.
    + intros q. unfold sc_allocated. cbn. split.
      * intros (b & i & Hb & Hi & -> & Hbit). apply elem_of_cons in Hb as [-> | Hb].
        { rewrite Hpb in Hbit by lia. destruct (Z.ltb_spec i (obj_per_page s)); [done | lia]. }
        exists b, i. split_and!; try done; try lia. rewrite (pbit_relinked _ _ _ _ _ Hrel) in Hbit. unfold pbit in *. by rewrite <- Hsame.
      * intros (b & i & Hb & Hi & -> & Hbit). exists b, i. split_and!; try done; try lia; [by apply elem_of_cons; right |].
        rewrite (pbit_relinked _ _ _ _ _ Hrel). unfold pbit in *. by rewrite Hsame.
Qed.

Lemma sc_retrieve_ok (m : Mem) (s : SCAllocator) (hid : Z) (t : SCPages) (a : Z) (l : list Z) :
  sc_wf m s hid t -> l_e t = a :: l ->
  exists mp s' m', sc_retrieve_empty_page s m = Done (Some mp, s', m') /\ mp8k_start_address mp = a /\
    same_objects m s hid t m' s' (mkPages3 l (l_p t) (l_f t)) (sc_pages t).
Proof.
  intros Hwf Ee. pose proof (wf_lists _ _ _ _ Hwf) as [He Hp Hf D1 D2 D3]. pose proof (wf_data _ _ _ _ Hwf) as Hd. rewrite Ee in *.
  destruct (pl_pop_ok m (empty_slabs s) a l He) as (e & m1 & Epop & He1 & Hrel & Hnx).
  pose proof (lr_nodup _ _ _ He) as [Hal Hnd]%NoDup_cons.
  assert (a ∈ sc_pages t) as Ha by (unfold sc_pages; rewrite Ee; by apply elem_of_app; left; apply elem_of_cons; left).
  destruct (po_page _ _ _ _ (do_page _ _ _ _ Hd a Ha)) as (p & mp & Ep & Hmp & Hst & _).
  destruct (relinked_lookup _ _ _ _ _ Hrel Ep) as (q & Eq & Hq). injection Hq as Q1 _ _.
  eexists mp, _, _. split; [unfold sc_retrieve_empty_page, remove_empty; rewrite Epop; cbn; unfold retrieve_mapped_pages, get_page;
    rewrite Eq; cbn; rewrite Q1, Hmp; done |]. split; [done |].
  set (m2 := <[a := _]> m1). set (t' := mkPages3 l (l_p t) (l_f t)).
  assert (forall x, x ∈ sc_pages t' -> x <> a /\ x ∈ sc_pages t) as Hin'.
  { intros x. unfold sc_pages. cbn. rewrite Ee. intros Hx. split; [| clear - Hx; set_solver].
    clear - Hx Hal D1 D2. set_solver. }
  assert (forall x, x ∈ sc_pages t' -> m2 !! x = m1 !! x) as Hsame by (intros x Hx; apply lookup_insert_ne; by destruct (Hin' x Hx)).
  assert (data_ok m1 (obj_per_page s) hid t') as Hd1.
  { pose proof (data_ok_relinked _ _ _ _ _ _ Hrel Hd) as [P1 P2 P3 P4]. split; cbn; try done; intros x Hx.
    - by apply P1, Hin'.
    - apply P2. rewrite Ee. by apply elem_of_cons; right. }
  split.
  - apply (sc_wf_same m1 _ _ _ t'); [done |]. split; [apply (wf_size _ _ _ _ Hwf) | apply (wf_opp _ _ _ _ Hwf) | | done].
    split; cbn; [done | | | clear - D1; set_solver | clear - D2; set_solver | done].
    + eapply list_repr_frame; [exact Hrel | clear - D1; set_solver | done].
    + eapply list_repr_frame; [exact Hrel | clear - D2; set_solver | done].
  - done.
  - intros x Hx. unfold m2. rewrite lookup_insert_ne by (by intros ->). apply (proj1 Hrel). unfold sc_pages in Hx. rewrite Ee in Hx. clear - Hx. set_solver.
  - intros x. rewrite (sc_allocated_same m1) by done. unfold sc_allocated. cbn. split; intros (b & i & Hb & Hi & -> & Hbit).
    + exists b, i. rewrite (pbit_relinked _ _ _ _ _ Hrel) in Hbit. split_and!; try done; try lia. by apply Hin'.
    + exists b, i. rewrite (pbit_relinked _ _ _ _ _ Hrel). split_and!; try done; try lia. unfold sc_pages in *. cbn. rewrite Ee in Hb.
      apply elem_of_app in Hb as [Hb | Hb]; [| clear - Hb; set_solver]. apply elem_of_cons in Hb as [-> | Hb]; [| clear - Hb; set_solver].
      rewrite (do_empty _ _ _ _ Hd a) in Hbit; [done | rewrite Ee; by apply elem_of_cons; left | done].
Qed.

Lemma sc_retrieve_none (m : Mem) (s : SCAllocator) (hid : Z) (t : SCPages) :
  sc_wf m s hid t -> l_e t = [] -> sc_retrieve_empty_page s m = Done (None, s, m).
Proof.
  intros Hwf Ee. pose proof (lo_e _ _ _ (wf_lists _ _ _ _ Hwf)) as He. rewrite Ee in He.
  unfold sc_retrieve_empty_page, remove_empty. rewrite (pl_pop_nil _ _ He). by destruct s.
Qed.

End SlabAlloc.
