(* ===== verification/SlabZone.v ===== *)
(** * The zone allocator's contract

    A [ZoneAllocator] is eleven size classes over one memory.  Its invariant ([zone_wf]) is
    that of each class and that no page belongs to two of them.  An object is in use in a
    class ([zone_obj]); no two objects in use overlap. *)

From stdpp Require Import gmap.
From S2P Require Import Prelude MemStructs PteFlags PageTable Slab SlabBits SlabList SlabSpec SlabAlloc.

Section SlabZone.
Context {bflags : Bitflags} {pgl : PageLayout}.

(** ** Size classes *)

(** The class chosen is the smallest whose objects are large enough; [get_max_size] is the
    size of its objects. *)
Lemma get_slab_spec (n : Z) :
  match get_slab n with
  | Base i => exists c, BASE_ALLOC_SIZES !! i = Some c /\ n <= c /\ get_max_size n = Some c /\
                forall j d, (j < i)%nat -> BASE_ALLOC_SIZES !! j = Some d -> d < n
  | Large _ => False
  | Unsupported => MAX_ALLOC_SIZE < n /\ get_max_size n = None
  end.
Proof.
  unfold get_slab, get_max_size, BASE_ALLOC_SIZES, MAX_BASE_ALLOC_SIZE.
  repeat match goal with |- context [n <=? ?c] => destruct (Z.leb_spec n c) end; try (split; [lia | done]);
    eexists; (split; [reflexivity |]); (split; [lia |]); (split; [reflexivity |]);
    intros j d Hj; do 11 (destruct j as [| j]; [cbn; intros [= <-]; lia |]); lia.
Qed.

Lemma class_sizes (i : nat) (c : Z) : BASE_ALLOC_SIZES !! i = Some c -> 8 <= c <= MAX_ALLOC_SIZE.
Proof.
  pose proof buffer_bounds. unfold BASE_ALLOC_SIZES, MAX_BASE_ALLOC_SIZE, MAX_ALLOC_SIZE.
  do 11 (destruct i as [| i]; [cbn; intros [= <-]; lia |]). done.
Qed.

(** ** The invariant *)

Record zone_wf (m : Mem) (z : ZoneAllocator) (ts : list SCPages) : Prop := {
  zw_len : length (small_slabs z) = MAX_BASE_SIZE_CLASSES /\ length ts = MAX_BASE_SIZE_CLASSES;
  zw_sc : forall i s t, small_slabs z !! i = Some s -> ts !! i = Some t ->
    sc_wf m s (zone_heap_id z) t /\ BASE_ALLOC_SIZES !! i = Some (sc_size s);
  zw_disj : forall i j t t', i <> j -> ts !! i = Some t -> ts !! j = Some t' -> sc_pages t ## sc_pages t';
}.

(** The object at [q] is in use in the class [i]. *)
Definition zone_obj (m : Mem) (z : ZoneAllocator) (ts : list SCPages) (i : nat) (q : Z) : Prop :=
  exists s t, small_slabs z !! i = Some s /\ ts !! i = Some t /\ sc_allocated m s t q.

(** The page [x] belongs to the zone. *)
Definition zone_page (ts : list SCPages) (x : Z) : Prop := exists i t, ts !! i = Some t /\ x ∈ sc_pages t.

Lemma zone_class (m : Mem) (z : ZoneAllocator) (ts : list SCPages) (i : nat) (c : Z) :
  zone_wf m z ts -> BASE_ALLOC_SIZES !! i = Some c ->
  exists s t, small_slabs z !! i = Some s /\ ts !! i = Some t /\ sc_wf m s (zone_heap_id z) t /\ sc_size s = c.
Proof.
  intros Hz Ei. apply lookup_lt_Some in Ei as Hi. cbn in Hi. destruct (zw_len _ _ _ Hz) as [L1 L2]. unfold MAX_BASE_SIZE_CLASSES in *.
  destruct (lookup_lt_is_Some_2 (small_slabs z) i) as [s Es]; [lia |].
  destruct (lookup_lt_is_Some_2 ts i) as [t Et]; [lia |]. destruct (zw_sc _ _ _ Hz i s t Es Et) as [Hwf Hc].
  exists s, t. split_and!; try done. congruence.
Qed.

(** Two objects in use do not overlap. *)
Lemma zone_objs_disjoint (m : Mem) (z : ZoneAllocator) (ts : list SCPages) (i j : nat) (c d q r : Z) :
  zone_wf m z ts -> zone_obj m z ts i q -> zone_obj m z ts j r ->
  BASE_ALLOC_SIZES !! i = Some c -> BASE_ALLOC_SIZES !! j = Some d ->
  (i, q) <> (j, r) -> q + c <= r \/ r + d <= q.
Proof.
  intros Hz (s & t & Es & Et & a & k & Ha & Hk & -> & _) (s' & t' & Es' & Et' & b & l & Hb & Hl & -> & _) Ec Ed Hne.
  destruct (zw_sc _ _ _ Hz i s t Es Et) as [Hwf Hc], (zw_sc _ _ _ Hz j s' t' Es' Et') as [Hwf' Hc'].
  assert (sc_size s = c) as <- by congruence. assert (sc_size s' = d) as <- by congruence.
  pose proof (slot_in_data _ _ _ _ _ Hwf Hk) as D1. pose proof (slot_in_data _ _ _ _ _ Hwf' Hl) as D2.
  pose proof (wf_size _ _ _ _ Hwf). pose proof (wf_size _ _ _ _ Hwf'). pose proof buffer_bounds.
  pose proof (po_align _ _ _ _ (do_page _ _ _ _ (wf_data _ _ _ _ Hwf) a Ha)) as Aa.
  pose proof (po_align _ _ _ _ (do_page _ _ _ _ (wf_data _ _ _ _ Hwf') b Hb)) as Ab.
  destruct (decide (a = b)) as [<- | Hab].
  - assert (i = j) as <-.
    { destruct (decide (i = j)); [done |]. exfalso. by apply (zw_disj _ _ _ Hz i j t t' n Et Et' a). }
    assert (s' = s) as -> by congruence. assert (k <> l) by (intros ->; by apply Hne). nia.
  - apply Z.mod_divide in Aa as [u ->], Ab as [v ->]; [| lia | lia]. nia.
Qed.

(** ** Changing one class *)

Lemma zone_update (m m' : Mem) (z : ZoneAllocator) (ts : list SCPages) (i : nat) (s s' : SCAllocator) (t t' : SCPages) (new : list Z) :
  zone_wf m z ts -> small_slabs z !! i = Some s -> ts !! i = Some t ->
  sc_wf m' s' (zone_heap_id z) t' -> same_class s s' ->
  (forall x, x ∈ sc_pages t' -> x ∈ sc_pages t \/ x ∈ new) -> (forall x, x ∈ new -> ~ zone_page ts x) ->
  (forall x, x ∉ sc_pages t -> x ∉ new -> m' !! x = m !! x) ->
  zone_wf m' (set_slab z i s') (<[i := t']> ts) /\
  forall j q, zone_obj m' (set_slab z i s') (<[i := t']> ts) j q <->
    if decide (j = i) then sc_allocated m' s' t' q else zone_obj m z ts j q.
Proof.
  intros Hz Es Et Hwf' [Hc1 Hc2] Hp Hnew Hfr. pose proof (lookup_lt_Some _ _ _ Es) as Hi. pose proof (lookup_lt_Some _ _ _ Et) as Hi'.
  assert (forall j t0 x, j <> i -> ts !! j = Some t0 -> x ∈ sc_pages t0 -> m' !! x = m !! x) as Hsame.
  { intros j t0 x Hj Ej Hx. apply Hfr; [| intros Hn; apply (Hnew x Hn); by exists j, t0].
    intros Hx'. by apply (zw_disj _ _ _ Hz i j t t0 (not_eq_sym Hj) Et Ej x). }
  assert (forall j t0 x, j <> i -> ts !! j = Some t0 -> x ∈ sc_pages t' -> x ∈ sc_pages t0 -> False) as Hdis.
  { intros j t0 x Hj Ej Hx Hx'. destruct (Hp x Hx) as [Hx2 | Hx2].
    - by apply (zw_disj _ _ _ Hz i j t t0 (not_eq_sym Hj) Et Ej x).
    - apply (Hnew x Hx2). by exists j, t0. }
  split; [split |].
  - cbn. rewrite !length_insert. apply (zw_len _ _ _ Hz).
  - cbn. intros j s0 t0 Ej Ej'. destruct (decide (j = i)) as [-> | Hj].
    + rewrite list_lookup_insert_eq in Ej by done. rewrite list_lookup_insert_eq in Ej' by done. simplify_eq. rewrite Hc1. split; [done |]. by apply (zw_sc _ _ _ Hz i s t).
    + rewrite list_lookup_insert_ne in Ej by done. rewrite list_lookup_insert_ne in Ej' by done. destruct (zw_sc _ _ _ Hz j s0 t0 Ej Ej') as [Hw Hc]. split; [| done].
      apply (sc_wf_same m); [| done]. intros x. by apply (Hsame j).
  - intros j k t1 t2 Hjk Ej Ek x Hx1 Hx2. destruct (decide (j = i)) as [-> | Hj], (decide (k = i)) as [-> | Hk]; [done | ..];
      rewrite ?list_lookup_insert_eq in * by done; rewrite ?list_lookup_insert_ne in * by done; simplify_eq.
    + by apply (Hdis k t2 x).
    + by apply (Hdis j t1 x).
    + by apply (zw_disj _ _ _ Hz j k t1 t2 Hjk Ej Ek x).
  - intros j q. unfold zone_obj. cbn. destruct (decide (j = i)) as [-> | Hj].
    + rewrite !list_lookup_insert_eq by done. split; [by intros (s0 & t0 & [= <-] & [= <-] & ?) | intros ?; by exists s', t'].
    + rewrite !list_lookup_insert_ne by done. split; intros (s0 & t0 & Ej & Ej' & Ha); exists s0, t0; (split; [done |]; split; [done |]);
        apply (sc_allocated_same m m' s0 t0 q (fun x => Hsame j t0 x Hj Ej')); done.
Qed.

(** ** Empty pages *)

Lemma length_bound (l : list Z) (n : Z) : NoDup l -> 0 <= n -> (forall x, x ∈ l -> 0 <= x < n) -> Z.of_nat (length l) <= n.
Proof.
  intros Hnd Hn Hx. assert (l ⊆+ seqZ 0 n) as Hs by (apply NoDup_submseteq; [done |]; intros x Hin; apply elem_of_seqZ; specialize (Hx x Hin); lia).
  apply submseteq_length in Hs. rewrite length_seqZ in Hs. lia.
Qed.

(** A list of object pages is too short for its counter to wrap around. *)
Lemma pages_bound (m : Mem) (s : SCAllocator) (hid : Z) (t : SCPages) :
  sc_wf m s hid t -> elements (empty_slabs s) = Z.of_nat (length (l_e t)) /\ Z.of_nat (length (l_e t)) <= 2 ^ 51.
Proof.
  intros Hwf. pose proof (lo_e _ _ _ (wf_lists _ _ _ _ Hwf)) as [_ Hn Hnd].
  assert (Z.of_nat (length (l_e t)) <= 2 ^ 51) as Hb.
  { rewrite <- (length_fmap (fun x => x / 8192)). apply length_bound; [| lia |].
    - apply NoDup_fmap_2_strong; [| done]. intros x y Hx Hy E.
      pose proof (po_align _ _ _ _ (do_page _ _ _ _ (wf_data _ _ _ _ Hwf) x ltac:(apply elem_of_app; by left))).
      pose proof (po_align _ _ _ _ (do_page _ _ _ _ (wf_data _ _ _ _ Hwf) y ltac:(apply elem_of_app; by left))).
      pose proof (Z.div_mod x 8192). pose proof (Z.div_mod y 8192). lia.
    - intros x (y & -> & Hy)%list_elem_of_fmap.
      pose proof (po_range _ _ _ _ (do_page _ _ _ _ (wf_data _ _ _ _ Hwf) y ltac:(apply elem_of_app; by left))).
      split; [apply Z.div_pos; lia | apply Z.div_lt_upper_bound; lia]. }
  split; [| done]. rewrite Hn. apply wrap64_id. unfold in_u64, U64_MAX. lia.
Qed.

(** The number of empty pages is the sum over the classes. *)
Lemma empty_pages_fold (l : list SCAllocator) (n k : Z) :
  (forall s, s ∈ l -> 0 <= elements (empty_slabs s) <= 2 ^ 51) -> 0 <= n <= k * 2 ^ 51 -> k + Z.of_nat (length l) <= 4096 ->
  foldl (fun n s => wrap64 (n + elements (empty_slabs s))) n l = n + sum_of (fun s => elements (empty_slabs s)) l.
Proof.
  revert n k. induction l as [| s l IH]; intros n k Hl Hn Hk; cbn in *; [lia |].
  pose proof (Hl s ltac:(by apply elem_of_cons; left)) as Hs. rewrite wrap64_id by (unfold in_u64, U64_MAX; lia).
  rewrite (IH _ (k + 1)); [lia | | lia | lia]. intros s' Hs'. apply Hl. by apply elem_of_cons; right.
Qed.

Lemma empty_pages_eq (m : Mem) (z : ZoneAllocator) (ts : list SCPages) :
  zone_wf m z ts -> empty_pages z = sum_of (fun s => elements (empty_slabs s)) (small_slabs z) /\
    (forall s, s ∈ small_slabs z -> 0 <= elements (empty_slabs s)).
Proof.
  intros Hz. destruct (zw_len _ _ _ Hz) as [L1 L2]. unfold MAX_BASE_SIZE_CLASSES in *.
  assert (forall s, s ∈ small_slabs z -> 0 <= elements (empty_slabs s) <= 2 ^ 51) as Hb.
  { intros s [i Hi]%list_elem_of_lookup_1. apply lookup_lt_Some in Hi as Hlt. destruct (lookup_lt_is_Some_2 ts i) as [t Et]; [lia |].
    destruct (zw_sc _ _ _ Hz i s t Hi Et) as [Hwf _]. destruct (pages_bound _ _ _ _ Hwf) as [-> ?]. lia. }
  split; [| intros s Hs; by apply Hb]. unfold empty_pages. rewrite (empty_pages_fold _ 0 0); [lia | done | lia | lia].
Qed.

(** The empty pages of a class are found by its counter. *)
Lemma class_empty_iff (m : Mem) (s : SCAllocator) (hid : Z) (t : SCPages) :
  sc_wf m s hid t -> (SLAB_EMPTY_PAGES_THRESHOLD <? elements (empty_slabs s)) = false <-> l_e t = [].
Proof.
  intros Hwf. destruct (pages_bound _ _ _ _ Hwf) as [-> _]. unfold SLAB_EMPTY_PAGES_THRESHOLD. rewrite Z.ltb_ge.
  split; [intros H; apply length_zero_iff_nil; lia | intros ->; done].
Qed.

(** ** Taking an empty page out of a zone *)

(** The page at [a] has left the zone; the objects in use stay. *)
Record page_out (m : Mem) (z : ZoneAllocator) (ts : list SCPages) (mp : MappedPages8k) (m' : Mem) (z' : ZoneAllocator) (ts' : list SCPages) : Prop := {
  pt_wf : zone_wf m' z' ts';
  pt_id : zone_heap_id z' = zone_heap_id z;
  pt_in : zone_page ts (mp8k_start_address mp);
  pt_pages : forall x, zone_page ts' x <-> zone_page ts x /\ x <> mp8k_start_address mp;
  pt_range : mp8k_start_address mp mod 8192 = 0 /\ 0 < mp8k_start_address mp /\ mp8k_start_address mp + 8192 <= 2 ^ 64;
  pt_frame : forall x, ~ zone_page ts x -> m' !! x = m !! x;
  pt_objs : forall j q, zone_obj m' z' ts' j q <-> zone_obj m z ts j q;
}.

Lemma retrieve_class_ok (m : Mem) (z : ZoneAllocator) (ts : list SCPages) (i : nat) (s : SCAllocator) (t : SCPages) (a : Z) (l : list Z) :
  zone_wf m z ts -> small_slabs z !! i = Some s -> ts !! i = Some t -> l_e t = a :: l ->
  exists mp s' m' ts', sc_retrieve_empty_page s m = Done (Some mp, s', m') /\ page_out m z ts mp m' (set_slab z i s') ts'.
Proof.
  intros Hz Es Et Ee. destruct (zw_sc _ _ _ Hz i s t Es Et) as [Hwf _].
  destruct (sc_retrieve_ok m s _ t a l Hwf Ee) as (mp & s' & m' & E & Hst & [Hwf' Hc Hfr Hobj]).
  set (t' := mkPages3 l (l_p t) (l_f t)) in *.
  assert (sc_pages t = a :: sc_pages t') as Hcons by (unfold sc_pages; by rewrite Ee).
  pose proof (lists_nodup _ _ _ (wf_lists _ _ _ _ Hwf)) as Hnd. rewrite Hcons in Hnd. apply NoDup_cons in Hnd as [Hni _].
  destruct (zone_update m m' z ts i s s' t t' [] Hz Es Et Hwf' Hc) as [Hz' Hobjs].
  { intros x Hx. left. rewrite Hcons. by apply elem_of_cons; right. }
  { by intros x ?%not_elem_of_nil. }
  { intros x Hx _. by apply Hfr. }
  pose proof (do_page _ _ _ _ (wf_data _ _ _ _ Hwf) a ltac:(rewrite Hcons; by apply elem_of_cons; left)) as Hok.
  apply lookup_lt_Some in Et as Hlt.
  exists mp, s', m', (<[i := t']> ts). split; [done |]. split; rewrite ?Hst; try done.
  - exists i, t. split; [done |]. rewrite Hcons. by apply elem_of_cons; left.
  - intros x. split.
    + intros (j & t0 & Ej & Hx). destruct (decide (j = i)) as [-> | Hj].
      * rewrite list_lookup_insert_eq in Ej by done. injection Ej as <-. split; [| by intros ->]. exists i, t. split; [done |].
        rewrite Hcons. by apply elem_of_cons; right.
      * rewrite list_lookup_insert_ne in Ej by done. split; [by exists j, t0 |]. intros ->.
        apply (zw_disj _ _ _ Hz j i t0 t Hj Ej Et a); [done |]. rewrite Hcons. by apply elem_of_cons; left.
    + intros [(j & t0 & Ej & Hx) Hne]. destruct (decide (j = i)) as [-> | Hj].
      * exists i, t'. rewrite list_lookup_insert_eq by done. split; [done |]. assert (t0 = t) as -> by congruence.
        rewrite Hcons in Hx. by apply elem_of_cons in Hx as [-> | Hx].
      * exists j, t0. by rewrite list_lookup_insert_ne.
  - split; [apply Hok | apply Hok].
  - intros x Hx. apply Hfr. intros Hx'. apply Hx. by exists i, t.
  - intros j q. rewrite Hobjs. destruct (decide (j = i)) as [-> | Hj]; [| done]. rewrite Hobj. unfold zone_obj.
    split; [intros H; by exists s, t | intros (s0 & t0 & ? & ? & H)]. by simplify_eq.
Qed.

(** The search through the classes. *)
Lemma retrieve_from_ok (m : Mem) (z : ZoneAllocator) (ts : list SCPages) (l : list SCAllocator) (i : nat) :
  zone_wf m z ts -> drop i (small_slabs z) = l ->
  (retrieve_from l i z m = Done (None, z, m) /\ forall j t, (i <= j)%nat -> ts !! j = Some t -> l_e t = []) \/
  exists mp z' m' ts', retrieve_from l i z m = Done (Some mp, z', m') /\ page_out m z ts mp m' z' ts'.
Proof.
  intros Hz. destruct (zw_len _ _ _ Hz) as [L1 L2]. revert i. induction l as [| s l IH]; intros i Hl; cbn [retrieve_from].
  - left. split; [done |]. intros j t Hij Ej. apply lookup_lt_Some in Ej. apply (f_equal length) in Hl. rewrite length_drop in Hl. cbn in Hl. lia.
  - assert (small_slabs z !! i = Some s) as Es.
    { rewrite <- (Nat.add_0_r i), <- lookup_drop, Hl. done. }
    apply lookup_lt_Some in Es as Hlt. destruct (lookup_lt_is_Some_2 ts i) as [t Et]; [lia |].
    destruct (zw_sc _ _ _ Hz i s t Es Et) as [Hwf _].
    destruct (SLAB_EMPTY_PAGES_THRESHOLD <? elements (empty_slabs s)) eqn:Eb.
    + right. destruct (l_e t) as [| a le] eqn:Ee; [apply (class_empty_iff _ _ _ _ Hwf) in Ee; congruence |].
      destruct (retrieve_class_ok m z ts i s t a le Hz Es Et Ee) as (mp & s' & m' & ts' & E & Hout). rewrite E. cbn.
      by exists mp, (set_slab z i s'), m', ts'.
    + apply (class_empty_iff _ _ _ _ Hwf) in Eb. destruct (IH (S i)) as [[E H] | H]; [| left | by right].
      { replace (S i) with (i + 1)%nat by lia. rewrite <- drop_drop, Hl. done. }
      split; [done |]. intros j t0 Hij Ej. destruct (decide (j = i)) as [-> |]; [congruence | apply (H j); [lia | done]].
Qed.

Lemma zone_retrieve_ok (m : Mem) (z : ZoneAllocator) (ts : list SCPages) (th : Z) :
  zone_wf m z ts -> 0 <= th ->
  (zone_retrieve_empty_page z m th = Done (None, z, m) /\ empty_pages z <= th) \/
  exists mp z' m' ts', zone_retrieve_empty_page z m th = Done (Some mp, z', m') /\ page_out m z ts mp m' z' ts'.
Proof.
  intros Hz Hth. unfold zone_retrieve_empty_page. destruct (Z.leb_spec (empty_pages z) th); [by left |].
  destruct (retrieve_from_ok m z ts (small_slabs z) 0 Hz eq_refl) as [[E H'] | H']; [exfalso | by right].
  destruct (empty_pages_eq m z ts Hz) as [Es _]. destruct (zw_len _ _ _ Hz) as [L1 L2].
  rewrite sum_of_all_zero in Es; [lia |]. apply Forall_forall. intros s [i Hi]%list_elem_of_lookup_1.
  apply lookup_lt_Some in Hi as Hlt. destruct (lookup_lt_is_Some_2 ts i) as [t Et]; [lia |].
  destruct (zw_sc _ _ _ Hz i s t Hi Et) as [Hwf _]. destruct (pages_bound _ _ _ _ Hwf) as [-> _].
  rewrite (H' i t); [done | lia | done].
Qed.

(** ** Adding a page *)

Record page_in (m : Mem) (z : ZoneAllocator) (ts : list SCPages) (mp : MappedPages8k) (m' : Mem) (z' : ZoneAllocator) (ts' : list SCPages) : Prop := {
  pi_wf : zone_wf m' z' ts';
  pi_id : zone_heap_id z' = zone_heap_id z;
  pi_pages : forall x, zone_page ts' x <-> zone_page ts x \/ x = mp8k_start_address mp;
  pi_frame : forall x, ~ zone_page ts x -> x <> mp8k_start_address mp -> m' !! x = m !! x;
  pi_objs : forall j q, zone_obj m' z' ts' j q <-> zone_obj m z ts j q;
}.

(** The pages of a zone of which one class has changed. *)
Lemma zone_page_insert (ts : list SCPages) (i : nat) (t t' : SCPages) (x : Z) :
  ts !! i = Some t -> zone_page (<[i := t']> ts) x <-> x ∈ sc_pages t' \/ exists j t0, j <> i /\ ts !! j = Some t0 /\ x ∈ sc_pages t0.
Proof.
  intros Et. apply lookup_lt_Some in Et as Hlt. unfold zone_page. split.
  - intros (j & t0 & Ej & Hx). destruct (decide (j = i)) as [-> | Hj].
    + rewrite list_lookup_insert_eq in Ej by done. injection Ej as <-. by left.
    + rewrite list_lookup_insert_ne in Ej by done. right. by exists j, t0.
  - intros [Hx | (j & t0 & Hj & Ej & Hx)]; [exists i, t'; by rewrite list_lookup_insert_eq | exists j, t0; by rewrite list_lookup_insert_ne].
Qed.

Lemma zone_page_split (ts : list SCPages) (i : nat) (t : SCPages) (x : Z) :
  ts !! i = Some t -> zone_page ts x <-> x ∈ sc_pages t \/ exists j t0, j <> i /\ ts !! j = Some t0 /\ x ∈ sc_pages t0.
Proof. intros Et. by rewrite <- (zone_page_insert ts i t t x Et), list_insert_id. Qed.

Lemma zone_refill_ok (m : Mem) (z : ZoneAllocator) (ts : list SCPages) (layout : Layout) (mp : MappedPages8k) (i : nat) :
  let a := mp8k_start_address mp in
  zone_wf m z ts -> get_slab (l_size layout) = Base i -> a mod 8192 = 0 -> 0 < a -> a + 8192 <= 2 ^ 64 -> ~ zone_page ts a ->
  exists z' m' ts', zone_refill z m layout mp = Done (Ok tt, z', m') /\ page_in m z ts mp m' z' ts' /\
    exists t, ts' !! i = Some t /\ l_e t <> [].
Proof.
  intros a Hz Ei Ha Hpos Hr Hni. pose proof (get_slab_spec (l_size layout)) as Hg. rewrite Ei in Hg. destruct Hg as (c & Ec & _).
  destruct (zone_class m z ts i c Hz Ec) as (s & t & Es & Et & Hwf & _).
  assert (a ∉ sc_pages t) as Hni' by (intros Hin; apply Hni; by exists i, t).
  destruct (sc_refill_ok m s _ t mp Hwf Ha Hpos Hr Hni') as (s' & m' & E & [Hwf' Hc Hfr Hobj]). fold a in E, Hwf', Hfr, Hobj.
  set (t' := mkPages3 (a :: l_e t) (l_p t) (l_f t)) in *. assert (sc_pages t' = a :: sc_pages t) as Hcons by done.
  destruct (zone_update m m' z ts i s s' t t' [a] Hz Es Et Hwf' Hc) as [Hz' Hobjs].
  { intros x Hx. rewrite Hcons in Hx. apply elem_of_cons in Hx as [-> | Hx]; [right; by apply list_elem_of_singleton | by left]. }
  { intros x ->%list_elem_of_singleton. done. }
  { intros x Hx Hx'. apply Hfr. apply not_elem_of_cons. split; [| done]. intros ->. by apply Hx', list_elem_of_singleton. }
  apply lookup_lt_Some in Et as Hlt. exists (set_slab z i s'), m', (<[i := t']> ts). split.
  { unfold zone_refill. rewrite Ei, Es. cbn [expect outcome_bind]. rewrite E. done. }
  split; [split; try done |].
  - intros x. rewrite (zone_page_insert ts i t t' x Et), (zone_page_split ts i t x Et), Hcons, elem_of_cons. fold a. tauto.
  - intros x Hx Hne. apply Hfr, not_elem_of_cons. split; [done |]. intros Hin. apply Hx. by exists i, t.
  - intros j q. rewrite Hobjs. destruct (decide (j = i)) as [-> |]; [| done]. rewrite Hobj.
    split; [intros H; by exists s, t | intros (s0 & t0 & ? & ? & H); by simplify_eq].
  - exists t'. by rewrite list_lookup_insert_eq.
Qed.

(** ** Allocation *)

(** The object at [ptr], of [c] bytes, has been taken in the class [i]. *)
Record zone_takes (m : Mem) (z : ZoneAllocator) (ts : list SCPages) (m' : Mem) (z' : ZoneAllocator) (ts' : list SCPages) (i : nat) (c ptr : Z) : Prop := {
  zt_wf : zone_wf m' z' ts';
  zt_id : zone_heap_id z' = zone_heap_id z;
  zt_pages : forall x, zone_page ts' x <-> zone_page ts x;
  zt_frame : forall x, ~ zone_page ts x -> m' !! x = m !! x;
  zt_apart : forall j d q, zone_obj m z ts j q -> BASE_ALLOC_SIZES !! j = Some d -> ptr + c <= q \/ q + d <= ptr;
  zt_objs : forall j q, zone_obj m' z' ts' j q <-> zone_obj m z ts j q \/ (j = i /\ q = ptr);
}.

Lemma one_slot_zone (v : bool) (m m' : Mem) (z : ZoneAllocator) (ts : list SCPages) (i : nat) (s s' : SCAllocator) (t t' : SCPages) (ptr : Z) :
  zone_wf m z ts -> small_slabs z !! i = Some s -> ts !! i = Some t -> one_slot v m s (zone_heap_id z) t m' s' t' ptr ->
  let z' := set_slab z i s' in let ts' := <[i := t']> ts in
  zone_wf m' z' ts' /\ zone_heap_id z' = zone_heap_id z /\ (forall x, zone_page ts' x <-> zone_page ts x) /\
  (forall x, ~ zone_page ts x -> m' !! x = m !! x) /\
  forall j q, zone_obj m' z' ts' j q <->
    if v then zone_obj m z ts j q \/ (j = i /\ q = ptr) else zone_obj m z ts j q /\ ~ (j = i /\ q = ptr).
Proof.
  intros Hz Es Et [Hwf' Hc Hp Hfr Hb Ha] z' ts'.
  destruct (zone_update m m' z ts i s s' t t' [] Hz Es Et Hwf' Hc) as [Hz' Hobjs].
  { intros x Hx. left. by apply Hp. }
  { by intros x ?%not_elem_of_nil. }
  { intros x Hx _. by apply Hfr. }
  assert (forall q, sc_allocated m s t q <-> zone_obj m z ts i q) as Hq.
  { intros q. split; [intros H; by exists s, t | intros (s0 & t0 & ? & ? & H); by simplify_eq]. }
  split; [done |]. split; [done |]. split; [| split].
  - intros x. unfold ts'. rewrite (zone_page_insert ts i t t' x Et), (zone_page_split ts i t x Et), Hp. done.
  - intros x Hx. apply Hfr. intros Hin. apply Hx. by exists i, t.
  - intros j q. unfold z', ts'. rewrite Hobjs. destruct (decide (j = i)) as [-> | Hne]; [| destruct v; tauto].
    specialize (Ha q). specialize (Hq q). destruct v; tauto.
Qed.

(** The class [i] gives an object, or has no empty page. *)
Lemma slab_allocate_ok (m : Mem) (z : ZoneAllocator) (ts : list SCPages) (i : nat) (c : Z) (layout : Layout) :
  zone_wf m z ts -> BASE_ALLOC_SIZES !! i = Some c -> 0 <= l_size layout <= c -> 0 < l_align layout -> (l_align layout | 8192) ->
  (exists ptr z' m' ts', slab_allocate z m i layout = Done (Ok ptr, z', m') /\ zone_takes m z ts m' z' ts' i c ptr /\
     ptr mod l_align layout = 0) \/
  (exists e, slab_allocate z m i layout = Done (Err e, z, m) /\
     exists s t, small_slabs z !! i = Some s /\ ts !! i = Some t /\ no_room m s t layout).
Proof.
  intros Hz Ec Hsz Hal Hd8. destruct (zone_class m z ts i c Hz Ec) as (s & t & Es & Et & Hwf & Hc).
  unfold slab_allocate. rewrite Es. cbn [expect outcome_bind].
  destruct (sc_allocate_ok m s _ t layout Hwf) as [(ptr & s' & m' & t' & E & Hone & Hma) | [E Hn]]; [lia | done | done | |]; rewrite E; cbn [outcome_bind].
  - left. exists ptr, (set_slab z i s'), m', (<[i := t']> ts). split; [done |]. split; [| done].
    destruct (one_slot_zone true m m' z ts i s s' t t' ptr Hz Es Et Hone) as (Z1 & Z2 & Z3 & Z4 & Z5).
    split; [done | done | done | done | | done].
    intros j d q Hq Ed. apply (zone_objs_disjoint m' _ _ i j c d ptr q Z1); try done; [apply Z5; by right | apply Z5; by left |].
    intros [= -> ->]. destruct Hq as (s0 & t0 & Es0 & Et0 & Hq). simplify_eq. by apply (os_before _ _ _ _ _ _ _ _ _ Hone).
  - right. eexists. split; [| by exists s, t]. do 3 f_equal. unfold set_slab. destruct z as [hid l]. cbn in *. by rewrite list_insert_id.
Qed.

(** The whole of the zone's [allocate]: the object comes from the class of the size, which
    is refilled with an empty page of another class when it has none; it fails only when no
    class has an empty page. *)
Lemma zone_allocate_ok (m : Mem) (z : ZoneAllocator) (ts : list SCPages) (layout : Layout) (i : nat) (c : Z) :
  zone_wf m z ts -> get_slab (l_size layout) = Base i -> BASE_ALLOC_SIZES !! i = Some c -> 0 <= l_size layout ->
  0 < l_align layout -> (l_align layout | 8192) ->
  (exists ptr z' m' ts', zone_allocate z m layout = Done (Ok ptr, z', m') /\ zone_takes m z ts m' z' ts' i c ptr /\
     ptr mod l_align layout = 0) \/
  (exists e, zone_allocate z m layout = Done (Err e, z, m) /\ empty_pages z <= 0 /\
     exists s t, small_slabs z !! i = Some s /\ ts !! i = Some t /\ no_room m s t layout).
Proof.
  intros Hz Ei Ec Hsz Hal Hd8. pose proof (get_slab_spec (l_size layout)) as Hg. rewrite Ei in Hg.
  destruct Hg as (c' & Ec' & Hle & _). assert (c' = c) as -> by congruence.
  unfold zone_allocate. rewrite Ei.
  destruct (slab_allocate_ok m z ts i c layout Hz Ec) as [(ptr & z' & m' & ts' & E & Ht & Hma) | (e & E & Hn)];
    [lia | done | done | |]; rewrite E; cbn [outcome_bind].
  { left. by exists ptr, z', m', ts'. }
  unfold exchange_pages_within_heap.
  destruct (zone_retrieve_ok m z ts 0 Hz) as [[Er Hem] | (mp & z1 & m1 & ts1 & Er & Hout)]; [lia | |]; rewrite Er; cbn [outcome_bind].
  { right. eexists. split; [done |]. by split. }
  left. destruct Hout as [O1 O2 O3 O4 (R1 & R2 & R3) O6 O7].
  destruct (zone_refill_ok m1 z1 ts1 layout mp i O1 Ei R1 R2 R3) as (z2 & m2 & ts2 & Ef & [I1 I2 I3 I4 I5] & t2 & Et2 & Hne).
  { rewrite O4. tauto. }
  rewrite Ef. cbn [outcome_bind].
  destruct (slab_allocate_ok m2 z2 ts2 i c layout I1 Ec) as [(ptr & z' & m' & ts' & E' & [T1 T2 T3 T4 T5 T6] & Hma) | (e' & E' & s' & t' & _ & Et' & Hn')];
    [lia | done | done | | exfalso; apply Hne; destruct Hn' as [Hn' _]; congruence].
  exists ptr, z', m', ts'. split; [done |]. split; [| done].
  assert (forall x, zone_page ts2 x <-> zone_page ts x) as Hpg.
  { intros x. rewrite I3, O4. destruct (decide (x = mp8k_start_address mp)) as [-> |]; tauto. }
  split; [done | congruence | | | |].
  - intros x. by rewrite T3.
  - intros x Hx. rewrite T4 by (by rewrite Hpg). rewrite I4, O6; [done | done | rewrite O4; tauto | intros ->; tauto].
  - intros j d q Hq Ed. apply (T5 j d q); [| done]. by apply I5, O7.
  - intros j q. rewrite T6, I5, O7. done.
Qed.

(** ** Deallocation *)

Record zone_frees (m : Mem) (z : ZoneAllocator) (ts : list SCPages) (m' : Mem) (z' : ZoneAllocator) (ts' : list SCPages) (i : nat) (ptr : Z) : Prop := {
  zf_wf : zone_wf m' z' ts';
  zf_id : zone_heap_id z' = zone_heap_id z;
  zf_pages : forall x, zone_page ts' x <-> zone_page ts x;
  zf_frame : forall x, ~ zone_page ts x -> m' !! x = m !! x;
  zf_objs : forall j q, zone_obj m' z' ts' j q <-> zone_obj m z ts j q /\ ~ (j = i /\ q = ptr);
}.

Lemma zone_deallocate_ok (m : Mem) (z : ZoneAllocator) (ts : list SCPages) (layout : Layout) (i : nat) (ptr : Z) :
  zone_wf m z ts -> get_slab (l_size layout) = Base i -> zone_obj m z ts i ptr ->
  exists z' m' ts', zone_deallocate z m ptr layout = Done (Ok tt, z', m') /\ zone_frees m z ts m' z' ts' i ptr.
Proof.
  intros Hz Ei (s & t & Es & Et & Hobj). pose proof (get_slab_spec (l_size layout)) as Hg. rewrite Ei in Hg. destruct Hg as (c & Ec & Hle & _).
  destruct (zw_sc _ _ _ Hz i s t Es Et) as [Hwf Hc]. assert (sc_size s = c) as Hsc by congruence.
  destruct (sc_deallocate_ok m s _ t ptr layout Hwf) as (s' & m' & t' & E & Hone); [lia | done |].
  destruct (one_slot_zone false m m' z ts i s s' t t' ptr Hz Es Et Hone) as (Z1 & Z2 & Z3 & Z4 & Z5).
  exists (set_slab z i s'), m', (<[i := t']> ts). split; [| done].
  unfold zone_deallocate. rewrite Ei, Es. cbn [expect outcome_bind]. rewrite E. done.
Qed.

(** ** A new zone *)

Lemma sc_new_wf (size hid : Z) :
  0 < size <= MAX_ALLOC_SIZE -> exists s, sc_new size = Done s /\ sc_size s = size /\ forall m, sc_wf m s hid (mkPages3 [] [] []).
Proof.
  intros Hs. unfold sc_new. destruct (Z.eqb_spec size 0); [lia |]. eexists. split; [done |]. split; [done |]. intros m.
  assert (list_repr m pl_new []) as Hl by (split; [by split | done | apply NoDup_nil_2]).
  split; [done | done | split; try done; set_solver |]. split; cbn; by intros a ?%not_elem_of_nil.
Qed.

Lemma new_slabs_wf (sizes : list Z) (hid : Z) :
  (forall x, x ∈ sizes -> 0 < x <= MAX_ALLOC_SIZE) ->
  exists l, new_slabs sizes = Done l /\ sc_size <$> l = sizes /\ forall s m, s ∈ l -> sc_wf m s hid (mkPages3 [] [] []).
Proof.
  induction sizes as [| x sizes IH]; intros H.
  - exists []. split; [done |]. split; [done |]. by intros s m ?%not_elem_of_nil.
  - destruct (sc_new_wf x hid) as (s & E & Hs & Hwf); [apply H; by apply elem_of_cons; left |].
    destruct IH as (l & El & Hl & Hwl); [intros y Hy; apply H; by apply elem_of_cons; right |].
    cbn [new_slabs]. rewrite E. cbn [outcome_bind]. rewrite El. cbn. exists (s :: l). split; [done |]. split; [by rewrite fmap_cons, Hs, Hl |].
    intros s' m [-> | Hin]%elem_of_cons; [apply Hwf | by apply Hwl].
Qed.

(** A new zone has no pages and no objects. *)
Lemma zone_new_wf (hid : Z) :
  exists z, zone_new hid = Done z /\ zone_heap_id z = hid /\ forall m, zone_wf m z (replicate MAX_BASE_SIZE_CLASSES (mkPages3 [] [] [])).
Proof.
  destruct (new_slabs_wf BASE_ALLOC_SIZES hid) as (l & El & Hl & Hwl).
  { intros x [i Hi]%list_elem_of_lookup_1. pose proof (class_sizes i x Hi). lia. }
  exists (mkZone hid l). split; [unfold zone_new; change (new_slabs _) with (new_slabs BASE_ALLOC_SIZES); by rewrite El |].
  split; [done |]. intros m. split.
  - cbn. split; [by rewrite <- (length_fmap sc_size), Hl | done].
  - cbn [small_slabs zone_heap_id]. intros i s t Ei [-> _]%lookup_replicate_1. split; [apply Hwl; by eapply list_elem_of_lookup_2 |].
    by rewrite <- Hl, list_lookup_fmap, Ei.
  - intros i j t t' _ [-> _]%lookup_replicate_1 [-> _]%lookup_replicate_1. by intros x ?%not_elem_of_nil.
Qed.

End SlabZone.
