(* ===== verification/Heaps.v ===== *)
(** * The kernel heap

    Models kernel/block_allocator/src/lib.rs (the fixed-size block allocator the system
    starts with), kernel/multiple_heaps/src/lib.rs (a [ZoneAllocator] per CPU, and the large
    allocations) and kernel/heap/src/lib.rs (the global allocator that switches from the one
    to the other).

    The linked-list allocator the block allocator falls back to is a parameter
    ([FallbackHeap]).  Pages are allocated and mapped through [KernelMemory] and
    [HeapPages]; what the deferred page-allocator actions allocate from the heap themselves is
    not modelled.  The heaps are those of the default configuration: neither [safe_heap] nor
    [unsafe_heap], and large allocations in a tree.  No other task holds a lock. *)

From stdpp Require Import gmap.
From S2P Require Import Prelude MemStructs PageAlloc PteFlags PageTable Files SysState SysMemory Slab.

#[local] Existing Instance x86_arch.

(** ** The fixed-size block allocator *)

(** [linked_list_allocator::Heap]. *)
Class FallbackHeap (F : Type) := {
  fb_empty : F;
  fb_init : F -> Z -> Z -> F;
  allocate_first_fit : F -> Layout -> option Z * F;
  fb_deallocate : F -> Z -> Layout -> F;
}.

Section Blocks.
Context {F : Type} {fh : FallbackHeap F}.

Definition BLOCK_SIZES : list Z := [8; 16; 32; 64; 128; 256; 512; 1024; 2048].

Definition list_index (layout : Layout) : option nat :=
  let required_block_size := Z.max (l_size layout) (l_align layout) in
  find_index (fun s => required_block_size <=? s) BLOCK_SIZES.

(** The nodes of the free lists are in the free blocks: [nodes] is what the first word of a
    block holds. *)
Record FixedSizeBlockAllocator := mkBlocks {
  list_heads : list (option Z);
  fallback_allocator : F;
  nodes : gmap Z (option Z);
}.

Definition blocks_new : FixedSizeBlockAllocator := mkBlocks (replicate (length BLOCK_SIZES) None) fb_empty ∅.

Definition blocks_init (b : FixedSizeBlockAllocator) (heap_start heap_size : Z) : FixedSizeBlockAllocator :=
  mkBlocks (list_heads b) (fb_init (fallback_allocator b) heap_start heap_size) (nodes b).

Definition fallback_alloc (b : FixedSizeBlockAllocator) (layout : Layout) : Z * FixedSizeBlockAllocator :=
  let '(r, f) := allocate_first_fit (fallback_allocator b) layout in
  (match r with Some ptr => ptr | None => 0 end, mkBlocks (list_heads b) f (nodes b)).

Definition blocks_allocate (b : FixedSizeBlockAllocator) (layout : Layout) : outcome (Z * FixedSizeBlockAllocator) :=
  match list_index layout with
  | Some index =>
      let* head := expect (list_heads b !! index) in
      match head with
      | Some node =>
          let* next := expect (nodes b !! node) in
          Done (node, mkBlocks (<[index := next]> (list_heads b)) (fallback_allocator b) (<[node := None]> (nodes b)))
      | None =>
          let* block_size := expect (BLOCK_SIZES !! index) in
          Done (fallback_alloc b (mkLayout block_size block_size))
      end
  | None => Done (fallback_alloc b layout)
  end.

(** A [ListNode] takes the 8 bytes of a pointer. *)
Definition blocks_deallocate (b : FixedSizeBlockAllocator) (ptr : Z) (layout : Layout) : outcome FixedSizeBlockAllocator :=
  match list_index layout with
  | Some index =>
      let* head := expect (list_heads b !! index) in
      let* block_size := expect (BLOCK_SIZES !! index) in
      if negb (8 <=? block_size) then Panic
      else Done (mkBlocks (<[index := Some ptr]> (list_heads b)) (fallback_allocator b) (<[ptr := head]> (nodes b)))
  | None =>
      if ptr =? 0 then Panic
      else Done (mkBlocks (list_heads b) (fb_deallocate (fallback_allocator b) ptr layout) (nodes b))
  end.

End Blocks.
Arguments FixedSizeBlockAllocator F : clear implicits.

(** ** The per-CPU heaps *)

(** The page allocator and the local APICs. [hp_allocate_at] is
    [allocate_pages_by_bytes_deferred] at a virtual address, and the drop of its action. *)
Class HeapPages (W : Type) := {
  hp_allocate_at : W -> Z -> Z -> result AllocatedPages string * W;
  hp_drop_pages : W -> AllocatedPages -> W;
  hp_lapics : W -> list Z;
  hp_current_cpu : W -> Z;
}.

Section MultipleHeaps.
Context {bf : Bitflags} {pgl : PageLayout} {W : Type} {km : KernelMemory W} {drop : DropPages W} {hp : HeapPages W}.

Definition KERNEL_HEAP_INITIAL_SIZE : Z := 64 * 1024 * 1024.
Definition HEAP_FLAGS : Z := bf_from_bits_truncate gen_all (Z.lor (Z.lor gen_new ARCH_VALID) WRITABLE_BIT).
Definition HEAP_MAPPED_PAGES_SIZE_IN_BYTES : Z := SIZE.
Definition HEAP_MAPPED_PAGES_SIZE_IN_PAGES : Z := HEAP_MAPPED_PAGES_SIZE_IN_BYTES / PAGE_SIZE.
Definition EMPTY_PAGES_THRESHOLD : Z := Z.of_nat MAX_BASE_SIZE_CLASSES * 2.
Definition PAGES_PER_SIZE_CLASS : Z := 128.
Definition PER_CORE_HEAP_INITIAL_SIZE_PAGES : Z := Z.of_nat MAX_BASE_SIZE_CLASSES * PAGES_PER_SIZE_CLASS.
Definition HEAP_GROWTH_AMOUNT : nat := 2.

(** [heaps] is the [HashMap] in the order of its iteration; [large_allocations] the tree by
    the start address of a mapping, which is unique, with the address of the box of the
    tree's node. *)
Record MultipleHeaps := mkHeaps {
  heaps : list (Z * ZoneAllocator);
  large_allocations : gmap Z (MappedPages * Z);
  heap_end : Z;
}.

Definition heaps_empty : MultipleHeaps :=
  mkHeaps [] ∅ (addr_new_canonical (ops := virtual_ops) (KERNEL_HEAP_START + KERNEL_HEAP_INITIAL_SIZE)).

Fixpoint heap_get (l : list (Z * ZoneAllocator)) (key : Z) : option ZoneAllocator :=
  match l with
  | [] => None
  | (k, z) :: l => if k =? key then Some z else heap_get l key
  end.

Fixpoint heap_put (l : list (Z * ZoneAllocator)) (key : Z) (z : ZoneAllocator) : list (Z * ZoneAllocator) :=
  match l with
  | [] => [(key, z)]
  | (k, y) :: l => if k =? key then (key, z) :: l else (k, y) :: heap_put l key z
  end.

Definition set_heap (mh : MultipleHeaps) (key : Z) (z : ZoneAllocator) : MultipleHeaps :=
  mkHeaps (heap_put (heaps mh) key z) (large_allocations mh) (heap_end mh).
Definition set_end (mh : MultipleHeaps) (e : Z) : MultipleHeaps := mkHeaps (heaps mh) (large_allocations mh) e.
Definition set_large (mh : MultipleHeaps) (l : gmap Z (MappedPages * Z)) : MultipleHeaps := mkHeaps (heaps mh) l (heap_end mh).

Definition create_heap_mapping (w : W) (starting_address size_in_bytes : Z) : result MappedPages string * W :=
  if negb (get_kernel_mmi_ref w) then (Err "create_heap_mapping(): KERNEL_MMI was not yet initialized!"%string, w)
  else
    match hp_allocate_at w starting_address size_in_bytes with
    | (Err _, w) => (Err "create_heap_mapping(): failed to allocate pages at the starting address"%string, w)
    | (Ok pages, w) =>
        if negb (range_start_address (ops := virtual_ops) (ap_pages pages) mod HEAP_MAPPED_PAGES_SIZE_IN_BYTES =? 0)
        then (Err "multiple_heaps: the allocated pages for the heap wasn't properly aligned"%string, hp_drop_pages w pages)
        else km_map_pages w pages (x86_from_general HEAP_FLAGS)
    end.

(** [create_heap_mapping] and [MappedPages8k::new]. *)
Definition new_heap_page (m : Mem) (w : W) (addr : Z) : result MappedPages8k string * Mem * W :=
  match create_heap_mapping w addr HEAP_MAPPED_PAGES_SIZE_IN_BYTES with
  | (Err e, w) => (Err e, m, w)
  | (Ok mp, w) =>
      match mapped_8k_new m mp with
      | (Err e, m) => (Err e, m, km_unmap w mp)
      | (Ok mp8, m) => (Ok mp8, m, w)
      end
  end.

(** [Layout::from_size_align]. *)
Definition layout_from (size align : Z) : option Layout :=
  if (0 <? align) && (Z.land align (align - 1) =? 0) && (size <=? 2 ^ 63 - align) then Some (mkLayout size align) else None.

(** The pages of one size class: [for _ in 0..mapped_pages_per_size_class]. *)
Fixpoint init_class (n : nat) (size : Z) (z : ZoneAllocator) (addr : Z) (m : Mem) (w : W)
  : outcome (result unit string * ZoneAllocator * Z * Mem * W) :=
  match n with
  | O => Done (Ok tt, z, addr, m, w)
  | S n =>
      let alignment := if size =? MAX_BASE_ALLOC_SIZE then 8 else size in
      match layout_from size alignment with
      | None => Done (Err "Incorrect layout"%string, z, addr, m, w)
      | Some layout =>
          match new_heap_page m w addr with
          | (Err e, m, w) => Done (Err e, z, addr, m, w)
          | (Ok mapping, m, w) =>
              let* (r, z, m) := zone_refill z m layout mapping in
              match r with
              | Err e => Done (Err e, z, addr, m, w)
              | Ok _ => init_class n size z (addr_add (ops := virtual_ops) addr HEAP_MAPPED_PAGES_SIZE_IN_BYTES) m w
              end
          end
      end
  end.

Fixpoint init_classes (sizes : list Z) (n : nat) (z : ZoneAllocator) (addr : Z) (m : Mem) (w : W)
  : outcome (result unit string * ZoneAllocator * Z * Mem * W) :=
  match sizes with
  | [] => Done (Ok tt, z, addr, m, w)
  | size :: sizes =>
      let* (r, z, addr, m, w) := init_class n size z addr m w in
      match r with Err e => Done (Err e, z, addr, m, w) | Ok _ => init_classes sizes n z addr m w end
  end.

Definition init_individual_heap (key : Z) (mh : MultipleHeaps) (m : Mem) (w : W)
  : outcome (result unit string * MultipleHeaps * Mem * W) :=
  let mapped_pages_per_size_class :=
    PER_CORE_HEAP_INITIAL_SIZE_PAGES / (Z.of_nat MAX_BASE_SIZE_CLASSES * HEAP_MAPPED_PAGES_SIZE_IN_PAGES) in
  let* z := zone_new key in
  let* (r, z, addr, m, w) := init_classes BASE_ALLOC_SIZES (Z.to_nat mapped_pages_per_size_class) z (heap_end mh) m w in
  match r with
  | Err e => Done (Err e, mh, m, w)
  | Ok _ =>
      let old := heap_get (heaps mh) key in
      let mh := set_heap (set_end mh addr) key z in
      match old with
      | Some _ => Done (Err "New heap created with a previously used id"%string, mh, m, w)
      | None => Done (Ok tt, mh, m, w)
      end
  end.

Fixpoint init_heaps (keys : list Z) (mh : MultipleHeaps) (m : Mem) (w : W)
  : outcome (result MultipleHeaps string * Mem * W) :=
  match keys with
  | [] => Done (Ok mh, m, w)
  | key :: keys =>
      let* (r, mh, m, w) := init_individual_heap key mh m w in
      match r with Err e => Done (Err e, m, w) | Ok _ => init_heaps keys mh m w end
  end.

Definition initialize_multiple_heaps (m : Mem) (w : W) : outcome (result MultipleHeaps string * Mem * W) :=
  init_heaps (hp_lapics w) heaps_empty m w.

Definition get_key (w : W) : Z := hp_current_cpu w.

(** ** Growing a heap *)

(** (1) A page from the first heap that has more empty pages than the threshold. *)
Fixpoint take_from_heaps (keys : list Z) (mh : MultipleHeaps) (m : Mem)
  : outcome (option MappedPages8k * MultipleHeaps * Mem) :=
  match keys with
  | [] => Done (None, mh, m)
  | key :: keys =>
      let* giving := expect (heap_get (heaps mh) key) in
      let* (r, giving, m) := zone_retrieve_empty_page giving m EMPTY_PAGES_THRESHOLD in
      let mh := set_heap mh key giving in
      match r with
      | Some mp => Done (Some mp, mh, m)
      | None => take_from_heaps keys mh m
      end
  end.

(** [heap_to_grow.lock().refill(layout, mp)]. *)
Definition refill_heap (mh : MultipleHeaps) (m : Mem) (key : Z) (layout : Layout) (mp : MappedPages8k)
  : outcome (result unit string * MultipleHeaps * Mem) :=
  let* z := expect (heap_get (heaps mh) key) in
  let* (r, z, m) := zone_refill z m layout mp in
  Done (r, set_heap mh key z, m).

(** (2) Pages from the kernel, at the end of the heap. *)
Fixpoint grow_from_os (n : nat) (mh : MultipleHeaps) (m : Mem) (w : W) (key : Z) (layout : Layout)
  : outcome (result unit string * MultipleHeaps * Mem * W) :=
  match n with
  | O => Done (Ok tt, mh, m, w)
  | S n =>
      match new_heap_page m w (heap_end mh) with
      | (Err e, m, w) => Done (Err e, mh, m, w)
      | (Ok mp, m, w) =>
          let mh := set_end mh (addr_add (ops := virtual_ops) (heap_end mh) HEAP_MAPPED_PAGES_SIZE_IN_BYTES) in
          let* (r, mh, m) := refill_heap mh m key layout mp in
          match r with
          | Err e => Done (Err e, mh, m, w)
          | Ok _ => grow_from_os n mh m w key layout
          end
      end
  end.

Definition grow_heap (mh : MultipleHeaps) (m : Mem) (w : W) (layout : Layout) (key : Z)
  : outcome (result unit string * MultipleHeaps * Mem * W) :=
  let* (r, mh, m) := take_from_heaps (fst <$> heaps mh) mh m in
  match r with
  | Some mp => let* (r, mh, m) := refill_heap mh m key layout mp in Done (r, mh, m, w)
  | None => grow_from_os HEAP_GROWTH_AMOUNT mh m w key layout
  end.

(** ** [GlobalAlloc for MultipleHeaps] *)

(** An allocation from the heap [key]. *)
Definition heap_allocate (mh : MultipleHeaps) (m : Mem) (key : Z) (layout : Layout)
  : outcome (result Z string * MultipleHeaps * Mem) :=
  let* z := expect (heap_get (heaps mh) key) in
  let* (r, z, m) := zone_allocate z m layout in
  Done (r, set_heap mh key z, m).

(** [alloc] up to [MAX_ALLOC_SIZE]. *)
Definition alloc_small (mh : MultipleHeaps) (m : Mem) (w : W) (layout : Layout)
  : outcome (Z * MultipleHeaps * Mem * W) :=
  let key := get_key w in
  let* (r, mh, m) := heap_allocate mh m key layout in
  match r with
  | Ok ptr => Done (ptr, mh, m, w)
  | Err _ =>
      let* (r, mh, m, w) := grow_heap mh m w layout key in
      match r with
      | Err _ => Done (0, mh, m, w)
      | Ok _ =>
          let* (r, mh, m) := heap_allocate mh m key layout in
          Done (match r with Ok ptr => ptr | Err _ => 0 end, mh, m, w)
      end
  end.

Definition dealloc_small (mh : MultipleHeaps) (m : Mem) (ptr : Z) (layout : Layout) : outcome (MultipleHeaps * Mem) :=
  let page_addr := Z.land ptr (Z.lxor U64_MAX (SIZE - 1)) in
  let* page := get_page m page_addr in
  let id := pg_heap_id page in
  let* z := expect (heap_get (heaps mh) id) in
  let* (r, z, m) := zone_deallocate z m ptr layout in
  let* _ := unwrap r in
  Done (set_heap mh id z, m).

(** The layout of a [LargeAllocation]: its size is asserted to be below [MAX_ALLOC_SIZE]. *)
Variable size_of_large_allocation : Z.
Definition large_layout : Layout := mkLayout size_of_large_allocation 8.

(** The mapping is kept in a box, which is allocated from the heap; when that fails the
    kernel's allocation-error handler panics. *)
Definition allocate_large_object (mh : MultipleHeaps) (m : Mem) (w : W) (layout : Layout)
  : outcome (Z * MultipleHeaps * Mem * W) :=
  match create_mapping w (l_size layout) HEAP_FLAGS with
  | (Err _, w) => Done (0, mh, m, w)
  | (Ok mp, w) =>
      let ptr := mapped_start mp in
      let* (link, mh, m, w) := alloc_small mh m w large_layout in
      if link =? 0 then Panic
      else Done (ptr, set_large mh (<[ptr := (mp, link)]> (large_allocations mh)), m, w)
  end.

Definition deallocate_large_object (mh : MultipleHeaps) (m : Mem) (w : W) (ptr : Z)
  : outcome (MultipleHeaps * Mem * W) :=
  let* (mp, link) := expect (large_allocations mh !! ptr) in
  let mh := set_large mh (delete ptr (large_allocations mh)) in
  let w := km_unmap w mp in
  let* (mh, m) := dealloc_small mh m link large_layout in
  Done (mh, m, w).

Definition mh_alloc (mh : MultipleHeaps) (m : Mem) (w : W) (layout : Layout) : outcome (Z * MultipleHeaps * Mem * W) :=
  if MAX_ALLOC_SIZE <? l_size layout then allocate_large_object mh m w layout else alloc_small mh m w layout.

Definition mh_dealloc (mh : MultipleHeaps) (m : Mem) (w : W) (ptr : Z) (layout : Layout)
  : outcome (MultipleHeaps * Mem * W) :=
  if MAX_ALLOC_SIZE <? l_size layout then deallocate_large_object mh m w ptr
  else let* (mh, m) := dealloc_small mh m ptr layout in Done (mh, m, w).

(** ** The global allocator *)

Context {F : Type} {fh : FallbackHeap F}.

(** [GLOBAL_ALLOCATOR] and [DEFAULT_ALLOCATOR], with the memory and the kernel. *)
Record Heap := mkHeap {
  initial_allocator : FixedSizeBlockAllocator F;
  default_allocator : option MultipleHeaps;
  heap_mem : Mem;
  heap_kernel : W;
}.

Definition INITIAL_HEAP_END_ADDR : Z := KERNEL_HEAP_START + KERNEL_HEAP_INITIAL_SIZE.

Definition set_initial (h : Heap) (b : FixedSizeBlockAllocator F) : Heap :=
  mkHeap b (default_allocator h) (heap_mem h) (heap_kernel h).

Definition init_single_heap (h : Heap) (start_virt_addr size_in_bytes : Z) : Heap :=
  set_initial h (blocks_init (initial_allocator h) start_virt_addr size_in_bytes).

(** [call_once]: the first allocator stays. *)
Definition set_allocator (h : Heap) (mh : MultipleHeaps) : Heap :=
  mkHeap (initial_allocator h) (match default_allocator h with Some a => Some a | None => Some mh end) (heap_mem h) (heap_kernel h).

Definition heap_alloc (h : Heap) (layout : Layout) : outcome (Z * Heap) :=
  match default_allocator h with
  | Some allocator =>
      let* (ptr, mh, m, w) := mh_alloc allocator (heap_mem h) (heap_kernel h) layout in
      Done (ptr, mkHeap (initial_allocator h) (Some mh) m w)
  | None =>
      let* (ptr, b) := blocks_allocate (initial_allocator h) layout in
      Done (ptr, set_initial h b)
  end.

Definition heap_dealloc (h : Heap) (ptr : Z) (layout : Layout) : outcome Heap :=
  if (KERNEL_HEAP_START <=? ptr) && (ptr <? INITIAL_HEAP_END_ADDR) then
    let* b := blocks_deallocate (initial_allocator h) ptr layout in
    Done (set_initial h b)
  else
    let* allocator := expect (default_allocator h) in
    let* (mh, m, w) := mh_dealloc allocator (heap_mem h) (heap_kernel h) ptr layout in
    Done (mkHeap (initial_allocator h) (Some mh) m w).

(** [switch_to_multiple_heaps], less the box of the heaps themselves, which the initial
    allocator holds. *)
Definition switch_to_multiple_heaps (h : Heap) : outcome (result unit string * Heap) :=
  let* (r, m, w) := initialize_multiple_heaps (heap_mem h) (heap_kernel h) in
  let h := mkHeap (initial_allocator h) (default_allocator h) m w in
  match r with
  | Err e => Done (Err e, h)
  | Ok mh => Done (Ok tt, set_allocator h mh)
  end.

End MultipleHeaps.
