(* ===== verification/HeapProps.v ===== *)
(** * The per-CPU heaps' contract

    The zones of the heaps share one memory; no page belongs to two of them, every page
    records the heap it belongs to, and all pages lie below the end of the heap
    ([heaps_wf]).  An object in use is one of a class of a heap ([heap_obj]).

    [alloc_small] hands out an object that overlaps no object in use in any heap, and gives
    the null pointer only when the kernel has no page to give; [dealloc_small] returns an
    object to the heap its page belongs to, whichever CPU calls it. *)

From stdpp Require Import gmap.
From S2P Require Import Prelude MemStructs PageAlloc PteFlags PageTable Files SysState Slab SlabBits SlabList SlabSpec SlabAlloc SlabZone Heaps.

#[local] Existing Instance x86_arch.

(** What the heaps rely on: pages allocated at an address start there, and mapping keeps
    them. *)
Class HeapPagesLaws (W : Type) {km : KernelMemory W} {hp : HeapPages W} := {
  hp_at_law : forall w a n pages w', a mod 4096 = 0 -> hp_allocate_at w a n = (Ok pages, w') ->
    range_start_address (ops := virtual_ops) (ap_pages pages) = a;
  hp_map_law : forall w pages flags mp w', km_map_pages w pages flags = (Ok mp, w') -> mp_pages mp = pages;
}.

Section HeapProps.
Context {bf : Bitflags} {pgl : PageLayout} {W : Type} {km : KernelMemory W} {drop : DropPages W} {hp : HeapPages W}.

(** The kernel heap fills one entry of the top-level page table. *)
Definition KERNEL_HEAP_MAX_SIZE : Z := 2 ^ 39.

(** ** The map of heaps *)

Lemma heap_get_lookup (l : list (Z * ZoneAllocator)) (key : Z) (z : ZoneAllocator) :
  heap_get l key = Some z -> exists i, l !! i = Some (key, z).
Proof.
  induction l as [| [k y] l IH]; cbn; [done |]. destruct (Z.eqb_spec k key) as [-> |].
  - intros [= ->]. by exists 0%nat.
  - intros (i & Hi)%IH. by exists (S i).
Qed.

Lemma heap_lookup_get (l : list (Z * ZoneAllocator)) (i : nat) (key : Z) (z : ZoneAllocator) :
  NoDup (fst <$> l) -> l !! i = Some (key, z) -> heap_get l key = Some z /\ forall z', heap_put l key z' = <[i := (key, z')]> l.
Proof.
  revert i. induction l as [| [k y] l IH]; intros i Hnd Hi; cbn in *; [done |]. apply NoDup_cons in Hnd as [Hk Hnd].
  destruct i as [| i]; cbn in Hi.
  - injection Hi as -> ->. by rewrite Z.eqb_refl.
  - destruct (Z.eqb_spec k key) as [-> |].
    + exfalso. apply Hk. apply list_elem_of_fmap. exists (key, z). split; [done | by eapply list_elem_of_lookup_2].
    + destruct (IH i Hnd Hi) as [-> Hp]. split; [done |]. intros z'. by rewrite Hp.
Qed.

(** ** The invariant *)

Definition heap_page (tss : list (list SCPages)) (x : Z) : Prop := exists i ts, tss !! i = Some ts /\ zone_page ts x.

Record heaps_wf (mh : MultipleHeaps) (m : Mem) (tss : list (list SCPages)) : Prop := {
  hw_keys : NoDup (fst <$> heaps mh);
  hw_len : length tss = length (heaps mh);
  hw_zone : forall i k z ts, heaps mh !! i = Some (k, z) -> tss !! i = Some ts -> zone_wf m z ts /\ zone_heap_id z = k;
  hw_disj : forall i j ts ts' x, i <> j -> tss !! i = Some ts -> tss !! j = Some ts' -> zone_page ts x -> zone_page ts' x -> False;
  hw_below : forall x, heap_page tss x -> x + 8192 <= heap_end mh;
  hw_end : KERNEL_HEAP_START <= heap_end mh /\ heap_end mh mod 8192 = 0;
}.

(** The object at [q] is in use in the class [j] of the [i]-th heap. *)
Definition heap_obj (mh : MultipleHeaps) (m : Mem) (tss : list (list SCPages)) (i j : nat) (q : Z) : Prop :=
  exists k z ts, heaps mh !! i = Some (k, z) /\ tss !! i = Some ts /\ zone_obj m z ts j q.

Lemma zone_wf_same (m m' : Mem) (z : ZoneAllocator) (ts : list SCPages) :
  (forall x, zone_page ts x -> m' !! x = m !! x) -> zone_wf m z ts -> zone_wf m' z ts.
Proof.
  intros H [H1 H2 H3]. split; [done | | done]. intros i s t Es Et. destruct (H2 i s t Es Et) as [Hw Hc]. split; [| done].
  apply (sc_wf_same m); [| done]. intros x Hx. apply H. by exists i, t.
Qed.

Lemma zone_obj_same (m m' : Mem) (z : ZoneAllocator) (ts : list SCPages) (j : nat) (q : Z) :
  (forall x, zone_page ts x -> m' !! x = m !! x) -> zone_obj m' z ts j q <-> zone_obj m z ts j q.
Proof.
  intros H. unfold zone_obj. split; intros (s & t & Es & Et & Ha); exists s, t; (split; [done |]; split; [done |]);
    apply (sc_allocated_same m m' s t q); try done; intros x Hx; apply H; by exists j, t.
Qed.

(** The heap at index [i] changes. *)
Lemma heaps_update (mh : MultipleHeaps) (m m' : Mem) (tss : list (list SCPages)) (i : nat) (k : Z) (z z' : ZoneAllocator) (ts ts' : list SCPages) (new : list Z) :
  heaps_wf mh m tss -> heaps mh !! i = Some (k, z) -> tss !! i = Some ts ->
  zone_wf m' z' ts' -> zone_heap_id z' = zone_heap_id z ->
  (forall x, zone_page ts' x -> zone_page ts x \/ x ∈ new) ->
  (forall x, x ∈ new -> ~ heap_page tss x /\ x + 8192 <= heap_end mh) ->
  (forall x, ~ zone_page ts x -> x ∉ new -> m' !! x = m !! x) ->
  heaps_wf (set_heap mh k z') m' (<[i := ts']> tss) /\
  forall i' j q, heap_obj (set_heap mh k z') m' (<[i := ts']> tss) i' j q <->
    if decide (i' = i) then zone_obj m' z' ts' j q else heap_obj mh m tss i' j q.
Proof.
  intros Hw Ei Et Hz Hid Hp Hnew Hfr. destruct (heap_lookup_get _ i k z (hw_keys _ _ _ Hw) Ei) as [_ Hput].
  apply lookup_lt_Some in Ei as Hlt. apply lookup_lt_Some in Et as Hlt'. destruct (hw_zone _ _ _ Hw i k z ts Ei Et) as [Hz0 Hk].
  assert (forall j ts0 x, j <> i -> tss !! j = Some ts0 -> zone_page ts0 x -> m' !! x = m !! x) as Hsame.
  { intros j ts0 x Hj Ej Hx. apply Hfr; [| intros Hn; apply (proj1 (Hnew x Hn)); by exists j, ts0].
    intros Hx'. by apply (hw_disj _ _ _ Hw i j ts ts0 x). }
  assert (forall j ts0 x, j <> i -> tss !! j = Some ts0 -> zone_page ts' x -> zone_page ts0 x -> False) as Hdis.
  { intros j ts0 x Hj Ej Hx Hx'. destruct (Hp x Hx) as [Hx2 | Hx2]; [by apply (hw_disj _ _ _ Hw i j ts ts0 x) |].
    apply (proj1 (Hnew x Hx2)). by exists j, ts0. }
  split; [split |]; cbn; rewrite ?Hput.
  - rewrite list_fmap_insert. cbn. rewrite list_insert_id; [apply (hw_keys _ _ _ Hw) |]. by rewrite list_lookup_fmap, Ei.
  - rewrite !length_insert. apply (hw_len _ _ _ Hw).
  - intros j k0 z0 ts0 Ej Ej'. destruct (decide (j = i)) as [-> | Hj].
    + rewrite list_lookup_insert_eq in Ej by done. rewrite list_lookup_insert_eq in Ej' by done. simplify_eq. split; [done | congruence].
    + rewrite list_lookup_insert_ne in Ej by done. rewrite list_lookup_insert_ne in Ej' by done.
      destruct (hw_zone _ _ _ Hw j k0 z0 ts0 Ej Ej') as [Hz1 Hk1]. split; [| done]. apply (zone_wf_same m); [| done].
      intros x. by apply (Hsame j ts0).
  - intros j l t1 t2 x Hjl Ej El Hx1 Hx2. destruct (decide (j = i)) as [-> | Hj], (decide (l = i)) as [-> | Hl]; [done | ..];
      rewrite ?list_lookup_insert_eq in * by done; rewrite ?list_lookup_insert_ne in * by done; simplify_eq.
    + by apply (Hdis l t2 x).
    + by apply (Hdis j t1 x).
    + by apply (hw_disj _ _ _ Hw j l t1 t2 x).
  - intros x (j & ts0 & Ej & Hx). destruct (decide (j = i)) as [-> | Hj].
    + rewrite list_lookup_insert_eq in Ej by done. injection Ej as <-. destruct (Hp x Hx) as [Hx' | Hx']; [| by apply Hnew].
      apply (hw_below _ _ _ Hw). by exists i, ts.
    + rewrite list_lookup_insert_ne in Ej by done. apply (hw_below _ _ _ Hw). by exists j, ts0.
  - apply (hw_end _ _ _ Hw).
  - intros i' j q. unfold heap_obj. cbn. rewrite Hput. destruct (decide (i' = i)) as [-> | Hj].
    + rewrite list_lookup_insert_eq by done. rewrite list_lookup_insert_eq by done.
      split; [by intros (k0 & z0 & ts0 & [= <- <-] & [= <-] & ?) | intros ?; by exists k, z', ts'].
    + rewrite list_lookup_insert_ne by done. rewrite list_lookup_insert_ne by done.
      split; intros (k0 & z0 & ts0 & Ej & Ej' & Ha); exists k0, z0, ts0; (split; [done |]; split; [done |]);
        apply (zone_obj_same m m' z0 ts0 j q (fun x => Hsame i' ts0 x Hj Ej')); done.
Qed.

Lemma set_heap_id (mh : MultipleHeaps) (i : nat) (k : Z) (z : ZoneAllocator) :
  NoDup (fst <$> heaps mh) -> heaps mh !! i = Some (k, z) -> set_heap mh k z = mh.
Proof.
  intros Hnd Ei. destruct (heap_lookup_get _ i k z Hnd Ei) as [_ Hput]. unfold set_heap. rewrite Hput, list_insert_id by done. by destruct mh.
Qed.

Lemma set_heap_keys (mh : MultipleHeaps) (i : nat) (k : Z) (z z' : ZoneAllocator) :
  NoDup (fst <$> heaps mh) -> heaps mh !! i = Some (k, z) -> fst <$> heaps (set_heap mh k z') = fst <$> heaps mh.
Proof.
  intros Hnd Ei. destruct (heap_lookup_get _ i k z Hnd Ei) as [_ Hput]. cbn. rewrite Hput, list_fmap_insert. cbn.
  apply list_insert_id. by rewrite list_lookup_fmap, Ei.
Qed.

Lemma sum_of_member {A} (w : A -> Z) (l : list A) (x : A) : (forall y, y ∈ l -> 0 <= w y) -> x ∈ l -> w x <= sum_of w l.
Proof using Type.
  induction l as [| y l IH]; intros Hn Hx; [by apply not_elem_of_nil in Hx |]. cbn.
  assert (0 <= w y) by (apply Hn; by apply elem_of_cons; left).
  apply elem_of_cons in Hx as [-> | Hx].
  - enough (0 <= sum_of w l) by lia. assert (forall y', y' ∈ l -> 0 <= w y') as Hl by (intros y' Hy; apply Hn; by apply elem_of_cons; right).
    clear - Hl. induction l as [| z l IH]; cbn; [lia |]. pose proof (Hl z ltac:(by apply elem_of_cons; left)).
    enough (0 <= sum_of w l) by lia. apply IH. intros y Hy. apply Hl. by apply elem_of_cons; right.
  - enough (w x <= sum_of w l) by lia. apply IH; [| done]. intros y' Hy. apply Hn. by apply elem_of_cons; right.
Qed.

(** ** Objects and pages *)

Lemma zone_obj_page (m : Mem) (z : ZoneAllocator) (ts : list SCPages) (j : nat) (c q : Z) :
  zone_wf m z ts -> zone_obj m z ts j q -> BASE_ALLOC_SIZES !! j = Some c ->
  exists a x opp, zone_page ts a /\ q = a + x /\ 0 <= x /\ x + c <= 8104 /\ page_ok m opp (zone_heap_id z) a.
Proof.
  intros Hz (s & t & Es & Et & a & i & Ha & Hi & -> & _) Ec. destruct (zw_sc _ _ _ Hz j s t Es Et) as [Hwf Hc].
  exists a, (i * sc_size s), (obj_per_page s). assert (sc_size s = c) as <- by congruence.
  pose proof (slot_in_data _ _ _ _ _ Hwf Hi). pose proof buffer_bounds. pose proof (wf_size _ _ _ _ Hwf).
  split; [by exists j, t |]. split; [done |]. split; [nia |]. split; [lia |]. apply (do_page _ _ _ _ (wf_data _ _ _ _ Hwf)). done.
Qed.

(** Two objects in use do not overlap, whichever heaps they are in. *)
Lemma heap_objs_disjoint (mh : MultipleHeaps) (m : Mem) (tss : list (list SCPages)) (i i' j j' : nat) (c d q r : Z) :
  heaps_wf mh m tss -> heap_obj mh m tss i j q -> heap_obj mh m tss i' j' r ->
  BASE_ALLOC_SIZES !! j = Some c -> BASE_ALLOC_SIZES !! j' = Some d -> (i, j, q) <> (i', j', r) -> q + c <= r \/ r + d <= q.
Proof.
  intros Hw (k & z & ts & Ez & Et & Ho) (k' & z' & ts' & Ez' & Et' & Ho') Ec Ed Hne.
  destruct (hw_zone _ _ _ Hw i k z ts Ez Et) as [Hz _], (hw_zone _ _ _ Hw i' k' z' ts' Ez' Et') as [Hz' _].
  destruct (decide (i = i')) as [<- | Hii].
  - simplify_eq. apply (zone_objs_disjoint m z ts j j'); try done. intros [= -> ->]. done.
  - destruct (zone_obj_page m z ts j c q Hz Ho Ec) as (a & x & opp & Pa & -> & Hx & Hxc & Ka).
    destruct (zone_obj_page m z' ts' j' d r Hz' Ho' Ed) as (b & y & opp' & Pb & -> & Hy & Hyd & Kb).
    assert (a <> b) as Hab by (intros ->; by apply (hw_disj _ _ _ Hw i i' ts ts' b)).
    pose proof (po_align _ _ _ _ Ka) as [u ->]%Z.mod_divide; [| lia]. pose proof (po_align _ _ _ _ Kb) as [v ->]%Z.mod_divide; [| lia]. lia.
Qed.

(** ** Allocating from one heap *)

Record heap_takes (mh : MultipleHeaps) (m : Mem) (tss : list (list SCPages)) (mh' : MultipleHeaps) (m' : Mem) (tss' : list (list SCPages))
    (i j : nat) (c ptr : Z) : Prop := {
  ht_wf : heaps_wf mh' m' tss';
  ht_keys : fst <$> heaps mh' = fst <$> heaps mh;
  ht_apart : forall i' j' d q, heap_obj mh m tss i' j' q -> BASE_ALLOC_SIZES !! j' = Some d -> ptr + c <= q \/ q + d <= ptr;
  ht_objs : forall i' j' q, heap_obj mh' m' tss' i' j' q <-> heap_obj mh m tss i' j' q \/ (i' = i /\ j' = j /\ q = ptr);
}.

Lemma heap_index (mh : MultipleHeaps) (m : Mem) (tss : list (list SCPages)) (key : Z) (z : ZoneAllocator) :
  heaps_wf mh m tss -> heap_get (heaps mh) key = Some z ->
  exists i ts, heaps mh !! i = Some (key, z) /\ tss !! i = Some ts /\ zone_wf m z ts /\ zone_heap_id z = key.
Proof.
  intros Hw (i & Ei)%heap_get_lookup. apply lookup_lt_Some in Ei as Hlt.
  destruct (lookup_lt_is_Some_2 tss i) as [ts Et]; [rewrite (hw_len _ _ _ Hw); done |].
  destruct (hw_zone _ _ _ Hw i key z ts Ei Et) as [Hz Hk]. by exists i, ts.
Qed.

Lemma heap_obj_zone (mh : MultipleHeaps) (m : Mem) (tss : list (list SCPages)) (i : nat) (k : Z) (z : ZoneAllocator) (ts : list SCPages) (j : nat) (q : Z) :
  heaps mh !! i = Some (k, z) -> tss !! i = Some ts -> heap_obj mh m tss i j q <-> zone_obj m z ts j q.
Proof.
  intros Ei Et. split; [intros (k0 & z0 & ts0 & E1 & E2 & H); by simplify_eq | intros H; by exists k, z, ts].
Qed.

Section Request.
Variables (layout : Layout) (j : nat) (c : Z).
Hypothesis Hslab : get_slab (l_size layout) = Base j.
Hypothesis Hclass : BASE_ALLOC_SIZES !! j = Some c.
Hypothesis Hsize : 0 <= l_size layout.
Hypothesis Halign : 0 < l_align layout.
Hypothesis Halign8 : (l_align layout | 8192).

Lemma heap_allocate_ok (mh : MultipleHeaps) (m : Mem) (tss : list (list SCPages)) (i : nat) (key : Z) (z : ZoneAllocator) (ts : list SCPages) :
  heaps_wf mh m tss -> heaps mh !! i = Some (key, z) -> tss !! i = Some ts ->
  (exists ptr mh' m' tss', heap_allocate mh m key layout = Done (Ok ptr, mh', m') /\ heap_takes mh m tss mh' m' tss' i j c ptr /\
     ptr mod l_align layout = 0) \/
  (exists e, heap_allocate mh m key layout = Done (Err e, mh, m) /\ empty_pages z <= 0).
Proof using Hslab Hclass Hsize Halign Halign8.
  intros Hw Ei Et. destruct (heap_lookup_get _ i key z (hw_keys _ _ _ Hw) Ei) as [Eg _].
  destruct (hw_zone _ _ _ Hw i key z ts Ei Et) as [Hz Hk]. unfold heap_allocate. rewrite Eg. cbn [expect outcome_bind].
  destruct (zone_allocate_ok m z ts layout j c Hz Hslab Hclass Hsize Halign Halign8)
    as [(ptr & z' & m' & ts' & E & [T1 T2 T3 T4 T5 T6] & Hma) | (e & E & He & _)]; rewrite E; cbn [outcome_bind].
  2: { right. exists e. split; [| done]. by rewrite (set_heap_id mh i key z (hw_keys _ _ _ Hw) Ei). }
  left. destruct (heaps_update mh m m' tss i key z z' ts ts' [] Hw Ei Et T1 T2) as [Hw' Hobj].
  { intros x Hx. left. by apply T3. }
  { by intros x ?%not_elem_of_nil. }
  { intros x Hx _. by apply T4. }
  exists ptr, (set_heap mh key z'), m', (<[i := ts']> tss). split; [done |]. split; [| done].
  assert (forall i' j' q, heap_obj (set_heap mh key z') m' (<[i:=ts']> tss) i' j' q <->
    heap_obj mh m tss i' j' q \/ (i' = i /\ j' = j /\ q = ptr)) as Hobj'.
  { intros i' j' q. rewrite Hobj. destruct (decide (i' = i)) as [-> |]; [| tauto]. specialize (T6 j' q).
    pose proof (heap_obj_zone mh m tss i key z ts j' q Ei Et). tauto. }
  split; [done | apply (set_heap_keys mh i key z z' (hw_keys _ _ _ Hw) Ei) | | done].
  intros i' j' d q Hq Ed. apply (heap_objs_disjoint _ _ _ i i' j j' c d ptr q Hw'); try done; [apply Hobj'; by right | apply Hobj'; by left |].
  intros [= -> -> ->]. destruct Hq as (k0 & z0 & ts0 & E1 & E2 & Hq). simplify_eq. pose proof (class_sizes j' c Hclass).
  destruct (T5 j' c q Hq Hclass); lia.
Qed.

(** ** Moving pages *)

(** The page at [a] has left the heaps, or joined them. *)
Record heaps_moved (mh : MultipleHeaps) (m : Mem) (tss : list (list SCPages)) (mh' : MultipleHeaps) (m' : Mem) (tss' : list (list SCPages)) : Prop := {
  hm_wf : heaps_wf mh' m' tss';
  hm_keys : fst <$> heaps mh' = fst <$> heaps mh;
  hm_end : heap_end mh' = heap_end mh;
  hm_objs : forall i j q, heap_obj mh' m' tss' i j q <-> heap_obj mh m tss i j q;
}.

Lemma zone_page_heap (tss : list (list SCPages)) (i : nat) (ts' : list SCPages) (x : Z) :
  (i < length tss)%nat -> heap_page (<[i := ts']> tss) x -> zone_page ts' x \/ exists i' ts, i' <> i /\ tss !! i' = Some ts /\ zone_page ts x.
Proof using Type.
  intros Hlt (i' & ts & E & Hx). destruct (decide (i' = i)) as [-> | Hne].
  - rewrite list_lookup_insert_eq in E by done. injection E as <-. by left.
  - rewrite list_lookup_insert_ne in E by done. right. by exists i', ts.
Qed.

Lemma take_from_heaps_ok (keys : list Z) (mh : MultipleHeaps) (m : Mem) (tss : list (list SCPages)) :
  heaps_wf mh m tss -> (forall k, k ∈ keys -> is_Some (heap_get (heaps mh) k)) ->
  take_from_heaps keys mh m = Done (None, mh, m) \/
  exists mp mh' m' tss', take_from_heaps keys mh m = Done (Some mp, mh', m') /\ heaps_moved mh m tss mh' m' tss' /\
    let a := mp8k_start_address mp in
    ~ heap_page tss' a /\ a mod 8192 = 0 /\ 0 < a /\ a + 8192 <= 2 ^ 64 /\ a + 8192 <= heap_end mh.
Proof using Type.
  intros Hw. induction keys as [| key keys IH]; intros Hk; cbn [take_from_heaps]; [by left |].
  destruct (Hk key) as [z Eg]; [by apply elem_of_cons; left |]. rewrite Eg. cbn [expect outcome_bind].
  destruct (heap_index mh m tss key z Hw Eg) as (i & ts & Ei & Et & Hz & Hid).
  destruct (zone_retrieve_ok m z ts EMPTY_PAGES_THRESHOLD Hz) as [[E _] | (mp & z' & m' & ts' & E & [O1 O2 O3 O4 (R1 & R2 & R3) O6 O7])];
    [done | |]; rewrite E; cbn [outcome_bind].
  - rewrite (set_heap_id mh i key z (hw_keys _ _ _ Hw) Ei). apply IH. intros k Hin. apply Hk. by apply elem_of_cons; right.
  - right. destruct (heaps_update mh m m' tss i key z z' ts ts' [] Hw Ei Et O1 O2) as [Hw' Hobj].
    { intros x Hx. left. apply O4. done. }
    { by intros x ?%not_elem_of_nil. }
    { intros x Hx _. by apply O6. }
    exists mp, (set_heap mh key z'), m', (<[i := ts']> tss). split; [done |]. split.
    { split; [done | apply (set_heap_keys mh i key z z' (hw_keys _ _ _ Hw) Ei) | done |].
      intros i' j' q. rewrite Hobj. destruct (decide (i' = i)) as [-> |]; [| done]. by rewrite O7, (heap_obj_zone mh m tss i key z ts). }
    cbn zeta. split; [| split_and!; try done; apply (hw_below _ _ _ Hw); by exists i, ts].
    intros [Hx | (i' & ts0 & Hne & E0 & Hx)]%zone_page_heap; [| | by apply lookup_lt_Some in Et].
    + apply O4 in Hx as [_ Hx]. done.
    + by apply (hw_disj _ _ _ Hw i' i ts0 ts (mp8k_start_address mp)).
Qed.

Lemma refill_heap_ok (mh : MultipleHeaps) (m : Mem) (tss : list (list SCPages)) (i : nat) (key : Z) (z : ZoneAllocator) (mp : MappedPages8k) :
  let a := mp8k_start_address mp in
  heaps_wf mh m tss -> heaps mh !! i = Some (key, z) ->
  ~ heap_page tss a -> a mod 8192 = 0 -> 0 < a -> a + 8192 <= 2 ^ 64 -> a + 8192 <= heap_end mh ->
  exists mh' m' tss' z', refill_heap mh m key layout mp = Done (Ok tt, mh', m') /\ heaps_moved mh m tss mh' m' tss' /\
    heaps mh' !! i = Some (key, z') /\ 0 < empty_pages z'.
Proof using Hslab.
  intros a Hw Ei Hni Ha Hpos Hr He. destruct (heap_lookup_get _ i key z (hw_keys _ _ _ Hw) Ei) as [Eg Hput].
  apply lookup_lt_Some in Ei as Hlt. destruct (lookup_lt_is_Some_2 tss i) as [ts Et]; [by rewrite (hw_len _ _ _ Hw) |].
  destruct (hw_zone _ _ _ Hw i key z ts Ei Et) as [Hz Hk]. unfold refill_heap. rewrite Eg. cbn [expect outcome_bind].
  destruct (zone_refill_ok m z ts layout mp j Hz Hslab Ha Hpos Hr) as (z' & m' & ts' & E & [I1 I2 I3 I4 I5] & t & Etj & Hne).
  { intros Hin. apply Hni. by exists i, ts. }
  rewrite E. cbn [outcome_bind]. destruct (heaps_update mh m m' tss i key z z' ts ts' [a] Hw Ei Et I1 I2) as [Hw' Hobj].
  { intros x [Hx | Hx]%I3; [by left | right; by apply list_elem_of_singleton]. }
  { intros x ->%list_elem_of_singleton. done. }
  { intros x Hx Hx'. apply I4; [done |]. intros ->. by apply Hx', list_elem_of_singleton. }
  exists (set_heap mh key z'), m', (<[i := ts']> tss), z'. split; [done |]. split; [| split].
  - split; [done | apply (set_heap_keys mh i key z z' (hw_keys _ _ _ Hw) Ei) | done |].
    intros i' j' q. rewrite Hobj. destruct (decide (i' = i)) as [-> |]; [| done]. by rewrite I5, (heap_obj_zone mh m tss i key z ts).
  - cbn. rewrite Hput. by rewrite list_lookup_insert_eq.
  - destruct (empty_pages_eq m' z' ts' I1) as [-> Hnn]. destruct (zw_len _ _ _ I1) as [L1 L2].
    apply lookup_lt_Some in Etj as Hj. destruct (lookup_lt_is_Some_2 (small_slabs z') j) as [s Es]; [lia |].
    destruct (zw_sc _ _ _ I1 j s t Es Etj) as [Hwf _]. destruct (pages_bound _ _ _ _ Hwf) as [Hel _].
    pose proof (sum_of_member (fun s => elements (empty_slabs s)) (small_slabs z') s Hnn (list_elem_of_lookup_2 _ _ _ Es)) as Hsum.
    cbn in Hsum. rewrite Hel in Hsum. destruct (l_e t); [done | cbn in Hsum; lia].
Qed.

(** ** Pages from the kernel *)

Context {laws : HeapPagesLaws W}.

Lemma end_add (a : Z) :
  KERNEL_HEAP_START <= a -> a + 8192 <= KERNEL_HEAP_START + KERNEL_HEAP_MAX_SIZE ->
  addr_add (ops := virtual_ops) a 8192 = a + 8192 /\ a + 8192 < 2 ^ 64.
Proof using Type.
  change KERNEL_HEAP_START with 18446742424442109952. unfold KERNEL_HEAP_MAX_SIZE. intros H1 H2. split; [| lia].
  unfold addr_add, addr_new_canonical, sat_add. rewrite Z.min_r by (unfold U64_MAX; lia).
  apply canonicalize_id; [unfold in_u64, U64_MAX; lia |]. apply is_canonical_virtual_iff; [unfold in_u64, U64_MAX; lia |]. right. lia.
Qed.

Lemma new_heap_page_ok (m m' : Mem) (w w' : W) (addr : Z) (mp : MappedPages8k) :
  addr mod 8192 = 0 -> new_heap_page m w addr = (Ok mp, m', w') ->
  mp8k_start_address mp = addr /\ forall x, x <> addr -> m' !! x = m !! x.
Proof using laws.
  intros Ha. unfold new_heap_page, create_heap_mapping. destruct (get_kernel_mmi_ref w); cbn [negb]; [| done].
  destruct (hp_allocate_at w addr HEAP_MAPPED_PAGES_SIZE_IN_BYTES) as [[pages | e] w1] eqn:Ea; [| done].
  destruct (negb _); [done |]. destruct (km_map_pages w1 pages _) as [[mp0 | e] w2] eqn:Em; [| done].
  assert (mapped_start mp0 = addr) as Hst.
  { unfold mapped_start. rewrite (hp_map_law _ _ _ _ _ Em). eapply hp_at_law; [| exact Ea].
    apply Z.mod_divide in Ha as [u ->]; [| lia]. apply Z.mod_divide; [lia |]. exists (u * 2). lia. }
  unfold mapped_8k_new. rewrite Hst. destruct (negb (addr mod SIZE =? 0)); [done |]. destruct (negb _); [done |]. destruct (negb _); [done |].
  intros [= <- <- <-]. split; [done |]. intros x Hx. by apply lookup_alter_ne.
Qed.

Lemma heaps_wf_same (mh : MultipleHeaps) (m m' : Mem) (tss : list (list SCPages)) (e : Z) :
  (forall x, heap_page tss x -> m' !! x = m !! x) -> heap_end mh <= e -> e mod 8192 = 0 -> heaps_wf mh m tss ->
  heaps_wf (set_end mh e) m' tss /\ forall i j q, heap_obj (set_end mh e) m' tss i j q <-> heap_obj mh m tss i j q.
Proof using Type.
  intros Hs He Hm [W1 W2 W3 W4 W5 [W6 W7]]. split; [split; cbn; try done; try lia |].
  - intros i k z ts Ei Et. destruct (W3 i k z ts Ei Et) as [Hz Hk]. split; [| done]. apply (zone_wf_same m); [| done].
    intros x Hx. apply Hs. by exists i, ts.
  - intros x Hx. specialize (W5 x Hx). lia.
  - intros i j' q. unfold heap_obj. cbn. split; intros (k & z & ts & Ei & Et & Ho); exists k, z, ts; (split; [done |]; split; [done |]);
      apply (zone_obj_same m m' z ts j' q); try done; intros x Hx; apply Hs; by exists i, ts.
Qed.

(** In the state [w] the kernel has the 8 KiB of pages at [addr], and maps them writable;
    [w'] is the state afterwards. *)
Definition page_given (w : W) (addr : Z) (w' : W) : Prop :=
  get_kernel_mmi_ref w = true /\
  exists pages w1 mp, hp_allocate_at w addr 8192 = (Ok pages, w1) /\
    km_map_pages w1 pages (x86_from_general HEAP_FLAGS) = (Ok mp, w') /\
    x86_is_writable (mp_flags mp) = true /\ mapped_size_in_bytes mp = 8192.

(** The kernel gives [n] such pages in a row, from [addr] on. *)
Fixpoint pages_given (n : nat) (w : W) (addr : Z) (w' : W) : Prop :=
  match n with
  | O => w' = w
  | S n => exists w1, page_given w addr w1 /\ pages_given n w1 (addr + 8192) w'
  end.

Lemma page_given_fun (w : W) (addr : Z) (w1 w2 : W) : page_given w addr w1 -> page_given w addr w2 -> w1 = w2.
Proof using Type. intros (_ & p & wa & mp & E1 & E2 & _) (_ & p' & wa' & mp' & E1' & E2' & _). rewrite E1 in E1'. simplify_eq. rewrite E2 in E2'. by simplify_eq. Qed.

Lemma pages_given_fun (n : nat) (w : W) (addr : Z) (w1 w2 : W) : pages_given n w addr w1 -> pages_given n w addr w2 -> w1 = w2.
Proof using Type.
  revert w addr. induction n as [| n IH]; cbn; [by intros w addr -> -> |].
  intros w addr (wa & Ha & Hb) (wb & Ha' & Hb'). pose proof (page_given_fun _ _ _ _ Ha Ha') as <-. by apply (IH wa (addr + 8192)).
Qed.

Lemma pages_given_app (n k : nat) (w : W) (addr : Z) (w' : W) :
  pages_given (n + k) w addr w' <-> exists w1, pages_given n w addr w1 /\ pages_given k w1 (addr + Z.of_nat n * 8192) w'.
Proof using Type.
  revert w addr. induction n as [| n IH]; intros w addr; cbn [pages_given Nat.add].
  { rewrite Z.add_0_r. split; [intros H; by exists w | by intros (w1 & -> & H)]. }
  replace (addr + Z.of_nat (S n) * 8192) with (addr + 8192 + Z.of_nat n * 8192) by lia. split.
  - intros (w1 & Hw & (w2 & H1 & H2)%IH). exists w2. split; [| done]. by exists w1.
  - intros (w2 & (w1 & Hw & H1) & H2). exists w1. split; [done |]. apply IH. by exists w2.
Qed.

(** A new page is exactly one the kernel gives. *)
Lemma new_heap_page_given (m : Mem) (w : W) (addr : Z) :
  addr mod 8192 = 0 ->
  match new_heap_page m w addr with
  | (Ok _, _, w') => page_given w addr w'
  | (Err _, m', _) => m' = m /\ forall w', ~ page_given w addr w'
  end.
Proof using laws.
  intros Ha. unfold new_heap_page, create_heap_mapping, page_given. change HEAP_MAPPED_PAGES_SIZE_IN_BYTES with 8192.
  destruct (get_kernel_mmi_ref w); cbn [negb]; [| split; [done |]; by intros w' [? _]].
  destruct (hp_allocate_at w addr 8192) as [[pages | e] w1] eqn:Ea; [| split; [done |]; by intros w' (_ & p & wa & mp & E & _)].
  assert (range_start_address (ops := virtual_ops) (ap_pages pages) = addr) as Hst.
  { eapply hp_at_law; [| exact Ea]. apply Z.mod_divide in Ha as [u ->]; [| lia]. apply Z.mod_divide; [lia |]. exists (u * 2). lia. }
  rewrite Hst, Ha. change (0 =? 0) with true; cbn [negb].
  destruct (km_map_pages w1 pages _) as [[mp | e] w2] eqn:Em; [| split; [done |]; intros w' (_ & p & wa & mp & E & E' & _); simplify_eq; by rewrite Em in E'].
  unfold mapped_8k_new. replace (mapped_start mp) with addr by (unfold mapped_start; by rewrite (hp_map_law _ _ _ _ _ Em)).
  change SIZE with 8192. rewrite Ha. change (0 =? 0) with true; cbn [negb].
  destruct (x86_is_writable (mp_flags mp)) eqn:Ew; cbn [negb]; [| split; [done |]; intros w' (_ & p & wa & mp' & E & E' & Ew' & _); simplify_eq; rewrite Em in E'; simplify_eq; congruence].
  destruct (Z.eqb_spec 8192 (mapped_size_in_bytes mp)) as [Es | Es]; cbn [negb].
  2: { split; [done |]. intros w' (_ & p & wa & mp' & E & E' & _ & Es'). simplify_eq. rewrite Em in E'. by simplify_eq. }
  split; [done |]. exists pages, w1, mp. done.
Qed.

Record grown (n : nat) (w : W) (mh : MultipleHeaps) (m : Mem) (tss : list (list SCPages)) (i : nat) (key : Z) (r : result unit string)
    (mh' : MultipleHeaps) (m' : Mem) (tss' : list (list SCPages)) : Prop := {
  gr_wf : heaps_wf mh' m' tss';
  gr_keys : fst <$> heaps mh' = fst <$> heaps mh;
  gr_objs : forall i j q, heap_obj mh' m' tss' i j q <-> heap_obj mh m tss i j q;
  gr_room : match r with
            | Ok _ => exists z', heaps mh' !! i = Some (key, z') /\ 0 < empty_pages z'
            | Err _ => forall w', ~ pages_given n w (heap_end mh) w'
            end;
}.

Lemma grow_from_os_ok (n : nat) (mh : MultipleHeaps) (m : Mem) (w : W) (tss : list (list SCPages)) (i : nat) (key : Z) (z : ZoneAllocator) :
  heaps_wf mh m tss -> heaps mh !! i = Some (key, z) -> (0 < empty_pages z \/ (0 < n)%nat) ->
  heap_end mh + Z.of_nat n * 8192 <= KERNEL_HEAP_START + KERNEL_HEAP_MAX_SIZE ->
  exists r mh' m' w' tss', grow_from_os n mh m w key layout = Done (r, mh', m', w') /\ grown n w mh m tss i key r mh' m' tss'.
Proof using Hslab laws.
  revert mh m w tss z. induction n as [| n IH]; intros mh m w tss z Hw Ei Hn Hroom; cbn [grow_from_os].
  { exists (Ok tt), mh, m, w, tss. split; [done |]. split; [done | done | done |]. exists z. split; [done |]. destruct Hn; [done | lia]. }
  destruct (hw_end _ _ _ Hw) as [He1 He2]. pose proof (new_heap_page_given m w (heap_end mh) He2) as Hg.
  destruct (new_heap_page m w (heap_end mh)) as [[[mp | e] m1] w1] eqn:En.
  2: { destruct Hg as [-> Hno]. exists (Err e), mh, m, w1, tss. split; [done |]. split; try done.
       intros w' (w2 & Hg & _). by apply (Hno w2). }
  destruct (new_heap_page_ok m m1 w w1 (heap_end mh) mp He2 En) as [Hst Hfr].
  destruct (end_add (heap_end mh) He1) as [Hadd Hlt64]; [lia |]. change HEAP_MAPPED_PAGES_SIZE_IN_BYTES with 8192. rewrite Hadd.
  assert (~ heap_page tss (heap_end mh)) as Hni by (intros Hin; pose proof (hw_below _ _ _ Hw _ Hin); lia).
  destruct (heaps_wf_same mh m m1 tss (heap_end mh + 8192)) as [Hw1 Hobj1]; [| lia | | done |].
  { intros x Hx. apply Hfr. by intros ->. }
  { apply Z.mod_divide in He2 as [u ->]; [| lia]. apply Z.mod_divide; [lia |]. exists (u + 1). lia. }
  destruct (refill_heap_ok (set_end mh (heap_end mh + 8192)) m1 tss i key z mp Hw1 Ei) as (mh2 & m2 & tss2 & z2 & E2 & [M1 M2 M3 M4] & Ei2 & Hem);
    rewrite ?Hst; try done; try lia.
  { change KERNEL_HEAP_START with 18446742424442109952 in He1. lia. }
  rewrite E2. cbn [outcome_bind].
  destruct (IH mh2 m2 w1 tss2 z2 M1 Ei2) as (r & mh' & m' & w' & tss' & E' & [G1 G2 G3 G4]); [by left | rewrite M3; cbn; lia |].
  exists r, mh', m', w', tss'. split; [done |]. split; [done | by rewrite G2, M2 | intros i0 j0 q; by rewrite G3, M4, Hobj1 |].
  destruct r; [done |]. intros w2 (w1' & Hg' & Hrest). rewrite (page_given_fun _ _ _ _ Hg' Hg), M3 in *. by apply (G4 w2).
Qed.

Lemma grow_heap_ok (mh : MultipleHeaps) (m : Mem) (w : W) (tss : list (list SCPages)) (i : nat) (key : Z) (z : ZoneAllocator) :
  heaps_wf mh m tss -> heaps mh !! i = Some (key, z) -> heap_end mh + 16384 <= KERNEL_HEAP_START + KERNEL_HEAP_MAX_SIZE ->
  exists r mh' m' w' tss', grow_heap mh m w layout key = Done (r, mh', m', w') /\ grown 2 w mh m tss i key r mh' m' tss'.
Proof using Hslab laws.
  intros Hw Ei Hroom. unfold grow_heap. destruct (take_from_heaps_ok (fst <$> heaps mh) mh m tss Hw) as [E | (mp & mh1 & m1 & tss1 & E & [M1 M2 M3 M4] & Hni & R1 & R2 & R3 & R4)].
  - intros k ([k' y] & -> & [i0 Hi0]%list_elem_of_lookup_1)%list_elem_of_fmap. cbn.
    destruct (heap_lookup_get _ i0 k' y (hw_keys _ _ _ Hw) Hi0) as [-> _]. by eexists.
  - rewrite E. cbn [outcome_bind]. apply (grow_from_os_ok HEAP_GROWTH_AMOUNT mh m w tss i key z); try done.
    right. unfold HEAP_GROWTH_AMOUNT. lia.
  - rewrite E. cbn [outcome_bind].
    assert (exists z1, heaps mh1 !! i = Some (key, z1)) as [z1 Ei1].
    { assert ((fst <$> heaps mh1) !! i = Some key) as Hk by (by rewrite M2, list_lookup_fmap, Ei).
      rewrite list_lookup_fmap in Hk. destruct (heaps mh1 !! i) as [[k y] |]; cbn in Hk; [| done]. injection Hk as ->. by exists y. }
    destruct (refill_heap_ok mh1 m1 tss1 i key z1 mp M1 Ei1) as (mh2 & m2 & tss2 & z2 & E2 & [N1 N2 N3 N4] & Ei2 & Hem); try done; [by rewrite M3 |].
    rewrite E2. cbn [outcome_bind]. exists (Ok tt), mh2, m2, w, tss2. split; [done |].
    split; [done | by rewrite N2, M2 | intros i0 j0 q; by rewrite N4, M4 | by exists z2].
Qed.

(** ** [alloc] and [dealloc] *)

(** The null pointer: no object has been taken, and the kernel does not give the two pages
    at the end of the heap. *)
Record heap_null (w : W) (mh : MultipleHeaps) (m : Mem) (tss : list (list SCPages)) (mh' : MultipleHeaps) (m' : Mem) (tss' : list (list SCPages)) : Prop := {
  hn_wf : heaps_wf mh' m' tss';
  hn_keys : fst <$> heaps mh' = fst <$> heaps mh;
  hn_objs : forall i j q, heap_obj mh' m' tss' i j q <-> heap_obj mh m tss i j q;
  hn_refused : forall w', ~ pages_given 2 w (heap_end mh) w';
}.

Lemma heap_allocate_lookup (mh : MultipleHeaps) (m : Mem) (tss : list (list SCPages)) (i : nat) (key : Z) (z : ZoneAllocator) :
  heaps_wf mh m tss -> heaps mh !! i = Some (key, z) -> exists ts, tss !! i = Some ts.
Proof using Type. intros Hw Ei. apply lookup_lt_Some in Ei. apply lookup_lt_is_Some_2. by rewrite (hw_len _ _ _ Hw). Qed.

Lemma alloc_small_ok (mh : MultipleHeaps) (m : Mem) (w : W) (tss : list (list SCPages)) (i : nat) (z : ZoneAllocator) :
  heaps_wf mh m tss -> heaps mh !! i = Some (get_key w, z) -> heap_end mh + 16384 <= KERNEL_HEAP_START + KERNEL_HEAP_MAX_SIZE ->
  exists ptr mh' m' w' tss', alloc_small mh m w layout = Done (ptr, mh', m', w') /\
    (heap_takes mh m tss mh' m' tss' i j c ptr /\ ptr mod l_align layout = 0 \/
     ptr = 0 /\ empty_pages z <= 0 /\ heap_null w mh m tss mh' m' tss').
Proof using Hslab Hclass Hsize Halign Halign8 laws.
  intros Hw Ei Hroom. destruct (heap_allocate_lookup _ _ _ _ _ _ Hw Ei) as [ts Et]. unfold alloc_small.
  destruct (heap_allocate_ok mh m tss i (get_key w) z ts Hw Ei Et) as [(ptr & mh' & m' & tss' & E & Ht & Hal) | (e & E & Hem)];
    rewrite E; cbn [outcome_bind].
  { exists ptr, mh', m', w, tss'. split; [done |]. by left. }
  destruct (grow_heap_ok mh m w tss i (get_key w) z Hw Ei Hroom) as (r & mh1 & m1 & w1 & tss1 & Eg & [G1 G2 G3 G4]).
  rewrite Eg. cbn [outcome_bind]. destruct r as [[] | e'].
  2: { exists 0, mh1, m1, w1, tss1. split; [done |]. right. split; [done |]. split; [done |]. by split. }
  destruct G4 as (z1 & Ei1 & Hpos). destruct (heap_allocate_lookup _ _ _ _ _ _ G1 Ei1) as [ts1 Et1].
  destruct (heap_allocate_ok mh1 m1 tss1 i (get_key w) z1 ts1 G1 Ei1 Et1) as [(ptr & mh' & m' & tss' & E2 & [T1 T2 T3 T4] & Hal) | (e2 & E2 & Hem2)];
    [| lia]. rewrite E2. cbn [outcome_bind].
  exists ptr, mh', m', w1, tss'. split; [done |]. left. split; [| done]. split; [done | by rewrite T2, G2 | |].
  - intros i' j' d q Hq. apply (T3 i' j'). by apply G3.
  - intros i' j' q. by rewrite T4, G3.
Qed.

End Request.

Record heap_frees (mh : MultipleHeaps) (m : Mem) (tss : list (list SCPages)) (mh' : MultipleHeaps) (m' : Mem) (tss' : list (list SCPages))
    (i j : nat) (ptr : Z) : Prop := {
  hf_wf : heaps_wf mh' m' tss';
  hf_keys : fst <$> heaps mh' = fst <$> heaps mh;
  hf_objs : forall i' j' q, heap_obj mh' m' tss' i' j' q <-> heap_obj mh m tss i' j' q /\ ~ (i' = i /\ j' = j /\ q = ptr);
}.

Lemma dealloc_small_ok (mh : MultipleHeaps) (m : Mem) (tss : list (list SCPages)) (i j : nat) (ptr : Z) (layout : Layout) :
  heaps_wf mh m tss -> heap_obj mh m tss i j ptr -> get_slab (l_size layout) = Base j ->
  exists mh' m' tss', dealloc_small mh m ptr layout = Done (mh', m') /\ heap_frees mh m tss mh' m' tss' i j ptr.
Proof.
  intros Hw (k & z & ts & Ei & Et & Ho) Hslab. destruct (hw_zone _ _ _ Hw i k z ts Ei Et) as [Hz Hk].
  pose proof (get_slab_spec (l_size layout)) as Hg. rewrite Hslab in Hg. destruct Hg as (c & Ec & _).
  destruct (zone_obj_page m z ts j c ptr Hz Ho Ec) as (a & x & opp & Pa & Eptr & Hx & Hxc & Ka). pose proof (class_sizes j c Ec).
  destruct Ka as [Ha1 [Ha2 Ha3] (p & mp & Ep & _ & _ & Hid & _) _].
  destruct (zone_deallocate_ok m z ts layout j ptr Hz Hslab Ho) as (z' & m' & ts' & E & [F1 F2 F3 F4 F5]).
  destruct (heap_lookup_get _ i k z (hw_keys _ _ _ Hw) Ei) as [Eg _].
  assert (Z.land ptr (Z.lxor U64_MAX (SIZE - 1)) = a) as Hpa by (rewrite Eptr; apply page_of; done || lia).
  unfold dealloc_small. rewrite Hpa. unfold get_page. rewrite Ep. cbn [expect outcome_bind].
  rewrite Hid, Hk, Eg. cbn [expect outcome_bind]. rewrite E. cbn [outcome_bind unwrap].
  destruct (heaps_update mh m m' tss i k z z' ts ts' [] Hw Ei Et F1 F2) as [Hw' Hobj].
  { intros y Hy. left. by apply F3. }
  { by intros y ?%not_elem_of_nil. }
  { intros y Hy _. by apply F4. }
  exists (set_heap mh k z'), m', (<[i := ts']> tss). split; [done |].
  split; [done | apply (set_heap_keys mh i k z z' (hw_keys _ _ _ Hw) Ei) |].
  intros i' j' q. rewrite Hobj. destruct (decide (i' = i)) as [-> |]; [| tauto]. rewrite F5, (heap_obj_zone mh m tss i k z ts) by done. tauto.
Qed.

End HeapProps.
