(* ===== verification/HeapBlocks.v ===== *)
(** * The fixed-size block allocator's contract

    The blocks the fallback allocator has handed out are split between the free lists and
    the clients ([blocks_wf]).  An allocation takes a block off a free list, or a new block
    from the fallback allocator; a deallocation puts it back.  No two blocks overlap. *)

From stdpp Require Import gmap.
From S2P Require Import Prelude Slab Heaps.

(** Blocks that do not overlap. *)
Definition apart (x y : Z * Z) : Prop := x.1 + x.2 <= y.1 \/ y.1 + y.2 <= x.1.

Fixpoint all_apart (l : list (Z * Z)) : Prop :=
  match l with [] => True | x :: l => Forall (apart x) l /\ all_apart l end.

Lemma apart_sym (x y : Z * Z) : apart x y <-> apart y x.
Proof. unfold apart. tauto. Qed.

#[export] Instance all_apart_perm : Proper (Permutation ==> iff) all_apart.
Proof.
  assert (forall l l', l ≡ₚ l' -> all_apart l -> all_apart l') as H.
  { induction 1 as [| x l l' Hp IH | x y l | l l' l'' _ IH1 _ IH2]; cbn; [done | | | auto].
    - intros [Hx Hl]. rewrite Hp in Hx. auto.
    - rewrite !Forall_cons, (apart_sym y x). tauto. }
  intros l l' Hp. split; apply H; [done | by symmetry].
Qed.

Lemma all_apart_cons (x : Z * Z) (l : list (Z * Z)) : all_apart (x :: l) <-> (forall y, y ∈ l -> apart x y) /\ all_apart l.
Proof. cbn. by rewrite Forall_forall. Qed.

(** What the documentation of the linked-list allocator promises: [fb_blocks] are the
    blocks handed out and not returned. *)
Class FallbackLaws (F : Type) {fh : FallbackHeap F} := {
  fb_blocks : F -> list (Z * Z);
  fb_alloc_law : forall f l p f', allocate_first_fit f l = (Some p, f') ->
    fb_blocks f' ≡ₚ (p, l_size l) :: fb_blocks f /\ 0 < p /\ p mod l_align l = 0 /\
    forall y, y ∈ fb_blocks f -> apart (p, l_size l) y;
  fb_full_law : forall f l f', allocate_first_fit f l = (None, f') -> fb_blocks f' ≡ₚ fb_blocks f;
  fb_free_law : forall f p l, (p, l_size l) ∈ fb_blocks f -> (p, l_size l) :: fb_blocks (fb_deallocate f p l) ≡ₚ fb_blocks f;
}.

Section HeapBlocks.
Context {F : Type} {fh : FallbackHeap F} {laws : FallbackLaws F}.

(** A layout's alignment is a power of two. *)
Definition valid_layout (l : Layout) : Prop := 0 <= l_size l /\ exists k, 0 <= k /\ l_align l = 2 ^ k.

(** The size of the block a layout gets. *)
Definition block_of (l : Layout) : Z :=
  match list_index l with Some i => match BLOCK_SIZES !! i with Some s => s | None => 0 end | None => l_size l end.

Lemma block_sizes (i : nat) (s : Z) : BLOCK_SIZES !! i = Some s -> s = 2 ^ (Z.of_nat i + 3) /\ 8 <= s.
Proof using Type. do 9 (destruct i as [| i]; [cbn; intros [= <-]; done |]). done. Qed.

Lemma list_index_spec (l : Layout) (i : nat) :
  list_index l = Some i -> exists s, BLOCK_SIZES !! i = Some s /\ block_of l = s /\ l_size l <= s /\ l_align l <= s.
Proof using Type.
  intros E. unfold block_of. rewrite E. unfold list_index in E. apply find_index_Some in E as [(s & Es & Hs) _].
  apply Z.leb_le in Hs. rewrite Es. exists s. split_and!; try done; lia.
Qed.

(** A block of a class is aligned for every layout of the class. *)
Lemma class_align (l : Layout) (i : nat) (s p : Z) :
  valid_layout l -> list_index l = Some i -> BLOCK_SIZES !! i = Some s -> p mod s = 0 -> p mod l_align l = 0.
Proof using Type.
  intros (_ & k & Hk & Ea) E Es Hp. destruct (list_index_spec l i E) as (s' & Es' & _ & _ & Hle). assert (s' = s) as -> by congruence.
  destruct (block_sizes i s Es) as [E2 H8]. rewrite Ea in *.
  assert (k <= Z.of_nat i + 3) as Hki by (rewrite E2 in Hle; apply (Z.pow_le_mono_r_iff 2); lia).
  apply Z.mod_divide in Hp as [u ->]; [| lia]. apply Z.mod_divide; [lia |]. apply Z.divide_mul_r.
  rewrite E2. exists (2 ^ (Z.of_nat i + 3 - k)). rewrite <- Z.pow_add_r by lia. f_equal. lia.
Qed.

(** ** The free lists *)

Definition chain (ns : gmap Z (option Z)) (h : option Z) (l : list Z) : Prop :=
  h = l !! 0%nat /\ forall k a, l !! k = Some a -> ns !! a = Some (l !! S k).

(** The blocks of the free lists, with their sizes. *)
Definition free_blocks (sizes : list Z) (fl : list (list Z)) : list (Z * Z) :=
  mjoin (zip_with (fun s l => (fun a => (a, s)) <$> l) sizes fl).

Lemma free_blocks_insert (sizes : list Z) (fl : list (list Z)) (i : nat) (s a : Z) (l : list Z) :
  sizes !! i = Some s -> fl !! i = Some l -> free_blocks sizes (<[i := a :: l]> fl) ≡ₚ (a, s) :: free_blocks sizes fl.
Proof using Type.
  revert sizes fl. induction i as [| i IH]; intros [| s0 sizes] [| l0 fl] Es El; try done; cbn in *.
  - by simplify_eq.
  - unfold free_blocks in *. cbn. rewrite (IH sizes fl Es El). by rewrite Permutation_middle.
Qed.

Lemma free_blocks_elem (sizes : list Z) (fl : list (list Z)) (i : nat) (s a : Z) (l : list Z) :
  sizes !! i = Some s -> fl !! i = Some l -> a ∈ l -> (a, s) ∈ free_blocks sizes fl.
Proof using Type.
  intros Es El Ha. unfold free_blocks. apply list_elem_of_join. exists ((fun a => (a, s)) <$> l). split.
  - apply list_elem_of_fmap. by exists a.
  - apply (list_elem_of_lookup_2 _ i). by rewrite lookup_zip_with, Es; cbn; rewrite El.
Qed.

Record blocks_wf (b : FixedSizeBlockAllocator F) (fl : list (list Z)) (live : list (Z * Layout)) : Prop := {
  bw_len : length (list_heads b) = 9%nat /\ length fl = 9%nat;
  bw_chain : forall i h l, list_heads b !! i = Some h -> fl !! i = Some l -> chain (nodes b) h l;
  bw_blocks : fb_blocks (fallback_allocator b) ≡ₚ ((fun pl => (pl.1, block_of pl.2)) <$> live) ++ free_blocks BLOCK_SIZES fl;
  bw_apart : all_apart (fb_blocks (fallback_allocator b));
  bw_align : forall i s l a, BLOCK_SIZES !! i = Some s -> fl !! i = Some l -> a ∈ l -> 0 < a /\ a mod s = 0;
  bw_live : forall p l, (p, l) ∈ live -> 0 < p /\ forall i s, list_index l = Some i -> BLOCK_SIZES !! i = Some s -> p mod s = 0;
}.

(** The free lists and the memory after the list [i] has changed. *)
Lemma chains_insert (b : FixedSizeBlockAllocator F) (fl : list (list Z)) (ns : gmap Z (option Z)) (i : nat) (h : option Z) (l : list Z) (a : Z) :
  length (list_heads b) = 9%nat -> length fl = 9%nat -> (i < 9)%nat ->
  (forall i' h l, list_heads b !! i' = Some h -> fl !! i' = Some l -> chain (nodes b) h l) ->
  (forall x, x <> a -> ns !! x = nodes b !! x) -> (forall i' l, i' <> i -> fl !! i' = Some l -> a ∉ l) -> chain ns h l ->
  forall i' h' l', <[i := h]> (list_heads b) !! i' = Some h' -> <[i := l]> fl !! i' = Some l' -> chain ns h' l'.
Proof using Type.
  intros L1 L2 Hi Hc Hns Hna Hl i' h' l' Eh El. destruct (decide (i' = i)) as [-> | Hne].
  - rewrite list_lookup_insert_eq in Eh by lia. rewrite list_lookup_insert_eq in El by lia. by simplify_eq.
  - rewrite list_lookup_insert_ne in Eh by done. rewrite list_lookup_insert_ne in El by done.
    destruct (Hc i' h' l' Eh El) as [H1 H2]. split; [done |]. intros k x Ek. rewrite Hns; [by apply H2 |].
    intros ->. apply (Hna i' l' Hne El). by eapply list_elem_of_lookup_2.
Qed.

(** A free block is in one place only. *)
Lemma apart_not_elem (l : list (Z * Z)) (a s : Z) (t : Z) : all_apart ((a, s) :: l) -> 0 < s -> 0 < t -> (a, t) ∉ l.
Proof using Type.
  intros [H _]%all_apart_cons Hs Ht Hin. specialize (H _ Hin). unfold apart in H. cbn in H. lia.
Qed.

Lemma live_apart (b : FixedSizeBlockAllocator F) (fl : list (list Z)) (live : list (Z * Layout)) (p q : Z) (l l' : Layout) :
  blocks_wf b fl ((p, l) :: live) -> (q, l') ∈ live -> apart (p, block_of l) (q, block_of l').
Proof using Type.
  intros Hw Hin. pose proof (bw_apart _ _ _ Hw) as Ha. rewrite (bw_blocks _ _ _ Hw) in Ha.
  rewrite fmap_cons in Ha. cbn in Ha. destruct Ha as [Ha _]. rewrite Forall_forall in Ha. apply Ha. apply elem_of_app. left.
  apply list_elem_of_fmap. by exists (q, l').
Qed.

(** A block from the fallback allocator. *)
Lemma fallback_alloc_ok (b : FixedSizeBlockAllocator F) (fl : list (list Z)) (live : list (Z * Layout)) (layout lay : Layout) :
  blocks_wf b fl live -> l_size lay = block_of layout ->
  (forall i s, list_index layout = Some i -> BLOCK_SIZES !! i = Some s -> l_align lay = s) ->
  exists ptr b', fallback_alloc b lay = (ptr, b') /\
    (ptr = 0 /\ blocks_wf b' fl live \/ blocks_wf b' fl ((ptr, layout) :: live) /\ ptr mod l_align lay = 0).
Proof using Type.
  intros [H1 H2 H3 H4 H5 H6] Hsz Hal. unfold fallback_alloc. destruct (allocate_first_fit (fallback_allocator b) lay) as [[p |] f'] eqn:E.
  - destruct (fb_alloc_law _ _ _ _ E) as (Hp & Hpos & Hma & Hap). eexists p, _. split; [done |]. right. split; [| done].
    split; cbn [list_heads fallback_allocator nodes]; try done.
    + by rewrite Hp, H3, Hsz.
    + rewrite Hp. by apply all_apart_cons.
    + intros q l [[= -> ->] | Hin]%elem_of_cons; [| by apply H6]. split; [done |]. intros i s Ei Es. by rewrite <- (Hal i s Ei Es).
  - pose proof (fb_full_law _ _ _ E) as Hp. eexists 0, _. split; [done |]. left. split; [done |].
    split; cbn [list_heads fallback_allocator nodes]; try done; [by rewrite Hp | by rewrite Hp].
Qed.

(** The first block of a free list. *)
Lemma pop_block_ok (b : FixedSizeBlockAllocator F) (fl : list (list Z)) (live : list (Z * Layout)) (layout : Layout) (i : nat) (s a : Z) (l : list Z) :
  blocks_wf b fl live -> list_index layout = Some i -> BLOCK_SIZES !! i = Some s -> fl !! i = Some (a :: l) ->
  list_heads b !! i = Some (Some a) -> nodes b !! a = Some (l !! 0%nat) ->
  blocks_wf (mkBlocks (<[i := l !! 0%nat]> (list_heads b)) (fallback_allocator b) (<[a := None]> (nodes b))) (<[i := l]> fl) ((a, layout) :: live).
Proof using Type.
  intros [[L1 L2] H2 H3 H4 H5 H6] Ei Es El Eh En. destruct (list_index_spec layout i Ei) as (s' & Es' & Hb & _). assert (s' = s) as -> by congruence.
  apply lookup_lt_Some in Es as Hlt. cbn in Hlt. destruct (block_sizes i s Es) as [_ H8].
  assert (<[i := a :: l]> (<[i := l]> fl) = fl) as Efl by (rewrite list_insert_insert_eq; by apply list_insert_id).
  assert (free_blocks BLOCK_SIZES fl ≡ₚ (a, s) :: free_blocks BLOCK_SIZES (<[i := l]> fl)) as Hfree.
  { rewrite <- Efl at 1. apply free_blocks_insert; [done | by rewrite list_lookup_insert_eq by lia]. }
  rewrite Hfree in H3. assert (all_apart ((a, s) :: ((fun pl => (pl.1, block_of pl.2)) <$> live) ++ free_blocks BLOCK_SIZES (<[i := l]> fl))) as Hap.
  { by rewrite H3, <- Permutation_middle in H4. }
  assert (forall i' t l', BLOCK_SIZES !! i' = Some t -> <[i := l]> fl !! i' = Some l' -> a ∉ l') as Hna.
  { intros i' t l' Et El' Hin. apply (apart_not_elem _ _ _ t Hap); [lia | by destruct (block_sizes i' t Et); lia |].
    apply elem_of_app. right. by eapply free_blocks_elem. }
  assert (a ∉ l) as Hal by (apply (Hna i s l Es); by rewrite list_lookup_insert_eq by lia).
  split; cbn [list_heads fallback_allocator nodes].
  - by rewrite !length_insert.
  - apply (chains_insert b fl _ i (l !! 0%nat) l a L1 L2 ltac:(lia) H2).
    + intros x Hx. by apply lookup_insert_ne.
    + intros i' l' Hne El'. apply lookup_lt_Some in El' as Hlt'. destruct (lookup_lt_is_Some_2 BLOCK_SIZES i') as [t Et]; [cbn; lia |].
      apply (Hna i' t l' Et). by rewrite list_lookup_insert_ne.
    + split; [done |]. intros k x Ek. rewrite lookup_insert_ne by (intros <-; apply Hal; by eapply list_elem_of_lookup_2).
      destruct (H2 i _ _ Eh El) as [_ Hc]. apply (Hc (S k) x Ek).
  - rewrite H3, fmap_cons. cbn [fst snd]. rewrite Hb. by rewrite <- Permutation_middle.
  - done.
  - intros i' t l' x Et El' Hx. destruct (decide (i' = i)) as [-> | Hne].
    + rewrite list_lookup_insert_eq in El' by lia. injection El' as <-. apply (H5 i t (a :: l) x Et El). by apply elem_of_cons; right.
    + rewrite list_lookup_insert_ne in El' by done. by apply (H5 i' t l' x).
  - intros p l0 [[= -> ->] | Hin]%elem_of_cons; [| by apply H6].
    destruct (H5 i s (a :: l) a Es El) as [Hpos Hma]; [by apply elem_of_cons; left |]. split; [done |].
    intros i' t Ei' Et. by simplify_eq.
Qed.

(** A request for a block: the null pointer, and nothing changed for the clients, or a block
    large enough, aligned, and apart from every block of a client. *)
Lemma blocks_allocate_ok (b : FixedSizeBlockAllocator F) (fl : list (list Z)) (live : list (Z * Layout)) (layout : Layout) :
  blocks_wf b fl live -> valid_layout layout ->
  exists ptr b' fl', blocks_allocate b layout = Done (ptr, b') /\
    (ptr = 0 /\ blocks_wf b' fl' live \/
     blocks_wf b' fl' ((ptr, layout) :: live) /\ l_size layout <= block_of layout /\ ptr mod l_align layout = 0).
Proof using Type.
  intros Hw Hv. destruct (bw_len _ _ _ Hw) as [L1 L2]. unfold blocks_allocate. destruct (list_index layout) as [i |] eqn:Ei.
  - destruct (list_index_spec layout i Ei) as (s & Es & Hb & Hsz & _). apply lookup_lt_Some in Es as Hlt. cbn in Hlt.
    destruct (lookup_lt_is_Some_2 (list_heads b) i) as [h Eh]; [lia |]. destruct (lookup_lt_is_Some_2 fl i) as [l El]; [lia |].
    rewrite Eh. cbn [expect outcome_bind]. destruct (bw_chain _ _ _ Hw i h l Eh El) as [Hh Hc]. destruct l as [| a l]; cbn in Hh; subst h.
    + rewrite Es. cbn [expect outcome_bind].
      destruct (fallback_alloc_ok b fl live layout (mkLayout s s) Hw) as (ptr & b' & E & [[-> H] | [H Hma]]).
      { by rewrite Hb. }
      { intros i' s' Ei' Es'. cbn [l_align]. congruence. }
      * rewrite E. exists 0, b', fl. split; [done |]. by left.
      * rewrite E. exists ptr, b', fl. split; [done |]. right. split; [done |]. split; [lia |]. by apply (class_align layout i s).
    + pose proof (Hc 0%nat a eq_refl) as En. cbn in En. rewrite En. cbn [expect outcome_bind].
      pose proof (pop_block_ok b fl live layout i s a l Hw Ei Es El Eh En) as Hw'.
      eexists a, _, _. split; [done |]. right. split; [exact Hw' |]. split; [lia |]. apply (class_align layout i s); try done.
      by apply (bw_align _ _ _ Hw i s (a :: l) a Es El); apply elem_of_cons; left.
  - assert (block_of layout = l_size layout) as Hb by (unfold block_of; by rewrite Ei).
    destruct (fallback_alloc_ok b fl live layout layout Hw) as (ptr & b' & E & [[-> H] | [H Hma]]); [done | congruence | |];
      rewrite E; [exists 0, b', fl | exists ptr, b', fl]; (split; [done |]); [by left | right]. split; [done |]. split; [lia | done].
Qed.

(** A block of a client goes back to where it came from. *)
Lemma blocks_deallocate_ok (b : FixedSizeBlockAllocator F) (fl : list (list Z)) (live : list (Z * Layout)) (p : Z) (layout : Layout) :
  blocks_wf b fl ((p, layout) :: live) ->
  exists b' fl', blocks_deallocate b p layout = Done b' /\ blocks_wf b' fl' live /\
    forall l, list_index l = list_index layout -> is_Some (list_index layout) ->
      exists b'', blocks_allocate b' l = Done (p, b'') /\ list_heads b'' = list_heads b.
Proof using Type.
  intros Hw. pose proof Hw as [[L1 L2] H2 H3 H4 H5 H6]. rewrite fmap_cons in H3. cbn [fst snd app] in H3.
  destruct (H6 p layout) as [Hpos Hma]; [by apply elem_of_cons; left |]. unfold blocks_deallocate. destruct (list_index layout) as [i |] eqn:Ei.
  - destruct (list_index_spec layout i Ei) as (s & Es & Hb & _). apply lookup_lt_Some in Es as Hlt. cbn in Hlt.
    destruct (lookup_lt_is_Some_2 (list_heads b) i) as [h Eh]; [lia |]. destruct (lookup_lt_is_Some_2 fl i) as [l El]; [lia |].
    destruct (block_sizes i s Es) as [_ H8]. rewrite Eh, Es. cbn [expect outcome_bind]. destruct (Z.leb_spec 8 s); [| lia]. cbn [negb].
    destruct (H2 i h l Eh El) as [Hh Hc]. rewrite H3, Hb in H4.
    assert (forall i' t l', BLOCK_SIZES !! i' = Some t -> fl !! i' = Some l' -> p ∉ l') as Hna.
    { intros i' t l' Et El' Hin. apply (apart_not_elem _ _ _ t H4); [lia | by destruct (block_sizes i' t Et); lia |].
      apply elem_of_app. right. by eapply free_blocks_elem. }
    eexists _, (<[i := p :: l]> fl). split; [done |]. split.
    + split; cbn [list_heads fallback_allocator nodes].
      * by rewrite !length_insert.
      * apply (chains_insert b fl _ i (Some p) (p :: l) p L1 L2 ltac:(lia) H2).
        -- intros x Hx. by apply lookup_insert_ne.
        -- intros i' l' Hne El'. apply lookup_lt_Some in El' as Hlt'. destruct (lookup_lt_is_Some_2 BLOCK_SIZES i') as [t Et]; [cbn; lia |].
           by apply (Hna i' t l' Et).
        -- split; [done |]. intros [| k] x Ek; cbn in Ek.
           ++ injection Ek as <-. rewrite lookup_insert_eq. cbn. by rewrite Hh.
           ++ rewrite lookup_insert_ne by (intros <-; apply (Hna i s l Es El); by eapply list_elem_of_lookup_2). by apply Hc.
      * rewrite H3, Hb. rewrite (free_blocks_insert _ _ i s p l Es El). by rewrite <- Permutation_middle.
      * by rewrite H3, Hb.
      * intros i' t l' x Et El' Hx. destruct (decide (i' = i)) as [-> | Hne].
        -- rewrite list_lookup_insert_eq in El' by lia. injection El' as <-. apply elem_of_cons in Hx as [-> | Hx]; [| by apply (H5 i t l x)].
           split; [done |]. by apply (Hma i).
        -- rewrite list_lookup_insert_ne in El' by done. by apply (H5 i' t l' x).
      * intros q l0 Hin. apply H6. by apply elem_of_cons; right.
    + intros l0 E0 _. unfold blocks_allocate. rewrite E0. cbn [list_heads nodes]. rewrite list_lookup_insert_eq by lia. cbn [expect outcome_bind].
      rewrite lookup_insert_eq. cbn [expect outcome_bind]. eexists. split; [done |]. cbn. rewrite list_insert_insert_eq. by apply list_insert_id.
  - destruct (Z.eqb_spec p 0); [lia |]. assert (block_of layout = l_size layout) as Hb by (unfold block_of; by rewrite Ei). rewrite Hb in H3.
    assert ((p, l_size layout) ∈ fb_blocks (fallback_allocator b)) as Hin by (rewrite H3; by apply elem_of_cons; left).
    pose proof (fb_free_law _ _ _ Hin) as Hfree. eexists _, fl. split; [done |]. split; [| by intros l _ [x ?]].
    assert (fb_blocks (fb_deallocate (fallback_allocator b) p layout) ≡ₚ ((fun pl => (pl.1, block_of pl.2)) <$> live) ++ free_blocks BLOCK_SIZES fl) as Hp.
    { apply (Permutation_cons_inv (a := (p, l_size layout))). by rewrite Hfree, H3. }
    split; cbn [list_heads fallback_allocator nodes]; try done.
    + rewrite <- Hfree in H4. by apply all_apart_cons in H4 as [_ ?].
    + intros q l0 Hq. apply H6. by apply elem_of_cons; right.
Qed.

End HeapBlocks.
