(* ===== verification/HeapInit.v ===== *)
(** * Setting up the per-CPU heaps, and large allocations

    [initialize_multiple_heaps] makes a heap for every CPU, each with pages of its own at the
    end of the heap: the result satisfies the invariant of [HeapProps] and has no object in
    use.  A large object is a mapping of its own, with its record in an object of the heap. *)

From stdpp Require Import gmap.
From S2P Require Import Prelude MemStructs PageAlloc PteFlags PageTable Files SysState SysMemory Slab SlabBits SlabList SlabSpec SlabAlloc SlabZone Heaps HeapProps.

#[local] Existing Instance x86_arch.

Section HeapInit.
Context {bf : Bitflags} {pgl : PageLayout} {W : Type} {km : KernelMemory W} {drop : DropPages W} {hp : HeapPages W} {laws : HeapPagesLaws W}.

(** ** One heap *)

(** A zone under construction, with its pages between [lo] and [hi] and the memory below
    [lo] as it was. *)
Record building (lo : Z) (m0 : Mem) (key : Z) (z : ZoneAllocator) (hi : Z) (m : Mem) (ts : list SCPages) : Prop := {
  bd_wf : zone_wf m z ts;
  bd_id : zone_heap_id z = key;
  bd_pages : forall x, zone_page ts x -> lo <= x /\ x + 8192 <= hi;
  bd_frame : forall x, x < lo -> m !! x = m0 !! x;
  bd_objs : forall j q, ~ zone_obj m z ts j q;
  bd_end : KERNEL_HEAP_START <= lo /\ lo <= hi /\ hi mod 8192 = 0;
}.

(** What the result of a run that needs [n] pages from [addr] on says about the kernel. *)
Definition served (n : nat) (w : W) (addr : Z) (r : result unit string) (w' : W) (addr' : Z) : Prop :=
  match r with
  | Ok _ => pages_given n w addr w' /\ addr' = addr + Z.of_nat n * 8192
  | Err _ => forall w2, ~ pages_given n w addr w2
  end.

Lemma served_app (n k : nat) (w w1 w' : W) (a a1 a' : Z) (r : result unit string) :
  served n w a (Ok tt) w1 a1 -> served k w1 a1 r w' a' -> served (n + k) w a r w' a'.
Proof using Type.
  intros [H1 ->]. destruct r as [[] | e]; cbn.
  - intros [H2 ->]. split; [| lia]. apply pages_given_app. by exists w1.
  - intros H2 w2 (wa & Ha & Hb)%pages_given_app. rewrite (pages_given_fun _ _ _ _ _ Ha H1) in Hb. by apply (H2 w2).
Qed.

Lemma served_stop (n k : nat) (w w' : W) (a a' b : Z) (e : string) :
  served n w a (Err e) w' a' -> served (n + k) w a (Err e) w' b.
Proof using Type. intros H w2 (wa & Ha & _)%pages_given_app. by apply (H wa). Qed.

(** The alignment of the objects of a class. *)
Definition class_alignment (size : Z) : Z := if size =? MAX_BASE_ALLOC_SIZE then 8 else size.

Lemma init_class_ok (n : nat) (size : Z) (j : nat) (lo : Z) (m0 : Mem) (key : Z) (z : ZoneAllocator) (hi : Z) (m : Mem) (w : W) (ts : list SCPages) :
  building lo m0 key z hi m ts -> get_slab size = Base j -> is_Some (layout_from size (class_alignment size)) ->
  hi + Z.of_nat n * 8192 <= KERNEL_HEAP_START + KERNEL_HEAP_MAX_SIZE ->
  exists r z' hi' m' w' ts', init_class n size z hi m w = Done (r, z', hi', m', w') /\ building lo m0 key z' hi' m' ts' /\
    served n w hi r w' hi'.
Proof.
  revert z hi m w ts. induction n as [| n IH]; intros z hi m w ts Hb Hj Hlay Hroom; cbn [init_class].
  { exists (Ok tt), z, hi, m, w, ts. split; [done |]. split; [done |]. split; [done | lia]. }
  destruct Hb as [B1 B2 B3 B4 B5 (E1 & E2 & E3)]. destruct Hlay as [layout El].
  change (if size =? MAX_BASE_ALLOC_SIZE then 8 else size) with (class_alignment size). rewrite El.
  assert (l_size layout = size) as Hls by (unfold layout_from in El; case_match; by simplify_eq).
  pose proof (new_heap_page_given m w hi E3) as Hgiven.
  destruct (new_heap_page m w hi) as [[[mp | e] m1] w1] eqn:En.
  2: { destruct Hgiven as [-> Hno]. exists (Err e), z, hi, m, w1, ts. split; [done |]. split; [done |].
       intros w2 (w3 & Hg & _). by apply (Hno w3). }
  destruct (new_heap_page_ok m m1 w w1 hi mp E3 En) as [Hst Hfr].
  destruct (end_add hi) as [Hadd Hlt]; [lia | lia |].
  assert (forall x, zone_page ts x -> m1 !! x = m !! x) as Hs by (intros x Hx; apply Hfr; specialize (B3 x Hx); lia).
  destruct (zone_refill_ok m1 z ts layout mp j) as (z2 & m2 & ts2 & E & [I1 I2 I3 I4 I5] & _); rewrite ?Hst, ?Hls; try done; try lia.
  { by apply (zone_wf_same m). }
  { change KERNEL_HEAP_START with 18446742424442109952 in E1. lia. }
  { intros Hx. specialize (B3 _ Hx). lia. }
  rewrite E. cbn [outcome_bind]. change HEAP_MAPPED_PAGES_SIZE_IN_BYTES with 8192. rewrite Hadd.
  destruct (IH z2 (hi + 8192) m2 w1 ts2) as (r & z' & hi' & m' & w' & ts' & E' & Hb' & Hserved); [| done | by exists layout | lia |].
  { rewrite Hst in *. split; [done | by rewrite I2 | | | |].
    - intros x [Hx | ->]%I3; [specialize (B3 x Hx); lia | lia].
    - intros x Hx. rewrite I4; [rewrite Hfr by lia; by apply B4 | intros Hp; specialize (B3 x Hp); lia | lia].
    - intros j' q Hq. apply I5 in Hq. apply (zone_obj_same m m1 z ts j' q Hs) in Hq. by apply (B5 j' q).
    - split; [done |]. split; [lia |]. apply Z.mod_divide in E3 as [u ->]; [| lia]. apply Z.mod_divide; [lia |]. exists (u + 1). lia. }
  exists r, z', hi', m', w', ts'. split; [done |]. split; [done |].
  apply (served_app 1 n w w1 w' hi (hi + 8192)); [| done]. split; [by exists w1 | done].
Qed.

Lemma init_classes_ok (sizes : list Z) (n : nat) (lo : Z) (m0 : Mem) (key : Z) (z : ZoneAllocator) (hi : Z) (m : Mem) (w : W) (ts : list SCPages) :
  building lo m0 key z hi m ts -> 
  (forall s, s ∈ sizes -> (exists j, get_slab s = Base j) /\ is_Some (layout_from s (class_alignment s))) ->
  hi + Z.of_nat (length sizes) * (Z.of_nat n * 8192) <= KERNEL_HEAP_START + KERNEL_HEAP_MAX_SIZE ->
  exists r z' hi' m' w' ts', init_classes sizes n z hi m w = Done (r, z', hi', m', w') /\ building lo m0 key z' hi' m' ts' /\
    served (length sizes * n) w hi r w' hi'.
Proof.
  revert z hi m w ts. induction sizes as [| s sizes IH]; intros z hi m w ts Hb Hs Hroom; cbn [init_classes length] in *.
  { exists (Ok tt), z, hi, m, w, ts. split; [done |]. split; [done |]. split; [done | lia]. }
  destruct (Hs s) as [[j Hj] Hlay]; [by apply elem_of_cons; left |].
  destruct (init_class_ok n s j lo m0 key z hi m w ts Hb Hj Hlay) as (r & z1 & hi1 & m1 & w1 & ts1 & E & Hb1 & Hsv); [lia |].
  rewrite E. cbn [outcome_bind]. destruct r as [[] | e].
  2: { exists (Err e), z1, hi1, m1, w1, ts1. split; [done |]. split; [done |]. by apply (served_stop n (length sizes * n) w w1 hi hi1). }
  destruct (IH z1 hi1 m1 w1 ts1 Hb1) as (r & z' & hi' & m' & w' & ts' & E' & Hb' & Hsv'); [| destruct Hsv as [_ ->]; lia |].
  { intros s' Hs'. apply Hs. by apply elem_of_cons; right. }
  exists r, z', hi', m', w', ts'. split; [done |]. split; [done |]. by apply (served_app n (length sizes * n) w w1 w' hi hi1).
Qed.

(** The 8 KiB pages a heap starts with: 64 for each of the eleven classes. *)
Definition HEAP_INITIAL_PAGES : nat := 704.
Definition HEAP_INITIAL_BYTES : Z := Z.of_nat HEAP_INITIAL_PAGES * 8192.

(** The heaps with a new one. *)
Lemma heaps_add (mh : MultipleHeaps) (m0 m : Mem) (tss : list (list SCPages)) (key : Z) (z : ZoneAllocator) (hi : Z) (ts : list SCPages) :
  heaps_wf mh m0 tss -> heap_get (heaps mh) key = None -> building (heap_end mh) m0 key z hi m ts ->
  heaps_wf (set_heap (set_end mh hi) key z) m (tss ++ [ts]) /\
  forall i j q, heap_obj (set_heap (set_end mh hi) key z) m (tss ++ [ts]) i j q <-> heap_obj mh m0 tss i j q.
Proof.
  intros [W1 W2 W3 W4 W5 [W6 W7]] Hg [B1 B2 B3 B4 B5 (E1 & E2 & E3)].
  assert (forall l, heap_get l key = None -> heap_put l key z = l ++ [(key, z)] /\ key ∉ fst <$> l) as Hput.
  { induction l as [| [k y] l IH]; cbn; [intros _; split; [done | apply not_elem_of_nil] |]. destruct (Z.eqb_spec k key); [done |].
    intros [-> Hn]%IH. split; [done |]. by apply not_elem_of_cons. }
  destruct (Hput _ Hg) as [Ep Hnk].
  assert (forall i ts0 x, tss !! i = Some ts0 -> zone_page ts0 x -> x < heap_end mh /\ m !! x = m0 !! x) as Hold.
  { intros i ts0 x Ei Hx. assert (x + 8192 <= heap_end mh) by (apply W5; by exists i, ts0). split; [lia |]. apply B4. lia. }
  assert (forall i ts0, (tss ++ [ts]) !! i = Some ts0 -> tss !! i = Some ts0 \/ i = length tss /\ ts0 = ts) as Hlook.
  { intros i ts0 [E | [Hge E]]%lookup_app_Some; [by left | right]. apply list_lookup_singleton_Some in E as [E ->]. split; [lia | done]. }
  assert (forall i k y, (heaps mh ++ [(key, z)]) !! i = Some (k, y) -> heaps mh !! i = Some (k, y) \/ i = length tss /\ k = key /\ y = z) as Hlookh.
  { intros i k y [E | [Hge E]]%lookup_app_Some; [by left | right]. apply list_lookup_singleton_Some in E as [E [= -> ->]]. split; [lia | done]. }
  split; [split |]; cbn; rewrite ?Ep.
  - rewrite fmap_app. apply NoDup_app. split; [done |]. split; [| apply NoDup_singleton]. cbn. intros x Hx ->%list_elem_of_singleton. done.
  - rewrite !length_app. cbn. lia.
  - intros i k y ts0 [Ei | (-> & -> & ->)]%Hlookh [Et | [Hi ->]]%Hlook.
    + destruct (W3 i k y ts0 Ei Et) as [Hz Hk]. split; [| done]. apply (zone_wf_same m0); [| done]. intros x Hx. by apply (Hold i ts0).
    + apply lookup_lt_Some in Ei. lia.
    + apply lookup_lt_Some in Et. lia.
    + done.
  - intros i i' t1 t2 x Hne [Et1 | [-> ->]]%Hlook [Et2 | [-> ->]]%Hlook Hx1 Hx2; [by apply (W4 i i' t1 t2 x) | | | done].
    + destruct (Hold i t1 x Et1 Hx1). specialize (B3 x Hx2). lia.
    + destruct (Hold i' t2 x Et2 Hx2). specialize (B3 x Hx1). lia.
  - intros x (i & ts0 & [Et | [-> ->]]%Hlook & Hx); [etrans; [apply W5; by exists i, ts0 | done] | by apply B3].
  - split; [lia | done].
  - intros i j q. unfold heap_obj. cbn. rewrite Ep. split.
    + intros (k & y & ts0 & [Ei | (-> & -> & ->)]%Hlookh & [Et | [Hi ->]]%Hlook & Ho).
      * exists k, y, ts0. split; [done |]. split; [done |]. apply (zone_obj_same m0 m); [| done]. intros x Hx. by apply (Hold i ts0).
      * apply lookup_lt_Some in Ei. lia.
      * apply lookup_lt_Some in Et. lia.
      * by apply B5 in Ho.
    + intros (k & y & ts0 & Ei & Et & Ho). exists k, y, ts0. split; [by apply lookup_app_l_Some |]. split; [by apply lookup_app_l_Some |].
      apply (zone_obj_same m0 m); [| done]. intros x Hx. by apply (Hold i ts0).
Qed.

Lemma class_slab (s : Z) : s ∈ BASE_ALLOC_SIZES -> (exists j, get_slab s = Base j) /\ is_Some (layout_from s (class_alignment s)).
Proof.
  intros Hin. destruct (list_elem_of_lookup_1 _ _ Hin) as [i Hi]. split.
  2: { unfold layout_from, class_alignment. pose proof (class_sizes i s Hi). pose proof buffer_bounds.
       assert (s <= 2 ^ 62) as Hs by (unfold MAX_ALLOC_SIZE in *; lia). rewrite (proj2 (Z.leb_le _ _)) by (destruct (s =? _); lia). rewrite andb_true_r.
       destruct (Z.eqb_spec s MAX_BASE_ALLOC_SIZE) as [E | Hne]; [by eexists |]. clear Hi Hs.
       unfold BASE_ALLOC_SIZES in Hin. set_unfold in Hin. destruct_or! Hin; subst; try done; by eexists. }
  pose proof (class_sizes i s Hi). pose proof (get_slab_spec s) as Hg.
  destruct (get_slab s) as [j | j |]; [by exists j | done | destruct Hg; lia].
Qed.

Lemma init_individual_heap_ok (key : Z) (mh : MultipleHeaps) (m : Mem) (w : W) (tss : list (list SCPages)) :
  heaps_wf mh m tss -> heap_get (heaps mh) key = None -> heap_end mh + HEAP_INITIAL_BYTES <= KERNEL_HEAP_START + KERNEL_HEAP_MAX_SIZE ->
  exists r mh' m' w', init_individual_heap key mh m w = Done (r, mh', m', w') /\
    served HEAP_INITIAL_PAGES w (heap_end mh) r w' (heap_end mh') /\
    (r = Ok tt -> exists tss', heaps_wf mh' m' tss' /\
       fst <$> heaps mh' = (fst <$> heaps mh) ++ [key] /\ forall i j q, heap_obj mh' m' tss' i j q <-> heap_obj mh m tss i j q).
Proof.
  intros Hw Hg Hroom. destruct (zone_new_wf key) as (z & Ez & Hid & Hz). unfold init_individual_heap. rewrite Ez. cbn [outcome_bind].
  change (Z.to_nat (PER_CORE_HEAP_INITIAL_SIZE_PAGES / (Z.of_nat MAX_BASE_SIZE_CLASSES * HEAP_MAPPED_PAGES_SIZE_IN_PAGES))) with 64%nat.
  destruct (hw_end _ _ _ Hw) as [He1 He2].
  destruct (init_classes_ok BASE_ALLOC_SIZES 64 (heap_end mh) m key z (heap_end mh) m w (replicate MAX_BASE_SIZE_CLASSES (mkPages3 [] [] [])))
    as (r & z' & hi & m' & w' & ts' & E & Hb & Hsv).
  - split; [apply Hz | done | | done | | done].
    + intros x (i & t & [-> _]%lookup_replicate_1 & Hx). by apply not_elem_of_nil in Hx.
    + intros j q (s & t & _ & [-> _]%lookup_replicate_1 & a & i & Ha & _). by apply not_elem_of_nil in Ha.
  - apply class_slab.
  - unfold HEAP_INITIAL_BYTES, HEAP_INITIAL_PAGES in Hroom. cbn [length BASE_ALLOC_SIZES]. lia.
  - rewrite E. cbn [outcome_bind]. destruct r as [[] | e]; [| by eexists _, _, _, _].
    rewrite Hg. eexists _, _, _, _. split; [done |]. split; [exact Hsv |]. intros _. exists (tss ++ [ts']).
    destruct (heaps_add mh m m' tss key z' hi ts' Hw Hg Hb) as [Hw' Hobj]. split; [done |].
    split; [| done]. cbn. clear - Hg. induction (heaps mh) as [| [k y] l IH]; cbn in *; [done |]. destruct (Z.eqb_spec k key); [done |].
    cbn. by rewrite IH.
Qed.

Lemma init_heaps_ok (keys : list Z) (mh : MultipleHeaps) (m : Mem) (w : W) (tss : list (list SCPages)) :
  heaps_wf mh m tss -> NoDup ((fst <$> heaps mh) ++ keys) ->
  heap_end mh + Z.of_nat (length keys) * HEAP_INITIAL_BYTES <= KERNEL_HEAP_START + KERNEL_HEAP_MAX_SIZE ->
  exists r m' w', init_heaps keys mh m w = Done (r, m', w') /\
    match r with
    | Ok mh' => served (length keys * HEAP_INITIAL_PAGES) w (heap_end mh) (Ok tt) w' (heap_end mh') /\
        exists tss', heaps_wf mh' m' tss' /\ fst <$> heaps mh' = (fst <$> heaps mh) ++ keys /\
          forall i j q, heap_obj mh' m' tss' i j q <-> heap_obj mh m tss i j q
    | Err e => served (length keys * HEAP_INITIAL_PAGES) w (heap_end mh) (Err e) w' 0
    end.
Proof.
  revert mh m w tss. induction keys as [| key keys IH]; intros mh m w tss Hw Hnd Hroom; cbn [init_heaps length] in *.
  { exists (Ok mh), m, w. split; [done |]. split; [split; [done | lia] |]. exists tss. split; [done |]. by rewrite app_nil_r. }
  assert (0 < HEAP_INITIAL_BYTES) by done.
  assert (heap_get (heaps mh) key = None) as Hg.
  { destruct (heap_get (heaps mh) key) as [z |] eqn:Eg; [| done]. exfalso. apply heap_get_lookup in Eg as [i Ei].
    apply NoDup_app in Hnd as (_ & Hnd & _). apply (Hnd key); [| by apply elem_of_cons; left]. apply list_elem_of_fmap.
    exists (key, z). split; [done | by eapply list_elem_of_lookup_2]. }
  destruct (init_individual_heap_ok key mh m w tss Hw Hg) as (r & mh1 & m1 & w1 & E & Hsv & Hok); [lia |]. rewrite E. cbn [outcome_bind].
  destruct r as [[] | e].
  2: { eexists _, _, _. split; [done |]. by apply (served_stop HEAP_INITIAL_PAGES _ w w1 (heap_end mh) (heap_end mh1)). }
  destruct (Hok eq_refl) as (tss1 & Hw1 & Hk1 & Hobj1).
  destruct (IH mh1 m1 w1 tss1 Hw1) as (r & m' & w' & E' & Hr);
    [by rewrite Hk1, <- app_assoc | destruct Hsv as [_ ->]; unfold HEAP_INITIAL_BYTES in *; lia |].
  exists r, m', w'. split; [done |]. destruct r as [mh' | e]; [| by apply (served_app HEAP_INITIAL_PAGES _ w w1 w' (heap_end mh) (heap_end mh1))].
  destruct Hr as [Hsv' (tss' & Hw' & Hk' & Hobj')].
  split; [by apply (served_app HEAP_INITIAL_PAGES _ w w1 w' (heap_end mh) (heap_end mh1)) |].
  exists tss'. split; [done |]. split; [by rewrite Hk', Hk1, <- app_assoc |]. intros i j q. by rewrite Hobj', Hobj1.
Qed.

Lemma heaps_empty_wf (m : Mem) : heaps_wf heaps_empty m [] /\ heap_end heaps_empty = KERNEL_HEAP_START + KERNEL_HEAP_INITIAL_SIZE.
Proof.
  assert (heap_end heaps_empty = KERNEL_HEAP_START + KERNEL_HEAP_INITIAL_SIZE) as He by (vm_compute; reflexivity).
  split; [| done]. split; rewrite ?He; cbn; try done.
  - apply NoDup_nil_2.
  - by intros x (i & ts & E & _).
Qed.

(** C9: Setting up the per-CPU heaps terminates, and it succeeds exactly when the kernel
    gives all the pages asked for: 64 pages of 8 KiB for each of the eleven size classes of
    each local APIC, one after the other from the end of the initial heap on.  There is then
    one heap for every local APIC, in their order, the invariant of the heaps holds, no
    object is in use, and the end of the heap is right after the pages.  If the kernel does
    not give them all, the result is an error.  (The APIC identifiers are different, and the
    heaps fit into the part of the address space set aside for them.) *)
Theorem initial_heaps_well_formed (m : Mem) (w : W) :
  NoDup (hp_lapics w) ->
  KERNEL_HEAP_INITIAL_SIZE + Z.of_nat (length (hp_lapics w)) * HEAP_INITIAL_BYTES <= KERNEL_HEAP_MAX_SIZE ->
  exists r m' w', initialize_multiple_heaps m w = Done (r, m', w') /\
    let start := KERNEL_HEAP_START + KERNEL_HEAP_INITIAL_SIZE in
    let n := (length (hp_lapics w) * (11 * 64))%nat in
    match r with
    | Ok mh => pages_given n w start w' /\ heap_end mh = start + Z.of_nat n * 8192 /\
        fst <$> heaps mh = hp_lapics w /\
        exists tss, heaps_wf mh m' tss /\ forall i j q, ~ heap_obj mh m' tss i j q
    | Err _ => forall w2, ~ pages_given n w start w2
    end.
Proof.
  intros Hnd Hroom. destruct (heaps_empty_wf m) as [Hw He].
  destruct (init_heaps_ok (hp_lapics w) heaps_empty m w [] Hw) as (r & m' & w' & E & Hr); [done | rewrite He; lia |].
  exists r, m', w'. split; [exact E |]. rewrite He in Hr. destruct r as [mh | e]; [| exact Hr].
  destruct Hr as [[Hgiven Hend] (tss & Hw' & Hk & Hobj)]. split; [exact Hgiven |]. split; [exact Hend |]. split; [done |].
  exists tss. split; [done |]. intros i j q (k & z & ts & Ei & _)%Hobj. done.
Qed.

(** ** Large objects *)

Variable size_of_large_allocation : Z.
Hypothesis large_bounds : 0 <= size_of_large_allocation < MAX_ALLOC_SIZE.

Lemma large_class : exists j c, get_slab (l_size (large_layout size_of_large_allocation)) = Base j /\ BASE_ALLOC_SIZES !! j = Some c.
Proof using large_bounds.
  cbn. pose proof (get_slab_spec size_of_large_allocation) as Hg.
  destruct (get_slab size_of_large_allocation) as [j | j |]; [| done | lia]. destruct Hg as (c & Ec & _). by exists j, c.
Qed.

(** The operations on the heaps leave the tree of large objects alone. *)
Lemma heap_allocate_large (mh : MultipleHeaps) (m : Mem) (key : Z) (layout : Layout) (r : result Z string) (mh' : MultipleHeaps) (m' : Mem) :
  heap_allocate mh m key layout = Done (r, mh', m') -> large_allocations mh' = large_allocations mh.
Proof using Type.
  unfold heap_allocate. destruct (heap_get (heaps mh) key); cbn [expect outcome_bind]; [| done].
  destruct (zone_allocate _ _ _) as [[[? ?] ?] |]; cbn [outcome_bind]; [| done]. by intros [= _ <- _].
Qed.

Lemma refill_heap_large (mh : MultipleHeaps) (m : Mem) (key : Z) (layout : Layout) (mp : MappedPages8k) (r : result unit string) (mh' : MultipleHeaps) (m' : Mem) :
  refill_heap mh m key layout mp = Done (r, mh', m') -> large_allocations mh' = large_allocations mh.
Proof using Type.
  unfold refill_heap. destruct (heap_get (heaps mh) key); cbn [expect outcome_bind]; [| done].
  destruct (zone_refill _ _ _ _) as [[[? ?] ?] |]; cbn [outcome_bind]; [| done]. by intros [= _ <- _].
Qed.

Lemma take_from_heaps_large (keys : list Z) (mh : MultipleHeaps) (m : Mem) (r : option MappedPages8k) (mh' : MultipleHeaps) (m' : Mem) :
  take_from_heaps keys mh m = Done (r, mh', m') -> large_allocations mh' = large_allocations mh.
Proof using Type.
  revert mh m. induction keys as [| key keys IH]; intros mh m; cbn [take_from_heaps]; [by intros [= _ <- _] |].
  destruct (heap_get (heaps mh) key); cbn [expect outcome_bind]; [| done].
  destruct (zone_retrieve_empty_page _ _ _) as [[[[mp |] ?] ?] |]; cbn [outcome_bind]; [by intros [= _ <- _] | | done].
  intros E. by rewrite (IH _ _ E).
Qed.

Lemma grow_from_os_large (n : nat) (mh : MultipleHeaps) (m : Mem) (w : W) (key : Z) (layout : Layout) (r : result unit string) (mh' : MultipleHeaps) (m' : Mem) (w' : W) :
  grow_from_os n mh m w key layout = Done (r, mh', m', w') -> large_allocations mh' = large_allocations mh.
Proof using Type.
  revert mh m w. induction n as [| n IH]; intros mh m w; cbn [grow_from_os]; [by intros [= _ <- _ _] |].
  destruct (new_heap_page m w (heap_end mh)) as [[[mp | e] m1] w1]; [| by intros [= _ <- _ _]].
  destruct (refill_heap _ _ _ _ _) as [[[[] mh1] m2] |] eqn:E; cbn [outcome_bind]; [| | done]; apply refill_heap_large in E; cbn in E.
  - intros E'. by rewrite (IH _ _ _ E').
  - by intros [= _ <- _ _].
Qed.

Lemma alloc_small_large (mh : MultipleHeaps) (m : Mem) (w : W) (layout : Layout) (p : Z) (mh' : MultipleHeaps) (m' : Mem) (w' : W) :
  alloc_small mh m w layout = Done (p, mh', m', w') -> large_allocations mh' = large_allocations mh.
Proof using Type.
  unfold alloc_small, grow_heap. destruct (heap_allocate mh m _ layout) as [[[[ptr | e] mh1] m1] |] eqn:E1; cbn [outcome_bind]; [| | done];
    apply heap_allocate_large in E1; [by intros [= _ <- _ _] |].
  destruct (take_from_heaps _ mh1 m1) as [[[[mp |] mh2] m2] |] eqn:E2; cbn [outcome_bind]; [| | done]; apply take_from_heaps_large in E2.
  - destruct (refill_heap _ _ _ _ _) as [[[[] mh3] m3] |] eqn:E3; cbn [outcome_bind]; [| | done]; apply refill_heap_large in E3; cbn in E3.
    + destruct (heap_allocate mh3 m3 _ layout) as [[[r mh4] m4] |] eqn:E4; cbn [outcome_bind]; [| done].
      apply heap_allocate_large in E4. intros [= _ <- _ _]. congruence.
    + intros [= _ <- _ _]. congruence.
  - destruct (grow_from_os _ mh2 m2 w _ layout) as [[[[[] mh3] m3] w3] |] eqn:E3; cbn [outcome_bind]; [| | done]; apply grow_from_os_large in E3.
    + destruct (heap_allocate mh3 m3 _ layout) as [[[r mh4] m4] |] eqn:E4; cbn [outcome_bind]; [| done].
      apply heap_allocate_large in E4. intros [= _ <- _ _]. congruence.
    + intros [= _ <- _ _]. congruence.
Qed.

Lemma dealloc_small_large (mh : MultipleHeaps) (m : Mem) (p : Z) (layout : Layout) (mh' : MultipleHeaps) (m' : Mem) :
  dealloc_small mh m p layout = Done (mh', m') -> large_allocations mh' = large_allocations mh.
Proof using Type.
  unfold dealloc_small. destruct (get_page m _); cbn [outcome_bind]; [| done]. destruct (heap_get _ _); cbn [expect outcome_bind]; [| done].
  destruct (zone_deallocate _ _ _ _) as [[[[] ?] ?] |]; cbn [outcome_bind unwrap]; [| done | done]. by intros [= <- _].
Qed.

Lemma heap_obj_nonzero (mh : MultipleHeaps) (m : Mem) (tss : list (list SCPages)) (i j : nat) (q c : Z) :
  heaps_wf mh m tss -> heap_obj mh m tss i j q -> BASE_ALLOC_SIZES !! j = Some c -> 0 < q.
Proof using Type.
  intros Hw (k & z & ts & Ei & Et & Ho) Hc. destruct (hw_zone _ _ _ Hw i k z ts Ei Et) as [Hz _].
  destruct (zone_obj_page m z ts j c q Hz Ho Hc) as (a & x & opp & _ & -> & Hx & _ & Ka). pose proof (po_range _ _ _ _ Ka). lia.
Qed.

(** A large object is a mapping of its own: [alloc] returns the address of the mapping
    the kernel has created, keeps the mapping in the tree under that address, and records it in an object of the current CPU's heap; the following [dealloc] unmaps that
    mapping, takes it out of the tree and returns the object, so that the heaps hold the
    objects they held before.  [alloc] gives the null pointer, and changes nothing, when
    there is no mapping; it panics when the heap has no room for the record, and then
    the kernel does not give the two pages at the end of the heap. *)
Theorem large_object_roundtrip (mh : MultipleHeaps) (m : Mem) (w : W) (tss : list (list SCPages)) (i : nat) (z : ZoneAllocator) (layout : Layout) :
  heaps_wf mh m tss -> MAX_ALLOC_SIZE < l_size layout ->
  let '(r, w1) := create_mapping w (l_size layout) HEAP_FLAGS in
  heaps mh !! i = Some (get_key w1, z) -> heap_end mh + 16384 <= KERNEL_HEAP_START + KERNEL_HEAP_MAX_SIZE ->
  match r with
  | Err _ => mh_alloc size_of_large_allocation mh m w layout = Done (0, mh, m, w1)
  | Ok mp =>
      (exists mh' m' w' link, mh_alloc size_of_large_allocation mh m w layout = Done (mapped_start mp, mh', m', w') /\
         large_allocations mh' = <[mapped_start mp := (mp, link)]> (large_allocations mh) /\
         exists mh'' m'' tss'', mh_dealloc size_of_large_allocation mh' m' w' (mapped_start mp) layout = Done (mh'', m'', km_unmap w' mp) /\
           heaps_wf mh'' m'' tss'' /\ large_allocations mh'' = delete (mapped_start mp) (large_allocations mh) /\
           forall i j q, heap_obj mh'' m'' tss'' i j q <-> heap_obj mh m tss i j q) \/
      (mh_alloc size_of_large_allocation mh m w layout = Panic /\
       forall w2, ~ pages_given 2 w1 (heap_end mh) w2)
  end.
Proof using laws large_bounds.
  intros Hw Hbig. destruct (create_mapping w (l_size layout) HEAP_FLAGS) as [r w1] eqn:Ec. intros Ei Hroom.
  unfold mh_alloc, mh_dealloc. destruct (Z.ltb_spec MAX_ALLOC_SIZE (l_size layout)); [| lia].
  unfold allocate_large_object. rewrite Ec. destruct r as [mp | e]; [| done].
  destruct large_class as (j & c & Hj & Hc).
  destruct (alloc_small_ok (large_layout size_of_large_allocation) j c Hj Hc) with (mh := mh) (m := m) (w := w1) (tss := tss) (i := i) (z := z)
    as (link & mh1 & m1 & w2 & tss1 & E & Hres); try done; [cbn; lia | by exists 1024 |].
  rewrite E. cbn [outcome_bind]. pose proof (alloc_small_large _ _ _ _ _ _ _ _ E) as Hl.
  destruct Hres as [[[T1 T2 T3 T4] _] | (-> & _ & [N1 N2 N3 N4])]; [left | by right].
  assert (heap_obj mh1 m1 tss1 i j link) as Ho by (apply T4; by right).
  pose proof (heap_obj_nonzero _ _ _ _ _ _ c T1 Ho Hc) as Hpos. destruct (Z.eqb_spec link 0); [lia |].
  eexists _, _, _, link. split; [done |]. split; [cbn; by rewrite Hl |].
  unfold deallocate_large_object. cbn [set_large large_allocations]. rewrite lookup_insert_eq. cbn [expect outcome_bind].
  set (mh2 := set_large _ _).
  assert (heaps_wf mh2 m1 tss1) as Hw2 by (destruct T1; by split).
  destruct (dealloc_small_ok mh2 m1 tss1 i j link (large_layout size_of_large_allocation) Hw2 Ho Hj) as (mh3 & m3 & tss3 & E3 & [F1 F2 F3]).
  pose proof (dealloc_small_large _ _ _ _ _ _ E3) as Hl3. rewrite E3. cbn [outcome_bind].
  exists mh3, m3, tss3. split; [done |]. split; [done |]. split; [rewrite Hl3; cbn; by rewrite delete_insert_eq, Hl |].
  intros i' j' q. rewrite F3. change (heap_obj mh2 m1 tss1 i' j' q) with (heap_obj mh1 m1 tss1 i' j' q). rewrite T4. split; [tauto |].
  intros Hq. split; [by left |]. intros (-> & -> & ->). destruct (T3 i j c link Hq Hc); pose proof (class_sizes j c Hc); lia.
Qed.

End HeapInit.
