(* ===== verification/HeapClaims.v ===== *)
(** * Properties of the kernel heap

    The theorems about the slab allocator, the per-CPU heaps and the block allocator, a
    machine of two CPUs on which they are applied, and what a double free and an over-aligned
    request do to the page lists. *)

From stdpp Require Import gmap.
From S2P Require Import Prelude MemStructs PageAlloc PteFlags PageTable Files SysState SysMemory Slab SlabBits SlabList SlabSpec SlabAlloc SlabZone Heaps HeapProps HeapBlocks HeapInit.

#[local] Existing Instance x86_arch.

(** ** Page lists *)

Lemma contains_from_ok (m : Mem) (pl : PageList) (l : list Z) (fuel i : nat) (s : Z) :
  list_repr m pl l -> (i <= length l < i + fuel)%nat -> contains_from fuel m (l !! i) s = Done (bool_decide (s ∈ drop i l)).
Proof.
  intros [[_ Hl] _ _]. revert i. induction fuel as [| fuel IH]; intros i Hlen; [lia |]. cbn [contains_from].
  destruct (l !! i) as [a |] eqn:Ei.
  2: { apply lookup_ge_None_1 in Ei. by rewrite drop_ge by lia. }
  destruct (Hl i a Ei) as (p & Ep & _ & Hnx). unfold get_page. rewrite Ep. cbn [expect outcome_bind].
  apply lookup_lt_Some in Ei as Hlt. rewrite (drop_S l a i Ei). destruct (Z.eqb_spec a s) as [-> | Hne].
  - f_equal. symmetry. apply bool_decide_true. by apply elem_of_cons; left.
  - rewrite Hnx, IH by lia. f_equal. apply bool_decide_ext. rewrite elem_of_cons. split; [by right | by intros [-> |]].
Qed.

(** C7: A [PageList] of raw links refines a list of pages: when following its links visits
    the pages [l], [insert_front] of a page that is not in the list makes it [a :: l],
    [remove_from_list] of the page at index [k] makes it [delete k l], [pop] takes the first
    page off, and [contains] decides membership.  No operation changes anything but the links
    of the pages of the list and of the page put in, and the page taken out is left without a
    successor, ready to be put into another list. *)
Theorem page_lists_refine_lists (m : Mem) (pl : PageList) (l : list Z) :
  list_repr m pl l ->
  (forall a p, a ∉ l -> m !! a = Some p -> pg_next p = None ->
     exists pl' m', insert_front pl m a = Done (pl', m') /\ list_repr m' pl' (a :: l) /\ relinked (a :: l) m m') /\
  (forall k a, l !! k = Some a ->
     exists pl' m', remove_from_list pl m a = Done (pl', m') /\ list_repr m' pl' (delete k l) /\ relinked l m m' /\
       pg_next <$> m' !! a = Some None) /\
  match l with
  | [] => pl_pop pl m = Done (None, pl, m)
  | a :: l' => exists pl' m', pl_pop pl m = Done (Some a, pl', m') /\ list_repr m' pl' l' /\ relinked l m m' /\
                 pg_next <$> m' !! a = Some None
  end /\
  (forall a, pl_contains pl m a = Done (bool_decide (a ∈ l))).
Proof.
  intros Hr. split; [| split; [| split]].
  - intros a p. by apply insert_front_ok.
  - intros k a. by apply remove_from_list_ok.
  - destruct l as [| a l]; [by apply pl_pop_nil | by apply pl_pop_ok].
  - intros a. unfold pl_contains. rewrite (proj1 (lr_links _ _ _ Hr)). pose proof (walk_fuel_enough _ _ _ Hr).
    rewrite (contains_from_ok m pl l _ 0 a Hr) by lia. done.
Qed.

Section Claims.
Context {bf : Bitflags} {pgl : PageLayout}.

(** ** Size classes *)

(** C8: A size class never panics on a request it can serve (the objects are large enough
    and the alignment divides the page size), and it reports that it is out of memory only
    when it has no empty page and none of its partial pages has a fit, in which case nothing
    has changed; when the alignment divides the object size, every slot of every page is then
    in use. *)
Theorem class_fails_only_when_full (m : Mem) (s : SCAllocator) (hid : Z) (t : SCPages) (layout : Layout) :
  sc_wf m s hid t -> 0 <= l_size layout <= sc_size s -> 0 < l_align layout -> (l_align layout | 8192) ->
  exists r s' m', sc_allocate s m layout = Done (r, s', m') /\
    match r with
    | Ok ptr => ~ sc_allocated m s t ptr
    | Err _ => s' = s /\ m' = m /\ l_e t = [] /\
        (forall a p, a ∈ l_p t -> m !! a = Some p -> page_first_fit p a (mkLayout (sc_size s) (l_align layout)) = None) /\
        ((l_align layout | sc_size s) ->
           forall a i, a ∈ sc_pages t -> 0 <= i < obj_per_page s -> sc_allocated m s t (a + i * sc_size s))
    end.
Proof.
  intros Hwf Hsz Hal Hd. destruct (sc_allocate_ok m s hid t layout Hwf Hsz Hal Hd) as [(ptr & s' & m' & t' & E & Hone & _) | [E (H1 & H2 & H3)]].
  - exists (Ok ptr), s', m'. split; [done |]. apply (os_before _ _ _ _ _ _ _ _ _ Hone).
  - eexists _, s, m. split; [exact E |]. split; [done |]. split; [done |]. split; [done |]. split; [done |].
    intros Hdv a i Ha Hi. exists a, i. split; [done |]. split; [done |]. split; [done |]. by apply (H3 Hdv a Ha).
Qed.

(** ** The per-CPU heaps *)

Context {W : Type} {km : KernelMemory W} {drop : DropPages W} {hp : HeapPages W} {laws : HeapPagesLaws W}.

(** C5: [alloc] of a size up to [MAX_ALLOC_SIZE] (with an alignment that divides the page
    size) returns.  It gives either an aligned object of the size's class in the current
    CPU's heap, at least as large as asked for, that overlaps no object in use in any heap,
    and nothing but that object is added to the objects in use; or the null pointer, and the
    objects in use are those before.  It gives the null pointer only when that heap has no
    empty page and the kernel does not give the two 8 KiB pages at the end of the heap that
    this call asks for.  Either way the invariant of the heaps holds afterwards.  (The current
    CPU has a heap, and the next two pages fit into the part of the address space set aside
    for the heap.) *)
Theorem cpu_alloc_hands_out_free_object (mh : MultipleHeaps) (m : Mem) (w : W) (tss : list (list SCPages)) (i : nat) (z : ZoneAllocator) (layout : Layout) :
  heaps_wf mh m tss -> heaps mh !! i = Some (get_key w, z) -> heap_end mh + 16384 <= KERNEL_HEAP_START + KERNEL_HEAP_MAX_SIZE ->
  0 <= l_size layout <= MAX_ALLOC_SIZE -> 0 < l_align layout -> (l_align layout | 8192) ->
  exists ptr mh' m' w' tss', alloc_small mh m w layout = Done (ptr, mh', m', w') /\ heaps_wf mh' m' tss' /\
    ((exists j c, get_slab (l_size layout) = Base j /\ BASE_ALLOC_SIZES !! j = Some c /\ l_size layout <= c /\
        0 < ptr /\ ptr mod l_align layout = 0 /\
        (forall i' j' d q, heap_obj mh m tss i' j' q -> BASE_ALLOC_SIZES !! j' = Some d -> ptr + c <= q \/ q + d <= ptr) /\
        (forall i' j' q, heap_obj mh' m' tss' i' j' q <-> heap_obj mh m tss i' j' q \/ (i' = i /\ j' = j /\ q = ptr))) \/
     (ptr = 0 /\ empty_pages z <= 0 /\ (forall w2, ~ pages_given 2 w (heap_end mh) w2) /\
      forall i' j' q, heap_obj mh' m' tss' i' j' q <-> heap_obj mh m tss i' j' q)).
Proof.
  intros Hw Ei Hroom Hsz Hal Hd. pose proof (get_slab_spec (l_size layout)) as Hg.
  destruct (get_slab (l_size layout)) as [j | j |] eqn:Ej; [| done | lia]. destruct Hg as (c & Ec & Hle & _).
  destruct (alloc_small_ok layout j c Ej Ec ltac:(lia) Hal Hd mh m w tss i z Hw Ei Hroom)
    as (ptr & mh' & m' & w' & tss' & E & [[[T1 T2 T3 T4] Hma] | (-> & He & [N1 N2 N3 N4])]).
  - exists ptr, mh', m', w', tss'. split; [done |]. split; [done |]. left. exists j, c. split; [done |]. split; [done |]. split; [done |].
    split; [| done]. apply (heap_obj_nonzero mh' m' tss' i j ptr c); [done | apply T4; by right | done].
  - exists 0, mh', m', w', tss'. split; [done |]. split; [done |]. by right.
Qed.

(** C6: [dealloc] of an object in use, with the size it was allocated with, returns it to
    the heap it was allocated from, whichever CPU runs: it finds the heap by the identifier
    in the object's page, does not panic, and takes exactly that object out of those in
    use. *)
Theorem cpu_dealloc_returns_to_owner (mh : MultipleHeaps) (m : Mem) (tss : list (list SCPages)) (i j : nat) (ptr : Z) (layout : Layout) :
  heaps_wf mh m tss -> heap_obj mh m tss i j ptr -> get_slab (l_size layout) = Base j ->
  exists mh' m' tss', dealloc_small mh m ptr layout = Done (mh', m') /\ heaps_wf mh' m' tss' /\
    (forall i' j' q, heap_obj mh' m' tss' i' j' q <-> heap_obj mh m tss i' j' q /\ ~ (i' = i /\ j' = j /\ q = ptr)) /\
    forall k z, heaps mh !! i = Some (k, z) -> pg_heap_id <$> m !! Z.land ptr (Z.lxor U64_MAX (SIZE - 1)) = Some k.
Proof.
  intros Hw Ho Hj. destruct (dealloc_small_ok mh m tss i j ptr layout Hw Ho Hj) as (mh' & m' & tss' & E & [F1 F2 F3]).
  exists mh', m', tss'. split; [done |]. split; [done |]. split; [done |]. intros k z Ei.
  destruct Ho as (k0 & z0 & ts & Ei0 & Et & Ho). assert (k0 = k /\ z0 = z) as [-> ->] by (split; congruence).
  destruct (hw_zone _ _ _ Hw i k z ts Ei Et) as [Hz Hk]. pose proof (get_slab_spec (l_size layout)) as Hg. rewrite Hj in Hg. destruct Hg as (c & Ec & _).
  destruct (zone_obj_page m z ts j c ptr Hz Ho Ec) as (a & x & opp & _ & -> & Hx & Hxc & [Ha1 [Ha2 Ha3] (p & mp & Ep & _ & _ & Hid & _) _]).
  pose proof (class_sizes j c Ec). rewrite (proj1 (page_of a x Ha1 Ha2 Ha3 ltac:(lia))), Ep. cbn. congruence.
Qed.

End Claims.

(** ** The block allocator *)

(** C10: The blocks of the initial allocator.  An allocation returns: either the null pointer,
    and the clients' blocks are those before, or a block at least as large as asked for and
    aligned, which overlaps no block a client holds.  The deallocation of a client's block,
    with the layout it was allocated with, gives the block back, and the next allocation of
    that block size is that block.  Both keep the invariant of the free lists. *)
Theorem blocks_never_overlap {F : Type} {fh : FallbackHeap F} {laws : FallbackLaws F}
    (b : FixedSizeBlockAllocator F) (fl : list (list Z)) (live : list (Z * Layout)) (layout : Layout) :
  blocks_wf b fl live -> valid_layout layout ->
  (exists ptr b' fl', blocks_allocate b layout = Done (ptr, b') /\
     (ptr = 0 /\ blocks_wf b' fl' live \/
      blocks_wf b' fl' ((ptr, layout) :: live) /\ l_size layout <= block_of layout /\ 0 < ptr /\ ptr mod l_align layout = 0 /\
      forall q l, (q, l) ∈ live -> ptr + block_of layout <= q \/ q + block_of l <= ptr)) /\
  (forall p live', live = (p, layout) :: live' ->
     exists b' fl', blocks_deallocate b p layout = Done b' /\ blocks_wf b' fl' live' /\
       forall l, list_index l = list_index layout -> is_Some (list_index layout) -> exists b'', blocks_allocate b' l = Done (p, b'')).
Proof.
  intros Hw Hv. split.
  - destruct (blocks_allocate_ok b fl live layout Hw Hv) as (ptr & b' & fl' & E & [H | (H & Hsz & Hma)]); exists ptr, b', fl'; (split; [done |]); [by left | right].
    split; [done |]. split; [done |]. split; [apply (bw_live _ _ _ H ptr layout); by apply elem_of_cons; left |]. split; [done |].
    intros q l Hin. apply (live_apart b' fl' live ptr q layout l H Hin).
  - intros p live' ->. destruct (blocks_deallocate_ok b fl live' p layout Hw) as (b' & fl' & E & H & Hn). exists b', fl'.
    split; [done |]. split; [done |]. intros l El Hs. destruct (Hn l El Hs) as (b'' & E'' & _). by exists b''.
Qed.

(** ** A machine of two CPUs

    Pages are allocated at every canonical address asked for, and mappings of their own from
    the page 16 on. *)

Module HeapDemo.

#[local] Existing Instance PteFlagsDemo.bits.

#[local] Program Instance page_layout : PageLayout := {| size_of_option_mp := 48 |}.
Next Obligation. lia. Qed.

Record World := mkWorld { cpu : Z }.

#[local] Instance world_mem : KernelMemory World := {|
  km_bytes _ _ := 0;
  km_store w _ _ := w;
  get_kernel_mmi_ref _ := true;
  km_allocate_pages w n := (Some (mkPages (mkRange 16 (16 + (n + 4095) / 4096 - 1))), w);
  km_map_pages w pages flags := (Ok (mkMapped 0 pages flags), w);
|}.

#[local] Instance world_drop : DropPages World := {| km_unmap w _ := w |}.

#[local] Instance world_pages : HeapPages World := {|
  hp_allocate_at w a n :=
    if (0 <=? a) && (a <? 2 ^ 64) && is_canonical_virtual_address a
    then (Ok (mkPages (mkRange (a / 4096) (a / 4096 + (n + 4095) / 4096 - 1))), w)
    else (Err "no pages"%string, w);
  hp_drop_pages w _ := w;
  hp_lapics _ := [0; 1];
  hp_current_cpu := cpu;
|}.

#[local] Instance world_laws : HeapPagesLaws World.
Proof.
  split; [| by intros w pages flags mp w' [= <- _]]. intros w a n pages w' Ha. cbn.
  destruct (_ && _) eqn:Hc; [| done]. apply andb_prop in Hc as [[?%Z.leb_le ?%Z.ltb_lt]%andb_prop Hcan]. intros [= <- <-].
  unfold range_start_address, start_address, addr_new_canonical. cbn [ap_pages r_start]. change PAGE_SIZE with 4096.
  assert (a / 4096 * 4096 = a) as -> by (pose proof (Z.div_mod a 4096); lia).
  rewrite wrap64_id by (unfold in_u64, U64_MAX; lia). apply (canonicalize_id (ops := virtual_ops)); [unfold in_u64, U64_MAX; lia | done].
Qed.

(** A heap for the CPU 1 without pages. *)
Definition zone1 : ZoneAllocator := match zone_new 1 with Done z => z | Panic => mkZone 1 [] end.
Definition heaps1 : MultipleHeaps := mkHeaps [(1, zone1)] ∅ (KERNEL_HEAP_START + KERNEL_HEAP_INITIAL_SIZE).
Definition no_pages : list SCPages := replicate MAX_BASE_SIZE_CLASSES (mkPages3 [] [] []).
Definition on_cpu1 : World := mkWorld 1.

Lemma heaps1_wf (m : Mem) : heaps_wf heaps1 m [no_pages].
Proof.
  destruct (zone_new_wf 1) as (z & Ez & Hid & Hz).
  assert (zone1 = z) as E1 by (unfold zone1; by rewrite Ez).
  split.
  - cbn. apply NoDup_singleton.
  - done.
  - cbn. intros [| i] k z' ts; [| done]. intros [= <- <-] [= <-]. rewrite E1. split; [apply Hz | done].
  - intros [| i] [| j] ts ts' x Hne; try done.
  - intros x (i & ts & Ei & j & t & Ej & Hx). destruct i as [| i]; [| done]. injection Ei as <-.
    apply lookup_replicate_1 in Ej as [-> _]. by apply not_elem_of_nil in Hx.
  - by vm_compute.
Qed.

(** The kernel of this machine has all pages of the heap. *)
Lemma demo_pages_given (n : nat) (w : World) (a : Z) :
  a mod 8192 = 0 -> KERNEL_HEAP_START <= a -> a + Z.of_nat n * 8192 <= KERNEL_HEAP_START + KERNEL_HEAP_MAX_SIZE ->
  pages_given n w a w.
Proof.
  change KERNEL_HEAP_START with 18446742424442109952. unfold KERNEL_HEAP_MAX_SIZE.
  revert a. induction n as [| n IH]; intros a Ha H1 H2; [done |]. exists w. split.
  - split; [done |]. assert (is_canonical_virtual_address a = true) as Hc.
    { apply is_canonical_virtual_iff; [unfold in_u64, U64_MAX; lia |]. right. lia. }
    eexists _, w, _. split.
    { cbn. rewrite Hc, (proj2 (Z.leb_le 0 a)), (proj2 (Z.ltb_lt a _)) by lia. cbn [andb]. reflexivity. }
    split; [reflexivity |]. split; [by vm_compute |].
    unfold mapped_size_in_bytes, size_in_bytes. cbn [mp_pages ap_pages].
    assert (0 <= a / 4096 < 2 ^ 52 - 10) by (split; [apply Z.div_pos | apply Z.div_lt_upper_bound]; lia).
    change ((8192 + 4095) / 4096) with 2. rewrite size_4k by (cbn [r_start r_end]; mem_consts; lia). cbn [r_start r_end].
    replace (Z.max 0 (a / 4096 + 2 - 1 + 1 - a / 4096)) with 2 by lia. by vm_compute.
  - apply IH; [| lia | lia]. apply Z.mod_divide in Ha as [u ->]; [| lia]. apply Z.mod_divide; [lia |]. exists (u + 1). lia.
Qed.

(** On this machine the set-up succeeds: both CPUs have a heap. *)
Lemma initial_heaps_well_formed_witness :
  exists mh m' w', initialize_multiple_heaps ∅ on_cpu1 = Done (Ok mh, m', w') /\ fst <$> heaps mh = [0; 1] /\
    exists tss, heaps_wf mh m' tss /\ forall i j q, ~ heap_obj mh m' tss i j q.
Proof.
  destruct (initial_heaps_well_formed ∅ on_cpu1) as (r & m' & w' & E & Hr);
    [cbn; apply NoDup_cons; split; [set_solver | apply NoDup_singleton] | by vm_compute |].
  destruct r as [mh | e].
  - destruct Hr as (_ & _ & Hk & Hw). exists mh, m', w'. split; [exact E |]. split; [exact Hk | exact Hw].
  - exfalso. apply (Hr on_cpu1). apply demo_pages_given; by vm_compute.
Defined.

Definition layout24 : Layout := mkLayout 24 8.

Lemma cpu_alloc_hands_out_free_object_witness :
  exists ptr mh' m' w' tss', alloc_small heaps1 ∅ on_cpu1 layout24 = Done (ptr, mh', m', w') /\ heaps_wf mh' m' tss' /\
    ((exists j c, get_slab 24 = Base j /\ BASE_ALLOC_SIZES !! j = Some c /\ 24 <= c /\ 0 < ptr /\ ptr mod 8 = 0 /\
        (forall i' j' d q, heap_obj heaps1 ∅ [no_pages] i' j' q -> BASE_ALLOC_SIZES !! j' = Some d -> ptr + c <= q \/ q + d <= ptr) /\
        (forall i' j' q, heap_obj mh' m' tss' i' j' q <-> heap_obj heaps1 ∅ [no_pages] i' j' q \/ (i' = 0%nat /\ j' = j /\ q = ptr)))).
Proof.
  destruct (cpu_alloc_hands_out_free_object heaps1 ∅ on_cpu1 [no_pages] 0 zone1 layout24)
    as (ptr & mh' & m' & w' & tss' & E & Hw & [H | (_ & _ & Hno & _)]);
    [apply heaps1_wf | done | by vm_compute | by vm_compute | done | by exists 1024 | |].
  - exists ptr, mh', m', w', tss'. split; [exact E |]. split; [exact Hw | exact H].
  - exfalso. apply (Hno on_cpu1). apply demo_pages_given; by vm_compute.
Defined.

(** An object of the 32-byte class: the heap has grown by two pages, and the object is the
    first one of the second. *)
Example first_object :
  exists mh' m' w', alloc_small heaps1 ∅ on_cpu1 layout24 = Done (KERNEL_HEAP_START + KERNEL_HEAP_INITIAL_SIZE + 8192, mh', m', w').
Proof. eexists _, _, _. vm_compute. reflexivity. Qed.

(** The state with that object. *)
Lemma state1 : exists mh m tss, heaps_wf mh m tss /\ heap_obj mh m tss 0 2 (KERNEL_HEAP_START + KERNEL_HEAP_INITIAL_SIZE + 8192).
Proof.
  assert (heap_end heaps1 + 16384 <= KERNEL_HEAP_START + KERNEL_HEAP_MAX_SIZE) as Hroom by (by vm_compute).
  assert ((8 | 8192)) as Hdiv by (by exists 1024).
  assert (heaps heaps1 !! 0%nat = Some (get_key on_cpu1, zone1)) as Hi by done.
  destruct (alloc_small_ok layout24 2 32 eq_refl eq_refl ltac:(cbn; lia) ltac:(cbn; lia) Hdiv heaps1 ∅ on_cpu1 [no_pages] 0 zone1 (heaps1_wf ∅) Hi Hroom)
    as (ptr & mh & m & w & tss & E & Hres).
  destruct first_object as (mh' & m' & w' & E'). assert (ptr = KERNEL_HEAP_START + KERNEL_HEAP_INITIAL_SIZE + 8192) as -> by (rewrite E' in E; by injection E).
  destruct Hres as [[[T1 T2 T3 T4] _] | (Hz & _)]; [| clear - Hz; vm_compute in Hz; discriminate].
  exists mh, m, tss. split; [exact T1 |]. apply T4. right. split; [reflexivity |]. split; reflexivity.
Qed.

Lemma cpu_dealloc_returns_to_owner_witness :
  exists mh m tss mh' m' tss', dealloc_small mh m (KERNEL_HEAP_START + KERNEL_HEAP_INITIAL_SIZE + 8192) layout24 = Done (mh', m') /\
    heaps_wf mh' m' tss' /\
    forall i' j' q, heap_obj mh' m' tss' i' j' q <->
      heap_obj mh m tss i' j' q /\ ~ (i' = 0%nat /\ j' = 2%nat /\ q = KERNEL_HEAP_START + KERNEL_HEAP_INITIAL_SIZE + 8192).
Proof.
  destruct state1 as (mh & m & tss & Hw & Ho). exists mh, m, tss.
  destruct (cpu_dealloc_returns_to_owner mh m tss 0 2 _ layout24 Hw Ho eq_refl) as (mh' & m' & tss' & E & Hw' & Hobj & _).
  by exists mh', m', tss'.
Defined.

(** ** One size class *)

(** The class of 2048 bytes, three objects to a page, with the page at 8192. *)
Definition mp_at (a : Z) : MappedPages8k := mkMapped8k (mkMapped 0 (mkPages (mkRange (a / 4096) (a / 4096 + 1))) X86_WRITABLE).

Definition class_2048 : SCAllocator := mkSC 2048 0 3 pl_new pl_new pl_new.
Definition class_max : SCAllocator := mkSC 8056 0 1 pl_new pl_new pl_new.

Definition run {A} (o : outcome A) (d : A) : A := match o with Done a => a | Panic => d end.

Definition class1 : SCAllocator * Mem := run (sc_refill class_2048 ∅ (mp_at 8192) 7) (class_2048, ∅).

Lemma class1_wf : sc_wf class1.2 class1.1 7 (mkPages3 [8192] [] []).
Proof.
  destruct (sc_new_wf 2048 7) as (s & Es & _ & Hwf); [by vm_compute |].
  assert (s = class_2048) as -> by (vm_compute in Es; injection Es as <-; reflexivity).
  destruct (sc_refill_ok ∅ class_2048 7 (mkPages3 [] [] []) (mp_at 8192) (Hwf ∅)) as (s' & m' & E & [H _ _ _]); try by vm_compute.
  { apply not_elem_of_nil. }
  unfold class1. rewrite E. exact H.
Qed.

Lemma class_fails_only_when_full_witness :
  exists r s' m', sc_allocate class1.1 class1.2 (mkLayout 2000 16) = Done (r, s', m') /\
    match r with
    | Ok ptr => ~ sc_allocated class1.2 class1.1 (mkPages3 [8192] [] []) ptr
    | Err _ => True
    end.
Proof.
  destruct (class_fails_only_when_full class1.2 class1.1 7 (mkPages3 [8192] [] []) (mkLayout 2000 16) class1_wf) as (r & s' & m' & E & H);
    [by vm_compute | done | by exists 512 |]. exists r, s', m'. split; [exact E |]. by destruct r.
Defined.

Lemma page_lists_refine_lists_witness :
  exists pl' m', pl_pop (empty_slabs class1.1) class1.2 = Done (Some 8192, pl', m') /\ list_repr m' pl' [] /\
    pl_contains (empty_slabs class1.1) class1.2 8192 = Done true.
Proof.
  destruct (page_lists_refine_lists class1.2 (empty_slabs class1.1) [8192] (lo_e _ _ _ (wf_lists _ _ _ _ class1_wf))) as (_ & _ & (pl' & m' & E & H & _) & Hc).
  exists pl', m'. split; [exact E |]. split; [done |]. by rewrite Hc.
Defined.

(** ** Large objects *)

Lemma large_object_roundtrip_witness :
  exists mp, (create_mapping on_cpu1 100000 HEAP_FLAGS).1 = Ok mp /\
    ((exists mh' m' w' link, mh_alloc 64 heaps1 ∅ on_cpu1 (mkLayout 100000 8) = Done (mapped_start mp, mh', m', w') /\
       large_allocations mh' = <[mapped_start mp := (mp, link)]> (large_allocations heaps1) /\
       exists mh'' m'' tss'', mh_dealloc 64 mh' m' w' (mapped_start mp) (mkLayout 100000 8) = Done (mh'', m'', km_unmap w' mp) /\
         heaps_wf mh'' m'' tss'' /\ large_allocations mh'' = delete (mapped_start mp) (large_allocations heaps1) /\
         forall i j q, heap_obj mh'' m'' tss'' i j q <-> heap_obj heaps1 ∅ [no_pages] i j q) \/
     (mh_alloc 64 heaps1 ∅ on_cpu1 (mkLayout 100000 8) = Panic /\
      forall w2, ~ pages_given 2 on_cpu1 (heap_end heaps1) w2)).
Proof.
  eexists. split; [reflexivity |].
  apply (large_object_roundtrip 64 ltac:(by vm_compute) heaps1 ∅ on_cpu1 [no_pages] 0 zone1 (mkLayout 100000 8)); [apply heaps1_wf | done | done | by vm_compute].
Defined.

(** ** A fallback allocator that hands out one block after the other *)

Definition Bump : Type := Z * list (Z * Z).

Definition apart_b (x y : Z * Z) : bool := (x.1 + x.2 <=? y.1) || (y.1 + y.2 <=? x.1).

Fixpoint remove_block (x : Z * Z) (l : list (Z * Z)) : list (Z * Z) :=
  match l with [] => [] | y :: l => if decide (x = y) then l else y :: remove_block x l end.

#[local] Instance bump : FallbackHeap Bump := {|
  fb_empty := (0, []);
  fb_init f start size := (start, f.2);
  allocate_first_fit f l :=
    let p := (f.1 + l_align l - 1) / l_align l * l_align l in
    if (0 <? p) && (p mod l_align l =? 0) && forallb (apart_b (p, l_size l)) f.2
    then (Some p, (p + l_size l, (p, l_size l) :: f.2)) else (None, f);
  fb_deallocate f p l := (f.1, remove_block (p, l_size l) f.2);
|}.

#[local] Program Instance bump_laws : FallbackLaws Bump := {| fb_blocks := snd |}.
Next Obligation.
  intros [n bs] l p f'. cbn. destruct (_ && _) eqn:Hc; [| done]. apply andb_prop in Hc as [[Hp%Z.ltb_lt Hm%Z.eqb_eq]%andb_prop Hf].
  intros [= <- <-]. split; [done |]. split; [done |]. split; [done |]. rewrite forallb_forall in Hf. intros y Hy.
  specialize (Hf y (proj1 (list_elem_of_In _ _) Hy)). unfold apart_b in Hf. apply orb_prop in Hf as [?%Z.leb_le | ?%Z.leb_le]; [by left | by right].
Qed.
Next Obligation. intros [n bs] l f'. cbn. destruct (_ && _); [done |]. by intros [= <-]. Qed.
Next Obligation.
  intros [n bs] p l. cbn. induction bs as [| y bs IH]; [by intros ?%not_elem_of_nil |]. cbn. case_decide as Hd; [by intros _; rewrite Hd |].
  intros [? | Hin]%elem_of_cons; [done |]. rewrite <- (IH Hin) at 2. apply perm_swap.
Qed.

Definition blocks0 : FixedSizeBlockAllocator Bump := blocks_init blocks_new 4096 65536.

Lemma blocks0_wf : blocks_wf blocks0 (replicate 9 []) [].
Proof.
  split; [done | | done | done | |].
  - intros i h l [-> _]%lookup_replicate_1 [-> _]%lookup_replicate_1. by split.
  - intros i s l a _ [-> _]%lookup_replicate_1 Ha. by apply not_elem_of_nil in Ha.
  - by intros p l ?%not_elem_of_nil.
Qed.

Lemma blocks_never_overlap_witness :
  exists ptr b' fl', blocks_allocate blocks0 (mkLayout 100 8) = Done (ptr, b') /\
     (ptr = 0 /\ blocks_wf b' fl' [] \/
      blocks_wf b' fl' [(ptr, mkLayout 100 8)] /\ 100 <= block_of (mkLayout 100 8) /\ 0 < ptr /\ ptr mod 8 = 0 /\
      forall q l, (q, l) ∈ ([] : list (Z * Layout)) -> ptr + block_of (mkLayout 100 8) <= q \/ q + block_of l <= ptr).
Proof.
  apply (blocks_never_overlap blocks0 (replicate 9 []) [] (mkLayout 100 8) blocks0_wf). split; [done |]. exists 3. done.
Defined.

(** ** What a double free does

    Freeing an object twice is reported as an error, but when the page has become empty with
    the first deallocation, the second one takes the page out of the list it is not in and
    puts it into the list of empty pages once more, where it is linked to itself. *)

Definition lay2000 : Layout := mkLayout 2000 8.

Definition after_double_free : result unit string * SCAllocator * Mem :=
  run (let* (r, s, m) := sc_allocate class1.1 class1.2 lay2000 in
       let* (r, s, m) := sc_deallocate s m 8192 lay2000 in
       sc_deallocate s m 8192 lay2000) (Ok tt, class_2048, ∅).

(** The second deallocation returns the error; the page is its own successor, and the counter
    of the partial pages has wrapped around. *)
Example double_free_corrupts_lists :
  after_double_free.1.1 = Err "deallocate: pointer not marked allocated (double-free)" /\
  pg_next <$> after_double_free.2 !! 8192 = Some (Some 8192) /\
  elements (slabs after_double_free.1.2) = U64_MAX /\ elements (empty_slabs after_double_free.1.2) = 2.
Proof. split; [| split; [| split]]; vm_compute; reflexivity. Qed.

(** From then on an object is handed out in a page that is also still the head of the empty
    pages: the page is given away with the object in use, and its memory is handed out
    again by the class that takes it. *)
Example double_free_overlaps :
  (let* (r1, s, m) := sc_allocate after_double_free.1.2 after_double_free.2 lay2000 in
   let* (mp, s, m) := sc_retrieve_empty_page s m in
   let* mp := expect mp in
   let* (s2, m) := sc_refill class_max m mp 7 in
   let* (r2, s2, m) := sc_allocate s2 m (mkLayout 5000 8) in
   Done (r1, r2)) = Done (Ok 8192, Ok 8192).
Proof. vm_compute. reflexivity. Qed.

(** ** What an over-aligned request does

    A request whose alignment is larger than a page finds no fit in an empty page, which
    nevertheless becomes a partial page.  In the class of one object to a page, the next
    request then moves it to the full pages, from where its deallocation does not take it
    out: the page is in two lists. *)

Definition after_overaligned : result Z string * SCAllocator * Mem :=
  run (let* (s, m) := sc_refill class_max ∅ (mp_at 8192) 7 in sc_allocate s m (mkLayout 5000 16384)) (Ok 0, class_max, ∅).

Example overaligned_request_breaks_lists :
  after_overaligned.1.1 = Err "AllocationError::OutOfMemory" /\
  (let* (r, s, m) := sc_allocate after_overaligned.1.2 after_overaligned.2 (mkLayout 5000 8) in
   let* (r, s, m) := sc_deallocate s m 8192 (mkLayout 5000 8) in
   Done (r, pl_head (empty_slabs s), pl_head (full_slabs s), elements (slabs s))) = Done (Ok tt, Some 8192, Some 8192, U64_MAX).
Proof. split; vm_compute; reflexivity. Qed.

(** The first object of an empty page is not counted. *)
Example first_allocation_not_counted :
  (let* (r, s, m) := sc_allocate class1.1 class1.2 lay2000 in
   let n := allocation_count s in
   let* (r', s, m) := sc_allocate s m lay2000 in
   Done (r, n, r', allocation_count s)) = Done (Ok 8192, 0, Ok 10240, 1).
Proof. vm_compute. reflexivity. Qed.

(** The empty page that is given away is one of the first class that has any, not of the one
    that has most. *)
Definition refill_n (n : nat) (size base : Z) (zm : ZoneAllocator * Mem) : outcome (ZoneAllocator * Mem) :=
  (fix go n zm := match n with
                  | O => Done zm
                  | S n => let* (r, z, m) := zone_refill zm.1 zm.2 (mkLayout size 8) (mp_at (base + 8192 * Z.of_nat n)) in go n (z, m)
                  end) n zm.

Example first_class_gives_the_page :
  (let* z := zone_new 7 in
   let* zm := refill_n 1 8 8192 (z, ∅) in
   let* zm := refill_n 3 64 65536 zm in
   let* (r, z, m) := zone_retrieve_empty_page zm.1 zm.2 0 in
   Done (mp8k_start_address <$> r, (fun s => elements (empty_slabs s)) <$> take 4 (small_slabs z))) =
  Done (Some 8192, [0; 0; 0; 3]).
Proof. vm_compute. reflexivity. Qed.

End HeapDemo.
