(* ===== verification/MpmcQueue.v ===== *)
(** * The queue of nodes

    [libs/mpmc_queue/src/lib.rs]: a first-in first-out queue of boxed nodes linked by raw
    pointers, with pointers to the first and the last node and an atomic counter of the
    nodes.  The nodes live in an explicit memory; a pointer is an address, a new box has an
    address that is not in use, and following a pointer to no node is [Panic].

    The pointers are read and written under the lock of the queue, so an operation on them is
    one function of queue and memory.  [queue_pop] looks at the counter before it takes the lock:
    that look is [pop_fast] and the part under the lock is [pop_locked]; the models of
    concurrent users run them as separate steps. *)

From stdpp Require Import gmap.
From S2P Require Import Prelude.

Record Node (A : Type) := mkNode { n_item : A; n_next : option Z }.
Arguments mkNode {A} n_item n_next.
Arguments n_item {A} n.
Arguments n_next {A} n.

Record Queue := mkQueue { q_head : option Z; q_tail : option Z; q_len : Z }.

Definition queue_new : Queue := mkQueue None None 0.

Definition queue_len (q : Queue) : Z := q_len q.

Definition queue_is_empty (q : Queue) : bool := queue_len q =? 0.

Section Operations.
Context {A : Type}.

Abbreviation Nodes := (gmap Z (Node A)).

Definition node_new (item : A) : Node A := mkNode item None.

(** A box at a new address. *)
Definition box_pointer (n : Node A) (m : Nodes) : Z * Nodes :=
  let a := fresh (dom m) in (a, <[a := n]> m).

Definition node_set_next (a : Z) (next : option Z) (m : Nodes) : outcome Nodes :=
  let* n := expect (m !! a) in Done (<[a := mkNode (n_item n) next]> m).

Definition push_inner (q : Queue) (m : Nodes) (head tail : Z) (len : Z) : outcome (Queue * Nodes) :=
  let* (first, m) :=
    match q_tail q with
    | Some tail_pointer => let* m := node_set_next tail_pointer (Some head) m in Done (q_head q, m)
    | None => Done (Some head, m)
    end in
  Done (mkQueue first (Some tail) (wrap64 (q_len q + len)), m).

Definition queue_push (q : Queue) (m : Nodes) (item : A) : outcome (Queue * Nodes) :=
  let '(node, m) := box_pointer (node_new item) m in push_inner q m node node 1.

(** The condition runs under the lock; it may change a state of its own. *)
Definition push_if_fail {W R E : Type} (q : Queue) (m : Nodes) (w : W) (item : A) (condition : W -> result R E * W)
    : outcome (result R E * Queue * Nodes * W) :=
  match condition w with
  | (Ok value, w) => Done (Ok value, q, m, w)
  | (Err e, w) =>
      let '(node, m) := box_pointer (node_new item) m in
      let* (q, m) := push_inner q m node node 1 in
      Done (Err e, q, m, w)
  end.

(** The loop of [push_batch]: the last node and the number of nodes so far. *)
Fixpoint link_batch (l : list A) (m : Nodes) (tail : Z) (len : Z) : outcome (Z * Z * Nodes) :=
  match l with
  | [] => Done (tail, len, m)
  | x :: l =>
      let '(next, m) := box_pointer (node_new x) m in
      let* m := node_set_next tail (Some next) m in
      link_batch l m next (len + 1)
  end.

Definition push_batch (q : Queue) (m : Nodes) (l : list A) : outcome (Queue * Nodes) :=
  match l with
  | [] => Done (q, m)
  | x :: l =>
      let '(first, m) := box_pointer (node_new x) m in
      let* (tail, len, m) := link_batch l m first 1 in
      push_inner q m first tail len
  end.

Definition pop_fast (q : Queue) : bool := queue_is_empty q.

Definition pop_locked (q : Queue) (m : Nodes) : outcome (option A * Queue * Nodes) :=
  match q_head q with
  | None => Done (None, mkQueue None (q_tail q) (q_len q), m)
  | Some current_head =>
      let* n := expect (m !! current_head) in
      let tail := match n_next n with None => None | Some _ => q_tail q end in
      Done (Some (n_item n), mkQueue (n_next n) tail (wrap64 (q_len q - 1)), delete current_head m)
  end.

Definition queue_pop (q : Queue) (m : Nodes) : outcome (option A * Queue * Nodes) :=
  if pop_fast q then Done (None, q, m) else pop_locked q m.

(** ** What the queue holds *)

(** The chain of nodes from [p] to [e] holds the items of [l] at the addresses [ps]. *)
Fixpoint linked (m : Nodes) (p : option Z) (ps : list Z) (l : list A) (e : option Z) : Prop :=
  match ps, l with
  | [], [] => p = e
  | a :: ps, x :: l => p = Some a /\ exists nx, m !! a = Some (mkNode x nx) /\ linked m nx ps l e
  | _, _ => False
  end.

(** [q] holds [l]: the chain from the head visits distinct nodes, which are all the nodes
    in use, the tail is the last of them and the counter their number. *)
Record queue_at (q : Queue) (m : Nodes) (ps : list Z) (l : list A) : Prop := {
  qa_linked : linked m (q_head q) ps l None;
  qa_nodup : NoDup ps;
  qa_tail : q_tail q = last ps;
  qa_len : q_len q = Z.of_nat (length l);
  qa_nodes : dom m = list_to_set ps;
}.

Definition queue_repr (q : Queue) (m : Nodes) (l : list A) : Prop :=
  (exists ps, queue_at q m ps l) /\ Z.of_nat (length l) <= U64_MAX.

(** ** Chains *)

Lemma linked_length (m : Nodes) p ps l e : linked m p ps l e -> length ps = length l.
Proof.
  revert p l. induction ps as [| a ps IH]; intros p [| x l]; simpl; try done.
  intros (_ & nx & _ & H). by rewrite (IH _ _ H).
Qed.

Lemma linked_app (m : Nodes) p ps1 ps2 l1 l2 mid e :
  linked m p ps1 l1 mid -> linked m mid ps2 l2 e -> linked m p (ps1 ++ ps2) (l1 ++ l2) e.
Proof.
  revert p l1. induction ps1 as [| a ps1 IH]; intros p [| x l1]; simpl; try done; [by intros -> |].
  intros (-> & nx & Ha & H1) H2. split; [done |]. exists nx. split; [done | by apply IH].
Qed.

(** A chain does not depend on nodes outside it. *)
Lemma linked_ext (m m' : Nodes) p ps l e :
  (forall a, a ∈ ps -> m' !! a = m !! a) -> linked m p ps l e -> linked m' p ps l e.
Proof.
  revert p l. induction ps as [| a ps IH]; intros p [| x l] Heq; simpl; try done.
  intros (-> & nx & Ha & H). split; [done |]. exists nx. split.
  - rewrite Heq; [done | by left].
  - apply IH; [| done]. intros b Hb. apply Heq. by right.
Qed.

(** Linking the last node of a chain to [e]. *)
Lemma linked_set_next (m : Nodes) p ps l (t : Z) (e : option Z) :
  linked m p ps l None -> NoDup ps -> last ps = Some t ->
  exists m', node_set_next t e m = Done m' /\ linked m' p ps l e /\ dom m' = dom m /\
    (forall a, a <> t -> m' !! a = m !! a).
Proof.
  intros Hl Hnd Ht. apply last_Some in Ht as [pre ->].
  assert (exists y, m !! t = Some y) as [[y ny] Ey].
  { clear Hnd. revert p l Hl. induction pre as [| b pre IH]; intros p [| x l]; simpl; try done.
    - intros (-> & nx & Ha & _). by exists (mkNode x nx).
    - intros (-> & nx & _ & H). by eapply IH. }
  exists (<[t := mkNode y e]> m). split; [unfold node_set_next; by rewrite Ey |].
  split; [| split; [apply dom_insert_lookup_L; by eexists | intros a Ha; by rewrite lookup_insert_ne]].
  apply NoDup_app in Hnd as (_ & Hd & _).
  assert (t ∉ pre) as Hni by (intros Hin; apply (Hd t Hin); by left). clear Hd.
  revert p l Hl. induction pre as [| b pre IH]; intros p [| x l]; simpl; try done.
  - intros (-> & nx & Ha & H). rewrite Ey in Ha. injection Ha as <- <-. split; [done |].
    exists e. rewrite lookup_insert_eq. split; [done |]. by destruct l.
  - intros (-> & nx & Ha & H). split; [done |]. exists nx.
    apply not_elem_of_cons in Hni as [Hne Hni]. rewrite lookup_insert_ne by done. split; [done |]. by apply IH.
Qed.

Lemma box_pointer_fresh (n : Node A) (m : Nodes) (a : Z) m' :
  box_pointer n m = (a, m') -> m !! a = None /\ m' = <[a := n]> m.
Proof.
  unfold box_pointer. intros [= <- <-]. split; [| done]. apply not_elem_of_dom. apply is_fresh.
Qed.

(** ** Operations on a queue that holds a list *)

Lemma queue_new_repr : queue_repr queue_new (∅ : Nodes) [].
Proof. split; [| by vm_compute]. exists []. split; simpl; auto using NoDup_nil_2. Qed.

(** Appending a chain of nodes that are not in the queue. *)
Lemma push_inner_at (q : Queue) (m : Nodes) ps l (a t : Z) bs xs len :
  linked m (q_head q) ps l None -> q_tail q = last ps -> q_len q = Z.of_nat (length l) ->
  linked m (Some a) bs xs None -> last bs = Some t -> NoDup (ps ++ bs) -> dom m = list_to_set (ps ++ bs) ->
  len = Z.of_nat (length xs) -> Z.of_nat (length (l ++ xs)) <= U64_MAX ->
  exists q' m', push_inner q m a t len = Done (q', m') /\ queue_repr q' m' (l ++ xs).
Proof.
  intros Hq Ht Hn Hb Hlast Hnd Hdom -> Hlen. rewrite length_app in Hlen.
  assert (wrap64 (q_len q + Z.of_nat (length xs)) = Z.of_nat (length (l ++ xs))) as Hw.
  { rewrite length_app. rewrite wrap64_id; [lia | unfold in_u64; lia]. }
  assert (last (ps ++ bs) = Some t) as Hl by (by rewrite last_app, Hlast).
  unfold push_inner. destruct (q_tail q) as [tp |] eqn:Etl.
  - pose proof Hnd as Hnd'. apply NoDup_app in Hnd' as (Hp & Hd & _).
    destruct (linked_set_next m (q_head q) ps l tp (Some a) Hq Hp (eq_sym Ht)) as (m' & -> & Hl' & Hdom' & Hother).
    cbn [outcome_bind]. eexists _, m'. split; [done |]. split; [| rewrite length_app; lia].
    exists (ps ++ bs). constructor; cbn [q_head q_tail q_len]; auto; [| by rewrite Hdom'].
    eapply linked_app; [exact Hl' |]. eapply linked_ext; [| exact Hb]. intros b Hb'. apply Hother. intros ->.
    apply (Hd tp); [| done]. symmetry in Ht. apply last_Some in Ht as [pre ->]. apply elem_of_app. right. by left.
  - cbn [outcome_bind]. eexists _, m. split; [done |]. split; [| rewrite length_app; lia].
    symmetry in Ht. apply last_None in Ht as ->. destruct l as [| x l]; [| by destruct Hq].
    exists bs. by constructor.
Qed.

Lemma push_ok (q : Queue) (m : Nodes) l (x : A) :
  queue_repr q m l -> Z.of_nat (length l) < U64_MAX ->
  exists q' m', queue_push q m x = Done (q', m') /\ queue_repr q' m' (l ++ [x]).
Proof.
  intros [[ps [Hq Hnd Ht Hn Hdom]] _] Hlen. unfold queue_push. destruct (box_pointer (node_new x) m) as [a m'] eqn:E.
  apply box_pointer_fresh in E as [Ha ->].
  assert (a ∉ ps) as Hni. { apply not_elem_of_dom in Ha. rewrite Hdom in Ha. by rewrite elem_of_list_to_set in Ha. }
  apply (push_inner_at q _ ps l a a [a] [x] 1); auto.
  - eapply linked_ext; [| exact Hq]. intros b Hb. rewrite lookup_insert_ne; [done | by intros ->].
  - simpl. split; [done |]. exists None. by rewrite lookup_insert_eq.
  - apply NoDup_app. split_and!; [done | | apply NoDup_singleton]. intros b Hb Hba. apply list_elem_of_singleton in Hba. by subst.
  - rewrite dom_insert_L, Hdom, list_to_set_app_L. set_solver.
  - rewrite length_app. simpl. lia.
Qed.

(** The batch is linked outside the queue: its chain grows at the end. *)
Lemma link_batch_ok (l : list A) (m : Nodes) (p : option Z) bs xs (t : Z) (ps : list Z) :
  linked m p bs xs None -> last bs = Some t -> NoDup (ps ++ bs) -> dom m = list_to_set (ps ++ bs) ->
  exists m' bs' t', link_batch l m t (Z.of_nat (length xs)) = Done (t', Z.of_nat (length (xs ++ l)), m') /\
    linked m' p bs' (xs ++ l) None /\ last bs' = Some t' /\ NoDup (ps ++ bs') /\
    dom m' = list_to_set (ps ++ bs') /\ (forall a, a ∈ ps -> m' !! a = m !! a).
Proof.
  revert m bs xs t. induction l as [| x l IH]; intros m bs xs t Hl Ht Hnd Hdom.
  - exists m, bs, t. by rewrite app_nil_r.
  - cbn [link_batch]. destruct (box_pointer (node_new x) m) as [a m1] eqn:E.
    apply box_pointer_fresh in E as [Ha ->]. apply not_elem_of_dom in Ha. rewrite Hdom in Ha.
    rewrite elem_of_list_to_set in Ha. apply not_elem_of_app in Ha as [Hps Hbs].
    assert (linked (<[a := node_new x]> m) p bs xs None) as Hl1.
    { eapply linked_ext; [| exact Hl]. intros b Hb. rewrite lookup_insert_ne; [done | by intros ->]. }
    assert (NoDup bs) as Hb by (by apply NoDup_app in Hnd as (_ & _ & ?)).
    assert (t ∈ bs) as Hin by (apply last_Some in Ht as [? ->]; apply elem_of_app; right; by left).
    destruct (linked_set_next _ p bs xs t (Some a) Hl1 Hb Ht) as (m2 & -> & Hl2 & Hdom2 & Hother).
    cbn [outcome_bind].
    replace (Z.of_nat (length xs) + 1) with (Z.of_nat (length (xs ++ [x]))) by (rewrite length_app; simpl; lia).
    replace (xs ++ x :: l) with ((xs ++ [x]) ++ l) by (by rewrite <- app_assoc).
    destruct (IH m2 (bs ++ [a]) (xs ++ [x]) a) as (m' & bs' & t' & Hrun & H1 & H2 & H3 & H4 & H5).
    + eapply linked_app; [exact Hl2 |]. simpl. split; [done |]. exists None.
      rewrite Hother by (by intros ->). by rewrite lookup_insert_eq.
    + by rewrite last_snoc.
    + rewrite app_assoc. apply NoDup_app. split_and!; [done | | apply NoDup_singleton].
      intros b Hb' Hba. apply list_elem_of_singleton in Hba as ->. apply elem_of_app in Hb' as [?|?]; done.
    + rewrite Hdom2, dom_insert_L, Hdom, app_assoc, (list_to_set_app_L (ps ++ bs)). set_solver.
    + exists m', bs', t'. split_and!; try done. intros b Hb'. rewrite H5 by done.
      apply NoDup_app in Hnd as (_ & Hd & _). rewrite Hother by (intros ->; by apply (Hd t)).
      rewrite lookup_insert_ne; [done | by intros ->].
Qed.

Lemma push_batch_ok (q : Queue) (m : Nodes) l (xs : list A) :
  queue_repr q m l -> Z.of_nat (length (l ++ xs)) <= U64_MAX ->
  exists q' m', push_batch q m xs = Done (q', m') /\ queue_repr q' m' (l ++ xs).
Proof.
  intros [[ps [Hq Hnd Ht Hn Hdom]] Hb] Hlen. destruct xs as [| x xs].
  { exists q, m. rewrite app_nil_r. split; [done |]. split; [| done]. exists ps. by constructor. }
  cbn [push_batch]. destruct (box_pointer (node_new x) m) as [a m1] eqn:E. apply box_pointer_fresh in E as [Ha ->].
  assert (a ∉ ps) as Hni. { apply not_elem_of_dom in Ha. rewrite Hdom in Ha. by rewrite elem_of_list_to_set in Ha. }
  destruct (link_batch_ok xs (<[a := node_new x]> m) (Some a) [a] [x] a ps) as (m' & bs & t & Hrun & H1 & H2 & H3 & H4 & H5); auto.
  - simpl. split; [done |]. exists None. by rewrite lookup_insert_eq.
  - apply NoDup_app. split_and!; [done | | apply NoDup_singleton]. intros b Hb' Hba. apply list_elem_of_singleton in Hba. by subst.
  - rewrite dom_insert_L, Hdom, list_to_set_app_L. set_solver.
  - change (Z.of_nat (length [x])) with 1 in Hrun. rewrite Hrun. cbn [outcome_bind].
    apply (push_inner_at q m' ps l a t bs (x :: xs)); auto.
    eapply linked_ext; [| exact Hq]. intros b Hb'. rewrite H5 by done. rewrite lookup_insert_ne; [done | by intros ->].
Qed.

Lemma pop_locked_ok (q : Queue) (m : Nodes) l :
  queue_repr q m l ->
  exists q' m', pop_locked q m = Done (head l, q', m') /\ queue_repr q' m' (tail l).
Proof.
  intros [[ps [Hq Hnd Ht Hn Hdom]] Hlen]. unfold pop_locked. destruct ps as [| a ps], l as [| x l]; try done.
  - simpl in Hq. rewrite Hq. eexists _, m. split; [done |]. split; [| done]. exists []. by constructor.
  - destruct Hq as (Hh & nx & Ha & Hl). rewrite Hh, Ha. cbn [expect outcome_bind n_next n_item].
    eexists _, (delete a m). split; [done |]. apply NoDup_cons in Hnd as [Hni Hnd].
    simpl in Hlen. split; [| simpl; lia]. exists ps. constructor; cbn [q_head q_tail q_len tail]; auto.
    + eapply linked_ext; [| exact Hl]. intros b Hb. rewrite lookup_delete_ne; [done | by intros ->].
    + destruct ps as [| b ps], l as [| y l]; simpl in Hl; [by subst | done | done |]. destruct Hl as (-> & _).
      by rewrite Ht.
    + rewrite Hn. simpl length. rewrite wrap64_id; [lia | unfold in_u64; lia].
    + rewrite dom_delete_L, Hdom. simpl. apply set_eq. intros b.
      rewrite elem_of_difference, elem_of_union, elem_of_list_to_set, !elem_of_singleton. split; [tauto |].
      intros Hb. split; [by right | by intros ->].
Qed.

Lemma pop_ok (q : Queue) (m : Nodes) l :
  queue_repr q m l -> exists q' m', queue_pop q m = Done (head l, q', m') /\ queue_repr q' m' (tail l).
Proof.
  intros Hr. unfold queue_pop, pop_fast, queue_is_empty, queue_len. destruct (Z.eqb_spec (q_len q) 0) as [E | _].
  - exists q, m. pose proof Hr as [[ps [_ _ _ Hn _]] _]. destruct l; [done | simpl in Hn; lia].
  - by apply pop_locked_ok.
Qed.

(** A waiter's condition runs under the lock: when it fails the item is appended. *)
Lemma push_if_fail_ok {W R E : Type} (q : Queue) (m : Nodes) (w : W) l (x : A) (condition : W -> result R E * W) :
  queue_repr q m l -> Z.of_nat (length l) < U64_MAX ->
  exists q' m', push_if_fail q m w x condition = Done (fst (condition w), q', m', snd (condition w)) /\
    queue_repr q' m' (match fst (condition w) with Ok _ => l | Err _ => l ++ [x] end).
Proof.
  intros Hr Hlen. unfold push_if_fail. destruct (condition w) as [[v | e] w']; cbn [fst snd]; [by exists q, m |].
  destruct (push_ok q m l x Hr Hlen) as (q' & m' & Hp & Hr'). exists q', m'. split; [| done].
  unfold queue_push in Hp. destruct (box_pointer (node_new x) m) as [a m1]. by rewrite Hp.
Qed.

(** ** Sequences of operations *)

Inductive QueueOp := OpPush (x : A) | OpPushBatch (xs : list A) | OpPop.

Fixpoint run_queue (ops : list QueueOp) (q : Queue) (m : Nodes) : outcome (list A * Queue * Nodes) :=
  match ops with
  | [] => Done ([], q, m)
  | OpPush x :: ops => let* (q, m) := queue_push q m x in run_queue ops q m
  | OpPushBatch xs :: ops => let* (q, m) := push_batch q m xs in run_queue ops q m
  | OpPop :: ops =>
      let* (o, q, m) := queue_pop q m in
      let* (out, q, m) := run_queue ops q m in
      Done (match o with Some x => x :: out | None => out end, q, m)
  end.

(** What the operations do to a list: the items popped, and the items left. *)
Fixpoint run_fifo (ops : list QueueOp) (l : list A) : list A * list A :=
  match ops with
  | [] => ([], l)
  | OpPush x :: ops => run_fifo ops (l ++ [x])
  | OpPushBatch xs :: ops => run_fifo ops (l ++ xs)
  | OpPop :: ops =>
      let '(out, rest) := run_fifo ops (tail l) in
      (match l with x :: _ => x :: out | [] => out end, rest)
  end.

Definition pushed (op : QueueOp) : list A :=
  match op with OpPush x => [x] | OpPushBatch xs => xs | OpPop => [] end.

(** C35: A queue of linked nodes is a first-in first-out list: whatever sequence of [queue_push],
    [push_batch] and [queue_pop] runs on a queue that holds [l], no pointer to a freed node is
    followed, the items popped are those a list gives, the links, the last-node pointer and
    the counter describe what the list holds then, and no node is leaked. *)
Theorem queue_refines_fifo (ops : list QueueOp) (q : Queue) (m : Nodes) (l : list A) :
  queue_repr q m l -> Z.of_nat (length (l ++ concat (pushed <$> ops))) <= U64_MAX ->
  exists q' m', run_queue ops q m = Done (fst (run_fifo ops l), q', m') /\
    queue_repr q' m' (snd (run_fifo ops l)) /\ size m' = length (snd (run_fifo ops l)).
Proof.
  revert q m l. induction ops as [| op ops IH]; intros q m l Hr Hlen.
  - exists q, m. split; [done |]. split; [done |]. destruct Hr as [[ps [Hl Hnd _ _ Hdom]] _]. simpl.
    by rewrite <- size_dom, Hdom, size_list_to_set, (linked_length _ _ _ _ _ Hl).
  - rewrite fmap_cons, concat_cons, app_assoc, length_app in Hlen. destruct op as [x | xs |]; cbn [run_queue run_fifo pushed] in *.
    + destruct (push_ok q m l x Hr) as (q' & m' & -> & Hr'); [rewrite length_app in Hlen; simpl in Hlen; lia |].
      apply IH; [done | by rewrite length_app].
    + destruct (push_batch_ok q m l xs Hr) as (q' & m' & -> & Hr'); [lia |].
      apply IH; [done | by rewrite length_app].
    + destruct (pop_ok q m l Hr) as (q' & m' & -> & Hr'). cbn [outcome_bind].
      destruct (IH q' m' (tail l) Hr') as (q2 & m2 & Hrun & H2).
      { rewrite app_nil_r in Hlen. rewrite length_app. destruct l; simpl in *; lia. }
      destruct (run_fifo ops (tail l)) as [out rest]. rewrite Hrun. cbn [outcome_bind fst snd] in *.
      exists q2, m2. split; [| done]. by destruct l.
Qed.

End Operations.

Module QueueDemo.

Definition queue_ops : list (QueueOp (A := Z)) :=
  [OpPush 1; OpPop; OpPop; OpPushBatch [2; 3; 4]; OpPush 5; OpPop; OpPop].

(** An item goes through an empty queue and leaves it empty, a batch is linked, two items
    remain. *)
Lemma queue_refines_fifo_witness :
  exists q m, run_queue queue_ops queue_new ∅ = Done ([1; 2; 3], q, m) /\ queue_repr q m [4; 5] /\ size m = 2%nat.
Proof.
  apply (queue_refines_fifo queue_ops queue_new ∅ []); [apply queue_new_repr | by vm_compute].
Defined.

End QueueDemo.
