(* ===== verification/SchedulerApi.v ===== *)
(** * Schedulers behind one interface

    [kernel/task/src/scheduler.rs]: the trait every scheduling policy implements, and the
    operations of the kernel on the list of all schedulers and on the scheduler of the current
    CPU.  The trait is the class [Scheduler], with the laws a client relies on in
    [SchedulerLaws]; a trait object is a type packed with its instance and a value
    ([DynScheduler]).  A scheduler is shared by the list and by the variable of its CPU
    (an [Arc]), so schedulers live in a store and both hold the key of an entry.

    [kernel/scheduler_round_robin/src/lib.rs]: the round-robin policy.

    The epoch, priority and round-robin schedulers are instances of the class and satisfy its
    laws; the theorems on the kernel's operations are proved from the laws alone. *)

From stdpp Require Import gmap.
From S2P Require Import Prelude SchedTask EpochSched PrioritySched.

(** ** The trait *)

Record PriorityOps (S : Type) := mkPriorityOps {
  po_set_priority : TaskRef -> Z -> S -> bool * S;
  po_priority : TaskRef -> S -> option Z;
}.
Arguments mkPriorityOps {S} _ _.
Arguments po_set_priority {S} _ _ _ _.
Arguments po_priority {S} _ _ _.

(** [next] reads the tasks, the id of the current task and the clock. *)
Class Scheduler (S : Type) := {
  sch_next : Tasks -> TaskRef -> Z -> S -> TaskRef * S;
  sch_add : TaskRef -> S -> S;
  sch_busyness : S -> Z;
  sch_remove : TaskRef -> S -> bool * S;
  as_priority_scheduler : option (PriorityOps S);
  sch_drain : S -> list TaskRef * S;
  sch_tasks : S -> list TaskRef;
  sch_idle : S -> TaskRef;
}.

(** What the kernel relies on: the run queue is a collection of tasks.  [next] only
    reorders it and picks a runnable task of it, or the idle task; [remove] takes a task
    that is queued once off the queue and says whether it was there. *)
Class SchedulerLaws (S : Type) {sc : Scheduler S} := {
  add_tasks t s : Permutation (sch_tasks (sch_add t s)) (t :: sch_tasks s);
  busyness_length s : sch_busyness s = Z.of_nat (length (sch_tasks s));
  remove_found t s : fst (sch_remove t s) = bool_decide (t ∈ sch_tasks s);
  remove_tasks t s : NoDup (sch_tasks s) ->
    Permutation (sch_tasks (snd (sch_remove t s))) (filter (fun x => x <> t) (sch_tasks s));
  drain_all s : Permutation (fst (sch_drain s)) (sch_tasks s);
  drain_empty s : sch_tasks (snd (sch_drain s)) = [];
  next_tasks ts cur now s : Permutation (sch_tasks (snd (sch_next ts cur now s))) (sch_tasks s);
  next_runnable ts cur now s :
    (fst (sch_next ts cur now s) ∈ sch_tasks s /\ is_runnable ts (fst (sch_next ts cur now s)) = true) \/
    fst (sch_next ts cur now s) = sch_idle s;
  set_priority_tasks po t p s : as_priority_scheduler = Some po -> NoDup (sch_tasks s) ->
    Permutation (sch_tasks (snd (po_set_priority po t p s))) (sch_tasks s);
}.

(** ** The round-robin policy *)

Record RRScheduler := mkRR { rr_idle : TaskRef; rr_queue : list TaskRef }.

Definition rr_new (idle : TaskRef) : RRScheduler := mkRR idle [].

(** [VecDeque::swap_remove_front]: the element at the index is replaced by the front one. *)
Definition swap_remove_front {A} (i : nat) (l : list A) : option (A * list A) :=
  match l !! i, l with
  | Some x, front :: _ => Some (x, tail (<[i := front]> l))
  | _, _ => None
  end.

Definition rr_candidate (ts : Tasks) (current_id t : TaskRef) : bool :=
  is_runnable ts t && negb (t =? current_id).

Definition rr_next (ts : Tasks) (current_id : TaskRef) (s : RRScheduler) : TaskRef * RRScheduler :=
  match find_index (rr_candidate ts current_id) (rr_queue s) with
  | Some task_index =>
      match swap_remove_front task_index (rr_queue s) with
      | Some (task, q) => (task, mkRR (rr_idle s) (q ++ [task]))
      | None => (rr_idle s, s)
      end
  | None => (rr_idle s, s)
  end.

Definition rr_busyness (s : RRScheduler) : Z := Z.of_nat (length (rr_queue s)).

Definition rr_add (t : TaskRef) (s : RRScheduler) : RRScheduler := mkRR (rr_idle s) (rr_queue s ++ [t]).

Definition rr_remove (t : TaskRef) (s : RRScheduler) : bool * RRScheduler :=
  let q := filter (fun x => x <> t) (rr_queue s) in
  (negb (Nat.eqb (length q) (length (rr_queue s))), mkRR (rr_idle s) q).

Definition rr_drain (s : RRScheduler) : list TaskRef * RRScheduler := (rr_queue s, mkRR (rr_idle s) []).

Definition rr_tasks (s : RRScheduler) : list TaskRef := rr_queue s.

(** ** The rest of the priority policy *)

Definition prio_tasks (s : PriorityScheduler) : list TaskRef := pr_task <$> p_queue s.

Definition prio_drain (s : PriorityScheduler) : list TaskRef * PriorityScheduler :=
  (prio_tasks s, mkPrioSched (p_idle s) []).

(** ** Instances *)

#[export] Instance rr_scheduler : Scheduler RRScheduler := {
  sch_next ts cur _ s := rr_next ts cur s;
  sch_add := rr_add;
  sch_busyness := rr_busyness;
  sch_remove := rr_remove;
  as_priority_scheduler := None;
  sch_drain := rr_drain;
  sch_tasks := rr_tasks;
  sch_idle := rr_idle;
}.

#[export] Instance epoch_scheduler : Scheduler EpochScheduler := {
  sch_next ts _ _ s := epoch_next ts s;
  sch_add := epoch_add;
  sch_busyness s := Z.of_nat (epoch_busyness s);
  sch_remove := epoch_remove;
  as_priority_scheduler := Some (mkPriorityOps epoch_set_priority epoch_priority);
  sch_drain := epoch_drain;
  sch_tasks := epoch_tasks;
  sch_idle := idle_task;
}.

(** The order inside the [BinaryHeap] is a parameter of the priority policy. *)
#[export] Instance prio_scheduler (heap : list PriorityTaskRef -> list PriorityTaskRef) : Scheduler PriorityScheduler := {
  sch_next ts cur now s := prio_next heap ts cur now s;
  sch_add := prio_add heap;
  sch_busyness s := Z.of_nat (prio_busyness s);
  sch_remove := prio_remove heap;
  as_priority_scheduler := Some (mkPriorityOps (prio_set_priority heap) prio_priority);
  sch_drain := prio_drain;
  sch_tasks := prio_tasks;
  sch_idle := p_idle;
}.

(** ** Trait objects and the kernel's schedulers *)

(** [dyn Scheduler]. *)
Record DynScheduler := Dyn { dyn_type : Type; dyn_class : Scheduler dyn_type; dyn_state : dyn_type }.
Arguments Dyn {dyn_type} {dyn_class} dyn_state.

Definition dyn_tasks (d : DynScheduler) : list TaskRef := sch_tasks (Scheduler := dyn_class d) (dyn_state d).
Definition dyn_busyness (d : DynScheduler) : Z := sch_busyness (Scheduler := dyn_class d) (dyn_state d).
Definition dyn_add (t : TaskRef) (d : DynScheduler) : DynScheduler :=
  Dyn (dyn_class := dyn_class d) (sch_add (Scheduler := dyn_class d) t (dyn_state d)).
Definition dyn_remove (t : TaskRef) (d : DynScheduler) : bool * DynScheduler :=
  let '(b, s) := sch_remove (Scheduler := dyn_class d) t (dyn_state d) in (b, Dyn (dyn_class := dyn_class d) s).
Definition dyn_drain (d : DynScheduler) : list TaskRef * DynScheduler :=
  let '(l, s) := sch_drain (Scheduler := dyn_class d) (dyn_state d) in (l, Dyn (dyn_class := dyn_class d) s).
Definition dyn_next (ts : Tasks) (cur : TaskRef) (now : Z) (d : DynScheduler) : TaskRef * DynScheduler :=
  let '(t, s) := sch_next (Scheduler := dyn_class d) ts cur now (dyn_state d) in (t, Dyn (dyn_class := dyn_class d) s).
Definition dyn_idle (d : DynScheduler) : TaskRef := sch_idle (Scheduler := dyn_class d) (dyn_state d).
Definition dyn_priority (t : TaskRef) (d : DynScheduler) : option Z :=
  match as_priority_scheduler (Scheduler := dyn_class d) with
  | Some po => po_priority po t (dyn_state d)
  | None => None
  end.
Definition dyn_set_priority (t : TaskRef) (p : Z) (d : DynScheduler) : option (bool * DynScheduler) :=
  match as_priority_scheduler (Scheduler := dyn_class d) with
  | Some po => let '(b, s) := po_set_priority po t p (dyn_state d) in Some (b, Dyn (dyn_class := dyn_class d) s)
  | None => None
  end.

Definition lawful (d : DynScheduler) : Prop := SchedulerLaws (dyn_type d) (sc := dyn_class d).

Definition ArcId : Type := Z.

(** The schedulers behind their [Arc]s, the list [SCHEDULERS] and the variable [SCHEDULER]
    of every CPU. *)
Record Scheds := mkScheds {
  arcs : gmap ArcId DynScheduler;
  SCHEDULERS : list (Z * ArcId);
  SCHEDULER : gmap Z ArcId;
}.

Definition set_arc (a : ArcId) (d : DynScheduler) (w : Scheds) : Scheds :=
  mkScheds (<[a := d]> (arcs w)) (SCHEDULERS w) (SCHEDULER w).

Fixpoint least_busy (w : Scheds) (l : list (Z * ArcId)) (i : nat) (min_busyness : Z) (least : option nat)
    : outcome (option nat) :=
  match l with
  | [] => Done least
  | (_, a) :: l =>
      let* d := expect (arcs w !! a) in
      let busyness := dyn_busyness d in
      if busyness <? min_busyness then least_busy w l (S i) busyness (Some i)
      else least_busy w l (S i) min_busyness least
  end.

Definition add_to_arc (a : ArcId) (t : TaskRef) (w : Scheds) : outcome Scheds :=
  let* d := expect (arcs w !! a) in Done (set_arc a (dyn_add t d) w).

Definition add_task (t : TaskRef) (w : Scheds) : outcome Scheds :=
  let* least := least_busy w (SCHEDULERS w) 0 U64_MAX None in
  let* i := expect least in
  let* (_, a) := expect (SCHEDULERS w !! i) in
  add_to_arc a t w.

(** The first entry of a CPU in the list. *)
Definition find_cpu (cpu : Z) (l : list (Z * ArcId)) : option ArcId :=
  snd <$> find (fun e => fst e =? cpu) l.

Definition add_task_to (cpu_id : Z) (t : TaskRef) (w : Scheds) : outcome Scheds :=
  match find_cpu cpu_id (SCHEDULERS w) with
  | Some a => add_to_arc a t w
  | None => Done w
  end.

Definition add_task_to_current (me : Z) (t : TaskRef) (w : Scheds) : outcome Scheds :=
  let* a := expect (SCHEDULER w !! me) in add_to_arc a t w.

Definition remove_from_arc (a : ArcId) (t : TaskRef) (w : Scheds) : outcome (bool * Scheds) :=
  let* d := expect (arcs w !! a) in
  let '(b, d) := dyn_remove t d in Done (b, set_arc a d w).

Fixpoint remove_loop (l : list (Z * ArcId)) (t : TaskRef) (w : Scheds) : outcome (bool * Scheds) :=
  match l with
  | [] => Done (false, w)
  | (_, a) :: l =>
      let* (b, w) := remove_from_arc a t w in
      if b : bool then Done (true, w) else remove_loop l t w
  end.

Definition remove_task (t : TaskRef) (w : Scheds) : outcome (bool * Scheds) := remove_loop (SCHEDULERS w) t w.

Definition remove_task_from (t : TaskRef) (cpu_id : Z) (w : Scheds) : outcome (bool * Scheds) :=
  match find_cpu cpu_id (SCHEDULERS w) with
  | Some a => remove_from_arc a t w
  | None => Done (false, w)
  end.

Definition remove_task_from_current (me : Z) (t : TaskRef) (w : Scheds) : outcome (bool * Scheds) :=
  let* a := expect (SCHEDULER w !! me) in remove_from_arc a t w.

(** [set_policy], run on CPU [me].  The list is searched for [cpu_id], but the tasks moved
    are those of the current CPU's scheduler.  The [debug_assert] on the two handles is not
    compiled into the kernel's release build. *)
Definition set_policy (me cpu_id : Z) (d : DynScheduler) (w : Scheds) : outcome Scheds :=
  let a := fresh (dom (arcs w)) in
  match SCHEDULER w !! me with
  | Some old =>
      let l := match find_index (fun e => fst e =? cpu_id) (SCHEDULERS w) with
               | Some i => swap_remove i (SCHEDULERS w)
               | None => SCHEDULERS w
               end in
      let* od := expect (arcs w !! old) in
      let '(moved, od) := dyn_drain od in
      let d := fold_left (fun d t => dyn_add t d) moved d in
      Done (mkScheds (<[a := d]> (<[old := od]> (arcs w))) (l ++ [(cpu_id, a)]) (<[me := a]> (SCHEDULER w)))
  | None => Done (mkScheds (<[a := d]> (arcs w)) (SCHEDULERS w ++ [(cpu_id, a)]) (<[me := a]> (SCHEDULER w)))
  end.

(** The task [schedule] picks on CPU [me]. *)
Definition schedule_next (ts : Tasks) (me : Z) (cur : TaskRef) (now : Z) (w : Scheds) : outcome (TaskRef * Scheds) :=
  let* a := expect (SCHEDULER w !! me) in
  let* d := expect (arcs w !! a) in
  let '(t, d) := dyn_next ts cur now d in Done (t, set_arc a d w).

Fixpoint priority_loop (l : list (Z * ArcId)) (t : TaskRef) (w : Scheds) : outcome (option Z) :=
  match l with
  | [] => Done None
  | (_, a) :: l =>
      let* d := expect (arcs w !! a) in
      match dyn_priority t d with Some p => Done (Some p) | None => priority_loop l t w end
  end.

Definition priority (t : TaskRef) (w : Scheds) : outcome (option Z) := priority_loop (SCHEDULERS w) t w.

Fixpoint set_priority_loop (l : list (Z * ArcId)) (t : TaskRef) (p : Z) (w : Scheds) : outcome (bool * Scheds) :=
  match l with
  | [] => Done (false, w)
  | (_, a) :: l =>
      let* d := expect (arcs w !! a) in
      match dyn_set_priority t p d with
      | Some (true, d) => Done (true, set_arc a d w)
      | Some (false, d) => set_priority_loop l t p (set_arc a d w)
      | None => set_priority_loop l t p w
      end
  end.

Definition set_priority (t : TaskRef) (p : Z) (w : Scheds) : outcome (bool * Scheds) :=
  set_priority_loop (SCHEDULERS w) t p w.

Definition busyness (cpu_id : Z) (w : Scheds) : outcome (option Z) :=
  match find_cpu cpu_id (SCHEDULERS w) with
  | Some a => let* d := expect (arcs w !! a) in Done (Some (dyn_busyness d))
  | None => Done None
  end.

(** [scheduler::inherit_priority]: [current] is the running task.  The guard remembers the
    priority to restore. *)
Definition Guard : Type := option (TaskRef * Z).

Definition raise_priority (current t : TaskRef) (w : Scheds) : outcome (Guard * Scheds) :=
  let* current_priority := priority current w in
  let* other_priority := priority t w in
  match current_priority, other_priority with
  | Some c, Some o =>
      if o <? c then let* (_, w) := set_priority t c w in Done (Some (t, o), w)
      else Done (None, w)
  | _, _ => Done (None, w)
  end.

(** Dropping the guard. *)
Definition drop_guard (g : Guard) (w : Scheds) : outcome Scheds :=
  match g with
  | Some (t, p) => let* (_, w) := set_priority t p w in Done w
  | None => Done w
  end.

Fixpoint cpu_tasks (w : Scheds) (l : list (Z * ArcId)) : outcome (list (Z * list TaskRef)) :=
  match l with
  | [] => Done []
  | (cpu, a) :: l =>
      let* d := expect (arcs w !! a) in
      let* rest := cpu_tasks w l in
      Done ((cpu, dyn_tasks d) :: rest)
  end.

(** [tasks]: the list of tasks of every CPU. *)
Definition all_cpu_tasks (w : Scheds) : outcome (list (Z * list TaskRef)) := cpu_tasks w (SCHEDULERS w).
