(* ===== verification/SchedulerProps.v ===== *)
(** * Properties of the scheduler interface

    The three policies satisfy the laws of the interface, and the operations of the kernel
    on the list of schedulers keep every task on one run queue ([scheds_ok]).  The latter
    are proved from the laws, for any mixture of policies. *)

From stdpp Require Import gmap.
From S2P Require Import Prelude SchedTask EpochSched PrioritySched SchedulerApi.

(** ** The policies satisfy the laws *)

Lemma swap_remove_front_Permutation {A} (i : nat) (x : A) (l : list A) :
  l !! i = Some x -> exists q, swap_remove_front i l = Some (x, q) /\ Permutation l (x :: q).
Proof.
  intros Hi. unfold swap_remove_front. rewrite Hi. destruct l as [| f l]; [done |].
  eexists. split; [done |]. destruct i as [| i]; simpl in *; [by injection Hi as -> |].
  apply list_elem_of_split_length in Hi as (l1 & l2 & -> & ->).
  rewrite insert_app_r_alt, Nat.sub_diag by lia. simpl.
  rewrite <- !Permutation_middle. apply Permutation_swap.
Qed.

Lemma filter_absent (t : TaskRef) (l : list TaskRef) : t ∉ l -> filter (fun x => x <> t) l = l.
Proof.
  induction l as [| x l IH]; [done |]. intros [Hne Hni]%not_elem_of_cons. rewrite filter_cons_True by congruence. by rewrite IH.
Qed.

Lemma length_filter_ne (t : TaskRef) (l : list TaskRef) :
  negb (Nat.eqb (length (filter (fun x => x <> t) l)) (length l)) = bool_decide (t ∈ l).
Proof.
  induction l as [| x l IH]; [done |]. rewrite filter_cons. destruct (decide (x <> t)) as [Hne | Heq].
  - simpl. rewrite IH. apply bool_decide_ext. rewrite elem_of_cons. split; [by right | intros [-> |]; done].
  - apply dec_stable in Heq as ->. rewrite bool_decide_true by by left.
    pose proof (length_filter (fun x => x <> t) l). simpl. destruct (Nat.eqb_spec (length (filter (fun x => x <> t) l)) (S (length l))); [lia | done].
Qed.

#[export] Instance rr_laws : SchedulerLaws RRScheduler.
Proof.
  split; simpl.
  - intros t s. symmetry. apply Permutation_cons_append.
  - done.
  - intros t s. apply length_filter_ne.
  - done.
  - done.
  - done.
  - intros ts cur _ s. unfold rr_next. destruct (find_index _ _) as [i |] eqn:E; [| done].
    apply find_index_Some in E as [(x & Hx & _) _]. destruct (swap_remove_front_Permutation _ _ _ Hx) as (q & -> & Hp).
    simpl. unfold rr_tasks. simpl. rewrite Hp. symmetry. apply Permutation_cons_append.
  - intros ts cur _ s. unfold rr_next. destruct (find_index _ _) as [i |] eqn:E; [| by right].
    apply find_index_Some in E as [(x & Hx & Hc) _]. destruct (swap_remove_front_Permutation _ _ _ Hx) as (q & -> & Hp).
    left. simpl. split; [by eapply list_elem_of_lookup_2 |]. unfold rr_candidate in Hc. by apply andb_prop in Hc as [-> _].
  - done.
Qed.

Lemma epoch_find_task (t : TaskRef) (s : EpochScheduler) :
  match find_index (fun e => bool_decide (ep_task e = t)) (queue s) with
  | Some i => epoch_tasks s !! i = Some t
  | None => t ∉ epoch_tasks s
  end.
Proof.
  unfold epoch_tasks. destruct (find_index _ _) as [i |] eqn:E.
  - apply find_index_Some in E as [(e & He & Ht) _]. apply bool_decide_eq_true in Ht. by rewrite list_lookup_fmap, He, <- Ht.
  - apply find_index_None in E. intros Hin. apply list_elem_of_fmap in Hin as (e & -> & He).
    rewrite Forall_forall in E. specialize (E e He). by apply bool_decide_eq_false in E.
Qed.

Lemma filter_delete (t : TaskRef) (l : list TaskRef) (i : nat) :
  NoDup l -> l !! i = Some t -> delete i l = filter (fun x => x <> t) l.
Proof.
  revert i. induction l as [| x l IH]; intros i Hnd Hi; [done |]. apply NoDup_cons in Hnd as [Hni Hnd].
  rewrite filter_cons. destruct i as [| i]; simpl in *.
  - injection Hi as ->. destruct (decide (t <> t)) as [| _]; [done |]. symmetry. by apply filter_absent.
  - destruct (decide (x <> t)) as [_ | Heq]; [by rewrite IH |]. apply dec_stable in Heq as ->.
    exfalso. apply Hni. by eapply list_elem_of_lookup_2.
Qed.

Lemma set_first_priority_tasks (t : TaskRef) (p : Z) (q : list EpochTaskRef) :
  ep_task <$> snd (set_first_priority t p q) = ep_task <$> q.
Proof.
  induction q as [| e q IH]; [done |]. cbn [set_first_priority]. destruct (bool_decide (ep_task e = t)); [done |].
  destruct (set_first_priority t p q) as [b r]. cbn [snd] in *. by rewrite !fmap_cons, IH.
Qed.

Lemma assign_tokens_tasks (ts : Tasks) (s : EpochScheduler) : epoch_tasks (assign_tokens ts s) = epoch_tasks s.
Proof.
  unfold assign_tokens. destruct (_ =? 0); [done |]. unfold epoch_tasks, set_queue. cbn [queue].
  rewrite <- list_fmap_compose. by apply list_fmap_ext.
Qed.

Lemma try_next_tasks (ts : Tasks) (s : EpochScheduler) o s' :
  try_next ts s = (o, s') ->
  Permutation (epoch_tasks s') (epoch_tasks s) /\ idle_task s' = idle_task s /\
  match o with Some t => t ∈ epoch_tasks s /\ is_runnable ts t = true | None => True end.
Proof.
  intros H. destruct (try_next_cases ts s) as [[E _] | (i & e & Hi & Ht & _ & E)]; rewrite E in H; injection H as <- <-; [done |].
  unfold epoch_tasks, set_queue. cbn [queue idle_task]. rewrite fmap_app. simpl. split_and!; [| done | |].
  - rewrite (delete_Permutation _ _ _ Hi) at 2. simpl. symmetry. apply Permutation_cons_append.
  - apply list_elem_of_fmap_2. by eapply list_elem_of_lookup_2.
  - unfold has_turn in Ht. by apply andb_prop in Ht as [-> _].
Qed.

#[export] Instance epoch_laws : SchedulerLaws EpochScheduler.
Proof.
  split; simpl.
  - intros t s. unfold epoch_add, epoch_tasks, set_queue. cbn [queue]. rewrite fmap_app. symmetry. apply Permutation_cons_append.
  - intros s. unfold epoch_busyness, epoch_tasks. by rewrite length_fmap.
  - intros t s. pose proof (epoch_find_task t s) as H. unfold epoch_remove. destruct (find_index _ _); symmetry; simpl.
    + apply bool_decide_true. by eapply list_elem_of_lookup_2.
    + by apply bool_decide_false.
  - intros t s Hnd. pose proof (epoch_find_task t s) as H. unfold epoch_remove. destruct (find_index _ _) as [i |]; simpl.
    + rewrite <- (filter_delete t _ i) by done. unfold epoch_tasks, set_queue. cbn [queue].
      by rewrite <- list_fmap_delete.
    + by rewrite filter_absent.
  - done.
  - done.
  - intros ts _ _ s. unfold epoch_next. destruct (try_next ts s) as [[t |] s1] eqn:E1; apply try_next_tasks in E1 as (H1 & _); [done |].
    destruct (try_next ts (assign_tokens ts s1)) as [[t |] s2] eqn:E2; apply try_next_tasks in E2 as (H2 & _);
      simpl; by rewrite H2, assign_tokens_tasks.
  - intros ts _ _ s. unfold epoch_next. destruct (try_next ts s) as [[t |] s1] eqn:E1; apply try_next_tasks in E1 as (H1 & _ & H1'); [by left |].
    destruct (try_next ts (assign_tokens ts s1)) as [[t |] s2] eqn:E2; apply try_next_tasks in E2 as (_ & _ & H2'); [left | by right].
    simpl. rewrite assign_tokens_tasks, H1 in H2'. done.
  - intros po t p s [= <-] _. simpl. unfold epoch_set_priority.
    pose proof (set_first_priority_tasks t (Z.min p MAX_PRIORITY) (queue s)) as H.
    destruct (set_first_priority t (Z.min p MAX_PRIORITY) (queue s)) as [b q]. unfold epoch_tasks, set_queue. simpl in *. by rewrite H.
Qed.

Section PriorityLaws.
Context (heap : list PriorityTaskRef -> list PriorityTaskRef).
Context (heap_perm : forall l, Permutation (heap l) l).

Lemma prio_retain_tasks (t : TaskRef) (s : PriorityScheduler) :
  Permutation (pr_task <$> prio_retain heap t s) (filter (fun x => x <> t) (prio_tasks s)).
Proof.
  unfold prio_retain, prio_tasks. rewrite heap_perm. induction (p_queue s) as [| e q IH]; [done |].
  rewrite fmap_cons, !filter_cons. destruct (decide (pr_task e <> t)); [rewrite fmap_cons; by constructor | done].
Qed.

Lemma prio_retain_changed (t : TaskRef) (s : PriorityScheduler) :
  negb (Nat.eqb (length (prio_retain heap t s)) (length (p_queue s))) = bool_decide (t ∈ prio_tasks s).
Proof.
  rewrite <- length_filter_ne, <- (Permutation_length (prio_retain_tasks t s)). unfold prio_tasks. by rewrite !length_fmap.
Qed.

#[export] Instance prio_laws : SchedulerLaws PriorityScheduler (sc := prio_scheduler heap).
Proof.
  split; simpl.
  - intros t s. unfold prio_add, prio_tasks. cbn [p_queue]. rewrite heap_perm, fmap_app. symmetry. apply Permutation_cons_append.
  - intros s. unfold prio_busyness, prio_tasks. by rewrite length_fmap.
  - intros t s. apply prio_retain_changed.
  - intros t s _. apply prio_retain_tasks.
  - done.
  - done.
  - intros ts cur now s. unfold prio_next, prio_tasks. pose proof (best_index_ok (fun t => is_runnable ts (pr_task t) && negb (pr_task t =? cur)) [] (p_queue s) None ltac:(constructor)) as Hb.
    cbn [length app] in Hb. destruct (best_index _ _ _ _) as [[i e] |]; simpl in *; rewrite heap_perm; [| done].
    destruct Hb as (Hi & _). apply swap_remove_Permutation in Hi. apply (fmap_Permutation pr_task) in Hi.
    rewrite fmap_app, Hi, fmap_cons. simpl. symmetry. apply Permutation_cons_append.
  - intros ts cur now s. unfold prio_next, prio_tasks. pose proof (best_index_ok (fun t => is_runnable ts (pr_task t) && negb (pr_task t =? cur)) [] (p_queue s) None ltac:(constructor)) as Hb.
    cbn [length app] in Hb. destruct (best_index _ _ _ _) as [[i e] |]; simpl in *; [left | by right].
    destruct Hb as (Hi & Hc & _). apply andb_prop in Hc as [-> _]. split; [| done].
    apply list_elem_of_fmap_2. by eapply list_elem_of_lookup_2.
  - intros po t p s [= <-] Hnd. simpl. unfold prio_set_priority. pose proof (prio_retain_changed t s) as Hc.
    pose proof (prio_retain_tasks t s) as Hr. destruct (Nat.eqb _ _); symmetry in Hc; simpl in *; unfold prio_tasks at 1; cbn [p_queue].
    + apply bool_decide_eq_false in Hc. by rewrite Hr, filter_absent.
    + apply bool_decide_eq_true in Hc. apply list_elem_of_lookup in Hc as [i Hi].
      rewrite heap_perm, fmap_app, Hr, <- (filter_delete t _ i) by done.
      rewrite (delete_Permutation _ _ _ Hi) at 2. symmetry. apply Permutation_cons_append.
Qed.

End PriorityLaws.

(** C32: Each of the three scheduling policies keeps the contract of the [Scheduler] trait on
    which the kernel relies, in whatever order the heap of the priority policy keeps its
    elements: the run queue is a collection of tasks to which [add] adds one, from which
    [remove] takes exactly the given one and reports whether it was there, and which [drain]
    empties; [busyness] is its size; [next] and [set_priority] only reorder it, and [next]
    returns a runnable task of it or the idle task. *)
Theorem policies_keep_the_contract (heap : list PriorityTaskRef -> list PriorityTaskRef) :
  (forall l, Permutation (heap l) l) ->
  SchedulerLaws RRScheduler /\ SchedulerLaws EpochScheduler /\ SchedulerLaws PriorityScheduler (sc := prio_scheduler heap).
Proof. intros Hheap. exact (conj rr_laws (conj epoch_laws (prio_laws heap Hheap))). Qed.

Lemma policies_keep_the_contract_witness :
  SchedulerLaws RRScheduler /\ SchedulerLaws EpochScheduler /\ SchedulerLaws PriorityScheduler (sc := prio_scheduler (fun l => reverse l)).
Proof. apply (policies_keep_the_contract (fun l => reverse l)). intros l. apply reverse_Permutation. Defined.

(** ** Every task is on one run queue *)

Definition queue_of (w : Scheds) (a : ArcId) : list TaskRef :=
  match arcs w !! a with Some d => dyn_tasks d | None => [] end.

Definition queued_at (w : Scheds) (l : list (Z * ArcId)) : list TaskRef := concat ((fun e => queue_of w (snd e)) <$> l).

(** The tasks on the run queues of the listed schedulers. *)
Definition queued (w : Scheds) : list TaskRef := queued_at w (SCHEDULERS w).

Record scheds_ok (w : Scheds) : Prop := {
  so_lawful : map_Forall (fun _ d => lawful d) (arcs w);
  so_live : Forall (fun e => is_Some (arcs w !! snd e)) (SCHEDULERS w);
  so_cpus : NoDup (SCHEDULERS w).*1;
  so_arcs : NoDup (SCHEDULERS w).*2;
  so_current : map_Forall (fun cpu a => (cpu, a) ∈ SCHEDULERS w) (SCHEDULER w);
  so_once : NoDup (queued w);
}.

Lemma dyn_add_tasks (t : TaskRef) (d : DynScheduler) : lawful d -> Permutation (dyn_tasks (dyn_add t d)) (t :: dyn_tasks d) /\ lawful (dyn_add t d).
Proof. intros H. split; [exact (add_tasks (SchedulerLaws := H) t (dyn_state d)) | exact H]. Qed.

Lemma dyn_remove_tasks (t : TaskRef) (d : DynScheduler) :
  lawful d -> NoDup (dyn_tasks d) ->
  exists d', dyn_remove t d = (bool_decide (t ∈ dyn_tasks d), d') /\ lawful d' /\
    Permutation (dyn_tasks d') (filter (fun x => x <> t) (dyn_tasks d)).
Proof.
  intros H Hnd. pose proof (remove_found (SchedulerLaws := H) t (dyn_state d)) as Hf.
  pose proof (remove_tasks (SchedulerLaws := H) t (dyn_state d) Hnd) as Hp. unfold dyn_remove.
  destruct (sch_remove t (dyn_state d)) as [b s]. simpl in *. eexists. by rewrite Hf.
Qed.

Lemma queued_at_same (w w' : Scheds) (l : list (Z * ArcId)) :
  (forall b, b ∈ l.*2 -> queue_of w' b = queue_of w b) -> queued_at w' l = queued_at w l.
Proof.
  unfold queued_at. induction l as [| [c b] l IH]; [done |]. intros Hq. rewrite !fmap_cons, !concat_cons, IH; cbn [snd].
  - rewrite Hq; [done | by left].
  - intros b' Hb. apply Hq. by right.
Qed.

Lemma queued_at_ext (w w' : Scheds) (a : ArcId) (l : list (Z * ArcId)) :
  (forall b, b <> a -> queue_of w' b = queue_of w b) -> a ∉ l.*2 -> queued_at w' l = queued_at w l.
Proof. intros Hq Hni. apply queued_at_same. intros b Hb. apply Hq. by intros ->. Qed.

Lemma queued_at_set (w : Scheds) (a : ArcId) (d : DynScheduler) (l : list (Z * ArcId)) :
  a ∉ l.*2 -> queued_at (set_arc a d w) l = queued_at w l.
Proof.
  apply queued_at_ext. intros b Hb. unfold queue_of, set_arc. cbn [arcs]. by rewrite lookup_insert_ne.
Qed.

Lemma queued_at_app (w : Scheds) l1 l2 : queued_at w (l1 ++ l2) = queued_at w l1 ++ queued_at w l2.
Proof. unfold queued_at. by rewrite fmap_app, concat_app. Qed.

Lemma queued_at_cons (w : Scheds) c a l : queued_at w ((c, a) :: l) = queue_of w a ++ queued_at w l.
Proof. done. Qed.

Lemma queue_of_set (w : Scheds) a d : queue_of (set_arc a d w) a = dyn_tasks d.
Proof. unfold queue_of, set_arc. cbn [arcs]. by rewrite lookup_insert_eq. Qed.

(** Replacing a scheduler of the list changes its queue and no other. *)
Lemma set_arc_queued (w : Scheds) (c : Z) (a : ArcId) (d d' : DynScheduler) :
  scheds_ok w -> (c, a) ∈ SCHEDULERS w -> arcs w !! a = Some d -> lawful d' ->
  exists rest, Permutation (queued w) (dyn_tasks d ++ rest) /\
    Permutation (queued (set_arc a d' w)) (dyn_tasks d' ++ rest) /\
    (NoDup (dyn_tasks d' ++ rest) -> scheds_ok (set_arc a d' w)).
Proof.
  intros [Hlaw Hlive Hcpus Harcs Hcur Honce] Hin Ha Hd'. apply list_elem_of_split in Hin as (l1 & l2 & El).
  assert ((a ∉ l1.*2) /\ (a ∉ l2.*2)) as [H1 H2].
  { rewrite El, fmap_app, fmap_cons in Harcs. apply NoDup_app in Harcs as (_ & Hd & Hc). apply NoDup_cons in Hc as [Hc _].
    split; [| done]. intros Hi. apply (Hd a Hi). by left. }
  exists (queued_at w l1 ++ queued_at w l2).
  assert (Permutation (queued (set_arc a d' w)) (dyn_tasks d' ++ queued_at w l1 ++ queued_at w l2)) as Hq.
  { unfold queued, set_arc at 2. cbn [SCHEDULERS]. rewrite El, queued_at_app, queued_at_cons, !queued_at_set, queue_of_set by done.
    rewrite !app_assoc. apply Permutation_app_tail, Permutation_app_comm. }
  split_and!; [| done |].
  - unfold queued. rewrite El, queued_at_app, queued_at_cons. unfold queue_of. rewrite Ha.
    rewrite !app_assoc. apply Permutation_app_tail, Permutation_app_comm.
  - intros Hnd. constructor; auto.
    + by apply map_Forall_insert_2.
    + eapply Forall_impl; [exact Hlive |]. intros e He. cbn [set_arc arcs]. rewrite lookup_insert_is_Some.
      destruct (decide (a = snd e)); [by left | by right].
    + by rewrite Hq.
Qed.

Lemma live_arc (w : Scheds) c a : scheds_ok w -> (c, a) ∈ SCHEDULERS w -> exists d, arcs w !! a = Some d /\ lawful d.
Proof.
  intros Hw Hin. pose proof (so_live w Hw) as H. rewrite Forall_forall in H. destruct (H _ Hin) as [d Hd].
  exists d. split; [done |]. exact (so_lawful w Hw a d Hd).
Qed.

(** A task that is on no queue is added to the queue of a listed scheduler. *)
Lemma add_to_arc_ok (w : Scheds) c a d (t : TaskRef) :
  scheds_ok w -> (c, a) ∈ SCHEDULERS w -> arcs w !! a = Some d -> t ∉ queued w ->
  add_to_arc a t w = Done (set_arc a (dyn_add t d) w) /\ scheds_ok (set_arc a (dyn_add t d) w) /\
  Permutation (queued (set_arc a (dyn_add t d) w)) (t :: queued w).
Proof.
  intros Hw Hin Ha Hni. unfold add_to_arc. rewrite Ha. split; [done |].
  destruct (dyn_add_tasks t d (so_lawful w Hw a d Ha)) as [Hadd Hlaw].
  destruct (set_arc_queued w c a d (dyn_add t d) Hw Hin Ha Hlaw) as (rest & Hq & Hq' & Hok).
  rewrite Hadd in Hq', Hok. split; [| by rewrite Hq', Hq].
  apply Hok. simpl. rewrite <- Hq. apply NoDup_cons. split; [done | apply (so_once w Hw)].
Qed.

Lemma least_busy_ok (w : Scheds) (l : list (Z * ArcId)) (i : nat) (min : Z) (least : option nat) :
  Forall (fun e => is_Some (arcs w !! snd e)) l ->
  exists r, least_busy w l i min least = Done r /\
    ((r = least /\ forall e d, e ∈ l -> arcs w !! snd e = Some d -> min <= dyn_busyness d) \/
     exists j c a d, r = Some (i + j)%nat /\ l !! j = Some (c, a) /\ arcs w !! a = Some d /\ dyn_busyness d < min /\
       forall e d', e ∈ l -> arcs w !! snd e = Some d' -> dyn_busyness d <= dyn_busyness d').
Proof.
  revert i min least. induction l as [| [c a] l IH]; intros i min least Hl; cbn [least_busy].
  - exists least. split; [done |]. left. split; [done |]. intros e d He. by apply elem_of_nil in He.
  - apply Forall_cons in Hl as [[d Hd] Hl]. cbn [snd] in Hd. rewrite Hd. cbn [expect outcome_bind].
    destruct (Z.ltb_spec (dyn_busyness d) min) as [Hlt | Hge].
    + destruct (IH (S i) (dyn_busyness d) (Some i) Hl) as (r & -> & [[-> Hmin] | (j & c' & a' & d' & -> & Hj & Ha' & Hlt' & Hmin)]);
        eexists; (split; [done |]); right.
      * exists 0%nat, c, a, d. rewrite Nat.add_0_r. split_and!; auto. intros e d' He He'. apply elem_of_cons in He as [-> | He].
        { cbn [snd] in He'. rewrite Hd in He'. injection He' as <-. lia. } by eapply Hmin.
      * exists (S j), c', a', d'. rewrite Nat.add_succ_r. split_and!; auto; [lia |]. intros e d2 He He2. apply elem_of_cons in He as [-> | He].
        { cbn [snd] in He2. rewrite Hd in He2. injection He2 as <-. lia. } by eapply Hmin.
    + destruct (IH (S i) min least Hl) as (r & -> & [[-> Hmin] | (j & c' & a' & d' & -> & Hj & Ha' & Hlt' & Hmin)]);
        eexists; (split; [done |]); [left | right].
      * split; [done |]. intros e d' He He'. apply elem_of_cons in He as [-> | He].
        { cbn [snd] in He'. rewrite Hd in He'. injection He' as <-. lia. } by eapply Hmin.
      * exists (S j), c', a', d'. rewrite Nat.add_succ_r. split_and!; auto. intros e d2 He He2. apply elem_of_cons in He as [-> | He].
        { cbn [snd] in He2. rewrite Hd in He2. injection He2 as <-. lia. } by eapply Hmin.
Qed.

Lemma queue_le_queued (w : Scheds) c a d :
  (c, a) ∈ SCHEDULERS w -> arcs w !! a = Some d -> lawful d -> dyn_busyness d <= Z.of_nat (length (queued w)).
Proof.
  intros Hin Ha Hl. unfold dyn_busyness. rewrite (busyness_length (SchedulerLaws := Hl)).
  apply list_elem_of_split in Hin as (l1 & l2 & El). unfold queued. rewrite El, queued_at_app, queued_at_cons, !length_app.
  unfold queue_of. rewrite Ha. fold (dyn_tasks d). lia.
Qed.

Lemma add_task_ok (w : Scheds) (t : TaskRef) :
  scheds_ok w -> SCHEDULERS w <> [] -> Z.of_nat (length (queued w)) < U64_MAX -> t ∉ queued w ->
  exists c a d, (c, a) ∈ SCHEDULERS w /\ arcs w !! a = Some d /\ add_task t w = Done (set_arc a (dyn_add t d) w) /\
    (forall e d', e ∈ SCHEDULERS w -> arcs w !! snd e = Some d' -> dyn_busyness d <= dyn_busyness d') /\
    scheds_ok (set_arc a (dyn_add t d) w) /\ Permutation (queued (set_arc a (dyn_add t d) w)) (t :: queued w).
Proof.
  intros Hw Hne Hlen Hni. unfold add_task.
  destruct (least_busy_ok w (SCHEDULERS w) 0 U64_MAX None (so_live w Hw)) as (r & -> & [[_ Hmin] | (j & c & a & d & -> & Hj & Ha & _ & Hmin)]).
  - destruct (SCHEDULERS w) as [| [c a] l] eqn:El; [done |]. assert ((c, a) ∈ SCHEDULERS w) as Hin by (rewrite El; by left).
    destruct (live_arc w c a Hw Hin) as (d & Ha & Hl). specialize (Hmin (c, a) d (list_elem_of_here _ _) Ha).
    pose proof (queue_le_queued w c a d Hin Ha Hl). lia.
  - cbn [outcome_bind expect Nat.add]. rewrite Hj. cbn [expect outcome_bind]. apply list_elem_of_lookup_2 in Hj as Hin.
    destruct (add_to_arc_ok w c a d t Hw Hin Ha Hni) as (-> & Hok & Hp). by exists c, a, d.
Qed.

(** Removing a task from one listed scheduler. *)
Lemma remove_from_arc_ok (w : Scheds) c a (t : TaskRef) :
  scheds_ok w -> (c, a) ∈ SCHEDULERS w ->
  exists w', remove_from_arc a t w = Done (bool_decide (t ∈ queue_of w a), w') /\ scheds_ok w' /\
    SCHEDULERS w' = SCHEDULERS w /\ SCHEDULER w' = SCHEDULER w /\
    Permutation (queued w') (if bool_decide (t ∈ queue_of w a) then filter (fun x => x <> t) (queued w) else queued w) /\
    (forall b, b <> a -> queue_of w' b = queue_of w b).
Proof.
  intros Hw Hin. destruct (live_arc w c a Hw Hin) as (d & Ha & Hl). unfold remove_from_arc.
  assert (queue_of w a = dyn_tasks d) as -> by (unfold queue_of; by rewrite Ha). rewrite Ha. cbn [expect outcome_bind].
  assert (NoDup (dyn_tasks d)) as Hnd.
  { pose proof (so_once w Hw) as H. destruct (set_arc_queued w c a d d Hw Hin Ha Hl) as (rest & Hq & _). rewrite Hq in H.
    by apply NoDup_app in H as (? & _). }
  destruct (dyn_remove_tasks t d Hl Hnd) as (d' & -> & Hl' & Hp). eexists. split; [done |].
  destruct (set_arc_queued w c a d d' Hw Hin Ha Hl') as (rest & Hq & Hq' & Hok).
  pose proof (so_once w Hw) as Honce. rewrite Hq in Honce.
  assert (forall b, b <> a -> queue_of (set_arc a d' w) b = queue_of w b) as Hother.
  { intros b Hb. unfold queue_of, set_arc. cbn [arcs]. by rewrite lookup_insert_ne. }
  destruct (bool_decide (t ∈ dyn_tasks d)) eqn:E.
  - apply bool_decide_eq_true in E. assert (t ∉ rest) as Hr by (apply NoDup_app in Honce as (_ & Hd & _); auto).
    assert (Permutation (queued (set_arc a d' w)) (filter (fun x => x <> t) (queued w))) as Hres.
    { rewrite Hq', Hp, Hq, filter_app. by rewrite (filter_absent t rest Hr). }
    split_and!; [| done | done | exact Hres | exact Hother]. apply Hok. rewrite <- Hq', Hres. by apply NoDup_filter, so_once.
  - apply bool_decide_eq_false in E. rewrite filter_absent in Hp by done. split_and!; [| done | done | | exact Hother].
    + apply Hok. by rewrite Hp.
    + by rewrite Hq', Hp, Hq.
Qed.

Lemma remove_loop_ok (l pre : list (Z * ArcId)) (w : Scheds) (t : TaskRef) :
  scheds_ok w -> SCHEDULERS w = pre ++ l -> t ∉ queued_at w pre ->
  exists w', remove_loop l t w = Done (bool_decide (t ∈ queued w), w') /\ scheds_ok w' /\
    SCHEDULERS w' = SCHEDULERS w /\ SCHEDULER w' = SCHEDULER w /\
    Permutation (queued w') (filter (fun x => x <> t) (queued w)).
Proof.
  revert pre w. induction l as [| [c a] l IH]; intros pre w Hw El Hpre; cbn [remove_loop].
  - rewrite app_nil_r in El. assert (t ∉ queued w) as Hni by (unfold queued; by rewrite El).
    exists w. rewrite bool_decide_false by done. by rewrite filter_absent.
  - assert ((c, a) ∈ SCHEDULERS w) as Hin by (rewrite El; apply elem_of_app; right; by left).
    destruct (remove_from_arc_ok w c a t Hw Hin) as (w1 & -> & Hw1 & Hs1 & Hc1 & Hp1 & Hother). cbn [outcome_bind].
    destruct (bool_decide (t ∈ queue_of w a)) eqn:E.
    + exists w1. rewrite bool_decide_true; [done |]. unfold queued. rewrite El, queued_at_app, queued_at_cons.
      apply bool_decide_eq_true in E. apply elem_of_app. right. apply elem_of_app. by left.
    + apply bool_decide_eq_false in E.
      assert (forall l', a ∉ l'.*2 -> queued_at w1 l' = queued_at w l') as Hq.
      { intros l'. by apply queued_at_ext. }
      assert (Permutation (queue_of w1 a) (queue_of w a)) as Hqa.
      { pose proof (so_arcs w Hw) as Hnd. rewrite El, fmap_app, fmap_cons in Hnd. apply NoDup_app in Hnd as (_ & Hd & Hnd).
        apply NoDup_cons in Hnd as [Hl2 _]. revert Hp1. unfold queued. rewrite Hs1, El, !queued_at_app, !queued_at_cons.
        rewrite !Hq; [| done | intros Hx; apply (Hd a Hx); by left].
        intros Hp1. by apply Permutation_app_inv_l, Permutation_app_inv_r in Hp1. }
      destruct (IH (pre ++ [(c, a)]) w1 Hw1) as (w2 & Hrun & Hw2 & Hs2 & Hc2 & Hp2).
      * by rewrite Hs1, El, <- app_assoc.
      * pose proof (so_arcs w Hw) as Hnd. rewrite El, fmap_app, fmap_cons in Hnd. apply NoDup_app in Hnd as (_ & Hd & _).
        rewrite queued_at_app, queued_at_cons, Hq by (intros Hx; apply (Hd a Hx); by left).
        rewrite app_nil_r, elem_of_app. intros [? | Hx]; [done |]. apply E. by rewrite <- Hqa.
      * exists w2. rewrite Hrun. split; [f_equal; f_equal; apply bool_decide_ext; by rewrite Hp1 |].
        split_and!; auto; [by rewrite Hs2 | by rewrite Hc2 | by rewrite Hp2, Hp1].
Qed.

Lemma remove_task_ok (w : Scheds) (t : TaskRef) :
  scheds_ok w ->
  exists w', remove_task t w = Done (bool_decide (t ∈ queued w), w') /\ scheds_ok w' /\
    SCHEDULERS w' = SCHEDULERS w /\ SCHEDULER w' = SCHEDULER w /\
    Permutation (queued w') (filter (fun x => x <> t) (queued w)).
Proof. intros Hw. apply (remove_loop_ok (SCHEDULERS w) []); [done | done | by apply not_elem_of_nil]. Qed.

(** ** Changing the policy of a CPU *)

Lemma dyn_add_all (l : list TaskRef) (d : DynScheduler) :
  lawful d -> lawful (fold_left (fun d t => dyn_add t d) l d) /\
    Permutation (dyn_tasks (fold_left (fun d t => dyn_add t d) l d)) (l ++ dyn_tasks d).
Proof.
  revert d. induction l as [| t l IH]; intros d Hd; [done |]. cbn [fold_left]. destruct (dyn_add_tasks t d Hd) as [Hp Hl].
  destruct (IH _ Hl) as [Hl' Hp']. split; [done |]. rewrite Hp', Hp. symmetry. apply Permutation_middle.
Qed.

Lemma dyn_drain_tasks (d : DynScheduler) :
  lawful d -> exists l d', dyn_drain d = (l, d') /\ lawful d' /\ Permutation l (dyn_tasks d) /\ dyn_tasks d' = [].
Proof.
  intros H. unfold dyn_drain. pose proof (drain_all (SchedulerLaws := H) (dyn_state d)) as H1.
  pose proof (drain_empty (SchedulerLaws := H) (dyn_state d)) as H2. destruct (sch_drain (dyn_state d)) as [l s].
  by eexists _, _.
Qed.

(** The entry of a CPU in the list is found, and it is the CPU's own scheduler. *)
Lemma find_own_entry (w : Scheds) (me : Z) (old : ArcId) :
  scheds_ok w -> SCHEDULER w !! me = Some old ->
  exists i, find_index (fun e => fst e =? me) (SCHEDULERS w) = Some i /\ SCHEDULERS w !! i = Some (me, old).
Proof.
  intros Hw Hme. pose proof (so_current w Hw me old Hme) as Hin. destruct (find_index _ _) as [i |] eqn:E.
  - exists i. split; [done |]. apply find_index_Some in E as [([c b] & Hi & Hc) _]. apply Z.eqb_eq in Hc. simpl in Hc. subst c.
    apply list_elem_of_lookup in Hin as [j Hj].
    assert (i = j) as -> by (eapply (NoDup_lookup _ i j me (so_cpus w Hw)); rewrite list_lookup_fmap; [by rewrite Hi | by rewrite Hj]).
    by rewrite Hj in Hi.
  - apply find_index_None in E. rewrite Forall_forall in E. specialize (E _ Hin). simpl in E. by rewrite Z.eqb_refl in E.
Qed.

(** Giving a CPU another scheduling policy loses no task and runs none twice.  In a build
    without debug assertions (with them, the comparison of the two handles fails whenever
    there is an old scheduler), [set_policy] on a CPU for itself moves every task of its old run queue to the new scheduler, replaces
    the CPU's entry in the list of schedulers, and leaves every task on one run queue. *)
Theorem set_policy_moves_all_tasks (w : Scheds) (me : Z) (old : ArcId) (d : DynScheduler) :
  scheds_ok w -> SCHEDULER w !! me = Some old -> lawful d -> NoDup (dyn_tasks d ++ queued w) ->
  exists w' a, set_policy me me d w = Done w' /\ scheds_ok w' /\ SCHEDULER w' !! me = Some a /\
    Permutation (queue_of w' a) (queue_of w old ++ dyn_tasks d) /\
    Permutation (queued w') (dyn_tasks d ++ queued w) /\
    (forall cpu b, cpu <> me -> SCHEDULER w !! cpu = Some b -> SCHEDULER w' !! cpu = Some b /\ queue_of w' b = queue_of w b).
Proof.
  intros Hw Hme Hd Hnd. unfold set_policy. rewrite Hme. destruct (find_own_entry w me old Hw Hme) as (i & -> & Hi).
  pose proof (swap_remove_Permutation _ _ _ Hi) as Hperm. set (l := swap_remove i (SCHEDULERS w)) in *.
  destruct (live_arc w me old Hw) as (od & Hod & Hlod); [by eapply list_elem_of_lookup_2 |]. rewrite Hod. cbn [expect outcome_bind].
  destruct (dyn_drain_tasks od Hlod) as (moved & od' & -> & Hlod' & Hmoved & Hempty).
  destruct (dyn_add_all moved d Hd) as [Hld Htd]. set (d' := fold_left _ moved d) in *.
  set (a := fresh (dom (arcs w))). assert (arcs w !! a = None) as Hfresh by (apply not_elem_of_dom, is_fresh).
  set (w' := mkScheds _ _ _). destruct Hw as [Hlaw Hlive Hcpus Harcs Hcur Honce].
  rewrite Hperm, fmap_cons in Hcpus, Harcs. apply NoDup_cons in Hcpus as [Hme_l Hcpus]. apply NoDup_cons in Harcs as [Hold_l Harcs].
  cbn [fst snd] in *.
  assert (forall b, b ∈ l.*2 -> is_Some (arcs w !! b)) as Hlive_l.
  { intros b Hb. apply list_elem_of_fmap in Hb as (e & -> & He). rewrite Forall_forall in Hlive. apply Hlive. rewrite Hperm. by right. }
  assert (a ∉ l.*2) as Ha_l. { intros Hb. destruct (Hlive_l a Hb) as [x Hx]. congruence. }
  assert (a <> old) as Hao by (intros ->; congruence).
  assert (forall b, b <> a -> b <> old -> queue_of w' b = queue_of w b) as Hother.
  { intros b Hb1 Hb2. unfold queue_of, w'. cbn [arcs]. by rewrite !lookup_insert_ne. }
  assert (queue_of w' a = dyn_tasks d') as Hqa by (unfold queue_of, w'; cbn [arcs]; by rewrite lookup_insert_eq).
  assert (queue_of w old = dyn_tasks od) as Hqo by (unfold queue_of; by rewrite Hod).
  assert (Permutation (queued w) (dyn_tasks od ++ queued_at w l)) as Hq.
  { unfold queued, queued_at. rewrite Hperm, fmap_cons, concat_cons. cbn [snd]. by rewrite Hqo. }
  assert (Permutation (queued w') (dyn_tasks d ++ queued w)) as Hq'.
  { unfold queued at 1, w' at 2. cbn [SCHEDULERS]. rewrite queued_at_app, queued_at_cons, Hqa. unfold queued_at at 2. cbn [fmap list_fmap concat].
    rewrite (queued_at_same w w' l); [| intros b Hb; apply Hother; by intros ->].
    rewrite app_nil_r, Htd, Hmoved, Hq. rewrite (Permutation_app_comm (dyn_tasks od)), (Permutation_app_comm (queued_at w l)).
    by rewrite <- app_assoc. }
  exists w', a. split; [done |]. split_and!; auto.
  - constructor; cbn [w' arcs SCHEDULERS SCHEDULER].
    + by repeat apply map_Forall_insert_2.
    + apply Forall_app. split; [| repeat constructor; cbn [snd]; rewrite lookup_insert_eq; by eexists].
      apply Forall_forall. intros e He. rewrite !lookup_insert_is_Some. destruct (decide (a = snd e)); [by left | right; split; [done |]].
      destruct (decide (old = snd e)); [by left | right; split; [done |]]. apply Hlive_l. by apply list_elem_of_fmap_2.
    + rewrite fmap_app. apply NoDup_app. split_and!; [done | | apply NoDup_singleton]. intros c Hc Hin. simpl in Hin.
      apply list_elem_of_singleton in Hin as ->. done.
    + rewrite fmap_app. apply NoDup_app. split_and!; [done | | apply NoDup_singleton]. intros c Hc Hin. simpl in Hin.
      apply list_elem_of_singleton in Hin as ->. done.
    + intros cpu b Hb. apply lookup_insert_Some in Hb as [[<- <-] | [Hne Hb]]; apply elem_of_app; [right; by left | left].
      specialize (Hcur cpu b Hb). cbn in Hcur. rewrite Hperm in Hcur. apply elem_of_cons in Hcur as [? | Hin]; [congruence | done].
    + by rewrite Hq'.
  - cbn [w' SCHEDULER]. by rewrite lookup_insert_eq.
  - by rewrite Hqa, Htd, Hmoved, Hqo.
  - intros cpu b Hne Hb. cbn [w' SCHEDULER]. rewrite lookup_insert_ne by done. split; [done |].
    specialize (Hcur cpu b Hb). cbn in Hcur. rewrite Hperm in Hcur. apply elem_of_cons in Hcur as [? | Hin]; [congruence |].
    apply (list_elem_of_fmap_2 snd) in Hin. apply Hother; by intros ->.
Qed.

(** ** What the schedulers run *)

(** The task [schedule] picks is on the CPU's own queue and runnable, or the idle task of its
    scheduler; the run queues keep their tasks. *)
Lemma schedule_next_ok (ts : Tasks) (w : Scheds) (me : Z) (a : ArcId) (cur : TaskRef) (now : Z) :
  scheds_ok w -> SCHEDULER w !! me = Some a ->
  exists t w' d, schedule_next ts me cur now w = Done (t, w') /\ arcs w !! a = Some d /\ scheds_ok w' /\
    Permutation (queued w') (queued w) /\ ((t ∈ queue_of w a /\ is_runnable ts t = true) \/ t = dyn_idle d).
Proof.
  intros Hw Hme. pose proof (so_current w Hw me a Hme) as Hin. destruct (live_arc w me a Hw Hin) as (d & Ha & Hl).
  unfold schedule_next. rewrite Hme. cbn [expect outcome_bind]. rewrite Ha. cbn [expect outcome_bind]. unfold dyn_next.
  pose proof (next_tasks (SchedulerLaws := Hl) ts cur now (dyn_state d)) as Hp.
  pose proof (next_runnable (SchedulerLaws := Hl) ts cur now (dyn_state d)) as Hr.
  destruct (sch_next ts cur now (dyn_state d)) as [t s]. cbn [fst snd] in *. set (d' := Dyn s).
  assert (Permutation (dyn_tasks d') (dyn_tasks d)) as Hpd by exact Hp.
  destruct (set_arc_queued w me a d d' Hw Hin Ha Hl) as (rest & Hq & Hq' & Hok). eexists t, _, d. split; [done |].
  rewrite Hpd in Hq', Hok. split_and!; auto.
  - apply Hok. rewrite <- Hq. by apply so_once.
  - by rewrite Hq', Hq.
  - unfold queue_of. by rewrite Ha.
Qed.

(** ** Round robin *)

(** The tasks [next] picks in [n] successive calls, each run until the next call. *)
Fixpoint rr_picks (n : nat) (ts : Tasks) (cur : TaskRef) (s : RRScheduler) : list TaskRef * RRScheduler :=
  match n with
  | O => ([], s)
  | S n => let '(t, s) := rr_next ts cur s in let '(l, s) := rr_picks n ts t s in (t :: l, s)
  end.

Lemma rr_next_front (ts : Tasks) (cur t : TaskRef) (idle : TaskRef) (q : list TaskRef) :
  rr_candidate ts cur t = true -> rr_next ts cur (mkRR idle (t :: q)) = (t, mkRR idle (q ++ [t])).
Proof. intros Hc. unfold rr_next. cbn [rr_queue find_index]. by rewrite Hc. Qed.

Lemma rr_rotate (ts : Tasks) (idle cur : TaskRef) (todo done : list TaskRef) :
  Forall (fun t => is_runnable ts t = true) todo -> NoDup (todo ++ done) -> last (todo ++ done) = Some cur ->
  (2 <= length (todo ++ done))%nat ->
  rr_picks (length todo) ts cur (mkRR idle (todo ++ done)) = (todo, mkRR idle (done ++ todo)).
Proof.
  revert cur done. induction todo as [| t todo IH]; intros cur don Hrun Hnd Hlast Hlen; [by rewrite app_nil_r |].
  apply Forall_cons in Hrun as [Ht Hrun]. cbn [length rr_picks app].
  rewrite rr_next_front.
  - rewrite <- app_assoc, IH; [by rewrite <- app_assoc | done | | by rewrite app_assoc, last_snoc |].
    + rewrite app_assoc. simpl in Hnd. by rewrite <- Permutation_cons_append.
    + rewrite !length_app in *. simpl in *. lia.
  - unfold rr_candidate. rewrite Ht. simpl. destruct (Z.eqb_spec t cur) as [-> | ]; [| done]. exfalso.
    simpl in Hnd, Hlast, Hlen. apply NoDup_cons in Hnd as [Hni _]. destruct (todo ++ don) as [| x l]; [simpl in Hlen; lia |].
    rewrite last_cons_cons in Hlast. apply Hni. by apply last_Some_elem_of.
Qed.

(** C31: The round-robin scheduler is fair: when the queued tasks, two or more and no task twice,
    are all runnable and the task that ran last is at the end of the queue, the next picks run every
    task of the queue once, in the order of the queue, and end where they began. *)
Theorem round_robin_is_fair (ts : Tasks) (s : RRScheduler) (cur : TaskRef) :
  Forall (fun t => is_runnable ts t = true) (rr_queue s) -> NoDup (rr_queue s) ->
  (2 <= length (rr_queue s))%nat -> last (rr_queue s) = Some cur ->
  rr_picks (length (rr_queue s)) ts cur s = (rr_queue s, s).
Proof.
  intros Hrun Hnd Hlen Hlast. destruct s as [idle q]. cbn [rr_queue] in *.
  pose proof (rr_rotate ts idle cur q []) as H. rewrite app_nil_r in H. by apply H.
Qed.

(** A task alone on its queue is not picked while it is the current one: it alternates with
    the idle task. *)
Lemma round_robin_single_task (ts : Tasks) (idle t : TaskRef) :
  is_runnable ts t = true -> idle <> t ->
  rr_picks 4 ts t (mkRR idle [t]) = ([idle; t; idle; t], mkRR idle [t]).
Proof.
  intros Hr Hne. assert (forall c, rr_candidate ts c t = negb (t =? c)) as Hc by (intros c; unfold rr_candidate; by rewrite Hr).
  cbn [rr_picks]. unfold rr_next at 1. cbn [rr_queue find_index rr_idle]. rewrite Hc, Z.eqb_refl. cbn [negb fmap option_fmap option_map].
  rewrite (rr_next_front ts idle t idle []) by (rewrite Hc; destruct (Z.eqb_spec t idle); [congruence | done]). cbn [app].
  unfold rr_next at 1. cbn [rr_queue find_index rr_idle]. rewrite Hc, Z.eqb_refl. cbn [negb fmap option_fmap option_map].
  by rewrite (rr_next_front ts idle t idle []) by (rewrite Hc; destruct (Z.eqb_spec t idle); [congruence | done]).
Qed.
