(* ===== verification/TaskState.v ===== *)
(** * Run states of tasks, and the current task of a CPU

    [kernel/task/src/lib.rs] and [kernel/task/src/joinable.rs]: blocking, unblocking and
    killing a task, marking it as exited, the list of all tasks, and the choice of the task
    a CPU switches to.

    The run state is an atomic cell: [compare_exchange] and [store] are single steps, and the
    operation on the run queues that follows them is another one ([block_cas] and
    [block_dequeue], [unblock_cas] and [unblock_enqueue]).  [block] and [unblock] run both
    without interruption.

    Saving and loading registers is assembly: the stack pointer it stores for the task that
    is switched away from is an argument of [task_switch]. *)

From stdpp Require Import gmap.
From S2P Require Import Prelude SchedTask EpochSched PrioritySched SchedulerApi SchedulerProps.

Record TaskWorld := mkTW {
  tw_tasks : Tasks;
  tw_scheds : Scheds;
  TASK_LIST : gmap Z TaskRef;
  CURRENT_TASK : gmap Z TaskRef;
  running_on_cpu : gmap TaskRef Z;
  saved_sp : TaskRef -> Z;
  NEXT_TASK_ID : Z;
}.

Definition set_tw_tasks (ts : Tasks) (w : TaskWorld) : TaskWorld :=
  mkTW ts (tw_scheds w) (TASK_LIST w) (CURRENT_TASK w) (running_on_cpu w) (saved_sp w) (NEXT_TASK_ID w).
Definition set_tw_scheds (s : Scheds) (w : TaskWorld) : TaskWorld :=
  mkTW (tw_tasks w) s (TASK_LIST w) (CURRENT_TASK w) (running_on_cpu w) (saved_sp w) (NEXT_TASK_ID w).

Definition run_state (w : TaskWorld) (t : TaskRef) : RunState := runstate (tw_tasks w t).

Definition set_run_state (t : TaskRef) (r : RunState) (w : TaskWorld) : TaskWorld :=
  set_tw_tasks (set_task t (mkTask r (sched (tw_tasks w t))) (tw_tasks w)) w.

(** [AtomicCell::compare_exchange] on the run state. *)
Definition compare_exchange (t : TaskRef) (old new : RunState) (w : TaskWorld) : result RunState RunState * TaskWorld :=
  if decide (run_state w t = old) then (Ok old, set_run_state t new w) else (Err (run_state w t), w).

(** ** Blocking and unblocking *)

(** The first step of [unblock]: what is left to do, or the result. *)
Definition unblock_cas (t : TaskRef) (w : TaskWorld) : option (result unit RunState) * TaskWorld :=
  match compare_exchange t Blocked Runnable w with
  | (Ok _, w) => (None, w)
  | (Err current_state, w) =>
      (Some (if decide (current_state = Runnable) then Ok tt else Err current_state), w)
  end.

Definition unblock_enqueue (t : TaskRef) (w : TaskWorld) : outcome TaskWorld :=
  let* s := add_task t (tw_scheds w) in Done (set_tw_scheds s w).

Definition unblock (t : TaskRef) (w : TaskWorld) : outcome (result unit RunState * TaskWorld) :=
  match unblock_cas t w with
  | (None, w) => let* w := unblock_enqueue t w in Done (Ok tt, w)
  | (Some r, w) => Done (r, w)
  end.

Definition block_cas (t : TaskRef) (w : TaskWorld) : option RunState * TaskWorld :=
  match compare_exchange t Runnable Blocked w with
  | (Ok _, w) => (None, w)
  | (Err Blocked, w) => (None, w)
  | (Err current_state, w) => (Some current_state, w)
  end.

Definition block_dequeue (t : TaskRef) (w : TaskWorld) : outcome TaskWorld :=
  let* (_, s) := remove_task t (tw_scheds w) in Done (set_tw_scheds s w).

Definition block (t : TaskRef) (w : TaskWorld) : outcome (result unit RunState * TaskWorld) :=
  match block_cas t w with
  | (None, w) => let* w := block_dequeue t w in Done (Ok tt, w)
  | (Some s, w) => Done (Err s, w)
  end.

Definition is_running (t : TaskRef) (w : TaskWorld) : bool :=
  match running_on_cpu w !! t with Some _ => true | None => false end.

(** [kill]: the exchange fails only when another CPU changed the run state since it was
    read; the loop then reads it again. *)
Definition kill (t : TaskRef) (reason : KillReason) (w : TaskWorld) : outcome (result unit RunState * TaskWorld) :=
  match run_state w t with
  | Runnable | Blocked =>
      let w := set_run_state t (Exited (Killed reason)) w in
      let* w := block_dequeue t w in Done (Ok tt, w)
  | Exited (Killed _) => Done (Ok tt, w)
  | state => Done (Err state, w)
  end.

(** ** Exiting and joining *)

Definition mark_with (v : ExitValue) (t : TaskRef) (w : TaskWorld) : result unit RunState * TaskWorld :=
  match compare_exchange t Runnable (Exited v) w with
  | (Ok _, w) => (Ok tt, w)
  | (Err Blocked, w) => (Ok tt, set_run_state t (Exited v) w)
  | (Err s, w) => (Err s, w)
  end.

Definition mark_as_exited : TaskRef -> TaskWorld -> result unit RunState * TaskWorld := mark_with (Completed 0).

Definition mark_as_killed (r : KillReason) : TaskRef -> TaskWorld -> result unit RunState * TaskWorld := mark_with (Killed r).

Definition has_exited (t : TaskRef) (w : TaskWorld) : bool :=
  match run_state w t with Exited _ => true | _ => false end.

(** One round of the loop of [join]: the exit value, or nothing when the caller gives up
    the CPU and tries again. *)
Definition join_round (t : TaskRef) (w : TaskWorld) : option ExitValue :=
  match run_state w t with Exited v => Some v | _ => None end.

(** [task_cleanup_failure], up to its final loop. *)
Definition cleanup_failure (t : TaskRef) (cause : KillReason) (w : TaskWorld) : outcome TaskWorld :=
  let '(_, w) := mark_as_killed cause t w in block_dequeue t w.

(** [strong_count] is the number of references to the task. *)
Definition reap_if_orphaned (t : TaskRef) (strong_count : Z) (w : TaskWorld) : TaskWorld :=
  if strong_count <=? 3 then
    mkTW (tw_tasks w) (tw_scheds w) (delete t (TASK_LIST w)) (CURRENT_TASK w) (running_on_cpu w) (saved_sp w) (NEXT_TASK_ID w)
  else w.

(** ** The list of tasks and the current task *)

Definition from_task (t : TaskRef) (task : Task) (w : TaskWorld) : TaskWorld :=
  mkTW (set_task t task (tw_tasks w)) (tw_scheds w) (<[t := t]> (TASK_LIST w)) (CURRENT_TASK w) (running_on_cpu w)
    (saved_sp w) (NEXT_TASK_ID w).

Definition get_task (id : Z) (w : TaskWorld) : option TaskRef := TASK_LIST w !! id.

Definition all_tasks (w : TaskWorld) : list (Z * TaskRef) := map_to_list (TASK_LIST w).

Definition get_my_current_task (cpu : Z) (w : TaskWorld) : option TaskRef := CURRENT_TASK w !! cpu.

Definition get_my_current_task_id (cpu : Z) (w : TaskWorld) : Z := default 0 (get_my_current_task cpu w).

Definition get_next_task_id (w : TaskWorld) : Z * TaskWorld :=
  (NEXT_TASK_ID w, mkTW (tw_tasks w) (tw_scheds w) (TASK_LIST w) (CURRENT_TASK w) (running_on_cpu w) (saved_sp w)
                     (wrap64 (NEXT_TASK_ID w + 1))).

Definition set_current_task (cpu : Z) (t : TaskRef) (w : TaskWorld) : TaskWorld :=
  mkTW (tw_tasks w) (tw_scheds w) (TASK_LIST w) (<[cpu := t]> (CURRENT_TASK w)) (running_on_cpu w) (saved_sp w) (NEXT_TASK_ID w).

Definition set_running (f : gmap TaskRef Z -> gmap TaskRef Z) (w : TaskWorld) : TaskWorld :=
  mkTW (tw_tasks w) (tw_scheds w) (TASK_LIST w) (CURRENT_TASK w) (f (running_on_cpu w)) (saved_sp w) (NEXT_TASK_ID w).

Definition set_saved_sp (t : TaskRef) (sp : Z) (w : TaskWorld) : TaskWorld :=
  mkTW (tw_tasks w) (tw_scheds w) (TASK_LIST w) (CURRENT_TASK w) (running_on_cpu w)
    (fun x => if decide (x = t) then sp else saved_sp w x) (NEXT_TASK_ID w).

(** [task_switch] on CPU [cpu]; [sp] is the stack pointer the switch saves. *)
Definition task_switch (next : TaskRef) (cpu : Z) (sp : Z) (w : TaskWorld) : bool * TaskWorld :=
  match get_my_current_task cpu w with
  | None => (true, set_current_task cpu next w)
  | Some curr =>
      if saved_sp w next =? 0 then (false, w)
      else match run_state w next with
           | Exited _ => (false, w)
           | _ =>
               if curr =? next then (false, w)
               else
                 let w := set_running (fun m => delete curr m) w in
                 let w := set_running (fun m => <[next := cpu]> m) w in
                 let w := set_current_task cpu next w in
                 (true, set_saved_sp curr sp w)
           end
  end.

(** [schedule] on CPU [cpu]: [preemption_was_enabled] is whether the preemption guard was
    the first one. *)
Definition schedule (cpu now sp : Z) (preemption_was_enabled : bool) (w : TaskWorld) : outcome (bool * TaskWorld) :=
  if negb preemption_was_enabled then Done (false, w)
  else
    let* (next, s) := schedule_next (tw_tasks w) cpu (get_my_current_task_id cpu w) now (tw_scheds w) in
    Done (task_switch next cpu sp (set_tw_scheds s w)).

(** [bootstrap_task]: the first task of a CPU, with id 0.  Tasks are named by their ids, by
    which the code compares them too; the first tasks of two CPUs share an id and are one
    task here. *)
Definition bootstrap_task (cpu : Z) (w : TaskWorld) : TaskRef * TaskWorld :=
  let w := from_task 0 task_new w in
  let w := set_running (fun m => <[0 := cpu]> m) w in
  (0, set_current_task cpu 0 w).

Definition init_current_task (cpu task_id : Z) (w : TaskWorld) : result TaskRef string * TaskWorld :=
  match get_task task_id w with
  | None => (Err "init_current_task: task ID not found in TASK_LIST", w)
  | Some t => (Ok t, set_running (fun m => <[t := cpu]> m) (set_current_task cpu t w))
  end.

(** ** Blocked tasks are on no run queue *)

Definition tasks_ok (w : TaskWorld) : Prop :=
  scheds_ok (tw_scheds w) /\ forall t, run_state w t = Blocked -> t ∉ queued (tw_scheds w).

Lemma run_state_set (t : TaskRef) (r : RunState) (w : TaskWorld) : run_state (set_run_state t r w) t = r.
Proof. unfold run_state, set_run_state, set_tw_tasks, set_task. cbn [tw_tasks]. by rewrite decide_True. Qed.

Lemma run_state_set_ne (t x : TaskRef) (r : RunState) (w : TaskWorld) :
  x <> t -> run_state (set_run_state t r w) x = run_state w x.
Proof. intros. unfold run_state, set_run_state, set_tw_tasks, set_task. cbn [tw_tasks]. by rewrite decide_False. Qed.

#[export] Hint Rewrite run_state_set : maios.

(** Taking a task off the run queues when its run state was set to [r] keeps the
    invariant. *)
Lemma dequeue_ok (t : TaskRef) (w : TaskWorld) (r : RunState) :
  tasks_ok w ->
  exists w', block_dequeue t (set_run_state t r w) = Done w' /\ tasks_ok w' /\ t ∉ queued (tw_scheds w') /\
    (forall x, x <> t -> (x ∈ queued (tw_scheds w') <-> x ∈ queued (tw_scheds w))) /\
    (forall x, run_state w' x = run_state (set_run_state t r w) x).
Proof.
  intros [Hs Hb]. unfold block_dequeue. destruct (remove_task_ok (tw_scheds w) t Hs) as (s' & Hrm & Hs' & _ & _ & Hp).
  change (tw_scheds (set_run_state t r w)) with (tw_scheds w). rewrite Hrm. cbn [outcome_bind]. eexists. split; [done |].
  assert (t ∉ queued s') as Ht by (rewrite Hp, list_elem_of_filter; tauto).
  assert (forall x, x <> t -> (x ∈ queued s' <-> x ∈ queued (tw_scheds w))) as Hx by (intros x Hne; rewrite Hp, list_elem_of_filter; tauto).
  split_and!; auto. split; [done |]. intros x Hbl. destruct (decide (x = t)) as [-> | Hne]; [done |].
  cbn [set_tw_scheds tw_scheds]. rewrite Hx by done. apply Hb. by rewrite <- (run_state_set_ne t x r w Hne).
Qed.
