(* ===== verification/TaskProps.v ===== *)
(** * Properties of run states and run queues

    What blocking, unblocking and killing do on every run state; that no sequence of them
    leaves a blocked task on a run queue or a task on two; and what can go wrong when their
    steps interleave on two CPUs. *)

From stdpp Require Import gmap.
From S2P Require Import Prelude SchedTask EpochSched PrioritySched SchedulerApi SchedulerProps TaskState.

(** Some scheduler is listed, and a task can be counted on it. *)
Definition has_room (w : TaskWorld) : Prop :=
  SCHEDULERS (tw_scheds w) <> [] /\ Z.of_nat (length (queued (tw_scheds w))) < U64_MAX.

(** ** One operation *)

Lemma set_run_state_self (t : TaskRef) (w : TaskWorld) (r : RunState) x :
  run_state w t = r -> run_state (set_run_state t r w) x = run_state w x.
Proof. intros <-. destruct (decide (x = t)) as [-> | Hne]; [by rewrite run_state_set | by rewrite run_state_set_ne]. Qed.

Lemma block_dequeue_ext (t : TaskRef) (w w' : TaskWorld) :
  tw_scheds w = tw_scheds w' -> forall w2, block_dequeue t w = Done w2 -> block_dequeue t w' = Done (set_tw_scheds (tw_scheds w2) w').
Proof.
  unfold block_dequeue. intros <- w2. destruct (remove_task t (tw_scheds w)) as [[b s] |]; cbn [outcome_bind]; [| done].
  by intros [= <-].
Qed.

(** Blocking a task that is runnable or blocked takes it off the run queues; any other task
    is left alone and its run state returned. *)
Lemma block_spec (t : TaskRef) (w : TaskWorld) :
  tasks_ok w ->
  exists r w', block t w = Done (r, w') /\ tasks_ok w' /\
    match run_state w t with
    | Runnable | Blocked => r = Ok tt /\ run_state w' t = Blocked /\ t ∉ queued (tw_scheds w')
    | s => r = Err s /\ w' = w
    end /\
    (forall x, x <> t -> run_state w' x = run_state w x /\ (x ∈ queued (tw_scheds w') <-> x ∈ queued (tw_scheds w))).
Proof.
  intros Hw. unfold block, block_cas, compare_exchange. destruct (decide (run_state w t = Runnable)) as [E | E].
  - destruct (dequeue_ok t w Blocked Hw) as (w' & -> & Hok & Hni & Hx & Hr). cbn [outcome_bind]. eexists _, w'.
    rewrite E. split_and!; auto; [rewrite Hr; by rewrite run_state_set |].
    intros x Hne. split; [by rewrite Hr, run_state_set_ne | by apply Hx].
  - destruct (run_state w t) as [| | | v] eqn:Es; try done; try (by eexists _, w).
    destruct (dequeue_ok t w Blocked Hw) as (w' & Hd & Hok & Hni & Hx & Hr).
    pose proof (block_dequeue_ext t (set_run_state t Blocked w) w eq_refl w' Hd) as Hd'. rewrite Hd'. cbn [outcome_bind].
    assert (forall x, run_state (set_tw_scheds (tw_scheds w') w) x = run_state w' x) as Hst.
    { intros x. rewrite Hr. change (run_state w x = run_state (set_run_state t Blocked w) x). symmetry. by apply set_run_state_self. }
    eexists _, _. split; [done |]. cbn [set_tw_scheds tw_scheds]. split_and!; auto.
    destruct Hok as [Hs Hb]. split; [done |]. intros x Hbl. apply Hb. by rewrite <- Hst.
Qed.

(** Unblocking a blocked task makes it runnable and queues it once; a runnable task stays as
    it is, and any other state is returned. *)
Lemma unblock_spec (t : TaskRef) (w : TaskWorld) :
  tasks_ok w -> has_room w ->
  exists r w', unblock t w = Done (r, w') /\ tasks_ok w' /\
    match run_state w t with
    | Blocked => r = Ok tt /\ run_state w' t = Runnable /\ Permutation (queued (tw_scheds w')) (t :: queued (tw_scheds w))
    | Runnable => r = Ok tt /\ w' = w
    | s => r = Err s /\ w' = w
    end /\
    (forall x, x <> t -> run_state w' x = run_state w x /\ (x ∈ queued (tw_scheds w') <-> x ∈ queued (tw_scheds w))).
Proof.
  intros [Hs Hb] [Hne Hlen]. unfold unblock, unblock_cas, compare_exchange. destruct (decide (run_state w t = Blocked)) as [E | E].
  - unfold unblock_enqueue. change (tw_scheds (set_run_state t Runnable w)) with (tw_scheds w).
    destruct (add_task_ok (tw_scheds w) t Hs Hne Hlen (Hb t E)) as (c & a & d & _ & _ & -> & _ & Hs' & Hp).
    cbn [outcome_bind]. eexists _, _. split; [done |]. rewrite E. set (s' := set_arc a (dyn_add t d) (tw_scheds w)) in *.
    assert (forall x, run_state (set_tw_scheds s' (set_run_state t Runnable w)) x = run_state (set_run_state t Runnable w) x) as Hst by done.
    cbn [set_tw_scheds tw_scheds]. split_and!; auto.
    + split; [done |]. intros x Hbl. rewrite Hst in Hbl. cbn [set_tw_scheds tw_scheds]. rewrite Hp. destruct (decide (x = t)) as [-> | Hxt].
      * by rewrite run_state_set in Hbl.
      * rewrite run_state_set_ne in Hbl by done. apply not_elem_of_cons. split; [done | by apply Hb].
    + rewrite Hst. by rewrite run_state_set.
    + intros x Hxt. split; [by rewrite Hst, run_state_set_ne |]. rewrite Hp, elem_of_cons. split; [by intros [? |] | by right].
  - eexists _, w. split; [done |]. split; [done |]. split; [| done]. by destruct (run_state w t).
Qed.

(** Killing takes a runnable or blocked task off the run queues for good; a killed task may
    be killed again, a task that completed or has not started may not. *)
Lemma kill_spec (t : TaskRef) (reason : KillReason) (w : TaskWorld) :
  tasks_ok w ->
  exists r w', kill t reason w = Done (r, w') /\ tasks_ok w' /\
    match run_state w t with
    | Runnable | Blocked => r = Ok tt /\ run_state w' t = Exited (Killed reason) /\ t ∉ queued (tw_scheds w')
    | Exited (Killed _) => r = Ok tt /\ w' = w
    | s => r = Err s /\ w' = w
    end /\
    (forall x, x <> t -> run_state w' x = run_state w x /\ (x ∈ queued (tw_scheds w') <-> x ∈ queued (tw_scheds w))).
Proof.
  intros Hw. unfold kill. destruct (run_state w t) as [| | | [v | k]] eqn:E; try (by eexists _, w).
  all: destruct (dequeue_ok t w (Exited (Killed reason)) Hw) as (w' & -> & Hok & Hni & Hx & Hr); cbn [outcome_bind]; eexists _, w';
    (split_and!; auto; [by rewrite Hr, run_state_set |]); intros x Hne; (split; [by rewrite Hr, run_state_set_ne | by apply Hx]).
Qed.

(** A task marked as exited is no longer blocked; it may still be queued. *)
Lemma mark_with_ok (v : ExitValue) (t : TaskRef) (w : TaskWorld) :
  tasks_ok w -> tasks_ok (snd (mark_with v t w)) /\ tw_scheds (snd (mark_with v t w)) = tw_scheds w.
Proof.
  intros [Hs Hb]. assert (tasks_ok (set_run_state t (Exited v) w)) as H.
  { split; [done |]. intros x Hbl. destruct (decide (x = t)) as [-> | Hne]; [by rewrite run_state_set in Hbl |].
    rewrite run_state_set_ne in Hbl by done. by apply Hb. }
  unfold mark_with, compare_exchange. destruct (decide _); [done |]. by destruct (run_state w t).
Qed.

Lemma cleanup_failure_ok (t : TaskRef) (cause : KillReason) (w : TaskWorld) :
  tasks_ok w -> exists w', cleanup_failure t cause w = Done w' /\ tasks_ok w' /\
    (length (queued (tw_scheds w')) <= length (queued (tw_scheds w)))%nat /\ SCHEDULERS (tw_scheds w') = SCHEDULERS (tw_scheds w).
Proof.
  intros Hw. unfold cleanup_failure, mark_as_killed. destruct (mark_with_ok (Killed cause) t w Hw) as [Hok Hsc].
  destruct (mark_with (Killed cause) t w) as [r w1]. cbn [snd] in *. unfold block_dequeue.
  destruct Hok as [Hs Hb]. destruct (remove_task_ok (tw_scheds w1) t Hs) as (s' & -> & Hs' & Hl & _ & Hp). cbn [outcome_bind].
  eexists. split; [done |]. cbn [set_tw_scheds tw_scheds]. rewrite Hl, <- Hsc. split; [split; [done |] | split; [| done]].
  - intros x Hbl. cbn [tw_scheds set_tw_scheds]. rewrite Hp, list_elem_of_filter. intros [_ Hin]. by apply (Hb x Hbl).
  - rewrite Hp. pose proof (length_filter (fun x => x <> t) (queued (tw_scheds w1))). lia.
Qed.

Lemma task_switch_frame (next : TaskRef) (cpu sp : Z) (w : TaskWorld) :
  tw_tasks (snd (task_switch next cpu sp w)) = tw_tasks w /\ tw_scheds (snd (task_switch next cpu sp w)) = tw_scheds w.
Proof.
  unfold task_switch. destruct (get_my_current_task cpu w); [| done]. destruct (_ =? 0); [done |].
  destruct (run_state w next); try done; by destruct (_ =? _).
Qed.

(** ** Sequences of operations *)

Inductive TaskOp :=
| OpBlock (t : TaskRef)
| OpUnblock (t : TaskRef)
| OpKill (t : TaskRef) (reason : KillReason)
| OpExit (t : TaskRef)
| OpCleanup (t : TaskRef) (cause : KillReason)
| OpSchedule (cpu now sp : Z) (preemption_was_enabled : bool).

Definition run_op (op : TaskOp) (w : TaskWorld) : outcome TaskWorld :=
  match op with
  | OpBlock t => let* (_, w) := block t w in Done w
  | OpUnblock t => let* (_, w) := unblock t w in Done w
  | OpKill t reason => let* (_, w) := kill t reason w in Done w
  | OpExit t => Done (snd (mark_as_exited t w))
  | OpCleanup t cause => cleanup_failure t cause w
  | OpSchedule cpu now sp en => let* (_, w) := schedule cpu now sp en w in Done w
  end.

Fixpoint run_ops (ops : list TaskOp) (w : TaskWorld) : outcome TaskWorld :=
  match ops with
  | [] => Done w
  | op :: ops => let* w := run_op op w in run_ops ops w
  end.

(** [schedule] runs on a CPU whose scheduler has been set. *)
Definition cpu_ready (op : TaskOp) (w : TaskWorld) : Prop :=
  match op with OpSchedule cpu _ _ _ => is_Some (SCHEDULER (tw_scheds w) !! cpu) | _ => True end.

(** The schedulers stay where they are and at most one task is queued. *)
Definition stays (w w' : TaskWorld) : Prop :=
  SCHEDULERS (tw_scheds w') = SCHEDULERS (tw_scheds w) /\ SCHEDULER (tw_scheds w') = SCHEDULER (tw_scheds w) /\
  (length (queued (tw_scheds w')) <= S (length (queued (tw_scheds w))))%nat.

Lemma block_dequeue_stays (t : TaskRef) (w w' : TaskWorld) :
  scheds_ok (tw_scheds w) -> block_dequeue t w = Done w' -> stays w w'.
Proof.
  intros Hs. unfold block_dequeue. destruct (remove_task_ok (tw_scheds w) t Hs) as (s' & -> & _ & Hl & Hc & Hp). cbn [outcome_bind].
  intros [= <-]. unfold stays. cbn [set_tw_scheds tw_scheds]. rewrite Hl, Hc, Hp.
  pose proof (length_filter (fun x => x <> t) (queued (tw_scheds w))). split_and!; [done | done | lia].
Qed.

Lemma unblock_stays (t : TaskRef) (w : TaskWorld) r w' :
  tasks_ok w -> has_room w -> unblock t w = Done (r, w') -> stays w w'.
Proof.
  intros [Hs Hb] [Hne Hlen]. unfold unblock, unblock_cas, compare_exchange. destruct (decide (run_state w t = Blocked)) as [E | E].
  - unfold unblock_enqueue. change (tw_scheds (set_run_state t Runnable w)) with (tw_scheds w).
    destruct (add_task_ok (tw_scheds w) t Hs Hne Hlen (Hb t E)) as (c & a & d & _ & _ & -> & _ & _ & Hp).
    cbn [outcome_bind]. intros [= <- <-]. unfold stays. cbn [set_tw_scheds tw_scheds]. rewrite Hp. split_and!; [done | done | simpl; lia].
  - intros [= <- <-]. unfold stays. split_and!; [done | done | lia].
Qed.

Lemma schedule_ok (cpu now sp : Z) (en : bool) (w : TaskWorld) :
  tasks_ok w -> is_Some (SCHEDULER (tw_scheds w) !! cpu) ->
  exists b w', schedule cpu now sp en w = Done (b, w') /\ tasks_ok w' /\ stays w w'.
Proof.
  intros [Hs Hb] [a Ha]. assert (stays w w) as Hrefl by (unfold stays; split_and!; [done | done | lia]).
  unfold schedule. destruct en; cbn [negb]; [| by eexists _, w].
  destruct (schedule_next_ok (tw_tasks w) (tw_scheds w) cpu a (get_my_current_task_id cpu w) now Hs Ha) as (t & s' & d & Hrun & Hd & Hs' & Hp & _).
  rewrite Hrun. cbn [outcome_bind]. destruct (task_switch_frame t cpu sp (set_tw_scheds s' w)) as [Ht Hsc].
  destruct (task_switch t cpu sp (set_tw_scheds s' w)) as [b w']. cbn [snd] in *. eexists _, w'. split; [done |].
  unfold tasks_ok, stays, run_state. rewrite Ht, Hsc. cbn [set_tw_scheds tw_scheds tw_tasks]. rewrite Hp. split_and!; try done; try lia.
  - intros x Hbl. rewrite Hp. by apply Hb.
  - revert Hrun. unfold schedule_next. rewrite Ha. cbn [expect outcome_bind]. rewrite Hd. cbn [expect outcome_bind].
    destruct (dyn_next _ _ _ _). by intros [= _ <-].
  - revert Hrun. unfold schedule_next. rewrite Ha. cbn [expect outcome_bind]. rewrite Hd. cbn [expect outcome_bind].
    destruct (dyn_next _ _ _ _). by intros [= _ <-].
Qed.

Lemma run_op_ok (op : TaskOp) (w : TaskWorld) :
  tasks_ok w -> has_room w -> cpu_ready op w -> exists w', run_op op w = Done w' /\ tasks_ok w' /\ stays w w'.
Proof.
  intros Hw Hroom Hready. pose proof Hw as [Hs _]. destruct op as [t | t | t reason | t | t cause | cpu now sp en]; cbn [run_op].
  - destruct (block_spec t w Hw) as (r & w' & Hrun & Hok & _). rewrite Hrun. exists w'. split_and!; auto.
    revert Hrun. unfold block, block_cas, compare_exchange. destruct (decide _).
    + destruct (block_dequeue t (set_run_state t Blocked w)) as [w2 |] eqn:E; [| done]. cbn [outcome_bind]. intros [= _ <-].
      by apply (block_dequeue_stays t (set_run_state t Blocked w)).
    + destruct (run_state w t); try (intros [= _ <-]; unfold stays; split_and!; [done | done | lia]).
      destruct (block_dequeue t w) as [w2 |] eqn:E; [| done]. cbn [outcome_bind]. intros [= _ <-]. by eapply block_dequeue_stays.
  - destruct (unblock_spec t w Hw Hroom) as (r & w' & Hrun & Hok & _). rewrite Hrun. exists w'. split_and!; auto. by eapply unblock_stays.
  - destruct (kill_spec t reason w Hw) as (r & w' & Hrun & Hok & _). rewrite Hrun. exists w'. split_and!; auto.
    revert Hrun. unfold kill.
    destruct (run_state w t) as [| | | [v | k]]; try (intros [= _ <-]; unfold stays; split_and!; [done | done | lia]);
      (destruct (block_dequeue t (set_run_state t (Exited (Killed reason)) w)) as [w2 |] eqn:E; [| done]); cbn [outcome_bind];
      intros [= _ <-]; by apply (block_dequeue_stays t (set_run_state t (Exited (Killed reason)) w)).
  - eexists. split; [done |]. destruct (mark_with_ok (Completed 0) t w Hw) as [Hok Hsc]. split; [done |].
    unfold stays, mark_as_exited. rewrite Hsc. split_and!; [done | done | lia].
  - destruct (mark_with_ok (Killed cause) t w Hw) as [[Hs1 Hb1] Hsc]. destruct (cleanup_failure_ok t cause w Hw) as (w' & Hrun & Hok & _).
    rewrite Hrun. exists w'. split_and!; auto. revert Hrun. unfold cleanup_failure, mark_as_killed.
    destruct (mark_with (Killed cause) t w) as [r w1]. cbn [snd] in *. intros Hrun. apply block_dequeue_stays in Hrun; [| done].
    unfold stays in *. by rewrite Hsc in Hrun.
  - destruct (schedule_ok cpu now sp en w Hw Hready) as (b & w' & -> & Hok & Hst). by exists w'.
Qed.

(** C30: No sequence of [block], [unblock], [kill], exits and [schedule]s on any CPUs, with any
    mixture of scheduling policies, fails, leaves a blocked task on a run queue, or puts a
    task on two of them: the run states and the run queues stay consistent. *)
Theorem run_states_and_queues_agree (ops : list TaskOp) (w : TaskWorld) :
  tasks_ok w -> SCHEDULERS (tw_scheds w) <> [] ->
  Z.of_nat (length (queued (tw_scheds w)) + length ops) < U64_MAX -> Forall (fun op => cpu_ready op w) ops ->
  exists w', run_ops ops w = Done w' /\ tasks_ok w'.
Proof.
  revert w. induction ops as [| op ops IH]; intros w Hw Hne Hlen Hready; [by exists w |].
  apply Forall_cons in Hready as [Hop Hready]. cbn [length] in Hlen.
  destruct (run_op_ok op w Hw ltac:(split; [done | lia]) Hop) as (w1 & Hrun & Hw1 & Hl & Hc & Hq). cbn [run_ops]. rewrite Hrun.
  apply IH; [done | by rewrite Hl | lia |]. eapply Forall_impl; [exact Hready |]. intros o. unfold cpu_ready. by rewrite Hc.
Qed.

(** ** Concrete machines *)

Module TaskDemo.

(** Two CPUs, one with the round-robin policy and one with the epoch policy; tasks 1, 2 and 5
    are queued on the first. *)
Definition rr_cpu : DynScheduler := Dyn (mkRR 100 [1; 2; 5]).
Definition epoch_cpu : DynScheduler := Dyn (epoch_new 101).

Definition scheds : Scheds :=
  mkScheds {[ 0 := rr_cpu; 1 := epoch_cpu ]} [(0, 0); (1, 1)] {[ 0 := 0; 1 := 1 ]}.

Definition world : TaskWorld :=
  mkTW (fun _ => task_new) scheds ∅ {[ 0 := 5; 1 := 101 ]} {[ 5 := 0; 101 := 1 ]} (fun _ => 65536) 7.

Lemma scheds_fine : scheds_ok scheds.
Proof.
  split.
  - apply map_Forall_insert_2; [exact rr_laws |]. apply map_Forall_singleton. exact epoch_laws.
  - repeat constructor; by eexists.
  - apply (bool_decide_unpack _). by vm_compute.
  - apply (bool_decide_unpack _). by vm_compute.
  - apply map_Forall_insert_2; [by left |]. apply map_Forall_singleton. right. by left.
  - apply (bool_decide_unpack _). by vm_compute.
Qed.

Lemma world_fine : tasks_ok world.
Proof. split; [apply scheds_fine | done]. Qed.

(** Task 2 is blocked and woken (on the other CPU), task 5 killed; both CPUs schedule. *)
Definition ops : list TaskOp :=
  [OpBlock 2; OpSchedule 0 10 4096 true; OpUnblock 2; OpKill 5 KRequested; OpSchedule 1 20 8192 true; OpExit 1; OpCleanup 1 KPanic].

Lemma run_states_and_queues_agree_witness :
  exists w', run_ops ops world = Done w' /\ tasks_ok w'.
Proof.
  apply (run_states_and_queues_agree ops world world_fine); [done | by vm_compute |].
  repeat constructor; by eexists.
Defined.

(** Task 2 now runs on the second CPU, the only task left on a queue. *)
Example ops_run :
  match run_ops ops world with
  | Done w => queued (tw_scheds w) = [2] /\ CURRENT_TASK w !! 1 = Some 2 /\ run_state w 5 = Exited (Killed KRequested)
  | Panic => False
  end.
Proof. by vm_compute. Qed.

(** A second policy for the first CPU. *)
Definition new_policy : DynScheduler := Dyn (epoch_new 102).

Lemma set_policy_moves_all_tasks_witness :
  exists w' a, set_policy 0 0 new_policy scheds = Done w' /\ scheds_ok w' /\ SCHEDULER w' !! 0 = Some a /\
    Permutation (queue_of w' a) (queue_of scheds 0 ++ dyn_tasks new_policy) /\
    Permutation (queued w') (dyn_tasks new_policy ++ queued scheds) /\
    (forall cpu b, cpu <> 0 -> SCHEDULER scheds !! cpu = Some b -> SCHEDULER w' !! cpu = Some b /\ queue_of w' b = queue_of scheds b).
Proof.
  apply (set_policy_moves_all_tasks scheds 0 0 new_policy scheds_fine); [done | exact epoch_laws |].
  apply (bool_decide_unpack _). by vm_compute.
Defined.

Lemma round_robin_is_fair_witness : rr_picks 3 (fun _ => task_new) 5 (mkRR 100 [1; 2; 5]) = ([1; 2; 5], mkRR 100 [1; 2; 5]).
Proof.
  apply (round_robin_is_fair (fun _ => task_new) (mkRR 100 [1; 2; 5]) 5).
  - repeat constructor.
  - apply (bool_decide_unpack _). by vm_compute.
  - simpl. lia.
  - done.
Defined.

(** [set_policy] for another CPU than the one it runs on removes the other CPU's entry: the
    tasks moved are its own, its old scheduler stays listed, and the other CPU's scheduler,
    still in use there, is no longer found. *)
Example set_policy_of_other_cpu :
  match set_policy 0 1 new_policy scheds with
  | Done w => SCHEDULERS w = [(0, 0); (1, 2)] /\ SCHEDULER w !! 1 = Some 1 /\ SCHEDULER w !! 0 = Some 2 /\ queue_of w 2 = [1; 2; 5] /\
      match add_task_to_current 1 9 w with
      | Done w => match remove_task 9 w with Done (b, w) => b = false /\ queue_of w 1 = [9] | Panic => False end
      | Panic => False
      end
  | Panic => False
  end.
Proof. by vm_compute. Qed.

(** The run state is exchanged before the run queues are updated.  One CPU blocks task 2 and
    another wakes it: when the wake-up falls between the two steps of the block, the task is
    queued a second time and then taken off the queue with its first entry.  It ends up
    runnable and on no queue, and no later [unblock] queues it. *)
Definition one_cpu : TaskWorld :=
  set_tw_scheds (mkScheds {[ 0 := rr_cpu ]} [(0, 0)] {[ 0 := 0 ]}) world.

Example wakeup_during_block_is_lost :
  let w1 := snd (block_cas 2 one_cpu) in
  let w2 := snd (unblock_cas 2 w1) in
  match (let* w3 := unblock_enqueue 2 w2 in block_dequeue 2 w3) with
  | Done w => run_state w 2 = Runnable /\ queued (tw_scheds w) = [1; 5] /\
      match unblock 2 w with Done (r, w') => r = Ok tt /\ queued (tw_scheds w') = [1; 5] | Panic => False end
  | Panic => False
  end.
Proof. by vm_compute. Qed.

(** A task that blocks itself runs on until it calls [schedule].  A wake-up from another CPU
    in between queues it there, and [task_switch] does not look at [running_on_cpu]: both CPUs
    run task 5, the second one from the stack pointer saved before the task's last run. *)
Example task_runs_on_two_cpus :
  match (let* (_, w) := block 5 world in let* (_, w) := unblock 5 w in schedule 1 20 8192 true w) with
  | Done (b, w) => b = true /\ CURRENT_TASK w !! 0 = Some 5 /\ CURRENT_TASK w !! 1 = Some 5
  | Panic => False
  end.
Proof. by vm_compute. Qed.

End TaskDemo.
