(* ===== verification/WaitQueues.v ===== *)
(** * Wait queues and wait guards

    [kernel/wait_queue/src/lib.rs] and [kernel/wait_guard/src/lib.rs]: tasks that block until
    an event, and the tasks that wake them.

    The callers run concurrently, so an operation is a sequence of atomic steps.  A step is
    what happens under one lock or on one atomic cell.  [wait_until] tests its condition and
    appends the task under the lock of the queue; [notify_one] first looks at the length of
    the queue without the lock, and that look can fall between the test and the append: they
    are separate steps here.  The queue itself is the list of its tasks ([queue_repr] of
    [MpmcQueue] relates it to the linked nodes).

    Run states are a function from tasks; blocking and unblocking act on them as in
    [TaskState] ([block_run_states], [unblock_run_states]). *)

From stdpp Require Import gmap.
From S2P Require Import Prelude SchedTask EpochSched PrioritySched SchedulerApi SchedulerProps TaskState TaskProps.

(** ** Run states *)

Definition States : Type := TaskRef -> RunState.

Definition task_upd {A} (f : TaskRef -> A) (t : TaskRef) (x : A) : TaskRef -> A := fun y => if decide (y = t) then x else f y.

Lemma task_upd_eq {A} (f : TaskRef -> A) t x : task_upd f t x t = x.
Proof. unfold task_upd. by rewrite decide_True. Qed.

Lemma task_upd_ne {A} (f : TaskRef -> A) t x y : y <> t -> task_upd f t x y = f y.
Proof. intros. unfold task_upd. by rewrite decide_False. Qed.

#[export] Hint Rewrite @task_upd_eq : maios.
#[export] Hint Rewrite @task_upd_ne using congruence : maios.

Definition rs_block (t : TaskRef) (rs : States) : result unit RunState * States :=
  match rs t with
  | Runnable | Blocked => (Ok tt, task_upd rs t Blocked)
  | s => (Err s, rs)
  end.

Definition rs_unblock (t : TaskRef) (rs : States) : result unit RunState * States :=
  match rs t with
  | Runnable | Blocked => (Ok tt, task_upd rs t Runnable)
  | s => (Err s, rs)
  end.

Definition rs_kill (t : TaskRef) (reason : KillReason) (rs : States) : States :=
  match rs t with
  | Runnable | Blocked => task_upd rs t (Exited (Killed reason))
  | _ => rs
  end.

(** [block] and [unblock] of a kernel with run queues change the run states in this way. *)
Lemma block_run_states (t : TaskRef) (w : TaskWorld) :
  tasks_ok w -> exists w', block t w = Done (fst (rs_block t (run_state w)), w') /\
    forall x, run_state w' x = snd (rs_block t (run_state w)) x.
Proof.
  intros Hw. destruct (block_spec t w Hw) as (r & w' & Hrun & _ & Hcase & Hother). exists w'. unfold rs_block.
  destruct (run_state w t) eqn:E; destruct Hcase as [-> Hcase]; (split; [done |]); intros x; cbn [snd];
    try (by subst w'); destruct Hcase as [Hcase _]; (destruct (decide (x = t)) as [-> | Hne];
      [by rewrite task_upd_eq | rewrite task_upd_ne by done; by apply Hother]).
Qed.

Lemma unblock_run_states (t : TaskRef) (w : TaskWorld) :
  tasks_ok w -> has_room w -> exists w', unblock t w = Done (fst (rs_unblock t (run_state w)), w') /\
    forall x, run_state w' x = snd (rs_unblock t (run_state w)) x.
Proof.
  intros Hw Hr. destruct (unblock_spec t w Hw Hr) as (r & w' & Hrun & _ & Hcase & Hother). exists w'. unfold rs_unblock.
  destruct (run_state w t) eqn:E; destruct Hcase as [-> Hcase]; (split; [done |]); intros x; cbn [snd]; try (by subst w').
  - subst w'. destruct (decide (x = t)) as [-> | Hne]; [by rewrite task_upd_eq | by rewrite task_upd_ne].
  - destruct Hcase as [Hcase _]. destruct (decide (x = t)) as [-> | Hne]; [by rewrite task_upd_eq | rewrite task_upd_ne by done; by apply Hother].
Qed.

(** ** Wait guards *)

(** A guard is the task it holds; dropping it unblocks the task. *)
Definition WaitGuard : Type := TaskRef.

Definition guard_new (t : TaskRef) (rs : States) : result WaitGuard RunState * States :=
  match rs_block t rs with
  | (Ok _, rs) => (Ok t, rs)
  | (Err s, rs) => (Err s, rs)
  end.

Definition block_again (g : WaitGuard) (rs : States) : result RunState RunState * States :=
  match rs_block g rs with
  | (Ok _, rs) => (Ok Runnable, rs)
  | (Err s, rs) => (Err s, rs)
  end.

Definition guard_drop (g : WaitGuard) (rs : States) : States := snd (rs_unblock g rs).

(** ** Wait queues *)

(** The waiting tasks, and the task that holds the lock of the queue across two steps. *)
Record WaitQueue := mkWQ { wq_tasks : list TaskRef; wq_lock : option TaskRef }.

Definition wq_new : WaitQueue := mkWQ [] None.

(** The condition of [wait_until] failed: the task has blocked itself and keeps the lock; or
    it cannot block and panics. *)
Definition wait_failed (t : TaskRef) (q : WaitQueue) (rs : States) : option (WaitQueue * States) :=
  match rs_block t rs with
  | (Ok _, rs) => Some (mkWQ (wq_tasks q) (Some t), rs)
  | (Err _, _) => None
  end.

(** The task appends itself and releases the lock. *)
Definition wait_push (t : TaskRef) (q : WaitQueue) : WaitQueue := mkWQ (wq_tasks q ++ [t]) None.

(** Where [notify_one] is: looking at the length, waiting for the lock, or with a task that
    it has popped. *)
Inductive Notify := NCheck | NPop | NUnblock (t : TaskRef).

(** A step of [notify_one]: the next step, or whether a task was woken; [None] when the lock
    is taken. *)
Definition notify_step (n : Notify) (q : WaitQueue) (rs : States) : option (WaitQueue * States * (Notify + bool)) :=
  match n with
  | NCheck => Some (q, rs, if Nat.eqb (length (wq_tasks q)) 0 then inr false else inl NPop)
  | NPop =>
      match wq_lock q with
      | Some _ => None
      | None =>
          match wq_tasks q with
          | [] => Some (q, rs, inr false)
          | t :: l => Some (mkWQ l None, rs, inl (NUnblock t))
          end
      end
  | NUnblock t =>
      match rs_unblock t rs with
      | (Ok _, rs) => Some (q, rs, inr true)
      | (Err _, rs) => Some (q, rs, inl NCheck)
      end
  end.

(** ** One task at a time *)

(** [notify_one] with nobody else running: [fuel] is the number of steps. *)
Fixpoint notify_run (fuel : nat) (n : Notify) (q : WaitQueue) (rs : States) : option (bool * WaitQueue * States) :=
  match fuel with
  | O => None
  | S fuel =>
      match notify_step n q rs with
      | Some (q, rs, inl n) => notify_run fuel n q rs
      | Some (q, rs, inr b) => Some (b, q, rs)
      | None => None
      end
  end.

Definition notify_one (q : WaitQueue) (rs : States) : option (bool * WaitQueue * States) :=
  notify_run (3 * length (wq_tasks q) + 1) NCheck q rs.

Fixpoint notify_all_loop (fuel : nat) (q : WaitQueue) (rs : States) : option (WaitQueue * States) :=
  match fuel with
  | O => None
  | S fuel =>
      match notify_one q rs with
      | Some (true, q, rs) => notify_all_loop fuel q rs
      | Some (false, q, rs) => Some (q, rs)
      | None => None
      end
  end.

Definition notify_all (q : WaitQueue) (rs : States) : option (WaitQueue * States) :=
  notify_all_loop (S (length (wq_tasks q))) q rs.

Definition can_wake (rs : States) (t : TaskRef) : bool :=
  match rs t with Runnable | Blocked => true | _ => false end.

(** The tasks of [l] that can run again are runnable, the others as before. *)
Definition woken (l : list TaskRef) (rs : States) : States :=
  fun t => if decide (t ∈ l) then (if can_wake rs t then Runnable else rs t) else rs t.

Lemma rs_unblock_cases (t : TaskRef) (rs : States) :
  rs_unblock t rs = if can_wake rs t then (Ok tt, task_upd rs t Runnable) else (Err (rs t), rs).
Proof. unfold rs_unblock, can_wake. by destruct (rs t). Qed.

(** [notify_one] wakes the first task that can be woken and drops those before it. *)
Lemma notify_run_spec (l : list TaskRef) (rs : States) (fuel : nat) :
  (3 * length l + 1 <= fuel)%nat ->
  (exists dead t rest, l = dead ++ t :: rest /\ Forall (fun x => can_wake rs x = false) dead /\ can_wake rs t = true /\
     notify_run fuel NCheck (mkWQ l None) rs = Some (true, mkWQ rest None, task_upd rs t Runnable)) \/
  (Forall (fun x => can_wake rs x = false) l /\ notify_run fuel NCheck (mkWQ l None) rs = Some (false, wq_new, rs)).
Proof.
  revert fuel. induction l as [| t l IH]; intros fuel Hf.
  - right. split; [constructor |]. destruct fuel; [simpl in Hf; lia | done].
  - destruct fuel as [| [| [| fuel]]]; simpl in Hf; try lia. cbn [notify_run notify_step wq_tasks wq_lock length Nat.eqb].
    rewrite rs_unblock_cases. destruct (can_wake rs t) eqn:E.
    + left. by exists [], t, l.
    + destruct (IH fuel ltac:(lia)) as [(dead & t' & rest & -> & Hd & Ht & Hrun) | [Hd Hrun]]; [left | right].
      * exists (t :: dead), t', rest. split_and!; auto.
      * split; [by constructor | done].
Qed.

Lemma woken_nil (rs : States) t : woken [] rs t = rs t.
Proof. unfold woken. by rewrite decide_False by apply not_elem_of_nil. Qed.

Lemma can_wake_task_upd (rs : States) (t x : TaskRef) : can_wake rs t = true -> can_wake (task_upd rs t Runnable) x = can_wake rs x.
Proof.
  intros H. unfold can_wake in *. destruct (decide (x = t)) as [-> | Hne]; [rewrite task_upd_eq; by destruct (rs t) | by rewrite task_upd_ne].
Qed.

(** [notify_all] ends with an empty queue and wakes every task of it that has not exited;
    tasks that are not on the queue keep their run state. *)
Lemma notify_all_loop_ok (fuel : nat) (l : list TaskRef) (rs : States) :
  (length l < fuel)%nat ->
  exists rs', notify_all_loop fuel (mkWQ l None) rs = Some (wq_new, rs') /\ forall t, rs' t = woken l rs t.
Proof.
  revert l rs. induction fuel as [| fuel IH]; intros l rs Hf; [lia |]. cbn [notify_all_loop]. unfold notify_one. cbn [wq_tasks].
  destruct (notify_run_spec l rs _ (le_n _)) as [(dead & t & rest & -> & Hd & Ht & ->) | [Hd ->]].
  - destruct (IH rest (task_upd rs t Runnable)) as (rs' & -> & Hrs'); [rewrite length_app in Hf; simpl in Hf; lia |].
    exists rs'. split; [done |]. intros x. rewrite Hrs'. unfold woken. rewrite can_wake_task_upd by done.
    assert (x ∈ dead -> can_wake rs x = false) as Hdx by (intros; rewrite Forall_forall in Hd; auto).
    destruct (decide (x = t)) as [-> | Hne].
    + rewrite task_upd_eq, (decide_True (P := t ∈ dead ++ t :: rest)) by (apply elem_of_app; right; by left). rewrite Ht.
      by destruct (decide _).
    + rewrite task_upd_ne by done. destruct (decide (x ∈ rest)) as [Hr | Hr].
      * by rewrite decide_True by (apply elem_of_app; right; by right).
      * destruct (decide (x ∈ dead ++ t :: rest)) as [Hx | Hx]; [| done]. apply elem_of_app in Hx as [Hx | Hx].
        -- by rewrite (Hdx Hx).
        -- by apply elem_of_cons in Hx as [? | ?].
  - exists rs. split; [done |]. intros x. unfold woken. destruct (decide (x ∈ l)) as [Hx | Hx]; [| done].
    rewrite Forall_forall in Hd. by rewrite (Hd x Hx).
Qed.

(** ** Histories of concurrent calls

    What the models of the channels share: histories that say which task put a message into
    a channel, took one out or returned, and the accounts of a single task in them.  They
    are about the model, not about code: the code keeps no histories. *)

(** The entries of task [t]. *)
Definition mine {A} (t : TaskRef) (l : list A) : list (TaskRef * A) := (fun a => (t, a)) <$> l.

Definition by_task {A} (t : TaskRef) (e : TaskRef * A) : option A := if decide (fst e = t) then Some (snd e) else None.

Lemma by_task_mine {A} (t : TaskRef) (l : list A) : omap (by_task t) (mine t l) = l.
Proof.
  induction l as [| a l IH]; [done |]. unfold mine. rewrite fmap_cons. simpl. unfold by_task at 1. simpl.
  rewrite decide_True by done. f_equal. exact IH.
Qed.

Lemma by_task_other {A} (t x : TaskRef) (l : list A) : x <> t -> omap (by_task x) (mine t l) = [].
Proof.
  intros Hne. induction l as [| a l IH]; [done |]. unfold mine. rewrite fmap_cons. simpl. unfold by_task at 1. simpl.
  rewrite decide_False by done. exact IH.
Qed.

Section Accounts.
Context {T R : Type}.

(** The message a result carries, and whether it reports a successful send. *)
Context (got : R -> option T) (sent : R -> option unit).

(** The messages task [t] put in or took out. *)
Definition entries (t : TaskRef) (h : list (TaskRef * T)) : list T := omap (by_task t) h.

(** The messages the calls of [t] returned, and its successful sends. *)
Definition returned (t : TaskRef) (h : list (TaskRef * R)) : list T := omap got (omap (by_task t) h).
Definition sends (t : TaskRef) (h : list (TaskRef * R)) : list unit := omap sent (omap (by_task t) h).

(** What [t] took out is what its calls returned and [pm], which is about to be returned;
    its successful sends and the [ps] that are about to succeed each put a message in. *)
Record account (put taken : list (TaskRef * T)) (rets : list (TaskRef * R)) (t : TaskRef) (pm : list T) (ps : list unit) : Prop := {
  ac_received : entries t taken = returned t rets ++ pm;
  ac_sent : (length (sends t rets) + length ps <= length (entries t put))%nat;
}.

Lemma account_own put taken rets t pm ps s r o pm' ps' :
  pm ++ r = omap got o ++ pm' -> (length (omap sent o) + length ps' <= length ps + length s)%nat ->
  account put taken rets t pm ps -> account (put ++ mine t s) (taken ++ mine t r) (rets ++ mine t o) t pm' ps'.
Proof.
  intros Hr Hs [H1 H2]. unfold entries, returned, sends in *.
  split; unfold entries, returned, sends; rewrite !omap_app, !by_task_mine, ?omap_app.
  - rewrite H1, <- !app_assoc. by f_equal.
  - rewrite !length_app. lia.
Qed.

Lemma account_other put taken rets t x pm ps s r o :
  x <> t -> account put taken rets x pm ps -> account (put ++ mine t s) (taken ++ mine t r) (rets ++ mine t o) x pm ps.
Proof.
  intros Hne [H1 H2]. unfold entries, returned, sends in *.
  split; unfold entries, returned, sends; rewrite !omap_app, !by_task_other, ?app_nil_r by done; done.
Qed.

End Accounts.
