(* ===== verification/Rendezvous.v ===== *)
(** * The rendezvous channel

    [kernel/rendezvous/src/lib.rs]: senders and receivers meet at an exchange slot.  A task
    takes the sender side or the receiver side of the slot (waiting on a queue until it is
    free), then drives the exchange state: whoever arrives first leaves a wait guard in it
    and sleeps, the partner finishes the exchange and wakes it, and the one that was asleep
    resets the state and returns both sides to the channel.

    Any number of tasks call [send] and [receive]; the state of a call is a program point
    ([Pc]) and one step runs from one lock or atomic access to the next, so the possible
    interleavings are the sequences of steps ([reachable]).  A task that has called
    [schedule] goes on when it is runnable.  The environment may kill tasks and wake
    sleeping ones for other reasons ([Wake]).

    The record also keeps histories, which the code does not have: the messages put into
    the exchange state and taken out of it, by which task, the results of the calls, and whether a branch
    that reports a bug was taken. *)

From stdpp Require Import gmap.
From S2P Require Import Prelude SchedTask EpochSched PrioritySched SchedulerApi SchedulerProps TaskState TaskProps WaitQueues.

Section Channel.
Context {T : Type}.

Inductive ExchangeState :=
| Init
| WaitingForReceiver (sender : WaitGuard) (msg : T)
| WaitingForSender (receiver : WaitGuard)
| ReceiverFinishedFirst
| SenderFinishedFirst (msg : T).

(** What a call returned. *)
Inductive Ret := SendOk | ReceiveOk (msg : T) | CallErr (e : string).

Inductive Pc :=
| Outside
| Panicked
(* [send] *)
| STake (msg : T)
| SCond (msg : T)
| SPush (msg : T)
| SSleep (msg : T)
| SMatch (msg : T)
| SDrop (receiver_to_notify : WaitGuard)
| SWait
| SEnd
| SGiveReceiver
| SNotifyReceivers (n : Notify)
| SGiveSender (retval : Ret)
| SNotifySenders (n : Notify) (retval : Ret)
(* [receive] *)
| RTake
| RCond
| RPush
| RSleep
| RMatch
| RDrop (sender_to_notify : WaitGuard) (msg : T)
| RWait
| REnd
| RGiveSender (msg : T)
| RNotifySenders (n : Notify) (msg : T)
| RGiveReceiver (retval : Ret)
| RNotifyReceivers (n : Notify) (retval : Ret).

(** The two sides of the slot in the channel ([ExchangeSlot]), the shared state they refer
    to, the two wait queues, the run states and the calls; then the histories. *)
Record Channel := mkChannel {
  exchange : ExchangeState;
  slot_sender : bool;
  slot_receiver : bool;
  waiting_senders : WaitQueue;
  waiting_receivers : WaitQueue;
  states : States;
  pcs : TaskRef -> Pc;
  h_sent : list (TaskRef * T);
  h_received : list (TaskRef * T);
  h_returned : list (TaskRef * Ret);
  h_bug : bool;
}.

Definition new_channel (rs : States) : Channel :=
  mkChannel Init true true wq_new wq_new rs (fun _ => Outside) [] [] [] false.

(** ** Updates *)

Definition set_exchange (e : ExchangeState) (c : Channel) : Channel :=
  mkChannel e (slot_sender c) (slot_receiver c) (waiting_senders c) (waiting_receivers c) (states c) (pcs c)
    (h_sent c) (h_received c) (h_returned c) (h_bug c).
Definition set_slot_sender (b : bool) (c : Channel) : Channel :=
  mkChannel (exchange c) b (slot_receiver c) (waiting_senders c) (waiting_receivers c) (states c) (pcs c)
    (h_sent c) (h_received c) (h_returned c) (h_bug c).
Definition set_slot_receiver (b : bool) (c : Channel) : Channel :=
  mkChannel (exchange c) (slot_sender c) b (waiting_senders c) (waiting_receivers c) (states c) (pcs c)
    (h_sent c) (h_received c) (h_returned c) (h_bug c).
Definition set_senders (q : WaitQueue) (c : Channel) : Channel :=
  mkChannel (exchange c) (slot_sender c) (slot_receiver c) q (waiting_receivers c) (states c) (pcs c)
    (h_sent c) (h_received c) (h_returned c) (h_bug c).
Definition set_receivers (q : WaitQueue) (c : Channel) : Channel :=
  mkChannel (exchange c) (slot_sender c) (slot_receiver c) (waiting_senders c) q (states c) (pcs c)
    (h_sent c) (h_received c) (h_returned c) (h_bug c).
Definition set_states (rs : States) (c : Channel) : Channel :=
  mkChannel (exchange c) (slot_sender c) (slot_receiver c) (waiting_senders c) (waiting_receivers c) rs (pcs c)
    (h_sent c) (h_received c) (h_returned c) (h_bug c).
Definition goto (t : TaskRef) (p : Pc) (c : Channel) : Channel :=
  mkChannel (exchange c) (slot_sender c) (slot_receiver c) (waiting_senders c) (waiting_receivers c) (states c)
    (task_upd (pcs c) t p) (h_sent c) (h_received c) (h_returned c) (h_bug c).
Definition log_sent (t : TaskRef) (m : T) (c : Channel) : Channel :=
  mkChannel (exchange c) (slot_sender c) (slot_receiver c) (waiting_senders c) (waiting_receivers c) (states c) (pcs c)
    (h_sent c ++ [(t, m)]) (h_received c) (h_returned c) (h_bug c).
Definition log_received (t : TaskRef) (m : T) (c : Channel) : Channel :=
  mkChannel (exchange c) (slot_sender c) (slot_receiver c) (waiting_senders c) (waiting_receivers c) (states c) (pcs c)
    (h_sent c) (h_received c ++ [(t, m)]) (h_returned c) (h_bug c).
Definition log_bug (c : Channel) : Channel :=
  mkChannel (exchange c) (slot_sender c) (slot_receiver c) (waiting_senders c) (waiting_receivers c) (states c) (pcs c)
    (h_sent c) (h_received c) (h_returned c) true.

(** The call of [t] returns. *)
Definition return_ (t : TaskRef) (r : Ret) (c : Channel) : Channel :=
  goto t Outside
    (mkChannel (exchange c) (slot_sender c) (slot_receiver c) (waiting_senders c) (waiting_receivers c) (states c) (pcs c)
       (h_sent c) (h_received c) (h_returned c ++ [(t, r)]) (h_bug c)).

(** ** The exchange slot *)

Definition replace_sender_slot (c : Channel) : Channel :=
  let c' := set_slot_sender true c in if slot_sender c then log_bug c' else c'.

Definition replace_receiver_slot (c : Channel) : Channel :=
  let c' := set_slot_receiver true c in if slot_receiver c then log_bug c' else c'.

(** [try_take_sender_slot]: the task goes on to [got], or to [failed]. *)
Definition try_take_sender (t : TaskRef) (got failed : Pc) (c : Channel) : Channel :=
  if slot_sender c then goto t got (set_slot_sender false c) else goto t failed c.

Definition try_take_receiver (t : TaskRef) (got failed : Pc) (c : Channel) : Channel :=
  if slot_receiver c then goto t got (set_slot_receiver false c) else goto t failed c.

(** The test of [wait_until] under the lock of the queue. *)
Definition wait_for_sender_slot (t : TaskRef) (msg : T) (c : Channel) : option Channel :=
  match wq_lock (waiting_senders c) with
  | Some _ => None
  | None =>
      if slot_sender c then Some (goto t (SMatch msg) (set_slot_sender false c))
      else match wait_failed t (waiting_senders c) (states c) with
           | Some (q, rs) => Some (goto t (SPush msg) (set_states rs (set_senders q c)))
           | None => Some (goto t Panicked c)
           end
  end.

Definition wait_for_receiver_slot (t : TaskRef) (c : Channel) : option Channel :=
  match wq_lock (waiting_receivers c) with
  | Some _ => None
  | None =>
      if slot_receiver c then Some (goto t RMatch (set_slot_receiver false c))
      else match wait_failed t (waiting_receivers c) (states c) with
           | Some (q, rs) => Some (goto t RPush (set_states rs (set_receivers q c)))
           | None => Some (goto t Panicked c)
           end
  end.

Definition notify_senders_step (t : TaskRef) (n : Notify) (again : Notify -> Pc) (k : Channel -> Channel) (c : Channel) : option Channel :=
  match notify_step n (waiting_senders c) (states c) with
  | None => None
  | Some (q, rs, r) =>
      let c := set_states rs (set_senders q c) in
      Some (match r with inl n => goto t (again n) c | inr _ => k c end)
  end.

Definition notify_receivers_step (t : TaskRef) (n : Notify) (again : Notify -> Pc) (k : Channel -> Channel) (c : Channel) : option Channel :=
  match notify_step n (waiting_receivers c) (states c) with
  | None => None
  | Some (q, rs, r) =>
      let c := set_states rs (set_receivers q c) in
      Some (match r with inl n => goto t (again n) c | inr _ => k c end)
  end.

(** ** [Sender::send] *)

(** The first look at the exchange state. *)
Definition send_match (t : TaskRef) (msg : T) (c : Channel) : Channel :=
  match exchange c with
  | Init =>
      match guard_new t (states c) with
      | (Ok g, rs) => goto t SWait (log_sent t msg (set_exchange (WaitingForReceiver g msg) (set_states rs c)))
      | (Err _, rs) => return_ t (CallErr "failed to create wait guard") (set_exchange Init (set_states rs c))
      end
  | WaitingForSender receiver_to_notify =>
      goto t (SDrop receiver_to_notify) (log_sent t msg (set_exchange (SenderFinishedFirst msg) c))
  | state => goto t (SGiveSender (CallErr "BUG: Sender (at beginning) in invalid state")) (log_bug (set_exchange state c))
  end.

(** A round of the waiting loop. *)
Definition send_wait (t : TaskRef) (c : Channel) : Channel :=
  match exchange c with
  | WaitingForReceiver blocked_sender _ =>
      if decide (t = blocked_sender) then
        match block_again blocked_sender (states c) with
        | (Ok _, rs) => set_states rs c
        | (Err _, rs) => return_ t (CallErr "failed to block sender") (set_states rs c)
        end
      else return_ t (CallErr "BUG: CURR TASK WAS DIFFERENT THAN BLOCKED SENDER") (log_bug c)
  | _ => goto t SEnd c
  end.

(** The rendezvous point. *)
Definition send_end (t : TaskRef) (c : Channel) : Channel :=
  match exchange c with
  | ReceiverFinishedFirst => goto t SGiveReceiver (set_exchange Init c)
  | state => goto t (SGiveSender (CallErr "BUG: Sender (while waiting) in invalid state")) (log_bug (set_exchange state c))
  end.

(** ** [Receiver::receive] *)

Definition receive_match (t : TaskRef) (c : Channel) : Channel :=
  match exchange c with
  | Init =>
      match guard_new t (states c) with
      | (Ok g, rs) => goto t RWait (set_exchange (WaitingForSender g) (set_states rs c))
      | (Err _, rs) => return_ t (CallErr "failed to create wait guard") (set_exchange Init (set_states rs c))
      end
  | WaitingForReceiver sender_to_notify msg =>
      goto t (RDrop sender_to_notify msg) (log_received t msg (set_exchange ReceiverFinishedFirst c))
  | state => goto t (RGiveReceiver (CallErr "BUG: Receiver (at beginning) in invalid state")) (log_bug (set_exchange state c))
  end.

Definition receive_wait (t : TaskRef) (c : Channel) : Channel :=
  match exchange c with
  | WaitingForSender blocked_receiver =>
      if decide (t = blocked_receiver) then
        match block_again blocked_receiver (states c) with
        | (Ok _, rs) => set_states rs c
        | (Err _, rs) => return_ t (CallErr "failed to block receiver") (set_states rs c)
        end
      else return_ t (CallErr "BUG: CURR TASK WAS DIFFERENT THAN BLOCKED RECEIVER") (log_bug c)
  | _ => goto t REnd c
  end.

Definition receive_end (t : TaskRef) (c : Channel) : Channel :=
  match exchange c with
  | SenderFinishedFirst msg => goto t (RGiveSender msg) (log_received t msg (set_exchange Init c))
  | state => goto t (RGiveReceiver (CallErr "BUG: Receiver (at end) in invalid state")) (log_bug (set_exchange state c))
  end.

(** ** Steps *)

(** After [schedule], a task goes on when it is runnable. *)
Definition resume (t : TaskRef) (c : Channel) (k : Channel) : option Channel :=
  if decide (states c t = Runnable) then Some k else None.

(** The next step of the call of task [t]; [None] when it cannot go on. *)
Definition run_pc (t : TaskRef) (c : Channel) : option Channel :=
  match pcs c t with
  | Outside | Panicked => None
  (* send *)
  | STake msg => Some (try_take_sender t (SMatch msg) (SCond msg) c)
  | SCond msg => wait_for_sender_slot t msg c
  | SPush msg => Some (goto t (SSleep msg) (set_senders (wait_push t (waiting_senders c)) c))
  | SSleep msg => resume t c (goto t (SCond msg) c)
  | SMatch msg => Some (send_match t msg c)
  | SDrop r => Some (return_ t SendOk (set_states (guard_drop r (states c)) c))
  | SWait => resume t c (send_wait t c)
  | SEnd => Some (send_end t c)
  | SGiveReceiver => Some (goto t (SNotifyReceivers NCheck) (replace_receiver_slot c))
  | SNotifyReceivers n => notify_receivers_step t n SNotifyReceivers (goto t (SGiveSender SendOk)) c
  | SGiveSender retval => Some (goto t (SNotifySenders NCheck retval) (replace_sender_slot c))
  | SNotifySenders n retval => notify_senders_step t n (fun n => SNotifySenders n retval) (return_ t retval) c
  (* receive *)
  | RTake => Some (try_take_receiver t RMatch RCond c)
  | RCond => wait_for_receiver_slot t c
  | RPush => Some (goto t RSleep (set_receivers (wait_push t (waiting_receivers c)) c))
  | RSleep => resume t c (goto t RCond c)
  | RMatch => Some (receive_match t c)
  | RDrop s msg => Some (return_ t (ReceiveOk msg) (set_states (guard_drop s (states c)) c))
  | RWait => resume t c (receive_wait t c)
  | REnd => Some (receive_end t c)
  | RGiveSender msg => Some (goto t (RNotifySenders NCheck msg) (replace_sender_slot c))
  | RNotifySenders n msg => notify_senders_step t n (fun n => RNotifySenders n msg) (goto t (RGiveReceiver (ReceiveOk msg))) c
  | RGiveReceiver retval => Some (goto t (RNotifyReceivers NCheck retval) (replace_receiver_slot c))
  | RNotifyReceivers n retval => notify_receivers_step t n (fun n => RNotifyReceivers n retval) (return_ t retval) c
  end.

Inductive Action :=
| StartSend (t : TaskRef) (msg : T)
| StartReceive (t : TaskRef)
| Run (t : TaskRef)
| Kill (t : TaskRef) (reason : KillReason)
| Wake (t : TaskRef).

Definition act (a : Action) (c : Channel) : option Channel :=
  match a with
  | StartSend t msg => match pcs c t with Outside => Some (goto t (STake msg) c) | _ => None end
  | StartReceive t => match pcs c t with Outside => Some (goto t RTake c) | _ => None end
  | Run t => run_pc t c
  | Kill t reason => Some (set_states (rs_kill t reason (states c)) c)
  | Wake t => Some (set_states (snd (rs_unblock t (states c))) c)
  end.

Fixpoint run_actions (l : list Action) (c : Channel) : option Channel :=
  match l with
  | [] => Some c
  | a :: l => match act a c with Some c => run_actions l c | None => None end
  end.

(** What the tasks can make of a new channel. *)
Inductive reachable (rs : States) : Channel -> Prop :=
| reach_new : reachable rs (new_channel rs)
| reach_act c a c' : reachable rs c -> act a c = Some c' -> reachable rs c'.

Lemma run_actions_reachable (rs : States) (l : list Action) (c c' : Channel) :
  reachable rs c -> run_actions l c = Some c' -> reachable rs c'.
Proof.
  revert c. induction l as [| a l IH]; intros c Hc; cbn [run_actions]; [by intros [= <-] |].
  destruct (act a c) as [c1 |] eqn:E; [| done]. apply IH. by eapply reach_act.
Qed.

End Channel.

Arguments ExchangeState T : clear implicits.
Arguments Channel T : clear implicits.
Arguments Pc T : clear implicits.
Arguments Action T : clear implicits.
Arguments Ret T : clear implicits.
