(* ===== verification/RendezvousProps.v ===== *)
(** * Properties of the rendezvous channel

    The invariant of the channel: each side of the slot is in the channel, with one task, or
    given up to the partner, and the exchange state fits where the two sides are.  It holds
    in every reachable state, whatever the number of tasks and however their steps
    interleave, and excludes the branches that report a bug. *)

From stdpp Require Import gmap.
From S2P Require Import Prelude SchedTask EpochSched PrioritySched SchedulerApi SchedulerProps TaskState TaskProps WaitQueues Rendezvous.

(** Where a side of the slot is: in the channel, with a task, given up to the partner, or
    lost with a call that failed. *)
Inductive Token := TChan | TTask (t : TaskRef) | TGone | TLost.

(** What the task with a side is doing: nothing the exchange state shows, waiting for its
    partner, past the wait, or about to return the partner's side. *)
Inductive Hold := HFree | HWait | HEnd | HGive.

Inductive Status := Free | Waiting (t : TaskRef) | Ending (t : TaskRef) | Giving | Gone | Lost.

Definition hold_status (t : TaskRef) (h : Hold) : Status :=
  match h with HFree => Free | HWait => Waiting t | HEnd => Ending t | HGive => Giving end.

Section Props.
Context {T : Type}.
Abbreviation Point := (Pc T).
Abbreviation Chan := (Channel T).

Definition s_hold (p : Point) : option Hold :=
  match p with
  | SMatch _ | SNotifyReceivers _ | SGiveSender _ => Some HFree
  | SWait => Some HWait
  | SEnd => Some HEnd
  | SGiveReceiver => Some HGive
  | _ => None
  end.

Definition r_hold (p : Point) : option Hold :=
  match p with
  | RMatch | RNotifySenders _ _ | RGiveReceiver _ => Some HFree
  | RWait => Some HWait
  | REnd => Some HEnd
  | RGiveSender _ => Some HGive
  | _ => None
  end.

(** ** Sides *)

Definition tok_ok (hold : Point -> option Hold) (tok : Token) (slot : bool) (f : TaskRef -> Point) : Prop :=
  (slot = true <-> tok = TChan) /\ forall t, hold (f t) <> None <-> tok = TTask t.

Definition status (hold : Point -> option Hold) (tok : Token) (f : TaskRef -> Point) : Status :=
  match tok with
  | TChan => Free
  | TTask t => match hold (f t) with Some h => hold_status t h | None => Lost end
  | TGone => Gone
  | TLost => Lost
  end.

Definition sides (hold1 hold2 : Point -> option Hold) (shp : Status -> Status -> Prop) (slot1 slot2 : bool) (f : TaskRef -> Point) : Prop :=
  exists tok1 tok2, tok_ok hold1 tok1 slot1 f /\ tok_ok hold2 tok2 slot2 f /\ shp (status hold1 tok1 f) (status hold2 tok2 f).

Lemma sides_swap hold1 hold2 shp slot1 slot2 f :
  sides hold1 hold2 shp slot1 slot2 f <-> sides hold2 hold1 (fun a b => shp b a) slot2 slot1 f.
Proof. unfold sides. split; intros (t1 & t2 & H1 & H2 & H3); by exists t2, t1. Qed.

(** A task whose step does not change what it holds. *)
Lemma tok_frame hold tok slot f t p :
  hold p = hold (f t) -> tok_ok hold tok slot f ->
  tok_ok hold tok slot (task_upd f t p) /\ status hold tok (task_upd f t p) = status hold tok f.
Proof.
  intros Hp [H1 H2]. assert (forall x, hold (task_upd f t p x) = hold (f x)) as Hx.
  { intros x. destruct (decide (x = t)) as [-> | Hne]; [by rewrite task_upd_eq | by rewrite task_upd_ne]. }
  split; [split; [done |]; intros x; by rewrite Hx |]. unfold status. destruct tok; try done. by rewrite Hx.
Qed.

Lemma sides_frame hold1 hold2 shp slot1 slot2 f t p :
  hold1 p = hold1 (f t) -> hold2 p = hold2 (f t) ->
  sides hold1 hold2 shp slot1 slot2 f -> sides hold1 hold2 shp slot1 slot2 (task_upd f t p).
Proof.
  intros Hp1 Hp2 (t1 & t2 & H1 & H2 & H3). exists t1, t2.
  destruct (tok_frame hold1 t1 slot1 f t p Hp1 H1) as [? ->]. by destruct (tok_frame hold2 t2 slot2 f t p Hp2 H2) as [? ->].
Qed.

(** A task that holds a side: no other task does, and the side is not in the channel. *)
Lemma tok_held hold tok slot f t h :
  hold (f t) = Some h -> tok_ok hold tok slot f -> tok = TTask t /\ slot = false.
Proof.
  intros Hh [H1 H2]. assert (tok = TTask t) as -> by (apply H2; congruence). split; [done |].
  destruct slot; [| done]. by destruct H1 as [H1 _]; specialize (H1 eq_refl).
Qed.

(** The side the task [t] holds changes hands or stays: [tok'] is where it is next. *)
Definition moves (hold : Point -> option Hold) (t : TaskRef) (p : Point) (tok' : Token) (slot' : bool) : Prop :=
  match tok' with
  | TTask x => x = t /\ hold p <> None /\ slot' = false
  | TChan => hold p = None /\ slot' = true
  | TGone | TLost => hold p = None /\ slot' = false
  end.

Lemma tok_moves hold tok slot f t p tok' slot' :
  tok_ok hold tok slot f -> tok = TTask t \/ (hold (f t) = None /\ tok = TChan) ->
  moves hold t p tok' slot' -> tok_ok hold tok' slot' (task_upd f t p).
Proof.
  intros [H1 H2] Htok Hm.
  assert (forall x, x <> t -> hold (f x) = None) as Hother.
  { intros x Hne. destruct (hold (f x)) eqn:E; [| done]. assert (tok = TTask x) as -> by (apply H2; congruence).
    destruct Htok as [[= ->] | [_ [=]]]. done. }
  split; [destruct tok'; unfold moves in Hm; naive_solver |].
  intros x. destruct (decide (x = t)) as [-> | Hne].
  - rewrite task_upd_eq. unfold moves in Hm. destruct tok' as [| y | |]; [| destruct Hm as (-> & Hp & _); naive_solver | |];
      destruct Hm as [-> _]; naive_solver.
  - rewrite task_upd_ne, Hother by done. unfold moves in Hm. destruct tok' as [| y | |]; naive_solver.
Qed.

(** A step of the task that holds the first side, or takes it from the channel. *)
Lemma sides_step hold1 hold2 (shp shp' : Status -> Status -> Prop) slot1 slot2 f t p s tok' slot1' :
  hold2 (f t) = None -> hold2 p = None -> moves hold1 t p tok' slot1' ->
  match hold1 (f t) with Some h => s = hold_status t h | None => slot1 = true /\ s = Free end ->
  (forall s2, shp s s2 -> shp' (status hold1 tok' (task_upd f t p)) s2) ->
  sides hold1 hold2 shp slot1 slot2 f -> sides hold1 hold2 shp' slot1' slot2 (task_upd f t p).
Proof.
  intros H2t H2p Hm Hs Himp (t1 & t2 & H1 & H2 & H3). exists tok', t2.
  destruct (tok_frame hold2 t2 slot2 f t p ltac:(by rewrite H2t) H2) as [H2' ->]. split; [| split; [done |]].
  - eapply tok_moves; [done | | done]. destruct (hold1 (f t)) as [h |] eqn:E.
    + left. by apply (tok_held hold1 t1 slot1 f t h).
    + right. split; [done |]. destruct Hs as [-> _]. by apply H1.
  - apply Himp. destruct (hold1 (f t)) as [h |] eqn:E.
    + destruct (tok_held hold1 t1 slot1 f t h E H1) as [-> _]. unfold status in H3 at 1. rewrite E in H3. by subst.
    + destruct Hs as [-> ->]. destruct H1 as [[H1 _] _]. by rewrite (H1 eq_refl) in H3.
Qed.

(** The partner's side is given up: a task returns it to the channel. *)
Lemma sides_return hold1 hold2 (shp shp' : Status -> Status -> Prop) slot1 slot2 f t h :
  hold1 (f t) = Some h -> (forall s2, shp (hold_status t h) s2 -> s2 = Gone) -> shp' (hold_status t h) Free ->
  sides hold1 hold2 shp slot1 slot2 f -> slot2 = false /\ sides hold1 hold2 shp' slot1 true f.
Proof.
  intros Hh Hgone Hfree (t1 & t2 & H1 & H2 & H3). destruct (tok_held hold1 t1 slot1 f t h Hh H1) as [-> _].
  unfold status in H3 at 1. rewrite Hh in H3. specialize (Hgone _ H3).
  assert (t2 = TGone) as ->.
  { destruct t2 as [| x | |]; try done. simpl in Hgone. destruct (hold2 (f x)) as [[] |]; done. }
  destruct H2 as [Hs Ho]. split.
  - destruct slot2; [| done]. by destruct Hs as [Hs _]; specialize (Hs eq_refl).
  - exists (TTask t), TChan. split; [done |]. split.
    + split; [done |]. intros x. rewrite Ho. done.
    + unfold status at 1. by rewrite Hh.
Qed.

(** The state that the exchange cell shows for the holder of a side. *)
Lemma sides_held hold1 hold2 shp slot1 slot2 f t h :
  hold1 (f t) = Some h -> sides hold1 hold2 shp slot1 slot2 f -> exists s2, shp (hold_status t h) s2.
Proof.
  intros Hh (t1 & t2 & H1 & H2 & H3). destruct (tok_held hold1 t1 slot1 f t h Hh H1) as [-> _].
  unfold status in H3 at 1. rewrite Hh in H3. by eexists.
Qed.

(** ** The invariant *)

(** The exchange state fits the two sides. *)
Definition shape (e : ExchangeState T) (sender receiver : Status) : Prop :=
  match e, sender, receiver with
  | Init, (Free | Lost), (Free | Lost) => True
  | Init, Giving, Gone => True
  | Init, Gone, Giving => True
  | WaitingForReceiver g _, Waiting t, (Free | Lost) => g = t
  | WaitingForReceiver _ _, Lost, (Free | Lost) => True
  | WaitingForSender g, (Free | Lost), Waiting t => g = t
  | WaitingForSender _, (Free | Lost), Lost => True
  | ReceiverFinishedFirst, (Waiting _ | Ending _ | Lost), Gone => True
  | SenderFinishedFirst _, Gone, (Waiting _ | Ending _ | Lost) => True
  | _, _, _ => False
  end.

Definition in_flight (e : ExchangeState T) : list T :=
  match e with WaitingForReceiver _ m | SenderFinishedFirst m => [m] | _ => [] end.

Record inv (c : Chan) : Prop := {
  inv_sides : sides s_hold r_hold (shape (exchange c)) (slot_sender c) (slot_receiver c) (pcs c);
  inv_messages : (h_sent c).*2 = (h_received c).*2 ++ in_flight (exchange c);
  inv_no_bug : h_bug c = false;
}.

Lemma inv_new (rs : States) : inv (new_channel rs).
Proof. split; try done. exists TChan, TChan. split_and!; try done; by split. Qed.

(** A step that changes nothing the invariant looks at. *)
Lemma inv_frame (c : Chan) (t : TaskRef) (p : Point) :
  s_hold p = s_hold (pcs c t) -> r_hold p = r_hold (pcs c t) -> inv c -> inv (goto t p c).
Proof. intros Hs Hr [H1 H2 H3]. split; try done. by apply sides_frame. Qed.

Lemma inv_same (c c' : Chan) :
  exchange c' = exchange c -> slot_sender c' = slot_sender c -> slot_receiver c' = slot_receiver c -> pcs c' = pcs c ->
  h_sent c' = h_sent c -> h_received c' = h_received c -> h_bug c' = h_bug c -> inv c -> inv c'.
Proof. intros He Hs Hr Hp H1 H2 H3 [I1 I2 I3]. split; by rewrite ?He, ?Hs, ?Hr, ?Hp, ?H1, ?H2, ?H3. Qed.

(** A step of the task that has the sender's side, or takes it. *)
Lemma inv_sender (c c' : Chan) (t : TaskRef) (p : Point) (s : Status) (tok' : Token) :
  r_hold (pcs c t) = None -> r_hold p = None -> moves s_hold t p tok' (slot_sender c') ->
  match s_hold (pcs c t) with Some h => s = hold_status t h | None => slot_sender c = true /\ s = Free end ->
  (forall s2, shape (exchange c) s s2 -> shape (exchange c') (status s_hold tok' (task_upd (pcs c) t p)) s2) ->
  slot_receiver c' = slot_receiver c -> pcs c' = task_upd (pcs c) t p -> h_bug c' = h_bug c ->
  ((h_sent c).*2 = (h_received c).*2 ++ in_flight (exchange c) -> (h_sent c').*2 = (h_received c').*2 ++ in_flight (exchange c')) ->
  inv c -> inv c'.
Proof.
  intros Hr Hrp Hm Hs Hsh Hsl Hp Hb Hmsg [I1 I2 I3]. split; [| auto | by rewrite Hb]. rewrite Hsl, Hp.
  by eapply sides_step.
Qed.

Lemma inv_receiver (c c' : Chan) (t : TaskRef) (p : Point) (s : Status) (tok' : Token) :
  s_hold (pcs c t) = None -> s_hold p = None -> moves r_hold t p tok' (slot_receiver c') ->
  match r_hold (pcs c t) with Some h => s = hold_status t h | None => slot_receiver c = true /\ s = Free end ->
  (forall s2, shape (exchange c) s2 s -> shape (exchange c') s2 (status r_hold tok' (task_upd (pcs c) t p))) ->
  slot_sender c' = slot_sender c -> pcs c' = task_upd (pcs c) t p -> h_bug c' = h_bug c ->
  ((h_sent c).*2 = (h_received c).*2 ++ in_flight (exchange c) -> (h_sent c').*2 = (h_received c').*2 ++ in_flight (exchange c')) ->
  inv c -> inv c'.
Proof.
  intros Hr Hrp Hm Hs Hsh Hsl Hp Hb Hmsg [I1 I2 I3]. split; [| auto | by rewrite Hb]. rewrite Hsl, Hp.
  apply sides_swap. apply sides_swap in I1.
  exact (sides_step r_hold s_hold _ _ _ _ _ t p s tok' _ Hr Hrp Hm Hs Hsh I1).
Qed.

(** What the exchange state can be for the holder of a side. *)
Lemma inv_sender_sees (c : Chan) (t : TaskRef) (h : Hold) :
  inv c -> s_hold (pcs c t) = Some h -> exists s2, shape (exchange c) (hold_status t h) s2.
Proof. intros [I1 _ _] Hh. by eapply sides_held. Qed.

Lemma inv_receiver_sees (c : Chan) (t : TaskRef) (h : Hold) :
  inv c -> r_hold (pcs c t) = Some h -> exists s2, shape (exchange c) s2 (hold_status t h).
Proof. intros [I1 _ _] Hh. apply sides_swap in I1. exact (sides_held r_hold s_hold _ _ _ _ t h Hh I1). Qed.

Lemma inv_sender_slot (c : Chan) (t : TaskRef) (h : Hold) : inv c -> s_hold (pcs c t) = Some h -> slot_sender c = false.
Proof. intros [(t1 & t2 & H1 & _) _ _] Hh. by apply (tok_held s_hold t1 _ (pcs c) t h). Qed.

Lemma inv_receiver_slot (c : Chan) (t : TaskRef) (h : Hold) : inv c -> r_hold (pcs c t) = Some h -> slot_receiver c = false.
Proof. intros [(t1 & t2 & _ & H2 & _) _ _] Hh. by apply (tok_held r_hold t2 _ (pcs c) t h). Qed.

(** ** Steps of [send] *)

(** The goal is about the channel of a hypothesis, up to parts the invariant does not see. *)
Ltac same :=
  match goal with
  | H : inv ?c |- inv _ => apply (inv_same c); [reflexivity .. | exact H]
  end.

Ltac shapes E := intros []; simpl; rewrite ?E, ?task_upd_eq; simpl; try done; try (intros ->; done).
Ltac snoc E := simpl; rewrite ?E, ?fmap_app; intros ->; simpl; rewrite ?app_nil_r; try done.

(** The step of the task [t] at [Hp] takes its side to [tok]; [E] is the exchange state. *)
Ltac sender_step t p s tok Hp E :=
  eapply (inv_sender _ _ t p s tok);
    [by rewrite Hp | done | done | by rewrite Hp | shapes E | done | done | done | snoc E | assumption].
Ltac receiver_step t p s tok Hp E :=
  eapply (inv_receiver _ _ t p s tok);
    [by rewrite Hp | done | done | by rewrite Hp | shapes E | done | done | done | snoc E | assumption].

Lemma send_match_inv (c : Chan) (t : TaskRef) (m : T) :
  pcs c t = SMatch m -> inv c -> inv (send_match t m c).
Proof.
  intros Hp Hi. destruct (inv_sender_sees c t HFree Hi) as [s2 Hsh]; [by rewrite Hp |].
  pose proof (inv_sender_slot c t HFree Hi) as Hsl. rewrite Hp in Hsl. specialize (Hsl eq_refl). unfold send_match.
  destruct (exchange c) as [| g m' | g | | m'] eqn:E; cbn [hold_status shape] in Hsh; try done.
  - unfold guard_new. destruct (rs_block t (states c)) as [[[] | e] rs].
    + sender_step t (SWait : Point) Free (TTask t) Hp E.
    + sender_step t (Outside : Point) Free TLost Hp E.
  - sender_step t (SDrop g : Point) Free TGone Hp E.
Qed.

Lemma send_wait_inv (c : Chan) (t : TaskRef) : pcs c t = SWait -> inv c -> inv (send_wait t c).
Proof.
  intros Hp Hi. destruct (inv_sender_sees c t HWait Hi) as [s2 Hsh]; [by rewrite Hp |].
  pose proof (inv_sender_slot c t HWait Hi) as Hsl. rewrite Hp in Hsl. specialize (Hsl eq_refl). unfold send_wait.
  destruct (exchange c) as [| g m' | g | | m'] eqn:E; cbn [hold_status shape] in Hsh; try (by destruct s2).
  - assert (g = t) as -> by (by destruct s2). rewrite decide_True by done. unfold block_again.
    destruct (rs_block t (states c)) as [[[] | e] rs]; [same |].
    sender_step t (Outside : Point) (Waiting t) TLost Hp E.
  - sender_step t (SEnd : Point) (Waiting t) (TTask t) Hp E.
Qed.

Lemma send_end_inv (c : Chan) (t : TaskRef) : pcs c t = SEnd -> inv c -> inv (send_end t c).
Proof.
  intros Hp Hi. destruct (inv_sender_sees c t HEnd Hi) as [s2 Hsh]; [by rewrite Hp |].
  pose proof (inv_sender_slot c t HEnd Hi) as Hsl. rewrite Hp in Hsl. specialize (Hsl eq_refl). unfold send_end.
  destruct (exchange c) as [| g m' | g | | m'] eqn:E; cbn [hold_status shape] in Hsh; try (by destruct s2).
  sender_step t (SGiveReceiver : Point) (Ending t) (TTask t) Hp E.
Qed.

(** ** Steps of [receive] *)

Lemma receive_match_inv (c : Chan) (t : TaskRef) : pcs c t = RMatch -> inv c -> inv (receive_match t c).
Proof.
  intros Hp Hi. destruct (inv_receiver_sees c t HFree Hi) as [s2 Hsh]; [by rewrite Hp |].
  pose proof (inv_receiver_slot c t HFree Hi) as Hsl. rewrite Hp in Hsl. specialize (Hsl eq_refl). unfold receive_match.
  destruct (exchange c) as [| g m' | g | | m'] eqn:E; cbn [hold_status shape] in Hsh; try (by destruct s2).
  - unfold guard_new. destruct (rs_block t (states c)) as [[[] | e] rs].
    + receiver_step t (RWait : Point) Free (TTask t) Hp E.
    + receiver_step t (Outside : Point) Free TLost Hp E.
  - receiver_step t (RDrop g m' : Point) Free TGone Hp E.
Qed.

Lemma receive_wait_inv (c : Chan) (t : TaskRef) : pcs c t = RWait -> inv c -> inv (receive_wait t c).
Proof.
  intros Hp Hi. destruct (inv_receiver_sees c t HWait Hi) as [s2 Hsh]; [by rewrite Hp |].
  pose proof (inv_receiver_slot c t HWait Hi) as Hsl. rewrite Hp in Hsl. specialize (Hsl eq_refl). unfold receive_wait.
  destruct (exchange c) as [| g m' | g | | m'] eqn:E; cbn [hold_status shape] in Hsh; try (by destruct s2).
  - assert (g = t) as -> by (by destruct s2). rewrite decide_True by done. unfold block_again.
    destruct (rs_block t (states c)) as [[[] | e] rs]; [same |].
    receiver_step t (Outside : Point) (Waiting t) TLost Hp E.
  - receiver_step t (REnd : Point) (Waiting t) (TTask t) Hp E.
Qed.

Lemma receive_end_inv (c : Chan) (t : TaskRef) : pcs c t = REnd -> inv c -> inv (receive_end t c).
Proof.
  intros Hp Hi. destruct (inv_receiver_sees c t HEnd Hi) as [s2 Hsh]; [by rewrite Hp |].
  pose proof (inv_receiver_slot c t HEnd Hi) as Hsl. rewrite Hp in Hsl. specialize (Hsl eq_refl). unfold receive_end.
  destruct (exchange c) as [| g m' | g | | m'] eqn:E; cbn [hold_status shape] in Hsh; try (by destruct s2).
  receiver_step t (RGiveSender m' : Point) (Ending t) (TTask t) Hp E.
Qed.

(** ** Returning sides to the channel *)

(** A task that is done returns its own side. *)
Lemma give_sender_inv (c : Chan) (t : TaskRef) r : pcs c t = SGiveSender r -> inv c ->
  inv (goto t (SNotifySenders NCheck r) (replace_sender_slot c)).
Proof.
  intros Hp Hi. pose proof (inv_sender_slot c t HFree Hi) as Hsl. rewrite Hp in Hsl. specialize (Hsl eq_refl).
  unfold replace_sender_slot. rewrite Hsl. destruct (exchange c) eqn:E; sender_step t (SNotifySenders NCheck r : Point) Free TChan Hp E.
Qed.

Lemma give_receiver_inv (c : Chan) (t : TaskRef) r : pcs c t = RGiveReceiver r -> inv c ->
  inv (goto t (RNotifyReceivers NCheck r) (replace_receiver_slot c)).
Proof.
  intros Hp Hi. pose proof (inv_receiver_slot c t HFree Hi) as Hsl. rewrite Hp in Hsl. specialize (Hsl eq_refl).
  unfold replace_receiver_slot. rewrite Hsl. destruct (exchange c) eqn:E; receiver_step t (RNotifyReceivers NCheck r : Point) Free TChan Hp E.
Qed.

(** The one that slept returns its partner's side first: the partner has left. *)
Lemma send_gives_receiver_inv (c : Chan) (t : TaskRef) : pcs c t = SGiveReceiver -> inv c ->
  inv (goto t (SNotifyReceivers NCheck) (replace_receiver_slot c)).
Proof.
  intros Hp Hi. destruct (inv_sender_sees c t HGive Hi) as [s2 Hsh]; [by rewrite Hp |].
  destruct (exchange c) eqn:E; cbn [hold_status shape] in Hsh; try (by destruct s2).
  pose proof Hi as [I1 I2 I3]. rewrite E in I1, I2.
  destruct (sides_return s_hold r_hold (shape Init) (fun a b => a = Giving /\ b = Free) (slot_sender c) (slot_receiver c) (pcs c) t HGive) as [Hsl I1'].
  - by rewrite Hp.
  - by intros [].
  - done.
  - done.
  - unfold replace_receiver_slot. rewrite Hsl. split; [| by rewrite <- E in I2 | done]. cbn [exchange set_slot_receiver goto slot_sender slot_receiver pcs].
    rewrite E. eapply (sides_step s_hold r_hold _ _ _ _ _ t (SNotifyReceivers NCheck : Point) Giving (TTask t)); [by rewrite Hp | done | | by rewrite Hp | | exact I1'].
    + pose proof (inv_sender_slot c t HGive Hi) as Hs. rewrite Hp in Hs. specialize (Hs eq_refl). done.
    + intros s3 [_ ->]. simpl. by rewrite task_upd_eq.
Qed.

Lemma receive_gives_sender_inv (c : Chan) (t : TaskRef) m : pcs c t = RGiveSender m -> inv c ->
  inv (goto t (RNotifySenders NCheck m) (replace_sender_slot c)).
Proof.
  intros Hp Hi. destruct (inv_receiver_sees c t HGive Hi) as [s2 Hsh]; [by rewrite Hp |].
  destruct (exchange c) eqn:E; cbn [hold_status shape] in Hsh; try (by destruct s2).
  pose proof Hi as [I1 I2 I3]. rewrite E in I1, I2. apply sides_swap in I1.
  destruct (sides_return r_hold s_hold (fun a b => shape Init b a) (fun a b => a = Giving /\ b = Free) (slot_receiver c) (slot_sender c) (pcs c) t HGive) as [Hsl I1'].
  - by rewrite Hp.
  - by intros [].
  - done.
  - done.
  - unfold replace_sender_slot. rewrite Hsl. split; [| by rewrite <- E in I2 | done]. cbn [exchange set_slot_sender goto slot_sender slot_receiver pcs].
    rewrite E. apply sides_swap.
    eapply (sides_step r_hold s_hold _ _ _ _ _ t (RNotifySenders NCheck m : Point) Giving (TTask t)); [by rewrite Hp | done | | by rewrite Hp | | exact I1'].
    + pose proof (inv_receiver_slot c t HGive Hi) as Hs. rewrite Hp in Hs. specialize (Hs eq_refl). done.
    + intros s3 [_ ->]. simpl. by rewrite task_upd_eq.
Qed.

(** ** All steps *)

Lemma take_sender_inv (c : Chan) (t : TaskRef) m :
  s_hold (pcs c t) = None -> r_hold (pcs c t) = None -> slot_sender c = true -> inv c ->
  inv (goto t (SMatch m) (set_slot_sender false c)).
Proof.
  intros Hs Hr Hsl Hi. eapply (inv_sender c _ t (SMatch m) Free (TTask t)); try done; rewrite ?Hs; try done.
  intros s2. simpl. by rewrite task_upd_eq.
Qed.

Lemma take_receiver_inv (c : Chan) (t : TaskRef) :
  s_hold (pcs c t) = None -> r_hold (pcs c t) = None -> slot_receiver c = true -> inv c ->
  inv (goto t RMatch (set_slot_receiver false c)).
Proof.
  intros Hs Hr Hsl Hi. eapply (inv_receiver c _ t RMatch Free (TTask t)); try done; rewrite ?Hr; try done.
  intros s2. simpl. by rewrite task_upd_eq.
Qed.

Lemma notify_senders_inv (c c' : Chan) (t : TaskRef) n again k :
  notify_senders_step t n again k c = Some c' ->
  (forall q rs, inv (k (set_states rs (set_senders q c)))) -> (forall n, s_hold (again n) = s_hold (pcs c t) /\ r_hold (again n) = r_hold (pcs c t)) ->
  inv c -> inv c'.
Proof.
  unfold notify_senders_step. destruct (notify_step _ _ _) as [[[q rs] [n' | b]] |]; [| | done]; intros [= <-] Hk Ha Hi; [| apply Hk].
  destruct (Ha n') as [H1 H2]. apply inv_frame; [done | done |]. same.
Qed.

Lemma notify_receivers_inv (c c' : Chan) (t : TaskRef) n again k :
  notify_receivers_step t n again k c = Some c' ->
  (forall q rs, inv (k (set_states rs (set_receivers q c)))) -> (forall n, s_hold (again n) = s_hold (pcs c t) /\ r_hold (again n) = r_hold (pcs c t)) ->
  inv c -> inv c'.
Proof.
  unfold notify_receivers_step. destruct (notify_step _ _ _) as [[[q rs] [n' | b]] |]; [| | done]; intros [= <-] Hk Ha Hi; [| apply Hk].
  destruct (Ha n') as [H1 H2]. apply inv_frame; [done | done |]. same.
Qed.

Ltac frame Hp := apply inv_frame; [by (simpl; rewrite ?Hp) | by (simpl; rewrite ?Hp) | same].

Lemma run_inv (c c' : Chan) (t : TaskRef) : run_pc t c = Some c' -> inv c -> inv c'.
Proof.
  intros Hrun Hi. unfold run_pc, resume in Hrun.
  destruct (pcs c t) eqn:Hp; try discriminate Hrun; try (destruct (decide (states c t = Runnable)); [| discriminate Hrun]);
    try (injection Hrun as <-).
  - unfold try_take_sender. destruct (slot_sender c) eqn:E; [apply take_sender_inv; by rewrite ?Hp | frame Hp].
  - revert Hrun. unfold wait_for_sender_slot. destruct (wq_lock _); [done |]. destruct (slot_sender c) eqn:E.
    + intros [= <-]. apply take_sender_inv; by rewrite ?Hp.
    + destruct (wait_failed _ _ _) as [[q rs] |]; intros [= <-]; frame Hp.
  - frame Hp.
  - frame Hp.
  - by apply send_match_inv.
  - frame Hp.
  - by apply send_wait_inv.
  - by apply send_end_inv.
  - by apply send_gives_receiver_inv.
  - eapply notify_receivers_inv; [exact Hrun | | | done]; [intros q rs; frame Hp | intros n'; by rewrite Hp].
  - by apply give_sender_inv.
  - eapply notify_senders_inv; [exact Hrun | | | done]; [intros q rs; frame Hp | intros n'; by rewrite Hp].
  - unfold try_take_receiver. destruct (slot_receiver c) eqn:E; [apply take_receiver_inv; by rewrite ?Hp | frame Hp].
  - revert Hrun. unfold wait_for_receiver_slot. destruct (wq_lock _); [done |]. destruct (slot_receiver c) eqn:E.
    + intros [= <-]. apply take_receiver_inv; by rewrite ?Hp.
    + destruct (wait_failed _ _ _) as [[q rs] |]; intros [= <-]; frame Hp.
  - frame Hp.
  - frame Hp.
  - by apply receive_match_inv.
  - frame Hp.
  - by apply receive_wait_inv.
  - by apply receive_end_inv.
  - by apply receive_gives_sender_inv.
  - eapply notify_senders_inv; [exact Hrun | | | done]; [intros q rs; frame Hp | intros n'; by rewrite Hp].
  - by apply give_receiver_inv.
  - eapply notify_receivers_inv; [exact Hrun | | | done]; [intros q rs; frame Hp | intros n'; by rewrite Hp].
Qed.

Lemma rendezvous_inv (rs : States) (c : Chan) : reachable rs c -> inv c.
Proof.
  induction 1 as [| c a c' _ IH Hact]; [apply inv_new |].
  destruct a as [t m | t | t | t reason | t]; cbn [act] in Hact.
  - destruct (pcs c t) eqn:Hp; try discriminate Hact. injection Hact as <-. frame Hp.
  - destruct (pcs c t) eqn:Hp; try discriminate Hact. injection Hact as <-. frame Hp.
  - by eapply run_inv.
  - injection Hact as <-. same.
  - injection Hact as <-. same.
Qed.

(** ** What the calls return *)

(** The message a result carries, and whether it is a successful send. *)
Definition got (r : Ret T) : option T := match r with ReceiveOk m => Some m | _ => None end.
Definition sent_ok (r : Ret T) : option unit := match r with SendOk => Some tt | _ => None end.

(** The message a call is about to return. *)
Definition pc_message (p : Point) : list T :=
  match p with
  | RDrop _ m | RGiveSender m | RNotifySenders _ m | RGiveReceiver (ReceiveOk m) | RNotifyReceivers _ (ReceiveOk m) => [m]
  | _ => []
  end.

(** A send whose message is in the exchange or was taken. *)
Definition pc_sent (p : Point) : list unit :=
  match p with
  | SDrop _ | SWait | SEnd | SGiveReceiver | SNotifyReceivers _ | SGiveSender SendOk | SNotifySenders _ SendOk => [tt]
  | _ => []
  end.

(** Calls of [send] do not return messages, calls of [receive] do not report a send. *)
Definition pc_typed (p : Point) : Prop :=
  match p with
  | SGiveSender (ReceiveOk _) | SNotifySenders _ (ReceiveOk _) | RGiveReceiver SendOk | RNotifyReceivers _ SendOk => False
  | _ => True
  end.

Definition calls_ok (c : Chan) (t : TaskRef) : Prop :=
  account got sent_ok (h_sent c) (h_received c) (h_returned c) t (pc_message (pcs c t)) (pc_sent (pcs c t)) /\ pc_typed (pcs c t).

(** A step of [t]: it adds [s], [r] and [o] to the histories, and what it took or sent before
    returning is accounted for by its program point. *)
Record step_log (c c' : Chan) (t : TaskRef) (s r : list T) (o : list (Ret T)) : Prop := {
  sl_sent : h_sent c' = h_sent c ++ mine t s;
  sl_received : h_received c' = h_received c ++ mine t r;
  sl_returned : h_returned c' = h_returned c ++ mine t o;
  sl_pcs : forall x, x <> t -> pcs c' x = pcs c x;
  sl_typed : pc_typed (pcs c t) -> pc_typed (pcs c' t);
  sl_messages : pc_typed (pcs c t) -> pc_message (pcs c t) ++ r = omap got o ++ pc_message (pcs c' t);
  sl_sends : pc_typed (pcs c t) ->
    (length (omap sent_ok o) + length (pc_sent (pcs c' t)) <= length (pc_sent (pcs c t)) + length s)%nat;
}.

Lemma calls_ok_step (c c' : Chan) (t : TaskRef) s r o :
  step_log c c' t s r o -> (forall x, calls_ok c x) -> forall x, calls_ok c' x.
Proof.
  intros [Hs Hr Ho Hp Hty Hrec Hsend] Hc x. unfold calls_ok. rewrite Hs, Hr, Ho. destruct (decide (x = t)) as [-> | Hne].
  - destruct (Hc t) as [Ha Ht]. split; [| auto]. by eapply account_own; [apply Hrec | apply Hsend |].
  - rewrite (Hp x Hne). destruct (Hc x) as [Ha Ht]. split; [by apply account_other | done].
Qed.

(** A step that is logged with the given new entries. *)
Ltac logged Hp s r o :=
  solve [exists s, r, o; split; simpl; rewrite ?task_upd_eq, ?Hp, ?app_nil_r; simpl;
    try done; try lia; try (intros x Hx; by rewrite ?task_upd_ne)].

Ltac quiet Hp := logged Hp (@nil T) (@nil T) (@nil (Ret T)).

Lemma run_logged (c c' : Chan) (t : TaskRef) :
  run_pc t c = Some c' -> exists s r o, step_log c c' t s r o.
Proof.
  intros Hrun. unfold run_pc, resume in Hrun.
  destruct (pcs c t) eqn:Hp; try discriminate Hrun; try (destruct (decide (states c t = Runnable)); [| discriminate Hrun]);
    try (injection Hrun as <-).
  - unfold try_take_sender. destruct (slot_sender c); quiet Hp.
  - revert Hrun. unfold wait_for_sender_slot. destruct (wq_lock _); [done |]. destruct (slot_sender c).
    + intros [= <-]. quiet Hp.
    + destruct (wait_failed _ _ _) as [[q rs] |]; intros [= <-]; quiet Hp.
  - quiet Hp.
  - quiet Hp.
  - unfold send_match. destruct (exchange c); try (quiet Hp).
    + destruct (guard_new t (states c)) as [[g | e] rs]; [logged Hp [msg] (@nil T) (@nil (Ret T)) |].
      logged Hp (@nil T) (@nil T) [CallErr (T := T) "failed to create wait guard"].
    + logged Hp [msg] (@nil T) (@nil (Ret T)).
  - logged Hp (@nil T) (@nil T) [SendOk (T := T)].
  - unfold send_wait. destruct (exchange c); try (quiet Hp).
    destruct (decide (t = sender)).
    + destruct (block_again sender (states c)) as [[g | e'] rs]; [quiet Hp |].
      logged Hp (@nil T) (@nil T) [CallErr (T := T) "failed to block sender"].
    + logged Hp (@nil T) (@nil T) [CallErr (T := T) "BUG: CURR TASK WAS DIFFERENT THAN BLOCKED SENDER"].
  - unfold send_end. destruct (exchange c); quiet Hp.
  - unfold replace_receiver_slot. destruct (slot_receiver c); quiet Hp.
  - revert Hrun. unfold notify_receivers_step. destruct (notify_step _ _ _) as [[[q rs] [n' | b]] |]; [| | done]; intros [= <-];
      quiet Hp.
  - unfold replace_sender_slot. destruct (slot_sender c), retval; quiet Hp.
  - revert Hrun. unfold notify_senders_step. destruct (notify_step _ _ _) as [[[q rs] [n' | b]] |]; [| | done]; intros [= <-].
    + destruct retval; quiet Hp.
    + destruct retval; [logged Hp (@nil T) (@nil T) [SendOk (T := T)] | logged Hp (@nil T) (@nil T) [ReceiveOk msg] | logged Hp (@nil T) (@nil T) [CallErr (T := T) e]].
  - unfold try_take_receiver. destruct (slot_receiver c); quiet Hp.
  - revert Hrun. unfold wait_for_receiver_slot. destruct (wq_lock _); [done |]. destruct (slot_receiver c).
    + intros [= <-]. quiet Hp.
    + destruct (wait_failed _ _ _) as [[q rs] |]; intros [= <-]; quiet Hp.
  - quiet Hp.
  - quiet Hp.
  - unfold receive_match. destruct (exchange c); try (quiet Hp).
    + destruct (guard_new t (states c)) as [[g | e] rs]; [quiet Hp |].
      logged Hp (@nil T) (@nil T) [CallErr (T := T) "failed to create wait guard"].
    + logged Hp (@nil T) [msg] (@nil (Ret T)).
  - logged Hp (@nil T) (@nil T) [ReceiveOk msg].
  - unfold receive_wait. destruct (exchange c); try (quiet Hp).
    destruct (decide (t = receiver)).
    + destruct (block_again receiver (states c)) as [[g | e'] rs]; [quiet Hp |].
      logged Hp (@nil T) (@nil T) [CallErr (T := T) "failed to block receiver"].
    + logged Hp (@nil T) (@nil T) [CallErr (T := T) "BUG: CURR TASK WAS DIFFERENT THAN BLOCKED RECEIVER"].
  - unfold receive_end. destruct (exchange c); try (quiet Hp). logged Hp (@nil T) [msg] (@nil (Ret T)).
  - unfold replace_sender_slot. destruct (slot_sender c); quiet Hp.
  - revert Hrun. unfold notify_senders_step. destruct (notify_step _ _ _) as [[[q rs] [n' | b]] |]; [| | done]; intros [= <-];
      quiet Hp.
  - unfold replace_receiver_slot. destruct (slot_receiver c), retval; quiet Hp.
  - revert Hrun. unfold notify_receivers_step. destruct (notify_step _ _ _) as [[[q rs] [n' | b]] |]; [| | done]; intros [= <-].
    + destruct retval; quiet Hp.
    + destruct retval; [logged Hp (@nil T) (@nil T) [SendOk (T := T)] | logged Hp (@nil T) (@nil T) [ReceiveOk msg] | logged Hp (@nil T) (@nil T) [CallErr (T := T) e]].
Qed.

Lemma reachable_calls (rs : States) (c : Chan) : reachable rs c -> forall t, calls_ok c t.
Proof.
  induction 1 as [| c a c' _ IH Hact]; [by intros t |].
  assert (exists t s r o, step_log c c' t s r o) as (t & s & r & o & Hl); [| by eapply calls_ok_step].
  destruct a as [t m | t | t | t reason | t]; cbn [act] in Hact; exists t.
  - destruct (pcs c t) eqn:Hp; try discriminate Hact. injection Hact as <-. quiet Hp.
  - destruct (pcs c t) eqn:Hp; try discriminate Hact. injection Hact as <-. quiet Hp.
  - by apply run_logged.
  - injection Hact as <-. destruct (pcs c t) eqn:Hp; quiet Hp.
  - injection Hact as <-. destruct (pcs c t) eqn:Hp; quiet Hp.
Qed.

(** ** The partner is woken *)

Lemma unblock_not_blocked (t x : TaskRef) (rs : States) : snd (rs_unblock t rs) x = Blocked -> rs x = Blocked /\ x <> t.
Proof.
  rewrite rs_unblock_cases. destruct (can_wake rs t) eqn:E; cbn [snd].
  - destruct (decide (x = t)) as [-> | Hne]; [by rewrite task_upd_eq | by rewrite task_upd_ne].
  - intros H. split; [done |]. intros ->. unfold can_wake in E. by rewrite H in E.
Qed.

Lemma notify_not_blocked n q rs q' rs' r x : notify_step n q rs = Some (q', rs', r) -> rs' x = Blocked -> rs x = Blocked.
Proof.
  unfold notify_step. destruct n as [| | t]; [by intros [= <- <- <-] | |].
  - destruct (wq_lock q); [done |]. by destruct (wq_tasks q); intros [= <- <- <-].
  - pose proof (unblock_not_blocked t x rs) as H. destruct (rs_unblock t rs) as [[] rs1]; intros [= <- <- <-] Hb; by apply H.
Qed.

Lemma block_only_self (t x : TaskRef) (rs : States) : snd (rs_block t rs) x = Blocked -> rs x = Blocked \/ x = t.
Proof.
  unfold rs_block. destruct (rs t); cbn [snd]; try (intros H; by left);
    (destruct (decide (x = t)) as [-> | Hne]; [by right | rewrite task_upd_ne by done; by left]).
Qed.

Lemma kill_not_blocked (t x : TaskRef) reason (rs : States) : rs_kill t reason rs x = Blocked -> rs x = Blocked.
Proof.
  unfold rs_kill. destruct (rs t); try done; (destruct (decide (x = t)) as [-> | Hne]; [by rewrite task_upd_eq | by rewrite task_upd_ne]).
Qed.

(** A step of [t] seen from the sleeping partners. *)
Record wake_facts (c c' : Chan) (t : TaskRef) : Prop := {
  wf_pcs : forall x, x <> t -> pcs c' x = pcs c x;
  wf_blocked : forall x, states c' x = Blocked -> states c x = Blocked \/ x = t;
  wf_receiver : exchange c' = ReceiverFinishedFirst ->
    exchange c = ReceiverFinishedFirst \/ exists s m, exchange c = WaitingForReceiver s m /\ pcs c' t = RDrop s m;
  wf_sender : forall m, exchange c' = SenderFinishedFirst m ->
    exchange c = SenderFinishedFirst m \/ exists r, exchange c = WaitingForSender r /\ pcs c' t = SDrop r;
  wf_wakes_sender : forall s m, pcs c t = RDrop s m -> states c' s <> Blocked;
  wf_wakes_receiver : forall r, pcs c t = SDrop r -> states c' r <> Blocked;
  wf_send_sleeps : pcs c' t = SWait -> exchange c' <> ReceiverFinishedFirst;
  wf_receive_sleeps : pcs c' t = RWait -> forall m, exchange c' <> SenderFinishedFirst m;
}.

(** No partner that was served sleeps without a task that is about to wake it. *)
Definition served (c : Chan) : Prop :=
  (forall s, exchange c = ReceiverFinishedFirst -> pcs c s = SWait -> states c s = Blocked -> exists r m, pcs c r = RDrop s m) /\
  (forall r m, exchange c = SenderFinishedFirst m -> pcs c r = RWait -> states c r = Blocked -> exists s, pcs c s = SDrop r).

Lemma served_step (c c' : Chan) (t : TaskRef) : inv c -> wake_facts c c' t -> served c -> served c'.
Proof.
  intros Hi [Hpcs Hbl Hrec Hsend Hws Hwr Hss Hrs] [H1 H2]. split.
  - intros s He Hp Hb. assert (s <> t) as Hne by (intros ->; by apply Hss). rewrite Hpcs in Hp by done.
    assert (states c s = Blocked) as Hb' by (by destruct (Hbl s Hb)).
    destruct (Hrec He) as [He' | (s0 & m & He' & Hd)].
    + destruct (H1 s He' Hp Hb') as (r & m & Hr). exists r, m. rewrite Hpcs; [done |]. intros ->. by apply (Hws s m).
    + exists t, m. rewrite Hd. f_equal. destruct (inv_sender_sees c s HWait Hi) as [s2 Hsh]; [by rewrite Hp |].
      rewrite He' in Hsh. by destruct s2.
  - intros r m He Hp Hb. assert (r <> t) as Hne by (intros ->; by apply (Hrs Hp m)). rewrite Hpcs in Hp by done.
    assert (states c r = Blocked) as Hb' by (by destruct (Hbl r Hb)).
    destruct (Hsend m He) as [He' | (r0 & He' & Hd)].
    + destruct (H2 r m He' Hp Hb') as (s & Hs). exists s. rewrite Hpcs; [done |]. intros ->. by apply (Hwr r).
    + exists t. rewrite Hd. f_equal. destruct (inv_receiver_sees c r HWait Hi) as [s2 Hsh]; [by rewrite Hp |].
      rewrite He' in Hsh. by destruct s2.
Qed.

Ltac facts Hp :=
  split; simpl; rewrite ?task_upd_eq, ?Hp; try congruence; try (intros; congruence); try (intros x Hx; by rewrite ?task_upd_ne);
    try (intros x Hx; left; by eapply notify_not_blocked); try (intros; by left); try (intros; left; congruence); eauto.

Lemma wait_failed_facts (t : TaskRef) q rs q' rs' : wait_failed t q rs = Some (q', rs') -> rs' = snd (rs_block t rs).
Proof. unfold wait_failed. by destruct (rs_block t rs) as [[] rs1]; intros [= _ <-]. Qed.

Lemma run_wakes (c c' : Chan) (t : TaskRef) : run_pc t c = Some c' -> wake_facts c c' t.
Proof.
  intros Hrun. unfold run_pc, resume in Hrun.
  destruct (pcs c t) eqn:Hp; try discriminate Hrun; try (destruct (decide (states c t = Runnable)); [| discriminate Hrun]);
    try (injection Hrun as <-).
  - unfold try_take_sender. destruct (slot_sender c); facts Hp.
  - revert Hrun. unfold wait_for_sender_slot. destruct (wq_lock _); [done |]. destruct (slot_sender c).
    + intros [= <-]. facts Hp.
    + destruct (wait_failed _ _ _) as [[q rs] |] eqn:E; intros [= <-]; [apply wait_failed_facts in E as -> |]; facts Hp.
      intros x. apply block_only_self.
  - facts Hp.
  - facts Hp.
  - unfold send_match. destruct (exchange c) eqn:E; try (solve [facts Hp]).
    unfold guard_new. pose proof (block_only_self t) as Hb. destruct (rs_block t (states c)) as [[[] | e] rs] eqn:Er; facts Hp;
      intros x Hx; apply (Hb x (states c)); by rewrite Er.
  - facts Hp.
    + intros x Hx. left. by apply unblock_not_blocked in Hx as [].
    + intros r [= ->] Hx. by apply unblock_not_blocked in Hx as [].
  - unfold send_wait. destruct (exchange c) eqn:E; try (solve [facts Hp]). destruct (decide (t = sender)) as [<- |]; [| solve [facts Hp]].
    unfold block_again. pose proof (block_only_self t) as Hb. destruct (rs_block t (states c)) as [[[] | e'] rs] eqn:Er; facts Hp;
      intros x Hx; apply (Hb x (states c)); by rewrite Er.
  - unfold send_end. destruct (exchange c) eqn:E; facts Hp.
  - unfold replace_receiver_slot. destruct (slot_receiver c); facts Hp.
  - revert Hrun. unfold notify_receivers_step. destruct (notify_step _ _ _) as [[[q rs] [n' | b]] |] eqn:En; [| | done]; intros [= <-]; facts Hp.
  - unfold replace_sender_slot. destruct (slot_sender c); facts Hp.
  - revert Hrun. unfold notify_senders_step. destruct (notify_step _ _ _) as [[[q rs] [n' | b]] |] eqn:En; [| | done]; intros [= <-]; facts Hp.
  - unfold try_take_receiver. destruct (slot_receiver c); facts Hp.
  - revert Hrun. unfold wait_for_receiver_slot. destruct (wq_lock _); [done |]. destruct (slot_receiver c).
    + intros [= <-]. facts Hp.
    + destruct (wait_failed _ _ _) as [[q rs] |] eqn:E; intros [= <-]; [apply wait_failed_facts in E as -> |]; facts Hp.
      intros x. apply block_only_self.
  - facts Hp.
  - facts Hp.
  - unfold receive_match. destruct (exchange c) eqn:E; try (solve [facts Hp]).
    unfold guard_new. pose proof (block_only_self t) as Hb. destruct (rs_block t (states c)) as [[[] | e] rs] eqn:Er; facts Hp;
      intros x Hx; apply (Hb x (states c)); by rewrite Er.
  - facts Hp.
    + intros x Hx. left. by apply unblock_not_blocked in Hx as [].
    + intros s m [= -> ->] Hx. by apply unblock_not_blocked in Hx as [].
  - unfold receive_wait. destruct (exchange c) eqn:E; try (solve [facts Hp]). destruct (decide (t = receiver)) as [<- |]; [| solve [facts Hp]].
    unfold block_again. pose proof (block_only_self t) as Hb. destruct (rs_block t (states c)) as [[[] | e'] rs] eqn:Er; facts Hp;
      intros x Hx; apply (Hb x (states c)); by rewrite Er.
  - unfold receive_end. destruct (exchange c) eqn:E; facts Hp.
  - unfold replace_sender_slot. destruct (slot_sender c); facts Hp.
  - revert Hrun. unfold notify_senders_step. destruct (notify_step _ _ _) as [[[q rs] [n' | b]] |] eqn:En; [| | done]; intros [= <-]; facts Hp.
  - unfold replace_receiver_slot. destruct (slot_receiver c); facts Hp.
  - revert Hrun. unfold notify_receivers_step. destruct (notify_step _ _ _) as [[[q rs] [n' | b]] |] eqn:En; [| | done]; intros [= <-]; facts Hp.
Qed.

(** The actions of the environment change run states only. *)
Lemma served_env (c : Chan) (rs : States) : (forall x, rs x = Blocked -> states c x = Blocked) -> served c -> served (set_states rs c).
Proof. intros Hb [H1 H2]. split; simpl; [intros s He Hp Hs; by apply H1; auto | intros r m He Hp Hs; by apply (H2 r m); auto]. Qed.

Lemma start_facts (c : Chan) (t : TaskRef) (p : Point) : pcs c t = Outside -> p <> SWait -> p <> RWait -> wake_facts c (goto t p c) t.
Proof. intros Hp H1 H2. facts Hp. Qed.

Lemma reachable_served (rs : States) (c : Chan) : reachable rs c -> served c.
Proof.
  induction 1 as [| c a c' Hr IH Hact]; [by split |]. pose proof (rendezvous_inv rs c Hr) as Hi.
  destruct a as [t m | t | t | t reason | t]; cbn [act] in Hact.
  - destruct (pcs c t) eqn:Hp; try discriminate Hact. injection Hact as <-. eapply served_step; [done | by apply start_facts | done].
  - destruct (pcs c t) eqn:Hp; try discriminate Hact. injection Hact as <-. eapply served_step; [done | by apply start_facts | done].
  - eapply served_step; [done | by apply run_wakes | done].
  - injection Hact as <-. apply served_env; [| done]. intros x. apply kill_not_blocked.
  - injection Hact as <-. apply served_env; [| done]. intros x Hx. by apply unblock_not_blocked in Hx as [].
Qed.

(** Tasks that do not act stay where they are. *)
Definition actor (a : Action T) : option TaskRef :=
  match a with StartSend t _ | StartReceive t | Run t => Some t | _ => None end.

Lemma act_others (a : Action T) (c c' : Chan) (x : TaskRef) : act a c = Some c' -> actor a <> Some x -> pcs c' x = pcs c x.
Proof.
  intros Hact Hx. destruct a as [t m | t | t | t reason | t]; cbn [act actor] in *; try (by injection Hact as <-).
  - destruct (pcs c t); try discriminate Hact. injection Hact as <-. simpl. rewrite task_upd_ne; [done | congruence].
  - destruct (pcs c t); try discriminate Hact. injection Hact as <-. simpl. rewrite task_upd_ne; [done | congruence].
  - apply run_wakes in Hact as [H _ _ _ _ _ _ _]. apply H. congruence.
Qed.

Lemma run_actions_others (l : list (Action T)) (c c' : Chan) (x : TaskRef) :
  run_actions l c = Some c' -> Forall (fun a => actor a <> Some x) l -> pcs c' x = pcs c x.
Proof.
  revert c. induction l as [| a l IH]; intros c; cbn [run_actions]; [by intros [= ->] |].
  destruct (act a c) as [c1 |] eqn:E; [| done]. intros Hrun Hall. apply Forall_cons in Hall as [Ha Hall].
  rewrite (IH c1) by done. by eapply act_others.
Qed.

(** ** Theorems *)

(** C26: The rendezvous channel delivers every message once and in order.  Whatever the number
    of tasks and however their steps interleave, with tasks killed and woken at any moment:
    the messages put into the exchange are those taken out of it, in the same order, followed
    by at most the one in the exchange; what a task took is what its calls of [receive]
    returned, in order, and the message of a call that is about to return; and every send
    that reported success put a message of its own into the exchange. *)
Theorem rendezvous_delivers_once_in_order (rs : States) (c : Chan) :
  reachable rs c ->
  (h_sent c).*2 = (h_received c).*2 ++ in_flight (exchange c) /\
  forall t, entries t (h_received c) = returned got t (h_returned c) ++ pc_message (pcs c t) /\
    (length (sends sent_ok t (h_returned c)) + length (pc_sent (pcs c t)) <= length (entries t (h_sent c)))%nat.
Proof.
  intros Hr. split; [apply (inv_messages c (rendezvous_inv rs c Hr)) |]. intros t.
  by destruct (reachable_calls rs c Hr t) as [[H1 H2] _].
Qed.

(** C27: The branches of [send] and [receive] that report a bug are unreachable, and a side of
    the exchange slot is with at most one task: in every reachable state two tasks past
    [take_sender_slot] are the same task and the side is not in the channel; likewise for
    receivers. *)
Theorem rendezvous_slots_exclusive (rs : States) (c : Chan) (t1 t2 : TaskRef) :
  reachable rs c ->
  h_bug c = false /\
  (s_hold (pcs c t1) <> None -> slot_sender c = false /\ (s_hold (pcs c t2) <> None -> t1 = t2)) /\
  (r_hold (pcs c t1) <> None -> slot_receiver c = false /\ (r_hold (pcs c t2) <> None -> t1 = t2)).
Proof.
  intros Hr. destruct (rendezvous_inv rs c Hr) as [(k1 & k2 & [Hs1 Hs2] & [Hr1 Hr2] & _) _ Hb]. split_and!; [done | |].
  - intros H1. apply Hs2 in H1. split; [destruct (slot_sender c); [by rewrite (proj1 Hs1 eq_refl) in H1 | done] |].
    intros H2. apply Hs2 in H2. congruence.
  - intros H1. apply Hr2 in H1. split; [destruct (slot_receiver c); [by rewrite (proj1 Hr1 eq_refl) in H1 | done] |].
    intros H2. apply Hr2 in H2. congruence.
Qed.

(** C28: A rendezvous does not leave its partner asleep: when a receiver has taken the message
    of a sleeping sender, or a sender has left its message for a sleeping receiver, the
    sleeper is no longer blocked or the partner's call is about to unblock it. *)
Theorem rendezvous_partner_is_woken (rs : States) (c : Chan) :
  reachable rs c ->
  (forall s, exchange c = ReceiverFinishedFirst -> pcs c s = SWait -> states c s = Blocked -> exists r m, pcs c r = RDrop s m) /\
  (forall r m, exchange c = SenderFinishedFirst m -> pcs c r = RWait -> states c r = Blocked -> exists s, pcs c s = SDrop r).
Proof. intros Hr. by destruct (reachable_served rs c Hr). Qed.

End Props.

Module RendezvousDemo.

Definition all_runnable : States := fun _ => Runnable.

(** Task 2 receives first and sleeps, task 1 sends 10 and is in its second send, of 11,
    waiting for the sender's side; task 2 has returned 10. *)
Definition acts : list (Action Z) :=
  [StartReceive 2; Run 2; Run 2; StartSend 1 10; Run 1; Run 1; Run 1; StartSend 1 11; Run 1; Wake 2;
   Run 2; Run 2; Run 2; Run 2; Run 2; Run 2; Run 1].

Definition after (l : list (Action Z)) : Channel Z :=
  default (new_channel all_runnable) (run_actions l (new_channel all_runnable)).

Lemma after_runs : run_actions acts (new_channel all_runnable) = Some (after acts).
Proof. unfold after. by vm_compute. Qed.

Lemma after_reachable : reachable all_runnable (after acts).
Proof. eapply run_actions_reachable; [apply reach_new | apply after_runs]. Qed.

Lemma rendezvous_delivers_once_in_order_witness :
  (h_sent (after acts)).*2 = [10] ++ in_flight (exchange (after acts)) /\ returned got 2 (h_returned (after acts)) = [10].
Proof.
  destruct (rendezvous_delivers_once_in_order all_runnable (after acts) after_reachable) as [H1 H2]. split; [exact H1 |].
  destruct (H2 2) as [H3 _]. by vm_compute.
Defined.

Lemma rendezvous_slots_exclusive_witness :
  s_hold (pcs (after acts) 1) = Some HFree /\ slot_sender (after acts) = false.
Proof.
  split; [by vm_compute |].
  apply (rendezvous_slots_exclusive all_runnable (after acts) 1 1 after_reachable). by vm_compute.
Defined.

(** The sender has left its message for the sleeping receiver and is about to wake it. *)
Definition acts_asleep : list (Action Z) := [StartReceive 2; Run 2; Run 2; StartSend 1 10; Run 1; Run 1].

Lemma asleep_reachable : reachable all_runnable (after acts_asleep).
Proof. eapply (run_actions_reachable all_runnable acts_asleep); [apply reach_new | by vm_compute]. Qed.

Lemma rendezvous_partner_is_woken_witness :
  states (after acts_asleep) 2 = Blocked /\ exists s, pcs (after acts_asleep) s = SDrop 2.
Proof.
  split; [by vm_compute |].
  apply (proj2 (rendezvous_partner_is_woken all_runnable (after acts_asleep) asleep_reachable) 2 10); by vm_compute.
Defined.

(** A task killed after it took the sender's side fails to block: [send] returns with the side,
    which no task has and nobody returns, and the next sender waits for it for ever. *)
Definition killed : list (Action Z) :=
  [StartSend 1 10; Run 1; Kill 1 KRequested; Run 1; StartSend 3 11; Run 3; Run 3; Run 3].

Example killed_sender_loses_slot :
  let c := after killed in
  run_actions killed (new_channel all_runnable) = Some c /\
  h_returned c = [(1, CallErr "failed to create wait guard")] /\ slot_sender c = false /\ exchange c = Init /\
  pcs c 1 = Outside /\ pcs c 3 = SSleep 11 /\ states c 3 = Blocked.
Proof. split_and!; by vm_compute. Qed.

(** ** A wake-up that is lost *)

(** One sender and one receiver.  The receiver arrives first; the sender hands over 10,
    returns, and calls [send] again while the receiver still has the sender's side.  The
    sender fails the test of [wait_until] and holds the lock of the queue; the receiver
    returns the side, sees a queue of length 0 and wakes nobody; only then does the sender
    append itself and sleep.  The receiver's next call sleeps as well: the side the sender
    waits for is free, and neither task can take a step. *)
Definition lost : list (Action Z) :=
  [StartReceive 2; Run 2; Run 2; StartSend 1 10; Run 1; Run 1; Run 1;
   Run 2; Run 2; StartSend 1 11; Run 1; Run 1;
   Run 2; Run 2; Run 2; Run 2; Run 1; StartReceive 2; Run 2; Run 2].

Lemma rendezvous_deadlock :
  let c := after lost in
  run_actions lost (new_channel all_runnable) = Some c /\
  h_returned c = [(1, SendOk); (2, ReceiveOk 10)] /\ slot_sender c = true /\ exchange c = WaitingForSender 2 /\
  (exists m, pcs c 1 = SSleep m) /\ pcs c 2 = RWait /\ forall t, run_pc t c = None.
Proof.
  intros c. assert (run_actions lost (new_channel all_runnable) = Some c) as Hrun by (unfold c, after; by vm_compute).
  split_and!; [done | by vm_compute | by vm_compute | by vm_compute | exists 11; by vm_compute | by vm_compute |].
  intros t. destruct (decide (t = 1)) as [-> |]; [by vm_compute |]. destruct (decide (t = 2)) as [-> |]; [by vm_compute |].
  assert (pcs c t = Outside) as Hp.
  { rewrite (run_actions_others lost _ c t Hrun); [done |]. repeat constructor; simpl; congruence. }
  unfold run_pc. by rewrite Hp.
Qed.

End RendezvousDemo.
