(* ===== verification/SyncChannel.v ===== *)
(** * The buffered channel

    [kernel/sync_channel/src/lib.rs]: senders and receivers exchange messages through a
    bounded queue; a sender waits on a wait queue while the buffer is full, a receiver while
    it is empty.  The buffer is the third-party crate [mpmc]: it enters as the class
    [BoundedQueue] with the documented laws [BoundedQueueLaws] (a linearizable bounded
    first-in first-out queue).

    Any number of tasks hold endpoints; the state of a call is a program point and one step
    is one access to the buffer, to an atomic cell, or what happens under the lock of a wait
    queue (see [WaitQueues]).  As in [Rendezvous], histories record what was pushed and
    popped by whom, and what the calls returned.

    [kernel/simple_ipc/src/lib.rs]: a channel of one byte in an atomic 16-bit cell. *)

From stdpp Require Import gmap.
From S2P Require Import Prelude SchedTask EpochSched PrioritySched SchedulerApi SchedulerProps TaskState TaskProps WaitQueues.

(** ** The buffer *)

Class BoundedQueue (T Q : Type) := {
  bq_with_capacity : Z -> Q;
  bq_push : T -> Q -> result unit T * Q;
  bq_pop : Q -> option T * Q;
  bq_items : Q -> list T;
  bq_capacity : Q -> nat;
}.

(** The capacity asked for, rounded up to a power of two, and at least two. *)
Definition mpmc_capacity (minimum_capacity : Z) : nat := Z.to_nat (Z.max 2 (2 ^ Z.log2_up minimum_capacity)).

Class BoundedQueueLaws (T Q : Type) {bq : BoundedQueue T Q} := {
  bq_new_items n : bq_items (bq_with_capacity n) = [];
  bq_new_capacity n : bq_capacity (bq_with_capacity n) = mpmc_capacity n;
  bq_push_spec m q :
    if decide (length (bq_items q) < bq_capacity q)%nat
    then fst (bq_push m q) = Ok tt /\ bq_items (snd (bq_push m q)) = bq_items q ++ [m]
    else fst (bq_push m q) = Err m /\ bq_items (snd (bq_push m q)) = bq_items q;
  bq_push_capacity m q : bq_capacity (snd (bq_push m q)) = bq_capacity q;
  bq_pop_spec q :
    fst (bq_pop q) = head (bq_items q) /\ bq_items (snd (bq_pop q)) = tail (bq_items q);
  bq_pop_capacity q : bq_capacity (snd (bq_pop q)) = bq_capacity q;
}.

Inductive ChannelStatus := Connected | SenderDisconnected | ReceiverDisconnected.
#[export] Instance ChannelStatus_eq_dec : EqDecision ChannelStatus.
Proof. solve_decision. Defined.

Inductive Error := WouldBlock | ChannelDisconnected.
#[export] Instance Error_eq_dec : EqDecision Error.
Proof. solve_decision. Defined.

Section Channel.
Context {T Q : Type} {bq : BoundedQueue T Q}.

(** ** Program points *)

(** What a call returned: [send] and [try_send], [receive] and [try_receive], and the
    operations on endpoints. *)
Inductive SRet := Sent | SendErr (m : T) (e : Error) | Got (m : T) | ReceiveErr (e : Error) | EndpointDone.

(** Whether the fast path was called by a blocking operation. *)
Inductive Mode := Blocking | Try.

Inductive SPc :=
| NotCalling
| Paniced
(* [try_send], also the fast path of [send] *)
| TsStatus (m : T) (k : Mode)
| TsConnect (m : T) (k : Mode)
| TsPush (m : T) (k : Mode)
| TsNotify (n : Notify)
(* the slow path of [send] *)
| SwTest (m : T)
| SwStatus (m : T) (pushed : bool)
| SwPush (m : T)
| SwSleep (m : T)
(* [try_receive], also the fast path of [receive] *)
| TrPop (k : Mode)
| TrNotify (n : Notify) (m : T)
| TrStatus (k : Mode)
| TrConnect (k : Mode)
(* the slow path of [receive] *)
| RwTest
| RwStatus
| RwPush
| RwSleep
(* dropping and adding endpoints *)
| DropSender
| DropSenderStore
| DropSenderNotify (n : Notify)
| DropReceiver
| DropReceiverStore
| DropReceiverNotify (n : Notify)
| AddSender
| AddSenderStore
| AddReceiver
| AddReceiverStore.

Record SyncChannel := mkSync {
  buffer : Q;
  senders : WaitQueue;
  receivers : WaitQueue;
  channel_status : ChannelStatus;
  sender_count : Z;
  receiver_count : Z;
  run_states : States;
  points : TaskRef -> SPc;
  h_pushed : list (TaskRef * T);
  h_popped : list (TaskRef * T);
  h_results : list (TaskRef * SRet);
}.

Definition new_sync_channel (minimum_capacity : Z) (rs : States) : SyncChannel :=
  mkSync (bq_with_capacity minimum_capacity) wq_new wq_new Connected 1 1 rs (fun _ => NotCalling) [] [] [].

(** ** Updates *)

Definition set_buffer (q : Q) (c : SyncChannel) : SyncChannel :=
  mkSync q (senders c) (receivers c) (channel_status c) (sender_count c) (receiver_count c) (run_states c) (points c)
    (h_pushed c) (h_popped c) (h_results c).
Definition set_sender_queue (q : WaitQueue) (c : SyncChannel) : SyncChannel :=
  mkSync (buffer c) q (receivers c) (channel_status c) (sender_count c) (receiver_count c) (run_states c) (points c)
    (h_pushed c) (h_popped c) (h_results c).
Definition set_receiver_queue (q : WaitQueue) (c : SyncChannel) : SyncChannel :=
  mkSync (buffer c) (senders c) q (channel_status c) (sender_count c) (receiver_count c) (run_states c) (points c)
    (h_pushed c) (h_popped c) (h_results c).
Definition set_status (s : ChannelStatus) (c : SyncChannel) : SyncChannel :=
  mkSync (buffer c) (senders c) (receivers c) s (sender_count c) (receiver_count c) (run_states c) (points c)
    (h_pushed c) (h_popped c) (h_results c).
Definition set_counts (s r : Z) (c : SyncChannel) : SyncChannel :=
  mkSync (buffer c) (senders c) (receivers c) (channel_status c) s r (run_states c) (points c)
    (h_pushed c) (h_popped c) (h_results c).
Definition set_run_states (rs : States) (c : SyncChannel) : SyncChannel :=
  mkSync (buffer c) (senders c) (receivers c) (channel_status c) (sender_count c) (receiver_count c) rs (points c)
    (h_pushed c) (h_popped c) (h_results c).
Definition at_point (t : TaskRef) (p : SPc) (c : SyncChannel) : SyncChannel :=
  mkSync (buffer c) (senders c) (receivers c) (channel_status c) (sender_count c) (receiver_count c) (run_states c)
    (task_upd (points c) t p) (h_pushed c) (h_popped c) (h_results c).
Definition log_push (t : TaskRef) (m : T) (c : SyncChannel) : SyncChannel :=
  mkSync (buffer c) (senders c) (receivers c) (channel_status c) (sender_count c) (receiver_count c) (run_states c) (points c)
    (h_pushed c ++ [(t, m)]) (h_popped c) (h_results c).
Definition log_pop (t : TaskRef) (m : T) (c : SyncChannel) : SyncChannel :=
  mkSync (buffer c) (senders c) (receivers c) (channel_status c) (sender_count c) (receiver_count c) (run_states c) (points c)
    (h_pushed c) (h_popped c ++ [(t, m)]) (h_results c).
Definition finish (t : TaskRef) (r : SRet) (c : SyncChannel) : SyncChannel :=
  at_point t NotCalling
    (mkSync (buffer c) (senders c) (receivers c) (channel_status c) (sender_count c) (receiver_count c) (run_states c) (points c)
       (h_pushed c) (h_popped c) (h_results c ++ [(t, r)])).

Definition get_channel_status (c : SyncChannel) : ChannelStatus := channel_status c.

Definition is_disconnected (c : SyncChannel) : bool := negb (bool_decide (get_channel_status c = Connected)).

(** [push] and [pop] on the buffer, with what they add to the histories. *)
Definition push_buffer (t : TaskRef) (m : T) (c : SyncChannel) : bool * SyncChannel :=
  match bq_push m (buffer c) with
  | (Ok _, q) => (true, log_push t m (set_buffer q c))
  | (Err _, q) => (false, set_buffer q c)
  end.

Definition pop_buffer (t : TaskRef) (c : SyncChannel) : option T * SyncChannel :=
  match bq_pop (buffer c) with
  | (Some m, q) => (Some m, log_pop t m (set_buffer q c))
  | (None, q) => (None, set_buffer q c)
  end.

(** ** [Sender::try_send] and [Sender::send] *)

Definition try_send_status (t : TaskRef) (m : T) (k : Mode) (c : SyncChannel) : SyncChannel :=
  match get_channel_status c with
  | SenderDisconnected => at_point t (TsConnect m k) c
  | ReceiverDisconnected => finish t (SendErr m ChannelDisconnected) c
  | Connected => at_point t (TsPush m k) c
  end.

Definition try_send_push (t : TaskRef) (m : T) (k : Mode) (c : SyncChannel) : SyncChannel :=
  match push_buffer t m c with
  | (true, c) => at_point t (TsNotify NCheck) c
  | (false, c) => match k with Try => finish t (SendErr m WouldBlock) c | Blocking => at_point t (SwTest m) c end
  end.

(** The closure of [send], under the lock of the senders' queue: it pushes, then looks at the
    status. *)
Definition send_test (t : TaskRef) (m : T) (c : SyncChannel) : option SyncChannel :=
  match wq_lock (senders c) with
  | Some _ => None
  | None =>
      let '(pushed, c) := push_buffer t m c in
      Some (at_point t (SwStatus m pushed) (set_sender_queue (mkWQ (wq_tasks (senders c)) (Some t)) c))
  end.

Definition send_test_status (t : TaskRef) (m : T) (pushed : bool) (c : SyncChannel) : SyncChannel :=
  let released := set_sender_queue (mkWQ (wq_tasks (senders c)) None) c in
  if is_disconnected c then finish t (SendErr m ChannelDisconnected) released
  else if pushed then at_point t (TsNotify NCheck) released
  else match wait_failed t (senders c) (run_states c) with
       | Some (q, rs) => at_point t (SwPush m) (set_run_states rs (set_sender_queue q c))
       | None => at_point t Paniced released
       end.

(** ** [Receiver::try_receive] and [Receiver::receive] *)

Definition try_receive_pop (t : TaskRef) (k : Mode) (c : SyncChannel) : SyncChannel :=
  match pop_buffer t c with
  | (Some m, c) => at_point t (TrNotify NCheck m) c
  | (None, c) => at_point t (TrStatus k) c
  end.

(** Nothing to receive: [receive] goes on to wait, [try_receive] returns. *)
Definition would_block (t : TaskRef) (k : Mode) (c : SyncChannel) : SyncChannel :=
  match k with Blocking => at_point t RwTest c | Try => finish t (ReceiveErr WouldBlock) c end.

Definition try_receive_status (t : TaskRef) (k : Mode) (c : SyncChannel) : SyncChannel :=
  match get_channel_status c with
  | ReceiverDisconnected => at_point t (TrConnect k) c
  | SenderDisconnected => finish t (ReceiveErr ChannelDisconnected) c
  | Connected => would_block t k c
  end.

Definition receive_test (t : TaskRef) (c : SyncChannel) : option SyncChannel :=
  match wq_lock (receivers c) with
  | Some _ => None
  | None =>
      match pop_buffer t c with
      | (Some m, c) => Some (at_point t (TrNotify NCheck m) c)
      | (None, c) => Some (at_point t RwStatus (set_receiver_queue (mkWQ (wq_tasks (receivers c)) (Some t)) c))
      end
  end.

Definition receive_test_status (t : TaskRef) (c : SyncChannel) : SyncChannel :=
  let released := set_receiver_queue (mkWQ (wq_tasks (receivers c)) None) c in
  if is_disconnected c then finish t (ReceiveErr ChannelDisconnected) released
  else match wait_failed t (receivers c) (run_states c) with
       | Some (q, rs) => at_point t RwPush (set_run_states rs (set_receiver_queue q c))
       | None => at_point t Paniced released
       end.

(** ** Notifying *)

Definition notify_sender_queue (t : TaskRef) (n : Notify) (again : Notify -> SPc) (k : bool -> SyncChannel -> SyncChannel) (c : SyncChannel)
    : option SyncChannel :=
  match notify_step n (senders c) (run_states c) with
  | None => None
  | Some (q, rs, r) =>
      let c := set_run_states rs (set_sender_queue q c) in
      Some (match r with inl n => at_point t (again n) c | inr b => k b c end)
  end.

Definition notify_receiver_queue (t : TaskRef) (n : Notify) (again : Notify -> SPc) (k : bool -> SyncChannel -> SyncChannel) (c : SyncChannel)
    : option SyncChannel :=
  match notify_step n (receivers c) (run_states c) with
  | None => None
  | Some (q, rs, r) =>
      let c := set_run_states rs (set_receiver_queue q c) in
      Some (match r with inl n => at_point t (again n) c | inr b => k b c end)
  end.

(** A round of [notify_all] woke a task: another round; else done. *)
Definition notify_all_round (t : TaskRef) (again : Notify -> SPc) (b : bool) (c : SyncChannel) : SyncChannel :=
  if b then at_point t (again NCheck) c else finish t EndpointDone c.

(** ** Endpoints *)

Definition drop_sender (t : TaskRef) (c : SyncChannel) : SyncChannel :=
  let old := sender_count c in
  let c := set_counts (wrap64 (old - 1)) (receiver_count c) c in
  if old =? 1 then at_point t DropSenderStore c else finish t EndpointDone c.

Definition drop_receiver (t : TaskRef) (c : SyncChannel) : SyncChannel :=
  let old := receiver_count c in
  let c := set_counts (sender_count c) (wrap64 (old - 1)) c in
  if old =? 1 then at_point t DropReceiverStore c else finish t EndpointDone c.

Definition add_sender (t : TaskRef) (c : SyncChannel) : SyncChannel :=
  let old := sender_count c in
  let c := set_counts (wrap64 (old + 1)) (receiver_count c) c in
  if old =? 0 then at_point t AddSenderStore c else finish t EndpointDone c.

Definition add_receiver (t : TaskRef) (c : SyncChannel) : SyncChannel :=
  let old := receiver_count c in
  let c := set_counts (sender_count c) (wrap64 (old + 1)) c in
  if old =? 0 then at_point t AddReceiverStore c else finish t EndpointDone c.

(** ** Steps *)

Definition resume_if_runnable (t : TaskRef) (c k : SyncChannel) : option SyncChannel :=
  if decide (run_states c t = Runnable) then Some k else None.

Definition sync_run (t : TaskRef) (c : SyncChannel) : option SyncChannel :=
  match points c t with
  | NotCalling | Paniced => None
  | TsStatus m k => Some (try_send_status t m k c)
  | TsConnect m k => Some (at_point t (TsPush m k) (set_status Connected c))
  | TsPush m k => Some (try_send_push t m k c)
  | TsNotify n => notify_receiver_queue t n TsNotify (fun _ => finish t Sent) c
  | SwTest m => send_test t m c
  | SwStatus m pushed => Some (send_test_status t m pushed c)
  | SwPush m => Some (at_point t (SwSleep m) (set_sender_queue (wait_push t (senders c)) c))
  | SwSleep m => resume_if_runnable t c (at_point t (SwTest m) c)
  | TrPop k => Some (try_receive_pop t k c)
  | TrNotify n m => notify_sender_queue t n (fun n => TrNotify n m) (fun _ => finish t (Got m)) c
  | TrStatus k => Some (try_receive_status t k c)
  | TrConnect k => Some (would_block t k (set_status Connected c))
  | RwTest => receive_test t c
  | RwStatus => Some (receive_test_status t c)
  | RwPush => Some (at_point t RwSleep (set_receiver_queue (wait_push t (receivers c)) c))
  | RwSleep => resume_if_runnable t c (at_point t RwTest c)
  | DropSender => Some (drop_sender t c)
  | DropSenderStore => Some (at_point t (DropSenderNotify NCheck) (set_status SenderDisconnected c))
  | DropSenderNotify n => notify_receiver_queue t n DropSenderNotify (notify_all_round t DropSenderNotify) c
  | DropReceiver => Some (drop_receiver t c)
  | DropReceiverStore => Some (at_point t (DropReceiverNotify NCheck) (set_status ReceiverDisconnected c))
  | DropReceiverNotify n => notify_sender_queue t n DropReceiverNotify (notify_all_round t DropReceiverNotify) c
  | AddSender => Some (add_sender t c)
  | AddSenderStore => Some (finish t EndpointDone (set_status Connected c))
  | AddReceiver => Some (add_receiver t c)
  | AddReceiverStore => Some (finish t EndpointDone (set_status Connected c))
  end.

(** The calls a task can start. *)
Inductive Call := CSend (m : T) | CTrySend (m : T) | CReceive | CTryReceive | CDropSender | CDropReceiver | CAddSender | CAddReceiver.

Definition entry_point (x : Call) : SPc :=
  match x with
  | CSend m => TsStatus m Blocking
  | CTrySend m => TsStatus m Try
  | CReceive => TrPop Blocking
  | CTryReceive => TrPop Try
  | CDropSender => DropSender
  | CDropReceiver => DropReceiver
  | CAddSender => AddSender
  | CAddReceiver => AddReceiver
  end.

Inductive SyncAction := Start (t : TaskRef) (x : Call) | Step (t : TaskRef) | KillTask (t : TaskRef) (reason : KillReason) | WakeTask (t : TaskRef).

Definition sync_act (a : SyncAction) (c : SyncChannel) : option SyncChannel :=
  match a with
  | Start t x => match points c t with NotCalling => Some (at_point t (entry_point x) c) | _ => None end
  | Step t => sync_run t c
  | KillTask t reason => Some (set_run_states (rs_kill t reason (run_states c)) c)
  | WakeTask t => Some (set_run_states (snd (rs_unblock t (run_states c))) c)
  end.

Fixpoint sync_actions (l : list SyncAction) (c : SyncChannel) : option SyncChannel :=
  match l with
  | [] => Some c
  | a :: l => match sync_act a c with Some c => sync_actions l c | None => None end
  end.

Inductive sync_reachable (minimum_capacity : Z) (rs : States) : SyncChannel -> Prop :=
| sync_new : sync_reachable minimum_capacity rs (new_sync_channel minimum_capacity rs)
| sync_step c a c' : sync_reachable minimum_capacity rs c -> sync_act a c = Some c' -> sync_reachable minimum_capacity rs c'.

Lemma sync_actions_reachable n (rs : States) (l : list SyncAction) (c c' : SyncChannel) :
  sync_reachable n rs c -> sync_actions l c = Some c' -> sync_reachable n rs c'.
Proof.
  revert c. induction l as [| a l IH]; intros c Hc; cbn [sync_actions]; [by intros [= <-] |].
  destruct (sync_act a c) as [c1 |] eqn:E; [| done]. apply IH. by eapply sync_step.
Qed.

(** ** Operations on slices *)

(** A call of [t] that runs without interruption, to its result; [None] when it would have to
    wait for another task.  The steps are the accesses of one call and three per task on a
    wait queue. *)
Fixpoint finish_call (fuel : nat) (t : TaskRef) (c : SyncChannel) : option (SRet * SyncChannel) :=
  match points c t with
  | NotCalling => match last (h_results c) with Some (_, r) => Some (r, c) | None => None end
  | _ =>
      match fuel with
      | O => None
      | S fuel => match sync_run t c with Some c => finish_call fuel t c | None => None end
      end
  end.

Definition call_fuel (c : SyncChannel) : nat := 3 * (length (wq_tasks (senders c)) + length (wq_tasks (receivers c))) + 8.

Definition call (t : TaskRef) (x : Call) (c : SyncChannel) : option (SRet * SyncChannel) :=
  match sync_act (Start t x) c with Some c => finish_call (call_fuel c) t c | None => None end.

(** [send_buf] from index [idx]: only the first object may block. *)
Fixpoint send_buf_from (t : TaskRef) (buf : list T) (idx : nat) (c : SyncChannel) : option (result nat Error * SyncChannel) :=
  match buf with
  | [] => Some (Ok idx, c)
  | item :: buf =>
      match call t (if Nat.eqb idx 0 then CSend item else CTrySend item) c with
      | Some (Sent, c) => send_buf_from t buf (S idx) c
      | Some (SendErr _ e, c) =>
          Some (if Nat.eqb idx 0 then Err e else match e with WouldBlock => Ok idx | _ => Err e end, c)
      | _ => None
      end
  end.

Definition send_buf (t : TaskRef) (buf : list T) (c : SyncChannel) : option (result nat Error * SyncChannel) :=
  send_buf_from t buf 0 c.

Fixpoint send_all (t : TaskRef) (buf : list T) (c : SyncChannel) : option (result unit Error * SyncChannel) :=
  match buf with
  | [] => Some (Ok tt, c)
  | item :: buf =>
      match call t (CSend item) c with
      | Some (Sent, c) => send_all t buf c
      | Some (SendErr _ e, c) => Some (Err e, c)
      | _ => None
      end
  end.

Fixpoint try_send_buf_from (t : TaskRef) (buf : list T) (idx : nat) (c : SyncChannel) : option (result nat Error * SyncChannel) :=
  match buf with
  | [] => Some (Ok idx, c)
  | item :: buf =>
      match call t (CTrySend item) c with
      | Some (Sent, c) => try_send_buf_from t buf (S idx) c
      | Some (SendErr _ e, c) =>
          Some (if Nat.eqb idx 0 then Err e else match e with WouldBlock => Ok idx | _ => Err e end, c)
      | _ => None
      end
  end.

Definition try_send_buf (t : TaskRef) (buf : list T) (c : SyncChannel) : option (result nat Error * SyncChannel) :=
  try_send_buf_from t buf 0 c.

(** The loop of [receive_buf]: [free] places of the slice are free, [byte] is the object to
    store; also the objects stored in the slice. *)
Fixpoint receive_buf_loop (t : TaskRef) (free : nat) (stored : list T) (byte : T) (c : SyncChannel)
    : option (result nat Error * list T * SyncChannel) :=
  let stored := stored ++ [byte] in
  match free with
  | O => Some (Ok (length stored), stored, c)
  | S free =>
      match call t CTryReceive c with
      | Some (Got b, c) => receive_buf_loop t free stored b c
      | Some (ReceiveErr WouldBlock, c) => Some (Ok (length stored), stored, c)
      | Some (ReceiveErr e, c) => Some (Err e, stored, c)
      | _ => None
      end
  end.

Definition receive_buf (t : TaskRef) (size : nat) (c : SyncChannel) : option (result nat Error * list T * SyncChannel) :=
  match size with
  | O => Some (Ok 0%nat, [], c)
  | S free =>
      match call t CReceive c with
      | Some (Got byte, c) => receive_buf_loop t free [] byte c
      | Some (ReceiveErr e, c) => Some (Err e, [], c)
      | _ => None
      end
  end.

Fixpoint try_receive_buf_loop (t : TaskRef) (free : nat) (stored : list T) (c : SyncChannel)
    : option (result nat Error * list T * SyncChannel) :=
  match free with
  | O => Some (Ok (length stored), stored, c)
  | S free =>
      match call t CTryReceive c with
      | Some (Got byte, c) => try_receive_buf_loop t free (stored ++ [byte]) c
      | Some (ReceiveErr WouldBlock, c) => Some (Ok (length stored + 1)%nat, stored, c)
      | Some (ReceiveErr e, c) => Some (Err e, stored, c)
      | _ => None
      end
  end.

Definition try_receive_buf (t : TaskRef) (size : nat) (c : SyncChannel) : option (result nat Error * list T * SyncChannel) :=
  try_receive_buf_loop t size [] c.

End Channel.

Arguments SyncChannel T Q : clear implicits.
Arguments SPc T : clear implicits.
Arguments SRet T : clear implicits.
Arguments SyncAction T : clear implicits.
Arguments Call T : clear implicits.

(** ** The one-byte channel *)

Module SimpleIpc.

(** The upper 8 bits of the cell are the message, bit 0 says that there is one. *)
Definition cell_new : Z := 0.

Definition CAPACITY_ERR : string := "Buffer has reached its capacity".
Definition EMPTY_ERR : string := "There was no message in the buffer.".

(** [fetch_update] with a function that may refuse. *)
Definition fetch_update (f : Z -> option Z) (val : Z) : result Z Z * Z :=
  match f val with Some new => (Ok val, new) | None => (Err val, val) end.

Definition try_send (msg : Z) (cell : Z) : result unit string * Z :=
  match fetch_update (fun val => if negb (Z.testbit val 0) then Some (Z.lor (Z.shiftl msg 8 mod 65536) 1) else None) cell with
  | (Ok _, cell) => (Ok tt, cell)
  | (Err _, cell) => (Err CAPACITY_ERR, cell)
  end.

Definition try_receive (cell : Z) : result Z string * Z :=
  match fetch_update (fun val => if Z.testbit val 0 then Some 0 else None) cell with
  | (Ok msg, cell) => (Ok (Z.shiftr msg 8 mod 256), cell)
  | (Err _, cell) => (Err EMPTY_ERR, cell)
  end.

(** Attempts of senders and receivers, in the order in which they reach the cell: [send] and
    [receive] repeat theirs until one succeeds. *)
Inductive Attempt := TrySend (msg : Z) | TryReceive.

(** The messages sent and received by the attempts that succeed. *)
Fixpoint attempts (l : list Attempt) (cell : Z) : list Z * list Z * Z :=
  match l with
  | [] => ([], [], cell)
  | TrySend m :: l =>
      let '(r, cell) := try_send m cell in
      let '(sent, got, cell) := attempts l cell in
      (match r with Ok _ => m :: sent | Err _ => sent end, got, cell)
  | TryReceive :: l =>
      let '(r, cell) := try_receive cell in
      let '(sent, got, cell) := attempts l cell in
      (sent, match r with Ok m => m :: got | Err _ => got end, cell)
  end.

End SimpleIpc.
