(* ===== verification/SyncChannelProps.v ===== *)
(** * Properties of the buffered channel

    In every state that calls on a channel can reach, however their steps interleave: the
    messages popped are the messages pushed, in order; the buffer is within its capacity;
    and what each task's calls return agrees with what it pushed and popped.  Then what the
    operations on slices do, and executions that lose a wake-up or a message. *)

From stdpp Require Import gmap.
From S2P Require Import Prelude SchedTask EpochSched PrioritySched SchedulerApi SchedulerProps TaskState TaskProps WaitQueues SyncChannel.

Section Props.
Context {T Q : Type} {bq : BoundedQueue T Q} {bql : BoundedQueueLaws T Q}.
Abbreviation Chan := (SyncChannel T Q).

(** ** Messages and capacity *)

Record fifo (n : Z) (c : Chan) : Prop := {
  ff_messages : (h_pushed c).*2 = (h_popped c).*2 ++ bq_items (buffer c);
  ff_bound : (length (bq_items (buffer c)) <= bq_capacity (buffer c))%nat;
  ff_capacity : bq_capacity (buffer c) = mpmc_capacity n;
}.

Lemma fifo_new n rs : fifo n (new_sync_channel n rs).
Proof.
  split; simpl; rewrite ?bq_new_items; [done | simpl; lia | apply bq_new_capacity].
Qed.

Lemma fifo_same n (c c' : Chan) :
  buffer c' = buffer c -> h_pushed c' = h_pushed c -> h_popped c' = h_popped c -> fifo n c -> fifo n c'.
Proof. intros Hb H1 H2 [F1 F2 F3]. split; by rewrite ?Hb, ?H1, ?H2. Qed.

Lemma push_buffer_fifo n (t : TaskRef) (m : T) (c : Chan) : fifo n c -> fifo n (snd (push_buffer t m c)).
Proof.
  intros [F1 F2 F3]. unfold push_buffer. pose proof (bq_push_spec m (buffer c)) as Hs. pose proof (bq_push_capacity m (buffer c)) as Hc.
  destruct (bq_push m (buffer c)) as [[u | m'] q]; cbn [fst snd] in *; destruct (decide _) as [Hlt | Hge]; destruct Hs as [Hr Hi]; try discriminate Hr;
    (split; simpl; rewrite ?Hi, ?Hc; [| | done]).
  - rewrite fmap_app, F1, <- app_assoc. done.
  - rewrite length_app. simpl. lia.
  - done.
  - done.
Qed.

Lemma pop_buffer_fifo n (t : TaskRef) (c : Chan) : fifo n c -> fifo n (snd (pop_buffer t c)).
Proof.
  intros [F1 F2 F3]. unfold pop_buffer. pose proof (bq_pop_spec (buffer c)) as [Hr Hi]. pose proof (bq_pop_capacity (buffer c)) as Hc.
  destruct (bq_pop (buffer c)) as [[m |] q]; cbn [fst snd] in *; (split; simpl; rewrite ?Hi, ?Hc; [| | done]).
  - rewrite fmap_app, F1, <- app_assoc. destruct (bq_items (buffer c)); [done |]. injection Hr as <-. done.
  - destruct (bq_items (buffer c)); simpl in *; lia.
  - by destruct (bq_items (buffer c)).
  - destruct (bq_items (buffer c)); simpl in *; lia.
Qed.

(** ** What the calls return *)

Definition got_message (r : SRet T) : option T := match r with Got m => Some m | _ => None end.
Definition sent_message (r : SRet T) : option unit := match r with Sent => Some tt | _ => None end.

(** The message a call has popped, and a send that has pushed its message. *)
Definition point_message (p : SPc T) : list T := match p with TrNotify _ m => [m] | _ => [] end.
Definition point_sent (p : SPc T) : list unit := match p with TsNotify _ | SwStatus _ true => [tt] | _ => [] end.

Definition calls_fine (c : Chan) (t : TaskRef) : Prop :=
  account got_message sent_message (h_pushed c) (h_popped c) (h_results c) t (point_message (points c t)) (point_sent (points c t)).

(** A step of [t], with what it adds to the histories. *)
Record logged (c c' : Chan) (t : TaskRef) (s r : list T) (o : list (SRet T)) : Prop := {
  lg_pushed : h_pushed c' = h_pushed c ++ mine t s;
  lg_popped : h_popped c' = h_popped c ++ mine t r;
  lg_results : h_results c' = h_results c ++ mine t o;
  lg_points : forall x, x <> t -> points c' x = points c x;
  lg_messages : point_message (points c t) ++ r = omap got_message o ++ point_message (points c' t);
  lg_sends : (length (omap sent_message o) + length (point_sent (points c' t)) <= length (point_sent (points c t)) + length s)%nat;
}.

Lemma calls_fine_step (c c' : Chan) (t : TaskRef) s r o :
  logged c c' t s r o -> (forall x, calls_fine c x) -> forall x, calls_fine c' x.
Proof.
  intros [Hs Hr Ho Hp Hrec Hsend] Hc x. unfold calls_fine. rewrite Hs, Hr, Ho. destruct (decide (x = t)) as [-> | Hne].
  - specialize (Hc t). by eapply account_own.
  - rewrite (Hp x Hne). apply account_other; [done | apply Hc].
Qed.

(** ** Every step *)

Definition good_step (n : Z) (c c' : Chan) (t : TaskRef) : Prop :=
  (fifo n c -> fifo n c') /\ exists s r o, logged c c' t s r o.

Ltac log_with Hp s r o :=
  exists s, r, o; split; simpl; rewrite ?task_upd_eq, ?Hp, ?app_nil_r; simpl; try done; try lia; try (intros x Hx; by rewrite ?task_upd_ne).

(** A step that leaves the buffer alone. *)
Ltac plain_step Hp o := solve [split; [apply fifo_same; reflexivity | log_with Hp (@nil T) (@nil T) o]].
Ltac plain Hp := plain_step Hp (@nil (SRet T)).

Lemma push_step n (c : Chan) (t : TaskRef) (m : T) (f : bool -> Chan -> Chan) (b : bool) c1 :
  push_buffer t m c = (b, c1) -> point_message (points c t) = [] ->
  (forall c2, buffer (f b c2) = buffer c2 /\ h_pushed (f b c2) = h_pushed c2 /\ h_popped (f b c2) = h_popped c2 /\
     exists o p, h_results (f b c2) = h_results c2 ++ mine t o /\ points (f b c2) = task_upd (points c2) t p /\
       omap got_message o ++ point_message p = [] /\
       (length (omap sent_message o) + length (point_sent p) <= length (point_sent (points c t)) + (if b then 1 else 0))%nat) ->
  good_step n c (f b c1) t.
Proof.
  intros E Hm Hf. split.
  - intros F. pose proof (push_buffer_fifo n t m c F) as F1. rewrite E in F1. cbn [snd] in F1. destruct (Hf c1) as (H1 & H2 & H3 & _).
    by eapply fifo_same.
  - destruct (Hf c1) as (_ & H2 & H3 & o & p & Ho & Hp & Hg & Hs).
    assert (points c1 = points c /\ h_popped c1 = h_popped c /\ h_results c1 = h_results c /\ h_pushed c1 = h_pushed c ++ mine t (if b then [m] else [])) as (P1 & P2 & P3 & P4).
    { revert E. unfold push_buffer. destruct (bq_push m (buffer c)) as [[u | m'] q]; intros [= <- <-]; simpl; by rewrite ?app_nil_r. }
    exists (if b then [m] else []), [], o. split.
    + by rewrite H2, P4.
    + by rewrite H3, P2, app_nil_r.
    + by rewrite Ho, P3.
    + intros x Hx. rewrite Hp, P1. by rewrite task_upd_ne.
    + rewrite Hp, task_upd_eq, Hm, Hg. done.
    + rewrite Hp, task_upd_eq. destruct b; simpl; lia.
Qed.

Lemma pop_step n (c : Chan) (t : TaskRef) (f : option T -> Chan -> Chan) (v : option T) c1 :
  pop_buffer t c = (v, c1) -> point_message (points c t) = [] ->
  (forall c2, buffer (f v c2) = buffer c2 /\ h_pushed (f v c2) = h_pushed c2 /\ h_popped (f v c2) = h_popped c2 /\
     h_results (f v c2) = h_results c2 /\ exists p, points (f v c2) = task_upd (points c2) t p /\
       point_message p = option_list v /\ point_sent p = []) ->
  good_step n c (f v c1) t.
Proof.
  intros E Hm Hf. split.
  - intros F. pose proof (pop_buffer_fifo n t c F) as F1. rewrite E in F1. cbn [snd] in F1. destruct (Hf c1) as (H1 & H2 & H3 & _).
    by eapply fifo_same.
  - destruct (Hf c1) as (_ & H2 & H3 & Ho & p & Hp & Hg & Hs).
    assert (points c1 = points c /\ h_pushed c1 = h_pushed c /\ h_results c1 = h_results c /\ h_popped c1 = h_popped c ++ mine t (option_list v)) as (P1 & P2 & P3 & P4).
    { revert E. unfold pop_buffer. destruct (bq_pop (buffer c)) as [[m |] q]; intros [= <- <-]; simpl; by rewrite ?app_nil_r. }
    exists [], (option_list v), []. split.
    + by rewrite H2, P2, app_nil_r.
    + by rewrite H3, P4.
    + by rewrite Ho, P3, app_nil_r.
    + intros x Hx. rewrite Hp, P1. by rewrite task_upd_ne.
    + by rewrite Hp, task_upd_eq, Hm, Hg.
    + rewrite Hp, task_upd_eq, Hs. simpl. lia.
Qed.
Lemma sync_run_good n (c c' : Chan) (t : TaskRef) : sync_run t c = Some c' -> good_step n c c' t.
Proof.
  intros Hrun. unfold sync_run, resume_if_runnable in Hrun.
  destruct (points c t) as [| | m k | m k | m k | nt | m | m pushed | m | m | k | nt m | k | k | | | | | | | nt | | | nt | | | |] eqn:Hp;
    try discriminate Hrun; try (destruct (decide (run_states c t = Runnable)); [| discriminate Hrun]); try (injection Hrun as <-).
  - unfold try_send_status. destruct (get_channel_status c); [plain Hp | plain Hp | plain_step Hp [SendErr m ChannelDisconnected]].
  - plain Hp.
  - unfold try_send_push. destruct (push_buffer t m c) as [b c1] eqn:E.
    apply (push_step n c t m (fun b c => if b then at_point t (TsNotify NCheck) c
      else match k with Try => finish t (SendErr m WouldBlock) c | Blocking => at_point t (SwTest m) c end) b c1 E); [by rewrite Hp |].
    intros c2. split_and!; try (by destruct b, k). rewrite Hp. destruct b.
    { exists [], (TsNotify NCheck). by rewrite app_nil_r. }
    destruct k; [exists [], (SwTest m); by rewrite app_nil_r | by exists [SendErr m WouldBlock], NotCalling].
  - revert Hrun. unfold notify_receiver_queue. destruct (notify_step _ _ _) as [[[q rs] [n' | b]] |]; [| | done]; intros [= <-];
      [plain Hp | plain_step Hp [Sent (T := T)]].
  - revert Hrun. unfold send_test. destruct (wq_lock (senders c)); [done |]. destruct (push_buffer t m c) as [b c1] eqn:E. intros [= <-].
    apply (push_step n c t m (fun b c => at_point t (SwStatus m b) (set_sender_queue (mkWQ (wq_tasks (senders c)) (Some t)) c)) b c1 E); [by rewrite Hp |].
    intros c2. split_and!; try done. exists [], (SwStatus m b). rewrite Hp, app_nil_r. by destruct b.
  - unfold send_test_status. destruct (is_disconnected c); [destruct pushed; plain_step Hp [SendErr m ChannelDisconnected] |].
    destruct pushed; [plain Hp |]. destruct (wait_failed _ _ _) as [[q rs] |]; plain Hp.
  - plain Hp.
  - plain Hp.
  - unfold try_receive_pop. destruct (pop_buffer t c) as [v c1] eqn:E.
    apply (pop_step n c t (fun v c => match v with Some m => at_point t (TrNotify NCheck m) c | None => at_point t (TrStatus k) c end) v c1 E); [by rewrite Hp |].
    intros c2. destruct v as [m |]; split_and!; try done; by eexists.
  - revert Hrun. unfold notify_sender_queue. destruct (notify_step _ _ _) as [[[q rs] [n' | b]] |]; [| | done]; intros [= <-];
      [plain Hp | plain_step Hp [Got m]].
  - unfold try_receive_status, would_block. destruct (get_channel_status c), k;
      first [plain Hp | plain_step Hp [ReceiveErr (T := T) ChannelDisconnected] | plain_step Hp [ReceiveErr (T := T) WouldBlock]].
  - unfold would_block. destruct k; [plain Hp | plain_step Hp [ReceiveErr (T := T) WouldBlock]].
  - revert Hrun. unfold receive_test. destruct (wq_lock (receivers c)); [done |]. destruct (pop_buffer t c) as [v c1] eqn:E. intros Hrun.
    assert (c' = match v with Some m => at_point t (TrNotify NCheck m) c1
                 | None => at_point t RwStatus (set_receiver_queue (mkWQ (wq_tasks (receivers c1)) (Some t)) c1) end) as -> by (destruct v; by injection Hrun as <-).
    apply (pop_step n c t (fun v c => match v with Some m => at_point t (TrNotify NCheck m) c
      | None => at_point t RwStatus (set_receiver_queue (mkWQ (wq_tasks (receivers c)) (Some t)) c) end) v c1 E); [by rewrite Hp |].
    intros c2. destruct v as [m |]; split_and!; try done; by eexists.
  - unfold receive_test_status. destruct (is_disconnected c); [plain_step Hp [ReceiveErr (T := T) ChannelDisconnected] |].
    destruct (wait_failed _ _ _) as [[q rs] |]; plain Hp.
  - plain Hp.
  - plain Hp.
  - unfold drop_sender. destruct (_ =? 1); [plain Hp | plain_step Hp [EndpointDone (T := T)]].
  - plain Hp.
  - revert Hrun. unfold notify_receiver_queue, notify_all_round. destruct (notify_step _ _ _) as [[[q rs] [n' | []]] |]; [| | | done]; intros [= <-];
      [plain Hp | plain Hp | plain_step Hp [EndpointDone (T := T)]].
  - unfold drop_receiver. destruct (_ =? 1); [plain Hp | plain_step Hp [EndpointDone (T := T)]].
  - plain Hp.
  - revert Hrun. unfold notify_sender_queue, notify_all_round. destruct (notify_step _ _ _) as [[[q rs] [n' | []]] |]; [| | | done]; intros [= <-];
      [plain Hp | plain Hp | plain_step Hp [EndpointDone (T := T)]].
  - unfold add_sender. destruct (_ =? 0); [plain Hp | plain_step Hp [EndpointDone (T := T)]].
  - plain_step Hp [EndpointDone (T := T)].
  - unfold add_receiver. destruct (_ =? 0); [plain Hp | plain_step Hp [EndpointDone (T := T)]].
  - plain_step Hp [EndpointDone (T := T)].
Qed.

Lemma sync_act_good n (a : SyncAction T) (c c' : Chan) : sync_act a c = Some c' -> exists t, good_step n c c' t.
Proof.
  destruct a as [t x | t | t reason | t]; cbn [sync_act]; intros Hact; exists t.
  - destruct (points c t) eqn:Hp; try discriminate Hact. injection Hact as <-. destruct x; plain Hp.
  - by apply sync_run_good.
  - injection Hact as <-. destruct (points c t) eqn:Hp; try (destruct pushed); plain Hp.
  - injection Hact as <-. destruct (points c t) eqn:Hp; try (destruct pushed); plain Hp.
Qed.

Lemma sync_reachable_good n rs (c : Chan) : sync_reachable n rs c -> fifo n c /\ forall t, calls_fine c t.
Proof.
  induction 1 as [| c a c' _ [Hf Hc] Hact]; [split; [apply fifo_new | by intros t] |].
  destruct (sync_act_good n a c c' Hact) as (t & Hff & s & r & o & Hl). split; [auto | by eapply calls_fine_step].
Qed.

(** ** Theorems *)

(** C29: The buffered channel delivers messages once and in the order they were buffered, and
    never holds more than its capacity.  In every state that any number of tasks can reach
    with any interleaving of [send], [try_send], [receive], [try_receive] and of dropping and
    adding endpoints, with tasks killed and woken at any moment: the messages pushed are the
    messages popped followed by the buffer; a task's popped messages are what its calls
    returned and the one about to be returned; every send that reported success pushed a
    message of its own; and the buffer is within the capacity asked for, rounded up to a
    power of two and at least two. *)
Theorem sync_channel_is_fifo (minimum_capacity : Z) (rs : States) (c : Chan) :
  sync_reachable minimum_capacity rs c ->
  (h_pushed c).*2 = (h_popped c).*2 ++ bq_items (buffer c) /\
  (length (bq_items (buffer c)) <= mpmc_capacity minimum_capacity)%nat /\
  forall t, entries t (h_popped c) = returned got_message t (h_results c) ++ point_message (points c t) /\
    (length (sends sent_message t (h_results c)) + length (point_sent (points c t)) <= length (entries t (h_pushed c)))%nat.
Proof.
  intros Hr. destruct (sync_reachable_good _ _ _ Hr) as [[F1 F2 F3] Hc]. rewrite F3 in F2. split_and!; [done | done |].
  intros t. by destruct (Hc t) as [H1 H2].
Qed.

(** ** Operations on slices *)

(** No call of [t] is under way and no task waits. *)
Definition at_rest (t : TaskRef) (c : Chan) : Prop := points c t = NotCalling /\ senders c = wq_new /\ receivers c = wq_new.

Lemma finish_call_run (fuel : nat) (t : TaskRef) (c c' : Chan) :
  sync_run t c = Some c' -> finish_call (S fuel) t c = finish_call fuel t c'.
Proof. intros H. cbn [finish_call]. rewrite H. revert H. unfold sync_run. by destruct (points c t). Qed.

Lemma finish_call_done (fuel : nat) (t : TaskRef) (r : SRet T) (c : Chan) :
  finish_call fuel t (finish t r c) = Some (r, finish t r c).
Proof.
  assert (points (finish t r c) t = NotCalling) as Hp by (simpl; by rewrite task_upd_eq).
  destruct fuel; cbn [finish_call]; rewrite Hp; simpl; by rewrite last_snoc.
Qed.

Lemma finish_at_rest (t : TaskRef) (r : SRet T) (c : Chan) : senders c = wq_new -> receivers c = wq_new -> at_rest t (finish t r c).
Proof. intros H1 H2. split_and!; [simpl; by rewrite task_upd_eq | done | done]. Qed.

(** What one uninterrupted [try_receive] does to the buffer and the status, and what it
    returns. *)
Definition received_first (c : Chan) : SRet T :=
  match bq_items (buffer c) with
  | m :: _ => Got m
  | [] => ReceiveErr (if decide (channel_status c = SenderDisconnected) then ChannelDisconnected else WouldBlock)
  end.

Definition after_receive (c c' : Chan) : Prop :=
  bq_items (buffer c') = tail (bq_items (buffer c)) /\ (channel_status c <> ReceiverDisconnected -> channel_status c' = channel_status c).

(** Nobody waits: [notify_one] wakes nobody. *)
Lemma notify_no_senders (t : TaskRef) again k (c : Chan) :
  senders c = wq_new -> notify_sender_queue t NCheck again k c = Some (k false (set_run_states (run_states c) (set_sender_queue wq_new c))).
Proof. intros H. unfold notify_sender_queue. by rewrite H. Qed.

Ltac run_one := erewrite finish_call_run; [| unfold sync_run; simpl; rewrite task_upd_eq; reflexivity].

Lemma call_try_receive (t : TaskRef) (c : Chan) :
  at_rest t c -> exists c', call t CTryReceive c = Some (received_first c, c') /\ at_rest t c' /\ after_receive c c'.
Proof.
  intros (Hp & Hs & Hr). pose proof (bq_pop_spec (buffer c)) as [H1 H2]. unfold call, sync_act. rewrite Hp. cbn [entry_point].
  replace (call_fuel (at_point t (TrPop Try) c)) with 8%nat by (unfold call_fuel; simpl; by rewrite Hs, Hr). run_one.
  unfold try_receive_pop, pop_buffer, received_first, after_receive. cbn [buffer at_point].
  destruct (bq_pop (buffer c)) as [[m |] q]; cbn [fst snd] in H1, H2; destruct (bq_items (buffer c)) as [| m' l]; try discriminate H1.
  - injection H1 as <-. erewrite finish_call_run.
    2: { unfold sync_run. cbn [points at_point]. rewrite task_upd_eq. by apply notify_no_senders. }
    rewrite finish_call_done. eexists. split; [done |]. split; [by apply finish_at_rest | done].
  - run_one. unfold try_receive_status, would_block. cbn [get_channel_status channel_status at_point set_buffer].
    destruct (channel_status c) eqn:Est.
    + rewrite finish_call_done. eexists. split; [done |]. split; [by apply finish_at_rest | done].
    + rewrite finish_call_done. eexists. split; [done |]. split; [by apply finish_at_rest | done].
    + run_one. unfold would_block. rewrite finish_call_done. eexists. split; [done |]. split; [by apply finish_at_rest | done].
Qed.

(** With [k] objects in the buffer of a connected channel, fewer than the slice has room for,
    [try_receive_buf] stores them all and reports one more. *)
Theorem try_receive_buf_counts_one_more (t : TaskRef) (size : nat) (c : Chan) :
  at_rest t c -> channel_status c = Connected -> (length (bq_items (buffer c)) < size)%nat ->
  exists c', try_receive_buf t size c = Some (Ok (length (bq_items (buffer c)) + 1)%nat, bq_items (buffer c), c').
Proof.
  intros Hr Hst Hlen. unfold try_receive_buf.
  enough (forall stored, exists c', try_receive_buf_loop t size stored c =
    Some (Ok (length (stored ++ bq_items (buffer c)) + 1)%nat, stored ++ bq_items (buffer c), c')) as H by (apply (H [])).
  revert c Hr Hst Hlen. induction size as [| size IH]; intros c Hr Hst Hlen stored; [lia |]. cbn [try_receive_buf_loop].
  destruct (call_try_receive t c Hr) as (c1 & -> & Hr1 & Hi & Hs1). specialize (Hs1 ltac:(by rewrite Hst)). unfold received_first.
  rewrite Hst in *. destruct (bq_items (buffer c)) as [| m l]; simpl in *.
  - rewrite app_nil_r. by eexists.
  - destruct (IH c1 Hr1) with (stored := stored ++ [m]) as [c2 ->]; [congruence | rewrite Hi; lia |].
    rewrite Hi, <- app_assoc. by eexists.
Qed.

(** With some objects in the buffer but fewer than the slice has room for, and the last
    sender gone, [receive_buf] takes them all out of the channel and returns an error. *)
Lemma receive_buf_loop_drops (t : TaskRef) (free : nat) (c : Chan) (stored : list T) (b : T) :
  at_rest t c -> channel_status c = SenderDisconnected -> (length (bq_items (buffer c)) < free)%nat ->
  exists c', receive_buf_loop t free stored b c = Some (Err ChannelDisconnected, stored ++ b :: bq_items (buffer c), c') /\
    bq_items (buffer c') = [].
Proof.
  revert c stored b. induction free as [| free IH]; intros c stored b Hr Hst Hlen; [lia |]. cbn [receive_buf_loop].
  destruct (call_try_receive t c Hr) as (c1 & -> & Hr1 & Hi & Hs1). specialize (Hs1 ltac:(by rewrite Hst)). unfold received_first.
  rewrite Hst in *. destruct (bq_items (buffer c)) as [| m l]; simpl in *; [by eexists |].
  destruct (IH c1 (stored ++ [b]) m Hr1) as (c2 & -> & H2); [congruence | rewrite Hi; lia |].
  rewrite Hi, <- app_assoc. by eexists.
Qed.

Lemma call_receive_first (t : TaskRef) (c : Chan) m l :
  at_rest t c -> bq_items (buffer c) = m :: l ->
  exists c', call t CReceive c = Some (Got m, c') /\ at_rest t c' /\ after_receive c c'.
Proof.
  intros (Hp & Hs & Hr) El. pose proof (bq_pop_spec (buffer c)) as [H1 H2]. unfold call, sync_act. rewrite Hp. cbn [entry_point].
  replace (call_fuel (at_point t (TrPop Blocking) c)) with 8%nat by (unfold call_fuel; simpl; by rewrite Hs, Hr). run_one.
  unfold try_receive_pop, pop_buffer, after_receive. cbn [buffer at_point]. rewrite El in *.
  destruct (bq_pop (buffer c)) as [[m' |] q]; cbn [fst snd] in H1, H2; try discriminate H1.
  injection H1 as ->. erewrite finish_call_run.
  2: { unfold sync_run. cbn [points at_point]. rewrite task_upd_eq. by apply notify_no_senders. }
  rewrite finish_call_done. eexists. split; [done |]. split; [by apply finish_at_rest | done].
Qed.

Theorem receive_buf_loses_the_end (t : TaskRef) (size : nat) (c : Chan) :
  at_rest t c -> channel_status c = SenderDisconnected -> (0 < length (bq_items (buffer c)) < size)%nat ->
  exists c', receive_buf t size c = Some (Err ChannelDisconnected, bq_items (buffer c), c') /\ bq_items (buffer c') = [].
Proof.
  intros Hr Hst [Hpos Hlen]. destruct (bq_items (buffer c)) as [| m l] eqn:El; [simpl in Hpos; lia |].
  destruct size as [| size]; [lia |]. cbn [receive_buf]. destruct (call_receive_first t c m l Hr El) as (c1 & -> & Hr1 & Hi & Hs1).
  rewrite El in Hi. simpl in Hi, Hlen. destruct (receive_buf_loop_drops t size c1 [] m Hr1) as (c2 & -> & H2).
  - rewrite <- Hst. apply Hs1. by rewrite Hst.
  - rewrite Hi. lia.
  - rewrite Hi. by exists c2.
Qed.

End Props.

(** ** The one-byte channel *)

Module SimpleIpcProps.
Import SimpleIpc.

(** What the cell holds. *)
Definition holds (cell : Z) (l : list Z) : Prop :=
  match l with
  | [] => cell = 0
  | [m] => 0 <= m < 256 /\ cell = m * 256 + 1
  | _ => False
  end.

Lemma cell_full (m : Z) : 0 <= m < 256 -> Z.lor (Z.shiftl m 8 mod 65536) 1 = m * 256 + 1 /\ Z.testbit (m * 256 + 1) 0 = true /\
  Z.shiftr (m * 256 + 1) 8 mod 256 = m.
Proof.
  intros Hm. rewrite Z.shiftl_mul_pow2, Z.mod_small by (change (2 ^ 8) with 256; lia). change (2 ^ 8) with 256.
  assert (Z.land (m * 256) 1 = 0) as Hl.
  { change 1 with (Z.ones 1). rewrite Z.land_ones by lia. change (2 ^ 1) with 2. replace (m * 256) with ((m * 128) * 2) by lia. apply Z.mod_mul. lia. }
  split_and!.
  - rewrite <- Z.lxor_lor by done. symmetry. by apply Z.add_nocarry_lxor.
  - rewrite Z.bit0_odd. replace (m * 256 + 1) with (1 + 2 * (m * 128)) by lia. by rewrite Z.odd_add_mul_2.
  - rewrite Z.shiftr_div_pow2 by lia. change (2 ^ 8) with 256.
    replace (m * 256 + 1) with (1 + m * 256) by lia. rewrite Z.div_add by lia. change (1 / 256) with 0. by rewrite Z.add_0_l, Z.mod_small.
Qed.

Lemma try_send_empty (m : Z) : 0 <= m < 256 -> try_send m 0 = (Ok tt, m * 256 + 1).
Proof. intros Hm. unfold try_send, fetch_update. simpl. by destruct (cell_full m Hm) as (-> & _ & _). Qed.

Lemma try_send_full (m p : Z) : 0 <= p < 256 -> try_send m (p * 256 + 1) = (Err CAPACITY_ERR, p * 256 + 1).
Proof. intros Hp. unfold try_send, fetch_update. by destruct (cell_full p Hp) as (_ & -> & _). Qed.

Lemma try_receive_full (p : Z) : 0 <= p < 256 -> try_receive (p * 256 + 1) = (Ok p, 0).
Proof. intros Hp. unfold try_receive, fetch_update. by destruct (cell_full p Hp) as (_ & -> & ->). Qed.

Lemma try_receive_empty : try_receive 0 = (Err EMPTY_ERR, 0).
Proof. done. Qed.

(** The one-byte channel is a queue of one place: whatever order senders and receivers
    reach the cell in, an attempt to send succeeds exactly when the cell is empty and an
    attempt to receive exactly when it is full, the bytes received are the bytes sent, in
    order, and the cell holds the one that is left. *)
Theorem simple_ipc_is_one_place_queue (l : list Attempt) (cell : Z) (pending : list Z) :
  holds cell pending -> Forall (fun a => match a with TrySend m => 0 <= m < 256 | TryReceive => True end) l ->
  match attempts l cell with
  | (sent, got, cell') => exists pending', holds cell' pending' /\ pending ++ sent = got ++ pending'
  end.
Proof.
  revert cell pending. induction l as [| a l IH]; intros cell pending Hc Hl; cbn [attempts].
  - exists pending. split; [done |]. by rewrite app_nil_r.
  - apply Forall_cons in Hl as [Ha Hl]. destruct pending as [| p [| ? ?]]; simpl in Hc; [| destruct Hc as [Hp ->] | done]; destruct a as [m |].
    + subst cell. rewrite try_send_empty by done. specialize (IH (m * 256 + 1) [m] (conj Ha eq_refl) Hl).
      destruct (attempts l (m * 256 + 1)) as [[sent got] cell']. exact IH.
    + subst cell. rewrite try_receive_empty. cbv beta iota. specialize (IH 0 [] eq_refl Hl).
      destruct (attempts l 0) as [[sent got] cell']. exact IH.
    + rewrite try_send_full by done. specialize (IH (p * 256 + 1) [p] (conj Hp eq_refl) Hl).
      destruct (attempts l (p * 256 + 1)) as [[sent got] cell']. exact IH.
    + rewrite try_receive_full by done. specialize (IH 0 [] eq_refl Hl). destruct (attempts l 0) as [[sent got] cell'].
      destruct IH as (p' & H1 & H2). exists p'. split; [done |]. simpl in *. by rewrite H2.
Qed.

Lemma simple_ipc_is_one_place_queue_witness :
  match attempts [TryReceive; TrySend 200; TrySend 7; TryReceive; TrySend 9] 0 with
  | (sent, got, cell') => sent = [200; 9] /\ got = [200] /\ exists pending', holds cell' pending' /\ sent = got ++ pending'
  end.
Proof.
  pose proof (simple_ipc_is_one_place_queue [TryReceive; TrySend 200; TrySend 7; TryReceive; TrySend 9] 0 [] eq_refl) as H.
  assert (Forall (fun a => match a with TrySend m => 0 <= m < 256 | TryReceive => True end) [TryReceive; TrySend 200; TrySend 7; TryReceive; TrySend 9]) as Hl by (repeat constructor; lia).
  specialize (H Hl). revert H. vm_compute. by intros H.
Defined.

End SimpleIpcProps.

(** ** Executions *)

Module SyncDemo.

(** A list with a capacity. *)
Definition ListQueue : Type := nat * list Z.

#[export] Instance list_queue : BoundedQueue Z ListQueue := {
  bq_with_capacity n := (mpmc_capacity n, []);
  bq_push m q := if decide (length (snd q) < fst q)%nat then (Ok tt, (fst q, snd q ++ [m])) else (Err m, q);
  bq_pop q := match snd q with [] => (None, q) | m :: l => (Some m, (fst q, l)) end;
  bq_items := snd;
  bq_capacity := fst;
}.

#[export] Instance list_queue_laws : BoundedQueueLaws Z ListQueue.
Proof.
  split; try done; simpl.
  - intros m q. by destruct (decide _).
  - intros m q. by destruct (decide _).
  - intros [n [| m l]]; done.
  - intros [n [| m l]]; done.
Qed.

Definition all_runnable : States := fun _ => Runnable.

Definition start : SyncChannel Z ListQueue := new_sync_channel 2 all_runnable.

Definition after (l : list (SyncAction Z)) : SyncChannel Z ListQueue := default start (sync_actions l start).

(** Task [t] runs [n] steps. *)
Definition steps (t : TaskRef) (n : nat) : list (SyncAction Z) := replicate n (Step t).

(** Two messages fill the buffer; the third send waits, and goes through after a receive. *)
Definition busy : list (SyncAction Z) :=
  [Start 1 (CSend 10)] ++ steps 1 3 ++ [Start 1 (CSend 11)] ++ steps 1 3 ++ [Start 1 (CSend 12)] ++ steps 1 5 ++
  [Start 2 CReceive] ++ steps 2 4 ++ steps 1 4.

Lemma busy_reachable : sync_reachable 2 all_runnable (after busy).
Proof. eapply (sync_actions_reachable 2 all_runnable busy start); [apply sync_new | by vm_compute]. Qed.

Lemma sync_channel_is_fifo_witness :
  (h_pushed (after busy)).*2 = [10; 11; 12] /\ bq_items (buffer (after busy)) = [11; 12] /\
  (h_pushed (after busy)).*2 = (h_popped (after busy)).*2 ++ bq_items (buffer (after busy)).
Proof.
  destruct (sync_channel_is_fifo 2 all_runnable (after busy) busy_reachable) as [H _]. split_and!; [by vm_compute | by vm_compute | exact H].
Defined.

(** A sender finds the buffer full.  Between its test and its joining the queue, a receiver
    takes both messages; each time the queue has length 0 and nobody is woken.  The sender
    sleeps although the buffer is empty, and the receiver's next call sleeps as well. *)
Definition lost : list (SyncAction Z) :=
  [Start 1 (CSend 10)] ++ steps 1 3 ++ [Start 1 (CSend 11)] ++ steps 1 3 ++ [Start 1 (CSend 12)] ++ steps 1 4 ++
  [Start 2 CReceive] ++ steps 2 2 ++ [Start 2 CReceive] ++ steps 2 2 ++ steps 1 1 ++ [Start 2 CReceive] ++ steps 2 5.

Example sync_channel_lost_wakeup :
  let c := after lost in
  sync_actions lost start = Some c /\ bq_items (buffer c) = [] /\
  points c 1 = SwSleep 12 /\ run_states c 1 = Blocked /\ points c 2 = RwSleep /\ run_states c 2 = Blocked /\
  sync_run 1 c = None /\ sync_run 2 c = None.
Proof. split_and!; by vm_compute. Qed.

(** The last receiver is dropped between the two steps of the closure of [send]: the message
    is in the buffer, and [send] reports that the channel is disconnected.  A receiver that is
    added later receives it. *)
Definition disconnected : list (SyncAction Z) :=
  [Start 1 (CSend 10)] ++ steps 1 3 ++ [Start 1 (CSend 11)] ++ steps 1 3 ++ [Start 1 (CSend 12)] ++ steps 1 2 ++
  [Start 2 CReceive] ++ steps 2 2 ++ steps 1 1 ++ [Start 2 CDropReceiver] ++ steps 2 2 ++ steps 1 1.

Example failed_send_is_delivered :
  let c := after disconnected in
  sync_actions disconnected start = Some c /\ last (h_results c) = Some (1, SendErr 12 ChannelDisconnected) /\ bq_items (buffer c) = [11; 12].
Proof. split_and!; by vm_compute. Qed.

(** Two messages and a dropped sender. *)
Definition ended : SyncChannel Z ListQueue :=
  default start (sync_actions ([Start 1 (CSend 10)] ++ steps 1 3 ++ [Start 1 (CSend 11)] ++ steps 1 3 ++ [Start 1 CDropSender] ++ steps 1 3) start).

Example receive_buf_at_the_end :
  match receive_buf 2 10 ended with
  | Some (r, stored, c) => r = Err ChannelDisconnected /\ stored = [10; 11] /\ bq_items (buffer c) = []
  | None => False
  end.
Proof. by vm_compute. Qed.

End SyncDemo.
