(* ===== verification/Sleep.v ===== *)
(** * Sleeping tasks, wakers and the measure of time

    [kernel/sleep/src/lib.rs]: tasks that sleep until a moment, woken by the timer interrupt;
    [kernel/waker_generic/src/lib.rs] and [kernel/waker/src/lib.rs]: a waker and the blocker
    that waits for it; [kernel/scheduler/src/lib.rs]: the time between two timer ticks.

    The heap of sleepers is a list from which [pop] takes a node with the smallest resume
    time.  An instant is a 64-bit counter of the monotonic clock, of [period] femtoseconds.
    [sleep] adds its node in three accesses (the list, a read and a write of the next
    wake-up time), which [add_to_delayed_tasklist] runs together. *)

From stdpp Require Import gmap.
From S2P Require Import Prelude SchedTask EpochSched PrioritySched SchedulerApi SchedulerProps TaskState TaskProps WaitQueues.

Definition INSTANT_MAX : Z := U64_MAX.

(** ** Sleepers *)

(** What to do at the resume time: unblock a task, or wake a waker. *)
Inductive SleepAction := ActSync (t : TaskRef) | ActAsync (waker : Z).

Record SleepNode := mkSleep { resume_time : Z; action : SleepAction }.

(** A waker's flag and the task its blocker blocks. *)
Record WakerCell := mkWaker { wk_woken : bool; wk_task : TaskRef }.

Record SleepWorld := mkSW {
  DELAYED_TASKLIST : list SleepNode;
  NEXT_DELAYED_TASK_UNBLOCK_TIME : Z;
  sw_states : States;
  sw_wakers : Z -> WakerCell;
}.

Definition set_delayed (l : list SleepNode) (w : SleepWorld) : SleepWorld :=
  mkSW l (NEXT_DELAYED_TASK_UNBLOCK_TIME w) (sw_states w) (sw_wakers w).
Definition set_next_time (x : Z) (w : SleepWorld) : SleepWorld := mkSW (DELAYED_TASKLIST w) x (sw_states w) (sw_wakers w).
Definition set_sw_states (rs : States) (w : SleepWorld) : SleepWorld :=
  mkSW (DELAYED_TASKLIST w) (NEXT_DELAYED_TASK_UNBLOCK_TIME w) rs (sw_wakers w).
Definition set_waker (k : Z) (c : WakerCell) (w : SleepWorld) : SleepWorld :=
  mkSW (DELAYED_TASKLIST w) (NEXT_DELAYED_TASK_UNBLOCK_TIME w) (sw_states w) (fun x => if decide (x = k) then c else sw_wakers w x).

(** [Waker::wake_by_ref], all under the lock of the flag. *)
Definition wake (k : Z) (w : SleepWorld) : SleepWorld :=
  let t := wk_task (sw_wakers w k) in
  set_sw_states (snd (rs_unblock t (sw_states w))) (set_waker k (mkWaker true t) w).

(** [Action::act]. *)
Definition act_on (a : SleepAction) (w : SleepWorld) : outcome SleepWorld :=
  match a with
  | ActSync t =>
      match rs_unblock t (sw_states w) with
      | (Ok _, rs) => Done (set_sw_states rs w)
      | (Err _, _) => Panic
      end
  | ActAsync k => Done (wake k w)
  end.

(** The smallest resume time and the index of its first node. *)
Fixpoint min_node (l : list SleepNode) : option (nat * SleepNode) :=
  match l with
  | [] => None
  | n :: l =>
      match min_node l with
      | Some (i, m) => if resume_time m <? resume_time n then Some (S i, m) else Some (0%nat, n)
      | None => Some (0%nat, n)
      end
  end.

(** [BinaryHeap::pop] and [BinaryHeap::peek]. *)
Definition heap_pop (l : list SleepNode) : option (SleepNode * list SleepNode) :=
  match min_node l with Some (i, n) => Some (n, delete i l) | None => None end.
Definition heap_peek (l : list SleepNode) : option SleepNode := snd <$> min_node l.

(** The steps of [add_to_delayed_tasklist]: push, read the next time, store it. *)
Definition delay_push (n : SleepNode) (w : SleepWorld) : SleepWorld := set_delayed (DELAYED_TASKLIST w ++ [n]) w.
Definition delay_load (w : SleepWorld) : Z := NEXT_DELAYED_TASK_UNBLOCK_TIME w.
Definition delay_store (n : SleepNode) (next_unblock_time : Z) (w : SleepWorld) : SleepWorld :=
  if resume_time n <? next_unblock_time then set_next_time (resume_time n) w else w.

Definition add_to_delayed_tasklist (n : SleepNode) (w : SleepWorld) : SleepWorld :=
  let w := delay_push n w in delay_store n (delay_load w) w.

Definition remove_next_task_from_delayed_tasklist (w : SleepWorld) : outcome SleepWorld :=
  match heap_pop (DELAYED_TASKLIST w) with
  | None => Done w
  | Some (n, l) =>
      let* w := act_on (action n) (set_delayed l w) in
      Done (set_next_time (match heap_peek l with Some m => resume_time m | None => INSTANT_MAX end) w)
  end.

(** The loop of [unblock_sleeping_tasks]; [None] when [fuel] rounds are not enough. *)
Fixpoint unblock_loop (fuel : nat) (time : Z) (w : SleepWorld) : option (outcome SleepWorld) :=
  match fuel with
  | O => None
  | S fuel =>
      if NEXT_DELAYED_TASK_UNBLOCK_TIME w <? time then
        match remove_next_task_from_delayed_tasklist w with
        | Done w => unblock_loop fuel time w
        | Panic => Some Panic
        end
      else Some (Done w)
  end.

Definition unblock_sleeping_tasks (time : Z) (w : SleepWorld) : option (outcome SleepWorld) :=
  unblock_loop (S (length (DELAYED_TASKLIST w))) time w.

Section Clock.
Context (period : Z).

(** [Instant + Duration] and [Instant - Instant], with durations in nanoseconds. *)
Definition instant_plus (t d : Z) : outcome Z :=
  if period =? 0 then Panic
  else
  let ticks := wrap64 (d * 1000000 / period) in
  if t + ticks <=? U64_MAX then Done (t + ticks) else Panic.
Definition checked_duration_since (t earlier : Z) : option Z :=
  if earlier <=? t then Some (wrap64 ((t - earlier) * period / 1000000)) else None.

(** [sleep] of the current task [t]; it then calls [schedule]. *)
Definition sleep (t : TaskRef) (now duration : Z) (w : SleepWorld) : outcome (result unit RunState * SleepWorld) :=
  let* r := instant_plus now duration in
  let w := add_to_delayed_tasklist (mkSleep r (ActSync t)) w in
  match rs_block t (sw_states w) with
  | (Ok _, rs) => Done (Ok tt, set_sw_states rs w)
  | (Err s, rs) => Done (Err s, set_sw_states rs w)
  end.

(** The clock is read again in [sleep]. *)
Definition sleep_until (t : TaskRef) (resume now now' : Z) (w : SleepWorld) : outcome (result unit RunState * SleepWorld) :=
  if now <? resume then sleep t now' (default 0 (checked_duration_since resume now)) w else Done (Ok tt, w).

Definition future_sleep (k : Z) (now duration : Z) (w : SleepWorld) : outcome SleepWorld :=
  let* r := instant_plus now duration in
  Done (add_to_delayed_tasklist (mkSleep r (ActAsync k)) w).

(** [Poll::Ready] is [true]. *)
Definition future_sleep_until (k : Z) (resume now now' : Z) (w : SleepWorld) : outcome (bool * SleepWorld) :=
  match checked_duration_since resume now with
  | Some d => let* w := future_sleep k now' d w in Done (false, w)
  | None => Done (true, w)
  end.

End Clock.

(** ** Blockers *)

(** One round of [Blocker::block]: the flag is set and the call returns ([true]), or the task
    blocks itself under the lock and goes to [schedule]. *)
Definition blocker_round (k : Z) (w : SleepWorld) : bool * SleepWorld :=
  let c := sw_wakers w k in
  if wk_woken c then (true, set_waker k (mkWaker false (wk_task c)) w)
  else (false, set_sw_states (snd (rs_block (wk_task c) (sw_states w))) w).

(** ** The time between ticks *)

Record Tsc := mkTsc { LAST_TICK_TSC : Z; TSC_NS_PER_TICK_RECIP : Z }.

Definition tsc_init : Tsc := mkTsc 0 3.

(** [elapsed_ns_tsc] with the counter at [now]. *)
Definition elapsed_ns_tsc (now : Z) (s : Tsc) : Z * Tsc :=
  let prev := LAST_TICK_TSC s in
  let s := mkTsc now (TSC_NS_PER_TICK_RECIP s) in
  if prev =? 0 then (1000000, s)
  else (sat_sub now prev / Z.max (TSC_NS_PER_TICK_RECIP s) 1, s).

Definition calibrate_tsc (tsc_delta_per_ms : Z) (s : Tsc) : Tsc :=
  if 0 <? tsc_delta_per_ms then mkTsc (LAST_TICK_TSC s) (Z.max (tsc_delta_per_ms / 1000) 1) else s.

(** ** A blocker among other tasks *)

(** The blocker of waker [k] is asleep after a round, or its call has not started or has
    returned. *)
Record Blocking := mkBlocking { bl_world : SleepWorld; bl_asleep : bool; bl_returned : nat }.

Inductive BlockAction := BRound | BWake | BKill (t : TaskRef) (reason : KillReason) | BUnblock (t : TaskRef).

Definition block_act (k : Z) (a : BlockAction) (b : Blocking) : option Blocking :=
  let w := bl_world b in
  match a with
  | BRound =>
      if bl_asleep b && negb (bool_decide (sw_states w (wk_task (sw_wakers w k)) = Runnable)) then None
      else
        let '(woken, w) := blocker_round k w in
        Some (mkBlocking w (negb woken) (if woken then S (bl_returned b) else bl_returned b))
  | BWake => Some (mkBlocking (wake k w) (bl_asleep b) (bl_returned b))
  | BKill t reason => Some (mkBlocking (set_sw_states (rs_kill t reason (sw_states w)) w) (bl_asleep b) (bl_returned b))
  | BUnblock t => Some (mkBlocking (set_sw_states (snd (rs_unblock t (sw_states w))) w) (bl_asleep b) (bl_returned b))
  end.

Inductive block_reachable (k : Z) (w : SleepWorld) : Blocking -> Prop :=
| block_start : block_reachable k w (mkBlocking w false 0)
| block_step b a b' : block_reachable k w b -> block_act k a b = Some b' -> block_reachable k w b'.

(** ** Properties of sleeping and waking

    The timer wakes the sleepers whose time has come, all of them and nobody else, and the
    loop ends; a blocker does not miss its waker.  Then executions in which a sleeper is
    lost, the timer interrupt never ends, or panics. *)

(** ** The heap *)

Lemma min_node_spec (l : list SleepNode) :
  match min_node l with
  | Some (i, n) => l !! i = Some n /\ Forall (fun x => resume_time n <= resume_time x) l
  | None => l = []
  end.
Proof.
  induction l as [| n l IH]; [done |]. cbn [min_node]. destruct (min_node l) as [[i m] |].
  - destruct IH as [Hi Hall]. destruct (Z.ltb_spec (resume_time m) (resume_time n)).
    + split; [done |]. constructor; [lia | done].
    + split; [done |]. constructor; [lia |]. eapply Forall_impl; [exact Hall |]. simpl. lia.
  - subst l. split; [done |]. repeat constructor. lia.
Qed.

(** The next wake-up time is that of the earliest sleeper. *)
Definition next_ok (w : SleepWorld) : Prop :=
  Forall (fun n => resume_time n <= INSTANT_MAX) (DELAYED_TASKLIST w) /\
  NEXT_DELAYED_TASK_UNBLOCK_TIME w = match heap_peek (DELAYED_TASKLIST w) with Some n => resume_time n | None => INSTANT_MAX end.

Lemma add_keeps_next (n : SleepNode) (w : SleepWorld) :
  resume_time n <= INSTANT_MAX -> next_ok w -> next_ok (add_to_delayed_tasklist n w).
Proof.
  intros Hn [Hall Hnext]. unfold add_to_delayed_tasklist, delay_store, delay_load. cbn [delay_push set_delayed NEXT_DELAYED_TASK_UNBLOCK_TIME].
  assert (heap_peek (DELAYED_TASKLIST w ++ [n]) = Some (match heap_peek (DELAYED_TASKLIST w) with
    | Some m => if resume_time n <? resume_time m then n else m | None => n end)) as Hpeek.
  { clear Hall Hnext. unfold heap_peek. induction (DELAYED_TASKLIST w) as [| x l IH]; [done |]. cbn [app min_node].
    destruct (min_node (l ++ [n])) as [[i m] |]; [| done]. simpl in IH. injection IH as ->. destruct (min_node l) as [[j y] |]; simpl.
    - destruct (Z.ltb_spec (resume_time n) (resume_time y)), (Z.ltb_spec (resume_time y) (resume_time x)); simpl;
        repeat case_match; simpl; rewrite ?Z.ltb_lt, ?Z.ltb_ge in *; try (f_equal; lia); done || lia.
    - destruct (Z.ltb_spec (resume_time n) (resume_time x)); done. }
  split.
  - destruct (_ <? _); apply Forall_app; auto.
  - destruct (Z.ltb_spec (resume_time n) (NEXT_DELAYED_TASK_UNBLOCK_TIME w)) as [Hlt | Hge];
      cbn [set_next_time DELAYED_TASKLIST NEXT_DELAYED_TASK_UNBLOCK_TIME delay_push set_delayed] in *; rewrite Hpeek; rewrite Hnext in *;
      destruct (heap_peek (DELAYED_TASKLIST w)) as [m |]; simpl; try done; [destruct (Z.ltb_spec (resume_time n) (resume_time m)); [done | lia] | | lia].
    destruct (Z.ltb_spec (resume_time n) (resume_time m)); [lia | done].
Qed.

(** ** Waking *)

(** The task an action makes runnable. *)
Definition target (w : SleepWorld) (a : SleepAction) : TaskRef :=
  match a with ActSync t => t | ActAsync k => wk_task (sw_wakers w k) end.

Definition resumed (w : SleepWorld) (a : SleepAction) : Prop :=
  match a with ActSync t => sw_states w t = Runnable | ActAsync k => wk_woken (sw_wakers w k) = true end.

(** What waking keeps: tasks that can run stay so, those awake stay awake, flags stay set,
    wakers keep their tasks. *)
Record wakes_only (w w' : SleepWorld) (who : TaskRef -> Prop) : Prop := {
  wo_can : forall t, can_wake (sw_states w') t = can_wake (sw_states w) t;
  wo_run : forall t, sw_states w t = Runnable -> sw_states w' t = Runnable;
  wo_flag : forall k, wk_woken (sw_wakers w k) = true -> wk_woken (sw_wakers w' k) = true;
  wo_task : forall k, wk_task (sw_wakers w' k) = wk_task (sw_wakers w k);
  wo_other : forall t, ~ who t -> sw_states w' t = sw_states w t;
}.

Lemma unblock_wakes (t : TaskRef) (rs : States) :
  (forall x, can_wake (snd (rs_unblock t rs)) x = can_wake rs x) /\ (forall x, rs x = Runnable -> snd (rs_unblock t rs) x = Runnable) /\
  (forall x, x <> t -> snd (rs_unblock t rs) x = rs x).
Proof.
  rewrite rs_unblock_cases. destruct (can_wake rs t) eqn:E; cbn [snd]; [| done]. split_and!.
  - intros x. by apply can_wake_task_upd.
  - intros x Hx. destruct (decide (x = t)) as [-> | Hne]; [by rewrite task_upd_eq | by rewrite task_upd_ne].
  - intros x Hne. by rewrite task_upd_ne.
Qed.

Lemma act_on_ok (a : SleepAction) (w : SleepWorld) :
  (forall t, a = ActSync t -> can_wake (sw_states w) t = true) ->
  exists w', act_on a w = Done w' /\ wakes_only w w' (fun t => t = target w a) /\ resumed w' a /\
    DELAYED_TASKLIST w' = DELAYED_TASKLIST w /\ NEXT_DELAYED_TASK_UNBLOCK_TIME w' = NEXT_DELAYED_TASK_UNBLOCK_TIME w.
Proof.
  intros Hcan. destruct a as [t | k]; cbn [act_on target].
  - destruct (unblock_wakes t (sw_states w)) as (H1 & H2 & H3). rewrite rs_unblock_cases in *. rewrite (Hcan t eq_refl) in *.
    eexists. split; [done |]. split; [by split | split; [simpl; by rewrite task_upd_eq | done]].
  - destruct (unblock_wakes (wk_task (sw_wakers w k)) (sw_states w)) as (H1 & H2 & H3). eexists. split; [done |].
    split; [split; try done; simpl; intros x; destruct (decide (x = k)) as [-> |]; done |].
    split; [simpl; by rewrite decide_True | done].
Qed.

Lemma wakes_trans (w1 w2 w3 : SleepWorld) (p q : TaskRef -> Prop) :
  wakes_only w1 w2 p -> wakes_only w2 w3 q -> wakes_only w1 w3 (fun t => p t \/ q t).
Proof.
  intros [A1 A2 A3 A4 A5] [B1 B2 B3 B4 B5]. split; auto.
  - intros t. by rewrite B1.
  - intros k. by rewrite B4.
  - intros t Hn. rewrite B5, A5; tauto.
Qed.

Lemma resumed_stays (w w' : SleepWorld) p a : wakes_only w w' p -> resumed w a -> resumed w' a.
Proof. intros [A1 A2 A3 A4 A5]. destruct a; simpl; auto. Qed.

(** The earliest sleeper is taken off the list and woken. *)
Lemma remove_next_ok (w : SleepWorld) (n : SleepNode) :
  next_ok w -> heap_peek (DELAYED_TASKLIST w) = Some n -> (forall t, action n = ActSync t -> can_wake (sw_states w) t = true) ->
  exists w', remove_next_task_from_delayed_tasklist w = Done w' /\ next_ok w' /\
    Permutation (DELAYED_TASKLIST w) (n :: DELAYED_TASKLIST w') /\ wakes_only w w' (fun t => t = target w (action n)) /\ resumed w' (action n).
Proof.
  intros [Hall Hnext] Hpeek Hcan. unfold remove_next_task_from_delayed_tasklist, heap_pop. pose proof (min_node_spec (DELAYED_TASKLIST w)) as Hmin.
  unfold heap_peek in Hpeek. destruct (min_node (DELAYED_TASKLIST w)) as [[i m] |]; [| done]. injection Hpeek as ->. destruct Hmin as [Hi _].
  destruct (act_on_ok (action n) (set_delayed (delete i (DELAYED_TASKLIST w)) w) Hcan) as (w' & -> & Hw & Hr & Hd & Hn). cbn [outcome_bind].
  eexists. split; [done |]. assert (Permutation (DELAYED_TASKLIST w) (n :: DELAYED_TASKLIST w')) as Hp.
  { rewrite Hd. simpl. by apply delete_Permutation. }
  split; [| split; [done |]].
  - split; cbn [set_next_time DELAYED_TASKLIST NEXT_DELAYED_TASK_UNBLOCK_TIME].
    + rewrite Hp in Hall. by apply Forall_cons in Hall as [_ Hall].
    + by rewrite Hd.
  - destruct Hw as [A1 A2 A3 A4 A5]. split; [by split | by destruct (action n)].
Qed.

Lemma filter_later (l : list SleepNode) (time : Z) :
  (forall x, x ∈ l -> time <= resume_time x) -> filter (fun n => time <= resume_time n) l = l.
Proof.
  induction l as [| x l IH]; intros H; [done |]. rewrite filter_cons_True by (apply H; by left). rewrite IH; [done |].
  intros y Hy. apply H. by right.
Qed.

(** The sleepers whose time has come. *)
Definition due (time : Z) (n : SleepNode) : Prop := resume_time n < time.

Lemma unblock_loop_ok (fuel : nat) (time : Z) (w : SleepWorld) :
  next_ok w -> time <= INSTANT_MAX -> (length (DELAYED_TASKLIST w) < fuel)%nat ->
  (forall n t, n ∈ DELAYED_TASKLIST w -> due time n -> action n = ActSync t -> can_wake (sw_states w) t = true) ->
  exists w', unblock_loop fuel time w = Some (Done w') /\ next_ok w' /\
    Permutation (DELAYED_TASKLIST w') (filter (fun n => time <= resume_time n) (DELAYED_TASKLIST w)) /\
    (forall n, n ∈ DELAYED_TASKLIST w -> due time n -> resumed w' (action n)) /\
    wakes_only w w' (fun t => exists n, n ∈ DELAYED_TASKLIST w /\ due time n /\ target w (action n) = t).
Proof.
  revert w. induction fuel as [| fuel IH]; intros w Hok Htime Hlen Hcan; [lia |]. cbn [unblock_loop]. pose proof Hok as [Hall Hnext].
  pose proof (min_node_spec (DELAYED_TASKLIST w)) as Hmin. destruct (heap_peek (DELAYED_TASKLIST w)) as [n |] eqn:Hpeek.
  2: { unfold heap_peek in Hpeek. destruct (min_node (DELAYED_TASKLIST w)); [done |]. rewrite Hnext.
    destruct (Z.ltb_spec INSTANT_MAX time); [lia |]. exists w. rewrite Hmin. split_and!; try done.
    - intros n Hn. by apply elem_of_nil in Hn. }
  unfold heap_peek in Hpeek. destruct (min_node (DELAYED_TASKLIST w)) as [[i m] |] eqn:Em; [| done]. injection Hpeek as ->.
  destruct Hmin as [Hi Hle]. rewrite Forall_forall in Hle. rewrite Hnext. destruct (Z.ltb_spec (resume_time n) time) as [Hdue | Hnot].
  - assert (n ∈ DELAYED_TASKLIST w) as Hin by (by eapply list_elem_of_lookup_2).
    destruct (remove_next_ok w n Hok) as (w1 & -> & Hok1 & Hp & Hw1 & Hr1); [unfold heap_peek; by rewrite Em | eauto |].
    destruct (IH w1 Hok1 Htime) as (w2 & -> & Hok2 & Hp2 & Hr2 & Hw2).
    + rewrite (Permutation_length Hp) in Hlen. simpl in Hlen. lia.
    + intros n' t Hn' Hd Ha. rewrite (wo_can _ _ _ Hw1). eapply Hcan; [| done | done]. rewrite Hp. by right.
    + exists w2. split_and!; [done | done | | |].
      * rewrite Hp2, Hp, filter_cons_False by lia. done.
      * intros x Hx Hd. rewrite Hp in Hx. apply elem_of_cons in Hx as [-> | Hx]; [by eapply resumed_stays | auto].
      * destruct (wakes_trans _ _ _ _ _ Hw1 Hw2) as [B1 B2 B3 B4 B5]. split; auto. intros t Hn. apply B5. intros [-> | (x & Hx & Hd & <-)].
        -- apply Hn. by exists n.
        -- apply Hn. exists x. split; [rewrite Hp; by right | split; [done |]]. destruct (action x); simpl; [done | by rewrite (wo_task _ _ _ Hw1)].
  - exists w. split_and!; [done | done | | |].
    + rewrite filter_later; [done |]. intros x Hx. specialize (Hle x Hx). lia.
    + intros x Hx Hd. specialize (Hle x Hx). unfold due in Hd. lia.
    + done.
Qed.

(** ** Theorems *)

(** C33: The timer interrupt wakes exactly the sleepers whose time has come, and ends.  When
    the next wake-up time is that of the earliest sleeper and no sleeper that is due has
    exited, [unblock_sleeping_tasks] returns after at most one round per sleeper; every
    sleeper that is due is runnable or its waker set, the others are still on the list, tasks
    that no due sleeper concerns keep their run state, and the next wake-up time is again
    that of the earliest sleeper. *)
Theorem timer_wakes_due_sleepers (time : Z) (w : SleepWorld) :
  next_ok w -> time <= INSTANT_MAX ->
  (forall n t, n ∈ DELAYED_TASKLIST w -> due time n -> action n = ActSync t -> can_wake (sw_states w) t = true) ->
  exists w', unblock_sleeping_tasks time w = Some (Done w') /\ next_ok w' /\
    Permutation (DELAYED_TASKLIST w') (filter (fun n => time <= resume_time n) (DELAYED_TASKLIST w)) /\
    (forall n, n ∈ DELAYED_TASKLIST w -> due time n -> resumed w' (action n)) /\
    (forall t, (forall n, n ∈ DELAYED_TASKLIST w -> due time n -> target w (action n) <> t) -> sw_states w' t = sw_states w t).
Proof.
  intros Hok Htime Hcan. destruct (unblock_loop_ok (S (length (DELAYED_TASKLIST w))) time w Hok Htime ltac:(lia) Hcan)
    as (w' & H1 & H2 & H3 & H4 & [_ _ _ _ H5]).
  exists w'. split_and!; auto. intros t Ht. apply H5. intros (n & Hn & Hd & <-). by apply (Ht n).
Qed.

(** C34: A blocker does not miss its waker: however wakes, rounds of the blocker, other
    wake-ups and kills interleave, when the flag of the waker is set the sleeping blocker is
    not blocked, so that it runs again unless it was killed, and its next round returns. *)
Theorem blocker_misses_no_wake (k : Z) (w : SleepWorld) (b : Blocking) :
  block_reachable k w b -> bl_asleep b = true -> wk_woken (sw_wakers (bl_world b) k) = true ->
  sw_states (bl_world b) (wk_task (sw_wakers (bl_world b) k)) <> Blocked /\ fst (blocker_round k (bl_world b)) = true.
Proof.
  intros Hr Hs Hw. split; [| unfold blocker_round; by rewrite Hw]. revert Hs Hw.
  induction Hr as [| b a b' Hr IH Hact]; [done |]. destruct b as [w0 asleep ret]. destruct a as [| | t reason | t]; cbn [block_act bl_world bl_asleep bl_returned] in *.
  - destruct (_ && _); [done |]. unfold blocker_round in Hact. destruct (wk_woken (sw_wakers w0 k)) eqn:Ew; injection Hact as <-; simpl; [done |].
    intros _. by rewrite Ew.
  - injection Hact as <-. simpl. rewrite decide_True by done. cbn [wk_task]. intros _ _. rewrite rs_unblock_cases.
    destruct (can_wake (sw_states w0) (wk_task (sw_wakers w0 k))) eqn:Ec; cbn [snd]; [by rewrite task_upd_eq |].
    intros Hb. unfold can_wake in Ec. by rewrite Hb in Ec.
  - injection Hact as <-. simpl. intros Hs Hw Hb. apply (IH Hs Hw). revert Hb. unfold rs_kill.
    destruct (sw_states w0 t) eqn:Et; try done; (destruct (decide (wk_task (sw_wakers w0 k) = t)) as [-> | Hne]; [by rewrite task_upd_eq | by rewrite task_upd_ne]).
  - injection Hact as <-. simpl. intros Hs Hw Hb. apply (IH Hs Hw). revert Hb. rewrite rs_unblock_cases.
    destruct (can_wake (sw_states w0) t); cbn [snd]; [| done].
    destruct (decide (wk_task (sw_wakers w0 k) = t)) as [-> | Hne]; [by rewrite task_upd_eq | by rewrite task_upd_ne].
Qed.

(** ** Executions *)

Module SleepDemo.

Definition no_waker : Z -> WakerCell := fun _ => mkWaker false 9.

Definition blocked_two : States := fun t => if decide (t = 1 \/ t = 2) then Blocked else Runnable.

(** Tasks 1 and 2 sleep until 10 and 30, waker 0 until 20. *)
Definition three : SleepWorld :=
  mkSW [mkSleep 30 (ActSync 2); mkSleep 10 (ActSync 1); mkSleep 20 (ActAsync 0)] 10 blocked_two no_waker.

Lemma three_ok : next_ok three.
Proof. split; [repeat constructor; by vm_compute | done]. Qed.

Lemma timer_wakes_due_sleepers_witness :
  exists w', unblock_sleeping_tasks 25 three = Some (Done w') /\ next_ok w' /\
    Permutation (DELAYED_TASKLIST w') (filter (fun n => 25 <= resume_time n) (DELAYED_TASKLIST three)) /\
    (forall n, n ∈ DELAYED_TASKLIST three -> due 25 n -> resumed w' (action n)) /\
    (forall t, (forall n, n ∈ DELAYED_TASKLIST three -> due 25 n -> target three (action n) <> t) -> sw_states w' t = sw_states three t).
Proof.
  apply (timer_wakes_due_sleepers 25 three three_ok); [by vm_compute |].
  intros n t Hn _ Ha. cbn [three DELAYED_TASKLIST] in Hn. rewrite !elem_of_cons in Hn. destruct Hn as [-> | [-> | [-> | Hn]]]; try discriminate Ha.
  - injection Ha as <-. by vm_compute.
  - injection Ha as <-. by vm_compute.
  - by apply elem_of_nil in Hn.
Defined.

Example three_at_25 :
  match unblock_sleeping_tasks 25 three with
  | Some (Done w) => DELAYED_TASKLIST w = [mkSleep 30 (ActSync 2)] /\ NEXT_DELAYED_TASK_UNBLOCK_TIME w = 30 /\
      sw_states w 1 = Runnable /\ sw_states w 2 = Blocked /\ wk_woken (sw_wakers w 0) = true
  | _ => False
  end.
Proof. by vm_compute. Qed.

(** The blocker of waker 0 goes to sleep and is woken. *)
Definition sleeper : SleepWorld := mkSW [] INSTANT_MAX (fun _ => Runnable) no_waker.

Definition asleep_then_woken : Blocking :=
  mkBlocking (wake 0 (snd (blocker_round 0 sleeper))) true 0.

Lemma asleep_then_woken_reachable : block_reachable 0 sleeper asleep_then_woken.
Proof.
  apply (block_step 0 sleeper (mkBlocking (snd (blocker_round 0 sleeper)) true 0) BWake); [| done].
  apply (block_step 0 sleeper (mkBlocking sleeper false 0) BRound); [apply block_start | done].
Qed.

Lemma blocker_misses_no_wake_witness :
  sw_states (bl_world asleep_then_woken) 9 <> Blocked /\ fst (blocker_round 0 (bl_world asleep_then_woken)) = true.
Proof. apply (blocker_misses_no_wake 0 sleeper asleep_then_woken asleep_then_woken_reachable); by vm_compute. Defined.

(** ** Interleavings of [sleep] and the timer *)

(** Task 1 has pushed its node (resume time 50) and is preempted before it reads the next
    wake-up time.  At 60 the timer, due for another sleeper, takes both nodes off the list
    and resets the time to the maximum; then task 1 stores 50. *)
Definition preempted : SleepWorld := mkSW [mkSleep 40 (ActSync 2)] 40 blocked_two no_waker.

Definition stale : option SleepWorld :=
  let n := mkSleep 50 (ActSync 1) in
  match unblock_sleeping_tasks 60 (set_sw_states (fun t => if decide (t = 2) then Blocked else Runnable) (delay_push n preempted)) with
  | Some (Done w) => Some (delay_store n (delay_load w) w)
  | _ => None
  end.

(** The list is empty, but the next wake-up time is 50: from then on the loop of the timer
    interrupt never ends. *)
Lemma empty_list_loops (w : SleepWorld) (fuel : nat) (time : Z) :
  DELAYED_TASKLIST w = [] -> NEXT_DELAYED_TASK_UNBLOCK_TIME w < time -> unblock_loop fuel time w = None.
Proof.
  intros Hl Ht. induction fuel as [| fuel IH]; [done |]. cbn [unblock_loop].
  destruct (Z.ltb_spec (NEXT_DELAYED_TASK_UNBLOCK_TIME w) time); [| lia].
  unfold remove_next_task_from_delayed_tasklist. rewrite Hl. exact IH.
Qed.

Example timer_never_ends :
  exists w, stale = Some w /\ DELAYED_TASKLIST w = [] /\ NEXT_DELAYED_TASK_UNBLOCK_TIME w = 50 /\
    forall fuel time, 50 < time -> unblock_loop fuel time w = None.
Proof.
  eexists. split; [reflexivity |]. split; [by vm_compute |]. split; [by vm_compute |].
  intros fuel time Ht. apply empty_list_loops; [by vm_compute | exact Ht].
Qed.

(** The timer runs after the node of a short sleep is added and before the task blocks: the
    node is gone when the task blocks, and nothing is left to wake it. *)
Example short_sleep_is_lost :
  match unblock_sleeping_tasks 60 (add_to_delayed_tasklist (mkSleep 50 (ActSync 1)) sleeper) with
  | Some (Done w) =>
      let w := set_sw_states (snd (rs_block 1 (sw_states w))) w in
      sw_states w 1 = Blocked /\ DELAYED_TASKLIST w = [] /\ NEXT_DELAYED_TASK_UNBLOCK_TIME w = INSTANT_MAX
  | _ => False
  end.
Proof. by vm_compute. Qed.

(** Killing a task while it sleeps makes the timer interrupt panic when its time comes. *)
Example killed_sleeper_panics :
  unblock_sleeping_tasks 25 (set_sw_states (rs_kill 1 KRequested (sw_states three)) three) = Some Panic.
Proof. by vm_compute. Qed.

(** A 3 GHz counter is calibrated with 3000000 ticks per millisecond.  A millisecond later
    1000 nanoseconds are measured instead of 1000000. *)
Example calibrated_tick_is_short :
  let s := mkTsc 1000 3 in
  fst (elapsed_ns_tsc 3001000 s) = 1000000 /\ fst (elapsed_ns_tsc 3001000 (calibrate_tsc 3000000 s)) = 1000.
Proof. by vm_compute. Qed.

End SleepDemo.
