(* ===== verification/Partitions.v ===== *)
(** * Partitions of a storage device

    [kernel/partition_table/src/lib.rs]: the partition tables of a device, in the legacy
    (MBR) and in the GPT format; [kernel/partition_device/src/lib.rs]: a partition as a block
    device of its own.

    Several partitions share one disk (behind an [Arc<Mutex<_>>]), so the operations of a
    partition take the disk and return it; a partition that has the disk to itself is an
    instance of [BlockIO] and keeps its laws.

    Names are lists of Unicode scalar values. *)

From stdpp Require Import gmap pretty.
From S2P Require Import Prelude Io IoSpec BlockCache BlockCacheSpec StorageProps.

(** ** Little-endian fields *)

Definition byte_at (buf : list Z) (i : Z) : outcome Z := if 0 <=? i then expect (buf !! Z.to_nat i) else Panic.

(** The bytes are indexed one by one, which fails when one of them is out of range. *)
Definition read_le_u16 (buf : list Z) (offset : Z) : outcome Z :=
  let* l := slice buf offset (offset + 2) in Done (le_value l).
Definition read_le_u32 (buf : list Z) (offset : Z) : outcome Z :=
  let* l := slice buf offset (offset + 4) in Done (le_value l).
Definition read_le_u64 (buf : list Z) (offset : Z) : outcome Z :=
  let* l := slice buf offset (offset + 8) in Done (le_value l).

(** ** Tables *)

Inductive PartitionType := MbrType (b : Z) | GptType (guid : list Z).

Record PartitionInfo := mkPart {
  pi_index : Z;
  pi_start_lba : Z;
  pi_size_sectors : Z;
  pi_type : PartitionType;
  pi_name : list Z;
}.

Definition MBR_SIGNATURE : Z := 0xAA55.
Definition MBR_TYPE_PROTECTIVE : Z := 0xEE.
(** "EFI PART". *)
Definition GPT_SIGNATURE : list Z := [69; 70; 73; 32; 80; 65; 82; 84].
Definition MBR_ENTRY_OFFSETS : list Z := [446; 462; 478; 494].

Definition text (s : string) : list Z := (fun c => Z.of_N (Ascii.N_of_ascii c)) <$> String.list_ascii_of_string s.

(** [format!("Partition {}", idx)]. *)
Definition mbr_name (idx : Z) : list Z := text ("Partition " +:+ pretty idx).

Inductive MbrResult := Protective | MbrPartitions (l : list PartitionInfo) | NoMbr.

(** The loop over the four entries: the partitions so far, and whether one is protective. *)
Fixpoint mbr_loop (sector : list Z) (offsets : list Z) (idx : Z) (partitions : list PartitionInfo) (has_protective : bool)
    : outcome (list PartitionInfo * bool) :=
  match offsets with
  | [] => Done (partitions, has_protective)
  | offset :: offsets =>
      let* entry := slice sector offset (offset + 16) in
      let* ptype := byte_at entry 4 in
      if ptype =? 0 then mbr_loop sector offsets (idx + 1) partitions has_protective
      else if ptype =? MBR_TYPE_PROTECTIVE then mbr_loop sector offsets (idx + 1) partitions true
      else
        let* lba_start := read_le_u32 entry 8 in
        let* sector_count := read_le_u32 entry 12 in
        mbr_loop sector offsets (idx + 1)
          (partitions ++ [mkPart idx lba_start sector_count (MbrType ptype) (mbr_name idx)]) has_protective
  end.

Definition parse_mbr (sector : list Z) : outcome MbrResult :=
  if Z.of_nat (length sector) <? 512 then Done NoMbr
  else
    let* sig := read_le_u16 sector 510 in
    if negb (sig =? MBR_SIGNATURE) then Done NoMbr
    else
      let* (partitions, has_protective) := mbr_loop sector MBR_ENTRY_OFFSETS 0 [] false in
      Done (if has_protective : bool then Protective
            else match partitions with [] => NoMbr | _ => MbrPartitions partitions end).

(** [String::from_utf16_lossy]: a surrogate without its partner becomes U+FFFD. *)
Definition is_high (c : Z) : bool := (0xD800 <=? c) && (c <=? 0xDBFF).
Definition is_low (c : Z) : bool := (0xDC00 <=? c) && (c <=? 0xDFFF).
Fixpoint from_utf16_lossy (l : list Z) : list Z :=
  match l with
  | [] => []
  | c :: l1 =>
      if is_high c then
        match l1 with
        | d :: l2 =>
            if is_low d then (0x10000 + (c - 0xD800) * 1024 + (d - 0xDC00)) :: from_utf16_lossy l2
            else 0xFFFD :: from_utf16_lossy l1
        | [] => [0xFFFD]
        end
      else (if is_low c then 0xFFFD else c) :: from_utf16_lossy l1
  end.

(** The code units up to the first zero. *)
Fixpoint name_units (raw : list Z) : list Z :=
  match raw with
  | lo :: hi :: raw => let c := lo + 256 * hi in if c =? 0 then [] else c :: name_units raw
  | _ => []
  end.

Definition parse_gpt_name (raw : list Z) : list Z := from_utf16_lossy (name_units raw).

Definition VEC_MAX : Z := 9223372036854775807.

Section Tables.
Context {D : Type} {bio : BlockIO D}.

(** [vec![0; n]] fails when [n] is more than a buffer can have. *)
Definition read_sectors (device : D) (lba num_sectors : Z) : outcome (result (list Z) IoError * D) :=
  let total_bytes := wrap64 (num_sectors * block_size device) in
  if VEC_MAX <? total_bytes then Panic
  else
    let* (r, buf, device) := read_blocks device (replicate (Z.to_nat total_bytes) 0) lba in
    Done (match r with Ok _ => Ok buf | Err e => Err e end, device).

(** The entries from number [i] on, [n] of them left. *)
Fixpoint gpt_loop (entries_data : list Z) (entry_sz : Z) (n : nat) (i : Z) (partitions : list PartitionInfo)
    : outcome (list PartitionInfo) :=
  match n with
  | O => Done partitions
  | S n =>
      let base := i * entry_sz in
      if Z.of_nat (length entries_data) <? base + entry_sz then Done partitions
      else
        let* entry := slice entries_data base (base + entry_sz) in
        let* type_guid := slice entry 0 16 in
        if bool_decide (type_guid = replicate 16 0) then gpt_loop entries_data entry_sz n (i + 1) partitions
        else
          let* _ := slice entry 16 32 in
          let* first_lba := read_le_u64 entry 32 in
          let* last_lba := read_le_u64 entry 40 in
          let* _ := read_le_u64 entry 48 in
          let* raw := slice entry 56 (Z.min entry_sz 128) in
          let size_sectors := if first_lba <=? last_lba then wrap64 (last_lba - first_lba + 1) else 0 in
          gpt_loop entries_data entry_sz n (i + 1)
            (partitions ++ [mkPart (Z.of_nat (length partitions)) first_lba size_sectors (GptType type_guid) (parse_gpt_name raw)])
  end.

(** The fields of the header that are only logged are read too. *)
Definition parse_gpt (device : D) (bs : Z) : outcome (list PartitionInfo * D) :=
  let* (r, device) := read_sectors device 1 1 in
  match r with
  | Err _ => Done ([], device)
  | Ok header_sector =>
      let* sig := slice header_sector 0 8 in
      if negb (bool_decide (sig = GPT_SIGNATURE)) then Done ([], device)
      else
        let* _ := read_le_u32 header_sector 8 in
        let* _ := read_le_u32 header_sector 12 in
        let* _ := read_le_u64 header_sector 24 in
        let* _ := read_le_u64 header_sector 40 in
        let* _ := read_le_u64 header_sector 48 in
        let* _ := slice header_sector 56 72 in
        let* partition_entries_lba := read_le_u64 header_sector 72 in
        let* num_partition_entries := read_le_u32 header_sector 80 in
        let* partition_entry_size := read_le_u32 header_sector 84 in
        if (partition_entry_size =? 0) || (num_partition_entries =? 0) then Done ([], device)
        else
          let total_entries_bytes := wrap64 (num_partition_entries * partition_entry_size) in
          let sectors_needed := wrap64 (total_entries_bytes + bs - 1) / bs in
          let* (r, device) := read_sectors device partition_entries_lba sectors_needed in
          match r with
          | Err _ => Done ([], device)
          | Ok entries_data =>
              let* partitions := gpt_loop entries_data partition_entry_size (Z.to_nat num_partition_entries) 0 [] in
              Done (partitions, device)
          end
  end.

Definition detect_partitions (device : D) : outcome (list PartitionInfo * D) :=
  let bs := block_size device in
  let* (r, device) := read_sectors device 0 1 in
  match r with
  | Err _ => Done ([], device)
  | Ok sector0 =>
      let* m := parse_mbr sector0 in
      match m with
      | Protective => parse_gpt device bs
      | MbrPartitions parts => Done (parts, device)
      | NoMbr => Done ([], device)
      end
  end.

(** ** Partition devices *)

Record PartitionDevice := mkPD { pd_start_lba : Z; pd_sector_count : Z; pd_block_size : Z }.

Definition partition_new (disk : D) (start_lba sector_count : Z) : PartitionDevice :=
  mkPD start_lba sector_count (block_size disk).

(** Whether the request passes the check of [read_blocks] and [write_blocks]. *)
Definition beyond (p : PartitionDevice) (buf : list Z) (block_offset : Z) : outcome bool :=
  if pd_block_size p =? 0 then Panic
  else
    let blocks_requested := Z.of_nat (length buf) / pd_block_size p in
    Done (pd_sector_count p <? wrap64 (block_offset + blocks_requested)).

Definition partition_read (p : PartitionDevice) (disk : D) (buf : list Z) (block_offset : Z)
    : outcome (result Z IoError * list Z * D) :=
  let* b := beyond p buf block_offset in
  if b : bool then Done (Err (Other "PartitionDevice: read beyond partition boundary"), buf, disk)
  else read_blocks disk buf (wrap64 (pd_start_lba p + block_offset)).

Definition partition_write (p : PartitionDevice) (disk : D) (buf : list Z) (block_offset : Z)
    : outcome (result Z IoError * D) :=
  let* b := beyond p buf block_offset in
  if b : bool then Done (Err (Other "PartitionDevice: write beyond partition boundary"), disk)
  else write_blocks disk buf (wrap64 (pd_start_lba p + block_offset)).

Definition partition_flush (p : PartitionDevice) (disk : D) : outcome (result unit IoError * D) := flush_blocks disk.

Definition partition_len (p : PartitionDevice) : Z := wrap64 (pd_sector_count p * pd_block_size p).

(** A partition with its disk. *)
Record Partition := mkPartition { pt_part : PartitionDevice; pt_disk : D }.

#[export] Instance partition_io : BlockIO Partition := {|
  block_size x := pd_block_size (pt_part x);
  io_len x := partition_len (pt_part x);
  size_in_blocks x := pd_sector_count (pt_part x);
  read_blocks x buf off :=
    let* (r, buf, d) := partition_read (pt_part x) (pt_disk x) buf off in Done (r, buf, mkPartition (pt_part x) d);
  write_blocks x buf off :=
    let* (r, d) := partition_write (pt_part x) (pt_disk x) buf off in Done (r, mkPartition (pt_part x) d);
  flush_blocks x := let* (r, d) := partition_flush (pt_part x) (pt_disk x) in Done (r, mkPartition (pt_part x) d);
|}.

End Tables.

Arguments Partition D : clear implicits.

(** ** A partition is a block device *)

Lemma seg_shift (f : Z -> Z) (s a n : Z) : seg f (s + a) n = seg (fun i => f (s + i)) a n.
Proof. unfold seg. by rewrite <- fmap_add_seqZ, <- list_fmap_compose. Qed.

Lemma upd_shift (f : Z -> Z) (s a i : Z) (l : list Z) : upd f (s + a) l (s + i) = upd (fun i => f (s + i)) a l i.
Proof. unfold upd. replace (s + i - (s + a)) with (i - a) by lia. case_cmp; try lia; done. Qed.

Section PartitionLaws.
Context {D : Type} {bio : BlockIO D} {laws : BlockIOLaws D}.

(** The partition was made for this disk and is addressable on it. *)
Definition part_fits (p : PartitionDevice) (d : D) : Prop :=
  pd_block_size p = block_size d /\ 0 <= pd_start_lba p /\ 0 <= pd_sector_count p /\
  (pd_start_lba p + pd_sector_count p) * block_size d <= U64_MAX.

(** The bytes of the disk that belong to the partition start and end here. *)
Definition part_start (p : PartitionDevice) : Z := pd_start_lba p * pd_block_size p.
Definition part_end (p : PartitionDevice) : Z := (pd_start_lba p + pd_sector_count p) * pd_block_size p.

Lemma part_fits_geometry (p : PartitionDevice) (d d' : D) : same_geometry d d' -> part_fits p d -> part_fits p d'.
Proof. unfold part_fits. intros (-> & _ & _). done. Qed.

(** A buffer of [n] blocks at block [off]; the number of the block behind it has 64 bits. *)
Definition request (p : PartitionDevice) (buf : list Z) (off n : Z) : Prop :=
  0 <= off /\ 0 <= n /\ Z.of_nat (length buf) = n * pd_block_size p /\ off + n <= U64_MAX.

Lemma block_buffer_request (p : PartitionDevice) (d : D) (buf : list Z) (off n : Z) :
  0 < block_size d -> pd_block_size p = block_size d -> block_buffer d buf off n -> request p buf off n.
Proof. intros Hpos Eb (Ho & Hn & Hl & Hm). split; [done |]. split; [done |]. rewrite Eb. split; [done | nia]. Qed.

Lemma beyond_request (p : PartitionDevice) (buf : list Z) (off n : Z) :
  0 < pd_block_size p -> request p buf off n -> beyond p buf off = Done (pd_sector_count p <? off + n).
Proof.
  intros Hpos (Ho & Hn & Hl & Hm). unfold beyond. rewrite (proj2 (Z.eqb_neq _ _)) by lia. rewrite Hl, Z.div_mul by lia.
  unfold wrap64. rewrite Z.mod_small; [done |]. unfold U64_MAX in Hm. lia.
Qed.

(** A request that passes the check is one of the disk, within the partition. *)
Lemma request_inside (p : PartitionDevice) (d : D) (buf : list Z) (off n : Z) :
  0 < block_size d -> part_fits p d -> request p buf off n -> off + n <= pd_sector_count p ->
  wrap64 (pd_start_lba p + off) = pd_start_lba p + off /\ block_buffer d buf (pd_start_lba p + off) n /\
  part_start p <= (pd_start_lba p + off) * block_size d /\ (pd_start_lba p + off + n) * block_size d <= part_end p.
Proof.
  intros Hpos (Eb & Hs & Hc & Hm) (Ho & Hn & Hl & Hr) Hin. unfold part_start, part_end, block_buffer, U64_MAX in *. rewrite Eb in *.
  split; [unfold wrap64; rewrite Z.mod_small; [done |]; nia |]. split; [split_and!; [lia | lia | done | nia] |]. split; nia.
Qed.

Definition partition_bytes (x : Partition D) (i : Z) : Z := io_bytes (pt_disk x) (part_start (pt_part x) + i).

#[export] Program Instance partition_laws : BlockIOLaws (Partition D) := {|
  io_inv x := io_inv (pt_disk x) /\ part_fits (pt_part x) (pt_disk x);
  io_bytes := partition_bytes;
|}.
Next Obligation. intros [p d] [Hd (Eb & _)]. cbn in *. rewrite Eb. by apply block_size_pos. Qed.
Next Obligation.
  intros [p d] buf off n [Hd Hf] Hb. cbn in Hd, Hf. pose proof (block_size_pos d Hd) as Hpos. pose proof Hf as (Eb & _).
  assert (request p buf off n) as Hq by (apply (block_buffer_request p d); [done | done | cbv [block_buffer] in *; cbn in Hb; by rewrite <- Eb]). cbn [read_blocks partition_io pt_part pt_disk]. unfold partition_read.
  rewrite (beyond_request p buf off n) by (done || lia). cbn [outcome_bind]. destruct (Z.ltb_spec (pd_sector_count p) (off + n)) as [Hlt | Hin].
  - cbn [outcome_bind]. eexists _, _, _. split; [done |]. done.
  - destruct (request_inside p d buf off n Hpos Hf Hq Hin) as (-> & Hbuf & _).
    destruct (read_law d buf (pd_start_lba p + off) n Hd Hbuf) as (r & buf' & d' & -> & Hd' & Hg & Hc & Hl & Hr). cbn [outcome_bind].
    eexists _, _, _. split; [done |]. split; [split; [done | by eapply part_fits_geometry] |].
    split; [done |]. split; [intros i; apply Hc |]. split; [done |]. destruct r as [k |]; [| done]. destruct Hr as [-> ->]. split; [done |].
    cbn [block_size partition_io pt_part]. rewrite Eb. unfold partition_bytes, part_start. cbn [pt_part pt_disk]. rewrite Eb.
    rewrite Z.mul_add_distr_r. apply seg_shift.
Qed.
Next Obligation.
  intros [p d] buf off n [Hd Hf] Hb. cbn in Hd, Hf. pose proof (block_size_pos d Hd) as Hpos. pose proof Hf as (Eb & _).
  assert (request p buf off n) as Hq by (apply (block_buffer_request p d); [done | done | cbv [block_buffer] in *; cbn in Hb; by rewrite <- Eb]). cbn [write_blocks partition_io pt_part pt_disk]. unfold partition_write.
  rewrite (beyond_request p buf off n) by (done || lia). cbn [outcome_bind]. destruct (Z.ltb_spec (pd_sector_count p) (off + n)) as [Hlt | Hin].
  - cbn [outcome_bind]. eexists _, _. split; [done |]. done.
  - destruct (request_inside p d buf off n Hpos Hf Hq Hin) as (-> & Hbuf & _).
    destruct (write_law d buf (pd_start_lba p + off) n Hd Hbuf) as (r & d' & -> & Hd' & Hg & Hr). cbn [outcome_bind].
    eexists _, _. split; [done |]. split; [split; [done | by eapply part_fits_geometry] |]. split; [done |].
    cbn [block_size partition_io pt_part]. unfold partition_bytes, part_start. cbn [pt_part pt_disk]. rewrite Eb.
    destruct r as [k |]; [destruct Hr as [-> Hr]; split; [done |] |]; intros i; [| intros Hi].
    + rewrite Hr, Z.mul_add_distr_r. apply upd_shift.
    + apply Hr. lia.
Qed.
Next Obligation.
  intros [p d] [Hd Hf]. cbn in Hd, Hf. destruct (flush_law d Hd) as (r & d' & E & Hd' & Hg & Hc).
  cbn [flush_blocks partition_io pt_part pt_disk]. unfold partition_flush. rewrite E. cbn [outcome_bind]. eexists _, _. split; [done |].
  split; [split; [done | by eapply part_fits_geometry] |]. split; [done |]. intros i. apply Hc.
Qed.

(** On a healthy disk that contains it, a partition is a healthy device, so the byte-wise
    wrappers, the streams and the block cache work on it. *)
Definition part_inside (p : PartitionDevice) (d : D) : Prop := part_end p <= io_len d.

Context {healthy : HealthyIO D}.

Definition usable (p : PartitionDevice) (d : D) : Prop := io_inv d /\ io_healthy d /\ part_fits p d /\ part_inside p d.

Lemma usable_now (p : PartitionDevice) (d d' : D) (f : Z -> Z) : usable p d -> device_now d d' f -> usable p d'.
Proof.
  intros (_ & _ & Hf & Hi) (Hd' & Hh' & Hg & _). split; [done |]. split; [done |]. split; [by eapply part_fits_geometry |].
  unfold part_inside. destruct Hg as (_ & -> & _). exact Hi.
Qed.

(** Where on the disk the block [off] of the partition starts. *)
Definition part_offset (p : PartitionDevice) (off : Z) : Z := (pd_start_lba p + off) * pd_block_size p.

Lemma partition_read_ok (p : PartitionDevice) (d : D) (buf : list Z) (off n : Z) :
  usable p d -> request p buf off n ->
  exists d', device_now d d' (io_bytes d) /\
    partition_read p d buf off =
      Done (if pd_sector_count p <? off + n then (Err (Other "PartitionDevice: read beyond partition boundary"), buf, d')
            else (Ok n, seg (io_bytes d) (part_offset p off) (Z.of_nat (length buf)), d')).
Proof.
  intros (Hd & Hh & Hf & Hi) Hq. pose proof (block_size_pos d Hd) as Hpos. pose proof Hf as (Eb & _). unfold partition_read, part_inside, part_offset in *.
  rewrite (beyond_request p buf off n) by (done || lia). cbn [outcome_bind]. destruct (Z.ltb_spec (pd_sector_count p) (off + n)) as [Hlt | Hin].
  - exists d. split; [by apply device_now_refl | done].
  - destruct (request_inside p d buf off n Hpos Hf Hq Hin) as (-> & Hbuf & _ & Hend). rewrite Eb.
    destruct (read_healthy d buf (pd_start_lba p + off) n Hd Hh Hbuf ltac:(lia)) as (d' & -> & Hn). by exists d'.
Qed.

Lemma partition_write_ok (p : PartitionDevice) (d : D) (buf : list Z) (off n : Z) :
  usable p d -> request p buf off n ->
  exists d', device_now d d' (if pd_sector_count p <? off + n then io_bytes d else upd (io_bytes d) (part_offset p off) buf) /\
    partition_write p d buf off =
      Done (if pd_sector_count p <? off + n then Err (Other "PartitionDevice: write beyond partition boundary") else Ok n, d').
Proof.
  intros (Hd & Hh & Hf & Hi) Hq. pose proof (block_size_pos d Hd) as Hpos. pose proof Hf as (Eb & _). unfold partition_write, part_inside, part_offset in *.
  rewrite (beyond_request p buf off n) by (done || lia). cbn [outcome_bind]. destruct (Z.ltb_spec (pd_sector_count p) (off + n)) as [Hlt | Hin].
  - exists d. split; [by apply device_now_refl | done].
  - destruct (request_inside p d buf off n Hpos Hf Hq Hin) as (-> & Hbuf & _ & Hend). rewrite Eb.
    destruct (write_healthy d buf (pd_start_lba p + off) n Hd Hh Hbuf ltac:(lia)) as (d' & -> & Hn). by exists d'.
Qed.

(** A request within the length of the partition passes the check. *)
Lemma within_len (p : PartitionDevice) (d : D) (off n : Z) :
  0 < block_size d -> part_fits p d -> (off + n) * pd_block_size p <= partition_len p -> off + n <= pd_sector_count p.
Proof.
  intros Hpos (Eb & Hs & Hc & Hm). unfold partition_len, wrap64, U64_MAX in *. rewrite Eb in *. rewrite Z.mod_small by nia. nia.
Qed.

#[export] Program Instance partition_health : HealthyIO (Partition D) := {|
  io_healthy x := io_healthy (pt_disk x) /\ part_inside (pt_part x) (pt_disk x);
|}.
Next Obligation.
  intros [p d] buf off n r buf' x' [Hd Hf] [Hh Hi] Hb Hl E. cbn in Hd, Hf, Hh, Hi, Hl. pose proof (block_size_pos d Hd) as Hpos.
  destruct (partition_read_ok p d buf off n) as (d' & Hn & Er); [by split_and! | apply (block_buffer_request p d); [done | apply Hf | cbv [block_buffer] in *; cbn in Hb; by rewrite <- (proj1 Hf)] |]. apply (within_len p d) in Hl; [| done | done].
  cbn [read_blocks partition_io pt_part pt_disk] in E. rewrite Er in E. destruct (Z.ltb_spec (pd_sector_count p) (off + n)); [lia |].
  cbn [outcome_bind] in E. simplify_eq. split; [done |]. destruct (usable_now p d d' _ ltac:(by split_and!) Hn) as (_ & ? & _ & ?). done.
Qed.
Next Obligation.
  intros [p d] buf off n r x' [Hd Hf] [Hh Hi] Hb Hl E. cbn in Hd, Hf, Hh, Hi, Hl. pose proof (block_size_pos d Hd) as Hpos.
  destruct (partition_write_ok p d buf off n) as (d' & Hn & Er); [by split_and! | apply (block_buffer_request p d); [done | apply Hf | cbv [block_buffer] in *; cbn in Hb; by rewrite <- (proj1 Hf)] |]. apply (within_len p d) in Hl; [| done | done].
  cbn [write_blocks partition_io pt_part pt_disk] in E. rewrite Er in E. destruct (Z.ltb_spec (pd_sector_count p) (off + n)); [lia |].
  cbn [outcome_bind] in E. simplify_eq. split; [done |]. destruct (usable_now p d d' _ ltac:(by split_and!) Hn) as (_ & ? & _ & ?). done.
Qed.
Next Obligation.
  intros [p d] r x' [Hd Hf] [Hh Hi] E. cbn in Hd, Hf, Hh, Hi. destruct (flush_ok d Hd Hh) as (d' & Ef & Hn).
  cbn [flush_blocks partition_io pt_part pt_disk] in E. unfold partition_flush in E. rewrite Ef in E. cbn [outcome_bind] in E. simplify_eq.
  split; [done |]. destruct (usable_now p d d' _ ltac:(by split_and!) Hn) as (_ & ? & _ & ?). done.
Qed.
Next Obligation.
  intros [p d] [Hd Hf] [Hh Hi]. cbn in *. pose proof (block_size_pos d Hd) as Hpos. destruct (healthy_len d Hd Hh) as (k & El & Hk & Hm).
  pose proof Hf as (Eb & Hs & Hc & Hu). unfold part_inside, part_end in Hi. exists (pd_sector_count p).
  assert (partition_len p = pd_sector_count p * pd_block_size p) as ->.
  { unfold partition_len, wrap64, U64_MAX in *. rewrite Eb in *. rewrite Z.mod_small; [done |]. nia. }
  split; [done |]. split; [done |]. rewrite Eb in *. nia.
Qed.

(** ** Partitions that share a disk *)

Inductive PartOp := PRead (buf : list Z) (off : Z) | PWrite (buf : list Z) (off : Z) | PFlush.

Inductive PartRes := RRead (r : result Z IoError) (buf : list Z) | RWrite (r : result Z IoError) | RFlush (r : result unit IoError).

Definition part_op (p : PartitionDevice) (op : PartOp) (d : D) : outcome (PartRes * D) :=
  match op with
  | PRead buf off => let* (r, buf, d) := partition_read p d buf off in Done (RRead r buf, d)
  | PWrite buf off => let* (r, d) := partition_write p d buf off in Done (RWrite r, d)
  | PFlush => let* (r, d) := partition_flush p d in Done (RFlush r, d)
  end.

Fixpoint part_run (p : PartitionDevice) (ops : list PartOp) (d : D) : outcome (list PartRes * D) :=
  match ops with
  | [] => Done ([], d)
  | op :: ops => let* (r, d) := part_op p op d in let* (rs, d) := part_run p ops d in Done (r :: rs, d)
  end.

(** Operations of two partitions in any order; [true] is the first. *)
Fixpoint both_run (p q : PartitionDevice) (ops : list (bool * PartOp)) (d : D) : outcome (list (bool * PartRes) * D) :=
  match ops with
  | [] => Done ([], d)
  | (b, op) :: ops =>
      let* (r, d) := part_op (if b : bool then p else q) op d in
      let* (rs, d) := both_run p q ops d in
      Done ((b, r) :: rs, d)
  end.

(** The operations or results of one side. *)
Definition side {A} (b : bool) (l : list (bool * A)) : list A :=
  omap (fun e => if Bool.eqb (fst e) b then Some (snd e) else None) l.

Lemma side_cons {A} (b c : bool) (x : A) (l : list (bool * A)) :
  side b ((c, x) :: l) = if Bool.eqb c b then x :: side b l else side b l.
Proof. unfold side. simpl. by destruct (Bool.eqb c b). Qed.

(** Whole blocks, at an offset that does not wrap around: [request_escapes_partition] is an
    access that does. *)
Definition op_fits (p : PartitionDevice) (op : PartOp) : Prop :=
  match op with
  | PRead buf off | PWrite buf off => exists n, request p buf off n
  | PFlush => True
  end.

(** The reference: an array of bytes of which the partition sees its own part. *)
Definition spec_op (p : PartitionDevice) (op : PartOp) (f : Z -> Z) : PartRes * (Z -> Z) :=
  match op with
  | PRead buf off =>
      let n := Z.of_nat (length buf) / pd_block_size p in
      (if pd_sector_count p <? off + n then RRead (Err (Other "PartitionDevice: read beyond partition boundary")) buf
       else RRead (Ok n) (seg f (part_offset p off) (Z.of_nat (length buf))), f)
  | PWrite buf off =>
      let n := Z.of_nat (length buf) / pd_block_size p in
      if pd_sector_count p <? off + n then (RWrite (Err (Other "PartitionDevice: write beyond partition boundary")), f)
      else (RWrite (Ok n), upd f (part_offset p off) buf)
  | PFlush => (RFlush (Ok tt), f)
  end.

Lemma part_op_spec (p : PartitionDevice) (op : PartOp) (d : D) :
  usable p d -> op_fits p op ->
  exists d', part_op p op d = Done (fst (spec_op p op (io_bytes d)), d') /\ device_now d d' (snd (spec_op p op (io_bytes d))) /\ usable p d'.
Proof.
  intros Hu Hop. pose proof Hu as (Hd & Hh & (Eb & _) & _). pose proof (block_size_pos d Hd) as Hpos.
  destruct op as [buf off | buf off |]; cbn [part_op spec_op op_fits] in *.
  - destruct Hop as [n Hq]. pose proof Hq as (_ & _ & Hl & _). rewrite Hl, Z.div_mul by lia. rewrite <- Hl.
    destruct (partition_read_ok p d buf off n Hu Hq) as (d' & Hn & ->). exists d'. split; [by destruct (_ <? _) |].
    split; [done | by eapply usable_now].
  - destruct Hop as [n Hq]. pose proof Hq as (_ & _ & Hl & _). rewrite Hl, Z.div_mul by lia.
    destruct (partition_write_ok p d buf off n Hu Hq) as (d' & Hn & ->). exists d'. cbn [outcome_bind].
    pose proof (usable_now p d d' _ Hu Hn). by destruct (_ <? _).
  - unfold partition_flush. destruct (flush_ok d Hd Hh) as (d' & -> & Hn). exists d'. split; [done |]. split; [done | by eapply usable_now].
Qed.

Definition agree (p : PartitionDevice) (f g : Z -> Z) : Prop := forall i, part_start p <= i < part_end p -> f i = g i.

Definition op_sized (p : PartitionDevice) (op : PartOp) : Prop := 0 < pd_block_size p /\ 0 <= pd_start_lba p /\ op_fits p op.

(** What the reference returns, and what it leaves in the partition, depends on the
    partition's bytes alone. *)
Lemma spec_op_agree (p : PartitionDevice) (op : PartOp) (f g : Z -> Z) :
  op_sized p op -> agree p f g -> fst (spec_op p op f) = fst (spec_op p op g) /\ agree p (snd (spec_op p op f)) (snd (spec_op p op g)).
Proof.
  intros (Hpos & Hs & Hop) Ha. destruct op as [buf off | buf off |]; cbn [spec_op op_fits] in *; [| | done].
  - destruct Hop as (n & Ho & Hn & Hl & _). rewrite Hl, Z.div_mul by lia. destruct (Z.ltb_spec (pd_sector_count p) (off + n)); [done |]. split; [| done].
    cbn [fst]. f_equal. apply seg_ext. unfold part_offset. intros i Hi. apply Ha. unfold part_start, part_end. nia.
  - destruct Hop as (n & Ho & Hn & Hl & _). rewrite Hl, Z.div_mul by lia. destruct (Z.ltb_spec (pd_sector_count p) (off + n)); [done |]. split; [done |].
    intros i Hi. cbn [snd]. unfold upd. case_cmp; try done; by apply Ha.
Qed.

(** Nothing outside the partition changes. *)
Lemma spec_op_outside (p : PartitionDevice) (op : PartOp) (f : Z -> Z) (i : Z) :
  op_sized p op -> i < part_start p \/ part_end p <= i -> snd (spec_op p op f) i = f i.
Proof.
  intros (Hpos & Hs & Hop) Hi. destruct op as [buf off | buf off |]; cbn [spec_op op_fits] in *; [done | | done].
  destruct Hop as (n & Ho & Hn & Hl & _). rewrite Hl, Z.div_mul by lia. destruct (Z.ltb_spec (pd_sector_count p) (off + n)); [done |].
  cbn [snd]. apply upd_out. unfold part_offset, part_start, part_end in *. nia.
Qed.

Lemma usable_sized (p : PartitionDevice) (d : D) (op : PartOp) : usable p d -> op_fits p op -> op_sized p op.
Proof. intros (Hd & _ & (Eb & Hs & _) & _) Hop. split; [rewrite Eb; by apply block_size_pos | done]. Qed.

Definition disjoint_parts (p q : PartitionDevice) : Prop := part_end p <= part_start q \/ part_end q <= part_start p.

(** An operation of [p] on a disk and on another with the same bytes in [p]. *)
Lemma op_step (p q : PartitionDevice) (op : PartOp) (d dp : D) :
  usable p d -> usable q d -> op_fits p op -> usable p dp -> agree p (io_bytes d) (io_bytes dp) ->
  exists r d' dp', part_op p op d = Done (r, d') /\ part_op p op dp = Done (r, dp') /\
    usable p d' /\ usable q d' /\ usable p dp' /\ agree p (io_bytes d') (io_bytes dp') /\
    (forall i, i < part_start p \/ part_end p <= i -> io_bytes d' i = io_bytes d i).
Proof.
  intros Hp Hq Hop Hdp Ha. pose proof (usable_sized p d op Hp Hop) as Hs.
  destruct (part_op_spec p op d Hp Hop) as (d' & E & Hn & Hp'). destruct (part_op_spec p op dp Hdp Hop) as (dp' & E2 & Hn2 & Hdp').
  destruct (spec_op_agree p op _ _ Hs Ha) as [Hr Ha']. rewrite <- Hr in E2. pose proof (usable_now q d d' _ Hq Hn) as Hq'.
  destruct Hn as (_ & _ & _ & Hb). destruct Hn2 as (_ & _ & _ & Hb2). eexists _, d', dp'. split_and!; try done.
  - intros i Hi. rewrite Hb, Hb2. by apply Ha'.
  - intros i Hi. rewrite Hb. by apply spec_op_outside.
Qed.

Lemma agree_outside (p q : PartitionDevice) (f f' g : Z -> Z) :
  disjoint_parts p q -> (forall i, i < part_start p \/ part_end p <= i -> f' i = f i) -> agree q f g -> agree q f' g.
Proof. intros Hdis Ho Ha i Hi. rewrite Ho by (unfold disjoint_parts in Hdis; lia). by apply Ha. Qed.

(** One side of a run of both is a run of that side alone, from any disk with the same bytes
    in its partition. *)
Lemma both_run_side (p q : PartitionDevice) (ops : list (bool * PartOp)) (d dp dq : D) :
  usable p d -> usable q d -> disjoint_parts p q -> Forall (fun e => op_fits (if fst e : bool then p else q) (snd e)) ops ->
  usable p dp -> agree p (io_bytes d) (io_bytes dp) -> usable q dq -> agree q (io_bytes d) (io_bytes dq) ->
  exists rs d' dp' dq', both_run p q ops d = Done (rs, d') /\ part_run p (side true ops) dp = Done (side true rs, dp') /\
    part_run q (side false ops) dq = Done (side false rs, dq') /\
    agree p (io_bytes d') (io_bytes dp') /\ agree q (io_bytes d') (io_bytes dq') /\
    (forall i, (i < part_start p \/ part_end p <= i) -> (i < part_start q \/ part_end q <= i) -> io_bytes d' i = io_bytes d i).
Proof.
  revert d dp dq. induction ops as [| [b op] ops IH]; intros d dp dq Hp Hq Hdis Hops Hdp Hap Hdq Haq.
  { exists [], d, dp, dq. by split_and!. }
  apply Forall_cons in Hops as [Hop Hops]. cbn [fst snd] in Hop. cbn [both_run]. destruct b.
  - destruct (op_step p q op d dp Hp Hq Hop Hdp Hap) as (r & d1 & dp1 & -> & E & Hp1 & Hq1 & Hdp1 & Ha1 & Ho). cbn [outcome_bind].
    destruct (IH d1 dp1 dq Hp1 Hq1 Hdis Hops Hdp1 Ha1 Hdq (agree_outside p q _ _ _ Hdis Ho Haq)) as (rs & d' & dp' & dq' & -> & E1 & E2 & A1 & A2 & A3).
    exists ((true, r) :: rs), d', dp', dq'. rewrite !side_cons. cbn [Bool.eqb part_run outcome_bind]. rewrite E. cbn [outcome_bind]. rewrite E1. cbn [outcome_bind]. split_and!; try done.
    intros i Hi1 Hi2. rewrite A3 by done. by apply Ho.
  - destruct (op_step q p op d dq Hq Hp Hop Hdq Haq) as (r & d1 & dq1 & -> & E & Hq1 & Hp1 & Hdq1 & Ha1 & Ho). cbn [outcome_bind].
    destruct (IH d1 dp dq1 Hp1 Hq1 Hdis Hops Hdp (agree_outside q p _ _ _ ltac:(unfold disjoint_parts in *; tauto) Ho Hap) Hdq1 Ha1)
      as (rs & d' & dp' & dq' & -> & E1 & E2 & A1 & A2 & A3).
    exists ((false, r) :: rs), d', dp', dq'. rewrite !side_cons. cbn [Bool.eqb part_run outcome_bind]. rewrite E. cbn [outcome_bind]. rewrite E2. cbn [outcome_bind]. split_and!; try done.
    intros i Hi1 Hi2. rewrite A3 by done. by apply Ho.
Qed.

(** C18: Partitions of one disk do not interfere.  When two partitions of a healthy disk do not
    overlap, any sequence of reads, writes and flushes of both, in any order, of whole blocks
    at offsets whose sum with the number of blocks has 64 bits, beyond the end of the
    partition or not, runs without a panic; each partition gets exactly the results it would
    get with the disk to itself, and the disk ends up with the bytes each would have left in
    its own partition and unchanged bytes elsewhere.  The code does not check that the sum has
    64 bits, and it is needed: [request_escapes_partition] is a request for which it wraps
    around and which leaves its partition. *)
Theorem partitions_do_not_interfere (p q : PartitionDevice) (ops : list (bool * PartOp)) (d : D) :
  usable p d -> usable q d -> disjoint_parts p q -> Forall (fun e => op_fits (if fst e : bool then p else q) (snd e)) ops ->
  exists rs d' dp dq, both_run p q ops d = Done (rs, d') /\
    part_run p (side true ops) d = Done (side true rs, dp) /\ part_run q (side false ops) d = Done (side false rs, dq) /\
    agree p (io_bytes d') (io_bytes dp) /\ agree q (io_bytes d') (io_bytes dq) /\
    forall i, (i < part_start p \/ part_end p <= i) -> (i < part_start q \/ part_end q <= i) -> io_bytes d' i = io_bytes d i.
Proof. intros Hp Hq Hdis Hops. by apply both_run_side. Qed.

End PartitionLaws.

(** ** Tables as they are written *)

Record MbrEntry := mkMbr { me_head : list Z; me_type : Z; me_chs : list Z; me_start : Z; me_count : Z }.

Definition mbr_entry (e : MbrEntry) : list Z :=
  me_head e ++ me_type e :: me_chs e ++ le_bytes 4 (me_start e) ++ le_bytes 4 (me_count e).

Definition mbr_entry_ok (e : MbrEntry) : Prop :=
  length (me_head e) = 4%nat /\ length (me_chs e) = 3%nat /\ 0 <= me_start e < 2 ^ 32 /\ 0 <= me_count e < 2 ^ 32.

(** A first sector with boot code, entries, signature and what follows in a larger sector. *)
Definition mbr_sector (boot : list Z) (es : list MbrEntry) (post : list Z) : list Z :=
  boot ++ concat (mbr_entry <$> es) ++ le_bytes 2 MBR_SIGNATURE ++ post.

(** The partitions of the entries, numbered from [idx]. *)
Fixpoint mbr_infos (es : list MbrEntry) (idx : Z) : list PartitionInfo :=
  match es with
  | [] => []
  | e :: es =>
      if (me_type e =? 0) || (me_type e =? MBR_TYPE_PROTECTIVE) then mbr_infos es (idx + 1)
      else mkPart idx (me_start e) (me_count e) (MbrType (me_type e)) (mbr_name idx) :: mbr_infos es (idx + 1)
  end.

Definition is_protective (e : MbrEntry) : bool := me_type e =? MBR_TYPE_PROTECTIVE.

Lemma slice_middle (a b c : list Z) (x y : Z) :
  x = Z.of_nat (length a) -> y = x + Z.of_nat (length b) -> slice (a ++ b ++ c) x y = Done b.
Proof.
  intros -> ->. unfold slice. rewrite !length_app. rewrite (proj2 (Z.leb_le _ _)), (proj2 (Z.leb_le _ _)), (proj2 (Z.leb_le _ _)) by lia.
  cbn [andb]. f_equal. rewrite Nat2Z.id, drop_app_length. replace (Z.to_nat _) with (length b) by lia. apply take_app_length.
Qed.

Lemma le_value_field (n : nat) (x : Z) : 0 <= x < 256 ^ Z.of_nat n -> le_value (le_bytes n x) = x.
Proof. intros Hx. rewrite le_value_bytes. by apply Z.mod_small. Qed.

Lemma slice_field (a c : list Z) (n : nat) (v x y : Z) :
  x = Z.of_nat (length a) -> y = x + Z.of_nat n -> 0 <= v < 256 ^ Z.of_nat n ->
  (let* l := slice (a ++ le_bytes n v ++ c) x y in Done (le_value l)) = Done v.
Proof.
  intros -> -> Hv. rewrite (slice_middle _ (le_bytes n v)) by (rewrite ?le_bytes_length; lia). cbn [outcome_bind]. by rewrite le_value_field.
Qed.

Lemma mbr_entry_length (e : MbrEntry) : mbr_entry_ok e -> length (mbr_entry e) = 16%nat.
Proof. intros (H1 & H2 & _). unfold mbr_entry. rewrite !length_app. cbn [length]. rewrite !length_app, !le_bytes_length. lia. Qed.

(** The fields of an entry. *)
Lemma mbr_entry_fields (e : MbrEntry) :
  mbr_entry_ok e -> byte_at (mbr_entry e) 4 = Done (me_type e) /\ read_le_u32 (mbr_entry e) 8 = Done (me_start e) /\
    read_le_u32 (mbr_entry e) 12 = Done (me_count e).
Proof.
  intros (H1 & H2 & H3 & H4). unfold byte_at, read_le_u32, mbr_entry. split_and!.
  - cbn. rewrite lookup_app_r by lia. rewrite H1. done.
  - rewrite app_comm_cons, (app_assoc (me_head e)). apply slice_field; [rewrite length_app; cbn [length]; lia | lia | done].
  - rewrite app_comm_cons, (app_assoc (me_head e)), (app_assoc _ (le_bytes 4 (me_start e))), <- (app_nil_r (le_bytes 4 (me_count e))).
    apply slice_field; [rewrite !length_app, le_bytes_length; cbn [length]; lia | lia | done].
Qed.

Lemma mbr_loop_encoded (es : list MbrEntry) (pre post : list Z) (idx : Z) (acc : list PartitionInfo) (prot : bool) :
  Forall mbr_entry_ok es -> 0 <= idx -> Z.of_nat (length pre) = 446 + 16 * idx ->
  mbr_loop (pre ++ concat (mbr_entry <$> es) ++ post) ((fun k => 446 + 16 * k) <$> seqZ idx (Z.of_nat (length es))) idx acc prot =
    Done (acc ++ mbr_infos es idx, prot || existsb is_protective es).
Proof.
  revert pre idx acc prot. induction es as [| e es IH]; intros pre idx acc prot Hes Hidx Hpre.
  { cbn. by rewrite app_nil_r, orb_false_r. }
  apply Forall_cons in Hes as [He Hes]. cbn [length]. rewrite (seqZ_cons idx) by lia.
  replace (Z.pred (Z.of_nat (S (length es)))) with (Z.of_nat (length es)) by lia. rewrite fmap_cons. cbn [fmap list_fmap concat mbr_loop mbr_infos existsb].
  pose proof (mbr_entry_length e He) as Hlen. rewrite <- (app_assoc (mbr_entry e)).
  rewrite (slice_middle pre (mbr_entry e)) by lia. cbn [outcome_bind]. destruct (mbr_entry_fields e He) as (-> & E1 & E2). cbn [outcome_bind].
  rewrite (app_assoc pre). assert (Z.of_nat (length (pre ++ mbr_entry e)) = 446 + 16 * (idx + 1)) as Hpre' by (rewrite length_app; lia).
  unfold is_protective at 1. change (Z.succ idx) with (idx + 1).
  destruct (me_type e =? 0) eqn:E0; [| destruct (me_type e =? MBR_TYPE_PROTECTIVE) eqn:Ep]; cbn [orb].
  - apply Z.eqb_eq in E0. rewrite E0. rewrite IH by (done || lia). done.
  - rewrite IH by (done || lia). by rewrite orb_true_r.
  - rewrite E1. cbn [outcome_bind]. rewrite E2. cbn [outcome_bind]. rewrite IH by (done || lia). by rewrite <- app_assoc.
Qed.

Lemma parse_mbr_encoded (boot post : list Z) (es : list MbrEntry) :
  length boot = 446%nat -> length es = 4%nat -> Forall mbr_entry_ok es ->
  parse_mbr (mbr_sector boot es post) =
    Done (if existsb is_protective es then Protective
          else match mbr_infos es 0 with [] => NoMbr | l => MbrPartitions l end).
Proof.
  intros Hb Hes Hok. unfold parse_mbr, mbr_sector.
  assert (length (concat (mbr_entry <$> es)) = 64%nat) as Hl.
  { do 5 (destruct es as [| ? es]; try done). repeat (apply Forall_cons in Hok as [? Hok]).
    cbn [fmap list_fmap concat]. rewrite !length_app, !mbr_entry_length by done. done. }
  destruct (Z.ltb_spec (Z.of_nat (length (boot ++ concat (mbr_entry <$> es) ++ le_bytes 2 MBR_SIGNATURE ++ post))) 512) as [Hlt | _].
  { rewrite !length_app, le_bytes_length in Hlt. lia. }
  unfold read_le_u16. rewrite app_assoc, slice_field; [| rewrite length_app; lia | done | by vm_compute]. cbn [outcome_bind]. rewrite Z.eqb_refl. cbn [negb].
  rewrite <- app_assoc. pose proof (mbr_loop_encoded es boot (le_bytes 2 MBR_SIGNATURE ++ post) 0 [] false Hok) as E. rewrite Hes in E.
  change ((fun k => 446 + 16 * k) <$> seqZ 0 (Z.of_nat 4)) with MBR_ENTRY_OFFSETS in E. rewrite E by lia. cbn [outcome_bind app orb]. by destruct (existsb is_protective es), (mbr_infos es 0).
Qed.

(** The parser of legacy tables reads any bytes. *)
Lemma mbr_loop_total (sector : list Z) (offsets : list Z) (idx : Z) (acc : list PartitionInfo) (prot : bool) :
  Forall (fun o => 0 <= o /\ o + 16 <= Z.of_nat (length sector)) offsets -> exists r, mbr_loop sector offsets idx acc prot = Done r.
Proof.
  revert idx acc prot. induction offsets as [| o offsets IH]; intros idx acc prot Ho; [by eexists |]. apply Forall_cons in Ho as [[H1 H2] Ho].
  cbn [mbr_loop]. rewrite slice_ok by lia. cbn [outcome_bind]. set (entry := take _ _).
  assert (length entry = 16%nat) as Hl by (unfold entry; rewrite length_take, length_drop; lia).
  unfold byte_at. destruct (lookup_lt_is_Some_2 entry (Z.to_nat 4) ltac:(lia)) as [b Hb]. cbn [Z.leb Z.compare]. rewrite Hb. cbn [expect outcome_bind].
  destruct (b =? 0); [apply (IH _ _ _ Ho) |]. destruct (b =? MBR_TYPE_PROTECTIVE); [apply (IH _ _ _ Ho) |].
  unfold read_le_u32. rewrite !slice_ok by lia. cbn [outcome_bind]. apply (IH _ _ _ Ho).
Qed.

Theorem parse_mbr_total (sector : list Z) : exists r, parse_mbr sector = Done r.
Proof.
  unfold parse_mbr. destruct (Z.ltb_spec (Z.of_nat (length sector)) 512) as [_ | Hl]; [by eexists |].
  unfold read_le_u16. rewrite slice_ok by lia. cbn [outcome_bind]. destruct (negb _); [by eexists |].
  destruct (mbr_loop_total sector MBR_ENTRY_OFFSETS 0 [] false) as [[l b] ->]; [repeat constructor; lia | by eexists].
Qed.

(** *** GPT *)

Record GptEntry := mkGpt { ge_type : list Z; ge_unique : list Z; ge_first : Z; ge_last : Z; ge_attributes : Z; ge_name : list Z }.

(** The name field holds 36 code units. *)
Definition name_field (units : list Z) : list Z := concat (le_bytes 2 <$> (units ++ replicate (36 - length units) 0)).

(** An entry of [sz] bytes. *)
Definition gpt_entry (sz : Z) (e : GptEntry) : list Z :=
  ge_type e ++ ge_unique e ++ le_bytes 8 (ge_first e) ++ le_bytes 8 (ge_last e) ++ le_bytes 8 (ge_attributes e) ++
  name_field (ge_name e) ++ replicate (Z.to_nat (sz - 128)) 0.

Record gpt_entry_ok (e : GptEntry) : Prop := {
  ok_type : length (ge_type e) = 16%nat;
  ok_unique : length (ge_unique e) = 16%nat;
  ok_first : in_u64 (ge_first e);
  ok_last : in_u64 (ge_last e);
  ok_attributes : in_u64 (ge_attributes e);
  ok_name : (length (ge_name e) <= 36)%nat;
  ok_units : Forall (fun u => 0 < u < 65536) (ge_name e);
}.

(** A header sector: the signature, 64 bytes of other fields, the place and the size of the
    entries, and the rest. *)
Definition gpt_header (fields : list Z) (lba num sz : Z) (post : list Z) : list Z :=
  GPT_SIGNATURE ++ fields ++ le_bytes 8 lba ++ le_bytes 4 num ++ le_bytes 4 sz ++ post.

Definition gpt_info (idx : Z) (e : GptEntry) : PartitionInfo :=
  mkPart idx (ge_first e) (if ge_first e <=? ge_last e then wrap64 (ge_last e - ge_first e + 1) else 0)
    (GptType (ge_type e)) (from_utf16_lossy (ge_name e)).

(** The partitions of the entries in use, numbered from [idx]. *)
Fixpoint gpt_infos (es : list GptEntry) (idx : Z) : list PartitionInfo :=
  match es with
  | [] => []
  | e :: es => if bool_decide (ge_type e = replicate 16 0) then gpt_infos es idx else gpt_info idx e :: gpt_infos es (idx + 1)
  end.

Lemma name_field_length (units : list Z) : (length units <= 36)%nat -> length (name_field units) = 72%nat.
Proof.
  intros Hl. unfold name_field. assert (forall l : list Z, length (concat (le_bytes 2 <$> l)) = (2 * length l)%nat) as ->.
  { induction l as [| x l IH]; [done |]. cbn [fmap list_fmap concat]. rewrite length_app, le_bytes_length, IH. cbn [length]. lia. }
  rewrite length_app, length_replicate. lia.
Qed.

Lemma name_units_field (units : list Z) : Forall (fun u => 0 < u < 65536) units -> name_units (name_field units) = units.
Proof.
  unfold name_field. generalize (36 - length units)%nat as k. intros k. induction units as [| u units IH]; intros Hu.
  - destruct k as [| k]; [done |]. done.
  - apply Forall_cons in Hu as [Hu Hus]. change ((u :: units) ++ replicate k 0) with (u :: (units ++ replicate k 0)).
    rewrite fmap_cons. cbn [concat le_bytes app name_units].
    assert (u mod 256 + 256 * ((u / 256) mod 256) = u) as -> by (rewrite (Z.mod_small (u / 256)) by (split; [apply Z.div_pos; lia | apply Z.div_lt_upper_bound; lia]); pose proof (Z_div_mod_eq_full u 256); lia).
    destruct (Z.eqb_spec u 0); [lia |]. f_equal. by apply IH.
Qed.

(** A field of a buffer that is split around it. *)
Lemma slice_split (l a b c : list Z) (x y : Z) :
  l = a ++ b ++ c -> x = Z.of_nat (length a) -> y = x + Z.of_nat (length b) -> slice l x y = Done b.
Proof. intros -> . apply slice_middle. Qed.

Lemma read_le_u64_split (l a c : list Z) (v x : Z) :
  l = a ++ le_bytes 8 v ++ c -> x = Z.of_nat (length a) -> in_u64 v -> read_le_u64 l x = Done v.
Proof. intros -> -> Hv. apply slice_field; [done | lia |]. unfold in_u64, U64_MAX in Hv. change (256 ^ Z.of_nat 8) with 18446744073709551616. lia. Qed.

Lemma read_le_u32_split (l a c : list Z) (v x : Z) :
  l = a ++ le_bytes 4 v ++ c -> x = Z.of_nat (length a) -> 0 <= v < 2 ^ 32 -> read_le_u32 l x = Done v.
Proof. intros -> -> Hv. apply slice_field; [done | lia | exact Hv]. Qed.

Lemma gpt_entry_length (sz : Z) (e : GptEntry) : 128 <= sz -> gpt_entry_ok e -> Z.of_nat (length (gpt_entry sz e)) = sz.
Proof.
  intros Hsz [H1 H2 _ _ _ H6 _]. unfold gpt_entry. rewrite !length_app, !le_bytes_length, name_field_length, length_replicate by done. lia.
Qed.

Ltac field_lengths := rewrite ?length_app, ?le_bytes_length, ?name_field_length by done; lia.

Lemma gpt_entry_fields (sz : Z) (e : GptEntry) :
  128 <= sz -> gpt_entry_ok e ->
  slice (gpt_entry sz e) 0 16 = Done (ge_type e) /\ slice (gpt_entry sz e) 16 32 = Done (ge_unique e) /\
  read_le_u64 (gpt_entry sz e) 32 = Done (ge_first e) /\ read_le_u64 (gpt_entry sz e) 40 = Done (ge_last e) /\
  read_le_u64 (gpt_entry sz e) 48 = Done (ge_attributes e) /\ slice (gpt_entry sz e) 56 (Z.min sz 128) = Done (name_field (ge_name e)).
Proof.
  intros Hsz [H1 H2 H3 H4 H5 H6 _]. rewrite Z.min_r by lia. unfold gpt_entry. split_and!.
  - eapply (slice_split _ []); [done | done | lia].
  - eapply (slice_split _ (ge_type e)); [done | lia | lia].
  - eapply (read_le_u64_split _ (ge_type e ++ ge_unique e)); [by rewrite <- !app_assoc | field_lengths | done].
  - eapply (read_le_u64_split _ (ge_type e ++ ge_unique e ++ le_bytes 8 (ge_first e))); [by rewrite <- !app_assoc | field_lengths | done].
  - eapply (read_le_u64_split _ (ge_type e ++ ge_unique e ++ le_bytes 8 (ge_first e) ++ le_bytes 8 (ge_last e)));
      [by rewrite <- !app_assoc | field_lengths | done].
  - eapply (slice_split _ (ge_type e ++ ge_unique e ++ le_bytes 8 (ge_first e) ++ le_bytes 8 (ge_last e) ++ le_bytes 8 (ge_attributes e)));
      [by rewrite <- !app_assoc | field_lengths | field_lengths].
Qed.

Lemma gpt_loop_encoded (sz : Z) (es : list GptEntry) (pre post : list Z) (i : Z) (acc : list PartitionInfo) :
  128 <= sz -> Forall gpt_entry_ok es -> Z.of_nat (length pre) = i * sz ->
  gpt_loop (pre ++ concat (gpt_entry sz <$> es) ++ post) sz (length es) i acc =
    Done (acc ++ gpt_infos es (Z.of_nat (length acc))).
Proof.
  intros Hsz. revert pre i acc. induction es as [| e es IH]; intros pre i acc Hes Hpre.
  { cbn. by rewrite app_nil_r. }
  apply Forall_cons in Hes as [He Hes]. cbn [length fmap list_fmap concat gpt_loop gpt_infos]. pose proof (gpt_entry_length sz e Hsz He) as Hlen.
  rewrite <- (app_assoc (gpt_entry sz e)).
  destruct (Z.ltb_spec (Z.of_nat (length (pre ++ gpt_entry sz e ++ concat (gpt_entry sz <$> es) ++ post))) (i * sz + sz)) as [Hlt | _].
  { rewrite !length_app in Hlt. lia. }
  rewrite (slice_middle pre (gpt_entry sz e)) by lia. cbn [outcome_bind].
  destruct (gpt_entry_fields sz e Hsz He) as (-> & E1 & E2 & E3 & E4 & E5). cbn [outcome_bind]. rewrite (app_assoc pre).
  assert (Z.of_nat (length (pre ++ gpt_entry sz e)) = (i + 1) * sz) as Hpre' by (rewrite length_app; lia).
  destruct (bool_decide (ge_type e = replicate 16 0)); [by apply IH |].
  rewrite E1, E2, E3, E4, E5. cbn [outcome_bind]. rewrite IH by done. rewrite <- app_assoc. cbn [app]. unfold parse_gpt_name, gpt_info.
  rewrite name_units_field by apply He. rewrite length_app. cbn [length]. repeat f_equal. lia.
Qed.

(** The fields of a header; the ones that are only logged have some value. *)
Lemma gpt_header_fields (fields post : list Z) (lba num sz : Z) :
  length fields = 64%nat -> in_u64 lba -> 0 <= num < 2 ^ 32 -> 0 <= sz < 2 ^ 32 ->
  let h := gpt_header fields lba num sz post in
  slice h 0 8 = Done GPT_SIGNATURE /\ read_le_u64 h 72 = Done lba /\ read_le_u32 h 80 = Done num /\ read_le_u32 h 84 = Done sz /\
  (forall x y, 0 <= x <= y -> y <= 72 -> exists l, slice h x y = Done l).
Proof.
  intros Hf Hlba Hnum Hsz h. unfold h, gpt_header. split_and!.
  - by eapply (slice_split _ []).
  - eapply (read_le_u64_split _ (GPT_SIGNATURE ++ fields)); [by rewrite <- !app_assoc | rewrite length_app, Hf; done | done].
  - eapply (read_le_u32_split _ (GPT_SIGNATURE ++ fields ++ le_bytes 8 lba)); [by rewrite <- !app_assoc | rewrite !length_app, Hf; done | done].
  - eapply (read_le_u32_split _ (GPT_SIGNATURE ++ fields ++ le_bytes 8 lba ++ le_bytes 4 num));
      [by rewrite <- !app_assoc | rewrite !length_app, Hf; done | done].
  - intros x y Hx Hy. eexists. apply slice_ok; [lia |]. rewrite !length_app, Hf. cbn [length GPT_SIGNATURE]. lia.
Qed.

Section Detection.
Context {D : Type} {bio : BlockIO D} {laws : BlockIOLaws D} {healthy : HealthyIO D}.

Lemma read_sectors_ok (d : D) (lba k : Z) :
  io_inv d -> io_healthy d -> 0 <= lba -> 0 <= k -> k * block_size d <= VEC_MAX -> (lba + k) * block_size d <= io_len d ->
  exists d', read_sectors d lba k = Done (Ok (seg (io_bytes d) (lba * block_size d) (k * block_size d)), d') /\ device_now d d' (io_bytes d).
Proof.
  intros Hd Hh Hl Hk Hm Hlen. pose proof (block_size_pos d Hd) as Hpos. destruct (healthy_len d Hd Hh) as (m & _ & _ & Hu). unfold read_sectors.
  assert (wrap64 (k * block_size d) = k * block_size d) as -> by (unfold wrap64, VEC_MAX in *; rewrite Z.mod_small; nia).
  destruct (Z.ltb_spec VEC_MAX (k * block_size d)); [lia |].
  destruct (read_healthy d (replicate (Z.to_nat (k * block_size d)) 0) lba k Hd Hh) as (d' & -> & Hn); [| done |].
  { split_and!; [done | done | rewrite length_replicate; nia | lia]. }
  cbn [outcome_bind]. exists d'. split; [| done]. rewrite length_replicate, Z2Nat.id by nia. done.
Qed.

(** How many blocks of [bs] bytes hold [num] entries of [sz] bytes. *)
Definition entry_blocks (num sz bs : Z) : Z := (num * sz + bs - 1) / bs.

Lemma entry_blocks_bounds (num sz bs : Z) : 0 < bs -> 0 < num * sz -> 0 < entry_blocks num sz bs /\ num * sz <= entry_blocks num sz bs * bs.
Proof.
  intros Hbs Ht. unfold entry_blocks. pose proof (Z_div_mod_eq_full (num * sz + bs - 1) bs). pose proof (Z.mod_pos_bound (num * sz + bs - 1) bs Hbs). nia.
Qed.

(** The disk holds a GPT table: a protective first sector, the header and the entries. *)
Record gpt_on (d : D) (boot : list Z) (mes : list MbrEntry) (post0 fields : list Z) (lba sz : Z) (post1 : list Z)
    (es : list GptEntry) (post2 : list Z) : Prop := {
  on_sector0 : seg (io_bytes d) 0 (block_size d) = mbr_sector boot mes post0;
  on_boot : length boot = 446%nat;
  on_four : length mes = 4%nat;
  on_mbr : Forall mbr_entry_ok mes;
  on_protective : existsb is_protective mes = true;
  on_header : seg (io_bytes d) (block_size d) (block_size d) = gpt_header fields lba (Z.of_nat (length es)) sz post1;
  on_fields : length fields = 64%nat;
  on_lba : in_u64 lba;
  on_count : 0 < Z.of_nat (length es) < 2 ^ 32;
  on_size : 128 <= sz < 2 ^ 32;
  on_entries : Forall gpt_entry_ok es;
  on_data : seg (io_bytes d) (lba * block_size d) (entry_blocks (Z.of_nat (length es)) sz (block_size d) * block_size d) =
    concat (gpt_entry sz <$> es) ++ post2;
  on_room : entry_blocks (Z.of_nat (length es)) sz (block_size d) * block_size d <= VEC_MAX;
  on_disk : (lba + entry_blocks (Z.of_nat (length es)) sz (block_size d)) * block_size d <= io_len d;
  on_two : 2 * block_size d <= io_len d;
}.

(** The parser behind a protective first sector. *)
Lemma parse_gpt_ok (d : D) (fields : list Z) (lba sz : Z) (post1 : list Z) (es : list GptEntry) (post2 : list Z) :
  io_inv d -> io_healthy d ->
  seg (io_bytes d) (block_size d) (block_size d) = gpt_header fields lba (Z.of_nat (length es)) sz post1 ->
  length fields = 64%nat -> in_u64 lba -> 0 < Z.of_nat (length es) < 2 ^ 32 -> 128 <= sz < 2 ^ 32 -> Forall gpt_entry_ok es ->
  seg (io_bytes d) (lba * block_size d) (entry_blocks (Z.of_nat (length es)) sz (block_size d) * block_size d) =
    concat (gpt_entry sz <$> es) ++ post2 ->
  entry_blocks (Z.of_nat (length es)) sz (block_size d) * block_size d <= VEC_MAX ->
  (lba + entry_blocks (Z.of_nat (length es)) sz (block_size d)) * block_size d <= io_len d -> 2 * block_size d <= io_len d ->
  exists d', parse_gpt d (block_size d) = Done (gpt_infos es 0, d') /\ device_now d d' (io_bytes d).
Proof.
  intros Hd Hh H1 Hfields Hlba Hnum Hsz Hes H2 Hroom Hdisk Htwo. pose proof (block_size_pos d Hd) as Hpos.
  set (num := Z.of_nat (length es)) in *. set (bs := block_size d) in *.
  assert (0 < num * sz < 2 ^ 64) as Ht by (split; [nia | change (2 ^ 64) with (2 ^ 32 * 2 ^ 32); nia]).
  destruct (entry_blocks_bounds num sz bs Hpos ltac:(lia)) as [Hk Hkb]. unfold VEC_MAX in *.
  destruct (read_sectors_ok d 1 1 Hd Hh) as (d1 & E1 & Hn1); [lia | lia | fold bs; unfold VEC_MAX; nia | fold bs; lia |].
  unfold parse_gpt. rewrite E1. cbn [outcome_bind]. fold bs. rewrite !Z.mul_1_l, H1. pose proof Hn1 as (Hd1 & Hh1 & (Eb & El & _) & Hb1).
  destruct (gpt_header_fields fields post1 lba num sz Hfields Hlba ltac:(lia) ltac:(lia)) as (-> & F1 & F2 & F3 & Fany). cbn [outcome_bind].
  rewrite bool_decide_true by done. cbn [negb]. unfold read_le_u32 at 1 2, read_le_u64 at 1 2 3.
  destruct (Fany 8 (8 + 4)) as [? ->]; [lia | lia |]. destruct (Fany 12 (12 + 4)) as [? ->]; [lia | lia |].
  destruct (Fany 24 (24 + 8)) as [? ->]; [lia | lia |]. destruct (Fany 40 (40 + 8)) as [? ->]; [lia | lia |].
  destruct (Fany 48 (48 + 8)) as [? ->]; [lia | lia |]. destruct (Fany 56 72) as [? ->]; [lia | lia |].
  cbn [outcome_bind]. rewrite F1, F2, F3. cbn [outcome_bind].
  destruct (Z.eqb_spec sz 0); [lia |]. destruct (Z.eqb_spec num 0); [lia |]. cbn [orb].
  assert (wrap64 (num * sz) = num * sz) as -> by (apply Z.mod_small; lia).
  assert (wrap64 (num * sz + bs - 1) = num * sz + bs - 1) as -> by (apply Z.mod_small; nia).
  fold (entry_blocks num sz bs). unfold in_u64 in Hlba.
  destruct (read_sectors_ok d1 lba (entry_blocks num sz bs) Hd1 Hh1) as (d2 & E2 & Hn2);
    [lia | lia | rewrite Eb; exact Hroom | rewrite Eb, El; exact Hdisk |].
  rewrite E2. cbn [outcome_bind]. rewrite Eb. fold bs. rewrite (seg_ext _ (io_bytes d)) by (intros; apply Hb1). rewrite H2.
  unfold num. rewrite Nat2Z.id. pose proof (gpt_loop_encoded sz es [] post2 0 [] ltac:(lia) Hes eq_refl) as E3. cbn [app length] in E3. rewrite E3. cbn [outcome_bind].
  exists d2. split; [done |]. eapply device_now_trans; [exact Hn1 | exact Hn2 | exact Hb1].
Qed.

(** C19: What is written as a GPT table is what [detect_partitions] finds.  On a healthy disk
    with a protective first sector, a header in the block 1 that says where its entries are,
    and there any number of entries of any size from 128 bytes on, it returns the entries that are
    in use, in order and numbered consecutively, with their first sector, their size, their
    type and their name, and leaves the disk as it is.  (The blocks of the entries are on the
    disk, can be held in memory, and there is at least one entry.) *)
Theorem gpt_table_roundtrip (d : D) (boot : list Z) (mes : list MbrEntry) (post0 fields : list Z) (lba sz : Z) (post1 : list Z)
    (es : list GptEntry) (post2 : list Z) :
  io_inv d -> io_healthy d -> gpt_on d boot mes post0 fields lba sz post1 es post2 ->
  exists d', detect_partitions d = Done (gpt_infos es 0, d') /\ device_now d d' (io_bytes d).
Proof.
  intros Hd Hh [H0 Hboot Hfour Hmbr Hprot H1 Hfields Hlba Hnum Hsz Hes H2 Hroom Hdisk Htwo]. pose proof (block_size_pos d Hd) as Hpos.
  destruct (entry_blocks_bounds (Z.of_nat (length es)) sz (block_size d) Hpos ltac:(nia)) as [Hk _].
  destruct (read_sectors_ok d 0 1 Hd Hh) as (d1 & E1 & Hn1); [lia | lia | nia | lia |]. unfold detect_partitions. rewrite E1. cbn [outcome_bind].
  rewrite Z.mul_0_l, Z.mul_1_l, H0, parse_mbr_encoded, Hprot by done. cbn [outcome_bind].
  pose proof Hn1 as (Hd1 & Hh1 & (Eb & El & _) & Hb1). rewrite <- Eb.
  destruct (parse_gpt_ok d1 fields lba sz post1 es post2 Hd1 Hh1) as (d2 & -> & Hn2); rewrite ?Eb, ?El; try done.
  - by rewrite (seg_ext _ (io_bytes d)) by (intros; apply Hb1).
  - by rewrite (seg_ext _ (io_bytes d)) by (intros; apply Hb1).
  - exists d2. split; [done |]. eapply device_now_trans; [exact Hn1 | exact Hn2 | exact Hb1].
Qed.

(** The same for a legacy table. *)
Theorem mbr_table_roundtrip (d : D) (boot : list Z) (es : list MbrEntry) (post : list Z) :
  io_inv d -> io_healthy d -> block_size d <= io_len d -> block_size d <= VEC_MAX ->
  seg (io_bytes d) 0 (block_size d) = mbr_sector boot es post -> length boot = 446%nat -> length es = 4%nat -> Forall mbr_entry_ok es ->
  existsb is_protective es = false ->
  exists d', detect_partitions d = Done (mbr_infos es 0, d') /\ device_now d d' (io_bytes d).
Proof.
  intros Hd Hh Hl Hm H0 Hboot Hfour Hmbr Hprot. pose proof (block_size_pos d Hd) as Hpos.
  destruct (read_sectors_ok d 0 1 Hd Hh) as (d1 & E1 & Hn1); [lia | lia | lia | lia |]. unfold detect_partitions. rewrite E1. cbn [outcome_bind].
  rewrite Z.mul_0_l, Z.mul_1_l, H0, parse_mbr_encoded, Hprot by done. cbn [outcome_bind]. exists d1. split; [| done]. by destruct (mbr_infos es 0).
Qed.

End Detection.

(** ** Concrete disks *)

Module PartitionDemo.

(** Eight blocks of two bytes; the partitions are blocks 1 to 3 and 4 to 6. *)
Definition disk8 : RamDisk := mkDisk 2 [1; 2; 3; 4; 5; 6; 7; 8; 9; 10; 11; 12; 13; 14; 15; 16] false.

Lemma disk8_ok : disk_inv disk8.
Proof. split; [by vm_compute |]. exists 8. by vm_compute. Qed.

Definition left_part : PartitionDevice := partition_new disk8 1 3.
Definition right_part : PartitionDevice := partition_new disk8 4 3.

Definition mixed : list (bool * PartOp) :=
  [(true, PWrite [20; 21; 22; 23] 1); (false, PRead [0; 0] 0); (false, PWrite [30; 31] 2); (true, PWrite [99; 99] 3);
   (true, PRead [0; 0; 0; 0; 0; 0] 0); (false, PFlush); (false, PRead [0; 0] 2)].

Lemma left_usable : usable left_part disk8.
Proof. split; [exact disk8_ok |]. split; [done |]. split; [by vm_compute | by vm_compute]. Qed.

Lemma right_usable : usable right_part disk8.
Proof. split; [exact disk8_ok |]. split; [done |]. split; [by vm_compute | by vm_compute]. Qed.

Lemma mixed_fits : Forall (fun e => op_fits (if fst e : bool then left_part else right_part) (snd e)) mixed.
Proof.
  repeat constructor; cbn [fst snd op_fits]; first [by (exists 2; vm_compute) | by (exists 1; vm_compute) | by (exists 3; vm_compute)].
Qed.

Lemma partitions_do_not_interfere_witness :
  exists rs d' dp dq, both_run left_part right_part mixed disk8 = Done (rs, d') /\
    part_run left_part (side true mixed) disk8 = Done (side true rs, dp) /\
    part_run right_part (side false mixed) disk8 = Done (side false rs, dq) /\
    agree left_part (io_bytes d') (io_bytes dp) /\ agree right_part (io_bytes d') (io_bytes dq) /\
    forall i, (i < part_start left_part \/ part_end left_part <= i) -> (i < part_start right_part \/ part_end right_part <= i) ->
      io_bytes d' i = io_bytes disk8 i.
Proof.
  apply (partitions_do_not_interfere left_part right_part mixed disk8 left_usable right_usable); [left; by vm_compute | exact mixed_fits].
Defined.

(** The results of the run above. *)
Example mixed_results :
  match both_run left_part right_part mixed disk8 with
  | Done (rs, d) =>
      side true rs = [RWrite (Ok 2); RWrite (Err (Other "PartitionDevice: write beyond partition boundary"));
                      RRead (Ok 3) [3; 4; 20; 21; 22; 23]] /\
      side false rs = [RRead (Ok 1) [9; 10]; RWrite (Ok 1); RFlush (Ok tt); RRead (Ok 1) [30; 31]] /\
      rd_data d = [1; 2; 3; 4; 20; 21; 22; 23; 9; 10; 11; 12; 30; 31; 15; 16]
  | Panic => False
  end.
Proof. by vm_compute. Qed.

(** The check adds the offset and the number of blocks in 64 bits: a request at the last
    offset passes it and reaches the block in front of the partition. *)
Example request_escapes_partition :
  match partition_write left_part disk8 [66; 66] U64_MAX with
  | Done (r, d) => r = Ok 1 /\ rd_data d = [66; 66; 3; 4; 5; 6; 7; 8; 9; 10; 11; 12; 13; 14; 15; 16]
  | Panic => False
  end.
Proof. by vm_compute. Qed.

(** A disk of four blocks with a GPT table: two partitions and an unused entry between. *)
Definition guid (b : Z) : list Z := replicate 15 0 ++ [b].

Definition esp : GptEntry := mkGpt (guid 1) (guid 11) 34 133 0 (text "EFI").
Definition unused : GptEntry := mkGpt (replicate 16 0) (replicate 16 0) 0 0 0 [].
(** The name has a character outside the basic plane. *)
Definition data : GptEntry := mkGpt (guid 2) (guid 12) 134 1133 1 [100; 0xD83D; 0xDE00].

Definition protective : list MbrEntry :=
  [mkMbr (replicate 4 0) 0xEE (replicate 3 0) 1 1200; mkMbr (replicate 4 0) 0 (replicate 3 0) 0 0;
   mkMbr (replicate 4 0) 0 (replicate 3 0) 0 0; mkMbr (replicate 4 0) 0 (replicate 3 0) 0 0].

Definition gpt_sectors (sz : Z) (es : list GptEntry) : list Z :=
  mbr_sector (replicate 446 0) protective [] ++ gpt_header (replicate 64 0) 2 (Z.of_nat (length es)) sz (replicate 424 0) ++
  concat (gpt_entry sz <$> es).

Definition gpt_disk : RamDisk := mkDisk 512 (gpt_sectors 128 [esp; unused; data; unused] ++ replicate 512 0) false.

Lemma gpt_disk_ok : disk_inv gpt_disk.
Proof. split; [by vm_compute |]. exists 4. split; [lia |]. split; by vm_compute. Qed.

Lemma gpt_disk_table :
  gpt_on gpt_disk (replicate 446 0) protective [] (replicate 64 0) 2 128 (replicate 424 0) [esp; unused; data; unused] [].
Proof.
  split; [vm_compute; reflexivity | reflexivity | reflexivity | | reflexivity | vm_compute; reflexivity | reflexivity | by vm_compute |
    by vm_compute | done | | vm_compute; reflexivity | by vm_compute | by vm_compute | by vm_compute].
  - repeat constructor; by vm_compute.
  - repeat constructor; by vm_compute.
Qed.

Lemma gpt_table_roundtrip_witness :
  exists d', detect_partitions gpt_disk =
      Done ([mkPart 0 34 100 (GptType (guid 1)) (text "EFI"); mkPart 1 134 1000 (GptType (guid 2)) [100; 0x1F600]], d') /\
    device_now gpt_disk d' (io_bytes gpt_disk).
Proof.
  change [mkPart 0 34 100 (GptType (guid 1)) (text "EFI"); mkPart 1 134 1000 (GptType (guid 2)) [100; 0x1F600]]
    with (gpt_infos [esp; unused; data; unused] 0).
  apply (gpt_table_roundtrip gpt_disk (replicate 446 0) protective [] (replicate 64 0) 2 128 (replicate 424 0) [esp; unused; data; unused] []);
    [exact gpt_disk_ok | done | exact gpt_disk_table].
Defined.

(** A header that gives an entry size between 16 and 55 makes the parser panic on the first
    entry in use: the range of the name field ends before it starts. *)
Example short_entries_panic :
  detect_partitions (mkDisk 512 (mbr_sector (replicate 446 0) protective [] ++ gpt_header (replicate 64 0) 2 1 48 (replicate 424 0) ++
                                 guid 1 ++ replicate 496 0) false) = Panic.
Proof. by vm_compute. Qed.

End PartitionDemo.
