(* ===== verification/Plugins.v ===== *)
(** * Scheduling plugins

    [kernel/mks/src/plugin.rs]: groups of tasks whose next task a plugin chooses, the three
    built-in plugins, and the registry with the runnable tasks of each group.

    A plugin is a record of its hooks; the ones that only inform it have no effect on the
    kernel and are left out.  What a plugin returns is up to it, so the theorems on the
    registry hold for any function; the built-in plugins are functions of the tasks and of
    the context.  The number of cycles that a call takes is an argument. *)

From stdpp Require Import gmap sorting.
From S2P Require Import Prelude SchedTask EpochSched.

Definition PLUGIN_TIMEOUT_NS : Z := 10000.

Record SchedContext := mkCtx { cx_cpu_id : Z; cx_runnable : list TaskRef; cx_now_ns : Z; cx_prev_task : option TaskRef }.

Inductive PluginAction := Continue | Override | BlockTask | Migrate (cpu : Z).

Record SchedPlugin := mkPlugin {
  pl_name : string;
  on_task_runnable : Tasks -> TaskRef -> Z -> PluginAction;
  plugin_pick : Tasks -> SchedContext -> option TaskRef;
  on_tick : Tasks -> TaskRef -> Z -> bool;
}.

(** The default hooks of the trait. *)
Definition plugin_default (name : string) : SchedPlugin :=
  mkPlugin name (fun _ _ _ => Continue) (fun _ _ => None) (fun _ _ _ => false).

(** ** The built-in plugins *)

(** [Iterator::min_by_key]: the first of the smallest elements. *)
Fixpoint first_min (key : TaskRef -> Z) (l : list TaskRef) : option TaskRef :=
  match l with
  | [] => None
  | t :: l => match first_min key l with Some m => Some (if key m <? key t then m else t) | None => Some t end
  end.

(** [Iterator::max_by_key]: the last of the largest elements. *)
Fixpoint last_max (key : TaskRef -> Z) (l : list TaskRef) : option TaskRef :=
  match l with
  | [] => None
  | t :: l => match last_max key l with Some m => Some (if key m <? key t then t else m) | None => Some t end
  end.

Definition wakeup (ts : Tasks) (t : TaskRef) : Z := wakeup_time_ns (sched (ts t)).

Definition latency_pick (ts : Tasks) (ctx : SchedContext) : option TaskRef := first_min (wakeup ts) (cx_runnable ctx).

Definition latency_first : SchedPlugin :=
  mkPlugin "LatencyFirst" (fun _ _ _ => Continue) latency_pick (fun _ _ _ => false).

Definition throughput_pick (ts : Tasks) (ctx : SchedContext) : option TaskRef :=
  last_max (fun t => weight (sched (ts t))) (cx_runnable ctx).

Definition throughput_first : SchedPlugin :=
  mkPlugin "ThroughputFirst" (fun _ _ _ => Continue) throughput_pick (fun _ _ _ => false).

Definition isolated_pick (dedicated_cpu : Z) (ts : Tasks) (ctx : SchedContext) : option TaskRef :=
  if negb (cx_cpu_id ctx =? dedicated_cpu) then None else first_min (wakeup ts) (cx_runnable ctx).

Definition isolated_core (dedicated_cpu : Z) : SchedPlugin :=
  mkPlugin "IsolatedCore" (fun _ _ _ => Migrate dedicated_cpu) (isolated_pick dedicated_cpu) (fun _ _ _ => false).

(** ** The registry *)

Record PluginRegistry := mkRegistry { rg_plugins : gmap Z SchedPlugin; rg_runnable : gmap Z (list TaskRef) }.

Definition registry_new : PluginRegistry := mkRegistry ∅ ∅.

Definition plugin_register (group : Z) (plugin : SchedPlugin) (r : PluginRegistry) : PluginRegistry :=
  mkRegistry (<[group := plugin]> (rg_plugins r)) (rg_runnable r).

Definition plugin_unregister (group : Z) (r : PluginRegistry) : PluginRegistry :=
  mkRegistry (delete group (rg_plugins r)) (delete group (rg_runnable r)).

Definition registry_get (group : Z) (r : PluginRegistry) : option SchedPlugin := rg_plugins r !! group.

(** The runnable set of a group, empty when it has none. *)
Definition group_tasks (group : Z) (r : PluginRegistry) : list TaskRef := default [] (rg_runnable r !! group).

Definition set_group (group : Z) (l : list TaskRef) (r : PluginRegistry) : PluginRegistry :=
  mkRegistry (rg_plugins r) (<[group := l]> (rg_runnable r)).

Definition notify_runnable (ts : Tasks) (group : Z) (task : TaskRef) (cpu : Z) (r : PluginRegistry) : PluginAction * PluginRegistry :=
  let r := set_group group (group_tasks group r ++ [task]) r in
  (match rg_plugins r !! group with Some plugin => on_task_runnable plugin ts task cpu | None => Continue end, r).

Definition tsc_to_ns (tsc : Z) : Z := tsc / 3.

(** [pick_next]; the plugin's call takes [cycles]. *)
Definition registry_pick (ts : Tasks) (group cpu_id : Z) (prev : option TaskRef) (now_ns cycles : Z) (r : PluginRegistry)
    : option TaskRef * PluginRegistry :=
  match rg_plugins r !! group with
  | None => (None, r)
  | Some plugin =>
      let runnable := filter (fun t => is_runnable ts t = true) (group_tasks group r) in
      let r := set_group group runnable r in
      match runnable with
      | [] => (None, r)
      | _ =>
          let result := plugin_pick plugin ts (mkCtx cpu_id runnable now_ns prev) in
          if PLUGIN_TIMEOUT_NS <? tsc_to_ns cycles then (None, r)
          else match result with
               | Some picked => (Some picked, set_group group (filter (fun t => t <> picked) runnable) r)
               | None => (None, r)
               end
      end
  end.

(** ** What the built-in plugins choose *)

Lemma first_min_spec (key : TaskRef -> Z) (l : list TaskRef) :
  match first_min key l with
  | Some m => exists before after, l = before ++ m :: after /\ Forall (fun t => key m < key t) before /\ Forall (fun t => key m <= key t) after
  | None => l = []
  end.
Proof.
  induction l as [| t l IH]; [done |]. cbn [first_min]. destruct (first_min key l) as [m |]; [| subst l; by exists [], []].
  destruct IH as (b & a & -> & Hb & Ha). destruct (Z.ltb_spec (key m) (key t)).
  - exists (t :: b), a. split; [done |]. split; [by constructor | done].
  - exists [], (b ++ m :: a). split; [done |]. split; [done |]. rewrite Forall_app, Forall_cons. split_and!; [| lia |].
    + eapply Forall_impl; [exact Hb |]. intros; simpl in *; lia.
    + eapply Forall_impl; [exact Ha |]. intros; simpl in *; lia.
Qed.

Lemma last_max_spec (key : TaskRef -> Z) (l : list TaskRef) :
  match last_max key l with
  | Some m => exists before after, l = before ++ m :: after /\ Forall (fun t => key t <= key m) before /\ Forall (fun t => key t < key m) after
  | None => l = []
  end.
Proof.
  induction l as [| t l IH]; [done |]. cbn [last_max]. destruct (last_max key l) as [m |]; [| subst l; by exists [], []].
  destruct IH as (b & a & -> & Hb & Ha). destruct (Z.ltb_spec (key m) (key t)).
  - exists [], (b ++ m :: a). split; [done |]. split; [done |]. rewrite Forall_app, Forall_cons. split_and!; [| lia |].
    + eapply Forall_impl; [exact Hb |]. intros; simpl in *; lia.
    + eapply Forall_impl; [exact Ha |]. intros; simpl in *; lia.
  - exists (t :: b), a. split; [done |]. split; [by constructor | done].
Qed.

(** ** What the registry does with a choice *)

(** The plugin chooses among the tasks it is offered. *)
Definition chooses_offered (p : SchedPlugin) : Prop :=
  forall ts ctx t, plugin_pick p ts ctx = Some t -> t ∈ cx_runnable ctx.

Lemma latency_chooses : chooses_offered latency_first.
Proof.
  intros ts ctx t E. cbn in E. unfold latency_pick in E. pose proof (first_min_spec (wakeup ts) (cx_runnable ctx)) as H. rewrite E in H.
  destruct H as (b & a & -> & _). set_solver.
Qed.

Lemma throughput_chooses : chooses_offered throughput_first.
Proof.
  intros ts ctx t E. cbn in E. unfold throughput_pick in E. pose proof (last_max_spec (fun t => weight (sched (ts t))) (cx_runnable ctx)) as H.
  rewrite E in H. destruct H as (b & a & -> & _). set_solver.
Qed.

Lemma isolated_chooses (cpu : Z) : chooses_offered (isolated_core cpu).
Proof.
  intros ts ctx t E. cbn in E. unfold isolated_pick in E. destruct (negb _); [done |].
  pose proof (first_min_spec (wakeup ts) (cx_runnable ctx)) as H. rewrite E in H. destruct H as (b & a & -> & _). set_solver.
Qed.

Lemma group_set (g h : Z) (l : list TaskRef) (r : PluginRegistry) :
  group_tasks h (set_group g l r) = if decide (h = g) then l else group_tasks h r.
Proof.
  unfold group_tasks, set_group. cbn [rg_runnable]. destruct (decide (h = g)) as [-> |]; [by rewrite lookup_insert_eq | by rewrite lookup_insert_ne].
Qed.

Lemma remove_one_Permutation (t : TaskRef) (l : list TaskRef) :
  NoDup l -> t ∈ l -> Permutation (t :: filter (fun x => x <> t) l) l.
Proof.
  intros Hl Ht. apply list.NoDup_Permutation; [| done |].
  - apply NoDup_cons. split; [rewrite list_elem_of_filter; tauto | by apply NoDup_filter].
  - intros x. rewrite elem_of_cons, list_elem_of_filter. destruct (decide (x = t)) as [-> |]; tauto.
Qed.

(** Whatever the plugin does, however long it takes: a pick loses no runnable task of its
    group (the one it returns, and only that one, leaves the set), returns a runnable task of
    the group, and does not touch other groups or the plugins. *)
Theorem registry_pick_keeps_tasks (ts : Tasks) (g cpu : Z) (prev : option TaskRef) (now cycles : Z) (r : PluginRegistry) (p : SchedPlugin) :
  rg_plugins r !! g = Some p -> chooses_offered p -> NoDup (group_tasks g r) ->
  let '(res, r') := registry_pick ts g cpu prev now cycles r in
  Permutation (option_list res ++ group_tasks g r') (filter (fun t => is_runnable ts t = true) (group_tasks g r)) /\
  rg_plugins r' = rg_plugins r /\ (forall h, h <> g -> group_tasks h r' = group_tasks h r).
Proof.
  intros Hp Hch Hnd. unfold registry_pick. rewrite Hp. set (l := filter _ (group_tasks g r)). 
  assert (NoDup l) as Hl by by apply NoDup_filter.
  assert (forall h, h <> g -> group_tasks h (set_group g l r) = group_tasks h r) as Ho by (intros h Hh; by rewrite group_set, decide_False).
  assert (group_tasks g (set_group g l r) = l) as Hg by by rewrite group_set, decide_True.
  destruct l as [| t0 l0] eqn:El; [cbn [option_list app]; by rewrite Hg |]. rewrite <- El in *.
  destruct (PLUGIN_TIMEOUT_NS <? tsc_to_ns cycles); [cbn [option_list app]; by rewrite Hg |].
  destruct (plugin_pick p ts (mkCtx cpu l now prev)) as [t |] eqn:Et; [| cbn [option_list app]; by rewrite Hg].
  apply Hch in Et. cbn [cx_runnable] in Et. cbn [option_list app]. rewrite group_set, decide_True by done. split; [| split; [done |]].
  - by apply remove_one_Permutation.
  - intros h Hh. by rewrite group_set, decide_False, Ho.
Qed.

(** ** The latency-first plugin serves in order *)

(** The tasks that up to [n] picks return. *)
Fixpoint serve (ts : Tasks) (g cpu now cycles : Z) (n : nat) (r : PluginRegistry) : list TaskRef * PluginRegistry :=
  match n with
  | O => ([], r)
  | S n =>
      match registry_pick ts g cpu None now cycles r with
      | (Some t, r) => let '(l, r) := serve ts g cpu now cycles n r in (t :: l, r)
      | (None, r) => ([], r)
      end
  end.

(** One pick of the plugin, on the runnable tasks of its group. *)
Lemma latency_step (ts : Tasks) (g cpu now cycles : Z) (r : PluginRegistry) :
  rg_plugins r !! g = Some latency_first -> tsc_to_ns cycles <= PLUGIN_TIMEOUT_NS ->
  let l := filter (fun t => is_runnable ts t = true) (group_tasks g r) in
  (l = [] /\ registry_pick ts g cpu None now cycles r = (None, set_group g [] r)) \/
  exists m r1, registry_pick ts g cpu None now cycles r = (Some m, r1) /\ rg_plugins r1 = rg_plugins r /\
    group_tasks g r1 = filter (fun t => t <> m) l /\ m ∈ l /\ Forall (fun t => wakeup ts m <= wakeup ts t) l.
Proof.
  intros Hp Hc l. unfold registry_pick. rewrite Hp. fold l. destruct l as [| t0 l0] eqn:El; [by left | right]. rewrite <- El.
  destruct (Z.ltb_spec PLUGIN_TIMEOUT_NS (tsc_to_ns cycles)); [lia |]. cbn [plugin_pick latency_first]. unfold latency_pick. cbn [cx_runnable].
  pose proof (first_min_spec (wakeup ts) l) as Hmin. destruct (first_min (wakeup ts) l) as [m |]; [| by rewrite Hmin in El].
  destruct Hmin as (b & a & Hl & Hb & Ha). eexists m, _. split; [done |]. split; [done |]. rewrite group_set, decide_True by done. split; [done |].
  rewrite Hl. split; [set_solver |]. rewrite Forall_app, Forall_cons. split_and!; [| lia | done].
  eapply Forall_impl; [exact Hb |]. intros; simpl in *; lia.
Qed.

Lemma serve_in_order (ts : Tasks) (g cpu now cycles : Z) (n : nat) (r : PluginRegistry) :
  rg_plugins r !! g = Some latency_first -> NoDup (group_tasks g r) -> tsc_to_ns cycles <= PLUGIN_TIMEOUT_NS ->
  (length (group_tasks g r) <= n)%nat ->
  let '(picks, r') := serve ts g cpu now cycles n r in
  Permutation picks (filter (fun t => is_runnable ts t = true) (group_tasks g r)) /\
  StronglySorted (fun a b => wakeup ts a <= wakeup ts b) picks /\ group_tasks g r' = [].
Proof.
  intros Hp Hnd Hc. revert r Hp Hnd. induction n as [| n IH]; intros r Hp Hnd Hn.
  { destruct (group_tasks g r) eqn:E; [| simpl in Hn; lia]. split_and!; [done | constructor | done]. }
  cbn [serve]. destruct (latency_step ts g cpu now cycles r Hp Hc) as [[El ->] | (m & r1 & -> & Hpl & Hg1 & Hm & Hmin)].
  { rewrite El. split_and!; [done | constructor | by rewrite group_set, decide_True]. }
  set (l := filter (fun t => is_runnable ts t = true) (group_tasks g r)) in *. assert (NoDup l) as Hl by by apply NoDup_filter.
  pose proof (length_filter_lt (fun t => t <> m) l m Hm ltac:(tauto)) as Hlt.
  pose proof (length_filter (fun t => is_runnable ts t = true) (group_tasks g r)) as Hle. fold l in Hle.
  specialize (IH r1 ltac:(congruence) ltac:(rewrite Hg1; by apply NoDup_filter) ltac:(rewrite Hg1; lia)).
  destruct (serve ts g cpu now cycles n r1) as [picks r']. destruct IH as (Hpp & Hs & He). rewrite Hg1 in Hpp.
  assert (filter (fun t => is_runnable ts t = true) (filter (fun t => t <> m) l) = filter (fun t => t <> m) l) as Er
    by (unfold l; rewrite !list_filter_filter; apply list_filter_iff; tauto).
  rewrite Er in Hpp. split_and!; [| | done].
  - rewrite Hpp. by apply remove_one_Permutation.
  - constructor; [done |]. rewrite Hpp. apply Forall_forall. intros x Hx. apply list_elem_of_filter in Hx as [_ Hx]. by eapply Forall_forall in Hmin.
Qed.

(** When its calls stay within the time limit, the plugin hands out every runnable task of
    its group once, in the order in which they woke up, and nothing is left. *)
Theorem latency_first_serves_in_order (ts : Tasks) (g cpu now cycles : Z) (r : PluginRegistry) :
  rg_plugins r !! g = Some latency_first -> NoDup (group_tasks g r) -> tsc_to_ns cycles <= PLUGIN_TIMEOUT_NS ->
  let '(picks, r') := serve ts g cpu now cycles (length (group_tasks g r)) r in
  Permutation picks (filter (fun t => is_runnable ts t = true) (group_tasks g r)) /\
  StronglySorted (fun a b => wakeup ts a <= wakeup ts b) picks /\ group_tasks g r' = [].
Proof. intros Hp Hnd Hc. by apply serve_in_order. Qed.

(** A task that is notified twice is in the set twice, and a group without a plugin
    collects the tasks it is told about without ever handing one out. *)
Module PluginDemo.

Definition woken_at : Tasks := fun t => mkTask Runnable (mkSched 0 0 0 1024 4194304 0 0 0 None Normal 0 (100 - t) false 0).

Definition three_tasks : PluginRegistry :=
  snd (notify_runnable woken_at 7 3 0 (snd (notify_runnable woken_at 7 1 0 (snd (notify_runnable woken_at 7 2 0 (plugin_register 7 latency_first registry_new)))))).

Example served : fst (serve woken_at 7 0 0 9000 3 three_tasks) = [3; 2; 1].
Proof. by vm_compute. Qed.

Example slow_plugin_defers : fst (registry_pick woken_at 7 0 None 0 30003 three_tasks) = None.
Proof. by vm_compute. Qed.

Example notified_twice :
  group_tasks 7 (snd (notify_runnable woken_at 7 3 0 three_tasks)) = [2; 1; 3; 3].
Proof. by vm_compute. Qed.

Example unplugged_group_grows :
  let r := snd (notify_runnable woken_at 9 2 0 (snd (notify_runnable woken_at 9 1 0 three_tasks))) in
  registry_pick woken_at 9 0 None 0 0 r = (None, r) /\ group_tasks 9 r = [1; 2].
Proof. by vm_compute. Qed.

End PluginDemo.
